(* ===== verification/_CoqProject ===== *)
-Q . S2P
Prelude.v
Varint.v
VarintChunks.v
Ranges.v
Rechist.v
RechistSpec.v
RechistThms.v
Art.v
Frames.v
FramesThms.v
Ack.v
Trechist.v
MiniHist.v
Headers.v
HeadersThms.v
Heap.v
Attq.v
IntSet.v
Flow.v
DataIn.v
SendCtl.v
SendCtlSpec.v
SendCtlLoss.v
SendCtlAck.v
SendCtlThms.v
SendCtlRun.v
SendCtlClaims.v
TransParams.v
Timing.v
DiHash.v
DiHashThms.v
DataInIf.v
StreamIn.v
StreamInThms.v
Frab.v
Hcsi.v
HcsiSpec.v
Hcso.v
Spi.v
Hpi.v
Alarms.v
Retx.v
RetxThms.v
RetxRun.v
RetxClaims.v
Binary.v
BwSampler.v
Bbr.v
BbrThms.v
BbrClaims.v
Rounding.v
Cubic.v
CubicThms.v
CubicClaims.v
Adaptive.v
