(* ===== verification/Prelude.v ===== *)
(** Verification of the transport core of LSQUIC with ART, the adaptive
    redundant retransmission of this fork (src/src/liblsquic).

    * The program

    LSQUIC is an event-driven implementation of QUIC.  The engine owns
    connections and asks the advisory tick time queue which connection is due.
    A connection parses packet headers, removes header protection, and hands
    each frame to the component concerned: STREAM frames to flow control and
    then to the data-in queue of their stream, ACK frames to the send
    controller.  Numbers of received packets enter the receive history, from
    which ACK frames are generated.  The send controller keeps every packet
    that was sent until it is acknowledged or lost.  ART acts there: a lost
    packet is sent again in several duplicates, spread over the minimum RTT,
    whose number follows the loss rate of earlier duplicates.

    * Files

    - Prelude: machine integers ([wrapu], [wraps] and the abbreviations [u8] to
      [u64], [i64]), byte strings, arrays with undefined out-of-range access,
      the tactics and hint databases of the development.
    - Varint: variable-length integers (lsquic_varint.h, lsquic_varint.c): the
      writer, the reader and the two resumable readers, the state of which
      VarintChunks relates to the bytes read so far.
    - Ranges: lists of packet number ranges, the abstract value that the
      receive histories implement and ACK frames carry, and the class
      [RangeSource] through which ranges are read.
    - Rechist, RechistSpec, RechistThms: the receive history
      (lsquic_rechist.c): array elements threaded into a list, with a bit mask
      of free slots; its invariant and the refinement of Ranges.
    - Frames, FramesThms: generators, parsers and size functions of the frames
      of IETF QUIC v1 (lsquic_parse_ietf_v1.c, lsquic_parse_iquic_common.c).
    - Ack: generator and parser of ACK frames.  The generator reads ranges
      through the class [RangeSource], of which Rechist is an instance.
    - Trechist: the tiny receive history (lsquic_trechist.c).  MiniHist: the
      packet numbers of the mini connection (lsquic_mini_conn_ietf.c), in bit
      masks or tiny histories, and their promotion to the full connection
      (lsquic_full_conn_ietf.c); its iterator is an instance of [RangeSource].
    - Headers, HeadersThms: packet headers, packet number truncation, header
      protection, version negotiation (lsquic_parse_ietf_v1.c,
      lsquic_enc_sess_ietf.c, lsquic_version.c, lsquic_packet_in.c).
    - Heap, Attq: the min heap (lsquic_min_heap.c) and the advisory tick time
      queue (lsquic_attq.c), with the theory of heap order both rest on.
    - IntSet: sets of integers (lsquic_set.c), both widths.
    - Flow: receive flow control (lsquic_cfcw.c, lsquic_sfcw.c and the places
      of lsquic_stream.c that drive them).
    - DataIn: reassembly of streams without copying (lsquic_di_nocopy.c,
      [read_data_frames] of lsquic_stream.c).
    - DiHash, DiHashThms: reassembly of streams whose frames overlap, in a hash
      table of blocks (lsquic_di_hash.c), and its refinement of the map from
      offsets to bytes.
    - DataInIf: the interface of both (lsquic_data_in_if.h) as the classes
      [DataInOps] and [DataInLaws], and the read loop over the interface.
    - StreamIn, StreamInThms: the receiving side of a stream (lsquic_stream.c):
      incoming frames and the change from one implementation to the other.
    - TransParams: transport parameters (lsquic_trans_params.c), both versions.
    - Timing: RTT statistics (lsquic_rtt.c), windowed extrema (lsquic_minmax.c)
      and the pacer (lsquic_pacer.c).
    - Art: the feedback window and redundancy table of ART
      (lsquic_art_feedback.c, the ART parts of lsquic_send_ctl.c and
      lsquic_packet_out.c), in IEEE 754 arithmetic.
    - SendCtl: the send controller (lsquic_send_ctl.c): packets in memory, the
      unacked, lost and scheduled queues, circular loss chains, counters.
      SendCtlSpec holds its invariant, SendCtlLoss, SendCtlAck and SendCtlThms
      the lemmas on losses, walks over the queue and acknowledgements,
      SendCtlRun its runs, SendCtlClaims the theorems.
    - Alarms: the alarms of a connection (lsquic_alarmset.c) and the class
      [RingLaws] of what their callbacks promise.  Retx: the retransmission
      timers of the send controller (lsquic_send_ctl.c), which add alarms to
      functions of SendCtl.  RetxThms holds their lemmas, RetxRun the runs of the
      controller with its alarms and the instance of [RingLaws], RetxClaims the
      theorems.
    - Binary: bounds of binary floating point numbers.  BwSampler: the bandwidth
      sampler (lsquic_bw_sampler.c).  Bbr: BBR congestion control (lsquic_bbr.c)
      in binary32 and binary64 arithmetic; BbrThms holds its invariant and
      lemmas, BbrClaims its runs with the sampler and the theorem.
    - Rounding: exact bounds of binary64 operations.  Cubic: Cubic congestion
      control (lsquic_cubic.c); CubicThms holds the error analysis of its curve,
      CubicClaims its runs and the theorem.  Adaptive: the controller that runs
      BBR and Cubic side by side (lsquic_adaptive_cc.c).
    - Frab: the list of buffers of data to be sent (lsquic_frab_list.c).  Hcsi:
      the reader of the HTTP/3 control stream (lsquic_hcsi_reader.c); HcsiSpec:
      the grammar of the stream as an automaton on bytes, which the reader
      refines.  Hcso: the writer of the control stream (lsquic_hcso_writer.c)
      and the classifier of incoming unidirectional streams
      (lsquic_full_conn_ietf.c), which connects the two ends.
    - Spi, Hpi: the iterators over the streams of a connection, by the priorities
      of Google QUIC (lsquic_spi.c) and of HTTP (lsquic_hpi.c, on the min heap).

    * How C is modelled

    State is passed explicitly.  A struct is a [Record], an array a list, a
    tail queue the list of its elements.  Where pointers are shared (Attq,
    SendCtl) memory is a finite map from pointers to objects, so that the use of
    a dangling pointer is an error of the model.  Unsigned arithmetic that can
    wrap is written with [wrapu].  [None], or a fault, stands for undefined
    behaviour and failed assertions.  The safety theorems exclude it; where the
    source does get there, they say exactly when.
    Results of [malloc], the clock, [rand()] and the cipher of the header
    protection are arguments of the functions that use them; in StreamIn the
    results of [malloc] are a list that the functions consume.

    Loops that are not structural have fuel, and running out of it counts as a
    fault, which the theorems exclude.  A walk over a queue has as much fuel as
    the queue has elements, and a walk over a loss chain one more than there are
    packets; parsers use up a byte per round; the heaps go up or down a level
    per round.

    * What is proved

    - Codecs: everything generated is parsed back to the same values (varints,
      STREAM, CRYPTO and control frames, ACK frames, headers, packet numbers),
      and the parsers stay inside the packet on arbitrary bytes.  The ACK frame
      made from a receive history of any size acknowledges only what was
      received, and the largest; its generator overruns the buffer exactly when
      the frame for 65 ranges is one byte too long for it.
    - Receive histories, integer sets, tick time queue, heaps: each refines
      its abstract value (range list, set, finite map, multiset) under every
      operation.
    - Mini connection: packet numbers survive the switch from masks to tiny
      histories and the promotion to a full history, as far as the 32-bit
      numbers and 8-bit counts of the tiny history reach ([mini_fits]); an ACK
      frame retires exactly what it covers, names a packet that was never sent,
      or fails an assertion because it covers a packet of another space.
    - Flow control and reassembly: offsets stay ordered, the connection's
      counters are sums over its streams, frames are accepted exactly within
      the limits, and without STOP_SENDING buffered data stay within the windows.
      Whichever implementation a stream uses, and whenever it changes, the reader
      gets exactly the bytes of the stream in order, and a read stops only at the
      size asked for, at a FIN or where data lack.  The end is reported where a
      frame with a FIN ends or where the hash table mistakes an offset for it.
    - Transport parameters: what is encoded is decoded to the same parameters,
      and whatever is decoded from arbitrary bytes is within the limits.
    - HTTP/3 control stream: the frames one end writes, whatever the pieces they
      travel in, are the events the other end reports; on arbitrary bytes the
      reader follows the grammar, errors and the two inputs that take it out of
      its buffer included.
    - Priority iterators: each stream is returned once, in the order of the
      priorities, whatever allocations fail (where the heap of the HTTP iterator
      cannot be allocated, the order by identifier is abandoned); dropping the
      highest priority, or all others, leaves exactly the rest.
    - Timing: the smoothed RTT stays between the samples, the windowed extremum
      is a sample of the window and bounds the recent ones, the pacer lets ten
      packets go at once whenever nothing is in flight outside recovery and then
      never sends faster than the delays it is given but for the clock granularity.
    - ART: the floating point decisions are those of exact arithmetic, the
      redundancy settles under a constant loss rate, a turn of duplicates ends
      after the number asked for less what earlier turns left in the count.
    - Send controller: from initialisation on, no sequence of operations uses a
      dangling pointer, runs out of a loop, fails an assertion or breaks a counter,
      but for four faults that are outcomes of the model: dropping a lost packet,
      two where memory runs out, and a packet lost too often; acknowledgements
      free exactly the chains they name; loss detection finds exactly the
      packets that meet its criteria; duplicates keep the flight.  The consistency
      check of the source holds exactly while no duplicate is under way.
    - Timers: while a packet waits the alarm of its space is armed, for exactly
      the delay of the mode and at most a minute, unless the delay of the handshake
      was doubled 64 times; a tick rings exactly the alarms that are overdue, those
      of the rest of the connection among them, and leaves none behind.
    - Congestion control: the samples of the bandwidth sampler are those of exact
      arithmetic; no sequence of operations fails an assertion of BBR or
      overflows a conversion, its window keeps its limits, its mode the arrows
      of the state machine.  Cubic's window is the cubic curve to within rounding,
      given a cube root that is right to 2^-30, and Cubic is undefined exactly where
      it divides by a Reno window of zero; the adaptive controller's parts
      are always in states that they could have reached alone.
    - Faults of the source that the proofs brought out are stated as lemmas
      marked "A finding".

    * What is not modelled

    - Streams beyond flow control and receiving, connections and the engine:
      callbacks, sockets and event loops.
    - Of the send controller: the numbering of packets, RTT samples, ECN
      counters, buffered packets, packet splitting and elision, paths and
      0-RTT.  Numbers and sizes are arguments there.
    - Of HTTP/3: headers, requests and the handlers of the connection that
      receive the events of the control stream.
    - Alarms of the connections themselves: in RetxRun they are alarms that are
      armed and disarmed in any order, with any callbacks that disarm no later
      alarm and arm alarms for the future only.
    - Cryptography is BoringSSL's; HTTP compression is that of vendored
      libraries; logging and allocators have no state that matters here. *)
From Stdlib Require Export ZArith Lia ZifyBool.
From stdpp Require Export prelude.
#[export] Set Default Goal Selector "!".

(** * Machine integers

    A C unsigned integer of width [w] is a [Z] in [0, 2^w); every place where
    the C arithmetic can wrap is written with [wrapu]. *)

Declare Scope c_scope.
Delimit Scope c_scope with c.

Definition wrapu (w z : Z) : Z := (z mod 2 ^ w)%Z.

Abbreviation u8 := (wrapu 8).
Abbreviation u16 := (wrapu 16).
Abbreviation u32 := (wrapu 32).
Abbreviation u64 := (wrapu 64).

(** Conversion of a [w]-bit pattern to the signed type of that width. *)
Definition wraps (w z : Z) : Z :=
  (let m := z mod 2 ^ w in if m <? 2 ^ (w - 1) then m else m - 2 ^ w)%Z.

Abbreviation i32 := (wraps 32).
Abbreviation i64 := (wraps 64).

Definition UCHAR_MAX : Z := 255.
Definition UINT16_MAX : Z := 65535.
Definition UINT_MAX : Z := 4294967295.
Definition UINT64_MAX : Z := 18446744073709551615.
Definition INT_MAX : Z := 2147483647.

Definition is_u (w z : Z) : Prop := (0 <= z < 2 ^ w)%Z.

(** [!!b] of C: a boolean as an integer. *)
Definition b2z (b : bool) : Z := if b then 1%Z else 0%Z.

(** Is bit mask [m] set in the flag word [f]: the C test [f & m]. *)
Definition has_flag (f m : Z) : bool := negb (Z.land f m =? 0)%Z.
Definition set_flag (f m : Z) : Z := Z.lor f m.
Definition clear_flag (f m : Z) : Z := Z.ldiff f m.

Section machine_ints.
Local Open Scope Z_scope.

Lemma wrapu_range w z : 0 <= w -> is_u w (wrapu w z).
Proof. intros. apply Z.mod_pos_bound. lia. Qed.

Lemma wrapu_id w z : is_u w z -> wrapu w z = z.
Proof. intros. by apply Z.mod_small. Qed.

Lemma wrapu_idemp w z : wrapu w (wrapu w z) = wrapu w z.
Proof. apply Zmod_mod. Qed.

Lemma wrapu_add_l w a b : wrapu w (wrapu w a + b) = wrapu w (a + b).
Proof. apply Zplus_mod_idemp_l. Qed.

Lemma wrapu_add_r w a b : wrapu w (a + wrapu w b) = wrapu w (a + b).
Proof. apply Zplus_mod_idemp_r. Qed.

Lemma wrapu_sub_l w a b : wrapu w (wrapu w a - b) = wrapu w (a - b).
Proof. apply Zminus_mod_idemp_l. Qed.

Lemma wrapu_sub_r w a b : wrapu w (a - wrapu w b) = wrapu w (a - b).
Proof. apply Zminus_mod_idemp_r. Qed.

Lemma wraps_small w z : 0 < w -> 0 <= z < 2 ^ (w - 1) -> wraps w z = z.
Proof.
  intros Hw Hz. unfold wraps.
  assert (2 ^ w = 2 * 2 ^ (w - 1)) as E.
  { rewrite <- Z.pow_succ_r by lia. f_equal. lia. }
  rewrite Z.mod_small by lia.
  destruct (Z.ltb_spec z (2 ^ (w - 1))); lia.
Qed.

End machine_ints.

Create HintDb cint.
Create Rewrite HintDb cint.
#[export] Hint Rewrite wrapu_idemp wrapu_add_l wrapu_add_r wrapu_sub_l wrapu_sub_r : cint.
#[export] Hint Resolve wrapu_range : cint.

(** Case analysis on every boolean integer comparison of the goal. *)
Ltac zcase :=
  repeat match goal with
  | |- context [Z.ltb ?a ?b] => destruct (Z.ltb_spec a b)
  | |- context [Z.leb ?a ?b] => destruct (Z.leb_spec a b)
  | |- context [Z.eqb ?a ?b] => destruct (Z.eqb_spec a b)
  | |- context [Z.gtb ?a ?b] => rewrite (Z.gtb_ltb a b); destruct (Z.ltb_spec b a)
  | |- context [Z.geb ?a ?b] => rewrite (Z.geb_leb a b); destruct (Z.leb_spec b a)
  end.

(** Resolve one [if] on an integer comparison whose outcome is linear. *)
Ltac ztest :=
  repeat match goal with
  | |- context [Z.ltb ?a ?b] =>
      first [ replace (Z.ltb a b) with true by lia
            | replace (Z.ltb a b) with false by lia ]
  | |- context [Z.leb ?a ?b] =>
      first [ replace (Z.leb a b) with true by lia
            | replace (Z.leb a b) with false by lia ]
  | |- context [Z.eqb ?a ?b] =>
      first [ replace (Z.eqb a b) with true by lia
            | replace (Z.eqb a b) with false by lia ]
  end; cbn beta iota.

(** * Arrays

    A C array is a list; an access outside its bounds is undefined behaviour,
    and undefined behaviour (a failed [assert] included) is [None]. *)

Section arrays.
Context {A : Type}.
Local Open Scope Z_scope.

Definition aget (l : list A) (i : Z) : option A :=
  if i <? 0 then None else l !! Z.to_nat i.

Definition aset (l : list A) (i : Z) (x : A) : option (list A) :=
  if (0 <=? i) && (i <? Z.of_nat (length l))
  then Some (<[Z.to_nat i := x]> l) else None.

Lemma aget_nat (l : list A) (i : nat) : aget l (Z.of_nat i) = l !! i.
Proof. unfold aget. ztest. by rewrite Nat2Z.id. Qed.

Lemma aset_nat (l : list A) (i : nat) x :
  (i < length l)%nat -> aset l (Z.of_nat i) x = Some (<[i := x]> l).
Proof. intros. unfold aset. ztest. by rewrite Nat2Z.id. Qed.

Lemma aget_Some (l : list A) i x :
  aget l i = Some x <-> 0 <= i /\ l !! Z.to_nat i = Some x.
Proof. unfold aget. destruct (Z.ltb_spec i 0); naive_solver lia. Qed.

Lemma aget_is_Some (l : list A) i :
  0 <= i < Z.of_nat (length l) -> exists x, aget l i = Some x.
Proof.
  intros. unfold aget. ztest. apply lookup_lt_is_Some. lia.
Qed.

Lemma aset_Some (l : list A) i x l' :
  aset l i x = Some l' <->
  0 <= i < Z.of_nat (length l) /\ l' = <[Z.to_nat i := x]> l.
Proof.
  unfold aset.
  destruct (Z.leb_spec 0 i), (Z.ltb_spec i (Z.of_nat (length l)));
    simpl; naive_solver lia.
Qed.

Lemma aget_insert_eq (l : list A) k x :
  0 <= k < Z.of_nat (length l) -> aget (<[Z.to_nat k := x]> l) k = Some x.
Proof. intros. unfold aget. ztest. apply list_lookup_insert_eq. lia. Qed.

Lemma aget_insert_ne (l : list A) j k x :
  0 <= k -> j <> k -> aget (<[Z.to_nat k := x]> l) j = aget l j.
Proof.
  intros. unfold aget. destruct (Z.ltb_spec j 0); [done|].
  apply list_lookup_insert_ne. lia.
Qed.

Lemma aget_lt (l : list A) i x : aget l i = Some x -> 0 <= i < Z.of_nat (length l).
Proof. intros [? H%lookup_lt_Some]%aget_Some. lia. Qed.

Lemma aset_ok (l : list A) i x :
  0 <= i < Z.of_nat (length l) -> aset l i x = Some (<[Z.to_nat i := x]> l).
Proof. intros. by apply aset_Some. Qed.

Lemma aget_app_l (l k : list A) i x : aget l i = Some x -> aget (l ++ k) i = Some x.
Proof. rewrite !aget_Some. intros [? ?]. split; [done|]. by apply lookup_app_l_Some. Qed.

End arrays.

(** * Big-endian byte strings *)

Definition byte_ok (b : Z) : Prop := (0 <= b < 256)%Z.

Section big_endian.
Local Open Scope Z_scope.

(** The [n] low-order bytes of [x], most significant first. *)
Fixpoint be_bytes (n : nat) (x : Z) : list Z :=
  match n with
  | O => []
  | S m => Z.land (Z.shiftr x (8 * Z.of_nat m)) 255 :: be_bytes m x
  end.

(** The number a big-endian byte string denotes. *)
Definition be_val (l : list Z) : Z := fold_left (fun a b => a * 256 + b) l 0.

Lemma fold_be_acc l a :
  fold_left (fun a b => a * 256 + b) l a
  = a * 2 ^ (8 * Z.of_nat (length l)) + be_val l.
Proof.
  unfold be_val. revert a. induction l as [|b l IH]; intros a; cbn [fold_left length].
  - rewrite Z.mul_0_r, Z.pow_0_r. lia.
  - rewrite (IH (a * 256 + b)), (IH (0 * 256 + b)).
    replace (8 * Z.of_nat (S (length l))) with (8 + 8 * Z.of_nat (length l)) by lia.
    rewrite Z.pow_add_r by lia. change (2 ^ 8) with 256. ring.
Qed.

Lemma be_val_cons b l :
  be_val (b :: l) = b * 2 ^ (8 * Z.of_nat (length l)) + be_val l.
Proof. unfold be_val at 1. cbn [fold_left]. by rewrite fold_be_acc. Qed.

Lemma length_be_bytes n x : length (be_bytes n x) = n.
Proof. induction n; simpl; congruence. Qed.

Lemma land_255 x : Z.land x 255 = x mod 256.
Proof. change 255 with (Z.ones 8). by rewrite Z.land_ones by lia. Qed.

Lemma be_bytes_ok n x : Forall byte_ok (be_bytes n x).
Proof.
  induction n; simpl; constructor; [|done].
  rewrite land_255. apply Z.mod_pos_bound. lia.
Qed.

Lemma be_val_be_bytes n x :
  be_val (be_bytes n x) = x mod 2 ^ (8 * Z.of_nat n).
Proof.
  induction n as [|n IH]; cbn [be_bytes].
  - by rewrite Z.mod_1_r.
  - rewrite be_val_cons, IH, length_be_bytes, land_255, Z.shiftr_div_pow2 by lia.
    replace (8 * Z.of_nat (S n)) with (8 * Z.of_nat n + 8) by lia.
    rewrite Z.pow_add_r by lia. change (2 ^ 8) with 256.
    rewrite Z.rem_mul_r by lia. ring.
Qed.

Lemma be_val_bound l :
  Forall byte_ok l -> 0 <= be_val l < 2 ^ (8 * Z.of_nat (length l)).
Proof.
  induction 1 as [|b l Hb Hl IH]; [cbn; lia|].
  rewrite be_val_cons. cbn [length].
  replace (8 * Z.of_nat (S (length l))) with (8 + 8 * Z.of_nat (length l)) by lia.
  rewrite Z.pow_add_r by lia. change (2 ^ 8) with 256. unfold byte_ok in Hb. nia.
Qed.

(** [a << n | b] is [a * 2^n + b] when [b] fits under the shift. *)
Lemma lor_shiftl_add a b n :
  0 <= n -> 0 <= b < 2 ^ n -> Z.lor (Z.shiftl a n) b = a * 2 ^ n + b.
Proof.
  intros Hn Hb.
  rewrite <- Z.shiftl_mul_pow2 by lia.
  symmetry. rewrite Z.add_nocarry_lxor; [apply Z.lxor_lor|];
    apply Z.bits_inj'; intros k Hk; rewrite Z.land_spec, Z.bits_0;
    (destruct (Z.lt_ge_cases k n);
     [ rewrite Z.shiftl_spec_low by lia; done
     | rewrite <- (Z.mod_small b (2 ^ n)) by lia;
       rewrite Z.mod_pow2_bits_high by lia; apply andb_false_r ]).
Qed.

End big_endian.

#[export] Hint Resolve be_bytes_ok : cint.

(** Bytes of a literal list. *)
Ltac bytes_ok := repeat (apply Forall_cons_2; [assumption|]); apply Forall_nil_2.

(** * Bit scans *)

(** [__builtin_ctz] on a [w]-bit word; it is undefined on zero. *)
Fixpoint ctz_from (n : nat) (i : Z) (x : Z) : option Z :=
  match n with
  | O => None
  | S n => if Z.testbit x i then Some i else ctz_from n (i + 1)%Z x
  end.

Definition ctz (w : nat) (x : Z) : option Z := ctz_from w 0 x.

Section ctz.
Local Open Scope Z_scope.

Lemma ctz_from_spec n i x k :
  ctz_from n i x = Some k ->
  i <= k < i + Z.of_nat n /\ Z.testbit x k = true
  /\ forall j, i <= j < k -> Z.testbit x j = false.
Proof.
  revert i. induction n as [|n IH]; intros i; cbn [ctz_from]; [done|].
  destruct (Z.testbit x i) eqn:E.
  - intros [= <-]. split_and!; [lia..|done|lia].
  - intros (H1 & H2 & H3)%IH. split_and!; [lia..|done|].
    intros j Hj. destruct (decide (j = i)) as [->|]; [done|apply H3; lia].
Qed.

Lemma ctz_from_total n i x j :
  i <= j < i + Z.of_nat n -> Z.testbit x j = true ->
  exists k, ctz_from n i x = Some k.
Proof.
  revert i. induction n as [|n IH]; intros i Hj Hb; [lia|]. cbn [ctz_from].
  destruct (Z.testbit x i) eqn:E; [by eexists|].
  apply IH; [|done]. destruct (decide (j = i)); [congruence|lia].
Qed.

(** The lowest zero of a [w]-bit word that is not all ones. *)
Lemma ctz_lnot w m j :
  0 <= j < Z.of_nat w -> Z.testbit m j = false ->
  exists k, ctz w (wrapu (Z.of_nat w) (Z.lnot m)) = Some k
    /\ 0 <= k <= j /\ k < Z.of_nat w /\ Z.testbit m k = false
    /\ forall i, 0 <= i < k -> Z.testbit m i = true.
Proof.
  intros Hj Hb.
  assert (forall i, 0 <= i < Z.of_nat w ->
    Z.testbit (wrapu (Z.of_nat w) (Z.lnot m)) i = negb (Z.testbit m i)) as Hbits.
  { intros i Hi. unfold wrapu. rewrite Z.mod_pow2_bits_low by lia.
    by rewrite Z.lnot_spec by lia. }
  destruct (ctz_from_total w 0 (wrapu (Z.of_nat w) (Z.lnot m)) j) as [k Hk].
  { lia. }
  { rewrite Hbits by lia. by rewrite Hb. }
  pose proof (ctz_from_spec _ _ _ _ Hk) as (H1 & H2 & H3).
  rewrite Hbits in H2 by lia.
  exists k. split; [done|].
  assert (Z.testbit m k = false) by (by destruct (Z.testbit m k)).
  assert (forall i, 0 <= i < k -> Z.testbit m i = true) as Hlow.
  { intros i Hi. specialize (H3 i ltac:(lia)). rewrite Hbits in H3 by lia.
    by destruct (Z.testbit m i). }
  split_and!; try done; try lia.
  destruct (Z.le_gt_cases k j); [done|]. rewrite Hlow in Hb by lia. done.
Qed.

End ctz.

(** * Allocation

    The results of the calls of [malloc] to come; past the list they succeed. *)
Definition malloc (ms : list bool) : bool * list bool := match ms with [] => (true, []) | b :: ms => (b, ms) end.

(** * Pigeonhole on index lists *)

Lemma nodup_missing (l : list Z) (n : nat) :
  (length l < n)%nat -> exists i, (0 <= i < Z.of_nat n)%Z /\ i ∉ l.
Proof.
  intros Hl.
  destruct (decide (Forall (fun i => i ∈ l) (Z.of_nat <$> seq 0 n))) as [Ha|Hn].
  - exfalso. rewrite Forall_forall in Ha.
    assert ((Z.of_nat <$> seq 0 n) ⊆+ l) as Hs%submseteq_length.
    { apply NoDup_submseteq; [|done].
      apply NoDup_fmap; [intros ???; lia|apply NoDup_seq]. }
    rewrite length_fmap, length_seq in Hs. lia.
  - apply not_Forall_Exists, Exists_exists in Hn as (i & Hi & Hni); [|apply _].
    apply list_elem_of_fmap in Hi as (k & -> & Hk%elem_of_seq).
    exists (Z.of_nat k). split; [lia|done].
Qed.

Lemma nodup_bounded (l : list Z) (n : Z) :
  NoDup l -> (forall i, i ∈ l -> 0 <= i < n)%Z -> (0 <= n)%Z -> (Z.of_nat (length l) <= n)%Z.
Proof.
  intros Hnd Hr Hn.
  assert (l ⊆+ (Z.of_nat <$> seq 0 (Z.to_nat n))) as Hs%submseteq_length.
  { apply NoDup_submseteq; [done|]. intros i Hi%Hr. apply list_elem_of_fmap.
    exists (Z.to_nat i). split; [lia|]. apply elem_of_seq. lia. }
  rewrite length_fmap, length_seq in Hs. lia.
Qed.

Lemma has_bit m p : (0 <= p)%Z -> has_flag m (2 ^ p)%Z = Z.testbit m p.
Proof.
  intros Hp. unfold has_flag. destruct (Z.testbit m p) eqn:E.
  - apply negb_true_iff, Z.eqb_neq. intros E2. assert (Z.testbit (Z.land m (2 ^ p)%Z) p = false) as H by (by rewrite E2, Z.bits_0).
    by rewrite Z.land_spec, E, Z.pow2_bits_true in H.
  - apply negb_false_iff, Z.eqb_eq, Z.bits_inj'. intros n Hn. rewrite Z.land_spec, Z.bits_0, Z.pow2_bits_eqb by done.
    destruct (Z.eqb_spec p n) as [->|]; [by rewrite E|apply andb_false_r].
Qed.

Lemma is_u_lor w a b : (0 <= w)%Z -> is_u w a -> is_u w b -> is_u w (Z.lor a b).
Proof.
  intros Hw [Ha1 Ha2] [Hb1 Hb2]. split; [by apply Z.lor_nonneg|].
  destruct (Z.eq_dec (Z.lor a b) 0%Z) as [->|Hne]; [lia|].
  apply Z.log2_lt_pow2; [pose proof (proj2 (Z.lor_nonneg a b) (conj Ha1 Hb1)); lia|].
  rewrite Z.log2_lor by done.
  destruct (Z.eq_dec a 0%Z) as [->|]; destruct (Z.eq_dec b 0%Z) as [->|].
  - done.
  - cbn. apply Z.max_lub_lt; [|apply Z.log2_lt_pow2; lia].
    pose proof (Z.log2_nonneg b). assert (Z.log2 b < w)%Z by (apply Z.log2_lt_pow2; lia). lia.
  - apply Z.max_lub_lt; [apply Z.log2_lt_pow2; lia|]. cbn.
    pose proof (Z.log2_nonneg a). assert (Z.log2 a < w)%Z by (apply Z.log2_lt_pow2; lia). lia.
  - apply Z.max_lub_lt; apply Z.log2_lt_pow2; lia.
Qed.
