(* ===== verification/Varint.v ===== *)
(** IETF QUIC variable-length integers: lsquic_varint.h and lsquic_varint.c.

    A buffer between [p] and [end] is the list of its bytes, so [p >= end] is
    the empty list and [p += n] is [drop n].  The results of the three readers
    are the C return code together with what is written through the pointer
    arguments. *)
From S2P Require Import Prelude.
Local Open Scope Z_scope.

Definition VINT_MASK : Z := Z.shiftl 1 6 - 1.
Definition VINT_MAX_VALUE : Z := Z.shiftl 1 62 - 1.

Definition vint_val2bits (val : Z) : Z :=
  b2z (Z.shiftl 1 6 <=? val) + b2z (Z.shiftl 1 14 <=? val)
  + b2z (Z.shiftl 1 30 <=? val).

Definition vint_size (val : Z) : Z := Z.shiftl 1 (vint_val2bits val).

Definition vint_bits2shift (bits : Z) : Z := Z.shiftl 1 (3 + bits) - 2.

Definition VINT_MAX_B (bits : Z) : Z := Z.shiftl 1 (vint_bits2shift bits) - 1.
Definition VINT_MAX_ONE_BYTE : Z := VINT_MAX_B 0.

(** The bytes [vint_write(dst, val, bits, len)] stores at [dst]: the last
    [len] bytes of the big-endian image of the 64-bit word. *)
Definition vint_write (val bits len : Z) : list Z :=
  let buf_ := u64 (Z.lor val (Z.shiftl bits (vint_bits2shift bits))) in
  drop (8 - Z.to_nat len) (be_bytes 8 buf_).

(** [lsquic_varint_read]: [None] is the return value -1, [Some (r, val)] the
    return value [r] with [*valp = val]. *)
Definition lsquic_varint_read (p : list Z) : option (Z * Z) :=
  match p with
  | [] => None
  | p0 :: p' =>
    match Z.shiftr p0 6 with
    | 0 => Some (1, p0)
    | 1 =>
      match p' with
      | p1 :: _ => Some (2, Z.lor (Z.shiftl (Z.land p0 VINT_MASK) 8) p1)
      | _ => None
      end
    | 2 =>
      match p' with
      | p1 :: p2 :: p3 :: _ =>
        Some (4, Z.lor (Z.lor (Z.lor (Z.shiftl (Z.land p0 VINT_MASK) 24)
                                     (Z.shiftl p1 16))
                              (Z.shiftl p2 8))
                       (Z.shiftl p3 0))
      | _ => None
      end
    | _ =>
      if (8 <=? length p)%nat
      then Some (8, Z.land (be_val (take 8 p)) (Z.shiftl 1 62 - 1))
      else None
    end
  end.

(** ** The resumable reader *)

Record varint_read_state := VRS { vr_val : Z; vr_pos : Z }.

(** Return code, what is left of the input, and the state; [None] is the
    [assert(0)] of the default case or a read past [end]. *)
Definition nb_result : Type := option (Z * list Z * varint_read_state).

(** [state->val |= *p++ << sh; if (p >= end) { state->pos = pos; break; }]
    falling through to [k]. *)
Definition nb_byte (sh next_pos : Z)
    (k : list Z -> Z -> nb_result) (p : list Z) (val : Z) : nb_result :=
  match p with
  | [] => None
  | b :: p' =>
    let val' := Z.lor val (Z.shiftl b sh) in
    match p' with
    | [] => Some (-1, [], VRS val' next_pos)
    | _ => k p' val'
    end
  end.

(** [state->val |= *p++; *pp = p; return 0;] *)
Definition nb_last (pos : Z) (p : list Z) (val : Z) : nb_result :=
  match p with
  | [] => None
  | b :: p' => Some (0, p', VRS (Z.lor val b) pos)
  end.

Section nb_cases.
(** [pos] is the value [state->pos] keeps when a case returns 0. *)
Variable pos : Z.

Definition nb_1000 := nb_last pos.
Definition nb_1003 := nb_last pos.
Definition nb_1002 := nb_byte 8 1003 nb_1003.
Definition nb_1001 := nb_byte 16 1002 nb_1002.
Definition nb_1010 := nb_last pos.
Definition nb_1009 := nb_byte 8 1010 nb_1010.
Definition nb_1008 := nb_byte 16 1009 nb_1009.
Definition nb_1007 := nb_byte 24 1008 nb_1008.
Definition nb_1006 := nb_byte 32 1007 nb_1007.
Definition nb_1005 := nb_byte 40 1006 nb_1006.
Definition nb_1004 := nb_byte 48 1005 nb_1005.

(** The first byte of a multi-byte encoding. *)
Definition nb_first (sh next_pos : Z) (k : list Z -> Z -> nb_result)
    (p : list Z) : nb_result :=
  match p with
  | [] => None
  | b :: p' =>
    let val' := Z.shiftl (Z.land b VINT_MASK) sh in
    match p' with
    | [] => Some (-1, [], VRS val' next_pos)
    | _ => k p' val'
    end
  end.
End nb_cases.

Definition lsquic_varint_read_nb (p : list Z) (state : varint_read_state)
    : nb_result :=
  let pos := vr_pos state in
  let val := vr_val state in
  match p with
  | [] => Some (-1, [], state)
  | p0 :: p' =>
    match (if pos =? 0 then Z.shiftr p0 6 else pos) with
    | 0 => Some (0, p', VRS p0 pos)
    | 1 => nb_first 8 1000 (nb_1000 pos) p
    | 1000 => nb_1000 pos p val
    | 2 =>
      match p with
      | a :: b :: c :: d :: r =>
        Some (0, r, VRS (Z.lor (Z.lor (Z.lor (Z.shiftl (Z.land a VINT_MASK) 24)
                                              (Z.shiftl b 16))
                                       (Z.shiftl c 8))
                                (Z.shiftl d 0)) pos)
      | _ => nb_first 24 1001 (nb_1001 pos) p
      end
    | 1001 => nb_1001 pos p val
    | 1002 => nb_1002 pos p val
    | 1003 => nb_1003 pos p val
    | 3 =>
      if (8 <=? length p)%nat
      then Some (0, drop 8 p,
                 VRS (Z.land (be_val (take 8 p)) (Z.shiftl 1 62 - 1)) pos)
      else nb_first 56 1004 (nb_1004 pos) p
    | 1004 => nb_1004 pos p val
    | 1005 => nb_1005 pos p val
    | 1006 => nb_1006 pos p val
    | 1007 => nb_1007 pos p val
    | 1008 => nb_1008 pos p val
    | 1009 => nb_1009 pos p val
    | 1010 => nb_1010 pos p val
    | _ => None
    end
  end.

(** ** Two integers in a row *)

Inductive vr2s_st :=
| VR2S_READ_ONE_BEGIN | VR2S_READ_ONE_CONTINUE
| VR2S_READ_TWO_BEGIN | VR2S_READ_TWO_CONTINUE.

#[export] Instance vr2s_st_eq_dec : EqDecision vr2s_st.
Proof. solve_decision. Defined.

Record varint_read2_state := VR2S {
  vr2s_one : Z;
  vr2s_varint_state : varint_read_state;
  vr2s_state : vr2s_st
}.

Definition vr2s_two (s : varint_read2_state) : Z := vr_val (vr2s_varint_state s).

(** The [while (p < end)] loop; a turn that does not leave the loop has read a
    byte at least, so [length p] turns are enough. *)
Fixpoint read_two_loop (fuel : nat) (p : list Z) (state : varint_read2_state)
    : option (Z * list Z * varint_read2_state) :=
  match fuel with
  | O => None
  | S fuel =>
    match p with
    | [] => Some (-1, [], state)
    | _ =>
      let vs := vr2s_varint_state state in
      let '(vs, st) :=
        match vr2s_state state with
        | VR2S_READ_ONE_BEGIN => (VRS (vr_val vs) 0, VR2S_READ_ONE_CONTINUE)
        | VR2S_READ_TWO_BEGIN => (VRS (vr_val vs) 0, VR2S_READ_TWO_CONTINUE)
        | s => (vs, s)
        end in
      match lsquic_varint_read_nb p vs with
      | None => None
      | Some (s, p, vs) =>
        if s =? 0 then
          match st with
          | VR2S_READ_TWO_CONTINUE =>
              Some (0, p, VR2S (vr2s_one state) vs st)
          | _ =>
              read_two_loop fuel p (VR2S (vr_val vs) vs VR2S_READ_TWO_BEGIN)
          end
        else Some (-1, p, VR2S (vr2s_one state) vs st)
      end
    end
  end.

Definition lsquic_varint_read_two (begin : list Z) (state : varint_read2_state)
    : option (Z * list Z * varint_read2_state) :=
  read_two_loop (S (length begin)) begin state.

(** * The encoder and the one-shot reader *)

Lemma drop_be_bytes k n x :
  drop k (be_bytes (k + n) x) = be_bytes n x.
Proof. induction k; simpl; [by rewrite drop_0|done]. Qed.

(** Horner step of the readers' or-and-shift chains. *)
Lemma lor_shiftl_horner a b n :
  0 <= n ->
  Z.lor (Z.shiftl a (n + 8)) (Z.shiftl b n) = Z.shiftl (Z.lor (Z.shiftl a 8) b) n.
Proof.
  intros. rewrite Z.shiftl_lor, Z.shiftl_shiftl by lia.
  by rewrite (Z.add_comm 8).
Qed.

Lemma lor_byte a b : byte_ok b -> Z.lor (Z.shiftl a 8) b = a * 256 + b.
Proof. intros. by rewrite lor_shiftl_add by (unfold byte_ok in *; lia). Qed.

Lemma land_vint_mask p0 : Z.land p0 VINT_MASK = p0 mod 64.
Proof. change VINT_MASK with (Z.ones 6). by rewrite Z.land_ones by lia. Qed.

Lemma mod64_byte p0 : byte_ok p0 -> byte_ok (p0 mod 64).
Proof. intros. pose proof (Z.mod_pos_bound p0 64). unfold byte_ok in *. lia. Qed.

(** The two bits of an encoding's first byte that give its length. *)
Definition len_bits (p0 : Z) : Z := Z.shiftr p0 6.

Lemma len_bits_range p0 : byte_ok p0 -> 0 <= len_bits p0 <= 3.
Proof.
  unfold byte_ok, len_bits. intros. rewrite Z.shiftr_div_pow2 by lia.
  change (2 ^ 6) with 64. split; [apply Z.div_pos; lia|].
  enough (p0 / 64 < 4) by lia. apply Z.div_lt_upper_bound; lia.
Qed.

Lemma len_bits_cases p0 :
  byte_ok p0 ->
  Z.shiftr p0 6 = 0 \/ Z.shiftr p0 6 = 1 \/ Z.shiftr p0 6 = 2 \/ Z.shiftr p0 6 = 3.
Proof. intros H%len_bits_range. unfold len_bits in H. lia. Qed.

Lemma mod_low_bits p0 r n :
  0 <= n -> 0 <= r < 2 ^ n ->
  (p0 * 2 ^ n + r) mod 2 ^ (n + 6) = p0 mod 64 * 2 ^ n + r.
Proof.
  intros. rewrite Z.pow_add_r by lia. change (2 ^ 6) with 64.
  rewrite Z.rem_mul_r by lia.
  rewrite (Z.add_comm (p0 * 2 ^ n)), Z.mod_add, Z.div_add by lia.
  rewrite (Z.mod_small r), (Z.div_small r) by lia. rewrite Z.add_0_l. lia.
Qed.

Lemma chain4 a b c d :
  byte_ok a -> byte_ok b -> byte_ok c -> byte_ok d ->
  Z.lor (Z.lor (Z.lor (Z.shiftl (Z.land a VINT_MASK) 24) (Z.shiftl b 16))
               (Z.shiftl c 8)) d
  = be_val [a; b; c; d] mod 2 ^ 30.
Proof.
  intros Ha Hb Hc Hd. rewrite land_vint_mask.
  pose proof (mod64_byte _ Ha).
  rewrite be_val_cons. cbn [length]. change (8 * Z.of_nat 3) with 24.
  change (2 ^ 30) with (2 ^ (24 + 6)).
  rewrite (mod_low_bits a _ 24) by
    first [lia | apply (be_val_bound [b; c; d]); bytes_ok].
  change 24 with (16 + 8) at 1. rewrite (lor_shiftl_horner _ b 16) by lia.
  rewrite (lor_shiftl_horner _ c 8) by lia.
  rewrite !lor_byte by done. unfold be_val. cbn [fold_left]. lia.
Qed.

Lemma chain8 a b c d e f g h :
  Forall byte_ok [a; b; c; d; e; f; g; h] ->
  Z.lor (Z.lor (Z.lor (Z.lor (Z.lor (Z.lor (Z.lor
    (Z.shiftl (Z.land a VINT_MASK) 56) (Z.shiftl b 48)) (Z.shiftl c 40))
    (Z.shiftl d 32)) (Z.shiftl e 24)) (Z.shiftl f 16)) (Z.shiftl g 8)) h
  = be_val [a; b; c; d; e; f; g; h] mod 2 ^ 62.
Proof.
  intros H. decompose_Forall_hyps.
  rewrite land_vint_mask.
  rewrite be_val_cons. cbn [length]. change (8 * Z.of_nat 7) with 56.
  change (2 ^ 62) with (2 ^ (56 + 6)).
  rewrite (mod_low_bits a _ 56) by
    first [lia | apply (be_val_bound [b; c; d; e; f; g; h]); bytes_ok].
  change 56 with (48 + 8) at 1. rewrite (lor_shiftl_horner _ b 48) by lia.
  rewrite (lor_shiftl_horner _ c 40) by lia.
  rewrite (lor_shiftl_horner _ d 32) by lia.
  rewrite (lor_shiftl_horner _ e 24) by lia.
  rewrite (lor_shiftl_horner _ f 16) by lia.
  rewrite (lor_shiftl_horner _ g 8) by lia.
  rewrite !lor_byte by done. unfold be_val. cbn [fold_left]. lia.
Qed.

Lemma land_62 x : Z.land x (Z.shiftl 1 62 - 1) = x mod 2 ^ 62.
Proof. change (Z.shiftl 1 62 - 1) with (Z.ones 62). by rewrite Z.land_ones by lia. Qed.

(** What an encoding denotes, independently of the reader's case analysis:
    the top two bits of the first byte give the length [2^b], the other
    [8 * 2^b - 2] bits the value. *)
Definition vint_decode (p : list Z) : option (Z * Z) :=
  match p with
  | [] => None
  | p0 :: _ =>
    let n := 2 ^ len_bits p0 in
    if n <=? Z.of_nat (length p)
    then Some (n, be_val (take (Z.to_nat n) p) mod 2 ^ (8 * n - 2))
    else None
  end.

Lemma varint_read_decode p :
  Forall byte_ok p -> lsquic_varint_read p = vint_decode p.
Proof.
  destruct p as [|p0 p]; [done|]. intros Hall.
  pose proof (Forall_inv Hall) as H0. unfold vint_decode, len_bits.
  destruct (len_bits_cases p0 H0) as [E|[E|[E|E]]];
    unfold lsquic_varint_read; rewrite E.
  - change (2 ^ 0) with 1. cbn [length]. ztest. change (Z.to_nat 1) with 1%nat.
    cbn [take]. rewrite take_0. unfold be_val; cbn [fold_left].
    change (8 * 1 - 2) with 6. rewrite Z.mod_small; [do 2 f_equal; lia|].
    rewrite Z.shiftr_div_pow2 in E by lia. unfold byte_ok in H0.
    change (2 ^ 6) with 64 in *. pose proof (Z.div_mod p0 64). pose proof (Z.mod_pos_bound p0 64). lia.
  - destruct p as [|p1 p]; [done|].
    decompose_Forall_hyps.
    change (2 ^ 1) with 2. cbn [length]. ztest. change (Z.to_nat 2) with 2%nat.
    cbn [take]. change (8 * 2 - 2) with 14.
    rewrite be_val_cons. cbn [length]. change (8 * Z.of_nat 1) with 8.
    change (2 ^ 14) with (2 ^ (8 + 6)).
    rewrite (mod_low_bits p0 _ 8) by
      first [lia | apply (be_val_bound [p1]); bytes_ok].
    rewrite lor_byte, land_vint_mask by done.
    unfold be_val; cbn [fold_left]. do 2 f_equal; lia.
  - change (2 ^ 2) with 4.
    destruct p as [|p1 [|p2 [|p3 p]]]; try done.
    decompose_Forall_hyps.
    cbn [length]. ztest. change (Z.to_nat 4) with 4%nat. cbn [take].
    change (8 * 4 - 2) with 30. rewrite Z.shiftl_0_r, chain4 by done. done.
  - change (2 ^ 3) with 8. change (Z.to_nat 8) with 8%nat.
    change (8 * 8 - 2) with 62. rewrite land_62.
    destruct (Nat.leb_spec 8 (length (p0 :: p))); ztest; done.
Qed.

Lemma len_bits_be buf bits :
  0 <= bits <= 3 ->
  buf / 2 ^ (8 * 2 ^ bits - 2) = bits ->
  len_bits (Z.land (Z.shiftr buf (8 * (2 ^ bits - 1))) 255) = bits.
Proof.
  intros Hb H. unfold len_bits.
  assert (1 <= 2 ^ bits) by (apply (Z.pow_le_mono_r 2 0); lia).
  rewrite land_255, Z.shiftr_div_pow2, !Z.shiftr_div_pow2 by lia.
  replace (8 * 2 ^ bits - 2) with (8 * (2 ^ bits - 1) + 6) in H by lia.
  rewrite Z.pow_add_r, <- Z.div_div in H by lia.
  set (q := buf / 2 ^ (8 * (2 ^ bits - 1))) in *.
  change (2 ^ 6) with 64 in *.
  rewrite Z.mod_small; [done|].
  pose proof (Z.div_mod q 64). pose proof (Z.mod_pos_bound q 64). lia.
Qed.

Lemma vint_shift_eq bits :
  0 <= bits <= 3 -> vint_bits2shift bits = 8 * 2 ^ bits - 2.
Proof.
  intros. assert (bits = 0 \/ bits = 1 \/ bits = 2 \/ bits = 3) as Hb by lia.
  by destruct Hb as [->|[->|[->| ->]]].
Qed.

Lemma vint_max_b_eq bits :
  0 <= bits <= 3 -> VINT_MAX_B bits = 2 ^ (8 * 2 ^ bits - 2) - 1.
Proof.
  intros. assert (bits = 0 \/ bits = 1 \/ bits = 2 \/ bits = 3) as Hb by lia.
  by destruct Hb as [->|[->|[->| ->]]].
Qed.

Lemma vint_word_range bits val :
  0 <= bits <= 3 -> 0 <= val < 2 ^ (8 * 2 ^ bits - 2) ->
  0 <= bits * 2 ^ (8 * 2 ^ bits - 2) + val < 2 ^ (8 * 2 ^ bits).
Proof.
  intros Hb Hv.
  assert (1 <= 2 ^ bits) by (apply (Z.pow_le_mono_r 2 0); lia).
  replace (8 * 2 ^ bits) with (8 * 2 ^ bits - 2 + 2) at 3 by lia.
  rewrite Z.pow_add_r by lia. change (2 ^ 2) with 4. nia.
Qed.

Lemma vint_write_bytes val bits :
  0 <= bits <= 3 -> 0 <= val <= VINT_MAX_B bits ->
  vint_write val bits (Z.shiftl 1 bits)
  = be_bytes (Z.to_nat (2 ^ bits)) (bits * 2 ^ (8 * 2 ^ bits - 2) + val).
Proof.
  intros Hb Hv. unfold vint_write.
  rewrite vint_shift_eq by done. rewrite vint_max_b_eq in Hv by done.
  pose proof (vint_word_range bits val Hb ltac:(lia)) as Hr.
  assert (1 <= 2 ^ bits <= 8) as Hp.
  { split; [apply (Z.pow_le_mono_r 2 0); lia|apply (Z.pow_le_mono_r 2 _ 3); lia]. }
  rewrite Z.lor_comm, lor_shiftl_add by lia.
  rewrite wrapu_id; last first.
  { split; [lia|]. eapply Z.lt_le_trans; [apply Hr|]. apply Z.pow_le_mono_r; lia. }
  rewrite Z.shiftl_1_l.
  replace 8%nat with (8 - Z.to_nat (2 ^ bits) + Z.to_nat (2 ^ bits))%nat at 2 by lia.
  apply drop_be_bytes.
Qed.

Lemma be_bytes_hd n x :
  (0 < n)%nat ->
  exists l, be_bytes n x
            = Z.land (Z.shiftr x (8 * (Z.of_nat n - 1))) 255 :: l.
Proof.
  destruct n; [lia|]. intros _. eexists. cbn [be_bytes].
  by replace (Z.of_nat (S n) - 1) with (Z.of_nat n) by lia.
Qed.

Lemma vint_decode_write val bits rest :
  0 <= bits <= 3 -> 0 <= val <= VINT_MAX_B bits ->
  vint_decode (vint_write val bits (Z.shiftl 1 bits) ++ rest)
  = Some (Z.shiftl 1 bits, val).
Proof.
  intros Hb Hv. rewrite vint_write_bytes, Z.shiftl_1_l by done.
  rewrite vint_max_b_eq in Hv by done.
  pose proof (vint_word_range bits val Hb ltac:(lia)) as Hr.
  set (buf := bits * 2 ^ (8 * 2 ^ bits - 2) + val) in *.
  assert (1 <= 2 ^ bits) as Hp by (apply (Z.pow_le_mono_r 2 0); lia).
  set (n := Z.to_nat (2 ^ bits)).
  destruct (be_bytes_hd n buf ltac:(lia)) as [l Hl].
  unfold vint_decode. rewrite Hl at 1. cbn [app].
  replace (Z.of_nat n) with (2 ^ bits) by lia.
  rewrite len_bits_be; [|done|].
  2: { unfold buf. rewrite Z.add_comm, Z.div_add by (apply Z.pow_nonzero; lia).
       rewrite Z.div_small by lia. done. }
  rewrite length_app, length_be_bytes. ztest.
  rewrite take_app_le, take_ge by (rewrite length_be_bytes; lia).
  rewrite be_val_be_bytes. replace (8 * Z.of_nat n) with (8 * 2 ^ bits) by lia.
  rewrite (Z.mod_small buf) by done.
  unfold buf. rewrite Z.add_comm, Z.mod_add by (apply Z.pow_nonzero; lia).
  by rewrite Z.mod_small by lia.
Qed.

Lemma vint_write_ok val bits len : Forall byte_ok (vint_write val bits len).
Proof. apply Forall_drop, be_bytes_ok. Qed.

Lemma length_vint_write val bits len :
  0 <= len <= 8 -> length (vint_write val bits len) = Z.to_nat len.
Proof. intros. unfold vint_write. rewrite length_drop, length_be_bytes. lia. Qed.

Lemma vint_val2bits_range val : 0 <= vint_val2bits val <= 3.
Proof. unfold vint_val2bits, b2z. zcase; lia. Qed.

Lemma vint_val2bits_fits val :
  0 <= val <= VINT_MAX_VALUE -> val <= VINT_MAX_B (vint_val2bits val).
Proof.
  intros Hv. rewrite vint_max_b_eq by apply vint_val2bits_range.
  change VINT_MAX_VALUE with (2 ^ 62 - 1) in Hv.
  unfold vint_val2bits. change (Z.shiftl 1 6) with 64.
  change (Z.shiftl 1 14) with 16384. change (Z.shiftl 1 30) with 1073741824.
  unfold b2z. zcase; try lia.
  all: cbn; lia.
Qed.

#[export] Hint Resolve vint_write_ok vint_val2bits_range : cint.

Lemma varint_read_write val bits rest :
  0 <= bits <= 3 -> 0 <= val <= VINT_MAX_B bits -> Forall byte_ok rest ->
  lsquic_varint_read (vint_write val bits (Z.shiftl 1 bits) ++ rest)
  = Some (Z.shiftl 1 bits, val).
Proof.
  intros. rewrite varint_read_decode by (apply Forall_app; auto with cint).
  by apply vint_decode_write.
Qed.

Lemma vint_max_b_mono a b : 0 <= a <= b -> b <= 3 -> VINT_MAX_B a <= VINT_MAX_B b.
Proof.
  intros. rewrite !vint_max_b_eq by lia.
  enough (2 ^ (8 * 2 ^ a - 2) <= 2 ^ (8 * 2 ^ b - 2)) by lia.
  assert (2 ^ a <= 2 ^ b) by (apply Z.pow_le_mono_r; lia).
  apply Z.pow_le_mono_r; lia.
Qed.

Lemma varint_read_inv p n val :
  Forall byte_ok p -> lsquic_varint_read p = Some (n, val) ->
  exists b, 0 <= b <= 3 /\ n = Z.shiftl 1 b /\ 0 <= val <= VINT_MAX_B b
            /\ n <= Z.of_nat (length p).
Proof.
  intros Hp H. rewrite varint_read_decode in H by done.
  destruct p as [|p0 p]; [done|]. unfold vint_decode in H.
  destruct (Z.leb_spec (2 ^ len_bits p0) (Z.of_nat (length (p0 :: p)))); [|done].
  assert (0 <= len_bits p0 <= 3) by (apply len_bits_range; by decompose_Forall_hyps).
  injection H as <- <-. exists (len_bits p0).
  rewrite Z.shiftl_1_l, vint_max_b_eq by done.
  assert (1 <= 2 ^ len_bits p0) by (apply (Z.pow_le_mono_r 2 0); lia).
  pose proof (Z.mod_pos_bound (be_val (take (Z.to_nat (2 ^ len_bits p0)) (p0 :: p)))
    (2 ^ (8 * 2 ^ len_bits p0 - 2)) ltac:(lia)).
  split_and!; try lia; done.
Qed.

Lemma vint_val2bits_least val b :
  0 <= b <= 3 -> 0 <= val <= VINT_MAX_B b -> vint_val2bits val <= b.
Proof.
  intros Hb Hv. rewrite vint_max_b_eq in Hv by done.
  unfold vint_val2bits. change (Z.shiftl 1 6) with 64.
  change (Z.shiftl 1 14) with 16384. change (Z.shiftl 1 30) with 1073741824.
  assert (b = 0 \/ b = 1 \/ b = 2 \/ b = 3) as E by lia.
  destruct E as [->|[->|[->| ->]]]; cbn in Hv; unfold b2z; zcase; lia.
Qed.

(** * The resumable reader is independent of how the input is cut *)

(** What a caller sees: the value and the remaining input, or, when more input
    is needed, the state kept for the next call. *)
Definition nb_obs (r : nb_result) : option (Z * list Z + varint_read_state) :=
  match r with
  | None => None
  | Some (s, rest, st) =>
      if s =? 0 then Some (inl (vr_val st, rest)) else Some (inr st)
  end.

(** States between two calls: nothing read yet, or one of the resume points. *)
Definition nb_pos_ok (pos : Z) : Prop := pos = 0 \/ 1000 <= pos <= 1010.

(** Reading [p1 ++ p2] in one call is reading [p1] and then [p2]. *)
Definition chunkable (k : list Z -> Z -> nb_result) : Prop :=
  forall p1 p2 val, p1 <> [] -> p2 <> [] ->
  nb_obs (k (p1 ++ p2) val) =
  match nb_obs (k p1 val) with
  | Some (inl (v, r)) => Some (inl (v, r ++ p2))
  | Some (inr st) => nb_obs (lsquic_varint_read_nb p2 st)
  | None => None
  end.

Lemma nb_last_chunkable pos : chunkable (nb_last pos).
Proof. intros [|b p1] p2 val; done. Qed.

Lemma nb_byte_chunkable sh next k :
  chunkable k ->
  (forall p val, p <> [] ->
     nb_obs (lsquic_varint_read_nb p (VRS val next)) = nb_obs (k p val)) ->
  chunkable (nb_byte sh next k).
Proof.
  intros Hk Hres [|b p1] p2 val Hp1 Hp2; [done|].
  destruct p1 as [|b' p1]; cbn [app nb_byte].
  - destruct p2 as [|c p2]; [done|]. cbn [nb_obs]. ztest. by rewrite Hres.
  - apply (Hk (b' :: p1)); done.
Qed.

Lemma nb_first_chunkable sh next k :
  chunkable k ->
  (forall p val, p <> [] ->
     nb_obs (lsquic_varint_read_nb p (VRS val next)) = nb_obs (k p val)) ->
  chunkable (fun p _ => nb_first sh next k p).
Proof.
  intros Hk Hres [|b p1] p2 val Hp1 Hp2; [done|].
  destruct p1 as [|b' p1]; cbn [app nb_first].
  - destruct p2 as [|c p2]; [done|]. cbn [nb_obs]. ztest. by rewrite Hres.
  - apply (Hk (b' :: p1)); done.
Qed.

(** Resuming at a stored position runs the corresponding case, whatever
    position the case itself would leave behind. *)
Ltac split_input p :=
  first [ reflexivity | destruct p as [|? p]; [reflexivity | split_input p] ].
Ltac resume :=
  let p := fresh "p" in
  intros p ? ?; destruct p as [|? p]; [done|]; split_input p.

Section chunkable_cases.
Variable pos : Z.

Lemma chunk_1003 : chunkable (nb_1003 pos). Proof. apply nb_last_chunkable. Qed.
Lemma chunk_1002 : chunkable (nb_1002 pos).
Proof. apply nb_byte_chunkable; [apply chunk_1003|resume]. Qed.
Lemma chunk_1001 : chunkable (nb_1001 pos).
Proof. apply nb_byte_chunkable; [apply chunk_1002|resume]. Qed.
Lemma chunk_1000 : chunkable (nb_1000 pos). Proof. apply nb_last_chunkable. Qed.
Lemma chunk_1010 : chunkable (nb_1010 pos). Proof. apply nb_last_chunkable. Qed.
Lemma chunk_1009 : chunkable (nb_1009 pos).
Proof. apply nb_byte_chunkable; [apply chunk_1010|resume]. Qed.
Lemma chunk_1008 : chunkable (nb_1008 pos).
Proof. apply nb_byte_chunkable; [apply chunk_1009|resume]. Qed.
Lemma chunk_1007 : chunkable (nb_1007 pos).
Proof. apply nb_byte_chunkable; [apply chunk_1008|resume]. Qed.
Lemma chunk_1006 : chunkable (nb_1006 pos).
Proof. apply nb_byte_chunkable; [apply chunk_1007|resume]. Qed.
Lemma chunk_1005 : chunkable (nb_1005 pos).
Proof. apply nb_byte_chunkable; [apply chunk_1006|resume]. Qed.
Lemma chunk_1004 : chunkable (nb_1004 pos).
Proof. apply nb_byte_chunkable; [apply chunk_1005|resume]. Qed.
Lemma chunk_one : chunkable (fun p _ => nb_first 8 1000 (nb_1000 pos) p).
Proof. apply nb_first_chunkable; [apply chunk_1000|resume]. Qed.
Lemma chunk_two : chunkable (fun p _ => nb_first 24 1001 (nb_1001 pos) p).
Proof. apply nb_first_chunkable; [apply chunk_1001|resume]. Qed.
Lemma chunk_three : chunkable (fun p _ => nb_first 56 1004 (nb_1004 pos) p).
Proof. apply nb_first_chunkable; [apply chunk_1004|resume]. Qed.
End chunkable_cases.

(** The one-call fast paths compute what the byte-at-a-time cases do. *)
Definition nb_begin (pos p0 : Z) (p : list Z) : nb_result :=
  match Z.shiftr p0 6 with
  | 0 => Some (0, drop 1 p, VRS p0 pos)
  | 1 => nb_first 8 1000 (nb_1000 pos) p
  | 2 => nb_first 24 1001 (nb_1001 pos) p
  | _ => nb_first 56 1004 (nb_1004 pos) p
  end.

Lemma read_nb_begin p0 p val :
  Forall byte_ok (p0 :: p) ->
  nb_obs (lsquic_varint_read_nb (p0 :: p) (VRS val 0)) = nb_obs (nb_begin 0 p0 (p0 :: p)).
Proof.
  intros Hp. unfold lsquic_varint_read_nb, nb_begin. cbn [vr_pos vr_val].
  change (0 =? 0) with true. cbn iota.
  assert (byte_ok p0) as H0 by by decompose_Forall_hyps.
  destruct (len_bits_cases p0 H0) as [E|[E|[E|E]]]; rewrite E.
  - done.
  - done.
  - by destruct p as [|p1 [|p2 [|p3 p]]].
  - destruct (Nat.leb_spec 8 (length (p0 :: p))) as [Hl|]; [|done].
    do 7 (destruct p as [|? p]; [cbn in Hl; lia|]).
    cbn [take drop]. rewrite land_62, take_0, drop_0, <- chain8;
      [done|]. decompose_Forall_hyps. bytes_ok.
Qed.

Lemma nb_begin_chunk pos p0 p1 p2 :
  byte_ok p0 -> p2 <> [] ->
  nb_obs (nb_begin pos p0 ((p0 :: p1) ++ p2)) =
  match nb_obs (nb_begin pos p0 (p0 :: p1)) with
  | Some (inl (v, r)) => Some (inl (v, r ++ p2))
  | Some (inr st) => nb_obs (lsquic_varint_read_nb p2 st)
  | None => None
  end.
Proof.
  intros H0 Hp2. unfold nb_begin.
  destruct (len_bits_cases p0 H0) as [E|[E|[E|E]]]; rewrite E.
  - cbn. by rewrite !drop_0.
  - by apply (chunk_one pos (p0 :: p1) p2 0).
  - by apply (chunk_two pos (p0 :: p1) p2 0).
  - by apply (chunk_three pos (p0 :: p1) p2 0).
Qed.

Lemma read_nb_app p1 p2 st :
  nb_pos_ok (vr_pos st) -> Forall byte_ok (p1 ++ p2) -> p1 <> [] -> p2 <> [] ->
  nb_obs (lsquic_varint_read_nb (p1 ++ p2) st) =
  match nb_obs (lsquic_varint_read_nb p1 st) with
  | Some (inl (v, r)) => Some (inl (v, r ++ p2))
  | Some (inr st') => nb_obs (lsquic_varint_read_nb p2 st')
  | None => None
  end.
Proof.
  intros Hpos Hok Hp1 Hp2. destruct st as [val pos]. cbn [vr_pos] in Hpos.
  destruct p1 as [|p0 p1]; [done|].
  assert (pos = 0 \/ pos = 1000 \/ pos = 1001 \/ pos = 1002 \/ pos = 1003 \/
          pos = 1004 \/ pos = 1005 \/ pos = 1006 \/ pos = 1007 \/ pos = 1008 \/
          pos = 1009 \/ pos = 1010) as E by (unfold nb_pos_ok in Hpos; lia).
  destruct E as [->|E].
  - apply Forall_app in Hok as Hok1. destruct Hok1 as [Hok1 _].
    rewrite (read_nb_begin p0 p1) by done. cbn [app]. rewrite read_nb_begin by done.
    apply nb_begin_chunk; [by decompose_Forall_hyps|done].
  - repeat match type of E with _ \/ _ => destruct E as [->|E] end; [..|subst pos].
    all: first [ by apply (chunk_1000 1000 (p0 :: p1) p2) | by apply (chunk_1001 1001 (p0 :: p1) p2)
               | by apply (chunk_1002 1002 (p0 :: p1) p2) | by apply (chunk_1003 1003 (p0 :: p1) p2)
               | by apply (chunk_1004 1004 (p0 :: p1) p2) | by apply (chunk_1005 1005 (p0 :: p1) p2)
               | by apply (chunk_1006 1006 (p0 :: p1) p2) | by apply (chunk_1007 1007 (p0 :: p1) p2)
               | by apply (chunk_1008 1008 (p0 :: p1) p2) | by apply (chunk_1009 1009 (p0 :: p1) p2)
               | by apply (chunk_1010 1010 (p0 :: p1) p2) ].
Qed.

(** A state between two calls is always a resume point. *)
Lemma nb_byte_more sh next k p val st :
  1000 <= next <= 1010 ->
  (forall p val st, nb_obs (k p val) = Some (inr st) -> nb_pos_ok (vr_pos st)) ->
  nb_obs (nb_byte sh next k p val) = Some (inr st) -> nb_pos_ok (vr_pos st).
Proof.
  intros Hn Hk. destruct p as [|b [|b' p]]; cbn; [done| |].
  - intros [= <-]. right. done.
  - apply Hk.
Qed.

Lemma nb_first_more sh next k p st :
  1000 <= next <= 1010 ->
  (forall p val st, nb_obs (k p val) = Some (inr st) -> nb_pos_ok (vr_pos st)) ->
  nb_obs (nb_first sh next k p) = Some (inr st) -> nb_pos_ok (vr_pos st).
Proof.
  intros Hn Hk. destruct p as [|b [|b' p]]; cbn; [done| |].
  - intros [= <-]. right. done.
  - apply Hk.
Qed.

Lemma nb_last_more pos p val st :
  nb_obs (nb_last pos p val) = Some (inr st) -> nb_pos_ok (vr_pos st).
Proof. by destruct p. Qed.

Ltac more_tac :=
  repeat (first [ apply nb_last_more | apply nb_byte_more; [lia|intros ? ? ?]
                | apply nb_first_more; [lia|intros ? ? ?] ]).

Lemma read_nb_more p st st' :
  Forall byte_ok p -> nb_pos_ok (vr_pos st) ->
  nb_obs (lsquic_varint_read_nb p st) = Some (inr st') -> nb_pos_ok (vr_pos st').
Proof.
  intros Hok Hpos. destruct st as [val pos]. cbn [vr_pos] in Hpos.
  destruct p as [|p0 p]; [by intros [= <-]|].
  assert (pos = 0 \/ pos = 1000 \/ pos = 1001 \/ pos = 1002 \/ pos = 1003 \/
          pos = 1004 \/ pos = 1005 \/ pos = 1006 \/ pos = 1007 \/ pos = 1008 \/
          pos = 1009 \/ pos = 1010) as E by (unfold nb_pos_ok in Hpos; lia).
  destruct E as [->|E].
  - rewrite read_nb_begin by done. unfold nb_begin.
    assert (byte_ok p0) as H0 by by decompose_Forall_hyps.
    destruct (len_bits_cases p0 H0) as [E|[E|[E|E]]]; rewrite E; [done|..]; more_tac.
  - repeat match type of E with _ \/ _ => destruct E as [->|E] end; [..|subst pos].
    all: unfold lsquic_varint_read_nb; cbn [vr_pos vr_val Z.eqb Pos.eqb]; more_tac.
Qed.

(** Feeding the reader one buffer after the other until a value is out. *)
Fixpoint nb_feed (chunks : list (list Z)) (st : varint_read_state)
    : option (Z * list Z + varint_read_state) :=
  match chunks with
  | [] => Some (inr st)
  | c :: cs =>
    match nb_obs (lsquic_varint_read_nb c st) with
    | Some (inl (v, r)) => Some (inl (v, r ++ concat cs))
    | Some (inr st') => nb_feed cs st'
    | None => None
    end
  end.

Lemma nb_feed_concat chunks st :
  nb_pos_ok (vr_pos st) -> Forall byte_ok (concat chunks) ->
  nb_feed chunks st = nb_obs (lsquic_varint_read_nb (concat chunks) st).
Proof.
  revert st. induction chunks as [|c cs IH]; intros st Hpos Hok; cbn [nb_feed concat].
  - by destruct st.
  - cbn [concat] in Hok. apply Forall_app in Hok as Hok'. destruct Hok' as [Hc Hcs].
    destruct c as [|c0 c]; [apply IH; done|].
    destruct (concat cs) as [|d ds] eqn:Ecs.
    + rewrite app_nil_r.
      destruct (nb_obs (lsquic_varint_read_nb (c0 :: c) st)) as [[[v r]|st']|] eqn:E; [|..|done].
      * by rewrite app_nil_r.
      * rewrite IH; [by destruct st'|by apply (read_nb_more _ _ _ Hc Hpos E)|done].
    + rewrite (read_nb_app (c0 :: c) (d :: ds)) by done.
      destruct (nb_obs (lsquic_varint_read_nb (c0 :: c) st)) as [[[v r]|st']|] eqn:E; [done| |done].
      apply IH; [by apply (read_nb_more _ _ _ Hc Hpos E)|done].
Qed.

(** One call on the whole input is the one-shot reader. *)
Lemma read_nb_read p val :
  Forall byte_ok p ->
  nb_obs (lsquic_varint_read_nb p (VRS val 0)) =
  match lsquic_varint_read p with
  | Some (n, v) => Some (inl (v, drop (Z.to_nat n) p))
  | None => nb_obs (lsquic_varint_read_nb p (VRS val 0))
  end /\
  (lsquic_varint_read p = None ->
   exists st, nb_obs (lsquic_varint_read_nb p (VRS val 0)) = Some (inr st)).
Proof.
  intros Hok. destruct p as [|p0 p]; [split; [done|by eexists]|].
  assert (byte_ok p0) as H0 by by decompose_Forall_hyps.
  unfold lsquic_varint_read, lsquic_varint_read_nb. cbn [vr_pos vr_val].
  change (0 =? 0) with true. cbn iota.
  destruct (len_bits_cases p0 H0) as [E|[E|[E|E]]]; rewrite E.
  - done.
  - destruct p as [|p1 p]; [split; [done|by eexists]|done].
  - destruct p as [|p1 [|p2 [|p3 p]]]; [split; [done|by eexists]..|done].
  - destruct (Nat.leb_spec 8 (length (p0 :: p))) as [Hl|Hl]; [done|].
    split; [done|]. intros _.
    do 7 (destruct p as [|? p]; [cbn; by eexists|]). cbn in Hl. lia.
Qed.

(** ** Claims *)

(** C22: any encoding the writer makes of a value (with a length large enough
    for it) is read back by [lsquic_varint_read] as exactly that value and
    length, whatever follows it; and the length [vint_size] the generators use
    is the shortest of all byte strings that read back as the value. *)
Theorem varint_roundtrip val bits rest :
  0 <= val <= VINT_MAX_VALUE -> vint_val2bits val <= bits <= 3 ->
  Forall byte_ok rest ->
  lsquic_varint_read (vint_write val bits (Z.shiftl 1 bits) ++ rest)
    = Some (Z.shiftl 1 bits, val)
  /\ (forall p n, Forall byte_ok p ->
        lsquic_varint_read p = Some (n, val) -> vint_size val <= n).
Proof.
  intros Hv Hb Hrest. pose proof (vint_val2bits_range val). split.
  - apply varint_read_write; [lia| |done].
    pose proof (vint_val2bits_fits val Hv).
    pose proof (vint_max_b_mono (vint_val2bits val) bits). lia.
  - intros p n Hp (b & Hb3 & -> & Hval & _)%varint_read_inv; [|done].
    unfold vint_size. rewrite !Z.shiftl_1_l.
    apply Z.pow_le_mono_r; [lia|]. by apply vint_val2bits_least.
Qed.

Lemma varint_roundtrip_witness :
  lsquic_varint_read (vint_write 15293 2 (Z.shiftl 1 2) ++ [7]) = Some (4, 15293)
  /\ (forall p n, Forall byte_ok p ->
        lsquic_varint_read p = Some (n, 15293) -> vint_size 15293 <= n).
Proof.
  apply (varint_roundtrip 15293 2 [7]).
  - vm_compute. split; discriminate.
  - vm_compute. split; discriminate.
  - repeat constructor; vm_compute; first [discriminate|reflexivity].
Defined.

(** C23: the resumable reader never fails an assertion and does not depend on
    how the input is cut into buffers: fed the pieces one after the other it
    returns the value and leaves the bytes that the one-shot reader would, and
    it asks for more exactly when the whole input is too short. *)
Theorem varint_read_nb_chunks chunks val0 :
  Forall byte_ok (concat chunks) ->
  match lsquic_varint_read (concat chunks) with
  | Some (n, v) =>
      nb_feed chunks (VRS val0 0)
      = Some (inl (v, drop (Z.to_nat n) (concat chunks)))
  | None => exists st, nb_feed chunks (VRS val0 0) = Some (inr st)
  end.
Proof.
  intros Hok. rewrite nb_feed_concat by (first [done | by left]).
  destruct (read_nb_read (concat chunks) val0 Hok) as [E1 E2].
  destruct (lsquic_varint_read (concat chunks)) as [[n v]|]; [done|].
  by apply E2.
Qed.

Lemma varint_read_nb_chunks_witness :
  nb_feed [[0x9d]; []; [0x7f; 0x3e]; [0x7d; 0x25]] (VRS 77 0)
  = Some (inl (494878333, [0x25])).
Proof.
  apply (varint_read_nb_chunks [[0x9d]; []; [0x7f; 0x3e]; [0x7d; 0x25]] 77).
  repeat constructor; vm_compute; first [discriminate|reflexivity].
Defined.
