(* ===== verification/VarintChunks.v ===== *)
(** The resumable readers of lsquic_varint.c on input that arrives in pieces: what
    a call returns is what the one-shot reader makes of all the bytes so far. *)
From S2P Require Import Prelude Varint.
Local Open Scope Z_scope.

(** * One integer *)

(** An encoding is recognised from its own bytes. *)
Lemma varint_read_take p q n v : Forall byte_ok p -> Forall byte_ok q ->
  lsquic_varint_read p = Some (n, v) -> lsquic_varint_read (take (Z.to_nat n) p ++ q) = Some (n, v).
Proof.
  intros Hp Hq H. destruct (varint_read_inv p n v Hp H) as (b & Hb & En & _ & Hn).
  rewrite varint_read_decode in H |- * by (auto using Forall_app_2, Forall_take).
  destruct p as [|p0 p]; [done|]. unfold vint_decode in H.
  destruct (Z.leb_spec (2 ^ len_bits p0) (Z.of_nat (length (p0 :: p)))); [|done]. injection H as E1 E2.
  assert (0 < n) by (subst n; rewrite Z.shiftl_1_l in *; lia).
  destruct (Z.to_nat n) as [|m] eqn:Em; [lia|]. cbn [take app]. unfold vint_decode. rewrite E1 in *.
  change (p0 :: take m p ++ q) with (take (S m) (p0 :: p) ++ q). rewrite length_app, length_take, <- Em in *.
  ztest. do 2 f_equal. subst v. f_equal. rewrite take_app_le, take_idemp by (rewrite length_take; lia). done.
Qed.

Lemma varint_read_app p q n v : Forall byte_ok (p ++ q) ->
  lsquic_varint_read p = Some (n, v) -> lsquic_varint_read (p ++ q) = Some (n, v).
Proof.
  intros [Hp Hq]%Forall_app H. destruct (varint_read_inv p n v Hp H) as (b & _ & _ & _ & Hn).
  rewrite <- (take_drop (Z.to_nat n) p), <- app_assoc. apply varint_read_take; [done| |done].
  auto using Forall_app_2, Forall_drop.
Qed.

(** What the first bytes do not decide is longer than they are. *)
Lemma varint_read_longer p q n v : Forall byte_ok (p ++ q) ->
  lsquic_varint_read p = None -> lsquic_varint_read (p ++ q) = Some (n, v) -> Z.of_nat (length p) < n.
Proof.
  intros Hok H1 H2. apply Forall_app in Hok as Hpq. destruct Hpq as [Hp Hq].
  destruct (Z.lt_ge_cases (Z.of_nat (length p)) n) as [|Hle]; [done|].
  pose proof (varint_read_take _ (drop (Z.to_nat n) p) n v Hok (Forall_drop _ _ _ Hp) H2) as H3.
  rewrite take_app_le, take_drop, H1 in H3 by lia. done.
Qed.

(** More input is asked for only when all of it was read. *)
Definition nb_shape (r : nb_result) : Prop :=
  forall s rest st, r = Some (s, rest, st) -> s = 0 \/ (s = -1 /\ rest = []).

Lemma nb_last_shape pos p val : nb_shape (nb_last pos p val).
Proof. intros s rest st. destruct p; [done|]. intros [= <- <- <-]. by left. Qed.

Lemma nb_byte_shape sh next k p val : (forall p val, nb_shape (k p val)) -> nb_shape (nb_byte sh next k p val).
Proof. intros Hk s rest st. destruct p as [|b [|b' p]]; [done| |apply Hk]. intros [= <- <- <-]. by right. Qed.

Lemma nb_first_shape sh next k p : (forall p val, nb_shape (k p val)) -> nb_shape (nb_first sh next k p).
Proof. intros Hk s rest st. destruct p as [|b [|b' p]]; [done| |apply Hk]. intros [= <- <- <-]. by right. Qed.

Lemma read_nb_shape p st : nb_shape (lsquic_varint_read_nb p st).
Proof.
  assert (Hz : forall rest st', nb_shape (Some (0, rest, st'))) by (intros rest st' s r x [= <- <- <-]; by left).
  destruct p as [|p0 p]; [intros s r x [= <- <- <-]; by right|]. unfold lsquic_varint_read_nb.
  repeat match goal with |- nb_shape (match ?x with _ => _ end) => destruct x end; try done.
  all: repeat first [ apply Hz | apply nb_last_shape | apply nb_byte_shape; intros ?? | apply nb_first_shape; intros ?? ].
Qed.

(** The state of the reader after it has read [acc], which is not complete. *)
Definition nb_at (acc : list Z) (st : varint_read_state) : Prop :=
  match acc with
  | [] => vr_pos st = 0
  | _ => exists val0, nb_obs (lsquic_varint_read_nb acc (VRS val0 0)) = Some (inr st)
  end.

Lemma nb_at_incomplete acc st : Forall byte_ok acc -> nb_at acc st -> lsquic_varint_read acc = None.
Proof.
  intros Hok. destruct acc as [|a acc]; [done|]. intros [val0 E].
  destruct (read_nb_read (a :: acc) val0 Hok) as [E1 _]. destruct (lsquic_varint_read (a :: acc)) as [[n v]|]; [|done].
  rewrite E in E1. done.
Qed.

Lemma nb_at_obs acc st c : Forall byte_ok (acc ++ c) -> nb_at acc st -> c <> [] -> exists val0,
  nb_obs (lsquic_varint_read_nb c st) = nb_obs (lsquic_varint_read_nb (acc ++ c) (VRS val0 0)).
Proof.
  intros Hok Hat Hc. destruct acc as [|a acc]; cbn [nb_at] in Hat.
  { exists (vr_val st). destruct st; cbn in *; by subst. }
  destruct Hat as [val0 E]. exists val0. rewrite (read_nb_app (a :: acc) c (VRS val0 0)) by (first [done|by left]). by rewrite E.
Qed.

Lemma read_nb_at acc st c : Forall byte_ok (acc ++ c) -> nb_at acc st -> c <> [] ->
  match lsquic_varint_read (acc ++ c) with
  | Some (n, v) => exists st', lsquic_varint_read_nb c st = Some (0, drop (Z.to_nat n - length acc) c, st') /\ vr_val st' = v
  | None => exists st', lsquic_varint_read_nb c st = Some (-1, [], st') /\ nb_at (acc ++ c) st'
  end.
Proof.
  intros Hok Hat Hc. destruct (nb_at_obs acc st c Hok Hat Hc) as [val0 E].
  destruct (read_nb_read (acc ++ c) val0 Hok) as [E1 E2]. rewrite <- E in E1, E2.
  pose proof (read_nb_shape c st) as Hsh. destruct (lsquic_varint_read (acc ++ c)) as [[n v]|] eqn:Er.
  - assert (length acc <= Z.to_nat n)%nat as Hn.
    { apply Forall_app in Hok as Hok'. destruct Hok' as [Ha _].
      pose proof (varint_read_longer acc c n v Hok (nb_at_incomplete acc st Ha Hat) Er). lia. }
    unfold nb_obs in E1. destruct (lsquic_varint_read_nb c st) as [[[s rest] st']|]; [|done].
    destruct (Z.eqb_spec s 0) as [->|]; [|done]. injection E1 as E1 ->. exists st'.
    by rewrite drop_app_ge by done.
  - destruct (E2 eq_refl) as [st' E3]. unfold nb_obs in E3. destruct (lsquic_varint_read_nb c st) as [[[s rest] st'']|] eqn:Enb; [|done].
    destruct (Hsh _ _ _ eq_refl) as [->|[-> ->]]; [done|]. cbn in E3. injection E3 as ->. exists st'. split; [done|].
    unfold nb_at. destruct (acc ++ c) as [|x l] eqn:Eac; [by destruct acc|]. exists val0. by rewrite <- E.
Qed.

(** * Two integers *)

(** The number of bytes and the values of two encodings in a row. *)
Definition varint_two (p : list Z) : option (Z * (Z * Z)) :=
  '(n1, v1) ← lsquic_varint_read p;
  '(n2, v2) ← lsquic_varint_read (drop (Z.to_nat n1) p);
  Some (n1 + n2, (v1, v2)).

Lemma varint_read_pos p n v : Forall byte_ok p -> lsquic_varint_read p = Some (n, v) ->
  1 <= n <= Z.of_nat (length p) /\ n <= 8 /\ 0 <= v < 2 ^ 62.
Proof.
  intros Hp H. destruct (varint_read_inv p n v Hp H) as (b & Hb & -> & Hv & ?).
  rewrite Z.shiftl_1_l in *. rewrite vint_max_b_eq in Hv by done. change (2 ^ 62) with 4611686018427387904.
  assert (b = 0 \/ b = 1 \/ b = 2 \/ b = 3) as E by lia.
  destruct E as [->|[->|[->| ->]]]; cbn in *; lia.
Qed.

Lemma varint_two_inv p n v : Forall byte_ok p -> varint_two p = Some (n, v) ->
  2 <= n <= Z.of_nat (length p) /\ 0 <= v.1 < 2 ^ 62 /\ 0 <= v.2 < 2 ^ 62.
Proof.
  unfold varint_two. intros Hp H. destruct (lsquic_varint_read p) as [[n1 v1]|] eqn:E1; [|done]. cbn [mbind option_bind] in H.
  destruct (lsquic_varint_read (drop _ p)) as [[n2 v2]|] eqn:E2; [|done]. injection H as <- <-.
  pose proof (varint_read_pos _ _ _ Hp E1). pose proof (varint_read_pos _ _ _ (Forall_drop _ _ _ Hp) E2).
  rewrite length_drop in *. cbn [fst snd]. lia.
Qed.

Lemma varint_two_app p q n v : Forall byte_ok (p ++ q) -> varint_two p = Some (n, v) -> varint_two (p ++ q) = Some (n, v).
Proof.
  unfold varint_two. intros Hok H. apply Forall_app in Hok as Hpq. destruct Hpq as [Hp Hq].
  destruct (lsquic_varint_read p) as [[n1 v1]|] eqn:E1; [|done]. cbn [mbind option_bind] in H.
  rewrite (varint_read_app p q n1 v1) by done. cbn [mbind option_bind].
  destruct (lsquic_varint_read (drop _ p)) as [[n2 v2]|] eqn:E2; [|done].
  destruct (varint_read_pos _ _ _ Hp E1). rewrite drop_app_le by lia.
  rewrite (varint_read_app _ q n2 v2); [done| |done]. auto using Forall_app_2, Forall_drop.
Qed.

(** The same for two: bytes that do not decide are not all of it. *)
Lemma varint_two_longer p q n v : Forall byte_ok (p ++ q) ->
  varint_two p = None -> varint_two (p ++ q) = Some (n, v) -> Z.of_nat (length p) < n.
Proof.
  unfold varint_two. intros Hok H1 H2. apply Forall_app in Hok as Hpq. destruct Hpq as [Hp Hq].
  destruct (lsquic_varint_read (p ++ q)) as [[n1 v1]|] eqn:E1; [|done]. cbn [mbind option_bind] in H2.
  destruct (lsquic_varint_read (drop _ (p ++ q))) as [[n2 v2]|] eqn:E2; [|done]. injection H2 as <- <-.
  pose proof (varint_read_pos _ _ _ (Forall_drop _ _ _ Hok) E2).
  destruct (lsquic_varint_read p) as [[n1' v1']|] eqn:E3.
  - rewrite (varint_read_app _ _ _ _ Hok E3) in E1. injection E1 as -> ->. cbn [mbind option_bind] in H1.
    destruct (varint_read_pos _ _ _ Hp E3). rewrite drop_app_le in E2 by lia.
    destruct (lsquic_varint_read (drop _ p)) as [[n2' v2']|] eqn:E4; [done|].
    enough (Z.of_nat (length (drop (Z.to_nat n1) p)) < n2) by (rewrite length_drop in *; lia).
    apply (varint_read_longer _ q n2 v2); auto using Forall_app_2, Forall_drop.
  - pose proof (varint_read_longer p q n1 v1 Hok E3 E1). lia.
Qed.

(** The state of the reader after [acc]. *)
Inductive two_at : list Z -> varint_read2_state -> Prop :=
| two_at_begin st : vr2s_state st = VR2S_READ_ONE_BEGIN -> two_at [] st
| two_at_one a st : vr2s_state st = VR2S_READ_ONE_CONTINUE -> a <> [] -> nb_at a (vr2s_varint_state st) -> two_at a st
| two_at_mid a n st : vr2s_state st = VR2S_READ_TWO_BEGIN -> lsquic_varint_read a = Some (n, vr2s_one st) ->
    n = Z.of_nat (length a) -> two_at a st
| two_at_two a b n st : vr2s_state st = VR2S_READ_TWO_CONTINUE -> lsquic_varint_read a = Some (n, vr2s_one st) ->
    n = Z.of_nat (length a) -> b <> [] -> nb_at b (vr2s_varint_state st) -> two_at (a ++ b) st.

(** What a call with the bytes [c] has to return. *)
Definition two_result (acc c : list Z) (r : option (Z * list Z * varint_read2_state)) : Prop :=
  match varint_two (acc ++ c) with
  | Some (n, (v1, v2)) => exists st, r = Some (0, drop (Z.to_nat n - length acc) c, st) /\ vr2s_one st = v1 /\ vr2s_two st = v2
  | None => exists st, r = Some (-1, [], st) /\ two_at (acc ++ c) st
  end.

(** [read_two_loop] on the second integer, of which [b] has been read. *)
Lemma read_two_second fuel a b n st c : Forall byte_ok (a ++ b ++ c) ->
  lsquic_varint_read a = Some (n, vr2s_one st) -> n = Z.of_nat (length a) -> c <> [] ->
  (b = [] /\ vr2s_state st = VR2S_READ_TWO_BEGIN) \/
  (vr2s_state st = VR2S_READ_TWO_CONTINUE /\ b <> [] /\ nb_at b (vr2s_varint_state st)) ->
  two_result (a ++ b) c (read_two_loop (S fuel) c st).
Proof.
  intros Hok Ea En Hc Hst. apply Forall_app in Hok as Hok2. destruct Hok2 as [Hoka Hokbc].
  set (vs := match b with [] => VRS (vr_val (vr2s_varint_state st)) 0 | _ => vr2s_varint_state st end).
  assert (Hat : nb_at b vs) by (destruct Hst as [[-> _]|(_ & Hb & Hst)]; [done|by destruct b]).
  assert (E : read_two_loop (S fuel) c st = match lsquic_varint_read_nb c vs with
    | None => None
    | Some (s, p, vs) => if s =? 0 then Some (0, p, VR2S (vr2s_one st) vs VR2S_READ_TWO_CONTINUE)
                         else Some (-1, p, VR2S (vr2s_one st) vs VR2S_READ_TWO_CONTINUE) end).
  { cbn [read_two_loop]. destruct c; [done|]. unfold vs. destruct Hst as [[-> ->]|(-> & Hb & _)]; [|destruct b; [done|]]; reflexivity. }
  rewrite E. pose proof (read_nb_at b vs c Hokbc Hat Hc) as Hr. unfold two_result, varint_two.
  rewrite <- app_assoc, (varint_read_app a (b ++ c) _ _ Hok Ea). cbn [mbind option_bind].
  rewrite drop_app_length' by lia. destruct (lsquic_varint_read (b ++ c)) as [[n2 v2]|] eqn:Ebc; cbn [mbind option_bind].
  - destruct Hr as (st' & -> & Hv). cbn [Z.eqb].
    exists (VR2S (vr2s_one st) st' VR2S_READ_TWO_CONTINUE). split; [|done]. do 3 f_equal. rewrite length_app. f_equal.
    pose proof (varint_read_pos _ _ _ Hokbc Ebc). lia.
  - destruct Hr as (st' & -> & Hv). cbn [Z.eqb]. eexists. split; [done|]. eapply two_at_two; [done..| |done].
    intros [_ ?]%app_nil. done.
Qed.

(** One call of [lsquic_varint_read_two]. *)
Lemma read_two_at acc st c : Forall byte_ok (acc ++ c) -> two_at acc st -> c <> [] ->
  two_result acc c (lsquic_varint_read_two c st).
Proof.
  intros Hok Hat Hc. unfold lsquic_varint_read_two.
  assert (Hone : forall vs, nb_at acc vs ->
    two_result acc c (match lsquic_varint_read_nb c vs with
    | None => None
    | Some (s, p, vs) => if s =? 0 then read_two_loop (length c) p (VR2S (vr_val vs) vs VR2S_READ_TWO_BEGIN)
                         else Some (-1, p, VR2S (vr2s_one st) vs VR2S_READ_ONE_CONTINUE) end)).
  { intros vs Hvs. pose proof (read_nb_at acc vs c Hok Hvs Hc) as Hr. apply Forall_app in Hok as Hok2. destruct Hok2 as [Hacc Hokc].
    destruct (lsquic_varint_read (acc ++ c)) as [[n v]|] eqn:Er.
    2: { destruct Hr as (st' & -> & Hr). cbn [Z.eqb]. unfold two_result, varint_two. rewrite Er. cbn [mbind option_bind].
         eexists. split; [done|]. apply two_at_one; [done| |done]. by intros [? ?]%app_nil. }
    destruct Hr as (st' & -> & Hv). cbn [Z.eqb]. set (k := (Z.to_nat n - length acc)%nat).
    pose proof (varint_read_longer acc c n v Hok (nb_at_incomplete _ _ Hacc Hvs) Er) as Hlong.
    destruct (varint_read_pos _ _ _ Hok Er) as [Hn _]. rewrite length_app in Hn.
    assert (Ea : lsquic_varint_read (acc ++ take k c) = Some (n, v)).
    { replace (acc ++ take k c) with (take (Z.to_nat n) (acc ++ c) ++ []).
      - by apply varint_read_take.
      - rewrite app_nil_r, take_app_ge by lia. done. }
    assert (En : n = Z.of_nat (length (acc ++ take k c))) by (rewrite length_app, length_take; lia).
    destruct (decide (drop k c = [])) as [Ed|Ed].
    - rewrite Ed. unfold two_result, varint_two. rewrite Er. cbn [mbind option_bind].
      apply (f_equal length) in Ed. rewrite length_drop in Ed. cbn in Ed.
      rewrite drop_ge by (rewrite length_app; lia). cbn. destruct c; [done|]. cbn. eexists. split; [done|].
      apply (two_at_mid _ n); [done|by cbn; rewrite Hv|rewrite length_app; cbn in *; lia].
    - destruct c as [|c0 c]; [done|].
      pose proof (read_two_second (length c) (acc ++ take k (c0 :: c)) [] n (VR2S (vr_val st') st' VR2S_READ_TWO_BEGIN) (drop k (c0 :: c))) as H2.
      cbn [vr2s_one vr2s_state vr2s_varint_state length] in *. rewrite Hv in *.
      specialize (H2 ltac:(cbn; by rewrite <- app_assoc, take_drop) Ea En Ed ltac:(by left)).
      revert H2. generalize (read_two_loop (S (length c)) (drop k (c0 :: c)) (VR2S v st' VR2S_READ_TWO_BEGIN)) as r. intros r.
      unfold two_result. rewrite app_nil_r, <- app_assoc, take_drop.
      destruct (varint_two _) as [[m [v1 v2]]|] eqn:Em; [|done]. intros (st2 & -> & H2). exists st2. split; [|done].
      do 3 f_equal. rewrite drop_drop. f_equal. rewrite <- Nat2Z.inj_iff in *. rewrite length_app, length_take in *.
      unfold varint_two in Em. rewrite Er in Em. cbn [mbind option_bind] in Em.
      destruct (lsquic_varint_read (drop _ _)) as [[m2 w2]|] eqn:E2; [|done]. injection Em as <- _ _.
      pose proof (varint_read_pos _ _ _ (Forall_drop _ _ _ Hok) E2). cbn [length] in *. lia. }
  destruct Hat as [st Est|a st Est Ha Hat|a n st Est Ea En|a b n st Est Ea En Hb Hat].
  - specialize (Hone (VRS (vr_val (vr2s_varint_state st)) 0) eq_refl). cbn [read_two_loop]. destruct c; [done|]. rewrite Est. exact Hone.
  - specialize (Hone _ Hat). cbn [read_two_loop]. destruct c; [done|]. rewrite Est. exact Hone.
  - pose proof (read_two_second (length c) a [] n st c) as H2. rewrite app_nil_r in H2. apply H2; [done..|by left].
  - apply (read_two_second (length c) a b n st c); [by rewrite app_assoc|done..|by right].
Qed.
