(* ===== verification/Ranges.v ===== *)
(** Packet-number range lists, highest range first: the abstract value of the
    receive histories and what ACK frames carry.  [struct lsquic_packno_range]
    of lsquic_int_types.h is a pair (low, high), both inclusive. *)
From S2P Require Import Prelude.
Local Open Scope Z_scope.

Abbreviation range := (Z * Z)%type.

(** Packet numbers are below 2^62; [h + 1 < PN_BOUND] is [h < 2^62]. *)
Definition PN_BOUND : Z := 2 ^ 62 + 1.

(** Every range is nonempty and at least one packet number lies between a
    range and the next; all are below [b]. *)
Fixpoint ranges_ok (b : Z) (rs : list range) : Prop :=
  match rs with
  | [] => True
  | (l, h) :: rs => 0 <= l <= h /\ h + 1 < b /\ ranges_ok l rs
  end.

Fixpoint ranges_okb (b : Z) (rs : list range) : bool :=
  match rs with
  | [] => true
  | (l, h) :: rs => (0 <=? l) && (l <=? h) && (h + 1 <? b) && ranges_okb l rs
  end.

Lemma ranges_okb_spec b rs : ranges_okb b rs = true <-> ranges_ok b rs.
Proof.
  revert b. induction rs as [|[l h] rs IH]; intros b; cbn [ranges_okb ranges_ok]; [done|].
  rewrite !andb_true_iff, IH, !Z.leb_le, Z.ltb_lt. tauto.
Qed.

#[export] Instance ranges_ok_dec b rs : Decision (ranges_ok b rs).
Proof.
  destruct (ranges_okb b rs) eqn:E; [left|right].
  - by apply ranges_okb_spec.
  - intros H%ranges_okb_spec. congruence.
Defined.

Definition in_range (p : Z) (r : range) : Prop := r.1 <= p <= r.2.

Definition in_ranges (p : Z) (rs : list range) : Prop := Exists (in_range p) rs.

(** How many packet numbers a list of ranges holds. *)
Fixpoint total (rs : list range) : Z :=
  match rs with [] => 0 | (l, h) :: rs => h - l + 1 + total rs end.

(** Reference insertion of one packet number; [None] when it is there. *)
Fixpoint rins (p : Z) (rs : list range) : option (list range) :=
  match rs with
  | [] => Some [(p, p)]
  | (l, h) :: rs =>
    if h + 1 <? p then Some ((p, p) :: (l, h) :: rs)
    else if p =? l - 1 then
      match rs with
      | (l2, h2) :: rs2 =>
          if p =? h2 + 1 then Some ((l2, h) :: rs2) else Some ((p, h) :: rs)
      | [] => Some [(p, h)]
      end
    else if p =? h + 1 then Some ((l, p) :: rs)
    else if (l <=? p) && (p <=? h) then None
    else cons (l, h) <$> rins p rs
  end.

(** Insertion into a history of at most [max] ranges (no limit when 0): a new
    range evicts the lowest one; when the new packet number is itself below
    all ranges, it takes the place of the lowest range. *)
Definition rins_max (max p : Z) (rs : list range) : option (list range) :=
  rs' ← rins p rs;
  Some (if (max =? 0) || (Z.of_nat (length rs') <=? max) then rs'
        else if bool_decide (last rs' = Some (p, p))
        then take (Z.to_nat max - 1) rs' ++ [(p, p)]
        else take (Z.to_nat max) rs').

(** Dropping everything below a cutoff. *)
Fixpoint rcut (c : Z) (rs : list range) : list range :=
  match rs with
  | [] => []
  | (l, h) :: rs =>
    if h <? c then [] else if l <? c then [(c, h)] else (l, h) :: rcut c rs
  end.

(** ** Sources of ranges *)

(** A history of received packets is passed around as a pointer with the
    functions [first], [next] and [largest_recv]. *)

(** [None] inside the option is the NULL pointer. *)
Class RangeSource (S : Type) := {
  src_first : S -> option (option range * S);
  src_next : S -> option (option range * S);
  src_largest_recv : S -> Z
}.

(** The calls to [src_next] from [s] on yield exactly the ranges [rs]. *)
Fixpoint nexts {S} `{RangeSource S} (s : S) (rs : list range) : Prop :=
  match rs with
  | [] => exists s', src_next s = Some (None, s')
  | r :: rs => exists s', src_next s = Some (Some r, s') /\ nexts s' rs
  end.

(** [src_first] and then [src_next] yield exactly [rs]. *)
Definition yields {S} `{RangeSource S} (s : S) (rs : list range) : Prop :=
  match rs with
  | [] => exists s', src_first s = Some (None, s')
  | r :: rs => exists s', src_first s = Some (Some r, s') /\ nexts s' rs
               /\ src_largest_recv s' = src_largest_recv s
  end.

(** What a history promises: in every state that holds [rs], it yields [rs]. *)
Class RangeSourceSpec (S : Type) `{RangeSource S} (holds : S -> list range -> Prop) :=
  holds_yields : forall s rs, holds s rs -> yields s rs.

(** ** Lemmas *)

Lemma in_ranges_cons p r rs : in_ranges p (r :: rs) <-> in_range p r \/ in_ranges p rs.
Proof. apply Exists_cons. Qed.

Lemma in_ranges_nil p : in_ranges p [] <-> False.
Proof. apply Exists_nil. Qed.

Lemma in_ranges_app p rs1 rs2 :
  in_ranges p (rs1 ++ rs2) <-> in_ranges p rs1 \/ in_ranges p rs2.
Proof. apply Exists_app. Qed.

Create HintDb ranges.
Create Rewrite HintDb ranges.
#[export] Hint Rewrite in_ranges_cons in_ranges_nil in_ranges_app : ranges.

Lemma ranges_ok_mono b b' rs : b <= b' -> ranges_ok b rs -> ranges_ok b' rs.
Proof. destruct rs as [|[l h] rs]; cbn; [done|]. intros. intuition lia. Qed.

Lemma ranges_ok_below b rs p : ranges_ok b rs -> in_ranges p rs -> 0 <= p /\ p + 1 < b.
Proof.
  revert b. induction rs as [|[l h] rs IH]; intros b Hok Hin;
    autorewrite with ranges in Hin; [done|].
  cbn in Hok. destruct Hin as [Hin|Hin].
  - unfold in_range in Hin. cbn in Hin. lia.
  - apply (IH l) in Hin; [lia|tauto].
Qed.

Lemma rins_ok b p rs rs' :
  ranges_ok b rs -> 0 <= p -> p + 1 < b -> rins p rs = Some rs' -> ranges_ok b rs'.
Proof.
  revert b rs'. induction rs as [|[l h] rs IH]; intros b rs' Hok Hp0 Hp Hins.
  { cbn in Hins. injection Hins as <-. cbn in *; intuition lia. }
  cbn [rins] in Hins. cbn in Hok.
  destruct (Z.ltb_spec (h + 1) p).
  { injection Hins as <-. cbn in *; intuition lia. }
  destruct (Z.eqb_spec p (l - 1)).
  { destruct rs as [|[l2 h2] rs].
    - injection Hins as <-. cbn in *; intuition lia.
    - cbn in Hok. destruct (Z.eqb_spec p (h2 + 1)); injection Hins as <-; cbn; intuition lia. }
  destruct (Z.eqb_spec p (h + 1)).
  { injection Hins as <-. cbn. intuition lia. }
  destruct ((l <=? p) && (p <=? h)) eqn:E; [done|].
  apply fmap_Some in Hins as (rs1 & Hins & ->). cbn.
  split_and!; [lia..|]. apply IH; [tauto|lia|lia|done].
Qed.

Lemma rins_in p rs rs' q :
  rins p rs = Some rs' -> (forall b, ranges_ok b rs -> in_ranges q rs' <-> q = p \/ in_ranges q rs).
Proof.
  revert rs'. induction rs as [|[l h] rs IH]; intros rs' Hins b Hok.
  { cbn in Hins. injection Hins as <-. autorewrite with ranges. unfold in_range; cbn in *; intuition lia. }
  cbn [rins] in Hins. cbn in Hok.
  destruct (Z.ltb_spec (h + 1) p).
  { injection Hins as <-. autorewrite with ranges. unfold in_range; cbn in *; intuition lia. }
  destruct (Z.eqb_spec p (l - 1)).
  { destruct rs as [|[l2 h2] rs].
    - injection Hins as <-. autorewrite with ranges. unfold in_range; cbn in *; intuition lia.
    - cbn in Hok. destruct (Z.eqb_spec p (h2 + 1)); injection Hins as <-;
        autorewrite with ranges; unfold in_range; cbn in *; intuition lia. }
  destruct (Z.eqb_spec p (h + 1)).
  { injection Hins as <-. autorewrite with ranges. unfold in_range; cbn in *; intuition lia. }
  destruct ((l <=? p) && (p <=? h)) eqn:E; [done|].
  apply fmap_Some in Hins as (rs1 & Hins & ->).
  autorewrite with ranges. rewrite (IH rs1 Hins l) by tauto. tauto.
Qed.

Lemma rins_None p rs b :
  ranges_ok b rs -> rins p rs = None <-> in_ranges p rs.
Proof.
  revert b. induction rs as [|[l h] rs IH]; intros b Hok; cbn [rins].
  { by autorewrite with ranges. }
  cbn in Hok. destruct Hok as (Hl & Hh & Hok).
  autorewrite with ranges. unfold in_range at 1; cbn.
  assert (in_ranges p rs -> p + 1 < l) as Hlow
    by (intros Hin; apply (ranges_ok_below _ _ _ Hok) in Hin; lia).
  destruct (Z.ltb_spec (h + 1) p); [split; [done|intuition lia]|].
  destruct (Z.eqb_spec p (l - 1)).
  { split; [|intuition lia]. destruct rs as [|[l2 h2] rs]; [done|by destruct (p =? h2 + 1)]. }
  destruct (Z.eqb_spec p (h + 1)); [split; [done|intuition lia]|].
  destruct ((l <=? p) && (p <=? h)) eqn:E; [split; [intuition lia|done]|].
  rewrite fmap_None, (IH l) by done. intuition lia.
Qed.

Lemma rins_total b p rs rs' :
  ranges_ok b rs -> rins p rs = Some rs' -> total rs' = total rs + 1.
Proof.
  revert b rs'. induction rs as [|[l h] rs IH]; intros b rs' Hok Hins.
  { cbn in Hins. injection Hins as <-. cbn in *; intuition lia. }
  cbn [rins] in Hins. cbn in Hok.
  destruct (Z.ltb_spec (h + 1) p).
  { injection Hins as <-. cbn in *; intuition lia. }
  destruct (Z.eqb_spec p (l - 1)).
  { destruct rs as [|[l2 h2] rs].
    - injection Hins as <-. cbn in *; intuition lia.
    - destruct (Z.eqb_spec p (h2 + 1)); injection Hins as <-; cbn; lia. }
  destruct (Z.eqb_spec p (h + 1)).
  { injection Hins as <-. cbn in *; intuition lia. }
  destruct ((l <=? p) && (p <=? h)) eqn:E; [done|].
  apply fmap_Some in Hins as (rs1 & Hins & ->). cbn.
  rewrite (IH l rs1); [lia|tauto|done].
Qed.

Lemma total_nonneg b rs : ranges_ok b rs -> 0 <= total rs.
Proof.
  revert b. induction rs as [|[l h] rs IH]; intros b; cbn; [done|].
  intros (? & ? & H%IH). lia.
Qed.

Lemma rcut_in c rs q b :
  ranges_ok b rs -> in_ranges q (rcut c rs) <-> in_ranges q rs /\ c <= q.
Proof.
  revert b. induction rs as [|[l h] rs IH]; intros b Hok; cbn [rcut].
  { autorewrite with ranges. tauto. }
  cbn in Hok. destruct Hok as (Hl & Hh & Hok).
  assert (in_ranges q rs -> q + 1 < l) as Hlow
    by (intros Hin; apply (ranges_ok_below _ _ _ Hok) in Hin; lia).
  destruct (Z.ltb_spec h c); [|destruct (Z.ltb_spec l c)];
    autorewrite with ranges; unfold in_range; cbn.
  - intuition lia.
  - intuition lia.
  - rewrite (IH l) by done. unfold in_range; cbn. intuition lia.
Qed.

Lemma rcut_ok b c rs : 0 <= c -> ranges_ok b rs -> ranges_ok b (rcut c rs).
Proof.
  intros Hc. revert b. induction rs as [|[l h] rs IH]; intros b Hok; cbn [rcut]; [done|].
  cbn in Hok. destruct Hok as (Hl & Hh & Hok).
  destruct (Z.ltb_spec h c); [done|]. destruct (Z.ltb_spec l c); cbn; [lia|].
  split_and!; try lia. by apply IH.
Qed.

Lemma rcut_total b c rs : ranges_ok b rs -> total (rcut c rs) <= total rs.
Proof.
  revert b. induction rs as [|[l h] rs IH]; intros b Hok; cbn [rcut]; [done|].
  cbn in Hok. destruct Hok as (Hl & Hh & Hok). pose proof (total_nonneg _ _ Hok).
  destruct (Z.ltb_spec h c); cbn; [lia|]. destruct (Z.ltb_spec l c); cbn; [lia|].
  specialize (IH l Hok). lia.
Qed.

Lemma ranges_ok_take b n rs : ranges_ok b rs -> ranges_ok b (take n rs).
Proof.
  revert b n. induction rs as [|[l h] rs IH]; intros b n Hok; destruct n; cbn; try done.
  cbn in Hok. split_and!; try lia. apply IH; tauto.
Qed.

Lemma total_take b n rs : ranges_ok b rs -> total (take n rs) <= total rs.
Proof.
  revert b n. induction rs as [|[l h] rs IH]; intros b n Hok; destruct n; cbn; try lia.
  - pose proof (total_nonneg _ _ Hok). cbn in H. lia.
  - cbn in Hok. specialize (IH l n). intuition lia.
Qed.

Lemma in_ranges_take q n rs : in_ranges q (take n rs) -> in_ranges q rs.
Proof.
  intros H. rewrite <- (take_drop n rs). autorewrite with ranges. by left.
Qed.

(** The bound below which the ranges after [rs] lie. *)
Fixpoint lowb (b : Z) (rs : list range) : Z :=
  match rs with [] => b | (l, _) :: rs => lowb l rs end.

Lemma ranges_ok_app b a c :
  ranges_ok b (a ++ c) <-> ranges_ok b a /\ ranges_ok (lowb b a) c.
Proof.
  revert b. induction a as [|[l h] a IH]; intros b; cbn; [tauto|]. rewrite IH. tauto.
Qed.

Lemma lowb_le b rs : ranges_ok b rs -> lowb b rs <= b.
Proof.
  revert b. induction rs as [|[l h] rs IH]; intros b; cbn; [lia|].
  intros (? & ? & H%IH). lia.
Qed.

Lemma lowb_app b a c : lowb b (a ++ c) = lowb (lowb b a) c.
Proof. revert b. induction a as [|[l h] a IH]; intros b; cbn; auto. Qed.

Lemma total_app a c : total (a ++ c) = total a + total c.
Proof. induction a as [|[l h] a IH]; cbn; lia. Qed.

Lemma ranges_ok_drop_mid b a c d : ranges_ok b (a ++ c ++ d) -> ranges_ok b (a ++ d).
Proof.
  rewrite !ranges_ok_app. intros (Ha & Hc & Hd). split; [done|].
  apply (ranges_ok_mono (lowb (lowb b a) c)); [by apply lowb_le|done].
Qed.

(** Every range of the list lies above [p], with a gap. *)
Definition all_above (p : Z) (rs : list range) : Prop :=
  Forall (fun r => p + 1 < r.1 /\ r.1 <= r.2) rs.

Lemma rins_skip p a c : all_above p a -> rins p (a ++ c) = app a <$> rins p c.
Proof.
  induction 1 as [|[l h] a Hr Ha IH]; cbn [app rins].
  - by destruct (rins p c).
  - cbn in Hr. ztest. destruct (Z.leb_spec l p); [lia|]. cbn [andb]. rewrite IH.
    by destruct (rins p c).
Qed.

(** The three shapes an insertion can take at the element where it stops. *)
Lemma rins_above p l h rs :
  h + 1 < p -> rins p ((l, h) :: rs) = Some ((p, p) :: (l, h) :: rs).
Proof. intros. cbn. by ztest. Qed.

Lemma rins_max_id max p rs :
  rins p rs = None -> rins_max max p rs = None.
Proof. intros H. unfold rins_max. by rewrite H. Qed.

Lemma rins_max_fits max p rs rs' :
  rins p rs = Some rs' -> max = 0 \/ Z.of_nat (length rs') <= max ->
  rins_max max p rs = Some rs'.
Proof.
  intros H Hm. unfold rins_max. rewrite H. cbn.
  destruct (Z.eqb_spec max 0); [done|]. cbn [orb]. by ztest.
Qed.

Lemma rins_max_evict max p rs a r :
  rins p rs = Some (a ++ [r]) -> 0 < max -> Z.of_nat (length a) = max -> r <> (p, p) ->
  rins_max max p rs = Some a.
Proof.
  intros H Hm Hl Hr. unfold rins_max. rewrite H. cbn.
  rewrite length_app. cbn [length].
  destruct (Z.eqb_spec max 0); [lia|]. cbn [orb]. ztest.
  rewrite bool_decide_eq_false_2 by (rewrite last_snoc; congruence).
  f_equal. rewrite take_app_length'; [done|lia].
Qed.

Lemma rins_max_tail max p rs a r :
  rins p rs = Some (a ++ [r; (p, p)]) -> 0 < max -> Z.of_nat (length a) + 1 = max ->
  rins_max max p rs = Some (a ++ [(p, p)]).
Proof.
  intros H Hm Hl. unfold rins_max. rewrite H. cbn.
  rewrite length_app. cbn [length].
  destruct (Z.eqb_spec max 0); [lia|]. cbn [orb]. ztest.
  change [r; (p, p)] with ([r] ++ [(p, p)]). rewrite app_assoc, last_snoc.
  rewrite bool_decide_eq_true_2 by done. rewrite <- app_assoc.
  f_equal. rewrite take_app_length'; [done|lia].
Qed.

Lemma rins_max_cases max p rs rs' :
  rins_max max p rs = Some rs' ->
  exists rs1, rins p rs = Some rs1 /\
  (rs' = rs1 \/ rs' = take (Z.to_nat max) rs1
   \/ exists n a, rs1 = a ++ [(p, p)] /\ rs' = take n rs1 ++ [(p, p)]
                  /\ (n <= length a)%nat).
Proof.
  unfold rins_max. destruct (rins p rs) as [rs1|]; [|done]. cbn. intros [= <-].
  exists rs1. split; [done|].
  destruct (Z.eqb_spec max 0); [by left|]. cbn [orb].
  destruct (Z.leb_spec (Z.of_nat (length rs1)) max); [by left|].
  case_bool_decide as E; [|right; by left].
  right; right. apply last_Some in E as [a ->]. exists (Z.to_nat max - 1)%nat, a.
  rewrite length_app in *. cbn in *. split_and!; [done..|]. lia.
Qed.

Lemma take_snoc_split n (a : list range) r :
  (n <= length a)%nat -> exists c, a ++ [r] = take n (a ++ [r]) ++ c ++ [r].
Proof.
  intros. exists (drop n a). rewrite take_app_le by done.
  rewrite app_assoc, take_drop. done.
Qed.

Lemma rins_max_ok b max p rs rs' :
  ranges_ok b rs -> 0 <= p -> p + 1 < b -> rins_max max p rs = Some rs' -> ranges_ok b rs'.
Proof.
  intros Hok Hp Hpb (rs1 & Hins & Hc)%rins_max_cases.
  pose proof (rins_ok _ _ _ _ Hok Hp Hpb Hins) as Hok1.
  destruct Hc as [->|[->|(n & a & -> & -> & Hn)]]; [done|by apply ranges_ok_take|].
  destruct (take_snoc_split n a (p, p) Hn) as [c Hc].
  rewrite Hc in Hok1. by apply ranges_ok_drop_mid in Hok1.
Qed.

Lemma rins_max_total b max p rs rs' :
  ranges_ok b rs -> 0 <= p -> p + 1 < b -> rins_max max p rs = Some rs' ->
  total rs' <= total rs + 1.
Proof.
  intros Hok Hp Hpb (rs1 & Hins & Hc)%rins_max_cases.
  pose proof (rins_ok _ _ _ _ Hok Hp Hpb Hins) as Hok1.
  pose proof (rins_total _ _ _ _ Hok Hins) as Ht.
  destruct Hc as [->|[->|(n & a & -> & -> & Hn)]]; [lia| |].
  - pose proof (total_take _ (Z.to_nat max) _ Hok1). lia.
  - destruct (take_snoc_split n a (p, p) Hn) as [c Hc]. rewrite Hc in Ht, Hok1.
    rewrite !total_app in *. rewrite !ranges_ok_app in Hok1.
    destruct Hok1 as (_ & Hc2 & _). pose proof (total_nonneg _ _ Hc2). lia.
Qed.
