(* ===== verification/Rechist.v ===== *)
(** History of received packets: lsquic_rechist.c.

    The history is a singly linked list of packet-number ranges, highest
    first, threaded through an array of elements by index, with a bit mask of
    the elements in use.  [realloc] is the Boolean argument [alloc_ok] (does
    the call succeed) and the section variable [junk] (what uninitialised
    memory holds); [None] is undefined behaviour or a failed assertion. *)
From S2P Require Import Prelude Ranges.
Local Open Scope Z_scope.

Record rechist_elem := RE { re_low : Z; re_count : Z; re_next : Z }.

Record lsquic_rechist := RH {
  rh_elems : list rechist_elem;
  rh_masks : list Z;
  rh_cutoff : Z;
  rh_largest_acked_received : Z;
  rh_n_masks : Z;
  rh_n_alloced : Z;
  rh_n_used : Z;
  rh_head : Z;
  rh_max_ranges : Z;
  rh_flags : Z;
  rh_iter_range : Z * Z;      (* low, high *)
  rh_iter_next : Z
}.

Definition RH_CUTOFF_SET : Z := Z.shiftl 1 0.
Definition BITS_PER_MASK : Z := 64.
Definition LOG2_BITS : Z := 6.

Inductive received_st := REC_ST_OK | REC_ST_DUP | REC_ST_ERR.

(** ** Field updates *)
Definition with_elems (rh : lsquic_rechist) es : lsquic_rechist :=
  RH es (rh_masks rh) (rh_cutoff rh) (rh_largest_acked_received rh)
     (rh_n_masks rh) (rh_n_alloced rh) (rh_n_used rh) (rh_head rh)
     (rh_max_ranges rh) (rh_flags rh) (rh_iter_range rh) (rh_iter_next rh).
Definition with_masks (rh : lsquic_rechist) ms used : lsquic_rechist :=
  RH (rh_elems rh) ms (rh_cutoff rh) (rh_largest_acked_received rh)
     (rh_n_masks rh) (rh_n_alloced rh) used (rh_head rh)
     (rh_max_ranges rh) (rh_flags rh) (rh_iter_range rh) (rh_iter_next rh).
Definition with_head (rh : lsquic_rechist) h : lsquic_rechist :=
  RH (rh_elems rh) (rh_masks rh) (rh_cutoff rh) (rh_largest_acked_received rh)
     (rh_n_masks rh) (rh_n_alloced rh) (rh_n_used rh) h
     (rh_max_ranges rh) (rh_flags rh) (rh_iter_range rh) (rh_iter_next rh).
Definition with_largest (rh : lsquic_rechist) t : lsquic_rechist :=
  RH (rh_elems rh) (rh_masks rh) (rh_cutoff rh) t
     (rh_n_masks rh) (rh_n_alloced rh) (rh_n_used rh) (rh_head rh)
     (rh_max_ranges rh) (rh_flags rh) (rh_iter_range rh) (rh_iter_next rh).
Definition with_cutoff (rh : lsquic_rechist) c fl : lsquic_rechist :=
  RH (rh_elems rh) (rh_masks rh) c (rh_largest_acked_received rh)
     (rh_n_masks rh) (rh_n_alloced rh) (rh_n_used rh) (rh_head rh)
     (rh_max_ranges rh) fl (rh_iter_range rh) (rh_iter_next rh).
Definition with_iter (rh : lsquic_rechist) rg nx : lsquic_rechist :=
  RH (rh_elems rh) (rh_masks rh) (rh_cutoff rh) (rh_largest_acked_received rh)
     (rh_n_masks rh) (rh_n_alloced rh) (rh_n_used rh) (rh_head rh)
     (rh_max_ranges rh) (rh_flags rh) rg nx.

(** ** Operations *)

Definition lsquic_rechist_init (ietf : bool) (max_ranges : Z) : lsquic_rechist :=
  RH [] [] (if ietf then 0 else 1) 0 0 0 0 0
     (if max_ranges =? 1 then 2 else max_ranges) 0 (0, 0) 0.

Definition lsquic_rechist_cleanup (rh : lsquic_rechist) : lsquic_rechist :=
  RH [] [] 0 0 0 0 0 0 0 0 (0, 0) 0.

Definition RE_HIGH (el : rechist_elem) : Z := u64 (re_low el + re_count el - 1).

Definition rechist_free_elem (rh : lsquic_rechist) (idx : Z)
    : option lsquic_rechist :=
  m ← aget (rh_masks rh) (Z.shiftr idx LOG2_BITS);
  ms ← aset (rh_masks rh) (Z.shiftr idx LOG2_BITS)
         (Z.ldiff m (Z.shiftl 1 (Z.land idx (Z.shiftl 1 LOG2_BITS - 1))));
  Some (with_masks rh ms (u32 (rh_n_used rh - 1))).

Definition find_free_slot (slots : Z) : option Z :=
  if slots =? 0 then Some 0 else ctz 64 (u64 (Z.lnot slots)).

Section memory.
Variable junk : rechist_elem.

Definition rechist_grow (alloc_ok : bool) (rh : lsquic_rechist)
    : option lsquic_rechist :=
  let nelems :=
    if rh_n_alloced rh =? 0 then 4 else u32 (rh_n_alloced rh * 2) in
  let nelems :=
    if negb (rh_max_ranges rh =? 0) && (rh_max_ranges rh <? nelems)
    then rh_max_ranges rh else nelems in
  let n_masks :=
    (nelems + Z.land (u32 (- nelems)) (BITS_PER_MASK - 1)) / BITS_PER_MASK in
  if alloc_ok then
    Some (RH (take (Z.to_nat nelems)
                (rh_elems rh ++ replicate (Z.to_nat nelems) junk))
             (take (Z.to_nat n_masks)
                (rh_masks rh
                 ++ replicate (Z.to_nat (n_masks - rh_n_masks rh)) 0))
             (rh_cutoff rh) (rh_largest_acked_received rh)
             n_masks nelems (rh_n_used rh) (rh_head rh)
             (rh_max_ranges rh) (rh_flags rh) (rh_iter_range rh) (rh_iter_next rh))
  else None.

(** [while (el->re_next != val) ++el;] from element [i] on. *)
Fixpoint scan_next (es : list rechist_elem) (val i : Z) : option Z :=
  match es with
  | [] => None
  | e :: es => if re_next e =? val then Some i else scan_next es val (i + 1)
  end.

Definition rechist_reuse_last_elem (rh : lsquic_rechist)
    : option (Z * lsquic_rechist) :=
  last_idx ← scan_next (rh_elems rh) UINT_MAX 0;
  pen_idx ← scan_next (rh_elems rh) last_idx 0;
  pen ← aget (rh_elems rh) pen_idx;
  es ← aset (rh_elems rh) pen_idx (RE (re_low pen) (re_count pen) UINT_MAX);
  Some (last_idx, with_elems rh es).

(** [for (mask = rh_masks; *mask == UINTPTR_MAX; ++mask) ;] *)
Fixpoint scan_mask (ms : list Z) (i : Z) : option (Z * Z) :=
  match ms with
  | [] => None
  | m :: ms => if m =? UINT64_MAX then scan_mask ms (i + 1) else Some (i, m)
  end.

(** The slot scan of [rechist_alloc_elem], after the growth check. *)
Definition rechist_take_slot (rh : lsquic_rechist)
    : option (Z * lsquic_rechist) :=
  '(i, m) ← scan_mask (rh_masks rh) 0;
  if negb (i <? rh_n_masks rh) then None else
  idx ← find_free_slot m;
  ms ← aset (rh_masks rh) i (Z.lor m (u64 (Z.shiftl 1 idx)));
  Some (i32 (idx + i * BITS_PER_MASK),
        with_masks rh ms (u32 (rh_n_used rh + 1))).

(** The index of the new element, -1 when memory cannot be had. *)
Definition rechist_alloc_elem (alloc_ok : bool) (rh : lsquic_rechist)
    : option (Z * lsquic_rechist) :=
  if rh_n_used rh =? rh_n_alloced rh then
    if negb (rh_max_ranges rh =? 0) && (rh_max_ranges rh <=? rh_n_used rh)
    then rechist_reuse_last_elem rh
    else match rechist_grow alloc_ok rh with
         | None => Some (-1, rh)
         | Some rh => rechist_take_slot rh
         end
  else rechist_take_slot rh.

Definition replace_last_el (rh : lsquic_rechist) (packno eli : Z)
    : option (received_st * lsquic_rechist) :=
  el ← aget (rh_elems rh) eli;
  if negb (re_next el =? UINT_MAX) then None else
  es ← aset (rh_elems rh) eli (RE packno 1 (re_next el));
  Some (REC_ST_OK, with_elems rh es).

Definition at_max_ranges (rh : lsquic_rechist) : bool :=
  negb (rh_max_ranges rh =? 0) && (rh_max_ranges rh <=? rh_n_used rh).

Definition set_next (es : list rechist_elem) (i nx : Z)
    : option (list rechist_elem) :=
  e ← aget es i; aset es i (RE (re_low e) (re_count e) nx).

(** The label [insert_before]. *)
Definition insert_before (alloc_ok : bool) (rh : lsquic_rechist) (packno : Z)
    (prev : option Z) (eli : Z) : option (received_st * lsquic_rechist) :=
  el ← aget (rh_elems rh) eli;
  if (re_next el =? UINT_MAX) && at_max_ranges rh
  then replace_last_el rh packno eli
  else
    '(idx, rh) ← rechist_alloc_elem alloc_ok rh;
    if idx <? 0 then Some (REC_ST_ERR, rh) else
    es ← aset (rh_elems rh) idx (RE packno 1 eli);
    if eli =? rh_head rh
    then Some (REC_ST_OK, with_head (with_elems rh es) idx)
    else prev_idx ← prev;
         es ← set_next es prev_idx idx;
         Some (REC_ST_OK, with_elems rh es).

(** The code after the loop: insert at the tail. *)
Definition insert_tail (alloc_ok : bool) (rh : lsquic_rechist) (packno eli : Z)
    : option (received_st * lsquic_rechist) :=
  if at_max_ranges rh then replace_last_el rh packno eli else
  '(idx, rh) ← rechist_alloc_elem alloc_ok rh;
  if idx <? 0 then Some (REC_ST_ERR, rh) else
  es ← aset (rh_elems rh) idx (RE packno 1 UINT_MAX);
  es ← set_next es eli idx;
  Some (REC_ST_OK, with_elems rh es).

(** [packno == el->re_low - 1]: extend down, and merge with the next range. *)
Definition extend_low (rh : lsquic_rechist) (eli : Z) (el : rechist_elem)
    : option (received_st * lsquic_rechist) :=
  let el := RE (u64 (re_low el - 1)) (u32 (re_count el + 1)) (re_next el) in
  es ← aset (rh_elems rh) eli el;
  let rh := with_elems rh es in
  if re_next el =? UINT_MAX then Some (REC_ST_OK, rh) else
  nx ← aget es (re_next el);
  if re_low el =? u64 (RE_HIGH nx + 1) then
    rh ← rechist_free_elem rh (re_next el);
    es ← aset (rh_elems rh) eli
           (RE (re_low nx) (u32 (re_count el + re_count nx)) (re_next nx));
    Some (REC_ST_OK, with_elems rh es)
  else Some (REC_ST_OK, rh).

(** The [while (1)] loop over the list. *)
Fixpoint received_loop (fuel : nat) (alloc_ok : bool) (rh : lsquic_rechist)
    (packno : Z) (prev : option Z) (eli : Z)
    : option (received_st * lsquic_rechist) :=
  match fuel with
  | O => None
  | S fuel =>
    el ← aget (rh_elems rh) eli;
    if u64 (RE_HIGH el + 1) <? packno then insert_before alloc_ok rh packno prev eli
    else if packno =? u64 (re_low el - 1) then extend_low rh eli el
    else if packno =? u64 (RE_HIGH el + 1) then
      es ← aset (rh_elems rh) eli
             (RE (re_low el) (u32 (re_count el + 1)) (re_next el));
      Some (REC_ST_OK, with_elems rh es)
    else if (re_low el <=? packno) && (packno <=? RE_HIGH el)
    then Some (REC_ST_DUP, rh)
    else if re_next el =? UINT_MAX then insert_tail alloc_ok rh packno eli
    else received_loop fuel alloc_ok rh packno (Some eli) (re_next el)
  end.

(** The label [first_elem]. *)
Definition first_elem (alloc_ok : bool) (rh : lsquic_rechist) (packno now : Z)
    : option (received_st * lsquic_rechist) :=
  if packno <? rh_cutoff rh then Some (REC_ST_ERR, rh) else
  '(idx, rh) ← rechist_alloc_elem alloc_ok rh;
  if idx <? 0 then Some (REC_ST_ERR, rh) else
  es ← aset (rh_elems rh) idx (RE packno 1 UINT_MAX);
  Some (REC_ST_OK, with_largest (with_head (with_elems rh es) idx) now).

Definition lsquic_rechist_received (alloc_ok : bool) (rh : lsquic_rechist)
    (packno now : Z) : option (received_st * lsquic_rechist) :=
  if rh_n_used rh =? 0 then first_elem alloc_ok rh packno now
  else if packno <? rh_cutoff rh then Some (REC_ST_DUP, rh)
  else
    el ← aget (rh_elems rh) (rh_head rh);
    let rh := if RE_HIGH el <? packno then with_largest rh now else rh in
    received_loop (S (length (rh_elems rh))) alloc_ok rh packno None (rh_head rh).

(** The loop of [lsquic_rechist_copy_ranges]; [prev_idx] is [UINT_MAX] before
    the first range, and the next element of [allocs] says whether memory can
    be had. *)
Fixpoint copy_loop {S} `{RangeSource S} (fuel : nat) (allocs : list bool) (rh : lsquic_rechist) (src : S)
    (rg : option range) (prev_idx : Z) : option (Z * lsquic_rechist * S) :=
  match rg with
  | None => Some (0, rh, src)
  | Some (low, high) =>
    if negb (rh_max_ranges rh =? 0) && negb (rh_n_used rh <? rh_max_ranges rh) then Some (0, rh, src) else
    match fuel with
    | O => None
    | Datatypes.S fuel =>
      '(idx, rh) ← rechist_alloc_elem (hd true allocs) rh;
      if idx <? 0 then Some (-1, rh, src) else
      es ← aset (rh_elems rh) idx (RE low (u32 (high - low + 1)) UINT_MAX);
      let rh := with_elems rh es in
      rh ← (if prev_idx =? UINT_MAX then Some (with_head rh idx)
            else es ← set_next (rh_elems rh) prev_idx idx; Some (with_elems rh es));
      '(rg, src) ← src_next src;
      copy_loop fuel (tl allocs) rh src rg idx
    end
  end.

(** [fuel] bounds the number of ranges copied. *)
Definition lsquic_rechist_copy_ranges {S} `{RangeSource S} (fuel : nat) (allocs : list bool) (rh : lsquic_rechist)
    (src : S) : option (Z * lsquic_rechist * S) :=
  if negb (rh_n_used rh =? 0) then None else
  '(rg, src) ← src_first src;
  copy_loop fuel allocs rh src rg UINT_MAX.
End memory.

(** ** Dropping what is below the cutoff *)

(** The second loop of [lsquic_rechist_stop_wait]. *)
Fixpoint free_loop (fuel : nat) (rh : lsquic_rechist) (eli : Z)
    : option lsquic_rechist :=
  match fuel with
  | O => None
  | S fuel =>
    el ← aget (rh_elems rh) eli;
    rh ← rechist_free_elem rh eli;
    if re_next el =? UINT_MAX then Some rh else free_loop fuel rh (re_next el)
  end.

Definition set_next_opt (es : list rechist_elem) (prev : option Z) (nx : Z)
    : option (list rechist_elem) :=
  match prev with Some i => set_next es i nx | None => Some es end.

(** The first loop; it leaves either to the second one or to [end]. *)
Fixpoint cutoff_loop (fuel : nat) (rh : lsquic_rechist) (cutoff : Z)
    (prev : option Z) (eli : Z) : option lsquic_rechist :=
  match fuel with
  | O => None
  | S fuel =>
    el ← aget (rh_elems rh) eli;
    if RE_HIGH el <? cutoff then
      es ← set_next_opt (rh_elems rh) prev UINT_MAX;
      free_loop (S (length es)) (with_elems rh es) eli
    else if re_low el <? cutoff then
      let count := u32 (RE_HIGH el - cutoff + 1) in
      if re_next el =? UINT_MAX then
        es ← aset (rh_elems rh) eli (RE cutoff count (re_next el));
        Some (with_elems rh es)
      else
        es ← aset (rh_elems rh) eli (RE cutoff count UINT_MAX);
        free_loop (S (length es)) (with_elems rh es) (re_next el)
    else if re_next el =? UINT_MAX then Some rh
    else cutoff_loop fuel rh cutoff (Some eli) (re_next el)
  end.

Definition lsquic_rechist_stop_wait (rh : lsquic_rechist) (cutoff : Z)
    : option lsquic_rechist :=
  if has_flag (rh_flags rh) RH_CUTOFF_SET && (cutoff <? rh_cutoff rh) then None
  else if has_flag (rh_flags rh) RH_CUTOFF_SET && (cutoff <=? rh_cutoff rh)
  then Some rh
  else
    let rh := with_cutoff rh cutoff (Z.lor (rh_flags rh) RH_CUTOFF_SET) in
    if rh_n_used rh =? 0 then Some rh
    else cutoff_loop (S (length (rh_elems rh))) rh cutoff None (rh_head rh).

(** ** Queries and iteration *)

Definition lsquic_rechist_largest_packno (rh : lsquic_rechist) : option Z :=
  if rh_n_used rh =? 0 then Some 0
  else el ← aget (rh_elems rh) (rh_head rh); Some (RE_HIGH el).

Definition lsquic_rechist_cutoff (rh : lsquic_rechist) : Z :=
  if has_flag (rh_flags rh) RH_CUTOFF_SET then rh_cutoff rh else 0.

Definition lsquic_rechist_largest_recv (rh : lsquic_rechist) : Z :=
  rh_largest_acked_received rh.

(** [first] and [next] return the range (the pointer to [rh_iter.range]), or
    no range for NULL, and advance the iterator kept in the history. *)
Definition lsquic_rechist_first (rh : lsquic_rechist)
    : option (option (Z * Z) * lsquic_rechist) :=
  if rh_n_used rh =? 0 then Some (None, rh)
  else
    el ← aget (rh_elems rh) (rh_head rh);
    let rg := (re_low el, RE_HIGH el) in
    Some (Some rg, with_iter rh rg (re_next el)).

Definition lsquic_rechist_next (rh : lsquic_rechist)
    : option (option (Z * Z) * lsquic_rechist) :=
  if rh_iter_next rh =? UINT_MAX then Some (None, rh)
  else
    el ← aget (rh_elems rh) (rh_iter_next rh);
    let rg := (re_low el, RE_HIGH el) in
    Some (Some rg, with_iter rh rg (re_next el)).

Definition lsquic_rechist_peek (rh : lsquic_rechist)
    : option (option (Z * Z) * lsquic_rechist) :=
  if rh_n_used rh =? 0 then Some (None, rh)
  else
    el ← aget (rh_elems rh) (rh_head rh);
    let rg := (re_low el, RE_HIGH el) in
    Some (Some rg, with_iter rh rg (rh_iter_next rh)).
