(* ===== verification/RechistSpec.v ===== *)
(** The receive history refines the range list: invariant of the element
    array, the free-slot mask and the threaded list, and the refinement of
    every operation of Rechist.v by the reference operations of Ranges.v. *)
From S2P Require Import Prelude Ranges Rechist.
Local Open Scope Z_scope.

(** * The threaded list *)

(** Element [i] starts a chain through the indices [idxs] that hold the ranges
    [rs], and the last element's [re_next] is [e]. *)
Fixpoint lseg (es : list rechist_elem) (i : Z) (idxs : list Z)
    (rs : list range) (e : Z) : Prop :=
  match idxs, rs with
  | [], [] => i = e
  | j :: js, (l, h) :: rs =>
      i = j /\ exists el, aget es j = Some el /\ re_low el = l
      /\ re_count el = h - l + 1 /\ lseg es (re_next el) js rs e
  | _, _ => False
  end.

Lemma lseg_length es i idxs rs e : lseg es i idxs rs e -> length idxs = length rs.
Proof.
  revert i rs. induction idxs as [|j js IH]; intros i [|[l h] rs]; cbn; try done.
  intros (_ & el & _ & _ & _ & H%IH). lia.
Qed.

Lemma lseg_app es i a b ra rb e :
  length a = length ra ->
  lseg es i (a ++ b) (ra ++ rb) e <->
  exists m, lseg es i a ra m /\ lseg es m b rb e.
Proof.
  revert i ra. induction a as [|j js IH]; intros i [|[l h] ra] Hlen; try done.
  - cbn. naive_solver.
  - cbn in *. setoid_rewrite IH; [|lia]. naive_solver.
Qed.

Lemma lseg_frame es i idxs rs e k x :
  0 <= k -> k ∉ idxs -> lseg es i idxs rs e ->
  lseg (<[Z.to_nat k := x]> es) i idxs rs e.
Proof.
  intros Hk. revert i rs. induction idxs as [|j js IH]; intros i [|[l h] rs] Hni; cbn; try done.
  apply not_elem_of_cons in Hni as [Hne Hni].
  intros (-> & el & He & Hl & Hc & Hs). split; [done|]. exists el.
  rewrite aget_insert_ne by done. auto.
Qed.

Lemma lseg_extend es es2 i idxs rs e :
  lseg es i idxs rs e -> lseg (es ++ es2) i idxs rs e.
Proof.
  revert i rs. induction idxs as [|j js IH]; intros i [|[l h] rs]; cbn; try done.
  intros (-> & el & He & Hl & Hc & Hs). split; [done|]. exists el.
  split; [by apply aget_app_l|]. auto.
Qed.

Lemma lseg_lt es i idxs rs e :
  lseg es i idxs rs e -> forall j, j ∈ idxs -> 0 <= j < Z.of_nat (length es).
Proof.
  revert i rs. induction idxs as [|j js IH]; intros i [|[l h] rs]; cbn; try done.
  { intros _ j []%not_elem_of_nil. }
  intros (-> & el & He & Hl & Hc & Hs) k [->|Hk]%elem_of_cons.
  - by eapply aget_lt.
  - by eapply IH.
Qed.

(** Redirecting the last element of a segment. *)
Lemma lseg_redirect es i a k ra r e e' :
  NoDup (a ++ [k]) -> lseg es i (a ++ [k]) (ra ++ [r]) e ->
  exists el, aget es k = Some el /\ re_next el = e /\
  lseg (<[Z.to_nat k := RE (re_low el) (re_count el) e']> es) i (a ++ [k]) (ra ++ [r]) e'.
Proof.
  intros Hnd Hs. assert (length a = length ra) as Hlen.
  { apply lseg_length in Hs. rewrite !length_app in Hs. cbn in Hs. lia. }
  apply lseg_app in Hs as (m & Hs1 & Hs2); [|done]. destruct r as [l h].
  cbn in Hs2. destruct Hs2 as (-> & el & He & Hl & Hc & <-).
  pose proof (aget_lt _ _ _ He).
  exists el. split_and!; [done..|]. apply lseg_app; [done|]. exists k. split.
  - apply lseg_frame; [lia| |done].
    apply NoDup_app in Hnd as (_ & Hd & _). intros Hin. apply (Hd k Hin). left.
  - cbn. split; [done|]. exists (RE (re_low el) (re_count el) e').
    rewrite aget_insert_eq by done. done.
Qed.

(** Positions of a chain: the successor of a member is the next member. *)
Lemma lseg_next es i idxs rs e n j :
  lseg es i idxs rs e -> idxs !! n = Some j ->
  exists el, aget es j = Some el /\
    re_next el = default e (idxs !! S n).
Proof.
  revert i rs n. induction idxs as [|k js IH]; intros i [|[l h] rs] n; cbn; try done.
  intros (-> & el & He & Hl & Hc & Hs) Hn. destruct n as [|n].
  - injection Hn as ->. exists el. split; [done|].
    destruct js as [|k2 js], rs as [|[l2 h2] rs]; cbn in *; naive_solver.
  - cbn in Hn. by apply (IH _ _ _ Hs).
Qed.

(** * Free slots *)

Definition mbit (ms : list Z) (i : Z) : bool :=
  match ms !! Z.to_nat (i / 64) with
  | Some m => Z.testbit m (i mod 64)
  | None => false
  end.

Record slots (rh : lsquic_rechist) (idxs : list Z) : Prop := {
  sl_len : Z.of_nat (length (rh_elems rh)) = rh_n_alloced rh;
  sl_alloc : rh_n_alloced rh <= 2 ^ 31;
  sl_mlen : Z.of_nat (length (rh_masks rh)) = rh_n_masks rh;
  sl_mcap : rh_n_alloced rh <= 64 * rh_n_masks rh < rh_n_alloced rh + 64;
  sl_mu : Forall (is_u 64) (rh_masks rh);
  sl_bits : forall i, 0 <= i < 64 * rh_n_masks rh ->
              mbit (rh_masks rh) i = bool_decide (i ∈ idxs);
  sl_nodup : NoDup idxs;
  sl_idx : forall i, i ∈ idxs -> 0 <= i < rh_n_alloced rh;
  sl_used : Z.of_nat (length idxs) = rh_n_used rh
}.

Lemma slots_perm rh idxs idxs' :
  idxs ≡ₚ idxs' -> slots rh idxs -> slots rh idxs'.
Proof.
  intros Hp []. split; try done.
  - intros i Hi. rewrite sl_bits0 by done. apply bool_decide_ext. by rewrite Hp.
  - by rewrite <- Hp.
  - intros i. rewrite <- Hp. apply sl_idx0.
  - by rewrite <- Hp.
Qed.

(** The element array may change freely. *)
Lemma slots_elems rh idxs es :
  length es = length (rh_elems rh) -> slots rh idxs -> slots (with_elems rh es) idxs.
Proof. intros Hl []. split; try done. cbn. by rewrite Hl. Qed.

Lemma mbit_insert ms k m' i :
  0 <= i -> 0 <= k < Z.of_nat (length ms) ->
  mbit (<[Z.to_nat k := m']> ms) i =
  if decide (i / 64 = k) then Z.testbit m' (i mod 64) else mbit ms i.
Proof.
  intros Hi Hk. unfold mbit. pose proof (Z.div_pos i 64). destruct (decide (i / 64 = k)) as [->|Hne].
  - rewrite list_lookup_insert_eq by lia. done.
  - rewrite list_lookup_insert_ne by lia. done.
Qed.

Lemma slots_used rh idxs : slots rh idxs -> 0 <= rh_n_used rh <= rh_n_alloced rh.
Proof.
  intros []. split; [lia|]. rewrite <- sl_used0. apply nodup_bounded; [done..|lia].
Qed.

Lemma ldiff_bit m b i :
  0 <= i -> 0 <= b ->
  Z.testbit (Z.ldiff m (Z.shiftl 1 b)) i = Z.testbit m i && negb (bool_decide (i = b)).
Proof.
  intros. rewrite Z.ldiff_spec, Z.shiftl_1_l. f_equal. f_equal.
  case_bool_decide as E; [subst; by apply Z.pow2_bits_true|].
  by apply Z.pow2_bits_false.
Qed.

Lemma is_u_ldiff w m x : is_u w m -> 0 <= w -> is_u w (Z.ldiff m x).
Proof.
  intros [Hm1 Hm2] Hw. split; [apply Z.ldiff_nonneg; by left|].
  destruct (Z.eq_dec (Z.ldiff m x) 0) as [->|Hne]; [lia|].
  apply Z.log2_lt_pow2; [pose proof (proj2 (Z.ldiff_nonneg m x) (or_introl Hm1)); lia|].
  destruct (Z.eq_dec m 0) as [->|Hm0]; [by rewrite Z.ldiff_0_l in Hne|].
  assert (Z.log2 m < w) by (apply Z.log2_lt_pow2; lia).
  destruct (Z.lt_ge_cases (Z.log2 (Z.ldiff m x)) w); [done|].
  pose proof (proj2 (Z.ldiff_nonneg m x) (or_introl Hm1)).
  assert (Z.testbit (Z.ldiff m x) (Z.log2 (Z.ldiff m x)) = true) as Hb
    by (apply Z.bit_log2; lia).
  rewrite Z.ldiff_spec, Z.bits_above_log2 in Hb by lia. done.
Qed.

Lemma div_mod_64 i k : i / 64 = k / 64 -> i mod 64 = k mod 64 -> i = k.
Proof. intros. pose proof (Z.div_mod i 64). pose proof (Z.div_mod k 64). lia. Qed.

Lemma free_elem_spec rh a k b :
  slots rh (a ++ k :: b) ->
  exists ms, rechist_free_elem rh k = Some (with_masks rh ms (rh_n_used rh - 1))
    /\ slots (with_masks rh ms (rh_n_used rh - 1)) (a ++ b).
Proof.
  intros Hs. apply (slots_perm _ _ (k :: a ++ b)) in Hs; [|by rewrite Permutation_middle].
  pose proof (slots_used _ _ Hs) as Hu. destruct Hs. unfold rechist_free_elem, LOG2_BITS.
  assert (0 <= k < rh_n_alloced rh) as Hk by (apply sl_idx0; left).
  rewrite Z.shiftr_div_pow2 by lia.
  change (Z.shiftl 1 6 - 1) with (Z.ones 6). rewrite Z.land_ones by lia. change (2 ^ 6) with 64.
  assert (0 <= k / 64 < Z.of_nat (length (rh_masks rh))) as Hq.
  { split; [apply Z.div_pos; lia|]. apply Z.div_lt_upper_bound; lia. }
  pose proof (Z.mod_pos_bound k 64 ltac:(lia)) as Hmod.
  destruct (aget_is_Some (rh_masks rh) (k / 64) Hq) as [m Hm].
  rewrite Hm. cbn [mbind option_bind]. rewrite aset_ok by done. cbn [mbind option_bind].
  cbn [length] in sl_used0.
  rewrite wrapu_id by (unfold is_u; lia).
  apply aget_Some in Hm as [_ Hm].
  eexists. split; [reflexivity|]. apply NoDup_cons in sl_nodup0 as [Hk1 Hk2].
  split; cbn; try done.
  - by rewrite length_insert.
  - apply Forall_insert; [done|]. apply is_u_ldiff; [|lia].
    by apply (Forall_lookup_1 _ _ _ _ sl_mu0 Hm).
  - intros i Hi. rewrite mbit_insert by lia. pose proof (Z.mod_pos_bound i 64 ltac:(lia)).
    specialize (sl_bits0 i Hi). destruct (decide (i / 64 = k / 64)) as [E|E].
    + rewrite ldiff_bit by lia. unfold mbit in sl_bits0. rewrite E, Hm in sl_bits0.
      rewrite sl_bits0, <- bool_decide_not, <- bool_decide_and. apply bool_decide_ext.
      rewrite elem_of_cons. split; [|intros Hin].
      * intros [[->|] ?]; [congruence|done].
      * split; [by right|]. intros E2. by rewrite (div_mod_64 _ _ E E2) in Hin.
    + rewrite sl_bits0. apply bool_decide_ext. rewrite elem_of_cons.
      split; [intros [->|]; congruence|auto].
  - intros i Hi. apply sl_idx0. by right.
  - lia.
Qed.

(** The frame of operations that touch only slots and elements. *)
Definition same_meta (rh rh' : lsquic_rechist) : Prop :=
  rh_cutoff rh' = rh_cutoff rh
  /\ rh_largest_acked_received rh' = rh_largest_acked_received rh
  /\ rh_max_ranges rh' = rh_max_ranges rh /\ rh_flags rh' = rh_flags rh
  /\ rh_iter_range rh' = rh_iter_range rh /\ rh_iter_next rh' = rh_iter_next rh.

Lemma scan_mask_spec ms i k m :
  scan_mask ms i = Some (k, m) ->
  i <= k < i + Z.of_nat (length ms) /\ ms !! Z.to_nat (k - i) = Some m
  /\ m <> UINT64_MAX
  /\ forall j, i <= j < k -> ms !! Z.to_nat (j - i) = Some UINT64_MAX.
Proof.
  revert i. induction ms as [|x ms IH]; intros i; cbn [scan_mask]; [done|].
  destruct (Z.eqb_spec x UINT64_MAX) as [->|Hne].
  - intros (H1 & H2 & H3 & H4)%IH. cbn [length]. split_and!; [lia..| |done|].
    + by replace (Z.to_nat (k - i)) with (S (Z.to_nat (k - (i + 1)))) by lia.
    + intros j Hj. destruct (decide (j = i)) as [->|]; [by rewrite Z.sub_diag|].
      replace (Z.to_nat (j - i)) with (S (Z.to_nat (j - (i + 1)))) by lia.
      cbn. apply H4. lia.
  - intros [= <- <-]. rewrite Z.sub_diag. cbn. split_and!; [lia..|done|done|lia].
Qed.

Lemma scan_mask_total ms i :
  Exists (fun m => m <> UINT64_MAX) ms -> exists k m, scan_mask ms i = Some (k, m).
Proof.
  intros H. revert i. induction H as [m ms Hm|m ms Hm IH]; intros i; cbn [scan_mask].
  - destruct (Z.eqb_spec m UINT64_MAX); [done|]. eauto.
  - destruct (Z.eqb_spec m UINT64_MAX); eauto.
Qed.

Lemma u64max_bits j : 0 <= j < 64 -> Z.testbit UINT64_MAX j = true.
Proof. intros. change UINT64_MAX with (Z.ones 64). by apply Z.ones_spec_low. Qed.

Lemma not_max_zero_bit m :
  is_u 64 m -> m <> UINT64_MAX -> exists j, 0 <= j < 64 /\ Z.testbit m j = false.
Proof.
  intros [Hm1 Hm2] Hne.
  destruct (decide (Forall (fun j => Z.testbit m (Z.of_nat j) = true) (seq 0 64))) as [Ha|Hn].
  - exfalso. apply Hne. apply Z.bits_inj'. intros n Hn. change UINT64_MAX with (Z.ones 64).
    destruct (Z.lt_ge_cases n 64).
    + rewrite Z.ones_spec_low by lia. rewrite Forall_forall in Ha.
      rewrite <- (Z2Nat.id n) by lia. apply Ha, elem_of_seq. lia.
    + rewrite Z.ones_spec_high by lia. rewrite <- (Z.mod_small m (2 ^ 64)) by done.
      by apply Z.mod_pow2_bits_high.
  - apply not_Forall_Exists, Exists_exists in Hn as (j & Hj%elem_of_seq & Hb); [|apply _].
    exists (Z.of_nat j). split; [lia|]. by apply not_true_is_false.
Qed.

Lemma find_free_slot_spec m j :
  is_u 64 m -> 0 <= j < 64 -> Z.testbit m j = false ->
  exists k, find_free_slot m = Some k /\ 0 <= k <= j /\ Z.testbit m k = false.
Proof.
  intros Hm Hj Hb. unfold find_free_slot. destruct (Z.eqb_spec m 0) as [->|].
  - exists 0. split_and!; [done|lia..|]. by rewrite Z.bits_0.
  - destruct (ctz_lnot 64 m j) as (k & Hk & H1 & H2 & H3 & _); [lia|done|].
    exists k. split_and!; try done; lia.
Qed.

Lemma div_mod_add64 b k : 0 <= b < 64 -> (b + k * 64) / 64 = k /\ (b + k * 64) mod 64 = b.
Proof.
  intros. rewrite Z.div_add, Z.mod_add by lia. by rewrite Z.div_small, Z.mod_small by lia.
Qed.

Lemma lor_bit m b i :
  0 <= i -> 0 <= b ->
  Z.testbit (Z.lor m (2 ^ b)) i = Z.testbit m i || bool_decide (i = b).
Proof.
  intros. rewrite Z.lor_spec. f_equal.
  case_bool_decide as E; [subst; by apply Z.pow2_bits_true|].
  by apply Z.pow2_bits_false.
Qed.

(** The scan finds the lowest free slot: the word and the bit in it. *)
Lemma take_slot_scan rh idxs :
  slots rh idxs -> rh_n_used rh < rh_n_alloced rh ->
  exists k m b, scan_mask (rh_masks rh) 0 = Some (k, m)
    /\ find_free_slot m = Some b /\ 0 <= b < 64 /\ 0 <= k < rh_n_masks rh
    /\ rh_masks rh !! Z.to_nat k = Some m
    /\ ((b + k * 64) ∉ idxs) /\ b + k * 64 < rh_n_alloced rh.
Proof.
  intros Hs Hlt. destruct Hs.
  destruct (nodup_missing idxs (Z.to_nat (rh_n_alloced rh))) as (i0 & Hi0 & Hni0); [lia|].
  pose proof (Z.mod_pos_bound i0 64 ltac:(lia)) as Hmod.
  pose proof (Z.div_mod i0 64 ltac:(lia)) as Hdm.
  assert (0 <= i0 / 64 < rh_n_masks rh) as Hq.
  { split; [apply Z.div_pos; lia|]. apply Z.div_lt_upper_bound; lia. }
  destruct (lookup_lt_is_Some_2 (rh_masks rh) (Z.to_nat (i0 / 64))) as [m0 Hm0]; [lia|].
  assert (Z.testbit m0 (i0 mod 64) = false) as Hb0.
  { pose proof (sl_bits0 i0 ltac:(lia)) as Hb. unfold mbit in Hb. rewrite Hm0 in Hb.
    rewrite Hb. by apply bool_decide_eq_false_2. }
  assert (m0 <> UINT64_MAX) as Hmax0.
  { intros ->. by rewrite u64max_bits in Hb0 by lia. }
  destruct (scan_mask_total (rh_masks rh) 0) as (k & m & Hscan).
  { apply Exists_exists. exists m0. split; [by eapply list_elem_of_lookup_2|done]. }
  pose proof (scan_mask_spec _ _ _ _ Hscan) as (Hk & Hm & Hne & Hbefore).
  rewrite Z.sub_0_r in Hm.
  assert (k <= i0 / 64) as Hki.
  { destruct (Z.le_gt_cases k (i0 / 64)); [done|].
    specialize (Hbefore (i0 / 64) ltac:(lia)). rewrite Z.sub_0_r in Hbefore. congruence. }
  pose proof (Forall_lookup_1 _ _ _ _ sl_mu0 Hm) as Hmu.
  assert (exists j, 0 <= j < 64 /\ Z.testbit m j = false /\ (k = i0 / 64 -> j = i0 mod 64))
    as (j & Hj & Hjb & Hj2).
  { destruct (decide (k = i0 / 64)) as [->|].
    - exists (i0 mod 64). split_and!; try done; try lia. congruence.
    - destruct (not_max_zero_bit m Hmu Hne) as (j & ? & ?). exists j. naive_solver. }
  destruct (find_free_slot_spec m j Hmu Hj Hjb) as (b & Hb & Hb1 & Hb2).
  exists k, m, b. split_and!; try done; try lia.
  intros Hin. pose proof (sl_bits0 (b + k * 64)) as Hbit.
  unfold mbit in Hbit. destruct (div_mod_add64 b k) as [Ed Em]; [lia|]. rewrite Ed, Em in Hbit.
  rewrite Hm, Hb2 in Hbit. rewrite bool_decide_eq_true_2 in Hbit by done.
  specialize (Hbit ltac:(lia)). done.
Qed.

Lemma take_slot_spec rh idxs :
  slots rh idxs -> rh_n_used rh < rh_n_alloced rh ->
  exists idx ms, rechist_take_slot rh = Some (idx, with_masks rh ms (rh_n_used rh + 1))
    /\ (idx ∉ idxs) /\ 0 <= idx < rh_n_alloced rh
    /\ slots (with_masks rh ms (rh_n_used rh + 1)) (idx :: idxs).
Proof.
  intros Hs Hlt.
  destruct (take_slot_scan rh idxs Hs Hlt) as (k & m & b & Hscan & Hb & Hb64 & Hk & Hm & Hni & Hal).
  pose proof (slots_used _ _ Hs). destruct Hs.
  unfold rechist_take_slot. rewrite Hscan. cbn [mbind option_bind]. ztest. cbn [negb].
  rewrite Hb. cbn [mbind option_bind].
  rewrite Z.shiftl_1_l, (wrapu_id 64 (2 ^ b)).
  2: { split; [lia|]. apply Z.pow_lt_mono_r; lia. }
  rewrite aset_ok by lia. cbn [mbind option_bind]. unfold BITS_PER_MASK.
  rewrite wraps_small by lia. rewrite wrapu_id by (unfold is_u; lia).
  exists (b + k * 64). eexists. split_and!; [reflexivity|done|lia|lia|].
  split; cbn; try done.
  - by rewrite length_insert.
  - apply Forall_insert; [done|]. apply is_u_lor; [lia| |].
    + by apply (Forall_lookup_1 _ _ _ _ sl_mu0 Hm).
    + split; [lia|]. apply Z.pow_lt_mono_r; lia.
  - intros i Hi. rewrite mbit_insert by lia. pose proof (Z.mod_pos_bound i 64 ltac:(lia)).
    specialize (sl_bits0 i Hi). destruct (div_mod_add64 b k Hb64) as [Ed Em].
    destruct (decide (i / 64 = k)) as [E|E].
    + rewrite lor_bit by lia. unfold mbit in sl_bits0. rewrite E, Hm in sl_bits0.
      rewrite sl_bits0, <- bool_decide_or. apply bool_decide_ext.
      rewrite elem_of_cons. split; [intros [Hin|E2]|intros [E2|Hin]].
      * by right.
      * left. apply div_mod_64; congruence.
      * right. subst i. done.
      * by left.
    + rewrite sl_bits0. apply bool_decide_ext. rewrite elem_of_cons.
      split; [auto|intros [->|]; [congruence|done]].
  - by constructor.
  - intros i [->|Hi]%elem_of_cons; [lia|by apply sl_idx0].
  - lia.
Qed.

(** Growth keeps the contents and makes room. *)
Lemma neg_mask n : 0 <= n -> Z.land (u32 (- n)) (BITS_PER_MASK - 1) = (- n) mod 64.
Proof.
  intros. change (BITS_PER_MASK - 1) with (Z.ones 6). rewrite Z.land_ones by lia.
  unfold wrapu. change (2 ^ 32) with (2 ^ 6 * 2 ^ 26). change (2 ^ 6) with 64.
  rewrite Z.rem_mul_r by lia. rewrite Z.mul_comm, Z.mod_add by lia. apply Z.mod_mod. lia.
Qed.

Lemma ceil64 n : 0 <= n -> exists q, (n + (- n) mod 64) / 64 = q /\ n <= 64 * q < n + 64.
Proof.
  intros. eexists. split; [reflexivity|].
  pose proof (Z.mod_pos_bound (- n) 64 ltac:(lia)).
  pose proof (Z.div_mod (- n) 64 ltac:(lia)).
  assert (n + (- n) mod 64 = (- ((- n) / 64)) * 64) as -> by lia.
  rewrite Z.div_mul by lia. lia.
Qed.

Lemma grow_spec junk rh idxs :
  slots rh idxs -> rh_n_used rh = rh_n_alloced rh -> rh_n_alloced rh <= 2 ^ 30 ->
  (rh_max_ranges rh = 0 \/ 2 <= rh_max_ranges rh <= 2 ^ 31 /\ rh_n_used rh < rh_max_ranges rh) ->
  exists rh' tail, rechist_grow junk true rh = Some rh' /\ slots rh' idxs
    /\ rh_n_used rh' = rh_n_used rh /\ rh_n_used rh' < rh_n_alloced rh'
    /\ (rh_max_ranges rh = 0 \/ rh_n_alloced rh' <= rh_max_ranges rh)
    /\ rh_elems rh' = rh_elems rh ++ tail /\ rh_head rh' = rh_head rh /\ same_meta rh rh'.
Proof.
  intros Hs Heq Hsm Hmax. pose proof (slots_used _ _ Hs) as Hu. destruct Hs.
  unfold rechist_grow.
  set (n0 := if rh_n_alloced rh =? 0 then 4 else u32 (rh_n_alloced rh * 2)).
  assert (rh_n_alloced rh < n0 <= 2 ^ 31) as Hn0.
  { unfold n0. destruct (Z.eqb_spec (rh_n_alloced rh) 0); [lia|].
    rewrite wrapu_id by (unfold is_u; lia). lia. }
  set (n1 := if negb (rh_max_ranges rh =? 0) && (rh_max_ranges rh <? n0)
             then rh_max_ranges rh else n0).
  assert (rh_n_alloced rh < n1 <= 2 ^ 31 /\ (rh_max_ranges rh = 0 \/ n1 <= rh_max_ranges rh)) as [Hn1 Hn1m].
  { unfold n1. destruct (Z.eqb_spec (rh_max_ranges rh) 0), (Z.ltb_spec (rh_max_ranges rh) n0); cbn; lia. }
  rewrite neg_mask by lia. destruct (ceil64 n1) as (q & Hq & Hq2); [lia|].
  unfold BITS_PER_MASK. rewrite Hq.
  assert (rh_n_masks rh <= q) as Hqm by lia.
  rewrite take_app_ge by lia.
  rewrite (take_app_ge (rh_masks rh)) by lia.
  rewrite !take_replicate.
  do 2 eexists. split; [reflexivity|].
  split_and!; cbn; try done; try lia.
  split; cbn; try done; try lia.
  - rewrite length_app, length_replicate. lia.
  - rewrite length_app, length_replicate. lia.
  - apply Forall_app. split; [done|]. apply Forall_replicate. unfold is_u; lia.
  - intros i Hi. unfold mbit. pose proof (Z.div_pos i 64 ltac:(lia)).
    destruct (decide (i / 64 < rh_n_masks rh)) as [Hlt|Hge].
    + rewrite lookup_app_l by lia. apply sl_bits0.
      pose proof (Z.div_mod i 64). pose proof (Z.mod_pos_bound i 64). lia.
    + rewrite lookup_app_r by lia.
      rewrite bool_decide_eq_false_2.
      * destruct (replicate _ 0 !! _) as [z|] eqn:E; [|done].
        apply lookup_replicate in E as [-> _]. apply Z.bits_0.
      * intros Hin%sl_idx0. apply Hge. apply Z.div_lt_upper_bound; lia.
  - intros i Hi%sl_idx0. lia.
Qed.

Lemma slots_full rh idxs i :
  slots rh idxs -> rh_n_used rh = rh_n_alloced rh -> 0 <= i < rh_n_alloced rh -> i ∈ idxs.
Proof.
  intros Hs Hfull Hi. destruct (decide (i ∈ idxs)) as [|Hni]; [done|exfalso].
  destruct Hs.
  assert (Z.of_nat (length (i :: idxs)) <= rh_n_alloced rh) as Hl.
  { apply nodup_bounded; [by constructor| |lia].
    intros j [->|Hj]%elem_of_cons; [lia|by apply sl_idx0]. }
  cbn [length] in Hl. lia.
Qed.

Lemma scan_next_spec es val i k :
  scan_next es val i = Some k ->
  i <= k < i + Z.of_nat (length es)
  /\ exists el, es !! Z.to_nat (k - i) = Some el /\ re_next el = val.
Proof.
  revert i. induction es as [|e es IH]; intros i; cbn [scan_next]; [done|].
  destruct (Z.eqb_spec (re_next e) val) as [<-|].
  - intros [= <-]. cbn [length]. rewrite Z.sub_diag. split; [lia|]. by exists e.
  - intros (H1 & el & H2 & H3)%IH. cbn [length]. split; [lia|]. exists el. split; [|done].
    by replace (Z.to_nat (k - i)) with (S (Z.to_nat (k - (i + 1)))) by lia.
Qed.

Lemma scan_next_total es val i j el :
  es !! j = Some el -> re_next el = val -> exists k, scan_next es val i = Some k.
Proof.
  revert i j. induction es as [|e es IH]; intros i j Hj Hv; cbn [scan_next]; [done|].
  destruct (Z.eqb_spec (re_next e) val); [by eexists|].
  destruct j as [|j]; [cbn in Hj; congruence|]. by apply (IH (i + 1) j).
Qed.

(** In a full array the scan for a successor finds the chain's predecessor. *)
Lemma scan_next_full rh idxs rs n j :
  slots rh idxs -> rh_n_used rh = rh_n_alloced rh ->
  lseg (rh_elems rh) (rh_head rh) idxs rs UINT_MAX ->
  idxs !! n = Some j ->
  scan_next (rh_elems rh) (default UINT_MAX (idxs !! S n)) 0 = Some j.
Proof.
  intros Hs Hfull Hseg Hn.
  destruct (lseg_next _ _ _ _ _ _ _ Hseg Hn) as (el & Hel & Hnx).
  pose proof (aget_lt _ _ _ Hel) as Hj. apply aget_Some in Hel as [_ Hel].
  destruct (scan_next_total _ _ 0 _ _ Hel Hnx) as [k Hk].
  rewrite Hk. f_equal. apply scan_next_spec in Hk as (Hk & el' & Hel' & Hnx').
  rewrite Z.sub_0_r in Hel'.
  assert (k ∈ idxs) as [n' Hn']%list_elem_of_lookup_1.
  { apply (slots_full rh); [done..|]. destruct Hs. lia. }
  destruct (lseg_next _ _ _ _ _ _ _ Hseg Hn') as (el2 & Hel2 & Hnx2).
  apply aget_Some in Hel2 as [_ Hel2]. rewrite Hel' in Hel2. injection Hel2 as <-.
  rewrite Hnx' in Hnx2. clear Hel Hel' Hnx Hnx' el el'.
  enough (n' = n) by congruence.
  assert (forall m v, idxs !! m = Some v -> 0 <= v < UINT_MAX) as Hv.
  { intros m v Hm%list_elem_of_lookup_2. destruct Hs. apply sl_idx0 in Hm.
    unfold UINT_MAX. lia. }
  destruct (idxs !! S n) as [v|] eqn:E, (idxs !! S n') as [v'|] eqn:E'; cbn in Hnx2.
  - subst v'. destruct Hs. pose proof (NoDup_lookup _ _ _ _ sl_nodup0 E E'). lia.
  - apply Hv in E. lia.
  - apply Hv in E'. lia.
  - apply lookup_ge_None in E, E'. apply lookup_lt_Some in Hn, Hn'. lia.
Qed.

Lemma reuse_last_spec rh a pen k ra rp rk :
  slots rh (a ++ [pen; k]) -> rh_n_used rh = rh_n_alloced rh ->
  lseg (rh_elems rh) (rh_head rh) (a ++ [pen; k]) (ra ++ [rp; rk]) UINT_MAX ->
  exists es, rechist_reuse_last_elem rh = Some (k, with_elems rh es)
    /\ length es = length (rh_elems rh)
    /\ lseg es (rh_head rh) (a ++ [pen]) (ra ++ [rp]) UINT_MAX.
Proof.
  intros Hs Hfull Hseg. unfold rechist_reuse_last_elem.
  assert (length a = length ra) as Hlen.
  { apply lseg_length in Hseg. rewrite !length_app in Hseg. cbn in Hseg. lia. }
  assert ((a ++ [pen; k]) !! S (length a) = Some k) as Hk.
  { rewrite lookup_app_r by lia. by replace (S (length a) - length a)%nat with 1%nat by lia. }
  assert ((a ++ [pen; k]) !! length a = Some pen) as Hpen.
  { rewrite lookup_app_r by lia. by rewrite Nat.sub_diag. }
  pose proof (scan_next_full rh _ _ _ _ Hs Hfull Hseg Hk) as Hscan1.
  rewrite (lookup_ge_None_2 (a ++ [pen; k])) in Hscan1 by (rewrite length_app; cbn; lia).
  cbn in Hscan1. rewrite Hscan1. cbn [mbind option_bind].
  pose proof (scan_next_full rh _ _ _ _ Hs Hfull Hseg Hpen) as Hscan2.
  rewrite Hk in Hscan2. cbn in Hscan2. rewrite Hscan2. cbn [mbind option_bind].
  change [pen; k] with ([pen] ++ [k]) in *. change [rp; rk] with ([rp] ++ [rk]) in *.
  rewrite !app_assoc in Hseg.
  apply lseg_app in Hseg as (m & Hseg & Hseg2); [|rewrite !length_app; cbn; lia].
  assert (NoDup (a ++ [pen])) as Hnd.
  { destruct Hs. rewrite app_assoc in sl_nodup0. by apply NoDup_app in sl_nodup0 as (? & _ & _). }
  destruct (lseg_redirect _ _ _ _ _ _ _ UINT_MAX Hnd Hseg) as (el & Hel & Hnx & Hnew).
  rewrite Hel. cbn [mbind option_bind]. rewrite aset_ok by (by eapply aget_lt).
  cbn [mbind option_bind]. eexists. split_and!; [reflexivity| |done].
  apply length_insert.
Qed.

(** * The invariant *)

Record wf (rh : lsquic_rechist) (idxs : list Z) (rs : list range) : Prop := {
  wf_slots : slots rh idxs;
  wf_seg : idxs = [] /\ rs = []
           \/ lseg (rh_elems rh) (rh_head rh) idxs rs UINT_MAX;
  wf_rs : ranges_ok PN_BOUND rs;
  wf_total : total rs < 2 ^ 32;
  wf_max : rh_max_ranges rh = 0
           \/ 2 <= rh_max_ranges rh <= 2 ^ 31 /\ rh_n_alloced rh <= rh_max_ranges rh
}.

(** [view rh rs]: [rh] is well formed and its list, from the head on, holds
    exactly the ranges [rs]. *)
Definition view (rh : lsquic_rechist) (rs : list range) : Prop :=
  exists idxs, wf rh idxs rs.

Definition max_ok (rh : lsquic_rechist) : Prop :=
  rh_max_ranges rh = 0
  \/ 2 <= rh_max_ranges rh <= 2 ^ 31 /\ rh_n_alloced rh <= rh_max_ranges rh.

Lemma same_meta_refl rh : same_meta rh rh.
Proof. by repeat split. Qed.

(** Allocation below the limit: a fresh index in a possibly longer array. *)
Lemma alloc_fresh junk ok rh idxs :
  slots rh idxs -> max_ok rh -> at_max_ranges rh = false -> rh_n_alloced rh <= 2 ^ 30 ->
  (exists idx rh' tail, rechist_alloc_elem junk ok rh = Some (idx, rh')
     /\ (idx ∉ idxs) /\ 0 <= idx < Z.of_nat (length (rh_elems rh'))
     /\ slots rh' (idx :: idxs) /\ rh_elems rh' = rh_elems rh ++ tail
     /\ rh_head rh' = rh_head rh /\ same_meta rh rh' /\ max_ok rh')
  \/ ok = false /\ rechist_alloc_elem junk ok rh = Some (-1, rh).
Proof.
  intros Hs Hmax Hat Hsm. pose proof (slots_used _ _ Hs) as Hu.
  unfold rechist_alloc_elem. fold (at_max_ranges rh). rewrite Hat.
  destruct (Z.eqb_spec (rh_n_used rh) (rh_n_alloced rh)) as [Heq|Hne].
  - destruct ok; [|right; split; reflexivity]. left.
    destruct (grow_spec junk rh idxs Hs Heq Hsm)
      as (rh1 & tail & Hg & Hs1 & Hu1 & Hlt & Hm1 & He & Hh & Hmeta).
    { unfold at_max_ranges in Hat. destruct Hmax as [|[??]]; [by left|right].
      destruct (Z.eqb_spec (rh_max_ranges rh) 0); [lia|].
      destruct (Z.leb_spec (rh_max_ranges rh) (rh_n_used rh)); [done|lia]. }
    rewrite Hg. destruct (take_slot_spec rh1 idxs Hs1 Hlt) as (idx & ms & Ht & Hni & Hi & Hs2).
    destruct Hs1. exists idx, (with_masks rh1 ms (rh_n_used rh1 + 1)), tail.
    split_and!; try done; cbn; try lia.
    destruct Hmeta as (_ & _ & E & _). unfold max_ok in *. cbn. rewrite E. lia.
  - left. destruct (take_slot_spec rh idxs Hs) as (idx & ms & Ht & Hni & Hi & Hs2); [lia|].
    destruct Hs. exists idx, (with_masks rh ms (rh_n_used rh + 1)), [].
    rewrite app_nil_r. split_and!; try done; cbn; lia.
Qed.

(** Linking a segment behind the last element of another. *)
Lemma lseg_link es h pre prev rpre rprev m idx suf rsuf e :
  NoDup (pre ++ [prev]) -> prev ∉ suf -> length pre = length rpre ->
  lseg es h (pre ++ [prev]) (rpre ++ [rprev]) m -> lseg es idx suf rsuf e ->
  exists es', set_next es prev idx = Some es' /\ length es' = length es
    /\ lseg es' h ((pre ++ [prev]) ++ suf) ((rpre ++ [rprev]) ++ rsuf) e.
Proof.
  intros Hnd Hni Hlen H1 H2.
  destruct (lseg_redirect _ _ _ _ _ _ _ idx Hnd H1) as (el & Hel & _ & Hnew).
  pose proof (aget_lt _ _ _ Hel). unfold set_next. rewrite Hel. cbn [mbind option_bind].
  rewrite aset_ok by done. eexists. split_and!; [reflexivity|apply length_insert|].
  apply lseg_app; [rewrite !length_app; cbn; lia|]. exists idx. split; [done|].
  apply lseg_frame; [lia|done..].
Qed.

Lemma lseg_head es h pre rpre e : lseg es h pre rpre e -> pre <> [] -> h ∈ pre.
Proof. destruct pre, rpre as [|[??]?]; cbn; try done. intros (-> & _). left. Qed.

Lemma lseg_new es idx p suf rsuf m e :
  idx ∉ suf -> 0 <= idx < Z.of_nat (length es) -> lseg es m suf rsuf e ->
  lseg (<[Z.to_nat idx := RE p 1 m]> es) idx (idx :: suf) ((p, p) :: rsuf) e.
Proof.
  intros Hni Hi Hs. cbn. split; [done|]. exists (RE p 1 m).
  rewrite aget_insert_eq by done. cbn. split_and!; try done; [lia|].
  apply lseg_frame; [lia|done..].
Qed.
