(* ===== verification/RechistThms.v ===== *)
(** The receive history implements the range list: [lsquic_rechist_received]
    refines [rins_max], [lsquic_rechist_stop_wait] refines [rcut], and the
    iterator yields the abstract list. *)
From S2P Require Import Prelude Ranges Rechist RechistSpec.
Local Open Scope Z_scope.

(** * Recording a packet *)

Definition received_post (alloc_ok : bool) (p : Z) (rs : list range)
    (rh : lsquic_rechist) (st : received_st) (rh' : lsquic_rechist) : Prop :=
  match rins_max (rh_max_ranges rh) p rs with
  | None => st = REC_ST_DUP /\ rh' = rh
  | Some rs' =>
      st = REC_ST_OK /\ view rh' rs' /\ same_meta rh rh'
      \/ alloc_ok = false /\ st = REC_ST_ERR /\ rh' = rh
  end.

Section received.
Variables (junk : rechist_elem) (ok : bool) (p : Z).
Hypothesis Hp : 0 <= p < 2 ^ 62.

Lemma post_intro rh idxs rs rs' rh' idxs' :
  wf rh idxs rs -> total rs < 2 ^ 32 - 1 ->
  rins_max (rh_max_ranges rh) p rs = Some rs' ->
  slots rh' idxs' -> lseg (rh_elems rh') (rh_head rh') idxs' rs' UINT_MAX ->
  same_meta rh rh' -> max_ok rh' -> received_post ok p rs rh REC_ST_OK rh'.
Proof.
  intros Hwf Ht Hins Hs Hseg Hmeta Hmax. unfold received_post. rewrite Hins.
  left. split_and!; try done. exists idxs'. pose proof (wf_rs _ _ _ Hwf) as Hrs.
  pose proof (rins_max_ok PN_BOUND _ _ _ _ Hrs (proj1 Hp) ltac:(unfold PN_BOUND; lia) Hins).
  pose proof (rins_max_total PN_BOUND _ _ _ _ Hrs (proj1 Hp) ltac:(unfold PN_BOUND; lia) Hins).
  split; try done; [by right|lia].
Qed.

(** The loop stands at element [eli], which holds [(l, h)]. *)
Record cursor rh pre rpre eli rest l h rrest el : Prop := {
  cu_wf : wf rh (pre ++ eli :: rest) (rpre ++ (l, h) :: rrest);
  cu_len : length pre = length rpre;
  cu_above : all_above p rpre;
  cu_el : aget (rh_elems rh) eli = Some el;
  cu_low : re_low el = l;
  cu_count : re_count el = h - l + 1;
  cu_high : RE_HIGH el = h;
  cu_lh : 0 <= l <= h /\ h < 2 ^ 62;
  cu_pre : lseg (rh_elems rh) (rh_head rh) pre rpre eli;
  cu_rest : lseg (rh_elems rh) (re_next el) rest rrest UINT_MAX;
  cu_total : total (rpre ++ (l, h) :: rrest) < 2 ^ 32 - 1;
  cu_alloc : rh_n_alloced rh <= 2 ^ 30
}.

Lemma cursor_intro rh pre rpre eli rest l h rrest :
  wf rh (pre ++ eli :: rest) (rpre ++ (l, h) :: rrest) ->
  length pre = length rpre -> all_above p rpre ->
  total (rpre ++ (l, h) :: rrest) < 2 ^ 32 - 1 -> rh_n_alloced rh <= 2 ^ 30 ->
  exists el, cursor rh pre rpre eli rest l h rrest el.
Proof.
  intros Hwf Hlen Hab Ht Hal. pose proof (wf_seg _ _ _ Hwf) as [[Hn _]|Hseg].
  { by destruct pre. }
  apply lseg_app in Hseg as (m & Hs1 & Hs2); [|done]. cbn in Hs2.
  destruct Hs2 as (-> & el & Hel & Hl & Hc & Hs2). exists el.
  pose proof (wf_rs _ _ _ Hwf) as Hrs. apply ranges_ok_app in Hrs as [Hrs1 Hrs]. cbn in Hrs.
  pose proof (lowb_le _ _ Hrs1). unfold PN_BOUND in *.
  split; try done; try lia.
  unfold RE_HIGH. rewrite Hl, Hc. rewrite wrapu_id; [lia|]. unfold is_u. lia.
Qed.

(** What the loop's branches need of the shape of the cursor. *)
Lemma cursor_slots rh pre rpre eli rest l h rrest el :
  cursor rh pre rpre eli rest l h rrest el ->
  slots rh (pre ++ eli :: rest) /\ NoDup pre /\ (eli ∉ pre) /\ (eli ∉ rest)
  /\ (forall x, x ∈ pre -> x ∉ eli :: rest) /\ max_ok rh /\ 0 <= eli < Z.of_nat (length (rh_elems rh)).
Proof.
  intros []. pose proof (wf_slots _ _ _ cu_wf0) as Hs. pose proof (sl_nodup _ _ Hs) as Hnd.
  apply NoDup_app in Hnd as (Hn1 & Hd & Hn2). apply NoDup_cons in Hn2 as [Hn2 _].
  pose proof (aget_lt _ _ _ cu_el0). split_and!; try done; try lia.
  - intros Hin. apply (Hd _ Hin). left.
  - exact (wf_max _ _ _ cu_wf0).
Qed.

Lemma cursor_rins rh pre rpre eli rest l h rrest el :
  cursor rh pre rpre eli rest l h rrest el ->
  rins p (rpre ++ (l, h) :: rrest) = app rpre <$> rins p ((l, h) :: rrest).
Proof. intros []. by apply rins_skip. Qed.

(** Changing the element under the cursor keeps the list around it. *)
Lemma cursor_update rh pre rpre eli rest l h rrest el l' h' rest' rrest' nx :
  cursor rh pre rpre eli rest l h rrest el -> (eli ∉ rest') ->
  lseg (rh_elems rh) nx rest' rrest' UINT_MAX ->
  lseg (<[Z.to_nat eli := RE l' (h' - l' + 1) nx]> (rh_elems rh)) (rh_head rh)
    (pre ++ eli :: rest') (rpre ++ (l', h') :: rrest') UINT_MAX.
Proof.
  intros Hc Hni Hs. destruct (cursor_slots _ _ _ _ _ _ _ _ _ Hc) as (_ & _ & Hn1 & _ & _ & _ & Hi).
  destruct Hc. apply lseg_app; [done|]. exists eli. split; [apply lseg_frame; [lia|done..]|].
  cbn. split; [done|]. eexists. rewrite aget_insert_eq by done.
  split_and!; try done. apply lseg_frame; [lia|done..].
Qed.

Lemma cursor_nlen rh pre rpre eli rest l h rrest el :
  cursor rh pre rpre eli rest l h rrest el ->
  Z.of_nat (length (rpre ++ (l, h) :: rrest)) = rh_n_used rh
  /\ (rh_max_ranges rh = 0 \/ rh_n_used rh <= rh_max_ranges rh).
Proof.
  intros Hc. destruct (cursor_slots _ _ _ _ _ _ _ _ _ Hc) as (Hs & _ & _ & _ & _ & Hm & _).
  destruct Hc. pose proof (lseg_length _ _ _ _ _ cu_rest0). pose proof (slots_used _ _ Hs).
  pose proof (sl_used _ _ Hs) as Hu. rewrite !length_app in *. cbn [length] in *.
  unfold max_ok in Hm. lia.
Qed.

Definition ends_post rh rs (r : option (received_st * lsquic_rechist)) : Prop :=
  exists st rh', r = Some (st, rh') /\ received_post ok p rs rh st rh'.

(** Rewriting one element in place, where the number of ranges stays. *)
Lemma update_ok rh pre rpre eli rest l h rrest el l' h' :
  cursor rh pre rpre eli rest l h rrest el ->
  rins p ((l, h) :: rrest) = Some ((l', h') :: rrest) ->
  received_post ok p (rpre ++ (l, h) :: rrest) rh REC_ST_OK
    (with_elems rh (<[Z.to_nat eli := RE l' (h' - l' + 1) (re_next el)]> (rh_elems rh))).
Proof.
  intros Hc Hins. pose proof (cursor_slots _ _ _ _ _ _ _ _ _ Hc) as (Hs & _ & _ & Hn & _ & Hm & _).
  pose proof (cursor_rins _ _ _ _ _ _ _ _ _ Hc) as Hr. rewrite Hins in Hr. cbn in Hr.
  pose proof (cursor_nlen _ _ _ _ _ _ _ _ _ Hc) as [Hl1 Hl2].
  pose proof Hc as []. eapply post_intro; [done|done| | | |done|done].
  - apply rins_max_fits; [exact Hr|]. rewrite length_app in *. cbn [length] in *. lia.
  - apply slots_elems; [apply length_insert|exact Hs].
  - cbn. by eapply cursor_update with (1 := Hc).
Qed.

Lemma extend_high_ok rh pre rpre eli rest l h rrest el :
  cursor rh pre rpre eli rest l h rrest el -> p = h + 1 ->
  ends_post rh (rpre ++ (l, h) :: rrest)
    (es ← aset (rh_elems rh) eli (RE (re_low el) (u32 (re_count el + 1)) (re_next el));
     Some (REC_ST_OK, with_elems rh es)).
Proof.
  intros Hc E. pose proof (cursor_slots _ _ _ _ _ _ _ _ _ Hc) as (_ & _ & _ & _ & _ & _ & Hi).
  pose proof Hc as []. rewrite aset_ok by done. cbn [mbind option_bind].
  eexists _, _. split; [reflexivity|].
  rewrite total_app in cu_total0. cbn in cu_total0.
  pose proof (wf_rs _ _ _ cu_wf0) as Hok. apply ranges_ok_app in Hok as [Hok1 Hok2].
  pose proof (total_nonneg _ _ Hok1). cbn in Hok2. destruct Hok2 as (_ & _ & Hok2).
  pose proof (total_nonneg _ _ Hok2).
  rewrite wrapu_id by (unfold is_u; lia). rewrite cu_low0, cu_count0.
  replace (h - l + 1 + 1) with (p - l + 1) by lia.
  apply update_ok with (1 := Hc). cbn. by ztest.
Qed.

Lemma dup_ok rh pre rpre eli rest l h rrest el :
  cursor rh pre rpre eli rest l h rrest el -> l <= p <= h ->
  ends_post rh (rpre ++ (l, h) :: rrest) (Some (REC_ST_DUP, rh)).
Proof.
  intros Hc Hin. eexists _, _. split; [reflexivity|]. unfold received_post.
  rewrite rins_max_id; [done|]. rewrite (cursor_rins _ _ _ _ _ _ _ _ _ Hc).
  cbn [rins]. by ztest.
Qed.

(** The element after the cursor is freed and its range joined. *)
Lemma merge_ok rh pre rpre eli k rest l h l2 h2 rrest el :
  cursor rh pre rpre eli (k :: rest) l h ((l2, h2) :: rrest) el ->
  p = l - 1 -> p = h2 + 1 ->
  exists nx ms, aget (rh_elems rh) k = Some nx /\ k = re_next el /\ RE_HIGH nx = h2
   /\ re_low nx = l2 /\ re_count nx = h2 - l2 + 1 /\ h - l2 + 1 < 2 ^ 32
   /\ rechist_free_elem rh k = Some (with_masks rh ms (rh_n_used rh - 1))
   /\ received_post ok p (rpre ++ (l, h) :: (l2, h2) :: rrest) rh REC_ST_OK
        (with_elems (with_masks rh ms (rh_n_used rh - 1))
           (<[Z.to_nat eli := RE l2 (h - l2 + 1) (re_next nx)]> (rh_elems rh))).
Proof.
  intros Hc E1 E2. pose proof (cursor_slots _ _ _ _ _ _ _ _ _ Hc) as (Hs & _ & _ & Hn & _ & Hm & _).
  pose proof (cursor_rins _ _ _ _ _ _ _ _ _ Hc) as Hr. cbn [rins] in Hr.
  pose proof (cursor_nlen _ _ _ _ _ _ _ _ _ Hc) as [Hl1 Hl2].
  pose proof Hc as []. pose proof cu_rest0 as Hrest. cbn in Hrest.
  destruct Hrest as (Ek & nx & Hnx & Hlo & Hct & Hrest).
  pose proof (wf_rs _ _ _ cu_wf0) as Hok. apply ranges_ok_app in Hok as [Hok1 Hok2].
  pose proof (total_nonneg _ _ Hok1) as Ht1. cbn in Hok2.
  pose proof (total_nonneg _ _ (proj2 (proj2 (proj2 (proj2 Hok2))))) as Ht2.
  pose proof cu_total0 as Htot. rewrite total_app in Htot. cbn in Htot.
  change (eli :: k :: rest) with ([eli] ++ k :: rest) in Hs. rewrite app_assoc in Hs.
  destruct (free_elem_spec _ _ _ _ Hs) as (ms & Hf & Hs').
  exists nx, ms. split_and!; try done; try lia.
  { unfold RE_HIGH. rewrite wrapu_id; unfold is_u; lia. }
  apply not_elem_of_cons in Hn as [_ Hn].
  replace (h + 1 <? p) with false in Hr by lia. replace (p =? l - 1) with true in Hr by lia.
  replace (p =? h2 + 1) with true in Hr by lia. cbn in Hr.
  rewrite <- app_assoc in Hs'.
  eapply (post_intro rh _ _ (rpre ++ (l2, h) :: rrest) _ (pre ++ eli :: rest)); [done|done| | | |done|done].
  - apply rins_max_fits; [exact Hr|]. rewrite length_app in *. cbn [length] in *. lia.
  - apply slots_elems; [apply length_insert|]. exact Hs'.
  - cbn. by eapply cursor_update with (1 := Hc).
Qed.


Lemma extend_low_ok rh pre rpre eli rest l h rrest el :
  cursor rh pre rpre eli rest l h rrest el -> p = l - 1 ->
  ends_post rh (rpre ++ (l, h) :: rrest) (extend_low rh eli el).
Proof.
  intros Hc E. pose proof (cursor_slots _ _ _ _ _ _ _ _ _ Hc) as (Hs & _ & _ & Hn & _ & Hm & Hi).
  pose proof Hc as [].
  rewrite total_app in cu_total0. cbn in cu_total0.
  pose proof (wf_rs _ _ _ cu_wf0) as Hok. apply ranges_ok_app in Hok as [Hok1 Hok2].
  pose proof (total_nonneg _ _ Hok1). cbn in Hok2. destruct Hok2 as (_ & _ & Hok2).
  pose proof (total_nonneg _ _ Hok2).
  unfold extend_low. cbn [re_low re_count re_next].
  rewrite cu_low0, cu_count0, (wrapu_id 64 (l - 1)), (wrapu_id 32) by (unfold is_u; lia).
  replace (h - l + 1 + 1) with (h - p + 1) by lia. rewrite <- E.
  rewrite aset_ok by done. cbn [mbind option_bind].
  destruct rest as [|k rest], rrest as [|[l2 h2] rrest];
    [| | |]; try (by apply lseg_length in cu_rest0).
  { cbn in cu_rest0. rewrite cu_rest0. cbn. eexists _, _. split; [reflexivity|].
    rewrite <- cu_rest0. apply update_ok with (1 := Hc). cbn. by ztest. }
  pose proof cu_rest0 as (Ek & nx & Hnx & Hlo & Hct & Hrest).
  assert ((re_next el =? UINT_MAX) = false) as ->.
  { apply Z.eqb_neq. rewrite Ek. pose proof (aget_lt _ _ _ Hnx).
    pose proof (sl_len _ _ Hs). unfold UINT_MAX. lia. }
  rewrite Ek. rewrite aget_insert_ne; [|lia|by apply not_elem_of_cons in Hn as [? _]].
  rewrite Hnx. cbn [mbind option_bind]. cbn in Hok2.
  pose proof (total_nonneg _ _ (proj2 (proj2 Hok2))).
  unfold RE_HIGH. rewrite (wrapu_id 64 (re_low nx + _ - 1)), (wrapu_id 64) by (unfold is_u; lia).
  rewrite Hlo, Hct. destruct (Z.eqb_spec p (l2 + (h2 - l2 + 1) - 1 + 1)) as [E2|E2].
  - destruct (merge_ok _ _ _ _ _ _ _ _ _ _ _ _ Hc E ltac:(lia))
      as (nx' & ms & Hnx' & _ & _ & _ & _ & Hb & Hf & Hpost).
    assert (nx' = nx) as -> by congruence.
    unfold rechist_free_elem in *. cbn [rh_masks rh_n_used with_elems] in *.
    destruct (aget (rh_masks rh) _) as [m|]; [|done]. cbn [mbind option_bind] in *.
    destruct (aset (rh_masks rh) _ _) as [ms'|]; [|done]. cbn [mbind option_bind] in *.
    injection Hf as -> Hf. rewrite aset_ok by (cbn; rewrite length_insert; lia).
    cbn [mbind option_bind]. eexists _, _. split; [reflexivity|].
    cbn [rh_elems with_masks with_elems]. rewrite list_insert_insert_eq.
    rewrite (wrapu_id 32 (h - p + 1 + _)) by (unfold is_u; cbn [total] in *; lia).
    replace (h - p + 1 + (h2 - l2 + 1)) with (h - l2 + 1) by lia.
    rewrite Hf. exact Hpost.
  - eexists _, _. split; [reflexivity|]. rewrite <- Ek.
    apply update_ok with (1 := Hc). cbn [rins].
    replace (h + 1 <? p) with false by lia. replace (p =? l - 1) with true by lia.
    by replace (p =? h2 + 1) with false by lia.
Qed.

(** At the limit the last element takes the new packet's range. *)
Lemma replace_last_ok rh pre rpre eli l h el :
  cursor rh pre rpre eli [] l h [] el -> at_max_ranges rh = true ->
  p < l - 1 \/ h + 1 < p ->
  ends_post rh (rpre ++ [(l, h)]) (replace_last_el rh p eli).
Proof.
  intros Hc Hmax Hor. pose proof (cursor_slots _ _ _ _ _ _ _ _ _ Hc) as (Hs & _ & _ & _ & _ & Hm & Hi).
  pose proof (cursor_nlen _ _ _ _ _ _ _ _ _ Hc) as [Hl1 Hl2].
  pose proof (cursor_rins _ _ _ _ _ _ _ _ _ Hc) as Hr.
  unfold at_max_ranges in Hmax. rewrite length_app in Hl1. cbn [length] in Hl1.
  pose proof Hc as []. unfold replace_last_el. rewrite cu_el0. cbn [mbind option_bind].
  cbn in cu_rest0. rewrite cu_rest0. cbn [Z.eqb negb]. rewrite Z.eqb_refl. cbn [negb].
  rewrite aset_ok by done. cbn [mbind option_bind]. eexists _, _. split; [reflexivity|].
  replace 1 with (p - p + 1) by lia.
  eapply (post_intro rh _ _ (rpre ++ [(p, p)]) _ (pre ++ [eli])); [done|done| | | |done|done].
  - destruct Hor.
    + apply rins_max_tail with (r := (l, h)); [|lia..]. rewrite Hr. cbn [rins]. by ztest.
    + apply rins_max_evict with (r := (l, h)).
      * rewrite Hr, rins_above by lia. cbn. by rewrite <- app_assoc.
      * lia.
      * rewrite length_app. cbn [length]. lia.
      * intros [= ??]. lia.
  - apply slots_elems; [apply length_insert|exact Hs].
  - cbn. eapply cursor_update with (1 := Hc); [set_solver|done].
Qed.

(** Linking a fresh element in front of [suf], behind the elements [pre]. *)
Lemma link_ok rh pre rpre suf rsuf m idx :
  length pre = length rpre -> NoDup (pre ++ suf) -> (idx ∉ pre ++ suf) ->
  0 <= idx < Z.of_nat (length (rh_elems rh)) ->
  lseg (rh_elems rh) (rh_head rh) pre rpre m -> lseg (rh_elems rh) m suf rsuf UINT_MAX ->
  let es := <[Z.to_nat idx := RE p 1 m]> (rh_elems rh) in
  match last pre with
  | None => lseg es idx (pre ++ idx :: suf) (rpre ++ (p, p) :: rsuf) UINT_MAX
  | Some prev => exists es', set_next es prev idx = Some es' /\ length es' = length es
      /\ lseg es' (rh_head rh) (pre ++ idx :: suf) (rpre ++ (p, p) :: rsuf) UINT_MAX
  end.
Proof.
  intros Hlen Hnd Hni Hi Hpre Hsuf es. apply not_elem_of_app in Hni as [Hni1 Hni2].
  destruct pre as [|prev pre _] using rev_ind.
  { destruct rpre; [|done]. by apply lseg_new. }
  rewrite last_snoc. destruct rpre as [|rprev rpre _] using rev_ind; [by destruct pre|].
  pose proof Hnd as (Hn1 & Hd & _)%NoDup_app.
  apply lseg_link with (m := m).
  - done.
  - apply not_elem_of_cons. split; [set_solver|]. apply Hd. set_solver.
  - rewrite !length_app in Hlen. cbn in Hlen. lia.
  - unfold es. apply lseg_frame; [lia|done..].
  - by apply lseg_new.
Qed.

Lemma lseg_cons es i j js r rs e : lseg es i (j :: js) (r :: rs) e -> i = j.
Proof. destruct r. by intros [? _]. Qed.

(** The common end of both insertions below the limit. *)
Lemma insert_fresh_ok rh pre rpre suf rsuf m rh1 idx :
  let rs := rpre ++ rsuf in
  wf rh (pre ++ suf) rs -> total rs < 2 ^ 32 - 1 -> length pre = length rpre ->
  lseg (rh_elems rh) (rh_head rh) pre rpre m -> lseg (rh_elems rh) m suf rsuf UINT_MAX ->
  at_max_ranges rh = false -> rh_n_alloced rh <= 2 ^ 30 ->
  rins p rs = Some (rpre ++ (p, p) :: rsuf) ->
  rechist_alloc_elem junk ok rh = Some (idx, rh1) ->
  idx < 0 /\ received_post ok p rs rh REC_ST_ERR rh1
  \/ 0 <= idx /\ rh_head rh1 = rh_head rh /\ exists es, aset (rh_elems rh1) idx (RE p 1 m) = Some es /\
     match last pre with
     | None => received_post ok p rs rh REC_ST_OK (with_head (with_elems rh1 es) idx)
     | Some prev => exists es', set_next es prev idx = Some es' /\
         received_post ok p rs rh REC_ST_OK (with_elems rh1 es')
     end.
Proof.
  intros rs Hwf Ht Hlen Hpre Hsuf Hat Hal Hins Halloc.
  pose proof (wf_slots _ _ _ Hwf) as Hs.
  destruct (alloc_fresh junk ok rh _ Hs (wf_max _ _ _ Hwf) Hat Hal)
    as [(idx' & rh' & tail & Ha & Hni & Hi & Hs' & He & Hh & Hmeta & Hmax)|[Hf Ha]].
  2: { left. rewrite Ha in Halloc. injection Halloc as <- <-. split; [lia|].
       unfold received_post. destruct (rins_max _ p rs) as [rs'|] eqn:E; [by right|].
       unfold rins_max in E. by rewrite Hins in E. }
  rewrite Ha in Halloc. injection Halloc as -> ->. right. split; [lia|]. split; [done|].
  rewrite aset_ok by done. eexists. split; [reflexivity|].
  pose proof (sl_nodup _ _ Hs) as Hnd.
  assert (rins_max (rh_max_ranges rh) p rs = Some (rpre ++ (p, p) :: rsuf)) as Hmx.
  { apply rins_max_fits; [done|]. pose proof (sl_used _ _ Hs) as Hu.
    pose proof (lseg_length _ _ _ _ _ Hsuf).
    unfold at_max_ranges in Hat. rewrite !length_app in *. cbn [length]. lia. }
  assert (forall es, length es = length (rh_elems rh1) ->
    slots (with_elems rh1 es) (pre ++ idx :: suf)) as Hsl.
  { intros es Hes. apply slots_elems; [done|]. eapply slots_perm, Hs'.
    by rewrite Permutation_middle. }
  rewrite <- Hh in Hpre.
  pose proof (link_ok rh1 pre rpre suf rsuf m idx Hlen Hnd Hni Hi) as Hlink.
  rewrite He in Hlink. specialize (Hlink (lseg_extend _ _ _ _ _ _ Hpre) (lseg_extend _ _ _ _ _ _ Hsuf)).
  cbn in Hlink. rewrite <- He in Hlink. destruct (last pre) as [prev|].
  - destruct Hlink as (es' & Hes & Hl & Hseg). exists es'. split; [done|].
    eapply post_intro; [done|done|exact Hmx| |exact Hseg|done|done].
    apply Hsl. rewrite Hl. apply length_insert.
  - eapply post_intro; [done|done|exact Hmx| |exact Hlink|done|done].
    pose proof (Hsl _ (length_insert (rh_elems rh1) (Z.to_nat idx) (RE p 1 m))) as [].
    by split.
Qed.

(** At the limit an insertion in front of an inner element reuses the last
    element. *)
Lemma reuse_split rh pre rpre eli rest l h rrest el :
  cursor rh pre rpre eli rest l h rrest el -> at_max_ranges rh = true -> rest <> [] ->
  exists rest' k rrest' rk es,
    rest = rest' ++ [k] /\ rrest = rrest' ++ [rk] /\
    rechist_alloc_elem junk ok rh = Some (k, with_elems rh es)
    /\ length es = length (rh_elems rh)
    /\ lseg es (rh_head rh) (pre ++ eli :: rest') (rpre ++ (l, h) :: rrest') UINT_MAX.
Proof.
  intros Hc Hat Hne. pose proof (cursor_slots _ _ _ _ _ _ _ _ _ Hc) as (Hs & _ & _ & _ & _ & Hm & _).
  pose proof Hc as []. pose proof (lseg_length _ _ _ _ _ cu_rest0) as Hlen.
  destruct rest as [|k rest' _] using rev_ind; [done|].
  destruct rrest as [|rk rrest' _] using rev_ind; [rewrite length_app in Hlen; cbn in Hlen; lia|].
  rewrite !length_app in Hlen. cbn in Hlen.
  assert (exists a pen, pre ++ eli :: rest' = a ++ [pen]) as (a & pen & Ea).
  { destruct (exists_last (l := pre ++ eli :: rest')) as (a & pen & E); [by destruct pre|]. eauto. }
  assert (exists ra rp, rpre ++ (l, h) :: rrest' = ra ++ [rp]) as (ra & rp & Era).
  { destruct (exists_last (l := rpre ++ (l, h) :: rrest')) as (a' & pen' & E); [by destruct rpre|]. eauto. }
  pose proof (wf_seg _ _ _ cu_wf0) as [[Hn _]|Hseg]; [by destruct pre|].
  replace (pre ++ eli :: rest' ++ [k]) with (a ++ [pen; k]) in *
    by (change [pen; k] with ([pen] ++ [k]); rewrite app_assoc, <- Ea, <- app_assoc; done).
  replace (rpre ++ (l, h) :: rrest' ++ [rk]) with (ra ++ [rp; rk]) in *
    by (change [rp; rk] with ([rp] ++ [rk]); rewrite app_assoc, <- Era, <- app_assoc; done).
  pose proof (slots_used _ _ Hs). unfold at_max_ranges in Hat. unfold max_ok in Hm.
  assert (rh_n_used rh = rh_n_alloced rh) as Hfull by lia.
  destruct (reuse_last_spec rh a pen k ra rp rk Hs Hfull Hseg) as (es & Hr & Hl & Hnew).
  exists rest', k, rrest', rk, es. rewrite Ea, Era. split_and!; try done.
  unfold rechist_alloc_elem. rewrite Hat. replace (_ =? _) with true by lia. exact Hr.
Qed.

Lemma evict_ok rh pre rpre eli rest l h rrest el :
  cursor rh pre rpre eli rest l h rrest el -> at_max_ranges rh = true -> rest <> [] ->
  h + 1 < p ->
  exists k es0, rechist_alloc_elem junk ok rh = Some (k, with_elems rh es0) /\ 0 <= k
   /\ exists es, aset es0 k (RE p 1 eli) = Some es /\
      let post := received_post ok p (rpre ++ (l, h) :: rrest) rh REC_ST_OK in
      match last pre with
      | None => post (with_head (with_elems (with_elems rh es0) es) k)
      | Some prev => exists es', set_next es prev k = Some es' /\ post (with_elems (with_elems rh es0) es')
      end.
Proof.
  intros Hc Hat Hne Hlt.
  destruct (reuse_split _ _ _ _ _ _ _ _ _ Hc Hat Hne) as (rest' & k & rrest' & rk & es0 & -> & -> & Ha & Hl & Hseg).
  pose proof (cursor_slots _ _ _ _ _ _ _ _ _ Hc) as (Hs & _ & _ & _ & _ & Hm & _).
  pose proof (cursor_nlen _ _ _ _ _ _ _ _ _ Hc) as [Hl1 Hl2].
  pose proof (cursor_rins _ _ _ _ _ _ _ _ _ Hc) as Hr. rewrite rins_above in Hr by done. cbn in Hr.
  pose proof Hc as []. pose proof (sl_nodup _ _ Hs) as Hnd.
  assert (k ∈ pre ++ eli :: rest' ++ [k]) as Hk by set_solver.
  pose proof (sl_idx _ _ Hs k Hk) as Hki. pose proof (sl_len _ _ Hs) as Hlen.
  assert (pre ++ k :: eli :: rest' ≡ₚ pre ++ eli :: rest' ++ [k]) as Hperm by solve_Permutation.
  exists k, es0. split; [done|]. split; [lia|]. rewrite aset_ok by lia.
  eexists. split; [reflexivity|]. intros post.
  assert (rins_max (rh_max_ranges rh) p (rpre ++ (l, h) :: rrest' ++ [rk])
          = Some (rpre ++ (p, p) :: (l, h) :: rrest')) as Hmx.
  { unfold at_max_ranges in Hat. apply rins_max_evict with (r := rk).
    - rewrite Hr. by rewrite <- app_assoc.
    - lia.
    - rewrite !length_app in *. cbn [length] in *. rewrite length_app in Hl1. cbn in Hl1. lia.
    - intros ->. pose proof (wf_rs _ _ _ cu_wf0) as [_ Hok]%ranges_ok_app. cbn in Hok.
      assert (in_ranges p (rrest' ++ [(p, p)])) as Hin.
      { autorewrite with ranges. right. left. unfold in_range. cbn. lia. }
      apply (ranges_ok_below _ _ _ (proj2 (proj2 Hok))) in Hin. lia. }
  assert (forall es, length es = length es0 ->
    slots (with_elems (with_elems rh es0) es) (pre ++ k :: eli :: rest')) as Hsl.
  { intros es Hes. apply slots_elems; [done|]. apply slots_elems; [done|]. eapply slots_perm, Hs. done. }
  rewrite <- Hperm in Hnd. apply NoDup_app in Hnd as (Hn1 & Hd & Hn2). apply NoDup_cons in Hn2 as [Hk2 Hn2].
  apply lseg_app in Hseg as (m & Hseg1 & Hseg2); [|done].
  pose proof (lseg_cons _ _ _ _ _ _ _ Hseg2) as ->.
  assert (k ∉ pre) as Hk1 by (intros Hin; apply (Hd k Hin); left).
  pose proof (link_ok (with_elems rh es0) pre rpre (eli :: rest') ((l, h) :: rrest') eli k cu_len0) as Hlink.
  cbn in Hlink. ospecialize (Hlink _ _ _ _ _); [| |lia|done|done|].
  { apply NoDup_app. split_and!; [done| |done]. intros x Hx%Hd. set_solver. }
  { by apply not_elem_of_app. }
  destruct (last pre) as [prev|].
  - destruct Hlink as (es' & Hes & Hl' & Hseg). exists es'. split; [done|].
    eapply post_intro; [done|done|exact Hmx| |exact Hseg|done|done].
    apply Hsl. rewrite Hl'. apply length_insert.
  - eapply post_intro; [done|done|exact Hmx| |exact Hlink|done|done].
    pose proof (Hsl _ (length_insert es0 (Z.to_nat k) (RE p 1 eli))) as [].
    by split.
Qed.

(** Below the limit [insert_before] links a fresh element. *)
Lemma fresh_before rh pre rpre eli rest l h rrest el :
  cursor rh pre rpre eli rest l h rrest el -> h + 1 < p -> at_max_ranges rh = false ->
  (eli =? rh_head rh) = bool_decide (last pre = None) ->
  ends_post rh (rpre ++ (l, h) :: rrest)
    ('(idx, rh) ← rechist_alloc_elem junk ok rh;
     if idx <? 0 then Some (REC_ST_ERR, rh) else
     es ← aset (rh_elems rh) idx (RE p 1 eli);
     if eli =? rh_head rh
     then Some (REC_ST_OK, with_head (with_elems rh es) idx)
     else prev_idx ← last pre; es ← set_next es prev_idx idx; Some (REC_ST_OK, with_elems rh es)).
Proof.
  intros Hc Hlt Hat Hhd.
  pose proof (cursor_slots _ _ _ _ _ _ _ _ _ Hc) as (Hs & _ & _ & _ & _ & Hm & _).
  pose proof (cursor_rins _ _ _ _ _ _ _ _ _ Hc) as Hr. rewrite rins_above in Hr by done. cbn in Hr.
  pose proof Hc as []. destruct (rechist_alloc_elem junk ok rh) as [[idx rh1]|] eqn:Ha.
  2: { destruct (alloc_fresh junk ok rh _ Hs Hm Hat cu_alloc0) as [(?&?&?&?&_)|[_ ?]]; congruence. }
  cbn [mbind option_bind].
  assert (lseg (rh_elems rh) eli (eli :: rest) ((l, h) :: rrest) UINT_MAX) as Hsuf.
  { cbn. split; [done|]. exists el. done. }
  destruct (insert_fresh_ok rh pre rpre (eli :: rest) ((l, h) :: rrest) eli rh1 idx
    cu_wf0 cu_total0 cu_len0 cu_pre0 Hsuf Hat cu_alloc0 Hr Ha) as [[Hneg Hpost]|(Hnn & Hh & es & Hes & Hpost)].
  { replace (idx <? 0) with true by lia. eexists _, _. split; [reflexivity|done]. }
  replace (idx <? 0) with false by lia. rewrite Hes. cbn [mbind option_bind]. rewrite Hh, Hhd.
  destruct (last pre) as [prev|]; cbn.
  - destruct Hpost as (es' & -> & Hpost). cbn. eexists _, _. split; [reflexivity|done].
  - eexists _, _. split; [reflexivity|done].
Qed.

(** The label [insert_before], in all its cases. *)
Lemma insert_before_ok rh pre rpre eli rest l h rrest el :
  cursor rh pre rpre eli rest l h rrest el -> h + 1 < p ->
  ends_post rh (rpre ++ (l, h) :: rrest) (insert_before junk ok rh p (last pre) eli).
Proof.
  intros Hc Hlt. pose proof (cursor_slots _ _ _ _ _ _ _ _ _ Hc) as (Hs & _ & Hnp & _ & _ & _ & _).
  pose proof Hc as []. unfold insert_before. rewrite cu_el0. cbn [mbind option_bind].
  assert ((re_next el =? UINT_MAX) = bool_decide (rest = [])) as ->.
  { destruct rest as [|k rest], rrest as [|[l2 h2] rrest]; try (by apply lseg_length in cu_rest0).
    - cbn in cu_rest0. rewrite cu_rest0. by apply Z.eqb_refl.
    - pose proof cu_rest0 as (Ek & nx & Hnx & _). pose proof (aget_lt _ _ _ Hnx).
      pose proof (sl_len _ _ Hs). pose proof (sl_alloc _ _ Hs). rewrite Ek.
      apply Z.eqb_neq. unfold UINT_MAX. lia. }
  assert ((eli =? rh_head rh) = bool_decide (last pre = None)) as Hhd.
  { destruct (last pre) as [x|] eqn:El.
    - apply Z.eqb_neq. intros ->. apply Hnp. eapply lseg_head; [done|]. by intros ->.
    - apply last_None in El as ->. apply lseg_length in cu_pre0 as Hl0. destruct rpre; [|done].
      cbn in cu_pre0. rewrite cu_pre0. apply Z.eqb_refl. }
  destruct (bool_decide_reflect (rest = [])) as [Hrest|Hrest];
    destruct (at_max_ranges rh) eqn:Hat; cbn [andb].
  - subst rest. destruct rrest; [|by apply lseg_length in cu_rest0].
    eapply replace_last_ok; [done..|lia].
  - eapply fresh_before; done.
  - destruct (evict_ok _ _ _ _ _ _ _ _ _ Hc Hat Hrest Hlt) as (k & es0 & Ha & Hk & es & Hes & Hpost).
    rewrite Ha. cbn [mbind option_bind]. replace (k <? 0) with false by lia.
    cbn [rh_elems with_elems rh_head]. rewrite Hes. cbn [mbind option_bind]. rewrite Hhd.
    destruct (last pre) as [prev|]; cbn.
    + destruct Hpost as (es' & -> & Hpost). cbn. eexists _, _. split; [reflexivity|]. exact Hpost.
    + eexists _, _. split; [reflexivity|]. exact Hpost.
  - eapply fresh_before; done.
Qed.

(** The code behind the loop. *)
Lemma insert_tail_ok rh pre rpre eli l h el :
  cursor rh pre rpre eli [] l h [] el -> p < l - 1 ->
  ends_post rh (rpre ++ [(l, h)]) (insert_tail junk ok rh p eli).
Proof.
  intros Hc Hlt. unfold insert_tail. destruct (at_max_ranges rh) eqn:Hat.
  { eapply replace_last_ok; [done..|lia]. }
  pose proof (cursor_slots _ _ _ _ _ _ _ _ _ Hc) as (Hs & _ & _ & _ & _ & Hm & _).
  pose proof (cursor_rins _ _ _ _ _ _ _ _ _ Hc) as Hr.
  pose proof Hc as []. destruct (rechist_alloc_elem junk ok rh) as [[idx rh1]|] eqn:Ha.
  2: { destruct (alloc_fresh junk ok rh _ Hs Hm Hat cu_alloc0) as [(?&?&?&?&_)|[_ ?]]; congruence. }
  cbn [mbind option_bind].
  pose proof (wf_seg _ _ _ cu_wf0) as [[Hn _]|Hseg]; [by destruct pre|].
  assert (length (pre ++ [eli]) = length (rpre ++ [(l, h)])) as Hlen.
  { rewrite !length_app. cbn. lia. }
  destruct (insert_fresh_ok rh (pre ++ [eli]) (rpre ++ [(l, h)]) [] [] UINT_MAX rh1 idx)
    as [[Hneg Hpost]|(Hnn & Hh & es & Hes & Hpost)]; rewrite ?app_nil_r in *; try done.
  { rewrite Hr. cbn [rins]. ztest. cbn. by rewrite <- app_assoc. }
  { replace (idx <? 0) with true by lia. eexists _, _. split; [reflexivity|done]. }
  replace (idx <? 0) with false by lia. rewrite Hes. cbn [mbind option_bind].
  rewrite last_snoc in Hpost. destruct Hpost as (es' & -> & Hpost). cbn.
  eexists _, _. split; [reflexivity|done].
Qed.

Lemma received_loop_ok suf rsuf rh pre rpre prev eli fuel :
  wf rh (pre ++ suf) (rpre ++ rsuf) -> length pre = length rpre ->
  lseg (rh_elems rh) eli suf rsuf UINT_MAX -> suf <> [] -> prev = last pre ->
  all_above p rpre -> total (rpre ++ rsuf) < 2 ^ 32 - 1 -> rh_n_alloced rh <= 2 ^ 30 ->
  (length suf <= fuel)%nat ->
  ends_post rh (rpre ++ rsuf) (received_loop junk fuel ok rh p prev eli).
Proof.
  revert rsuf pre rpre prev eli fuel. induction suf as [|k suf IH];
    intros rsuf pre rpre prev eli fuel Hwf Hlen Hseg Hne -> Hab Ht Hal Hf; [done|].
  destruct rsuf as [|[l h] rsuf]; [done|]. pose proof (lseg_cons _ _ _ _ _ _ _ Hseg) as ->.
  destruct fuel as [|fuel]; [cbn in Hf; lia|].
  destruct (cursor_intro rh pre rpre k suf l h rsuf Hwf Hlen Hab Ht Hal) as [el Hc].
  pose proof (cursor_slots _ _ _ _ _ _ _ _ _ Hc) as (Hs & _).
  pose proof Hc as []. cbn [received_loop]. rewrite cu_el0. cbn [mbind option_bind].
  rewrite cu_high0, cu_low0. rewrite (wrapu_id 64 (h + 1)) by (unfold is_u; lia).
  destruct (Z.ltb_spec (h + 1) p); [by eapply insert_before_ok|].
  assert ((p =? u64 (l - 1)) = (p =? l - 1)) as ->.
  { destruct (decide (l = 0)) as [->|]; [|by rewrite wrapu_id by (unfold is_u; lia)].
    change (u64 (0 - 1)) with UINT64_MAX. unfold UINT64_MAX. lia. }
  destruct (Z.eqb_spec p (l - 1)); [by eapply extend_low_ok|].
  destruct (Z.eqb_spec p (h + 1)); [rewrite <- cu_low0 at 2; by eapply extend_high_ok|].
  destruct (Z.leb_spec l p); [replace (p <=? h) with true by lia; eapply dup_ok; [done|lia]|].
  cbn [andb]. destruct suf as [|k2 suf], rsuf as [|[l2 h2] rsuf];
    try (by apply lseg_length in cu_rest0).
  { cbn in cu_rest0. rewrite cu_rest0, Z.eqb_refl. eapply insert_tail_ok; [done|lia]. }
  pose proof cu_rest0 as (Ek & nx & Hnx & _). pose proof (aget_lt _ _ _ Hnx).
  pose proof (sl_len _ _ Hs).
  replace (re_next el =? UINT_MAX) with false by (unfold UINT_MAX; lia).
  change (k :: k2 :: suf) with ([k] ++ k2 :: suf) in Hwf.
  change ((l, h) :: (l2, h2) :: rsuf) with ([(l, h)] ++ (l2, h2) :: rsuf) in *.
  rewrite app_assoc in Hwf, Ht |- *. rewrite app_assoc in Hwf.
  apply (IH ((l2, h2) :: rsuf) (pre ++ [k]) (rpre ++ [(l, h)])); try done.
  - rewrite !length_app. cbn. lia.
  - by rewrite last_snoc.
  - apply Forall_app. split; [done|]. apply Forall_singleton. cbn. lia.
  - cbn [length] in *. lia.
Qed.

End received.

(** ** The whole operation *)

(** What [lsquic_rechist_received] must do to the abstract list [rs]. *)
Definition received_spec (alloc_ok : bool) (rh : lsquic_rechist) (rs : list range)
    (p now : Z) (st : received_st) (rh' : lsquic_rechist) : Prop :=
  if p <? rh_cutoff rh
  then st = (if bool_decide (rs = []) then REC_ST_ERR else REC_ST_DUP) /\ rh' = rh
  else match rins_max (rh_max_ranges rh) p rs with
  | None => st = REC_ST_DUP /\ rh' = rh
  | Some rs' =>
      let newest := match rs with (_, h) :: _ => h <? p | [] => true end in
      st = REC_ST_OK /\ view rh' rs'
      /\ same_meta (if newest then with_largest rh now else rh) rh'
      \/ alloc_ok = false /\ st = REC_ST_ERR /\ view rh' rs
  end.

Lemma wf_largest rh idxs rs t : wf rh idxs rs -> wf (with_largest rh t) idxs rs.
Proof. intros [[]]. by split. Qed.

Lemma view_empty rh rs : view rh rs -> rh_n_used rh = 0 <-> rs = [].
Proof.
  intros [idxs Hwf]. pose proof (sl_used _ _ (wf_slots _ _ _ Hwf)) as Hu.
  destruct (wf_seg _ _ _ Hwf) as [[-> ->]|Hseg]; [cbn in Hu; naive_solver|].
  apply lseg_length in Hseg. destruct rs; cbn in Hseg; [naive_solver lia|].
  split; [lia|done].
Qed.

Lemma first_elem_ok junk ok rh p now :
  view rh [] -> 0 <= p < 2 ^ 62 -> rh_n_alloced rh <= 2 ^ 30 ->
  exists st rh', first_elem junk ok rh p now = Some (st, rh')
    /\ received_spec ok rh [] p now st rh'.
Proof.
  intros Hv Hp Hal. pose proof Hv as [idxs Hwf]. unfold first_elem, received_spec.
  assert (idxs = []) as ->.
  { pose proof (wf_seg _ _ _ Hwf) as [[-> _]|H%lseg_length]; [done|by destruct idxs]. }
  destruct (Z.ltb_spec p (rh_cutoff rh)); [eexists _, _; split; [reflexivity|done]|].
  pose proof (wf_slots _ _ _ Hwf) as Hs. pose proof (wf_max _ _ _ Hwf) as Hmax.
  pose proof (sl_used _ _ Hs) as Hu. cbn in Hu.
  assert (at_max_ranges rh = false) as Hat.
  { unfold at_max_ranges. destruct Hmax as [->|[? _]]; [done|].
    rewrite andb_false_iff. right. lia. }
  rewrite (rins_max_fits _ _ _ [(p, p)]); [|done|cbn; lia].
  destruct (alloc_fresh junk ok rh _ Hs Hmax Hat Hal)
    as [(idx & rh1 & tail & Ha & _ & Hi & Hs1 & He & Hh & Hmeta & Hmax1)|[-> Ha]].
  - rewrite Ha. cbn [mbind option_bind]. replace (idx <? 0) with false by lia.
    rewrite aset_ok by done. cbn [mbind option_bind]. eexists _, _. split; [reflexivity|].
    left. split_and!; [done| |].
    + exists [idx]. split; cbn; try done; try lia.
      * pose proof (slots_elems rh1 [idx] (<[Z.to_nat idx:=RE p 1 UINT_MAX]> (rh_elems rh1))
          (length_insert _ _ _) Hs1) as []. by split.
      * right. split; [done|]. exists (RE p 1 UINT_MAX). rewrite aget_insert_eq by done.
        cbn. split_and!; try done. lia.
      * unfold PN_BOUND. lia.
    + destruct Hmeta as (?&?&?&?&?&?). by repeat split.
  - rewrite Ha. cbn. eexists _, _. split; [reflexivity|]. right. done.
Qed.

Lemma received_ok junk ok rh rs p now :
  view rh rs -> 0 <= p < 2 ^ 62 -> total rs < 2 ^ 32 - 1 -> rh_n_alloced rh <= 2 ^ 30 ->
  exists st rh', lsquic_rechist_received junk ok rh p now = Some (st, rh')
    /\ received_spec ok rh rs p now st rh'.
Proof.
  intros Hv Hp Ht Hal. unfold lsquic_rechist_received. pose proof (view_empty _ _ Hv) as Hemp.
  destruct (Z.eqb_spec (rh_n_used rh) 0) as [E|E].
  { apply Hemp in E as ->. by apply first_elem_ok. }
  unfold received_spec. destruct (Z.ltb_spec p (rh_cutoff rh)).
  { rewrite bool_decide_eq_false_2 by tauto. eexists _, _. split; [reflexivity|done]. }
  destruct Hv as [idxs Hwf]. destruct rs as [|[l h] rs]; [tauto|].
  pose proof (wf_seg _ _ _ Hwf) as [[_ Hn]|Hseg]; [done|].
  pose proof Hseg as Hseg0. destruct idxs as [|i idxs]; [done|].
  pose proof (lseg_cons _ _ _ _ _ _ _ Hseg) as Ei. subst i.
  destruct (cursor_intro p rh [] [] (rh_head rh) idxs l h rs) as [el Hc];
    [done|done|by apply Forall_nil|done|done|].
  destruct Hc. rewrite cu_el0. cbn [mbind option_bind]. rewrite cu_high0.
  set (rh0 := if h <? p then with_largest rh now else rh).
  assert (wf rh0 (rh_head rh :: idxs) ((l, h) :: rs)) as Hwf0
    by (unfold rh0; destruct (h <? p); [by apply wf_largest|done]).
  assert (rh_elems rh0 = rh_elems rh /\ rh_head rh0 = rh_head rh
    /\ rh_n_alloced rh0 = rh_n_alloced rh /\ rh_max_ranges rh0 = rh_max_ranges rh)
    as (Ee & Eh & Ea & Em) by (unfold rh0; by destruct (h <? p)).
  rewrite Ee, Eh.
  destruct (received_loop_ok junk ok p Hp (rh_head rh :: idxs) ((l, h) :: rs) rh0 [] [] None
              (rh_head rh) (S (length (rh_elems rh)))) as (st & rh' & Hr & Hpost);
    rewrite ?Ee, ?Ea; try done.
  - pose proof (wf_slots _ _ _ Hwf) as Hs. pose proof (slots_used _ _ Hs).
    pose proof (sl_used _ _ Hs). pose proof (sl_len _ _ Hs). lia.
  - exists st, rh'. split; [done|]. unfold received_post in Hpost. rewrite Em in Hpost.
    cbn [app] in Hpost. destruct (rins_max (rh_max_ranges rh) p _) as [rs'|] eqn:Er.
    + destruct Hpost as [Hpost|(? & ? & ->)]; [by left|right]. split_and!; try done.
      by eexists.
    + destruct Hpost as [-> ->]. split; [done|]. unfold rh0.
      destruct (Z.ltb_spec h p); [|done]. exfalso. unfold rins_max in Er.
      destruct (rins p ((l, h) :: rs)) eqn:E2; [done|].
      apply (rins_None _ _ _ (wf_rs _ _ _ Hwf)) in E2.
      autorewrite with ranges in E2. destruct E2 as [E2|E2].
      * unfold in_range in E2. cbn in E2. lia.
      * pose proof (wf_rs _ _ _ Hwf) as Hok. cbn in Hok.
        apply (ranges_ok_below _ _ _ (proj2 (proj2 Hok))) in E2. lia.
Qed.

(** * Cutting off old ranges *)

Lemma free_loop_ok b rb rh a i fuel :
  slots rh (a ++ b) -> lseg (rh_elems rh) i b rb UINT_MAX -> b <> [] -> (length b <= fuel)%nat ->
  exists ms, let rh' := with_masks rh ms (rh_n_used rh - Z.of_nat (length b)) in
    free_loop fuel rh i = Some rh' /\ slots rh' a.
Proof.
  revert rb rh i fuel. induction b as [|k b IH]; intros rb rh i fuel Hs Hseg Hne Hf; [done|].
  destruct rb as [|[l h] rb]; [done|]. destruct fuel as [|fuel]; [cbn in Hf; lia|].
  destruct Hseg as (-> & el & Hel & _ & _ & Hseg). cbn [free_loop]. rewrite Hel.
  cbn [mbind option_bind].
  destruct (free_elem_spec _ _ _ _ Hs) as (ms & -> & Hs1). cbn [mbind option_bind].
  destruct b as [|k2 b].
  { rewrite app_nil_r in Hs1. destruct rb; [|done]. cbn in Hseg. rewrite Hseg.
    rewrite Z.eqb_refl. exists ms. done. }
  assert ((re_next el =? UINT_MAX) = false) as ->.
  { destruct rb as [|r rb]; [done|]. pose proof (lseg_cons _ _ _ _ _ _ _ Hseg) as E.
    apply Z.eqb_neq. rewrite E. pose proof (sl_idx _ _ Hs k2 ltac:(set_solver)).
    pose proof (sl_alloc _ _ Hs). unfold UINT_MAX. lia. }
  destruct (IH rb (with_masks rh ms (rh_n_used rh - 1)) (re_next el) fuel)
    as (ms' & Hfree & Hs2); [done|done|done|cbn in *; lia|].
  exists ms'. rewrite Hfree. cbn in *.
  replace (rh_n_used rh - 1 - Z.of_nat (S (length b)))
    with (rh_n_used rh - Z.of_nat (S (S (length b)))) in * by lia. done.
Qed.

Definition cut_post (rh : lsquic_rechist) (rs' : list range) (r : option lsquic_rechist) : Prop :=
  exists rh' idxs', r = Some rh' /\ slots rh' idxs' /\ max_ok rh' /\ same_meta rh rh'
    /\ (idxs' = [] /\ rs' = [] \/ lseg (rh_elems rh') (rh_head rh') idxs' rs' UINT_MAX).

(** Freeing everything from [suf] on, behind the kept prefix. *)
Lemma cut_free rh es pre suf rpre rsuf i :
  slots rh (pre ++ suf) -> max_ok rh -> length es = length (rh_elems rh) -> suf <> [] ->
  (pre = [] /\ rpre = [] \/ lseg es (rh_head rh) pre rpre UINT_MAX) ->
  lseg es i suf rsuf UINT_MAX ->
  cut_post rh rpre (free_loop (S (length es)) (with_elems rh es) i).
Proof.
  intros Hs Hm Hl Hne Hpre Hsuf.
  pose proof (slots_elems rh _ es Hl Hs) as Hs1.
  destruct (free_loop_ok suf rsuf (with_elems rh es) pre i (S (length es)) Hs1 Hsuf Hne) as (ms & Hf & Hs2).
  { pose proof (sl_used _ _ Hs) as Hu. pose proof (slots_used _ _ Hs).
    pose proof (sl_len _ _ Hs). rewrite length_app in Hu. lia. }
  eexists _, pre. split; [exact Hf|]. split_and!; done.
Qed.

Lemma cutoff_loop_ok c suf rsuf b rh pre rpre prev eli fuel :
  slots rh (pre ++ suf) -> max_ok rh -> length pre = length rpre ->
  lseg (rh_elems rh) (rh_head rh) pre rpre eli -> lseg (rh_elems rh) eli suf rsuf UINT_MAX ->
  ranges_ok b rsuf -> b <= PN_BOUND -> total rsuf < 2 ^ 32 -> 0 <= c ->
  suf <> [] -> prev = last pre -> (length suf <= fuel)%nat ->
  cut_post rh (rpre ++ rcut c rsuf) (cutoff_loop fuel rh c prev eli).
Proof.
  revert rsuf b pre rpre prev eli fuel. induction suf as [|k suf IH];
    intros rsuf b pre rpre prev eli fuel Hs Hm Hlen Hpre Hsuf Hok Hb Ht Hc Hne -> Hf; [done|].
  destruct rsuf as [|[l h] rsuf]; [done|]. destruct fuel as [|fuel]; [cbn in Hf; lia|].
  pose proof Hsuf as (-> & el & Hel & Hl & Hct & Hrest). cbn [cutoff_loop]. rewrite Hel.
  cbn [mbind option_bind]. cbn in Hok, Ht. unfold PN_BOUND in Hb.
  pose proof (total_nonneg _ _ (proj2 (proj2 Hok))).
  assert (RE_HIGH el = h) as Hhi.
  { unfold RE_HIGH. rewrite Hl, Hct, wrapu_id; unfold is_u; lia. }
  rewrite Hhi, Hl. cbn [rcut]. pose proof (sl_nodup _ _ Hs) as Hnd.
  pose proof Hnd as (Hnd1 & Hd & Hnd2)%NoDup_app. apply NoDup_cons in Hnd2 as [Hk Hnd2].
  assert (k ∉ pre) as Hkp by (intros Hin; apply (Hd k Hin); left).
  pose proof (aget_lt _ _ _ Hel) as Hki.
  destruct (Z.ltb_spec h c).
  { rewrite app_nil_r. destruct pre as [|prev pre _] using rev_ind.
    - destruct rpre; [|done]. cbn [last set_next_opt mbind option_bind].
      eapply (cut_free _ _ [] (k :: suf) [] ((l, h) :: rsuf)); try done. by left.
    - destruct rpre as [|rprev rpre _] using rev_ind; [by destruct pre|].
      rewrite last_snoc. cbn [set_next_opt].
      destruct (lseg_redirect _ _ _ _ _ _ _ UINT_MAX Hnd1 Hpre) as (pel & Hpel & _ & Hnew).
      pose proof (aget_lt _ _ _ Hpel). unfold set_next. rewrite Hpel. cbn [mbind option_bind].
      rewrite aset_ok by done. cbn [mbind option_bind].
      eapply (cut_free _ _ (pre ++ [prev]) (k :: suf) _ ((l, h) :: rsuf));
        [done|done|apply length_insert|done|by right|].
      apply lseg_frame; [lia| |done]. apply Hd. set_solver. }
  assert (suf <> [] -> re_next el <> UINT_MAX) as Hnx.
  { destruct suf as [|k2 suf]; [done|]. intros _.
    pose proof (sl_idx _ _ Hs k2 ltac:(set_solver)). pose proof (sl_alloc _ _ Hs).
    destruct rsuf; [done|]. rewrite (lseg_cons _ _ _ _ _ _ _ Hrest). unfold UINT_MAX. lia. }
  assert (suf = [] -> re_next el = UINT_MAX /\ rsuf = []) as Hnil.
  { intros ->. by destruct rsuf as [|[??]?]. }
  destruct (Z.ltb_spec l c).
  { rewrite wrapu_id by (unfold is_u; lia).
    assert (lseg (<[Z.to_nat k := RE c (h - c + 1) UINT_MAX]> (rh_elems rh)) (rh_head rh)
              (pre ++ [k]) (rpre ++ [(c, h)]) UINT_MAX) as Hcut.
    { apply lseg_app; [done|]. exists k. split; [apply lseg_frame; [lia|done..]|].
      cbn. split; [done|]. eexists. by rewrite aget_insert_eq by done. }
    rewrite !aset_ok by done. cbn [mbind option_bind]. destruct suf as [|k2 suf].
    - destruct (Hnil eq_refl) as [E _]. rewrite E, Z.eqb_refl.
      eexists _, (pre ++ [k]). split; [reflexivity|]. split_and!; try done; [|by right].
      by apply slots_elems; [apply length_insert|].
    - replace (re_next el =? UINT_MAX) with false by (symmetry; apply Z.eqb_neq; by apply Hnx).
      eapply (cut_free _ _ (pre ++ [k]) (k2 :: suf) _ rsuf);
        [by rewrite <- app_assoc|done|apply length_insert|done|by right|].
      apply lseg_frame; [lia|done..]. }
  destruct suf as [|k2 suf].
  - destruct (Hnil eq_refl) as [E ->]. rewrite E, Z.eqb_refl. cbn [rcut].
    eexists _, (pre ++ [k]). split; [reflexivity|]. split_and!; try done. right.
    apply lseg_app; [done|]. eauto.
  - replace (re_next el =? UINT_MAX) with false by (symmetry; apply Z.eqb_neq; by apply Hnx).
    change ((l, h) :: rcut c rsuf) with ([(l, h)] ++ rcut c rsuf). rewrite app_assoc.
    eapply (IH rsuf l (pre ++ [k]) (rpre ++ [(l, h)])); try done; try lia.
    + by rewrite <- app_assoc.
    + rewrite !length_app. cbn. lia.
    + apply lseg_app; [done|]. exists k. split; [done|]. cbn. split; [done|]. by exists el.
    + tauto.
    + unfold PN_BOUND; lia.
    + by rewrite last_snoc.
    + cbn in *. lia.
Qed.

Lemma stop_wait_ok rh rs c :
  view rh rs -> 0 <= c < 2 ^ 64 ->
  (has_flag (rh_flags rh) RH_CUTOFF_SET = true -> rh_cutoff rh <= c) ->
  exists rh', lsquic_rechist_stop_wait rh c = Some rh'
  /\ if has_flag (rh_flags rh) RH_CUTOFF_SET && (c <=? rh_cutoff rh) then rh' = rh
     else view rh' (rcut c rs) /\ lsquic_rechist_cutoff rh' = c
          /\ rh_max_ranges rh' = rh_max_ranges rh
          /\ rh_largest_acked_received rh' = rh_largest_acked_received rh.
Proof.
  intros Hv Hc Hmono. pose proof (view_empty _ _ Hv) as Hemp. destruct Hv as [idxs Hwf].
  unfold lsquic_rechist_stop_wait.
  assert (has_flag (rh_flags rh) RH_CUTOFF_SET && (c <? rh_cutoff rh) = false) as ->.
  { destruct (has_flag _ _); [|done]. specialize (Hmono eq_refl). cbn. lia. }
  destruct (has_flag _ _ && (c <=? _)); [eexists; split; [reflexivity|done]|].
  set (rh1 := with_cutoff rh c _).
  assert (wf rh1 idxs rs) as Hwf1 by (destruct Hwf as [[]]; by split).
  assert (forall f, has_flag (Z.lor f RH_CUTOFF_SET) RH_CUTOFF_SET = true) as Hflag.
  { intros f. unfold has_flag. destruct (Z.eqb_spec (Z.land (Z.lor f RH_CUTOFF_SET) RH_CUTOFF_SET) 0)
      as [E|]; [|done]. exfalso. apply (f_equal (fun z => Z.testbit z 0)) in E.
    rewrite Z.land_spec, Z.lor_spec in E. change (Z.testbit RH_CUTOFF_SET 0) with true in E.
    by rewrite orb_true_r in E. }
  assert (forall rh', same_meta rh1 rh' -> lsquic_rechist_cutoff rh' = c
    /\ rh_max_ranges rh' = rh_max_ranges rh
    /\ rh_largest_acked_received rh' = rh_largest_acked_received rh) as Hmeta.
  { intros rh' (E1 & E2 & E3 & E4 & _). unfold lsquic_rechist_cutoff.
    rewrite E1, E2, E3, E4. cbn. by rewrite Hflag. }
  destruct (Z.eqb_spec (rh_n_used rh1) 0) as [E|E].
  { exists rh1. split; [done|]. split; [|by apply Hmeta]. apply Hemp in E as ->. by exists idxs. }
  pose proof (wf_seg _ _ _ Hwf1) as [[-> ->]|Hseg]; [tauto|].
  destruct (cutoff_loop_ok c idxs rs PN_BOUND rh1 [] [] None (rh_head rh1) (S (length (rh_elems rh1))))
    as (rh' & idxs' & Hr & Hs' & Hm' & Hmeta' & Hseg'); try done; try lia.
  - apply Hwf1.
  - exact (wf_max _ _ _ Hwf1).
  - apply Hwf1.
  - apply Hwf1.
  - intros ->. destruct rs; [tauto|done].
  - pose proof (wf_slots _ _ _ Hwf1) as Hs. pose proof (slots_used _ _ Hs).
    pose proof (sl_used _ _ Hs). pose proof (sl_len _ _ Hs). lia.
  - exists rh'. split; [done|]. split; [|by apply Hmeta]. exists idxs'.
    pose proof (wf_rs _ _ _ Hwf1) as Hok. pose proof (wf_total _ _ _ Hwf1).
    pose proof (rcut_total _ c _ Hok). split; try done; [|lia]. apply rcut_ok; [lia|done].
Qed.

(** * Iteration *)

(** The calls [first(), next(), next(), ...] a client makes until NULL. *)
Fixpoint iter_next (fuel : nat) (rh : lsquic_rechist) : option (list (Z * Z)) :=
  match fuel with
  | O => None
  | S fuel =>
      '(r, rh) ← lsquic_rechist_next rh;
      match r with
      | None => Some []
      | Some rg => rgs ← iter_next fuel rh; Some (rg :: rgs)
      end
  end.

Definition iterate (fuel : nat) (rh : lsquic_rechist) : option (list (Z * Z)) :=
  '(r, rh) ← lsquic_rechist_first rh;
  match r with
  | None => Some []
  | Some rg => rgs ← iter_next fuel rh; Some (rg :: rgs)
  end.

Lemma re_high_ok el l h b : re_low el = l -> re_count el = h - l + 1 ->
  0 <= l <= h -> h + 1 < b -> b <= PN_BOUND -> RE_HIGH el = h.
Proof.
  intros Hl Hc ? ? ?. unfold PN_BOUND in *. unfold RE_HIGH.
  rewrite Hl, Hc, wrapu_id; unfold is_u; lia.
Qed.

Lemma iter_next_ok idxs rs b rh fuel :
  lseg (rh_elems rh) (rh_iter_next rh) idxs rs UINT_MAX ->
  Z.of_nat (length (rh_elems rh)) <= 2 ^ 31 ->
  ranges_ok b rs -> b <= PN_BOUND -> (length rs < fuel)%nat -> iter_next fuel rh = Some rs.
Proof.
  revert rs b rh fuel. induction idxs as [|i idxs IH]; intros rs b rh fuel Hseg Hlen Hok Hb Hf;
    (destruct fuel as [|fuel]; [lia|]); cbn [iter_next]; unfold lsquic_rechist_next.
  - destruct rs as [|[??]?]; [|done]. cbn in Hseg. by rewrite Hseg, Z.eqb_refl.
  - destruct rs as [|[l h] rs]; [done|]. pose proof Hseg as (-> & el & Hel & Hl & Hc & Hrest).
    pose proof (aget_lt _ _ _ Hel). cbn in Hok. destruct Hok as (H1 & H2 & Hok).
    replace (i =? UINT_MAX) with false by (unfold UINT_MAX; lia).
    rewrite Hel. cbn [mbind option_bind].
    rewrite (re_high_ok el l h b) by done. rewrite Hl.
    rewrite (IH rs l); [done|done|done|done|unfold PN_BOUND in *; lia|cbn in Hf; lia].
Qed.

Lemma iterate_ok rh rs fuel : view rh rs -> (length rs < fuel)%nat -> iterate fuel rh = Some rs.
Proof.
  intros Hv Hf. pose proof (view_empty _ _ Hv) as Hemp. destruct Hv as [idxs Hwf].
  unfold iterate, lsquic_rechist_first. destruct (Z.eqb_spec (rh_n_used rh) 0) as [E|E].
  { by apply Hemp in E as ->. }
  destruct rs as [|[l h] rs]; [tauto|].
  pose proof (wf_seg _ _ _ Hwf) as [[_ ?]|Hseg]; [done|]. destruct idxs as [|i idxs]; [done|].
  pose proof Hseg as (-> & el & Hel & Hl & Hc & Hrest). rewrite Hel. cbn [mbind option_bind].
  pose proof (wf_rs _ _ _ Hwf) as Hok. cbn in Hok. destruct Hok as (H1 & H2 & Hok).
  rewrite (re_high_ok el l h PN_BOUND) by done. rewrite Hl.
  pose proof (sl_len _ _ (wf_slots _ _ _ Hwf)). pose proof (sl_alloc _ _ (wf_slots _ _ _ Hwf)).
  unfold PN_BOUND in *.
  rewrite (iter_next_ok idxs rs l); try done; cbn in *; unfold PN_BOUND in *; lia.
Qed.

Lemma largest_ok rh rs : view rh rs ->
  lsquic_rechist_largest_packno rh = Some (match rs with (_, h) :: _ => h | [] => 0 end).
Proof.
  intros Hv. pose proof (view_empty _ _ Hv) as Hemp. destruct Hv as [idxs Hwf].
  unfold lsquic_rechist_largest_packno. destruct (Z.eqb_spec (rh_n_used rh) 0) as [E|E].
  { by apply Hemp in E as ->. }
  destruct rs as [|[l h] rs]; [tauto|].
  pose proof (wf_seg _ _ _ Hwf) as [[_ ?]|Hseg]; [done|]. destruct idxs as [|i idxs]; [done|].
  pose proof Hseg as (-> & el & Hel & Hl & Hc & Hrest). rewrite Hel. cbn [mbind option_bind].
  pose proof (wf_rs _ _ _ Hwf) as Hok. cbn in Hok. destruct Hok as (H1 & H2 & Hok).
  by rewrite (re_high_ok el l h PN_BOUND) by done.
Qed.

Lemma init_view ietf max :
  0 <= max <= 2 ^ 31 -> view (lsquic_rechist_init ietf max) [].
Proof.
  intros Hm. exists []. split; cbn; try done; try lia.
  - split; cbn; try done; try lia; [constructor|set_solver].
  - by left.
  - destruct (Z.eqb_spec max 1); lia.
Qed.

(** * Runs *)

(** A sequence of packets recorded one after another, each with the time of
    its arrival; every allocation succeeds. *)
Fixpoint receive_all (junk : rechist_elem) (rh : lsquic_rechist) (pts : list (Z * Z))
    : option (list received_st * lsquic_rechist) :=
  match pts with
  | [] => Some ([], rh)
  | (p, now) :: pts =>
      '(st, rh) ← lsquic_rechist_received junk true rh p now;
      '(sts, rh) ← receive_all junk rh pts;
      Some (st :: sts, rh)
  end.

(** The same run on the reference list. *)
Fixpoint spec_run (max : Z) (rs : list range) (pts : list (Z * Z))
    : list received_st * list range :=
  match pts with
  | [] => ([], rs)
  | (p, _) :: pts =>
      let '(st, rs) := match rins_max max p rs with
                       | None => (REC_ST_DUP, rs)
                       | Some rs' => (REC_ST_OK, rs')
                       end in
      let '(sts, rs) := spec_run max rs pts in (st :: sts, rs)
  end.

Lemma view_alloc rh rs :
  view rh rs -> rh_max_ranges rh <> 0 -> rh_max_ranges rh <= 2 ^ 30 ->
  rh_n_alloced rh <= 2 ^ 30 /\ Z.of_nat (length rs) <= rh_max_ranges rh.
Proof.
  intros [idxs Hwf] H1 H2. destruct (wf_max _ _ _ Hwf) as [?|[? ?]]; [done|].
  split; [lia|]. pose proof (sl_used _ _ (wf_slots _ _ _ Hwf)).
  pose proof (slots_used _ _ (wf_slots _ _ _ Hwf)).
  destruct (wf_seg _ _ _ Hwf) as [[-> ->]|Hseg%lseg_length]; cbn in *; lia.
Qed.

Lemma receive_all_ok junk rh rs pts :
  view rh rs -> rh_max_ranges rh <> 0 -> rh_max_ranges rh <= 2 ^ 30 ->
  Forall (fun pt => rh_cutoff rh <= pt.1 /\ 0 <= pt.1 < 2 ^ 62) pts ->
  total rs + Z.of_nat (length pts) < 2 ^ 32 ->
  exists rh', receive_all junk rh pts = Some ((spec_run (rh_max_ranges rh) rs pts).1, rh')
    /\ view rh' (spec_run (rh_max_ranges rh) rs pts).2
    /\ rh_max_ranges rh' = rh_max_ranges rh
    /\ (forall P : Z -> Prop, (rs <> [] -> P (rh_largest_acked_received rh)) ->
        Forall (fun pt => P pt.2) pts -> (spec_run (rh_max_ranges rh) rs pts).2 <> [] ->
        P (rh_largest_acked_received rh')).
Proof.
  revert rh rs. induction pts as [|[p now] pts IH]; intros rh rs Hv Hm1 Hm2 Hall Ht;
    cbn [receive_all spec_run]; [eexists; split_and!; try done; naive_solver|].
  apply Forall_cons in Hall as [[Hp1 Hp2] Hall]. cbn [length] in Ht. cbn in Hp1, Hp2.
  destruct (view_alloc _ _ Hv Hm1 Hm2) as [Hal Hlen].
  destruct (received_ok junk true rh rs p now Hv Hp2 ltac:(lia) Hal) as (st & rh1 & -> & Hspec).
  cbn [mbind option_bind]. unfold received_spec in Hspec.
  replace (p <? rh_cutoff rh) with false in Hspec by lia.
  destruct (rins_max (rh_max_ranges rh) p rs) as [rs'|] eqn:Er.
  - destruct Hspec as [(-> & Hv1 & Hmeta)|[? _]]; [|done].
    assert (rh_cutoff rh1 = rh_cutoff rh /\ rh_max_ranges rh1 = rh_max_ranges rh) as [Ec Em].
    { destruct Hmeta as (-> & _ & -> & _). by destruct rs as [|[??]?]; [|destruct (_ <? _)]. }
    assert (ranges_ok PN_BOUND rs) as Hok by (destruct Hv as [? Hwf]; apply Hwf).
    pose proof (rins_max_total PN_BOUND _ _ _ _ Hok (proj1 Hp2) ltac:(unfold PN_BOUND; lia) Er).
    assert (rs <> [] /\ rh_largest_acked_received rh1 = rh_largest_acked_received rh
            \/ rh_largest_acked_received rh1 = now) as Hlar.
    { destruct Hmeta as (_ & -> & _). destruct rs as [|[??]?]; [by right|].
      destruct (_ <? _); [by right|by left]. }
    destruct (IH rh1 rs') as (rh' & -> & Hv' & Em' & HP); try done; rewrite ?Em, ?Ec; try done; [lia|].
    rewrite Em in *. exists rh'. cbn [mbind option_bind].
    destruct (spec_run (rh_max_ranges rh) rs' pts). split_and!; try done.
    intros P HP0 [HPn HPs]%Forall_cons. apply HP; [|done]. intros _. destruct Hlar as [[Hne ->]| -> ]; [by apply HP0|done].
  - destruct Hspec as [-> ->].
    destruct (IH rh rs) as (rh' & -> & Hv' & Em' & HP); try done; [lia|]. exists rh'.
    cbn [mbind option_bind]. destruct (spec_run (rh_max_ranges rh) rs pts). split_and!; try done.
    intros P HP0 [HPn HPs]%Forall_cons. by apply HP.
Qed.

Lemma rins_max_in max p rs rs' q b :
  ranges_ok b rs -> rins_max max p rs = Some rs' -> in_ranges q rs' -> q = p \/ in_ranges q rs.
Proof.
  intros Hok (rs1 & Hins & Hc)%rins_max_cases Hin.
  rewrite <- (rins_in _ _ _ q Hins b Hok).
  destruct Hc as [->|[->|(n & a & -> & -> & Hn)]]; [done|by eapply in_ranges_take|].
  autorewrite with ranges in *. destruct Hin as [Hin|Hin]; [|tauto].
  apply in_ranges_take in Hin. by autorewrite with ranges in Hin.
Qed.

Definition high (rs : list range) : option Z := snd <$> head rs.

Lemma head_take {A} n (l : list A) : (0 < n)%nat -> head (take n l) = head l.
Proof. destruct n, l; try done; lia. Qed.

Lemma rins_high b p rs rs' :
  ranges_ok b rs -> rins p rs = Some rs' ->
  high rs' = Some (match high rs with Some h => Z.max h p | None => p end).
Proof.
  intros Hok Hins. destruct rs as [|[l h] rs]; [by injection Hins as <-|].
  cbn [rins] in Hins. cbn in Hok. unfold high. cbn [head fmap option_fmap option_map snd].
  destruct (Z.ltb_spec (h + 1) p); [injection Hins as <-; cbn; f_equal; lia|].
  destruct (Z.eqb_spec p (l - 1)).
  { destruct rs as [|[l2 h2] rs]; [|destruct (p =? h2 + 1)]; injection Hins as <-; cbn; f_equal; lia. }
  destruct (Z.eqb_spec p (h + 1)); [injection Hins as <-; cbn; f_equal; lia|].
  destruct ((l <=? p) && (p <=? h)) eqn:E; [done|].
  apply fmap_Some in Hins as (rs1 & Hins & ->). cbn. f_equal. lia.
Qed.

Lemma rins_max_high b max p rs rs' :
  ranges_ok b rs -> max = 0 \/ 2 <= max -> rins_max max p rs = Some rs' ->
  high rs' = Some (match high rs with Some h => Z.max h p | None => p end).
Proof.
  intros Hok Hm. unfold rins_max. destruct (rins p rs) as [rs1|] eqn:E; [|done].
  cbn. intros [= <-]. rewrite <- (rins_high _ _ _ _ Hok E).
  destruct (Z.eqb_spec max 0); [done|]. cbn [orb].
  destruct (Z.leb_spec (Z.of_nat (length rs1)) max); [done|].
  unfold high. case_bool_decide; [|by rewrite head_take by lia].
  destruct rs1 as [|r rs1]; [done|]. by destruct (Z.to_nat max - 1)%nat eqn:?; [lia|].
Qed.

(** What a run keeps: only numbers that arrived, and always the largest. *)
Lemma spec_run_sound max rs pts :
  ranges_ok PN_BOUND rs -> max = 0 \/ 2 <= max -> Forall (fun pt => 0 <= pt.1 < 2 ^ 62) pts ->
  let rs' := (spec_run max rs pts).2 in
  ranges_ok PN_BOUND rs'
  /\ (forall q, in_ranges q rs' -> in_ranges q rs \/ q ∈ pts.*1)
  /\ high rs' = foldl (fun m p => Some (match m with Some h => Z.max h p | None => p end))
                  (high rs) pts.*1.
Proof.
  revert rs. induction pts as [|[p now] pts IH]; intros rs Hok Hm Hall; cbn [spec_run]; [naive_solver|].
  apply Forall_cons in Hall as [Hp Hall]. cbn in Hp.
  destruct (rins_max max p rs) as [rs1|] eqn:E.
  - assert (ranges_ok PN_BOUND rs1) as Hok1
      by (eapply rins_max_ok; [done| | |done]; unfold PN_BOUND; lia).
    pose proof (IH rs1 Hok1 Hm Hall) as (H1 & H2 & H3).
    destruct (spec_run max rs1 pts) as [sts rs']. cbn in *. split_and!; [done| |].
    + intros q [Hq|Hq]%H2; [|by right; right].
      destruct (rins_max_in _ _ _ _ _ _ Hok E Hq) as [->|]; [right; left|by left].
    + by rewrite H3, (rins_max_high _ _ _ _ _ Hok Hm E).
  - pose proof (IH rs Hok Hm Hall) as (H1 & H2 & H3).
    destruct (spec_run max rs pts) as [sts rs']. cbn in *. split_and!; [done| |].
    + intros q [Hq|Hq]%H2; [by left|by right; right].
    + rewrite H3. f_equal.
      assert (in_ranges p rs) as Hin.
      { unfold rins_max in E. destruct (rins p rs) eqn:E2; [done|]. by apply (rins_None _ _ _ Hok) in E2. }
      destruct rs as [|[l h] rs]; [by apply in_ranges_nil in Hin|]. cbn. f_equal.
      apply in_ranges_cons in Hin as [Hin|Hin]; [unfold in_range in Hin; cbn in Hin; lia|].
      cbn in Hok. apply (ranges_ok_below _ _ _ (proj2 (proj2 Hok))) in Hin. lia.
Qed.

(** * Properties *)

(** C17: Recording a packet refines insertion into the abstract range list.
    From any well-formed history holding [rs], [lsquic_rechist_received]
    terminates without undefined behaviour; a packet below the cutoff or
    already present leaves the history as it is (and is reported as DUP, or ERR
    when the history is empty); any other packet is inserted by [rins_max]
    (extended, merged, or a new range that may evict the lowest one), the
    history stays well formed, and the receipt time of the largest packet is
    updated exactly when the packet is the new largest.  Only a failed
    allocation gives ERR, and then the ranges are kept. *)
Theorem rechist_received_refines junk ok rh rs p now :
  view rh rs -> 0 <= p < 2 ^ 62 -> total rs < 2 ^ 32 - 1 -> rh_n_alloced rh <= 2 ^ 30 ->
  exists st rh', lsquic_rechist_received junk ok rh p now = Some (st, rh')
    /\ received_spec ok rh rs p now st rh'.
Proof. apply received_ok. Qed.

Lemma rechist_received_refines_witness :
  exists rh, view rh [(7, 7); (5, 5)] /\
  exists st rh', lsquic_rechist_received (RE 0 0 0) true rh 6 50 = Some (st, rh')
    /\ received_spec true rh [(7, 7); (5, 5)] 6 50 st rh'.
Proof.
  destruct (receive_all_ok (RE 0 0 0) (lsquic_rechist_init true 10) [] [(5, 1); (7, 2)])
    as (rh & Hr & Hv & Hm & _).
  - apply init_view. lia.
  - done.
  - cbn. lia.
  - repeat constructor; cbn; lia.
  - cbn. lia.
  - exists rh. split; [exact Hv|]. apply (rechist_received_refines (RE 0 0 0) true).
    + exact Hv.
    + lia.
    + cbn. lia.
    + vm_compute in Hr. injection Hr as <-. cbn. lia.
Defined.

(** Raising the cutoff refines cutting the abstract list.
    When the new cutoff is not below the one already set, the operation
    terminates without undefined behaviour and the history holds exactly the
    packet numbers at or above the cutoff (the range that straddles it is
    trimmed, the ones below are freed); calling it again with the current
    cutoff changes nothing. *)
Theorem rechist_stop_wait_refines rh rs c :
  view rh rs -> 0 <= c < 2 ^ 64 ->
  (has_flag (rh_flags rh) RH_CUTOFF_SET = true -> rh_cutoff rh <= c) ->
  exists rh', lsquic_rechist_stop_wait rh c = Some rh'
  /\ if has_flag (rh_flags rh) RH_CUTOFF_SET && (c <=? rh_cutoff rh) then rh' = rh
     else view rh' (rcut c rs)
          /\ (forall q, in_ranges q (rcut c rs) <-> in_ranges q rs /\ c <= q)
          /\ lsquic_rechist_cutoff rh' = c.
Proof.
  intros Hv Hc Hm. destruct (stop_wait_ok rh rs c Hv Hc Hm) as (rh' & Hr & Hpost).
  exists rh'. split; [done|]. destruct (_ && _); [done|].
  destruct Hpost as (? & ? & _). split_and!; try done. intros q.
  destruct Hv as [idxs Hwf]. apply (rcut_in _ _ _ _ (wf_rs _ _ _ Hwf)).
Qed.

Lemma rechist_stop_wait_refines_witness :
  exists rh, view rh [(7, 8); (5, 5)] /\
  exists rh', lsquic_rechist_stop_wait rh 8 = Some rh' /\ view rh' [(8, 8)].
Proof.
  destruct (receive_all_ok (RE 0 0 0) (lsquic_rechist_init true 10) [] [(5, 1); (7, 2); (8, 3)])
    as (rh & Hr & Hv & Hm & _).
  - apply init_view. lia.
  - done.
  - cbn. lia.
  - repeat constructor; cbn; lia.
  - cbn. lia.
  - exists rh. split; [exact Hv|]. vm_compute in Hr. injection Hr as <-.
    destruct (rechist_stop_wait_refines _ _ 8 Hv) as (rh' & Hs & Hpost).
    + lia.
    + cbn. discriminate.
    + exists rh'. split; [exact Hs|]. cbn in Hpost. exact (proj1 Hpost).
Defined.

Lemma foldl_high (ietf : bool) (pts : list (Z * Z)) :
  pts <> [] -> Forall (fun pt => (if ietf then 0 else 1) <= pt.1 < 2 ^ 62) pts ->
  foldl (fun m p => Some (match m with Some h => Z.max h p | None => p end)) (high []) pts.*1
  = Some (foldl Z.max 0 pts.*1).
Proof.
  intros Hne Hall. destruct pts as [|[p now] pts]; [done|]. apply Forall_cons in Hall as [Hp _].
  cbn in Hp |- *. rewrite Z.max_r by (destruct ietf; lia). generalize pts.*1 as l. clear. intros l.
  revert p. induction l as [|x l IHl]; intros m; cbn; [done|]. apply IHl.
Qed.

(** C18: The history of a whole run.  Start from an initialised history with a
    limit on its ranges and record any sequence of packets (none below the
    initial cutoff): every call returns, the statuses are those of the
    reference run, and iterating with [first]/[next] afterwards (what the
    generator of ACK frames does) yields exactly the reference range list.
    That list is well formed, holds no packet number that did not arrive, and
    its largest number, which [lsquic_rechist_largest_packno] returns, is the
    largest that arrived. *)
Theorem rechist_run junk (ietf : bool) max (pts : list (Z * Z)) :
  1 <= max <= 2 ^ 30 -> Z.of_nat (length pts) < 2 ^ 32 -> pts <> [] ->
  Forall (fun pt => (if ietf then 0 else 1) <= pt.1 < 2 ^ 62) pts ->
  let rs := (spec_run (Z.max 2 max) [] pts).2 in
  exists rh, receive_all junk (lsquic_rechist_init ietf max) pts
             = Some ((spec_run (Z.max 2 max) [] pts).1, rh)
  /\ iterate (S (length rs)) rh = Some rs
  /\ ranges_ok PN_BOUND rs /\ (forall q, in_ranges q rs -> q ∈ pts.*1)
  /\ lsquic_rechist_largest_packno rh = Some (foldl Z.max 0 pts.*1).
Proof.
  intros Hmax Hlen Hne Hall rs. set (rh0 := lsquic_rechist_init ietf max).
  assert (rh_max_ranges rh0 = Z.max 2 max) as Em.
  { cbn. destruct (Z.eqb_spec max 1); lia. }
  destruct (receive_all_ok junk rh0 [] pts) as (rh & Hr & Hv & _).
  { apply init_view. lia. }
  { lia. }
  { lia. }
  { eapply Forall_impl; [exact Hall|]. cbn. intros [p now]. cbn. destruct ietf; lia. }
  { cbn. lia. }
  rewrite Em in Hr, Hv. exists rh. split; [done|]. fold rs in Hv.
  destruct (spec_run_sound (Z.max 2 max) [] pts) as (Hok & Hin & Hhi); [done|lia| |].
  { eapply Forall_impl; [exact Hall|]. cbn. intros [p now]. cbn. destruct ietf; lia. }
  fold rs in Hok, Hin, Hhi. split_and!; [apply iterate_ok; [done|lia]|done| |].
  - intros q [Hq|Hq]%Hin; [by apply in_ranges_nil in Hq|done].
  - rewrite (largest_ok _ _ Hv). f_equal.
    rewrite (foldl_high ietf pts Hne Hall) in Hhi.
    unfold high in Hhi. destruct rs as [|[l h] rs']; [done|]. cbn in Hhi. congruence.
Qed.

Lemma rechist_run_witness :
  exists rh, receive_all (RE 0 0 0) (lsquic_rechist_init true 2) [(5, 1); (9, 2); (1, 3); (9, 4)]
             = Some ([REC_ST_OK; REC_ST_OK; REC_ST_OK; REC_ST_DUP], rh)
  /\ iterate 3 rh = Some [(9, 9); (1, 1)].
Proof.
  destruct (rechist_run (RE 0 0 0) true 2 [(5, 1); (9, 2); (1, 3); (9, 4)]) as (rh & H1 & H2 & _).
  - lia.
  - cbn. lia.
  - discriminate.
  - repeat constructor; cbn; lia.
  - exists rh. split; [exact H1|exact H2].
Defined.
