(* ===== verification/Art.v ===== *)
(** ART, the adaptive redundant retransmission this fork adds to LSQUIC:
    lsquic_art_feedback.c, the feedback window and the redundancy table kept
    in lsquic_send_ctl.c, and the schedule of duplicates in
    lsquic_packet_out.c.

    C doubles are IEEE 754 binary64 values computed by the functions of the
    Standard Library's SpecFloat (53 bits of precision, emax 1024, rounding to
    nearest even).  [lsquic_malo_get] is the Boolean [malo_ok], [rand()] the
    argument [rnd], the clock the argument [now]. *)
From Stdlib Require Import SpecFloat.
From S2P Require Import Prelude.
Local Open Scope Z_scope.

(** ** Doubles *)
Definition double := spec_float.
Definition dbl (z : Z) : double := binary_normalize 53 1024 z 0 false.
Definition ddiv (a b : double) : double := SFdiv 53 1024 a b.
Definition dadd (a b : double) : double := SFadd 53 1024 a b.
Definition dsub (a b : double) : double := SFsub 53 1024 a b.

Definition MAX_ROUND_BOUND : Z := 20.
Definition MAX_FEEDBACK_WINDOW_SIZE : Z := 10.

(** ** The part of [struct lsquic_send_ctl] that ART uses *)
Record art_ctl := ART {
  sc_feedback_window : list Z;             (* feedback_value of each entry *)
  sc_feedback_window_size : Z;
  sc_largest_feedback_window : Z;
  sc_rounds_map : list Z;
  sc_art_flag : Z
}.

(** The assignments of [lsquic_send_ctl_init] to these fields. *)
Definition art_init : art_ctl :=
  ART [] 0 MAX_FEEDBACK_WINDOW_SIZE
      (map (fun temp => u32 (2 * Z.of_nat temp - 1)) (seq 0 (Z.to_nat MAX_ROUND_BOUND)))
      1.

(** Recording one feedback value: 1 by [send_ctl_record_feedback_loss] when a
    duplicate is declared lost, 0 by [lsquic_send_ctl_got_ack] when one is
    acknowledged.  The oldest entry is reused when the window is full; a
    NULL from the allocator is dereferenced. *)
Definition record_feedback (malo_ok : bool) (ctl : art_ctl) (value : Z) : option art_ctl :=
  if sc_largest_feedback_window ctl <=? sc_feedback_window_size ctl then
    match sc_feedback_window ctl with
    | [] => None
    | _ :: w => Some (ART (w ++ [value]) (sc_feedback_window_size ctl)
                          (sc_largest_feedback_window ctl) (sc_rounds_map ctl) (sc_art_flag ctl))
    end
  else if malo_ok then
    Some (ART (sc_feedback_window ctl ++ [value]) (u32 (sc_feedback_window_size ctl + 1))
              (sc_largest_feedback_window ctl) (sc_rounds_map ctl) (sc_art_flag ctl))
  else None.

Definition send_ctl_record_feedback_loss (malo_ok : bool) (ctl : art_ctl) : option art_ctl :=
  record_feedback malo_ok ctl 1.

Definition got_ack_record_feedback (malo_ok : bool) (ctl : art_ctl) (po_fake_loss_rec : Z)
    : option art_ctl :=
  if po_fake_loss_rec =? 1 then record_feedback malo_ok ctl 0 else Some ctl.

(** The loop of [art_replica_loss_rate]. *)
Fixpoint feedback_sum (w : list Z) (acc : double) : double :=
  match w with
  | [] => acc
  | v :: w => feedback_sum w (if v =? 1 then dadd acc (dbl 1) else acc)
  end.

Definition art_replica_loss_rate (ctl : art_ctl) : double :=
  if sc_feedback_window_size ctl =? 0 then dbl 0
  else ddiv (feedback_sum (sc_feedback_window ctl) (dbl 0))
            (dbl (sc_feedback_window_size ctl)).

(** The comparisons and the update of one table entry. *)
Definition art_adjust (rlr : double) (temp_redundancy : Z) : Z :=
  if SFltb (dsub (dbl 1) (ddiv (dbl 1) (dbl temp_redundancy))) rlr
  then u32 (temp_redundancy + 1)
  else if SFleb rlr (dsub (dbl 1) (ddiv (dbl 2) (dbl temp_redundancy)))
  then u32 (temp_redundancy - 1)
  else temp_redundancy.

(** Returns the new entry; an index outside the table is undefined. *)
Definition art_duplicate_number (ctl : art_ctl) (po_retrans_times : Z)
    : option (Z * art_ctl) :=
  temp_redundancy ← aget (sc_rounds_map ctl) po_retrans_times;
  let r := art_adjust (art_replica_loss_rate ctl) temp_redundancy in
  m ← aset (sc_rounds_map ctl) po_retrans_times r;
  Some (r, ART (sc_feedback_window ctl) (sc_feedback_window_size ctl)
               (sc_largest_feedback_window ctl) m (sc_art_flag ctl)).

(** ** Packets *)

(** The ART fields of [struct lsquic_packet_out]; [po_loss_rec] is the bit
    PO_LOSS_REC of [po_flags]. *)
Record art_packet := AP {
  po_packno : Z;
  po_retrans_times : Z;
  po_retrans_packet_number : Z;
  po_need_retrans_number : Z;
  po_remained_time : Z;
  po_last_lost_time : Z;
  po_expected_sent : Z;
  po_retrans_no : Z;
  po_been_detect_loss : Z;
  po_fake_loss_rec : Z;
  po_loss_rec : bool
}.

Definition with_sched (p : art_packet) (last_lost expected : Z) : art_packet :=
  AP (po_packno p) (po_retrans_times p) (po_retrans_packet_number p)
     (po_need_retrans_number p) (po_remained_time p) last_lost expected
     (po_retrans_no p) (po_been_detect_loss p) (po_fake_loss_rec p) (po_loss_rec p).

(** The delay returned and the packet; [rnd] is what [rand()] gives. *)
Definition lsquic_packet_out_schedule_time (p : art_packet) (init : bool) (now rnd : Z)
    : Z * art_packet :=
  let last := if init then now else po_last_lost_time p in
  if (0 <? po_remained_time p) && (po_retrans_packet_number p <=? po_need_retrans_number p)
  then
    let time_left := i64 (po_remained_time p - (now - last)) in
    if time_left <=? 0 then (0, with_sched p last now)
    else let delay := rnd mod time_left in (delay, with_sched p last (u64 (now + delay)))
  else (0, with_sched p last now).

(** What [send_ctl_handle_regular_lost_packet] does to a lost packet that
    carries STREAM frames, after it was moved to the lost queue: one more
    duplicate of the running turn, or the start of a new turn. *)
Definition art_handle_lost (ctl : art_ctl) (p : art_packet) (min_rtt now rnd : Z)
    : option (art_ctl * art_packet) :=
  '(ctl, p) ←
    (if negb (po_fake_loss_rec p =? 0) && negb (po_loss_rec p) && (po_been_detect_loss p =? 0)
     then
       let p := AP (po_packno p) (po_retrans_times p) (u16 (po_retrans_packet_number p + 1))
                   (po_need_retrans_number p) (po_remained_time p) (po_last_lost_time p)
                   (po_expected_sent p) (po_retrans_no p) (po_been_detect_loss p)
                   (po_fake_loss_rec p) (po_loss_rec p) in
       Some (ctl, (lsquic_packet_out_schedule_time p false now rnd).2)
     else
       let times := u16 (po_retrans_times p + 1) in
       let no := if po_retrans_no p =? 0 then po_packno p else po_retrans_no p in
       if sc_art_flag ctl =? 0 then
         Some (ctl, AP (po_packno p) times (po_retrans_packet_number p)
                       (po_need_retrans_number p) min_rtt (po_last_lost_time p)
                       (po_expected_sent p) no (po_been_detect_loss p)
                       (po_fake_loss_rec p) (po_loss_rec p))
       else
         '(dup_number, ctl) ← art_duplicate_number ctl times;
         let p := AP (po_packno p) times (po_retrans_packet_number p)
                     (u16 (if 0 <? dup_number then dup_number else 1)) min_rtt
                     (po_last_lost_time p) (po_expected_sent p) no
                     (po_been_detect_loss p) 1 (po_loss_rec p) in
         Some (ctl, (lsquic_packet_out_schedule_time p true now rnd).2));
  Some (ctl, AP (po_packno p) (po_retrans_times p) (po_retrans_packet_number p)
                (po_need_retrans_number p) (po_remained_time p) (po_last_lost_time p)
                (po_expected_sent p) (po_retrans_no p) 0 (po_fake_loss_rec p) (po_loss_rec p)).

(** The test by which [art_schedule] picks the STREAM packets to duplicate. *)
Definition art_due (p : art_packet) (now : Z) : bool :=
  negb (po_fake_loss_rec p =? 0) && negb (po_loss_rec p)
  && (po_retrans_packet_number p <? po_need_retrans_number p)
  && (i64 (po_expected_sent p - now) <=? 0).

(** * The feedback window *)

(** What the window holds after the feedback values [vs], oldest first. *)
Definition window_spec (vs : list Z) : list Z := drop (length vs - 10) vs.

Fixpoint record_all (ctl : art_ctl) (vs : list Z) : option art_ctl :=
  match vs with
  | [] => Some ctl
  | v :: vs => ctl ← record_feedback true ctl v; record_all ctl vs
  end.

Lemma record_feedback_spec ctl vs v :
  sc_largest_feedback_window ctl = MAX_FEEDBACK_WINDOW_SIZE ->
  sc_feedback_window ctl = window_spec vs ->
  sc_feedback_window_size ctl = Z.of_nat (length (window_spec vs)) ->
  exists ctl', record_feedback true ctl v = Some ctl'
    /\ sc_largest_feedback_window ctl' = MAX_FEEDBACK_WINDOW_SIZE
    /\ sc_feedback_window ctl' = window_spec (vs ++ [v])
    /\ sc_feedback_window_size ctl' = Z.of_nat (length (window_spec (vs ++ [v])))
    /\ sc_rounds_map ctl' = sc_rounds_map ctl /\ sc_art_flag ctl' = sc_art_flag ctl.
Proof.
  intros Hl Hw Hs. unfold record_feedback. rewrite Hl, Hs, Hw. unfold window_spec in *.
  rewrite !length_drop, !length_app. cbn [length]. unfold MAX_FEEDBACK_WINDOW_SIZE.
  rewrite drop_app_le by lia.
  destruct (Z.leb_spec 10 (Z.of_nat (length vs - (length vs - 10)))).
  - destruct (drop (length vs - 10) vs) as [|x w] eqn:E.
    { apply (f_equal length) in E. rewrite length_drop in E. cbn in E. lia. }
    eexists. split; [reflexivity|]. cbn. split_and!; try done; [|lia].
    replace (length vs + 1 - 10)%nat with (S (length vs - 10)) by lia.
    f_equal. erewrite drop_S in E; [by injection E|].
    rewrite <- (Nat.add_0_r (length vs - 10)), <- lookup_drop, E. done.
  - eexists. split; [reflexivity|]. cbn. split_and!; try done.
    + by replace (length vs + 1 - 10)%nat with (length vs - 10)%nat by lia.
    + rewrite wrapu_id by (unfold is_u; lia). lia.
Qed.

Lemma record_all_spec ctl vs vs' :
  sc_largest_feedback_window ctl = MAX_FEEDBACK_WINDOW_SIZE ->
  sc_feedback_window ctl = window_spec vs ->
  sc_feedback_window_size ctl = Z.of_nat (length (window_spec vs)) ->
  exists ctl', record_all ctl vs' = Some ctl'
    /\ sc_feedback_window ctl' = window_spec (vs ++ vs')
    /\ sc_feedback_window_size ctl' = Z.of_nat (length (window_spec (vs ++ vs')))
    /\ sc_rounds_map ctl' = sc_rounds_map ctl.
Proof.
  revert ctl vs. induction vs' as [|v vs' IH]; intros ctl vs Hl Hw Hs; cbn [record_all].
  - rewrite app_nil_r. by eexists.
  - destruct (record_feedback_spec ctl vs v Hl Hw Hs) as (c1 & -> & H1 & H2 & H3 & H4 & _).
    cbn [mbind option_bind]. destruct (IH c1 _ H1 H2 H3) as (c2 & ? & ? & ? & E).
    exists c2. rewrite <- app_assoc in *. rewrite E, H4. done.
Qed.

(** * Redundancy *)

(** How many entries of the window report a lost duplicate. *)
Definition losses (w : list Z) : nat := length (filter (fun v => v = 1) w).

(** The adjustment in exact arithmetic: [k] losses in [n] reports. *)
Definition adjust_spec (n k r : Z) : Z :=
  if n * (r - 1) <? k * r then r + 1
  else if k * r <=? n * (r - 2) then r - 1 else r.

Definition rate (n k : Z) : double := ddiv (dbl k) (dbl n).

Definition range_list (lo n : nat) : list Z := Z.of_nat <$> seq lo n.

Lemma range_list_in z lo n :
  Z.of_nat lo <= z < Z.of_nat (lo + n) -> z ∈ range_list lo n.
Proof.
  intros. unfold range_list. apply list_elem_of_fmap. exists (Z.to_nat z).
  split; [lia|]. apply elem_of_seq. lia.
Qed.

(** Every window content the code can see, against every entry up to 64. *)
Lemma adjust_table :
  forallb (fun n => forallb (fun k => forallb (fun r =>
    Z.eqb (art_adjust (rate n k) r) (adjust_spec n k r)) (range_list 1 64))
    (range_list 0 (S (Z.to_nat n)))) (range_list 1 10) = true.
Proof. vm_compute. reflexivity. Qed.

Lemma forallb_in {A} (f : A -> bool) l x : forallb f l = true -> x ∈ l -> f x = true.
Proof. rewrite forallb_forall. intros H Hx. apply H. by apply list_elem_of_In. Qed.

Lemma adjust_exact n k r :
  1 <= n <= 10 -> 0 <= k <= n -> 1 <= r <= 64 ->
  art_adjust (rate n k) r = adjust_spec n k r.
Proof.
  intros Hn Hk Hr. apply Z.eqb_eq. pose proof adjust_table as H.
  apply (forallb_in _ _ n) in H; [|apply range_list_in; lia]. cbn beta in H.
  apply (forallb_in _ _ k) in H; [|apply range_list_in; lia]. cbn beta in H.
  apply (forallb_in _ _ r) in H; [|apply range_list_in; lia]. exact H.
Qed.

Lemma dadd_one k : 0 <= k < 10 -> dadd (dbl k) (dbl 1) = dbl (k + 1).
Proof.
  intros Hk. assert (k = 0 \/ k = 1 \/ k = 2 \/ k = 3 \/ k = 4 \/ k = 5 \/ k = 6 \/ k = 7
    \/ k = 8 \/ k = 9) as Hc by lia.
  repeat (destruct Hc as [->|Hc]; [vm_compute; reflexivity|]). subst. vm_compute. reflexivity.
Qed.

Lemma feedback_sum_spec w k :
  0 <= k -> k + Z.of_nat (length w) <= 10 ->
  feedback_sum w (dbl k) = dbl (k + Z.of_nat (losses w)).
Proof.
  revert k. induction w as [|v w IH]; intros k Hk Hl; cbn [feedback_sum length] in *.
  - unfold losses. cbn. by rewrite Z.add_0_r.
  - unfold losses. rewrite filter_cons. destruct (Z.eqb_spec v 1) as [->|Hv].
    + rewrite decide_True by done. rewrite dadd_one, IH by lia. unfold losses.
      cbn [length]. f_equal. lia.
    + rewrite decide_False by done. by rewrite IH by lia.
Qed.

(** The window the code keeps: its length is counted and at most 10. *)
Definition window_ok (ctl : art_ctl) : Prop :=
  sc_feedback_window_size ctl = Z.of_nat (length (sc_feedback_window ctl))
  /\ Z.of_nat (length (sc_feedback_window ctl)) <= 10.

Definition reports (ctl : art_ctl) : Z := Z.max 1 (sc_feedback_window_size ctl).

Lemma loss_rate_spec ctl :
  window_ok ctl ->
  art_replica_loss_rate ctl = rate (reports ctl) (Z.of_nat (losses (sc_feedback_window ctl))).
Proof.
  intros [Hs Hl]. unfold art_replica_loss_rate, reports, rate. rewrite Hs.
  destruct (Z.eqb_spec (Z.of_nat (length (sc_feedback_window ctl))) 0) as [E|E].
  - destruct (sc_feedback_window ctl); [|cbn in E; lia]. cbn. vm_compute. reflexivity.
  - rewrite Z.max_r by lia. rewrite (feedback_sum_spec _ 0) by lia. done.
Qed.

Lemma losses_le w : (losses w <= length w)%nat.
Proof. unfold losses. apply length_filter. Qed.

Lemma loss_rate_bounds ctl :
  window_ok ctl -> 1 <= reports ctl <= 10
  /\ 0 <= Z.of_nat (losses (sc_feedback_window ctl)) <= reports ctl.
Proof.
  intros [Hs Hl]. unfold reports. pose proof (losses_le (sc_feedback_window ctl)). lia.
Qed.

Lemma adjust_spec_pos n k r : 1 <= n -> 0 <= k <= n -> 1 <= r -> 1 <= adjust_spec n k r.
Proof.
  intros. unfold adjust_spec.
  destruct (Z.ltb_spec (n * (r - 1)) (k * r)); [lia|].
  destruct (Z.leb_spec (k * r) (n * (r - 2))); [|lia].
  destruct (Z.eq_dec r 1) as [->|]; lia.
Qed.

Lemma art_adjust_pos n k r :
  1 <= n <= 10 -> 0 <= k <= n -> 1 <= r < UINT_MAX -> 1 <= art_adjust (rate n k) r.
Proof.
  unfold UINT_MAX. intros Hn Hk Hr. destruct (Z.le_gt_cases r 64).
  - rewrite adjust_exact by lia. apply adjust_spec_pos; lia.
  - unfold art_adjust. destruct (SFltb _ _); [rewrite wrapu_id by (unfold is_u; lia); lia|].
    destruct (SFleb _ _); [rewrite wrapu_id by (unfold is_u; lia); lia|lia].
Qed.

(** The entries at which the redundancy rests for a given loss rate. *)
Definition settled (n k r : Z) : Prop := n <= r * (n - k) < 2 * n.

Lemma adjust_settled n k r : settled n k r <-> adjust_spec n k r = r.
Proof.
  unfold settled, adjust_spec.
  destruct (Z.ltb_spec (n * (r - 1)) (k * r)); [lia|].
  destruct (Z.leb_spec (k * r) (n * (r - 2))); lia.
Qed.

(** One adjustment moves towards the settled entries by one. *)
Lemma adjust_up n k r : r * (n - k) < n -> adjust_spec n k r = r + 1.
Proof. intros. unfold adjust_spec. destruct (Z.ltb_spec (n * (r - 1)) (k * r)); lia. Qed.

Lemma adjust_down n k r : 0 < n -> 2 * n <= r * (n - k) -> adjust_spec n k r = r - 1.
Proof.
  intros. unfold adjust_spec. destruct (Z.ltb_spec (n * (r - 1)) (k * r)); [lia|].
  destruct (Z.leb_spec (k * r) (n * (r - 2))); lia.
Qed.

Lemma iter_S {A} (m : nat) (f : A -> A) x : Nat.iter (S m) f x = f (Nat.iter m f x).
Proof. reflexivity. Qed.

Lemma iter_swap {A} (m : nat) (f : A -> A) x : Nat.iter m f (f x) = f (Nat.iter m f x).
Proof. induction m as [|m IH]; [done|]. by rewrite !iter_S, IH. Qed.

Lemma settle_stay (m : nat) n k r :
  settled n k r -> Nat.iter m (adjust_spec n k) r = r.
Proof.
  intros Hs. induction m as [|m IH]; [done|]. rewrite iter_S, IH. by apply adjust_settled.
Qed.

(** From below, [n] steps are enough: an entry of [n] or more is settled or
    above. *)
Lemma settle_up (m : nat) n k r :
  0 <= k < n -> 1 <= r -> r * (n - k) < 2 * n -> n - r <= Z.of_nat m ->
  settled n k (Nat.iter m (adjust_spec n k) r).
Proof.
  intros Hk. revert r. induction m as [|m IH]; intros r Hr Hlt Hm.
  - cbn. unfold settled. nia.
  - destruct (Z.lt_ge_cases (r * (n - k)) n).
    + rewrite iter_S, <- iter_swap, adjust_up by done. apply IH; nia.
    + rewrite settle_stay; unfold settled; lia.
Qed.

Lemma settle_down (m : nat) n k r :
  0 <= k < n -> 2 * n <= r * (n - k) -> r - 1 <= Z.of_nat m ->
  settled n k (Nat.iter m (adjust_spec n k) r).
Proof.
  intros Hk. revert r. induction m as [|m IH]; intros r Hlt Hm; [nia|].
  rewrite iter_S, <- iter_swap, adjust_down by lia.
  destruct (Z.lt_ge_cases ((r - 1) * (n - k)) (2 * n)); [|apply IH; lia].
  rewrite settle_stay; unfold settled; nia.
Qed.

Lemma settle_iter (m : nat) n k r :
  0 <= k < n -> 1 <= r -> Z.max (n - r) (r - 1) <= Z.of_nat m ->
  settled n k (Nat.iter m (adjust_spec n k) r).
Proof.
  intros. destruct (Z.lt_ge_cases (r * (n - k)) (2 * n)).
  - apply settle_up; lia.
  - apply settle_down; lia.
Qed.

(** Between 1 and 64, the code's iteration is the exact one. *)
Lemma iter_exact (m : nat) n k r :
  1 <= n <= 10 -> 0 <= k < n -> 1 <= r <= 64 ->
  Nat.iter m (art_adjust (rate n k)) r = Nat.iter m (adjust_spec n k) r
  /\ 1 <= Nat.iter m (adjust_spec n k) r <= 64.
Proof.
  intros Hn Hk Hr. induction m as [|m [IH1 IH2]]; [done|].
  rewrite !iter_S, IH1, adjust_exact by lia. split; [done|].
  split; [apply adjust_spec_pos; lia|].
  set (x := Nat.iter m (adjust_spec n k) r) in *. unfold adjust_spec.
  assert (x <= x * (n - k)) by nia.
  destruct (Z.ltb_spec (n * (x - 1)) (k * x)); [lia|].
  destruct (_ <=? _); lia.
Qed.

(** * Scheduling *)

(** Times that fit: the clock and the deadline stay below 2^63. *)
Definition times_ok (p : art_packet) (last now : Z) : Prop :=
  0 <= last <= now /\ 0 <= po_remained_time p /\ now < 2 ^ 62 /\ po_remained_time p < 2 ^ 62.

Lemma schedule_bounds p (init : bool) now rnd :
  times_ok p (if init then now else po_last_lost_time p) now -> 0 <= rnd ->
  let last := if init then now else po_last_lost_time p in
  exists delay, 0 <= delay /\ now + delay <= Z.max now (last + po_remained_time p - 1)
  /\ lsquic_packet_out_schedule_time p init now rnd = (delay, with_sched p last (now + delay)).
Proof.
  intros (H1 & H2 & H3 & H4) Hr last. unfold lsquic_packet_out_schedule_time. fold last in H1 |- *.
  destruct (Z.ltb_spec 0 (po_remained_time p)); cbn [andb];
    [|exists 0; rewrite Z.add_0_r; split_and!; try done; lia].
  destruct (_ <=? po_need_retrans_number p);
    [|exists 0; rewrite Z.add_0_r; split_and!; try done; lia].
  assert (i64 (po_remained_time p - (now - last)) = po_remained_time p - (now - last)) as ->.
  { unfold wraps. destruct (Z.lt_ge_cases (po_remained_time p - (now - last)) 0).
    - replace ((_) mod 2 ^ 64) with (po_remained_time p - (now - last) + 2 ^ 64)
        by (apply Z.mod_unique with (-1); lia). replace (_ <? _) with false by lia. lia.
    - rewrite Z.mod_small by lia. by replace (_ <? _) with true by lia. }
  destruct (Z.leb_spec (po_remained_time p - (now - last)) 0);
    [exists 0; rewrite Z.add_0_r; split_and!; try done; lia|].
  pose proof (Z.mod_pos_bound rnd (po_remained_time p - (now - last)) ltac:(lia)).
  eexists. rewrite (wrapu_id 64) by (unfold is_u; lia). split_and!; [| |reflexivity]; lia.
Qed.

(** Name the packet the goal schedules. *)
Ltac name_sched p1 :=
  match goal with
  | |- context [lsquic_packet_out_schedule_time ?q _ _ _] => set (p1 := q)
  end.

(** A running turn: [art_schedule] comes to the packet at the given times and
    duplicates it when it is due; the result counts the duplicates. *)
Fixpoint turn_steps (ctl : art_ctl) (p : art_packet) (min_rtt : Z) (ts : list (Z * Z))
    : option (Z * art_ctl * art_packet) :=
  match ts with
  | [] => Some (0, ctl, p)
  | (now, rnd) :: ts =>
      if art_due p now then
        '(ctl, p) ← art_handle_lost ctl p min_rtt now rnd;
        '(n, ctl, p) ← turn_steps ctl p min_rtt ts;
        Some (n + 1, ctl, p)
      else turn_steps ctl p min_rtt ts
  end.

(** Times that do not go back. *)
Fixpoint visits_from (t0 : Z) (ts : list (Z * Z)) : Prop :=
  match ts with [] => True | t :: ts => t0 <= t.1 < 2 ^ 62 /\ 0 <= t.2 /\ visits_from t.1 ts end.

(** The visits from time [d] on. *)
Definition late (d : Z) (ts : list (Z * Z)) : Z := Z.of_nat (length (filter (fun t => d <= t.1) ts)).

Definition in_turn (p : art_packet) : Prop :=
  po_fake_loss_rec p = 1 /\ po_loss_rec p = false /\ po_been_detect_loss p = 0.

Lemma dup_step ctl p min_rtt now rnd :
  in_turn p -> 0 <= po_retrans_packet_number p < 65535 ->
  times_ok p (po_last_lost_time p) now -> 0 <= rnd ->
  exists p', art_handle_lost ctl p min_rtt now rnd = Some (ctl, p') /\ in_turn p'
    /\ po_retrans_packet_number p' = po_retrans_packet_number p + 1
    /\ po_need_retrans_number p' = po_need_retrans_number p
    /\ po_retrans_times p' = po_retrans_times p /\ po_retrans_no p' = po_retrans_no p
    /\ po_last_lost_time p' = po_last_lost_time p /\ po_remained_time p' = po_remained_time p
    /\ now <= po_expected_sent p' <= Z.max now (po_last_lost_time p + po_remained_time p - 1).
Proof.
  intros (Hf & Hl & Hb) Hn Ht Hr. unfold art_handle_lost. rewrite Hf, Hl, Hb.
  cbn [Z.eqb negb andb mbind option_bind].
  rewrite wrapu_id by (unfold is_u; lia).
  name_sched p1. pose proof (schedule_bounds p1 false now rnd Ht Hr) as Hsch.
  destruct Hsch as (delay & Hd & Hmax & ->). subst p1. cbn in Hmax |- *.
  eexists. split; [reflexivity|]. unfold in_turn. cbn. split_and!; try done; lia.
Qed.

Lemma art_due_spec p now :
  in_turn p -> po_expected_sent p <= now -> 0 <= po_expected_sent p -> now < 2 ^ 62 ->
  art_due p now = (po_retrans_packet_number p <? po_need_retrans_number p).
Proof.
  intros (Hf & Hl & _) He H0 Hn. unfold art_due. rewrite Hf, Hl. cbn.
  assert ((i64 (po_expected_sent p - now) <=? 0) = true) as ->; [|by rewrite andb_true_r].
  unfold wraps. destruct (Z.eq_dec (po_expected_sent p) now) as [->|].
  - by rewrite Z.sub_diag.
  - replace ((po_expected_sent p - now) mod 2 ^ 64) with (po_expected_sent p - now + 2 ^ 64)
      by (apply Z.mod_unique with (-1); lia).
    replace (_ <? _) with false by lia. lia.
Qed.

Lemma turn_steps_ok ts : forall ctl p min_rtt t0,
  in_turn p -> 0 <= po_retrans_packet_number p <= 65535 -> 0 <= po_need_retrans_number p <= 65535 ->
  0 <= po_last_lost_time p <= t0 -> 0 <= po_remained_time p < 2 ^ 62 -> visits_from t0 ts ->
  0 <= po_expected_sent p <= Z.max t0 (po_last_lost_time p + po_remained_time p) ->
  let left := Z.max 0 (po_need_retrans_number p - po_retrans_packet_number p) in
  exists n p', turn_steps ctl p min_rtt ts = Some (n, ctl, p') /\ in_turn p'
    /\ po_retrans_packet_number p' = po_retrans_packet_number p + n
    /\ po_need_retrans_number p' = po_need_retrans_number p
    /\ 0 <= n <= left /\ Z.min (late (po_last_lost_time p + po_remained_time p) ts) left <= n.
Proof.
  induction ts as [|[now rnd] ts IH]; intros ctl p min_rtt t0 Hi Hn Hd Hl Hr Hv He left; cbn [turn_steps visits_from fst snd] in *.
  { exists 0, p. unfold late. cbn. split_and!; try done; lia. }
  destruct Hv as (Ht & Hrnd & Hv). set (D := po_last_lost_time p + po_remained_time p) in *.
  assert (Hlate : late D ((now, rnd) :: ts) = late D ts + (if D <=? now then 1 else 0)).
  { unfold late. rewrite filter_cons. cbn [fst]. destruct (Z.leb_spec D now); [rewrite decide_True by done; cbn [length]; lia|rewrite decide_False by lia; lia]. }
  destruct (art_due p now) eqn:Edue.
  - assert (Hlt : po_retrans_packet_number p < po_need_retrans_number p) by (unfold art_due in Edue; lia).
    destruct (dup_step ctl p min_rtt now rnd Hi ltac:(lia)) as (p1 & -> & Hi1 & E1 & E2 & E3 & E4 & E5 & E6 & Ex); [unfold times_ok; lia|done|].
    cbn [mbind option_bind]. destruct (IH ctl p1 min_rtt now) as (n & p2 & -> & Hi2 & F1 & F2 & F3 & F4); rewrite ?E1, ?E2, ?E5, ?E6; try done; try lia.
    rewrite E5, E6 in F4. rewrite E1, E2 in *. cbn [mbind option_bind]. exists (n + 1), p2. fold D in F4. rewrite Hlate. split_and!; try done; try lia.
    destruct (D <=? now); lia.
  - destruct (IH ctl p min_rtt now) as (n & p2 & -> & Hi2 & F1 & F2 & F3 & F4); try done; try lia. fold D in F4. fold left in F3, F4.
    exists n, p2. rewrite Hlate. split_and!; try done; try lia. destruct (Z.leb_spec D now); [|lia].
    rewrite (art_due_spec p now Hi) in Edue by lia. lia.
Qed.

(** * Properties *)

(** The feedback window is the last ten reports.  Whatever sequence of
    loss (1) and acknowledgement (0) reports of duplicates is recorded after
    initialisation, recording never fails while memory is available, the
    window holds exactly the last ten reports in order, and
    [sc_feedback_window_size] counts them. *)
Theorem art_feedback_window vs :
  exists ctl, record_all art_init vs = Some ctl
  /\ sc_feedback_window ctl = drop (length vs - 10) vs
  /\ sc_feedback_window_size ctl = Z.of_nat (Nat.min 10 (length vs)).
Proof.
  destruct (record_all_spec art_init [] vs) as (ctl & H1 & H2 & H3 & _); try done.
  exists ctl. split_and!; try done. rewrite H3. unfold window_spec. cbn [app].
  rewrite length_drop. lia.
Qed.

(** C24: The redundancy update is exact.  Although [art_duplicate_number]
    compares binary64 quotients, for every content of the feedback window and
    every table entry [r] from 1 to 64 it takes the decision of exact
    arithmetic: with [k] losses in [n] reports the entry grows when
    k/n > 1 - 1/r, shrinks when k/n <= 1 - 2/r, and stays otherwise; the
    result is returned and stored, and nothing else changes. *)
Theorem art_redundancy_exact ctl t r :
  window_ok ctl -> aget (sc_rounds_map ctl) t = Some r -> 1 <= r <= 64 ->
  let r' := adjust_spec (reports ctl) (Z.of_nat (losses (sc_feedback_window ctl))) r in
  art_duplicate_number ctl t =
    Some (r', ART (sc_feedback_window ctl) (sc_feedback_window_size ctl)
                  (sc_largest_feedback_window ctl)
                  (<[Z.to_nat t := r']> (sc_rounds_map ctl)) (sc_art_flag ctl)).
Proof.
  intros Hw Hg Hr. destruct (loss_rate_bounds ctl Hw) as [Hn Hk].
  unfold art_duplicate_number. rewrite Hg. cbn [mbind option_bind].
  rewrite loss_rate_spec, adjust_exact by done.
  by rewrite aset_ok by (by eapply aget_lt).
Qed.

Lemma art_redundancy_exact_witness :
  window_ok (ART [1; 0; 1] 3 10 [1; 3; 5] 1)
  /\ art_duplicate_number (ART [1; 0; 1] 3 10 [1; 3; 5] 1) 2
     = Some (5, ART [1; 0; 1] 3 10 [1; 3; 5] 1).
Proof.
  assert (window_ok (ART [1; 0; 1] 3 10 [1; 3; 5] 1)) as Hw by (split; [reflexivity|cbn; lia]).
  split; [exact Hw|]. apply (art_redundancy_exact (ART [1; 0; 1] 3 10 [1; 3; 5] 1) 2 5).
  - exact Hw.
  - reflexivity.
  - lia.
Defined.

(** Redundancy never dies out.  For every content of the window and every
    table entry from 1 up (below the largest unsigned), the number of
    duplicates [art_duplicate_number] returns is at least 1, so the fallback
    to 1 in the caller is not taken on a table entry that started positive. *)
Lemma art_redundancy_positive ctl t r :
  window_ok ctl -> aget (sc_rounds_map ctl) t = Some r -> 1 <= r < UINT_MAX ->
  exists r' ctl', art_duplicate_number ctl t = Some (r', ctl') /\ 1 <= r'
  /\ aget (sc_rounds_map ctl') t = Some r' /\ window_ok ctl'.
Proof.
  intros Hw Hg Hr. destruct (loss_rate_bounds ctl Hw) as [Hn Hk].
  unfold art_duplicate_number. rewrite Hg. cbn [mbind option_bind].
  rewrite loss_rate_spec by done. pose proof (aget_lt _ _ _ Hg) as Ht.
  rewrite aset_ok by done. cbn [mbind option_bind].
  eexists _, _. split; [reflexivity|]. split_and!; [by apply art_adjust_pos| |apply Hw..].
  cbn. by apply aget_insert_eq.
Qed.

(** C25: Redundancy settles.  While the window keeps reporting the same loss
    rate k/n below 1, repeating the update from any entry between 1 and 64
    reaches, after at most max(n - r, r - 1) updates, an entry [r] with
    n <= r * (n - k) < 2 * n (so that one to two of the [r] duplicates are
    expected to arrive) and further updates leave it there. *)
Theorem art_redundancy_settles n k r (m : nat) :
  1 <= n <= 10 -> 0 <= k < n -> 1 <= r <= 64 -> Z.max (n - r) (r - 1) <= Z.of_nat m ->
  let r' := Nat.iter m (art_adjust (rate n k)) r in
  settled n k r' /\ art_adjust (rate n k) r' = r'.
Proof.
  intros Hn Hk Hr Hm r'. destruct (iter_exact m n k r Hn Hk Hr) as [E Hb].
  assert (settled n k r') as Hs by (unfold r'; rewrite E; apply settle_iter; lia).
  split; [done|]. unfold r' in *. rewrite E in *. rewrite adjust_exact by lia.
  by apply adjust_settled.
Qed.

Lemma art_redundancy_settles_witness :
  settled 10 5 (Nat.iter 8 (art_adjust (rate 10 5)) 9)
  /\ art_adjust (rate 10 5) (Nat.iter 8 (art_adjust (rate 10 5)) 9)
     = Nat.iter 8 (art_adjust (rate 10 5)) 9.
Proof. apply (art_redundancy_settles 10 5 9 8); lia. Defined.

(** C26: A turn of duplicates, the first or a later one.  When loss of a packet with
    STREAM data is detected (it is in no turn yet, or the loss detection has marked it)
    and its round has an entry [r] in the table, the packet starts a new turn that asks
    for [u16 r'] duplicates, where [r'] is the updated entry (at least 1) and 16 bits are
    stored; the first is scheduled within the minimum RTT after the loss.  The source
    does not reset [po_retrans_packet_number] at that point, so that it counts the
    duplicates of earlier turns too, against the comment in lsquic_packet_out.h: with
    [c] of them at the start, the turn makes at most [u16 r' - c] duplicates, none if
    that is negative.  It makes exactly so many once [art_schedule] has come to the
    packet that often from the loss plus the minimum RTT on; then the packet is no
    longer due at any time.  The table is not touched during the turn.  For [c = 0], as in the
    first turn and after the loss of an earlier copy, this is the number asked for. *)
Theorem art_turn ctl p min_rtt now rnd r ts :
  po_loss_rec p = false -> po_fake_loss_rec p = 0 \/ po_been_detect_loss p <> 0 -> sc_art_flag ctl <> 0 ->
  0 <= po_retrans_times p < 65535 -> 0 <= po_retrans_packet_number p <= 65535 ->
  window_ok ctl -> aget (sc_rounds_map ctl) (po_retrans_times p + 1) = Some r -> 1 <= r < UINT_MAX ->
  0 <= now < 2 ^ 62 -> 0 < min_rtt < 2 ^ 62 -> 0 <= rnd -> visits_from now ts ->
  exists ctl1 p1 p2 r' n,
    art_handle_lost ctl p min_rtt now rnd = Some (ctl1, p1)
    /\ 1 <= r' /\ aget (sc_rounds_map ctl1) (po_retrans_times p + 1) = Some r'
    /\ po_retrans_times p1 = po_retrans_times p + 1
    /\ po_need_retrans_number p1 = u16 r'
    /\ now <= po_expected_sent p1 < now + min_rtt
    /\ turn_steps ctl1 p1 min_rtt ts = Some (n, ctl1, p2)
    /\ po_retrans_packet_number p2 = po_retrans_packet_number p + n
    /\ let left := Z.max 0 (u16 r' - po_retrans_packet_number p) in
       0 <= n <= left /\ Z.min (late (now + min_rtt) ts) left <= n
       /\ (n = left -> forall t, art_due p2 t = false)
       /\ (n < left -> forall t, po_expected_sent p2 <= t -> 0 <= po_expected_sent p2 -> t < 2 ^ 62 -> art_due p2 t = true).
Proof.
  intros Hl Hf Ha Ht H0 Hw Hg Hr Hnow Hrtt Hrnd Hall.
  assert (Hnew : negb (po_fake_loss_rec p =? 0) && negb (po_loss_rec p) && (po_been_detect_loss p =? 0) = false).
  { rewrite Hl. destruct (Z.eqb_spec (po_fake_loss_rec p) 0), (Z.eqb_spec (po_been_detect_loss p) 0); cbn; lia. }
  unfold art_handle_lost. rewrite Hnew. replace (sc_art_flag ctl =? 0) with false by lia.
  rewrite (wrapu_id 16 (po_retrans_times p + 1)) by (unfold is_u; lia).
  unfold art_duplicate_number. rewrite Hg. cbn [mbind option_bind].
  pose proof (aget_lt _ _ _ Hg) as Hi. rewrite aset_ok by done. cbn [mbind option_bind].
  rewrite (loss_rate_spec ctl Hw).
  destruct (loss_rate_bounds ctl Hw) as [Hn Hk].
  pose proof (art_adjust_pos _ _ r Hn Hk Hr) as Hpos.
  set (r' := art_adjust _ r) in *. replace (0 <? r') with true by lia.
  name_sched p0. assert (times_ok p0 now now) as Htimes by (unfold times_ok; cbn; lia).
  pose proof (schedule_bounds p0 true now rnd Htimes Hrnd) as Hsch.
  destruct Hsch as (delay & Hdel & Hmax & ->). subst p0. cbn in Hmax |- *.
  set (ctl1 := ART _ _ _ _ _). set (p1 := AP _ _ _ _ _ _ _ _ _ _ _). pose proof (wrapu_range 16 r' ltac:(lia)) as Hu. unfold is_u in Hu.
  destruct (turn_steps_ok ts ctl1 p1 min_rtt now) as (n & p2 & Hd & Hi2 & E1 & E2 & E3 & E4); cbn; try done; try lia.
  exists ctl1, p1, p2, r', n. cbn zeta. cbn in E1, E2, E3, E4. split_and!; try done; cbn; try lia.
  - by apply aget_insert_eq.
  - intros En t. destruct Hi2 as (F1 & F2 & _). unfold art_due. rewrite F1, F2, E1, E2. cbn [Z.eqb negb andb].
    replace (_ <? _) with false by lia. done.
  - intros Hlt t Ht1 Ht2 Ht3. rewrite art_due_spec by done. rewrite E1, E2. lia.
Qed.

(** The third turn of a packet that was duplicated once: three duplicates are asked for,
    two are made. *)
Lemma art_turn_witness :
  exists ctl1 p1 p2,
    art_handle_lost (ART [] 0 10 [1; 1; 1; 4] 1) (AP 7 2 1 1 0 0 0 7 1 1 false) 100 1000 42 = Some (ctl1, p1)
    /\ po_need_retrans_number p1 = 3
    /\ turn_steps ctl1 p1 100 [(1050, 3); (1100, 0); (1200, 0); (1300, 0); (1400, 0)] = Some (2, ctl1, p2)
    /\ forall t, art_due p2 t = false.
Proof.
  destruct (art_turn (ART [] 0 10 [1; 1; 1; 4] 1) (AP 7 2 1 1 0 0 0 7 1 1 false) 100 1000 42 4 [(1050, 3); (1100, 0); (1200, 0); (1300, 0); (1400, 0)])
    as (ctl1 & p1 & p2 & r' & n & H1 & H2 & H3 & _ & H5 & _ & H7 & _ & H9 & H10 & H11 & _).
  - reflexivity.
  - right. discriminate.
  - discriminate.
  - cbn. lia.
  - cbn. lia.
  - split; [reflexivity|cbn; lia].
  - reflexivity.
  - unfold UINT_MAX. lia.
  - lia.
  - lia.
  - lia.
  - cbn. lia.
  - assert (E : aget (sc_rounds_map ctl1) 3 = Some 3) by (vm_compute in H1; injection H1 as <- _; reflexivity).
    cbn [po_retrans_times] in H3. change (2 + 1) with 3 in H3. rewrite E in H3. injection H3 as <-. exists ctl1, p1, p2.
    change (Z.max 0 (u16 3 - po_retrans_packet_number (AP 7 2 1 1 0 0 0 7 1 1 false))) with 2 in *.
    change (late (1000 + 100) [(1050, 3); (1100, 0); (1200, 0); (1300, 0); (1400, 0)]) with 4 in H10.
    assert (n = 2) as -> by lia. split; [exact H1|]. split; [exact H5|]. split; [exact H7|]. apply H11. reflexivity.
Defined.
