(* ===== verification/Frames.v ===== *)
(** Frames of IETF QUIC v1: the generators, parsers and size functions of
    lsquic_parse_ietf_v1.c (the ACK frame is in Ack.v, packet headers are in
    Headers.v).

    A generator gets the size of the output buffer and returns the bytes it
    writes at its start ([GOk], whose length is the C return value) or a
    negative code ([GErr]).  A parser gets the bytes from [buf] to the end of
    the buffer and returns the number of bytes used together with the values
    written through its pointer arguments ([POk]) or a negative code
    ([PErr]).  A failed assertion is [None]. *)
From S2P Require Import Prelude Varint.
Local Open Scope Z_scope.

Inductive gres := GErr (code : Z) | GOk (bytes : list Z).

Inductive pres (A : Type) := PErr (code : Z) | POk (used : Z) (val : A).
Arguments PErr {A} _.
Arguments POk {A} _ _.

Definition blen (l : list Z) : Z := Z.of_nat (length l).

(** [p - buf] when [rest] is what is left of [buf] from [p] on. *)
Definition used (buf rest : list Z) : Z := blen buf - blen rest.

(** [r = vint_read(p, end, &v); if (r < 0) return err; p += r;] *)
Definition vread {A} (p : list Z) (err : Z) (k : Z -> list Z -> pres A) : pres A :=
  match lsquic_varint_read p with
  | None => PErr err
  | Some (r, v) => k v (drop (Z.to_nat r) p)
  end.

(** [vint_write(p, val, vint_val2bits(val), 1 << vint_val2bits(val))] *)
Definition vint (val : Z) : list Z := vint_write val (vint_val2bits val) (vint_size val).

(** ** Frame types *)

Inductive quic_frame_type :=
  | QUIC_FRAME_INVALID | QUIC_FRAME_STREAM | QUIC_FRAME_ACK | QUIC_FRAME_PADDING
  | QUIC_FRAME_RST_STREAM | QUIC_FRAME_CONNECTION_CLOSE | QUIC_FRAME_GOAWAY
  | QUIC_FRAME_WINDOW_UPDATE | QUIC_FRAME_BLOCKED | QUIC_FRAME_STOP_WAITING
  | QUIC_FRAME_PING | QUIC_FRAME_MAX_DATA | QUIC_FRAME_MAX_STREAM_DATA
  | QUIC_FRAME_MAX_STREAMS | QUIC_FRAME_STREAM_BLOCKED | QUIC_FRAME_STREAMS_BLOCKED
  | QUIC_FRAME_NEW_CONNECTION_ID | QUIC_FRAME_STOP_SENDING | QUIC_FRAME_PATH_CHALLENGE
  | QUIC_FRAME_PATH_RESPONSE | QUIC_FRAME_CRYPTO | QUIC_FRAME_RETIRE_CONNECTION_ID
  | QUIC_FRAME_NEW_TOKEN | QUIC_FRAME_HANDSHAKE_DONE | QUIC_FRAME_ACK_FREQUENCY
  | QUIC_FRAME_TIMESTAMP | QUIC_FRAME_DATAGRAM.

#[export] Instance quic_frame_type_eq : EqDecision quic_frame_type.
Proof. solve_decision. Defined.

Definition lsquic_iquic_byte2type : list quic_frame_type :=
  [ QUIC_FRAME_PADDING; QUIC_FRAME_PING; QUIC_FRAME_ACK; QUIC_FRAME_ACK;
    QUIC_FRAME_RST_STREAM; QUIC_FRAME_STOP_SENDING; QUIC_FRAME_CRYPTO; QUIC_FRAME_NEW_TOKEN ]
  ++ replicate 8 QUIC_FRAME_STREAM
  ++ [ QUIC_FRAME_MAX_DATA; QUIC_FRAME_MAX_STREAM_DATA; QUIC_FRAME_MAX_STREAMS;
       QUIC_FRAME_MAX_STREAMS; QUIC_FRAME_BLOCKED; QUIC_FRAME_STREAM_BLOCKED;
       QUIC_FRAME_STREAMS_BLOCKED; QUIC_FRAME_STREAMS_BLOCKED;
       QUIC_FRAME_NEW_CONNECTION_ID; QUIC_FRAME_RETIRE_CONNECTION_ID;
       QUIC_FRAME_PATH_CHALLENGE; QUIC_FRAME_PATH_RESPONSE; QUIC_FRAME_CONNECTION_CLOSE;
       QUIC_FRAME_CONNECTION_CLOSE; QUIC_FRAME_HANDSHAKE_DONE ]
  ++ replicate 17 QUIC_FRAME_INVALID
  ++ [ QUIC_FRAME_DATAGRAM; QUIC_FRAME_DATAGRAM ]
  ++ replicate 14 QUIC_FRAME_INVALID.

Definition FRAME_TYPE_ACK_FREQUENCY : Z := 0xAF.
Definition FRAME_TYPE_TIMESTAMP : Z := 0x2F5.

Definition ietf_v1_parse_frame_type (buf : list Z) : quic_frame_type :=
  let by_varint :=
    match lsquic_varint_read buf with
    | Some (s, val) =>
        if (0 <? s) && (s =? Z.shiftl 1 (vint_val2bits val)) then
          if val =? FRAME_TYPE_ACK_FREQUENCY then QUIC_FRAME_ACK_FREQUENCY
          else if val =? FRAME_TYPE_TIMESTAMP then QUIC_FRAME_TIMESTAMP
          else QUIC_FRAME_INVALID
        else QUIC_FRAME_INVALID
    | None => QUIC_FRAME_INVALID
    end in
  match buf with
  | b :: _ => if b <? 0x40 then default QUIC_FRAME_INVALID (aget lsquic_iquic_byte2type b)
              else by_varint
  | [] => by_varint
  end.

(** ** STREAM and CRYPTO frames *)

Record stream_frame := SF {
  sf_stream_id : Z;
  sf_fin : Z;
  sf_offset : Z;
  sf_size : Z;               (* uint16_t *)
  sf_data_off : Z            (* df_data - buf *)
}.

(** The reader of stream data: for the size requested, the bytes it stores and
    the FIN flag it leaves behind. *)
Definition gsf_read_f := Z -> list Z * bool.

Definition sframe_head (olen dlen fin : bool) : Z :=
  Z.lor (Z.lor (Z.lor 0x08 (Z.shiftl (b2z olen) 2)) (Z.shiftl (b2z dlen) 1)) (b2z fin).

Definition ietf_v1_gen_stream_frame (buf_len stream_id offset : Z) (fin : bool) (size : Z)
    (gsf_read : gsf_read_f) : option gres :=
  if negb (fin || negb (size =? 0)) then None else
  let sbits := vint_val2bits stream_id in
  let slen := Z.shiftl 1 sbits in
  let obits := vint_val2bits offset in
  let olen := if offset =? 0 then 0 else Z.shiftl 1 obits in
  let obytes := if olen =? 0 then [] else vint_write offset obits olen in
  if negb fin then
    let n_avail := u32 (buf_len - (1 + slen + olen)) in
    let dbits := vint_val2bits size in
    let '(dlen, size) :=
      if size <? n_avail then
        let dlen := Z.shiftl 1 dbits in
        let n_avail := u32 (n_avail - dlen) in
        (dlen, if n_avail <? size then n_avail else size)
      else (0, n_avail) in
    if buf_len <? 1 + olen + slen + dlen + 1
    then Some (GErr (- (1 + olen + slen + dlen + 1))) else
    let '(data, fin) := gsf_read size in
    let nr := blen data in
    if nr =? 0 then Some (GOk [])
    else if negb (nr <=? size) then None
    else Some (GOk ([sframe_head (negb (olen =? 0)) (negb (dlen =? 0)) fin]
                    ++ vint_write stream_id sbits slen ++ obytes
                    ++ (if dlen =? 0 then [] else vint_write nr dbits dlen) ++ data))
  else
    let dlen := b2z (1 + slen + olen <? buf_len) in
    if buf_len <? 1 + slen + olen + dlen then Some (GErr (- (1 + slen + olen + dlen))) else
    Some (GOk ([sframe_head (negb (olen =? 0)) (negb (dlen =? 0)) fin]
               ++ vint_write stream_id sbits slen ++ obytes
               ++ (if dlen =? 0 then [] else [0]))).

(** [ietf_v1_parse_stream_frame] from the length field on. *)
Definition parse_stream_data (buf : list Z) (type stream_id offset : Z) (p : list Z)
    : pres stream_frame :=
  let finish := fun data_sz p =>
    if VINT_MAX_VALUE - offset <? data_sz then PErr (-1) else
    POk (used buf p + data_sz)
        (SF stream_id (Z.land type 0x1) offset (u16 data_sz) (used buf p)) in
  if has_flag type 0x2 then
    vread p (-1) (fun data_sz p =>
    if blen p <? data_sz then PErr (-1) else finish data_sz p)
  else finish (blen p) p.

Definition ietf_v1_parse_stream_frame (buf : list Z) : pres stream_frame :=
  match buf with
  | [] => PErr (-1)
  | type :: p =>
    vread p (-1) (fun stream_id p =>
    if has_flag type 0x4 then vread p (-1) (parse_stream_data buf type stream_id)
    else parse_stream_data buf type stream_id 0 p)
  end.

(** Rewrites the length field in place; the result is the return value and the
    bytes. *)
Definition ietf_v1_dec_stream_frame_size (p : list Z) (new_size : Z) : option (Z * list Z) :=
  type ← aget p 0;
  if negb (has_flag type 0x2) then Some (1, p) else
  b ← aget p 1;
  let i := 1 + Z.shiftl 1 (Z.shiftr b 6) in
  i ← (if has_flag type 0x4 then b ← aget p i; Some (i + Z.shiftl 1 (Z.shiftr b 6)) else Some i);
  b ← aget p i;
  let bits := Z.shiftr b 6 in
  let len := Z.shiftl 1 bits in
  if blen p <? i + len then None else
  Some (0, take (Z.to_nat i) p ++ vint_write new_size bits len ++ drop (Z.to_nat (i + len)) p).

Definition ietf_v1_turn_on_fin (p : list Z) : option (list Z) :=
  b ← aget p 0; aset p 0 (Z.lor b 1).

Definition ietf_v1_calc_stream_frame_header_sz (stream_id offset data_sz : Z) : Z :=
  if negb (offset =? 0)
  then 1 + Z.shiftl 1 (vint_val2bits stream_id) + Z.shiftl 1 (vint_val2bits data_sz)
       + Z.shiftl 1 (vint_val2bits offset)
  else 1 + Z.shiftl 1 (vint_val2bits data_sz) + Z.shiftl 1 (vint_val2bits stream_id).

Definition lsquic_ietf_v1_gen_crypto_frame (first_byte buf_len offset size : Z)
    (gsf_read : gsf_read_f) : option gres :=
  let obits := vint_val2bits offset in
  let olen := Z.shiftl 1 obits in
  let dbits := vint_val2bits size in
  let dlen := Z.shiftl 1 dbits in
  if buf_len <? 1 + olen + dlen + b2z (0 <? dlen) then Some (GErr (-1)) else
  let n_avail := buf_len - 1 - olen - dlen in
  let size := if n_avail <? size then n_avail else size in
  let '(data, _) := gsf_read size in
  let nr := blen data in
  if nr =? 0 then None
  else if negb (nr <=? size) then None
  else Some (GOk ([first_byte] ++ vint_write offset obits olen
                  ++ vint_write nr dbits dlen ++ data)).

Definition ietf_v1_gen_crypto_frame (buf_len offset size : Z) (gsf_read : gsf_read_f)
    : option gres :=
  lsquic_ietf_v1_gen_crypto_frame 0x6 buf_len offset size gsf_read.

Definition lsquic_ietf_v1_parse_crypto_frame (buf : list Z) : pres stream_frame :=
  match buf with
  | [] => PErr (-1)
  | _ :: p =>
    vread p (-1) (fun offset p =>
    vread p (-1) (fun data_sz p =>
    if blen p <? data_sz then PErr (-1)
    else if VINT_MAX_VALUE - offset <? data_sz then PErr (-1)
    else POk (used buf p + data_sz)
             (SF (2 ^ 64 - 1) 0 offset (u16 data_sz) (used buf p))))
  end.

Definition ietf_v1_parse_crypto_frame (buf : list Z) : option (pres stream_frame) :=
  match buf with
  | [] => Some (PErr (-1))
  | b :: _ => if b =? 0x06 then Some (lsquic_ietf_v1_parse_crypto_frame buf) else None
  end.

Definition ietf_v1_calc_crypto_frame_header_sz (offset data_sz : Z) : Z :=
  1 + Z.shiftl 1 (vint_val2bits offset) + Z.shiftl 1 (vint_val2bits data_sz).

(** ** RESET_STREAM, STOP_SENDING *)

Definition ietf_v1_rst_frame_size (stream_id error_code final_size : Z) : Z :=
  1 + vint_size stream_id + vint_size error_code + vint_size final_size.

Definition ietf_v1_gen_rst_frame (buf_len stream_id final_size error_code : Z) : gres :=
  if buf_len <? ietf_v1_rst_frame_size stream_id error_code final_size then GErr (-1)
  else GOk ([0x04] ++ vint stream_id ++ vint error_code ++ vint final_size).

(** stream_id, final_size, error_code *)
Definition ietf_v1_parse_rst_frame (buf : list Z) : pres (Z * Z * Z) :=
  vread (tail buf) (-1) (fun stream_id p =>
  vread p (-1) (fun error_code p =>
  vread p (-1) (fun final_size p =>
  POk (used buf p) (stream_id, final_size, error_code)))).

Definition ietf_v1_parse_stop_sending_frame (buf : list Z) : pres (Z * Z) :=
  vread (tail buf) (-1) (fun stream_id p =>
  vread p (-1) (fun error_code p =>
  POk (used buf p) (stream_id, error_code))).

(** ** Frames of one and two varints *)

Definition ietf_v1_parse_one_varint (buf : list Z) : pres Z :=
  vread (tail buf) (-1) (fun val p => POk (used buf p) val).

Definition ietf_v1_gen_one_varint (len type val : Z) : gres :=
  if len <? 1 + Z.shiftl 1 (vint_val2bits val) then GErr (-1)
  else GOk ([type] ++ vint val).

Definition ietf_v1_two_varints_size (v0 v1 : Z) : Z :=
  1 + Z.shiftl 1 (vint_val2bits v0) + Z.shiftl 1 (vint_val2bits v1).

Definition ietf_v1_gen_two_varints (len type v0 v1 : Z) : gres :=
  if len <? 1 + Z.shiftl 1 (vint_val2bits v0) + Z.shiftl 1 (vint_val2bits v1) then GErr (-1)
  else GOk ([type] ++ vint v0 ++ vint v1).

Definition ietf_v1_parse_two_varints (buf : list Z) : pres (Z * Z) :=
  if blen buf <? 2 then PErr (-1) else
  vread (tail buf) (-1) (fun v0 p => vread p (-1) (fun v1 p => POk (used buf p) (v0, v1))).

Inductive stream_dir := SD_BIDI | SD_UNI.

Definition sd_uni (sd : stream_dir) : Z := match sd with SD_UNI => 1 | SD_BIDI => 0 end.

Definition ietf_v1_gen_stop_sending_frame (len stream_id error_code : Z) : gres :=
  ietf_v1_gen_two_varints len 0x05 stream_id error_code.
Definition ietf_v1_stop_sending_frame_size (val error_code : Z) : Z :=
  1 + vint_size val + vint_size error_code.

Definition ietf_v1_gen_blocked_frame (buf_len off : Z) : gres :=
  ietf_v1_gen_one_varint buf_len 0x14 off.
Definition ietf_v1_parse_blocked_frame (buf : list Z) : pres Z := ietf_v1_parse_one_varint buf.
Definition ietf_v1_blocked_frame_size (off : Z) : Z := 1 + vint_size off.

Definition ietf_v1_parse_max_data (buf : list Z) : pres Z := ietf_v1_parse_one_varint buf.
Definition ietf_v1_gen_max_data_frame (len val : Z) : gres := ietf_v1_gen_one_varint len 0x10 val.
Definition ietf_v1_max_data_frame_size (val : Z) : Z := 1 + vint_size val.

Definition ietf_v1_parse_retire_cid_frame (buf : list Z) : pres Z := ietf_v1_parse_one_varint buf.
Definition ietf_v1_gen_retire_cid_frame (len val : Z) : gres := ietf_v1_gen_one_varint len 0x19 val.
Definition ietf_v1_retire_cid_frame_size (val : Z) : Z := 1 + vint_size val.

Definition ietf_v1_parse_stream_blocked_frame (buf : list Z) : pres (Z * Z) :=
  ietf_v1_parse_two_varints buf.
Definition ietf_v1_stream_blocked_frame_size (stream_id off : Z) : Z :=
  ietf_v1_two_varints_size stream_id off.
Definition ietf_v1_gen_stream_blocked_frame (len stream_id off : Z) : gres :=
  ietf_v1_gen_two_varints len 0x15 stream_id off.

Definition ietf_v1_gen_streams_blocked_frame (len : Z) (sd : stream_dir) (limit : Z) : gres :=
  ietf_v1_gen_one_varint len (0x16 + sd_uni sd) limit.
Definition ietf_v1_parse_streams_blocked_frame (buf : list Z) : pres (stream_dir * Z) :=
  match ietf_v1_parse_one_varint buf with
  | PErr c => PErr c
  | POk s limit =>
      POk s ((if match buf with b :: _ => b =? 0x16 | [] => false end then SD_BIDI else SD_UNI),
             limit)
  end.
Definition ietf_v1_streams_blocked_frame_size (limit : Z) : Z := 1 + vint_size limit.

Definition ietf_v1_gen_max_stream_data_frame (len stream_id off : Z) : gres :=
  ietf_v1_gen_two_varints len 0x11 stream_id off.
Definition ietf_v1_max_stream_data_frame_size (stream_id off : Z) : Z :=
  ietf_v1_two_varints_size stream_id off.
Definition ietf_v1_parse_max_stream_data_frame (buf : list Z) : pres (Z * Z) :=
  ietf_v1_parse_two_varints buf.

Definition ietf_v1_parse_max_streams_frame (buf : list Z) : pres (stream_dir * Z) :=
  match ietf_v1_parse_one_varint buf with
  | PErr c => PErr c
  | POk s max_streams =>
      POk s ((if match buf with b :: _ => b =? 0x12 | [] => false end then SD_BIDI else SD_UNI),
             max_streams)
  end.
Definition ietf_v1_gen_max_streams_frame (len : Z) (sd : stream_dir) (limit : Z) : gres :=
  ietf_v1_gen_one_varint len (0x12 + sd_uni sd) limit.
Definition ietf_v1_max_streams_frame_size (limit : Z) : Z := 1 + vint_size limit.

(** ** Frames of a type and several varints *)

(** [vals] begins with the frame type; [assert(n > 0)]. *)
Definition ietf_v1_frame_with_varints_size (vals : list Z) : option Z :=
  match vals with
  | [] => None
  | v :: vs => Some (foldr (fun v sz => Z.shiftl 1 (vint_val2bits v) + sz)
                           (Z.shiftl 1 (vint_val2bits v)) vs)
  end.

Definition ietf_v1_gen_frame_with_varints (len : Z) (vals : list Z) : option gres :=
  sz ← ietf_v1_frame_with_varints_size vals;
  Some (if len <? sz then GErr (-1) else GOk (concat (map vint vals))).

(** The loop of [ietf_v1_parse_frame_with_varints]: [count] varints from [p]. *)
Fixpoint parse_varints {A} (count : nat) (p : list Z) (k : list Z -> list Z -> pres A) : pres A :=
  match count with
  | O => k [] p
  | S count => vread p (-1) (fun v p => parse_varints count p (fun vs p => k (v :: vs) p))
  end.

Definition ietf_v1_parse_frame_with_varints (buf : list Z) (frame_type : Z) (count : nat)
    : pres (list Z) :=
  let sz := Z.shiftl 1 (vint_val2bits frame_type) in
  parse_varints count (drop (Z.to_nat sz) buf) (fun vs p => POk (used buf p) vs).

(** seqno, pack_tol, upd_mad, ignore *)
Definition ietf_v1_gen_ack_frequency_frame (buf_len seqno pack_tol upd_mad : Z) (ignore : bool)
    : option gres :=
  g ← ietf_v1_gen_frame_with_varints buf_len [FRAME_TYPE_ACK_FREQUENCY; seqno; pack_tol; upd_mad];
  Some (match g with
        | GOk bs => if (0 <? blen bs) && (blen bs <? buf_len)
                    then GOk (bs ++ [b2z ignore]) else GErr (-1)
        | GErr _ => GErr (-1)
        end).

Definition ietf_v1_parse_ack_frequency_frame (buf : list Z) : pres (list Z * Z) :=
  match ietf_v1_parse_frame_with_varints buf FRAME_TYPE_ACK_FREQUENCY 3 with
  | POk sz vs =>
      match aget buf sz with
      | Some b => if (0 <? sz) && (b <? 2) then POk (sz + 1) (vs, b) else PErr (-1)
      | None => PErr (-1)
      end
  | PErr _ => PErr (-1)
  end.

Definition ietf_v1_ack_frequency_frame_size (seqno pack_tol upd_mad : Z) : option Z :=
  sz ← ietf_v1_frame_with_varints_size [FRAME_TYPE_ACK_FREQUENCY; seqno; pack_tol; upd_mad];
  Some (1 + sz).

Definition ietf_v1_gen_timestamp_frame (buf_len timestamp : Z) : option gres :=
  ietf_v1_gen_frame_with_varints buf_len [FRAME_TYPE_TIMESTAMP; timestamp].
Definition ietf_v1_parse_timestamp_frame (buf : list Z) : pres (list Z) :=
  ietf_v1_parse_frame_with_varints buf FRAME_TYPE_TIMESTAMP 1.

(** ** NEW_TOKEN, NEW_CONNECTION_ID *)

Definition MAX_CID_LEN : Z := 20.
Definition IQUIC_SRESET_TOKEN_SZ : Z := 16.

(** The token's offset in [buf] and its size. *)
Definition ietf_v1_parse_new_token_frame (buf : list Z) : pres (Z * Z) :=
  vread (tail buf) (-1) (fun token_size p =>
  if blen p <? token_size then PErr (-1)
  else POk (used buf p + token_size) (used buf p, token_size)).

Definition ietf_v1_new_token_frame_size (token_sz : Z) : Z :=
  1 + Z.shiftl 1 (vint_val2bits token_sz) + token_sz.

Definition ietf_v1_gen_new_token_frame (buf_sz : Z) (token : list Z) : gres :=
  let token_sz := blen token in
  if buf_sz <? 1 + Z.shiftl 1 (vint_val2bits token_sz) + token_sz then GErr (-1)
  else GOk ([0x07] ++ vint token_sz ++ token).

(** seqno, retire_prior_to, the CID and the offset of the reset token *)
Definition ietf_v1_parse_new_conn_id (buf : list Z) : pres (Z * Z * list Z * Z) :=
  vread (tail buf) (-1) (fun seqno p =>
  vread p (-1) (fun retire_prior_to p =>
  match p with
  | [] => PErr (-1)
  | cid_len :: p =>
    if (cid_len =? 0) || (MAX_CID_LEN <? cid_len) then PErr (-2)
    else if u32 (blen p) <? cid_len + IQUIC_SRESET_TOKEN_SZ then PErr (-1)
    else let q := drop (Z.to_nat cid_len) p in
         POk (used buf q + IQUIC_SRESET_TOKEN_SZ)
             (seqno, retire_prior_to, take (Z.to_nat cid_len) p, used buf q)
  end)).

Definition ietf_v1_new_connection_id_frame_size (seqno scid_len : Z) : Z :=
  1 + Z.shiftl 1 (vint_val2bits seqno) + 1 + 1 + scid_len + IQUIC_SRESET_TOKEN_SZ.

Definition ietf_v1_gen_new_connection_id_frame (buf_sz seqno : Z) (cid token : list Z) : gres :=
  if buf_sz <? ietf_v1_new_connection_id_frame_size seqno (blen cid) then GErr (-1)
  else GOk ([0x18] ++ vint seqno ++ [0] ++ [blen cid] ++ cid ++ token).

(** ** PING, HANDSHAKE_DONE, path validation *)

Definition ietf_v1_gen_ping_frame (buf_len : Z) : gres :=
  if 0 <? buf_len then GOk [0x01] else GErr (-1).

Definition ietf_v1_gen_handshake_done_frame (buf_len : Z) : gres :=
  if 0 <? buf_len then GOk [0x1E] else GErr (-1).

Definition ietf_v1_parse_handshake_done_frame (buf : list Z) : option (pres unit) :=
  match buf with
  | b :: _ => if b =? 0x1E then Some (POk 1 tt) else None
  | [] => None
  end.

(** The bytes [memcpy] sees of a 64-bit integer on a little-endian host. *)
Definition le64 (x : Z) : list Z := rev (be_bytes 8 x).
Definition of_le64 (l : list Z) : Z := be_val (rev l).

Definition ietf_v1_gen_path_chal_frame (len chal : Z) : gres :=
  if 1 + 8 <=? len then GOk ([0x1A] ++ le64 chal) else GErr (-1).

Definition ietf_v1_parse_path_chal_frame (buf : list Z) : pres Z :=
  if 9 <=? blen buf then POk 9 (of_le64 (take 8 (tail buf))) else PErr (-1).

Definition ietf_v1_gen_path_resp_frame (len resp : Z) : gres :=
  if 1 + 8 <=? len then GOk ([0x1B] ++ le64 resp) else GErr (-1).

Definition ietf_v1_parse_path_resp_frame (buf : list Z) : pres Z :=
  ietf_v1_parse_path_chal_frame buf.

(** ** CONNECTION_CLOSE *)

Definition ietf_v1_connect_close_frame_size (app_error : bool) (error_code frame_type reason_len : Z) : Z :=
  1 + Z.shiftl 1 (vint_val2bits error_code)
  + (if app_error then 0 else Z.shiftl 1 (vint_val2bits frame_type))
  + Z.shiftl 1 (vint_val2bits reason_len) + reason_len.

Definition ietf_v1_gen_connect_close_frame (buf_len : Z) (app_error : bool) (error_code : Z)
    (reason : list Z) : option gres :=
  let reason_len := blen reason in
  let needed := 1 + Z.shiftl 1 (vint_val2bits error_code) + (if app_error then 0 else 1)
                + Z.shiftl 1 (vint_val2bits reason_len) + reason_len in
  if buf_len <? needed then Some (GErr (-1)) else
  let bs := [0x1C + b2z app_error] ++ vint error_code ++ (if app_error then [] else [0])
            ++ vint reason_len ++ reason in
  if blen bs =? needed then Some (GOk bs) else None.

(** app_error, error_code, reason_len (uint16_t), reason_offset (uint8_t) *)
Definition ietf_v1_parse_connect_close_frame (buf : list Z) : pres (bool * Z * Z * Z) :=
  vread (tail buf) (-1) (fun error_code p =>
  let app_error := match buf with b :: _ => b =? 0x1D | [] => false end in
  let reason := fun p =>
    vread p (-1) (fun len p =>
    if UINT16_MAX <? len then PErr (-1) else
    let off := used buf p in
    if blen buf <? off + len then PErr (-2)
    else POk (off + len) (app_error, error_code, u16 len, u8 off)) in
  if app_error then reason p else vread p (-1) (fun _ p => reason p)).

(** ** DATAGRAM *)

Definition ietf_v1_datagram_frame_size (sz : Z) : Z := 1 + vint_size sz + sz.

(** The user's callback gets the space it may fill and returns the bytes it
    wrote, or no bytes for a negative result. *)
Definition ietf_v1_gen_datagram_frame (bufsz min_sz max_sz : Z) (cb : Z -> option (list Z)) : gres :=
  let bits := if negb (min_sz =? 0) then vint_val2bits min_sz else vint_val2bits bufsz in
  let len_sz := Z.shiftl 1 bits in
  if bufsz <? 1 + len_sz + min_sz then GErr (-1) else
  match cb (if negb (min_sz =? 0) then min_sz else Z.min (bufsz - 1 - len_sz) max_sz) with
  | Some data => GOk ([0x31] ++ vint_write (blen data) bits len_sz ++ data)
  | None => GErr (-1)
  end.

(** The data's offset in [buf] and its length. *)
Definition ietf_v1_parse_datagram_frame (buf : list Z) : option (pres (Z * Z)) :=
  match buf with
  | [] => None
  | b :: p =>
    if negb ((b =? 0x30) || (b =? 0x31)) then None else
    Some (if has_flag b 1 then
            vread p (-1) (fun len q =>
            if used buf q + len <=? blen buf then POk (used buf q + len) (used buf q, len)
            else PErr (-1))
          else POk (blen buf) (1, blen buf - 1))
  end.
