(* ===== verification/FramesThms.v ===== *)
(** Round trips of the frames of Frames.v: what a generator writes, the parser
    of its frame type reads back, and the size functions are exact. *)
From S2P Require Import Prelude Varint Frames.
Local Open Scope Z_scope.

(** ** Reading back one varint *)

Definition vint_ok (v : Z) : Prop := 0 <= v <= VINT_MAX_VALUE.

Lemma vint_bytes v : Forall byte_ok (vint v).
Proof. apply vint_write_ok. Qed.

Lemma vint_size_pos v : 1 <= vint_size v <= 8.
Proof.
  unfold vint_size. pose proof (vint_val2bits_range v). rewrite Z.shiftl_1_l.
  split; [change 1 with (2 ^ 0)|change 8 with (2 ^ 3)]; apply Z.pow_le_mono_r; lia.
Qed.

Lemma blen_vint v : blen (vint v) = vint_size v.
Proof.
  unfold blen, vint. rewrite length_vint_write by (pose proof (vint_size_pos v); lia).
  pose proof (vint_size_pos v). lia.
Qed.

Lemma blen_app a b : blen (a ++ b) = blen a + blen b.
Proof. unfold blen. rewrite length_app. lia. Qed.

Lemma blen_cons x a : blen (x :: a) = 1 + blen a.
Proof. unfold blen. cbn [length]. lia. Qed.

Lemma blen_nonneg a : 0 <= blen a.
Proof. unfold blen. lia. Qed.

Lemma shiftl_val2bits v : Z.shiftl 1 (vint_val2bits v) = vint_size v.
Proof. reflexivity. Qed.

(** A varint written with a length that fits is read back. *)
Lemma vread_write {A} v bits rest err (k : Z -> list Z -> pres A) :
  0 <= bits <= 3 -> 0 <= v <= VINT_MAX_B bits -> Forall byte_ok rest ->
  vread (vint_write v bits (Z.shiftl 1 bits) ++ rest) err k = k v rest.
Proof.
  intros Hb Hv Hr. unfold vread. rewrite varint_read_write by done.
  f_equal. rewrite drop_app_length'; [done|].
  rewrite length_vint_write; [done|].
  rewrite Z.shiftl_1_l. change 8 with (2 ^ 3).
  split; [lia|apply Z.pow_le_mono_r; lia].
Qed.

Lemma vread_vint {A} v rest err (k : Z -> list Z -> pres A) :
  vint_ok v -> Forall byte_ok rest -> vread (vint v ++ rest) err k = k v rest.
Proof.
  intros Hv Hr. apply vread_write; [apply vint_val2bits_range| |done].
  pose proof (vint_val2bits_fits v Hv). unfold vint_ok in Hv. lia.
Qed.

Lemma vread_vint_end {A} v err (k : Z -> list Z -> pres A) :
  vint_ok v -> vread (vint v) err k = k v [].
Proof. intros Hv. rewrite <- (app_nil_r (vint v)). apply vread_vint; [done|constructor]. Qed.

(** ** Control frames *)

(** One value per frame; the values are what the parsers deliver. *)
Inductive frame :=
  | FPing | FHandshakeDone
  | FRst (stream_id final_size error_code : Z)
  | FStopSending (stream_id error_code : Z)
  | FMaxData (val : Z) | FMaxStreamData (stream_id off : Z)
  | FMaxStreams (sd : stream_dir) (limit : Z)
  | FBlocked (off : Z) | FStreamBlocked (stream_id off : Z)
  | FStreamsBlocked (sd : stream_dir) (limit : Z)
  | FNewConnId (seqno : Z) (cid token : list Z) | FRetireConnId (val : Z)
  | FNewToken (token : list Z)
  | FPathChallenge (val : Z) | FPathResponse (val : Z)
  | FConnectionClose (app_error : bool) (error_code : Z) (reason : list Z)
  | FAckFrequency (seqno pack_tol upd_mad : Z) (ignore : bool)
  | FTimestamp (ts : Z).

Definition frame_type (f : frame) : quic_frame_type :=
  match f with
  | FPing => QUIC_FRAME_PING
  | FHandshakeDone => QUIC_FRAME_HANDSHAKE_DONE
  | FRst _ _ _ => QUIC_FRAME_RST_STREAM
  | FStopSending _ _ => QUIC_FRAME_STOP_SENDING
  | FMaxData _ => QUIC_FRAME_MAX_DATA
  | FMaxStreamData _ _ => QUIC_FRAME_MAX_STREAM_DATA
  | FMaxStreams _ _ => QUIC_FRAME_MAX_STREAMS
  | FBlocked _ => QUIC_FRAME_BLOCKED
  | FStreamBlocked _ _ => QUIC_FRAME_STREAM_BLOCKED
  | FStreamsBlocked _ _ => QUIC_FRAME_STREAMS_BLOCKED
  | FNewConnId _ _ _ => QUIC_FRAME_NEW_CONNECTION_ID
  | FRetireConnId _ => QUIC_FRAME_RETIRE_CONNECTION_ID
  | FNewToken _ => QUIC_FRAME_NEW_TOKEN
  | FPathChallenge _ => QUIC_FRAME_PATH_CHALLENGE
  | FPathResponse _ => QUIC_FRAME_PATH_RESPONSE
  | FConnectionClose _ _ _ => QUIC_FRAME_CONNECTION_CLOSE
  | FAckFrequency _ _ _ _ => QUIC_FRAME_ACK_FREQUENCY
  | FTimestamp _ => QUIC_FRAME_TIMESTAMP
  end.

(** The generator of each frame. *)
Definition gen_frame (n : Z) (f : frame) : option gres :=
  match f with
  | FPing => Some (ietf_v1_gen_ping_frame n)
  | FHandshakeDone => Some (ietf_v1_gen_handshake_done_frame n)
  | FRst sid fs ec => Some (ietf_v1_gen_rst_frame n sid fs ec)
  | FStopSending sid ec => Some (ietf_v1_gen_stop_sending_frame n sid ec)
  | FMaxData v => Some (ietf_v1_gen_max_data_frame n v)
  | FMaxStreamData sid off => Some (ietf_v1_gen_max_stream_data_frame n sid off)
  | FMaxStreams sd l => Some (ietf_v1_gen_max_streams_frame n sd l)
  | FBlocked off => Some (ietf_v1_gen_blocked_frame n off)
  | FStreamBlocked sid off => Some (ietf_v1_gen_stream_blocked_frame n sid off)
  | FStreamsBlocked sd l => Some (ietf_v1_gen_streams_blocked_frame n sd l)
  | FNewConnId s cid tok => Some (ietf_v1_gen_new_connection_id_frame n s cid tok)
  | FRetireConnId v => Some (ietf_v1_gen_retire_cid_frame n v)
  | FNewToken tok => Some (ietf_v1_gen_new_token_frame n tok)
  | FPathChallenge v => Some (ietf_v1_gen_path_chal_frame n v)
  | FPathResponse v => Some (ietf_v1_gen_path_resp_frame n v)
  | FConnectionClose app ec r => ietf_v1_gen_connect_close_frame n app ec r
  | FAckFrequency s pt m i => ietf_v1_gen_ack_frequency_frame n s pt m i
  | FTimestamp ts => ietf_v1_gen_timestamp_frame n ts
  end.

(** The size function of each frame. *)
Definition frame_size (f : frame) : Z :=
  match f with
  | FPing | FHandshakeDone => 1
  | FRst sid fs ec => ietf_v1_rst_frame_size sid ec fs
  | FStopSending sid ec => ietf_v1_stop_sending_frame_size sid ec
  | FMaxData v => ietf_v1_max_data_frame_size v
  | FMaxStreamData sid off => ietf_v1_max_stream_data_frame_size sid off
  | FMaxStreams _ l => ietf_v1_max_streams_frame_size l
  | FBlocked off => ietf_v1_blocked_frame_size off
  | FStreamBlocked sid off => ietf_v1_stream_blocked_frame_size sid off
  | FStreamsBlocked _ l => ietf_v1_streams_blocked_frame_size l
  | FNewConnId s cid _ => ietf_v1_new_connection_id_frame_size s (blen cid)
  | FRetireConnId v => ietf_v1_retire_cid_frame_size v
  | FNewToken tok => ietf_v1_new_token_frame_size (blen tok)
  | FPathChallenge _ | FPathResponse _ => 9
  | FConnectionClose app ec r => ietf_v1_connect_close_frame_size app ec 0 (blen r)
  | FAckFrequency s pt m _ => default 0 (ietf_v1_ack_frequency_frame_size s pt m)
  | FTimestamp ts => default 0 (ietf_v1_frame_with_varints_size [FRAME_TYPE_TIMESTAMP; ts])
  end.

Definition pmap {A B} (f : A -> B) (r : pres A) : pres B :=
  match r with PErr c => PErr c | POk n a => POk n (f a) end.

(** A slice of the buffer, which the parsers deliver as a pointer and a size. *)
Definition slice (buf : list Z) (off sz : Z) : list Z :=
  take (Z.to_nat sz) (drop (Z.to_nat off) buf).

(** The parser of each frame type. *)
Definition parse_frame (t : quic_frame_type) (buf : list Z) : option (pres frame) :=
  match t with
  | QUIC_FRAME_PING => Some (POk 1 FPing)
  | QUIC_FRAME_HANDSHAKE_DONE =>
      r ← ietf_v1_parse_handshake_done_frame buf; Some (pmap (fun _ => FHandshakeDone) r)
  | QUIC_FRAME_RST_STREAM =>
      Some (pmap (fun '(sid, fs, ec) => FRst sid fs ec) (ietf_v1_parse_rst_frame buf))
  | QUIC_FRAME_STOP_SENDING =>
      Some (pmap (fun '(sid, ec) => FStopSending sid ec) (ietf_v1_parse_stop_sending_frame buf))
  | QUIC_FRAME_MAX_DATA => Some (pmap FMaxData (ietf_v1_parse_max_data buf))
  | QUIC_FRAME_MAX_STREAM_DATA =>
      Some (pmap (fun '(sid, off) => FMaxStreamData sid off) (ietf_v1_parse_max_stream_data_frame buf))
  | QUIC_FRAME_MAX_STREAMS =>
      Some (pmap (fun '(sd, l) => FMaxStreams sd l) (ietf_v1_parse_max_streams_frame buf))
  | QUIC_FRAME_BLOCKED => Some (pmap FBlocked (ietf_v1_parse_blocked_frame buf))
  | QUIC_FRAME_STREAM_BLOCKED =>
      Some (pmap (fun '(sid, off) => FStreamBlocked sid off) (ietf_v1_parse_stream_blocked_frame buf))
  | QUIC_FRAME_STREAMS_BLOCKED =>
      Some (pmap (fun '(sd, l) => FStreamsBlocked sd l) (ietf_v1_parse_streams_blocked_frame buf))
  | QUIC_FRAME_NEW_CONNECTION_ID =>
      Some (pmap (fun '(s, _, cid, off) => FNewConnId s cid (slice buf off IQUIC_SRESET_TOKEN_SZ))
                 (ietf_v1_parse_new_conn_id buf))
  | QUIC_FRAME_RETIRE_CONNECTION_ID => Some (pmap FRetireConnId (ietf_v1_parse_retire_cid_frame buf))
  | QUIC_FRAME_NEW_TOKEN =>
      Some (pmap (fun '(off, sz) => FNewToken (slice buf off sz)) (ietf_v1_parse_new_token_frame buf))
  | QUIC_FRAME_PATH_CHALLENGE => Some (pmap FPathChallenge (ietf_v1_parse_path_chal_frame buf))
  | QUIC_FRAME_PATH_RESPONSE => Some (pmap FPathResponse (ietf_v1_parse_path_resp_frame buf))
  | QUIC_FRAME_CONNECTION_CLOSE =>
      Some (pmap (fun '(app, ec, len, off) => FConnectionClose app ec (slice buf off len))
                 (ietf_v1_parse_connect_close_frame buf))
  | QUIC_FRAME_ACK_FREQUENCY =>
      Some (match ietf_v1_parse_ack_frequency_frame buf with
            | POk n ([s; pt; m], i) => POk n (FAckFrequency s pt m (negb (i =? 0)))
            | POk _ _ => PErr (-1)
            | PErr c => PErr c
            end)
  | QUIC_FRAME_TIMESTAMP =>
      Some (match ietf_v1_parse_timestamp_frame buf with
            | POk n [ts] => POk n (FTimestamp ts)
            | POk _ _ => PErr (-1)
            | PErr c => PErr c
            end)
  | _ => None
  end.

(** The values the callers pass: varints below 2^62, connection IDs of 1 to 20
    bytes with a 16-byte reset token, reasons of at most 65535 bytes. *)
Definition frame_ok (f : frame) : Prop :=
  match f with
  | FPing | FHandshakeDone => True
  | FRst a b c => vint_ok a /\ vint_ok b /\ vint_ok c
  | FStopSending a b | FMaxStreamData a b | FStreamBlocked a b => vint_ok a /\ vint_ok b
  | FMaxData v | FBlocked v | FRetireConnId v | FTimestamp v => vint_ok v
  | FMaxStreams _ v | FStreamsBlocked _ v => vint_ok v
  | FNewConnId s cid tok =>
      vint_ok s /\ 1 <= blen cid <= MAX_CID_LEN /\ blen tok = IQUIC_SRESET_TOKEN_SZ
      /\ Forall byte_ok cid /\ Forall byte_ok tok
  | FNewToken tok => blen tok < 2 ^ 30 /\ Forall byte_ok tok
  | FPathChallenge v | FPathResponse v => 0 <= v < 2 ^ 64
  | FConnectionClose _ ec r => vint_ok ec /\ blen r <= UINT16_MAX /\ Forall byte_ok r
  | FAckFrequency a b c _ => vint_ok a /\ vint_ok b /\ vint_ok c
  end.

(** What is claimed of one frame. *)
Definition frame_roundtrips (n : Z) (f : frame) (rest : list Z) : Prop :=
  (n < frame_size f -> exists c, gen_frame n f = Some (GErr c))
  /\ (frame_size f <= n -> exists bs, gen_frame n f = Some (GOk bs)
       /\ blen bs = frame_size f /\ Forall byte_ok bs
       /\ ietf_v1_parse_frame_type (bs ++ rest) = frame_type f
       /\ parse_frame (frame_type f) (bs ++ rest) = Some (POk (blen bs) f)).

Lemma used_app a rest : used (a ++ rest) rest = blen a.
Proof. unfold used. rewrite blen_app. lia. Qed.

Lemma used_cons_app t a rest : used (t :: a ++ rest) rest = 1 + blen a.
Proof. unfold used. rewrite blen_cons, blen_app. lia. Qed.

Create Rewrite HintDb blen.
#[export] Hint Rewrite blen_app blen_cons blen_vint shiftl_val2bits : blen.

Ltac blen := autorewrite with blen in *; change (blen []) with 0 in *.

(** Byte strings built from varints and literal bytes. *)
Create HintDb bytes.
#[export] Hint Resolve vint_bytes Forall_nil_2 : bytes.

Lemma bytes_cons x l : byte_ok x -> Forall byte_ok l -> Forall byte_ok (x :: l).
Proof. by constructor. Qed.

Lemma bytes_app a b : Forall byte_ok a -> Forall byte_ok b -> Forall byte_ok (a ++ b).
Proof. intros. by apply Forall_app. Qed.

#[export] Hint Resolve bytes_cons bytes_app : bytes.
#[export] Hint Extern 1 (byte_ok _) => (unfold byte_ok; lia) : bytes.

(** Read back every varint at the front of the input. *)
Ltac vreads :=
  cbn [app tail];
  repeat (rewrite <- ?app_assoc; cbn [app];
          first [ rewrite vread_vint by (first [done | auto 10 with bytes]) 
                | rewrite vread_vint_end by done ]; cbn beta).

Lemma parse_one_ok t v rest :
  vint_ok v -> Forall byte_ok rest ->
  ietf_v1_parse_one_varint ((t :: vint v) ++ rest) = POk (1 + vint_size v) v.
Proof.
  intros. unfold ietf_v1_parse_one_varint. vreads.
  by rewrite used_cons_app, blen_vint.
Qed.

Lemma parse_two_ok t v w rest :
  vint_ok v -> vint_ok w -> Forall byte_ok rest ->
  ietf_v1_parse_two_varints ((t :: vint v ++ vint w) ++ rest)
  = POk (1 + vint_size v + vint_size w) (v, w).
Proof.
  intros. unfold ietf_v1_parse_two_varints.
  assert ((blen ((t :: vint v ++ vint w) ++ rest) <? 2) = false) as ->.
  { pose proof (vint_size_pos v). pose proof (vint_size_pos w). pose proof (blen_nonneg rest).
    blen. lia. }
  vreads. f_equal. unfold used. blen. lia.
Qed.

Lemma gen_one_ok n t v :
  ietf_v1_gen_one_varint n t v = if n <? 1 + vint_size v then GErr (-1) else GOk (t :: vint v).
Proof. reflexivity. Qed.

Lemma gen_two_ok n t v w :
  ietf_v1_gen_two_varints n t v w =
  if n <? 1 + vint_size v + vint_size w then GErr (-1) else GOk (t :: vint v ++ vint w).
Proof. reflexivity. Qed.

(** The generic argument: a generator that checks the exact size and then
    writes the bytes [bs], which parse back. *)
Lemma roundtrips_intro n f rest bs :
  (exists c, gen_frame n f = Some (if n <? frame_size f then GErr c else GOk bs)) ->
  blen bs = frame_size f -> Forall byte_ok bs ->
  ietf_v1_parse_frame_type (bs ++ rest) = frame_type f ->
  parse_frame (frame_type f) (bs ++ rest) = Some (POk (blen bs) f) ->
  frame_roundtrips n f rest.
Proof.
  intros [c Hg] Hl Hb Ht Hp. split; intros Hn.
  - exists c. rewrite Hg. by replace (n <? frame_size f) with true by lia.
  - exists bs. rewrite Hg. by replace (n <? frame_size f) with false by lia.
Qed.

Section control_frames.
Variables (n : Z) (rest : list Z).
Hypothesis Hrest : Forall byte_ok rest.
Hypothesis Hlen : blen rest < 2 ^ 31.

Lemma rt_one_varint t v f (g : Z -> frame) :
  f = g v -> byte_ok t -> vint_ok v ->
  (gen_frame n f = Some (ietf_v1_gen_one_varint n t v)) -> frame_size f = 1 + vint_size v ->
  ietf_v1_parse_frame_type ((t :: vint v) ++ rest) = frame_type f ->
  parse_frame (frame_type f) ((t :: vint v) ++ rest)
    = Some (pmap g (ietf_v1_parse_one_varint ((t :: vint v) ++ rest))) ->
  frame_roundtrips n f rest.
Proof.
  intros -> Ht Hv Hg Hs Hty Hp. apply (roundtrips_intro n _ rest (t :: vint v)).
  - exists (-1). by rewrite Hg, Hs, gen_one_ok.
  - rewrite Hs. by blen.
  - auto with bytes.
  - done.
  - rewrite Hp, parse_one_ok by done. by blen.
Qed.

Lemma rt_two_varints t v w f (g : Z * Z -> frame) :
  f = g (v, w) -> byte_ok t -> vint_ok v -> vint_ok w ->
  (gen_frame n f = Some (ietf_v1_gen_two_varints n t v w)) ->
  frame_size f = 1 + vint_size v + vint_size w ->
  ietf_v1_parse_frame_type ((t :: vint v ++ vint w) ++ rest) = frame_type f ->
  parse_frame (frame_type f) ((t :: vint v ++ vint w) ++ rest)
    = Some (pmap g (ietf_v1_parse_two_varints ((t :: vint v ++ vint w) ++ rest))) ->
  frame_roundtrips n f rest.
Proof.
  intros -> Ht Hv Hw Hg Hs Hty Hp. apply (roundtrips_intro n _ rest (t :: vint v ++ vint w)).
  - exists (-1). by rewrite Hg, Hs, gen_two_ok.
  - rewrite Hs. blen. lia.
  - auto with bytes.
  - done.
  - rewrite Hp, parse_two_ok by done. blen. cbn. do 2 f_equal. lia.
Qed.

Lemma rt_rst a b c : vint_ok a -> vint_ok b -> vint_ok c -> frame_roundtrips n (FRst a b c) rest.
Proof.
  intros Ha Hb Hc.
  apply (roundtrips_intro n _ rest (0x04 :: vint a ++ vint c ++ vint b)).
  - by exists (-1).
  - unfold frame_size, ietf_v1_rst_frame_size. blen. lia.
  - auto 10 with bytes.
  - done.
  - cbn [parse_frame frame_type]. unfold ietf_v1_parse_rst_frame. vreads. cbn.
    unfold used. do 2 f_equal. blen. lia.
Qed.

Lemma rt_stop_sending a b : vint_ok a -> vint_ok b -> frame_roundtrips n (FStopSending a b) rest.
Proof.
  intros Ha Hb. apply (roundtrips_intro n _ rest (0x05 :: vint a ++ vint b)).
  - by exists (-1).
  - unfold frame_size, ietf_v1_stop_sending_frame_size. blen. lia.
  - auto 10 with bytes.
  - done.
  - cbn [parse_frame frame_type]. unfold ietf_v1_parse_stop_sending_frame. vreads. cbn.
    unfold used. do 2 f_equal. blen. lia.
Qed.

Lemma slice_mid a b c : slice (a ++ b ++ c) (blen a) (blen b) = b.
Proof.
  unfold slice, blen. rewrite !Nat2Z.id, drop_app_length, take_app_length. done.
Qed.

Lemma slice_mid_at a b c off sz :
  off = blen a -> sz = blen b -> slice (a ++ b ++ c) off sz = b.
Proof. intros -> ->. apply slice_mid. Qed.

Lemma blen_vint_ok (l : list Z) : blen l < 2 ^ 30 -> vint_ok (blen l).
Proof. intros. unfold vint_ok. pose proof (blen_nonneg l). change VINT_MAX_VALUE with (2 ^ 62 - 1). lia. Qed.

Lemma rt_new_token tok :
  blen tok < 2 ^ 30 -> Forall byte_ok tok -> frame_roundtrips n (FNewToken tok) rest.
Proof.
  intros Hl Hb. pose proof (blen_vint_ok tok Hl) as Hv. pose proof (blen_nonneg rest).
  apply (roundtrips_intro n _ rest (0x07 :: vint (blen tok) ++ tok)).
  - by exists (-1).
  - unfold frame_size, ietf_v1_new_token_frame_size. blen. lia.
  - auto 10 with bytes.
  - done.
  - cbn [parse_frame frame_type]. unfold ietf_v1_parse_new_token_frame. vreads.
    replace (blen (tok ++ rest) <? blen tok) with false by (blen; lia).
    cbn. unfold used. f_equal. f_equal; [blen; lia|]. f_equal.
    apply (slice_mid_at (0x07 :: vint (blen tok)) tok rest); [blen; lia|done].
Qed.

Lemma of_le64_le64 v : 0 <= v < 2 ^ 64 -> of_le64 (le64 v) = v.
Proof.
  intros. unfold of_le64, le64. rewrite rev_involutive, be_val_be_bytes.
  apply Z.mod_small. done.
Qed.

Lemma blen_le64 v : blen (le64 v) = 8.
Proof. unfold blen, le64. by rewrite length_rev, length_be_bytes. Qed.

Lemma le64_bytes v : Forall byte_ok (le64 v).
Proof. apply Forall_rev, be_bytes_ok. Qed.

Lemma parse_path_ok t v : 0 <= v < 2 ^ 64 ->
  ietf_v1_parse_path_chal_frame ((t :: le64 v) ++ rest) = POk 9 v.
Proof.
  intros Hv. unfold ietf_v1_parse_path_chal_frame. pose proof (blen_nonneg rest).
  replace (9 <=? _) with true by (blen; rewrite blen_le64; lia). cbn [app tail].
  assert (8%nat = length (le64 v)) as -> by (pose proof (blen_le64 v); unfold blen in *; lia).
  rewrite take_app_length. by rewrite of_le64_le64.
Qed.

Lemma rt_path t v f :
  0 <= v < 2 ^ 64 -> (t, f) = (0x1A, FPathChallenge v) \/ (t, f) = (0x1B, FPathResponse v) ->
  frame_roundtrips n f rest.
Proof.
  intros Hv Hf. apply (roundtrips_intro n _ rest (t :: le64 v)).
  - exists (-1). destruct Hf as [[= -> ->]|[= -> ->]];
      unfold gen_frame, frame_size, ietf_v1_gen_path_chal_frame, ietf_v1_gen_path_resp_frame;
      rewrite Z.leb_antisym; change (1 + 8) with 9; by destruct (n <? 9).
  - blen. rewrite blen_le64. by destruct Hf as [[= -> ->]|[= -> ->]].
  - apply bytes_cons; [|apply le64_bytes].
    destruct Hf as [[= -> ->]|[= -> ->]]; unfold byte_ok; lia.
  - by destruct Hf as [[= -> ->]|[= -> ->]].
  - blen. rewrite blen_le64. destruct Hf as [[= -> ->]|[= -> ->]]; cbn [parse_frame frame_type];
      unfold ietf_v1_parse_path_resp_frame; by rewrite parse_path_ok.
Qed.

Lemma rt_new_conn_id s cid tok :
  frame_ok (FNewConnId s cid tok) -> frame_roundtrips n (FNewConnId s cid tok) rest.
Proof.
  intros (Hs & Hc & Ht & Hcb & Htb). pose proof (blen_nonneg rest).
  apply (roundtrips_intro n _ rest (0x18 :: vint s ++ [0] ++ [blen cid] ++ cid ++ tok)).
  - by exists (-1).
  - unfold frame_size, ietf_v1_new_connection_id_frame_size. blen. lia.
  - unfold MAX_CID_LEN in *. auto 10 with bytes.
  - done.
  - cbn [parse_frame frame_type]. unfold ietf_v1_parse_new_conn_id.
    assert (vint_ok 0) as H0 by (unfold vint_ok; change VINT_MAX_VALUE with (2 ^ 62 - 1); lia).
    unfold MAX_CID_LEN, IQUIC_SRESET_TOKEN_SZ in *. cbn [app tail].
    rewrite <- !app_assoc. rewrite vread_vint by (auto 10 with bytes). cbn [app].
    rewrite <- !app_assoc. change (0 :: blen cid :: cid ++ tok ++ rest) with (vint 0 ++ blen cid :: cid ++ tok ++ rest).
    rewrite (vread_vint 0) by (auto 10 with bytes). cbn beta iota.
    replace ((blen cid =? 0) || (20 <? blen cid)) with false by lia.
    assert (blen (cid ++ tok ++ rest) = blen cid + 16 + blen rest) as Hbl by (blen; lia).
    rewrite Hbl, wrapu_id by (unfold is_u; lia).
    replace (_ <? _) with false by lia. cbn zeta.
    assert (drop (Z.to_nat (blen cid)) (cid ++ tok ++ rest) = tok ++ rest) as ->.
    { unfold blen. by rewrite Nat2Z.id, drop_app_length. }
    assert (take (Z.to_nat (blen cid)) (cid ++ tok ++ rest) = cid) as ->.
    { unfold blen. by rewrite Nat2Z.id, take_app_length. }
    change (vint 0) with [0]. cbn. unfold used. f_equal. f_equal; [blen; lia|]. f_equal.
    replace (0x18 :: vint s ++ _) with ((0x18 :: vint s ++ [0; blen cid] ++ cid) ++ tok ++ rest)
      by (cbn [app]; by rewrite <- !app_assoc).
    apply slice_mid_at; [blen; lia|done].
Qed.

Lemma reason_ok t b (ec : Z) r (ae : bool) :
  Forall byte_ok r -> blen r <= UINT16_MAX -> Forall byte_ok b -> blen b <= 20 ->
  let buf := (t :: b) ++ vint (blen r) ++ r ++ rest in
  vread (vint (blen r) ++ r ++ rest) (-1) (fun len p =>
    if UINT16_MAX <? len then PErr (-1) else
    if blen buf <? used buf p + len then PErr (-2)
    else POk (used buf p + len) (ae, ec, u16 len, u8 (used buf p)))
  = POk (1 + blen b + vint_size (blen r) + blen r)
        (ae, ec, blen r, 1 + blen b + vint_size (blen r)).
Proof.
  intros Hr Hl Hb Hbl buf. unfold UINT16_MAX in *. pose proof (blen_nonneg r).
  pose proof (blen_nonneg b). pose proof (blen_nonneg rest).
  assert (used buf (r ++ rest) = 1 + blen b + vint_size (blen r)) as Hu.
  { unfold buf, used. blen. lia. }
  rewrite vread_vint by (first [apply blen_vint_ok; lia | auto with bytes]).
  cbn beta. replace (65535 <? blen r) with false by lia. rewrite Hu.
  pose proof (vint_size_pos (blen r)).
  replace (_ <? _) with false by (unfold buf; blen; lia).
  rewrite (wrapu_id 16), (wrapu_id 8) by (unfold is_u; lia). done.
Qed.

Lemma rt_connect_close (ae : bool) ec r :
  frame_ok (FConnectionClose ae ec r) -> frame_roundtrips n (FConnectionClose ae ec r) rest.
Proof.
  intros (He & Hl & Hr). set (fx := if ae then [] else [0] : list Z).
  assert (Forall byte_ok fx) as Hfx by (unfold fx; destruct ae; auto with bytes).
  pose proof (vint_size_pos ec) as Hes. pose proof (vint_size_pos (blen r)).
  pose proof (blen_nonneg r). pose proof (blen_nonneg rest).
  assert (blen fx <= 1 /\ (if ae then 0 else 1) = blen fx) as [Hfl Hfl2]
    by (unfold fx; destruct ae; done).
  apply (roundtrips_intro n _ rest ((0x1C + b2z ae) :: vint ec ++ fx ++ vint (blen r) ++ r)).
  - exists (-1). cbn [gen_frame]. unfold ietf_v1_gen_connect_close_frame, frame_size,
      ietf_v1_connect_close_frame_size. change (Z.shiftl 1 (vint_val2bits 0)) with 1.
    fold fx. rewrite Hfl2. rewrite !shiftl_val2bits.
    destruct (n <? _); [done|]. cbn [app].
    replace (_ =? _) with true; [done|]. symmetry. apply Z.eqb_eq. blen. lia.
  - unfold frame_size, ietf_v1_connect_close_frame_size.
    change (Z.shiftl 1 (vint_val2bits 0)) with 1. rewrite Hfl2. blen. lia.
  - destruct ae; cbn; auto 10 with bytes.
  - by destruct ae.
  - cbn [parse_frame frame_type]. unfold ietf_v1_parse_connect_close_frame.
    set (buf := (_ ++ rest)).
    assert (buf = ((0x1C + b2z ae) :: vint ec ++ fx) ++ vint (blen r) ++ r ++ rest) as Hbuf.
    { unfold buf. cbn [app]. by rewrite <- !app_assoc. }
    assert (tail buf = vint ec ++ fx ++ vint (blen r) ++ r ++ rest) as ->.
    { rewrite Hbuf. cbn [app tail]. by rewrite <- !app_assoc. }
    rewrite vread_vint by auto 10 with bytes. cbn beta.
    assert (match buf with b :: _ => b =? 0x1D | [] => false end = ae) as ->.
    { rewrite Hbuf. by destruct ae. }
    pose proof (reason_ok (0x1C + b2z ae) (vint ec ++ fx) ec r ae Hr Hl) as Hreason.
    cbn zeta in Hreason. rewrite <- Hbuf in Hreason.
    assert (forall x, x = POk (1 + blen (vint ec ++ fx) + vint_size (blen r) + blen r)
        (ae, ec, blen r, 1 + blen (vint ec ++ fx) + vint_size (blen r)) ->
      Some (pmap (fun '(ae, ec, len, off) => FConnectionClose ae ec (slice buf off len)) x)
      = Some (POk (blen ((0x1C + b2z ae) :: vint ec ++ fx ++ vint (blen r) ++ r))
                  (FConnectionClose ae ec r))) as Hfin.
    { intros x ->. cbn [pmap]. f_equal. f_equal; [blen; lia|]. f_equal. rewrite Hbuf.
      rewrite (app_assoc (_ :: _) (vint (blen r))). apply slice_mid_at; [blen; lia|done]. }
    apply Hfin. destruct ae; cbn [fx app]; cbn zeta.
    + rewrite Hreason; [done|auto with bytes|blen; lia].
    + change (vread (0 :: ?x)) with (vread (A := bool * Z * Z * Z) (vint 0 ++ x)).
      rewrite (vread_vint 0); [|unfold vint_ok; change VINT_MAX_VALUE with (2 ^ 62 - 1); lia
                               |auto 10 with bytes].
      rewrite Hreason; [done|auto with bytes|blen; lia].
Qed.

Lemma parse_varints_ok {A} vs p (k : list Z -> list Z -> pres A) :
  Forall vint_ok vs -> Forall byte_ok p ->
  parse_varints (length vs) (concat (map vint vs) ++ p) k = k vs p.
Proof.
  intros Hvs Hp. revert k. induction Hvs as [|v vs Hv Hvs IH]; intros k; [done|].
  cbn [length parse_varints map concat]. rewrite <- app_assoc.
  rewrite vread_vint; [by rewrite IH|done|].
  apply bytes_app; [|done]. clear. induction vs; cbn; auto with bytes.
Qed.

Lemma concat_vint_bytes vs : Forall byte_ok (concat (map vint vs)).
Proof. induction vs; cbn; auto with bytes. Qed.

(** [ietf_v1_parse_frame_with_varints] on what the generator writes. *)
Lemma parse_with_varints_ok t vs tl :
  Forall vint_ok vs -> Forall byte_ok tl ->
  ietf_v1_parse_frame_with_varints (concat (map vint (t :: vs)) ++ tl) t (length vs)
  = POk (blen (concat (map vint (t :: vs)))) vs.
Proof.
  intros Hvs Htl. unfold ietf_v1_parse_frame_with_varints. cbn [map concat].
  assert (drop (Z.to_nat (Z.shiftl 1 (vint_val2bits t)))
    ((vint t ++ concat (map vint vs)) ++ tl) = concat (map vint vs) ++ tl) as ->.
  { rewrite shiftl_val2bits, <- app_assoc, <- blen_vint. unfold blen.
    by rewrite Nat2Z.id, drop_app_length. }
  rewrite parse_varints_ok by done. by rewrite used_app.
Qed.

Lemma rt_ack_frequency s pt m i :
  frame_ok (FAckFrequency s pt m i) -> frame_roundtrips n (FAckFrequency s pt m i) rest.
Proof.
  intros (Hs & Hpt & Hm). set (vs := [FRAME_TYPE_ACK_FREQUENCY; s; pt; m]).
  pose proof (concat_vint_bytes vs) as Hcb.
  assert (blen (concat (map vint vs)) = 2 + (vint_size s + (vint_size pt + (vint_size m + 0)))) as Hcl.
  { unfold vs. cbn [map concat]. blen. change (vint_size FRAME_TYPE_ACK_FREQUENCY) with 2. lia. }
  pose proof (vint_size_pos s). pose proof (vint_size_pos pt). pose proof (vint_size_pos m).
  assert (frame_size (FAckFrequency s pt m i) = 1 + blen (concat (map vint vs))) as Hsz.
  { rewrite Hcl. unfold frame_size, ietf_v1_ack_frequency_frame_size, ietf_v1_frame_with_varints_size.
    cbn [mbind option_bind default foldr]. rewrite !shiftl_val2bits.
    change (vint_size FRAME_TYPE_ACK_FREQUENCY) with 2. cbn. lia. }
  apply (roundtrips_intro n _ rest (concat (map vint vs) ++ [b2z i])).
  - exists (-1). rewrite Hsz. cbn [gen_frame]. unfold ietf_v1_gen_ack_frequency_frame,
      ietf_v1_gen_frame_with_varints. fold vs.
    assert (ietf_v1_frame_with_varints_size vs = Some (blen (concat (map vint vs)))) as ->.
    { rewrite Hcl. unfold vs, ietf_v1_frame_with_varints_size. cbn [foldr].
      rewrite !shiftl_val2bits. change (vint_size FRAME_TYPE_ACK_FREQUENCY) with 2. f_equal. lia. }
    cbn [mbind option_bind]. f_equal.
    destruct (Z.ltb_spec n (blen (concat (map vint vs))));
      [by replace (n <? _) with true by lia|].
    replace (0 <? blen (concat (map vint vs))) with true by lia. cbn [andb].
    destruct (Z.ltb_spec (blen (concat (map vint vs))) n).
    + by replace (n <? _) with false by lia.
    + by replace (n <? _) with true by lia.
  - rewrite Hsz. blen. lia.
  - destruct i; cbn [b2z]; auto with bytes.
  - rewrite <- app_assoc. unfold vs. cbn [map concat]. rewrite <- !app_assoc. reflexivity.
  - cbn [parse_frame frame_type]. unfold ietf_v1_parse_ack_frequency_frame.
    rewrite <- app_assoc. rewrite (parse_with_varints_ok FRAME_TYPE_ACK_FREQUENCY [s; pt; m]);
      [|repeat (apply Forall_cons_2; [done|]); apply Forall_nil_2|destruct i; cbn [b2z]; auto with bytes].
    fold vs.
    assert (aget (concat (map vint vs) ++ [b2z i] ++ rest) (blen (concat (map vint vs))) = Some (b2z i)) as Hg.
    { unfold blen. rewrite aget_nat, lookup_app_r, Nat.sub_diag by lia. done. }
    rewrite Hg. replace (0 <? _) with true by lia. rewrite blen_app.
    destruct i; reflexivity.
Qed.

Lemma rt_timestamp ts : vint_ok ts -> frame_roundtrips n (FTimestamp ts) rest.
Proof.
  intros Hts. set (vs := [FRAME_TYPE_TIMESTAMP; ts]).
  assert (frame_size (FTimestamp ts) = 2 + vint_size ts) as Hsz.
  { unfold frame_size, ietf_v1_frame_with_varints_size. cbn [default foldr].
    rewrite !shiftl_val2bits. change (vint_size FRAME_TYPE_TIMESTAMP) with 2. cbn. lia. }
  apply (roundtrips_intro n _ rest (concat (map vint vs))).
  - exists (-1). reflexivity.
  - rewrite Hsz. unfold vs. cbn [map concat]. blen.
    change (vint_size FRAME_TYPE_TIMESTAMP) with 2. lia.
  - apply concat_vint_bytes.
  - unfold vs. cbn [map concat]. rewrite <- !app_assoc. reflexivity.
  - cbn [parse_frame frame_type]. unfold ietf_v1_parse_timestamp_frame.
    by rewrite (parse_with_varints_ok FRAME_TYPE_TIMESTAMP [ts])
      by (first [done | repeat (apply Forall_cons_2; [done|]); apply Forall_nil_2]).
Qed.

Lemma frame_roundtrip_all f : frame_ok f -> frame_roundtrips n f rest.
Proof.
  destruct f; intros Hok; pose proof Hok as Hok'; cbn in Hok'; destruct_and?.
  - apply (roundtrips_intro n _ rest [0x01]); try done; [|auto with bytes].
    exists (-1). cbn [gen_frame frame_size]. unfold ietf_v1_gen_ping_frame.
    destruct (Z.ltb_spec 0 n), (Z.ltb_spec n 1); done || lia.
  - apply (roundtrips_intro n _ rest [0x1E]); try done; [|auto with bytes].
    exists (-1). cbn [gen_frame frame_size]. unfold ietf_v1_gen_handshake_done_frame.
    destruct (Z.ltb_spec 0 n), (Z.ltb_spec n 1); done || lia.
  - by apply rt_rst.
  - by apply rt_stop_sending.
  - by apply (rt_one_varint 0x10 val _ FMaxData).
  - by apply (rt_two_varints 0x11 stream_id off _ (fun '(a, b) => FMaxStreamData a b)).
  - apply (rt_one_varint (0x12 + sd_uni sd) limit _ (FMaxStreams sd)); try done; destruct sd; try done.
    all: cbn [parse_frame frame_type]; unfold ietf_v1_parse_max_streams_frame;
      rewrite parse_one_ok by done; done.
  - by apply (rt_one_varint 0x14 off _ FBlocked).
  - by apply (rt_two_varints 0x15 stream_id off _ (fun '(a, b) => FStreamBlocked a b)).
  - apply (rt_one_varint (0x16 + sd_uni sd) limit _ (FStreamsBlocked sd)); try done; destruct sd; try done.
    all: cbn [parse_frame frame_type]; unfold ietf_v1_parse_streams_blocked_frame;
      rewrite parse_one_ok by done; done.
  - by apply rt_new_conn_id.
  - by apply (rt_one_varint 0x19 val _ FRetireConnId).
  - by apply rt_new_token.
  - apply (rt_path 0x1A val); [done|by left].
  - apply (rt_path 0x1B val); [done|by right].
  - by apply rt_connect_close.
  - by apply rt_ack_frequency.
  - by apply rt_timestamp.
Qed.

End control_frames.

(** ** STREAM frames *)

(** Bytes of a STREAM frame before the length: type, stream ID, offset. *)
Definition stream_hdr (stream_id offset : Z) : Z :=
  1 + vint_size stream_id + (if offset =? 0 then 0 else vint_size offset).

Definition obytes (offset : Z) : list Z := if offset =? 0 then [] else vint offset.

Lemma blen_obytes offset : blen (obytes offset) = if offset =? 0 then 0 else vint_size offset.
Proof. unfold obytes. destruct (offset =? 0); [done|]. by blen. Qed.

Lemma obytes_ok offset : Forall byte_ok (obytes offset).
Proof. unfold obytes. destruct (offset =? 0); auto with bytes. Qed.
#[export] Hint Resolve obytes_ok : bytes.

Lemma olen_pos offset :
  ((if offset =? 0 then 0 else Z.shiftl 1 (vint_val2bits offset)) =? 0) = (offset =? 0).
Proof.
  destruct (offset =? 0); [done|]. rewrite shiftl_val2bits.
  pose proof (vint_size_pos offset). lia.
Qed.

(** The three flags of the type byte. *)
Lemma head_flags (o d f : bool) :
  has_flag (sframe_head o d f) 0x4 = o /\ has_flag (sframe_head o d f) 0x2 = d
  /\ Z.land (sframe_head o d f) 0x1 = b2z f /\ byte_ok (sframe_head o d f)
  /\ forall l, ietf_v1_parse_frame_type (sframe_head o d f :: l) = QUIC_FRAME_STREAM.
Proof. unfold byte_ok. destruct o, d, f; split_and!; done. Qed.

(** Parsing up to the length field. *)
Lemma parse_stream_head d fin sid offset p :
  vint_ok sid -> vint_ok offset -> Forall byte_ok p ->
  let ty := sframe_head (negb (offset =? 0)) d fin in
  let buf := ty :: vint sid ++ obytes offset ++ p in
  ietf_v1_parse_stream_frame buf = parse_stream_data buf ty sid offset p.
Proof.
  intros Hs Ho Hp ty buf. unfold ietf_v1_parse_stream_frame, buf, ty.
  rewrite vread_vint by auto 10 with bytes.
  rewrite (proj1 (head_flags (negb (offset =? 0)) d fin)). unfold obytes.
  destruct (Z.eqb_spec offset 0) as [->|]; cbn [negb app]; [done|].
  by rewrite vread_vint by auto 10 with bytes.
Qed.

(** The whole frame: with a length field, or up to the end of the packet. *)
Lemma parse_stream_ok (d fin : bool) sid offset len data rest :
  vint_ok sid -> vint_ok offset -> Forall byte_ok len -> Forall byte_ok data ->
  Forall byte_ok rest -> blen data < 2 ^ 16 -> offset + blen data <= VINT_MAX_VALUE ->
  (if d then forall (k : Z -> list Z -> pres stream_frame) p,
               Forall byte_ok p -> vread (len ++ p) (-1) k = k (blen data) p
   else len = [] /\ rest = []) ->
  let hd := sframe_head (negb (offset =? 0)) d fin :: vint sid ++ obytes offset ++ len in
  ietf_v1_parse_stream_frame ((hd ++ data) ++ rest)
  = POk (blen (hd ++ data)) (SF sid (b2z fin) offset (blen data) (blen hd)).
Proof.
  intros Hs Ho Hlb Hd Hr Hsz Hmax Hlen hd.
  destruct (head_flags (negb (offset =? 0)) d fin) as (_ & F2 & F1 & _).
  pose proof (blen_nonneg data). pose proof (blen_nonneg rest).
  assert ((hd ++ data) ++ rest = sframe_head (negb (offset =? 0)) d fin ::
    vint sid ++ obytes offset ++ len ++ data ++ rest) as E.
  { unfold hd. cbn [app]. by rewrite <- !app_assoc. }
  assert (used ((hd ++ data) ++ rest) (data ++ rest) = blen hd
    /\ blen hd + blen data = blen (hd ++ data)) as Hu.
  { unfold used. blen. lia. }
  rewrite E at 1. rewrite parse_stream_head by auto 10 with bytes. rewrite <- E.
  unfold parse_stream_data. rewrite F2, F1. cbv zeta. clear E. clearbody hd. destruct d.
  - rewrite Hlen by auto with bytes. cbn beta.
    replace (blen (data ++ rest) <? blen data) with false by (blen; lia).
    replace (_ <? blen data) with false by lia.
    destruct Hu as [-> ->]. by rewrite wrapu_id by (unfold is_u; lia).
  - destruct Hlen as [-> ->]. cbn [app]. rewrite !app_nil_r in *.
    replace (_ <? blen data) with false by lia.
    destruct Hu as [-> ->].
    by rewrite wrapu_id by (unfold is_u; lia).
Qed.

(** What the generator asks of the source of stream data when [size] bytes are
    there: some of them, and all that was asked for when the frame will carry
    no length field. *)
Definition reader_ok (buf_len hdr size : Z) (gsf_read : gsf_read_f) : Prop :=
  forall n, 0 < n <= size ->
    1 <= blen (gsf_read n).1 <= n /\ Forall byte_ok (gsf_read n).1
    /\ (buf_len - hdr <= size -> blen (gsf_read n).1 = n).

(** The result of generating a STREAM frame with room for at least one byte. *)
Definition stream_generated (buf_len sid offset : Z) (data : list Z) (fin with_len : bool)
    (g : option gres) : Prop :=
  exists len bs, g = Some (GOk bs)
  /\ bs = (sframe_head (negb (offset =? 0)) with_len fin :: vint sid ++ obytes offset ++ len) ++ data
  /\ blen bs <= buf_len /\ (with_len = false -> blen bs = buf_len /\ len = [])
  /\ Forall byte_ok len
  /\ (with_len = true -> forall (k : Z -> list Z -> pres stream_frame) p,
        Forall byte_ok p -> vread (len ++ p) (-1) k = k (blen data) p).

Lemma blen_stream t sid offset len data :
  blen ((t :: vint sid ++ obytes offset ++ len) ++ data)
  = stream_hdr sid offset + blen len + blen data.
Proof. unfold stream_hdr. blen. rewrite blen_obytes. destruct (offset =? 0); lia. Qed.

(** Frame without FIN known in advance. *)
Lemma gen_stream_data buf_len sid offset size gsf_read :
  vint_ok sid -> vint_ok offset -> 1 <= size <= VINT_MAX_VALUE ->
  stream_hdr sid offset < buf_len < 2 ^ 16 ->
  reader_ok buf_len (stream_hdr sid offset) size gsf_read ->
  exists n data fin, 0 < n <= size /\ gsf_read n = (data, fin)
  /\ stream_generated buf_len sid offset data fin (size <? buf_len - stream_hdr sid offset)
       (ietf_v1_gen_stream_frame buf_len sid offset false size gsf_read).
Proof.
  intros Hs Ho Hsz Hbuf Hread. unfold ietf_v1_gen_stream_frame. cbn [orb negb].
  replace (size =? 0) with false by lia. cbn [negb].
  set (olen := if offset =? 0 then 0 else Z.shiftl 1 (vint_val2bits offset)).
  assert (buf_len - (1 + Z.shiftl 1 (vint_val2bits sid) + olen) = buf_len - stream_hdr sid offset)
    as -> by (unfold stream_hdr, olen; rewrite !shiftl_val2bits; by destruct (offset =? 0)).
  assert ((if olen =? 0 then [] else vint_write offset (vint_val2bits offset) olen) = obytes offset)
    as ->.
  { unfold olen. rewrite olen_pos. unfold obytes. by destruct (offset =? 0). }
  assert (1 + olen + Z.shiftl 1 (vint_val2bits sid) = stream_hdr sid offset) as ->
    by (unfold stream_hdr, olen; rewrite !shiftl_val2bits; destruct (offset =? 0); lia).
  unfold olen. rewrite olen_pos. clear olen.
  assert (0 < stream_hdr sid offset) as Hh.
  { unfold stream_hdr. pose proof (vint_size_pos sid). pose proof (vint_size_pos offset).
    destruct (offset =? 0); lia. }
  rewrite (wrapu_id 32) by (unfold is_u; lia). rewrite !shiftl_val2bits.
  pose proof (vint_size_pos size) as Hds. set (h := stream_hdr sid offset) in *.
  destruct (Z.ltb_spec size (buf_len - h)) as [Hlt|Hge].
  - assert (vint_size size + 1 <= buf_len - h) as Hdl.
    { destruct (Z.lt_ge_cases size 64); [|lia].
      assert (vint_size size = 1); [|lia]. unfold vint_size, vint_val2bits.
      change (Z.shiftl 1 6) with 64. change (Z.shiftl 1 14) with 16384.
      change (Z.shiftl 1 30) with 1073741824. ztest. done. }
    rewrite (wrapu_id 32) by (unfold is_u; lia).
    set (n := if buf_len - h - vint_size size <? size then _ else size).
    assert (0 < n <= size /\ n <= buf_len - h - vint_size size) as [Hn1 Hn2].
    { unfold n. destruct (Z.ltb_spec (buf_len - h - vint_size size) size); lia. }
    replace (buf_len <? _) with false by lia.
    destruct (Hread n Hn1) as (Hr1 & Hr2 & _). destruct (gsf_read n) as [data fin] eqn:Er.
    cbn in Hr1, Hr2. replace (blen data =? 0) with false by lia.
    replace (blen data <=? n) with true by lia. replace (vint_size size =? 0) with false by lia.
    cbn [negb]. exists n, data, fin. split_and!; [lia..|done|].
    set (len := vint_write (blen data) (vint_val2bits size) (vint_size size)).
    assert (blen len = vint_size size) as Hll.
    { unfold len, blen. rewrite length_vint_write by lia. lia. }
    exists len. eexists. split; [|split; [reflexivity|]].
    { cbn [app]. unfold vint. by rewrite <- !app_assoc. }
    rewrite blen_stream. fold h. split_and!; try done.
    + lia.
    + apply vint_write_ok.
    + intros _ k p Hp. unfold len, vint_size. apply vread_write; [apply vint_val2bits_range| |done].
      pose proof (vint_val2bits_fits size ltac:(lia)). lia.
  - replace (buf_len <? _) with false by lia.
    destruct (Hread (buf_len - h) ltac:(lia)) as (Hr1 & Hr2 & Hr3).
    destruct (gsf_read (buf_len - h)) as [data fin] eqn:Er. cbn in Hr1, Hr2, Hr3.
    specialize (Hr3 ltac:(lia)).
    replace (blen data =? 0) with false by lia.
    replace (blen data <=? buf_len - h) with true by lia. cbn [negb Z.eqb].
    exists (buf_len - h), data, fin. split_and!; [lia..|done|].
    exists []. eexists. split; [|split; [reflexivity|]].
    { cbn [app]. rewrite app_nil_r. unfold vint. by rewrite <- !app_assoc. }
    rewrite blen_stream. fold h. change (blen []) with 0. split_and!; try done; [lia|].
    intros _. split; [lia|done].
Qed.

(** Frame that carries only FIN. *)
Lemma gen_stream_fin buf_len sid offset size gsf_read :
  vint_ok sid -> vint_ok offset -> stream_hdr sid offset <= buf_len ->
  stream_generated buf_len sid offset [] true (stream_hdr sid offset <? buf_len)
    (ietf_v1_gen_stream_frame buf_len sid offset true size gsf_read).
Proof.
  intros Hs Ho Hbuf. unfold ietf_v1_gen_stream_frame. cbn [orb negb].
  set (olen := if offset =? 0 then 0 else Z.shiftl 1 (vint_val2bits offset)).
  assert ((if olen =? 0 then [] else vint_write offset (vint_val2bits offset) olen) = obytes offset)
    as ->.
  { unfold olen. rewrite olen_pos. unfold obytes. by destruct (offset =? 0). }
  assert (1 + Z.shiftl 1 (vint_val2bits sid) + olen = stream_hdr sid offset) as ->
    by (unfold stream_hdr, olen; rewrite !shiftl_val2bits; destruct (offset =? 0); lia).
  unfold olen. rewrite olen_pos. clear olen.
  set (h := stream_hdr sid offset) in *.
  destruct (Z.ltb_spec h buf_len); cbn [b2z]; replace (buf_len <? _) with false by lia.
  - exists [0]. eexists. split; [|split; [reflexivity|]].
    { by rewrite app_nil_r. }
    rewrite blen_stream. fold h. change (blen [0]) with 1. change (blen []) with 0.
    split_and!; try done; try lia. auto with bytes.
  - exists []. eexists. split; [|split; [reflexivity|]].
    { cbn [Z.eqb app]. by rewrite !app_nil_r. }
    rewrite blen_stream. fold h. change (blen []) with 0. split_and!; try done; try lia.
    intros _. split; [lia|done].
Qed.

Lemma stream_parses buf_len sid offset data fin with_len g rest :
  vint_ok sid -> vint_ok offset -> buf_len < 2 ^ 16 -> Forall byte_ok data -> Forall byte_ok rest ->
  offset + blen data <= VINT_MAX_VALUE -> (with_len = false -> rest = []) ->
  stream_generated buf_len sid offset data fin with_len g ->
  exists bs, g = Some (GOk bs) /\ blen bs <= buf_len /\ (with_len = false -> blen bs = buf_len)
  /\ ietf_v1_parse_frame_type (bs ++ rest) = QUIC_FRAME_STREAM
  /\ exists off, ietf_v1_parse_stream_frame (bs ++ rest)
                  = POk (blen bs) (SF sid (b2z fin) offset (blen data) off)
     /\ slice bs off (blen data) = data.
Proof.
  intros Hs Ho Hb Hd Hr Hmax Hrest (len & bs & -> & -> & Hle & Hnl & Hlb & Hrd).
  eexists. split; [reflexivity|]. split_and!; [done|tauto| |].
  - pose proof (head_flags (negb (offset =? 0)) with_len fin) as (_ & _ & _ & _ & Ht). apply Ht.
  - eexists. split.
    + apply parse_stream_ok; try done.
      * rewrite blen_stream in Hle. pose proof (blen_nonneg len).
        assert (0 <= stream_hdr sid offset); [|lia]. unfold stream_hdr.
        pose proof (vint_size_pos sid). pose proof (vint_size_pos offset).
        destruct (offset =? 0); lia.
      * destruct with_len; [by apply Hrd|]. split; [by apply Hnl|by apply Hrest].
    + rewrite <- (app_nil_r data) at 1. apply slice_mid.
Qed.

(** ** CRYPTO frames *)

Lemma crypto_roundtrip_ok buf_len offset size gsf_read rest :
  vint_ok offset -> 1 <= size <= VINT_MAX_VALUE -> buf_len < 2 ^ 16 -> offset + size <= VINT_MAX_VALUE ->
  (forall n, 0 < n <= size -> 1 <= blen (gsf_read n).1 <= n /\ Forall byte_ok (gsf_read n).1) ->
  Forall byte_ok rest ->
  let need := ietf_v1_calc_crypto_frame_header_sz offset size + 1 in
  (buf_len < need -> ietf_v1_gen_crypto_frame buf_len offset size gsf_read = Some (GErr (-1)))
  /\ (need <= buf_len ->
     exists bs data, ietf_v1_gen_crypto_frame buf_len offset size gsf_read = Some (GOk bs)
     /\ data = (gsf_read (Z.min size (buf_len - need + 1))).1 /\ blen bs <= buf_len
     /\ ietf_v1_parse_frame_type (bs ++ rest) = QUIC_FRAME_CRYPTO
     /\ exists off, ietf_v1_parse_crypto_frame (bs ++ rest)
                     = Some (POk (blen bs) (SF (2 ^ 64 - 1) 0 offset (blen data) off))
        /\ slice bs off (blen data) = data).
Proof.
  intros Ho Hs Hb Hmax Hread Hr need. unfold ietf_v1_gen_crypto_frame,
    lsquic_ietf_v1_gen_crypto_frame. unfold need, ietf_v1_calc_crypto_frame_header_sz.
  rewrite !shiftl_val2bits. pose proof (vint_size_pos offset). pose proof (vint_size_pos size).
  replace (0 <? vint_size size) with true by lia. cbn [b2z]. split; intros Hn.
  { by replace (buf_len <? _) with true by lia. }
  replace (buf_len <? _) with false by lia.
  set (n := Z.min size _).
  assert ((if buf_len - 1 - vint_size offset - vint_size size <? size
           then buf_len - 1 - vint_size offset - vint_size size else size) = n) as ->.
  { unfold n. destruct (Z.ltb_spec (buf_len - 1 - vint_size offset - vint_size size) size); lia. }
  assert (0 < n <= size /\ n <= buf_len - 1 - vint_size offset - vint_size size) as [Hn1 Hn2]
    by (unfold n; lia).
  destruct (Hread n Hn1) as [Hr1 Hr2]. destruct (gsf_read n) as [data fin] eqn:Er.
  cbn in Hr1, Hr2. replace (blen data =? 0) with false by lia.
  replace (blen data <=? n) with true by lia. cbn [negb].
  set (len := vint_write (blen data) (vint_val2bits size) (vint_size size)).
  assert (blen len = vint_size size) as Hll.
  { unfold len, blen. rewrite length_vint_write by lia. lia. }
  eexists _, data. split; [reflexivity|]. pose proof (blen_nonneg rest).
  change ([6] ++ ?a ++ len ++ data) with (6 :: vint offset ++ len ++ data).
  split_and!; [done|blen; lia|done|]. exists (1 + vint_size offset + vint_size size). split.
  - unfold ietf_v1_parse_crypto_frame. cbn [app Z.eqb]. f_equal.
    unfold lsquic_ietf_v1_parse_crypto_frame. rewrite <- !app_assoc.
    assert (Forall byte_ok len) by apply vint_write_ok.
    rewrite vread_vint by auto with bytes. unfold len at 1, vint_size at 1.
    rewrite vread_write; [|apply vint_val2bits_range|
      pose proof (vint_val2bits_fits size ltac:(lia)); lia|auto with bytes].
    replace (_ <? blen data) with false by (blen; lia).
    replace (_ <? blen data) with false by lia.
    rewrite wrapu_id by (unfold is_u; lia). unfold used. f_equal; [blen; lia|].
    f_equal. blen. lia.
  - replace (6 :: vint offset ++ len ++ data) with ((6 :: vint offset ++ len) ++ data ++ [])
      by (cbn [app]; by rewrite app_nil_r, <- app_assoc).
    apply slice_mid_at; [blen; lia|done].
Qed.

(** ** Parsing arbitrary input *)

Lemma read_vint v p : vint_ok v -> Forall byte_ok p ->
  lsquic_varint_read (vint v ++ p) = Some (vint_size v, v).
Proof.
  intros Hv Hp. apply varint_read_write; [apply vint_val2bits_range| |done].
  pose proof (vint_val2bits_fits v Hv). unfold vint_ok in Hv. lia.
Qed.

Lemma drop_vint v p : drop (Z.to_nat (vint_size v)) (vint v ++ p) = p.
Proof. rewrite <- blen_vint. unfold blen. by rewrite Nat2Z.id, drop_app_length. Qed.

Lemma vread_inv {A} p err (k : Z -> list Z -> pres A) n a :
  Forall byte_ok p -> vread p err k = POk n a ->
  exists v q r, p = q ++ r /\ 1 <= blen q /\ vint_ok v /\ k v r = POk n a.
Proof.
  intros Hp. unfold vread. destruct (lsquic_varint_read p) as [[r v]|] eqn:E; [|done].
  intros Hk. pose proof (varint_read_inv _ _ _ Hp E) as (b & Hb & Hr & Hv & Hlen).
  assert (1 <= r) by (rewrite Hr, Z.shiftl_1_l; change 1 with (2 ^ 0); apply Z.pow_le_mono_r; lia).
  exists v, (take (Z.to_nat r) p), (drop (Z.to_nat r) p). rewrite take_drop.
  split_and!; try done.
  - unfold blen. rewrite length_take. lia.
  - pose proof (vint_max_b_mono b 3 ltac:(lia) ltac:(lia)).
    change (VINT_MAX_B 3) with VINT_MAX_VALUE in *. unfold vint_ok. lia.
Qed.

Lemma parse_stream_data_inv buf ty sid offset q p n sf :
  buf = q ++ p -> Forall byte_ok p -> vint_ok offset -> blen buf < 2 ^ 16 ->
  parse_stream_data buf ty sid offset p = POk n sf ->
  sf_stream_id sf = sid /\ sf_offset sf = offset /\ sf_fin sf = Z.land ty 1
  /\ blen q <= sf_data_off sf /\ 0 <= sf_size sf /\ n = sf_data_off sf + sf_size sf
  /\ n <= blen buf /\ sf_offset sf + sf_size sf <= VINT_MAX_VALUE.
Proof.
  intros -> Hp Ho Hb. unfold parse_stream_data. pose proof (blen_nonneg q). pose proof (blen_nonneg p).
  cbv zeta. destruct (has_flag ty 2).
  - intros (v & a & r & -> & Ha & Hv & Hk)%vread_inv; [|done]. cbn beta in Hk.
    destruct (Z.ltb_spec (blen r) v); [done|].
    destruct (Z.ltb_spec (VINT_MAX_VALUE - offset) v); [done|].
    injection Hk as <- <-. cbn. unfold vint_ok in *. blen.
    rewrite wrapu_id by (unfold is_u; lia). unfold used. blen. lia.
  - destruct (Z.ltb_spec (VINT_MAX_VALUE - offset) (blen p)); [done|]. intros [= <- <-].
    cbn. blen. rewrite wrapu_id by (unfold is_u; lia). unfold used. blen. lia.
Qed.

Lemma vint_ok_0 : vint_ok 0.
Proof. unfold vint_ok. change VINT_MAX_VALUE with (2 ^ 62 - 1). lia. Qed.

Lemma stream_parse_inv buf n sf :
  Forall byte_ok buf -> blen buf < 2 ^ 16 -> ietf_v1_parse_stream_frame buf = POk n sf ->
  vint_ok (sf_stream_id sf) /\ vint_ok (sf_offset sf) /\ 2 <= sf_data_off sf /\ 0 <= sf_size sf
  /\ n = sf_data_off sf + sf_size sf /\ n <= blen buf
  /\ sf_offset sf + sf_size sf <= VINT_MAX_VALUE.
Proof.
  intros Hok Hb. destruct buf as [|ty p]; [done|]. unfold ietf_v1_parse_stream_frame.
  apply Forall_cons in Hok as [Hty Hok].
  intros (sid & a & p1 & -> & Ha & Hsid & Hk)%vread_inv; [|done].
  apply Forall_app in Hok as [_ Hok]. destruct (has_flag ty 4).
  - apply vread_inv in Hk as (offset & a2 & p2 & -> & Ha2 & Hoff & Hk); [|done].
    apply Forall_app in Hok as [_ Hok].
    apply (parse_stream_data_inv _ _ _ _ (ty :: a ++ a2)) in Hk as (E1 & E2 & _ & ? & ? & ? & ? & ?); try done.
    + rewrite E1, E2 in *. blen. split_and!; try done; lia.
    + cbn. by rewrite <- app_assoc.
  - apply (parse_stream_data_inv _ _ _ _ (ty :: a)) in Hk as (E1 & E2 & _ & ? & ? & ? & ? & ?); try done.
    + rewrite E1, E2 in *. blen. split_and!; try done; lia.
Qed.

(** * Properties *)

(** C35: Control frames round trip.  For every control frame with values in
    range, the generator fails exactly when the buffer is smaller than the
    frame's size function says; otherwise it writes exactly that many bytes,
    the frame type is recognised from them, and the parser of that type
    returns the same values and the number of bytes written, whatever follows
    the frame in the packet. *)
Theorem control_frame_roundtrip n f rest :
  frame_ok f -> Forall byte_ok rest -> blen rest < 2 ^ 31 -> frame_roundtrips n f rest.
Proof. intros. by apply frame_roundtrip_all. Qed.

Lemma control_frame_roundtrip_witness :
  frame_roundtrips 64 (FConnectionClose false 10 [111; 107]) [1; 2; 3].
Proof.
  apply control_frame_roundtrip.
  - split; [vm_compute; split; discriminate|]. split; [vm_compute; discriminate|].
    repeat constructor; vm_compute; first [discriminate|reflexivity].
  - repeat constructor; vm_compute; first [discriminate|reflexivity].
  - reflexivity.
Defined.

(** C34: STREAM frames round trip.  With room for the header and one byte, and a
    data source that delivers at least one byte (all that is asked for when
    the data reaches the end of the buffer), the generated frame fits the
    buffer and is recognised and parsed back to the same stream ID, offset,
    FIN flag and data.  A frame whose data reaches the end of the buffer
    carries no length field and fills the buffer exactly; any other frame
    carries a length field and may be followed by more frames. *)
Theorem stream_frame_roundtrip buf_len sid offset size gsf_read rest :
  vint_ok sid -> vint_ok offset -> 1 <= size -> offset + size <= VINT_MAX_VALUE ->
  stream_hdr sid offset < buf_len < 2 ^ 16 ->
  reader_ok buf_len (stream_hdr sid offset) size gsf_read -> Forall byte_ok rest ->
  let with_len := size <? buf_len - stream_hdr sid offset in
  (with_len = false -> rest = []) ->
  exists m data fin bs, 0 < m <= size /\ gsf_read m = (data, fin)
  /\ ietf_v1_gen_stream_frame buf_len sid offset false size gsf_read = Some (GOk bs)
  /\ blen bs <= buf_len /\ (with_len = false -> blen bs = buf_len)
  /\ ietf_v1_parse_frame_type (bs ++ rest) = QUIC_FRAME_STREAM
  /\ exists off, ietf_v1_parse_stream_frame (bs ++ rest)
                 = POk (blen bs) (SF sid (b2z fin) offset (blen data) off)
     /\ slice bs off (blen data) = data.
Proof.
  intros Hs Ho Hsz Hmax Hbuf Hread Hr with_len Hrest.
  assert (0 <= offset) by apply Ho.
  destruct (gen_stream_data buf_len sid offset size gsf_read)
    as (m & data & fin & Hm & Er & Hgen); try done; [lia|].
  destruct (Hread m Hm) as (Hd1 & Hd2 & _). rewrite Er in Hd1, Hd2. cbn in Hd1, Hd2.
  destruct (stream_parses buf_len sid offset data fin with_len _ rest Hs Ho ltac:(lia) Hd2 Hr ltac:(lia) Hrest Hgen)
    as (bs & ? & ? & ? & ? & ?).
  by exists m, data, fin, bs.
Qed.

Lemma stream_frame_roundtrip_witness :
  exists m data fin bs, 0 < m <= 3
  /\ (fun n => (take (Z.to_nat n) [104; 105; 33], true)) m = (data, fin)
  /\ ietf_v1_gen_stream_frame 20 4 1000 false 3
       (fun n => (take (Z.to_nat n) [104; 105; 33], true)) = Some (GOk bs)
  /\ ietf_v1_parse_frame_type (bs ++ [1]) = QUIC_FRAME_STREAM.
Proof.
  destruct (stream_frame_roundtrip 20 4 1000 3
    (fun n => (take (Z.to_nat n) [104; 105; 33], true)) [1])
    as (m & data & fin & bs & H1 & H2 & H3 & _ & _ & H6 & _).
  - vm_compute. split; discriminate.
  - vm_compute. split; discriminate.
  - lia.
  - vm_compute. discriminate.
  - vm_compute. split; reflexivity.
  - intros n Hn. assert (n = 1 \/ n = 2 \/ n = 3) as Hc by lia.
    destruct Hc as [-> | [-> | -> ]]; (split; [vm_compute; split; discriminate|]);
      (split; [repeat constructor; vm_compute; first [discriminate|reflexivity]|reflexivity]).
  - repeat constructor; vm_compute; first [discriminate|reflexivity].
  - intros H. vm_compute in H. discriminate.
  - exists m, data, fin, bs. split; [exact H1|]. split; [exact H2|]. split; [exact H3|exact H6].
Defined.

(** A STREAM frame that only signals the end of the stream round trips: with
    room for its header it is generated without asking the data source, it
    has a zero length field unless it fills the buffer, and it parses back to
    the stream ID and offset with FIN set and no data. *)
Theorem stream_fin_roundtrip buf_len sid offset size gsf_read rest :
  vint_ok sid -> vint_ok offset -> stream_hdr sid offset <= buf_len < 2 ^ 16 ->
  Forall byte_ok rest ->
  let with_len := stream_hdr sid offset <? buf_len in
  (with_len = false -> rest = []) ->
  exists bs, ietf_v1_gen_stream_frame buf_len sid offset true size gsf_read = Some (GOk bs)
  /\ blen bs <= buf_len
  /\ exists off, ietf_v1_parse_stream_frame (bs ++ rest) = POk (blen bs) (SF sid 1 offset 0 off).
Proof.
  intros Hs Ho Hbuf Hr with_len Hrest.
  pose proof (gen_stream_fin buf_len sid offset size gsf_read Hs Ho (proj1 Hbuf)) as Hgen.
  assert (offset <= VINT_MAX_VALUE) by apply Ho.
  destruct (stream_parses buf_len sid offset [] true with_len _ rest Hs Ho (proj2 Hbuf) (Forall_nil_2 _) Hr
    ltac:(change (blen []) with 0; lia) Hrest Hgen) as (bs & Hg & Hl & _ & _ & off & Hp & _).
  exists bs. split_and!; [done|done|]. by exists off.
Qed.

Lemma stream_fin_roundtrip_witness :
  exists bs, ietf_v1_gen_stream_frame 10 8 77 true 0 (fun _ => ([], false)) = Some (GOk bs)
  /\ exists off, ietf_v1_parse_stream_frame (bs ++ [6]) = POk (blen bs) (SF 8 1 77 0 off).
Proof.
  destruct (stream_fin_roundtrip 10 8 77 0 (fun _ => ([], false)) [6]) as (bs & H1 & _ & H3).
  - vm_compute. split; discriminate.
  - vm_compute. split; discriminate.
  - vm_compute. split; [discriminate|reflexivity].
  - repeat constructor; vm_compute; first [discriminate|reflexivity].
  - intros H. vm_compute in H. discriminate.
  - exists bs. split; [exact H1|exact H3].
Defined.

(** CRYPTO frames round trip: the generator fails exactly when the buffer
    has no room for the header the size function counts and one byte of data;
    otherwise the frame fits, and it is recognised and parsed back to the
    offset and the data that was read. *)
Theorem crypto_frame_roundtrip buf_len offset size gsf_read rest :
  vint_ok offset -> 1 <= size <= VINT_MAX_VALUE -> buf_len < 2 ^ 16 ->
  offset + size <= VINT_MAX_VALUE ->
  (forall n, 0 < n <= size -> 1 <= blen (gsf_read n).1 <= n /\ Forall byte_ok (gsf_read n).1) ->
  Forall byte_ok rest ->
  let need := ietf_v1_calc_crypto_frame_header_sz offset size + 1 in
  (buf_len < need -> ietf_v1_gen_crypto_frame buf_len offset size gsf_read = Some (GErr (-1)))
  /\ (need <= buf_len ->
     exists bs data, ietf_v1_gen_crypto_frame buf_len offset size gsf_read = Some (GOk bs)
     /\ data = (gsf_read (Z.min size (buf_len - need + 1))).1 /\ blen bs <= buf_len
     /\ ietf_v1_parse_frame_type (bs ++ rest) = QUIC_FRAME_CRYPTO
     /\ exists off, ietf_v1_parse_crypto_frame (bs ++ rest)
                     = Some (POk (blen bs) (SF (2 ^ 64 - 1) 0 offset (blen data) off))
        /\ slice bs off (blen data) = data).
Proof. apply crypto_roundtrip_ok. Qed.

Lemma crypto_frame_roundtrip_witness :
  exists bs data, ietf_v1_gen_crypto_frame 6 70 5 (fun n => (replicate (Z.to_nat n) 9, false))
    = Some (GOk bs)
  /\ data = replicate 2 9
  /\ ietf_v1_parse_frame_type (bs ++ []) = QUIC_FRAME_CRYPTO.
Proof.
  destruct (crypto_frame_roundtrip 6 70 5 (fun n => (replicate (Z.to_nat n) 9, false)) [])
    as [_ H].
  - vm_compute. split; discriminate.
  - vm_compute. split; discriminate.
  - reflexivity.
  - vm_compute. discriminate.
  - intros n Hn. split.
    + cbn. unfold blen. rewrite length_replicate. lia.
    + apply Forall_replicate. split; [discriminate|reflexivity].
  - constructor.
  - destruct H as (bs & data & H1 & H2 & _ & H4 & _); [vm_compute; discriminate|].
    exists bs, data. split; [exact H1|]. split; [exact H2|exact H4].
Defined.

(** The STREAM frame parser is safe on arbitrary bytes.  Whatever a packet
    of less than 64 KB contains, a frame the parser accepts lies within the
    packet, its data is the last part of the bytes used, its stream ID and
    offset are varints, and the end of its data does not exceed the largest
    stream offset 2^62 - 1. *)
Theorem stream_parse_safe buf n sf :
  Forall byte_ok buf -> blen buf < 2 ^ 16 -> ietf_v1_parse_stream_frame buf = POk n sf ->
  vint_ok (sf_stream_id sf) /\ vint_ok (sf_offset sf) /\ 2 <= sf_data_off sf /\ 0 <= sf_size sf
  /\ n = sf_data_off sf + sf_size sf /\ n <= blen buf
  /\ sf_offset sf + sf_size sf <= VINT_MAX_VALUE.
Proof. apply stream_parse_inv. Qed.

Lemma stream_parse_safe_witness :
  exists sf, ietf_v1_parse_stream_frame [0x0b; 4; 2; 7; 8; 9] = POk 5 sf /\ sf_data_off sf = 3.
Proof.
  exists (SF 4 1 0 2 3). split; [reflexivity|].
  destruct (stream_parse_safe [0x0b; 4; 2; 7; 8; 9] 5 (SF 4 1 0 2 3)) as (_ & _ & _ & _ & H & _).
  - repeat constructor; vm_compute; first [discriminate|reflexivity].
  - reflexivity.
  - reflexivity.
  - reflexivity.
Defined.
