(* ===== verification/Ack.v ===== *)
(** The ACK frame of IETF QUIC v1: [ietf_v1_gen_ack_frame] and
    [ietf_v1_parse_ack_frame] of lsquic_parse_ietf_v1.c.

    The generator is handed a history of received packets through three
    function pointers ([rechist_first], [rechist_next],
    [rechist_largest_recv]); here they are the operations of a typeclass, the
    frame theorems are proved against its law, and Rechist.v's history is an
    instance. *)
From S2P Require Import Prelude Varint Ranges Frames FramesThms Rechist RechistSpec RechistThms.
Local Open Scope Z_scope.

(** ** What the generator is given *)

#[export] Instance rechist_source : RangeSource lsquic_rechist := {
  src_first := lsquic_rechist_first;
  src_next := lsquic_rechist_next;
  src_largest_recv := lsquic_rechist_largest_recv
}.

(** ** Generation *)

Definition TP_DEF_ACK_DELAY_EXP : Z := 3.

(** The [while] loop: [w] is [p - outbuf], [n] is [addl_ack_blocks]; the bytes
    of the additional blocks are collected in [blocks].  The [memmove] that
    makes room for a second byte of the block count moves [p] by one.  Writing
    behind [outbuf_sz] is undefined. *)
Fixpoint ack_loop {S} `{RangeSource S} (fuel : nat) (outbuf_sz ecn_needs : Z) (s : S)
    (w n prev_low : Z) (blocks : list Z) : option (Z * Z * list Z) :=
  match fuel with
  | O => None
  | Datatypes.S fuel =>
    '(r, s) ← src_next s;
    match r with
    | None => Some (w, n, blocks)
    | Some (low, high) =>
      let gap := u64 (prev_low - high - 1) in
      let rsize := u64 (high - low) in
      let a := Z.shiftl 1 (vint_val2bits (u64 (gap - 1))) in
      let b := Z.shiftl 1 (vint_val2bits rsize) in
      if u32 (outbuf_sz - w) <? ecn_needs + a + b then Some (w, n, blocks) else
      let w := if n =? VINT_MAX_ONE_BYTE then w + 1 else w in
      if outbuf_sz <? w + a + b then None else
      ack_loop fuel outbuf_sz ecn_needs s (w + a + b) (u32 (n + 1)) low
        (blocks ++ vint (u64 (gap - 1)) ++ vint rsize)
    end
  end.

(** The ECN counts [ecn_counts[1]], [ecn_counts[2]], [ecn_counts[3]]; they are
    written in the order of [ecnmap]. *)
Definition ecn_t : Type := (Z * Z * Z)%type.

Definition ecn_needs (ecn : option ecn_t) : Z :=
  match ecn with
  | Some (c1, c2, c3) => Z.shiftl 1 (vint_val2bits c1) + Z.shiftl 1 (vint_val2bits c2)
                         + Z.shiftl 1 (vint_val2bits c3)
  | None => 0
  end.

Definition ecn_bytes (ecn : option ecn_t) : list Z :=
  match ecn with Some (c1, c2, c3) => vint c2 ++ vint c1 ++ vint c3 | None => [] end.

(** The bytes, [*has_missing] and [*largest_received]; GErr is -1. *)
Inductive ack_res := AErr (code : Z) | AOk (bytes : list Z) (has_missing : bool) (largest : Z).

Definition ietf_v1_gen_ack_frame {S} `{RangeSource S} (fuel : nat) (outbuf_sz : Z) (rechist : S)
    (now : Z) (ecn : option ecn_t) : option ack_res :=
  '(r, rechist) ← src_first rechist;
  match r with
  | None => Some (AErr (-1))
  | Some (low, maxno) =>
    let time_diff := Z.shiftr (u64 (now - src_largest_recv rechist)) TP_DEF_ACK_DELAY_EXP in
    let packno_diff := u64 (maxno - low) in
    let sz := 1 + Z.shiftl 1 (vint_val2bits maxno) + Z.shiftl 1 (vint_val2bits time_diff) + 1
              + Z.shiftl 1 (vint_val2bits packno_diff) in
    if outbuf_sz <? sz then Some (AErr (-1)) else
    let head := [0x02 + b2z (bool_decide (is_Some ecn))] ++ vint maxno ++ vint time_diff in
    '(w, n, blocks) ← ack_loop fuel outbuf_sz (ecn_needs ecn) rechist sz 0 low [];
    let big := VINT_MAX_ONE_BYTE <? n in
    let count := vint_write n (b2z big) (1 + b2z big) in
    if bool_decide (is_Some ecn) && negb (ecn_needs ecn <=? u32 (outbuf_sz - w)) then None else
    Some (AOk (head ++ count ++ vint packno_diff ++ blocks ++ ecn_bytes ecn) (0 <? n) maxno)
  end.

(** ** Parsing *)

Definition AI_ECN : Z := Z.shiftl 1 0.
Definition AI_TRUNCATED : Z := Z.shiftl 1 1.

Record ack_info := AI {
  ai_flags : Z;
  ai_n_ranges : Z;
  ai_lack_delta : Z;
  ai_ecn : option ecn_t;
  ai_ranges : list range        (* the elements written, at most 256 *)
}.

Definition N_RANGES : Z := 256.

(** The [for] loop: [ranges] holds the elements stored so far, [prev_low] is
    the low end of the last one. *)
Fixpoint parse_ack_loop (fuel : nat) (p : list Z) (i block_count prev_low : Z) (ranges : list range)
    (k : list Z -> Z -> list range -> pres ack_info) : option (pres ack_info) :=
  match fuel with
  | O => None
  | S fuel =>
    if i <=? block_count then
      match lsquic_varint_read p with
      | None => Some (PErr (-1))
      | Some (r, gap) =>
        let p := drop (Z.to_nat r) p in
        match lsquic_varint_read p with
        | None => Some (PErr (-1))
        | Some (r, block) =>
          let p := drop (Z.to_nat r) p in
          if i <? N_RANGES then
            let high := u64 (prev_low - gap - 2) in
            let low := u64 (high - block) in
            if (prev_low <=? high) || (high <? low) then Some (PErr (-1))
            else parse_ack_loop fuel p (u32 (i + 1)) block_count low (ranges ++ [(low, high)]) k
          else parse_ack_loop fuel p (u32 (i + 1)) block_count prev_low ranges k
        end
      end
    else Some (k p i ranges)
  end.

(** What follows the loop: the flags, the number of ranges, the ECN counts. *)
Definition parse_ack_end (buf : list Z) (lack_delta block_count : Z) (p : list Z) (i : Z)
    (ranges : list range) : pres ack_info :=
  let '(flags, n_ranges) :=
    if i <? N_RANGES then (0, u32 (block_count + 1)) else (AI_TRUNCATED, N_RANGES) in
  if match buf with b :: _ => b =? 0x03 | [] => false end then
    vread p (-1) (fun c2 p => vread p (-1) (fun c1 p => vread p (-1) (fun c3 p =>
    POk (used buf p) (AI (Z.lor flags AI_ECN) n_ranges lack_delta (Some (c1, c2, c3)) ranges))))
  else POk (used buf p) (AI flags n_ranges lack_delta None ranges).

Definition ietf_v1_parse_ack_frame (buf : list Z) (exp : Z) : option (pres ack_info) :=
  match lsquic_varint_read (tail buf) with
  | None => Some (PErr (-1))
  | Some (r, high) =>
    let p := drop (Z.to_nat r) (tail buf) in
    match lsquic_varint_read p with
    | None => Some (PErr (-1))
    | Some (r, delta) =>
      let p := drop (Z.to_nat r) p in
      if 64 <=? exp then None else                  (* the shift is undefined *)
      let lack_delta := u64 (Z.shiftl delta exp) in
      match lsquic_varint_read p with
      | None => Some (PErr (-1))
      | Some (r, block_count) =>
        let p := drop (Z.to_nat r) p in
        match lsquic_varint_read p with
        | None => Some (PErr (-1))
        | Some (r, block) =>
          let low := u64 (high - block) in
          if high <? low then Some (PErr (-1)) else
          let p := drop (Z.to_nat r) p in
          parse_ack_loop (S (length buf)) p 1 block_count low [(low, high)]
            (parse_ack_end buf lack_delta block_count)
        end
      end
    end
  end.

(** * The receive history yields its ranges *)

Lemma nexts_ok idxs rs b rh :
  lseg (rh_elems rh) (rh_iter_next rh) idxs rs UINT_MAX ->
  Z.of_nat (length (rh_elems rh)) <= 2 ^ 31 ->
  ranges_ok b rs -> b <= PN_BOUND -> nexts rh rs.
Proof.
  revert idxs b rh. induction rs as [|[l h] rs IH]; intros idxs b rh Hseg Hlen Hok Hb;
    cbn [nexts src_next rechist_source]; unfold lsquic_rechist_next.
  - destruct idxs; [|done]. cbn in Hseg. rewrite Hseg, Z.eqb_refl. by eexists.
  - destruct idxs as [|i idxs]; [done|]. pose proof Hseg as (-> & el & Hel & Hl & Hc & Hrest).
    pose proof (aget_lt _ _ _ Hel). cbn in Hok. destruct Hok as (H1 & H2 & Hok).
    replace (i =? UINT_MAX) with false by (unfold UINT_MAX; lia).
    rewrite Hel. cbn [mbind option_bind]. rewrite (re_high_ok el l h b) by done. rewrite Hl.
    eexists. split; [reflexivity|].
    apply (IH idxs l); [exact Hrest|done|done|unfold PN_BOUND in *; lia].
Qed.

#[export] Instance rechist_source_spec : RangeSourceSpec lsquic_rechist view.
Proof.
  intros rh rs Hv. pose proof (view_empty _ _ Hv) as Hemp. destruct Hv as [idxs Hwf].
  destruct rs as [|[l h] rs]; cbn [yields src_first rechist_source]; unfold lsquic_rechist_first.
  { destruct (Z.eqb_spec (rh_n_used rh) 0) as [E|E]; [by eexists|tauto]. }
  destruct (Z.eqb_spec (rh_n_used rh) 0) as [E|E]; [by apply Hemp in E|].
  pose proof (wf_seg _ _ _ Hwf) as [[_ ?]|Hseg]; [done|]. destruct idxs as [|i idxs]; [done|].
  pose proof Hseg as (-> & el & Hel & Hl & Hc & Hrest). rewrite Hel. cbn [mbind option_bind].
  pose proof (wf_rs _ _ _ Hwf) as Hok. cbn in Hok. destruct Hok as (H1 & H2 & Hok).
  rewrite (re_high_ok el l h PN_BOUND) by done. rewrite Hl.
  pose proof (sl_len _ _ (wf_slots _ _ _ Hwf)). pose proof (sl_alloc _ _ (wf_slots _ _ _ Hwf)).
  eexists. split; [reflexivity|]. split; [|done].
  apply (nexts_ok idxs rs l); [exact Hrest|cbn; lia|done|unfold PN_BOUND in *; lia].
Qed.

(** * Encoding of the additional blocks *)

Fixpoint blocks_enc (prev_low : Z) (rs : list range) : list Z :=
  match rs with
  | [] => []
  | (l, h) :: rs => vint (prev_low - h - 2) ++ vint (h - l) ++ blocks_enc l rs
  end.

Lemma blocks_enc_bytes b rs : Forall byte_ok (blocks_enc b rs).
Proof. revert b. induction rs as [|[l h] rs IH]; intros b; cbn; auto with bytes. Qed.
#[export] Hint Resolve blocks_enc_bytes : bytes.

Lemma blen_blocks_ge rs b : 2 * Z.of_nat (length rs) <= blen (blocks_enc b rs).
Proof.
  revert b. induction rs as [|[l h] rs IH]; intros b; cbn [blocks_enc length]; [done|].
  blen. pose proof (vint_size_pos (b - h - 2)). pose proof (vint_size_pos (h - l)).
  specialize (IH l). lia.
Qed.

Lemma pn_vint_ok z : 0 <= z < PN_BOUND - 1 -> vint_ok z.
Proof. unfold PN_BOUND, vint_ok. change VINT_MAX_VALUE with (2 ^ 62 - 1). lia. Qed.

(** Width of the block count: one byte, or two from the 64th block on. *)
Definition count_extra (n : Z) : Z := if n <=? 63 then 0 else 1.

Lemma count_extra_range n : 0 <= count_extra n <= 1.
Proof. unfold count_extra. destruct (_ <=? _); lia. Qed.

(** Where the generator stands after [k] more blocks. *)
Definition loop_pos (w n prev_low : Z) (rs : list range) (k : nat) : Z :=
  w + blen (blocks_enc prev_low (take k rs)) + (count_extra (n + Z.of_nat k) - count_extra n).

Lemma loop_pos_0 w n b rs : loop_pos w n b rs 0 = w.
Proof. unfold loop_pos. rewrite take_0. cbn [blocks_enc]. change (blen []) with 0.
  replace (n + Z.of_nat 0) with n by lia. lia. Qed.

Lemma loop_pos_cons w n b l h rs k :
  loop_pos w n b ((l, h) :: rs) (S k)
  = loop_pos (w + (count_extra (n + 1) - count_extra n) + vint_size (b - h - 2) + vint_size (h - l))
             (n + 1) l rs k.
Proof.
  unfold loop_pos. cbn [take blocks_enc]. rewrite !blen_app, !blen_vint.
  replace (n + Z.of_nat (S k)) with (n + 1 + Z.of_nat k) by lia. lia.
Qed.

Lemma count_extra_mono n m : n <= m -> count_extra n <= count_extra m.
Proof. intros. unfold count_extra. destruct (Z.leb_spec n 63), (Z.leb_spec m 63); lia. Qed.

Lemma blocks_take_mono rs b k k' : (k <= k' <= length rs)%nat ->
  blen (blocks_enc b (take k rs)) + 2 * Z.of_nat (k' - k) <= blen (blocks_enc b (take k' rs)).
Proof.
  revert b k k'. induction rs as [|[l h] rs IH]; intros b k k' Hk; cbn [length] in Hk.
  { replace k' with 0%nat by lia. replace k with 0%nat by lia. cbn. lia. }
  destruct k as [|k]; destruct k' as [|k']; cbn [take blocks_enc]; try (cbn; lia).
  - pose proof (blen_blocks_ge (take k' rs) l) as Hge. rewrite length_take in Hge.
    change (blen []) with 0. blen. pose proof (vint_size_pos (b - h - 2)). pose proof (vint_size_pos (h - l)). lia.
  - blen. specialize (IH l k k' ltac:(lia)). lia.
Qed.

(** The loop writes the blocks of the longest prefix of the ranges that fits,
    except that it overruns the space by the byte it does not count when the
    64th block ends exactly at the end of the space. *)
Lemma ack_loop_ok {S} `{RangeSource S} fuel sz ecn (s : S) w n prev_low blocks rs :
  nexts s rs -> ranges_ok prev_low rs -> prev_low <= PN_BOUND -> (length rs < fuel)%nat ->
  0 <= n -> 0 <= ecn -> 2 * n <= w -> w + ecn <= sz <= 2 ^ 15 ->
  let pos := loop_pos w n prev_low rs in
  exists k, (k <= length rs)%nat /\ pos k + ecn <= sz /\ n + Z.of_nat k <= 2 ^ 14
    /\ (k = length rs \/ sz < pos (Datatypes.S k) + ecn)
    /\ let over := n + Z.of_nat k = 63 /\ (k < length rs)%nat /\ pos (Datatypes.S k) + ecn = sz + 1 in
       (~ over /\ ack_loop fuel sz ecn s w n prev_low blocks
                  = Some (pos k, n + Z.of_nat k, blocks ++ blocks_enc prev_low (take k rs)))
       \/ (over /\ (ack_loop fuel sz ecn s w n prev_low blocks = None
                    \/ 0 < ecn /\ exists n' bs,
                       ack_loop fuel sz ecn s w n prev_low blocks = Some (pos (Datatypes.S k), n', bs))).
Proof.
  revert s w n prev_low blocks fuel. induction rs as [|[l h] rs IH];
    intros s w n prev_low blocks fuel Hn Hok Hp Hf H0 He Hw Hsz pos; unfold pos; clear pos;
    (destruct fuel as [|fuel]; [lia|]); cbn [ack_loop]; destruct Hn as (s' & Hs & Hn) || destruct Hn as (s' & Hs);
    rewrite Hs; cbn [mbind option_bind].
  { exists 0%nat. rewrite loop_pos_0. split_and!; try (cbn; lia). left. rewrite Z.add_0_r.
    cbn [take blocks_enc length]. rewrite app_nil_r. split; [lia|done]. }
  cbn [length] in *. cbn in Hok. destruct Hok as (H1 & H2 & Hok). unfold PN_BOUND in Hp.
  rewrite (wrapu_id 64 (prev_low - h - 1)), (wrapu_id 64 (h - l)) by (unfold is_u; lia).
  rewrite (wrapu_id 64) by (unfold is_u; lia).
  replace (prev_low - h - 1 - 1) with (prev_low - h - 2) by lia.
  rewrite (wrapu_id 32 (sz - w)) by (unfold is_u; lia). rewrite !shiftl_val2bits.
  pose proof (vint_size_pos (prev_low - h - 2)) as Ha. pose proof (vint_size_pos (h - l)) as Hb.
  set (w1 := if n =? VINT_MAX_ONE_BYTE then w + 1 else w).
  assert (w1 = w + (count_extra (n + 1) - count_extra n)
          /\ w1 = w + (if n =? 63 then 1 else 0)) as [Ew Ew'].
  { unfold w1, count_extra. change VINT_MAX_ONE_BYTE with 63.
    destruct (Z.eqb_spec n 63), (Z.leb_spec (n + 1) 63), (Z.leb_spec n 63); lia. }
  assert (loop_pos w n prev_low ((l, h) :: rs) 1 = w1 + vint_size (prev_low - h - 2) + vint_size (h - l)) as E1.
  { rewrite loop_pos_cons, loop_pos_0. lia. }
  assert (n <= 2 ^ 14) by lia.
  destruct (Z.ltb_spec (sz - w) (ecn + vint_size (prev_low - h - 2) + vint_size (h - l))).
  { exists 0%nat. rewrite loop_pos_0, E1, Z.add_0_r. destruct (Z.eqb_spec n 63); split_and!; try lia;
    left; cbn [take blocks_enc]; rewrite app_nil_r; (split; [lia|done]). }
  destruct (decide (n = 63 /\ w + ecn + vint_size (prev_low - h - 2) + vint_size (h - l) = sz)) as [[Hn63 Hfull]|Hfit].
  { exists 0%nat. rewrite loop_pos_0, E1, Z.add_0_r. replace (n =? 63) with true in Ew' by lia.
    split_and!; try lia. right. split; [lia|].
    destruct (Z.ltb_spec sz (w1 + vint_size (prev_low - h - 2) + vint_size (h - l))); [by left|right].
    split; [lia|]. destruct fuel as [|fuel]; [lia|]. cbn [ack_loop].
    destruct rs as [|[l2 h2] rs]; [destruct Hn as [s2 ->]|destruct Hn as (s2 & -> & _)];
      cbn [mbind option_bind]; [by do 2 eexists|].
    rewrite (wrapu_id 32 (sz - _)) by (unfold is_u; lia). rewrite !shiftl_val2bits.
    set (g := u64 (u64 (l - h2 - 1) - 1)). set (r := u64 (h2 - l2)).
    pose proof (vint_size_pos g). pose proof (vint_size_pos r).
    replace (sz - _ <? _) with true by (symmetry; apply Z.ltb_lt; lia). by do 2 eexists. }
  assert (w1 + vint_size (prev_low - h - 2) + vint_size (h - l) + ecn <= sz) as Hle.
  { destruct (Z.eqb_spec n 63); lia. }
  replace (sz <? _) with false by (symmetry; apply Z.ltb_ge; lia).
  rewrite (wrapu_id 32) by (unfold is_u; lia).
  assert (0 <= w1 - w) by (destruct (n =? 63); lia).
  destruct (IH s' (w1 + vint_size (prev_low - h - 2) + vint_size (h - l)) (n + 1) l
    (blocks ++ vint (prev_low - h - 2) ++ vint (h - l)) fuel) as (k & Hk & Hpos & Hn14 & Hall & Hres);
    try done; try (unfold PN_BOUND; lia).
  exists (Datatypes.S k). rewrite !loop_pos_cons, <- Ew.
  replace (n + 1 + Z.of_nat k) with (n + Z.of_nat (Datatypes.S k)) in * by lia.
  split_and!; [lia|done|done|destruct Hall; [left|right]; lia|].
  destruct Hres as [[Ho ->]|[Ho Hres]]; [left|right].
  - split; [lia|]. f_equal. f_equal. cbn [take blocks_enc]. by rewrite <- !app_assoc.
  - split; [lia|done].
Qed.

(** * Reading the blocks back *)

(** The parser stores the ranges up to the 256th and skips the others. *)
Lemma parse_loop_ok rs b prev_low fuel p i ranges k :
  ranges_ok b rs -> b <= PN_BOUND -> (i < 256 -> prev_low = b) -> Forall byte_ok p -> 1 <= i ->
  i + Z.of_nat (length rs) < 2 ^ 32 -> (length rs < fuel)%nat ->
  parse_ack_loop fuel (blocks_enc b rs ++ p) i (i - 1 + Z.of_nat (length rs)) prev_low ranges k
  = Some (k p (i + Z.of_nat (length rs)) (ranges ++ take (Z.to_nat (256 - i)) rs)).
Proof.
  revert b prev_low fuel i ranges. induction rs as [|[l h] rs IH];
    intros b prev_low fuel i ranges Hok Hb Hpl Hp Hi Hlen Hf;
    (destruct fuel as [|fuel]; [lia|]); cbn [parse_ack_loop length blocks_enc] in *.
  { replace (i <=? _) with false by lia. rewrite Z.add_0_r, take_nil, app_nil_r. done. }
  replace (i <=? _) with true by lia. cbn in Hok. destruct Hok as (H1 & H2 & Hok).
  unfold PN_BOUND in Hb. rewrite <- !app_assoc.
  rewrite read_vint by (first [apply pn_vint_ok; unfold PN_BOUND; lia | auto with bytes]).
  rewrite drop_vint.
  rewrite read_vint by (first [apply pn_vint_ok; unfold PN_BOUND; lia | auto with bytes]).
  rewrite drop_vint. unfold N_RANGES. rewrite (wrapu_id 32) by (unfold is_u; lia).
  replace (i - 1 + Z.of_nat (S (length rs))) with (i + 1 - 1 + Z.of_nat (length rs)) by lia.
  replace (i + Z.of_nat (S (length rs))) with (i + 1 + Z.of_nat (length rs)) by lia.
  destruct (Z.ltb_spec i 256) as [Hlt|Hge].
  - rewrite Hpl by done. replace (b - (b - h - 2) - 2) with h by lia.
    rewrite (wrapu_id 64 h) by (unfold is_u; lia). replace (h - (h - l)) with l by lia.
    rewrite (wrapu_id 64 l) by (unfold is_u; lia).
    replace ((b <=? h) || (h <? l)) with false by lia.
    rewrite (IH l); [|done|unfold PN_BOUND; lia|done|done|lia..].
    rewrite <- app_assoc. replace (Z.to_nat (256 - i)) with (S (Z.to_nat (256 - (i + 1)))) by lia. done.
  - rewrite (IH l); [|done|unfold PN_BOUND; lia|lia|done|lia..].
    replace (Z.to_nat (256 - i)) with 0%nat by lia.
    replace (Z.to_nat (256 - (i + 1))) with 0%nat by lia. by rewrite !take_0.
Qed.

(** ** A whole frame *)

Definition ecn_ok (ecn : option ecn_t) : Prop :=
  match ecn with Some (c1, c2, c3) => vint_ok c1 /\ vint_ok c2 /\ vint_ok c3 | None => True end.

Lemma blen_ecn ecn : blen (ecn_bytes ecn) = ecn_needs ecn.
Proof. destruct ecn as [[[c1 c2] c3]|]; cbn; [|done]. rewrite !shiftl_val2bits. blen. lia. Qed.

Lemma ecn_bytes_ok ecn : Forall byte_ok (ecn_bytes ecn).
Proof. destruct ecn as [[[c1 c2] c3]|]; cbn; auto with bytes. Qed.
#[export] Hint Resolve ecn_bytes_ok : bytes.

Lemma ecn_needs_nonneg ecn : 0 <= ecn_needs ecn <= 24.
Proof.
  destruct ecn as [[[c1 c2] c3]|]; cbn; [|lia]. rewrite !shiftl_val2bits.
  pose proof (vint_size_pos c1). pose proof (vint_size_pos c2). pose proof (vint_size_pos c3). lia.
Qed.

(** The block count as the generator writes it. *)
Definition count_bytes (n : Z) : list Z :=
  let big := VINT_MAX_ONE_BYTE <? n in vint_write n (b2z big) (1 + b2z big).

Lemma read_count n p : 0 <= n < 2 ^ 14 -> Forall byte_ok p ->
  lsquic_varint_read (count_bytes n ++ p) = Some (1 + count_extra n, n)
  /\ blen (count_bytes n) = 1 + count_extra n.
Proof.
  intros Hn Hp. unfold count_bytes, count_extra. change VINT_MAX_ONE_BYTE with 63.
  destruct (Z.ltb_spec 63 n), (Z.leb_spec n 63); try lia; cbn [b2z].
  - split; [|unfold blen; by rewrite length_vint_write by lia].
    change (1 + 1) with (Z.shiftl 1 1). apply varint_read_write; [lia| |done].
    change (VINT_MAX_B 1) with (2 ^ 14 - 1). lia.
  - split; [|unfold blen; by rewrite length_vint_write by lia].
    change (1 + 0) with (Z.shiftl 1 0). apply varint_read_write; [lia| |done].
    change (VINT_MAX_B 0) with 63. lia.
Qed.

(** The frame for the ranges [(low, high) :: rs]. *)
Definition ack_bytes (high low time_diff : Z) (rs : list range) (ecn : option ecn_t) : list Z :=
  ([0x02 + b2z (bool_decide (is_Some ecn))] ++ vint high ++ vint time_diff)
  ++ count_bytes (Z.of_nat (length rs)) ++ vint (high - low) ++ blocks_enc low rs ++ ecn_bytes ecn.

(** The flags the parser reports for a frame of [n] ranges. *)
Definition ack_flags (n : Z) (ecn : option ecn_t) : Z :=
  let flags := if n <? N_RANGES then 0 else AI_TRUNCATED in
  if bool_decide (is_Some ecn) then Z.lor flags AI_ECN else flags.

Lemma parse_ack_ok high low td rs ecn exp rest :
  ranges_ok PN_BOUND ((low, high) :: rs) -> vint_ok td -> ecn_ok ecn -> Forall byte_ok rest ->
  Z.of_nat (length rs) < 2 ^ 14 -> 0 <= exp < 64 ->
  ietf_v1_parse_ack_frame (ack_bytes high low td rs ecn ++ rest) exp
  = Some (POk (blen (ack_bytes high low td rs ecn))
       (AI (ack_flags (Z.of_nat (length rs) + 1) ecn) (Z.min (Z.of_nat (length rs) + 1) N_RANGES)
           (u64 (Z.shiftl td exp)) ecn (take 256 ((low, high) :: rs)))).
Proof.
  intros Hok Htd Hecn Hrest Hlen Hexp. pose proof Hok as Hok'. cbn in Hok'.
  destruct Hok' as (H1 & H2 & Hok').
  assert (vint_ok high) as Hvh by (apply pn_vint_ok; lia).
  assert (vint_ok (high - low)) as Hvl by (apply pn_vint_ok; lia).
  set (fl := 0x02 + b2z (bool_decide (is_Some ecn))).
  set (buf := ack_bytes high low td rs ecn ++ rest).
  assert (buf = fl :: vint high ++ vint td ++ count_bytes (Z.of_nat (length rs))
    ++ vint (high - low) ++ blocks_enc low rs ++ ecn_bytes ecn ++ rest) as Hbuf.
  { unfold buf, ack_bytes. cbn [app]. by rewrite <- !app_assoc. }
  assert (forall n, Forall byte_ok (count_bytes n)) as Hcb by (intros; apply vint_write_ok).
  destruct (read_count (Z.of_nat (length rs))
    (vint (high - low) ++ blocks_enc low rs ++ ecn_bytes ecn ++ rest)) as [Hrc Hcl];
    [lia|auto with bytes|].
  unfold ietf_v1_parse_ack_frame. cbv zeta.
  assert (tail buf = vint high ++ vint td ++ count_bytes (Z.of_nat (length rs))
    ++ vint (high - low) ++ blocks_enc low rs ++ ecn_bytes ecn ++ rest) as -> by (by rewrite Hbuf).
  rewrite read_vint by auto 10 with bytes. rewrite drop_vint.
  rewrite read_vint by auto 10 with bytes. rewrite drop_vint.
  replace (64 <=? exp) with false by lia.
  assert (forall p, drop (Z.to_nat (1 + count_extra (Z.of_nat (length rs))))
    (count_bytes (Z.of_nat (length rs)) ++ p) = p) as Hdc.
  { intros. rewrite <- Hcl. unfold blen. by rewrite Nat2Z.id, drop_app_length. }
  rewrite Hrc. rewrite !Hdc.
  rewrite read_vint by auto 10 with bytes. rewrite drop_vint.
  replace (high - (high - low)) with low by lia. unfold PN_BOUND in H2.
  rewrite (wrapu_id 64 low) by (unfold is_u; lia). replace (high <? low) with false by lia.
  replace (Z.of_nat (length rs)) with (1 - 1 + Z.of_nat (length rs)) at 1 by lia.
  rewrite (parse_loop_ok _ low); [|done|unfold PN_BOUND; lia|done|auto with bytes|lia|lia|].
  2: { rewrite Hbuf. cbn [length]. rewrite !length_app.
       pose proof (blen_blocks_ge rs low) as Hge. unfold blen in Hge. lia. }
  f_equal. unfold parse_ack_end, ack_flags, N_RANGES. change (Z.to_nat (256 - 1)) with 255%nat.
  replace (1 - 1 + Z.of_nat (length rs) + 1) with (Z.of_nat (length rs) + 1) by lia.
  replace (1 + Z.of_nat (length rs)) with (Z.of_nat (length rs) + 1) by lia.
  rewrite (wrapu_id 32) by (unfold is_u; lia).
  set (fn := if Z.of_nat (length rs) + 1 <? 256 then (0, Z.of_nat (length rs) + 1) else (AI_TRUNCATED, 256)).
  assert (fn = (if Z.of_nat (length rs) + 1 <? 256 then 0 else AI_TRUNCATED, Z.min (Z.of_nat (length rs) + 1) 256)) as ->.
  { unfold fn. destruct (Z.ltb_spec (Z.of_nat (length rs) + 1) 256); f_equal; lia. }
  assert (match buf with b :: _ => b =? 3 | [] => false end = bool_decide (is_Some ecn)) as ->.
  { rewrite Hbuf. unfold fl. by destruct ecn. }
  destruct ecn as [[[c1 c2] c3]|]; cbn [ecn_bytes].
  - rewrite bool_decide_eq_true_2 by (by eexists). destruct Hecn as (? & ? & ?).
    rewrite <- !app_assoc. rewrite !vread_vint by auto with bytes.
    f_equal. unfold buf. apply used_app.
  - rewrite bool_decide_eq_false_2 by (by intros [? ?]). f_equal. unfold buf. apply used_app.
Qed.

(** * The generated frame *)

Definition time_diff_of (now largest_recv : Z) : Z :=
  Z.shiftr (u64 (now - largest_recv)) TP_DEF_ACK_DELAY_EXP.

Lemma time_diff_ok now lr : 0 <= now - lr < 2 ^ 64 -> vint_ok (time_diff_of now lr).
Proof.
  intros H. unfold time_diff_of, TP_DEF_ACK_DELAY_EXP, vint_ok. rewrite wrapu_id by (unfold is_u; lia).
  rewrite Z.shiftr_div_pow2 by lia. change VINT_MAX_VALUE with (2 ^ 62 - 1).
  change (2 ^ 3) with 8. split; [apply Z.div_pos; lia|].
  apply Z.lt_succ_r, Z.div_lt_upper_bound; lia.
Qed.

(** Length of the frame without additional blocks and without ECN counts. *)
Definition ack_base (high low td : Z) : Z := 2 + vint_size high + vint_size td + vint_size (high - low).

Lemma blen_ack_bytes high low td rs ecn : Z.of_nat (length rs) < 2 ^ 14 ->
  blen (ack_bytes high low td rs ecn)
  = ack_base high low td + count_extra (Z.of_nat (length rs)) + blen (blocks_enc low rs) + ecn_needs ecn.
Proof.
  intros Hl. unfold ack_bytes, ack_base.
  destruct (read_count (Z.of_nat (length rs)) []) as [_ Hc]; [lia|done|].
  rewrite !blen_app, blen_ecn, !blen_vint, Hc. change (blen [_]) with 1. lia.
Qed.

Section gen.
Context {Src : Type} `{RangeSource Src}.
Variables (s : Src) (low high : Z) (rs : list range) (now : Z) (ecn : option ecn_t).
Hypothesis Hy : yields s ((low, high) :: rs).
Hypothesis Hok : ranges_ok PN_BOUND ((low, high) :: rs).

Let td := time_diff_of now (src_largest_recv s).

(** With less room than the first range needs, the generator reports an error. *)
Lemma gen_ack_small fuel outbuf_sz : outbuf_sz < ack_base high low td ->
  ietf_v1_gen_ack_frame fuel outbuf_sz s now ecn = Some (AErr (-1)).
Proof using Hy Hok.
  intros Hsz. destruct Hy as (s' & Hf & _ & Hlr). unfold ietf_v1_gen_ack_frame.
  rewrite Hf. cbn [mbind option_bind]. rewrite Hlr, !shiftl_val2bits.
  cbn in Hok. destruct Hok as (H1 & H2 & _). unfold PN_BOUND in H2.
  rewrite (wrapu_id 64 (high - low)) by (unfold is_u; lia).
  unfold ack_base, td, time_diff_of in Hsz.
  replace (outbuf_sz <? _) with true by (symmetry; apply Z.ltb_lt; lia). done.
Qed.

Lemma blen_ack_pos k : (k <= length rs)%nat -> Z.of_nat k < 2 ^ 14 ->
  blen (ack_bytes high low td (take k rs) ecn)
  = loop_pos (ack_base high low td) 0 low rs k + ecn_needs ecn.
Proof using.
  intros Hk Hb. rewrite blen_ack_bytes; rewrite length_take, Nat.min_l by lia; [|done].
  unfold loop_pos. change (count_extra 0) with 0. rewrite Z.add_0_l. lia.
Qed.

(** The 65 ranges a frame can hold before the block count needs its second
    byte do not fit by exactly that byte. *)
Definition ack_overrun (outbuf_sz : Z) : Prop :=
  (64 <= length rs)%nat /\ blen (ack_bytes high low td (take 64 rs) ecn) = outbuf_sz + 1.

(** The overrun happens at the 64th additional block. *)
Lemma overrun_at outbuf_sz k :
  let pos := loop_pos (ack_base high low td) 0 low rs in
  ack_overrun outbuf_sz -> (k <= length rs)%nat -> Z.of_nat k < 2 ^ 14 -> pos k + ecn_needs ecn <= outbuf_sz ->
  (k = length rs \/ outbuf_sz < pos (S k) + ecn_needs ecn) ->
  k = 63%nat /\ pos (S k) + ecn_needs ecn = outbuf_sz + 1.
Proof using.
  intros pos [Hl Hb] Hk Hk14 Hpos Hmax. rewrite blen_ack_pos in Hb by lia. unfold pos in *. clear pos.
  assert (k = 63)%nat as ->; [|done].
  destruct (decide (64 <= k)%nat) as [Hge|Hlt].
  { pose proof (blocks_take_mono rs low 64 k ltac:(lia)). pose proof (count_extra_mono 64 (Z.of_nat k) ltac:(lia)).
    unfold loop_pos in Hb, Hpos. rewrite Z.add_0_l in *. change (Z.of_nat 64) with 64 in Hb. lia. }
  destruct (decide (k = 63)%nat) as [|Hne]; [done|]. exfalso.
  destruct Hmax as [->|Hmax]; [lia|].
  pose proof (blocks_take_mono rs low (S k) 64 ltac:(lia)).
  pose proof (count_extra_mono (Z.of_nat (S k)) 64 ltac:(lia)).
  unfold loop_pos in Hb, Hmax. rewrite Z.add_0_l in *. change (Z.of_nat 64) with 64 in Hb. lia.
Qed.

(** What the generator does once the first range fits. *)
Lemma gen_ack_unfold fuel outbuf_sz s' :
  src_first s = Some (Some (low, high), s') -> src_largest_recv s' = src_largest_recv s ->
  ack_base high low td <= outbuf_sz ->
  ietf_v1_gen_ack_frame fuel outbuf_sz s now ecn
  = '(w, n, blocks) ← ack_loop fuel outbuf_sz (ecn_needs ecn) s' (ack_base high low td) 0 low [];
    if bool_decide (is_Some ecn) && negb (ecn_needs ecn <=? u32 (outbuf_sz - w)) then None else
    Some (AOk (([0x02 + b2z (bool_decide (is_Some ecn))] ++ vint high ++ vint td) ++ count_bytes n
      ++ vint (high - low) ++ blocks ++ ecn_bytes ecn) (0 <? n) high).
Proof using Hok.
  intros Hfst Hlr Hsz. cbn in Hok. destruct Hok as (H1 & H2 & _). unfold PN_BOUND in H2.
  unfold ietf_v1_gen_ack_frame. rewrite Hfst. cbn [mbind option_bind]. rewrite Hlr, !shiftl_val2bits.
  rewrite (wrapu_id 64 (high - low)) by (unfold is_u; lia).
  change (Z.shiftr (u64 (now - src_largest_recv s)) TP_DEF_ACK_DELAY_EXP) with td.
  replace (1 + vint_size high + vint_size td + 1 + vint_size (high - low)) with (ack_base high low td)
    by (unfold ack_base; lia).
  replace (outbuf_sz <? _) with false by (symmetry; apply Z.ltb_ge; lia). done.
Qed.

(** With room for the first range and the ECN counts it writes the longest
    prefix of the ranges that fits, unless it overruns the buffer. *)
Lemma gen_ack_ok fuel outbuf_sz :
  (length rs < fuel)%nat -> outbuf_sz <= 2 ^ 15 ->
  ack_base high low td + ecn_needs ecn <= outbuf_sz ->
  (ack_overrun outbuf_sz /\ ietf_v1_gen_ack_frame fuel outbuf_sz s now ecn = None)
  \/ (~ ack_overrun outbuf_sz /\ exists k, (k <= length rs)%nat /\ Z.of_nat k < 2 ^ 14 - 1
    /\ ietf_v1_gen_ack_frame fuel outbuf_sz s now ecn
       = Some (AOk (ack_bytes high low td (take k rs) ecn) (0 <? Z.of_nat k) high)
    /\ blen (ack_bytes high low td (take k rs) ecn) <= outbuf_sz
    /\ (k = length rs \/ outbuf_sz < blen (ack_bytes high low td (take (S k) rs) ecn))).
Proof using Hy Hok.
  intros Hf Hsz Hbase. destruct Hy as (s' & Hfst & Hn & Hlr).
  pose proof Hok as Hok'. cbn in Hok'. destruct Hok' as (H1 & H2 & Hok'). unfold PN_BOUND in H2.
  pose proof (ecn_needs_nonneg ecn). pose proof (vint_size_pos high). pose proof (vint_size_pos td).
  pose proof (vint_size_pos (high - low)).
  destruct (ack_loop_ok fuel outbuf_sz (ecn_needs ecn) s' (ack_base high low td) 0 low [] rs)
    as (k & Hk & Hpos & _ & Hmax & Hres); try done; try (unfold PN_BOUND, ack_base; lia).
  rewrite !Z.add_0_l in *.
  assert (Z.of_nat k < 2 ^ 14 - 1) as Hk14.
  { pose proof (blocks_take_mono rs low 0 k ltac:(lia)) as Hm. pose proof (count_extra_range (Z.of_nat k)).
    rewrite take_0 in Hm. change (blen (blocks_enc low [])) with 0 in Hm.
    unfold loop_pos, ack_base in Hpos. change (count_extra 0) with 0 in Hpos. rewrite Z.add_0_l in Hpos. lia. }
  rewrite (gen_ack_unfold fuel outbuf_sz s' Hfst Hlr) by lia.
  pose proof (blen_nonneg (blocks_enc low (take k rs))). pose proof (count_extra_range (Z.of_nat k)).
  destruct Hres as [[Ho ->]|[(Hk63 & Hkl & Hp1) Hres]]; [right|left].
  - split.
    { intros Hov. apply Ho. destruct (overrun_at outbuf_sz k Hov Hk ltac:(lia) Hpos Hmax) as [-> Hp].
      destruct Hov as [Hl _]. split_and!; [lia|lia|exact Hp]. }
    exists k. rewrite blen_ack_pos by lia. split_and!; [done|done| |done|].
    + cbn [mbind option_bind]. unfold loop_pos at 1. rewrite (wrapu_id 32) by (unfold is_u, ack_base, loop_pos in *;
        change (count_extra 0) with 0 in *; rewrite Z.add_0_l in *; lia).
      replace (ecn_needs ecn <=? _) with true by (symmetry; apply Z.leb_le; unfold loop_pos in *; lia).
      rewrite andb_false_r. unfold ack_bytes. by rewrite length_take, Nat.min_l by lia.
    + destruct Hmax as [|Hmax]; [by left|]. destruct (decide (k = length rs)); [by left|].
      right. rewrite blen_ack_pos by lia. lia.
  - split.
    { split; [lia|]. replace 64%nat with (S k) by lia. rewrite blen_ack_pos by lia. done. }
    destruct Hres as [->|(He & n' & bs & ->)]; [done|]. cbn [mbind option_bind].
    rewrite (wrapu_id 32) by (unfold is_u; lia).
    replace (ecn_needs ecn <=? _) with false by (symmetry; apply Z.leb_gt; lia).
    destruct ecn; [done|]. cbn in He. lia.
Qed.

(** With room for the first range but not for the ECN counts the assertion on
    the remaining space fails. *)
Lemma gen_ack_no_ecn_room fuel outbuf_sz :
  (0 < fuel)%nat -> outbuf_sz <= 2 ^ 15 ->
  ack_base high low td <= outbuf_sz < ack_base high low td + ecn_needs ecn ->
  ietf_v1_gen_ack_frame fuel outbuf_sz s now ecn = None.
Proof using Hy Hok.
  intros Hf Hsz Hbase. destruct Hy as (s' & Hfst & Hn & Hlr).
  pose proof Hok as Hok'. cbn in Hok'. destruct Hok' as (H1 & H2 & Hok'). unfold PN_BOUND in H2.
  pose proof (ecn_needs_nonneg ecn). pose proof (vint_size_pos high). pose proof (vint_size_pos td).
  pose proof (vint_size_pos (high - low)).
  assert (exists n bs, ack_loop fuel outbuf_sz (ecn_needs ecn) s' (ack_base high low td) 0 low []
    = Some (ack_base high low td, n, bs)) as (n & bs & Hl).
  { destruct fuel as [|fuel]; [lia|]. cbn [ack_loop].
    destruct rs as [|[l2 h2] rs']; [destruct Hn as [s2 ->]|destruct Hn as (s2 & -> & _)];
      cbn [mbind option_bind]; [by do 2 eexists|].
    rewrite (wrapu_id 32 (outbuf_sz - _)) by (unfold is_u, ack_base in *; lia). rewrite !shiftl_val2bits.
    set (g := u64 (u64 (low - h2 - 1) - 1)). set (r := u64 (h2 - l2)).
    pose proof (vint_size_pos g). pose proof (vint_size_pos r).
    replace (outbuf_sz - _ <? _) with true by (symmetry; apply Z.ltb_lt; lia). by do 2 eexists. }
  rewrite (gen_ack_unfold fuel outbuf_sz s' Hfst Hlr), Hl by lia. cbn [mbind option_bind].
  rewrite (wrapu_id 32) by (unfold is_u, ack_base in *; lia).
  replace (ecn_needs ecn <=? _) with false by (symmetry; apply Z.leb_gt; lia).
  destruct ecn; [done|]. cbn in Hbase. lia.
Qed.

End gen.

(** * Parsing arbitrary bytes *)

Lemma read_split p r v : Forall byte_ok p -> lsquic_varint_read p = Some (r, v) ->
  exists q, p = q ++ drop (Z.to_nat r) p /\ 1 <= blen q /\ vint_ok v
            /\ Forall byte_ok (drop (Z.to_nat r) p).
Proof.
  intros Hp E. destruct (vread_inv p (-1) (fun v p => POk v p) v (drop (Z.to_nat r) p) Hp)
    as (v' & q & p' & Ep & Hq & Hv & [= -> ->]).
  { unfold vread. by rewrite E. }
  exists q. split_and!; try done. by apply Forall_drop.
Qed.

Lemma u64_sub_le a b : 0 <= a < 2 ^ 63 -> 0 <= b < 2 ^ 63 -> u64 (a - b) <= a -> b <= a.
Proof.
  intros Ha Hb H. destruct (Z.le_gt_cases b a); [done|]. exfalso.
  assert (u64 (a - b) = a - b + 2 ^ 64); [|lia].
  unfold u64, wrapu. symmetry. apply (Z.mod_unique_pos _ _ (-1)); lia.
Qed.

(** What the loop guarantees of the list of ranges it hands to [k]. *)
Lemma parse_loop_sound {fuel p i bc prev_low ranges k res} :
  Forall byte_ok p -> (length p < fuel)%nat -> 1 <= i -> i + blen p < 2 ^ 32 -> i <= bc + 1 ->
  0 <= prev_low < PN_BOUND -> Z.of_nat (length ranges) = Z.min i 256 ->
  parse_ack_loop fuel p i bc prev_low ranges k = res ->
  res = Some (PErr (-1))
  \/ exists q p' more, p = q ++ p' /\ res = Some (k p' (bc + 1) (ranges ++ more))
       /\ ranges_ok prev_low more /\ Z.of_nat (length (ranges ++ more)) = Z.min (bc + 1) 256.
Proof.
  revert p i prev_low ranges. induction fuel as [|fuel IH]; intros p i prev_low ranges Hp Hf Hi Hb Hbc Hpl Hlen;
    [lia|]. cbn [parse_ack_loop].
  destruct (Z.leb_spec i bc).
  2: { intros <-. right. assert (i = bc + 1) as -> by lia. exists [], p, []. rewrite app_nil_r. done. }
  destruct (lsquic_varint_read p) as [[r gap]|] eqn:E1; [|by left].
  destruct (read_split _ _ _ Hp E1) as (q1 & Ep & Hq1 & Hgap & Hp1).
  set (p1 := drop (Z.to_nat r) p) in *.
  destruct (lsquic_varint_read p1) as [[r2 block]|] eqn:E2; [|by left].
  destruct (read_split _ _ _ Hp1 E2) as (q2 & Ep1 & Hq2 & Hblk & Hp2).
  set (p2 := drop (Z.to_nat r2) p1) in *. cbv zeta.
  assert (blen p = blen q1 + blen q2 + blen p2) as Hbp.
  { rewrite Ep at 1. rewrite blen_app, Ep1. rewrite blen_app. lia. }
  pose proof (blen_nonneg p2). unfold blen in Hbp, Hq1, Hq2, H0, Hb.
  rewrite (wrapu_id 32 (i + 1)) by (unfold is_u; lia).
  unfold vint_ok in Hgap, Hblk. change VINT_MAX_VALUE with (2 ^ 62 - 1) in *. unfold PN_BOUND in Hpl.
  destruct (Z.ltb_spec i N_RANGES) as [Hin|Hin]; unfold N_RANGES in Hin.
  - set (high := u64 (prev_low - gap - 2)). set (low := u64 (high - block)).
    destruct (Z.leb_spec prev_low high); [by left|]. destruct (Z.ltb_spec high low); [by left|].
    cbn [orb]. assert (gap + 2 <= prev_low) as Hge.
    { apply u64_sub_le; [lia..|]. replace (prev_low - (gap + 2)) with (prev_low - gap - 2) by lia. lia. }
    assert (high = prev_low - gap - 2) as Eh by (apply wrapu_id; unfold is_u; lia).
    assert (block <= high) as Hge2 by (apply u64_sub_le; [lia..|]; done).
    assert (low = high - block) as El by (apply wrapu_id; unfold is_u; lia).
    clearbody high low. intros Hres.
    destruct (IH p2 (i + 1) low (ranges ++ [(low, high)]) Hp2) as [->|(q & p' & more & Eq & -> & Hok & Hl)];
      try done; try (unfold PN_BOUND, blen; lia).
    + rewrite length_app. cbn. lia.
    + by left.
    + right. exists (q1 ++ q2 ++ q), p', ((low, high) :: more).
      rewrite <- app_assoc in Hl. cbn in Hl. split_and!.
      * rewrite Ep, Ep1, Eq. by rewrite <- !app_assoc.
      * by rewrite <- app_assoc.
      * cbn. split_and!; [lia..|done].
      * exact Hl.
  - intros Hres.
    destruct (IH p2 (i + 1) prev_low ranges Hp2) as [->|(q & p' & more & Eq & -> & Hok & Hl)];
      try done; try (unfold PN_BOUND, blen; lia); [by left|].
    right. exists (q1 ++ q2 ++ q), p', more. split_and!; try done.
    rewrite Ep, Ep1, Eq. by rewrite <- !app_assoc.
Qed.

(** The number of ranges a frame says it has: its block count and one. *)
Definition frame_ranges (buf : list Z) : Z :=
  match lsquic_varint_read (tail buf) with
  | Some (r, _) =>
    let p := drop (Z.to_nat r) (tail buf) in
    match lsquic_varint_read p with
    | Some (r, _) =>
      let p := drop (Z.to_nat r) p in
      match lsquic_varint_read p with Some (_, block_count) => block_count + 1 | None => 0 end
    | None => 0
    end
  | None => 0
  end.

(** Any accepted frame is well formed.  [AI_TRUNCATED] is set when the frame
    has more ranges than there are elements, and is not set when it has fewer. *)
Definition ack_info_ok (buf : list Z) (ai : ack_info) : Prop :=
  ranges_ok PN_BOUND (ai_ranges ai) /\ ai_ranges ai <> []
  /\ ai_n_ranges ai = Z.of_nat (length (ai_ranges ai))
  /\ ai_n_ranges ai = Z.min (frame_ranges buf) N_RANGES
  /\ (N_RANGES < frame_ranges buf -> has_flag (ai_flags ai) AI_TRUNCATED = true)
  /\ (frame_ranges buf < N_RANGES -> has_flag (ai_flags ai) AI_TRUNCATED = false)
  /\ (has_flag (ai_flags ai) AI_ECN = true <-> head buf = Some 3)
  /\ (is_Some (ai_ecn ai) <-> head buf = Some 3) /\ ecn_ok (ai_ecn ai).

Lemma trunc_flags fl n (e : bool) :
  fl = 0 /\ n < 256 \/ fl = AI_TRUNCATED /\ 256 <= n ->
  (has_flag (if e then Z.lor fl AI_ECN else fl) AI_TRUNCATED = true <-> 256 <= n)
  /\ (has_flag (if e then Z.lor fl AI_ECN else fl) AI_ECN = true <-> e = true).
Proof.
  intros [[-> Hn]|[-> Hn]]; destruct e; split;
    (match goal with |- has_flag ?a ?b = true <-> _ => let c := eval vm_compute in (has_flag a b) in
       change (has_flag a b) with c end); split; intros; first [done | lia].
Qed.

(** The flags of a frame of [n] ranges, in the words of lsquic_parse.h. *)
Lemma ack_flags_ok n ecn :
  (N_RANGES < n -> has_flag (ack_flags n ecn) AI_TRUNCATED = true)
  /\ (n < N_RANGES -> has_flag (ack_flags n ecn) AI_TRUNCATED = false)
  /\ has_flag (ack_flags n ecn) AI_ECN = bool_decide (is_Some ecn).
Proof.
  unfold ack_flags, N_RANGES.
  destruct (trunc_flags (if n <? 256 then 0 else AI_TRUNCATED) n (bool_decide (is_Some ecn))) as [Ht He].
  { destruct (Z.ltb_spec n 256); [left|right]; done. }
  split_and!.
  - intros. apply Ht. lia.
  - intros Hn. apply not_true_is_false. intros H. apply Ht in H. lia.
  - by apply eq_true_iff_eq.
Qed.

Lemma ack_info_intro buf fl n ld ecn rsl :
  ranges_ok PN_BOUND rsl -> rsl <> [] -> Z.of_nat (length rsl) = Z.min n 256 -> frame_ranges buf = n ->
  (has_flag fl AI_TRUNCATED = true <-> 256 <= n) ->
  (has_flag fl AI_ECN = true <-> head buf = Some 3) -> (is_Some ecn <-> head buf = Some 3) -> ecn_ok ecn ->
  ack_info_ok buf (AI fl (Z.of_nat (length rsl)) ld ecn rsl).
Proof.
  intros Hok Hne Hl Hfr Ht He Hs Hecn. unfold ack_info_ok, N_RANGES. cbn. rewrite Hfr.
  split_and!; try done; [intros; apply Ht; lia|].
  intros Hn. apply not_true_is_false. intros H. apply Ht in H. lia.
Qed.

Lemma parse_ack_end_sound buf ld bc p rsl :
  Forall byte_ok p -> 0 <= bc -> ranges_ok PN_BOUND rsl -> rsl <> [] ->
  Z.of_nat (length rsl) = Z.min (bc + 1) 256 -> blen p < blen buf -> frame_ranges buf = bc + 1 ->
  parse_ack_end buf ld bc p (bc + 1) rsl = PErr (-1)
  \/ exists n ai, parse_ack_end buf ld bc p (bc + 1) rsl = POk n ai
       /\ 0 < n <= blen buf /\ ack_info_ok buf ai.
Proof.
  intros Hp Hbc Hok Hne Hl Hlen Hfr. unfold parse_ack_end.
  set (fn := if bc + 1 <? N_RANGES then (0, u32 (bc + 1)) else (AI_TRUNCATED, N_RANGES)).
  assert (exists fl, fn = (fl, Z.of_nat (length rsl)) /\ (fl = 0 /\ bc + 1 < 256
            \/ fl = AI_TRUNCATED /\ 256 <= bc + 1)) as (fl & -> & Hfl).
  { unfold fn, N_RANGES. destruct (Z.ltb_spec (bc + 1) 256).
    - rewrite wrapu_id by (unfold is_u; lia). exists 0. split; [f_equal; lia|left; lia].
    - exists AI_TRUNCATED. split; [f_equal; lia|right; lia]. }
  pose proof (blen_nonneg p).
  assert (match buf with b :: _ => b =? 3 | [] => false end = bool_decide (head buf = Some 3)) as ->.
  { destruct buf as [|b buf]; [done|]. cbn. destruct (Z.eqb_spec b 3); case_bool_decide; naive_solver. }
  case_bool_decide as Hb.
  - destruct (vread p (-1) _) as [c|n ai] eqn:Ev.
    { left. f_equal. unfold vread in Ev. repeat case_match; naive_solver. }
    right. exists n, ai. split; [done|].
    apply vread_inv in Ev as (c2 & a1 & t1 & -> & Ha1 & Hc2 & Ev); [|done].
    apply Forall_app in Hp as [_ Hp].
    apply vread_inv in Ev as (c1 & a2 & t2 & -> & Ha2 & Hc1 & Ev); [|done].
    apply Forall_app in Hp as [_ Hp].
    apply vread_inv in Ev as (c3 & a3 & t3 & -> & Ha3 & Hc3 & Ev); [|done].
    injection Ev as <- <-. rewrite !blen_app in *. unfold used. pose proof (blen_nonneg t3).
    split; [lia|]. destruct (trunc_flags fl _ true Hfl) as [Ht He].
    apply (ack_info_intro _ _ (bc + 1)); first [done | naive_solver].
  - right. do 2 eexists. split; [reflexivity|]. unfold used. split; [lia|].
    destruct (trunc_flags fl _ false Hfl) as [Ht He].
    apply (ack_info_intro _ _ (bc + 1)); first [done | naive_solver].
Qed.

Lemma parse_ack_total buf exp :
  Forall byte_ok buf -> buf <> [] -> blen buf < 2 ^ 16 -> 0 <= exp < 64 ->
  ietf_v1_parse_ack_frame buf exp = Some (PErr (-1))
  \/ exists n ai, ietf_v1_parse_ack_frame buf exp = Some (POk n ai)
       /\ 0 < n <= blen buf /\ ack_info_ok buf ai.
Proof.
  intros Hbuf Hne Hlen Hexp. destruct buf as [|ty p0]; [done|]. apply Forall_cons in Hbuf as [Hty Hp0].
  unfold ietf_v1_parse_ack_frame. cbn [tail].
  destruct (lsquic_varint_read p0) as [[r high]|] eqn:E0; [|by left].
  destruct (read_split _ _ _ Hp0 E0) as (q0 & Ep0 & Hq0 & Hhigh & Hp1). set (p1 := drop _ p0) in *.
  destruct (lsquic_varint_read p1) as [[r1 delta]|] eqn:E1; [|by left].
  destruct (read_split _ _ _ Hp1 E1) as (q1 & Ep1 & Hq1 & Hdelta & Hp2). cbv zeta.
  replace (64 <=? exp) with false by lia. set (p2 := drop _ p1) in *.
  destruct (lsquic_varint_read p2) as [[r2 bc]|] eqn:E2; [|by left].
  destruct (read_split _ _ _ Hp2 E2) as (q2 & Ep2 & Hq2 & Hbc & Hp3). set (p3 := drop _ p2) in *.
  destruct (lsquic_varint_read p3) as [[r3 block]|] eqn:E3; [|by left].
  destruct (read_split _ _ _ Hp3 E3) as (q3 & Ep3 & Hq3 & Hblk & Hp4). set (p4 := drop _ p3) in *.
  assert (blen (ty :: p0) = 1 + blen q0 + blen q1 + blen q2 + blen q3 + blen p4) as Hbl.
  { rewrite blen_cons. rewrite Ep0 at 1. rewrite blen_app, Ep1, blen_app, Ep2, blen_app, Ep3, blen_app. lia. }
  unfold vint_ok in Hhigh, Hblk, Hbc. change VINT_MAX_VALUE with (2 ^ 62 - 1) in *.
  destruct (Z.ltb_spec high (u64 (high - block))) as [Hlt|Hge]; [by left|].
  apply u64_sub_le in Hge; [|lia..]. rewrite wrapu_id by (unfold is_u; lia).
  pose proof (blen_nonneg p4).
  destruct (parse_loop_sound (k := parse_ack_end (ty :: p0) (u64 (Z.shiftl delta exp)) bc)
    (ranges := [(high - block, high)]) (prev_low := high - block) (bc := bc)
    (fuel := S (length (ty :: p0))) Hp4 ltac:(unfold blen in *; lia) (Z.le_refl 1) ltac:(lia) ltac:(lia)
    ltac:(unfold PN_BOUND; lia) eq_refl eq_refl) as [->|(q & p' & more & Eq & -> & Hok & Hl)]; [by left|].
  destruct (parse_ack_end_sound (ty :: p0) (u64 (Z.shiftl delta exp)) bc p' ([(high - block, high)] ++ more))
    as [->|(n & ai & -> & Hn & Hai)]; try done; [..|by left|right; by exists n, ai].
  - rewrite Eq in Hp4. by apply Forall_app in Hp4 as [_ ?].
  - lia.
  - cbn. split_and!; [lia|lia|unfold PN_BOUND; lia|done].
  - rewrite Hbl, Eq, blen_app. pose proof (blen_nonneg q). lia.
  - unfold frame_ranges. cbn [tail]. rewrite E0. cbv zeta. fold p1. rewrite E1. fold p2. by rewrite E2.
Qed.

(** * Properties *)

Lemma delta_back d : 0 <= d < 2 ^ 64 ->
  u64 (Z.shiftl (Z.shiftr (u64 d) TP_DEF_ACK_DELAY_EXP) TP_DEF_ACK_DELAY_EXP) = d - d mod 8.
Proof.
  intros Hd. rewrite (wrapu_id 64 d) by (unfold is_u; lia). unfold TP_DEF_ACK_DELAY_EXP.
  rewrite Z.shiftr_div_pow2, Z.shiftl_mul_pow2 by lia. change (2 ^ 3) with 8.
  pose proof (Z.div_mod d 8). pose proof (Z.mod_pos_bound d 8).
  rewrite wrapu_id by (unfold is_u; lia). lia.
Qed.

(** What generating a frame and parsing it gives: the longest prefix of the
    ranges that fits, of which the parser stores the first 256. *)
Definition ack_delivered {Src} `{RangeSource Src} (fuel : nat) (s : Src) (rs : list range) (now : Z)
    (ecn : option ecn_t) (outbuf_sz : Z) (rest : list Z) (k : nat) (bytes : list Z) (flags delta : Z) : Prop :=
  ietf_v1_gen_ack_frame fuel outbuf_sz s now ecn = Some (AOk bytes (1 <? Z.of_nat k) (default 0 (snd <$> head rs)))
  /\ blen bytes <= outbuf_sz /\ (0 < k <= length rs)%nat
  /\ ietf_v1_parse_ack_frame (bytes ++ rest) TP_DEF_ACK_DELAY_EXP
     = Some (POk (blen bytes) (AI flags (Z.min (Z.of_nat k) N_RANGES) delta ecn (take 256 (take k rs))))
  /\ delta = now - src_largest_recv s - (now - src_largest_recv s) mod 8
  /\ (N_RANGES < Z.of_nat k -> has_flag flags AI_TRUNCATED = true)
  /\ (Z.of_nat k < N_RANGES -> has_flag flags AI_TRUNCATED = false)
  /\ has_flag flags AI_ECN = bool_decide (is_Some ecn).

(** Length of the frame for the first [k] of the ranges [rs]. *)
Definition ack_frame_len (rs : list range) (k : nat) (td : Z) (ecn : option ecn_t) : Z :=
  match take k rs with (low, high) :: rs => blen (ack_bytes high low td rs ecn) | [] => 0 end.

(** Generation followed by parsing, for a source that yields the ranges: every
    outcome. *)
Definition ack_outcome {Src} `{RangeSource Src} (fuel : nat) (s : Src) (rs : list range) (now : Z)
    (ecn : option ecn_t) (outbuf_sz : Z) (rest : list Z) : Prop :=
  let td := time_diff_of now (src_largest_recv s) in
  let len k := ack_frame_len rs k td ecn in
  if decide (outbuf_sz < len 1%nat - ecn_needs ecn) then
    ietf_v1_gen_ack_frame fuel outbuf_sz s now ecn = Some (AErr (-1))
  else if decide (outbuf_sz < len 1%nat \/ (65 <= length rs)%nat /\ len 65%nat = outbuf_sz + 1) then
    ietf_v1_gen_ack_frame fuel outbuf_sz s now ecn = None
  else exists k bytes flags delta, ack_delivered fuel s rs now ecn outbuf_sz rest k bytes flags delta
    /\ (k = length rs \/ outbuf_sz < len (S k)).

Lemma ack_roundtrip {Src} `{RangeSource Src} (s : Src) rs now ecn outbuf_sz rest fuel :
  yields s rs -> rs <> [] -> ranges_ok PN_BOUND rs -> ecn_ok ecn ->
  Forall byte_ok rest -> outbuf_sz <= 2 ^ 15 -> (length rs <= fuel)%nat ->
  0 <= now - src_largest_recv s < 2 ^ 64 ->
  ack_outcome fuel s rs now ecn outbuf_sz rest.
Proof.
  intros Hy Hne Hok Hecn Hrest Hsz Hf Hd. destruct rs as [|[low high] rs]; [done|]. clear Hne.
  cbn [length] in Hf. unfold ack_outcome, ack_frame_len. cbn [take]. set (td := time_diff_of _ _).
  assert (blen (ack_bytes high low td [] ecn) = ack_base high low td + ecn_needs ecn) as E1.
  { rewrite blen_ack_bytes by (cbn; lia). change (blen (blocks_enc low [])) with 0.
    change (count_extra (Z.of_nat (length (@nil range)))) with 0. lia. }
  rewrite take_0, E1. destruct (decide _) as [Hs|Hs].
  { apply (gen_ack_small s low high rs now ecn Hy Hok). unfold td in *. lia. }
  destruct (decide (outbuf_sz < ack_base high low td + ecn_needs ecn)) as [He|He].
  { rewrite decide_True by (by left).
    apply (gen_ack_no_ecn_room s low high rs now ecn Hy Hok); unfold td in *; lia. }
  destruct (gen_ack_ok s low high rs now ecn Hy Hok fuel outbuf_sz)
    as [[Ho Hg]|(Ho & k & Hk & Hk14 & Hg & Hb & Hall)]; [lia|lia|unfold td in *; lia|..].
  { rewrite decide_True; [done|]. right. destruct Ho as [Hl Ho]. split; [cbn; lia|exact Ho]. }
  rewrite decide_False; [|intros [?|[Hl Ho']]; [done|apply Ho; split; [cbn in Hl; lia|exact Ho']]].
  exists (S k), (ack_bytes high low td (take k rs) ecn). do 2 eexists. split.
  2: { destruct Hall as [->|Hall]; [by left|right; exact Hall]. }
  unfold ack_delivered. cbn [take head fmap option_fmap option_map snd default length]. unfold from_option, id.
  destruct (ack_flags_ok (Z.of_nat (S k)) ecn) as (F1 & F2 & F3).
  split_and!; [|done|lia|lia| |reflexivity|exact F1|exact F2|exact F3].
  - rewrite Hg. by replace (1 <? Z.of_nat (S k)) with (0 <? Z.of_nat k) by lia.
  - rewrite parse_ack_ok.
    + rewrite length_take, Nat.min_l by lia. replace (Z.of_nat k + 1) with (Z.of_nat (S k)) by lia.
      unfold td, time_diff_of. by rewrite delta_back.
    + apply (ranges_ok_take _ (S k)) in Hok. exact Hok.
    + by apply time_diff_ok.
    + done.
    + done.
    + rewrite length_take. lia.
    + unfold TP_DEF_ACK_DELAY_EXP. lia.
Qed.

(** C36: ACK frames round trip.  For any source of ranges that keeps its
    promise (the function pointers [rechist_first], [rechist_next]), however
    many ranges it has, and any buffer of at most 32 KB, generation has exactly
    these outcomes: -1 when the first range does not fit; a failed assertion
    when the first range fits but the ECN counts do not, or an overrun by one
    byte when the frame for 65 ranges is exactly one byte too long (the byte
    the space check forgets, a finding); otherwise a frame inside the buffer
    for the longest prefix of the ranges that fits.  Parsing that frame,
    whatever follows it, gives back the first 256 ranges of that prefix, the
    ECN counts, the delay rounded down to a multiple of 8 microseconds, and
    [AI_TRUNCATED] when there were more than 256 ranges and not when there
    were fewer. *)
Theorem ack_frame_roundtrip {Src} `{RangeSource Src} (holds : Src -> list range -> Prop)
    `{!RangeSourceSpec Src holds} (s : Src) rs now ecn outbuf_sz rest fuel :
  holds s rs -> rs <> [] -> ranges_ok PN_BOUND rs -> ecn_ok ecn ->
  Forall byte_ok rest -> outbuf_sz <= 2 ^ 15 -> (length rs <= fuel)%nat ->
  0 <= now - src_largest_recv s < 2 ^ 64 ->
  ack_outcome fuel s rs now ecn outbuf_sz rest.
Proof. intros Hh. apply ack_roundtrip. by apply holds_yields. Qed.

(** A concrete source: a list of ranges and the position in it. *)
#[local] Instance list_source : RangeSource (list range * nat) := {
  src_first := fun s => Some (head s.1, (s.1, 1%nat));
  src_next := fun s => Some (s.1 !! s.2, (s.1, S s.2));
  src_largest_recv := fun _ => 1000
}.

Lemma list_nexts (l : list range) n : nexts (l, n) (drop n l).
Proof.
  remember (drop n l) as rs eqn:E. revert n E. induction rs as [|r rs IH]; intros n E; cbn.
  - eexists. f_equal. f_equal. apply lookup_ge_None.
    apply (f_equal length) in E. rewrite length_drop in E. cbn in E. lia.
  - eexists. assert (l !! n = Some r) as Hr.
    { rewrite <- (Nat.add_0_r n), <- lookup_drop, <- E. done. }
    rewrite Hr. split; [reflexivity|]. apply IH.
    by rewrite <- (Nat.add_1_r n), <- drop_drop, <- E.
Qed.

#[local] Instance list_source_spec : RangeSourceSpec (list range * nat) (fun s rs => s.1 = rs).
Proof.
  intros [l n] rs E. cbn in E. subst l. destruct rs as [|r rs]; cbn; [by eexists|].
  eexists. split; [reflexivity|]. split; [|done]. apply (list_nexts (r :: rs) 1).
Qed.

Lemma ack_frame_roundtrip_witness :
  ietf_v1_parse_ack_frame [0x03; 0x0a; 0x40; 0x7c; 0x01; 0x02; 0x00; 0x03; 1; 2; 0x40; 0x64; 0x11] 3
  = Some (POk 12 (AI AI_ECN 2 992 (Some (2, 1, 100)) [(8, 10); (3, 6)])).
Proof.
  assert (H := ack_frame_roundtrip (fun s rs => s.1 = rs) ([(8, 10); (3, 6)], 7%nat) [(8, 10); (3, 6)] 1999
    (Some (2, 1, 100)) 20 [0x11] 2).
  unfold ack_outcome in H. rewrite decide_False in H by (vm_compute; discriminate).
  rewrite decide_False in H by (intros [Hc|[_ Hc]]; vm_compute in Hc; discriminate Hc).
  destruct H as (k & bytes & flags & delta & (Hg & _ & Hk & Hp & _) & Hall).
  - reflexivity.
  - discriminate.
  - cbn. unfold PN_BOUND. lia.
  - cbn. unfold vint_ok. change VINT_MAX_VALUE with (2 ^ 62 - 1). lia.
  - repeat constructor; vm_compute; first [discriminate|reflexivity].
  - lia.
  - cbn. lia.
  - cbn. lia.
  - destruct Hall as [->|Hall]; [|do 3 (destruct k as [|k]; [exfalso; (vm_compute in Hall; discriminate Hall) || (cbn in Hk; lia)|]);
      cbn in Hk; lia].
    vm_compute in Hg. injection Hg as <-. vm_compute in Hp. injection Hp as <- <-. vm_compute. reflexivity.
Defined.

(** The frame for one range fits into 50 bytes whatever its numbers are. *)
Lemma ack_base_bound high low td ecn : ack_base high low td + ecn_needs ecn <= 50.
Proof.
  pose proof (ecn_needs_nonneg ecn). unfold ack_base.
  pose proof (vint_size_pos high). pose proof (vint_size_pos td). pose proof (vint_size_pos (high - low)). lia.
Qed.

Lemma run_sound (ietf : bool) max (pts : list (Z * Z)) :
  pts <> [] -> Forall (fun pt => (if ietf then 0 else 1) <= pt.1 < 2 ^ 62) pts ->
  let rs := (spec_run (Z.max 2 max) [] pts).2 in
  ranges_ok PN_BOUND rs /\ (forall q, in_ranges q rs -> q ∈ pts.*1)
  /\ exists low high rs', rs = (low, high) :: rs' /\ foldl Z.max 0 pts.*1 = high.
Proof.
  intros Hne Hall rs.
  destruct (spec_run_sound (Z.max 2 max) [] pts) as (Hok & Hin & Hhi); [done|lia| |].
  { eapply Forall_impl; [exact Hall|]. cbn. intros [p t]. cbn. destruct ietf; lia. }
  fold rs in Hok, Hin, Hhi. split_and!; [done| |].
  - intros q [Hq|Hq]%Hin; [by apply in_ranges_nil in Hq|done].
  - rewrite (foldl_high ietf pts Hne Hall) in Hhi. unfold high in Hhi.
    destruct rs as [|[l h] rs']; [done|]. exists l, h, rs'. split; [done|]. cbn in Hhi. congruence.
Qed.

(** C1: What the peer learns is what arrived.  A receiver whose history is
    limited to any number of ranges up to 2^30 (1000 in the application space)
    records any packets; the history ends as the reference history does.
    Generating an ACK frame from it into a buffer of 50 bytes to 32 KB either
    overruns the buffer, exactly when the frame for the first 65 ranges would
    be one byte too long (a finding), or gives a frame for the longest prefix
    of the ranges that fits.  The peer parses that frame, whatever follows it
    in the packet, into the first 256 ranges of the prefix: they contain the
    largest packet number received and no packet number that was not
    received. *)
Theorem rechist_ack_end_to_end junk (ietf : bool) max (pts : list (Z * Z)) now ecn outbuf_sz rest :
  1 <= max <= 2 ^ 30 -> Z.of_nat (length pts) < 2 ^ 32 -> pts <> [] ->
  Forall (fun pt => (if ietf then 0 else 1) <= pt.1 < 2 ^ 62 /\ 0 <= pt.2 <= now) pts ->
  now < 2 ^ 64 -> ecn_ok ecn -> Forall byte_ok rest -> 50 <= outbuf_sz <= 2 ^ 15 ->
  let rs := (spec_run (Z.max 2 max) [] pts).2 in
  let fuel := length rs in
  exists rh,
    receive_all junk (lsquic_rechist_init ietf max) pts = Some ((spec_run (Z.max 2 max) [] pts).1, rh)
    /\ let len k := ack_frame_len rs k (time_diff_of now (lsquic_rechist_largest_recv rh)) ecn in
       let overrun := (65 <= length rs)%nat /\ len 65%nat = outbuf_sz + 1 in
       (overrun /\ ietf_v1_gen_ack_frame fuel outbuf_sz rh now ecn = None)
       \/ (~ overrun /\ exists k bytes flags delta,
             ack_delivered fuel rh rs now ecn outbuf_sz rest k bytes flags delta
             /\ (k = length rs \/ outbuf_sz < len (S k))
             /\ in_ranges (foldl Z.max 0 pts.*1) (take 256 (take k rs))
             /\ (forall q, in_ranges q (take 256 (take k rs)) -> q ∈ pts.*1)).
Proof.
  intros Hmax Hlen Hne Hall Hnow Hecn Hrest Hsz rs fuel.
  assert (rh_max_ranges (lsquic_rechist_init ietf max) = Z.max 2 max) as Em.
  { cbn. destruct (Z.eqb_spec max 1); lia. }
  destruct (receive_all_ok junk (lsquic_rechist_init ietf max) [] pts) as (rh & Hr & Hv & Em' & HP).
  { apply init_view. lia. }
  { lia. }
  { lia. }
  { eapply Forall_impl; [exact Hall|]. cbn. intros [p t]. cbn. destruct ietf; lia. }
  { cbn. lia. }
  rewrite Em in Hr, Hv, HP. fold rs in Hv, HP.
  destruct (run_sound ietf max pts) as (Hok & Hin & low & high & rs' & Ers & Ehigh); try done.
  { eapply Forall_impl; [exact Hall|]. cbn. intros [p t]. cbn. tauto. }
  fold rs in Hok, Hin, Ers. assert (rs <> []) as Hrs by (by rewrite Ers).
  specialize (HP (fun t => 0 <= t <= now) ltac:(done)).
  assert (0 <= rh_largest_acked_received rh <= now) as Ht.
  { apply HP; [|done]. eapply Forall_impl; [exact Hall|]. cbn. tauto. }
  exists rh. split; [done|].
  pose proof (ack_roundtrip rh rs now ecn outbuf_sz rest fuel) as Ho.
  intros len overrun.
  assert (len 1%nat <= 50) as Hb.
  { unfold len, ack_frame_len. rewrite Ers. cbn [take]. rewrite take_0.
    rewrite blen_ack_bytes by (cbn; lia). change (blen (blocks_enc low [])) with 0.
    change (count_extra (Z.of_nat (length (@nil range)))) with 0.
    pose proof (ack_base_bound high low (time_diff_of now (lsquic_rechist_largest_recv rh)) ecn). lia. }
  pose proof (ecn_needs_nonneg ecn).
  specialize (Ho (rechist_source_spec rh rs Hv) Hrs Hok Hecn Hrest ltac:(lia) ltac:(unfold fuel; lia)
    ltac:(cbn [src_largest_recv rechist_source]; unfold lsquic_rechist_largest_recv; lia)).
  unfold ack_outcome in Ho. cbn [src_largest_recv rechist_source] in Ho. cbv zeta in Ho.
  rewrite decide_False in Ho by (unfold len in Hb; lia).
  destruct (decide _) as [Hd|Hd] in Ho.
  { left. destruct Hd as [|Hd]; [unfold len in Hb; lia|]. split; [exact Hd|exact Ho]. }
  right. split; [tauto|]. destruct Ho as (k & bytes & flags & delta & Hdel & Hk).
  exists k, bytes, flags, delta. split_and!; [done|done| |].
  - destruct Hdel as (_ & _ & Hk0 & _). rewrite Ers, Ehigh. destruct k as [|k]; [lia|]. cbn [take].
    rewrite in_ranges_cons. left. rewrite Ers in Hok. cbn in Hok. unfold in_range. cbn. lia.
  - intros q Hq. by apply Hin, (in_ranges_take q k), (in_ranges_take q 256).
Qed.

Lemma rechist_ack_end_to_end_witness :
  exists bytes flags n delta,
    blen bytes <= 60
    /\ ietf_v1_parse_ack_frame (bytes ++ []) TP_DEF_ACK_DELAY_EXP
       = Some (POk (blen bytes) (AI flags n delta None [(9, 9); (5, 6)])).
Proof.
  destruct (rechist_ack_end_to_end (RE 0 0 0) true 1000 [(5, 1); (9, 2); (6, 3)] 100 None 60 [])
    as (rh & Hr & [[[Hc _] _]|(_ & k & bytes & fl & delta & (Hg & Hb & Hk & Hp & _) & Hall & _)]).
  - lia.
  - cbn. lia.
  - discriminate.
  - repeat constructor; cbn; lia.
  - lia.
  - exact I.
  - constructor.
  - lia.
  - exfalso. vm_compute in Hc. lia.
  - vm_compute in Hr. injection Hr as <-. vm_compute in Hk.
    assert (k = 2)%nat as ->.
    { destruct Hall as [->|Hall]; [reflexivity|].
      destruct k as [|[|k]]; [lia|vm_compute in Hall; discriminate Hall|lia]. }
    vm_compute in Hg. injection Hg as <-. eexists _, fl, 2, delta. split; [exact Hb|].
    vm_compute in Hp. vm_compute. exact Hp.
Defined.

(** C37: The ACK parser is safe on arbitrary bytes.  Whatever a packet of less
    than 64 KB holds, and for any delay exponent below 64 (the width of the
    shifted integer), the parser terminates with -1 or with a frame inside the
    packet whose ranges are well formed (each one ordered, strictly descending
    and separated by gaps, all between 0 and 2^62 - 1: no subtraction wrapped),
    as many as the frame says it has but at most 256, and at least one;
    [AI_TRUNCATED] is set when the frame has more than 256 ranges and not set
    when it has fewer; the ECN counts are there exactly for frame type 3. *)
Theorem ack_parse_sound buf exp :
  Forall byte_ok buf -> buf <> [] -> blen buf < 2 ^ 16 -> 0 <= exp < 64 ->
  ietf_v1_parse_ack_frame buf exp = Some (PErr (-1))
  \/ exists n ai, ietf_v1_parse_ack_frame buf exp = Some (POk n ai)
       /\ 0 < n <= blen buf /\ ack_info_ok buf ai.
Proof. apply parse_ack_total. Qed.

(** The second range would start below zero: 2 - 1 - 2 < 0. *)
Lemma ack_parse_sound_witness :
  ietf_v1_parse_ack_frame [2; 9; 0; 1; 7; 1; 0] 3 = Some (PErr (-1)).
Proof.
  destruct (ack_parse_sound [2; 9; 0; 1; 7; 1; 0] 3) as [H|(n & ai & H & _)].
  - repeat constructor; vm_compute; first [discriminate|reflexivity].
  - discriminate.
  - reflexivity.
  - lia.
  - exact H.
  - vm_compute in H. discriminate H.
Defined.

(** 65 ranges, 64 of them additional: [140], [138], ..., [12]. *)
Definition many_ranges (n : nat) : list range := map (fun i => (2 * Z.of_nat i, 2 * Z.of_nat i)) (rev (seq 6 n)).

(** A finding. The space check does not count the byte the 64th additional block
    needs to widen the block count.  For 65 ranges of one packet each and a
    buffer of 134 bytes, one byte too small for the whole frame, the check
    passes and the generator writes behind the buffer; with one byte more or
    less it does not. *)
Theorem ack_block_count_overflow :
  ranges_ok PN_BOUND (many_ranges 65)
  /\ ietf_v1_gen_ack_frame 70 134 (many_ranges 65, 0%nat) 1000 None = None
  /\ (exists b, ietf_v1_gen_ack_frame 70 135 (many_ranges 65, 0%nat) 1000 None = Some (AOk b true 140) /\ blen b = 135)
  /\ (exists b, ietf_v1_gen_ack_frame 70 133 (many_ranges 65, 0%nat) 1000 None = Some (AOk b true 140) /\ blen b <= 133).
Proof.
  split; [apply ranges_okb_spec; vm_compute; reflexivity|]. split; [vm_compute; reflexivity|].
  split; eexists; (split; [vm_compute; reflexivity|vm_compute; first [reflexivity|discriminate]]).
Qed.

(** A finding. A frame with exactly 256 ranges, all of which are stored, is marked
    as truncated. *)
Theorem ack_truncated_flag :
  exists n ai, ietf_v1_parse_ack_frame (ack_bytes (2 * 300) (2 * 300) 0 (tail (rev (map (fun i => (2 * Z.of_nat i, 2 * Z.of_nat i)) (seq 45 256)))) None) 3
    = Some (POk n ai)
  /\ Z.of_nat (length (ai_ranges ai)) = 256 /\ has_flag (ai_flags ai) AI_TRUNCATED = true
  /\ ai_ranges ai = rev (map (fun i => (2 * Z.of_nat i, 2 * Z.of_nat i)) (seq 45 256)).
Proof. do 2 eexists. split; [vm_compute; reflexivity|]. split_and!; vm_compute; reflexivity. Qed.
