(* ===== verification/Trechist.v ===== *)
(** The tiny receive history, lsquic_trechist.c: at most sixteen ranges of at
    most 255 packets in an array, threaded by index from element 0 on, with a
    bit mask of the elements in use.  The mini connection keeps its history of
    received packets in it.

    [None] is undefined behaviour or a failed assertion. *)
From S2P Require Import Prelude Ranges Rechist RechistSpec RechistThms.
Local Open Scope Z_scope.

Definition TRECHIST_MAX_RANGES : Z := 16.
Definition TRECHIST_MAX_RANGES_MASK : Z := Z.shiftl 1 TRECHIST_MAX_RANGES - 1.

Record trechist_elem := TE { te_low : Z; te_count : Z; te_next : Z }.

Definition TE_HIGH (te : trechist_elem) : Z := u32 (te_low te + te_count te - 1).

(** The mask and the array. *)
Abbreviation trechist := (Z * list trechist_elem)%type.

(** ** Insertion *)

Definition find_free_slot (slots : Z) : option Z := ctz 32 (u32 (Z.lnot slots)).

Definition te_set_next (es : list trechist_elem) (i nx : Z) : option (list trechist_elem) :=
  e ← aget es i; aset es i (TE (te_low e) (te_count e) nx).

(** The [for] loop that finds the last element: [cur] is the one before it. *)
Fixpoint find_last (fuel : nat) (es : list trechist_elem) (cur next : Z) : option Z :=
  match fuel with
  | O => None
  | S fuel =>
    e ← aget es next;
    if te_next e =? 0 then Some cur else find_last fuel es next (te_next e)
  end.

(** The slot for a new range: a free one, or that of the last range. *)
Definition te_slot (mask : Z) (es : list trechist_elem) (eli : Z) : option (Z * list trechist_elem) :=
  if negb (mask =? TRECHIST_MAX_RANGES_MASK) then idx ← find_free_slot mask; Some (idx, es)
  else
    el ← aget es eli;
    cur ← find_last (S (length es)) es eli (te_next el);
    c ← aget es cur;
    es ← te_set_next es cur 0;
    Some (te_next c, es).

(** The label [insert_before]. *)
Definition te_insert_before (mask : Z) (es : list trechist_elem) (packno : Z) (prev : option Z) (eli : Z)
    : option (Z * trechist) :=
  '(idx, es) ← te_slot mask es eli;
  let mask := Z.lor mask (u32 (Z.shiftl 1 idx)) in
  if eli =? 0 then
    el ← aget es 0;
    es ← aset es idx el;
    es ← aset es 0 (TE packno 1 idx);
    Some (0, (mask, es))
  else
    prev ← prev;
    pe ← aget es prev;
    es ← aset es idx (TE packno 1 (te_next pe));
    es ← te_set_next es prev idx;
    Some (0, (mask, es)).

(** The code after the loop. *)
Definition te_insert_tail (mask : Z) (es : list trechist_elem) (packno eli : Z) : option (Z * trechist) :=
  if mask =? TRECHIST_MAX_RANGES_MASK then Some (0, (mask, es)) else
  idx ← find_free_slot mask;
  es ← aset es idx (TE packno 1 0);
  es ← te_set_next es eli idx;
  Some (0, (Z.lor mask (u32 (Z.shiftl 1 idx)), es)).

(** [packno == el->te_low - 1] *)
Definition te_extend_low (mask : Z) (es : list trechist_elem) (eli : Z) (el : trechist_elem) : option (Z * trechist) :=
  nx ← aget es (te_next el);
  if negb (te_next el =? 0) && (te_low el =? u32 (TE_HIGH nx + 2)) then
    if UCHAR_MAX <? te_count el + te_count nx - 1 then Some (-1, (mask, es)) else
    es ← aset es eli (TE (te_low nx) (u8 (te_count el + (te_count nx + 1))) (te_next nx));
    Some (0, (Z.ldiff mask (u32 (Z.shiftl 1 (te_next el))), es))
  else if te_count el =? UCHAR_MAX then Some (-1, (mask, es)) else
  es ← aset es eli (TE (u32 (te_low el - 1)) (u8 (te_count el + 1)) (te_next el));
  Some (0, (mask, es)).

Fixpoint te_insert_loop (fuel : nat) (mask : Z) (es : list trechist_elem) (packno : Z) (prev : option Z) (eli : Z)
    : option (Z * trechist) :=
  match fuel with
  | O => None
  | S fuel =>
    el ← aget es eli;
    if u32 (TE_HIGH el + 1) <? packno then te_insert_before mask es packno prev eli
    else if packno =? u32 (te_low el - 1) then te_extend_low mask es eli el
    else if packno =? u32 (TE_HIGH el + 1) then
      if te_count el =? UCHAR_MAX then Some (-1, (mask, es)) else
      es ← aset es eli (TE (te_low el) (u8 (te_count el + 1)) (te_next el));
      Some (0, (mask, es))
    else if (te_low el <=? packno) && (packno <=? TE_HIGH el) then Some (0, (mask, es))
    else if te_next el =? 0 then te_insert_tail mask es packno eli
    else te_insert_loop fuel mask es packno (Some eli) (te_next el)
  end.

(** Returns the code's 0 or -1 and the new history. *)
Definition lsquic_trechist_insert (h : trechist) (packno : Z) : option (Z * trechist) :=
  let '(mask, es) := h in
  if mask =? 0 then
    es ← aset es 0 (TE packno 1 0);
    Some (0, (Z.lor mask 1, es))
  else te_insert_loop (S (length es)) mask es packno None 0.

(** ** Queries and iteration *)

Fixpoint te_contains_loop (fuel : nat) (es : list trechist_elem) (packno eli : Z) : option bool :=
  match fuel with
  | O => None
  | S fuel =>
    el ← aget es eli;
    if TE_HIGH el <? packno then Some false
    else if te_low el <=? packno then Some true
    else if te_next el =? 0 then Some false
    else te_contains_loop fuel es packno (te_next el)
  end.

Definition lsquic_trechist_contains (h : trechist) (packno : Z) : option bool :=
  if h.1 =? 0 then Some false else te_contains_loop (S (length h.2)) h.2 packno 0.

Definition lsquic_trechist_max (h : trechist) : option Z :=
  if h.1 =? 0 then Some 0 else
  if negb (has_flag h.1 1) then None else
  el ← aget h.2 0; Some (TE_HIGH el).

Record trechist_iter := TI { ti_hist : trechist; ti_next : Z }.

Definition lsquic_trechist_iter (h : trechist) : trechist_iter := TI h 0.

Definition lsquic_trechist_first (it : trechist_iter) : option (option range * trechist_iter) :=
  if (ti_hist it).1 =? 0 then Some (None, it) else
  el ← aget (ti_hist it).2 0;
  Some (Some (te_low el, TE_HIGH el), TI (ti_hist it) (te_next el)).

Definition lsquic_trechist_next (it : trechist_iter) : option (option range * trechist_iter) :=
  if ti_next it =? 0 then Some (None, it) else
  el ← aget (ti_hist it).2 (ti_next it);
  Some (Some (te_low el, TE_HIGH el), TI (ti_hist it) (te_next el)).

(** ** Copying from another history *)

(** The loop of [lsquic_trechist_copy_ranges] from element [i] on. *)
Fixpoint te_copy_loop {S} `{RangeSource S} (n : nat) (i : Z) (es : list trechist_elem) (src : S) (rg : option range)
    : option (Z * list trechist_elem * S) :=
  match n, rg with
  | O, _ | _, None => Some (i, es, src)
  | Datatypes.S n, Some (low, high) =>
    if UINT_MAX <? u64 (high - low + 1) then None else
    es ← aset es i (TE (u32 low) (u8 (high - low + 1)) (u8 (i + 1)));
    '(rg, src) ← src_next src;
    te_copy_loop n (i + 1) es src rg
  end.

Definition lsquic_trechist_copy_ranges {S} `{RangeSource S} (es : list trechist_elem) (src : S)
    : option (trechist * S) :=
  '(rg, src) ← src_first src;
  '(i, es, src) ← te_copy_loop (Z.to_nat TRECHIST_MAX_RANGES) 0 es src rg;
  es ← (if i =? 0 then Some es else te_set_next es (i - 1) 0);
  Some ((if i <? 32 then u32 (Z.shiftl 1 i - 1) else UINT_MAX, es), src).

(** * Refinement of the range list *)

Definition rsize (r : range) : Z := r.2 - r.1 + 1.

(** Reference insertion: sixteen ranges are kept; [None] is an error, a range
    that would get too long. *)
Definition tins (p : Z) (rs : list range) : option (list range) :=
  match rins p rs with
  | None => Some rs
  | Some rs' => if forallb (fun r => rsize r <=? 255) rs' then Some (take 16 rs') else None
  end.

(** Packet numbers are at most 2^32 - 4, so that sums do not wrap. *)
Definition TE_BOUND : Z := 2 ^ 32 - 2.

Definition to_re (te : trechist_elem) : rechist_elem := RE (te_low te) (te_count te) (te_next te).

Definition tseg (es : list trechist_elem) (i : Z) (idxs : list Z) (rs : list range) (e : Z) : Prop :=
  lseg (to_re <$> es) i idxs rs e.

Record tslots (mask : Z) (idxs : list Z) : Prop := {
  ts_u : is_u 16 mask;
  ts_bits : forall i, 0 <= i < 16 -> Z.testbit mask i = bool_decide (i ∈ idxs);
  ts_nodup : NoDup idxs;
  ts_idx : forall i, i ∈ idxs -> 0 <= i < 16
}.

Record twf (h : trechist) (idxs : list Z) (rs : list range) : Prop := {
  tw_len : length h.2 = 16%nat;
  tw_slots : tslots h.1 idxs;
  tw_seg : tseg h.2 0 idxs rs 0;
  tw_rs : ranges_ok TE_BOUND rs;
  tw_size : Forall (fun r => rsize r <= 255) rs
}.

(** [tview h rs]: the history is well formed and holds exactly [rs]. *)
Definition tview (h : trechist) (rs : list range) : Prop := exists idxs, twf h idxs rs.

(** ** Slots *)

Lemma tslots_perm m idxs idxs' : idxs ≡ₚ idxs' -> tslots m idxs -> tslots m idxs'.
Proof.
  intros Hp []. split; try done.
  - intros i Hi. rewrite ts_bits0 by done. apply bool_decide_ext. by rewrite Hp.
  - by rewrite <- Hp.
  - intros i. rewrite <- Hp. apply ts_idx0.
Qed.

Lemma tslots_length m idxs : tslots m idxs -> (length idxs <= 16)%nat.
Proof. intros []. pose proof (nodup_bounded idxs 16 ts_nodup0 ts_idx0 ltac:(lia)). lia. Qed.

Lemma tslots_zero m idxs : tslots m idxs -> m = 0 <-> idxs = [].
Proof.
  intros []. split.
  - intros ->. destruct idxs as [|i idxs]; [done|]. pose proof (ts_idx0 i ltac:(left)) as Hi.
    pose proof (ts_bits0 i Hi) as Hb. rewrite Z.bits_0, bool_decide_eq_true_2 in Hb by left. done.
  - intros ->. apply Z.bits_inj'. intros n Hn. rewrite Z.bits_0. destruct (Z.lt_ge_cases n 16).
    + rewrite ts_bits0 by lia. apply bool_decide_eq_false_2, not_elem_of_nil.
    + destruct ts_u0. rewrite <- (Z.mod_small m (2 ^ 16)) by done. by apply Z.mod_pow2_bits_high.
Qed.

Lemma tslots_full m idxs : tslots m idxs -> m = TRECHIST_MAX_RANGES_MASK <-> length idxs = 16%nat.
Proof.
  intros Hs. pose proof (tslots_length _ _ Hs). pose proof Hs as [].
  change TRECHIST_MAX_RANGES_MASK with (Z.ones 16). split.
  - intros ->. destruct (decide (length idxs = 16%nat)) as [|Hne]; [done|].
    destruct (nodup_missing idxs 16) as (i & Hi & Hni); [lia|]. specialize (ts_bits0 i Hi).
    rewrite bool_decide_eq_false_2, Z.ones_spec_low in ts_bits0 by (done || lia). done.
  - intros Hl. apply Z.bits_inj'. intros n Hn. destruct (Z.lt_ge_cases n 16).
    + rewrite ts_bits0, Z.ones_spec_low by lia. apply bool_decide_eq_true_2.
      destruct (decide (n ∈ idxs)) as [|Hni]; [done|exfalso].
      assert (tslots m idxs) as _ by done.
      pose proof (nodup_bounded (n :: idxs) 16) as Hb. cbn [length] in Hb.
      ospecialize (Hb _ _ _); [by constructor| |lia|lia].
      intros i [->|Hin]%elem_of_cons; [lia|by apply ts_idx0].
    + rewrite Z.ones_spec_high by lia. destruct ts_u0.
      rewrite <- (Z.mod_small m (2 ^ 16)) by done. by apply Z.mod_pow2_bits_high.
Qed.

Lemma slot_bit idx : 0 <= idx < 16 -> u32 (Z.shiftl 1 idx) = 2 ^ idx /\ is_u 16 (2 ^ idx).
Proof.
  intros. assert (2 ^ idx < 2 ^ 16) by (apply Z.pow_lt_mono_r; lia). assert (0 < 2 ^ idx) by lia.
  rewrite Z.shiftl_1_l, wrapu_id; unfold is_u; lia.
Qed.

Lemma tslots_set m idxs idx :
  tslots m idxs -> 0 <= idx < 16 -> idx ∉ idxs -> tslots (Z.lor m (u32 (Z.shiftl 1 idx))) (idx :: idxs).
Proof.
  intros [] Hi Hni. destruct (slot_bit idx Hi) as [-> Hu]. split.
  - by apply is_u_lor.
  - intros i Hb. rewrite lor_bit, ts_bits0, <- bool_decide_or by lia. apply bool_decide_ext.
    rewrite elem_of_cons. tauto.
  - by constructor.
  - intros i [->|Hin]%elem_of_cons; [done|by apply ts_idx0].
Qed.

(** Setting the bit of a slot in use changes nothing. *)
Lemma tslots_again m idxs idx :
  tslots m idxs -> idx ∈ idxs -> tslots (Z.lor m (u32 (Z.shiftl 1 idx))) idxs.
Proof.
  intros [] Hin. pose proof (ts_idx0 _ Hin) as Hi. destruct (slot_bit idx Hi) as [-> Hu]. split; try done.
  - by apply is_u_lor.
  - intros i Hb. rewrite lor_bit, ts_bits0, <- bool_decide_or by lia. apply bool_decide_ext.
    split; [intros [?| ->]; done|by left].
Qed.

Lemma tslots_clear m idxs idx :
  tslots m (idx :: idxs) -> tslots (Z.ldiff m (u32 (Z.shiftl 1 idx))) idxs.
Proof.
  intros []. assert (Hi : 0 <= idx < 16) by (apply ts_idx0; left).
  apply NoDup_cons in ts_nodup0 as [Hni Hnd]. destruct (slot_bit idx Hi) as [-> Hu]. split; try done.
  - by apply is_u_ldiff.
  - intros i Hb. rewrite <- Z.shiftl_1_l, ldiff_bit, ts_bits0, <- bool_decide_not, <- bool_decide_and by lia.
    apply bool_decide_ext. rewrite elem_of_cons. split; [intros [[->|] ?]; done|].
    intros Hin. split; [by right|]. by intros ->.
  - intros i Hin. apply ts_idx0. by right.
Qed.

Lemma tslots_free m idxs :
  tslots m idxs -> m ≠ TRECHIST_MAX_RANGES_MASK ->
  exists idx, find_free_slot m = Some idx /\ 0 <= idx < 16 /\ idx ∉ idxs.
Proof.
  intros Hs Hne. rewrite (tslots_full _ _ Hs) in Hne. pose proof (tslots_length _ _ Hs). pose proof Hs as [].
  destruct (nodup_missing idxs 16) as (i & Hi & Hni); [lia|].
  destruct (ctz_lnot 32 m i) as (k & Hk & H1 & H2 & H3 & _); [lia| |].
  { rewrite ts_bits0 by lia. by apply bool_decide_eq_false_2. }
  exists k. split; [done|]. split; [lia|]. intros Hin. rewrite ts_bits0, bool_decide_eq_true_2 in H3 by (done || lia). done.
Qed.

(** ** The threaded list *)

Lemma aget_re es i : aget (to_re <$> es) i = to_re <$> aget es i.
Proof. unfold aget. destruct (i <? 0); [done|]. by rewrite list_lookup_fmap. Qed.

Lemma re_insert (es : list trechist_elem) (i : nat) x : to_re <$> (<[i := x]> es) = <[i := to_re x]> (to_re <$> es).
Proof. apply list_fmap_insert. Qed.

Lemma tseg_cons es i j js l h rs e :
  tseg es i (j :: js) ((l, h) :: rs) e <->
  i = j /\ exists el, aget es j = Some el /\ te_low el = l /\ te_count el = h - l + 1 /\ tseg es (te_next el) js rs e.
Proof.
  unfold tseg. cbn [lseg]. split; intros [-> (el & Hel & H)]; (split; [done|]).
  - rewrite aget_re in Hel. destruct (aget es j) as [te|]; [|done]. injection Hel as <-. by exists te.
  - exists (to_re el). rewrite aget_re, Hel. done.
Qed.

Lemma tseg_frame es i idxs rs e k x : 0 <= k -> k ∉ idxs -> tseg es i idxs rs e -> tseg (<[Z.to_nat k := x]> es) i idxs rs e.
Proof. intros. unfold tseg. rewrite re_insert. by apply lseg_frame. Qed.

Lemma tseg_app es i a b ra rb e : length a = length ra ->
  tseg es i (a ++ b) (ra ++ rb) e <-> exists m, tseg es i a ra m /\ tseg es m b rb e.
Proof. apply lseg_app. Qed.

Lemma tseg_redirect es i a k ra r e e' :
  NoDup (a ++ [k]) -> tseg es i (a ++ [k]) (ra ++ [r]) e ->
  exists el es', aget es k = Some el /\ te_next el = e /\ te_set_next es k e' = Some es'
    /\ length es' = length es /\ tseg es' i (a ++ [k]) (ra ++ [r]) e'
    /\ (forall j, j ≠ k -> aget es' j = aget es j).
Proof.
  intros Hnd Hs. destruct (lseg_redirect _ _ _ _ _ _ _ e' Hnd Hs) as (el & Hel & Hnx & Hnew).
  rewrite aget_re in Hel. destruct (aget es k) as [te|] eqn:Ek; [|done]. injection Hel as <-.
  pose proof (aget_lt _ _ _ Ek). unfold te_set_next. rewrite Ek. cbn [mbind option_bind]. rewrite aset_ok by done.
  eexists te, _. split_and!; try done; [apply length_insert| |].
  - unfold tseg. rewrite re_insert. exact Hnew.
  - intros j Hj. apply aget_insert_ne; [lia|done].
Qed.

(** A new range behind [pre], whose last element points to [m]. *)
Lemma te_link es p pre prev rpre rprev m idx suf rsuf :
  NoDup ((pre ++ [prev]) ++ suf) -> (idx ∉ (pre ++ [prev]) ++ suf) -> 0 <= idx < Z.of_nat (length es) ->
  length pre = length rpre ->
  tseg es 0 (pre ++ [prev]) (rpre ++ [rprev]) m -> tseg es m suf rsuf 0 ->
  exists pe es' es'', aget es prev = Some pe /\ aset es idx (TE p 1 (te_next pe)) = Some es'
    /\ te_set_next es' prev idx = Some es'' /\ length es'' = length es
    /\ tseg es'' 0 ((pre ++ [prev]) ++ idx :: suf) ((rpre ++ [rprev]) ++ (p, p) :: rsuf) 0.
Proof.
  intros Hnd Hni Hi Hlen Hpre Hsuf. apply NoDup_app in Hnd as (Hn1 & Hd & Hn2).
  apply not_elem_of_app in Hni as [Hni1 Hni2].
  destruct (tseg_redirect _ _ _ _ _ _ _ 0 Hn1 Hpre) as (pe & _ & Hpe & Hnx & _).
  exists pe. rewrite aset_ok by done. set (es1 := <[Z.to_nat idx := TE p 1 (te_next pe)]> es).
  assert (tseg es1 0 (pre ++ [prev]) (rpre ++ [rprev]) m) as Hpre1 by (apply tseg_frame; [lia|done..]).
  destruct (tseg_redirect _ _ _ _ _ _ _ idx Hn1 Hpre1) as (_ & es2 & _ & _ & Hset & Hl & Hseg & Hsame).
  exists es1, es2. split_and!; try done; [rewrite Hl; apply length_insert|].
  apply tseg_app; [rewrite !length_app; cbn; lia|]. exists idx. split; [done|].
  assert (Hdp : forall x, x ∈ idx :: suf -> x ≠ prev).
  { intros x [->|Hx]%elem_of_cons ->; [set_solver|]. apply (Hd prev); [set_solver|done]. }
  apply tseg_cons. split; [done|]. exists (TE p 1 (te_next pe)).
  rewrite Hsame by (apply Hdp; left). unfold es1. rewrite aget_insert_eq by done. split_and!; try done; [cbn; lia|].
  cbn [te_next]. rewrite Hnx.
  assert (tseg es1 m suf rsuf 0) as Hsuf1 by (apply tseg_frame; [lia|done..]).
  assert (Hext : forall js i rs, (forall x, x ∈ js -> x ≠ prev) -> tseg es1 i js rs 0 -> tseg es2 i js rs 0).
  { clear -Hsame. induction js as [|j js IH]; intros i [|[l h] rs] Hj H; try done.
    apply tseg_cons in H as (-> & el & Hel & H1 & H2 & H3). apply tseg_cons. split; [done|].
    exists el. rewrite Hsame by (apply Hj; left). split_and!; try done. apply IH; [|done]. intros x Hx. apply Hj. by right. }
  apply Hext; [|done]. intros x Hx. apply Hdp. by right.
Qed.

(** A new range in front of the head: the head's range moves to the new slot. *)
Lemma te_push es p idx rest l h rrest :
  NoDup (0 :: rest) -> (idx ∉ 0 :: rest) -> 0 <= idx < Z.of_nat (length es) ->
  tseg es 0 (0 :: rest) ((l, h) :: rrest) 0 ->
  exists el es' es'', aget es 0 = Some el /\ aset es idx el = Some es' /\ aset es' 0 (TE p 1 idx) = Some es''
    /\ length es'' = length es /\ tseg es'' 0 (0 :: idx :: rest) ((p, p) :: (l, h) :: rrest) 0.
Proof.
  intros [H0 Hnd]%NoDup_cons [Hne Hni]%not_elem_of_cons Hi Hs.
  apply tseg_cons in Hs as (_ & el & Hel & Hl & Hc & Hs). pose proof (aget_lt _ _ _ Hel).
  exists el, (<[Z.to_nat idx := el]> es). rewrite aset_ok by done. rewrite aset_ok by (rewrite length_insert; lia).
  eexists. split_and!; try done; [by rewrite !length_insert|].
  apply tseg_cons. split; [done|]. eexists. rewrite aget_insert_eq by (rewrite length_insert; lia).
  split_and!; try done; [cbn; lia|]. cbn [te_next]. apply tseg_cons. split; [done|]. exists el.
  rewrite aget_insert_ne, aget_insert_eq by (done || lia). split_and!; try done.
  apply tseg_frame; [lia|done|]. apply tseg_frame; [lia|done..].
Qed.

Lemma find_last_ok es b : forall k rb cur next fuel,
  tseg es next (b ++ [k]) rb 0 -> 0 ∉ tl (b ++ [k]) -> (length b < fuel)%nat ->
  find_last fuel es cur next = last (cur :: b).
Proof.
  induction b as [|j b IH]; intros k rb cur next fuel Hs H0 Hf; (destruct fuel as [|fuel]; [lia|]);
    (destruct rb as [|[l h] rb]; [done|]); apply tseg_cons in Hs as (-> & el & Hel & _ & _ & Hs);
    cbn [find_last]; rewrite Hel; cbn [mbind option_bind].
  - destruct rb; [|done]. cbn in Hs. rewrite Hs, Z.eqb_refl. done.
  - cbn [app tl] in H0. destruct (Z.eqb_spec (te_next el) 0) as [E|E].
    + exfalso. apply H0. rewrite <- E. destruct b as [|j' b], rb as [|[l' h'] rb]; try done;
        apply tseg_cons in Hs as [-> _]; left.
    + cbn in Hf. rewrite (IH k rb j (te_next el) fuel); [done|done| |lia].
      intros Hin. apply H0. destruct (b ++ [k]) eqn:E'; [done|]. by right.
Qed.

(** ** The branches of insertion *)

Section insert.
Context (p : Z) (Hp : 0 <= p /\ p + 1 < TE_BOUND).

Definition tpost (h : trechist) (rs : list range) (r : option (Z * trechist)) : Prop :=
  match tins p rs with
  | Some rs' => exists h', r = Some (0, h') /\ tview h' rs'
  | None => r = Some (-1, h)
  end.

(** No gap between two ranges closes that leaves 256 or 257 packets in one. *)
Definition merge_fits (rs : list range) : Prop :=
  forall rs', rins p rs = Some rs' -> (length rs' < length rs)%nat ->
    Forall (fun r => rsize r ≠ 256 /\ rsize r ≠ 257) rs'.

Lemma tpost_ok h rs rs1 idxs m es :
  ranges_ok TE_BOUND rs -> rins p rs = Some rs1 -> Forall (fun r => rsize r <= 255) rs1 ->
  length es = 16%nat -> tslots m idxs -> tseg es 0 idxs (take 16 rs1) 0 -> tpost h rs (Some (0, (m, es))).
Proof using Hp.
  intros Hok Hins Hsz Hl Hs Hseg. unfold tpost, tins. rewrite Hins.
  assert (forallb (fun r => rsize r <=? 255) rs1 = true) as ->.
  { apply forallb_forall. intros r Hr. apply Z.leb_le. rewrite Forall_forall in Hsz. by apply Hsz, list_elem_of_In. }
  eexists. split; [done|]. exists idxs. split; try done.
  - apply ranges_ok_take. destruct Hp. by apply (rins_ok TE_BOUND p rs).
  - by apply Forall_take.
Qed.

Lemma tpost_err h rs rs1 r :
  rins p rs = Some rs1 -> r ∈ rs1 -> 255 < rsize r -> tpost h rs (Some (-1, h)).
Proof using.
  intros Hins Hr Hsz. unfold tpost, tins. rewrite Hins.
  assert (forallb (fun r => rsize r <=? 255) rs1 = false) as ->; [|done].
  apply not_true_is_false. rewrite forallb_forall. intros H. apply list_elem_of_In, H, Z.leb_le in Hr. lia.
Qed.

(** The loop stands at element [eli], which holds [(l, h)]. *)
Record tcur m es pre rpre eli rest l h rrest el : Prop := {
  tc_wf : twf (m, es) (pre ++ eli :: rest) (rpre ++ (l, h) :: rrest);
  tc_len : length pre = length rpre;
  tc_above : all_above p rpre;
  tc_el : aget es eli = Some el;
  tc_low : te_low el = l;
  tc_count : te_count el = h - l + 1;
  tc_high : TE_HIGH el = h;
  tc_lh : 0 <= l <= h /\ h + 1 < TE_BOUND /\ h - l + 1 <= 255;
  tc_pre : tseg es 0 pre rpre eli;
  tc_rest : tseg es (te_next el) rest rrest 0
}.

Lemma TE_HIGH_ok el l h : te_low el = l -> te_count el = h - l + 1 -> 0 <= l <= h -> h + 1 < TE_BOUND -> TE_HIGH el = h.
Proof using. intros E1 E2 H1 H2. unfold TE_HIGH, TE_BOUND in *. rewrite E1, E2, wrapu_id; unfold is_u; lia. Qed.

Lemma tcur_intro m es pre rpre eli rest l h rrest :
  twf (m, es) (pre ++ eli :: rest) (rpre ++ (l, h) :: rrest) -> length pre = length rpre -> all_above p rpre ->
  exists el, tcur m es pre rpre eli rest l h rrest el.
Proof using.
  intros W Hlen Hab. pose proof (tw_seg _ _ _ W) as Hs. apply tseg_app in Hs as (i & H1 & H2); [|done].
  apply tseg_cons in H2 as (-> & el & Hel & Hl & Hc & H2). exists el.
  pose proof (tw_rs _ _ _ W) as [Hr1 Hr]%ranges_ok_app. cbn in Hr. pose proof (lowb_le _ _ Hr1).
  pose proof (tw_size _ _ _ W) as [_ [Hsz _]%Forall_cons]%Forall_app. unfold rsize in Hsz. cbn in Hsz.
  split; try done; try lia. by apply (TE_HIGH_ok el l h); try done; try lia.
Qed.

Lemma tcur_slots m es pre rpre eli rest l h rrest el :
  tcur m es pre rpre eli rest l h rrest el ->
  tslots m (pre ++ eli :: rest) /\ length es = 16%nat /\ (eli ∉ pre) /\ (eli ∉ rest) /\ NoDup pre
  /\ 0 <= eli < Z.of_nat (length es) /\ length rest = length rrest /\ ranges_ok TE_BOUND (rpre ++ (l, h) :: rrest).
Proof using.
  intros []. pose proof tc_wf0 as [A S _ R _]. cbn in A, S. pose proof (ts_nodup _ _ S) as (N1 & D & N2)%NoDup_app.
  apply NoDup_cons in N2 as [N2 _]. pose proof (aget_lt _ _ _ tc_el0). pose proof (lseg_length _ _ _ _ _ tc_rest0).
  split_and!; try done; try lia. intros Hin. apply (D _ Hin). left.
Qed.

Lemma tcur_rins m es pre rpre eli rest l h rrest el :
  tcur m es pre rpre eli rest l h rrest el ->
  rins p (rpre ++ (l, h) :: rrest) = app rpre <$> rins p ((l, h) :: rrest).
Proof using. intros []. by apply rins_skip. Qed.

Lemma tcur_length m es pre rpre eli rest l h rrest el :
  tcur m es pre rpre eli rest l h rrest el -> (length (rpre ++ (l, h) :: rrest) <= 16)%nat
  /\ length (rpre ++ (l, h) :: rrest) = length (pre ++ eli :: rest).
Proof using.
  intros Hc. destruct (tcur_slots _ _ _ _ _ _ _ _ _ _ Hc) as (S & _ & _ & _ & _ & _ & E & _).
  pose proof (tslots_length _ _ S). pose proof (tc_len _ _ _ _ _ _ _ _ _ _ Hc).
  rewrite !length_app in *. cbn [length] in *. lia.
Qed.

(** The ranges other than the current one are not too long. *)
Lemma tcur_sizes m es pre rpre eli rest l h rrest el rs' :
  tcur m es pre rpre eli rest l h rrest el -> Forall (fun r => rsize r <= 255) rs' ->
  Forall (fun r => rsize r <= 255) (rpre ++ rs').
Proof using. intros [W] H. pose proof (tw_size _ _ _ W) as [A _]%Forall_app. by apply Forall_app. Qed.

Lemma tcur_tail_sizes m es pre rpre eli rest l h rrest el :
  tcur m es pre rpre eli rest l h rrest el -> Forall (fun r => rsize r <= 255) ((l, h) :: rrest).
Proof using. intros [W]. by pose proof (tw_size _ _ _ W) as [_ A]%Forall_app. Qed.

(** The element under the cursor changes, the number of ranges does not. *)
Lemma t_update m es pre rpre eli rest l h rrest el l' h' :
  tcur m es pre rpre eli rest l h rrest el -> rins p ((l, h) :: rrest) = Some ((l', h') :: rrest) ->
  h' - l' + 1 <= 255 ->
  tpost (m, es) (rpre ++ (l, h) :: rrest)
    (es ← aset es eli (TE l' (h' - l' + 1) (te_next el)); Some (0, (m, es))).
Proof using Hp.
  intros Hc Hins Hsz. destruct (tcur_slots _ _ _ _ _ _ _ _ _ _ Hc) as (S & L & N1 & N2 & N3 & Hi & E & R).
  pose proof (tcur_rins _ _ _ _ _ _ _ _ _ _ Hc) as Hr. rewrite Hins in Hr. cbn in Hr.
  destruct (tcur_length _ _ _ _ _ _ _ _ _ _ Hc) as [Hlen _].
  rewrite aset_ok by done. cbn [mbind option_bind].
  eapply (tpost_ok _ _ _ (pre ++ eli :: rest)); [done|exact Hr| |by rewrite length_insert|done|].
  - eapply tcur_sizes; [done|]. pose proof (tcur_tail_sizes _ _ _ _ _ _ _ _ _ _ Hc) as [_ A]%Forall_cons.
    by constructor.
  - rewrite take_ge by (rewrite !length_app in *; cbn [length] in *; lia).
    apply tseg_app; [apply Hc|]. exists eli. split; [apply tseg_frame; [lia|done|apply Hc]|].
    apply tseg_cons. split; [done|]. eexists. rewrite aget_insert_eq by done. split_and!; try done.
    cbn. apply tseg_frame; [lia|done|apply Hc].
Qed.

Lemma t_extend_high m es pre rpre eli rest l h rrest el :
  tcur m es pre rpre eli rest l h rrest el -> p = h + 1 ->
  tpost (m, es) (rpre ++ (l, h) :: rrest)
    (if te_count el =? UCHAR_MAX then Some (-1, (m, es)) else
     es ← aset es eli (TE (te_low el) (u8 (te_count el + 1)) (te_next el)); Some (0, (m, es))).
Proof using Hp.
  intros Hc E. pose proof Hc as [_ _ _ _ Hl Hct _ (B1 & B2 & B3) _ _].
  assert (Hins : rins p ((l, h) :: rrest) = Some ((l, p) :: rrest)) by (cbn; by ztest).
  unfold UCHAR_MAX. destruct (Z.eqb_spec (te_count el) 255) as [E2|E2].
  - eapply (tpost_err _ _ _ (l, p)).
    + rewrite (tcur_rins _ _ _ _ _ _ _ _ _ _ Hc), Hins. reflexivity.
    + apply elem_of_app. right. left.
    + unfold rsize. cbn. lia.
  - rewrite wrapu_id by (unfold is_u; lia). rewrite Hl, Hct. replace (h - l + 1 + 1) with (p - l + 1) by lia.
    eapply t_update; [done|done|lia].
Qed.

Lemma t_dup m es pre rpre eli rest l h rrest el :
  tcur m es pre rpre eli rest l h rrest el -> l <= p <= h ->
  tpost (m, es) (rpre ++ (l, h) :: rrest) (Some (0, (m, es))).
Proof using.
  intros Hc Hin. unfold tpost, tins. rewrite (tcur_rins _ _ _ _ _ _ _ _ _ _ Hc). cbn [rins].
  replace (h + 1 <? p) with false by lia. replace (p =? l - 1) with false by lia.
  replace (p =? h + 1) with false by lia. replace ((l <=? p) && (p <=? h)) with true by lia.
  eexists. split; [done|]. exists (pre ++ eli :: rest). apply Hc.
Qed.

Lemma t_merge m es pre rpre eli k rest l h l2 h2 rrest el nx :
  tcur m es pre rpre eli (k :: rest) l h ((l2, h2) :: rrest) el -> p = l - 1 -> p = h2 + 1 ->
  aget es k = Some nx -> h - l2 + 1 <= 255 ->
  tpost (m, es) (rpre ++ (l, h) :: (l2, h2) :: rrest)
    (es ← aset es eli (TE l2 (h - l2 + 1) (te_next nx)); Some (0, (Z.ldiff m (u32 (Z.shiftl 1 k)), es))).
Proof using Hp.
  intros Hc E1 E2 Hnx Hsz. destruct (tcur_slots _ _ _ _ _ _ _ _ _ _ Hc) as (S & L & N1 & N2 & N3 & Hi & E & R).
  pose proof (tcur_rins _ _ _ _ _ _ _ _ _ _ Hc) as Hr. cbn [rins] in Hr. pose proof (tc_lh _ _ _ _ _ _ _ _ _ _ Hc) as Hlh.
  replace (h + 1 <? p) with false in Hr by lia. replace (p =? l - 1) with true in Hr by lia.
  replace (p =? h2 + 1) with true in Hr by lia. cbn in Hr.
  destruct (tcur_length _ _ _ _ _ _ _ _ _ _ Hc) as [Hlen _].
  pose proof (tc_rest _ _ _ _ _ _ _ _ _ _ Hc) as Hrest. apply tseg_cons in Hrest as (Ek & nx' & Hnx' & _ & _ & Hrest).
  assert (nx' = nx) as -> by congruence.
  rewrite aset_ok by done. cbn [mbind option_bind]. apply not_elem_of_cons in N2 as [N2 N2'].
  eapply (tpost_ok _ _ _ (pre ++ eli :: rest)); [done|exact Hr| |by rewrite length_insert| |].
  - eapply tcur_sizes; [done|]. pose proof (tcur_tail_sizes _ _ _ _ _ _ _ _ _ _ Hc) as [_ [_ A]%Forall_cons]%Forall_cons.
    by constructor.
  - apply tslots_clear. eapply tslots_perm, S. solve_Permutation.
  - rewrite take_ge by (rewrite !length_app in *; cbn [length] in *; lia).
    apply tseg_app; [apply Hc|]. exists eli. split; [apply tseg_frame; [lia|done|apply Hc]|].
    apply tseg_cons. split; [done|]. eexists. rewrite aget_insert_eq by done. split_and!; try done.
    cbn. apply tseg_frame; [lia|done..].
Qed.

(** Element 0 is the head of the list and nothing else. *)
Lemma tcur_zero m es pre rpre eli rest l h rrest el :
  tcur m es pre rpre eli rest l h rrest el -> (0 ∉ rest) /\ (eli = 0 <-> pre = []).
Proof using.
  intros Hc. destruct (tcur_slots _ _ _ _ _ _ _ _ _ _ Hc) as (S & _ & N1 & N2 & _).
  pose proof (tw_seg _ _ _ (tc_wf _ _ _ _ _ _ _ _ _ _ Hc)) as Hs. cbn in Hs.
  pose proof (ts_nodup _ _ S) as (_ & D & _)%NoDup_app. destruct pre as [|j pre].
  - destruct rpre; [|by pose proof (tc_len _ _ _ _ _ _ _ _ _ _ Hc)]. apply tseg_cons in Hs as [<- _]. done.
  - destruct rpre as [|[lj hj] rpre]; [by pose proof (tc_len _ _ _ _ _ _ _ _ _ _ Hc)|].
    apply tseg_cons in Hs as [<- _]. split.
    + intros Hin. apply (D 0); [left|by right].
    + split; [|done]. intros ->. exfalso. apply N1. left.
Qed.

Lemma t_extend_low m es pre rpre eli rest l h rrest el :
  tcur m es pre rpre eli rest l h rrest el -> p = l - 1 -> merge_fits (rpre ++ (l, h) :: rrest) ->
  tpost (m, es) (rpre ++ (l, h) :: rrest) (te_extend_low m es eli el).
Proof using Hp.
  intros Hc E HM. pose proof Hc as [_ _ _ _ Hl Hct Hhi (B1 & B2 & B3) _ Hrest].
  destruct (tcur_slots _ _ _ _ _ _ _ _ _ _ Hc) as (S & L & N1 & N2 & N3 & Hi & Elen & R).
  destruct (tcur_zero _ _ _ _ _ _ _ _ _ _ Hc) as [Hz _].
  pose proof (tcur_rins _ _ _ _ _ _ _ _ _ _ Hc) as Hr.
  assert (Hno : (forall l2 h2 rr, rrest = (l2, h2) :: rr -> p ≠ h2 + 1) ->
    tpost (m, es) (rpre ++ (l, h) :: rrest)
      (if te_count el =? UCHAR_MAX then Some (-1, (m, es)) else
       es ← aset es eli (TE (u32 (te_low el - 1)) (u8 (te_count el + 1)) (te_next el)); Some (0, (m, es)))).
  { intros Hne. assert (Hins : rins p ((l, h) :: rrest) = Some ((p, h) :: rrest)).
    { cbn [rins]. replace (h + 1 <? p) with false by lia. replace (p =? l - 1) with true by lia.
      destruct rrest as [|[l2 h2] rr]; [done|]. specialize (Hne _ _ _ eq_refl). by replace (p =? h2 + 1) with false by lia. }
    unfold UCHAR_MAX. destruct (Z.eqb_spec (te_count el) 255) as [E2|E2].
    - eapply (tpost_err _ _ _ (p, h)); [by rewrite Hr, Hins|apply elem_of_app; right; left|unfold rsize; cbn; lia].
    - unfold TE_BOUND in *. rewrite (wrapu_id 8), (wrapu_id 32) by (unfold is_u; lia). rewrite Hl, Hct, <- E.
      replace (h - l + 1 + 1) with (h - p + 1) by lia. eapply t_update; [done|done|lia]. }
  unfold te_extend_low. destruct rest as [|k rest], rrest as [|[l2 h2] rrest]; try done.
  { cbn in Hrest. destruct (aget_is_Some es (te_next el)) as [x ->]; [rewrite Hrest; lia|]. cbn [mbind option_bind].
    rewrite (proj2 (Z.eqb_eq (te_next el) 0) Hrest). cbn [negb andb]. by apply Hno. }
  apply tseg_cons in Hrest as (Ek & nx & Hnx & Hl2 & Hc2 & Hrest).
  apply ranges_ok_app in R as [_ R]. cbn in R.
  pose proof (tcur_tail_sizes _ _ _ _ _ _ _ _ _ _ Hc) as [_ [Hs2 _]%Forall_cons]%Forall_cons. unfold rsize in Hs2. cbn in Hs2.
  rewrite Ek, Hnx. cbn [mbind option_bind]. rewrite (TE_HIGH_ok nx l2 h2) by (done || lia).
  replace (k =? 0) with false by (symmetry; apply Z.eqb_neq; intros ->; apply Hz; left). cbn [negb andb].
  unfold TE_BOUND in *. rewrite (wrapu_id 32 (h2 + 2)) by (unfold is_u; lia). rewrite Hl.
  destruct (Z.eqb_spec l (h2 + 2)) as [E2|E2].
  2: { rewrite Ek, Hl in Hno. apply Hno. intros ? ? ? [= <- <- <-]. lia. }
  cbn [rins] in Hr. replace (h + 1 <? p) with false in Hr by lia. replace (p =? l - 1) with true in Hr by lia.
  replace (p =? h2 + 1) with true in Hr by lia. cbn in Hr.
  assert (rsize (l2, h) ≠ 256 /\ rsize (l2, h) ≠ 257) as HF.
  { specialize (HM _ Hr). ospecialize (HM _); [rewrite !length_app; cbn [length]; lia|].
    apply Forall_app in HM as [_ [HM _]%Forall_cons]. done. }
  unfold rsize in HF. cbn in HF. rewrite Hct, Hc2. unfold UCHAR_MAX.
  destruct (Z.ltb_spec 255 (h - l + 1 + (h2 - l2 + 1) - 1)) as [Hbig|Hsmall].
  - eapply (tpost_err _ _ _ (l2, h)); [exact Hr|apply elem_of_app; right; left|unfold rsize; cbn; lia].
  - rewrite (wrapu_id 8) by (unfold is_u; lia). rewrite Hl2.
    replace (h - l + 1 + (h2 - l2 + 1 + 1)) with (h - l2 + 1) by lia.
    eapply t_merge; try done; lia.
Qed.

Lemma t_insert_tail m es pre rpre eli l h el :
  tcur m es pre rpre eli [] l h [] el -> p < l - 1 ->
  tpost (m, es) (rpre ++ [(l, h)]) (te_insert_tail m es p eli).
Proof using Hp.
  intros Hc Hlt. destruct (tcur_slots _ _ _ _ _ _ _ _ _ _ Hc) as (S & L & N1 & N2 & N3 & Hi & _ & R).
  pose proof (tcur_rins _ _ _ _ _ _ _ _ _ _ Hc) as Hr. pose proof (tc_lh _ _ _ _ _ _ _ _ _ _ Hc) as Hlh.
  destruct (tcur_length _ _ _ _ _ _ _ _ _ _ Hc) as [Hle Hlen].
  assert (Hins : rins p [(l, h)] = Some [(l, h); (p, p)]).
  { cbn. replace (h + 1 <? p) with false by lia. replace (p =? l - 1) with false by lia.
    replace (p =? h + 1) with false by lia. replace (l <=? p) with false by lia. done. }
  rewrite Hins in Hr. cbn in Hr.
  assert (Hsz : Forall (fun r => rsize r <= 255) (rpre ++ [(l, h); (p, p)])).
  { eapply tcur_sizes; [done|]. pose proof (tcur_tail_sizes _ _ _ _ _ _ _ _ _ _ Hc) as [A _]%Forall_cons.
    repeat constructor; [done|]. unfold rsize. cbn. lia. }
  unfold te_insert_tail. destruct (Z.eqb_spec m TRECHIST_MAX_RANGES_MASK) as [Hm|Hm].
  - apply (tslots_full _ _ S) in Hm.
    eapply (tpost_ok _ _ _ (pre ++ [eli])); [done|exact Hr|done|done|done|].
    change [(l, h); (p, p)] with ([(l, h)] ++ [(p, p)]). rewrite app_assoc, take_app_length' by lia.
    apply (tw_seg _ _ _ (tc_wf _ _ _ _ _ _ _ _ _ _ Hc)).
  - destruct (tslots_free _ _ S Hm) as (idx & -> & Hidx & Hni). cbn [mbind option_bind].
    pose proof (tw_seg _ _ _ (tc_wf _ _ _ _ _ _ _ _ _ _ Hc)) as Hseg. cbn in Hseg.
    destruct (te_link es p pre eli rpre (l, h) 0 idx [] []) as (pe & es1 & es2 & Hpe & H1 & H2 & Hl2 & Hs2); try done.
    { rewrite app_nil_r. apply S. }
    { by rewrite app_nil_r. }
    { lia. }
    { apply Hc. }
    assert (pe = el) as -> by (pose proof (tc_el _ _ _ _ _ _ _ _ _ _ Hc); congruence).
    pose proof (tc_rest _ _ _ _ _ _ _ _ _ _ Hc) as Hn. cbn in Hn. rewrite Hn in H1. rewrite H1. cbn [mbind option_bind].
    rewrite H2. cbn [mbind option_bind].
    rewrite <- !app_assoc in Hs2. cbn [app] in Hs2.
    eapply (tpost_ok _ _ _ (pre ++ [eli; idx])); [done|exact Hr|done|lia| |].
    + eapply tslots_perm, tslots_set; [|exact S|done|done]. solve_Permutation.
    + rewrite take_ge; [done|]. rewrite (tslots_full _ _ S) in Hm. rewrite !length_app in *. cbn [length] in *. lia.
Qed.

(** In a full history the last range gives up its slot [k]. *)
Lemma t_evict m es pre rpre eli rest l h rrest el :
  tcur m es pre rpre eli rest l h rrest el -> m = TRECHIST_MAX_RANGES_MASK ->
  exists k es', te_slot m es eli = Some (k, es') /\ length es' = 16%nat
    /\ ((rest = [] /\ k = eli /\ tseg es' 0 pre rpre 0)
        \/ exists rest' rrest' rk, rest = rest' ++ [k] /\ rrest = rrest' ++ [rk]
           /\ tseg es' 0 (pre ++ eli :: rest') (rpre ++ (l, h) :: rrest') 0).
Proof using.
  intros Hc Hm. destruct (tcur_slots _ _ _ _ _ _ _ _ _ _ Hc) as (S & L & N1 & N2 & N3 & Hi & Elen & R).
  destruct (tcur_zero _ _ _ _ _ _ _ _ _ _ Hc) as [Hz Hz0]. pose proof (ts_nodup _ _ S) as Hnd.
  pose proof (proj1 (tslots_full _ _ S) Hm) as Hl. rewrite length_app in Hl. cbn [length] in Hl.
  pose proof (tc_len _ _ _ _ _ _ _ _ _ _ Hc) as Hlp.
  pose proof (tw_seg _ _ _ (tc_wf _ _ _ _ _ _ _ _ _ _ Hc)) as Hseg. cbn in Hseg.
  unfold te_slot. rewrite Hm, Z.eqb_refl. cbn [negb]. rewrite (tc_el _ _ _ _ _ _ _ _ _ _ Hc). cbn [mbind option_bind].
  destruct rest as [|k rest _] using rev_ind.
  - destruct rrest; [|done]. pose proof (tc_rest _ _ _ _ _ _ _ _ _ _ Hc) as Hn. cbn in Hn. rewrite Hn.
    destruct pre as [|pen pre _] using rev_ind; [cbn in Hl; lia|].
    destruct rpre as [|rpen rpre _] using rev_ind; [rewrite length_app in Hlp; cbn in Hlp; lia|].
    rewrite (find_last_ok es (pre ++ [pen]) eli _ eli 0 _ Hseg); [|..].
    + rewrite last_cons, last_snoc. cbn [mbind option_bind].
      destruct (tseg_redirect es 0 pre pen rpre rpen eli 0 N3) as (c & es' & Hcp & Hnx & Hset & Hl' & Hs' & _); [apply Hc|].
      rewrite Hcp. cbn [mbind option_bind]. rewrite Hset. cbn [mbind option_bind]. rewrite Hnx.
      eexists _, _. split; [done|]. split; [lia|]. by left.
    + rewrite !length_app in Hlp. destruct pre as [|j pre], rpre as [|[lj hj] rpre]; cbn [length] in Hlp; try lia;
        cbn [app tl] in *.
      * intros Hin%list_elem_of_singleton. symmetry in Hin. by apply Hz0 in Hin.
      * apply tseg_cons in Hseg as [<- _]. by apply NoDup_cons in Hnd as [? _].
    + rewrite length_app in *. cbn [length] in *. lia.
  - destruct rrest as [|rk rrest _] using rev_ind; [rewrite length_app in Elen; cbn in Elen; lia|].
    rewrite !length_app in Elen. cbn [length] in Elen.
    rewrite (find_last_ok es rest k _ eli (te_next el) _ (tc_rest _ _ _ _ _ _ _ _ _ _ Hc)); [|..].
    + destruct (exists_last (l := eli :: rest)) as (a & pen & Ea); [done|].
      destruct (exists_last (l := (l, h) :: rrest)) as (ra & rpen & Era); [done|].
      assert (length a = length ra) as Hla.
      { apply (f_equal length) in Ea, Era. rewrite length_app in Ea, Era. cbn [length] in Ea, Era. lia. }
      rewrite Ea, last_snoc. cbn [mbind option_bind].
      change (eli :: rest ++ [k]) with ((eli :: rest) ++ [k]) in Hseg, Hnd.
      change ((l, h) :: rrest ++ [rk]) with (((l, h) :: rrest) ++ [rk]) in Hseg.
      rewrite Ea, !app_assoc in Hnd. rewrite Ea, Era, !app_assoc in Hseg.
      apply tseg_app in Hseg as (i & Hs1 & Hs2); [|rewrite !length_app; cbn; lia].
      destruct rk as [lk hk]. apply tseg_cons in Hs2 as [-> _].
      apply NoDup_app in Hnd as (Hnd & _ & _).
      destruct (tseg_redirect es 0 (pre ++ a) pen (rpre ++ ra) rpen k 0 Hnd Hs1) as (c & es' & Hcp & Hnx & Hset & Hl' & Hs' & _).
      rewrite Hcp. cbn [mbind option_bind]. rewrite Hset. cbn [mbind option_bind]. rewrite Hnx.
      eexists _, _. split; [done|]. split; [lia|]. right. exists rest, rrest, (lk, hk). split_and!; try done.
      by rewrite Ea, Era, !app_assoc.
    + intros Hin. apply Hz. destruct rest; cbn [app tl] in Hin; [by apply elem_of_nil in Hin|]. by right.
    + rewrite length_app in Hl. cbn [length] in Hl. lia.
Qed.

(** The slot is known and the list it is to be linked into is [pre ++ suf]. *)
Lemma t_before_link es pre rpre idx suf rsuf rs :
  rs = rpre ++ rsuf -> length pre = length rpre -> length es = 16%nat ->
  NoDup (pre ++ suf) -> (idx ∉ pre ++ suf) -> 0 <= idx < 16 ->
  tseg es 0 (pre ++ suf) rs 0 -> pre ++ suf <> [] ->
  exists es' idxs', (idxs' ≡ₚ idx :: pre ++ suf) /\ length es' = 16%nat
    /\ tseg es' 0 idxs' (rpre ++ (p, p) :: rsuf) 0
    /\ (pre = [] ->
        (el ← aget es 0; es ← aset es idx el; es ← aset es 0 (TE p 1 idx); Some es) = Some es')
    /\ (forall prev, last pre = Some prev ->
        (pe ← aget es prev; es ← aset es idx (TE p 1 (te_next pe)); te_set_next es prev idx) = Some es').
Proof using.
  intros -> Hlen L Hnd Hni Hi Hseg Hne. destruct pre as [|prev pre _] using rev_ind.
  - destruct rpre; [|done]. cbn [app] in *. destruct suf as [|j suf]; [done|].
    destruct rsuf as [|[l h] rsuf]; [done|]. pose proof Hseg as [<- _]%tseg_cons.
    destruct (te_push es p idx suf l h rsuf) as (el & es1 & es2 & H1 & H2 & H3 & Hl & Hs); try done; [lia|].
    exists es2, (0 :: idx :: suf). split_and!; try done; [solve_Permutation|lia|].
    intros _. rewrite H1. cbn [mbind option_bind]. rewrite H2. cbn [mbind option_bind]. by rewrite H3.
  - destruct rpre as [|rprev rpre _] using rev_ind; [rewrite length_app in Hlen; cbn in Hlen; lia|].
    rewrite !length_app in Hlen. cbn in Hlen.
    apply tseg_app in Hseg as (i & Hs1 & Hs2); [|rewrite !length_app; cbn; lia].
    destruct (te_link es p pre prev rpre rprev i idx suf rsuf) as (pe & es1 & es2 & H1 & H2 & H3 & Hl & Hs);
      try done; [lia..|].
    exists es2, ((pre ++ [prev]) ++ idx :: suf). split_and!; try done; [solve_Permutation|lia|by destruct pre|].
    intros prev'. rewrite last_snoc. intros [= <-]. rewrite H1. cbn [mbind option_bind]. rewrite H2. cbn [mbind option_bind]. done.
Qed.

Lemma t_insert_before m es pre rpre eli rest l h rrest el :
  tcur m es pre rpre eli rest l h rrest el -> h + 1 < p ->
  tpost (m, es) (rpre ++ (l, h) :: rrest) (te_insert_before m es p (last pre) eli).
Proof using Hp.
  intros Hc Hlt. destruct (tcur_slots _ _ _ _ _ _ _ _ _ _ Hc) as (S & L & N1 & N2 & N3 & Hi & Elen & R).
  destruct (tcur_zero _ _ _ _ _ _ _ _ _ _ Hc) as [_ Hz]. pose proof (tc_len _ _ _ _ _ _ _ _ _ _ Hc) as Hlen.
  pose proof (tcur_rins _ _ _ _ _ _ _ _ _ _ Hc) as Hr. rewrite rins_above in Hr by done. cbn in Hr.
  destruct (tcur_length _ _ _ _ _ _ _ _ _ _ Hc) as [Hle Hlens].
  assert (Hsz : Forall (fun r => rsize r <= 255) (rpre ++ (p, p) :: (l, h) :: rrest)).
  { eapply tcur_sizes; [done|]. constructor; [unfold rsize; cbn; lia|]. by eapply tcur_tail_sizes. }
  (* the common end: slot [idx], list [pre ++ suf] *)
  assert (Hend : forall idx es1 suf rsuf, te_slot m es eli = Some (idx, es1) -> length es1 = 16%nat ->
    NoDup (pre ++ suf) -> (idx ∉ pre ++ suf) -> 0 <= idx < 16 -> pre ++ suf <> [] ->
    tseg es1 0 (pre ++ suf) (rpre ++ rsuf) 0 -> take 16 (rpre ++ (p, p) :: (l, h) :: rrest) = rpre ++ (p, p) :: rsuf ->
    (forall idxs, idxs ≡ₚ idx :: pre ++ suf -> tslots (Z.lor m (u32 (Z.shiftl 1 idx))) idxs) ->
    tpost (m, es) (rpre ++ (l, h) :: rrest) (te_insert_before m es p (last pre) eli)).
  { intros idx es1 suf rsuf Hslot Hl1 Hnd Hni Hidx Hne Hs1 Htake Hsl. unfold te_insert_before. rewrite Hslot. cbn [mbind option_bind].
    destruct (t_before_link es1 pre rpre idx suf rsuf _ eq_refl Hlen Hl1 Hnd Hni Hidx Hs1 Hne)
      as (es2 & idxs & Hperm & Hl2 & Hs2 & Hpush & Hlink).
    assert (HP : tpost (m, es) (rpre ++ (l, h) :: rrest) (Some (0, (Z.lor m (u32 (Z.shiftl 1 idx)), es2)))).
    { eapply (tpost_ok _ _ _ idxs); [done|exact Hr|done|done|by apply Hsl|]. by rewrite Htake. }
    destruct (Z.eqb_spec eli 0) as [E|E].
    - apply Hz in E. specialize (Hpush E). destruct (aget es1 0) as [e0|]; [|done]. cbn [mbind option_bind] in *.
      destruct (aset es1 idx e0) as [e1|]; [|done]. cbn [mbind option_bind] in *.
      destruct (aset e1 0 _) as [e2|]; [|done]. cbn [mbind option_bind] in *. by injection Hpush as ->.
    - destruct (last pre) as [prev|] eqn:Elast; [|apply last_None in Elast; by apply Hz in Elast].
      specialize (Hlink prev eq_refl). cbn [mbind option_bind]. destruct (aget es1 prev) as [e0|]; [|done]. cbn [mbind option_bind] in *.
      destruct (aset es1 idx _) as [e1|]; [|done]. cbn [mbind option_bind] in *.
      destruct (te_set_next e1 prev idx) as [e2|]; [|done]. cbn [mbind option_bind] in *. by injection Hlink as ->. }
  pose proof (ts_nodup _ _ S) as Hnd.
  destruct (decide (m = TRECHIST_MAX_RANGES_MASK)) as [Hm|Hm].
  - pose proof (proj1 (tslots_full _ _ S) Hm) as H16.
    destruct (t_evict _ _ _ _ _ _ _ _ _ _ Hc Hm) as (k & es1 & Hslot & Hl1 & [(-> & -> & Hs1)|(rest' & rrest' & rk & -> & -> & Hs1)]).
    + destruct rrest; [|done]. rewrite length_app in H16. cbn [length] in H16.
      apply (Hend eli es1 [] []); rewrite ?app_nil_r; try done; try lia.
      * intros ->. cbn in H16. lia.
      * change [(p, p); (l, h)] with ([(p, p)] ++ [(l, h)]). rewrite app_assoc, take_app_length'; [done|].
        rewrite length_app. cbn. lia.
      * intros idxs Hperm. apply (tslots_perm _ (pre ++ [eli])); [rewrite Hperm; solve_Permutation|].
        apply tslots_again; [done|set_solver].
    + change (eli :: rest' ++ [k]) with ((eli :: rest') ++ [k]) in *. rewrite app_assoc in Hnd, S, H16.
      apply NoDup_app in Hnd as (Hnd & Hd & _). rewrite length_app in H16. cbn [length] in H16.
      assert (k ∉ pre ++ eli :: rest') as Hk by (intros Hin; apply (Hd k Hin); left).
      assert (k ∈ (pre ++ eli :: rest') ++ [k]) as Hk' by set_solver.
      apply (Hend k es1 (eli :: rest') ((l, h) :: rrest')); try done.
      * by apply (ts_idx _ _ S).
      * by destruct pre.
      * change ((p, p) :: (l, h) :: rrest' ++ [rk]) with (((p, p) :: (l, h) :: rrest') ++ [rk]).
        rewrite app_assoc, take_app_length'; [done|].
        pose proof (lseg_length _ _ _ _ _ Hs1) as Hll. rewrite !length_app in *. cbn [length] in *. lia.
      * intros idxs Hperm. apply (tslots_perm _ ((pre ++ eli :: rest') ++ [k])); [rewrite Hperm; solve_Permutation|].
        by apply tslots_again.
  - destruct (tslots_free _ _ S Hm) as (idx & Hf & Hidx & Hni).
    apply (Hend idx es (eli :: rest) ((l, h) :: rrest)); try done.
    + unfold te_slot. replace (m =? TRECHIST_MAX_RANGES_MASK) with false by (symmetry; by apply Z.eqb_neq).
      cbn [negb]. by rewrite Hf.
    + by destruct pre.
    + apply (tw_seg _ _ _ (tc_wf _ _ _ _ _ _ _ _ _ _ Hc)).
    + apply take_ge. rewrite (tslots_full _ _ S) in Hm. rewrite !length_app in *. cbn [length] in *. lia.
    + intros idxs Hperm. apply (tslots_perm _ (idx :: pre ++ eli :: rest)); [by rewrite Hperm|]. by apply tslots_set.
Qed.

Lemma t_insert_loop rrest : forall m es pre rpre eli rest l h fuel,
  twf (m, es) (pre ++ eli :: rest) (rpre ++ (l, h) :: rrest) -> length pre = length rpre -> all_above p rpre ->
  merge_fits (rpre ++ (l, h) :: rrest) -> (length rrest < fuel)%nat ->
  tpost (m, es) (rpre ++ (l, h) :: rrest) (te_insert_loop fuel m es p (last pre) eli).
Proof using Hp.
  induction rrest as [|[l2 h2] rrest IH]; intros m es pre rpre eli rest l h fuel W Hlen Hab HM Hf;
    (destruct fuel as [|fuel]; [lia|]); destruct (tcur_intro _ _ _ _ _ _ _ _ _ W Hlen Hab) as [el Hc];
    pose proof Hc as [_ _ _ Hel Hl Hct Hhi (B1 & B2 & B3) _ Hrest];
    cbn [te_insert_loop]; rewrite Hel; cbn [mbind option_bind]; rewrite Hhi, Hl;
    pose proof B2 as B2'; unfold TE_BOUND in B2'; rewrite (wrapu_id 32 (h + 1)) by (unfold is_u; lia);
    (destruct (Z.ltb_spec h (h + 1)); [|lia]); (destruct (Z.ltb_spec (h + 1) p); [by eapply t_insert_before|]).
  all: assert (Hlow : (p =? u32 (l - 1)) = (p =? l - 1)) by
    (destruct (Z.eq_dec l 0) as [->|]; [change (u32 (0 - 1)) with (2 ^ 32 - 1); unfold TE_BOUND in Hp; lia|
       rewrite wrapu_id by (unfold is_u; lia); done]).
  all: rewrite Hlow; destruct (Z.eqb_spec p (l - 1)); [by eapply t_extend_low|].
  all: destruct (Z.eqb_spec p (h + 1)); [rewrite <- Hl; rewrite Hl at 1; by eapply t_extend_high|].
  all: destruct ((l <=? p) && (p <=? h)) eqn:Ein; [eapply t_dup; [done|lia]|].
  - pose proof (tcur_slots _ _ _ _ _ _ _ _ _ _ Hc) as (_ & _ & _ & _ & _ & _ & El & _). destruct rest; [|done].
    cbn in Hrest. rewrite Hrest, Z.eqb_refl. eapply t_insert_tail; [done|lia].
  - destruct rest as [|k rest]; [done|]. apply tseg_cons in Hrest as (Ek & _).
    destruct (tcur_zero _ _ _ _ _ _ _ _ _ _ Hc) as [Hz _].
    replace (te_next el =? 0) with false by (symmetry; apply Z.eqb_neq; rewrite Ek; intros ->; apply Hz; left).
    rewrite Ek. change ((l, h) :: (l2, h2) :: rrest) with ([(l, h)] ++ (l2, h2) :: rrest) in *.
    change (eli :: k :: rest) with ([eli] ++ k :: rest) in *. rewrite !app_assoc in *.
    replace (Some eli) with (last (pre ++ [eli])) by apply last_snoc.
    cbn [length] in Hf. apply (IH m es (pre ++ [eli]) _ k rest); try done; [|..|lia].
    + rewrite !length_app. cbn. lia.
    + apply Forall_app. split; [done|]. constructor; [|done]. cbn. lia.
Qed.

End insert.

Lemma trechist_insert_ok h rs p :
  tview h rs -> 0 <= p -> p + 1 < TE_BOUND -> merge_fits p rs -> tpost p h rs (lsquic_trechist_insert h p).
Proof.
  intros [idxs W] Hp1 Hp2 HM. destruct h as [m es]. unfold lsquic_trechist_insert.
  pose proof W as [L S Hseg R Z]. cbn in L, S, Hseg. destruct (Z.eqb_spec m 0) as [E|E].
  - apply (tslots_zero _ _ S) in E as ->. destruct rs; [|done]. rewrite aset_ok by lia. cbn [mbind option_bind].
    assert (Hm : m = 0) by (by apply (tslots_zero _ _ S)).
    apply (tpost_ok p (conj Hp1 Hp2) _ _ [(p, p)] [0]); try done.
    + constructor; [|done]. unfold rsize. cbn. lia.
    + by rewrite length_insert.
    + change 1 with (u32 (Z.shiftl 1 0)). apply tslots_set; [done|lia|apply not_elem_of_nil].
    + apply tseg_cons. split; [done|]. eexists. rewrite aget_insert_eq by lia. split_and!; try done. cbn. lia.
  - destruct idxs as [|i idxs]; [by destruct E; apply (tslots_zero _ _ S)|]. destruct rs as [|[l h] rs]; [done|].
    pose proof Hseg as [<- _]%tseg_cons.
    apply (t_insert_loop p (conj Hp1 Hp2) rs m es [] [] 0 idxs l h); try done; [constructor|].
    pose proof (tslots_length _ _ S) as H16. apply lseg_length in Hseg. cbn [length] in *. lia.
Qed.

(** ** Queries *)

Lemma contains_ok es rs : forall i idxs p fuel b,
  tseg es i idxs rs 0 -> rs <> [] -> 0 ∉ tl idxs -> ranges_ok b rs -> b <= TE_BOUND -> (length rs <= fuel)%nat ->
  te_contains_loop fuel es p i = Some (bool_decide (in_ranges p rs)).
Proof.
  induction rs as [|[l h] rs IH]; intros i idxs p fuel b Hs Hne H0 Hok Hb Hf; [done|].
  destruct idxs as [|j idxs]; [done|]. destruct fuel as [|fuel]; [cbn in Hf; lia|].
  apply tseg_cons in Hs as (-> & el & Hel & Hl & Hc & Hs). cbn in Hok. destruct Hok as (H1 & H2 & Hok).
  cbn [te_contains_loop]. rewrite Hel. cbn [mbind option_bind]. rewrite (TE_HIGH_ok el l h), Hl by (done || lia).
  assert (Hbel : in_ranges p rs -> p + 1 < l) by (intros Hin; apply (ranges_ok_below _ _ _ Hok) in Hin; lia).
  destruct (Z.ltb_spec h p).
  { rewrite bool_decide_eq_false_2; [done|]. intros [Hin|Hin]%in_ranges_cons; [unfold in_range in Hin; cbn in Hin; lia|].
    specialize (Hbel Hin). lia. }
  destruct (Z.leb_spec l p).
  { rewrite bool_decide_eq_true_2; [done|]. apply in_ranges_cons. left. unfold in_range. cbn. lia. }
  assert (Hcons : in_ranges p ((l, h) :: rs) <-> in_ranges p rs).
  { rewrite in_ranges_cons. unfold in_range. cbn. split; [intros [|]; [lia|done]|by right]. }
  rewrite (bool_decide_ext _ _ Hcons). destruct rs as [|[l2 h2] rs].
  - destruct idxs; [|done]. cbn in Hs. rewrite Hs, Z.eqb_refl. rewrite bool_decide_eq_false_2; [done|]. intros []%in_ranges_nil.
  - destruct idxs as [|k idxs]; [done|]. cbn [tl] in H0. pose proof Hs as [Ek _]%tseg_cons.
    replace (te_next el =? 0) with false by (symmetry; apply Z.eqb_neq; rewrite Ek; intros ->; apply H0; left).
    cbn [length] in Hf. apply (IH _ (k :: idxs) _ _ l); try done; [|lia|cbn [length]; lia].
    cbn. intros Hin. apply H0. by right.
Qed.

Lemma twf_tail h idxs rs : twf h idxs rs -> 0 ∉ tl idxs.
Proof.
  intros [_ S Hs _ _]. destruct idxs as [|i idxs], rs as [|[l hh] rs]; try done; [apply not_elem_of_nil|].
  apply tseg_cons in Hs as [<- _]. by pose proof (ts_nodup _ _ S) as [? _]%NoDup_cons.
Qed.

Lemma twf_empty h idxs rs : twf h idxs rs -> h.1 = 0 <-> rs = [].
Proof.
  intros [_ S Hs _ _]. rewrite (tslots_zero _ _ S). apply lseg_length in Hs. split; intros ->; [by destruct rs|by destruct idxs].
Qed.

Lemma trechist_contains_ok h rs p : tview h rs -> lsquic_trechist_contains h p = Some (bool_decide (in_ranges p rs)).
Proof.
  intros [idxs W]. unfold lsquic_trechist_contains. pose proof (twf_empty _ _ _ W) as HE.
  destruct (Z.eqb_spec h.1 0) as [E|E].
  - apply HE in E as ->. rewrite bool_decide_eq_false_2; [done|]. intros []%in_ranges_nil.
  - pose proof (twf_tail _ _ _ W). destruct W as [L S Hs R _]. apply (contains_ok _ _ _ idxs _ _ TE_BOUND); try done.
    + intros ->. by apply E, HE.
    + pose proof (tslots_length _ _ S). apply lseg_length in Hs. lia.
Qed.

Lemma trechist_max_ok h l hi rs : tview h ((l, hi) :: rs) -> lsquic_trechist_max h = Some hi.
Proof.
  intros [idxs W]. unfold lsquic_trechist_max. pose proof (twf_empty _ _ _ W) as HE.
  destruct (Z.eqb_spec h.1 0) as [E|E]; [by apply HE in E|]. destruct W as [L S Hs R _].
  destruct idxs as [|i idxs]; [done|]. apply tseg_cons in Hs as (<- & el & Hel & Hl & Hc & _).
  assert (has_flag h.1 1 = true) as ->.
  { unfold has_flag. apply negb_true_iff, Z.eqb_neq. intros E2.
    assert (Z.testbit (Z.land h.1 1) 0 = false) as X by (by rewrite E2).
    rewrite Z.land_spec, (ts_bits _ _ S 0), bool_decide_eq_true_2 in X by (left || lia). done. }
  cbn [negb]. rewrite Hel. cbn. cbn in R. by rewrite (TE_HIGH_ok el l hi) by (done || lia).
Qed.

(** ** Copying *)

Lemma seqZ_snoc n : 0 <= n -> seqZ 0 (n + 1) = seqZ 0 n ++ [n].
Proof. intros. rewrite seqZ_app by lia. by f_equal. Qed.

Lemma te_copy_loop_ok {S} `{RangeSource S} n : forall (src : S) rs i es done b,
  length es = 16%nat -> 0 <= i -> i + Z.of_nat n <= 16 -> length done = Z.to_nat i ->
  tseg es 0 (seqZ 0 i) done (if i =? 0 then 0 else i) ->
  ranges_ok b rs -> b <= TE_BOUND -> Forall (fun r => rsize r <= 255) rs ->
  match rs with [] => True | _ :: rs => nexts src rs end ->
  exists es' src', te_copy_loop n i es src (head rs) = Some (i + Z.of_nat (length (take n rs)), es', src')
    /\ length es' = 16%nat
    /\ let k := i + Z.of_nat (length (take n rs)) in
       tseg es' 0 (seqZ 0 k) (done ++ take n rs) (if k =? 0 then 0 else k).
Proof.
  induction n as [|n IH]; intros src rs i es dn b L Hi Hn Hd Hs Hok Hb Hsz Hnx.
  { exists es, src. cbn. rewrite Z.add_0_r, app_nil_r. done. }
  destruct rs as [|[l h] rs]; cbn [te_copy_loop head].
  { exists es, src. cbn. rewrite Z.add_0_r, app_nil_r. done. }
  cbn in Hok. destruct Hok as (H1 & H2 & Hok). apply Forall_cons in Hsz as [Hsz1 Hsz]. unfold rsize in Hsz1. cbn in Hsz1.
  unfold TE_BOUND in Hb. rewrite (wrapu_id 64) by (unfold is_u; lia).
  replace (UINT_MAX <? h - l + 1) with false by (unfold UINT_MAX; lia).
  rewrite aset_ok by lia. cbn [mbind option_bind].
  rewrite (wrapu_id 32), !(wrapu_id 8) by (unfold is_u; lia).
  set (es1 := <[Z.to_nat i := TE l (h - l + 1) (i + 1)]> es).
  assert (Hs1 : tseg es1 0 (seqZ 0 (i + 1)) (dn ++ [(l, h)]) (i + 1)).
  { rewrite seqZ_snoc by lia. apply tseg_app; [rewrite length_seqZ; lia|]. exists i.
    assert (Hni : i ∉ seqZ 0 i) by (rewrite elem_of_seqZ; lia). split.
    - apply tseg_frame; [lia|done|]. destruct (Z.eqb_spec i 0) as [->|]; done.
    - apply tseg_cons. split; [done|]. eexists. unfold es1. rewrite aget_insert_eq by lia. done. }
  assert (Hstep : exists src1, src_next src = Some (head rs, src1)
                  /\ match rs with [] => True | _ :: rs => nexts src1 rs end).
  { destruct rs as [|r rs]; destruct Hnx as [s' Hnx]; [by exists s'|]. exists s'. by destruct Hnx as [-> ?]. }
  destruct Hstep as (src1 & -> & Hnx1). cbn [mbind option_bind].
  destruct (IH src1 rs (i + 1) es1 (dn ++ [(l, h)]) l) as (es' & src' & E & L' & Hs'); try done; try lia.
  - unfold es1. by rewrite length_insert.
  - rewrite length_app. cbn. lia.
  - by replace (i + 1 =? 0) with false by lia.
  - unfold TE_BOUND. lia.
  - exists es', src'. rewrite E. cbn [take length] in *.
    replace (i + Z.of_nat (Datatypes.S (length (take n rs)))) with (i + 1 + Z.of_nat (length (take n rs))) by lia.
    split_and!; try done. by rewrite <- app_assoc in Hs'.
Qed.

Lemma tslots_prefix k : 0 <= k <= 16 -> tslots (u32 (Z.shiftl 1 k - 1)) (seqZ 0 k).
Proof.
  intros Hk. assert (H1 : u32 (Z.shiftl 1 k - 1) = Z.ones k).
  { rewrite Z.ones_equiv, Z.shiftl_1_l. assert (0 < 2 ^ k) by lia.
    assert (2 ^ k <= 2 ^ 16) by (apply Z.pow_le_mono_r; lia). rewrite wrapu_id; unfold is_u; lia. }
  rewrite H1. split.
  - rewrite Z.ones_equiv. assert (0 < 2 ^ k) by lia. assert (2 ^ k <= 2 ^ 16) by (apply Z.pow_le_mono_r; lia). unfold is_u. lia.
  - intros i Hi. destruct (Z.lt_ge_cases i k).
    + rewrite Z.ones_spec_low by lia. symmetry. apply bool_decide_eq_true_2, elem_of_seqZ. lia.
    + rewrite Z.ones_spec_high by lia. symmetry. apply bool_decide_eq_false_2. rewrite elem_of_seqZ. lia.
  - apply NoDup_seqZ.
  - intros i. rewrite elem_of_seqZ. lia.
Qed.

Lemma trechist_copy_ok {S} `{RangeSource S} (src : S) rs es :
  yields src rs -> length es = 16%nat -> ranges_ok TE_BOUND rs -> Forall (fun r => rsize r <= 255) rs ->
  exists h src', lsquic_trechist_copy_ranges es src = Some (h, src') /\ tview h (take 16 rs).
Proof.
  intros Hy L Hok Hsz. unfold lsquic_trechist_copy_ranges.
  assert (Hf : exists src1, src_first src = Some (head rs, src1) /\ match rs with [] => True | _ :: rs => nexts src1 rs end).
  { destruct rs as [|r rs]; cbn in Hy; [by destruct Hy as [s' ->]; exists s'|]. destruct Hy as (s' & -> & ? & _). by exists s'. }
  destruct Hf as (src1 & -> & Hn). cbn [mbind option_bind]. change (Z.to_nat TRECHIST_MAX_RANGES) with 16%nat.
  destruct (te_copy_loop_ok 16 src1 rs 0 es [] TE_BOUND) as (es1 & src2 & E & L1 & Hs); try done.
  rewrite E. cbn [mbind option_bind]. cbn [app] in Hs. rewrite Z.add_0_l in *.
  set (k := Z.of_nat (length (take 16 rs))) in *. assert (Hk : 0 <= k <= 16).
  { unfold k. rewrite length_take. lia. }
  replace (k <? 32) with true by lia.
  assert (exists es2, (if k =? 0 then Some es1 else te_set_next es1 (k - 1) 0) = Some es2
          /\ length es2 = 16%nat /\ tseg es2 0 (seqZ 0 k) (take 16 rs) 0) as (es2 & -> & L2 & Hs2).
  { destruct (Z.eqb_spec k 0) as [E0|E0]; [by exists es1|].
    destruct (exists_last (l := take 16 rs)) as (a & r & Ea); [intros E1; unfold k in E0; by rewrite E1 in E0|].
    rewrite Ea in *. pose proof (seqZ_snoc (k - 1) ltac:(lia)) as Esq. replace (k - 1 + 1) with k in Esq by lia.
    rewrite Esq in *. destruct (tseg_redirect es1 0 (seqZ 0 (k - 1)) (k - 1) a r k 0) as (_ & es2 & _ & _ & Hset & Hl & Hs2 & _);
      [rewrite <- Esq; apply NoDup_seqZ|done|]. exists es2. split_and!; try done. lia. }
  cbn [mbind option_bind]. eexists _, _. split; [done|]. exists (seqZ 0 k). split; try done.
  - by apply tslots_prefix.
  - by apply ranges_ok_take.
  - by apply Forall_take.
Qed.

(** ** Theorems *)

(** The tiny history implements the range list.  Recording a packet number
    refines the reference insertion: a duplicate changes nothing, a new number
    extends a range, joins two or starts its own, the lowest range is dropped
    when there are more than sixteen, and a range that would exceed 255 packets
    is an error that leaves the history as it was.  The hypothesis
    [merge_fits] excludes the case the source gets wrong, two ranges that join
    to 256 or 257 packets. *)
Theorem trechist_insert_refines h rs p :
  tview h rs -> 0 <= p -> p + 1 < TE_BOUND -> merge_fits p rs ->
  match tins p rs with
  | Some rs' => exists h', lsquic_trechist_insert h p = Some (0, h') /\ tview h' rs'
      /\ (forall q, lsquic_trechist_contains h' q = Some (bool_decide (in_ranges q rs')))
  | None => lsquic_trechist_insert h p = Some (-1, h)
  end.
Proof.
  intros Hv H1 H2 HM. pose proof (trechist_insert_ok h rs p Hv H1 H2 HM) as H. unfold tpost in H.
  destruct (tins p rs) as [rs'|]; [|done]. destruct H as (h' & E & V). exists h'. split_and!; try done.
  intros q. by apply trechist_contains_ok.
Qed.

(** Packets 5 to 7, 9 and 10; 8 arrives and the ranges join. *)
Lemma trechist_insert_refines_witness :
  exists h', lsquic_trechist_insert (0x3, TE 9 2 1 :: TE 5 3 0 :: replicate 14 (TE 0 0 0)) 8 = Some (0, h')
    /\ tview h' [(5, 10)] /\ lsquic_trechist_contains h' 8 = Some true.
Proof.
  assert (V : tview (0x3, TE 9 2 1 :: TE 5 3 0 :: replicate 14 (TE 0 0 0)) [(9, 10); (5, 7)]).
  { exists [0; 1]. split; [reflexivity| | |cbn; unfold TE_BOUND; lia|repeat constructor; unfold rsize; cbn; lia].
    - change 3 with (u32 (Z.shiftl 1 2 - 1)). change [0; 1] with (seqZ 0 2). apply tslots_prefix. lia.
    - apply tseg_cons. split; [reflexivity|]. eexists. split; [reflexivity|]. split_and!; [reflexivity..|].
      apply tseg_cons. split; [reflexivity|]. eexists. split; [reflexivity|]. split_and!; reflexivity. }
  assert (M : merge_fits 8 [(9, 10); (5, 7)]).
  { intros rs' [= <-] _. repeat constructor; unfold rsize; cbn; lia. }
  pose proof (trechist_insert_refines _ _ 8 V ltac:(lia) ltac:(unfold TE_BOUND; lia) M) as H. cbn in H.
  destruct H as (h' & E & V' & C). exists h'. split; [exact E|]. split; [exact V'|]. rewrite C. reflexivity.
Defined.

(** A finding. When a gap closes, the sum of the counts is checked with [- 1]
    where the new count is the sum plus one: 127 and 128 packets join to a
    range whose count is zero.  The history then contains none of them. *)
Lemma trechist_merge_overflow :
  exists h', lsquic_trechist_insert (0x3, TE 129 128 1 :: TE 1 127 0 :: replicate 14 (TE 0 0 0)) 128 = Some (0, h')
    /\ lsquic_trechist_contains h' 128 = Some false /\ lsquic_trechist_contains h' 5 = Some false.
Proof. eexists. split; [reflexivity|]. split; reflexivity. Qed.
