(* ===== verification/MiniHist.v ===== *)
(** Packet numbers of the mini connection, lsquic_mini_conn_ietf.c: received
    numbers are bits of a 64-bit mask per packet number space until a number
    above 63 arrives, and are kept in a tiny receive history from then on; when
    the connection is promoted, lsquic_full_conn_ietf.c copies them to a full
    history.  Sent and acknowledged numbers are bit masks.

    [malloc] returns [None] or the uninitialised arrays [mem].
    [__builtin_clzll] is unspecified on zero; the code does not use its result
    then. *)
From S2P Require Import Prelude Ranges Rechist RechistSpec RechistThms Trechist.
Local Open Scope Z_scope.

Definition MAX_PACKETS : Z := 63.
Definition IMICO_N_PNS : nat := 2.

(** The union [imc_recvd_packnos], with the flag IMC_TRECHIST. *)
Inductive recvd_packnos := Bitmasks (bitmasks : list Z) | Trechists (hists : list trechist).

(** [imc_error] is the flag IMC_ERROR. *)
Record ietf_mini_conn := IMC {
  imc_recvd_packnos : recvd_packnos;
  imc_largest_recvd : list Z;
  imc_error : bool
}.

Definition highest_bit_set (sz : Z) : Z := Z.log2 sz.

(** ** Iteration *)

Inductive mini_iter :=
| BitmaskIter (cur_set cur_idx : Z)
| TrechistIter (it : trechist_iter).

Record ietf_mini_rechist := MR { mr_conn : ietf_mini_conn; mr_pns : nat; mr_u : mini_iter }.

Definition lsquic_imico_rechist_init (conn : ietf_mini_conn) (pns : nat) : option ietf_mini_rechist :=
  if (IMICO_N_PNS <=? pns)%nat then None else
  match imc_recvd_packnos conn with
  | Trechists hs => h ← hs !! pns; Some (MR conn pns (TrechistIter (lsquic_trechist_iter h)))
  | Bitmasks _ => Some (MR conn pns (BitmaskIter 0 0))
  end.

Definition imico_rechist_largest_recv (r : ietf_mini_rechist) : Z :=
  default 0 (imc_largest_recvd (mr_conn r) !! mr_pns r).

(** [for (i = cur_idx; i >= 0; --i)]: the bits below [n]. *)
Fixpoint scan_bit (n : nat) (packnos : Z) : option Z :=
  match n with
  | O => None
  | S n => if Z.testbit packnos (Z.of_nat n) then Some (Z.of_nat n) else scan_bit n packnos
  end.

(** [for ( ; i >= 0 && (packnos & (1ULL << i)); --i) low = i;]; returns [low]
    and [i]. *)
Fixpoint scan_run (n : nat) (packnos low : Z) : Z * Z :=
  match n with
  | O => (low, -1)
  | S n => if Z.testbit packnos (Z.of_nat n) then scan_run n packnos (Z.of_nat n) else (low, Z.of_nat n)
  end.

Definition imico_bitmask_rechist_next (cur_set cur_idx : Z) : option (option range * mini_iter) :=
  if cur_set =? 0 then Some (None, BitmaskIter cur_set cur_idx) else
  high ← scan_bit (Z.to_nat (cur_idx + 1)) cur_set;
  let '(low, i) := scan_run (Z.to_nat high) cur_set high in
  if 0 <=? i then Some (Some (low, high), BitmaskIter (Z.land cur_set (u64 (Z.shiftl 1 i - 1))) i)
  else Some (Some (low, high), BitmaskIter 0 cur_idx).

Definition lsquic_imico_rechist_next (r : ietf_mini_rechist) : option (option range * ietf_mini_rechist) :=
  '(rg, u) ← match mr_u r with
             | TrechistIter it => '(rg, it) ← lsquic_trechist_next it; Some (rg, TrechistIter it)
             | BitmaskIter s i => imico_bitmask_rechist_next s i
             end;
  Some (rg, MR (mr_conn r) (mr_pns r) u).

Definition lsquic_imico_rechist_first (r : ietf_mini_rechist) : option (option range * ietf_mini_rechist) :=
  match mr_u r, imc_recvd_packnos (mr_conn r) with
  | TrechistIter it, _ =>
    '(rg, it) ← lsquic_trechist_first it; Some (rg, MR (mr_conn r) (mr_pns r) (TrechistIter it))
  | BitmaskIter _ _, Bitmasks l =>
    m ← l !! mr_pns r;
    lsquic_imico_rechist_next (MR (mr_conn r) (mr_pns r) (BitmaskIter m (highest_bit_set m)))
  | BitmaskIter _ _, Trechists _ => None
  end.

#[export] Instance mini_source : RangeSource ietf_mini_rechist := {
  src_first := lsquic_imico_rechist_first;
  src_next := lsquic_imico_rechist_next;
  src_largest_recv := imico_rechist_largest_recv
}.

(** ** Received packets *)

Definition bit (packno : Z) : Z := u64 (Z.shiftl 1 packno).

(** Shifting by more than 63 is undefined. *)
Definition imico_received_packet_is_dup (conn : ietf_mini_conn) (pns : nat) (packno : Z) : option bool :=
  match imc_recvd_packnos conn with
  | Trechists hs => h ← hs !! pns; lsquic_trechist_contains h (u32 packno)
  | Bitmasks l => m ← l !! pns; if MAX_PACKETS <? packno then None else Some (has_flag m (bit packno))
  end.

Definition imico_packno_is_largest (conn : ietf_mini_conn) (pns : nat) (packno : Z) : option bool :=
  match imc_recvd_packnos conn with
  | Trechists hs =>
    h ← hs !! pns;
    if h.1 =? 0 then Some true else mx ← lsquic_trechist_max h; Some (mx <? packno)
  | Bitmasks l => m ← l !! pns; Some ((m =? 0) || (highest_bit_set m <? packno))
  end.

Definition imico_record_recvd_packno (conn : ietf_mini_conn) (pns : nat) (packno : Z) : option ietf_mini_conn :=
  match imc_recvd_packnos conn with
  | Trechists hs =>
    h ← hs !! pns;
    '(ret, h) ← lsquic_trechist_insert h (u32 packno);
    Some (IMC (Trechists (<[pns := h]> hs)) (imc_largest_recvd conn) (imc_error conn || negb (ret =? 0)))
  | Bitmasks l =>
    m ← l !! pns;
    if MAX_PACKETS <? packno then None else
    Some (IMC (Bitmasks (<[pns := Z.lor m (bit packno)]> l)) (imc_largest_recvd conn) (imc_error conn))
  end.

(** One round of the loop of [imico_switch_to_trechist], and the loop. *)
Definition switch_space (conn : ietf_mini_conn) (pns : nat) (m : Z) (es : list trechist_elem) : option trechist :=
  if m =? 0 then Some (0, es) else
  r ← lsquic_imico_rechist_init conn pns;
  '(h, _) ← lsquic_trechist_copy_ranges es r;
  Some h.

Fixpoint switch_loop (conn : ietf_mini_conn) (pns : nat) (masks : list Z) (mem : list (list trechist_elem))
    : option (list trechist) :=
  match masks, mem with
  | m :: masks, es :: mem =>
    h ← switch_space conn pns m es;
    hs ← switch_loop conn (S pns) masks mem;
    Some (h :: hs)
  | _, _ => Some []
  end.

Definition imico_switch_to_trechist (mem : option (list (list trechist_elem))) (conn : ietf_mini_conn)
    : option (Z * ietf_mini_conn) :=
  match mem, imc_recvd_packnos conn with
  | None, _ => Some (-1, conn)
  | Some mem, Bitmasks masks =>
    hs ← switch_loop conn 0 masks mem;
    Some (0, IMC (Trechists hs) (imc_largest_recvd conn) (imc_error conn))
  | Some _, Trechists _ => None
  end.

(** [pi_packno > MAX_PACKETS && !(imc_flags & IMC_TRECHIST)] *)
Definition needs_switch (conn : ietf_mini_conn) (packno : Z) : bool :=
  match imc_recvd_packnos conn with Bitmasks _ => MAX_PACKETS <? packno | Trechists _ => false end.

Inductive received := Ignored | Duplicate | Recorded.

Definition imico_new_packno (conn : ietf_mini_conn) (pns : nat) (packno now : Z) : option (received * ietf_mini_conn) :=
  dup ← imico_received_packet_is_dup conn pns packno;
  if (dup : bool) then Some (Duplicate, conn) else
  largest ← imico_packno_is_largest conn pns packno;
  let conn := if (largest : bool)
              then IMC (imc_recvd_packnos conn) (<[pns := now]> (imc_largest_recvd conn)) (imc_error conn)
              else conn in
  conn ← imico_record_recvd_packno conn pns packno;
  Some (Recorded, conn).

(** What [ietf_mini_conn_ci_packet_in] does with the number of a packet that was
    decrypted. *)
Definition imico_receive (mem : option (list (list trechist_elem))) (conn : ietf_mini_conn) (pns : nat)
    (packno now : Z) : option (received * ietf_mini_conn) :=
  '(ret, conn) ← (if needs_switch conn packno then imico_switch_to_trechist mem conn else Some (0, conn));
  if negb (ret =? 0) then Some (Ignored, conn) else imico_new_packno conn pns packno now.

(** ** Promotion *)

(** A full connection copies the history of each space: see
    [lsquic_ietf_full_conn_server_new].  [fuel] bounds the number of ranges. *)
Definition copy_mini_rechist (junk : rechist_elem) (fuel : nat) (allocs : list bool) (conn : ietf_mini_conn)
    (pns : nat) (rh : lsquic_rechist) : option (Z * lsquic_rechist) :=
  r ← lsquic_imico_rechist_init conn pns;
  '(ret, rh, _) ← lsquic_rechist_copy_ranges junk fuel allocs rh r;
  if negb (ret =? 0) then Some (ret, rh) else
  t ← imc_largest_recvd conn !! pns;
  Some (0, with_largest rh t).

(** ** Acknowledged packets *)

(** The fields of [struct ietf_mini_conn] for sent packets; a packet is its
    number and its packet number space. *)
Record ietf_mini_sent := IMS {
  imc_sent_packnos : Z;
  imc_acked_packnos : list Z;
  imc_hsk_count : Z;
  imc_packets_out : list (Z * nat)
}.

(** The first loop of [imico_process_ack_frame]; [inl] is the packet that was
    never sent. *)
Fixpoint acked_loop (acked : Z) (ranges : list range) : Z + Z :=
  match ranges with
  | [] => inr acked
  | (low, high) :: ranges =>
    if high <=? MAX_PACKETS then
      acked_loop (Z.ldiff (Z.lor acked (Z.lor (bit high) (bit high - 1))) (bit low - 1)) ranges
    else inl high
  end.

(** The loop over [imc_packets_out]; [None] is the failed assertion that the
    packet belongs to the space. *)
Fixpoint ack_packets (pns : nat) (acked : Z) (packets : list (Z * nat)) : option (list (Z * nat)) :=
  match packets with
  | [] => Some []
  | (packno, ppns) :: packets =>
    if has_flag (bit packno) acked
    then if (ppns =? pns)%nat then ack_packets pns acked packets else None
    else cons (packno, ppns) <$> ack_packets pns acked packets
  end.

(** From the parsed ranges on; [inl] is [err_never_sent]. *)
Definition imico_process_ack_frame (s : ietf_mini_sent) (pns : nat) (ranges : list range)
    : option (Z + ietf_mini_sent) :=
  match acked_loop 0 ranges with
  | inl packno => Some (inl packno)
  | inr acked =>
    let never := Z.ldiff acked (imc_sent_packnos s) in
    if negb (never =? 0) then Some (inl (highest_bit_set never)) else
    packets ← ack_packets pns acked (imc_packets_out s);
    old ← imc_acked_packnos s !! pns;
    let hsk_count := if negb (Z.land (Z.ldiff (imc_sent_packnos s) old) acked =? 0) then 0 else imc_hsk_count s in
    Some (inr (IMS (imc_sent_packnos s) (<[pns := Z.lor old acked]> (imc_acked_packnos s)) hsk_count packets))
  end.

(** * Refinement *)

(** The bits of [m] are exactly the numbers of [rs]. *)
Definition bits_hold (m : Z) (rs : list range) : Prop :=
  forall i, 0 <= i -> Z.testbit m i = bool_decide (in_ranges i rs).

Definition bm_holds (m : Z) (rs : list range) : Prop := ranges_ok 65 rs /\ bits_hold m rs.

Lemma bits_hold_zero m rs b : ranges_ok b rs -> bits_hold m rs -> m = 0 <-> rs = [].
Proof.
  intros Hok H. split.
  - intros ->. destruct rs as [|[l h] rs]; [done|]. cbn in Hok. specialize (H l ltac:(lia)).
    rewrite Z.bits_0, bool_decide_eq_true_2 in H; [done|]. apply in_ranges_cons. left. unfold in_range. cbn. lia.
  - intros ->. apply Z.bits_inj'. intros n Hn. rewrite Z.bits_0, H by done.
    apply bool_decide_eq_false_2. intros []%in_ranges_nil.
Qed.

Lemma bits_hold_nil : bits_hold 0 [].
Proof. intros i _. rewrite Z.bits_0, bool_decide_eq_false_2; [done|]. intros []%in_ranges_nil. Qed.

Lemma bits_hold_true m rs i : bits_hold m rs -> 0 <= i -> in_ranges i rs -> Z.testbit m i = true.
Proof. intros H Hi Hin. rewrite H by done. by apply bool_decide_eq_true_2. Qed.

Lemma bits_hold_false m rs i : bits_hold m rs -> 0 <= i -> ~ in_ranges i rs -> Z.testbit m i = false.
Proof. intros H Hi Hin. rewrite H by done. by apply bool_decide_eq_false_2. Qed.

(** The highest range is [l, h]. *)
Lemma in_ranges_top l h rs i : ranges_ok l rs -> in_ranges i ((l, h) :: rs) <-> l <= i <= h \/ (i + 1 < l /\ in_ranges i rs).
Proof.
  intros Hok. rewrite in_ranges_cons. unfold in_range. cbn. split; [|tauto].
  intros [|Hin]; [by left|right]. split; [|done]. by apply (ranges_ok_below _ _ _ Hok) in Hin as [_ ?].
Qed.

Lemma highest_bit_top m l h rs b : ranges_ok b ((l, h) :: rs) -> bits_hold m ((l, h) :: rs) -> highest_bit_set m = h.
Proof.
  intros Hok H. pose proof Hok as (H1 & H2 & H3). apply Z.log2_bits_unique.
  - apply (bits_hold_true _ _ _ H); [lia|]. apply in_ranges_top; [done|left; lia].
  - intros k Hk. apply (bits_hold_false _ _ _ H); [lia|]. rewrite in_ranges_top by done. intros [?|[? ?]]; lia.
Qed.

Lemma scan_bit_ok m h n :
  0 <= h -> Z.testbit m h = true -> h < Z.of_nat n ->
  (forall j, h < j < Z.of_nat n -> Z.testbit m j = false) -> scan_bit n m = Some h.
Proof.
  intros H0 Hb. induction n as [|n IH]; intros Hn Hz; [lia|]. cbn [scan_bit].
  destruct (decide (h = Z.of_nat n)) as [->|]; [by rewrite Hb|].
  rewrite Hz by lia. apply IH; [lia|]. intros j Hj. apply Hz. lia.
Qed.

Lemma scan_run_ok m l : forall n low,
  0 <= l <= Z.of_nat n -> (forall j, l <= j < Z.of_nat n -> Z.testbit m j = true) ->
  (0 < l -> Z.testbit m (l - 1) = false) ->
  scan_run n m low = (if l =? Z.of_nat n then low else l, l - 1).
Proof.
  induction n as [|n IH]; intros low Hl Hb Hz; cbn [scan_run].
  - replace l with 0 by lia. done.
  - destruct (Z.eqb_spec l (Z.of_nat (S n))) as [E|E].
    + specialize (Hz ltac:(lia)). replace (l - 1) with (Z.of_nat n) in * by lia. by rewrite Hz.
    + rewrite Hb by lia. rewrite IH; [|lia|intros j Hj; apply Hb; lia|done].
      by destruct (Z.eqb_spec l (Z.of_nat n)) as [->|].
Qed.

(** One step of the iterator over a mask. *)
Lemma bitmask_next_ok m idx l h rs :
  ranges_ok (idx + 2) ((l, h) :: rs) -> idx < 64 -> bits_hold m ((l, h) :: rs) ->
  exists m' idx', imico_bitmask_rechist_next m idx = Some (Some (l, h), BitmaskIter m' idx')
    /\ ranges_ok (idx' + 2) rs /\ idx' < 64 /\ bits_hold m' rs.
Proof.
  intros Hok Hi H. pose proof Hok as (H1 & H2 & H3). unfold imico_bitmask_rechist_next.
  destruct (Z.eqb_spec m 0) as [E|_]; [by apply (bits_hold_zero _ _ _ Hok H) in E|].
  rewrite (scan_bit_ok m h); [|lia|..|lia|].
  2: { apply (bits_hold_true _ _ _ H); [lia|]. apply in_ranges_top; [done|left; lia]. }
  2: { intros j Hj. apply (bits_hold_false _ _ _ H); [lia|]. rewrite in_ranges_top by done. intros [?|[? ?]]; lia. }
  cbn [mbind option_bind]. rewrite (scan_run_ok m l); rewrite ?Z2Nat.id by lia; [|lia|..].
  2: { intros j Hj. apply (bits_hold_true _ _ _ H); [lia|]. apply in_ranges_top; [done|left; lia]. }
  2: { intros Hl. apply (bits_hold_false _ _ _ H); [lia|]. rewrite in_ranges_top by done. intros [?|[? ?]]; lia. }
  replace (if l =? h then h else l) with l by (destruct (Z.eqb_spec l h); congruence).
  destruct (Z.leb_spec 0 (l - 1)) as [Hl|Hl].
  - do 2 eexists. split; [reflexivity|]. replace (l - 1 + 2) with (l + 1) by lia.
    split; [by eapply ranges_ok_mono; [|exact H3]; lia|]. split; [lia|].
    intros j Hj. rewrite Z.shiftl_1_l. assert (2 ^ (l - 1) <= 2 ^ 63) by (apply Z.pow_le_mono_r; lia).
    rewrite wrapu_id by (unfold is_u; lia). rewrite Z.sub_1_r, <- Z.ones_equiv, Z.land_spec, H by lia.
    destruct (Z.lt_ge_cases j (l - 1)).
    + rewrite Z.ones_spec_low, andb_true_r by lia. apply bool_decide_ext. rewrite in_ranges_top by done.
      split; [intros [|[]]; [lia|done]|]. intros; right. split; [lia|done].
    + rewrite Z.ones_spec_high, andb_false_r by lia. symmetry. apply bool_decide_eq_false_2.
      intros Hin%(ranges_ok_below _ _ _ H3). lia.
  - assert (rs = []) as ->. { destruct rs as [|[l2 h2] rs]; [done|]. cbn in H3. lia. }
    do 2 eexists. split; [reflexivity|]. split_and!; [done..|]. apply bits_hold_nil.
Qed.

Lemma bitmask_nexts conn pns masks rs : imc_recvd_packnos conn = Bitmasks masks -> forall m idx,
  ranges_ok (idx + 2) rs -> idx < 64 -> bits_hold m rs -> nexts (MR conn pns (BitmaskIter m idx)) rs.
Proof.
  intros Hb. induction rs as [|[l h] rs IH]; intros m idx Hok Hi H; cbn [nexts src_next mini_source].
  - apply (bits_hold_zero _ _ _ Hok) in H as [_ Hz]. rewrite Hz by done. eexists. reflexivity.
  - destruct (bitmask_next_ok m idx l h rs Hok Hi H) as (m' & idx' & E & Hok' & Hi' & H').
    exists (MR conn pns (BitmaskIter m' idx')). split; [|by apply IH].
    unfold lsquic_imico_rechist_next. cbn [mr_u]. by rewrite E.
Qed.

Lemma trechist_nexts conn pns h : forall idxs i rs b,
  tseg h.2 i idxs rs 0 -> 0 ∉ idxs -> ranges_ok b rs -> b <= TE_BOUND ->
  nexts (MR conn pns (TrechistIter (TI h i))) rs.
Proof.
  induction idxs as [|j idxs IH]; intros i [|[l hi] rs] b Hs H0 Hok Hb; try done; cbn [nexts src_next mini_source].
  - cbn in Hs. subst i. eexists. reflexivity.
  - apply tseg_cons in Hs as (-> & el & Hel & Hl & Hc & Hs). destruct Hok as (H1 & H2 & H3).
    apply not_elem_of_cons in H0 as [Hj H0]. exists (MR conn pns (TrechistIter (TI h (te_next el)))).
    split; [|by apply (IH _ _ l); try lia].
    unfold lsquic_imico_rechist_next, lsquic_trechist_next. cbn [mr_u ti_next ti_hist mr_conn mr_pns].
    destruct (Z.eqb_spec j 0); [by subst|]. rewrite Hel. cbn. by rewrite Hl, (TE_HIGH_ok el l hi) by (done || lia).
Qed.

(** The space holds [rs]. *)
Definition space_holds (conn : ietf_mini_conn) (pns : nat) (rs : list range) : Prop :=
  match imc_recvd_packnos conn with
  | Bitmasks masks => exists m, masks !! pns = Some m /\ bm_holds m rs
  | Trechists hs => exists h, hs !! pns = Some h /\ tview h rs
  end.

(** An iterator that was initialised and not used. *)
Definition mini_holds (r : ietf_mini_rechist) (rs : list range) : Prop :=
  space_holds (mr_conn r) (mr_pns r) rs /\ lsquic_imico_rechist_init (mr_conn r) (mr_pns r) = Some r.

#[export] Instance mini_source_spec : RangeSourceSpec ietf_mini_rechist mini_holds.
Proof.
  intros [conn pns u] rs [Hh Hi]. unfold space_holds, lsquic_imico_rechist_init in *. cbn [mr_conn mr_pns] in *.
  destruct (IMICO_N_PNS <=? pns)%nat; [done|].
  destruct (imc_recvd_packnos conn) as [masks|hs] eqn:Er.
  - destruct Hh as (m & Hm & Hok & H). injection Hi as <-.
    assert (Hf : lsquic_imico_rechist_first (MR conn pns (BitmaskIter 0 0))
                 = lsquic_imico_rechist_next (MR conn pns (BitmaskIter m (highest_bit_set m)))).
    { unfold lsquic_imico_rechist_first. cbn [mr_u mr_conn mr_pns]. by rewrite Er, Hm. }
    destruct rs as [|[l h] rs]; cbn [yields src_first mini_source]; rewrite Hf.
    + apply (bits_hold_zero _ _ _ Hok) in H as [_ Hz]. rewrite Hz by done. eexists. reflexivity.
    + rewrite (highest_bit_top _ _ _ _ _ Hok H). pose proof Hok as (H1 & H2 & H3).
      destruct (bitmask_next_ok m h l h rs) as (m' & idx' & E & Hok' & Hi' & H'); [cbn; intuition lia|lia|done|].
      exists (MR conn pns (BitmaskIter m' idx')). split_and!; [|by eapply bitmask_nexts|done].
      unfold lsquic_imico_rechist_next. cbn [mr_u]. by rewrite E.
  - destruct Hh as (h & Hlk & idxs & W). rewrite Hlk in Hi. injection Hi as <-.
    pose proof (twf_empty _ _ _ W) as HE. pose proof (twf_tail _ _ _ W) as H0. destruct W as [L S Hs R _].
    destruct rs as [|[l hi] rs]; cbn [yields src_first mini_source];
      unfold lsquic_imico_rechist_first, lsquic_trechist_first; cbn [mr_u mr_conn mr_pns ti_hist lsquic_trechist_iter].
    + destruct HE as [_ HE]. rewrite HE by done. eexists. reflexivity.
    + destruct (Z.eqb_spec h.1 0) as [E|_]; [by apply HE in E|]. destruct idxs as [|j idxs]; [done|].
      apply tseg_cons in Hs as (<- & el & Hel & Hl & Hc & Hs). destruct R as (H1 & H2 & H3).
      rewrite Hel. cbn [mbind option_bind]. rewrite Hl, (TE_HIGH_ok el l hi) by (done || lia).
      eexists. split; [reflexivity|]. split; [|done]. apply (trechist_nexts _ _ _ idxs _ _ l); try done. lia.
Qed.

(** ** Receiving *)

(** The abstract connection: the ranges of each space, whether they are in the
    tiny histories, when the largest number arrived and the error flag. *)
Record mini_abs := MA {
  ma_tre : bool;
  ma_spaces : list (list range);
  ma_largest : list Z;
  ma_error : bool
}.

Definition newest (p : Z) (rs : list range) : bool :=
  match rs with [] => true | (_, h) :: _ => h <? p end.

Definition mini_switch (a : mini_abs) : mini_abs :=
  MA true (take 16 <$> ma_spaces a) (ma_largest a) (ma_error a).

Definition mini_full (a : mini_abs) (p : Z) : bool := negb (ma_tre a) && (63 <? p).

(** A tiny history takes the low 32 bits of a number. *)
Definition kept (a : mini_abs) (p : Z) : Z := if ma_tre a then u32 p else p.

(** Reference for a new packet number. *)
Definition mini_record (a : mini_abs) (pns : nat) (p now : Z) : option (received * mini_abs) :=
  rs ← ma_spaces a !! pns;
  if bool_decide (in_ranges (kept a p) rs) then Some (Duplicate, a) else
  let lg := if newest p rs then <[pns := now]> (ma_largest a) else ma_largest a in
  Some (Recorded, match (if ma_tre a then tins (kept a p) rs else rins p rs) with
                  | Some rs' => MA (ma_tre a) (<[pns := rs']> (ma_spaces a)) lg (ma_error a)
                  | None => MA (ma_tre a) (ma_spaces a) lg true
                  end).

Definition mini_receive (mem : bool) (a : mini_abs) (pns : nat) (p now : Z) : option (received * mini_abs) :=
  if mini_full a p then
    if mem then mini_record (mini_switch a) pns p now else Some (Ignored, a)
  else mini_record a pns p now.

(** Once the tiny histories are in use: the low 32 bits of the number are at most
    2^32 - 4, and if it closes the gap between two ranges then these do not join to
    one of 256 or 257 packets. *)
Definition mini_fits (a : mini_abs) (pns : nat) (p : Z) : Prop :=
  let a1 := if mini_full a p then mini_switch a else a in
  ma_tre a1 = true -> forall rs, ma_spaces a1 !! pns = Some rs -> u32 p + 1 < TE_BOUND /\ merge_fits (u32 p) rs.

Definition recvd_hold (r : recvd_packnos) (spaces : list (list range)) : Prop :=
  match r with
  | Bitmasks masks => Forall2 bm_holds masks spaces
  | Trechists hs => Forall2 tview hs spaces
  end.

Record conn_holds (conn : ietf_mini_conn) (a : mini_abs) : Prop := {
  ch_tre : ma_tre a = match imc_recvd_packnos conn with Bitmasks _ => false | Trechists _ => true end;
  ch_len : length (ma_spaces a) = IMICO_N_PNS;
  ch_spaces : recvd_hold (imc_recvd_packnos conn) (ma_spaces a);
  ch_largest : imc_largest_recvd conn = ma_largest a;
  ch_largest_len : length (ma_largest a) = IMICO_N_PNS;
  ch_error : imc_error conn = ma_error a
}.

Lemma conn_space conn a pns rs : conn_holds conn a -> ma_spaces a !! pns = Some rs -> space_holds conn pns rs.
Proof.
  intros [_ _ Hs _ _ _] Hrs. unfold space_holds. destruct (imc_recvd_packnos conn); cbn in Hs;
    destruct (Forall2_lookup_r _ _ _ _ _ Hs Hrs) as (x & Hx & H); by exists x.
Qed.

Lemma bit_ok p : 0 <= p <= 63 -> bit p = 2 ^ p.
Proof.
  intros. unfold bit. rewrite Z.shiftl_1_l, wrapu_id; [done|]. assert (2 ^ p <= 2 ^ 63) by (apply Z.pow_le_mono_r; lia).
  unfold is_u. lia.
Qed.

Lemma small_sizes b rs : ranges_ok b rs -> b <= 256 -> Forall (fun r => rsize r <= 255) rs.
Proof.
  revert b. induction rs as [|[l h] rs IH]; intros b Hok Hb; constructor.
  - destruct Hok as (? & ? & _). unfold rsize. cbn. lia.
  - destruct Hok as (? & ? & Hok). apply (IH l); [done|lia].
Qed.

Lemma tview_empty es : length es = 16%nat -> tview (0, es) [].
Proof.
  intros L. exists []. split; try done. change 0 with (u32 (Z.shiftl 1 0 - 1)). change [] with (seqZ 0 0).
  apply tslots_prefix. lia.
Qed.

Lemma switch_space_ok conn masks pns m rs es :
  imc_recvd_packnos conn = Bitmasks masks -> (pns < IMICO_N_PNS)%nat -> masks !! pns = Some m -> bm_holds m rs ->
  length es = 16%nat -> exists h, switch_space conn pns m es = Some h /\ tview h (take 16 rs).
Proof.
  intros Er Hp Hm [Hok H] L. unfold switch_space. destruct (Z.eqb_spec m 0) as [E|E].
  - apply (bits_hold_zero _ _ _ Hok H) in E as ->. exists (0, es). split; [done|]. by apply tview_empty.
  - assert (Ei : lsquic_imico_rechist_init conn pns = Some (MR conn pns (BitmaskIter 0 0))).
    { unfold lsquic_imico_rechist_init. destruct (Nat.leb_spec IMICO_N_PNS pns); [lia|]. by rewrite Er. }
    rewrite Ei. cbn [mbind option_bind].
    destruct (trechist_copy_ok (MR conn pns (BitmaskIter 0 0)) rs es) as (h & s' & E' & V); try done.
    + apply (holds_yields (holds := mini_holds)). split; [|done]. unfold space_holds. cbn. rewrite Er. by exists m.
    + eapply ranges_ok_mono; [|exact Hok]. unfold TE_BOUND. lia.
    + apply (small_sizes _ _ Hok). lia.
    + rewrite E'. by exists h.
Qed.

Lemma switch_ok mem conn a :
  conn_holds conn a -> ma_tre a = false -> length mem = IMICO_N_PNS -> Forall (fun es => length es = 16%nat) mem ->
  exists conn', imico_switch_to_trechist (Some mem) conn = Some (0, conn') /\ conn_holds conn' (mini_switch a).
Proof.
  intros [Ht Hl Hs Hlg Hll He] Hf Lm Hm. unfold imico_switch_to_trechist.
  destruct (imc_recvd_packnos conn) as [masks|] eqn:Er; [|congruence]. cbn in Hs.
  pose proof (Forall2_length _ _ _ Hs) as Lk. unfold IMICO_N_PNS in *. rewrite Hl in Lk.
  destruct (ma_spaces a) as [|r0 [|r1 [|]]] eqn:Ea; try done. destruct masks as [|m0 [|m1 [|]]]; try done.
  destruct mem as [|e0 [|e1 [|]]]; try done.
  apply Forall_cons in Hm as [L0 Hm]. apply Forall_cons in Hm as [L1 _].
  apply Forall2_cons in Hs as [B0 Hs]. apply Forall2_cons in Hs as [B1 _].
  destruct (switch_space_ok conn _ 0 m0 r0 e0 Er) as (h0 & E0 & V0); [unfold IMICO_N_PNS; lia|done..|].
  destruct (switch_space_ok conn _ 1 m1 r1 e1 Er) as (h1 & E1 & V1); [unfold IMICO_N_PNS; lia|done..|].
  cbn [switch_loop]. rewrite E0. cbn [mbind option_bind]. rewrite E1. cbn [mbind option_bind].
  eexists. split; [reflexivity|]. split; cbn; try done; rewrite Ea; [done|]. by repeat constructor.
Qed.

Definition held_space (conn : ietf_mini_conn) (p : Z) : Prop :=
  match imc_recvd_packnos conn with Bitmasks _ => p <= 63 | Trechists _ => u32 p + 1 < TE_BOUND end.

Definition kept_in (conn : ietf_mini_conn) (p : Z) : Z :=
  match imc_recvd_packnos conn with Bitmasks _ => p | Trechists _ => u32 p end.

Section new_packno.
Context (conn : ietf_mini_conn) (pns : nat) (rs : list range) (p : Z).
Context (Hs : space_holds conn pns rs) (H0 : 0 <= p) (Hb : held_space conn p).

Lemma is_dup_ok : imico_received_packet_is_dup conn pns p = Some (bool_decide (in_ranges (kept_in conn p) rs)).
Proof using Hs H0 Hb.
  unfold imico_received_packet_is_dup, space_holds, held_space, kept_in in *. destruct (imc_recvd_packnos conn) as [masks|hs].
  - destruct Hs as (m & -> & _ & H). cbn [mbind option_bind]. unfold MAX_PACKETS.
    destruct (Z.ltb_spec 63 p); [lia|]. by rewrite bit_ok, has_bit, H by lia.
  - destruct Hs as (h & -> & V). cbn [mbind option_bind]. by apply trechist_contains_ok.
Qed.

Lemma is_largest_ok : imico_packno_is_largest conn pns p = Some (newest p rs).
Proof using Hs.
  unfold imico_packno_is_largest, space_holds in *. destruct (imc_recvd_packnos conn) as [masks|hs].
  - destruct Hs as (m & -> & Hok & H). cbn [mbind option_bind]. f_equal.
    destruct (Z.eqb_spec m 0) as [E|E].
    + by apply (bits_hold_zero _ _ _ Hok H) in E as ->.
    + destruct rs as [|[l h] rs']; [by destruct E; apply (bits_hold_zero _ _ _ Hok H)|].
      by rewrite (highest_bit_top _ _ _ _ _ Hok H).
  - destruct Hs as (h & -> & V). cbn [mbind option_bind]. pose proof V as [idxs W]. pose proof (twf_empty _ _ _ W) as HE.
    destruct (Z.eqb_spec h.1 0) as [E|E]; [by apply HE in E as ->|].
    destruct rs as [|[l hi] rs']; [by destruct E; apply HE|]. by rewrite (trechist_max_ok _ _ _ _ V).
Qed.

Lemma bm_insert m rs' : bm_holds m rs -> p <= 63 -> rins p rs = Some rs' -> bm_holds (Z.lor m (bit p)) rs'.
Proof using H0.
  intros [Hok H] Hp E. split; [by eapply rins_ok; [exact Hok|..]; try done; lia|].
  intros i Hi. rewrite bit_ok, lor_bit, H, <- bool_decide_or by lia. apply bool_decide_ext.
  rewrite (rins_in _ _ _ i E _ Hok). tauto.
Qed.
End new_packno.

Lemma new_packno_ok conn a pns rs p now :
  conn_holds conn a -> ma_spaces a !! pns = Some rs -> 0 <= p -> mini_full a p = false ->
  (ma_tre a = true -> u32 p + 1 < TE_BOUND /\ merge_fits (u32 p) rs) ->
  exists st conn' a', imico_new_packno conn pns p now = Some (st, conn')
    /\ mini_record a pns p now = Some (st, a') /\ conn_holds conn' a'.
Proof.
  intros Hc Hrs H0 Hfull Hm. pose proof (conn_space _ _ _ _ Hc Hrs) as Hs.
  assert (Hb : held_space conn p).
  { unfold held_space. unfold mini_full in Hfull. rewrite (ch_tre _ _ Hc) in Hfull, Hm.
    destruct (imc_recvd_packnos conn); [cbn in Hfull; lia|by apply Hm]. }
  assert (Ek : kept a p = kept_in conn p) by (unfold kept, kept_in; rewrite (ch_tre _ _ Hc); by destruct (imc_recvd_packnos conn)).
  unfold imico_new_packno, mini_record. rewrite (is_dup_ok _ _ _ _ Hs H0 Hb), Hrs, Ek. cbn [mbind option_bind].
  destruct (bool_decide_reflect (in_ranges (kept_in conn p) rs)) as [Hin|Hin]; [by exists Duplicate, conn, a|].
  rewrite (is_largest_ok _ _ _ _ Hs). cbn [mbind option_bind].
  unfold imico_record_recvd_packno. destruct Hc as [Ht Hl Hsp Hlg Hll He].
  set (lg := if newest p rs then <[pns:=now]> (ma_largest a) else ma_largest a).
  assert (Elg : length lg = IMICO_N_PNS) by (unfold lg; destruct (newest p rs); rewrite ?length_insert; done).
  unfold space_holds, held_space, kept_in in *. destruct (imc_recvd_packnos conn) as [masks|hs] eqn:Er; rewrite Ht; rewrite Ht in *.
  - destruct Hs as (m & Hmk & Hbm). pose proof Hbm as [Hok _].
    destruct (rins p rs) as [rs'|] eqn:Ei; [|by apply (rins_None _ _ _ Hok) in Ei].
    pose proof (bm_insert rs p H0 m rs' Hbm Hb Ei) as Hnew.
    exists Recorded, (IMC (Bitmasks (<[pns:=Z.lor m (bit p)]> masks)) lg (imc_error conn)). eexists.
    split_and!; [|done|].
    + unfold MAX_PACKETS, lg. destruct (newest p rs); cbn [imc_recvd_packnos imc_largest_recvd imc_error];
        rewrite ?Er, Hmk; cbn [mbind option_bind]; (destruct (Z.ltb_spec 63 p); [lia|]); by rewrite ?Hlg.
    + split; cbn; rewrite ?length_insert; try done. by apply Forall2_insert.
  - destruct Hs as (h & Hh & V). destruct (Hm eq_refl) as [Hp Hfit]. pose proof (wrapu_range 32 p ltac:(lia)) as [Hu _].
    pose proof (trechist_insert_ok h rs (u32 p) V Hu Hp Hfit) as Hpost. unfold tpost in Hpost.
    assert (exists ret h', lsquic_trechist_insert h (u32 p) = Some (ret, h')
      /\ match tins (u32 p) rs with Some rs' => ret = 0 /\ tview h' rs' | None => ret = -1 /\ h' = h end) as (ret & h' & E & HR).
    { destruct (tins (u32 p) rs) as [rs'|]; [destruct Hpost as (h' & E & V'); by exists 0, h'|by exists (-1), h]. }
    exists Recorded, (IMC (Trechists (<[pns:=h']> hs)) lg (imc_error conn || negb (ret =? 0))). eexists.
    split_and!; [|done|].
    + unfold lg. destruct (newest p rs); cbn [imc_recvd_packnos imc_largest_recvd imc_error];
        rewrite ?Er, Hh; cbn [mbind option_bind]; rewrite E; cbn; by rewrite ?Hlg.
    + cbn in Hsp. destruct (tins (u32 p) rs) as [rs'|]; destruct HR as [-> HR]; split; cbn; rewrite ?length_insert; try done.
      * by apply Forall2_insert.
      * by rewrite orb_false_r.
      * subst h'. by rewrite list_insert_id.
      * apply orb_true_r.
Qed.

Lemma receive_ok mem conn a pns p now :
  conn_holds conn a -> length mem = IMICO_N_PNS -> Forall (fun es => length es = 16%nat) mem ->
  (pns < IMICO_N_PNS)%nat -> 0 <= p -> mini_fits a pns p ->
  exists st conn' a', imico_receive (Some mem) conn pns p now = Some (st, conn')
    /\ mini_receive true a pns p now = Some (st, a') /\ conn_holds conn' a'.
Proof.
  intros Hc Lm Hmem Hpns H0 Hfit. unfold imico_receive, mini_receive, mini_fits in *.
  assert (needs_switch conn p = mini_full a p) as ->.
  { unfold needs_switch, mini_full. rewrite (ch_tre _ _ Hc). by destruct (imc_recvd_packnos conn). }
  destruct (mini_full a p) eqn:Ef.
  - destruct (switch_ok mem conn a Hc) as (conn1 & -> & Hc1); try done.
    { unfold mini_full in Ef. by destruct (ma_tre a). }
    cbn [mbind option_bind]. cbn [negb Z.eqb]. destruct (lookup_lt_is_Some_2 (ma_spaces (mini_switch a)) pns) as [rs Hrs].
    { by rewrite (ch_len _ _ Hc1). }
    apply (new_packno_ok conn1 (mini_switch a) pns rs); try done. intros Ht. by apply Hfit.
  - cbn [mbind option_bind]. cbn [negb Z.eqb]. destruct (lookup_lt_is_Some_2 (ma_spaces a) pns) as [rs Hrs].
    { by rewrite (ch_len _ _ Hc). }
    apply (new_packno_ok conn a pns rs); try done. intros Ht. by apply Hfit.
Qed.

(** ** Promotion *)

(** What the copy keeps: the elements [idxs] hold the ranges [dn] so far. *)
Record copied (max : Z) (rh0 rh : lsquic_rechist) (idxs : list Z) (dn : list range) : Prop := {
  cp_slots : slots rh idxs;
  cp_seg : idxs = [] /\ dn = [] \/ lseg (rh_elems rh) (rh_head rh) idxs dn UINT_MAX;
  cp_max : max_ok rh;
  cp_meta : same_meta rh0 rh
}.

Lemma same_meta_trans a b c : same_meta a b -> same_meta b c -> same_meta a c.
Proof. unfold same_meta. intros (?&?&?&?&?&?) (?&?&?&?&?&?). repeat split; congruence. Qed.

Lemma lseg_one es idx l h c : aget es idx = Some (RE l c UINT_MAX) -> c = h - l + 1 -> lseg es idx [idx] [(l, h)] UINT_MAX.
Proof. intros E ->. cbn. split; [done|]. eexists. split_and!; done. Qed.

(** Storing one range behind the others. *)
Lemma copy_step junk max rh0 rh idxs dn l h :
  copied max rh0 rh idxs dn -> rh_max_ranges rh0 = max -> 2 <= max <= 2 ^ 30 -> Z.of_nat (length idxs) < max ->
  0 <= h - l + 1 < 2 ^ 32 ->
  exists idx rh1 es rh2, rechist_alloc_elem junk true rh = Some (idx, rh1) /\ 0 <= idx
    /\ aset (rh_elems rh1) idx (RE l (u32 (h - l + 1)) UINT_MAX) = Some es
    /\ (if default UINT_MAX (last idxs) =? UINT_MAX then Some (with_head (with_elems rh1 es) idx)
        else es' ← set_next (rh_elems (with_elems rh1 es)) (default UINT_MAX (last idxs)) idx;
             Some (with_elems (with_elems rh1 es) es')) = Some rh2
    /\ copied max rh0 rh2 (idxs ++ [idx]) (dn ++ [(l, h)]).
Proof.
  intros [S Sg M Me] Hm Hb Hlt Hc. pose proof Me as (_ & _ & Em & _).
  assert (Hat : at_max_ranges rh = false).
  { unfold at_max_ranges. pose proof (sl_used _ _ S). apply andb_false_iff. right. apply Z.leb_gt. lia. }
  assert (Hal : rh_n_alloced rh <= 2 ^ 30) by (destruct M as [M|[_ M]]; lia).
  destruct (alloc_fresh junk true rh idxs S M Hat Hal) as
    [(idx & rh1 & tail & Ha & Hni & Hi & S1 & He & Hh & Me1 & M1)|[? _]]; [|done].
  rewrite (wrapu_id 32) by done. set (es := <[Z.to_nat idx := RE l (h - l + 1) UINT_MAX]> (rh_elems rh1)).
  assert (Hone : lseg es idx [idx] [(l, h)] UINT_MAX).
  { eapply lseg_one; [|reflexivity]. unfold es. by rewrite aget_insert_eq. }
  assert (Hsl : forall es', length es' = length (rh_elems rh1) -> slots (with_elems rh1 es') (idxs ++ [idx])).
  { intros es' El. apply slots_elems; [done|]. eapply slots_perm, S1. by rewrite <- Permutation_cons_append. }
  pose proof (same_meta_trans _ _ _ Me Me1) as Me2.
  exists idx, rh1, es. destruct Sg as [[-> ->]|Sg].
  - exists (with_head (with_elems rh1 es) idx). cbn [last default]. rewrite aset_ok by done. split_and!; try done; [lia|].
    split; [|by right|done|done]. destruct (Hsl es (length_insert _ _ _)). by split.
  - pose proof (lseg_length _ _ _ _ _ Sg) as Ll. destruct (decide (idxs = [])) as [->|Hne].
    { destruct dn; [|done]. exists (with_head (with_elems rh1 es) idx). rewrite aset_ok by done. split_and!; try done; [lia|].
      split; [|by right|done|done]. destruct (Hsl es (length_insert _ _ _)). by split. }
    destruct (exists_last Hne) as (pre & prev & ->). rewrite last_snoc. cbn [default from_option id].
    assert (Hdn : dn ≠ []) by (intros ->; rewrite length_app in Ll; cbn in Ll; lia).
    destruct (exists_last Hdn) as (rpre & rprev & ->).
    pose proof (sl_nodup _ _ S) as Hnd. pose proof (sl_idx _ _ S prev ltac:(set_solver)) as Hpv.
    pose proof (sl_alloc _ _ S). replace (prev =? UINT_MAX) with false by (unfold UINT_MAX; lia).
    assert (Hes : lseg es (rh_head rh) (pre ++ [prev]) (rpre ++ [rprev]) UINT_MAX).
    { unfold es. apply lseg_frame; [lia|done|]. rewrite He. by apply lseg_extend. }
    destruct (lseg_link es (rh_head rh) pre prev rpre rprev UINT_MAX idx [idx] [(l, h)] UINT_MAX) as (es' & Es & Le & Sg');
      [done|set_solver|rewrite !length_app in Ll; cbn in Ll; lia|done|done|].
    exists (with_elems (with_elems rh1 es) es'). rewrite aset_ok by done. cbn [rh_elems with_elems]. rewrite Es.
    split_and!; try done; [lia|]. split; try done.
    + apply (Hsl es'). rewrite Le. unfold es. apply length_insert.
    + right. cbn. by rewrite Hh.
Qed.

Lemma copy_loop_ok {S} `{RangeSource S} junk max rh0 rs : forall fuel rh (src : S) idxs dn allocs,
  copied max rh0 rh idxs dn -> rh_max_ranges rh0 = max -> 2 <= max <= 2 ^ 30 ->
  Forall (eq true) allocs -> (length rs <= fuel)%nat -> (exists b, ranges_ok b rs) -> total rs < 2 ^ 32 ->
  match rs with [] => True | _ :: rs => nexts src rs end ->
  exists rh' src' idxs', copy_loop junk fuel allocs rh src (head rs) (default UINT_MAX (last idxs)) = Some (0, rh', src')
    /\ copied max rh0 rh' idxs' (dn ++ take (Z.to_nat max - length idxs) rs).
Proof.
  induction rs as [|[l h] rs IH]; intros fuel rh src idxs dn allocs C Hm Hb Hall Hf [b Hok] Ht Hn.
  { exists rh, src, idxs. rewrite take_nil, app_nil_r. by destruct fuel. }
  pose proof C as [S0 Sg M Me]. pose proof (sl_used _ _ S0) as Hu. pose proof Me as (_ & _ & Em & _).
  destruct Hok as (H1 & H2 & Hok). cbn in Ht. pose proof (total_nonneg _ _ Hok).
  destruct fuel as [|fuel]; cbn [copy_loop head]; [cbn in Hf; lia|]. rewrite Em, Hm.
  replace (max =? 0) with false by lia. cbn [negb andb]. destruct (Z.ltb_spec (rh_n_used rh) max) as [Hlt|Hge]; cbn [negb].
  2: { exists rh, src, idxs. replace (Z.to_nat max - length idxs)%nat with 0%nat by lia. by rewrite app_nil_r. }
  destruct (copy_step junk max rh0 rh idxs dn l h C Hm Hb) as (idx & rh1 & es & rh2 & Ea & Hi & Es & E2 & C2); try lia.
  assert (hd true allocs = true) as -> by (by destruct Hall as [|? ? <-]).
  rewrite Ea. cbn [mbind option_bind]. replace (idx <? 0) with false by lia. rewrite Es. cbn [mbind option_bind].
  cbn zeta. rewrite E2. cbn [mbind option_bind].
  assert (Hstep : exists src1, src_next src = Some (head rs, src1)
                  /\ match rs with [] => True | _ :: rs => nexts src1 rs end).
  { destruct rs as [|r rs]; destruct Hn as [s' Hn]; [by exists s'|]. exists s'. by destruct Hn as [-> ?]. }
  destruct Hstep as (src1 & -> & Hn1). cbn [mbind option_bind]. cbn [length] in Hf.
  destruct (IH fuel rh2 src1 (idxs ++ [idx]) (dn ++ [(l, h)]) (tl allocs)) as (rh' & src' & idxs' & E & C'); try done.
  { destruct Hall; [constructor|done]. }
  { lia. }
  { by exists l. }
  { lia. }
  rewrite last_snoc in E. cbn [default from_option id] in E. rewrite E. exists rh', src', idxs'. split; [done|].
  rewrite length_app in C'. cbn [length] in C'.
  replace (Z.to_nat max - length idxs)%nat with (Datatypes.S (Z.to_nat max - (length idxs + 1))) by lia.
  cbn [take]. by rewrite <- app_assoc in C'.
Qed.

(** Copying into an empty history keeps the highest ranges. *)
Lemma copy_ranges_ok {S} `{RangeSource S} junk ietf max fuel allocs (src : S) rs :
  yields src rs -> ranges_ok PN_BOUND rs -> total rs < 2 ^ 32 -> 2 <= max <= 2 ^ 30 ->
  Forall (eq true) allocs -> (length rs <= fuel)%nat ->
  exists rh' src', lsquic_rechist_copy_ranges junk fuel allocs (lsquic_rechist_init ietf max) src = Some (0, rh', src')
    /\ view rh' (take (Z.to_nat max) rs).
Proof.
  intros Hy Hok Ht Hm Hall Hf. set (rh0 := lsquic_rechist_init ietf max). unfold lsquic_rechist_copy_ranges.
  assert (Em : rh_max_ranges rh0 = max) by (cbn; destruct (Z.eqb_spec max 1); lia).
  cbn [rh_n_used rh0 lsquic_rechist_init Z.eqb negb].
  assert (Hfirst : exists src1, src_first src = Some (head rs, src1) /\ match rs with [] => True | _ :: rs => nexts src1 rs end).
  { destruct rs as [|r rs]; cbn in Hy; [by destruct Hy as [s' ->]; exists s'|]. destruct Hy as (s' & -> & ? & _). by exists s'. }
  destruct Hfirst as (src1 & -> & Hn). cbn [mbind option_bind].
  destruct (init_view ietf max ltac:(lia)) as [idxs0 W0]. fold rh0 in W0.
  assert (idxs0 = []) as -> by (destruct (wf_seg _ _ _ W0) as [[? _]|Hs%lseg_length]; [done|by destruct idxs0]).
  destruct (copy_loop_ok junk max rh0 rs fuel rh0 src1 [] [] allocs) as (rh' & src' & idxs' & E & C'); try done.
  { split; [apply W0|by left|apply (wf_max _ _ _ W0)|apply same_meta_refl]. }
  { by eexists. }
  cbn [last default] in E. exists rh', src'. split; [exact E|]. exists idxs'.
  cbn [length app] in C'. rewrite Nat.sub_0_r in C'. destruct C' as [S1 Sg M Me]. split; try done.
  - by apply ranges_ok_take.
  - pose proof (total_take _ (Z.to_nat max) _ Hok). lia.
Qed.

Lemma ranges_total b rs : 0 <= b -> ranges_ok b rs -> total rs <= b /\ 2 * Z.of_nat (length rs) <= b.
Proof.
  revert b. induction rs as [|[l h] rs IH]; intros b Hb Hok; cbn [total length]; [lia|].
  destruct Hok as (? & ? & Hok). apply IH in Hok; lia.
Qed.

Lemma space_ranges conn pns rs : space_holds conn pns rs -> ranges_ok TE_BOUND rs /\ (length rs <= 32)%nat.
Proof.
  unfold space_holds. destruct (imc_recvd_packnos conn).
  - intros (m & _ & Hok & _). split; [eapply ranges_ok_mono; [|exact Hok]; unfold TE_BOUND; lia|].
    apply ranges_total in Hok; lia.
  - intros (h & _ & idxs & [L S Hs Hok _]). split; [done|]. pose proof (tslots_length _ _ S). apply lseg_length in Hs. lia.
Qed.

Lemma promotion_ok junk allocs conn a pns rs max :
  conn_holds conn a -> ma_spaces a !! pns = Some rs -> 2 <= max <= 2 ^ 30 -> Forall (eq true) allocs ->
  exists rh, copy_mini_rechist junk 32 allocs conn pns (lsquic_rechist_init true max) = Some (0, rh)
    /\ view rh (take (Z.to_nat max) rs) /\ ma_largest a !! pns = Some (rh_largest_acked_received rh).
Proof.
  intros Hc Hrs Hm Hall. pose proof (conn_space _ _ _ _ Hc Hrs) as Hs. pose proof (space_ranges _ _ _ Hs) as [Hok Hlen].
  pose proof (lookup_lt_Some _ _ _ Hrs) as Hpns. rewrite (ch_len _ _ Hc) in Hpns.
  destruct (lookup_lt_is_Some_2 (ma_largest a) pns) as [t Ht]; [by rewrite (ch_largest_len _ _ Hc)|].
  unfold copy_mini_rechist.
  assert (exists r, lsquic_imico_rechist_init conn pns = Some r /\ mr_conn r = conn /\ mr_pns r = pns) as (r & Er & E1 & E2).
  { unfold lsquic_imico_rechist_init. unfold space_holds in Hs. destruct (Nat.leb_spec IMICO_N_PNS pns); [lia|].
    destruct (imc_recvd_packnos conn); [by eexists|]. destruct Hs as (h & -> & _). by eexists. }
  rewrite Er. cbn [mbind option_bind].
  assert (Hy : yields r rs). { apply (holds_yields (holds := mini_holds)). split; [by rewrite E1, E2|congruence]. }
  pose proof (ranges_total TE_BOUND rs ltac:(unfold TE_BOUND; lia) Hok) as [Htot _].
  destruct (copy_ranges_ok junk true max 32 allocs r rs Hy) as (rh & s' & E & V); try done.
  { eapply ranges_ok_mono; [|exact Hok]. unfold TE_BOUND, PN_BOUND. lia. }
  { unfold TE_BOUND in Htot. lia. }
  rewrite E. cbn [mbind option_bind negb Z.eqb]. rewrite (ch_largest _ _ Hc), Ht. cbn [mbind option_bind].
  exists (with_largest rh t). split; [done|]. split; [|done]. destruct V as [idxs W]. exists idxs. by apply wf_largest.
Qed.

(** ** Acknowledgements *)

Lemma ack_round acked l h i : 0 <= l <= h -> h <= 63 -> 0 <= i ->
  Z.testbit (Z.ldiff (Z.lor acked (Z.lor (bit h) (bit h - 1))) (bit l - 1)) i
  = (Z.testbit acked i || (i <=? h)) && (l <=? i).
Proof.
  intros H1 H2 Hi. rewrite !bit_ok by lia. rewrite !Z.sub_1_r, <- !Z.ones_equiv.
  rewrite Z.ldiff_spec, !Z.lor_spec, Z.pow2_bits_eqb, !Z.testbit_ones_nonneg by lia. f_equal; [f_equal|].
  - destruct (Z.eqb_spec h i), (Z.ltb_spec i h), (Z.leb_spec i h); cbn; lia.
  - destruct (Z.ltb_spec i l), (Z.leb_spec l i); cbn; lia.
Qed.

Lemma acked_loop_ok ranges : forall acked b,
  ranges_ok b ranges -> b <= 65 -> (forall i, 0 <= i < b - 1 -> Z.testbit acked i = false) ->
  exists acked', acked_loop acked ranges = inr acked'
    /\ forall i, 0 <= i -> Z.testbit acked' i = Z.testbit acked i || bool_decide (in_ranges i ranges).
Proof.
  induction ranges as [|[l h] ranges IH]; intros acked b Hok Hb Hz; cbn [acked_loop].
  { exists acked. split; [done|]. intros i Hi. rewrite bool_decide_eq_false_2; [by rewrite orb_false_r|]. intros []%in_ranges_nil. }
  destruct Hok as (H1 & H2 & Hok). unfold MAX_PACKETS. destruct (Z.leb_spec h 63); [|lia].
  destruct (IH (Z.ldiff (Z.lor acked (Z.lor (bit h) (bit h - 1))) (bit l - 1)) l Hok) as (acked' & E & H'); [lia|..].
  { intros i Hi. rewrite ack_round by lia. destruct (Z.leb_spec l i); [lia|]. apply andb_false_r. }
  exists acked'. split; [done|]. intros i Hi. rewrite H', ack_round by lia.
  assert (Hin : in_ranges i ((l, h) :: ranges) <-> l <= i <= h \/ in_ranges i ranges).
  { rewrite in_ranges_cons. done. }
  rewrite (bool_decide_ext _ _ Hin), bool_decide_or, orb_assoc. f_equal.
  destruct (Z.leb_spec i h), (Z.leb_spec l i); rewrite ?andb_true_r, ?andb_false_r, ?orb_true_r, ?orb_false_r.
  - by rewrite bool_decide_eq_true_2, orb_true_r.
  - rewrite Hz by lia. rewrite bool_decide_eq_false_2; [done|lia].
  - rewrite bool_decide_eq_false_2 by lia. by rewrite orb_false_r.
  - lia.
Qed.

(** The packet is not covered, or it is of the space. *)
Definition of_space (pns : nat) (ranges : list range) (pk : Z * nat) : Prop := in_ranges pk.1 ranges -> pk.2 = pns.

#[export] Instance of_space_dec pns ranges pk : Decision (of_space pns ranges pk).
Proof. unfold of_space. apply _. Defined.

Lemma ack_packets_ok pns ranges acked packets :
  bits_hold acked ranges -> Forall (fun pk => 0 <= pk.1 <= 63) packets ->
  ack_packets pns acked packets = if decide (Forall (of_space pns ranges) packets) then Some (filter (fun pk => ~ in_ranges pk.1 ranges) packets) else None.
Proof.
  intros H. induction packets as [|[no q] packets IH]; intros Hb; [by rewrite decide_True by constructor|].
  apply Forall_cons in Hb as [Hb0 Hb]. cbn in Hb0. cbn [ack_packets]. rewrite (IH Hb).
  assert (has_flag (bit no) acked = bool_decide (in_ranges no ranges)) as ->.
  { unfold has_flag. rewrite Z.land_comm. fold (has_flag acked (bit no)). rewrite bit_ok, has_bit by lia. apply H. lia. }
  assert (Hd : Forall (of_space pns ranges) ((no, q) :: packets) <-> (in_ranges no ranges -> q = pns) /\ Forall (of_space pns ranges) packets) by apply Forall_cons.
  rewrite (decide_ext _ _ _ _ Hd), filter_cons. cbn [fst]. destruct (bool_decide_reflect (in_ranges no ranges)) as [Hin|Hin].
  - rewrite (decide_False (P := ~ _)) by auto. destruct (Nat.eqb_spec q pns) as [->|Hq].
    + apply decide_ext. tauto.
    + rewrite decide_False; [done|]. intros [Hf _]. auto.
  - rewrite (decide_True (P := ~ _)) by done. destruct (decide (Forall _ packets)) as [Hf|Hf]; [rewrite decide_True by (split; [done|exact Hf]); done|rewrite decide_False by tauto; done].
Qed.

Lemma bits_zero m : m = 0 <-> forall i, 0 <= i -> Z.testbit m i = false.
Proof. split; [intros -> i _; apply Z.bits_0|]. intros H. apply Z.bits_inj'. intros i Hi. rewrite Z.bits_0. by apply H. Qed.

Lemma highest_bit_pos m : 0 < m -> 0 <= highest_bit_set m /\ Z.testbit m (highest_bit_set m) = true
  /\ forall i, Z.testbit m i = true -> i <= highest_bit_set m.
Proof.
  intros Hm. unfold highest_bit_set. split_and!; [apply Z.log2_nonneg|by apply Z.bit_log2|].
  intros i Hi. destruct (Z.le_gt_cases i (Z.log2 m)); [done|]. by rewrite Z.bits_above_log2 in Hi by lia.
Qed.

(** The packet was sent. *)
Definition was_sent (s : ietf_mini_sent) (p : Z) : Prop := Z.testbit (imc_sent_packnos s) p = true.

(** An acknowledgement of packets that were all sent. *)
Definition ack_accepted (s : ietf_mini_sent) (pns : nat) (ranges : list range) (s' : ietf_mini_sent) : Prop :=
  imc_sent_packnos s' = imc_sent_packnos s
  /\ imc_packets_out s' = filter (fun pk => ~ in_ranges pk.1 ranges) (imc_packets_out s)
  /\ exists old new, imc_acked_packnos s !! pns = Some old /\ imc_acked_packnos s' = <[pns := new]> (imc_acked_packnos s)
     /\ (forall i, 0 <= i -> Z.testbit new i = Z.testbit old i || bool_decide (in_ranges i ranges))
     /\ imc_hsk_count s' = (if bool_decide (Forall (fun i => in_ranges i ranges -> Z.testbit old i = true) (seqZ 0 64))
                            then imc_hsk_count s else 0).

Definition ack_rejected (s : ietf_mini_sent) (ranges : list range) (q : Z) : Prop :=
  in_ranges q ranges /\ ~ was_sent s q /\ forall p, in_ranges p ranges -> ~ was_sent s p -> p <= q.

Lemma never_sent_ok s ranges acked :
  bits_hold acked ranges -> 0 <= acked -> let never := Z.ldiff acked (imc_sent_packnos s) in
  (never = 0 <-> forall p, 0 <= p -> in_ranges p ranges -> was_sent s p)
  /\ (never <> 0 -> (forall p, in_ranges p ranges -> 0 <= p) -> ack_rejected s ranges (highest_bit_set never)).
Proof.
  intros H Ha never. assert (Hbit : forall i, 0 <= i -> Z.testbit never i = true <-> in_ranges i ranges /\ ~ was_sent s i).
  { intros i Hi. unfold never, was_sent. rewrite Z.ldiff_spec, H by done. rewrite andb_true_iff, bool_decide_eq_true, negb_true_iff.
    by rewrite not_true_iff_false. }
  assert (Hn : 0 <= never) by (apply Z.ldiff_nonneg; by left).
  split.
  - rewrite bits_zero. split.
    + intros Hz p Hp Hin. unfold was_sent. destruct (Z.testbit (imc_sent_packnos s) p) eqn:E; [done|].
      specialize (Hz p Hp). assert (Z.testbit never p = true); [|congruence]. apply Hbit; [done|]. split; [done|].
      unfold was_sent. congruence.
    + intros Hall i Hi. apply not_true_iff_false. rewrite Hbit by done. intros [Hin Hns]. by apply Hns, Hall.
  - intros Hne Hpos. destruct (highest_bit_pos never ltac:(lia)) as (Hq & Hb & Hmax).
    apply Hbit in Hb as [Hin Hns]; [|done]. split_and!; try done. intros p Hp Hnp. apply Hmax, Hbit; [by apply Hpos|done].
Qed.

Section acks.
Context (s : ietf_mini_sent) (pns : nat) (ranges : list range).
Context (Hsent : is_u 64 (imc_sent_packnos s)) (Hout : Forall (fun pk => 0 <= pk.1 <= 63) (imc_packets_out s)).

Lemma newly_acked_ok acked old :
  bits_hold acked ranges -> ranges_ok 65 ranges -> (forall p, 0 <= p -> in_ranges p ranges -> was_sent s p) ->
  (Z.land (Z.ldiff (imc_sent_packnos s) old) acked =? 0)
  = bool_decide (Forall (fun i => in_ranges i ranges -> Z.testbit old i = true) (seqZ 0 64)).
Proof using.
  intros H Hok Hall. apply eq_bool_prop_intro. rewrite !Is_true_true, bool_decide_eq_true, Z.eqb_eq.
  rewrite bits_zero, Forall_forall. setoid_rewrite Z.land_spec. setoid_rewrite Z.ldiff_spec. split.
  - intros Hz i Hi%elem_of_seqZ Hin. specialize (Hz i ltac:(lia)). rewrite H, bool_decide_eq_true_2, andb_true_r in Hz by (done || lia).
    pose proof (Hall i ltac:(lia) Hin) as Hs. unfold was_sent in Hs. rewrite Hs in Hz. by destruct (Z.testbit old i).
  - intros Hf i Hi. rewrite H by done. destruct (bool_decide_reflect (in_ranges i ranges)) as [Hin|]; [|apply andb_false_r].
    pose proof (ranges_ok_below _ _ _ Hok Hin). rewrite Hf; [by rewrite andb_false_r|apply elem_of_seqZ; lia|done].
Qed.

(** What becomes of an ACK frame: the assertion on the space fails, it is rejected, or
    it is accepted. *)
Definition ack_result (r : option (Z + ietf_mini_sent)) : Prop :=
  match r with
  | None => (forall p, in_ranges p ranges -> was_sent s p) /\ Exists (fun pk => in_ranges pk.1 ranges /\ pk.2 <> pns) (imc_packets_out s)
  | Some (inl q) => ack_rejected s ranges q
  | Some (inr s') => (forall p, in_ranges p ranges -> was_sent s p) /\ Forall (of_space pns ranges) (imc_packets_out s) /\ ack_accepted s pns ranges s'
  end.

Lemma process_ack_ok b :
  ranges_ok b ranges -> is_Some (imc_acked_packnos s !! pns) -> ack_result (imico_process_ack_frame s pns ranges).
Proof using Hsent Hout.
  intros Hok [old Hold]. unfold ack_result, imico_process_ack_frame.
  assert (Hpos : forall p, in_ranges p ranges -> 0 <= p) by (intros p Hin; apply (ranges_ok_below _ _ _ Hok) in Hin; lia).
  destruct (decide (ranges_ok 65 ranges)) as [Hok'|Hbig].
  - destruct (acked_loop_ok ranges 0 65 Hok') as (acked & -> & Hb); [lia|intros; apply Z.bits_0|].
    assert (H : bits_hold acked ranges) by (intros i Hi; by rewrite Hb, Z.bits_0).
    assert (Ha : 0 <= acked).
    { apply Z.bits_iff_nonneg_ex. exists 64. intros m Hm. rewrite H by lia. apply bool_decide_eq_false_2.
      intros Hin%(ranges_ok_below _ _ _ Hok'). lia. }
    destruct (never_sent_ok s ranges acked H Ha) as [Hnz Hrej]. destruct (Z.eqb_spec (Z.ldiff acked (imc_sent_packnos s)) 0) as [E|E]; cbn [negb].
    + rewrite (ack_packets_ok pns ranges) by done. destruct (decide _) as [Hf|Hf]; cbn [mbind option_bind].
      2: { split; [intros p Hin; apply Hnz; auto|]. apply not_Forall_Exists in Hf; [|apply _]. eapply Exists_impl; [exact Hf|]. intros pk Hn. unfold of_space in Hn. cbn in Hn.
           destruct (decide (in_ranges pk.1 ranges)); [|by destruct Hn]. split; [done|]. intros E'. by apply Hn. }
      rewrite Hold. cbn [mbind option_bind].
      split; [intros p Hin; apply Hnz; auto|]. split; [exact Hf|]. split_and!; [done..|]. exists old, (Z.lor old acked). split_and!; try done.
      * intros i Hi. by rewrite Z.lor_spec, H.
      * cbn. rewrite (newly_acked_ok acked old) by (done || by apply Hnz). by destruct (bool_decide _).
    + by apply Hrej.
  - destruct ranges as [|[l h] rs]; [by destruct Hbig|]. destruct Hok as (H1 & H2 & Hok). cbn [acked_loop].
    unfold MAX_PACKETS. destruct (Z.leb_spec h 63) as [|Hh]; [destruct Hbig; cbn; intuition lia|]. split_and!.
    + apply in_ranges_top; [done|left; lia].
    + unfold was_sent. destruct Hsent. rewrite <- (Z.mod_small _ (2 ^ 64)) by done. by rewrite Z.mod_pow2_bits_high by lia.
    + intros p Hin%in_ranges_top; [|done]. lia.
Qed.
End acks.

(** ** Runs *)

(** A packet: its space, its number, when it arrived and whether an allocation
    succeeds then. *)
Abbreviation mini_packet := (nat * Z * Z * bool)%type.

Fixpoint receive_packets (mem : list (list trechist_elem)) (conn : ietf_mini_conn) (pkts : list mini_packet)
    : option (list received * ietf_mini_conn) :=
  match pkts with
  | [] => Some ([], conn)
  | (pns, p, now, alloc) :: pkts =>
    '(st, conn) ← imico_receive (if alloc : bool then Some mem else None) conn pns p now;
    '(sts, conn) ← receive_packets mem conn pkts;
    Some (st :: sts, conn)
  end.

Fixpoint mini_run (a : mini_abs) (pkts : list mini_packet) : option (list received * mini_abs) :=
  match pkts with
  | [] => Some ([], a)
  | (pns, p, now, alloc) :: pkts =>
    '(st, a) ← mini_receive alloc a pns p now;
    '(sts, a) ← mini_run a pkts;
    Some (st :: sts, a)
  end.

(** [mini_fits] holds of every packet when it arrives. *)
Fixpoint run_fits (a : mini_abs) (pkts : list mini_packet) : Prop :=
  match pkts with
  | [] => True
  | (pns, p, now, alloc) :: pkts =>
    (alloc = true -> mini_fits a pns p) /\ (mini_full a p = false -> mini_fits a pns p) /\
    forall st a', mini_receive alloc a pns p now = Some (st, a') -> run_fits a' pkts
  end.

(** A new connection: the flags IMC_TRECHIST and IMC_ERROR are not set. *)
Definition new_conn : ietf_mini_conn := IMC (Bitmasks [0; 0]) [0; 0] false.
Definition new_abs : mini_abs := MA false [[]; []] [0; 0] false.

Lemma new_conn_holds : conn_holds new_conn new_abs.
Proof. split; cbn; try done. repeat constructor; apply bits_hold_nil. Qed.

(** Numbers below 255 do not make a range too long. *)
Definition small_spaces (a : mini_abs) : Prop := Forall (ranges_ok 256) (ma_spaces a).

Lemma small_merge p rs : ranges_ok 256 rs -> 0 <= p < 255 -> merge_fits p rs.
Proof.
  intros Hok Hp rs' E _. pose proof (small_sizes 256 rs') as H. ospecialize (H _ _); [|done|].
  { apply (rins_ok 256 p rs); try done; lia. }
  eapply Forall_impl; [exact H|]. cbn. intros r. lia.
Qed.

Lemma small_take a : small_spaces a -> small_spaces (mini_switch a).
Proof. unfold small_spaces. cbn. intros H. apply Forall_fmap. eapply Forall_impl; [exact H|]. intros rs. apply ranges_ok_take. Qed.

Lemma small_kept a p : 0 <= p < 255 -> kept a p = p.
Proof. intros Hp. unfold kept. destruct (ma_tre a); [|done]. apply wrapu_id. unfold is_u. lia. Qed.

Lemma small_recorded a pns p now st a' :
  small_spaces a -> 0 <= p < 255 -> mini_record a pns p now = Some (st, a') -> small_spaces a'.
Proof.
  intros Hs Hp. unfold mini_record. destruct (ma_spaces a !! pns) as [rs|] eqn:Er; [|done]. cbn [mbind option_bind]. rewrite (small_kept a p Hp).
  destruct (bool_decide _); [by intros [= _ <-]|]. intros [= _ <-].
  pose proof (Forall_lookup_1 _ _ _ _ Hs Er) as Hok. cbn in Hok.
  assert (Hin : forall rs', rins p rs = Some rs' -> ranges_ok 256 rs') by (intros rs' E; apply (rins_ok 256 p rs); try done; lia).
  destruct (if ma_tre a then tins p rs else rins p rs) as [rs'|] eqn:E; [|done].
  unfold small_spaces. cbn. apply Forall_insert; [done|]. destruct (ma_tre a); [|by apply Hin].
  unfold tins in E. destruct (rins p rs) as [rs1|]; [|by injection E as <-].
  destruct (forallb _ _); [|done]. injection E as <-. by apply ranges_ok_take, Hin.
Qed.

Lemma small_step_fits a pns p : small_spaces a -> 0 <= p < 255 -> mini_fits a pns p.
Proof.
  intros Hs Hp _ rs Hrs. rewrite wrapu_id by (unfold is_u; lia). split; [unfold TE_BOUND; lia|]. apply small_merge; [|done].
  assert (Hsm : small_spaces (if mini_full a p then mini_switch a else a)) by (destruct (mini_full a p); [by apply small_take|done]).
  by apply (Forall_lookup_1 _ _ _ _ Hsm Hrs).
Qed.

Lemma small_run_fits pkts : forall a, small_spaces a -> Forall (fun pk : mini_packet => 0 <= pk.1.1.2 < 255) pkts -> run_fits a pkts.
Proof.
  induction pkts as [|[[[pns p] now] alloc] pkts IH]; intros a Hs Hp; [done|]. apply Forall_cons in Hp as [Hb Hp]. cbn in Hb. split_and!.
  - intros _. by apply small_step_fits.
  - intros _. by apply small_step_fits.
  - intros st a' E. apply IH; [|done]. unfold mini_receive in E. destruct (mini_full a p); [destruct alloc; [|by injection E as _ <-]|]; eapply small_recorded; try exact E; done || by apply small_take.
Qed.

Lemma ignored_ok conn a pns p now : conn_holds conn a -> mini_full a p = true -> imico_receive None conn pns p now = Some (Ignored, conn).
Proof.
  intros Hc Hf. unfold imico_receive, needs_switch, mini_full in *. rewrite (ch_tre _ _ Hc) in Hf. destruct (imc_recvd_packnos conn); [|done]. cbn in Hf. unfold MAX_PACKETS. by rewrite Hf.
Qed.

Lemma receive_any mem alloc conn a pns p now :
  conn_holds conn a -> length mem = IMICO_N_PNS -> Forall (fun es => length es = 16%nat) mem ->
  (pns < IMICO_N_PNS)%nat -> 0 <= p -> (alloc = true -> mini_fits a pns p) -> (mini_full a p = false -> mini_fits a pns p) ->
  exists st conn' a', imico_receive (if alloc : bool then Some mem else None) conn pns p now = Some (st, conn')
    /\ mini_receive alloc a pns p now = Some (st, a') /\ conn_holds conn' a'.
Proof.
  intros Hc Lm Hm Hpns H0 H1 H2. destruct (mini_full a p) eqn:Ef.
  - destruct alloc; [by apply receive_ok; auto|]. exists Ignored, conn, a. split; [by apply (ignored_ok _ a)|]. split; [|done]. unfold mini_receive. by rewrite Ef.
  - destruct (receive_ok mem conn a pns p now Hc Lm Hm Hpns H0 (H2 eq_refl)) as (st & conn' & a' & E1 & E2 & Hc'). exists st, conn', a'. split_and!; [| |done].
    + destruct alloc; [done|]. unfold imico_receive in *. assert (Hn : needs_switch conn p = false); [|by rewrite Hn in *].
      unfold needs_switch, mini_full in *. rewrite (ch_tre _ _ Hc) in Ef. by destruct (imc_recvd_packnos conn).
    + unfold mini_receive in *. by rewrite Ef in *.
Qed.

Lemma mini_run_ok mem pkts : forall conn a,
  conn_holds conn a -> run_fits a pkts -> length mem = IMICO_N_PNS -> Forall (fun es => length es = 16%nat) mem ->
  Forall (fun pk : mini_packet => (pk.1.1.1 < IMICO_N_PNS)%nat /\ 0 <= pk.1.1.2) pkts ->
  exists sts conn' a', receive_packets mem conn pkts = Some (sts, conn') /\ mini_run a pkts = Some (sts, a')
    /\ conn_holds conn' a'.
Proof.
  induction pkts as [|[[[pns p] now] alloc] pkts IH]; intros conn a Hc Hr Lm Hm Hp; [by exists [], conn, a|].
  apply Forall_cons in Hp as [[Hpns Hb] Hp]. cbn in Hpns, Hb. destruct Hr as (F1 & F2 & Hr).
  destruct (receive_any mem alloc conn a pns p now Hc Lm Hm Hpns Hb F1 F2) as (st & conn1 & a1 & E1 & E2 & Hc1).
  cbn [receive_packets mini_run]. rewrite E1, E2. cbn [mbind option_bind].
  destruct (IH conn1 a1) as (sts & conn' & a' & -> & -> & Hc'); try done; [by eapply Hr|]. by eexists _, _, _.
Qed.

(** ** Theorems *)

(** C19: A packet number that arrives at the mini connection.  While all
    numbers fit the 64-bit masks they are inserted in the range list of their
    space; the first that does not moves every space to a tiny history, which
    keeps its sixteen highest ranges; from then on the tiny history's insertion
    applies and its error marks the connection.  The tiny history takes the low 32
    bits of a number and so do the reference and its test for duplicates: numbers
    that agree in these are taken for the same.  Duplicates are recognised exactly
    among what is kept and change nothing, and the arrival time is kept of the
    largest number.  When memory cannot be had for the switch the packet is dropped
    and nothing changes.  [mini_fits] excludes two cases of the tiny history: low 32
    bits above 2^32 - 4, at which its sums wrap, and a number that joins two ranges
    to one of 256 or 257 packets, whose count the source lets wrap. *)
Theorem mini_receive_refines mem alloc conn a pns p now :
  conn_holds conn a -> length mem = IMICO_N_PNS -> Forall (fun es => length es = 16%nat) mem ->
  (pns < IMICO_N_PNS)%nat -> 0 <= p -> mini_fits a pns p ->
  (exists st conn' a', imico_receive (if alloc : bool then Some mem else None) conn pns p now = Some (st, conn')
    /\ mini_receive alloc a pns p now = Some (st, a') /\ conn_holds conn' a')
  /\ (mini_full a p = true -> imico_receive None conn pns p now = Some (Ignored, conn)).
Proof.
  intros Hc Lm Hm Hpns H0 Hfit. split; [by apply receive_any; auto|]. by apply ignored_ok.
Qed.

(** Packet 2^32 + 64 arrives when 0 to 3 and 5 have: it is kept as 64. *)
Lemma mini_receive_refines_witness :
  exists conn', imico_receive (Some (replicate 2 (replicate 16 (TE 7 7 7)))) (IMC (Bitmasks [0x2F; 0]) [3; 0] false) 0 (2 ^ 32 + 64) 9
    = Some (Recorded, conn')
  /\ conn_holds conn' (MA true [[(64, 64); (5, 5); (0, 3)]; []] [9; 0] false).
Proof.
  assert (H : conn_holds (IMC (Bitmasks [0x2F; 0]) [3; 0] false) (MA false [[(5, 5); (0, 3)]; []] [3; 0] false)).
  { split; cbn; try reflexivity. repeat constructor; cbn; try lia; [|apply bits_hold_nil].
    intros i Hi. destruct (Z.lt_ge_cases i 6).
    - assert (Hc : i = 0 \/ i = 1 \/ i = 2 \/ i = 3 \/ i = 4 \/ i = 5) by lia.
      destruct Hc as [-> | [-> | [-> | [-> | [-> | ->]]]]]; reflexivity.
    - rewrite Z.bits_above_log2 by (cbn; lia). symmetry. apply bool_decide_eq_false_2.
      rewrite !in_ranges_cons, in_ranges_nil. unfold in_range. cbn. lia. }
  destruct (mini_receive_refines (replicate 2 (replicate 16 (TE 7 7 7))) true _ _ 0%nat (2 ^ 32 + 64) 9 H) as [(st & conn' & a' & E & E2 & Hc) _].
  - reflexivity.
  - repeat constructor.
  - unfold IMICO_N_PNS. lia.
  - lia.
  - intros _ rs Hrs. injection Hrs as <-. change (u32 (2 ^ 32 + 64)) with 64. split; [unfold TE_BOUND; lia|]. apply small_merge; [cbn; lia|lia].
  - injection E2 as <- <-. exists conn'. split; [exact E|exact Hc].
Defined.

(** C20: From the mini connection to the full one.  A new connection receives
    any sequence of packets in its two spaces, with any numbers for which each step
    satisfies [mini_fits] ([run_fits]: no low 32 bits above 2^32 - 4 and no two
    ranges that join to 256 or 257 packets once the tiny histories are in use; all
    sequences of numbers below 255 are such, [small_run_fits]), and memory for the
    tiny histories or not.  Every call returns, with the statuses of the reference
    run, and the promotion, if its allocations succeed, then copies each space to a
    full history that holds exactly the highest [max] of the ranges that the
    reference run kept (a bit mask has at most 32 ranges, a tiny history 16, so 32 is
    enough fuel) with the arrival time of the largest number. *)
Theorem mini_promotion junk mem allocs pkts max :
  length mem = IMICO_N_PNS -> Forall (fun es => length es = 16%nat) mem ->
  Forall (fun pk : mini_packet => (pk.1.1.1 < IMICO_N_PNS)%nat /\ 0 <= pk.1.1.2) pkts -> run_fits new_abs pkts ->
  2 <= max <= 2 ^ 30 -> Forall (eq true) allocs ->
  exists sts conn a, receive_packets mem new_conn pkts = Some (sts, conn) /\ mini_run new_abs pkts = Some (sts, a)
  /\ length (ma_spaces a) = IMICO_N_PNS
  /\ forall pns rs, ma_spaces a !! pns = Some rs ->
     exists rh, copy_mini_rechist junk 32 allocs conn pns (lsquic_rechist_init true max) = Some (0, rh)
       /\ iterate (S (length rs)) rh = Some (take (Z.to_nat max) rs)
       /\ ma_largest a !! pns = Some (rh_largest_acked_received rh).
Proof.
  intros Lm Hm Hp Hf Hmax Hall. destruct (mini_run_ok mem pkts new_conn new_abs new_conn_holds) as (sts & conn & a & E1 & E2 & Hc);
    try done. exists sts, conn, a. split_and!; try done; [apply Hc|]. intros pns rs Hrs.
  destruct (promotion_ok junk allocs conn a pns rs max Hc Hrs Hmax Hall) as (rh & E & V & Hl). exists rh. split_and!; try done.
  apply iterate_ok; [done|]. rewrite length_take. lia.
Qed.

(** Packets 1 and 70 in the initial space and 0 in the other; at first there is no
    memory for the tiny histories. *)
Lemma mini_promotion_witness :
  exists conn rh, receive_packets (replicate 2 (replicate 16 (TE 7 7 7))) new_conn
      [(0%nat, 1, 5, true); (1%nat, 0, 6, true); (0%nat, 70, 7, false); (0%nat, 70, 8, true); (0%nat, 1, 9, true)]
    = Some ([Recorded; Recorded; Ignored; Recorded; Duplicate], conn)
  /\ copy_mini_rechist (RE 9 9 9) 32 [] conn 0 (lsquic_rechist_init true 10) = Some (0, rh)
  /\ iterate 3 rh = Some [(70, 70); (1, 1)] /\ rh_largest_acked_received rh = 8.
Proof.
  destruct (mini_promotion (RE 9 9 9) (replicate 2 (replicate 16 (TE 7 7 7))) []
    [(0%nat, 1, 5, true); (1%nat, 0, 6, true); (0%nat, 70, 7, false); (0%nat, 70, 8, true); (0%nat, 1, 9, true)] 10) as (sts & conn & a & E1 & E2 & _ & H).
  - reflexivity.
  - repeat constructor.
  - repeat constructor; cbn; lia.
  - apply small_run_fits; repeat constructor; cbn; lia.
  - lia.
  - constructor.
  - vm_compute in E2. injection E2 as <- <-. destruct (H 0%nat [(70, 70); (1, 1)] eq_refl) as (rh & Ec & Ei & El).
    exists conn, rh. split; [exact E1|]. split; [exact Ec|]. split; [exact Ei|]. injection El as El. symmetry. exact El.
Defined.

(** C21: What the mini connection makes of an ACK frame, for every frame whose ranges
    descend.  It is rejected exactly when it covers a number that was never sent, with
    the largest such number.  If all its numbers were sent but it covers a packet out
    of another packet number space than its own, the assertion on the packet's space
    fails ([None]): the spaces share one mask of sent numbers.  Otherwise it removes
    exactly the packets it covers from the list of packets out, adds exactly its numbers
    to the acknowledged ones of the space and restarts the count of handshake
    retransmissions when one of them is new.  The packets out are numbered below 64,
    the limit of the mini connection. *)
Theorem mini_ack_exact s pns ranges :
  is_u 64 (imc_sent_packnos s) -> Forall (fun pk => 0 <= pk.1 <= 63) (imc_packets_out s) ->
  ranges_ok PN_BOUND ranges -> is_Some (imc_acked_packnos s !! pns) ->
  match imico_process_ack_frame s pns ranges with
  | None => (forall p, in_ranges p ranges -> was_sent s p) /\ Exists (fun pk => in_ranges pk.1 ranges /\ pk.2 <> pns) (imc_packets_out s)
  | Some (inl q) => ack_rejected s ranges q
  | Some (inr s') => (forall p, in_ranges p ranges -> was_sent s p) /\ Forall (of_space pns ranges) (imc_packets_out s) /\ ack_accepted s pns ranges s'
  end.
Proof. intros H1 H2 Hok H3. by apply (process_ack_ok s pns ranges H1 H2 PN_BOUND). Qed.

(** Packets 0 to 4 were sent and 0 was acknowledged; 0, 2 and 3 are. *)
Lemma mini_ack_exact_witness :
  imico_process_ack_frame (IMS 31 [1; 0] 5 [(1, 0%nat); (2, 0%nat); (3, 0%nat); (4, 1%nat)]) 0 [(2, 3); (0, 0)]
    = Some (inr (IMS 31 [13; 0] 0 [(1, 0%nat); (4, 1%nat)]))
  /\ (forall p, in_ranges p [(2, 3); (0, 0)] ->
        was_sent (IMS 31 [1; 0] 5 [(1, 0%nat); (2, 0%nat); (3, 0%nat); (4, 1%nat)]) p).
Proof.
  split; [reflexivity|].
  pose proof (mini_ack_exact (IMS 31 [1; 0] 5 [(1, 0%nat); (2, 0%nat); (3, 0%nat); (4, 1%nat)]) 0 [(2, 3); (0, 0)]) as H.
  ospecialize (H _ _ _ _).
  - unfold is_u. cbn. lia.
  - repeat constructor; cbn; lia.
  - cbn. unfold PN_BOUND. lia.
  - eexists. reflexivity.
  - exact (proj1 H).
Defined.

(** A finding. The numbers of the two spaces share one mask, and an ACK frame
    of the Initial space that covers a Handshake packet passes the test for
    numbers never sent; the assertion that the packet belongs to the space then
    fails on what the peer sent. *)
Lemma mini_ack_wrong_space :
  imico_process_ack_frame (IMS 3 [0; 0] 0 [(0, 0%nat); (1, 1%nat)]) 0 [(0, 1)] = None.
Proof. reflexivity. Qed.

(** A finding. The tiny history takes 32-bit numbers and packet numbers have 62
    bits: number 2^32 + 5 is taken for a duplicate of 5. *)
Lemma mini_dup_truncated :
  imico_received_packet_is_dup (IMC (Trechists (replicate 2 (1, TE 5 1 0 :: replicate 15 (TE 0 0 0)))) [1; 1] false)
    0 (2 ^ 32 + 5) = Some true.
Proof. reflexivity. Qed.
