(* ===== verification/Headers.v ===== *)
(** Packet headers of IETF QUIC v1: lsquic_parse_ietf_v1.c (header sizes,
    generation, parsing, the Initial packet check), lsquic_version.c (version
    tags), lsquic_packet_in.c (the version iterator) and the part of
    lsquic_enc_sess_ietf.c that applies header protection, strips it and
    decodes packet numbers.

    A version tag is the list of its four bytes in memory order, which is how
    the code copies it to and from packets.  The mask of the header protection
    comes from a cipher outside the sources: it is an argument. *)
From S2P Require Import Prelude Varint Ranges Frames FramesThms.
Local Open Scope Z_scope.

(** ** Packet numbers *)

Definition iquic_packno_bits2len (b : Z) : Z := b + 1.

(** IQUIC_PACKNO_LEN_1 .. IQUIC_PACKNO_LEN_4 are 0 .. 3; a store to [*p] keeps
    the low eight bits. *)
Definition write_packno (packno bits : Z) : list Z :=
  (if bits =? 3 then [u8 (Z.shiftr packno 24)] else [])
  ++ (if 2 <=? bits then [u8 (Z.shiftr packno 16)] else [])
  ++ (if 1 <=? bits then [u8 (Z.shiftr packno 8)] else [])
  ++ [u8 packno].

Definition ietf_v1_packno_bits2len (bits : Z) : Z := iquic_packno_bits2len bits.

Definition ietf_v1_calc_packno_bits (packno least_unacked n_in_flight : Z) : Z :=
  let delta := u64 (packno - least_unacked) in
  let delta := if delta <? n_in_flight then n_in_flight else delta in
  let delta := u64 (delta * 4) in
  b2z (Z.shiftl 1 8 <=? delta) + b2z (Z.shiftl 1 16 <=? delta) + b2z (Z.shiftl 1 24 <=? delta).

(** [llabs((int64_t) a - (int64_t) b)] *)
Definition llabs_diff (a b : Z) : Z := Z.abs (i64 a - i64 b).

Definition decode_packno (max_packno packno shift : Z) : Z :=
  let epoch_delta := u64 (Z.shiftl 1 shift) in
  let c1 := u64 (Z.land max_packno (u64 (Z.lnot (epoch_delta - 1))) + packno) in
  let c0 := u64 (c1 - epoch_delta) in
  let c2 := u64 (c1 + epoch_delta) in
  let d0 := llabs_diff c0 max_packno in
  let d1 := llabs_diff c1 max_packno in
  let d2 := llabs_diff c2 max_packno in
  let '(cm, dm) := if d1 <? d0 then (c1, d1) else (c0, d0) in
  if d2 <? dm then c2 else cm.

(** ** Header protection *)

(** [dst[i] ^= m] *)
Definition xor_at (i : nat) (m : Z) (dst : list Z) : list Z := alter (fun b => Z.lxor b m) i dst.

(** The bits of the first byte that are protected. *)
Definition hp_first_mask (ql_bits : bool) (b m : Z) : Z :=
  if ql_bits then Z.land (Z.lor 0x7 (Z.shiftl (Z.shiftr b 7) 3)) m
  else Z.land (Z.lor 0xF (Z.shiftl (b2z (Z.land b 0x80 =? 0)) 4)) m.

Definition hp_first (ql_bits : bool) (m : Z) (dst : list Z) : list Z :=
  alter (fun b => Z.lxor b (hp_first_mask ql_bits b m)) 0%nat dst.

(** The [switch] with its fall-throughs: the bytes of the packet number. *)
Definition hp_packno (mask : list Z) (off : nat) (packno_len : Z) (dst : list Z) : list Z :=
  let dst := if packno_len =? 4 then xor_at (off + 3) (nth 4 mask 0) dst else dst in
  let dst := if 3 <=? packno_len then xor_at (off + 2) (nth 3 mask 0) dst else dst in
  let dst := if 2 <=? packno_len then xor_at (off + 1) (nth 2 mask 0) dst else dst in
  xor_at off (nth 1 mask 0) dst.

Definition apply_hp (ql_bits : bool) (dst mask : list Z) (packno_off : nat) (packno_len : Z) : list Z :=
  hp_packno mask packno_off packno_len (hp_first ql_bits (nth 0 mask 0) dst).

(** [apply_hp_immediately]: the mask is made of the sample four bytes behind
    the start of the packet number. *)
Definition SAMPLE_SZ : nat := 16.
Definition sample (dst : list Z) (packno_off : nat) : list Z := take SAMPLE_SZ (drop (packno_off + 4) dst).

Definition apply_hp_immediately (gen_mask : list Z -> list Z) (ql_bits : bool) (dst : list Z)
    (packno_off : nat) (packno_len : Z) : list Z :=
  apply_hp ql_bits dst (gen_mask (sample dst packno_off)) packno_off packno_len.

(** Reading the packet number, the last byte first. *)
Definition read_packno (dst : list Z) (off : nat) (packno_len : Z) : Z :=
  let '(pn, shift) := (0, 0) in
  let '(pn, shift) := if packno_len =? 4 then (Z.lor pn (nth (off + 3) dst 0), shift + 8) else (pn, shift) in
  let '(pn, shift) := if 3 <=? packno_len then (Z.lor pn (Z.shiftl (nth (off + 2) dst 0) shift), shift + 8) else (pn, shift) in
  let '(pn, shift) := if 2 <=? packno_len then (Z.lor pn (Z.shiftl (nth (off + 1) dst 0) shift), shift + 8) else (pn, shift) in
  Z.lor pn (Z.shiftl (nth off dst 0) shift).

(** The bytes with protection removed, the packet number and its length.
    [max_packno] is [esi_max_packno[pns]] if it was set. *)
Definition strip_hp (ql_bits : bool) (mask dst : list Z) (packno_off : nat) (max_packno : option Z)
    : list Z * Z * Z :=
  let dst := hp_first ql_bits (nth 0 mask 0) dst in
  let packno_len := 1 + Z.land (nth 0 dst 0) 3 in
  let dst := hp_packno mask packno_off packno_len dst in
  let packno := read_packno dst packno_off packno_len in
  let packno := match max_packno with
                | Some m => decode_packno m packno (8 * packno_len)
                | None => packno
                end in
  (dst, packno, packno_len).

(** ** Versions *)

Definition N_LSQVER : Z := 7.

Definition version_tags : list (list Z) :=
  [[0x51; 0x30; 0x34; 0x33];      (* LSQVER_043: Q043 *)
   [0x51; 0x30; 0x34; 0x36];      (* LSQVER_046: Q046 *)
   [0x51; 0x30; 0x35; 0x30];      (* LSQVER_050: Q050 *)
   [0xFF; 0; 0; 27];              (* LSQVER_ID27 *)
   [0xFF; 0; 0; 29];              (* LSQVER_ID29 *)
   [0; 0; 0; 1];                  (* LSQVER_I001 *)
   [0xFA; 0xFA; 0xFA; 0xFA]].     (* LSQVER_VERNEG *)

Definition lsquic_ver2tag (version : nat) : list Z :=
  default [0; 0; 0; 0] (version_tags !! version).

(** [-1] is [None]. *)
Definition lsquic_tag2ver (ver_tag : list Z) : option nat :=
  fst <$> list_find (fun t => t = ver_tag) version_tags.

(** The loop of [lsquic_gen_ver_tags] from [n] on; a tag of zero is the error
    of a version the table does not have.  [fuel] bounds [n], which never
    passes 31: at that point every bit has been cleared. *)
Fixpoint gen_ver_tags_loop (fuel : nat) (bufsz : Z) (mask : Z) (n : nat) (p : list Z) : option gres :=
  match fuel with
  | O => None
  | S fuel =>
    if mask =? 0 then Some (GOk p) else
    if negb (Z.land mask (Z.shiftl 1 (Z.of_nat n)) =? 0) then
      if bufsz <? blen p + 4 then Some (GErr (-1)) else
      let tag := lsquic_ver2tag n in
      if bool_decide (tag = [0; 0; 0; 0]) then Some (GErr (-1)) else
      gen_ver_tags_loop fuel bufsz (Z.ldiff mask (Z.shiftl 1 (Z.of_nat n))) (S n) (p ++ tag)
    else gen_ver_tags_loop fuel bufsz mask (S n) p
  end.

Definition lsquic_gen_ver_tags (bufsz version_bitmask : Z) : option gres :=
  gen_ver_tags_loop 33 bufsz version_bitmask 0 [].

(** ** Outgoing packets *)

Inductive header_type := HETY_NOT_SET | HETY_VERNEG | HETY_INITIAL | HETY_RETRY | HETY_HANDSHAKE | HETY_0RTT.

#[export] Instance header_type_eq_dec : EqDecision header_type.
Proof. solve_decision. Defined.

Definition POBIT_SHIFT : Z := 5.
Definition PO_CONN_ID : Z := Z.shiftl 1 9.
Definition PO_SPIN_BIT : Z := Z.shiftl 1 30.
Definition POKP_SHIFT : Z := 3.
Definition POL_SQUARE_BIT : Z := Z.shiftl 1 7.
Definition POL_LOSS_BIT : Z := Z.shiftl 1 8.
Definition QUIC_BIT : Z := 0x40.

(** The fields of [struct lsquic_packet_out] the header is made of;
    [po_dcid] is [po_path->np_dcid], [po_token] holds [po_token_len] bytes. *)
Record packet_out := PO {
  po_flags : Z;
  po_lflags : Z;
  po_packno : Z;
  po_header_type : header_type;
  po_dcid : list Z;
  po_token : list Z;
  po_data_sz : Z
}.

(** The fields of [struct lsquic_conn]: the source CID, the version, the flag
    LSCONN_HANDSHAKE_DONE and the length of the authentication tag. *)
Record conn := Conn {
  cn_scid : list Z;
  cn_version : nat;
  cn_handshake_done : bool;
  esf_tag_len : Z
}.

Definition lsquic_packet_out_packno_bits (p : packet_out) : Z :=
  Z.land (Z.shiftr (po_flags p) POBIT_SHIFT) 0x3.
Definition lsquic_packet_out_set_packno_bits (flags b : Z) : Z :=
  Z.lor (Z.ldiff flags (Z.shiftl 0x3 POBIT_SHIFT)) (Z.shiftl (Z.land b 0x3) POBIT_SHIFT).
Definition lsquic_packet_out_spin_bit (p : packet_out) : Z := b2z (has_flag (po_flags p) PO_SPIN_BIT).
Definition lsquic_packet_out_square_bit (p : packet_out) : Z := b2z (has_flag (po_lflags p) POL_SQUARE_BIT).
Definition lsquic_packet_out_loss_bit (p : packet_out) : Z := b2z (has_flag (po_lflags p) POL_LOSS_BIT).
Definition lsquic_packet_out_kp (p : packet_out) : Z := Z.land (Z.shiftr (po_lflags p) POKP_SHIFT) 1.

(** ** Header sizes *)

Definition ietf_v1_packout_header_size_long_by_flags (c : conn) (ty : header_type) (flags dcid_len : Z) : Z :=
  1 + 4 + 1 + dcid_len + 1 + blen (cn_scid c) + b2z (bool_decide (ty = HETY_INITIAL)) + 2
  + iquic_packno_bits2len (Z.land (Z.shiftr flags POBIT_SHIFT) 0x3).

Definition ietf_v1_packout_header_size_long_by_packet (c : conn) (p : packet_out) : Z :=
  1 + 4 + 1 + blen (po_dcid p) + 1 + blen (cn_scid c)
  + (if bool_decide (po_header_type p = HETY_INITIAL)
     then vint_size (blen (po_token p)) + blen (po_token p) else 0)
  + 2 + iquic_packno_bits2len (lsquic_packet_out_packno_bits p).

Definition ietf_v1_packout_header_size_short (flags dcid_len : Z) : Z :=
  1 + (if has_flag flags PO_CONN_ID then dcid_len else 0)
  + iquic_packno_bits2len (Z.land (Z.shiftr flags POBIT_SHIFT) 0x3).

Definition ietf_v1_packout_max_header_size (c : conn) (flags dcid_len : Z) (ty : header_type) : Z :=
  if cn_handshake_done c && bool_decide (ty = HETY_NOT_SET)
  then ietf_v1_packout_header_size_short flags dcid_len
  else ietf_v1_packout_header_size_long_by_flags c ty flags dcid_len.

Definition ietf_v1_packout_size (c : conn) (p : packet_out) : Z :=
  (if cn_handshake_done c && bool_decide (po_header_type p = HETY_NOT_SET)
   then ietf_v1_packout_header_size_short (po_flags p) (blen (po_dcid p))
   else ietf_v1_packout_header_size_long_by_packet c p)
  + po_data_sz p + esf_tag_len c.

(** ** Header generation *)

(** [header_type_to_bin]; the entries of the types it does not list are 0. *)
Definition header_type_to_bin (ty : header_type) : Z :=
  match ty with HETY_INITIAL => 0x0 | HETY_0RTT => 0x1 | HETY_HANDSHAKE => 0x2 | HETY_RETRY => 0x3 | _ => 0 end.

(** The header, [*packno_off_p] and [*packno_len_p]; [None] is -1. *)
Definition gen_long_pkt_header (c : conn) (p : packet_out) (bufsz : Z) : option (list Z * Z * Z) :=
  if bufsz <? ietf_v1_packout_header_size_long_by_packet c p then None else
  let packno_bits := lsquic_packet_out_packno_bits p in
  let token := if bool_decide (po_header_type p = HETY_INITIAL)
               then vint (blen (po_token p)) ++ po_token p else [] in
  let payload_len := u32 (po_data_sz p + esf_tag_len c + iquic_packno_bits2len packno_bits) in
  let head :=
    [Z.lor (Z.lor 0xC0 (Z.shiftl (header_type_to_bin (po_header_type p)) 4)) packno_bits]
    ++ lsquic_ver2tag (cn_version c)
    ++ [blen (po_dcid p)] ++ po_dcid p ++ [blen (cn_scid c)] ++ cn_scid c
    ++ token ++ vint_write payload_len 1 2 in
  Some (head ++ write_packno (po_packno p) packno_bits, blen head, iquic_packno_bits2len packno_bits).

Definition gen_short_pkt_header (p : packet_out) (bufsz : Z) : option (list Z * Z * Z) :=
  let packno_bits := lsquic_packet_out_packno_bits p in
  let packno_len := iquic_packno_bits2len packno_bits in
  let cid := if has_flag (po_flags p) PO_CONN_ID then po_dcid p else [] in
  if bufsz <? 1 + blen cid + packno_len then None else
  let first := Z.lor (Z.lor (Z.lor (Z.lor (Z.lor QUIC_BIT
                 (Z.shiftl (lsquic_packet_out_spin_bit p) 5))
                 (Z.shiftl (lsquic_packet_out_square_bit p) 4))
                 (Z.shiftl (lsquic_packet_out_loss_bit p) 3))
                 (Z.shiftl (lsquic_packet_out_kp p) 2)) packno_bits in
  Some ([first] ++ cid ++ write_packno (po_packno p) packno_bits, 1 + blen cid, packno_len).

Definition ietf_v1_gen_reg_pkt_header (c : conn) (p : packet_out) (bufsz : Z) : option (list Z * Z * Z) :=
  if bool_decide (po_header_type p = HETY_NOT_SET) then gen_short_pkt_header p bufsz
  else gen_long_pkt_header c p bufsz.

(** ** Incoming packets *)

Definition PI_CONN_ID : Z := Z.shiftl 1 2.
Definition PIBIT_SPIN_SHIFT : Z := 11.
Definition PIBIT_BITS_SHIFT : Z := 12.
Definition MIN_INITIAL_DCID_LEN : Z := 8.
Definition GQUIC_CID_LEN : Z := 8.
Definition IQUIC_INVALID_PACKNO : Z := Z.shiftl 1 62.

(** The fields of [struct lsquic_packet_in] that parsing sets; offsets are
    relative to [pi_data], which is the list of bytes [pi_data].  Widths:
    sizes are 16-bit, offsets and CID lengths 8-bit. *)
Record packet_in := PIn {
  pi_data : list Z;
  pi_flags : Z;
  pi_header_type : header_type;
  pi_dcid : list Z;
  pi_scid_off : Z;
  pi_scid_len : Z;
  pi_token : Z;
  pi_token_size : Z;
  pi_quic_ver : Z;
  pi_header_sz : Z;
  pi_data_sz : Z;
  pi_packno : Z
}.

(** [packin_parse_state]: the offset [pps_p] ([None] is NULL) and [pps_nbytes]. *)
Definition parse_state : Type := (option Z * Z)%type.

(** A packet as the engine hands it over: only [pi_data] is set. *)
Definition fresh_packet (data : list Z) : packet_in := PIn data 0 HETY_NOT_SET [] 0 0 0 0 0 0 0 0.

Definition bits2ht (b : Z) : header_type :=
  if b =? 0 then HETY_INITIAL else if b =? 1 then HETY_0RTT
  else if b =? 2 then HETY_HANDSHAKE else HETY_RETRY.

(** Parsing can fail ([Some None], the value -1) or read behind the packet
    ([None]).  What a failing call has already stored in the packet is not part
    of the result: its callers drop the packet. *)
Definition long_res : Type := option (option (packet_in * parse_state)).

(** The end of [lsquic_ietf_v1_parse_packet_in_long_begin]. *)
Definition long_end (pk : packet_in) (p length : Z) (st : parse_state) : long_res :=
  Some (Some (PIn (pi_data pk) (pi_flags pk) (pi_header_type pk) (pi_dcid pk) (pi_scid_off pk)
          (pi_scid_len pk) (pi_token pk) (pi_token_size pk) (pi_quic_ver pk)
          (u16 p) (u16 length) IQUIC_INVALID_PACKNO, st)).

Definition with_token (pk : packet_in) (token token_size : Z) : packet_in :=
  PIn (pi_data pk) (pi_flags pk) (pi_header_type pk) (pi_dcid pk) (pi_scid_off pk) (pi_scid_len pk)
      (u8 token) (u16 token_size) (pi_quic_ver pk) (pi_header_sz pk) (pi_data_sz pk) (pi_packno pk).

Definition with_quic_ver (pk : packet_in) (v : Z) : packet_in :=
  PIn (pi_data pk) (pi_flags pk) (pi_header_type pk) (pi_dcid pk) (pi_scid_off pk) (pi_scid_len pk)
      (pi_token pk) (pi_token_size pk) (u8 v) (pi_header_sz pk) (pi_data_sz pk) (pi_packno pk).

(** The case of Handshake and 0-RTT packets, and the rest of Initial ones;
    [rest] is what is left of the data from [p] on. *)
Definition long_payload (pk : packet_in) (length p : Z) (rest : list Z) : long_res :=
  if length <=? p then Some None else
  match lsquic_varint_read rest with
  | None => Some None
  | Some (r, payload_len) =>
    let p := p + r in
    if length <? p + payload_len then Some None else
    if length - p <? 4 then Some None else
    long_end (with_quic_ver pk 1) p (p + payload_len) (Some (p - r), r)
  end.

Definition long_initial (pk : packet_in) (is_server : bool) (dcil length p : Z) (rest : list Z) : long_res :=
  if is_server && (dcil <? MIN_INITIAL_DCID_LEN) then Some None else
  match lsquic_varint_read rest with
  | None => Some None
  | Some (r, token_len) =>
    if negb (token_len =? 0) && negb is_server then Some None else
    let p := p + r in
    let rest := drop (Z.to_nat r) rest in
    if token_len =? 0 then long_payload pk length p rest else
    if Z.shiftl 1 16 <=? token_len then Some None else
    if length <? p + token_len then Some None else
    long_payload (with_token pk p token_len) length (p + token_len) (drop (Z.to_nat token_len) rest)
  end.

Definition long_retry (pk : packet_in) (length p : Z) : long_res :=
  if length <=? p then Some None else
  if length <? p + 1 + 16 then Some None else
  long_end (with_quic_ver (with_token pk p (length - p - 16)) 1) length length (None, 0).

Definition long_verneg (pk : packet_in) (length p : Z) : long_res :=
  if (length <=? p) || negb (Z.land 3 (length - p) =? 0) then Some None else
  long_end (with_quic_ver pk p) length length (None, 0).

(** The source is built without LSQUIC_QIR, which nothing defines. *)
Definition lsquic_ietf_v1_parse_packet_in_long_begin (pk : packet_in) (is_server : bool) : long_res :=
  let length := blen (pi_data pk) in
  if length <? 6 then Some None else
  match pi_data pk with
  | first_byte :: t0 :: t1 :: t2 :: t3 :: dcil :: rest =>
    let header_type := if bool_decide ([t0; t1; t2; t3] = [0; 0; 0; 0]) then HETY_VERNEG
                       else bits2ht (Z.land (Z.shiftr first_byte 4) 3) in
    let p := 6 in
    if (length <=? p + dcil) || (MAX_CID_LEN <? dcil) then Some None else
    let dcid := take (Z.to_nat dcil) rest in
    let flags := if dcil =? 0 then pi_flags pk else Z.lor (pi_flags pk) PI_CONN_ID in
    let p := p + dcil in
    match drop (Z.to_nat dcil) rest with
    | [] => None
    | scil :: rest =>
      let p := p + 1 in
      if (length <? p + scil) || (MAX_CID_LEN <? scil) then Some None else
      let scid_off := if scil =? 0 then pi_scid_off pk else u8 p in
      let pk := PIn (pi_data pk) flags header_type dcid scid_off scil (pi_token pk) (pi_token_size pk)
                    (pi_quic_ver pk) (pi_header_sz pk) (pi_data_sz pk) (pi_packno pk) in
      let p := p + scil in
      let rest := drop (Z.to_nat scil) rest in
      match header_type with
      | HETY_INITIAL => long_initial pk is_server dcil length p rest
      | HETY_HANDSHAKE | HETY_0RTT => long_payload pk length p rest
      | HETY_RETRY => long_retry pk length p
      | _ => long_verneg pk length p
      end
    end
  | _ => None
  end.

(** [None] is -1; the data is not empty. *)
Definition lsquic_ietf_v1_parse_packet_in_short_begin (pk : packet_in) (cid_len : Z)
    : option (packet_in * parse_state) :=
  let length := blen (pi_data pk) in
  let byte := nth 0 (pi_data pk) 0 in
  let header_sz := if cid_len =? 0 then 1 else u32 (1 + cid_len) in
  if negb (cid_len =? 0) && (length <? header_sz) then None else
  let dcid := if cid_len =? 0 then pi_dcid pk else take (Z.to_nat cid_len) (tail (pi_data pk)) in
  let flags := if cid_len =? 0 then pi_flags pk else Z.lor (pi_flags pk) PI_CONN_ID in
  let flags := Z.lor flags (Z.shiftl (b2z (0 <? Z.land byte 0x20)) PIBIT_SPIN_SHIFT) in
  let flags := Z.lor flags (Z.shiftl (Z.land byte 3) PIBIT_BITS_SHIFT) in
  Some (PIn (pi_data pk) flags (pi_header_type pk) dcid (pi_scid_off pk) (pi_scid_len pk) (pi_token pk)
          (pi_token_size pk) 0 (u16 header_sz) (u16 length) (pi_packno pk),
        (Some header_sz, 1 + Z.land byte 3)).

Definition ietf_v1_parse_packet_in_finish (pk : packet_in) : packet_in :=
  PIn (pi_data pk) (pi_flags pk) (pi_header_type pk) (pi_dcid pk) (pi_scid_off pk) (pi_scid_len pk)
      (pi_token pk) (pi_token_size pk) (pi_quic_ver pk) (pi_header_sz pk) (pi_data_sz pk) IQUIC_INVALID_PACKNO.

Definition lsquic_scid_from_packet_in (pk : packet_in) : list Z :=
  take (Z.to_nat (pi_scid_len pk)) (drop (Z.to_nat (pi_scid_off pk)) (pi_data pk)).

(** ** Version negotiation *)

(** [lsquic_packet_in_ver_next]: the tag and the new offset; the assertion at
    the end of the list fails with [None]. *)
Definition lsquic_packet_in_ver_next (pk : packet_in) (off : Z) : option (option (list Z) * Z) :=
  if off + 4 <=? pi_header_sz pk
  then Some (Some (take 4 (drop (Z.to_nat off) (pi_data pk))), off + 4)
  else if pi_header_sz pk =? off then Some (None, off) else None.

Definition lsquic_packet_in_ver_first (pk : packet_in) : option (option (list Z) * Z) :=
  lsquic_packet_in_ver_next pk (pi_quic_ver pk).

(** The versions of a packet, as a client walks them. *)
Fixpoint ver_walk (fuel : nat) (pk : packet_in) (off : Z) : option (list (list Z)) :=
  match fuel with
  | O => None
  | S fuel =>
    '(tag, off) ← lsquic_packet_in_ver_next pk off;
    match tag with
    | None => Some []
    | Some t => ts ← ver_walk fuel pk off; Some (t :: ts)
    end
  end.

Fixpoint popcount_bits (k : nat) (v : Z) : Z :=
  match k with
  | O => 0
  | S k => popcount_bits k v + b2z (negb (Z.land v (Z.shiftl 1 (Z.of_nat k)) =? 0))
  end.

Definition popcount (v : Z) : Z := popcount_bits 32 v.

Definition lsquic_ietf_v1_gen_ver_nego_pkt (bufsz : Z) (scid dcid : list Z) (versions rand : Z) : option gres :=
  let need := 1 + 4 + 1 + blen dcid + 1 + blen scid + popcount versions * 4 in
  if bufsz <? need then Some (GErr (-1)) else
  let head := [u8 (Z.lor (Z.lor 0x80 QUIC_BIT) rand)] ++ [0; 0; 0; 0]
              ++ [blen dcid] ++ dcid ++ [blen scid] ++ scid in
  r ← lsquic_gen_ver_tags (bufsz - 1 - 4 - 2 - blen dcid - blen scid) versions;
  match r with
  | GErr _ => Some (GErr (-1))
  | GOk tags => if blen tags =? popcount versions * 4 then Some (GOk (head ++ tags)) else None
  end.

(** ** The check on a server's first packet *)

(** The code from the label [read_token] on. *)
Definition hs_read_token (length p : Z) (rest : list Z) : bool :=
  match lsquic_varint_read rest with
  | None => false
  | Some (r, token_len) =>
    let p := p + r + token_len in
    let rest := drop (Z.to_nat token_len) (drop (Z.to_nat r) rest) in
    if length <=? p then false else
    match lsquic_varint_read rest with
    | None => false
    | Some (r, payload_len) =>
      let p := p + r in
      if length <? p + payload_len then false else negb (length - p <? 4)
    end
  end.

(** The tag, if the packet is valid; the outer option is undefined behaviour. *)
Definition lsquic_is_valid_ietf_v1_or_Q046plus_hs_packet (buf : list Z) : option (option (list Z)) :=
  let length := blen buf in
  if length <? 6 then Some None else
  match buf with
  | first_byte :: t0 :: t1 :: t2 :: t3 :: b :: rest =>
    let tag := [t0; t1; t2; t3] in
    let ret (ok : bool) := if ok then Some tag else None in
    if negb (bool_decide (bits2ht (Z.land (Z.shiftr first_byte 4) 3) = HETY_INITIAL)) then Some None else
    if bool_decide (tag = [0; 0; 0; 0]) then Some None else
    if bool_decide (tag = lsquic_ver2tag 1) then
      let dcil := Z.shiftr b 4 in
      let dcil := if dcil =? 0 then 0 else dcil + 3 in
      let scil := Z.land b 0xF in
      let scil := if scil =? 0 then 0 else scil + 3 in
      if negb ((dcil =? GQUIC_CID_LEN) && (scil =? 0)) then Some None else
      Some (ret (negb (length - 6 <? dcil + scil + Z.land first_byte 3)))
    else if bool_decide (tag = lsquic_ver2tag 2) then
      if negb (b =? 8) then Some None else
      if length <=? 6 + b + 1 then Some None else
      match drop (Z.to_nat b) rest with
      | [] => None
      | scil :: rest => if negb (scil =? 0) then Some None else Some (ret (hs_read_token length (6 + b + 1) rest))
      end
    else
      if (b <? MIN_INITIAL_DCID_LEN) || (MAX_CID_LEN <? b) then Some None else
      if length <=? 6 + b then Some None else
      match drop (Z.to_nat b) rest with
      | [] => None
      | scil :: rest =>
        let p := 6 + b + 1 in
        if (length <? p + scil) || (MAX_CID_LEN <? scil) then Some None else
        Some (ret (hs_read_token length (p + scil) (drop (Z.to_nat scil) rest)))
      end
  | _ => None
  end.
