(* ===== verification/HeadersThms.v ===== *)
(** Correctness of the packet headers of Headers.v: packet numbers survive
    truncation, header protection and reconstruction; long headers and version
    negotiation packets round trip; the parser of long headers is safe on
    arbitrary bytes and agrees with the server's check of Initial packets. *)
From S2P Require Import Prelude Varint Ranges Frames FramesThms Headers.
Local Open Scope Z_scope.

(** * Packet numbers *)

Lemma wraps_wrapu w z : wraps w (wrapu w z) = wraps w z.
Proof. unfold wraps, wrapu. by rewrite Zmod_mod. Qed.

Lemma wraps_id w z : 0 < w -> - 2 ^ (w - 1) <= z < 2 ^ (w - 1) -> wraps w z = z.
Proof.
  intros Hw Hz. destruct (Z.le_gt_cases 0 z); [apply wraps_small; lia|]. unfold wraps.
  assert (2 ^ w = 2 * 2 ^ (w - 1)) as E by (rewrite <- Z.pow_succ_r by lia; f_equal; lia).
  assert (z mod 2 ^ w = z + 2 ^ w) as ->.
  { symmetry. apply (Z.mod_unique_pos _ _ (-1)); lia. }
  destruct (Z.ltb_spec (z + 2 ^ w) (2 ^ (w - 1))); lia.
Qed.

Lemma llabs_diff_ok a b : - 2 ^ 63 <= a < 2 ^ 63 -> 0 <= b < 2 ^ 63 -> llabs_diff (u64 a) b = Z.abs (a - b).
Proof. intros Ha Hb. unfold llabs_diff. rewrite wraps_wrapu, !wraps_id by lia. done. Qed.

Lemma land_epoch m s : 0 <= m < 2 ^ 64 -> 0 <= s < 64 ->
  Z.land m (u64 (Z.lnot (u64 (Z.shiftl 1 s) - 1))) = m - m mod 2 ^ s.
Proof.
  intros Hm Hs. pose proof (Z.pow_lt_mono_r 2 s 64 ltac:(lia) ltac:(lia) ltac:(lia)).
  pose proof (Z.pow_pos_nonneg 2 s ltac:(lia) ltac:(lia)).
  rewrite Z.shiftl_1_l, (wrapu_id 64 (2 ^ s)) by (unfold is_u; lia).
  replace (2 ^ s - 1) with (Z.ones s) by (rewrite Z.ones_equiv; lia).
  unfold u64, wrapu. rewrite <- Z.land_ones by lia.
  rewrite (Z.land_comm (Z.lnot _)), Z.land_assoc, Z.land_ones, Z.mod_small by lia.
  rewrite <- Z.ldiff_land, Z.ldiff_ones_r, Z.shiftr_div_pow2, Z.shiftl_mul_pow2 by lia.
  pose proof (Z.div_mod m (2 ^ s)). lia.
Qed.

(** A packet number within half an epoch of the largest one received is
    recovered from its low bits. *)
Lemma decode_packno_ok max packno s :
  0 <= max < 2 ^ 62 -> 0 <= packno < 2 ^ 62 -> 0 < s <= 32 ->
  - 2 ^ (s - 1) < packno - max < 2 ^ (s - 1) ->
  decode_packno max (packno mod 2 ^ s) s = packno.
Proof.
  intros Hmax Hpn Hs Hd. unfold decode_packno. rewrite land_epoch by lia.
  assert (2 ^ s = 2 * 2 ^ (s - 1)) as E by (rewrite <- Z.pow_succ_r by lia; f_equal; lia).
  pose proof (Z.pow_pos_nonneg 2 (s - 1) ltac:(lia) ltac:(lia)).
  assert (2 ^ s <= 2 ^ 32) as Hle by (apply Z.pow_le_mono_r; lia).
  rewrite Z.shiftl_1_l, (wrapu_id 64 (2 ^ s)) by (unfold is_u; lia).
  pose proof (Z.mod_pos_bound max (2 ^ s) ltac:(lia)) as Hmm.
  pose proof (Z.mod_pos_bound packno (2 ^ s) ltac:(lia)) as Hpm.
  pose proof (Z.div_mod max (2 ^ s) ltac:(lia)) as Em.
  pose proof (Z.div_mod packno (2 ^ s) ltac:(lia)) as Ep.
  assert (exists k, -1 <= k <= 1 /\ packno / 2 ^ s = max / 2 ^ s + k) as (k & Hk & Ek).
  { exists (packno / 2 ^ s - max / 2 ^ s). split; [|lia]. set (E1 := 2 ^ s) in *. clearbody E1. nia. }
  rewrite wrapu_sub_l, wrapu_add_l.
  set (c := max - max mod 2 ^ s + packno mod 2 ^ s).
  assert (packno = c + k * 2 ^ s) as Hpc by (unfold c; nia).
  assert (0 <= c < 2 ^ 63) as Hc
    by (pose proof (Z.mod_le max (2 ^ s) ltac:(lia) ltac:(lia)); unfold c; lia).
  rewrite !llabs_diff_ok by lia.
  assert (0 < 2 ^ (s - 1)) by lia. clearbody c. set (E1 := 2 ^ s) in *. clearbody E1.
  assert (k = -1 \/ k = 0 \/ k = 1) as [-> | [-> | -> ]] by lia;
    destruct (Z.ltb_spec (Z.abs (c - max)) (Z.abs (c - E1 - max)));
    match goal with |- (if ?a <? ?b then _ else _) = _ => destruct (Z.ltb_spec a b) end;
    try (rewrite wrapu_id by (unfold is_u; lia)); lia.
Qed.

(** The width the sender picks leaves room for twice the packets in flight. *)
Lemma calc_packno_bits_ok packno least n :
  0 <= least <= packno -> packno < 2 ^ 62 -> 0 <= n < 2 ^ 30 -> packno - least < 2 ^ 30 ->
  let b := ietf_v1_calc_packno_bits packno least n in
  0 <= b <= 3 /\ 4 * Z.max n (packno - least) < 2 ^ (8 * (b + 1)).
Proof.
  intros Hl Hp Hn Hd. unfold ietf_v1_calc_packno_bits.
  rewrite (wrapu_id 64 (packno - least)) by (unfold is_u; lia).
  assert ((if packno - least <? n then n else packno - least) = Z.max n (packno - least)) as ->.
  { destruct (Z.ltb_spec (packno - least) n); lia. }
  set (d := Z.max n (packno - least)). assert (0 <= d < 2 ^ 30) by lia. clearbody d.
  rewrite wrapu_id by (unfold is_u; lia). rewrite !Z.shiftl_1_l.
  destruct (Z.leb_spec (2 ^ 8) (d * 4)), (Z.leb_spec (2 ^ 16) (d * 4)), (Z.leb_spec (2 ^ 24) (d * 4));
    cbn [b2z]; try lia; (split; [lia|]);
    match goal with |- _ < 2 ^ ?e => let v := eval vm_compute in e in change e with v end; lia.
Qed.

Lemma write_packno_be packno bits : 0 <= bits <= 3 ->
  write_packno packno bits = be_bytes (Z.to_nat (bits + 1)) packno.
Proof.
  intros Hb. assert (bits = 0 \/ bits = 1 \/ bits = 2 \/ bits = 3) as [-> | [-> | [-> | -> ]]] by lia;
    unfold write_packno; cbn [Z.eqb Z.leb Z.compare app Pos.eqb Pos.compare Pos.compare_cont];
    match goal with |- _ = be_bytes ?n _ => let m := eval vm_compute in n in change n with m end;
    cbn [be_bytes]; rewrite !land_255; by rewrite ?Z.shiftr_0_r.
Qed.

(** ** Reading the bytes of a packet number *)

Lemma nth_mid (pre l post : list Z) i :
  (i < length l)%nat -> nth (length pre + i) (pre ++ l ++ post) 0 = nth i l 0.
Proof. intros Hi. rewrite app_nth2_plus. by apply app_nth1. Qed.

Lemma lor_acc x a n : 0 <= n -> 0 <= x < 2 ^ n -> Z.lor x (Z.shiftl a n) = a * 2 ^ n + x.
Proof. intros. rewrite Z.lor_comm. by apply lor_shiftl_add. Qed.

Lemma lor_bytes2 b1 b0 : byte_ok b0 -> Z.lor b0 (Z.shiftl b1 8) = b1 * 256 + b0.
Proof. intros. by apply lor_acc. Qed.

Lemma lor_bytes3 b2 b1 b0 : byte_ok b0 -> byte_ok b1 ->
  Z.lor (Z.lor b0 (Z.shiftl b1 8)) (Z.shiftl b2 16) = b2 * 65536 + b1 * 256 + b0.
Proof. unfold byte_ok. intros. rewrite lor_bytes2, lor_acc by (unfold byte_ok; lia). lia. Qed.

Lemma lor_bytes4 b3 b2 b1 b0 : byte_ok b0 -> byte_ok b1 -> byte_ok b2 ->
  Z.lor (Z.lor (Z.lor b0 (Z.shiftl b1 8)) (Z.shiftl b2 16)) (Z.shiftl b3 24)
  = b3 * 16777216 + b2 * 65536 + b1 * 256 + b0.
Proof. unfold byte_ok. intros. rewrite lor_bytes3, lor_acc by (unfold byte_ok; lia). lia. Qed.

Lemma read_packno_ok pre l post bits :
  0 <= bits <= 3 -> length l = Z.to_nat (bits + 1) -> Forall byte_ok l ->
  read_packno (pre ++ l ++ post) (length pre) (iquic_packno_bits2len bits) = be_val l.
Proof.
  intros Hb Hl Hok. unfold read_packno, iquic_packno_bits2len.
  assert (forall i, (i < length l)%nat -> nth (length pre + i) (pre ++ l ++ post) 0 = nth i l 0) as Hn
    by (intros; by apply nth_mid).
  pose proof (Hn 0%nat ltac:(lia)) as Hn0. rewrite Nat.add_0_r in Hn0. rewrite Hn0.
  assert (bits = 0 \/ bits = 1 \/ bits = 2 \/ bits = 3) as [-> | [-> | [-> | -> ]]] by lia;
    cbv beta iota zeta delta [Z.add Z.eqb Z.leb Z.compare Pos.eqb Pos.add Pos.succ Pos.compare Pos.compare_cont];
    rewrite ?Hn by (rewrite Hl; vm_compute; lia);
    repeat (destruct l as [|? l]; try (cbn in Hl; lia));
    repeat match goal with H : Forall _ (_ :: _) |- _ => apply Forall_cons in H as [? H] end;
    cbn [nth]; rewrite !Z.lor_0_l;
    rewrite ?Z.shiftl_0_r, ?lor_bytes4, ?lor_bytes3, ?lor_bytes2 by done;
    unfold be_val; cbn [fold_left]; lia.
Qed.

(** ** Header protection is removed by applying it again *)

(** What the byte at [j] is changed by. *)
Definition pn_mask (mask : list Z) (off : nat) (len : Z) (j : nat) : Z :=
  if decide (j = off) then nth 1 mask 0
  else if decide (j = (off + 1)%nat /\ 2 <= len) then nth 2 mask 0
  else if decide (j = (off + 2)%nat /\ 3 <= len) then nth 3 mask 0
  else if decide (j = (off + 3)%nat /\ len = 4) then nth 4 mask 0 else 0.

Lemma xor_at_lookup i m dst j :
  xor_at i m dst !! j = (fun b => Z.lxor b (if decide (j = i) then m else 0)) <$> dst !! j.
Proof.
  unfold xor_at. case_decide as E; [subst; by rewrite list_lookup_alter_eq|].
  rewrite list_lookup_alter_ne by done. destruct (dst !! j); cbn; [by rewrite Z.lxor_0_r|done].
Qed.

Lemma hp_packno_lookup mask off len dst j :
  hp_packno mask off len dst !! j = (fun b => Z.lxor b (pn_mask mask off len j)) <$> dst !! j.
Proof.
  unfold hp_packno, pn_mask.
  destruct (Z.eqb_spec len 4), (Z.leb_spec 3 len), (Z.leb_spec 2 len); try lia; cbv zeta;
    rewrite !xor_at_lookup; destruct (dst !! j); cbn; try done; f_equal;
    repeat case_decide; try lia; by rewrite ?Z.lxor_0_r.
Qed.

Lemma hp_packno_twice mask off len dst : hp_packno mask off len (hp_packno mask off len dst) = dst.
Proof.
  apply list_eq. intros j. rewrite !hp_packno_lookup. destruct (dst !! j); cbn; [|done].
  by rewrite Z.lxor_assoc, Z.lxor_nilpotent, Z.lxor_0_r.
Qed.

Lemma drop_hp_packno mask off len dst : drop (off + 4) (hp_packno mask off len dst) = drop (off + 4) dst.
Proof.
  apply list_eq. intros j. rewrite !lookup_drop, hp_packno_lookup. unfold pn_mask.
  repeat case_decide; try lia. destruct (dst !! _); cbn; [by rewrite Z.lxor_0_r|done].
Qed.

Lemma hp_first_lookup q m dst j :
  hp_first q m dst !! j
  = (fun b => if decide (j = 0%nat) then Z.lxor b (hp_first_mask q b m) else b) <$> dst !! j.
Proof.
  unfold hp_first. case_decide as E; [subst; by rewrite list_lookup_alter_eq|].
  rewrite list_lookup_alter_ne by done. by destruct (dst !! j).
Qed.

Lemma hp_first_packno q m mask off len dst : (0 < off)%nat ->
  hp_first q m (hp_packno mask off len dst) = hp_packno mask off len (hp_first q m dst).
Proof.
  intros Hoff. apply list_eq. intros j. rewrite hp_first_lookup, !hp_packno_lookup, hp_first_lookup.
  destruct (dst !! j) as [b|]; cbn; [|done]. case_decide as Hj; [|done]. subst j.
  unfold pn_mask. repeat case_decide; try lia. by rewrite !Z.lxor_0_r.
Qed.

(** A decidable property of bytes, by going through all of them. *)
Definition bytes_all (P : Z -> bool) : bool := forallb P (map Z.of_nat (seq 0 256)).

Lemma bytes_all_ok P b : bytes_all P = true -> byte_ok b -> P b = true.
Proof.
  intros H Hb. unfold bytes_all in H. rewrite forallb_forall in H. apply H.
  apply in_map_iff. exists (Z.to_nat b). unfold byte_ok in Hb. split; [lia|]. apply in_seq. lia.
Qed.

(** The mask depends only on bit 7, which it never touches: applying it twice
    gives the byte back. *)
Lemma hp_first_byte q b m : byte_ok b -> byte_ok m ->
  let b' := Z.lxor b (hp_first_mask q b m) in Z.lxor b' (hp_first_mask q b' m) = b.
Proof.
  intros Hb Hm. apply Z.eqb_eq.
  apply (bytes_all_ok (fun m => let b' := Z.lxor b (hp_first_mask q b m) in
    Z.lxor b' (hp_first_mask q b' m) =? b)); [|done].
  apply (bytes_all_ok (fun b => bytes_all (fun m => let b' := Z.lxor b (hp_first_mask q b m) in
    Z.lxor b' (hp_first_mask q b' m) =? b))); [|done].
  destruct q; vm_compute; reflexivity.
Qed.

Lemma hp_first_twice q m dst : Forall byte_ok dst -> byte_ok m -> hp_first q m (hp_first q m dst) = dst.
Proof.
  intros Hd Hm. apply list_eq. intros j. rewrite !hp_first_lookup.
  destruct (dst !! j) as [b|] eqn:E; cbn; [|done]. case_decide; [|done]. f_equal.
  apply hp_first_byte; [|done]. by eapply Forall_lookup_1.
Qed.

(** Stripping recovers the bytes and the packet number, whatever the mask. *)
Lemma strip_apply_hp q mask dst off max :
  Forall byte_ok dst -> Forall byte_ok mask -> (0 < off)%nat ->
  let len := 1 + Z.land (nth 0 dst 0) 3 in
  strip_hp q mask (apply_hp q dst mask off len) off max
  = (dst, match max with
          | Some m => decode_packno m (read_packno dst off len) (8 * len)
          | None => read_packno dst off len
          end, len).
Proof.
  intros Hd Hm Hoff len. unfold strip_hp, apply_hp.
  assert (byte_ok (nth 0 mask 0)) as Hm0.
  { rewrite nth_lookup. destruct (mask !! 0%nat) as [b|] eqn:E; cbn; [|unfold byte_ok; lia].
    by eapply Forall_lookup_1. }
  rewrite hp_first_packno, hp_first_twice by done.
  assert (nth 0 (hp_packno mask off len dst) 0 = nth 0 dst 0) as ->.
  { rewrite !nth_lookup, hp_packno_lookup. destruct (dst !! 0%nat); cbn; [|done].
    unfold pn_mask. repeat case_decide; try lia. by rewrite Z.lxor_0_r. }
  fold len. by rewrite hp_packno_twice.
Qed.

Lemma sample_apply_hp q mask dst off len : (0 < off)%nat ->
  sample (apply_hp q dst mask off len) off = sample dst off.
Proof.
  intros. unfold sample, apply_hp. rewrite drop_hp_packno. unfold hp_first.
  by rewrite drop_alter_lt by lia.
Qed.

(** * Generated headers *)

Lemma packno_bits_range p : 0 <= lsquic_packet_out_packno_bits p <= 3.
Proof.
  unfold lsquic_packet_out_packno_bits. change (Z.land ?a 0x3) with (Z.land a (Z.ones 2)).
  rewrite Z.land_ones by lia.
  pose proof (Z.mod_pos_bound (Z.shiftr (po_flags p) POBIT_SHIFT) (2 ^ 2) ltac:(lia)). lia.
Qed.

Lemma bits_cases b : 0 <= b <= 3 -> b = 0 \/ b = 1 \/ b = 2 \/ b = 3.
Proof. lia. Qed.

Lemma long_first ty b : 0 <= b <= 3 ->
  let f := Z.lor (Z.lor 0xC0 (Z.shiftl (header_type_to_bin ty) 4)) b in
  byte_ok f /\ Z.land f 3 = b /\ Z.land (Z.shiftr f 4) 3 = header_type_to_bin ty /\ 128 <= f.
Proof. intros [-> | [-> | [-> | -> ]]]%bits_cases; destruct ty; vm_compute; intuition congruence. Qed.

Definition short_first (spin square loss kp b : Z) : Z :=
  Z.lor (Z.lor (Z.lor (Z.lor (Z.lor QUIC_BIT (Z.shiftl spin 5)) (Z.shiftl square 4)) (Z.shiftl loss 3))
    (Z.shiftl kp 2)) b.

Lemma short_first_ok spin square loss kp b :
  0 <= spin <= 1 -> 0 <= square <= 1 -> 0 <= loss <= 1 -> 0 <= kp <= 1 -> 0 <= b <= 3 ->
  let f := short_first spin square loss kp b in
  byte_ok f /\ Z.land f 3 = b /\ Z.land f 0x20 = 32 * spin /\ f < 128.
Proof.
  intros H1 H2 H3 H4 [-> | [-> | [-> | -> ]]]%bits_cases;
  assert (spin = 0 \/ spin = 1) as [-> | -> ] by lia; assert (square = 0 \/ square = 1) as [-> | -> ] by lia;
  assert (loss = 0 \/ loss = 1) as [-> | -> ] by lia; assert (kp = 0 \/ kp = 1) as [-> | -> ] by lia;
  vm_compute; intuition congruence.
Qed.

Lemma b2z_range b : 0 <= b2z b <= 1.
Proof. destruct b; cbn; lia. Qed.

Lemma kp_range p : 0 <= lsquic_packet_out_kp p <= 1.
Proof.
  unfold lsquic_packet_out_kp. change (Z.land ?a 1) with (Z.land a (Z.ones 1)).
  rewrite Z.land_ones by lia.
  pose proof (Z.mod_pos_bound (Z.shiftr (po_lflags p) POKP_SHIFT) (2 ^ 1) ltac:(lia)). lia.
Qed.

Lemma ver2tag_ok v : length (lsquic_ver2tag v) = 4%nat /\ Forall byte_ok (lsquic_ver2tag v).
Proof.
  unfold lsquic_ver2tag. do 7 (destruct v as [|v];
    [split; [reflexivity|repeat constructor; vm_compute; first [discriminate|reflexivity]]|]).
  split; [reflexivity|repeat constructor; vm_compute; first [discriminate|reflexivity]].
Qed.

(** The connection IDs and the token are bytes of admissible lengths. *)
Definition out_ok (c : conn) (p : packet_out) : Prop :=
  Forall byte_ok (po_dcid p) /\ blen (po_dcid p) <= MAX_CID_LEN
  /\ Forall byte_ok (cn_scid c) /\ blen (cn_scid c) <= MAX_CID_LEN
  /\ Forall byte_ok (po_token p) /\ blen (po_token p) < 2 ^ 16.

Lemma blen_write_packno n b : 0 <= b <= 3 -> blen (write_packno n b) = b + 1.
Proof. intros. rewrite write_packno_be by done. unfold blen. rewrite length_be_bytes. lia. Qed.

(** What precedes the packet number in a long header. *)
Definition long_token (p : packet_out) : list Z :=
  if bool_decide (po_header_type p = HETY_INITIAL) then vint (blen (po_token p)) ++ po_token p else [].

(** The start of every long header, up to the connection IDs. *)
Definition cids (first : Z) (tag dcid scid : list Z) : list Z :=
  first :: tag ++ [blen dcid] ++ dcid ++ [blen scid] ++ scid.

Definition out_cids (c : conn) (p : packet_out) : list Z :=
  cids (Z.lor (Z.lor 0xC0 (Z.shiftl (header_type_to_bin (po_header_type p)) 4)) (lsquic_packet_out_packno_bits p))
    (lsquic_ver2tag (cn_version c)) (po_dcid p) (cn_scid c).

Definition payload_len (c : conn) (p : packet_out) : Z :=
  po_data_sz p + esf_tag_len c + iquic_packno_bits2len (lsquic_packet_out_packno_bits p).

Definition long_head (c : conn) (p : packet_out) : list Z :=
  out_cids c p ++ long_token p ++ vint_write (u32 (payload_len c p)) 1 2.

Lemma cids_app first tag dcid scid r :
  cids first tag dcid scid ++ r = first :: tag ++ blen dcid :: dcid ++ blen scid :: scid ++ r.
Proof. unfold cids. cbn [app]. by rewrite <- app_assoc; cbn [app]; rewrite <- app_assoc. Qed.

Lemma blen_cids first tag dcid scid : length tag = 4%nat ->
  blen (cids first tag dcid scid) = 7 + blen dcid + blen scid.
Proof.
  intros Ht. unfold cids. rewrite blen_cons, !blen_app, !blen_cons. change (blen []) with 0.
  unfold blen at 1. rewrite Ht. lia.
Qed.

Lemma cids_ok first tag dcid scid :
  byte_ok first -> Forall byte_ok tag -> Forall byte_ok dcid -> Forall byte_ok scid ->
  blen dcid <= MAX_CID_LEN -> blen scid <= MAX_CID_LEN -> Forall byte_ok (cids first tag dcid scid).
Proof.
  intros. pose proof (blen_nonneg dcid). pose proof (blen_nonneg scid).
  assert (byte_ok (blen dcid) /\ byte_ok (blen scid)) as [? ?] by (unfold byte_ok, MAX_CID_LEN in *; lia).
  constructor; [done|]. repeat (apply Forall_app; split); auto; by repeat constructor.
Qed.

Lemma long_token_ok p : Forall byte_ok (po_token p) -> Forall byte_ok (long_token p).
Proof. intros. unfold long_token. destruct (bool_decide _); auto with bytes. Qed.

Lemma long_head_ok c p : out_ok c p ->
  Forall byte_ok (long_head c p) /\ Z.land (nth 0 (long_head c p) 0) 3 = lsquic_packet_out_packno_bits p
  /\ blen (long_head c p) + iquic_packno_bits2len (lsquic_packet_out_packno_bits p)
     = ietf_v1_packout_header_size_long_by_packet c p.
Proof.
  intros (Hd & Hdl & Hs & Hsl & Ht & Htl). pose proof (packno_bits_range p) as Hb.
  pose proof (long_first (po_header_type p) _ Hb) as (H1 & H2 & _).
  unfold long_head, out_cids. destruct (ver2tag_ok (cn_version c)) as [Hvl Hv].
  split_and!; [|done|].
  - pose proof (long_token_ok p Ht). pose proof (cids_ok _ _ _ _ H1 Hv Hd Hs Hdl Hsl).
    repeat (apply Forall_app; split); auto using vint_write_ok.
  - rewrite !blen_app, blen_cids by done. change (blen (vint_write _ 1 2)) with 2.
    unfold ietf_v1_packout_header_size_long_by_packet, long_token.
    destruct (bool_decide _); rewrite ?blen_app, ?blen_vint; change (blen []) with 0; lia.
Qed.

Definition short_head (p : packet_out) : list Z :=
  short_first (lsquic_packet_out_spin_bit p) (lsquic_packet_out_square_bit p)
    (lsquic_packet_out_loss_bit p) (lsquic_packet_out_kp p) (lsquic_packet_out_packno_bits p)
  :: (if has_flag (po_flags p) PO_CONN_ID then po_dcid p else []).

Lemma short_head_ok c p : out_ok c p ->
  Forall byte_ok (short_head p) /\ Z.land (nth 0 (short_head p) 0) 3 = lsquic_packet_out_packno_bits p
  /\ blen (short_head p) + iquic_packno_bits2len (lsquic_packet_out_packno_bits p)
     = ietf_v1_packout_header_size_short (po_flags p) (blen (po_dcid p)).
Proof.
  intros (Hd & Hdl & _). destruct (short_first_ok (lsquic_packet_out_spin_bit p) (lsquic_packet_out_square_bit p)
    (lsquic_packet_out_loss_bit p) (lsquic_packet_out_kp p) (lsquic_packet_out_packno_bits p)
    (b2z_range _) (b2z_range _) (b2z_range _) (kp_range _) (packno_bits_range p)) as (H1 & H2 & _).
  unfold short_head, ietf_v1_packout_header_size_short, lsquic_packet_out_packno_bits in *.
  split_and!; [by constructor; [|destruct (has_flag _ _)]|done|].
  rewrite blen_cons. destruct (has_flag _ _); change (blen []) with 0; lia.
Qed.

(** What precedes the packet number in either form. *)
Definition reg_head (c : conn) (p : packet_out) : list Z :=
  if bool_decide (po_header_type p = HETY_NOT_SET) then short_head p else long_head c p.

Lemma reg_head_ok c p : out_ok c p ->
  Forall byte_ok (reg_head c p) /\ Z.land (nth 0 (reg_head c p) 0) 3 = lsquic_packet_out_packno_bits p
  /\ (0 < length (reg_head c p))%nat.
Proof.
  intros Hok. unfold reg_head. destruct (bool_decide _).
  - destruct (short_head_ok c p Hok) as (H1 & H2 & _). split_and!; [done|done|cbn; lia].
  - destruct (long_head_ok c p Hok) as (H1 & H2 & _). split_and!; [done|done|cbn; lia].
Qed.

(** Generation succeeds exactly when the header fits. *)
Lemma gen_reg_header c p bufsz : out_ok c p ->
  let n := iquic_packno_bits2len (lsquic_packet_out_packno_bits p) in
  ietf_v1_gen_reg_pkt_header c p bufsz
  = if bufsz <? blen (reg_head c p) + n then None
    else Some (reg_head c p ++ write_packno (po_packno p) (lsquic_packet_out_packno_bits p),
               blen (reg_head c p), n).
Proof.
  intros Hok n. unfold ietf_v1_gen_reg_pkt_header, reg_head. destruct (bool_decide _).
  - unfold gen_short_pkt_header.
    assert (blen (short_head p) = 1 + blen (if has_flag (po_flags p) PO_CONN_ID then po_dcid p else [])) as ->.
    { unfold short_head. rewrite blen_cons. lia. }
    done.
  - destruct (long_head_ok c p Hok) as (_ & _ & E). fold n in E.
    unfold gen_long_pkt_header. rewrite E. destruct (_ <? _); [done|]. cbv zeta.
    match goal with |- Some (?l ++ _, _, _) = _ => assert (l = long_head c p) as ->; [|done] end.
    unfold long_head, out_cids. rewrite cids_app. unfold long_token, payload_len. done.
Qed.

(** * Properties of packet numbers *)

(** What the receiver reads is the packet number modulo the width sent. *)
Lemma read_header_packno c p payload : out_ok c p ->
  let b := lsquic_packet_out_packno_bits p in
  read_packno (reg_head c p ++ write_packno (po_packno p) b ++ payload) (length (reg_head c p))
    (iquic_packno_bits2len b) = po_packno p mod 2 ^ (8 * (b + 1)).
Proof.
  intros Hok b. pose proof (packno_bits_range p) as Hb. fold b in Hb.
  rewrite write_packno_be by done. rewrite read_packno_ok.
  - rewrite be_val_be_bytes. do 2 f_equal. lia.
  - done.
  - apply length_be_bytes.
  - apply be_bytes_ok.
Qed.

(** C2: Packet numbers survive the wire.  The sender picks the width of the
    packet number from the oldest unacknowledged packet and the packets in
    flight, writes the header (long or short) and protects it with a mask made
    of a sample of the packet; the receiver makes the mask of the same bytes
    of what arrived.  Whatever the mask function, stripping restores the
    packet byte for byte and recovers the full packet number, provided the
    receiver has everything below the oldest unacknowledged packet and its
    largest packet number is at most the number of packets in flight ahead. *)
Theorem packet_number_roundtrip gen_mask (ql_bits : bool) c p bufsz payload least_unacked n_in_flight max :
  (forall l, Forall byte_ok (gen_mask l)) ->
  out_ok c p -> Forall byte_ok payload -> 0 <= max < 2 ^ 62 ->
  0 <= least_unacked <= po_packno p -> po_packno p < 2 ^ 62 ->
  0 <= n_in_flight < 2 ^ 30 -> po_packno p - least_unacked < 2 ^ 30 ->
  lsquic_packet_out_packno_bits p = ietf_v1_calc_packno_bits (po_packno p) least_unacked n_in_flight ->
  least_unacked <= max + 1 -> max <= po_packno p + n_in_flight ->
  blen (reg_head c p) + iquic_packno_bits2len (lsquic_packet_out_packno_bits p) <= bufsz ->
  exists hdr off len, ietf_v1_gen_reg_pkt_header c p bufsz = Some (hdr, off, len)
    /\ blen hdr = off + len /\ blen hdr <= bufsz
    /\ let wire := apply_hp_immediately gen_mask ql_bits (hdr ++ payload) (Z.to_nat off) len in
       strip_hp ql_bits (gen_mask (sample wire (Z.to_nat off))) wire (Z.to_nat off) (Some max)
       = (hdr ++ payload, po_packno p, len).
Proof.
  intros Hmask Hok Hpay Hmax Hl Hpn Hn Hd Hbits H1 H2 Hsz. pose proof (packno_bits_range p) as Hb.
  rewrite (gen_reg_header c p bufsz Hok). destruct (reg_head_ok c p Hok) as (Hf & H3 & Hlen).
  replace (bufsz <? _) with false by (symmetry; apply Z.ltb_ge; lia).
  do 3 eexists. split; [reflexivity|]. rewrite blen_app, blen_write_packno by done.
  split; [done|]. split; [unfold iquic_packno_bits2len in Hsz; lia|]. cbv zeta.
  assert (Z.to_nat (blen (reg_head c p)) = length (reg_head c p)) as Hoff by (unfold blen; lia).
  unfold apply_hp_immediately. rewrite Hoff, sample_apply_hp by done. rewrite <- app_assoc.
  set (dst := reg_head c p ++ _).
  assert (nth 0 dst 0 = nth 0 (reg_head c p) 0) as Hn0 by (unfold dst; by rewrite app_nth1).
  assert (iquic_packno_bits2len (lsquic_packet_out_packno_bits p) = 1 + Z.land (nth 0 dst 0) 3) as ->.
  { rewrite Hn0, H3. unfold iquic_packno_bits2len. lia. }
  rewrite strip_apply_hp; [|unfold dst|done|done].
  2: { rewrite write_packno_be by done. auto using be_bytes_ok with bytes. }
  f_equal. f_equal. rewrite Hn0, H3. unfold dst.
  replace (1 + lsquic_packet_out_packno_bits p) with (iquic_packno_bits2len (lsquic_packet_out_packno_bits p))
    by (unfold iquic_packno_bits2len; lia).
  rewrite read_header_packno by done. unfold iquic_packno_bits2len.
  destruct (calc_packno_bits_ok (po_packno p) least_unacked n_in_flight) as [_ Hw]; try lia.
  rewrite <- Hbits in Hw. set (s := 8 * (lsquic_packet_out_packno_bits p + 1)) in *.
  assert (2 ^ s = 4 * 2 ^ (s - 2)) as Es.
  { change 4 with (2 ^ 2). rewrite <- Z.pow_add_r by lia. f_equal. lia. }
  assert (2 ^ (s - 1) = 2 * 2 ^ (s - 2)) as Es1 by (rewrite <- Z.pow_succ_r by lia; f_equal; lia).
  apply decode_packno_ok; [done|lia|lia|]. lia.
Qed.

(** A mask function for the witness: the sample, shifted. *)
Definition toy_mask (l : list Z) : list Z := map (fun b => u8 (b + 0x5a)) l.

Lemma packet_number_roundtrip_witness :
  let p := PO (Z.lor PO_CONN_ID 32) 0 70000 HETY_NOT_SET [1; 2; 3; 4; 5; 6; 7; 8] [] 3 in
  let dst := [0x41; 1; 2; 3; 4; 5; 6; 7; 8; 0x11; 0x70] ++ repeat 33 20 in
  let wire := apply_hp_immediately toy_mask false dst 9 2 in
  ietf_v1_gen_reg_pkt_header (Conn [] 5 true 16) p 100 = Some (take 11 dst, 9, 2)
  /\ wire <> dst /\ strip_hp false (toy_mask (sample wire 9)) wire 9 (Some 69990) = (dst, 70000, 2).
Proof.
  intros p dst wire.
  destruct (packet_number_roundtrip toy_mask false (Conn [] 5 true 16) p 100 (repeat 33 20) 69900 8 69990)
    as (hdr & off & len & Hg & _ & _ & Hs).
  - intros l. unfold toy_mask. induction l; constructor; [apply (wrapu_range 8); lia|done].
  - unfold out_ok. cbn. split_and!; try (repeat constructor; vm_compute; first [discriminate|reflexivity]).
    all: vm_compute; first [discriminate|reflexivity].
  - repeat constructor; vm_compute; first [discriminate|reflexivity].
  - lia.
  - cbn. lia.
  - cbn. lia.
  - lia.
  - cbn. lia.
  - vm_compute. reflexivity.
  - lia.
  - cbn. lia.
  - vm_compute. discriminate.
  - vm_compute in Hg. injection Hg as <- <- <-. split; [vm_compute; reflexivity|].
    split; [vm_compute; discriminate|exact Hs].
Defined.

(** * Long headers *)

(** The packet after its connection IDs have been parsed. *)
Definition cid_packet (data : list Z) (ty : header_type) (dcid scid : list Z) : packet_in :=
  PIn data (if blen dcid =? 0 then 0 else PI_CONN_ID) ty dcid
    (if blen scid =? 0 then 0 else 7 + blen dcid) (blen scid) 0 0 0 0 0 0.

(** Parsing a packet that starts with well-formed connection IDs. *)
Lemma long_parse_cids first tag dcid scid r is_server :
  length tag = 4%nat -> blen dcid <= MAX_CID_LEN -> blen scid <= MAX_CID_LEN ->
  let data := cids first tag dcid scid ++ r in
  let ty := if bool_decide (tag = [0; 0; 0; 0]) then HETY_VERNEG else bits2ht (Z.land (Z.shiftr first 4) 3) in
  let pk := cid_packet data ty dcid scid in
  let p := 7 + blen dcid + blen scid in
  lsquic_ietf_v1_parse_packet_in_long_begin (fresh_packet data) is_server
  = match ty with
    | HETY_INITIAL => long_initial pk is_server (blen dcid) (blen data) p r
    | HETY_HANDSHAKE | HETY_0RTT => long_payload pk (blen data) p r
    | HETY_RETRY => long_retry pk (blen data) p
    | _ => long_verneg pk (blen data) p
    end.
Proof.
  intros Htag Hd Hs data ty pk p. do 5 (destruct tag as [|? tag]; try done).
  pose proof (blen_nonneg dcid). pose proof (blen_nonneg scid). pose proof (blen_nonneg r).
  assert (blen data = 7 + blen dcid + blen scid + blen r) as Hlen.
  { unfold data. rewrite blen_app, blen_cids by done. lia. }
  unfold lsquic_ietf_v1_parse_packet_in_long_begin. cbn [pi_data fresh_packet].
  replace (blen data <? 6) with false by lia. unfold data at 1. rewrite cids_app. cbn [app].
  replace (blen data <=? 6 + blen dcid) with false by lia.
  replace (MAX_CID_LEN <? blen dcid) with false by lia. cbn [orb].
  assert (Z.to_nat (blen dcid) = length dcid) as -> by (unfold blen; lia).
  rewrite drop_app_length. cbv beta iota zeta.
  replace (blen data <? 6 + blen dcid + 1 + blen scid) with false by lia.
  replace (MAX_CID_LEN <? blen scid) with false by lia. cbn [orb].
  assert (Z.to_nat (blen scid) = length scid) as -> by (unfold blen; lia).
  rewrite take_app_length, drop_app_length.
  replace (6 + blen dcid + 1 + blen scid) with p by lia.
  cbn [pi_flags pi_scid_off pi_token pi_token_size pi_quic_ver pi_header_sz pi_data_sz pi_packno fresh_packet].
  unfold MAX_CID_LEN in Hd. rewrite (wrapu_id 8 (6 + blen dcid + 1)) by (unfold is_u; lia).
  replace (6 + blen dcid + 1) with (7 + blen dcid) by lia. rewrite Z.lor_0_l. reflexivity.
Qed.

Lemma long_payload_ok pk length p pl q :
  0 <= pl < 2 ^ 14 -> pl <= blen q -> 4 <= blen q -> length = p + 2 + blen q -> Forall byte_ok q ->
  long_payload pk length p (vint_write pl 1 2 ++ q)
  = long_end (with_quic_ver pk 1) (p + 2) (p + 2 + pl) (Some p, 2).
Proof.
  intros Hpl Hle H4 -> Hq. unfold long_payload. replace (_ <=? p) with false by lia.
  change (vint_write pl 1 2) with (vint_write pl 1 (Z.shiftl 1 1)).
  rewrite (varint_read_write pl 1 q); [|lia| |done].
  2: { change (VINT_MAX_B 1) with (2 ^ 14 - 1). lia. }
  change (Z.shiftl 1 1) with 2. replace (_ <? p + 2 + pl) with false by lia.
  replace (_ <? 4) with false by lia. by replace (p + 2 - 2) with p by lia.
Qed.

Lemma long_initial_ok pk (is_server : bool) dcid_len length p token q :
  (if is_server then MIN_INITIAL_DCID_LEN <= dcid_len else token = []) ->
  Forall byte_ok token -> Forall byte_ok q -> blen token < 2 ^ 16 ->
  length = p + vint_size (blen token) + blen token + blen q ->
  let p' := p + vint_size (blen token) in
  long_initial pk is_server dcid_len length p (vint (blen token) ++ token ++ q)
  = long_payload (if blen token =? 0 then pk else with_token pk p' (blen token)) length (p' + blen token) q.
Proof.
  intros Hs Ht Hq Hl -> p'. unfold long_initial. pose proof (blen_nonneg token). pose proof (blen_nonneg q).
  assert (vint_ok (blen token)) as Hv.
  { unfold vint_ok. change VINT_MAX_VALUE with (2 ^ 62 - 1). lia. }
  rewrite read_vint, drop_vint by auto with bytes.
  assert (is_server && (dcid_len <? MIN_INITIAL_DCID_LEN) = false) as ->.
  { destruct is_server; [|done]. cbn. lia. }
  fold p'. destruct (Z.eqb_spec (blen token) 0) as [E|E].
  - assert (token = []) as -> by (destruct token; [done|rewrite blen_cons in E; pose proof (blen_nonneg token); lia]).
    cbn [negb andb app]. by rewrite Z.add_0_r.
  - destruct is_server; [|by rewrite Hs in E]. cbn [negb andb].
    change (Z.shiftl 1 16) with (2 ^ 16). replace (2 ^ 16 <=? blen token) with false by lia.
    replace (_ <? p' + blen token) with false by (unfold p'; lia).
    replace (Z.to_nat (blen token)) with (length token) by (unfold blen; lia). by rewrite drop_app_length.
Qed.

(** What a packet parsed from generated bytes says. *)
Definition parsed_ok (pk : packet_in) (c : conn) (p : packet_out) (off data_sz : Z) : Prop :=
  pi_header_type pk = po_header_type p /\ pi_dcid pk = po_dcid p
  /\ lsquic_scid_from_packet_in pk = cn_scid c
  /\ (po_header_type p = HETY_INITIAL ->
      take (Z.to_nat (pi_token_size pk)) (drop (Z.to_nat (pi_token pk)) (pi_data pk)) = po_token p)
  /\ pi_header_sz pk = off /\ pi_data_sz pk = data_sz /\ pi_packno pk = IQUIC_INVALID_PACKNO.

Lemma slice_at (a b d : list Z) n m :
  n = blen a -> m = blen b -> take (Z.to_nat m) (drop (Z.to_nat n) (a ++ b ++ d)) = b.
Proof.
  intros -> ->. unfold blen. rewrite !Nat2Z.id, drop_app_length, take_app_length. done.
Qed.

Lemma cids_scid first tag dcid scid r ty pk :
  length tag = 4%nat -> let data := cids first tag dcid scid ++ r in
  pi_data pk = data -> pi_scid_off pk = pi_scid_off (cid_packet data ty dcid scid) ->
  pi_scid_len pk = blen scid -> lsquic_scid_from_packet_in pk = scid.
Proof.
  intros Ht data Hd Ho Hl. unfold lsquic_scid_from_packet_in. rewrite Hd, Ho, Hl. cbn [cid_packet pi_scid_off].
  destruct (Z.eqb_spec (blen scid) 0) as [E|E].
  - rewrite E. destruct scid; [done|rewrite blen_cons in E; pose proof (blen_nonneg scid); lia].
  - assert (data = (first :: tag ++ blen dcid :: dcid ++ [blen scid]) ++ scid ++ r) as ->.
    { unfold data. rewrite cids_app. cbn [app]. by rewrite <- app_assoc; cbn [app]; rewrite <- app_assoc. }
    apply slice_at; [|done]. rewrite blen_cons, blen_app, blen_cons, blen_app, blen_cons.
    change (blen []) with 0. unfold blen at 2. rewrite Ht. lia.
Qed.

Lemma ver2tag_nonzero v : (v < 7)%nat -> lsquic_ver2tag v <> [0; 0; 0; 0].
Proof. intros Hv. do 7 (destruct v as [|v]; [done|]). lia. Qed.

Lemma bits2ht_bin ty : ty = HETY_INITIAL \/ ty = HETY_0RTT \/ ty = HETY_HANDSHAKE ->
  bits2ht (header_type_to_bin ty) = ty.
Proof. by intros [-> | [-> | -> ]]. Qed.

Lemma parsed_end c p pk r off pl st :
  let data := out_cids c p ++ r in
  pi_data pk = data -> pi_header_type pk = po_header_type p -> pi_dcid pk = po_dcid p ->
  pi_scid_off pk = pi_scid_off (cid_packet data (po_header_type p) (po_dcid p) (cn_scid c)) ->
  pi_scid_len pk = blen (cn_scid c) ->
  (po_header_type p = HETY_INITIAL ->
   take (Z.to_nat (pi_token_size pk)) (drop (Z.to_nat (pi_token pk)) data) = po_token p) ->
  0 <= off -> 0 <= pl -> off + pl < 2 ^ 16 ->
  exists pk', long_end (with_quic_ver pk 1) off (off + pl) st = Some (Some (pk', st))
    /\ parsed_ok pk' c p off (off + pl).
Proof.
  intros data H1 H2 H3 H4 H5 H6 H7 H8 H9. eexists. split; [reflexivity|].
  unfold parsed_ok. cbn. rewrite H1. rewrite !wrapu_id by (unfold is_u; lia).
  split_and!; try done. eapply (cids_scid _ _ (po_dcid p)); [apply ver2tag_ok|reflexivity|exact H4|exact H5].
Qed.

(** Parsing the bytes of [long_head] followed by at least the payload. *)
Section parse_head.
Context (c : conn) (p : packet_out) (is_server : bool) (q : list Z).
Hypothesis Hok : out_ok c p.
Hypothesis Hver : (cn_version c < 7)%nat.
Hypothesis Hq : Forall byte_ok q.
Hypothesis Hpl : 0 <= payload_len c p < 2 ^ 14.
Hypothesis Hplq : payload_len c p <= blen q.
Hypothesis Hq4 : 4 <= blen q.
Hypothesis Htot : blen (long_head c p ++ q) < 2 ^ 16.

Let off := blen (long_head c p).
Let goal := exists pk, lsquic_ietf_v1_parse_packet_in_long_begin (fresh_packet (long_head c p ++ q)) is_server
             = Some (Some (pk, (Some (off - 2), 2))) /\ parsed_ok pk c p off (off + payload_len c p).

Lemma blen_long_head : off = 9 + blen (po_dcid p) + blen (cn_scid c) + blen (long_token p).
Proof.
  unfold off, long_head, out_cids. rewrite !blen_app, blen_cids by apply ver2tag_ok.
  change (blen (vint_write _ 1 2)) with 2. lia.
Qed.

Lemma long_data : long_head c p ++ q
  = out_cids c p ++ long_token p ++ vint_write (payload_len c p) 1 2 ++ q.
Proof.
  unfold long_head. rewrite (wrapu_id 32) by (unfold is_u; lia). by rewrite <- !app_assoc.
Qed.

Lemma parse_head_cids :
  po_header_type p = HETY_INITIAL \/ po_header_type p = HETY_0RTT \/ po_header_type p = HETY_HANDSHAKE ->
  let r := long_token p ++ vint_write (payload_len c p) 1 2 ++ q in
  let data := out_cids c p ++ r in
  let pk := cid_packet data (po_header_type p) (po_dcid p) (cn_scid c) in
  let at_ := 7 + blen (po_dcid p) + blen (cn_scid c) in
  lsquic_ietf_v1_parse_packet_in_long_begin (fresh_packet (long_head c p ++ q)) is_server
  = if bool_decide (po_header_type p = HETY_INITIAL)
    then long_initial pk is_server (blen (po_dcid p)) (blen data) at_ r
    else long_payload pk (blen data) at_ r.
Proof.
  intros Hty r data pk at_. rewrite long_data. destruct Hok as (Hd & Hdl & Hs & Hsl & Ht & Htl).
  pose proof (long_first (po_header_type p) _ (packno_bits_range p)) as (_ & _ & Hbin & _).
  unfold out_cids. rewrite long_parse_cids by (apply ver2tag_ok || done).
  rewrite Hbin, (bits2ht_bin _ Hty), bool_decide_eq_false_2 by (by apply ver2tag_nonzero).
  destruct Hty as [Hty|[Hty|Hty]]; unfold pk, data, out_cids; rewrite Hty; done.
Qed.

Lemma parse_head_initial :
  po_header_type p = HETY_INITIAL ->
  (if is_server then MIN_INITIAL_DCID_LEN <= blen (po_dcid p) else po_token p = []) -> goal.
Proof.
  intros Hty Hini. unfold goal. rewrite parse_head_cids by auto. rewrite bool_decide_eq_true_2 by done.
  destruct Hok as (Hd & Hdl & Hs & Hsl & Ht & Htl). pose proof blen_long_head as Hoff.
  assert (long_token p = vint (blen (po_token p)) ++ po_token p) as Htok.
  { unfold long_token. by rewrite bool_decide_eq_true_2. }
  set (data := out_cids c p ++ _). rewrite blen_app in Htot. fold off in Htot.
  assert (blen data = off + blen q) as Hdata.
  { unfold data, off. by rewrite <- long_data, blen_app. }
  rewrite Htok in *. rewrite blen_app, blen_vint in Hoff. rewrite <- app_assoc.
  rewrite long_initial_ok; [|done|done|by apply Forall_app; split; [apply vint_write_ok|]|done|].
  2: { rewrite Hdata, blen_app. change (blen (vint_write _ 1 2)) with 2. lia. }
  set (at1 := 7 + blen (po_dcid p) + blen (cn_scid c) + vint_size (blen (po_token p))).
  rewrite long_payload_ok; [|done|done|done|unfold at1; lia|done].
  replace (at1 + blen (po_token p) + 2) with off by (unfold at1; lia).
  replace (at1 + blen (po_token p)) with (off - 2) by (unfold at1; lia).
  pose proof (vint_size_pos (blen (po_token p))). pose proof (blen_nonneg (po_dcid p)).
  pose proof (blen_nonneg (cn_scid c)). pose proof (blen_nonneg (po_token p)).
  apply (parsed_end c p _ (long_token p ++ vint_write (payload_len c p) 1 2 ++ q));
    try (by destruct (_ =? 0)); try lia.
  intros _. destruct (Z.eqb_spec (blen (po_token p)) 0) as [E|E].
  - cbn. destruct (po_token p); [done|rewrite blen_cons in E; pose proof (blen_nonneg l); lia].
  - cbn [with_token pi_token pi_token_size]. unfold MAX_CID_LEN in *.
    rewrite !wrapu_id by (unfold is_u, at1; lia). rewrite Htok, <- app_assoc, app_assoc.
    apply slice_at; [|done]. rewrite blen_app, blen_vint. unfold out_cids.
    rewrite blen_cids by apply ver2tag_ok. unfold at1. lia.
Qed.

Lemma parse_head_other :
  po_header_type p = HETY_0RTT \/ po_header_type p = HETY_HANDSHAKE -> goal.
Proof.
  intros Hty. unfold goal. rewrite parse_head_cids by tauto.
  assert (po_header_type p <> HETY_INITIAL) as Hni by (by destruct Hty as [-> | ->]).
  rewrite bool_decide_eq_false_2 by done. pose proof blen_long_head as Hoff.
  assert (long_token p = []) as Htok by (unfold long_token; by rewrite bool_decide_eq_false_2).
  set (data := out_cids c p ++ _). rewrite blen_app in Htot. fold off in Htot.
  assert (blen data = off + blen q) as Hdata.
  { unfold data, off. by rewrite <- long_data, blen_app. }
  rewrite Htok in *. change (blen []) with 0 in *. cbn [app].
  pose proof (blen_nonneg (po_dcid p)). pose proof (blen_nonneg (cn_scid c)).
  rewrite long_payload_ok; [|done|done|done|lia|done].
  replace (7 + blen (po_dcid p) + blen (cn_scid c) + 2) with off by lia.
  replace (7 + blen (po_dcid p) + blen (cn_scid c)) with (off - 2) by lia.
  apply (parsed_end c p _ (long_token p ++ vint_write (payload_len c p) 1 2 ++ q)); done || lia.
Qed.

End parse_head.

(** C38: Long headers round trip.  A generated Initial, 0-RTT or Handshake
    header, followed by its payload and by whatever else was coalesced into the
    datagram, is accepted by the parser (a server wants eight bytes of DCID and
    a client no token in an Initial packet); it yields the same type,
    connection IDs and token, the offset of the packet number, and the length
    of this packet within the datagram. *)
Theorem long_header_roundtrip c p (is_server : bool) bufsz payload rest hdr off len :
  out_ok c p -> (cn_version c < 7)%nat ->
  po_header_type p = HETY_INITIAL \/ po_header_type p = HETY_0RTT \/ po_header_type p = HETY_HANDSHAKE ->
  (po_header_type p = HETY_INITIAL ->
    if is_server then MIN_INITIAL_DCID_LEN <= blen (po_dcid p) else po_token p = []) ->
  Forall byte_ok payload -> Forall byte_ok rest -> blen payload = po_data_sz p + esf_tag_len c ->
  3 <= blen payload -> blen payload + 4 < 2 ^ 14 -> blen (hdr ++ payload ++ rest) < 2 ^ 16 ->
  ietf_v1_gen_reg_pkt_header c p bufsz = Some (hdr, off, len) ->
  exists pk, lsquic_ietf_v1_parse_packet_in_long_begin (fresh_packet (hdr ++ payload ++ rest)) is_server
             = Some (Some (pk, (Some (off - 2), 2)))
    /\ parsed_ok pk c p off (blen (hdr ++ payload)).
Proof.
  intros Hok Hver Hty Hini Hpay Hrest Hplen Hp3 Hp14 Htot Hgen.
  rewrite (gen_reg_header c p bufsz Hok) in Hgen. destruct (_ <? _); [done|].
  unfold reg_head in Hgen. rewrite bool_decide_eq_false_2 in Hgen by (by destruct Hty as [-> | [-> | ->]]).
  pose proof (packno_bits_range p) as Hb. set (pn := write_packno _ _) in Hgen.
  assert (blen pn = iquic_packno_bits2len (lsquic_packet_out_packno_bits p)) as Hpn by (by apply blen_write_packno).
  assert (Forall byte_ok pn) as Hpnok by (unfold pn; rewrite write_packno_be by done; apply be_bytes_ok).
  assert (hdr = long_head c p ++ pn /\ off = blen (long_head c p)) as [-> ->] by (split; congruence).
  clear Hgen. pose proof (blen_nonneg rest). unfold iquic_packno_bits2len in Hpn.
  assert (payload_len c p = blen pn + blen payload) as Hpl.
  { unfold payload_len, iquic_packno_bits2len. lia. }
  rewrite <- !app_assoc in *. rewrite !blen_app in Htot. rewrite !blen_app.
  replace (blen (long_head c p) + (blen pn + blen payload)) with (blen (long_head c p) + payload_len c p) by lia.
  destruct Hty as [Hty|Hty].
  - apply parse_head_initial; try done; rewrite ?blen_app; auto with bytes; try lia. by apply Hini.
  - apply parse_head_other; try done; rewrite ?blen_app; auto with bytes; lia.
Qed.

Lemma long_header_roundtrip_witness :
  let c := Conn [9; 9] 5 false 16 in
  let p := PO 32 0 700 HETY_INITIAL [1; 2; 3; 4; 5; 6; 7; 8] [0xaa; 0xbb] 5 in
  exists hdr pk, ietf_v1_gen_reg_pkt_header c p 100 = Some (hdr, 22, 2)
    /\ lsquic_ietf_v1_parse_packet_in_long_begin (fresh_packet (hdr ++ repeat 7 21 ++ [1; 2; 3])) true
       = Some (Some (pk, (Some 20, 2)))
    /\ pi_dcid pk = [1; 2; 3; 4; 5; 6; 7; 8] /\ pi_data_sz pk = 45.
Proof.
  intros c p. eexists. 
  destruct (long_header_roundtrip c p true 100 (repeat 7 21) [1; 2; 3]
    [0xc1; 0; 0; 0; 1; 8; 1; 2; 3; 4; 5; 6; 7; 8; 2; 9; 9; 2; 0xaa; 0xbb; 0x40; 23; 2; 0xbc] 22 2) as (pk & H1 & H2).
  - unfold out_ok. cbn. split_and!; try (repeat constructor; vm_compute; first [discriminate|reflexivity]).
    all: vm_compute; first [discriminate|reflexivity].
  - cbn. lia.
  - by left.
  - intros _. vm_compute. discriminate.
  - repeat constructor; vm_compute; first [discriminate|reflexivity].
  - repeat constructor; vm_compute; first [discriminate|reflexivity].
  - reflexivity.
  - vm_compute. discriminate.
  - reflexivity.
  - reflexivity.
  - reflexivity.
  - exists pk. split; [reflexivity|]. split; [exact H1|]. split; [exact (proj1 (proj2 H2))|].
    exact (proj1 (proj2 (proj2 (proj2 (proj2 (proj2 H2)))))).
Defined.

(** * Arbitrary bytes *)

(** The offsets and lengths of the connection IDs and of the token lie within
    the packet. *)
Definition fields_in (pk : packet_in) (length : Z) : Prop :=
  blen (pi_dcid pk) <= MAX_CID_LEN /\ 0 <= pi_scid_len pk <= MAX_CID_LEN
  /\ 0 <= pi_scid_off pk /\ pi_scid_off pk + pi_scid_len pk <= length
  /\ 0 <= pi_token pk /\ 0 <= pi_token_size pk /\ pi_token pk + pi_token_size pk <= length.

Definition long_safe (data : list Z) (ty : header_type -> Prop) (r : long_res) : Prop :=
  r = Some None
  \/ exists pk st, r = Some (Some (pk, st)) /\ pi_data pk = data /\ ty (pi_header_type pk)
       /\ fields_in pk (blen data) /\ 6 < pi_header_sz pk <= pi_data_sz pk
       /\ pi_data_sz pk <= blen data
       /\ match st.1 with
          | Some off => off + st.2 = pi_header_sz pk /\ pi_header_sz pk + 4 <= blen data
          | None => pi_header_sz pk = blen data
          end.

Lemma long_payload_safe pk data p rest (ty : header_type -> Prop) :
  pi_data pk = data -> blen data = p + blen rest -> 6 < p -> blen data < 2 ^ 16 -> Forall byte_ok rest ->
  fields_in pk (blen data) -> ty (pi_header_type pk) -> long_safe data ty (long_payload pk (blen data) p rest).
Proof.
  intros Hd Hl Hp Hlen Hok Hf Hty. unfold long_payload. destruct (Z.leb_spec (blen data) p); [by left|].
  destruct (lsquic_varint_read rest) as [[r pl]|] eqn:E; [|by left].
  destruct (varint_read_inv _ _ _ Hok E) as (b & Hb & Hr & Hv & Hle). fold (blen rest) in Hle.
  assert (1 <= r) by (rewrite Hr, Z.shiftl_1_l; change 1 with (2 ^ 0); apply Z.pow_le_mono_r; lia).
  destruct (Z.ltb_spec (blen data) (p + r + pl)); [by left|].
  destruct (Z.ltb_spec (blen data - (p + r)) 4); [by left|].
  right. do 2 eexists. split; [reflexivity|]. cbn [pi_data pi_header_type pi_header_sz pi_data_sz with_quic_ver fst snd].
  rewrite !wrapu_id by (unfold is_u; lia). split_and!; try done; lia.
Qed.

Lemma long_retry_safe pk data p (ty : header_type -> Prop) :
  pi_data pk = data -> 6 < p <= 50 -> blen data < 2 ^ 16 ->
  fields_in pk (blen data) -> ty (pi_header_type pk) -> long_safe data ty (long_retry pk (blen data) p).
Proof.
  intros Hd Hp Hlen (F1 & F2 & F3 & F4 & F5 & F6 & F7) Hty. unfold long_retry.
  destruct (Z.leb_spec (blen data) p); [by left|]. destruct (Z.ltb_spec (blen data) (p + 1 + 16)); [by left|].
  right. do 2 eexists. split; [reflexivity|]. unfold fields_in. cbn.
  rewrite !wrapu_id by (unfold is_u; lia). split_and!; try done; lia.
Qed.

Lemma long_verneg_safe pk data p (ty : header_type -> Prop) :
  pi_data pk = data -> 6 < p <= 50 -> blen data < 2 ^ 16 ->
  fields_in pk (blen data) -> ty (pi_header_type pk) -> long_safe data ty (long_verneg pk (blen data) p).
Proof.
  intros Hd Hp Hlen Hf Hty. unfold long_verneg.
  destruct (Z.leb_spec (blen data) p); [by left|]. destruct (negb _); [by left|].
  right. do 2 eexists. split; [reflexivity|]. cbn [pi_data pi_header_type pi_header_sz pi_data_sz with_quic_ver fst snd].
  rewrite !wrapu_id by (unfold is_u; lia). split_and!; try done; lia.
Qed.

Lemma long_initial_safe pk data is_server dcil p rest (ty : header_type -> Prop) :
  pi_data pk = data -> blen data = p + blen rest -> 6 < p <= 50 -> blen data < 2 ^ 16 -> Forall byte_ok rest ->
  fields_in pk (blen data) -> ty (pi_header_type pk) ->
  long_safe data ty (long_initial pk is_server dcil (blen data) p rest).
Proof.
  intros Hd Hl Hp Hlen Hok Hf Hty. unfold long_initial. destruct (is_server && _); [by left|].
  destruct (lsquic_varint_read rest) as [[r tl]|] eqn:E; [|by left].
  destruct (varint_read_inv _ _ _ Hok E) as (b & Hb & Hr & Hv & Hle). fold (blen rest) in Hle.
  assert (1 <= r <= 8) as Hr8.
  { rewrite Hr, Z.shiftl_1_l. change 8 with (2 ^ 3). change 1 with (2 ^ 0).
    split; apply Z.pow_le_mono_r; lia. }
  assert (blen (drop (Z.to_nat r) rest) = blen rest - r) as Hdr by (unfold blen in *; rewrite length_drop; lia).
  destruct (negb (tl =? 0) && _); [by left|]. destruct (Z.eqb_spec tl 0).
  - apply long_payload_safe; try done; [lia|lia|by apply Forall_drop].
  - destruct (Z.leb_spec (Z.shiftl 1 16) tl) as [|Htl]; [by left|]. change (Z.shiftl 1 16) with (2 ^ 16) in Htl.
    destruct (Z.ltb_spec (blen data) (p + r + tl)); [by left|].
    destruct Hf as (F1 & F2 & F3 & F4 & F5 & F6 & F7).
    apply long_payload_safe; try done; [|lia|by apply Forall_drop, Forall_drop|].
    + unfold blen at 2. rewrite length_drop. unfold blen in *. lia.
    + unfold fields_in. cbn. rewrite !wrapu_id by (unfold is_u; lia). split_and!; try done; lia.
Qed.

Lemma blen_drop n l : 0 <= n <= blen l -> blen (drop (Z.to_nat n) l) = blen l - n.
Proof. intros. unfold blen in *. rewrite length_drop. lia. Qed.

(** The type a long header announces. *)
Definition packet_type (data : list Z) : header_type :=
  if bool_decide (take 4 (tail data) = [0; 0; 0; 0]) then HETY_VERNEG
  else bits2ht (Z.land (Z.shiftr (nth 0 data 0) 4) 3).

Lemma packet_type_set data : packet_type data <> HETY_NOT_SET.
Proof. unfold packet_type, bits2ht. destruct (bool_decide _); [done|]. repeat destruct (_ =? _); done. Qed.

Lemma long_parse_total data is_server :
  Forall byte_ok data -> blen data < 2 ^ 16 ->
  long_safe data (fun t => t = packet_type data) (lsquic_ietf_v1_parse_packet_in_long_begin (fresh_packet data) is_server).
Proof.
  intros Hok Hlen. unfold lsquic_ietf_v1_parse_packet_in_long_begin. cbn [pi_data fresh_packet].
  destruct (Z.ltb_spec (blen data) 6) as [|H6]; [by left|].
  destruct data as [|f [|t0 [|t1 [|t2 [|t3 [|dcil rest]]]]]]; try (vm_compute in H6; by destruct H6).
  set (data := f :: _) in *. assert (blen data = 6 + blen rest) as Hl by (unfold data; rewrite !blen_cons; lia).
  assert (byte_ok dcil /\ Forall byte_ok rest) as [Hdc Hrest].
  { unfold data in Hok. do 6 (apply Forall_cons in Hok as [? Hok]). done. }
  destruct (Z.leb_spec (blen data) (6 + dcil)); [by left|].
  destruct (Z.ltb_spec MAX_CID_LEN dcil); [by left|]. cbn [orb]. unfold byte_ok, MAX_CID_LEN in *.
  pose proof (blen_drop dcil rest ltac:(lia)) as Hdd.
  destruct (drop (Z.to_nat dcil) rest) as [|scil rest2] eqn:Ed; [change (blen []) with 0 in Hdd; lia|].
  rewrite blen_cons in Hdd.
  assert (Forall byte_ok (scil :: rest2)) as [Hsc Hr2]%Forall_cons by (rewrite <- Ed; by apply Forall_drop).
  destruct (Z.ltb_spec (blen data) (6 + dcil + 1 + scil)); [by left|].
  destruct (Z.ltb_spec 20 scil); [by left|]. cbn [orb]. unfold byte_ok in Hsc.
  match goal with |- long_safe _ _ (match ?t with _ => _ end) => set (ty := t) end.
  pose proof (blen_drop scil rest2 ltac:(lia)) as Hd2.
  assert (blen (take (Z.to_nat dcil) rest) = dcil) as Htk by (unfold blen in *; rewrite length_take; lia).
  assert (ty = packet_type data) as Hty by done. pose proof (packet_type_set data) as Hset.
  clearbody ty. rewrite <- Hty in Hset |- *. rewrite (wrapu_id 8) by (unfold is_u; lia). set (pk := PIn data _ _ _ _ _ _ _ _ _ _ _).
  assert (fields_in pk (blen data)) as Hf.
  { unfold fields_in, pk. cbn [pi_dcid pi_scid_len pi_scid_off pi_token pi_token_size fresh_packet].
    rewrite Htk. unfold MAX_CID_LEN. destruct (scil =? 0); lia. }
  assert (pi_header_type pk = ty /\ pi_data pk = data) as [Epk Edata] by done. clearbody pk.
  destruct ty; try done;
    first [apply long_initial_safe | apply long_payload_safe | apply long_retry_safe | apply long_verneg_safe];
    try done; try lia; try (by apply Forall_drop); by rewrite Epk.
Qed.

(** The parser of long headers is safe on arbitrary bytes.  Whatever a
    datagram of less than 64 KB holds, the parser reads inside it, and a packet
    it accepts has the type announced, its connection IDs, its token and its header inside the
    packet, the packet inside the datagram, and for the types that carry a
    packet number at least the four bytes that header protection looks at. *)
Theorem long_parse_safe data is_server :
  Forall byte_ok data -> blen data < 2 ^ 16 ->
  long_safe data (fun t => t = packet_type data) (lsquic_ietf_v1_parse_packet_in_long_begin (fresh_packet data) is_server).
Proof. apply long_parse_total. Qed.

Lemma long_parse_safe_witness :
  let data := [0xd0; 0; 0; 0; 1; 2; 7; 7; 1; 5; 3; 1; 2; 3; 4] in
  exists pk st, lsquic_ietf_v1_parse_packet_in_long_begin (fresh_packet data) true = Some (Some (pk, st))
    /\ pi_header_type pk = HETY_0RTT /\ pi_header_sz pk + 4 <= blen data.
Proof.
  intros data. destruct (long_parse_safe data true) as [H|(pk & st & H & _ & _ & _ & _ & _ & Hst)].
  - repeat constructor; vm_compute; first [discriminate|reflexivity].
  - reflexivity.
  - vm_compute in H. discriminate H.
  - exists pk, st. split; [exact H|]. vm_compute in H. injection H as <- <-. split; [reflexivity|exact (proj2 Hst)].
Defined.

(** The two checks of what follows the connection IDs of an Initial packet. *)
Lemma hs_token_agrees pk dcil data p rest :
  Forall byte_ok rest -> MIN_INITIAL_DCID_LEN <= dcil -> blen data = p + blen rest -> 0 <= p ->
  blen data < 2 ^ 16 -> pi_header_type pk = HETY_INITIAL ->
  hs_read_token (blen data) p rest = true
  <-> exists pk' st, long_initial pk true dcil (blen data) p rest = Some (Some (pk', st))
                     /\ pi_header_type pk' = HETY_INITIAL.
Proof.
  intros Hok Hd Hl Hp Hlen Hty. unfold hs_read_token, long_initial.
  replace (dcil <? MIN_INITIAL_DCID_LEN) with false by lia. cbn [andb].
  destruct (lsquic_varint_read rest) as [[r tl]|] eqn:E; [|naive_solver].
  destruct (varint_read_inv _ _ _ Hok E) as (b & Hb & Hr & Hv & Hle). fold (blen rest) in Hle.
  assert (1 <= r) by (rewrite Hr, Z.shiftl_1_l; change 1 with (2 ^ 0); apply Z.pow_le_mono_r; lia).
  cbn [negb]. rewrite andb_false_r.
  assert (forall pk0, pi_header_type pk0 = HETY_INITIAL ->
    (if blen data <=? p + r + tl then false
     else match lsquic_varint_read (drop (Z.to_nat tl) (drop (Z.to_nat r) rest)) with
          | Some (r0, pl) => if blen data <? p + r + tl + r0 + pl then false
                             else negb (blen data - (p + r + tl + r0) <? 4)
          | None => false
          end) = true
    <-> exists pk' st, long_payload pk0 (blen data) (p + r + tl) (drop (Z.to_nat tl) (drop (Z.to_nat r) rest))
                       = Some (Some (pk', st)) /\ pi_header_type pk' = HETY_INITIAL) as Hpay.
  { intros pk0 H0. unfold long_payload. destruct (_ <=? _); [naive_solver|].
    destruct (lsquic_varint_read (drop _ _)) as [[r0 pl]|]; [|naive_solver].
    destruct (_ <? _); [naive_solver|]. destruct (_ <? 4); cbn; [naive_solver|].
    split; [|done]. intros _. do 2 eexists. split; [reflexivity|done]. }
  destruct (Z.eqb_spec tl 0) as [->|Htl].
  { rewrite Hpay by exact Hty. rewrite !Z.add_0_r. cbn [Z.to_nat]. by rewrite drop_0. }
  change (Z.shiftl 1 16) with (2 ^ 16). destruct (Z.leb_spec (2 ^ 16) tl).
  { replace (blen data <=? p + r + tl) with true by lia. naive_solver. }
  destruct (Z.ltb_spec (blen data) (p + r + tl)); [|by apply Hpay].
  replace (blen data <=? p + r + tl) with true by lia. naive_solver.
Qed.

(** The bytes of a packet of at least six. *)
Lemma six_bytes (data : list Z) : 6 <= blen data -> exists f t0 t1 t2 t3 b rest, data = f :: t0 :: t1 :: t2 :: t3 :: b :: rest.
Proof.
  intros H6. destruct data as [|f [|t0 [|t1 [|t2 [|t3 [|b rest]]]]]]; try (vm_compute in H6; by destruct H6).
  by do 7 eexists.
Qed.

Lemma hs_other data : take 4 (tail data) <> [0; 0; 0; 0] -> packet_type data <> HETY_INITIAL ->
  lsquic_is_valid_ietf_v1_or_Q046plus_hs_packet data = Some None.
Proof.
  intros Ht0 Hty. unfold lsquic_is_valid_ietf_v1_or_Q046plus_hs_packet.
  destruct (Z.ltb_spec (blen data) 6) as [|H6]; [done|].
  destruct (six_bytes data H6) as (f & t0 & t1 & t2 & t3 & b & rest & ->).
  unfold packet_type in Hty. rewrite bool_decide_eq_false_2 in Hty by done. cbn [nth] in Hty.
  by rewrite (bool_decide_eq_false_2 _ Hty).
Qed.

Lemma hs_initial_agrees data :
  Forall byte_ok data -> blen data < 2 ^ 16 -> let tag := take 4 (tail data) in
  tag <> [0; 0; 0; 0] -> tag <> lsquic_ver2tag 1 -> tag <> lsquic_ver2tag 2 -> packet_type data = HETY_INITIAL ->
  exists ok : bool, lsquic_is_valid_ietf_v1_or_Q046plus_hs_packet data = Some (if ok then Some tag else None)
  /\ (ok = true <-> exists pk st,
        lsquic_ietf_v1_parse_packet_in_long_begin (fresh_packet data) true = Some (Some (pk, st))
        /\ pi_header_type pk = HETY_INITIAL).
Proof.
  intros Hok Hlen tag Ht0 Ht1 Ht2 Hty.
  unfold lsquic_is_valid_ietf_v1_or_Q046plus_hs_packet, lsquic_ietf_v1_parse_packet_in_long_begin.
  cbn [pi_data fresh_packet].
  destruct (Z.ltb_spec (blen data) 6) as [|H6]; [exists false; naive_solver|].
  destruct (six_bytes data H6) as (f & t0 & t1 & t2 & t3 & dcil & rest & ->).
  set (data := f :: _) in *. assert (blen data = 6 + blen rest) as Hl by (unfold data; rewrite !blen_cons; lia).
  assert (tag = [t0; t1; t2; t3]) as Etag by done. clearbody tag. subst tag.
  assert (byte_ok dcil /\ Forall byte_ok rest) as [Hdc Hrest].
  { unfold data in Hok. do 6 (apply Forall_cons in Hok as [? Hok]). done. }
  assert (bits2ht (Z.land (Z.shiftr f 4) 3) = HETY_INITIAL) as Hbt.
  { unfold packet_type in Hty. by rewrite bool_decide_eq_false_2 in Hty. }
  rewrite (bool_decide_eq_false_2 _ Ht0), (bool_decide_eq_false_2 _ Ht1), (bool_decide_eq_false_2 _ Ht2), Hbt.
  rewrite bool_decide_eq_true_2 by done. cbn [negb]. unfold MAX_CID_LEN, byte_ok in *.
  destruct (Z.ltb_spec 20 dcil); [rewrite !orb_true_r; exists false; naive_solver|]. rewrite !orb_false_r.
  destruct (Z.leb_spec (blen data) (6 + dcil)).
  { exists false. destruct (dcil <? MIN_INITIAL_DCID_LEN); naive_solver. }
  pose proof (blen_drop dcil rest ltac:(lia)) as Hdd.
  destruct (drop (Z.to_nat dcil) rest) as [|scil rest2] eqn:Ed; [change (blen []) with 0 in Hdd; lia|].
  rewrite blen_cons in Hdd.
  assert (Forall byte_ok (scil :: rest2)) as [Hsc Hr2]%Forall_cons by (rewrite <- Ed; by apply Forall_drop).
  destruct (_ || _) eqn:Escil; [exists false; destruct (dcil <? MIN_INITIAL_DCID_LEN); naive_solver|].
  apply orb_false_iff in Escil as [E1%Z.ltb_ge E2%Z.ltb_ge]. unfold byte_ok in Hsc.
  pose proof (blen_drop scil rest2 ltac:(lia)) as Hd2.
  destruct (Z.ltb_spec dcil MIN_INITIAL_DCID_LEN) as [Hmin|Hmin].
  - exists false. unfold long_initial. replace (dcil <? MIN_INITIAL_DCID_LEN) with true by lia. naive_solver.
  - eexists. split; [reflexivity|]. apply hs_token_agrees; try done; try lia. by apply Forall_drop.
Qed.

(** The server's cheap check of a first packet agrees with the parser.  For
    a datagram of less than 64 KB with a version that is neither zero nor Q046
    nor Q050, [lsquic_is_valid_ietf_v1_or_Q046plus_hs_packet] accepts exactly
    the datagrams that the parser of long headers, run as a server, accepts as
    Initial packets, and it never reads behind the datagram. *)
Theorem hs_check_agrees data :
  Forall byte_ok data -> blen data < 2 ^ 16 ->
  let tag := take 4 (tail data) in
  tag <> [0; 0; 0; 0] -> tag <> lsquic_ver2tag 1 -> tag <> lsquic_ver2tag 2 ->
  (exists v, lsquic_is_valid_ietf_v1_or_Q046plus_hs_packet data = Some v /\ (v = None \/ v = Some tag))
  /\ (lsquic_is_valid_ietf_v1_or_Q046plus_hs_packet data = Some (Some tag)
      <-> exists pk st, lsquic_ietf_v1_parse_packet_in_long_begin (fresh_packet data) true = Some (Some (pk, st))
                        /\ pi_header_type pk = HETY_INITIAL).
Proof.
  intros Hok Hlen tag Ht0 Ht1 Ht2.
  destruct (decide (packet_type data = HETY_INITIAL)) as [Hty|Hty].
  - destruct (hs_initial_agrees data Hok Hlen Ht0 Ht1 Ht2 Hty) as (ok & -> & Hiff).
    destruct ok; split; try (eexists; split; [reflexivity|naive_solver]); naive_solver.
  - assert (lsquic_is_valid_ietf_v1_or_Q046plus_hs_packet data = Some None) as Hv by (by apply hs_other).
    rewrite Hv. split; [naive_solver|]. split; [done|]. intros (pk & st & Hp & Hi).
    destruct (long_parse_total data true Hok Hlen) as [H|(pk' & st' & H & _ & H' & _)]; rewrite Hp in H; [done|].
    injection H as -> ->. congruence.
Qed.

Lemma hs_check_agrees_witness :
  let data := [0xc0; 0; 0; 0; 1; 8; 1; 2; 3; 4; 5; 6; 7; 8; 0; 0; 4; 9; 9; 9; 9] in
  lsquic_is_valid_ietf_v1_or_Q046plus_hs_packet data = Some (Some [0; 0; 0; 1])
  /\ exists pk st, lsquic_ietf_v1_parse_packet_in_long_begin (fresh_packet data) true = Some (Some (pk, st))
                   /\ pi_header_type pk = HETY_INITIAL.
Proof.
  intros data. split; [reflexivity|]. apply (hs_check_agrees data).
  - repeat constructor; vm_compute; first [discriminate|reflexivity].
  - reflexivity.
  - discriminate.
  - discriminate.
  - discriminate.
  - reflexivity.
Defined.

(** * Version negotiation *)

Lemma land_bit m n : 0 <= n -> (Z.land m (Z.shiftl 1 n) =? 0) = negb (Z.testbit m n).
Proof.
  intros Hn. rewrite Z.shiftl_1_l. destruct (Z.testbit m n) eqn:E; cbn.
  - apply Z.eqb_neq. intros H. apply (f_equal (fun x => Z.testbit x n)) in H.
    rewrite Z.land_spec, E, Z.pow2_bits_true, Z.testbit_0_l in H by done. done.
  - apply Z.eqb_eq, Z.bits_inj'. intros i Hi. rewrite Z.land_spec, Z.pow2_bits_eqb, Z.testbit_0_l by done.
    destruct (Z.eqb_spec n i); [subst; by rewrite E|by rewrite andb_false_r].
Qed.

(** The tags of the versions from [n] to [n + k - 1] that are in the mask. *)
Definition tags_of (mask : Z) (n k : nat) : list (list Z) :=
  map lsquic_ver2tag (List.filter (fun i => Z.testbit mask (Z.of_nat i)) (seq n k)).

Lemma tags_of_ext m m' n k :
  (forall i, (n <= i < n + k)%nat -> Z.testbit m (Z.of_nat i) = Z.testbit m' (Z.of_nat i)) ->
  tags_of m n k = tags_of m' n k.
Proof.
  intros H. unfold tags_of. f_equal. apply List.filter_ext_in. intros i Hi%in_seq. by apply H.
Qed.

Lemma tags_of_S m n k :
  tags_of m n (S k) = (if Z.testbit m (Z.of_nat n) then [lsquic_ver2tag n] else []) ++ tags_of m (S n) k.
Proof. unfold tags_of. cbn [seq List.filter]. by destruct (Z.testbit m (Z.of_nat n)). Qed.

Lemma blen_tags m n k : blen (concat (tags_of m n k)) = 4 * Z.of_nat (length (tags_of m n k)).
Proof.
  revert n. induction k as [|k IH]; intros n; [done|]. rewrite tags_of_S, concat_app, blen_app, length_app, IH.
  destruct (Z.testbit m (Z.of_nat n)); cbn [concat length app].
  - rewrite app_nil_r. unfold blen. rewrite (proj1 (ver2tag_ok n)). lia.
  - change (blen []) with 0. lia.
Qed.

Lemma gen_tags_loop_ok k n fuel bufsz mask p :
  0 <= mask -> (forall i, 0 <= i -> Z.testbit mask i = true -> Z.of_nat n <= i < Z.of_nat (n + k)) ->
  (n + k <= 7)%nat -> (k < fuel)%nat -> blen p + blen (concat (tags_of mask n k)) <= bufsz ->
  gen_ver_tags_loop fuel bufsz mask n p = Some (GOk (p ++ concat (tags_of mask n k))).
Proof.
  revert n fuel mask p. induction k as [|k IH]; intros n fuel mask p Hm Hbits H7 Hf Hsz;
    (destruct fuel as [|fuel]; [lia|]); cbn [gen_ver_tags_loop]; destruct (Z.eqb_spec mask 0) as [->|Hm0].
  - by rewrite app_nil_r.
  - exfalso. destruct (Hbits (Z.log2 mask) (Z.log2_nonneg _) (Z.bit_log2 mask ltac:(lia))). lia.
  - assert (forall a b, tags_of 0 a b = []) as Hnil; [|by rewrite Hnil, app_nil_r].
    intros a b. revert a. induction b as [|b IHb]; intros a; [done|]. rewrite tags_of_S, Z.testbit_0_l. apply IHb.
  - rewrite tags_of_S, concat_app in Hsz |- *. rewrite land_bit by lia.
    destruct (Z.testbit mask (Z.of_nat n)) eqn:Ebit; cbn [negb concat app] in *.
    + rewrite app_nil_r in *. rewrite blen_app in Hsz. destruct (ver2tag_ok n) as [Hl4 _].
      assert (blen (lsquic_ver2tag n) = 4) as Hb4 by (unfold blen; by rewrite Hl4).
      pose proof (blen_nonneg (concat (tags_of mask (S n) k))).
      replace (bufsz <? blen p + 4) with false by lia.
      rewrite bool_decide_eq_false_2 by (apply ver2tag_nonzero; lia).
      set (mask' := Z.ldiff mask (Z.shiftl 1 (Z.of_nat n))).
      assert (forall i, 0 <= i -> Z.testbit mask' i = Z.testbit mask i && negb (Z.of_nat n =? i)) as Hspec.
      { intros i Hi. unfold mask'. by rewrite Z.ldiff_spec, Z.shiftl_1_l, Z.pow2_bits_eqb by lia. }
      assert (tags_of mask (S n) k = tags_of mask' (S n) k) as Etags.
      { apply tags_of_ext. intros i Hi. rewrite Hspec by lia. replace (_ =? _) with false by lia. by rewrite andb_true_r. }
      rewrite Etags in *. rewrite IH.
      * by rewrite <- app_assoc.
      * apply Z.ldiff_nonneg. by left.
      * intros i Hi. rewrite Hspec by done. intros [H1 H2]%andb_prop. specialize (Hbits i Hi H1).
        apply negb_true_iff, Z.eqb_neq in H2. lia.
      * lia.
      * lia.
      * rewrite blen_app. lia.
    + apply IH; try done; [|lia..]. intros i Hi Hb. specialize (Hbits i Hi Hb).
      assert (i <> Z.of_nat n) by congruence. lia.
Qed.

Lemma popcount_tags k m : popcount_bits k m = Z.of_nat (length (tags_of m 0 k)).
Proof.
  induction k as [|k IH]; [done|]. cbn [popcount_bits]. rewrite IH, land_bit, negb_involutive by lia.
  unfold tags_of. rewrite seq_S, List.filter_app, map_app, length_app. cbn [List.filter Nat.add].
  destruct (Z.testbit m (Z.of_nat k)); cbn; lia.
Qed.

Lemma ver_walk_ok ts fuel pk a :
  Forall (fun t => length t = 4%nat) ts -> pi_data pk = a ++ concat ts -> pi_header_sz pk = blen (pi_data pk) ->
  (length ts < fuel)%nat -> ver_walk fuel pk (blen a) = Some ts.
Proof.
  revert fuel a. induction ts as [|t ts IH]; intros fuel a Hts Hd Hsz Hf;
    (destruct fuel as [|fuel]; [lia|]); cbn [ver_walk]; unfold lsquic_packet_in_ver_next;
    rewrite Hsz, Hd, blen_app; cbn [concat].
  - change (blen []) with 0. rewrite Z.add_0_r. replace (blen a + 4 <=? blen a) with false by lia.
    by rewrite Z.eqb_refl.
  - apply Forall_cons in Hts as [Ht Hts]. rewrite blen_app. pose proof (blen_nonneg (concat ts)).
    assert (blen t = 4) as Hb by (unfold blen; by rewrite Ht).
    replace (_ <=? _) with true by (symmetry; apply Z.leb_le; lia).
    assert (take 4 (drop (Z.to_nat (blen a)) (a ++ t ++ concat ts)) = t) as ->.
    { apply (slice_at a t (concat ts) (blen a) 4); [done|by symmetry]. }
    cbn [mbind option_bind]. replace (blen a + 4) with (blen (a ++ t)) by (rewrite blen_app; lia).
    cbn [length] in Hf.
    rewrite (IH fuel (a ++ t)); [done|done| |done|lia]. rewrite Hd. cbn [concat]. by rewrite <- app_assoc.
Qed.

Lemma tags_len m n k : Forall (fun t => length t = 4%nat) (tags_of m n k).
Proof.
  unfold tags_of. apply Forall_forall. intros t (i & <- & _)%list_elem_of_In%in_map_iff. apply ver2tag_ok.
Qed.

Lemma tags_of_7 m : 0 <= m < 2 ^ 7 -> tags_of m 0 32 = tags_of m 0 7.
Proof.
  intros Hm. unfold tags_of. change (seq 0 32) with (seq 0 7 ++ seq 7 25). rewrite List.filter_app, map_app.
  assert (List.filter (fun i => Z.testbit m (Z.of_nat i)) (seq 7 25) = []) as ->; [|by rewrite app_nil_r].
  erewrite List.filter_ext_in; [apply List.filter_false|]. intros i Hi%in_seq. cbn.
  apply Z.bits_above_log2; [lia|]. destruct (Z.eq_dec m 0) as [->|]; [cbn; lia|].
  apply (Z.lt_le_trans _ 7); [apply Z.log2_lt_pow2; lia|lia].
Qed.

Lemma ver_tags_nonempty m : 0 < m < 2 ^ 7 -> tags_of m 0 7 <> [].
Proof.
  intros Hm Hnil. pose proof (Z.log2_nonneg m). pose proof (proj1 (Z.log2_lt_pow2 m 7 ltac:(lia)) ltac:(lia)).
  assert (In (lsquic_ver2tag (Z.to_nat (Z.log2 m))) (tags_of m 0 7)) as Hin; [|by rewrite Hnil in Hin].
  apply in_map, List.filter_In. split; [apply in_seq; lia|].
  rewrite Z2Nat.id by done. apply Z.bit_log2. lia.
Qed.

(** Version negotiation.  For a non-empty set of supported versions and
    connection IDs of at most 20 bytes, the packet generated (when the buffer
    is large enough) is accepted by the parser of long headers as a version
    negotiation packet with the same connection IDs, and walking it with
    [ver_first]/[ver_next] yields exactly the tags of those versions, in
    order. *)
Theorem ver_nego_roundtrip scid dcid versions rand bufsz is_server :
  0 < versions < 2 ^ 7 -> blen scid <= MAX_CID_LEN -> blen dcid <= MAX_CID_LEN ->
  7 + blen dcid + blen scid + 4 * Z.of_nat (length (tags_of versions 0 7)) <= bufsz ->
  exists pkt pk, lsquic_ietf_v1_gen_ver_nego_pkt bufsz scid dcid versions rand = Some (GOk pkt)
    /\ blen pkt <= bufsz
    /\ lsquic_ietf_v1_parse_packet_in_long_begin (fresh_packet pkt) is_server = Some (Some (pk, (None, 0)))
    /\ pi_header_type pk = HETY_VERNEG /\ pi_dcid pk = dcid /\ lsquic_scid_from_packet_in pk = scid
    /\ ver_walk 8 pk (pi_quic_ver pk) = Some (tags_of versions 0 7).
Proof.
  intros Hv Hs Hd Hsz. pose proof (blen_nonneg scid). pose proof (blen_nonneg dcid).
  set (ts := tags_of versions 0 7) in *.
  assert (length ts <= 7)%nat as Hl7.
  { unfold ts, tags_of. rewrite length_map. etransitivity; [apply List.filter_length_le|]. done. }
  assert (1 <= Z.of_nat (length ts)) as Hl1.
  { apply ver_tags_nonempty in Hv. fold ts in Hv. destruct ts; [done|cbn; lia]. }
  assert (blen (concat ts) = 4 * Z.of_nat (length ts)) as Hbt by apply blen_tags.
  set (first := u8 (Z.lor (Z.lor 0x80 QUIC_BIT) rand)).
  exists (cids first [0; 0; 0; 0] dcid scid ++ concat ts).
  set (pkt := cids first [0; 0; 0; 0] dcid scid ++ concat ts).
  assert (blen pkt = 7 + blen dcid + blen scid + 4 * Z.of_nat (length ts)) as Hpl.
  { unfold pkt. rewrite blen_app, blen_cids by done. lia. }
  unfold MAX_CID_LEN in *. eexists. split_and!; [|lia|..].
  - unfold lsquic_ietf_v1_gen_ver_nego_pkt, popcount. rewrite popcount_tags, tags_of_7 by lia. fold ts.
    replace (bufsz <? _) with false by (symmetry; apply Z.ltb_ge; lia).
    unfold lsquic_gen_ver_tags. rewrite (gen_tags_loop_ok 7); [..|fold ts; change (blen []) with 0; lia]; try lia.
    + cbn [mbind option_bind app]. fold ts. rewrite Hbt, Z.mul_comm, Z.eqb_refl. do 2 f_equal.
    + intros i Hi Hbit. split; [lia|]. destruct (Z.le_gt_cases 7 i) as [Hge|]; [|cbn; lia]. exfalso.
      rewrite Z.bits_above_log2 in Hbit; [done|lia|]. apply (Z.lt_le_trans _ 7); [apply Z.log2_lt_pow2; lia|lia].
  - unfold pkt. rewrite long_parse_cids by (unfold MAX_CID_LEN; done || lia). fold pkt.
    rewrite bool_decide_eq_true_2 by done. unfold long_verneg.
    replace (blen pkt <=? _) with false by lia.
    replace (blen pkt - (7 + blen dcid + blen scid)) with (Z.of_nat (length ts) * 2 ^ 2) by lia.
    rewrite Z.land_comm. change 3 with (Z.ones 2). rewrite Z.land_ones, Z.mod_mul by lia. cbn [Z.eqb negb orb].
    reflexivity.
  - done.
  - done.
  - apply (cids_scid first [0; 0; 0; 0] dcid scid (concat ts) HETY_VERNEG); reflexivity.
  - cbn [with_quic_ver pi_quic_ver]. rewrite wrapu_id by (unfold is_u; lia).
    replace (7 + blen dcid + blen scid) with (blen (cids first [0; 0; 0; 0] dcid scid)) by (by rewrite blen_cids).
    apply ver_walk_ok; [apply tags_len|done| |lia]. cbn [pi_header_sz pi_data with_quic_ver cid_packet].
    rewrite wrapu_id by (unfold is_u; lia). done.
Qed.

Lemma ver_nego_roundtrip_witness :
  exists pkt pk, lsquic_ietf_v1_gen_ver_nego_pkt 50 [1; 2] [3; 4; 5] 0x30 7 = Some (GOk pkt)
    /\ lsquic_ietf_v1_parse_packet_in_long_begin (fresh_packet pkt) false = Some (Some (pk, (None, 0)))
    /\ pi_dcid pk = [3; 4; 5] /\ ver_walk 8 pk (pi_quic_ver pk) = Some [[0xff; 0; 0; 29]; [0; 0; 0; 1]].
Proof.
  destruct (ver_nego_roundtrip [1; 2] [3; 4; 5] 0x30 7 50 false) as (pkt & pk & H1 & _ & H2 & _ & H3 & _ & H4).
  - lia.
  - vm_compute. discriminate.
  - vm_compute. discriminate.
  - vm_compute. discriminate.
  - exists pkt, pk. split; [exact H1|]. split; [exact H2|]. split; [exact H3|exact H4].
Defined.
