(* ===== verification/Heap.v ===== *)
(** Binary heaps: lsquic_min_heap.c, and the order theory that both it and the
    advisory tick time queue of Attq.v rest on.

    A heap is the list of the elements in use, [mh_nelem] is its length.
    Indices are natural numbers: the code's [unsigned] arithmetic on them does
    not wrap as long as there are fewer than 2^31 elements. *)
From S2P Require Import Prelude.
Local Open Scope Z_scope.

(** * The array and its order *)

Definition MHE_PARENT (i : nat) : nat := (i - 1) / 2.
Definition MHE_LCHILD (i : nat) : nat := 2 * i + 1.
Definition MHE_RCHILD (i : nat) : nat := 2 * i + 2.

(** The three assignments that exchange two elements of an array; [None] when
    an index is out of range. *)
Definition swap {A} (l : list A) (a b : nat) : option (list A) :=
  x ← l !! a; y ← l !! b; Some (<[b := x]> (<[a := y]> l)).

Section order.
Context {A : Type} (key : A -> Z).

(** The key at an index. *)
Definition kat (l : list A) (j : nat) : Z := from_option key 0 (l !! j).

(** Every element but possibly those at [i] in relation to their parents. *)
Definition ordered_but (i : nat) (l : list A) : Prop :=
  forall j, (0 < j < length l)%nat -> j <> i -> kat l (MHE_PARENT j) <= kat l j.

Definition heap (l : list A) : Prop :=
  forall j, (0 < j < length l)%nat -> kat l (MHE_PARENT j) <= kat l j.

(** Every element but possibly the children of [i]. *)
Definition ordered_below (i : nat) (l : list A) : Prop :=
  forall j, (0 < j < length l)%nat -> MHE_PARENT j <> i -> kat l (MHE_PARENT j) <= kat l j.

(** The children of [i] are not below its parent. *)
Definition bridged (i : nat) (l : list A) : Prop :=
  forall j, (0 < j < length l)%nat -> MHE_PARENT j = i -> (0 < i)%nat ->
  kat l (MHE_PARENT i) <= kat l j.

End order.

Lemma parent_lt i : (0 < i)%nat -> (MHE_PARENT i < i)%nat.
Proof. unfold MHE_PARENT. intros. apply Nat.Div0.div_lt_upper_bound. lia. Qed.

Lemma parent_child i j : (0 < j)%nat -> MHE_PARENT j = i <-> j = MHE_LCHILD i \/ j = MHE_RCHILD i.
Proof.
  unfold MHE_PARENT, MHE_LCHILD, MHE_RCHILD. intros.
  pose proof (Nat.div_mod_eq (j - 1) 2). pose proof (Nat.mod_upper_bound (j - 1) 2). lia.
Qed.

Section swap.
Context {A : Type} (key : A -> Z).
Implicit Types l : list A.

Lemma swap_Some l a b : (a < length l)%nat -> (b < length l)%nat -> exists l', swap l a b = Some l'.
Proof.
  intros [x Hx]%lookup_lt_is_Some [y Hy]%lookup_lt_is_Some. unfold swap. rewrite Hx, Hy. by eexists.
Qed.

Lemma swap_length l a b l' : swap l a b = Some l' -> length l' = length l.
Proof.
  unfold swap. destruct (l !! a), (l !! b); cbn; try done. intros [= <-]. by rewrite !length_insert.
Qed.

Lemma swap_perm l a b l' : swap l a b = Some l' -> l' ≡ₚ l.
Proof.
  unfold swap. destruct (l !! a) as [x|] eqn:Ha; [|done]. destruct (l !! b) as [y|] eqn:Hb; [|done].
  cbn. intros [= <-]. by apply Permutation_insert_swap.
Qed.

Lemma kat_swap l a b l' j : swap l a b = Some l' ->
  kat key l' j = if decide (j = b) then kat key l a else if decide (j = a) then kat key l b else kat key l j.
Proof.
  unfold swap, kat. destruct (l !! a) as [x|] eqn:Ha; [|done]. destruct (l !! b) as [y|] eqn:Hb; [|done].
  pose proof (lookup_lt_Some _ _ _ Ha). pose proof (lookup_lt_Some _ _ _ Hb).
  cbn. intros [= <-]. case_decide as E1; [subst; by rewrite list_lookup_insert_eq by (rewrite length_insert; lia)|].
  rewrite list_lookup_insert_ne by done. case_decide as E2; [subst; by rewrite list_lookup_insert_eq|].
  by rewrite list_lookup_insert_ne.
Qed.

Lemma kat_lookup l j x : l !! j = Some x -> kat key l j = key x.
Proof. unfold kat. by intros ->. Qed.

(** The top of a heap is a minimum. *)
Lemma heap_top l j : heap key l -> (j < length l)%nat -> kat key l 0 <= kat key l j.
Proof.
  intros Hh. induction j as [j IH] using lt_wf_ind. intros Hj. destruct j as [|j]; [lia|].
  etransitivity; [apply IH|apply Hh; lia].
  - apply parent_lt. lia.
  - pose proof (parent_lt (S j)). lia.
Qed.

Lemma heap_min l x y : heap key l -> head l = Some x -> y ∈ l -> key x <= key y.
Proof.
  intros Hh Hx [j Hj]%list_elem_of_lookup_1. pose proof (lookup_lt_Some _ _ _ Hj).
  rewrite <- (kat_lookup _ _ _ Hj), <- (kat_lookup l 0 x) by (by destruct l). by apply heap_top.
Qed.

End swap.

(** * The operations of lsquic_min_heap.c *)

Record min_heap_elem := MHE { mhe_item : Z; mhe_val : Z }.

Record min_heap := MH { mh_elems : list min_heap_elem; mh_nalloc : nat }.

Definition mh_nelem (h : min_heap) : nat := length (mh_elems h).

(** The index of the smallest of [i] and its children. *)
Definition smallest_of {A} (key : A -> Z) (l : list A) (i : nat) : option nat :=
  let n := length l in
  if (MHE_LCHILD i <? n)%nat then
    cl ← l !! MHE_LCHILD i; ci ← l !! i;
    let smallest := if key cl <? key ci then MHE_LCHILD i else i in
    if (MHE_RCHILD i <? n)%nat then
      cr ← l !! MHE_RCHILD i; cs ← l !! smallest;
      Some (if key cr <? key cs then MHE_RCHILD i else smallest)
    else Some smallest
  else Some i.

(** The recursion descends one level per call: [fuel] is the number of
    elements, more than the height. *)
Fixpoint heapify_min_heap (fuel : nat) (l : list min_heap_elem) (i : nat) : option (list min_heap_elem) :=
  match fuel with
  | O => None
  | S fuel =>
    if (i <? length l)%nat then
      smallest ← smallest_of mhe_val l i;
      if (smallest =? i)%nat then Some l else
      l ← swap l smallest i;
      heapify_min_heap fuel l smallest
    else None
  end.

(** The [while] loop of [lsquic_mh_insert]. *)
Fixpoint mh_sift_up (fuel : nat) (l : list min_heap_elem) (i : nat) : option (list min_heap_elem) :=
  match fuel with
  | O => None
  | S fuel =>
    if (0 <? i)%nat then
      p ← l !! MHE_PARENT i; c ← l !! i;
      if mhe_val c <? mhe_val p then
        l ← swap l (MHE_PARENT i) i;
        mh_sift_up fuel l (MHE_PARENT i)
      else Some l
    else Some l
  end.

(** [None]: the assertion fails. *)
Definition lsquic_mh_insert (h : min_heap) (item val : Z) : option min_heap :=
  if (mh_nelem h <? mh_nalloc h)%nat then
    let l := mh_elems h ++ [MHE item val] in
    l ← mh_sift_up (S (length l)) l (length l - 1);
    Some (MH l (mh_nalloc h))
  else None.

(** The item ([None] is NULL) and the heap. *)
Definition lsquic_mh_pop (h : min_heap) : option (option Z * min_heap) :=
  match mh_elems h with
  | [] => Some (None, h)
  | top :: _ =>
    let n := (mh_nelem h - 1)%nat in
    if (0 <? n)%nat then
      last ← mh_elems h !! n;
      let l := <[0%nat := last]> (take n (mh_elems h)) in
      l ← heapify_min_heap (S n) l 0;
      Some (Some (mhe_item top), MH l (mh_nalloc h))
    else Some (Some (mhe_item top), MH [] (mh_nalloc h))
  end.

(** * Moving one element up or down *)

Section steps.
Context {A : Type} (key : A -> Z).
Implicit Types l : list A.

Lemma up_step l i a b l' :
  ordered_but key i l -> bridged key i l -> (0 < i < length l)%nat ->
  kat key l i <= kat key l (MHE_PARENT i) ->
  (a = i /\ b = MHE_PARENT i \/ a = MHE_PARENT i /\ b = i) -> swap l a b = Some l' ->
  ordered_but key (MHE_PARENT i) l' /\ bridged key (MHE_PARENT i) l'.
Proof.
  intros Ho Hb Hi Hle Hab Hsw. pose proof (parent_lt i ltac:(lia)) as Hp.
  assert (forall j, kat key l' j = if decide (j = i) then kat key l (MHE_PARENT i)
    else if decide (j = MHE_PARENT i) then kat key l i else kat key l j) as Hk.
  { intros j. rewrite (kat_swap key _ _ _ _ j Hsw).
    destruct Hab as [[-> ->]|[-> ->]]; repeat case_decide; congruence || lia. }
  pose proof (swap_length _ _ _ _ Hsw) as Hlen. split.
  - intros j Hj Hne. rewrite Hlen in Hj. rewrite !Hk. pose proof (parent_lt j ltac:(lia)).
    pose proof (Ho j Hj). pose proof (Hb j Hj).
    destruct (decide (j = i)) as [->|Hji].
    { rewrite (decide_False (P := MHE_PARENT i = i)) by lia. by rewrite decide_True. }
    rewrite (decide_False (P := j = MHE_PARENT i)) by done.
    destruct (decide (MHE_PARENT j = i)) as [E|E]; [intuition lia|].
    destruct (decide (MHE_PARENT j = MHE_PARENT i)) as [E'|E']; [rewrite E' in *; intuition lia|intuition lia].
  - intros j Hj Hpar Hpos. rewrite Hlen in Hj. rewrite !Hk.
    pose proof (parent_lt (MHE_PARENT i) Hpos). pose proof (Ho (MHE_PARENT i) ltac:(lia) ltac:(lia)).
    rewrite (decide_False (P := MHE_PARENT (MHE_PARENT i) = i)) by lia.
    rewrite (decide_False (P := MHE_PARENT (MHE_PARENT i) = MHE_PARENT i)) by lia.
    destruct (decide (j = i)) as [->|Hji]; [done|]. pose proof (parent_lt j ltac:(lia)).
    rewrite decide_False by lia. pose proof (Ho j Hj Hji) as Hoj. rewrite Hpar in Hoj. lia.
Qed.

Lemma up_stop l i : ordered_but key i l ->
  (i = 0%nat \/ (length l <= i)%nat \/ kat key l (MHE_PARENT i) <= kat key l i) -> heap key l.
Proof.
  intros Ho Hi j Hj. destruct (decide (j = i)) as [->|]; [|by apply Ho]. destruct Hi as [?|[?|?]]; lia.
Qed.

Lemma smallest_of_ok l i : (i < length l)%nat ->
  exists s, smallest_of key l i = Some s /\ (s < length l)%nat
    /\ (s = i \/ MHE_PARENT s = i /\ (0 < s)%nat /\ kat key l s < kat key l i)
    /\ forall j, (0 < j < length l)%nat -> MHE_PARENT j = i -> kat key l s <= kat key l j.
Proof.
  intros Hi. unfold smallest_of.
  assert (forall j, (0 < j)%nat -> MHE_PARENT j = i <-> j = MHE_LCHILD i \/ j = MHE_RCHILD i) as Hpc
    by (intros; by apply parent_child).
  assert (0 < MHE_LCHILD i < MHE_RCHILD i)%nat as Hc by (unfold MHE_LCHILD, MHE_RCHILD; lia).
  destruct (Nat.ltb_spec (MHE_LCHILD i) (length l)) as [Hl|Hl].
  2: { exists i. split_and!; try done; [by left|]. intros j Hj [E|E]%Hpc; lia. }
  destruct (lookup_lt_is_Some_2 l _ Hl) as [cl Ecl]. destruct (lookup_lt_is_Some_2 l _ Hi) as [ci Eci].
  rewrite Ecl, Eci. cbn [mbind option_bind]. rewrite <- (kat_lookup key _ _ _ Ecl), <- (kat_lookup key _ _ _ Eci).
  set (s := if _ <? _ then MHE_LCHILD i else i).
  assert ((s < length l)%nat /\ (s = i \/ s = MHE_LCHILD i /\ kat key l s < kat key l i)
          /\ kat key l s <= kat key l (MHE_LCHILD i) /\ kat key l s <= kat key l i) as (Hs & Hs1 & Hs2 & Hs3).
  { unfold s. destruct (Z.ltb_spec (kat key l (MHE_LCHILD i)) (kat key l i)); split_and!; try lia; by left. }
  clearbody s. destruct (Nat.ltb_spec (MHE_RCHILD i) (length l)) as [Hr|Hr].
  2: { exists s. split_and!; try done.
       - destruct Hs1 as [->|[-> ?]]; [by left|right]. split_and!; [apply Hpc; [lia|by left]|lia|done].
       - intros j Hj [E|E]%Hpc; [by subst j|lia|lia]. }
  destruct (lookup_lt_is_Some_2 l _ Hr) as [cr Ecr]. destruct (lookup_lt_is_Some_2 l _ Hs) as [cs Ecs].
  rewrite Ecr, Ecs. cbn [mbind option_bind]. rewrite <- (kat_lookup key _ _ _ Ecr), <- (kat_lookup key _ _ _ Ecs).
  eexists. split; [reflexivity|]. destruct (Z.ltb_spec (kat key l (MHE_RCHILD i)) (kat key l s)).
  - split_and!; [done|right; split_and!; [apply Hpc; [lia|by right]|lia|lia]|].
    intros j Hj [E|E]%Hpc; [subst j; lia|subst j; lia|lia].
  - split_and!; [done| |].
    + destruct Hs1 as [->|[-> ?]]; [by left|right]. split_and!; [apply Hpc; [lia|by left]|lia|done].
    + intros j Hj [E|E]%Hpc; [by subst j|by subst j|lia].
Qed.

Lemma down_step l i s l' :
  ordered_below key i l -> bridged key i l -> (i < length l)%nat -> (0 < s < length l)%nat ->
  MHE_PARENT s = i -> kat key l s < kat key l i ->
  (forall j, (0 < j < length l)%nat -> MHE_PARENT j = i -> kat key l s <= kat key l j) ->
  swap l s i = Some l' -> ordered_below key s l' /\ bridged key s l'.
Proof.
  intros Ho Hb Hi Hs Hpar Hlt Hmin Hsw. pose proof (parent_lt s ltac:(lia)) as Hps.
  pose proof (swap_length _ _ _ _ Hsw) as Hlen.
  assert (forall j, kat key l' j = if decide (j = i) then kat key l s
    else if decide (j = s) then kat key l i else kat key l j) as Hk by (intros; by apply kat_swap).
  split.
  - intros j Hj Hne. rewrite Hlen in Hj. rewrite !Hk. pose proof (parent_lt j ltac:(lia)).
    pose proof (Ho j Hj). pose proof (Hmin j Hj). pose proof (Hb s Hs Hpar).
    destruct (decide (j = s)) as [->|Hjs].
    { rewrite (decide_True (P := MHE_PARENT s = i)) by done. rewrite decide_False by lia. lia. }
    rewrite (decide_False (P := MHE_PARENT j = s)) by done.
    destruct (decide (MHE_PARENT j = i)) as [E|E]; [rewrite decide_False by lia; by apply Hmin|].
    destruct (decide (j = i)) as [->|Hji]; [apply Hb; [done|done|lia]|by apply Ho].
  - intros j Hj Hpj _. rewrite Hlen in Hj. rewrite !Hk, Hpar. pose proof (parent_lt j ltac:(lia)).
    rewrite decide_True by done. rewrite decide_False by lia. rewrite decide_False by lia.
    pose proof (Ho j Hj ltac:(lia)) as Hoj. by rewrite Hpj in Hoj.
Qed.

Lemma down_stop l i : ordered_below key i l ->
  (forall j, (0 < j < length l)%nat -> MHE_PARENT j = i -> kat key l i <= kat key l j) -> heap key l.
Proof.
  intros Ho Hi j Hj. destruct (decide (MHE_PARENT j = i)) as [E|]; [|by apply Ho].
  rewrite E. by apply Hi.
Qed.

End steps.

(** * The min heap *)

Lemma mh_sift_up_ok fuel l i :
  ordered_but mhe_val i l -> bridged mhe_val i l -> (i < length l)%nat -> (i < fuel)%nat ->
  exists l', mh_sift_up fuel l i = Some l' /\ heap mhe_val l' /\ l' ≡ₚ l.
Proof.
  revert l i. induction fuel as [|fuel IH]; intros l i Ho Hb Hi Hf; [lia|]. cbn [mh_sift_up].
  destruct (Nat.ltb_spec 0 i) as [Hpos|Hpos].
  2: { exists l. split_and!; try done. eapply up_stop; [done|left; lia]. }
  pose proof (parent_lt i Hpos) as Hp.
  destruct (lookup_lt_is_Some_2 l (MHE_PARENT i) ltac:(lia)) as [p Ep].
  destruct (lookup_lt_is_Some_2 l i Hi) as [c Ec]. rewrite Ep, Ec. cbn [mbind option_bind].
  rewrite <- (kat_lookup mhe_val _ _ _ Ep), <- (kat_lookup mhe_val _ _ _ Ec).
  destruct (Z.ltb_spec (kat mhe_val l i) (kat mhe_val l (MHE_PARENT i))).
  - destruct (swap_Some l (MHE_PARENT i) i ltac:(lia) Hi) as [l1 Hsw]. rewrite Hsw. cbn [mbind option_bind].
    destruct (up_step mhe_val l i _ _ l1 Ho Hb ltac:(lia) ltac:(lia) ltac:(by right) Hsw) as [Ho1 Hb1].
    destruct (IH l1 (MHE_PARENT i) Ho1 Hb1) as (l' & -> & Hh & Hperm).
    + rewrite (swap_length _ _ _ _ Hsw). lia.
    + lia.
    + exists l'. split_and!; try done. by rewrite Hperm, (swap_perm _ _ _ _ Hsw).
  - exists l. split_and!; try done. eapply up_stop; [done|]. right. by right.
Qed.

Lemma heapify_ok fuel l i :
  ordered_below mhe_val i l -> bridged mhe_val i l -> (i < length l)%nat -> (length l - i <= fuel)%nat ->
  exists l', heapify_min_heap fuel l i = Some l' /\ heap mhe_val l' /\ l' ≡ₚ l.
Proof.
  revert l i. induction fuel as [|fuel IH]; intros l i Ho Hb Hi Hf; [lia|]. cbn [heapify_min_heap].
  replace (i <? length l)%nat with true by lia.
  destruct (smallest_of_ok mhe_val l i Hi) as (s & -> & Hs & Hcase & Hmin). cbn [mbind option_bind].
  destruct (Nat.eqb_spec s i) as [->|Hne].
  { exists l. split_and!; try done. by eapply down_stop. }
  destruct Hcase as [?|(Hpar & Hpos & Hlt)]; [done|].
  destruct (swap_Some l s i Hs Hi) as [l1 Hsw]. rewrite Hsw. cbn [mbind option_bind].
  destruct (down_step mhe_val l i s l1 Ho Hb Hi ltac:(lia) Hpar Hlt Hmin Hsw) as [Ho1 Hb1].
  pose proof (swap_length _ _ _ _ Hsw) as Hlen. pose proof (parent_lt s Hpos).
  destruct (IH l1 s Ho1 Hb1 ltac:(lia) ltac:(lia)) as (l' & -> & Hh & Hperm).
  exists l'. split_and!; try done. by rewrite Hperm, (swap_perm _ _ _ _ Hsw).
Qed.

Lemma kat_app_l {A} (key : A -> Z) l k j : (j < length l)%nat -> kat key (l ++ k) j = kat key l j.
Proof. intros. unfold kat. by rewrite lookup_app_l. Qed.

(** Appending an element to a heap. *)
Lemma heap_snoc {A} (key : A -> Z) l x : heap key l ->
  ordered_but key (length l) (l ++ [x]) /\ bridged key (length l) (l ++ [x]).
Proof.
  intros Hh. split; intros j; rewrite length_app; cbn [length]; intros Hj Hne.
  - pose proof (parent_lt j ltac:(lia)). rewrite !kat_app_l by lia. apply Hh. lia.
  - pose proof (parent_lt j ltac:(lia)). lia.
Qed.

(** Dropping the last element of a heap. *)
Lemma heap_take {A} (key : A -> Z) l n : heap key l -> (n <= length l)%nat -> heap key (take n l).
Proof.
  intros Hh Hn j. rewrite length_take, Nat.min_l by lia. intros Hj. pose proof (parent_lt j ltac:(lia)).
  unfold kat. rewrite !lookup_take_lt by lia. apply Hh. lia.
Qed.

Lemma kat_insert {A} (key : A -> Z) l i x j : (i < length l)%nat ->
  kat key (<[i := x]> l) j = if decide (j = i) then key x else kat key l j.
Proof.
  intros Hi. unfold kat. case_decide as E; [subst; by rewrite list_lookup_insert_eq|].
  by rewrite list_lookup_insert_ne.
Qed.

(** Replacing the element at [i]: its children stay above its parent, and only
    one of the two directions can be out of order. *)
Lemma heap_replace {A} (key : A -> Z) l i x : heap key l -> (i < length l)%nat ->
  bridged key i (<[i := x]> l)
  /\ (i = 0%nat \/ kat key l (MHE_PARENT i) <= key x -> ordered_below key i (<[i := x]> l))
  /\ ((0 < i)%nat -> key x <= kat key l (MHE_PARENT i) -> ordered_but key i (<[i := x]> l)).
Proof.
  intros Hh Hi. split_and!.
  - intros j. rewrite length_insert. intros Hj Hpar Hpos. rewrite !kat_insert by done.
    pose proof (parent_lt j ltac:(lia)). pose proof (parent_lt i ltac:(lia)).
    rewrite !decide_False by lia. pose proof (Hh j Hj) as H1. rewrite Hpar in H1. pose proof (Hh i ltac:(lia)). lia.
  - intros Hx j. rewrite length_insert. intros Hj Hpar. rewrite !kat_insert by done.
    rewrite (decide_False (P := MHE_PARENT j = i)) by done. case_decide as E; [|by apply Hh]. subst j. lia.
  - intros Hpos Hx j. rewrite length_insert. intros Hj Hne. rewrite !kat_insert by done.
    rewrite (decide_False (P := j = i)) by done. case_decide as E; [|by apply Hh].
    pose proof (Hh j Hj) as H1. rewrite E in H1. pose proof (Hh i ltac:(lia)). lia.
Qed.

(** Removing the element at [i] by moving the last one into its place. *)
Lemma remove_perm {A} (l : list A) i n x y :
  n = (length l - 1)%nat -> l !! i = Some x -> l !! n = Some y -> (i < n)%nat ->
  x :: <[i := y]> (take n l) ≡ₚ l.
Proof.
  intros -> Hx Hy Hi. pose proof (lookup_lt_Some _ _ _ Hy).
  rewrite <- (take_drop_middle l _ y Hy) at 3.
  assert (drop (S (length l - 1)) l = []) as -> by (apply drop_ge; lia).
  assert (take (length l - 1) l !! i = Some x) as Hti by (by rewrite lookup_take_lt).
  rewrite <- (take_drop_middle _ _ _ Hti) at 2. rewrite insert_take_drop by (by eapply lookup_lt_Some).
  rewrite <- Permutation_cons_append, <- !Permutation_middle. apply Permutation_swap.
Qed.

Lemma mh_insert_ok h item val :
  heap mhe_val (mh_elems h) -> (mh_nelem h < mh_nalloc h)%nat ->
  exists h', lsquic_mh_insert h item val = Some h' /\ heap mhe_val (mh_elems h')
    /\ mh_elems h' ≡ₚ MHE item val :: mh_elems h /\ mh_nalloc h' = mh_nalloc h.
Proof.
  intros Hh Hn. unfold lsquic_mh_insert. replace (_ <? _)%nat with true by lia.
  destruct (heap_snoc mhe_val (mh_elems h) (MHE item val) Hh) as [Ho Hb].
  assert (length (mh_elems h ++ [MHE item val]) - 1 = length (mh_elems h))%nat as ->
    by (rewrite length_app; cbn; lia).
  destruct (mh_sift_up_ok (S (length (mh_elems h ++ [MHE item val]))) _ _ Ho Hb) as (l' & -> & Hl & Hp);
    [rewrite length_app; cbn; lia..|].
  eexists. split; [reflexivity|]. split_and!; try done. cbn [mh_elems]. rewrite Hp.
  by rewrite Permutation_app_comm.
Qed.

Lemma mh_pop_ok h top l :
  heap mhe_val (mh_elems h) -> mh_elems h = top :: l ->
  exists h', lsquic_mh_pop h = Some (Some (mhe_item top), h') /\ heap mhe_val (mh_elems h')
    /\ mh_elems h ≡ₚ top :: mh_elems h' /\ mh_nalloc h' = mh_nalloc h.
Proof.
  destruct h as [els nalloc]. cbn [mh_elems mh_nalloc]. intros Hh ->.
  unfold lsquic_mh_pop, mh_nelem. cbn [mh_elems mh_nalloc].
  destruct (Nat.ltb_spec 0 (length (top :: l) - 1)) as [Hn|Hn].
  - set (els := top :: l) in *. set (n := (length els - 1)%nat) in *.
    destruct (lookup_lt_is_Some_2 els n ltac:(unfold n; lia)) as [y Ey]. rewrite Ey.
    cbn [mbind option_bind]. pose proof (heap_take mhe_val _ n Hh ltac:(lia)) as Ht.
    assert (length (take n els) = n) as Htl by (rewrite length_take; lia).
    destruct (heap_replace mhe_val _ 0 y Ht ltac:(lia)) as (Hb & Ho & _).
    destruct (heapify_ok (S n) _ 0 (Ho ltac:(by left)) Hb) as (l' & -> & Hl & Hp);
      [rewrite length_insert; lia..|].
    eexists. split; [reflexivity|]. split_and!; try done. cbn [mh_elems]. rewrite Hp.
    symmetry. by apply (remove_perm _ 0 n).
  - destruct l; [|cbn in *; lia]. eexists. split; [reflexivity|]. split_and!; try done.
Qed.

(** The min heap is a priority queue.  In a heap, inserting with room to
    spare adds exactly the new element, inserting into a full one fails its
    assertion, popping an empty heap returns NULL, and popping any other one
    returns the item of an element whose value is least and removes exactly
    that element; the array stays a heap, and no operation reads or writes
    outside of it. *)
Theorem mh_priority_queue h item val :
  heap mhe_val (mh_elems h) ->
  ((mh_nelem h < mh_nalloc h)%nat ->
   exists h', lsquic_mh_insert h item val = Some h' /\ heap mhe_val (mh_elems h')
     /\ mh_elems h' ≡ₚ MHE item val :: mh_elems h /\ mh_nalloc h' = mh_nalloc h)
  /\ ((mh_nalloc h <= mh_nelem h)%nat -> lsquic_mh_insert h item val = None)
  /\ (mh_elems h = [] -> lsquic_mh_pop h = Some (None, h))
  /\ (mh_elems h <> [] ->
      exists top h', lsquic_mh_pop h = Some (Some (mhe_item top), h') /\ heap mhe_val (mh_elems h')
        /\ mh_elems h ≡ₚ top :: mh_elems h' /\ (forall e, e ∈ mh_elems h -> mhe_val top <= mhe_val e)
        /\ mh_nalloc h' = mh_nalloc h).
Proof.
  intros Hh. split_and!.
  - by apply mh_insert_ok.
  - intros Hn. unfold lsquic_mh_insert. by replace (_ <? _)%nat with false by lia.
  - intros E. unfold lsquic_mh_pop. by rewrite E.
  - intros Hne. destruct (mh_elems h) as [|top l] eqn:El; [done|].
    destruct (mh_pop_ok h top l) as (h' & Hp & H1 & H2 & H3); try done; [by rewrite El|].
    exists top, h'. rewrite El in H2. split_and!; try done. intros e He.
    by apply (heap_min mhe_val (top :: l)).
Qed.

Lemma mh_priority_queue_witness :
  exists top h', lsquic_mh_pop (MH [MHE 1 3; MHE 2 7; MHE 3 5; MHE 4 8] 6) = Some (Some (mhe_item top), h')
    /\ mhe_item top = 1 /\ mhe_val top <= 5.
Proof.
  destruct (mh_priority_queue (MH [MHE 1 3; MHE 2 7; MHE 3 5; MHE 4 8] 6) 0 0) as (_ & _ & _ & H).
  - intros j Hj. cbn in Hj. do 4 (destruct j as [|j]; [vm_compute; first [discriminate|lia]|]). lia.
  - destruct H as (top & h' & Hp & _ & _ & Hm & _); [discriminate|].
    exists top, h'. split; [exact Hp|]. split; [destruct top; vm_compute in Hp; injection Hp as <- _; reflexivity|].
    apply (Hm (MHE 3 5)). cbn. do 2 apply list_elem_of_further. apply list_elem_of_here.
Defined.
