(* ===== verification/Attq.v ===== *)
(** The advisory tick time queue, lsquic_attq.c: connections in a binary heap
    ordered by the time they want to tick, each with a pointer back to its
    element and each element with its index in the array.

    Elements are shared between the array, the connections and the allocator,
    so memory is explicit: [aq_elems] maps the pointers in use to elements and
    [cn_attq_elem] maps connections to pointers.  The two allocations a call
    can make are arguments. *)
From stdpp Require Import gmap.
From S2P Require Import Prelude Heap.
Local Open Scope Z_scope.

Record attq_elem := AE {
  ae_conn : Z;
  ae_adv_time : Z;
  ae_heap_idx : nat;
  ae_why : Z
}.

(** [aq_heap] holds the [aq_nelem] pointers in use. *)
Record attq := AQ {
  aq_heap : list Z;
  aq_nalloc : nat;
  aq_elems : gmap Z attq_elem;
  cn_attq_elem : gmap Z Z
}.

Definition aq_nelem (q : attq) : nat := length (aq_heap q).

Definition lsquic_attq_create : attq := AQ [] 0 ∅ ∅.

(** [ptr->ae_heap_idx = i] *)
Definition set_heap_idx (es : gmap Z attq_elem) (ptr : Z) (i : nat) : option (gmap Z attq_elem) :=
  e ← es !! ptr; Some (<[ptr := AE (ae_conn e) (ae_adv_time e) i (ae_why e)]> es).

(** The array and the elements, which the loops change together. *)
Definition mem : Type := (list Z * gmap Z attq_elem)%type.

Definition attq_swap (m : mem) (a b : nat) : option mem :=
  h ← swap m.1 a b;
  pa ← h !! a; pb ← h !! b;
  es ← set_heap_idx m.2 pa a;
  es ← set_heap_idx es pb b;
  Some (h, es).

(** [q->aq_heap[i]->ae_adv_time] *)
Definition adv_time (m : mem) (i : nat) : option Z :=
  p ← m.1 !! i; e ← m.2 !! p; Some (ae_adv_time e).

(** The loops that move an element up: [before cur parent] is the condition
    under which the two are swapped. *)
Fixpoint attq_up (fuel : nat) (before : Z -> Z -> bool) (m : mem) (i : nat) : option mem :=
  match fuel with
  | O => None
  | S fuel =>
    if (0 <? i)%nat then
      cur ← adv_time m i; par ← adv_time m (MHE_PARENT i);
      if before cur par then
        m ← attq_swap m i (MHE_PARENT i);
        attq_up fuel before m (MHE_PARENT i)
      else Some m
    else Some m
  end.

(** The index [smallest] that [attq_heapify] computes; [nelem] is [q->aq_nelem]. *)
Definition attq_smallest (m : mem) (nelem i : nat) : option nat :=
  if (MHE_LCHILD i <? nelem)%nat then
    cl ← adv_time m (MHE_LCHILD i); ci ← adv_time m i;
    let smallest := if cl <? ci then MHE_LCHILD i else i in
    if (MHE_RCHILD i <? nelem)%nat then
      cr ← adv_time m (MHE_RCHILD i); cs ← adv_time m smallest;
      Some (if cr <? cs then MHE_RCHILD i else smallest)
    else Some smallest
  else Some i.

Fixpoint attq_heapify (fuel : nat) (m : mem) (nelem i : nat) : option mem :=
  match fuel with
  | O => None
  | S fuel =>
    if (i <? nelem)%nat then
      smallest ← attq_smallest m nelem i;
      if (smallest =? i)%nat then Some m else
      m ← attq_swap m smallest i;
      attq_heapify fuel m nelem smallest
    else None
  end.

(** 0 and the queue, or -1.  [realloc_ok] and [malo] are the results of the
    two allocations; [malo] is the pointer, [None] is NULL. *)
Definition lsquic_attq_add (q : attq) (conn advisory_time why : Z) (realloc_ok : bool) (malo : option Z)
    : option (Z * attq) :=
  let grow := (aq_nalloc q <=? aq_nelem q)%nat in
  if grow && negb realloc_ok then Some (-1, q) else
  let nalloc := if grow then (if (0 <? aq_nalloc q)%nat then aq_nalloc q * 2 else 8)%nat else aq_nalloc q in
  match malo with
  | None => Some (-1, AQ (aq_heap q) nalloc (aq_elems q) (cn_attq_elem q))
  | Some el =>
    let es := <[el := AE conn advisory_time (aq_nelem q) why]> (aq_elems q) in
    let h := aq_heap q ++ [el] in
    m ← attq_up (S (length h)) (fun cur par => cur <=? par) (h, es) (length h - 1);
    Some (0, AQ m.1 nalloc m.2 (<[conn := el]> (cn_attq_elem q)))
  end.

(** The [if]/[else if] of [lsquic_attq_remove] that lets the element at [idx]
    find its place; its [do]/[while] loop is [attq_up]. *)
Definition attq_settle (m : mem) (nelem idx : nat) : option mem :=
  up ← (if (0 <? idx)%nat then
          cur ← adv_time m idx; par ← adv_time m (MHE_PARENT idx); Some (cur <? par)
        else Some false);
  if (up : bool) then attq_up (S idx) (fun cur par => cur <? par) m idx
  else if (1 <? nelem)%nat && (idx <? nelem)%nat then attq_heapify (S nelem) m nelem idx
  else Some m.

(** The connection has an element; the assertions are checks. *)
Definition lsquic_attq_remove (q : attq) (conn : Z) : option attq :=
  el ← cn_attq_elem q !! conn;
  e ← aq_elems q !! el;
  let idx := ae_heap_idx e in
  p ← aq_heap q !! idx;
  if negb (p =? el) then None else
  let conns := delete conn (cn_attq_elem q) in
  let nelem := (aq_nelem q - 1)%nat in
  last ← aq_heap q !! nelem;
  let h := <[idx := last]> (aq_heap q) in
  es ← set_heap_idx (aq_elems q) last idx;
  m ← attq_settle (h, es) nelem idx;
  Some (AQ (take nelem m.1) (aq_nalloc q) (delete el m.2) conns).

(** The connection ([None] is NULL) and the queue. *)
Definition lsquic_attq_pop (q : attq) (cutoff : Z) : option (option Z * attq) :=
  match aq_heap q with
  | [] => Some (None, q)
  | el :: _ =>
    e ← aq_elems q !! el;
    if cutoff <=? ae_adv_time e then Some (None, q) else
    q ← lsquic_attq_remove q (ae_conn e);
    Some (Some (ae_conn e), q)
  end.

Definition lsquic_attq_next (q : attq) : option Z := head (aq_heap q).

(** The inner loop over one level from [i] on, and the loop over the levels;
    there are fewer levels than elements. *)
Fixpoint level_loop (q : attq) (cutoff : Z) (k i : nat) (count : Z) : option (Z * nat) :=
  match k with
  | O => Some (count, i)
  | S k =>
    if (i <? aq_nelem q)%nat then
      t ← adv_time (aq_heap q, aq_elems q) i;
      level_loop q cutoff k (S i) (count + b2z (t <? cutoff))
    else Some (count, i)
  end.

Fixpoint count_levels (fuel : nat) (q : attq) (cutoff : Z) (level i : nat) (total : Z) : option Z :=
  match fuel with
  | O => None
  | S fuel =>
    '(level_count, i) ← level_loop q cutoff (2 ^ level) i 0;
    let total := total + level_count in
    if level_count <? 2 ^ Z.of_nat level then Some total
    else count_levels fuel q cutoff (S level) i total
  end.

Definition lsquic_attq_count_before (q : attq) (cutoff : Z) : option Z :=
  count_levels (S (S (aq_nelem q))) q cutoff 0 0 0.

(** * Memory *)

(** What an element holds apart from its index. *)
Definition data (e : attq_elem) : Z * Z * Z := (ae_conn e, ae_adv_time e, ae_why e).

(** Only indices differ. *)
Definition same (es es' : gmap Z attq_elem) : Prop := forall p, data <$> es !! p = data <$> es' !! p.

#[export] Instance same_equiv : Equivalence same.
Proof. split; [done|intros ? ? H p; by rewrite H|intros ? ? ? H1 H2 p; by rewrite H1, H2]. Qed.

(** Every pointer of the array points to an element that knows its place. *)
Definition placed (h : list Z) (es : gmap Z attq_elem) : Prop :=
  forall i p, h !! i = Some p -> exists e, es !! p = Some e /\ ae_heap_idx e = i.

(** [key] is the time of every element. *)
Definition keyed (key : Z -> Z) (es : gmap Z attq_elem) : Prop :=
  forall p e, es !! p = Some e -> key p = ae_adv_time e.

Lemma keyed_same key es es' : same es es' -> keyed key es -> keyed key es'.
Proof.
  intros Hs Hk p e' He'. specialize (Hs p). rewrite He' in Hs.
  destruct (es !! p) as [e|] eqn:E; [|done]. cbn in Hs. injection Hs as _ Ht _. rewrite <- Ht. by apply Hk.
Qed.

Lemma set_heap_idx_ok es p e i : es !! p = Some e ->
  exists es', set_heap_idx es p i = Some es' /\ same es es'
    /\ (exists e', es' !! p = Some e' /\ ae_heap_idx e' = i)
    /\ (forall p', p' <> p -> es' !! p' = es !! p').
Proof.
  intros He. unfold set_heap_idx. rewrite He. cbn. eexists. split; [reflexivity|]. split_and!.
  - intros p'. destruct (decide (p' = p)) as [->|Hne]; [by rewrite lookup_insert_eq, He|by rewrite lookup_insert_ne].
  - eexists. by rewrite lookup_insert_eq.
  - intros p' Hne. by rewrite lookup_insert_ne.
Qed.

Lemma placed_nodup h es i j p : placed h es -> h !! i = Some p -> h !! j = Some p -> i = j.
Proof.
  intros Hp Hi Hj. destruct (Hp i p Hi) as (e & He & <-). destruct (Hp j p Hj) as (e' & He' & <-). congruence.
Qed.

Lemma attq_swap_ok h es a b :
  placed h es -> (a < length h)%nat -> (b < length h)%nat -> a <> b ->
  exists h' es', attq_swap (h, es) a b = Some (h', es') /\ swap h a b = Some h' /\ placed h' es' /\ same es es'.
Proof.
  intros Hp Ha Hb Hne. destruct (lookup_lt_is_Some_2 h a Ha) as [x Hx].
  destruct (lookup_lt_is_Some_2 h b Hb) as [y Hy].
  assert (x <> y) as Hxy by (intros <-; by eapply Hne, placed_nodup).
  unfold attq_swap. cbn [fst snd]. assert (swap h a b = Some (<[b := x]> (<[a := y]> h))) as Hsw.
  { unfold swap. by rewrite Hx, Hy. }
  rewrite Hsw. cbn [mbind option_bind].
  assert (<[b := x]> (<[a := y]> h) !! a = Some y) as Ea.
  { rewrite list_lookup_insert_ne by done. by rewrite list_lookup_insert_eq. }
  assert (<[b := x]> (<[a := y]> h) !! b = Some x) as Eb.
  { by rewrite list_lookup_insert_eq by (rewrite length_insert; lia). }
  rewrite Ea, Eb. cbn [mbind option_bind]. destruct (Hp a x Hx) as (ex & Hex & _). destruct (Hp b y Hy) as (ey & Hey & _).
  destruct (set_heap_idx_ok es y ey a Hey) as (es1 & -> & Hs1 & (e1 & He1 & Hi1) & Hf1). cbn [mbind option_bind].
  destruct (set_heap_idx_ok es1 x ex b) as (es2 & -> & Hs2 & (e2 & He2 & Hi2) & Hf2); [by rewrite Hf1|].
  cbn [mbind option_bind]. do 2 eexists. split_and!; [reflexivity|done| |by rewrite Hs1].
  intros i p Hi. destruct (decide (i = b)) as [->|Hib]; [rewrite Eb in Hi; injection Hi as <-; by eexists|].
  destruct (decide (i = a)) as [->|Hia].
  { rewrite Ea in Hi. injection Hi as <-. exists e1. by rewrite Hf2. }
  rewrite !list_lookup_insert_ne in Hi by done. destruct (Hp i p Hi) as (e & He & Hie).
  exists e. rewrite Hf2, Hf1; [done|..]; intros ->; [by eapply Hib, placed_nodup|by eapply Hia, placed_nodup].
Qed.

(** * The loops *)

Section loops.
Context (key : Z -> Z).
Implicit Types (h : list Z) (es : gmap Z attq_elem).

Lemma adv_time_ok h es i : placed h es -> keyed key es -> (i < length h)%nat ->
  adv_time (h, es) i = Some (kat key h i).
Proof.
  intros Hp Hk Hi. destruct (lookup_lt_is_Some_2 h i Hi) as [p Hx]. unfold adv_time. cbn [fst snd].
  rewrite Hx. destruct (Hp i p Hx) as (e & He & _). cbn [mbind option_bind]. rewrite He. cbn.
  by rewrite (kat_lookup key _ _ _ Hx), (Hk p e He).
Qed.

Lemma attq_up_ok fuel before h es i :
  (forall a b, before a b = true -> a <= b) -> (forall a b, before a b = false -> b <= a) ->
  placed h es -> keyed key es -> ordered_but key i h -> bridged key i h -> (i < length h)%nat -> (i < fuel)%nat ->
  exists h' es', attq_up fuel before (h, es) i = Some (h', es')
    /\ heap key h' /\ h' ≡ₚ h /\ placed h' es' /\ same es es'.
Proof.
  intros Hbt Hbf. revert h es i. induction fuel as [|fuel IH]; intros h es i Hp Hk Ho Hb Hi Hf; [lia|].
  cbn [attq_up]. destruct (Nat.ltb_spec 0 i) as [Hpos|Hpos].
  2: { exists h, es. split_and!; try done. eapply up_stop; [done|left; lia]. }
  pose proof (parent_lt i Hpos) as Hpar. rewrite !adv_time_ok by (done || lia). cbn [mbind option_bind].
  destruct (before (kat key h i) (kat key h (MHE_PARENT i))) eqn:Ebf.
  - destruct (attq_swap_ok h es i (MHE_PARENT i)) as (h1 & es1 & -> & Hsw & Hp1 & Hs1); [done|lia..|].
    cbn [mbind option_bind].
    destruct (up_step key h i _ _ h1 Ho Hb ltac:(lia) (Hbt _ _ Ebf) ltac:(by left) Hsw) as [Ho1 Hb1].
    destruct (IH h1 es1 (MHE_PARENT i)) as (h' & es' & -> & Hh & Hperm & Hp' & Hs'); try done.
    + by eapply keyed_same.
    + rewrite (swap_length _ _ _ _ Hsw). lia.
    + lia.
    + exists h', es'. split_and!; try done; [by rewrite Hperm, (swap_perm _ _ _ _ Hsw)|by rewrite Hs1].
  - exists h, es. split_and!; try done. eapply up_stop; [done|]. right. right. by apply Hbf.
Qed.

Lemma attq_smallest_eq h es i : placed h es -> keyed key es -> (i < length h)%nat ->
  attq_smallest (h, es) (length h) i = smallest_of key h i.
Proof.
  intros Hp Hk Hi. unfold attq_smallest, smallest_of.
  assert (forall j, (j < length h)%nat -> exists x, h !! j = Some x /\ adv_time (h, es) j = Some (key x)) as Hj.
  { intros j Hj. destruct (lookup_lt_is_Some_2 h j Hj) as [x Hx]. exists x. split; [done|].
    by rewrite adv_time_ok, (kat_lookup key _ _ _ Hx). }
  destruct (Nat.ltb_spec (MHE_LCHILD i) (length h)) as [Hl|Hl]; [|done].
  destruct (Hj _ Hl) as (cl & Hcl & ->). destruct (Hj _ Hi) as (ci & Hci & ->). rewrite Hcl, Hci. cbn [mbind option_bind].
  set (s := if _ <? _ then _ else _). assert (s < length h)%nat as Hs by (unfold s; destruct (_ <? _); done).
  destruct (Nat.ltb_spec (MHE_RCHILD i) (length h)) as [Hr|Hr]; [|done].
  destruct (Hj _ Hr) as (cr & Hcr & ->). destruct (Hj _ Hs) as (cs & Hcs & ->). by rewrite Hcr, Hcs.
Qed.

Lemma attq_heapify_ok fuel h es i :
  placed h es -> keyed key es -> ordered_below key i h -> bridged key i h ->
  (i < length h)%nat -> (length h - i <= fuel)%nat ->
  exists h' es', attq_heapify fuel (h, es) (length h) i = Some (h', es')
    /\ heap key h' /\ h' ≡ₚ h /\ placed h' es' /\ same es es'.
Proof.
  revert h es i. induction fuel as [|fuel IH]; intros h es i Hp Hk Ho Hb Hi Hf; [lia|].
  cbn [attq_heapify]. replace (i <? length h)%nat with true by lia.
  rewrite attq_smallest_eq by done.
  destruct (smallest_of_ok key h i Hi) as (s & -> & Hs & Hcase & Hmin). cbn [mbind option_bind].
  destruct (Nat.eqb_spec s i) as [->|Hne].
  { exists h, es. split_and!; try done. by eapply down_stop. }
  destruct Hcase as [?|(Hpar & Hpos & Hlt)]; [done|].
  destruct (attq_swap_ok h es s i Hp Hs Hi Hne) as (h1 & es1 & -> & Hsw & Hp1 & Hs1). cbn [mbind option_bind].
  destruct (down_step key h i s h1 Ho Hb Hi ltac:(lia) Hpar Hlt Hmin Hsw) as [Ho1 Hb1].
  pose proof (swap_length _ _ _ _ Hsw) as Hlen. pose proof (parent_lt s Hpos).
  rewrite <- Hlen.
  destruct (IH h1 es1 s) as (h' & es' & -> & Hh & Hperm & Hp' & Hs'); try done; [by eapply keyed_same|lia..|].
  exists h', es'. split_and!; try done; [by rewrite Hperm, (swap_perm _ _ _ _ Hsw)|by rewrite Hs1].
Qed.

(** Entries behind the ones in use do not matter. *)
Lemma adv_time_app h es t i : (i < length h)%nat -> adv_time (h ++ t, es) i = adv_time (h, es) i.
Proof. intros. unfold adv_time. cbn [fst snd]. by rewrite lookup_app_l. Qed.

Definition with_tail (t : list Z) (m : mem) : mem := (m.1 ++ t, m.2).

Lemma attq_swap_app h es t a b : (a < length h)%nat -> (b < length h)%nat ->
  attq_swap (h ++ t, es) a b = with_tail t <$> attq_swap (h, es) a b.
Proof.
  intros Ha Hb. destruct (lookup_lt_is_Some_2 h a Ha) as [x Hx]. destruct (lookup_lt_is_Some_2 h b Hb) as [y Hy].
  unfold attq_swap, swap. cbn [fst snd]. rewrite !lookup_app_l, Hx, Hy by done. cbn [mbind option_bind].
  assert (length (<[a := y]> h) = length h) as Hl by apply length_insert.
  rewrite (insert_app_l h t a y Ha). rewrite insert_app_l by lia. rewrite !lookup_app_l by (rewrite length_insert; lia).
  clear Hx Hy. repeat (match goal with |- ?x ≫= _ = _ => destruct x; cbn [mbind option_bind]; [|done] end). done.
Qed.

Lemma attq_swap_length h es a b h' es' : attq_swap (h, es) a b = Some (h', es') -> length h' = length h.
Proof.
  unfold attq_swap. cbn [fst snd]. destruct (swap h a b) as [h1|] eqn:E; [|done]. cbn.
  repeat (match goal with |- context [?x ≫= _] => destruct x; cbn; [|done] end). intros [= <- _].
  by eapply swap_length.
Qed.

Lemma attq_up_app fuel before h es t i : (i < length h)%nat ->
  attq_up fuel before (h ++ t, es) i = with_tail t <$> attq_up fuel before (h, es) i.
Proof.
  revert h es i. induction fuel as [|fuel IH]; intros h es i Hi; [done|]. cbn [attq_up].
  destruct (Nat.ltb_spec 0 i) as [Hpos|]; [|done]. pose proof (parent_lt i Hpos).
  rewrite !adv_time_app by lia. destruct (adv_time (h, es) i); cbn [mbind option_bind]; [|done].
  destruct (adv_time (h, es) (MHE_PARENT i)); cbn [mbind option_bind]; [|done]. destruct (before _ _); [|done].
  rewrite attq_swap_app by lia. destruct (attq_swap (h, es) i (MHE_PARENT i)) as [[h1 es1]|] eqn:Es;
    cbn [fmap option_fmap option_map mbind option_bind with_tail fst snd]; [|done].
  apply IH. rewrite (attq_swap_length _ _ _ _ _ _ Es). lia.
Qed.

Lemma attq_heapify_app fuel h es t n i : (n <= length h)%nat ->
  attq_heapify fuel (h ++ t, es) n i = with_tail t <$> attq_heapify fuel (h, es) n i.
Proof.
  revert h es i. induction fuel as [|fuel IH]; intros h es i Hn; [done|]. cbn [attq_heapify].
  destruct (Nat.ltb_spec i n) as [Hi|]; [|done].
  assert (attq_smallest (h ++ t, es) n i = attq_smallest (h, es) n i
          /\ forall s, attq_smallest (h, es) n i = Some s -> (s < n)%nat) as [-> Hs].
  { unfold attq_smallest. destruct (Nat.ltb_spec (MHE_LCHILD i) n) as [Hl|]; [|split; [done|by intros s [= <-]]].
    rewrite (adv_time_app _ _ _ (MHE_LCHILD i)), (adv_time_app _ _ _ i) by lia.
    destruct (adv_time (h, es) (MHE_LCHILD i)); cbn [mbind option_bind]; [|done].
    destruct (adv_time (h, es) i); cbn [mbind option_bind]; [|done]. set (s := if _ <? _ then _ else _).
    assert (s < n)%nat by (unfold s; destruct (_ <? _); done).
    destruct (Nat.ltb_spec (MHE_RCHILD i) n) as [Hr|]; [|split; [done|by intros s' [= <-]]].
    rewrite !adv_time_app by lia. split; [done|]. intros s'.
    destruct (adv_time (h, es) (MHE_RCHILD i)); cbn [mbind option_bind]; [|done].
    destruct (adv_time (h, es) s); cbn [mbind option_bind]; [|done]. clearbody s. intros [= <-]. case_match; done. }
  destruct (attq_smallest (h, es) n i) as [s|]; cbn [mbind option_bind]; [|done]. specialize (Hs s eq_refl).
  destruct (Nat.eqb_spec s i); [done|]. rewrite attq_swap_app by lia.
  destruct (attq_swap (h, es) s i) as [[h1 es1]|] eqn:Es;
    cbn [fmap option_fmap option_map mbind option_bind with_tail fst snd]; [|done].
  apply IH. rewrite (attq_swap_length _ _ _ _ _ _ Es). lia.
Qed.

(** The element at [idx] finds its place. *)
Lemma attq_settle_ok h es idx :
  placed h es -> keyed key es -> bridged key idx h -> (idx < length h)%nat ->
  (idx = 0%nat \/ kat key h (MHE_PARENT idx) <= kat key h idx -> ordered_below key idx h) ->
  ((0 < idx)%nat -> kat key h idx <= kat key h (MHE_PARENT idx) -> ordered_but key idx h) ->
  exists h' es', attq_settle (h, es) (length h) idx = Some (h', es')
    /\ heap key h' /\ h' ≡ₚ h /\ placed h' es' /\ same es es'.
Proof.
  intros Hp Hk Hb Hi Hdown Hup. unfold attq_settle.
  assert (ordered_below key idx h -> exists h' es',
    (if (1 <? length h)%nat && (idx <? length h)%nat then attq_heapify (S (length h)) (h, es) (length h) idx
     else Some (h, es)) = Some (h', es') /\ heap key h' /\ h' ≡ₚ h /\ placed h' es' /\ same es es') as Hrest.
  { intros Ho. destruct (_ && _) eqn:En; [apply attq_heapify_ok; done || lia|].
    exists h, es. split_and!; try done. intros j Hj. apply andb_false_iff in En. lia. }
  destruct (Nat.ltb_spec 0 idx) as [Hpos|Hpos]; cbn [mbind option_bind]; [|apply Hrest, Hdown; left; lia].
  pose proof (parent_lt idx Hpos). rewrite !adv_time_ok by (done || lia). cbn [mbind option_bind].
  destruct (Z.ltb_spec (kat key h idx) (kat key h (MHE_PARENT idx))) as [Hcmp|Hcmp].
  - apply attq_up_ok; try done; try lia. apply Hup; [done|lia].
  - apply Hrest, Hdown. by right.
Qed.

Lemma attq_settle_app h es t idx : (idx < length h)%nat ->
  attq_settle (h ++ t, es) (length h) idx = with_tail t <$> attq_settle (h, es) (length h) idx.
Proof.
  intros Hi. unfold attq_settle. destruct (Nat.ltb_spec 0 idx) as [Hpos|Hpos]; cbn [mbind option_bind].
  - pose proof (parent_lt idx Hpos). rewrite !adv_time_app by lia.
    destruct (adv_time (h, es) idx); cbn [mbind option_bind]; [|done].
    destruct (adv_time (h, es) (MHE_PARENT idx)); cbn [mbind option_bind]; [|done].
    destruct (_ <? _); [by apply attq_up_app|]. destruct (_ && _); [by apply attq_heapify_app|done].
  - destruct (_ && _); [by apply attq_heapify_app|done].
Qed.

(** Taking the last element out of a heap needs no work. *)
Lemma attq_settle_last h es n :
  placed h es -> keyed key es -> heap key h -> n = (length h - 1)%nat -> (0 < length h)%nat ->
  attq_settle (h, es) n n = Some (h, es).
Proof.
  intros Hp Hk Hh -> Hl. unfold attq_settle. rewrite Nat.ltb_irrefl, andb_false_r.
  destruct (Nat.ltb_spec 0 (length h - 1)) as [Hpos|]; cbn [mbind option_bind]; [|done].
  pose proof (parent_lt _ Hpos). rewrite !adv_time_ok by (done || lia). cbn [mbind option_bind].
  pose proof (Hh (length h - 1)%nat ltac:(lia)). by replace (_ <? _) with false by lia.
Qed.

End loops.

(** * The invariant and the abstract queue *)

Definition time_of (es : gmap Z attq_elem) (p : Z) : Z := from_option ae_adv_time 0 (es !! p).

Record attq_inv (q : attq) : Prop := {
  inv_heap : heap (time_of (aq_elems q)) (aq_heap q);
  inv_placed : placed (aq_heap q) (aq_elems q);
  inv_dom : forall p, is_Some (aq_elems q !! p) <-> p ∈ aq_heap q;
  inv_conn : forall c p, cn_attq_elem q !! c = Some p
               <-> exists e, aq_elems q !! p = Some e /\ ae_conn e = c
}.

(** The queue as its users see it: the time each connection asked for. *)
Definition times (q : attq) : gmap Z Z :=
  omap (fun p => ae_adv_time <$> aq_elems q !! p) (cn_attq_elem q).

Lemma keyed_time_of es : keyed (time_of es) es.
Proof. intros p e He. unfold time_of. by rewrite He. Qed.

Lemma heap_ext {A} (k k' : A -> Z) (l : list A) : (forall x, x ∈ l -> k x = k' x) -> heap k l -> heap k' l.
Proof.
  intros Hk Hh j Hj. assert (forall i, (i < length l)%nat -> kat k' l i = kat k l i) as E.
  { intros i Hi. destruct (lookup_lt_is_Some_2 l i Hi) as [x Hx].
    rewrite !(kat_lookup _ _ _ _ Hx). symmetry. apply Hk. by eapply list_elem_of_lookup_2. }
  pose proof (parent_lt j ltac:(lia)). rewrite !E by lia. by apply Hh.
Qed.

Lemma same_lookup es es' p e : same es es' -> es' !! p = Some e -> exists e0, es !! p = Some e0 /\ data e0 = data e.
Proof.
  intros Hs He. specialize (Hs p). rewrite He in Hs. destruct (es !! p) as [e0|]; [|done].
  exists e0. split; [done|]. cbn [fmap option_fmap option_map] in Hs. congruence.
Qed.

(** Rebuilding the invariant after the loops have moved elements around. *)
Lemma inv_intro h' es' h es nalloc conns key :
  heap key h' -> keyed key es' -> placed h' es' -> h' ≡ₚ h -> same es es' ->
  (forall p, is_Some (es !! p) <-> p ∈ h) ->
  (forall c p, conns !! c = Some p <-> exists e, es !! p = Some e /\ ae_conn e = c) ->
  attq_inv (AQ h' nalloc es' conns).
Proof.
  intros Hh Hk Hp Hperm Hs Hd Hc. split; cbn [aq_heap aq_elems cn_attq_elem].
  - eapply heap_ext; [|exact Hh]. intros p Hin. apply list_elem_of_lookup_1 in Hin as [i Hi].
    destruct (Hp i p Hi) as (e & He & _). unfold time_of. rewrite He. by apply Hk.
  - done.
  - intros p. rewrite Hperm, <- Hd. specialize (Hs p). destruct (es !! p), (es' !! p); cbn in Hs; try done.
  - intros c p. rewrite Hc. split; intros (e & He & Hec).
    + symmetry in Hs. destruct (same_lookup _ _ _ _ Hs He) as (e0 & He0 & Hd0). exists e0. split; [done|].
      injection Hd0 as -> _ _. done.
    + destruct (same_lookup _ _ _ _ Hs He) as (e0 & He0 & Hd0). exists e0. split; [done|].
      injection Hd0 as -> _ _. done.
Qed.

Lemma times_same h h' n n' es es' conns : same es es' ->
  times (AQ h n es conns) = times (AQ h' n' es' conns).
Proof.
  intros Hs. unfold times. cbn. apply omap_ext. intros c p _. specialize (Hs p).
  destruct (es !! p), (es' !! p); cbn in *; try done. by injection Hs as _ -> _.
Qed.

Lemma create_inv : attq_inv lsquic_attq_create.
Proof.
  split; cbn.
  - intros j Hj. cbn in Hj. lia.
  - done.
  - intros p. rewrite lookup_empty. split; [by intros [? ?]|by intros ?%elem_of_nil].
  - intros c p. rewrite lookup_empty. split; [done|]. by intros (e & He & _).
Qed.

Lemma inv_len q p : attq_inv q -> p ∉ aq_heap q -> aq_elems q !! p = None.
Proof. intros Hi Hp. apply eq_None_not_Some. by rewrite (inv_dom _ Hi). Qed.

(** ** Adding *)

Lemma attq_add_ok q conn t why realloc_ok malo :
  attq_inv q -> cn_attq_elem q !! conn = None ->
  (forall el, malo = Some el -> aq_elems q !! el = None) ->
  let full := (aq_nalloc q <=? aq_nelem q)%nat in
  exists r q', lsquic_attq_add q conn t why realloc_ok malo = Some (r, q') /\ attq_inv q'
    /\ if (full && negb realloc_ok) || negb (bool_decide (is_Some malo))
       then r = -1 /\ times q' = times q else r = 0 /\ times q' = <[conn := t]> (times q).
Proof.
  intros Hi Hc Hm full. unfold lsquic_attq_add. fold full. destruct (full && negb realloc_ok); cbn [orb].
  { do 2 eexists. split; [reflexivity|]. done. }
  destruct malo as [el|]; cbn [bool_decide].
  2: { do 2 eexists. split; [reflexivity|]. destruct Hi. done. }
  specialize (Hm el eq_refl). rewrite bool_decide_eq_true_2 by (by eexists). cbn [negb].
  set (es := <[el := _]> (aq_elems q)). set (h := aq_heap q ++ [el]).
  assert (el ∉ aq_heap q) as Hel by (rewrite <- (inv_dom _ Hi), Hm; by intros [? ?]).
  assert (es !! el = Some (AE conn t (aq_nelem q) why)) as Hes by apply lookup_insert_eq.
  assert (forall p, p ∈ aq_heap q -> es !! p = aq_elems q !! p) as Hold.
  { intros p Hp. apply lookup_insert_ne. by intros ->. }
  assert (placed h es) as Hp.
  { intros i p [Hip|[Hge Hip]]%lookup_app_Some.
    - rewrite Hold by (by eapply list_elem_of_lookup_2). by apply (inv_placed _ Hi).
    - apply list_lookup_singleton_Some in Hip as [Hz <-]. eexists. split; [done|]. cbn. unfold aq_nelem. lia. }
  assert (heap (time_of es) (aq_heap q)) as Hh.
  { eapply heap_ext; [|apply (inv_heap _ Hi)]. intros p Hp'. unfold time_of. by rewrite Hold. }
  destruct (heap_snoc _ _ el Hh) as [Ho Hb]. assert (length h - 1 = length (aq_heap q))%nat as -> by (unfold h; rewrite length_app; cbn; lia).
  destruct (attq_up_ok (time_of es) (S (length h)) (fun cur par => cur <=? par) h es (length (aq_heap q)))
    as (h' & es' & -> & Hh' & Hperm & Hp' & Hs'); try done; try lia.
  { apply keyed_time_of. }
  { unfold h. rewrite length_app. cbn. lia. }
  { unfold h. rewrite length_app. lia. }
  cbn [mbind option_bind fst snd]. do 2 eexists. split; [reflexivity|].
  assert (forall c p, <[conn := el]> (cn_attq_elem q) !! c = Some p
            <-> exists e, es !! p = Some e /\ ae_conn e = c) as Hconn.
  { intros c p. destruct (decide (p = el)) as [->|Hpe].
    - rewrite Hes. destruct (decide (c = conn)) as [->|Hcc].
      + rewrite lookup_insert_eq. split; [intros _; by eexists|done].
      + rewrite lookup_insert_ne by done. rewrite (inv_conn _ Hi). rewrite Hm. split; naive_solver.
    - assert (es !! p = aq_elems q !! p) as -> by (by apply lookup_insert_ne). rewrite <- (inv_conn _ Hi).
      destruct (decide (c = conn)) as [->|Hcc]; [rewrite lookup_insert_eq; naive_solver|].
      by rewrite lookup_insert_ne. }
  split.
  - eapply (inv_intro h' es' h es); try done; [by eapply keyed_same, keyed_time_of|].
    intros p. unfold h. rewrite elem_of_app, list_elem_of_singleton. unfold es.
    destruct (decide (p = el)) as [->|Hpe].
    + rewrite lookup_insert_eq. split; [by right|by eexists].
    + rewrite lookup_insert_ne by done. rewrite (inv_dom _ Hi). naive_solver.
  - split; [done|]. rewrite (times_same h' h _ (aq_nalloc q) es' es) by (by symmetry).
    unfold times. cbn. rewrite omap_insert_Some with (y := t) by (by rewrite Hes). f_equal.
    apply omap_ext. intros c p Hcp. unfold es. rewrite lookup_insert_ne; [done|]. intros <-.
    apply (inv_conn _ Hi) in Hcp as (e & He & _). congruence.
Qed.

(** ** Removing *)

Lemma heap_nodup q : attq_inv q -> NoDup (aq_heap q).
Proof.
  intros Hi. apply NoDup_alt. intros i j p H1 H2. by eapply placed_nodup; [apply (inv_placed _ Hi)|..].
Qed.

(** The array after the last element has moved to [idx], before it finds its
    place: the first [n] entries, with [es] the elements. *)
Lemma moved_ok q idx el last es n :
  attq_inv q -> n = (aq_nelem q - 1)%nat -> aq_heap q !! idx = Some el -> aq_heap q !! n = Some last ->
  (idx < n)%nat -> set_heap_idx (aq_elems q) last idx = Some es ->
  let h := <[idx := last]> (take n (aq_heap q)) in
  length h = n /\ <[idx := last]> (aq_heap q) = h ++ [last] /\ placed h es /\ same (aq_elems q) es
  /\ el :: h ≡ₚ aq_heap q.
Proof.
  intros Hi -> Hel Hlast Hlt Hset h. set (n := (aq_nelem q - 1)%nat) in *. unfold aq_nelem in n.
  pose proof (lookup_lt_Some _ _ _ Hlast) as Hn.
  assert (length (take n (aq_heap q)) = n) as Htl by (rewrite length_take; lia).
  destruct (inv_placed _ Hi n last Hlast) as (e & He & _).
  destruct (set_heap_idx_ok _ _ _ idx He) as (es' & Hset' & Hs & (e' & He' & Hidx) & Hf).
  rewrite Hset in Hset'. injection Hset' as <-. split_and!.
  - unfold h. by rewrite length_insert.
  - rewrite <- (take_drop_middle (aq_heap q) n last Hlast) at 1.
    rewrite (drop_ge _ (S n)) by (unfold n; lia). unfold h. by rewrite insert_app_l by lia.
  - intros i p Hip. unfold h in Hip. destruct (decide (i = idx)) as [->|Hne].
    + rewrite list_lookup_insert_eq in Hip by lia. injection Hip as <-. by eexists.
    + rewrite list_lookup_insert_ne in Hip by done. apply lookup_take_Some in Hip as [Hip Hlt'].
      destruct (inv_placed _ Hi i p Hip) as (e2 & He2 & Hi2). exists e2. rewrite Hf; [done|].
      intros ->. pose proof (placed_nodup _ _ _ _ _ (inv_placed _ Hi) Hip Hlast). lia.
  - done.
  - by apply (remove_perm (aq_heap q) idx n).
Qed.

(** Storing the index an element already has. *)
Lemma placed_again q n el es : attq_inv q -> aq_heap q !! n = Some el ->
  set_heap_idx (aq_elems q) el n = Some es -> placed (aq_heap q) es.
Proof.
  intros Hi Hn Hset i p Hip. destruct (inv_placed _ Hi i p Hip) as (e2 & He2 & Hi2).
  destruct (inv_placed _ Hi n el Hn) as (e & He & _).
  destruct (set_heap_idx_ok _ _ _ n He) as (es2 & Hset2 & _ & (e3 & He3 & Hi3) & Hf).
  rewrite Hset in Hset2. injection Hset2 as <-. destruct (decide (p = el)) as [->|Hne].
  - exists e3. split; [done|]. rewrite Hi3. by eapply placed_nodup; [apply (inv_placed _ Hi)|..].
  - exists e2. by rewrite Hf.
Qed.

(** The whole removal, up to the invariant. *)
Lemma attq_remove_steps q conn el e :
  attq_inv q -> cn_attq_elem q !! conn = Some el -> aq_elems q !! el = Some e ->
  exists h' es', lsquic_attq_remove q conn
    = Some (AQ h' (aq_nalloc q) (delete el es') (delete conn (cn_attq_elem q)))
    /\ el :: h' ≡ₚ aq_heap q /\ placed h' es' /\ same (aq_elems q) es' /\ heap (time_of (aq_elems q)) h'.
Proof.
  intros Hi Hc He. unfold lsquic_attq_remove. rewrite Hc. cbn [mbind option_bind]. rewrite He. cbn [mbind option_bind].
  assert (aq_heap q !! ae_heap_idx e = Some el) as Hel.
  { assert (el ∈ aq_heap q) as [i Hie]%list_elem_of_lookup_1 by (rewrite <- (inv_dom _ Hi); by eexists).
    destruct (inv_placed _ Hi i el Hie) as (e' & He' & <-). congruence. }
  rewrite Hel. cbn [mbind option_bind]. rewrite Z.eqb_refl. cbn [negb].
  set (idx := ae_heap_idx e) in *. set (n := (aq_nelem q - 1)%nat).
  pose proof (lookup_lt_Some _ _ _ Hel) as Hidx.
  destruct (lookup_lt_is_Some_2 (aq_heap q) n ltac:(unfold n, aq_nelem; lia)) as [last Hlast].
  rewrite Hlast. cbn [mbind option_bind]. destruct (inv_placed _ Hi n last Hlast) as (el' & Hel' & _).
  destruct (set_heap_idx_ok _ _ _ idx Hel') as (es & Hset & Hs & _). rewrite Hset. cbn [mbind option_bind].
  set (key := time_of (aq_elems q)).
  assert (keyed key es) as Hk by (eapply keyed_same; [exact Hs|apply keyed_time_of]).
  destruct (Nat.lt_ge_cases idx n) as [Hlt|Hge].
  - destruct (moved_ok q idx el last es n Hi eq_refl Hel Hlast Hlt Hset) as (Hlen & -> & Hp & _ & Hperm).
    set (h := <[idx := last]> (take n (aq_heap q))) in *.
    pose proof (heap_take key _ n (inv_heap _ Hi) ltac:(unfold n, aq_nelem; lia)) as Ht.
    assert (idx < length (take n (aq_heap q)))%nat as Hti by (rewrite length_take; lia).
    destruct (heap_replace key _ idx last Ht Hti) as (Hb & Hdown & Hup). fold h in Hb, Hdown, Hup.
    assert (kat key h idx = key last) as Hkl by (unfold h; rewrite kat_insert by done; by rewrite decide_True).
    assert ((0 < idx)%nat -> kat key h (MHE_PARENT idx) = kat key (take n (aq_heap q)) (MHE_PARENT idx)) as Hkp.
    { intros. pose proof (parent_lt idx ltac:(lia)). unfold h. rewrite kat_insert by done.
      by rewrite decide_False by lia. }
    rewrite <- Hkl in Hdown, Hup.
    destruct (attq_settle_ok key h es idx Hp Hk Hb ltac:(lia)) as (h' & es' & Hset' & Hh' & Hpm & Hp' & Hs').
    { intros [?|Hle]; [apply Hdown; by left|]. destruct (decide (idx = 0%nat)); [apply Hdown; by left|].
      apply Hdown. right. by rewrite <- Hkp by lia. }
    { intros Hpos Hle. apply Hup; [done|]. by rewrite <- Hkp. }
    rewrite <- Hlen, attq_settle_app, Hset' by lia.
    cbn [fmap option_fmap option_map mbind option_bind with_tail fst snd]. exists h', es'. split_and!; try done.
    + rewrite <- (Permutation_length Hpm). by rewrite take_app_length.
    + by rewrite Hpm.
    + by rewrite Hs.
  - assert (idx = n) as Eidx by (unfold n, aq_nelem in *; lia). clearbody idx. subst idx.
    assert (last = el) as -> by congruence. rewrite (list_insert_id _ _ _ Hlast).
    assert (placed (aq_heap q) es) as Hp by (by eapply placed_again).
    rewrite (attq_settle_last key); try done; [|apply (inv_heap _ Hi)|lia].
    exists (take n (aq_heap q)), es. split_and!; try done.
    + rewrite <- (take_drop_middle (aq_heap q) n el Hlast) at 2.
      rewrite (drop_ge _ (S n)) by (unfold n, aq_nelem; lia). by rewrite Permutation_cons_append.
    + intros i p [Hip _]%lookup_take_Some. by apply Hp.
    + apply heap_take; [apply (inv_heap _ Hi)|lia].
Qed.

Lemma attq_remove_ok q conn :
  attq_inv q -> is_Some (times q !! conn) ->
  exists q', lsquic_attq_remove q conn = Some q' /\ attq_inv q' /\ times q' = delete conn (times q).
Proof.
  intros Hi [t Ht]. unfold times in Ht. rewrite lookup_omap in Ht.
  destruct (cn_attq_elem q !! conn) as [el|] eqn:Hc; [|done]. cbn in Ht.
  destruct (proj1 (inv_conn _ Hi conn el) Hc) as (e & He & Hec).
  destruct (attq_remove_steps q conn el e Hi Hc He) as (h' & es' & -> & Hperm & Hp & Hs & Hh).
  assert (el ∉ h') as Hnin.
  { pose proof (heap_nodup _ Hi) as Hnd. rewrite <- Hperm in Hnd. by apply NoDup_cons in Hnd as [? _]. }
  assert (same (delete el (aq_elems q)) (delete el es')) as Hs'.
  { intros p. destruct (decide (p = el)) as [->|]; [by rewrite !lookup_delete_eq|by rewrite !lookup_delete_ne]. }
  assert (forall c, cn_attq_elem q !! c = Some el -> c = conn) as Hinj.
  { intros c (e' & He' & <-)%(inv_conn _ Hi). congruence. }
  eexists. split; [reflexivity|]. split.
  - eapply (inv_intro h' (delete el es') h' (delete el (aq_elems q))); try done.
    + intros p e' [_ He']%lookup_delete_Some. eapply keyed_same; [exact Hs|apply keyed_time_of|exact He'].
    + intros i p Hip. rewrite lookup_delete_ne; [by apply Hp|]. intros <-. by eapply Hnin, list_elem_of_lookup_2.
    + intros p. destruct (decide (p = el)) as [->|Hne].
      * rewrite lookup_delete_eq. split; [by intros [? ?]|done].
      * rewrite lookup_delete_ne by done. rewrite (inv_dom _ Hi), <- Hperm, elem_of_cons. naive_solver.
    + intros c p. rewrite lookup_delete_Some, (inv_conn _ Hi). split.
      * intros (Hne & e' & He' & Hc'). exists e'. split; [|done]. rewrite lookup_delete_ne; [done|].
        intros <-. apply Hne. congruence.
      * intros (e' & [Hne He']%lookup_delete_Some & Hc'). split; [|by exists e']. intros <-. apply Hne.
        pose proof (proj2 (inv_conn _ Hi (ae_conn e') p) (ex_intro _ e' (conj He' eq_refl))). congruence.
  - rewrite (times_same h' h' _ 0 (delete el es') (delete el (aq_elems q))) by (by symmetry).
    unfold times. cbn. rewrite <- omap_delete. apply omap_ext. intros c p [Hne Hcp]%lookup_delete_Some.
    rewrite lookup_delete_ne; [done|]. intros <-. by apply Hne, eq_sym, Hinj.
Qed.

(** C39: The advisory tick time queue keeps the times connections asked for.
    Every queue reachable from the empty one satisfies an invariant under which
    adding a connection that is not in the queue (with fresh memory from the
    allocator) either fails with -1 and changes nothing, exactly when an
    allocation it needs fails, or records its time; removing a connection that
    is in it forgets exactly that one.  The invariant says that the array is a
    heap, that every element knows its index and that connections and elements
    point at each other; no assertion fails and no pointer dangles. *)
Theorem attq_add_remove q conn t why realloc_ok malo :
  attq_inv lsquic_attq_create /\ times lsquic_attq_create = ∅
  /\ (attq_inv q -> times q !! conn = None -> (forall el, malo = Some el -> aq_elems q !! el = None) ->
      exists r q', lsquic_attq_add q conn t why realloc_ok malo = Some (r, q') /\ attq_inv q'
        /\ if ((aq_nalloc q <=? aq_nelem q)%nat && negb realloc_ok) || negb (bool_decide (is_Some malo))
           then r = -1 /\ times q' = times q else r = 0 /\ times q' = <[conn := t]> (times q))
  /\ (attq_inv q -> is_Some (times q !! conn) ->
      exists q', lsquic_attq_remove q conn = Some q' /\ attq_inv q' /\ times q' = delete conn (times q)).
Proof.
  split_and!.
  - apply create_inv.
  - done.
  - intros Hi Hc Hm. apply attq_add_ok; try done. unfold times in Hc. rewrite lookup_omap in Hc.
    destruct (cn_attq_elem q !! conn) as [p|] eqn:E; [|done]. exfalso.
    destruct (proj1 (inv_conn _ Hi conn p) E) as (e & He & _). cbn in Hc. by rewrite He in Hc.
  - apply attq_remove_ok.
Qed.

(** Popping the queue returns the earliest connection that is due.  If every
    connection wants to tick at or after the cutoff, nothing is returned and
    the queue does not change; otherwise the result is a connection whose time
    is the least of all, and it is removed. *)
Theorem attq_pop_earliest q cutoff :
  attq_inv q ->
  exists r q', lsquic_attq_pop q cutoff = Some (r, q') /\ attq_inv q'
    /\ match r with
       | None => q' = q /\ forall c t, times q !! c = Some t -> cutoff <= t
       | Some c => exists t, times q !! c = Some t /\ t < cutoff
                   /\ (forall c' t', times q !! c' = Some t' -> t <= t') /\ times q' = delete c (times q)
       end.
Proof.
  intros Hi. unfold lsquic_attq_pop.
  assert (forall c t, times q !! c = Some t -> exists p e, p ∈ aq_heap q /\ aq_elems q !! p = Some e /\ ae_adv_time e = t) as Hin.
  { intros c t Ht. unfold times in Ht. rewrite lookup_omap in Ht.
    destruct (cn_attq_elem q !! c) as [p|] eqn:Hc; [|done]. cbn in Ht.
    destruct (aq_elems q !! p) as [e|] eqn:He; [|done]. injection Ht as <-. exists p, e. split_and!; try done.
    rewrite <- (inv_dom _ Hi). by eexists. }
  destruct (aq_heap q) as [|top h] eqn:Eh.
  { do 2 eexists. split_and!; [reflexivity|done|]. split; [done|]. intros c t (p & e & Hp & _)%Hin. by apply elem_of_nil in Hp. }
  assert (aq_heap q !! 0%nat = Some top) as Htop by (by rewrite Eh).
  destruct (inv_placed _ Hi 0%nat top Htop) as (e & He & _). rewrite He. cbn [mbind option_bind].
  assert (forall c t, times q !! c = Some t -> ae_adv_time e <= t) as Hmin.
  { intros c t (p & e' & Hp & He' & <-)%Hin. rewrite <- Eh in Hp.
    pose proof (heap_min _ _ top p (inv_heap _ Hi) ltac:(by rewrite Eh) Hp) as Hm.
    unfold time_of in Hm. by rewrite He, He' in Hm. }
  destruct (Z.leb_spec cutoff (ae_adv_time e)).
  { do 2 eexists. split_and!; [reflexivity|done|]. split; [done|]. intros c t Ht%Hmin. lia. }
  assert (times q !! ae_conn e = Some (ae_adv_time e)) as Ht.
  { unfold times. rewrite lookup_omap. pose proof (proj2 (inv_conn _ Hi (ae_conn e) top) (ex_intro _ e (conj He eq_refl))) as ->.
    cbn. by rewrite He. }
  destruct (attq_remove_ok q (ae_conn e) Hi ltac:(by eexists)) as (q' & -> & Hi' & Ht'). cbn [mbind option_bind].
  do 2 eexists. split_and!; [reflexivity|done|]. exists (ae_adv_time e). split_and!; try done; lia.
Qed.

(** A queue with three connections, as the code builds it. *)
Definition demo_queue : attq :=
  default lsquic_attq_create
    ('(_, q) ← lsquic_attq_add lsquic_attq_create 1 50 0 true (Some 100);
     '(_, q) ← lsquic_attq_add q 2 30 0 true (Some 101);
     '(_, q) ← lsquic_attq_add q 3 40 0 true (Some 102); Some q).

Lemma demo_inv : attq_inv demo_queue.
Proof.
  assert (forall q conn t, attq_inv q -> cn_attq_elem q !! conn = None -> forall el, aq_elems q !! el = None ->
    exists q', lsquic_attq_add q conn t 0 true (Some el) = Some (0, q') /\ attq_inv q') as Hadd.
  { intros q conn t Hi Hc el Hel. destruct (attq_add_ok q conn t 0 true (Some el) Hi Hc) as (r & q' & H1 & H2 & H3).
    - by intros ? [= <-].
    - rewrite andb_false_r in H3. destruct H3 as [-> _]. by exists q'. }
  unfold demo_queue.
  destruct (Hadd lsquic_attq_create 1 50 create_inv eq_refl 100 eq_refl) as (q1 & E1 & I1).
  rewrite E1. cbn [mbind option_bind]. vm_compute in E1. injection E1 as <-.
  destruct (Hadd _ 2 30 I1 eq_refl 101 eq_refl) as (q2 & E2 & I2).
  rewrite E2. cbn [mbind option_bind]. vm_compute in E2. injection E2 as <-.
  destruct (Hadd _ 3 40 I2 eq_refl 102 eq_refl) as (q3 & E3 & I3).
  rewrite E3. exact I3.
Qed.

Lemma attq_add_remove_witness :
  exists q', lsquic_attq_remove demo_queue 2 = Some q' /\ times q' = delete 2 (times demo_queue)
    /\ aq_heap q' = [102; 100].
Proof.
  destruct (attq_add_remove demo_queue 2 0 0 true None) as (_ & _ & _ & H).
  destruct H as (q' & H1 & _ & H2).
  - exact demo_inv.
  - exists 30. vm_compute. reflexivity.
  - exists q'. split; [exact H1|]. split; [exact H2|]. vm_compute in H1. injection H1 as <-. reflexivity.
Defined.

Lemma attq_pop_earliest_witness :
  exists q', lsquic_attq_pop demo_queue 35 = Some (Some 2, q') /\ times q' = delete 2 (times demo_queue).
Proof.
  destruct (attq_pop_earliest demo_queue 35) as (r & q' & H1 & _ & H2).
  - exact demo_inv.
  - assert (r = Some 2) as E by (vm_compute in H1; injection H1 as <- _; reflexivity).
    subst r. destruct H2 as (t & _ & _ & _ & H2). exists q'. split; [exact H1|exact H2].
Defined.

(** The number of connections due before the cutoff. *)
Definition due_before (q : attq) (cutoff : Z) : Z :=
  Z.of_nat (length (List.filter (fun ct => ct.2 <? cutoff) (map_to_list (times q)))).

(** Five connections; two of the three earliest hang below the first child. *)
Definition count_queue : attq :=
  default lsquic_attq_create
    ('(_, q) ← lsquic_attq_add lsquic_attq_create 1 1 0 true (Some 100);
     '(_, q) ← lsquic_attq_add q 2 2 0 true (Some 101);
     '(_, q) ← lsquic_attq_add q 3 10 0 true (Some 102);
     '(_, q) ← lsquic_attq_add q 4 3 0 true (Some 103);
     '(_, q) ← lsquic_attq_add q 5 4 0 true (Some 104); Some q).

(** A finding. [lsquic_attq_count_before] can report too few connections.  It stops at
    the first level of the heap that is not entirely before the cutoff, but the
    level below it can still hold such elements: here four of five connections
    are due and it reports two. *)
Theorem attq_count_short :
  lsquic_attq_count_before count_queue 5 = Some 2 /\ due_before count_queue 5 = 4.
Proof. split; vm_compute; reflexivity. Qed.
