(* ===== verification/IntSet.v ===== *)
(** Sets of integers, lsquic_set.c: a bit mask for the values 0 to 63 and a
    sorted array of ranges for the others, searched by bisection.  The source
    holds the code twice, for 32 and for 64 bits; here the width is a parameter
    and both variants are instances. *)
From S2P Require Import Prelude.
Local Open Scope Z_scope.

Record set_elem := SE { low : Z; high : Z }.

(** [elems] holds the [n_elems] ranges; [cap] is the number of elements the
    memory at [set->elems] has room for, which is not a field of the struct. *)
Record lsquic_set := Set_ {
  elems : list set_elem;
  lowset : Z;
  n_alloc : Z;
  cap : Z
}.

Section set.
Context (w : Z).

Definition set_init : lsquic_set := Set_ [] 0 0 0.

(** The result and the set; writing behind the memory and doubling [n_alloc]
    past the largest [int] are undefined.
    [realloc_ok] is the result of the allocation, if there is one. *)
Definition insert_set_elem (s : lsquic_set) (i : nat) (value : Z) (realloc_ok : bool) : option (Z * lsquic_set) :=
  let n := Z.of_nat (length (elems s)) in
  if n =? INT_MAX then Some (-1, s) else
  let full := n_alloc s =? n in
  let alloc := if full then (if n_alloc s =? 0 then 4 else n_alloc s * 2) else n_alloc s in
  if full && (INT_MAX <? alloc) then None else
  if full && negb realloc_ok then Some (-1, Set_ (elems s) (lowset s) alloc (cap s)) else
  let cap := if full then alloc else cap s in
  if n <? cap then
    Some (0, Set_ (take i (elems s) ++ SE value value :: drop i (elems s)) (lowset s) alloc cap)
  else None.

(** The assertions are checks. *)
Definition merge_set_elems (s : lsquic_set) (i : nat) : option lsquic_set :=
  a ← elems s !! i; b ← elems s !! S i;
  if wrapu w (high a + 1) =? low b then
    Some (Set_ (take i (elems s) ++ SE (low a) (high b) :: drop (S (S i)) (elems s)) (lowset s) (n_alloc s) (cap s))
  else None.

Definition set_elem_at (s : lsquic_set) (i : nat) (e : set_elem) : lsquic_set :=
  Set_ (<[i := e]> (elems s)) (lowset s) (n_alloc s) (cap s).

(** The [do]/[while] loop: [Found] is [return 0] inside the loop, [Last i] the
    value of [i] after it. *)
Inductive search_res := Found | Last (i : nat).

Fixpoint search (fuel : nat) (es : list set_elem) (value lo hi : Z) : option search_res :=
  match fuel with
  | O => None
  | S fuel =>
    let i := lo + Z.quot (hi - lo) 2 in
    e ← aget es i;
    if (low e <=? value) && (value <=? high e) then Some Found else
    let '(lo, hi) := if high e <? value then (i + 1, hi) else (lo, i - 1) in
    if lo <=? hi then search fuel es value lo hi else Some (Last (Z.to_nat i))
  end.

(** [set->elems[j].high + 1 == value], false if there is no such element. *)
Definition ends_before (es : list set_elem) (j : option nat) (value : Z) : bool :=
  match j ≫= (es !!.) with Some e => wrapu w (high e + 1) =? value | None => false end.

Definition starts_after (es : list set_elem) (j : nat) (value : Z) : bool :=
  match es !! j with Some e => wrapu w (low e - 1) =? value | None => false end.

Definition prev (i : nat) : option nat := match i with O => None | S i => Some i end.

(** What [add] does at the element [e] at [i] next to which the value belongs. *)
Definition add_at (s : lsquic_set) (i : nat) (e : set_elem) (value : Z) (realloc_ok : bool)
    : option (Z * lsquic_set) :=
  if value <? low e then
    if wrapu w (low e - 1) =? value then
      let s := set_elem_at s i (SE value (high e)) in
      if ends_before (elems s) (prev i) value
      then s ← merge_set_elems s (i - 1); Some (0, s) else Some (0, s)
    else if ends_before (elems s) (prev i) value then
      p ← elems s !! (i - 1)%nat; Some (0, set_elem_at s (i - 1) (SE (low p) value))
    else insert_set_elem s i value realloc_ok
  else if high e <? value then
    if wrapu w (high e + 1) =? value then
      let s := set_elem_at s i (SE (low e) value) in
      if starts_after (elems s) (S i) value
      then s ← merge_set_elems s i; Some (0, s) else Some (0, s)
    else if starts_after (elems s) (S i) value then
      p ← elems s !! S i; Some (0, set_elem_at s (S i) (SE value (high p)))
    else '(_, s) ← insert_set_elem s (S i) value realloc_ok; Some (0, s)
  else None.

Definition set_add (s : lsquic_set) (value : Z) (realloc_ok : bool) : option (Z * lsquic_set) :=
  if value <? 64 then
    Some (0, Set_ (elems s) (Z.lor (lowset s) (Z.shiftl 1 value)) (n_alloc s) (cap s))
  else match elems s with
  | [] => insert_set_elem s 0 value realloc_ok
  | _ =>
    r ← search (S (length (elems s))) (elems s) value 0 (Z.of_nat (length (elems s)) - 1);
    match r with
    | Found => Some (0, s)
    | Last i => e ← elems s !! i; add_at s i e value realloc_ok
    end
  end.

Fixpoint has_loop (fuel : nat) (es : list set_elem) (value lo hi : Z) : option bool :=
  match fuel with
  | O => None
  | S fuel =>
    if lo <=? hi then
      let i := lo + Z.quot (hi - lo) 2 in
      e ← aget es i;
      if (low e <=? value) && (value <=? high e) then Some true
      else if high e <? value then has_loop fuel es value (i + 1) hi
      else has_loop fuel es value lo (i - 1)
    else Some false
  end.

Definition set_has (s : lsquic_set) (value : Z) : option bool :=
  if value <? 64 then Some (negb (Z.land (lowset s) (Z.shiftl 1 value) =? 0))
  else has_loop (S (length (elems s))) (elems s) value 0 (Z.of_nat (length (elems s)) - 1).

End set.

Definition lsquic_set32_init : lsquic_set := set_init.
Definition lsquic_set32_insert_set_elem := insert_set_elem.
Definition lsquic_set32_merge_set_elems := merge_set_elems 32.
Definition lsquic_set32_add := set_add 32.
Definition lsquic_set32_has := set_has.
Definition lsquic_set64_init : lsquic_set := set_init.
Definition lsquic_set64_insert_set_elem := insert_set_elem.
Definition lsquic_set64_merge_set_elems := merge_set_elems 64.
Definition lsquic_set64_add := set_add 64.
Definition lsquic_set64_has := set_has.

(** * Well-formed arrays *)

(** Ranges in ascending order from [b] on, never adjacent, below 2^w. *)
Fixpoint set_ok (w b : Z) (es : list set_elem) : Prop :=
  match es with
  | [] => True
  | e :: es => b <= low e <= high e /\ high e < 2 ^ w /\ set_ok w (high e + 2) es
  end.

Definition memb (v : Z) (es : list set_elem) : Prop := Exists (fun e => low e <= v <= high e) es.

Fixpoint endb (b : Z) (es : list set_elem) : Z :=
  match es with [] => b | e :: es => endb (high e + 2) es end.

Lemma set_ok_app w b es1 es2 : set_ok w b (es1 ++ es2) <-> set_ok w b es1 /\ set_ok w (endb b es1) es2.
Proof. revert b. induction es1 as [|e es1 IH]; intros b; cbn; [tauto|]. rewrite IH. tauto. Qed.

Lemma endb_snoc b es p : endb b (es ++ [p]) = high p + 2.
Proof. revert b. induction es as [|e es IH]; intros b; cbn; [done|]. apply IH. Qed.

Lemma endb_le w b es : set_ok w b es -> b <= endb b es.
Proof.
  revert b. induction es as [|e es IH]; intros b; cbn; [lia|]. intros (H1 & H2 & H3). specialize (IH _ H3). lia.
Qed.

Lemma set_ok_weak w b b' es : b' <= b -> set_ok w b es -> set_ok w b' es.
Proof. destruct es; cbn; [done|]. intros ? (? & ? & ?). split_and!; try done; lia. Qed.

Lemma memb_app v es1 es2 : memb v (es1 ++ es2) <-> memb v es1 \/ memb v es2.
Proof. apply Exists_app. Qed.

Lemma memb_cons v e es : memb v (e :: es) <-> low e <= v <= high e \/ memb v es.
Proof. apply Exists_cons. Qed.

Lemma memb_nil v : memb v [] <-> False.
Proof. apply Exists_nil. Qed.

Create Rewrite HintDb intset.
#[export] Hint Rewrite memb_app memb_cons memb_nil set_ok_app endb_snoc : intset.

Lemma memb_range w b v es : set_ok w b es -> memb v es -> b <= v < 2 ^ w.
Proof.
  revert b. induction es as [|e es IH]; intros b; cbn; [by intros _ ?%memb_nil|].
  intros (H1 & H2 & H3) [H|H]%memb_cons; [lia|]. specialize (IH _ H3 H). lia.
Qed.

(** Elements by index. *)
Lemma set_ok_lookup w b es i e : set_ok w b es -> es !! i = Some e -> b <= low e <= high e /\ high e < 2 ^ w.
Proof.
  revert b i. induction es as [|x es IH]; intros b i Hok Hi; [done|]. cbn in Hok. destruct Hok as (H1 & H2 & H3).
  destruct i as [|i]; cbn in Hi; [injection Hi as <-; lia|]. specialize (IH _ _ H3 Hi). lia.
Qed.

Lemma set_ok_order w b es i j e f : set_ok w b es -> es !! i = Some e -> es !! j = Some f -> (i < j)%nat ->
  high e + 2 <= low f.
Proof.
  revert b i j. induction es as [|x es IH]; intros b i j Hok Hi Hj Hlt; [done|].
  cbn in Hok. destruct Hok as (H1 & H2 & H3). destruct j as [|j]; [lia|]. cbn in Hj.
  destruct i as [|i]; cbn in Hi.
  - injection Hi as <-. pose proof (set_ok_lookup _ _ _ _ _ H3 Hj). lia.
  - eapply IH; [done..|lia].
Qed.

(** * Bisection *)

Lemma quot2 a : 0 <= a -> Z.quot a 2 = a / 2 /\ 0 <= a / 2 <= a.
Proof.
  intros. rewrite Z.quot_div_nonneg by lia. pose proof (Z.div_mod a 2). pose proof (Z.mod_pos_bound a 2).
  split; [done|]. lia.
Qed.

Section search.
Context (w : Z) (es : list set_elem) (v : Z).
Hypothesis Hok : set_ok w 64 es.

(** What lies outside of the part still searched. *)
Definition narrowed (lo hi : Z) : Prop :=
  0 <= lo <= hi + 1 /\ hi < Z.of_nat (length es)
  /\ (forall j e, es !! j = Some e -> Z.of_nat j < lo -> high e < v)
  /\ (forall j e, es !! j = Some e -> hi < Z.of_nat j -> v < low e).

Lemma narrowed_start : narrowed 0 (Z.of_nat (length es) - 1).
Proof.
  split_and!; try lia. intros j e Hj%lookup_lt_Some. lia.
Qed.

Lemma narrowed_up lo hi i e : narrowed lo hi -> lo <= i <= hi -> aget es i = Some e -> high e < v ->
  narrowed (i + 1) hi.
Proof using Hok.
  intros (H1 & H2 & H3 & H4) Hi [Hge He]%aget_Some Hlt. split_and!; try done; try lia.
  intros j f Hf Hj. destruct (decide (j = Z.to_nat i)) as [->|Hne]; [congruence|].
  pose proof (set_ok_order _ _ _ j (Z.to_nat i) f e Hok Hf He ltac:(lia)).
  pose proof (set_ok_lookup _ _ _ _ _ Hok He). lia.
Qed.

Lemma narrowed_down lo hi i e : narrowed lo hi -> lo <= i <= hi -> aget es i = Some e -> v < low e ->
  narrowed lo (i - 1).
Proof using Hok.
  intros (H1 & H2 & H3 & H4) Hi [Hge He]%aget_Some Hlt. split_and!; try done; try lia.
  intros j f Hf Hj. destruct (decide (j = Z.to_nat i)) as [->|Hne]; [congruence|].
  pose proof (set_ok_order _ _ _ (Z.to_nat i) j e f Hok He Hf ltac:(lia)).
  pose proof (set_ok_lookup _ _ _ _ _ Hok He). lia.
Qed.

Lemma narrowed_none lo hi : narrowed lo hi -> hi < lo -> ~ memb v es.
Proof using Hok.
  intros (H1 & H2 & H3 & H4) Hlt (e & [j Hj]%list_elem_of_lookup_1 & Hin)%Exists_exists.
  destruct (Z.lt_ge_cases (Z.of_nat j) lo); [specialize (H3 j e Hj); lia|specialize (H4 j e Hj); lia].
Qed.

Lemma probe lo hi : narrowed lo hi -> lo <= hi ->
  let i := lo + Z.quot (hi - lo) 2 in
  lo <= i <= hi /\ exists e, aget es i = Some e /\ es !! Z.to_nat i = Some e /\ low e <= high e.
Proof using Hok.
  intros (H1 & H2 & _) Hle i. destruct (quot2 (hi - lo) ltac:(lia)) as [E1 E2].
  assert (lo <= i <= hi) as Hi by (unfold i; lia). split; [done|].
  destruct (aget_is_Some es i ltac:(lia)) as [e He]. exists e. pose proof (proj1 (aget_Some _ _ _) He) as [_ He'].
  split_and!; try done. pose proof (set_ok_lookup _ _ _ _ _ Hok He'). lia.
Qed.

Lemma found e i : es !! i = Some e -> (low e <=? v) && (v <=? high e) = true -> memb v es.
Proof using.
  intros He Hb. apply Exists_exists. exists e. split; [by eapply list_elem_of_lookup_2|].
  apply andb_prop in Hb. lia.
Qed.

Lemma has_loop_ok fuel lo hi : narrowed lo hi -> hi - lo + 1 < Z.of_nat fuel ->
  exists r, has_loop fuel es v lo hi = Some r /\ (r = true <-> memb v es).
Proof using Hok.
  revert lo hi. induction fuel as [|fuel IH]; intros lo hi Hn Hf; [destruct Hn; lia|]. cbn [has_loop].
  destruct (Z.leb_spec lo hi) as [Hle|Hgt].
  2: { exists false. split; [done|]. split; [done|]. intros H. by apply (narrowed_none lo hi) in H. }
  destruct (probe lo hi Hn Hle) as (Hi & e & He & He' & Hlh). cbv zeta. rewrite He. cbn [mbind option_bind].
  destruct (_ && _) eqn:Ein; [exists true; split; [done|]; split; [intros _; by eapply found|done]|].
  destruct (Z.ltb_spec (high e) v) as [Hhi|Hhi].
  - apply IH; [by eapply narrowed_up|lia].
  - apply IH; [eapply narrowed_down; [done..|]|lia]. apply andb_false_iff in Ein. lia.
Qed.

(** The element next to which a missing value belongs. *)
Definition neighbour (i : nat) (e : set_elem) : Prop :=
  es !! i = Some e
  /\ (v < low e /\ (forall j f, es !! j = Some f -> (j < i)%nat -> high f < v)
      \/ high e < v /\ (forall j f, es !! j = Some f -> (i < j)%nat -> v < low f)).

Lemma search_ok fuel lo hi : narrowed lo hi -> lo <= hi -> hi - lo + 1 <= Z.of_nat fuel ->
  (search fuel es v lo hi = Some Found /\ memb v es)
  \/ exists i e, search fuel es v lo hi = Some (Last i) /\ neighbour i e /\ ~ memb v es.
Proof using Hok.
  revert lo hi. induction fuel as [|fuel IH]; intros lo hi Hn Hle Hf; [lia|]. cbn [search].
  destruct (probe lo hi Hn Hle) as (Hi & e & He & He' & Hlh). cbv zeta. rewrite He. cbn [mbind option_bind].
  destruct (_ && _) eqn:Ein; [left; split; [done|by eapply found]|].
  destruct (Z.ltb_spec (high e) v) as [Hhi|Hhi].
  - pose proof (narrowed_up _ _ _ _ Hn Hi He Hhi) as Hn'.
    destruct (Z.leb_spec (lo + Z.quot (hi - lo) 2 + 1) hi); [apply IH; [done..|lia]|].
    right. exists (Z.to_nat (lo + Z.quot (hi - lo) 2)), e. split_and!; [done| |by eapply narrowed_none; [exact Hn'|lia]].
    split; [done|]. right. split; [done|]. destruct Hn' as (_ & _ & _ & Hup).
    intros j f Hf' Hj. apply (Hup j f Hf'). lia.
  - assert (v < low e) as Hlo by (apply andb_false_iff in Ein; lia).
    pose proof (narrowed_down _ _ _ _ Hn Hi He Hlo) as Hn'.
    destruct (Z.leb_spec lo (lo + Z.quot (hi - lo) 2 - 1)); [apply IH; [done..|lia]|].
    right. exists (Z.to_nat (lo + Z.quot (hi - lo) 2)), e. split_and!; [done| |by eapply narrowed_none; [exact Hn'|lia]].
    split; [done|]. left. split; [done|]. destruct Hn' as (_ & _ & Hdn & _).
    intros j f Hf' Hj. apply (Hdn j f Hf'). destruct Hn as ([? ?] & _). lia.
Qed.

End search.

(** * Adding *)

Record set_wf (w : Z) (s : lsquic_set) : Prop := {
  wf_elems : set_ok w 64 (elems s);
  wf_low : is_u 64 (lowset s);
  wf_room : Z.of_nat (length (elems s)) <= n_alloc s;
  wf_cap : n_alloc s = cap s
}.

(** The values in the set. *)
Definition contents (s : lsquic_set) (v : Z) : Prop :=
  if v <? 64 then Z.testbit (lowset s) v = true else memb v (elems s).

(** [s'] is [s] with [v] added to its ranges. *)
Definition added (w v : Z) (s s' : lsquic_set) : Prop :=
  set_wf w s' /\ (forall u, memb u (elems s') <-> u = v \/ memb u (elems s)) /\ lowset s' = lowset s.

Section add.
Context (w : Z) (Hw : 7 <= w <= 64).

Lemma added_intro s es v alloc cap' :
  set_wf w s -> set_ok w 64 es -> (forall u, memb u es <-> u = v \/ memb u (elems s)) ->
  Z.of_nat (length es) <= alloc -> alloc = cap' -> added w v s (Set_ es (lowset s) alloc cap').
Proof. intros Hwf Hok Hm Hl Hc. split_and!; try done. split; cbn; try done. apply (wf_low _ _ Hwf). Qed.

Lemma insert_ok s i v (realloc_ok : bool) :
  set_wf w s -> Z.of_nat (length (elems s)) < 2 ^ 30 ->
  let es := take i (elems s) ++ SE v v :: drop i (elems s) in
  set_ok w 64 es -> (forall u, memb u es <-> u = v \/ memb u (elems s)) -> (i <= length (elems s))%nat ->
  exists r s', insert_set_elem s i v realloc_ok = Some (r, s')
    /\ (r = 0 /\ added w v s s' \/ r = -1 /\ realloc_ok = false /\ elems s' = elems s /\ lowset s' = lowset s).
Proof.
  intros Hwf Hlen es Hok Hm Hi. unfold insert_set_elem, INT_MAX. replace (_ =? 2147483647) with false by lia.
  pose proof (wf_room _ _ Hwf) as Hroom. pose proof (wf_cap _ _ Hwf) as Hcap.
  assert (Z.of_nat (length es) = Z.of_nat (length (elems s)) + 1) as Hle.
  { unfold es. rewrite length_app, length_take. cbn [length]. rewrite length_drop. lia. }
  destruct (Z.eqb_spec (n_alloc s) (Z.of_nat (length (elems s)))) as [Hfull|Hfull]; cbn [andb].
  - set (a := if n_alloc s =? 0 then 4 else n_alloc s * 2).
    assert (Z.of_nat (length (elems s)) < a) as Ha by (unfold a; destruct (Z.eqb_spec (n_alloc s) 0); lia).
    replace (_ <? a) with false by (unfold a; destruct (Z.eqb_spec (n_alloc s) 0); lia).
    destruct realloc_ok; cbn [negb]; [|do 2 eexists; split; [reflexivity|]; by right].
    replace (_ <? a) with true by lia. do 2 eexists. split; [reflexivity|]. left. split; [done|].
    apply added_intro; try done. fold es. lia.
  - replace (_ <? cap s) with true by lia. do 2 eexists. split; [reflexivity|]. left. split; [done|].
    apply added_intro; try done. fold es. lia.
Qed.

(** Splitting the array at the neighbour. *)
Lemma take_mid {A} (l1 l2 : list A) x : take (length l1) (l1 ++ x :: l2) = l1.
Proof. by rewrite take_app_length. Qed.

Lemma drop_mid {A} (l1 l2 : list A) x : drop (length l1) (l1 ++ x :: l2) = x :: l2.
Proof. by rewrite drop_app_length. Qed.

Lemma insert_mid {A} (l1 l2 : list A) x y : <[length l1 := y]> (l1 ++ x :: l2) = l1 ++ y :: l2.
Proof. rewrite insert_app_r_alt by lia. by rewrite Nat.sub_diag. Qed.

Lemma lookup_mid {A} (l1 l2 : list A) x : (l1 ++ x :: l2) !! length l1 = Some x.
Proof. rewrite lookup_app_r by lia. by rewrite Nat.sub_diag. Qed.

Lemma set_merge_ok s es1 a b es2 :
  elems s = es1 ++ a :: b :: es2 -> wrapu w (high a + 1) = low b ->
  merge_set_elems w s (length es1)
  = Some (Set_ (es1 ++ SE (low a) (high b) :: es2) (lowset s) (n_alloc s) (cap s)).
Proof.
  intros E Heq. unfold merge_set_elems. rewrite E, lookup_mid. cbn [mbind option_bind].
  rewrite lookup_app_r by lia. replace (S (length es1) - length es1)%nat with 1%nat by lia. cbn [lookup list_lookup mbind option_bind].
  rewrite Heq, Z.eqb_refl, take_mid.
  assert (drop (S (S (length es1))) (es1 ++ a :: b :: es2) = es2) as ->; [|done].
  rewrite drop_app_ge by lia. by replace (S (S (length es1)) - length es1)%nat with 2%nat by lia.
Qed.

(** What [add_at] achieves; a failed allocation is reported as success when the
    value belongs behind its neighbour. *)
Definition add_post (v : Z) (realloc_ok : bool) (s : lsquic_set) (res : option (Z * lsquic_set)) : Prop :=
  exists r s', res = Some (r, s')
    /\ (r = 0 /\ added w v s s'
        \/ realloc_ok = false /\ (r = 0 \/ r = -1) /\ elems s' = elems s /\ lowset s' = lowset s).

Lemma post_edit s es v realloc_ok :
  set_wf w s -> set_ok w 64 es -> (forall u, memb u es <-> u = v \/ memb u (elems s)) ->
  (length es <= length (elems s))%nat ->
  add_post v realloc_ok s (Some (0, Set_ es (lowset s) (n_alloc s) (cap s))).
Proof using Hw.
  intros Hwf Hok Hm Hl. do 2 eexists. split; [reflexivity|]. left. split; [done|].
  pose proof (wf_room _ _ Hwf). apply added_intro; try done; [lia|apply (wf_cap _ _ Hwf)].
Qed.

Lemma post_insert s i v realloc_ok :
  set_wf w s -> Z.of_nat (length (elems s)) < 2 ^ 30 -> (i <= length (elems s))%nat ->
  let es := take i (elems s) ++ SE v v :: drop i (elems s) in
  set_ok w 64 es -> (forall u, memb u es <-> u = v \/ memb u (elems s)) ->
  add_post v realloc_ok s (insert_set_elem s i v realloc_ok).
Proof using Hw.
  intros Hwf Hlen Hi es Hok Hm. destruct (insert_ok s i v realloc_ok Hwf Hlen Hok Hm Hi) as (r & s' & E & Hr).
  exists r, s'. split; [done|]. destruct Hr as [Hr|(-> & ? & ? & ?)]; [by left|right]. split_and!; try done. by right.
Qed.

Ltac edit_tac := autorewrite with intset in *; cbn [low high set_ok endb] in *; intuition lia.

Lemma add_below s es1 e es2 v realloc_ok :
  set_wf w s -> elems s = es1 ++ e :: es2 -> Z.of_nat (length (elems s)) < 2 ^ 30 ->
  64 <= v < low e -> (forall f, f ∈ es1 -> high f < v) ->
  add_post v realloc_ok s (add_at w s (length es1) e v realloc_ok).
Proof using Hw.
  intros Hwf Ees Hlen Hv Hes1. pose proof (wf_elems _ _ Hwf) as Hok. rewrite Ees in Hok.
  assert (low e <= high e < 2 ^ w) as He by (pose proof (set_ok_lookup _ _ _ _ _ Hok (lookup_mid es1 es2 e)); lia).
  assert (Z.of_nat (length (elems s)) = Z.of_nat (length es1) + 1 + Z.of_nat (length es2)) as Hl
    by (rewrite Ees, length_app; cbn; lia).
  unfold add_at. replace (v <? low e) with true by lia. rewrite (wrapu_id w (low e - 1)) by (unfold is_u; lia).
  unfold set_elem_at, ends_before. cbn [elems lowset n_alloc cap]. rewrite Ees, insert_mid.
  destruct es1 as [|p es1 _] using rev_ind.
  - cbn [prev length mbind option_bind app].
    destruct (Z.eqb_spec (low e - 1) v).
    + apply post_edit; [done|edit_tac|rewrite Ees; intros u; edit_tac|rewrite Ees; done].
    + apply post_insert; [done|done|lia|..]; rewrite Ees; cbn [take drop app]; [edit_tac|intros u; edit_tac].
  - assert (high p < v) as Hp by (apply Hes1, elem_of_app; right; apply list_elem_of_here).
    assert (length (es1 ++ [p]) = S (length es1)) as El by (rewrite length_app; cbn; lia).
    rewrite El. cbn [prev mbind option_bind]. replace (S (length es1) - 1)%nat with (length es1) by lia.
    rewrite <- !app_assoc. cbn [app]. rewrite !lookup_mid. cbn [mbind option_bind].
    rewrite <- app_assoc in Ees, Hok. cbn [app] in Ees, Hok.
    pose proof (set_ok_lookup _ _ _ _ _ Hok (lookup_mid es1 (e :: es2) p)) as Hpl.
    rewrite (wrapu_id w (high p + 1)) by (unfold is_u; lia).
    destruct (Z.eqb_spec (low e - 1) v); destruct (Z.eqb_spec (high p + 1) v).
    + erewrite set_merge_ok; [|reflexivity|cbn [low]; rewrite wrapu_id by (unfold is_u; lia); done].
      cbn [mbind option_bind elems lowset n_alloc cap low high].
      apply post_edit; [done|edit_tac|rewrite Ees; intros u; edit_tac|]. rewrite Ees, !length_app. cbn. lia.
    + apply post_edit; [done|edit_tac|rewrite Ees; intros u; edit_tac|]. rewrite Ees, !length_app. done.
    + rewrite insert_mid.
      apply post_edit; [done|edit_tac|rewrite Ees; intros u; edit_tac|]. rewrite Ees, !length_app. done.
    + rewrite <- El. apply post_insert; [done|done|lia|..]; rewrite Ees;
      replace (es1 ++ p :: e :: es2) with ((es1 ++ [p]) ++ e :: es2) by (by rewrite <- app_assoc);
      rewrite take_mid, drop_mid, <- !app_assoc; cbn [app]; [edit_tac|intros u; edit_tac].
Qed.

Lemma post_tail s i v realloc_ok :
  add_post v realloc_ok s (insert_set_elem s i v realloc_ok) ->
  add_post v realloc_ok s ('(_, s') ← insert_set_elem s i v realloc_ok; Some (0, s')).
Proof using.
  intros (r & s' & -> & H). exists 0, s'. split; [done|].
  destruct H as [[_ H]|(H1 & _ & H2)]; [by left|right]. split_and!; [done|by left|apply H2|apply H2].
Qed.

Lemma add_above s es1 e es2 v realloc_ok :
  set_wf w s -> elems s = es1 ++ e :: es2 -> Z.of_nat (length (elems s)) < 2 ^ 30 ->
  64 <= v < 2 ^ w -> high e < v -> (forall f, f ∈ es2 -> v < low f) ->
  add_post v realloc_ok s (add_at w s (length es1) e v realloc_ok).
Proof using Hw.
  intros Hwf Ees Hlen Hv Hev Hes2. pose proof (wf_elems _ _ Hwf) as Hok. rewrite Ees in Hok.
  pose proof (set_ok_lookup _ _ _ _ _ Hok (lookup_mid es1 es2 e)) as He.
  assert (Z.of_nat (length (elems s)) = Z.of_nat (length es1) + 1 + Z.of_nat (length es2)) as Hl
    by (rewrite Ees, length_app; cbn; lia).
  unfold add_at. replace (v <? low e) with false by lia. replace (high e <? v) with true by lia.
  rewrite (wrapu_id w (high e + 1)) by (unfold is_u; lia).
  unfold set_elem_at, starts_after. cbn [elems lowset n_alloc cap]. rewrite Ees, insert_mid.
  assert (forall x, (es1 ++ x :: es2) !! S (length es1) = head es2) as Hnext.
  { intros x. rewrite lookup_app_r by lia. replace (S (length es1) - length es1)%nat with 1%nat by lia. by destruct es2. }
  rewrite !Hnext.
  assert (forall x, take (S (length es1)) (es1 ++ x :: es2) = es1 ++ [x]
                    /\ drop (S (length es1)) (es1 ++ x :: es2) = es2) as Hsplit.
  { intros x. rewrite take_app_ge, drop_app_ge by lia.
    by replace (S (length es1) - length es1)%nat with 1%nat by lia. }
  destruct es2 as [|p es2]; cbn [head hd_error].
  - destruct (Z.eqb_spec (high e + 1) v).
    + apply post_edit; [done|edit_tac|rewrite Ees; intros u; edit_tac|rewrite Ees, !length_app; done].
    + apply post_tail, post_insert; [done|done|lia|..]; rewrite Ees; destruct (Hsplit e) as [-> ->];
        rewrite <- app_assoc; cbn [app]; [edit_tac|intros u; edit_tac].
  - assert (v < low p) as Hp by (apply Hes2, list_elem_of_here).
    assert (low p <= high p < 2 ^ w) as Hpl by edit_tac.
    rewrite (wrapu_id w (low p - 1)) by (unfold is_u; lia).
    destruct (Z.eqb_spec (high e + 1) v); destruct (Z.eqb_spec (low p - 1) v).
    + erewrite set_merge_ok; [|reflexivity|cbn [high]; rewrite wrapu_id by (unfold is_u; lia); lia].
      cbn [mbind option_bind elems lowset n_alloc cap low high].
      apply post_edit; [done|edit_tac|rewrite Ees; intros u; edit_tac|]. rewrite Ees, !length_app. cbn. lia.
    + apply post_edit; [done|edit_tac|rewrite Ees; intros u; edit_tac|]. rewrite Ees, !length_app. done.
    + cbn [mbind option_bind].
      assert (<[S (length es1) := SE v (high p)]> (es1 ++ e :: p :: es2) = es1 ++ e :: SE v (high p) :: es2) as ->.
      { rewrite insert_app_r_alt by lia. by replace (S (length es1) - length es1)%nat with 1%nat by lia. }
      apply post_edit; [done|edit_tac|rewrite Ees; intros u; edit_tac|]. rewrite Ees, !length_app. done.
    + apply post_tail, post_insert; [done|done|lia|..]; rewrite Ees; destruct (Hsplit e) as [-> ->];
        rewrite <- app_assoc; cbn [app]; [edit_tac|intros u; edit_tac].
Qed.

Lemma set_add_ok s v realloc_ok :
  set_wf w s -> Z.of_nat (length (elems s)) < 2 ^ 30 -> 64 <= v < 2 ^ w ->
  (set_add w s v realloc_ok = Some (0, s) /\ memb v (elems s)) \/ add_post v realloc_ok s (set_add w s v realloc_ok).
Proof using Hw.
  intros Hwf Hlen Hv. unfold set_add. replace (v <? 64) with false by lia.
  destruct (elems s) as [|e0 es0] eqn:E0.
  { right. apply post_insert; [done|by rewrite E0|by rewrite E0|..]; rewrite E0; cbn; [lia|].
    intros u. rewrite memb_cons, memb_nil. cbn. lia. }
  rewrite <- E0 in *. assert (0 < length (elems s))%nat as Hpos by (rewrite E0; cbn; lia). clear E0 e0 es0.
  destruct (search_ok w (elems s) v (wf_elems _ _ Hwf) (S (length (elems s))) 0 (Z.of_nat (length (elems s)) - 1))
    as [[-> Hm]|(i & e & -> & (He & Hside) & Hnm)]; [apply narrowed_start|lia|lia|by left|].
  right. cbn [mbind option_bind]. rewrite He. cbn [mbind option_bind].
  pose proof (take_drop_middle _ _ _ He) as Hsplit. pose proof (lookup_lt_Some _ _ _ He) as Hi.
  assert (length (take i (elems s)) = i) as Hti by (rewrite length_take; lia).
  rewrite <- Hti at 1. destruct Hside as [[Hlt Hall]|[Hlt Hall]].
  - apply (add_below s (take i (elems s)) e (drop (S i) (elems s))); try done; [lia|].
    intros f [j Hj]%list_elem_of_lookup_1. apply lookup_take_Some in Hj as [Hj Hji]. by eapply Hall.
  - apply (add_above s (take i (elems s)) e (drop (S i) (elems s))); try done.
    intros f [j Hj]%list_elem_of_lookup_1. rewrite lookup_drop in Hj. eapply Hall; [done|lia].
Qed.

End add.

Lemma set_has_ok w s v : set_wf w s -> 0 <= v ->
  exists r, set_has s v = Some r /\ (r = true <-> contents s v).
Proof.
  intros Hwf Hv. unfold set_has, contents. destruct (Z.ltb_spec v 64).
  - eexists. split; [reflexivity|]. rewrite Z.shiftl_1_l. rewrite negb_true_iff, Z.eqb_neq.
    rewrite <- Z.shiftl_1_l. split.
    + intros Hne. destruct (Z.testbit (lowset s) v) eqn:E; [done|]. exfalso. apply Hne.
      apply Z.bits_inj'. intros i Hi. rewrite Z.land_spec, Z.shiftl_1_l, Z.pow2_bits_eqb, Z.testbit_0_l by done.
      destruct (Z.eqb_spec v i); [subst; by rewrite E|by rewrite andb_false_r].
    + intros E H0. apply (f_equal (fun x => Z.testbit x v)) in H0.
      rewrite Z.land_spec, E, Z.shiftl_1_l, Z.pow2_bits_true, Z.testbit_0_l in H0 by done. done.
  - apply (has_loop_ok w); [apply (wf_elems _ _ Hwf)|apply narrowed_start|lia].
Qed.

Lemma lor_bit64 x v : is_u 64 x -> 0 <= v < 64 -> is_u 64 (Z.lor x (Z.shiftl 1 v)).
Proof.
  intros Hx Hv. apply is_u_lor; [done..|]. rewrite Z.shiftl_1_l.
  split; [lia|]. apply Z.pow_lt_mono_r; lia.
Qed.

(** * Properties *)


(** The integer set is a set.  For both widths, membership (by bisection)
    terminates and is true exactly of the values in a well-formed set; adding a
    value while memory lasts returns 0, keeps the set well formed (sorted
    ranges that never touch) and adds exactly that value; if an allocation
    fails, the values in the set do not change.  No access leaves the array and
    no assertion fails. *)
Theorem int_set_refines w s v u realloc_ok :
  w = 32 \/ w = 64 -> set_wf w s -> Z.of_nat (length (elems s)) < 2 ^ 30 -> 0 <= v < 2 ^ w -> 0 <= u < 2 ^ w ->
  (exists r, set_has s u = Some r /\ (r = true <-> contents s u))
  /\ exists r s', set_add w s v realloc_ok = Some (r, s')
     /\ (realloc_ok = true -> r = 0 /\ set_wf w s')
     /\ ((contents s' u <-> u = v \/ contents s u)
         \/ realloc_ok = false /\ (contents s' u <-> contents s u)).
Proof.
  intros Hw Hwf Hlen Hv Hu. split; [by apply (set_has_ok w); [|lia]|].
  destruct (Z.ltb_spec v 64) as [Hlow|Hhigh].
  - do 2 eexists. split; [unfold set_add; by replace (v <? 64) with true by lia|]. split.
    + intros _. split; [done|]. pose proof (wf_low _ _ Hwf). destruct Hwf. split; try done. cbn.
      apply lor_bit64; [done|lia].
    + left. unfold contents. cbn [elems lowset]. destruct (Z.ltb_spec u 64); [|intuition lia].
      rewrite Z.lor_spec, Z.shiftl_1_l, Z.pow2_bits_eqb by lia.
      rewrite orb_true_iff, Z.eqb_eq. intuition lia.
  - destruct (set_add_ok w ltac:(lia) s v realloc_ok Hwf Hlen ltac:(lia)) as [[-> Hm]|(r & s' & -> & Hpost)].
    + do 2 eexists. split; [reflexivity|]. split; [done|]. left. unfold contents.
      destruct (Z.ltb_spec u 64); [intuition lia|]. split; [tauto|]. by intros [->|?].
    + do 2 eexists. split; [reflexivity|]. destruct Hpost as [(-> & Hwf' & Hm & Hl)|(-> & Hr & He & Hl)].
      * split; [done|]. left. unfold contents. rewrite Hl. destruct (Z.ltb_spec u 64); [intuition lia|apply Hm].
      * split; [done|]. right. split; [done|]. unfold contents. by rewrite He, Hl.
Qed.

Lemma int_set_refines_witness :
  let s := Set_ [SE 70 71; SE 80 90] 5 4 4 in
  set_has s 80 = Some true /\ set_add 64 s 72 true = Some (0, Set_ [SE 70 72; SE 80 90] 5 4 4)
  /\ ((exists r, set_has s 72 = Some r /\ (r = true <-> contents s 72))
      /\ exists r s', set_add 64 s 72 true = Some (r, s')
         /\ (true = true -> r = 0 /\ set_wf 64 s')
         /\ ((contents s' 72 <-> 72 = 72 \/ contents s 72)
             \/ true = false /\ (contents s' 72 <-> contents s 72))).
Proof.
  cbv zeta. split; [reflexivity|]. split; [reflexivity|]. apply int_set_refines.
  - by right.
  - split; vm_compute; intuition discriminate.
  - vm_compute. reflexivity.
  - split; [discriminate|reflexivity].
  - split; [discriminate|reflexivity].
Defined.

(** What a failed allocation does to the set, in both variants.  If the
    element to insert goes before the one the bisection ends at, the failure is
    reported; if it goes behind it, the call returns 0, success, and the value
    is not in the set.  After any failure [n_alloc] claims memory that was not
    allocated, and the next insertion writes behind the array: with the array
    full at four elements, a fifth element is lost without an error and the
    next call is undefined. *)
Theorem int_set_failed_alloc w :
  w = 32 \/ w = 64 ->
  let s := Set_ [SE 100 100; SE 110 110; SE 120 120; SE 130 130] 0 4 4 in
  let s' := Set_ [SE 100 100; SE 110 110; SE 120 120; SE 130 130] 0 8 4 in
  set_add w s 90 false = Some (-1, s')
  /\ set_add w s 140 false = Some (0, s') /\ set_has s' 140 = Some false
  /\ set_add w s' 140 true = None.
Proof. by intros [->| ->]. Qed.

Lemma int_set_failed_alloc_witness :
  set_has (Set_ [SE 100 100; SE 110 110; SE 120 120; SE 130 130] 0 8 4) 140 = Some false.
Proof. apply (int_set_failed_alloc 64). by right. Defined.
