(* ===== verification/Flow.v ===== *)
(** Receive flow control: the connection's window (lsquic_cfcw.c), the window
    of each stream (lsquic_sfcw.c) and the places in lsquic_stream.c that drive
    them: data and RESET_STREAM frames that arrive, data the user reads, and
    streams that are opened and destroyed.

    The clock and the smoothed RTT are arguments; [es_max_cfcw] and
    [es_max_sfcw] are the engine's settings. *)
From stdpp Require Import gmap.
From S2P Require Import Prelude.
Local Open Scope Z_scope.

Record lsquic_cfcw := CF {
  cf_max_recv_off : Z;
  cf_recv_off : Z;
  cf_read_off : Z;
  cf_last_updated : Z;
  cf_max_recv_win : Z
}.

(** [sf_limited]: the pointer [sf_cfcw] to the connection's window is not NULL. *)
Record lsquic_sfcw := SF {
  sf_limited : bool;
  sf_max_recv_off : Z;
  sf_recv_off : Z;
  sf_read_off : Z;
  sf_last_updated : Z;
  sf_max_recv_win : Z
}.

(** The fields of a stream that take part in receive flow control. *)
Record fstream := ST {
  sm_fc : lsquic_sfcw;
  read_offset : Z;
  rst_recvd : bool
}.

Record flow := FL { fl_cfcw : lsquic_cfcw; fl_streams : gmap Z fstream }.

Section flow.
Context (es_max_cfcw es_max_sfcw : Z).

(** ** lsquic_cfcw.c *)

Definition cfcw_maybe_increase_max_window (fc : lsquic_cfcw) : lsquic_cfcw :=
  let new := u32 (cf_max_recv_win fc * 2) in
  let new := if es_max_cfcw <? new then es_max_cfcw else new in
  if cf_max_recv_win fc <? new
  then CF (cf_max_recv_off fc) (cf_recv_off fc) (cf_read_off fc) (cf_last_updated fc) new
  else fc.

Definition lsquic_cfcw_fc_offsets_changed (fc : lsquic_cfcw) (now srtt : Z) : bool * lsquic_cfcw :=
  if cf_max_recv_win fc / 2 <=? u64 (cf_recv_off fc - cf_read_off fc) then (false, fc) else
  let since_last_update := u64 (now - cf_last_updated fc) in
  let fc := CF (cf_max_recv_off fc) (cf_recv_off fc) (cf_read_off fc) now (cf_max_recv_win fc) in
  let fc := if since_last_update <? u64 (srtt * 2) then cfcw_maybe_increase_max_window fc else fc in
  (true, CF (cf_max_recv_off fc) (u64 (cf_read_off fc + cf_max_recv_win fc)) (cf_read_off fc)
            (cf_last_updated fc) (cf_max_recv_win fc)).

Definition lsquic_cfcw_init (max_recv_window now srtt : Z) : lsquic_cfcw :=
  (lsquic_cfcw_fc_offsets_changed (CF 0 0 0 0 max_recv_window) now srtt).2.

Definition lsquic_cfcw_incr_max_recv_off (fc : lsquic_cfcw) (incr : Z) : bool * lsquic_cfcw :=
  if u64 (cf_max_recv_off fc + incr) <=? cf_recv_off fc
  then (true, CF (u64 (cf_max_recv_off fc + incr)) (cf_recv_off fc) (cf_read_off fc)
                 (cf_last_updated fc) (cf_max_recv_win fc))
  else (false, fc).

Definition lsquic_cfcw_incr_read_off (fc : lsquic_cfcw) (incr : Z) : lsquic_cfcw :=
  CF (cf_max_recv_off fc) (cf_recv_off fc) (u64 (cf_read_off fc + incr)) (cf_last_updated fc) (cf_max_recv_win fc).

(** ** lsquic_sfcw.c *)

Definition sfcw_maybe_increase_max_window (cf : lsquic_cfcw) (fc : lsquic_sfcw) : lsquic_sfcw :=
  let new := u32 (sf_max_recv_win fc * 2) in
  let new := if es_max_sfcw <? new then es_max_sfcw else new in
  let new := if sf_limited fc then
               let max_conn_window := cf_max_recv_win cf in
               if max_conn_window <? new then max_conn_window else new
             else new in
  if sf_max_recv_win fc <? new
  then SF (sf_limited fc) (sf_max_recv_off fc) (sf_recv_off fc) (sf_read_off fc) (sf_last_updated fc) new
  else fc.

Definition lsquic_sfcw_fc_offsets_changed (cf : lsquic_cfcw) (fc : lsquic_sfcw) (now srtt : Z) : bool * lsquic_sfcw :=
  if sf_max_recv_win fc / 2 <=? u64 (sf_recv_off fc - sf_read_off fc) then (false, fc) else
  let since_last_update := u64 (now - sf_last_updated fc) in
  let fc := SF (sf_limited fc) (sf_max_recv_off fc) (sf_recv_off fc) (sf_read_off fc) now (sf_max_recv_win fc) in
  let fc := if since_last_update <? u64 (srtt * 2) then sfcw_maybe_increase_max_window cf fc else fc in
  (true, SF (sf_limited fc) (sf_max_recv_off fc) (u64 (sf_read_off fc + sf_max_recv_win fc)) (sf_read_off fc)
            (sf_last_updated fc) (sf_max_recv_win fc)).

Definition lsquic_sfcw_init (max_recv_window : Z) (limited : bool) (cf : lsquic_cfcw) (now srtt : Z) : lsquic_sfcw :=
  (lsquic_sfcw_fc_offsets_changed cf (SF limited 0 0 0 0 max_recv_window) now srtt).2.

Definition lsquic_sfcw_set_max_recv_off (cf : lsquic_cfcw) (fc : lsquic_sfcw) (max_recv_off : Z)
    : bool * lsquic_cfcw * lsquic_sfcw :=
  if max_recv_off <=? sf_recv_off fc then
    let '(ok, cf) := if sf_limited fc
                     then lsquic_cfcw_incr_max_recv_off cf (u64 (max_recv_off - sf_max_recv_off fc))
                     else (true, cf) in
    if ok
    then (true, cf, SF (sf_limited fc) max_recv_off (sf_recv_off fc) (sf_read_off fc)
                       (sf_last_updated fc) (sf_max_recv_win fc))
    else (false, cf, fc)
  else (false, cf, fc).

Definition lsquic_sfcw_set_read_off (cf : lsquic_cfcw) (fc : lsquic_sfcw) (off : Z) : lsquic_cfcw * lsquic_sfcw :=
  let cf := if sf_limited fc then lsquic_cfcw_incr_read_off cf (u64 (off - sf_read_off fc)) else cf in
  (cf, SF (sf_limited fc) (sf_max_recv_off fc) (sf_recv_off fc) off (sf_last_updated fc) (sf_max_recv_win fc)).

Definition lsquic_sfcw_consume_rem (cf : lsquic_cfcw) (fc : lsquic_sfcw) : lsquic_cfcw * lsquic_sfcw :=
  lsquic_sfcw_set_read_off cf fc (sf_max_recv_off fc).

(** ** lsquic_stream.c *)

(** A new stream (lsquic_stream_new, lsquic_stream_new_crypto). *)
Definition stream_init_fc (initial_window : Z) (limited : bool) (cf : lsquic_cfcw) (now srtt : Z) : fstream :=
  let initial_window := if initial_window =? 0 then 16 * 1024 else initial_window in
  ST (lsquic_sfcw_init initial_window limited cf now srtt) 0 false.

(** 0 is success; -1 is a flow control violation, at which the connection is
    aborted.  When the window moves, the source also marks the stream as having
    a MAX_STREAM_DATA frame to send; the queue of streams that want to send is
    not part of this state. *)
Definition lsquic_stream_update_sfcw (cf : lsquic_cfcw) (s : fstream) (max_off now srtt : Z)
    : Z * lsquic_cfcw * fstream :=
  let '(ok, cf, fc) := if sf_max_recv_off (sm_fc s) <? max_off
                       then lsquic_sfcw_set_max_recv_off cf (sm_fc s) max_off
                       else (true, cf, sm_fc s) in
  if ok then (0, cf, ST (lsquic_sfcw_fc_offsets_changed cf fc now srtt).2 (read_offset s) (rst_recvd s))
  else (-1, cf, ST fc (read_offset s) (rst_recvd s)).

(** The effect of a RESET_STREAM frame on flow control (in
    lsquic_stream_rst_in); the data in the stream is dropped with it.  [fin_off] is
    [sm_fin_off] of an IETF stream whose FIN was received. *)
Definition rst_in_fc (cf : lsquic_cfcw) (s : fstream) (fin_off : option Z) (offset : Z) : Z * lsquic_cfcw * fstream :=
  if match fin_off with Some fin => negb (fin =? offset) | None => false end then (-1, cf, s) else
  if rst_recvd s then (0, cf, s) else
  if offset <? sf_max_recv_off (sm_fc s) then (-1, cf, ST (sm_fc s) (read_offset s) true) else
  let '(ok, cf, fc) := lsquic_sfcw_set_max_recv_off cf (sm_fc s) offset in
  if ok then let '(cf, fc) := lsquic_sfcw_consume_rem cf fc in (0, cf, ST fc (read_offset s) true)
  else (-1, cf, ST fc (read_offset s) true).

(** That of a STOP_SENDING frame (in lsquic_stream_stop_sending_in); [ss_recvd] is the
    flag STREAM_SS_RECVD. *)
Definition stop_sending_in_fc (cf : lsquic_cfcw) (s : fstream) (ss_recvd : bool) : lsquic_cfcw * fstream :=
  if ss_recvd then (cf, s) else
  let '(cf, fc) := lsquic_sfcw_consume_rem cf (sm_fc s) in (cf, ST fc (read_offset s) (rst_recvd s)).

(** The user has read up to [off], and the stream tells flow control. *)
Definition stream_consumed_bytes (cf : lsquic_cfcw) (s : fstream) (off now srtt : Z) : lsquic_cfcw * fstream :=
  let '(cf, fc) := lsquic_sfcw_set_read_off cf (sm_fc s) off in
  (cf, ST (lsquic_sfcw_fc_offsets_changed cf fc now srtt).2 off (rst_recvd s)).

(** ** A connection and its streams *)

(** [Frame] is a STREAM frame that ends at [max_off].  After a RESET_STREAM the
    stream's input is the object of lsquic_di_error.c, which refuses every
    frame. *)
Inductive flow_event :=
  | Open (id initial_window : Z) (limited : bool) (now srtt : Z)
  | Frame (id max_off now srtt : Z)
  | Reset (id : Z) (fin_off : option Z) (offset : Z)
  | StopSending (id : Z) (ss_recvd : bool)
  | Read (id off now srtt : Z)
  | Tick (now srtt : Z)
  | Destroy (id : Z).

Definition flow_step (f : flow) (e : flow_event) : Z * flow :=
  let cf := fl_cfcw f in
  match e with
  | Open id win limited now srtt => (0, FL cf (<[id := stream_init_fc win limited cf now srtt]> (fl_streams f)))
  | Frame id off now srtt =>
    match fl_streams f !! id with
    | None => (0, f)
    | Some s =>
      if rst_recvd s then (-1, f) else
      let '(r, cf, s) := lsquic_stream_update_sfcw cf s off now srtt in (r, FL cf (<[id := s]> (fl_streams f)))
    end
  | Reset id fin off =>
    match fl_streams f !! id with
    | None => (0, f)
    | Some s => let '(r, cf, s) := rst_in_fc cf s fin off in (r, FL cf (<[id := s]> (fl_streams f)))
    end
  | StopSending id ss =>
    match fl_streams f !! id with
    | None => (0, f)
    | Some s => let '(cf, s) := stop_sending_in_fc cf s ss in (0, FL cf (<[id := s]> (fl_streams f)))
    end
  | Read id off now srtt =>
    match fl_streams f !! id with
    | None => (0, f)
    | Some s => let '(cf, s) := stream_consumed_bytes cf s off now srtt in (0, FL cf (<[id := s]> (fl_streams f)))
    end
  | Tick now srtt => (0, FL (lsquic_cfcw_fc_offsets_changed cf now srtt).2 (fl_streams f))
  | Destroy id =>
    match fl_streams f !! id with
    | None => (0, f)
    | Some s => let '(cf, _) := lsquic_sfcw_consume_rem cf (sm_fc s) in (0, FL cf (delete id (fl_streams f)))
    end
  end.

(** Events until a violation aborts the connection. *)
Fixpoint flow_run (f : flow) (es : list flow_event) : Z * flow :=
  match es with
  | [] => (0, f)
  | e :: es => let '(r, f) := flow_step f e in if r =? 0 then flow_run f es else (r, f)
  end.

End flow.

(** * The windows *)

(** The order of the three offsets, and a bound that keeps the arithmetic from
    wrapping. *)
Record fc_ok (n max_recv recv read win : Z) : Prop := {
  fc_read : 0 <= read <= max_recv;
  fc_recv : max_recv <= recv <= n * 2 ^ 32;
  fc_win : is_u 32 win
}.

Definition cf_ok (n : Z) (fc : lsquic_cfcw) : Prop :=
  fc_ok n (cf_max_recv_off fc) (cf_recv_off fc) (cf_read_off fc) (cf_max_recv_win fc).
Definition sf_ok (n : Z) (fc : lsquic_sfcw) : Prop :=
  fc_ok n (sf_max_recv_off fc) (sf_recv_off fc) (sf_read_off fc) (sf_max_recv_win fc).

Lemma fc_ok_mono n n' a b c d : n <= n' -> fc_ok n a b c d -> fc_ok n' a b c d.
Proof. intros Hn []. split; try done. nia. Qed.

(** What a call that may move the window does: [recv'], [win'] are the new
    limit and window size, [cap] the largest size the settings allow. *)
Record granted (cap recv read win recv' win' : Z) : Prop := {
  gr_recv : recv <= recv' <= Z.max recv (read + win');
  gr_win : win <= win' <= Z.max win cap;
  gr_credit : win' / 2 <= recv' - read;
  gr_tight : recv - read <= win -> recv' - read <= win'
}.

Lemma u64_small x : 0 <= x < 2 ^ 64 -> u64 x = x.
Proof. intros. by apply wrapu_id. Qed.

(** The size after [*_maybe_increase_max_window], for the bound [cap]. *)
Definition grown (win cap : Z) : Z :=
  let new := Z.min (u32 (win * 2)) cap in if win <? new then new else win.

Lemma grown_bounds win cap : is_u 32 win -> is_u 32 cap -> is_u 32 (grown win cap) /\ win <= grown win cap <= Z.max win cap.
Proof.
  unfold grown, is_u. intros. pose proof (wrapu_range 32 (win * 2) ltac:(lia)) as Hr. unfold is_u in Hr.
  destruct (Z.ltb_spec win (Z.min (u32 (win * 2)) cap)); lia.
Qed.

Lemma grant_ok n max_recv recv read win win' cap :
  fc_ok n max_recv recv read win -> n <= 2 ^ 30 -> is_u 32 win' -> win <= win' <= Z.max win cap ->
  recv - read < win / 2 -> u64 (read + win') = read + win' /\ granted cap recv read win (read + win') win'.
Proof.
  intros [? ? Hw] Hn Hw' Hle Hlt. unfold is_u in *. change (2 ^ 32) with 4294967296 in *.
  pose proof (Z.div_le_upper_bound win 2 win ltac:(lia) ltac:(lia)).
  pose proof (Z.div_le_upper_bound win' 2 win' ltac:(lia) ltac:(lia)).
  split; [apply u64_small; lia|]. split; lia.
Qed.

Lemma still_ok n max_recv recv read win cap :
  fc_ok n max_recv recv read win -> win / 2 <= recv - read -> granted cap recv read win recv win.
Proof. intros [] ?. split; lia. Qed.

Lemma granted_ok n max_recv recv read win cap recv' win' :
  fc_ok n max_recv recv read win -> is_u 32 cap -> granted cap recv read win recv' win' ->
  fc_ok (n + 1) max_recv recv' read win'.
Proof.
  intros [? ? Hw] Hc []. unfold is_u in *. change (2 ^ 32) with 4294967296 in *. split; [done|lia|unfold is_u; lia].
Qed.

Lemma recv_diff n max_recv recv read win :
  fc_ok n max_recv recv read win -> n <= 2 ^ 30 -> u64 (recv - read) = recv - read.
Proof. intros [] ?. change (2 ^ 32) with 4294967296 in *. apply u64_small. lia. Qed.

(** * Sums over the streams *)

Definition total (g : fstream -> Z) (m : gmap Z fstream) : Z := map_fold (fun _ s a => g s + a) 0 m.

Section total.
Context (g : fstream -> Z).

Lemma total_fresh m k s : m !! k = None -> total g (<[k := s]> m) = g s + total g m.
Proof. intros. unfold total. rewrite map_fold_insert_L; [done|intros; lia|done]. Qed.

Lemma total_delete m k s : m !! k = Some s -> total g (delete k m) = total g m - g s.
Proof.
  intros H. rewrite <- (insert_delete_id m k s H) at 2.
  rewrite total_fresh; [lia|apply lookup_delete_eq].
Qed.

Lemma total_insert m k s s' : m !! k = Some s -> total g (<[k := s']> m) = total g m - g s + g s'.
Proof.
  intros H. rewrite <- insert_delete_eq, total_fresh by apply lookup_delete_eq.
  rewrite (total_delete m k s H). lia.
Qed.

Lemma total_nn m : map_Forall (fun _ s => 0 <= g s) m -> 0 <= total g m.
Proof.
  induction m as [|k s m Hk IH] using map_ind; [done|]. rewrite map_Forall_insert, total_fresh by done.
  intros [? ?%IH]. lia.
Qed.

Lemma total_has m k s : map_Forall (fun _ s => 0 <= g s) m -> m !! k = Some s -> 0 <= g s <= total g m.
Proof.
  intros Hm H. pose proof (total_delete m k s H). pose proof (Hm _ _ H). cbn in *.
  pose proof (total_nn (delete k m) (map_Forall_delete _ _ _ Hm)). lia.
Qed.

Lemma total_mono h m : map_Forall (fun _ s => g s <= h s) m -> total g m <= total h m.
Proof.
  induction m as [|k s m Hk IH] using map_ind; [done|]. rewrite map_Forall_insert by done.
  intros [? ?%IH]. unfold total in *. rewrite !map_fold_insert_L by (done || (intros; lia)). lia.
Qed.

End total.

Lemma total_ext g h m : (forall s, g s = h s) -> total g m = total h m.
Proof. intros E. apply Z.le_antisymm; apply total_mono; intros k s _; rewrite E; lia. Qed.

Lemma total_sub g h m : total (fun s => g s - h s) m = total g m - total h m.
Proof.
  induction m as [|k s m Hk IH] using map_ind; [done|].
  unfold total in *. rewrite !map_fold_insert_L by (done || (intros; lia)). lia.
Qed.

(** The share of a stream in the connection's counters. *)
Definition lim (g : lsquic_sfcw -> Z) (s : fstream) : Z := if sf_limited (sm_fc s) then g (sm_fc s) else 0.

(** Bytes that wait in the stream for the user; a reset drops them. *)
Definition buffered (s : fstream) : Z :=
  if rst_recvd s then 0 else sf_max_recv_off (sm_fc s) - read_offset s.

(** * The invariant

    [strict] is the condition under which flow control also knows what the user
    has read: no STOP_SENDING frame has arrived. *)

Record stream_ok (strict : Prop) (n : Z) (s : fstream) : Prop := {
  so_fc : sf_ok n (sm_fc s);
  so_read : 0 <= read_offset s <= sf_max_recv_off (sm_fc s);
  so_strict : strict -> sf_read_off (sm_fc s) = (if rst_recvd s then sf_max_recv_off (sm_fc s) else read_offset s)
                        /\ sf_recv_off (sm_fc s) - sf_read_off (sm_fc s) <= sf_max_recv_win (sm_fc s)
}.

Record flow_inv (strict : Prop) (n : Z) (f : flow) : Prop := {
  fi_cf : cf_ok n (fl_cfcw f);
  fi_streams : map_Forall (fun _ s => stream_ok strict n s) (fl_streams f);
  fi_sum : exists closed, 0 <= closed
    /\ cf_max_recv_off (fl_cfcw f) = closed + total (lim sf_max_recv_off) (fl_streams f)
    /\ cf_read_off (fl_cfcw f) = closed + total (lim sf_read_off) (fl_streams f);
  fi_strict : strict -> cf_recv_off (fl_cfcw f) - cf_read_off (fl_cfcw f) <= cf_max_recv_win (fl_cfcw f)
}.

(** What the invariant says about the connection and one of its streams. *)
Definition conn_has (cf : lsquic_cfcw) (s : fstream) : Prop :=
  sf_limited (sm_fc s) = true ->
  sf_read_off (sm_fc s) <= cf_read_off cf
  /\ sf_max_recv_off (sm_fc s) - sf_read_off (sm_fc s) <= cf_max_recv_off cf - cf_read_off cf.

(** What a handler that touches one stream has to ensure. *)
Record moved (strict : Prop) (n : Z) (cf : lsquic_cfcw) (s : fstream) (cf' : lsquic_cfcw) (s' : fstream) : Prop := {
  mv_limited : sf_limited (sm_fc s') = sf_limited (sm_fc s);
  mv_max : cf_max_recv_off cf' = cf_max_recv_off cf + lim sf_max_recv_off s' - lim sf_max_recv_off s;
  mv_read : cf_read_off cf' = cf_read_off cf + lim sf_read_off s' - lim sf_read_off s;
  mv_recv : cf_recv_off cf' = cf_recv_off cf /\ cf_max_recv_win cf' = cf_max_recv_win cf;
  mv_le : cf_max_recv_off cf' <= cf_recv_off cf';
  mv_stream : stream_ok strict n s';
  mv_strict : strict -> sf_read_off (sm_fc s) <= sf_read_off (sm_fc s')
}.

Section inv.
Context (strict : Prop) (n : Z).

Lemma streams_nonneg (m : gmap Z fstream) : map_Forall (fun _ s => stream_ok strict n s) m ->
  map_Forall (fun _ s => 0 <= lim sf_read_off s) m
  /\ map_Forall (fun _ s => 0 <= lim sf_max_recv_off s - lim sf_read_off s) m.
Proof.
  intros Hm. split; intros k s Hk; destruct (so_fc _ _ _ (Hm _ _ Hk)) as [? ? ?]; unfold lim; destruct sf_limited; lia.
Qed.

Lemma inv_has f id s : flow_inv strict n f -> fl_streams f !! id = Some s ->
  stream_ok strict n s /\ conn_has (fl_cfcw f) s.
Proof.
  intros [Hcf Hm (c & Hpos & Emax & Eread) Hst] Hs. split; [by apply (Hm _ _ Hs)|].
  destruct (streams_nonneg _ Hm) as [H1 H2]. intros Hl.
  pose proof (total_has _ _ _ _ H1 Hs) as A. pose proof (total_has _ _ _ _ H2 Hs) as B.
  assert (forall g, lim g s = g (sm_fc s)) as Elim by (intros; unfold lim; by rewrite Hl).
  rewrite total_sub in B. cbv beta in B. rewrite !Elim in A. rewrite (Elim sf_read_off), (Elim sf_max_recv_off) in B. lia.
Qed.

Lemma stream_ok_mono s : stream_ok strict n s -> stream_ok strict (n + 1) s.
Proof. intros [? ? ?]. split; try done. eapply fc_ok_mono; [|done]. lia. Qed.

Lemma inv_moved f id s cf' s' :
  flow_inv strict n f -> fl_streams f !! id = Some s -> moved strict (n + 1) (fl_cfcw f) s cf' s' ->
  flow_inv strict (n + 1) (FL cf' (<[id := s']> (fl_streams f))).
Proof.
  intros [Hcf Hm (c & Hpos & Emax & Eread) Hst] Hs [Hl Mmax Mread [Mrecv Mwin] Mle Mok Mst].
  assert (map_Forall (fun _ s => stream_ok strict (n + 1) s) (<[id := s']> (fl_streams f))) as Hm'.
  { apply map_Forall_insert_2; [done|]. intros k x Hx. apply stream_ok_mono, (Hm _ _ Hx). }
  assert (cf_max_recv_off cf' = c + total (lim sf_max_recv_off) (<[id := s']> (fl_streams f))) as Emax'
    by (rewrite (total_insert _ _ _ _ _ Hs); lia).
  assert (cf_read_off cf' = c + total (lim sf_read_off) (<[id := s']> (fl_streams f))) as Eread'
    by (rewrite (total_insert _ _ _ _ _ Hs); lia).
  assert (0 <= total (lim sf_read_off) (<[id := s']> (fl_streams f)) <= total (lim sf_max_recv_off) (<[id := s']> (fl_streams f))).
  { split; [apply total_nn|apply total_mono]; intros k x Hx; destruct (so_fc _ _ _ (Hm' _ _ Hx)) as [? ? ?];
      cbv beta; unfold lim; destruct (sf_limited (sm_fc x)); lia. }
  split; cbn; [|done|by exists c|].
  - destruct Hcf as [? ? ?]. unfold cf_ok. split; [lia| |by rewrite Mwin]. nia.
  - intros Hstr. specialize (Hst Hstr). specialize (Mst Hstr). rewrite Mread, Mrecv, Mwin. unfold lim. rewrite Hl. destruct sf_limited; lia.
Qed.

End inv.

Section thms.
Context (es_max_cfcw es_max_sfcw : Z).
Context (Hc : is_u 32 es_max_cfcw) (Hs : is_u 32 es_max_sfcw).
Local Abbreviation cf_changed := (lsquic_cfcw_fc_offsets_changed es_max_cfcw).
Local Abbreviation sf_changed := (lsquic_sfcw_fc_offsets_changed es_max_sfcw).

Lemma cfcw_grown fc : cf_max_recv_win (cfcw_maybe_increase_max_window es_max_cfcw fc) = grown (cf_max_recv_win fc) es_max_cfcw
  /\ cf_read_off (cfcw_maybe_increase_max_window es_max_cfcw fc) = cf_read_off fc
  /\ cf_max_recv_off (cfcw_maybe_increase_max_window es_max_cfcw fc) = cf_max_recv_off fc.
Proof.
  unfold cfcw_maybe_increase_max_window, grown.
  replace (if es_max_cfcw <? _ then es_max_cfcw else _) with (Z.min (u32 (cf_max_recv_win fc * 2)) es_max_cfcw)
    by (destruct (Z.ltb_spec es_max_cfcw (u32 (cf_max_recv_win fc * 2))); lia).
  by destruct (Z.ltb_spec (cf_max_recv_win fc) (Z.min (u32 (cf_max_recv_win fc * 2)) es_max_cfcw)).
Qed.

Lemma cfcw_changed n fc now srtt b fc' :
  cf_ok n fc -> n <= 2 ^ 30 -> cf_changed fc now srtt = (b, fc') ->
  cf_max_recv_off fc' = cf_max_recv_off fc /\ cf_read_off fc' = cf_read_off fc
  /\ granted es_max_cfcw (cf_recv_off fc) (cf_read_off fc) (cf_max_recv_win fc) (cf_recv_off fc') (cf_max_recv_win fc')
  /\ (b = false -> fc' = fc).
Proof using Hc.
  intros Hok Hn. unfold lsquic_cfcw_fc_offsets_changed. rewrite (recv_diff _ _ _ _ _ Hok Hn).
  destruct (Z.leb_spec (cf_max_recv_win fc / 2) (cf_recv_off fc - cf_read_off fc)) as [Hle|Hlt].
  { intros [= <- <-]. split_and!; try done. by apply (still_ok n (cf_max_recv_off fc)). }
  pose proof (fc_win _ _ _ _ _ Hok) as Hw.
  destruct (_ <? u64 (srtt * 2)); intros [= <- <-]; cbn.
  - set (fc1 := CF _ _ _ now _). destruct (cfcw_grown fc1) as (Ew & -> & ->). rewrite Ew. cbn.
    destruct (grown_bounds _ _ Hw Hc). destruct (grant_ok _ _ _ _ _ _ es_max_cfcw Hok Hn ltac:(eassumption) ltac:(eassumption) Hlt) as [-> ?].
    split_and!; done.
  - destruct (grant_ok _ _ _ _ _ _ es_max_cfcw Hok Hn Hw ltac:(lia) Hlt) as [-> ?]. split_and!; done.
Qed.

Definition sf_cap (cf : lsquic_cfcw) (limited : bool) : Z :=
  if limited then Z.min es_max_sfcw (cf_max_recv_win cf) else es_max_sfcw.

Lemma sf_cap_u cf limited : is_u 32 (cf_max_recv_win cf) -> is_u 32 (sf_cap cf limited).
Proof using Hs. unfold sf_cap, is_u in *. destruct limited; lia. Qed.

Lemma sfcw_grown cf fc : let fc' := sfcw_maybe_increase_max_window es_max_sfcw cf fc in
  sf_max_recv_win fc' = grown (sf_max_recv_win fc) (sf_cap cf (sf_limited fc))
  /\ sf_read_off fc' = sf_read_off fc /\ sf_max_recv_off fc' = sf_max_recv_off fc /\ sf_limited fc' = sf_limited fc.
Proof.
  unfold sfcw_maybe_increase_max_window, grown. cbv zeta.
  replace (if sf_limited fc then _ else _) with (Z.min (u32 (sf_max_recv_win fc * 2)) (sf_cap cf (sf_limited fc))).
  2: { unfold sf_cap. generalize (u32 (sf_max_recv_win fc * 2)). intros x.
       destruct (sf_limited fc), (Z.ltb_spec es_max_sfcw x); zcase; lia. }
  by destruct (sf_max_recv_win fc <? _).
Qed.

Lemma sfcw_changed n cf fc now srtt b fc' :
  sf_ok n fc -> is_u 32 (cf_max_recv_win cf) -> n <= 2 ^ 30 -> sf_changed cf fc now srtt = (b, fc') ->
  sf_max_recv_off fc' = sf_max_recv_off fc /\ sf_read_off fc' = sf_read_off fc /\ sf_limited fc' = sf_limited fc
  /\ granted (sf_cap cf (sf_limited fc)) (sf_recv_off fc) (sf_read_off fc) (sf_max_recv_win fc)
       (sf_recv_off fc') (sf_max_recv_win fc')
  /\ (b = false -> fc' = fc).
Proof using Hs.
  intros Hok Hcw Hn. unfold lsquic_sfcw_fc_offsets_changed. rewrite (recv_diff _ _ _ _ _ Hok Hn).
  destruct (Z.leb_spec (sf_max_recv_win fc / 2) (sf_recv_off fc - sf_read_off fc)) as [Hle|Hlt].
  { intros [= <- <-]. split_and!; try done. by apply (still_ok n (sf_max_recv_off fc)). }
  pose proof (fc_win _ _ _ _ _ Hok) as Hw. pose proof (sf_cap_u cf (sf_limited fc) Hcw) as Hcap.
  destruct (_ <? u64 (srtt * 2)); intros [= <- <-]; cbn.
  - set (fc1 := SF _ _ _ _ now _). destruct (sfcw_grown cf fc1) as (Ew & -> & -> & ->). rewrite Ew. cbn.
    destruct (grown_bounds _ _ Hw Hcap). destruct (grant_ok _ _ _ _ _ _ (sf_cap cf (sf_limited fc)) Hok Hn ltac:(eassumption) ltac:(eassumption) Hlt) as [-> ?].
    split_and!; done.
  - destruct (grant_ok _ _ _ _ _ _ (sf_cap cf (sf_limited fc)) Hok Hn Hw ltac:(lia) Hlt) as [-> ?]. split_and!; done.
Qed.

(** ** The two counters move together *)

Definition share (fc : lsquic_sfcw) (d : Z) : Z := if sf_limited fc then d else 0.

Definition cf_recv_more (cf : lsquic_cfcw) (d : Z) : lsquic_cfcw :=
  CF (cf_max_recv_off cf + d) (cf_recv_off cf) (cf_read_off cf) (cf_last_updated cf) (cf_max_recv_win cf).
Definition cf_read_more (cf : lsquic_cfcw) (d : Z) : lsquic_cfcw :=
  CF (cf_max_recv_off cf) (cf_recv_off cf) (cf_read_off cf + d) (cf_last_updated cf) (cf_max_recv_win cf).
Definition sf_recv_to (fc : lsquic_sfcw) (off : Z) : lsquic_sfcw :=
  SF (sf_limited fc) off (sf_recv_off fc) (sf_read_off fc) (sf_last_updated fc) (sf_max_recv_win fc).
Definition sf_read_to (fc : lsquic_sfcw) (off : Z) : lsquic_sfcw :=
  SF (sf_limited fc) (sf_max_recv_off fc) (sf_recv_off fc) off (sf_last_updated fc) (sf_max_recv_win fc).

Lemma share_0 fc : share fc 0 = 0.
Proof. unfold share. by destruct sf_limited. Qed.
Lemma cf_recv_more_0 cf : cf_recv_more cf 0 = cf.
Proof. destruct cf. unfold cf_recv_more. cbn. by rewrite Z.add_0_r. Qed.
Lemma cf_read_more_0 cf : cf_read_more cf 0 = cf.
Proof. destruct cf. unfold cf_read_more. cbn. by rewrite Z.add_0_r. Qed.

(** Is the offset within the stream's limit and, with it, the sum within the
    connection's? *)
Definition within (cf : lsquic_cfcw) (fc : lsquic_sfcw) (off : Z) : bool :=
  (off <=? sf_recv_off fc) && (cf_max_recv_off cf + share fc (off - sf_max_recv_off fc) <=? cf_recv_off cf).

Lemma set_max_recv_off_exact n cf fc off :
  cf_ok n cf -> sf_ok n fc -> n <= 2 ^ 30 -> sf_max_recv_off fc <= off ->
  lsquic_sfcw_set_max_recv_off cf fc off
  = if within cf fc off
    then (true, cf_recv_more cf (share fc (off - sf_max_recv_off fc)), sf_recv_to fc off) else (false, cf, fc).
Proof.
  intros [? ? ?] [? ? ?] Hn Hoff. change (2 ^ 32) with 4294967296 in *.
  unfold lsquic_sfcw_set_max_recv_off, within, lsquic_cfcw_incr_max_recv_off, share.
  destruct (Z.leb_spec off (sf_recv_off fc)); [|done]. cbn [andb].
  unfold sf_recv_to. destruct (sf_limited fc).
  - rewrite wrapu_add_r, u64_small by lia. by destruct (_ <=? cf_recv_off cf).
  - replace (cf_max_recv_off cf + 0 <=? cf_recv_off cf) with true by lia. destruct cf. unfold cf_recv_more. cbn. by rewrite Z.add_0_r.
Qed.

Lemma set_read_off_exact n cf s off :
  cf_ok n cf -> sf_ok n (sm_fc s) -> n <= 2 ^ 30 -> conn_has cf s -> 0 <= off <= sf_max_recv_off (sm_fc s) ->
  lsquic_sfcw_set_read_off cf (sm_fc s) off
  = (cf_read_more cf (share (sm_fc s) (off - sf_read_off (sm_fc s))), sf_read_to (sm_fc s) off).
Proof.
  intros [? ? ?] [? ? ?] Hn Hh Hoff. change (2 ^ 32) with 4294967296 in *.
  unfold lsquic_sfcw_set_read_off, lsquic_cfcw_incr_read_off, share. unfold conn_has in Hh.
  unfold sf_read_to. destruct (sf_limited (sm_fc s)).
  - specialize (Hh eq_refl). by rewrite wrapu_add_r, u64_small by lia.
  - destruct cf. unfold cf_read_more. cbn. by rewrite Z.add_0_r.
Qed.

(** ** Every handler keeps the invariant *)

Section handlers.
Context (strict : Prop) (n : Z) (Hn : 0 <= n <= 2 ^ 30) (cf : lsquic_cfcw) (s : fstream).
Context (Hcf : cf_ok n cf) (Hok : stream_ok strict n s) (Hhas : conn_has cf s).

(** The window of the stream moves after its counters have. *)
Lemma moved_changed cf' fc now srtt ro rst :
  is_u 32 (cf_max_recv_win cf') -> moved strict n cf s cf' (ST fc ro rst) ->
  moved strict (n + 1) cf s cf' (ST (sf_changed cf' fc now srtt).2 ro rst).
Proof using Hs Hn.
  intros Hw Hmv. destruct (sf_changed cf' fc now srtt) as [b fc'] eqn:E.
  destruct Hmv as [? ? ? ? ? [Hfc Hro Hst] ?]. cbn in *.
  apply (sfcw_changed n) in E as (E1 & E2 & E3 & G & _); [|done..|lia].
  unfold lim in *. cbn in *.
  split; unfold lim; cbn; rewrite ?E1, ?E2, ?E3; try done. split; cbn; rewrite ?E1, ?E2.
  - unfold sf_ok. rewrite E1, E2. eapply granted_ok; [apply Hfc|apply sf_cap_u, Hw|done].
  - done.
  - intros Hstr. destruct (Hst Hstr) as [A B]. split; [done|]. by apply (gr_tight _ _ _ _ _ _ G).
Qed.

(** New counters of the stream, the same differences on the connection. *)
Lemma moved_counters mr rd ro (rst : bool) :
  0 <= rd <= mr -> mr <= sf_recv_off (sm_fc s) -> 0 <= ro <= mr ->
  cf_max_recv_off cf + share (sm_fc s) (mr - sf_max_recv_off (sm_fc s)) <= cf_recv_off cf ->
  (strict -> sf_read_off (sm_fc s) <= rd /\ rd = if rst then mr else ro) ->
  moved strict n cf s
    (cf_read_more (cf_recv_more cf (share (sm_fc s) (mr - sf_max_recv_off (sm_fc s))))
                  (share (sm_fc s) (rd - sf_read_off (sm_fc s))))
    (ST (sf_read_to (sf_recv_to (sm_fc s) mr) rd) ro rst).
Proof using Hok.
  intros Hrd Hmr Hro Hle Hst. destruct Hok as [[? ? ?] ? Hold]. unfold share in *.
  split; unfold lim, share; cbn; try done.
  - destruct (sf_limited (sm_fc s)); lia.
  - destruct (sf_limited (sm_fc s)); lia.
  - split; cbn; [split; cbn; try lia; done|lia|].
    intros Hstr. destruct (Hst Hstr), (Hold Hstr). split; [done|lia].
  - intros Hstr. by destruct (Hst Hstr).
Qed.

Lemma moved_mono cf' s' : moved strict n cf s cf' s' -> moved strict (n + 1) cf s cf' s'.
Proof. intros [? ? ? ? ? ? ?]. split; try done. by apply stream_ok_mono. Qed.

Lemma moved_recv mr : rst_recvd s = false -> sf_max_recv_off (sm_fc s) <= mr -> within cf (sm_fc s) mr = true ->
  moved strict n cf s (cf_recv_more cf (share (sm_fc s) (mr - sf_max_recv_off (sm_fc s))))
    (ST (sf_recv_to (sm_fc s) mr) (read_offset s) false).
Proof using Hok.
  intros Hrst Hmr [Hw1 Hw2]%andb_true_iff. pose proof Hok as [[? ? ?] ? Hst].
  pose proof (moved_counters mr (sf_read_off (sm_fc s)) (read_offset s) false) as Hmv.
  rewrite Z.sub_diag, share_0, cf_read_more_0 in Hmv. apply Hmv; try lia.
  intros Hstr. destruct (Hst Hstr) as [E _]. rewrite Hrst in E. split; [lia|done].
Qed.

Lemma update_exact off now srtt :
  rst_recvd s = false -> 0 <= off ->
  let m := Z.max off (sf_max_recv_off (sm_fc s)) in
  let cf' := cf_recv_more cf (share (sm_fc s) (m - sf_max_recv_off (sm_fc s))) in
  lsquic_stream_update_sfcw es_max_sfcw cf s off now srtt
  = if within cf (sm_fc s) m
    then (0, cf', ST (sf_changed cf' (sf_recv_to (sm_fc s) m) now srtt).2 (read_offset s) false)
    else (-1, cf, s).
Proof using Hcf Hok Hn.
  clear Hhas. intros Hrst Hoff m cf'. pose proof Hok as [Hfc ? ?]. unfold lsquic_stream_update_sfcw.
  destruct (Z.ltb_spec (sf_max_recv_off (sm_fc s)) off).
  - assert (m = off) as Em by (unfold m; lia). rewrite (set_max_recv_off_exact n) by (done || lia).
    unfold cf'. rewrite Em. destruct within; rewrite Hrst; [done|]. destruct s. cbn in *. by rewrite Hrst.
  - assert (m = sf_max_recv_off (sm_fc s)) as Em by (unfold m; lia). unfold cf'. rewrite Em, Z.sub_diag, share_0, cf_recv_more_0.
    replace (within cf (sm_fc s) (sf_max_recv_off (sm_fc s))) with true.
    2: { unfold within. rewrite Z.sub_diag, share_0. destruct Hcf, Hfc. symmetry. apply andb_true_iff. split; lia. }
    rewrite Hrst. unfold sf_recv_to. by destruct (sm_fc s).
Qed.

Lemma update_moved off now srtt cf' s' :
  rst_recvd s = false -> 0 <= off -> lsquic_stream_update_sfcw es_max_sfcw cf s off now srtt = (0, cf', s') ->
  moved strict (n + 1) cf s cf' s'.
Proof using Hcf Hok Hn Hs.
  clear Hhas. intros Hrst Hoff. rewrite update_exact by done. cbv zeta.
  destruct (within cf (sm_fc s) (Z.max off (sf_max_recv_off (sm_fc s)))) eqn:Hw; [|done].
  intros [= <- <-]. apply moved_changed; [apply (fc_win _ _ _ _ _ Hcf)|]. apply moved_recv; [done|lia|done].
Qed.

Lemma consume_moved rst cf' fc' :
  (strict -> rst = true) ->
  lsquic_sfcw_consume_rem cf (sm_fc s) = (cf', fc') -> moved strict n cf s cf' (ST fc' (read_offset s) rst).
Proof using Hcf Hok Hn Hhas.
  intros Hrst. pose proof Hok as [Hfc ? Hst]. unfold lsquic_sfcw_consume_rem.
  pose proof Hfc as [? ? ?]. rewrite (set_read_off_exact n) by (done || lia).
  intros [= <- <-].
  pose proof (moved_counters (sf_max_recv_off (sm_fc s)) (sf_max_recv_off (sm_fc s)) (read_offset s) rst) as Hmv.
  rewrite Z.sub_diag, share_0, cf_recv_more_0 in Hmv.
  apply Hmv; try lia.
  - destruct Hcf. lia.
  - intros Hstr. split; [lia|]. by rewrite Hrst.
Qed.

Lemma read_moved off now srtt cf' s' :
  rst_recvd s = false -> read_offset s <= off <= sf_max_recv_off (sm_fc s) ->
  stream_consumed_bytes es_max_sfcw cf s off now srtt = (cf', s') -> moved strict (n + 1) cf s cf' s'.
Proof using Hcf Hok Hn Hhas Hs.
  intros Hrst Hoff. pose proof Hok as [Hfc ? Hst]. unfold stream_consumed_bytes.
  rewrite (set_read_off_exact n) by (done || lia). intros [= <- <-]. rewrite Hrst.
  apply moved_changed; [apply (fc_win _ _ _ _ _ Hcf)|]. pose proof Hfc as [? ? ?].
  pose proof (moved_counters (sf_max_recv_off (sm_fc s)) off off false) as Hmv.
  rewrite Z.sub_diag, share_0, cf_recv_more_0 in Hmv.
  apply Hmv; try lia.
  - destruct Hcf. lia.
  - intros Hstr. destruct (Hst Hstr) as [E _]. rewrite Hrst in E. split; [lia|done].
Qed.

Lemma reset_moved fin off cf' s' :
  rst_recvd s = false -> 0 <= off -> rst_in_fc cf s fin off = (0, cf', s') -> moved strict n cf s cf' s'.
Proof using Hcf Hok Hn Hhas.
  intros Hrst Hoff. pose proof Hok as [Hfc ? Hst]. unfold rst_in_fc. destruct (match fin with Some _ => _ | None => _ end); [done|]. rewrite Hrst.
  destruct (Z.ltb_spec off (sf_max_recv_off (sm_fc s))); [done|].
  rewrite (set_max_recv_off_exact n) by (done || lia). destruct (within cf (sm_fc s) off) eqn:Hw; [|done].
  pose proof (moved_recv off Hrst ltac:(lia) Hw) as [? ? ? ? ? Hs1 ?]. pose proof Hw as [Hw1 Hw2]%andb_true_iff.
  pose proof Hfc as [? ? ?]. pose proof Hcf as [? ? ?].
  unfold lsquic_sfcw_consume_rem.
  rewrite (set_read_off_exact n _ (ST (sf_recv_to (sm_fc s) off) (read_offset s) false)); [|..|cbn; lia].
  - intros [= <- <-]. apply (moved_counters off off (read_offset s) true); [lia..|].
    intros Hstr. split; [lia|done].
  - split; cbn; [unfold share; destruct sf_limited; lia|lia|done].
  - by destruct Hs1.
  - lia.
  - intros Hl. unfold conn_has in Hhas. cbn in *. unfold share. rewrite Hl in *. specialize (Hhas eq_refl). lia.
Qed.

End handlers.

(** ** Steps and runs *)

(** What a caller owes: a stream is opened once; the user reads forward, and
    only data that has arrived. *)
Definition event_ok (f : flow) (e : flow_event) : Prop :=
  match e with
  | Open id win _ _ _ => fl_streams f !! id = None /\ is_u 32 win
  | Frame _ off _ _ | Reset _ _ off => is_u 64 off
  | Read id off _ _ =>
    forall s, fl_streams f !! id = Some s ->
    rst_recvd s = false /\ read_offset s <= off <= sf_max_recv_off (sm_fc s)
  | _ => True
  end.

Definition no_stop_sending (e : flow_event) : Prop := match e with StopSending _ false => False | _ => True end.

Fixpoint events_ok (f : flow) (es : list flow_event) : Prop :=
  match es with
  | [] => True
  | e :: es => event_ok f e /\ events_ok (flow_step es_max_cfcw es_max_sfcw f e).2 es
  end.

Lemma flow_inv_mono strict n f : flow_inv strict n f -> flow_inv strict (n + 1) f.
Proof.
  intros [? Hm ? ?]. split; try done; [eapply fc_ok_mono; [|done]; lia|].
  intros k s Hk. apply stream_ok_mono, (Hm _ _ Hk).
Qed.

Lemma flow_inv_delete strict n cf m id s :
  flow_inv strict n (FL cf m) -> m !! id = Some s -> sf_read_off (sm_fc s) = sf_max_recv_off (sm_fc s) ->
  flow_inv strict n (FL cf (delete id m)).
Proof.
  intros [Hcf Hm (c & Hc0 & E1 & E2) Hst] Hid Hdone. split; cbn in *; try done; [by apply map_Forall_delete|].
  exists (c + lim sf_read_off s). rewrite !(total_delete _ _ _ s) by done.
  assert (lim sf_max_recv_off s = lim sf_read_off s) as -> by (unfold lim; by rewrite Hdone).
  destruct (so_fc _ _ _ (Hm _ _ Hid)). unfold lim at 1. destruct sf_limited; lia.
Qed.

Lemma flow_inv_open strict n cf m id win limited now srtt :
  0 <= n <= 2 ^ 30 -> flow_inv strict n (FL cf m) -> m !! id = None -> is_u 32 win ->
  flow_inv strict (n + 1) (FL cf (<[id := stream_init_fc es_max_sfcw win limited cf now srtt]> m)).
Proof using Hs.
  intros Hn Hi Hid Hwin. set (s := stream_init_fc _ _ _ _ _ _).
  assert (stream_ok strict (n + 1) s /\ sf_max_recv_off (sm_fc s) = 0 /\ sf_read_off (sm_fc s) = 0) as (Hok & E1 & E2).
  { unfold s, stream_init_fc, lsquic_sfcw_init. set (w := if win =? 0 then _ else _).
    assert (is_u 32 w) as Hw by (unfold w, is_u in *; destruct (win =? 0); lia).
    destruct (lsquic_sfcw_fc_offsets_changed _ _ _ _ _) as [b fc] eqn:E. cbn.
    assert (sf_ok n (SF limited 0 0 0 0 w)) as H0 by (split; cbn; [lia|lia|done]).
    pose proof (fc_win _ _ _ _ _ (fi_cf _ _ _ Hi)) as Hcw. cbn in Hcw.
    apply (sfcw_changed n) in E as (E1 & E2 & _ & G & _); [|done..|lia]. cbn in *.
    rewrite E1, E2. split; [|done]. split; cbn; rewrite ?E1, ?E2; [|lia|].
    - unfold sf_ok. rewrite E1, E2. eapply granted_ok; [apply H0|by apply sf_cap_u|done].
    - intros _. split; [done|]. apply (gr_tight _ _ _ _ _ _ G). unfold is_u in Hw. lia. }
  clearbody s.
  apply flow_inv_mono in Hi as [Hcf Hm (c & Hc0 & F1 & F2) Hst]. split; cbn in *; try done.
  - by apply map_Forall_insert_2.
  - exists c. rewrite !total_fresh by done. split; [done|].
    unfold lim at 1 3. rewrite E1, E2. destruct (sf_limited (sm_fc s)); lia.
Qed.

Lemma flow_inv_tick strict n cf m now srtt :
  0 <= n <= 2 ^ 30 -> flow_inv strict n (FL cf m) -> flow_inv strict (n + 1) (FL (cf_changed cf now srtt).2 m).
Proof using Hc.
  intros Hn [Hcf Hm (c & Hc0 & F1 & F2) Hst]. destruct (cf_changed cf now srtt) as [b cf'] eqn:E. cbn in *.
  apply (cfcw_changed n) in E as (E1 & E2 & G & _); [|done|lia]. split; cbn.
  - unfold cf_ok. rewrite E1, E2. eapply granted_ok; [apply Hcf|apply Hc|done].
  - intros k s Hk. apply stream_ok_mono, (Hm _ _ Hk).
  - exists c. by rewrite E1, E2.
  - intros Hstr. rewrite E2. by apply (gr_tight _ _ _ _ _ _ G), Hst.
Qed.

Lemma flow_init strict win now srtt : is_u 32 win ->
  flow_inv strict 1 (FL (lsquic_cfcw_init es_max_cfcw win now srtt) ∅).
Proof using Hc.
  intros Hw. apply (flow_inv_tick _ 0); [lia|]. unfold is_u in Hw. split; cbn.
  - split; cbn; [lia|lia|done].
  - apply map_Forall_empty.
  - exists 0. done.
  - lia.
Qed.

Lemma flow_step_inv strict n f e f' :
  0 <= n <= 2 ^ 30 -> flow_inv strict n f -> event_ok f e -> (strict -> no_stop_sending e) ->
  flow_step es_max_cfcw es_max_sfcw f e = (0, f') -> flow_inv strict (n + 1) f'.
Proof using Hs Hc.
  intros Hn Hi He Hst. pose proof (fi_cf _ _ _ Hi) as Hcf. pose proof (flow_inv_mono _ _ _ Hi) as Hi1.
  destruct f as [cf m], e as [id win limited now srtt|id off now srtt|id fin off|id ss|id off now srtt|now srtt|id];
    cbn [flow_step fl_cfcw fl_streams] in *.
  { intros [= <-]. by apply flow_inv_open; [..|apply He|apply He]. }
  5: { intros [= <-]. by apply flow_inv_tick. }
  all: destruct (m !! id) as [s|] eqn:Es; [|by intros [= <-]].
  all: destruct (inv_has _ _ _ _ _ Hi Es) as [Hok Hhas]; cbn in Hhas.
  - destruct (rst_recvd s) eqn:Hr; [done|]. destruct (lsquic_stream_update_sfcw _ _ _ _ _ _) as [[r cf'] s'] eqn:E.
    intros [= -> <-]. apply (inv_moved _ _ _ _ _ _ _ Hi Es). apply (update_moved strict n Hn _ _ Hcf Hok off now srtt); [done| |done]. by destruct He.
  - destruct (rst_in_fc _ _ _ _) as [[r cf'] s'] eqn:E. intros [= -> <-].
    destruct (rst_recvd s) eqn:Hr.
    + unfold rst_in_fc in E. destruct (match fin with Some _ => _ | None => _ end); [done|]. rewrite Hr in E. injection E as <- <-. by rewrite insert_id.
    + apply (inv_moved _ _ _ _ _ _ _ Hi Es), moved_mono. apply (reset_moved strict n Hn _ _ Hcf Hok Hhas fin off); [done| |done]. by destruct He.
  - unfold stop_sending_in_fc. destruct ss. { intros [= <-]. rewrite insert_id by done. by apply flow_inv_mono. } destruct (lsquic_sfcw_consume_rem _ _) as [cf' fc'] eqn:E. intros [= <-].
    apply (inv_moved _ _ _ _ _ _ _ Hi Es), moved_mono. eapply consume_moved; try done. intros Hstr. by destruct (Hst Hstr).
  - destruct (He s Es) as [Hr Hoff]. destruct (stream_consumed_bytes _ _ _ _ _ _) as [cf' s'] eqn:E. intros [= <-].
    apply (inv_moved _ _ _ _ _ _ _ Hi Es). by eapply read_moved.
  - destruct (lsquic_sfcw_consume_rem _ _) as [cf' fc'] eqn:E. intros [= <-].
    pose proof (consume_moved _ _ Hn _ _ Hcf Hok Hhas true _ _ (fun _ => eq_refl) E) as Hmv%moved_mono.
    apply (inv_moved _ _ _ _ _ _ _ Hi Es) in Hmv. cbn [fl_streams] in Hmv.
    rewrite <- (delete_insert_eq m id (ST fc' (read_offset s) true)).
    eapply flow_inv_delete; [done|apply lookup_insert_eq|].
    unfold lsquic_sfcw_consume_rem, lsquic_sfcw_set_read_off in E. injection E as _ <-. done.
Qed.

Lemma flow_run_inv strict es : forall n f f',
  0 <= n -> n + Z.of_nat (length es) <= 2 ^ 30 -> flow_inv strict n f -> events_ok f es ->
  (strict -> Forall no_stop_sending es) -> flow_run es_max_cfcw es_max_sfcw f es = (0, f') ->
  exists m, flow_inv strict m f'.
Proof using Hs Hc.
  induction es as [|e es IH]; cbn; intros n f f' Hn Hlen Hi He Hst.
  { intros [= <-]. by exists n. }
  destruct (flow_step _ _ f e) as [r f1] eqn:E. destruct He as [He Hes]. destruct (Z.eqb_spec r 0) as [->|]; [|by intros [= ->]].
  apply (IH (n + 1)); [lia..| |done|].
  - eapply flow_step_inv; [|done..| |done]; [lia|]. intros Hstr. apply Forall_cons_1 in Hst; tauto.
  - intros Hstr. apply Forall_cons_1 in Hst; tauto.
Qed.

End thms.

(** * Properties *)

(** C40: Receive flow control stays consistent on every connection.  Take any
    sequence of up to 2^29 events (streams opened and destroyed, STREAM,
    RESET_STREAM and STOP_SENDING frames, reads by the user and ticks) that no
    flow control violation interrupts and in which each stream is opened once and
    the user reads forward what has arrived.  Then on the connection and on every
    stream, what flow control counts as read is at most what arrived, which is at
    most the limit the peer was given; and the connection's backlog is the sum of
    the backlogs of its open streams, so that nothing is counted twice or lost when
    streams end.  The memory bound holds only if no STOP_SENDING frame was acted
    upon, since that counts unread data as read: then a stream buffers at most its
    maximum window, and the streams together at most the connection's. *)
Theorem flow_control_invariant es_max_cfcw es_max_sfcw win now srtt es f :
  let f0 := FL (lsquic_cfcw_init es_max_cfcw win now srtt) ∅ in
  is_u 32 es_max_cfcw -> is_u 32 es_max_sfcw -> is_u 32 win -> Z.of_nat (length es) <= 2 ^ 29 ->
  events_ok es_max_cfcw es_max_sfcw f0 es ->
  flow_run es_max_cfcw es_max_sfcw f0 es = (0, f) ->
  let cf := fl_cfcw f in
  0 <= cf_read_off cf <= cf_max_recv_off cf /\ cf_max_recv_off cf <= cf_recv_off cf
  /\ cf_max_recv_off cf - cf_read_off cf
     = total (lim (fun fc => sf_max_recv_off fc - sf_read_off fc)) (fl_streams f)
  /\ (forall id s, fl_streams f !! id = Some s ->
      0 <= sf_read_off (sm_fc s) <= sf_max_recv_off (sm_fc s) /\ sf_max_recv_off (sm_fc s) <= sf_recv_off (sm_fc s)
      /\ (Forall no_stop_sending es -> 0 <= buffered s <= sf_max_recv_win (sm_fc s)))
  /\ (Forall no_stop_sending es ->
      total (fun s => if sf_limited (sm_fc s) then buffered s else 0) (fl_streams f) <= cf_max_recv_win cf).
Proof.
  intros f0 Hc Hs Hw Hlen Hev Hrun cf.
  destruct (flow_run_inv _ _ Hc Hs (Forall no_stop_sending es) es 1 _ _ ltac:(lia) ltac:(lia)
    (flow_init _ Hc _ win now srtt Hw) Hev (fun H => H) Hrun) as [m [[? ? ?] Hm (c & ? & E1 & E2) Hst]].
  assert (cf_max_recv_off cf - cf_read_off cf
     = total (lim (fun fc => sf_max_recv_off fc - sf_read_off fc)) (fl_streams f)) as Esum.
  { transitivity (total (fun s => lim sf_max_recv_off s - lim sf_read_off s) (fl_streams f)).
    - rewrite total_sub. unfold cf. lia.
    - apply total_ext. intros s. unfold lim. destruct sf_limited; lia. }
  split_and!; try done; try (unfold cf; lia).
  - intros id s Hid. destruct (Hm _ _ Hid) as [[? ? ?] ? Hstr]. split_and!; try lia; intros Hns; destruct (Hstr Hns) as [E ?];
      unfold buffered; destruct (rst_recvd s); lia.
  - intros Hns. specialize (Hst Hns). fold cf in Hst. transitivity (cf_max_recv_off cf - cf_read_off cf); [|unfold cf in *; lia].
    rewrite Esum. apply total_mono. intros id s Hid. destruct (Hm _ _ Hid) as [[? ? ?] ? Hstr]. destruct (Hstr Hns) as [E ?].
    unfold lim, buffered. destruct (sf_limited (sm_fc s)), (rst_recvd s); lia.
Qed.

Definition demo_events : list flow_event :=
  [Open 0 100 true 1 0; Open 4 200 true 1 0; Frame 0 60 2 0; Frame 4 30 2 0; Read 0 60 3 0; Reset 4 None 90; Destroy 4; Tick 5 0].

Definition demo_flow : flow :=
  FL (CF 150 300 150 1 300) {[0 := ST (SF true 60 160 60 3 100) 60 false]}.

Lemma flow_control_invariant_witness :
  flow_run 1000 1000 (FL (lsquic_cfcw_init 1000 300 1 0) ∅) demo_events = (0, demo_flow)
  /\ cf_max_recv_off (fl_cfcw demo_flow) - cf_read_off (fl_cfcw demo_flow)
     = total (lim (fun fc => sf_max_recv_off fc - sf_read_off fc)) (fl_streams demo_flow).
Proof.
  split; [vm_compute; reflexivity|].
  apply (flow_control_invariant 1000 1000 300 1 0 demo_events demo_flow).
  - split; [discriminate|reflexivity].
  - split; [discriminate|reflexivity].
  - split; [discriminate|reflexivity].
  - discriminate.
  - cbn. split_and!; try done; try (intros s [= <-]; done).
  - vm_compute. reflexivity.
Defined.

(** Data is accepted exactly within the limits.  On a connection in a
    consistent state, a STREAM frame that ends at an offset is accepted if and
    only if that offset is within the limit given for the stream and, unless
    the stream is exempt, the sum of the largest offsets of all streams is
    within the limit given for the connection.  An accepted frame moves the
    largest offsets of stream and connection by the same amount and never
    lowers a limit or a window; a refused one changes nothing. *)
Theorem flow_control_exact es_max_sfcw strict n f id s off now srtt :
  is_u 32 es_max_sfcw -> 0 <= n <= 2 ^ 30 -> flow_inv strict n f -> fl_streams f !! id = Some s ->
  rst_recvd s = false -> is_u 64 off ->
  let cf := fl_cfcw f in let fc := sm_fc s in
  let more := Z.max 0 (off - sf_max_recv_off fc) in
  exists r cf' s', lsquic_stream_update_sfcw es_max_sfcw cf s off now srtt = (r, cf', s')
  /\ (r = 0 <-> off <= sf_recv_off fc
                /\ (sf_limited fc = true -> cf_max_recv_off cf + more <= cf_recv_off cf))
  /\ (r = 0 -> sf_max_recv_off (sm_fc s') = sf_max_recv_off fc + more
               /\ cf_max_recv_off cf' = cf_max_recv_off cf + share fc more
               /\ sf_recv_off fc <= sf_recv_off (sm_fc s') /\ sf_max_recv_win fc <= sf_max_recv_win (sm_fc s')
               /\ cf_recv_off cf' = cf_recv_off cf /\ cf_read_off cf' = cf_read_off cf)
  /\ (r <> 0 -> r = -1 /\ cf' = cf /\ s' = s).
Proof.
  intros Hs Hn Hi Hid Hr Hoff cf fc more. destruct (inv_has _ _ _ _ _ Hi Hid) as [Hok Hhas].
  pose proof (fi_cf _ _ _ Hi) as Hcf. pose proof (so_fc _ _ _ Hok) as Hfc. pose proof Hoff as [Hoff0 _].
  fold cf in Hcf. fold fc in Hfc.
  rewrite (update_exact _ strict n Hn _ _ Hcf Hok off now srtt Hr Hoff0). fold cf fc.
  replace (Z.max off (sf_max_recv_off fc) - sf_max_recv_off fc) with more by (unfold more; lia).
  set (m := Z.max off (sf_max_recv_off fc)). set (cf' := cf_recv_more cf (share fc more)).
  assert (within cf fc m = true <-> off <= sf_recv_off fc
    /\ (sf_limited fc = true -> cf_max_recv_off cf + more <= cf_recv_off cf)) as Hw.
  { unfold within, share, m, more. destruct Hcf as [? ? ?], Hfc as [? ? ?].
    rewrite andb_true_iff, !Z.leb_le. destruct (sf_limited fc); intuition lia. }
  destruct (within cf fc m) eqn:Ew; do 3 eexists; (split; [reflexivity|]); [|intuition (done || lia)].
  assert (moved strict n cf s cf' (ST (sf_recv_to fc m) (read_offset s) false)) as Hmv.
  { unfold cf'. replace more with (m - sf_max_recv_off fc) by (unfold m, more; lia).
    apply moved_recv; [done..|unfold m, fc; lia|done]. }
  pose proof (so_fc _ _ _ (mv_stream _ _ _ _ _ _ Hmv)) as Hfc'.
  destruct (lsquic_sfcw_fc_offsets_changed _ _ _ _ _) as [b fc2] eqn:E.
  apply (sfcw_changed _ Hs n) in E as (E1 & E2 & _ & G & _); [|done|apply (fc_win _ _ _ _ _ Hcf)|lia].
  destruct G as [G1 G2 _ _]. cbn in *. split; [tauto|]. split; [|done]. intros _. rewrite E1.
  split_and!; try done; try lia; unfold m, more; lia.
Qed.

Lemma flow_control_exact_witness :
  exists r cf' s', lsquic_stream_update_sfcw 1000 (fl_cfcw demo_flow) (ST (SF true 60 160 60 3 100) 60 false) 161 9 0
    = (r, cf', s') /\ r = -1.
Proof.
  assert (Hinv : flow_inv True 9 demo_flow).
  { split.
    - split; vm_compute; intuition discriminate.
    - intros id s. unfold demo_flow. cbn. intros [<- <-]%lookup_singleton_Some.
      split; [split|..]; vm_compute; intuition discriminate.
    - exists 90. vm_compute. intuition discriminate.
    - intros _. vm_compute. discriminate. }
  destruct (flow_control_exact 1000 True 9 demo_flow 0 (ST (SF true 60 160 60 3 100) 60 false) 161 9 0)
    as (r & cf' & s' & E & Hr & _ & Hno); [|lia|exact Hinv|reflexivity|reflexivity| |].
  - split; [discriminate|reflexivity].
  - split; [discriminate|reflexivity].
  - exists r, cf', s'. split; [exact E|]. apply Hno. intros H0. apply Hr in H0 as [H0 _]. cbn in H0. lia.
Defined.

(** Windows keep the peer going and stay bounded.  After a call that checks
    whether the window is to be moved, on the connection or on a stream, the
    peer may send at least half a window beyond what was read; calling it again
    before anything is read reports no change; limits and windows never shrink,
    and a window only grows up to the configured maximum, for a stream that
    counts towards the connection also only up to the connection's window. *)
Theorem flow_window_moves es_max_cfcw es_max_sfcw n cf fc now srtt now' srtt' :
  is_u 32 es_max_cfcw -> is_u 32 es_max_sfcw -> 0 <= n < 2 ^ 30 -> cf_ok n cf -> sf_ok n fc ->
  let cf1 := (lsquic_cfcw_fc_offsets_changed es_max_cfcw cf now srtt).2 in
  let fc1 := (lsquic_sfcw_fc_offsets_changed es_max_sfcw cf fc now srtt).2 in
  cf_max_recv_win cf1 / 2 <= cf_recv_off cf1 - cf_read_off cf1
  /\ sf_max_recv_win fc1 / 2 <= sf_recv_off fc1 - sf_read_off fc1
  /\ lsquic_cfcw_fc_offsets_changed es_max_cfcw cf1 now' srtt' = (false, cf1)
  /\ lsquic_sfcw_fc_offsets_changed es_max_sfcw cf fc1 now' srtt' = (false, fc1)
  /\ cf_recv_off cf <= cf_recv_off cf1 /\ sf_recv_off fc <= sf_recv_off fc1
  /\ cf_max_recv_win cf <= cf_max_recv_win cf1 <= Z.max (cf_max_recv_win cf) es_max_cfcw
  /\ sf_max_recv_win fc <= sf_max_recv_win fc1 <= Z.max (sf_max_recv_win fc) es_max_sfcw
  /\ (sf_limited fc = true -> sf_max_recv_win fc1 <= Z.max (sf_max_recv_win fc) (cf_max_recv_win cf)).
Proof.
  intros Hc Hs Hn Hcf Hfc cf1 fc1. pose proof (fc_win _ _ _ _ _ Hcf) as Hw.
  destruct (lsquic_cfcw_fc_offsets_changed es_max_cfcw cf now srtt) as [b cf2] eqn:Ec.
  destruct (lsquic_sfcw_fc_offsets_changed es_max_sfcw cf fc now srtt) as [b' fc2] eqn:Es. cbn in cf1, fc1. subst cf1 fc1.
  apply (cfcw_changed _ Hc n) in Ec as (C1 & C2 & Gc & _); [|done|lia].
  apply (sfcw_changed _ Hs n) in Es as (S1 & S2 & S3 & Gs & _); [|done|done|lia].
  pose proof (granted_ok _ _ _ _ _ _ _ _ Hcf Hc Gc) as Hcf2. pose proof (granted_ok _ _ _ _ _ _ _ _ Hfc (sf_cap_u _ Hs cf _ Hw) Gs) as Hfc2.
  rewrite <- C1, <- C2 in Hcf2. rewrite <- S1, <- S2 in Hfc2. destruct Gc as [? ? Gc _], Gs as [? Gs2 Gs _].
  rewrite C2, S2. split_and!; try done; try lia.
  - unfold lsquic_cfcw_fc_offsets_changed. rewrite (recv_diff _ _ _ _ _ Hcf2), C2 by lia. by replace (_ <=? _) with true by lia.
  - unfold lsquic_sfcw_fc_offsets_changed. rewrite (recv_diff _ _ _ _ _ Hfc2), S2 by lia. by replace (_ <=? _) with true by lia.
  - unfold sf_cap in Gs2. destruct (sf_limited fc); lia.
  - unfold sf_cap in Gs2. intros El. rewrite El in Gs2. lia.
Qed.

Lemma flow_window_moves_witness :
  (lsquic_cfcw_fc_offsets_changed 1000 (CF 90 100 80 5 100) 6 10).2 = CF 90 280 80 6 200
  /\ lsquic_cfcw_fc_offsets_changed 1000 (CF 90 280 80 6 200) 7 10 = (false, CF 90 280 80 6 200).
Proof.
  split; [vm_compute; reflexivity|].
  change (CF 90 280 80 6 200) with (lsquic_cfcw_fc_offsets_changed 1000 (CF 90 100 80 5 100) 6 10).2.
  apply (flow_window_moves 1000 1000 1 (CF 90 100 80 5 100) (SF true 0 0 0 0 0) 6 10 7 10).
  - split; [discriminate|reflexivity].
  - split; [discriminate|reflexivity].
  - lia.
  - split; vm_compute; intuition discriminate.
  - split; vm_compute; intuition discriminate.
Defined.

(** A finding. A STOP_SENDING frame breaks the memory bound.  Its handler tells flow
    control that everything the stream has received was consumed although the
    data is still there for the user to read, so that the peer is granted
    window for it a second time: here a stream with a window of 100 bytes ends
    up with 200 unread bytes, more than the connection's window of 150, without
    a flow control error. *)
Theorem flow_stop_sending_overcommits :
  let es := [Open 0 100 true 1 0; Frame 0 100 2 0; StopSending 0 false; Frame 0 100 3 0; Tick 4 0; Frame 0 200 5 0] in
  let '(r, f) := flow_run 150 100 (FL (lsquic_cfcw_init 150 150 1 0) ∅) es in
  r = 0 /\ buffered <$> fl_streams f !! 0 = Some 200
  /\ sf_max_recv_win ∘ sm_fc <$> fl_streams f !! 0 = Some 100 /\ cf_max_recv_win (fl_cfcw f) = 150.
Proof. vm_compute. done. Qed.
