(* ===== verification/DataIn.v ===== *)
(** Reassembly of a stream from STREAM frames: the no-copy implementation of
    the data-in interface (lsquic_di_nocopy.c) and the loop of lsquic_stream.c
    that reads from it.

    The tail queue [ncdi_frames_in] is the list of its frames; a frame's data
    is the list of its bytes.  The packet a frame refers to is released with
    the frame and is not part of the state.  [insert_frame] also returns a
    letter that names the case, which is only logged; it is left out. *)
From S2P Require Import Prelude.
Local Open Scope Z_scope.

Record data_frame := DF {
  df_data : list Z;
  df_offset : Z;
  df_read_off : Z;
  df_size : Z;
  df_fin : bool
}.

Definition DF_ROFF (f : data_frame) : Z := u64 (df_offset f + df_read_off f).
Definition DF_END (f : data_frame) : Z := u64 (df_offset f + df_size f).

Inductive ins_frame := INS_FRAME_OK | INS_FRAME_ERR | INS_FRAME_DUP | INS_FRAME_OVERLAP.

#[export] Instance ins_frame_eq_dec : EqDecision ins_frame.
Proof. solve_decision. Defined.

(** [di_switch] is the flag DI_SWITCH_IMPL; [fin_set] and [fin_reached] are
    NCDI_FIN_SET and NCDI_FIN_REACHED. *)
Record nocopy_data_in := NC {
  ncdi_frames_in : list data_frame;
  ncdi_byteage : Z;
  ncdi_fin_off : Z;
  ncdi_n_frames : Z;
  ncdi_n_holes : Z;
  ncdi_cons_far : Z;
  ncdi_fin_set : bool;
  ncdi_fin_reached : bool;
  di_switch : bool
}.

Definition lsquic_data_in_nocopy_new : nocopy_data_in := NC [] 0 0 0 0 0 false false false.

Definition EFF_CHECK_THRESH_LOW : Z := 10.
Definition EFF_CHECK_THRESH_HIGH : Z := 1000.
Definition EFF_FAR_TRAVERSE_COUNT : Z := 4.
Definition EFF_MAX_HOLES : Z := 5.
Definition EFF_TINY_FRAME_SZ : Z := 64.

(** ** Inserting a frame *)

(** The [for] loop that walks back from the last frame; [n] is the index of
    [next_frame], the result is the indices of [prev_frame] and [next_frame]
    and the count of frames passed. *)
Fixpoint find_back (fs : list data_frame) (off : Z) (n : nat) (count : Z) : option (option nat * nat * Z) :=
  match n with
  | O => Some (None, O, count)
  | S p =>
    fn ← fs !! S p;
    if off <? df_offset fn then
      fp ← fs !! p;
      if df_offset fp <=? off then Some (Some p, S p, count) else find_back fs off p (count + 1)
    else Some (Some p, S p, count)
  end.

(** [prev_frame], [next_frame] and [count] after the search. *)
Definition find_position (fs : list data_frame) (off : Z) : option (option nat * option nat * Z) :=
  match fs with
  | [] => Some (None, None, 0)
  | _ =>
    let lst := (length fs - 1)%nat in
    fl ← fs !! lst;
    '(prev, next, count) ← (if off <? df_offset fl then find_back fs off lst 1 else Some (None, lst, 0));
    fn ← fs !! next;
    match prev with
    | None =>
      if df_offset fn <=? off
      then Some (Some next, (if (S next <? length fs)%nat then Some (S next) else None), count)
      else Some (None, Some next, count)
    | Some p => Some (Some p, Some next, count)
    end
  end.

(** The [switch] on the neighbours: why the frame is not inserted, or [None]. *)
Definition refuse_left (prev new : data_frame) : option ins_frame :=
  if (df_offset prev =? df_offset new) && (df_size prev =? df_size new) then
    if negb (df_fin prev) && df_fin new then Some INS_FRAME_OVERLAP else Some INS_FRAME_DUP
  else if df_offset new <? DF_END prev then Some INS_FRAME_OVERLAP
  else None.

Definition refuse_right (next new : data_frame) (read_offset : Z) : option ins_frame :=
  if df_offset next <? DF_END new then Some INS_FRAME_OVERLAP
  else if df_offset new <? read_offset then Some INS_FRAME_OVERLAP
  else None.

Definition refuse_alone (s : nocopy_data_in) (new : data_frame) (read_offset : Z) : option ins_frame :=
  let at_fin := ncdi_fin_reached s && (read_offset =? ncdi_fin_off s) in
  if read_offset =? DF_END new then
    if negb (df_size new =? 0) then
      if df_fin new && negb at_fin then Some INS_FRAME_OVERLAP else Some INS_FRAME_DUP
    else if negb (df_fin new) || at_fin then Some INS_FRAME_DUP else None
  else if df_offset new <? read_offset then Some INS_FRAME_OVERLAP
  else None.

Definition refuse (s : nocopy_data_in) (prev next : option data_frame) (new : data_frame) (read_offset : Z)
    : option ins_frame :=
  match prev, next with
  | None, None => refuse_alone s new read_offset
  | Some p, None => refuse_left p new
  | None, Some n => refuse_right n new read_offset
  | Some p, Some n =>
    match refuse_left p new with Some r => Some r | None => refuse_right n new read_offset end
  end.

(** The checks before the search: duplicates, and errors about the FIN. *)
Definition precheck (s : nocopy_data_in) (new : data_frame) (read_offset : Z) : option ins_frame :=
  if DF_END new <? read_offset then Some (if df_fin new then INS_FRAME_ERR else INS_FRAME_DUP) else
  if ncdi_fin_set s then
    if df_fin new && negb (DF_END new =? ncdi_fin_off s) then Some INS_FRAME_ERR
    else if ncdi_fin_off s <? DF_END new then Some INS_FRAME_ERR
    else if read_offset =? DF_END new then Some INS_FRAME_DUP
    else None
  else if (read_offset =? DF_END new) && negb (df_fin new) then Some INS_FRAME_DUP
  else None.

(** What [ncdi_n_holes] changes by. *)
Definition hole_delta (prev next : option data_frame) (new : data_frame) : Z :=
  match prev, next with
  | Some p, Some n => b2z (negb (DF_END p =? df_offset new)) + b2z (negb (DF_END new =? df_offset n)) - 1
  | Some p, None => b2z (negb (DF_END p =? df_offset new))
  | None, Some n => b2z (negb (DF_END new =? df_offset n))
  | None, None => 0
  end.

(** The result, the new state and [*p_n_frames]. *)
Definition insert_frame (s : nocopy_data_in) (new : data_frame) (read_offset : Z)
    : option (ins_frame * nocopy_data_in * Z) :=
  match precheck s new read_offset with
  | Some r => Some (r, s, 0)
  | None =>
    let fs := ncdi_frames_in s in
    '(prev, next, count) ← find_position fs (df_offset new);
    let pf := prev ≫= (fs !!.) in
    let nf := next ≫= (fs !!.) in
    match refuse s pf nf new read_offset with
    | Some r => Some (r, s, 0)
    | None =>
      let k := match prev with Some p => S p | None => O end in
      Some (INS_FRAME_OK,
        NC (take k fs ++ new :: drop k fs)
           (u64 (ncdi_byteage s + df_size new))
           (if df_fin new then DF_END new else ncdi_fin_off s)
           (u32 (ncdi_n_frames s + 1))
           (u32 (ncdi_n_holes s + hole_delta pf nf new))
           (ncdi_cons_far s)
           (ncdi_fin_set s || df_fin new) (ncdi_fin_reached s) (di_switch s),
        count)
    end
  end.

Definition with_far (s : nocopy_data_in) (far : Z) : nocopy_data_in :=
  NC (ncdi_frames_in s) (ncdi_byteage s) (ncdi_fin_off s) (ncdi_n_frames s) (ncdi_n_holes s) far
     (ncdi_fin_set s) (ncdi_fin_reached s) (di_switch s).

Definition check_efficiency (s : nocopy_data_in) (count : Z) : bool * nocopy_data_in :=
  if ncdi_n_frames s <=? EFF_CHECK_THRESH_LOW then (false, with_far s 0) else
  if EFF_CHECK_THRESH_HIGH <? ncdi_n_frames s then (true, s) else
  let '(far, s) := if ncdi_n_frames s / 2 <=? count
                   then let c := u32 (ncdi_cons_far s + 1) in (EFF_FAR_TRAVERSE_COUNT <? c, with_far s c)
                   else (false, with_far s 0) in
  (far || (EFF_MAX_HOLES <? ncdi_n_holes s) || (ncdi_byteage s / EFF_TINY_FRAME_SZ <? ncdi_n_frames s), s).

Definition set_eff_alert (s : nocopy_data_in) : nocopy_data_in :=
  NC (ncdi_frames_in s) (ncdi_byteage s) (ncdi_fin_off s) (ncdi_n_frames s) (ncdi_n_holes s) (ncdi_cons_far s)
     (ncdi_fin_set s) (ncdi_fin_reached s) true.

Definition nocopy_di_insert_frame (s : nocopy_data_in) (new : data_frame) (read_offset : Z)
    : option (ins_frame * nocopy_data_in) :=
  '(ins, s, count) ← insert_frame s new read_offset;
  match ins with
  | INS_FRAME_OK =>
    let '(alert, s) := check_efficiency s count in
    Some (ins, if alert then set_eff_alert s else s)
  | _ => Some (ins, s)
  end.

(** ** Reading *)

Definition nocopy_di_get_frame (s : nocopy_data_in) (read_offset : Z) : option data_frame :=
  match ncdi_frames_in s with
  | f :: _ => if DF_ROFF f =? read_offset then Some f else None
  | [] => None
  end.

(** The frame that is done is the first one, which is the only one that
    [nocopy_di_get_frame] hands out. *)
Definition nocopy_di_frame_done (s : nocopy_data_in) : option nocopy_data_in :=
  match ncdi_frames_in s with
  | [] => None
  | f :: fs =>
    if df_read_off f =? df_size f then
      let hole := match fs with g :: _ => b2z (negb (DF_END f =? df_offset g)) | [] => 0 end in
      Some (NC fs (u64 (ncdi_byteage s - df_size f)) (ncdi_fin_off s) (u32 (ncdi_n_frames s - 1))
               (u32 (ncdi_n_holes s - hole)) (ncdi_cons_far s) (ncdi_fin_set s)
               (ncdi_fin_reached s || df_fin f) (di_switch s))
    else None
  end.

Definition nocopy_di_empty (s : nocopy_data_in) : bool := match ncdi_frames_in s with [] => true | _ => false end.

Fixpoint readable_loop (fs : list data_frame) (start read_offset : Z) : Z :=
  match fs with
  | [] => read_offset
  | f :: fs =>
    if DF_ROFF f =? read_offset then readable_loop fs start (u64 (read_offset + u64 (DF_END f - DF_ROFF f)))
    else if start <? read_offset then read_offset
    else readable_loop fs start read_offset
  end.

Definition nocopy_di_readable_bytes (s : nocopy_data_in) (read_offset : Z) : Z :=
  u64 (readable_loop (ncdi_frames_in s) read_offset read_offset - read_offset).

(** [df_read_off += nread] through the pointer to the first frame. *)
Definition advance_first (s : nocopy_data_in) (nread : Z) : nocopy_data_in :=
  match ncdi_frames_in s with
  | [] => s
  | f :: fs =>
    NC (DF (df_data f) (df_offset f) (u16 (df_read_off f + nread)) (df_size f) (df_fin f) :: fs)
       (ncdi_byteage s) (ncdi_fin_off s) (ncdi_n_frames s) (ncdi_n_holes s) (ncdi_cons_far s)
       (ncdi_fin_set s) (ncdi_fin_reached s) (di_switch s)
  end.

Record read_result := RR {
  rr_state : nocopy_data_in;
  rr_offset : Z;          (** [stream->read_offset] *)
  rr_bytes : list Z;      (** what [readf] was given and took *)
  rr_fin : bool           (** STREAM_FIN_REACHED was set *)
}.

(** [read_data_frames] without filtering, for a [readf] that copies up to
    [want] bytes in all: one round per frame, as a frame that is not finished
    ends the loop by a short read. *)
Fixpoint read_data_frames (fuel : nat) (s : nocopy_data_in) (read_offset want : Z) (acc : list Z) : option read_result :=
  match fuel with
  | O => None
  | S fuel =>
    match nocopy_di_get_frame s read_offset with
    | None => Some (RR s read_offset acc false)
    | Some f =>
      let toread := df_size f - df_read_off f in
      let nread := if negb (toread =? 0) || df_fin f then Z.min toread want else 0 in
      let short_read := (negb (toread =? 0) || df_fin f) && (nread <? toread) in
      let bytes := take (Z.to_nat nread) (drop (Z.to_nat (df_read_off f)) (df_data f)) in
      let s := advance_first s nread in
      let read_offset := u64 (read_offset + nread) in
      let acc := acc ++ bytes in
      if u16 (df_read_off f + nread) =? df_size f then
        s ← nocopy_di_frame_done s;
        if df_fin f then Some (RR s read_offset acc true)
        else read_data_frames fuel s read_offset (want - nread) acc
      else if short_read then Some (RR s read_offset acc false)
      else None
    end
  end.

(** * The stream behind the frames

    [str] is the stream the peer sends: the byte at each offset. *)

Record frame_ok (str : Z -> Z) (f : data_frame) : Prop := {
  fo_off : 0 <= df_offset f;
  fo_end : df_offset f + df_size f <= 2 ^ 62;
  fo_size : df_size f < 2 ^ 16;
  fo_len : df_size f = Z.of_nat (length (df_data f));
  fo_roff : 0 <= df_read_off f <= df_size f;
  fo_data : forall i : nat, (i < length (df_data f))%nat -> df_data f !! i = Some (str (df_offset f + Z.of_nat i))
}.

Section frame.
Context {str : Z -> Z} {f : data_frame} (Hf : frame_ok str f).

Lemma df_end_eq : DF_END f = df_offset f + df_size f.
Proof using Hf. destruct Hf. apply wrapu_id. unfold is_u. lia. Qed.

Lemma df_roff_eq : DF_ROFF f = df_offset f + df_read_off f.
Proof using Hf. destruct Hf. apply wrapu_id. unfold is_u. lia. Qed.

End frame.

(** The bytes of the stream from one offset to another. *)
Definition span (str : Z -> Z) (a b : Z) : list Z := (fun i => str (a + Z.of_nat i)) <$> seq 0 (Z.to_nat (b - a)).

Lemma span_nil str a : span str a a = [].
Proof. unfold span. by rewrite Z.sub_diag. Qed.

Lemma span_app str a b c : a <= b <= c -> span str a c = span str a b ++ span str b c.
Proof.
  intros H. unfold span. replace (Z.to_nat (c - a)) with (Z.to_nat (b - a) + Z.to_nat (c - b))%nat by lia.
  rewrite seq_app, fmap_app. f_equal.
  apply list_eq. intros i. rewrite !list_lookup_fmap.
  destruct (decide (i < Z.to_nat (c - b))%nat).
  - rewrite !lookup_seq_lt by lia. cbn. f_equal. f_equal. lia.
  - rewrite !lookup_seq_ge by lia. done.
Qed.

Lemma length_span str a b : a <= b -> Z.of_nat (length (span str a b)) = b - a.
Proof. intros. unfold span. rewrite length_fmap, length_seq. lia. Qed.

(** Part of a frame's data is part of the stream. *)
Lemma frame_span str f a n :
  frame_ok str f -> 0 <= a -> 0 <= n -> a + n <= df_size f ->
  take (Z.to_nat n) (drop (Z.to_nat a) (df_data f)) = span str (df_offset f + a) (df_offset f + a + n).
Proof.
  intros Hf Ha Hn Hle. destruct Hf as [_ _ _ El _ Hd]. apply list_eq. intros i. unfold span. rewrite list_lookup_fmap.
  destruct (decide (i < Z.to_nat n)%nat).
  - rewrite lookup_take_lt, lookup_drop, lookup_seq_lt by lia. rewrite Hd by lia. cbn. f_equal. f_equal. lia.
  - rewrite lookup_take_ge by lia. by rewrite lookup_seq_ge by lia.
Qed.

(** * The order of the frames *)

(** Frames that do not overlap, from offset [b] on, nothing of them read. *)
Fixpoint laid (b : Z) (fs : list data_frame) : Prop :=
  match fs with
  | [] => True
  | f :: fs => b <= df_offset f /\ df_read_off f = 0 /\ laid (df_offset f + df_size f) fs
  end.

(** The same with a first frame that can be partly read, up to [r]. *)
Definition queued (r : Z) (fs : list data_frame) : Prop :=
  match fs with
  | [] => True
  | f :: fs => (df_read_off f = 0 /\ r <= df_offset f \/ df_offset f + df_read_off f = r)
               /\ laid (df_offset f + df_size f) fs
  end.

(** The number of gaps between neighbours, and of bytes in the frames. *)
Fixpoint holes (fs : list data_frame) : Z :=
  match fs with
  | f :: (g :: _) as fs' => b2z (negb (df_offset f + df_size f =? df_offset g)) + holes fs'
  | _ => 0
  end.

Fixpoint bytes_in (fs : list data_frame) : Z :=
  match fs with [] => 0 | f :: fs => df_size f + bytes_in fs end.

(** [r] is the stream's read offset. *)
Record di_inv (str : Z -> Z) (r : Z) (s : nocopy_data_in) : Prop := {
  di_frames : Forall (frame_ok str) (ncdi_frames_in s);
  di_order : queued r (ncdi_frames_in s);
  di_r : 0 <= r <= 2 ^ 62;
  di_n : ncdi_n_frames s = u32 (Z.of_nat (length (ncdi_frames_in s)));
  di_holes : ncdi_n_holes s = u32 (holes (ncdi_frames_in s));
  di_bytes : ncdi_byteage s = u64 (bytes_in (ncdi_frames_in s))
}.

(** The offsets whose bytes are waiting. *)
Definition waiting (fs : list data_frame) (o : Z) : Prop :=
  Exists (fun f => df_offset f + df_read_off f <= o < df_offset f + df_size f) fs.

Lemma laid_mono b b' fs : b' <= b -> laid b fs -> laid b' fs.
Proof. destruct fs; cbn; [done|]. intros ? (? & ? & ?). split_and!; [lia|done|done]. Qed.

Lemma laid_lookup str fs : Forall (frame_ok str) fs -> forall b i f,
  laid b fs -> fs !! i = Some f -> b <= df_offset f.
Proof.
  induction 1 as [|g fs Hg _ IH]; intros b i f; [done|]. cbn. intros (Hb & Hr & Hl). destruct i as [|i]; cbn.
  - intros [= <-]. done.
  - intros Hi. apply (IH _ _ _ Hl) in Hi. destruct Hg. lia.
Qed.

Lemma laid_unread b fs f : laid b fs -> f ∈ fs -> df_read_off f = 0.
Proof.
  revert b. induction fs as [|h fs IH]; intros b; [by intros _ ?%elem_of_nil|].
  intros (? & ? & ?) [->|Hf]%elem_of_cons; [done|]. by eapply IH.
Qed.

(** Offsets ascend. *)
Lemma queued_sorted str r fs i j f g :
  Forall (frame_ok str) fs -> queued r fs -> fs !! i = Some f -> fs !! j = Some g -> (i < j)%nat ->
  df_offset f + df_size f <= df_offset g.
Proof.
  intros Hfs. destruct Hfs as [|h fs Hh Hfs]; [done|]. intros [_ Hl].
  assert (forall b fs, Forall (frame_ok str) fs -> laid b fs -> forall i j f g, fs !! i = Some f -> fs !! j = Some g ->
    (i < j)%nat -> df_offset f + df_size f <= df_offset g) as Haux.
  { clear. intros b fs Hfs. revert b. induction Hfs as [|h fs Hh Hfs IH]; intros b; [done|]. cbn. intros (_ & _ & Hl) i j f g.
    destruct i as [|i], j as [|j]; cbn; try lia.
    - intros [= <-] Hg _. by eapply laid_lookup.
    - intros Hf Hg Hij. eapply IH; [done..|]. lia. }
  destruct i as [|i], j as [|j]; cbn; try lia.
  - intros [= <-] Hg _. by eapply laid_lookup.
  - intros Hf Hg Hij. eapply Haux; [done..|]. lia.
Qed.

Section insert.
Context (str : Z -> Z) (r : Z) (fs : list data_frame).
Context (Hfs : Forall (frame_ok str) fs) (Hq : queued r fs).

(** [k] frames start at or before [off], the others after it. *)
Definition position (off : Z) (k : nat) : Prop :=
  (k <= length fs)%nat /\ forall i f, fs !! i = Some f -> if (i <? k)%nat then df_offset f <= off else off < df_offset f.

Lemma queued_le i j f g : fs !! i = Some f -> fs !! j = Some g -> (i <= j)%nat -> df_offset f <= df_offset g.
Proof using Hfs Hq.
  intros Hi Hj Hij. destruct (decide (i = j)) as [->|]; [rewrite Hi in Hj; by injection Hj as ->|].
  pose proof (queued_sorted _ _ _ _ _ _ _ Hfs Hq Hi Hj ltac:(lia)).
  destruct (Forall_lookup_1 _ _ _ _ Hfs Hi). lia.
Qed.

Lemma position_at off k fk :
  fs !! k = Some fk -> off < df_offset fk ->
  (k = O \/ exists p, fs !! (k - 1)%nat = Some p /\ df_offset p <= off) -> position off k.
Proof using Hfs Hq.
  intros Hk Hlt Hp. split; [by apply lookup_lt_Some in Hk; lia|]. intros i f Hi. destruct (Nat.ltb_spec i k).
  - destruct Hp as [->|(p & Hp & ?)]; [lia|]. pose proof (queued_le _ _ _ _ Hi Hp). lia.
  - pose proof (queued_le _ _ _ _ Hk Hi). lia.
Qed.

Lemma find_back_ok off n : forall count fn, fs !! n = Some fn -> off < df_offset fn ->
  exists k c, find_back fs off n count = Some (match k with O => None | S p => Some p end, k, c)
    /\ (k < length fs)%nat /\ position off k.
Proof using Hfs Hq.
  induction n as [|p IH]; intros count fn Hn Hlt.
  - exists O, count. split; [done|]. split; [by apply lookup_lt_Some in Hn|]. by apply (position_at _ _ fn); [..|left].
  - cbn [find_back]. rewrite Hn. cbn. replace (off <? df_offset fn) with true by lia.
    pose proof (lookup_lt_Some _ _ _ Hn). destruct (lookup_lt_is_Some_2 fs p) as [fp Hp]; [lia|]. rewrite Hp. cbn.
    destruct (Z.leb_spec (df_offset fp) off).
    + exists (S p), count. split; [done|]. split; [done|]. apply (position_at _ _ fn); [done..|].
      right. exists fp. replace (S p - 1)%nat with p by lia. done.
    + destruct (IH (count + 1) fp Hp) as (k & c & -> & ? & ?); [lia|]. by exists k, c.
Qed.

End insert.

Lemma find_position_ok str r fs off : Forall (frame_ok str) fs -> queued r fs ->
  exists k c, find_position fs off
    = Some (match k with O => None | S p => Some p end, if (k <? length fs)%nat then Some k else None, c)
    /\ position fs off k.
Proof.
  intros Hfs Hq. unfold find_position. destruct fs as [|f0 fs0] eqn:E0; [exists O, 0; split; [done|]; split; [cbn; lia|done]|]. rewrite <- E0 in *.
  set (lst := (length fs - 1)%nat). assert (lst < length fs)%nat as Hlst by (unfold lst; rewrite E0; cbn; lia).
  destruct (lookup_lt_is_Some_2 fs lst Hlst) as [fl Hl]. rewrite Hl. cbn [mbind option_bind].
  destruct (Z.ltb_spec off (df_offset fl)) as [Hlt|Hge].
  - destruct (find_back_ok _ _ _ Hfs Hq off lst 1 fl Hl Hlt) as (k & c & -> & Hk & Hpos). cbn [mbind option_bind].
    destruct (lookup_lt_is_Some_2 fs k Hk) as [fk Hfk]. rewrite Hfk. cbn [mbind option_bind].
    exists k, c. split; [|done]. replace (k <? length fs)%nat with true by (symmetry; apply Nat.ltb_lt; lia).
    destruct k; [|done]. destruct Hpos as [_ Hpos]. specialize (Hpos _ _ Hfk). cbn in Hpos.
    by replace (df_offset fk <=? off) with false by lia.
  - cbn. rewrite Hl. cbn. replace (df_offset fl <=? off) with true by lia.
    exists (S lst), 0. replace (S lst <? length fs)%nat with false by (symmetry; apply Nat.ltb_ge; unfold lst; lia).
    split; [done|]. split; [lia|]. intros i f Hi. pose proof (lookup_lt_Some _ _ _ Hi).
    replace (i <? S lst)%nat with true by (symmetry; apply Nat.ltb_lt; unfold lst; lia).
    pose proof (queued_le _ _ _ Hfs Hq _ _ _ _ Hi Hl ltac:(unfold lst; lia)). lia.
Qed.

(** ** The frame goes in between *)

(** Neighbours leave room for the frame. *)
Definition fits (prev next : option data_frame) (new : data_frame) : Prop :=
  (forall p, prev = Some p -> df_offset p + df_size p <= df_offset new)
  /\ (forall n, next = Some n -> df_offset new + df_size new <= df_offset n).

(** Where the frames end, from [b] on. *)
Fixpoint endof (b : Z) (fs : list data_frame) : Z :=
  match fs with [] => b | f :: fs => endof (df_offset f + df_size f) fs end.

Lemma laid_app b l1 l2 : laid b (l1 ++ l2) <-> laid b l1 /\ laid (endof b l1) l2.
Proof. revert b. induction l1 as [|f l1 IH]; intros b; cbn; [tauto|]. rewrite IH. tauto. Qed.

Lemma endof_last b l f : last l = Some f -> endof b l = df_offset f + df_size f.
Proof. revert b. induction l as [|g l IH]; intros b; [done|]. destruct l as [|h l]; [by intros [= ->]|]. exact (IH b). Qed.

Lemma laid_insert l1 l2 new b :
  laid b (l1 ++ l2) -> df_read_off new = 0 -> (l1 = [] -> b <= df_offset new) -> fits (last l1) (head l2) new ->
  laid b (l1 ++ new :: l2).
Proof.
  intros [H1 H2]%laid_app Hr Hb [Hp Hn]. apply laid_app. split; [done|]. cbn. split_and!; [|done|].
  - destruct (last l1) as [p|] eqn:E; [rewrite (endof_last _ _ _ E); by apply Hp|].
    apply last_None in E. subst l1. by apply Hb.
  - destruct l2 as [|g l2]; [done|]. cbn in *. destruct H2 as (? & ? & ?). split_and!; try done. by apply Hn.
Qed.

Lemma queued_insert r l1 l2 new :
  queued r (l1 ++ l2) -> df_read_off new = 0 -> (l1 = [] -> r <= df_offset new) -> 0 <= df_size new ->
  Forall (fun f => 0 <= df_read_off f) l2 -> fits (last l1) (head l2) new -> queued r (l1 ++ new :: l2).
Proof.
  intros Hq Hr Hb Hsz Hl2 Hfit. destruct l1 as [|f l1]; cbn in *.
  - split; [left; by split; [|apply Hb]|]. destruct l2 as [|g l2]; [done|]. destruct Hq as [Hg Hl]. destruct Hfit as [_ Hn].
    specialize (Hn g eq_refl). specialize (Hb eq_refl). apply Forall_cons_1 in Hl2 as [Hg0 _]. cbn. split_and!; [lia|lia|done].
  - destruct Hq as [Hf Hl]. split; [done|]. apply laid_insert; try done.
    + intros ->. by apply Hfit.
    + destruct Hfit as [Hp Hn]. split; [|done]. intros p Hlp. apply Hp. by destruct l1.
Qed.

Definition hole (f g : data_frame) : Z := b2z (negb (df_offset f + df_size f =? df_offset g)).

Lemma holes_cons f fs : holes (f :: fs) = from_option (hole f) 0 (head fs) + holes fs.
Proof. by destruct fs. Qed.

Lemma holes_app l1 l2 :
  holes (l1 ++ l2) = holes l1 + match last l1, head l2 with Some p, Some n => hole p n | _, _ => 0 end + holes l2.
Proof.
  induction l1 as [|f l1 IH]; [done|]. cbn [app]. rewrite !holes_cons, IH.
  destruct l1 as [|g l1]; cbn [app head last]; [destruct l2; cbn; lia|]. cbn. lia.
Qed.

Lemma holes_insert l1 l2 new :
  (forall p n, last l1 = Some p -> head l2 = Some n -> df_offset p + df_size p < df_offset n) ->
  holes (l1 ++ new :: l2)
  = holes (l1 ++ l2)
    + match last l1, head l2 with
      | Some p, Some n => hole p new + hole new n - 1
      | Some p, None => hole p new
      | None, Some n => hole new n
      | None, None => 0
      end.
Proof.
  intros Hgap. rewrite !holes_app, holes_cons. cbn [head].
  destruct (last l1) as [p|], (head l2) as [n|] eqn:En; cbn; try lia.
  specialize (Hgap _ _ eq_refl eq_refl). unfold hole at 3. replace (_ =? df_offset n) with false by lia. cbn. lia.
Qed.

Lemma bytes_in_app l1 l2 : bytes_in (l1 ++ l2) = bytes_in l1 + bytes_in l2.
Proof. induction l1 as [|f l1 IH]; cbn; lia. Qed.

Lemma last_take {A} (l : list A) k : (k <= length l)%nat -> last (take k l) = match k with O => None | S p => l !! p end.
Proof.
  intros Hk. rewrite last_lookup, length_take_le by done. destruct k as [|p]; [by rewrite take_0|].
  cbn. apply lookup_take_lt. lia.
Qed.

Lemma head_drop {A} (l : list A) k : head (drop k l) = l !! k.
Proof. rewrite head_lookup, lookup_drop. by rewrite Nat.add_0_r. Qed.

(** The frames next to the position, as the code looks them up. *)
Lemma neighbours fs off k :
  position fs off k ->
  (match k with O => None | S p => Some p end) ≫= (fs !!.) = last (take k fs)
  /\ (if (k <? length fs)%nat then Some k else None) ≫= (fs !!.) = head (drop k fs).
Proof.
  intros [Hk _]. rewrite last_take, head_drop by done. split; [by destruct k|].
  destruct (Nat.ltb_spec k (length fs)); [done|]. by rewrite lookup_ge_None_2 by lia.
Qed.

Section inserted.
Context (str : Z -> Z) (r : Z) (s : nocopy_data_in) (new : data_frame).
Context (Hi : di_inv str r s) (Hnew : frame_ok str new) (Hr0 : df_read_off new = 0).

Lemma all_ok f : f ∈ ncdi_frames_in s -> frame_ok str f.
Proof using Hi. intros Hf. by apply (proj1 (Forall_forall _ _) (di_frames _ _ _ Hi)). Qed.

Lemma frame_above_r f : f ∈ ncdi_frames_in s -> r <= df_offset f + df_read_off f.
Proof using Hi.
  intros Hf. pose proof (di_order _ _ _ Hi) as Hq. pose proof (di_frames _ _ _ Hi) as Hok.
  destruct (ncdi_frames_in s) as [|g fs]; [by apply elem_of_nil in Hf|]. cbn in Hq. destruct Hq as [Hg Hl].
  apply Forall_cons_1 in Hok as [Hgo Hok].
  apply elem_of_cons in Hf as [->|[i Hfi]%list_elem_of_lookup_1]; [lia|].
  pose proof (laid_lookup _ _ Hok _ _ _ Hl Hfi). destruct Hgo. destruct (Forall_lookup_1 _ _ _ _ Hok Hfi). lia.
Qed.

(** A frame that passes the checks has room, starts at or behind the read
    offset, and what it covers was not there. *)
Lemma refuse_None k :
  position (ncdi_frames_in s) (df_offset new) k -> r <= DF_END new ->
  refuse s (last (take k (ncdi_frames_in s))) (head (drop k (ncdi_frames_in s))) new r = None ->
  fits (last (take k (ncdi_frames_in s))) (head (drop k (ncdi_frames_in s))) new /\ r <= df_offset new.
Proof using Hi Hnew.
  intros [Hk Hpos] Hend. rewrite last_take, head_drop by done. unfold refuse, fits.
  destruct Hnew as [? ? ? ? ? _]. rewrite (df_end_eq Hnew) in *.
  assert (forall p j, ncdi_frames_in s !! j = Some p -> frame_ok str p /\ r <= df_offset p + df_size p) as Hall.
  { intros p j Hp. apply list_elem_of_lookup_2 in Hp. pose proof (all_ok _ Hp) as Hpok. split; [done|].
    pose proof (frame_above_r _ Hp). destruct Hpok. lia. }
  destruct (match k with O => None | S p => _ end) as [p|] eqn:Ep; destruct (ncdi_frames_in s !! k) as [n|] eqn:En;
    unfold refuse_left, refuse_right, refuse_alone; rewrite ?(df_end_eq Hnew).
  - destruct k as [|k]; [done|]. destruct (Hall _ _ Ep) as [Hp Hrp]. rewrite (df_end_eq Hp).
    destruct ((df_offset p =? df_offset new) && _); [by destruct (_ && _)|].
    destruct (Z.ltb_spec (df_offset new) (df_offset p + df_size p)); [done|].
    destruct (Z.ltb_spec (df_offset n) (df_offset new + df_size new)); [done|].
    intros _. repeat split; [by intros ? [= <-]|by intros ? [= <-]|lia].
  - destruct k as [|k]; [done|]. destruct (Hall _ _ Ep) as [Hp Hrp]. rewrite (df_end_eq Hp).
    destruct ((df_offset p =? df_offset new) && _); [by destruct (_ && _)|].
    destruct (Z.ltb_spec (df_offset new) (df_offset p + df_size p)); [done|].
    intros _. repeat split; [by intros ? [= <-]|done|lia].
  - destruct (Z.ltb_spec (df_offset n) (df_offset new + df_size new)); [done|].
    destruct (Z.ltb_spec (df_offset new) r); [done|].
    intros _. repeat split; [done|by intros ? [= <-]|lia].
  - intros H0. repeat split; [done..|].
    destruct (Z.eqb_spec r (df_offset new + df_size new)); [|by destruct (Z.ltb_spec (df_offset new) r)].
    destruct (Z.eqb_spec (df_size new) 0); [lia|]. cbn in H0. by destruct (_ && negb _).
Qed.

Definition put_frame (k : nat) : list data_frame :=
  take k (ncdi_frames_in s) ++ new :: drop k (ncdi_frames_in s).

Lemma put_inv k far fo fset freach sw :
  position (ncdi_frames_in s) (df_offset new) k ->
  fits (last (take k (ncdi_frames_in s))) (head (drop k (ncdi_frames_in s))) new -> r <= df_offset new ->
  di_inv str r (NC (put_frame k) (u64 (ncdi_byteage s + df_size new)) fo (u32 (ncdi_n_frames s + 1))
    (u32 (ncdi_n_holes s + hole_delta (last (take k (ncdi_frames_in s))) (head (drop k (ncdi_frames_in s))) new))
    far fset freach sw).
Proof using Hi Hnew Hr0.
  intros Hpos Hfit Hr. pose proof Hi as [Hok Hq Hr1 Hn Hh Hb]. set (fs := ncdi_frames_in s) in *. unfold put_frame. fold fs.
  pose proof Hpos as [Hk Hpos']. destruct Hnew as [? ? ? ? ? ?].
  assert (take k fs ++ drop k fs = fs) as Efs by apply take_drop.
  assert (Forall (frame_ok str) (take k fs) /\ Forall (frame_ok str) (drop k fs)) as [Hok1 Hok2]
    by (split; [by apply Forall_take|by apply Forall_drop]).
  split; cbn.
  - apply Forall_app. split; [done|]. by apply Forall_cons_2.
  - apply queued_insert; [by rewrite Efs|done|done|lia| |done].
    eapply Forall_impl; [exact Hok2|]. intros f [? ? ? ? ? ?]. lia.
  - done.
  - rewrite Hn, wrapu_add_l. f_equal. rewrite length_app. cbn. rewrite <- (Efs) at 1. rewrite length_app. lia.
  - rewrite Hh, wrapu_add_l. f_equal. rewrite holes_insert, Efs.
    + f_equal. unfold hole_delta, hole. rewrite last_take, head_drop in * by done.
      destruct (match k with O => _ | S _ => _ end) as [p|] eqn:Ep; destruct (fs !! k) as [n|] eqn:En;
        rewrite ?(df_end_eq Hnew); try done.
      * destruct k as [|k]; [done|]. rewrite (df_end_eq (Forall_lookup_1 _ _ _ _ Hok Ep)). done.
      * destruct k as [|k]; [done|]. rewrite (df_end_eq (Forall_lookup_1 _ _ _ _ Hok Ep)). done.
    + intros p n Hp Hnn. destruct Hfit as [Hf1 _]. specialize (Hf1 _ Hp).
      rewrite head_drop in Hnn. specialize (Hpos' _ _ Hnn). rewrite Nat.ltb_irrefl in Hpos'. lia.
  - rewrite Hb, wrapu_add_l. f_equal. rewrite bytes_in_app. cbn. rewrite <- Efs at 1. rewrite bytes_in_app. lia.
Qed.

(** What a duplicate covers was read or is waiting. *)
Lemma refuse_dup k :
  position (ncdi_frames_in s) (df_offset new) k -> r <= DF_END new ->
  refuse s (last (take k (ncdi_frames_in s))) (head (drop k (ncdi_frames_in s))) new r = Some INS_FRAME_DUP ->
  forall o, df_offset new <= o < df_offset new + df_size new -> o < r \/ waiting (ncdi_frames_in s) o.
Proof using Hi Hnew.
  intros [Hk Hpos] Hend. rewrite last_take, head_drop by done. unfold refuse.
  destruct Hnew as [? ? ? ? ? _]. rewrite (df_end_eq Hnew) in *.
  assert (forall p, match k with O => None | S p => ncdi_frames_in s !! p end = Some p ->
    refuse_left p new = Some INS_FRAME_DUP ->
    forall o, df_offset new <= o < df_offset new + df_size new -> o < r \/ waiting (ncdi_frames_in s) o) as Hleft.
  { intros p Ep. destruct k as [|k]; [done|]. unfold refuse_left.
    destruct (Z.eqb_spec (df_offset p) (df_offset new)); cbn; [|by destruct (_ <? _)].
    destruct (Z.eqb_spec (df_size p) (df_size new)); cbn; [|by destruct (_ <? _)].
    intros _ o Ho. destruct (decide (o < r)); [by left|right]. apply Exists_exists. exists p.
    apply list_elem_of_lookup_2 in Ep as Hin. split; [done|].
    pose proof (di_order _ _ _ Hi) as Hq. clear Hpos. pose proof (all_ok _ Hin) as Hpo. split; [|lia].
    destruct (ncdi_frames_in s) as [|g fs] eqn:Efs; [done|]. cbn in Hq. destruct Hq as [Hg Hl].
    destruct k as [|k]; cbn in Ep; [injection Ep as ->; lia|].
    assert (df_read_off p = 0); [|lia].
    apply (laid_unread _ _ _ Hl (list_elem_of_lookup_2 _ _ _ Ep)). }
  assert (forall n, refuse_right n new r <> Some INS_FRAME_DUP) as Hright.
  { intros n. unfold refuse_right. by destruct (df_offset n <? DF_END new), (df_offset new <? r). }
  destruct (match k with O => None | S p => _ end) as [p|] eqn:Ep; destruct (ncdi_frames_in s !! k) as [n|] eqn:En.
  - destruct (refuse_left p new) eqn:El; [|by intros ?%Hright]. intros [= ->]. by apply (Hleft p).
  - intros El. by apply (Hleft p).
  - by intros ?%Hright.
  - unfold refuse_alone. rewrite (df_end_eq Hnew).
    destruct (Z.eqb_spec r (df_offset new + df_size new)); [|by destruct (_ <? _)].
    intros _ o Ho. left. lia.
Qed.

Lemma precheck_ok res : precheck s new r = res ->
  match res with
  | None => r <= DF_END new
  | Some INS_FRAME_DUP => df_offset new + df_size new <= r
  | Some INS_FRAME_ERR => df_fin new = true /\ DF_END new < r
      \/ ncdi_fin_set s = true /\ (df_fin new = true /\ DF_END new <> ncdi_fin_off s \/ ncdi_fin_off s < DF_END new)
  | Some _ => False
  end.
Proof using Hnew.
  intros <-. unfold precheck. pose proof (df_end_eq Hnew) as E.
  destruct (Z.ltb_spec (DF_END new) r); [destruct (df_fin new); [by left|lia]|].
  destruct (ncdi_fin_set s).
  - destruct (df_fin new) eqn:Ef; cbn.
    + destruct (Z.eqb_spec (DF_END new) (ncdi_fin_off s)); cbn; [|by right; split; [|left]].
      destruct (Z.ltb_spec (ncdi_fin_off s) (DF_END new)); [right; split; [done|by right]|].
      destruct (Z.eqb_spec r (DF_END new)); lia.
    + destruct (Z.ltb_spec (ncdi_fin_off s) (DF_END new)); [right; split; [done|by right]|].
      destruct (Z.eqb_spec r (DF_END new)); lia.
  - destruct (Z.eqb_spec r (DF_END new)); cbn; [|lia]. destruct (df_fin new); cbn; lia.
Qed.

Lemma refuse_cases prev next res : refuse s prev next new r = Some res ->
  res = INS_FRAME_DUP \/ res = INS_FRAME_OVERLAP.
Proof.
  unfold refuse, refuse_left, refuse_right, refuse_alone.
  destruct prev, next; repeat case_match; intros; simplify_eq; auto.
Qed.

Lemma fits_disjoint k o :
  position (ncdi_frames_in s) (df_offset new) k ->
  fits (last (take k (ncdi_frames_in s))) (head (drop k (ncdi_frames_in s))) new ->
  df_offset new <= o < df_offset new + df_size new -> ~ waiting (ncdi_frames_in s) o.
Proof using Hi.
  intros [Hk Hpos] [Hp Hn] Ho (f & [i Hf]%list_elem_of_lookup_1 & Hfo)%Exists_exists.
  rewrite last_take in Hp by done. rewrite head_drop in Hn.
  pose proof (di_frames _ _ _ Hi) as Hok. pose proof (di_order _ _ _ Hi) as Hq.
  pose proof (Forall_lookup_1 _ _ _ _ Hok Hf) as [? ? ? ? ? _]. pose proof (lookup_lt_Some _ _ _ Hf).
  destruct (decide (i < k)%nat).
  - destruct k as [|k]; [lia|]. destruct (lookup_lt_is_Some_2 (ncdi_frames_in s) k) as [p Ep]; [lia|].
    specialize (Hp p Ep). pose proof (Forall_lookup_1 _ _ _ _ Hok Ep) as [? ? ? ? ? _].
    destruct (decide (i = k)) as [->|]; [rewrite Ep in Hf; injection Hf as ->; lia|].
    pose proof (queued_sorted _ _ _ _ _ _ _ Hok Hq Hf Ep ltac:(lia)). lia.
  - destruct (lookup_lt_is_Some_2 (ncdi_frames_in s) k) as [nx En]; [lia|].
    specialize (Hn nx En). pose proof (queued_le _ _ _ Hok Hq _ _ _ _ En Hf ltac:(lia)). lia.
Qed.

Lemma insert_frame_ok :
  exists res s' c, insert_frame s new r = Some (res, s', c)
  /\ match res with
     | INS_FRAME_OK => di_inv str r s' /\ ncdi_frames_in s' ≡ₚ new :: ncdi_frames_in s /\ r <= df_offset new
         /\ (forall o, df_offset new <= o < df_offset new + df_size new -> ~ waiting (ncdi_frames_in s) o)
         /\ ncdi_fin_reached s' = ncdi_fin_reached s
     | INS_FRAME_DUP => s' = s /\ forall o, df_offset new <= o < df_offset new + df_size new ->
         o < r \/ waiting (ncdi_frames_in s) o
     | INS_FRAME_ERR => s' = s /\ (df_fin new = true /\ DF_END new < r
         \/ ncdi_fin_set s = true /\ (df_fin new = true /\ DF_END new <> ncdi_fin_off s \/ ncdi_fin_off s < DF_END new))
     | INS_FRAME_OVERLAP => s' = s
     end.
Proof using Hi Hnew Hr0.
  unfold insert_frame. destruct (precheck s new r) as [res|] eqn:Epre; apply precheck_ok in Epre.
  { exists res, s, 0. split; [done|]. destruct res; [done|done| |done]. split; [done|]. intros o Ho. left. lia. }
  destruct (find_position_ok str r _ (df_offset new) (di_frames _ _ _ Hi) (di_order _ _ _ Hi)) as (k & c & -> & Hpos).
  cbn [mbind option_bind]. destruct (neighbours _ _ _ Hpos) as [-> ->].
  destruct (refuse _ _ _ _ _) as [res|] eqn:Eref.
  - exists res, s, 0. split; [done|]. destruct (refuse_cases _ _ _ Eref) as [->| ->]; [|done].
    split; [done|]. by apply (refuse_dup k).
  - destruct (refuse_None k Hpos Epre Eref) as [Hfit Hr].
    set (prev := match k with O => None | S p => Some p end).
    assert (match prev with Some p => S p | None => O end = k) as -> by by destruct k.
    do 3 eexists. split; [reflexivity|]. split_and!.
    + by apply put_inv.
    + cbn [ncdi_frames_in]. by rewrite <- Permutation_middle, take_drop.
    + done.
    + intros o Ho. by apply (fits_disjoint k).
    + done.
Qed.

End inserted.

(** The invariant does not see the efficiency counters. *)
Lemma inv_same str r s s' :
  ncdi_frames_in s' = ncdi_frames_in s -> ncdi_n_frames s' = ncdi_n_frames s -> ncdi_n_holes s' = ncdi_n_holes s ->
  ncdi_byteage s' = ncdi_byteage s -> di_inv str r s -> di_inv str r s'.
Proof. intros E1 E2 E3 E4 [? ? ? ? ? ?]. by split; rewrite ?E1, ?E2, ?E3, ?E4. Qed.

Lemma check_efficiency_same s c :
  let s' := (check_efficiency s c).2 in
  ncdi_frames_in s' = ncdi_frames_in s /\ ncdi_n_frames s' = ncdi_n_frames s /\ ncdi_n_holes s' = ncdi_n_holes s
  /\ ncdi_byteage s' = ncdi_byteage s /\ ncdi_fin_reached s' = ncdi_fin_reached s.
Proof.
  unfold check_efficiency. destruct (_ <=? EFF_CHECK_THRESH_LOW); [done|]. destruct (EFF_CHECK_THRESH_HIGH <? _); [done|].
  by destruct (ncdi_n_frames s / 2 <=? c).
Qed.

Lemma di_insert_ok str r s new :
  di_inv str r s -> frame_ok str new -> df_read_off new = 0 ->
  exists res s', nocopy_di_insert_frame s new r = Some (res, s')
  /\ match res with
     | INS_FRAME_OK => di_inv str r s' /\ ncdi_frames_in s' ≡ₚ new :: ncdi_frames_in s /\ r <= df_offset new
         /\ (forall o, df_offset new <= o < df_offset new + df_size new -> ~ waiting (ncdi_frames_in s) o)
         /\ ncdi_fin_reached s' = ncdi_fin_reached s
     | INS_FRAME_DUP => s' = s /\ forall o, df_offset new <= o < df_offset new + df_size new ->
         o < r \/ waiting (ncdi_frames_in s) o
     | INS_FRAME_ERR => s' = s /\ (df_fin new = true /\ DF_END new < r
         \/ ncdi_fin_set s = true /\ (df_fin new = true /\ DF_END new <> ncdi_fin_off s \/ ncdi_fin_off s < DF_END new))
     | INS_FRAME_OVERLAP => s' = s
     end.
Proof.
  intros Hi Hnew Hr0. unfold nocopy_di_insert_frame.
  destruct (insert_frame_ok str r s new Hi Hnew Hr0) as (res & s1 & c & -> & H). cbn [mbind option_bind].
  destruct res; [|by do 2 eexists..].
  destruct (check_efficiency_same s1 c) as (E1 & E2 & E3 & E4 & E5). destruct (check_efficiency s1 c) as [alert s2]. cbn in *.
  destruct H as (Hi1 & Hp & Hr & Hw & Hf). do 2 eexists. split; [reflexivity|].
  assert (di_inv str r s2 /\ ncdi_frames_in s2 ≡ₚ new :: ncdi_frames_in s /\ ncdi_fin_reached s2 = ncdi_fin_reached s)
    as (Hi2 & Hp2 & Hf2) by (split_and!; [by apply (inv_same _ _ s1)|by rewrite E1|by rewrite E5]).
  destruct alert; split_and!; try done. by apply (inv_same _ _ s2).
Qed.

(** ** Reading *)

Lemma frame_done_ok str r s f fs :
  di_inv str r s -> ncdi_frames_in s = f :: fs -> df_read_off f = df_size f ->
  exists s', nocopy_di_frame_done s = Some s' /\ ncdi_frames_in s' = fs /\ di_inv str (df_offset f + df_size f) s'.
Proof.
  intros [Hok Hq Hr Hn Hh Hb] E Hd. unfold nocopy_di_frame_done. rewrite E in *.
  replace (df_read_off f =? df_size f) with true by lia. eexists. split; [reflexivity|]. split; [done|].
  apply Forall_cons_1 in Hok as [Hf Hok]. destruct Hq as [Hq Hl]. pose proof Hf as [? ? ? ? ? _]. split; cbn in *; try done.
  - destruct fs as [|g fs]; [done|]. cbn in *. destruct Hl as (? & ? & ?). split; [left; by split|done].
  - lia.
  - rewrite Hn, wrapu_sub_l. f_equal. lia.
  - rewrite Hh, wrapu_sub_l. f_equal. rewrite (df_end_eq Hf). destruct fs as [|g fs]; cbn; lia.
  - rewrite Hb, wrapu_sub_l. f_equal. lia.
Qed.

Lemma advance_inv str r s f fs n :
  di_inv str r s -> ncdi_frames_in s = f :: fs -> DF_ROFF f = r -> 0 <= n -> df_read_off f + n <= df_size f ->
  let f' := DF (df_data f) (df_offset f) (df_read_off f + n) (df_size f) (df_fin f) in
  ncdi_frames_in (advance_first s n) = f' :: fs /\ di_inv str (r + n) (advance_first s n).
Proof.
  intros [Hok Hq Hr Hn Hh Hb] E Er Hn0 Hle f'. unfold advance_first. rewrite E in *.
  apply Forall_cons_1 in Hok as [Hf Hok]. destruct Hq as [Hq Hl]. pose proof Hf as [? ? ? ? ? ?].
  rewrite (df_roff_eq Hf) in Er. rewrite (wrapu_id 16) by (unfold is_u; lia).
  split; [done|]. split; cbn; try done.
  - apply Forall_cons_2; [split; cbn; try done; lia|done].
  - split; [right; lia|done].
  - lia.
Qed.

Lemma waiting_cons f fs o :
  waiting (f :: fs) o <-> df_offset f + df_read_off f <= o < df_offset f + df_size f \/ waiting fs o.
Proof. apply Exists_cons. Qed.

(** Nothing waits at the read offset if the first frame does not start there. *)
Lemma no_frame_no_data str r s :
  di_inv str r s -> nocopy_di_get_frame s r = None -> ~ waiting (ncdi_frames_in s) r.
Proof.
  intros Hi. unfold nocopy_di_get_frame. pose proof (frame_above_r str r s Hi) as Hab. pose proof (all_ok str r s Hi) as Hok.
  pose proof (di_order _ _ _ Hi) as Hq. destruct (ncdi_frames_in s) as [|f fs]; [by intros _ ?%Exists_nil|].
  pose proof (Hok f (list_elem_of_here _ _)) as Hf. pose proof (Hab f (list_elem_of_here _ _)).
  rewrite (df_roff_eq Hf). destruct (Z.eqb_spec (df_offset f + df_read_off f) r); [done|]. intros _ [Hw|Hw]%waiting_cons; [lia|].
  apply Exists_exists in Hw as (g & Hg & Hgo). destruct Hq as [Hq Hl]. pose proof Hf as [? ? ? ? ? _].
  apply list_elem_of_lookup_1 in Hg as [i Hg].
  assert (Forall (frame_ok str) fs) as Hfs by (apply Forall_forall; intros x Hx; apply Hok; by right).
  pose proof (laid_lookup _ _ Hfs _ _ _ Hl Hg). pose proof (Forall_lookup_1 _ _ _ _ Hfs Hg) as [? ? ? ? ? _]. lia.
Qed.

Definition drained (str : Z -> Z) (r want : Z) (s : nocopy_data_in) (acc : list Z) (rr : read_result) : Prop :=
  let r' := rr_offset rr in let s' := rr_state rr in
  di_inv str r' s' /\ r <= r' <= r + want /\ rr_bytes rr = acc ++ span str r r'
  /\ (forall o, r' <= o -> waiting (ncdi_frames_in s') o <-> waiting (ncdi_frames_in s) o)
  /\ (rr_fin rr = true \/ r' = r + want \/ ~ waiting (ncdi_frames_in s') r')
  /\ (rr_fin rr = true -> exists f, f ∈ ncdi_frames_in s /\ df_fin f = true /\ r' = DF_END f).

Lemma read_ok str fuel : forall s r want acc,
  di_inv str r s -> 0 <= want -> (length (ncdi_frames_in s) < fuel)%nat ->
  exists rr, read_data_frames fuel s r want acc = Some rr /\ drained str r want s acc rr.
Proof.
  induction fuel as [|fuel IH]; intros s r want acc Hi Hw Hfuel; [lia|]. cbn [read_data_frames].
  destruct (nocopy_di_get_frame s r) as [f|] eqn:Eg.
  2: { eexists. split; [reflexivity|]. unfold drained. cbn. rewrite span_nil, app_nil_r.
       split_and!; try done; [lia..|]. right; right. by apply (no_frame_no_data str). }
  unfold nocopy_di_get_frame in Eg. destruct (ncdi_frames_in s) as [|f' fs] eqn:Efs; [done|].
  destruct (Z.eqb_spec (DF_ROFF f') r) as [Er|]; [|done]. injection Eg as ->.
  pose proof (all_ok str r s Hi f ltac:(rewrite Efs; apply list_elem_of_here)) as Hf. pose proof Hf as [? ? ? ? ? _].
  pose proof (di_r _ _ _ Hi).
  set (toread := df_size f - df_read_off f). set (nread := if negb (toread =? 0) || df_fin f then _ else 0).
  assert (nread = Z.min toread want) as En.
  { unfold nread. destruct (Z.eqb_spec toread 0); cbn; [destruct (df_fin f)|]; lia. }
  destruct (advance_inv str r s f fs nread Hi Efs Er ltac:(lia) ltac:(lia)) as [Ef1 Hi1].
  rewrite (df_roff_eq Hf) in Er.
  rewrite (frame_span str f (df_read_off f) nread Hf) by lia. rewrite Er.
  rewrite (wrapu_id 16), (wrapu_id 64 (r + nread)) by (unfold is_u; lia).
  assert (forall o, r + nread <= o -> waiting (f :: fs) o <->
    waiting (DF (df_data f) (df_offset f) (df_read_off f + nread) (df_size f) (df_fin f) :: fs) o) as Hwait.
  { intros o Ho. rewrite !waiting_cons. cbn. intuition lia. }
  destruct (Z.eqb_spec (df_read_off f + nread) (df_size f)) as [Hd|Hd].
  - destruct (frame_done_ok _ _ _ _ _ Hi1 Ef1 Hd) as (s2 & -> & Ef2 & Hi2). cbn [mbind option_bind df_offset df_size] in *.
    assert (df_offset f + df_size f = r + nread) as Eend by lia. rewrite Eend in Hi2.
    assert (forall o, r + nread <= o -> waiting fs o <-> waiting (f :: fs) o) as Hwait2.
    { intros o Ho. rewrite (Hwait o Ho), waiting_cons. cbn. intuition lia. }
    destruct (df_fin f) eqn:Efin.
    + eexists. split; [reflexivity|]. unfold drained. cbn. rewrite Ef2, Efs. split_and!; try done; try lia.
      intros _. exists f. split_and!; [apply list_elem_of_here|done|by rewrite (df_end_eq Hf)].
    + destruct (IH s2 (r + nread) (want - nread) (acc ++ span str r (r + nread)) Hi2) as (rr & -> & HR); [lia|rewrite Ef2; cbn in Hfuel; lia|].
      eexists. split; [reflexivity|]. destruct HR as (A & B & C & D & E & F). unfold drained. rewrite Efs.
      split_and!; try done; try lia.
      * rewrite C, <- app_assoc. f_equal. symmetry. apply span_app. lia.
      * intros o Ho. rewrite (D o Ho), Ef2. apply Hwait2. lia.
      * destruct E as [E|[E|E]]; [by left|right; left; lia|by right; right].
      * intros Hfin. destruct (F Hfin) as (g & Hg & ?). exists g. split; [|done]. rewrite Ef2 in Hg. by right.
  - replace ((negb (toread =? 0) || df_fin f) && (nread <? toread)) with true.
    2: { symmetry. apply andb_true_iff. split; [apply orb_true_iff; left|]; lia. }
    eexists. split; [reflexivity|]. unfold drained. cbn. rewrite Ef1, Efs. split_and!; try done; try lia.
    intros o Ho. symmetry. by apply Hwait.
Qed.

(** ** Counting what can be read *)

Lemma readable_none str fs : Forall (frame_ok str) fs -> forall start r, (forall f, f ∈ fs -> r < df_offset f + df_read_off f) ->
  readable_loop fs start r = r.
Proof.
  induction 1 as [|f fs Hf _ IH]; intros start r Hall; [done|]. cbn. rewrite (df_roff_eq Hf).
  pose proof (Hall f (list_elem_of_here _ _)). replace (_ =? r) with false by lia.
  destruct (start <? r); [done|]. apply IH. intros g Hg. apply Hall. by right.
Qed.

Lemma readable_ok str fuel : forall s r start want acc rr,
  di_inv str r s -> start <= r -> 2 ^ 62 - r <= want -> Forall (fun f => df_fin f = false) (ncdi_frames_in s) ->
  read_data_frames fuel s r want acc = Some rr -> readable_loop (ncdi_frames_in s) start r = rr_offset rr.
Proof.
  induction fuel as [|fuel IH]; intros s r start want acc rr Hi Hstart Hw Hfin; [done|]. cbn [read_data_frames].
  pose proof (di_frames _ _ _ Hi) as Hok. pose proof (di_r _ _ _ Hi).
  destruct (nocopy_di_get_frame s r) as [f|] eqn:Eg.
  2: { intros [= <-]. cbn. apply (readable_none str); [done|]. intros f Hf.
       pose proof (frame_above_r str r s Hi f Hf). pose proof (no_frame_no_data str r s Hi Eg).
       destruct (decide (df_offset f + df_read_off f = r)) as [E|]; [|lia]. exfalso.
       unfold nocopy_di_get_frame in Eg. pose proof (di_order _ _ _ Hi) as Hq.
       destruct (ncdi_frames_in s) as [|g fs]; [by apply elem_of_nil in Hf|]. apply Forall_cons_1 in Hok as [Hg Hok].
       rewrite (df_roff_eq Hg) in Eg. destruct (Z.eqb_spec (df_offset g + df_read_off g) r); [done|].
       apply elem_of_cons in Hf as [->|Hf]; [lia|]. destruct Hq as [Hq Hl]. pose proof Hg as [? ? ? ? ? _].
       pose proof (laid_unread _ _ _ Hl Hf). apply list_elem_of_lookup_1 in Hf as [i Hf].
       pose proof (laid_lookup _ _ Hok _ _ _ Hl Hf). lia. }
  unfold nocopy_di_get_frame in Eg. destruct (ncdi_frames_in s) as [|f' fs] eqn:Efs; [done|].
  destruct (Z.eqb_spec (DF_ROFF f') r) as [Er|]; [|done]. injection Eg as ->.
  apply Forall_cons_1 in Hok as [Hf Hok]. apply Forall_cons_1 in Hfin as [Hff Hfin]. pose proof Hf as [? ? ? ? ? _].
  set (toread := df_size f - df_read_off f). set (nread := if negb (toread =? 0) || df_fin f then _ else 0).
  pose proof Er as Er'. rewrite (df_roff_eq Hf) in Er'.
  assert (nread = toread) as En.
  { unfold nread. destruct (Z.eqb_spec toread 0); cbn; [destruct (df_fin f)|]; lia. }
  destruct (advance_inv str r s f fs nread Hi Efs Er ltac:(lia) ltac:(lia)) as [Ef1 Hi1].
  rewrite (wrapu_id 16), (wrapu_id 64 (r + nread)) by (unfold is_u; lia).
  replace (df_read_off f + nread =? df_size f) with true by lia.
  destruct (frame_done_ok _ _ _ _ _ Hi1 Ef1 ltac:(cbn; lia)) as (s2 & -> & Ef2 & Hi2). cbn [mbind option_bind df_offset df_size] in *.
  rewrite Hff. intros Hrd. cbn [readable_loop]. replace (DF_ROFF f =? r) with true by lia.
  rewrite (df_end_eq Hf), (df_roff_eq Hf), (wrapu_id 64 (_ - _)), wrapu_id by (unfold is_u; lia).
  replace (r + (df_offset f + df_size f - (df_offset f + df_read_off f))) with (r + nread) by lia.
  replace (df_offset f + df_size f) with (r + nread) in Hi2 by lia. rewrite <- Ef2.
  apply (IH s2 (r + nread) start (want - nread) (acc ++ take (Z.to_nat nread) (drop (Z.to_nat (df_read_off f)) (df_data f))));
    [done|lia|lia|by rewrite Ef2|done].
Qed.

(** ** Runs *)

Inductive di_op := Insert (f : data_frame) | Read (want : Z).

(** Frames as they arrive, and reads; the result has the state, the read
    offset, all bytes read so far and the frames that were inserted or found
    to be duplicates. *)
Fixpoint di_run (ops : list di_op) (s : nocopy_data_in) (r : Z) (out : list Z) (got : list data_frame)
    : option (nocopy_data_in * Z * list Z * list data_frame) :=
  match ops with
  | [] => Some (s, r, out, got)
  | Insert f :: ops =>
    '(res, s) ← nocopy_di_insert_frame s f r;
    let got := if decide (res = INS_FRAME_OK \/ res = INS_FRAME_DUP) then f :: got else got in
    di_run ops s r out got
  | Read want :: ops =>
    rr ← read_data_frames (S (length (ncdi_frames_in s))) s r want out;
    di_run ops (rr_state rr) (rr_offset rr) (rr_bytes rr) got
  end.

Definition op_ok (str : Z -> Z) (op : di_op) : Prop :=
  match op with Insert f => frame_ok str f /\ df_read_off f = 0 | Read want => 0 <= want end.

(** Exactly the offsets of the accepted frames are behind us or waiting. *)
Definition accounted (got : list data_frame) (r : Z) (fs : list data_frame) : Prop :=
  (forall f o, f ∈ got -> df_offset f <= o < df_offset f + df_size f -> o < r \/ waiting fs o)
  /\ (forall o, waiting fs o -> exists f, f ∈ got /\ df_offset f <= o < df_offset f + df_size f).

Lemma waiting_perm fs fs' o : fs ≡ₚ fs' -> waiting fs o -> waiting fs' o.
Proof. intros Hp. unfold waiting. by rewrite Hp. Qed.

Lemma run_ok str ops : forall s r got,
  Forall (op_ok str) ops -> di_inv str r s -> accounted got r (ncdi_frames_in s) ->
  exists s' r' got', di_run ops s r (span str 0 r) got = Some (s', r', span str 0 r', got')
    /\ di_inv str r' s' /\ accounted got' r' (ncdi_frames_in s') /\ r <= r'.
Proof.
  induction ops as [|op ops IH]; intros s r got Hops Hi Hacc; [by exists s, r, got|].
  apply Forall_cons_1 in Hops as [Hop Hops]. destruct op as [f|want]; cbn [di_run].
  - destruct Hop as [Hf Hf0]. destruct (di_insert_ok str r s f Hi Hf Hf0) as (res & s' & -> & Hres). cbn [mbind option_bind].
    destruct Hacc as [Ha Hb]. destruct res.
    + destruct Hres as (Hi' & Hp & Hr & _). apply (IH s' r (f :: got)); try done. split.
      * intros g o [->|Hg]%elem_of_cons Ho.
        -- right. apply (waiting_perm (f :: ncdi_frames_in s)); [done|]. apply waiting_cons. left. lia.
        -- destruct (Ha g o Hg Ho); [by left|right]. apply (waiting_perm (f :: ncdi_frames_in s)); [done|]. apply waiting_cons. by right.
      * intros o Ho%(waiting_perm _ _ _ Hp). apply waiting_cons in Ho as [Ho|Ho]; [exists f|destruct (Hb o Ho) as (g & ? & ?); exists g].
        -- split; [by left|lia].
        -- split; [by right|done].
    + destruct Hres as [-> _]. rewrite decide_False by (intros [|]; done). by apply (IH s r got).
    + destruct Hres as [-> Hdup]. apply (IH s r (f :: got)); try done. split.
      * intros g o [->|Hg]%elem_of_cons Ho; [by apply Hdup|by apply (Ha g)].
      * intros o Ho. destruct (Hb o Ho) as (g & ? & ?). exists g. split; [by right|done].
    + subst s'. rewrite decide_False by (intros [|]; done). by apply (IH s r got).
  - destruct (read_ok str (S (length (ncdi_frames_in s))) s r want (span str 0 r) Hi Hop) as (rr & -> & HR); [lia|].
    cbn [mbind option_bind]. destruct HR as (Hi' & Hr & Hbytes & Hwait & _ & _). pose proof (di_r _ _ _ Hi).
    rewrite Hbytes, <- span_app by lia. destruct Hacc as [Ha Hb].
    destruct (IH (rr_state rr) (rr_offset rr) got) as (s' & r' & got' & H1 & H2 & H3 & H4); [done..| |].
    + split.
      * intros f o Hf Ho. destruct (decide (o < rr_offset rr)); [by left|right]. apply Hwait; [lia|].
        destruct (Ha f o Hf Ho); [lia|done].
      * intros o Ho. apply Hb. destruct (decide (rr_offset rr <= o)); [by apply Hwait|].
        exfalso. apply Exists_exists in Ho as (f & Hf & Ho). pose proof (frame_above_r str _ _ Hi' f Hf). lia.
    + exists s', r', got'. split_and!; try done. lia.
Qed.

(** * Properties *)

(** The stream is reassembled.  Whatever the order in which frames of a
    stream arrive, whether they repeat or overlap, and however the user reads
    in between, every operation succeeds, and the bytes the user has read are
    the bytes of the stream from its beginning, each once and in order.  Every
    byte of an accepted frame (inserted or reported as a duplicate) was
    delivered or is waiting, and nothing else waits.  A read that is not cut
    short by the size of the buffer or by the end of the stream leaves nothing
    at the read offset. *)
Theorem stream_reassembly str ops want :
  Forall (op_ok str) ops -> 0 <= want ->
  exists s r got, di_run ops lsquic_data_in_nocopy_new 0 [] [] = Some (s, r, span str 0 r, got)
    /\ accounted got r (ncdi_frames_in s)
    /\ exists rr, read_data_frames (S (length (ncdi_frames_in s))) s r want [] = Some rr
       /\ rr_bytes rr = span str r (rr_offset rr) /\ rr_offset rr <= r + want
       /\ (rr_fin rr = true \/ rr_offset rr = r + want \/ ~ waiting (ncdi_frames_in (rr_state rr)) (rr_offset rr)).
Proof.
  intros Hops Hw.
  assert (di_inv str 0 lsquic_data_in_nocopy_new) as Hi by by split; cbn; [constructor|..].
  destruct (run_ok str ops lsquic_data_in_nocopy_new 0 [] Hops Hi) as (s & r & got & Hrun & Hi' & Hacc & _).
  { split; [by intros f o ?%elem_of_nil|by intros o ?%Exists_nil]. }
  exists s, r, got. rewrite span_nil in Hrun. split; [done|]. split; [done|].
  destruct (read_ok str (S (length (ncdi_frames_in s))) s r want [] Hi' Hw) as (rr & Hrd & HR); [lia|].
  destruct HR as (_ & Hr & Hb & _ & He & _). exists rr. split_and!; try done. lia.
Qed.

Definition demo_stream (o : Z) : Z := 100 + o.
Definition demo_frame (a b : Z) : data_frame := DF (span demo_stream a b) a 0 (b - a) false.
Definition demo_ops : list di_op :=
  [Insert (demo_frame 6 9); Insert (demo_frame 2 6); Read 10; Insert (demo_frame 0 2); Insert (demo_frame 2 6); Read 4].

Lemma demo_frame_ok a b : 0 <= a <= b -> b <= 1000 -> frame_ok demo_stream (demo_frame a b).
Proof.
  intros Ha Hb. split; cbn; rewrite ?length_span by lia; try lia.
  intros i Hi. unfold span in *. rewrite length_fmap, length_seq in Hi. by rewrite list_lookup_fmap, lookup_seq_lt.
Qed.

Lemma stream_reassembly_witness :
  exists s r got, di_run demo_ops lsquic_data_in_nocopy_new 0 [] [] = Some (s, r, span demo_stream 0 r, got)
    /\ accounted got r (ncdi_frames_in s) /\ r = 4.
Proof.
  destruct (stream_reassembly demo_stream demo_ops 0) as (s & r & got & E & H & _).
  - repeat apply Forall_cons_2; cbn; try (split; [apply demo_frame_ok; lia|reflexivity]); try lia. apply Forall_nil_2.
  - lia.
  - exists s, r, got. split; [exact E|]. split; [exact H|]. vm_compute in E. by injection E as _ <-.
Defined.

(** Every result of inserting a frame is right.  In a consistent state the
    call succeeds; INS_FRAME_OK means that the frame starts at or behind the
    read offset, that none of its bytes were there and that exactly this frame
    was added in its place; INS_FRAME_DUP means that every byte of it was read
    or is waiting; INS_FRAME_ERR means that the frame contradicts the known end
    of the stream or ends it before the read offset; in all cases but the first
    nothing changes. *)
Theorem data_in_insert str r s new :
  di_inv str r s -> frame_ok str new -> df_read_off new = 0 ->
  exists res s', nocopy_di_insert_frame s new r = Some (res, s')
  /\ match res with
     | INS_FRAME_OK => di_inv str r s' /\ ncdi_frames_in s' ≡ₚ new :: ncdi_frames_in s /\ r <= df_offset new
         /\ (forall o, df_offset new <= o < df_offset new + df_size new -> ~ waiting (ncdi_frames_in s) o)
         /\ ncdi_fin_reached s' = ncdi_fin_reached s
     | INS_FRAME_DUP => s' = s /\ forall o, df_offset new <= o < df_offset new + df_size new ->
         o < r \/ waiting (ncdi_frames_in s) o
     | INS_FRAME_ERR => s' = s /\ (df_fin new = true /\ DF_END new < r
         \/ ncdi_fin_set s = true /\ (df_fin new = true /\ DF_END new <> ncdi_fin_off s \/ ncdi_fin_off s < DF_END new))
     | INS_FRAME_OVERLAP => s' = s
     end.
Proof. apply di_insert_ok. Qed.

Lemma data_in_insert_witness :
  exists s', nocopy_di_insert_frame lsquic_data_in_nocopy_new (demo_frame 2 6) 0 = Some (INS_FRAME_OK, s')
    /\ ncdi_frames_in s' ≡ₚ [demo_frame 2 6].
Proof.
  destruct (data_in_insert demo_stream 0 lsquic_data_in_nocopy_new (demo_frame 2 6)) as (res & s' & E & H).
  - by split; cbn; [constructor|..].
  - apply demo_frame_ok; lia.
  - reflexivity.
  - exists s'. assert (res = INS_FRAME_OK) as -> by (vm_compute in E; by injection E as <- _).
    split; [exact E|]. apply H.
Defined.

(** [nocopy_di_readable_bytes] is exact: in a consistent state in which no
    waiting frame has the FIN bit, it is the number of bytes that a read with
    an unlimited buffer returns. *)
Theorem data_in_readable str r s :
  di_inv str r s -> Forall (fun f => df_fin f = false) (ncdi_frames_in s) ->
  exists rr, read_data_frames (S (length (ncdi_frames_in s))) s r (2 ^ 62) [] = Some rr
    /\ nocopy_di_readable_bytes s r = Z.of_nat (length (rr_bytes rr)).
Proof.
  intros Hi Hfin. pose proof (di_r _ _ _ Hi).
  destruct (read_ok str (S (length (ncdi_frames_in s))) s r (2 ^ 62) [] Hi) as (rr & Hrd & HR); [lia..|].
  exists rr. split; [done|]. destruct HR as (Hi' & Hr & Hb & _). pose proof (di_r _ _ _ Hi').
  unfold nocopy_di_readable_bytes.
  rewrite (readable_ok str _ s r r (2 ^ 62) [] rr Hi ltac:(lia) ltac:(lia) Hfin Hrd).
  rewrite Hb. cbn [app]. rewrite length_span by lia. apply wrapu_id. unfold is_u. lia.
Qed.

Lemma data_in_readable_witness :
  let s := NC [demo_frame 0 2; demo_frame 2 6; demo_frame 8 9] 7 0 3 1 0 false false false in
  exists rr, read_data_frames 4 s 0 (2 ^ 62) [] = Some rr
    /\ nocopy_di_readable_bytes s 0 = Z.of_nat (length (rr_bytes rr)) /\ nocopy_di_readable_bytes s 0 = 6.
Proof.
  intros s. destruct (data_in_readable demo_stream 0 s) as (rr & E & H).
  - split; try (vm_compute; done); [repeat apply Forall_cons_2; try (apply demo_frame_ok; lia); apply Forall_nil_2|].
    vm_compute. intuition discriminate.
  - repeat constructor.
  - exists rr. split; [exact E|]. split; [exact H|]. vm_compute. reflexivity.
Defined.
