(* ===== verification/SendCtl.v ===== *)
(** The send controller: the packet queues of lsquic_send_ctl.c.  Packets that
    were sent wait on the queue of unacknowledged packets of their packet
    number space; a lost packet moves to the lost queue and leaves a loss record
    behind, linked to it by the circular loss chain; packets to be sent are on
    the scheduled queue.

    Packets live in a memory that maps pointers to packets, so that a dangling
    pointer shows; queues are lists of pointers.  A flag of [po_flags] is a
    Boolean field.  [lsquic_malo_get] succeeds as the next element of [sc_malo]
    says (always, when there is none) and then returns a pointer not in use.
    Clock and [rand()] are the function [env] of the packet that is handled.
    Packet numbers come from the connection and are arguments, and so is what a
    packet holds after frames were elided from it.  Calls into the congestion
    controller, the pacer, the streams and the alarm set do not touch this
    state and are left out. *)
From stdpp Require Import gmap.
From S2P Require Import Prelude Art.
Local Open Scope Z_scope.

(** ** Faults *)

(** [Bug]: a failed assertion or the use of a pointer that is not valid.
    [NoMemory]: the NULL of a failed allocation is written through, or the
    assertion at the end of [art_schedule] fails.
    [Rounds]: an index outside [sc_rounds_map]. *)
Inductive fault := Bug | NoMemory | Rounds.

Inductive res (A : Type) := Ok (a : A) | Fault (f : fault).
Arguments Ok {A} a.
Arguments Fault {A} f.

#[export] Instance res_bind : MBind res := fun A B k r =>
  match r with Ok a => k a | Fault f => Fault f end.

Definition need {A} (f : fault) (o : option A) : res A :=
  match o with Some a => Ok a | None => Fault f end.

Definition check (b : bool) : res unit := if b then Ok tt else Fault Bug.

(** The assertion at the end of [art_schedule].  Its failure has the name of the only
    cause it can have: [SendCtlClaims] proves that an allocation failed then. *)
Definition check_flight (b : bool) : res unit := if b then Ok tt else Fault NoMemory.

(** ** State *)

(** [pk_art] holds the fields of Art.v: packet number, the counters of the
    duplicates and PO_LOSS_REC. *)
Record packet := PK {
  pk_art : art_packet;
  po_sched : bool;             (* PO_SCHED *)
  po_unacked : bool;           (* PO_UNACKED *)
  po_lost : bool;              (* PO_LOST *)
  po_poison : bool;            (* PO_POISON *)
  po_mtu_probe : bool;         (* PO_MTU_PROBE *)
  po_hello : bool;             (* PO_HELLO *)
  po_retx : bool;              (* PO_RETX *)
  po_has_sent_sz : bool;       (* PO_SENT_SZ *)
  po_pns : nat;
  po_sent : Z;
  po_sent_sz : Z;
  po_hdr_sz : Z;               (* header and tag *)
  po_data_sz : Z;
  po_regen_sz : Z;
  po_frame_types : Z;
  po_loss_chain : Z;
  po_feedback_recorded : Z;
  po_facked : bool             (* POL_FACKED *)
}.

Abbreviation packno p := (po_packno (pk_art p)).
Abbreviation is_loss_rec p := (po_loss_rec (pk_art p)).
Abbreviation fake p := (po_fake_loss_rec (pk_art p)).

Record queues := QS {
  sc_unacked_packets : list (list Z);    (* one per packet number space *)
  sc_lost_packets : list Z;
  sc_scheduled_packets : list Z
}.

Record counts := CN {
  sc_n_in_flight_all : Z;
  sc_bytes_unacked_all : Z;
  sc_n_in_flight_retx : Z;
  sc_bytes_unacked_retx : Z;
  sc_n_scheduled : Z;
  sc_bytes_scheduled : Z;
  sc_lost_packet_number : Z;
  sc_loss_count : Z
}.

Record acked := AK {
  sc_largest_acked_packno : Z;
  sc_largest_acked_sent_time : Z;
  sc_reord_thresh : Z;
  sc_loss_to : Z;
  sc_largest_sent_at_cutback : Z;
  sh_last_sent : Z;
  sc_gap : Z;
  sc_flags : Z
}.

Record send_ctl := CTL {
  sc_mem : gmap Z packet;
  sc_q : queues;
  sc_n : counts;
  sc_a : acked;
  sc_art : art_ctl;
  sc_malo : list bool
}.

Definition PNS_APP : nat := 2.
Definition SC_WAS_QUIET : Z := Z.shiftl 1 6.
Definition SC_LOST_ACK_INIT : Z := Z.shiftl 1 8.
Definition SC_POISON : Z := Z.shiftl 1 17.
Definition SC_ACK_RECV_INIT : Z := Z.shiftl 1 19.
Definition FT_STREAM : Z := Z.shiftl 1 1.       (* 1 << QUIC_FRAME_STREAM *)
Definition FT_ACK : Z := Z.shiftl 1 2.          (* 1 << QUIC_FRAME_ACK *)
Definition FT_PADDING : Z := Z.shiftl 1 3.      (* QUIC_FTBIT_PADDING *)
(** BQUIC_FRAME_REGEN_MASK: ACK, PATH_CHALLENGE, PATH_RESPONSE, STOP_WAITING,
    TIMESTAMP and DATAGRAM. *)
Definition BQUIC_FRAME_REGEN_MASK : Z :=
  Z.lor FT_ACK (Z.lor (Z.shiftl 1 18) (Z.lor (Z.shiftl 1 19) (Z.lor (Z.shiftl 1 9) (Z.lor (Z.shiftl 1 25) (Z.shiftl 1 26))))).

Definition packet_out_total_sz (pk : packet) : Z := po_hdr_sz pk + po_data_sz pk.
Definition packet_out_sent_sz (pk : packet) : Z :=
  if po_has_sent_sz pk then po_sent_sz pk else packet_out_total_sz pk.

(** ** Assignments to fields *)

Definition set_mem (c : send_ctl) (m : gmap Z packet) : send_ctl := CTL m (sc_q c) (sc_n c) (sc_a c) (sc_art c) (sc_malo c).
Definition set_q (c : send_ctl) (q : queues) : send_ctl := CTL (sc_mem c) q (sc_n c) (sc_a c) (sc_art c) (sc_malo c).
Definition set_n (c : send_ctl) (n : counts) : send_ctl := CTL (sc_mem c) (sc_q c) n (sc_a c) (sc_art c) (sc_malo c).
Definition set_a (c : send_ctl) (a : acked) : send_ctl := CTL (sc_mem c) (sc_q c) (sc_n c) a (sc_art c) (sc_malo c).
Definition set_art (c : send_ctl) (a : art_ctl) : send_ctl := CTL (sc_mem c) (sc_q c) (sc_n c) (sc_a c) a (sc_malo c).
Definition set_malo (c : send_ctl) (m : list bool) : send_ctl := CTL (sc_mem c) (sc_q c) (sc_n c) (sc_a c) (sc_art c) m.

Definition get (c : send_ctl) (p : Z) : res packet := need Bug (sc_mem c !! p).
Definition put (c : send_ctl) (p : Z) (pk : packet) : send_ctl := set_mem c (<[p := pk]> (sc_mem c)).

Definition with_where (pk : packet) (sched una lost : bool) : packet :=
  PK (pk_art pk) sched una lost (po_poison pk) (po_mtu_probe pk) (po_hello pk) (po_retx pk) (po_has_sent_sz pk)
     (po_pns pk) (po_sent pk) (po_sent_sz pk) (po_hdr_sz pk) (po_data_sz pk) (po_regen_sz pk) (po_frame_types pk)
     (po_loss_chain pk) (po_feedback_recorded pk) (po_facked pk).
Definition with_chain (pk : packet) (chain : Z) : packet :=
  PK (pk_art pk) (po_sched pk) (po_unacked pk) (po_lost pk) (po_poison pk) (po_mtu_probe pk) (po_hello pk) (po_retx pk)
     (po_has_sent_sz pk) (po_pns pk) (po_sent pk) (po_sent_sz pk) (po_hdr_sz pk) (po_data_sz pk) (po_regen_sz pk)
     (po_frame_types pk) chain (po_feedback_recorded pk) (po_facked pk).
Definition with_art (pk : packet) (a : art_packet) : packet :=
  PK a (po_sched pk) (po_unacked pk) (po_lost pk) (po_poison pk) (po_mtu_probe pk) (po_hello pk) (po_retx pk)
     (po_has_sent_sz pk) (po_pns pk) (po_sent pk) (po_sent_sz pk) (po_hdr_sz pk) (po_data_sz pk) (po_regen_sz pk)
     (po_frame_types pk) (po_loss_chain pk) (po_feedback_recorded pk) (po_facked pk).
Definition with_report (pk : packet) (recorded : Z) (facked : bool) : packet :=
  PK (pk_art pk) (po_sched pk) (po_unacked pk) (po_lost pk) (po_poison pk) (po_mtu_probe pk) (po_hello pk) (po_retx pk)
     (po_has_sent_sz pk) (po_pns pk) (po_sent pk) (po_sent_sz pk) (po_hdr_sz pk) (po_data_sz pk) (po_regen_sz pk)
     (po_frame_types pk) (po_loss_chain pk) recorded facked.
Definition with_data (pk : packet) (retx has_sent : bool) (data_sz regen_sz frame_types : Z) : packet :=
  PK (pk_art pk) (po_sched pk) (po_unacked pk) (po_lost pk) (po_poison pk) (po_mtu_probe pk) (po_hello pk) retx
     has_sent (po_pns pk) (po_sent pk) (po_sent_sz pk) (po_hdr_sz pk) data_sz regen_sz frame_types
     (po_loss_chain pk) (po_feedback_recorded pk) (po_facked pk).

(** The ART fields, one group at a time. *)
Definition art_turn_fields (a : art_packet) (times n_sent retrans_no been fake : Z) : art_packet :=
  AP (po_packno a) times n_sent (po_need_retrans_number a) (po_remained_time a) (po_last_lost_time a)
     (po_expected_sent a) retrans_no been fake (po_loss_rec a).
Definition art_set_detected (a : art_packet) : art_packet :=
  art_turn_fields a (po_retrans_times a) (po_retrans_packet_number a) (po_retrans_no a) 1 (po_fake_loss_rec a).
Definition art_set_fake (a : art_packet) (f : Z) : art_packet :=
  art_turn_fields a (po_retrans_times a) (po_retrans_packet_number a) (po_retrans_no a) (po_been_detect_loss a) f.
Definition art_renumber (a : art_packet) (no retrans_no : Z) : art_packet :=
  AP no (po_retrans_times a) (po_retrans_packet_number a) (po_need_retrans_number a) (po_remained_time a)
     (po_last_lost_time a) (po_expected_sent a) retrans_no (po_been_detect_loss a) (po_fake_loss_rec a) (po_loss_rec a).

(** Adding to counters; [unsigned] arithmetic wraps. *)
Definition add_in_flight (n : counts) (dn db dnr dbr : Z) : counts :=
  CN (u32 (sc_n_in_flight_all n + dn)) (u32 (sc_bytes_unacked_all n + db)) (u32 (sc_n_in_flight_retx n + dnr))
     (u32 (sc_bytes_unacked_retx n + dbr)) (sc_n_scheduled n) (sc_bytes_scheduled n) (sc_lost_packet_number n)
     (sc_loss_count n).
Definition add_sched (n : counts) (dn db : Z) : counts :=
  CN (sc_n_in_flight_all n) (sc_bytes_unacked_all n) (sc_n_in_flight_retx n) (sc_bytes_unacked_retx n)
     (u32 (sc_n_scheduled n + dn)) (u32 (sc_bytes_scheduled n + db)) (sc_lost_packet_number n) (sc_loss_count n).
Definition add_lost (n : counts) (d dloss : Z) : counts :=
  CN (sc_n_in_flight_all n) (sc_bytes_unacked_all n) (sc_n_in_flight_retx n) (sc_bytes_unacked_retx n)
     (sc_n_scheduled n) (sc_bytes_scheduled n) (u32 (sc_lost_packet_number n + d)) (u32 (sc_loss_count n + dloss)).

Definition set_flags (c : send_ctl) (f : Z) : send_ctl :=
  let a := sc_a c in
  set_a c (AK (sc_largest_acked_packno a) (sc_largest_acked_sent_time a) (sc_reord_thresh a) (sc_loss_to a)
              (sc_largest_sent_at_cutback a) (sh_last_sent a) (sc_gap a) f).
Definition or_flag (c : send_ctl) (f : Z) : send_ctl := set_flags c (Z.lor (sc_flags (sc_a c)) f).
Definition clear_flag (c : send_ctl) (f : Z) : send_ctl := set_flags c (Z.ldiff (sc_flags (sc_a c)) f).
Definition set_loss_to (c : send_ctl) (t : Z) : send_ctl :=
  let a := sc_a c in
  set_a c (AK (sc_largest_acked_packno a) (sc_largest_acked_sent_time a) (sc_reord_thresh a) t
              (sc_largest_sent_at_cutback a) (sh_last_sent a) (sc_gap a) (sc_flags a)).
Definition set_acked (c : send_ctl) (no sent : Z) : send_ctl :=
  let a := sc_a c in
  set_a c (AK no sent (sc_reord_thresh a) (sc_loss_to a)
              (sc_largest_sent_at_cutback a) (sh_last_sent a) (sc_gap a) (sc_flags a)).
Definition set_hist (c : send_ctl) (cutback last gap : Z) : send_ctl :=
  let a := sc_a c in
  set_a c (AK (sc_largest_acked_packno a) (sc_largest_acked_sent_time a) (sc_reord_thresh a) (sc_loss_to a)
              cutback last gap (sc_flags a)).
Definition set_thresh (c : send_ctl) (t : Z) : send_ctl :=
  let a := sc_a c in
  set_a c (AK (sc_largest_acked_packno a) (sc_largest_acked_sent_time a) t (sc_loss_to a)
              (sc_largest_sent_at_cutback a) (sh_last_sent a) (sc_gap a) (sc_flags a)).

(** ** Queues *)

Definition unacked (c : send_ctl) (pns : nat) : list Z := default [] (sc_unacked_packets (sc_q c) !! pns).

Definition set_unacked (c : send_ctl) (pns : nat) (l : list Z) : send_ctl :=
  set_q c (QS (<[pns := l]> (sc_unacked_packets (sc_q c))) (sc_lost_packets (sc_q c)) (sc_scheduled_packets (sc_q c))).
Definition set_lost (c : send_ctl) (l : list Z) : send_ctl :=
  set_q c (QS (sc_unacked_packets (sc_q c)) l (sc_scheduled_packets (sc_q c))).
Definition set_sched (c : send_ctl) (l : list Z) : send_ctl :=
  set_q c (QS (sc_unacked_packets (sc_q c)) (sc_lost_packets (sc_q c)) l).

(** [TAILQ_REMOVE]; undefined unless the element is on the queue. *)
Definition tailq_remove (p : Z) (l : list Z) : res (list Z) :=
  if bool_decide (p ∈ l) then Ok (filter (.≠ p) l) else Fault Bug.

Fixpoint tailq_next (p : Z) (l : list Z) : option Z :=
  match l with
  | [] => None
  | x :: l => if x =? p then head l else tailq_next p l
  end.

(** [TAILQ_INSERT_BEFORE]. *)
Fixpoint tailq_insert_before (p new : Z) (l : list Z) : list Z :=
  match l with
  | [] => []
  | x :: l => if x =? p then new :: x :: l else x :: tailq_insert_before p new l
  end.

Definition malo_get (c : send_ctl) : bool * send_ctl := (hd true (sc_malo c), set_malo c (tl (sc_malo c))).

(** The address of a new packet: one that is not in use. *)
Definition new_ptr (m : gmap Z packet) : Z := fresh ((map_to_list m).*1).

(** Recording feedback takes memory only while the window grows. *)
Definition ctl_record_feedback (c : send_ctl) (value : Z) : res send_ctl :=
  if sc_largest_feedback_window (sc_art c) <=? sc_feedback_window_size (sc_art c) then
    a ← need Bug (record_feedback true (sc_art c) value); Ok (set_art c a)
  else
    let '(ok, c) := malo_get c in
    a ← need NoMemory (record_feedback ok (sc_art c) value); Ok (set_art c a).

Definition N_NACKS_BEFORE_RETX : Z := 3.

(** The state after [lsquic_send_ctl_init]; [last_sent] is what
    [lsquic_senhist_init] sets, [malo] the allocations to come. *)
Definition lsquic_send_ctl_init (flags last_sent : Z) (malo : list bool) : send_ctl :=
  CTL ∅ (QS [[]; []; []] [] []) (CN 0 0 0 0 0 0 0 0) (AK 0 0 N_NACKS_BEFORE_RETX 0 0 last_sent (2 ^ 64 - 2) flags)
      art_init malo.

Section ctl.
Context (sc_retx_frames srtt min_rtt : Z) (env : Z -> Z * Z).

Definition is_retx (pk : packet) : bool := has_flag (po_frame_types pk) sc_retx_frames.

(** ** Moving packets between queues *)

Definition send_ctl_unacked_append (c : send_ctl) (p : Z) : res send_ctl :=
  pk ← get c p;
  _ ← check (negb (is_loss_rec pk || po_poison pk));
  let c := set_unacked c (po_pns pk) (unacked c (po_pns pk) ++ [p]) in
  let c := put c p (with_where pk (po_sched pk) true (po_lost pk)) in
  Ok (set_n c (add_in_flight (sc_n c) 1 (packet_out_sent_sz pk)
    (if is_retx pk then 1 else 0) (if is_retx pk then packet_out_total_sz pk else 0))).

Definition send_ctl_unacked_remove (c : send_ctl) (p packet_sz : Z) : res send_ctl :=
  pk ← get c p;
  q ← tailq_remove p (unacked c (po_pns pk));
  let c := set_unacked c (po_pns pk) q in
  let c := put c p (with_where pk (po_sched pk) false (po_lost pk)) in
  _ ← check (packet_sz <=? sc_bytes_unacked_all (sc_n c));
  Ok (set_n c (add_in_flight (sc_n c) (-1) (- packet_sz)
    (if is_retx pk then -1 else 0) (if is_retx pk then - packet_sz else 0))).

Definition send_ctl_sched_Xpend_common (c : send_ctl) (p : Z) : res send_ctl :=
  pk ← get c p;
  let c := put c p (with_where pk true (po_unacked pk) (po_lost pk)) in
  Ok (set_n c (add_sched (sc_n c) 1 (packet_out_total_sz pk))).

Definition send_ctl_sched_append (c : send_ctl) (p : Z) : res send_ctl :=
  send_ctl_sched_Xpend_common (set_sched c (sc_scheduled_packets (sc_q c) ++ [p])) p.

Definition send_ctl_sched_prepend (c : send_ctl) (p : Z) : res send_ctl :=
  send_ctl_sched_Xpend_common (set_sched c (p :: sc_scheduled_packets (sc_q c))) p.

Definition send_ctl_sched_remove (c : send_ctl) (p : Z) : res send_ctl :=
  pk ← get c p;
  q ← tailq_remove p (sc_scheduled_packets (sc_q c));
  let c := set_sched c q in
  let c := put c p (with_where pk false (po_unacked pk) (po_lost pk)) in
  _ ← check (negb (sc_n_scheduled (sc_n c) =? 0));
  Ok (set_n c (add_sched (sc_n c) (-1) (- packet_out_total_sz pk))).

(** Freeing the packet; its frame records go with it. *)
Definition send_ctl_destroy_packet (c : send_ctl) (p : Z) : res send_ctl :=
  _ ← get c p; Ok (set_mem c (delete p (sc_mem c))).

(** ** Loss chains *)

(** A fake loss record counts as a packet in flight. *)
Definition fake_leaves (c : send_ctl) (pk : packet) : send_ctl :=
  if fake pk =? 1 then set_n c (add_in_flight (sc_n c) (-1) (- po_sent_sz pk) 0 0) else c.

(** The switch in the loop of [send_ctl_destroy_chain]: take the packet off the
    queue it is on.  [send_ctl_maybe_renumber_sched_to_right] only concerns
    packet numbers. *)
Definition leave_queue (c : send_ctl) (pns : nat) (cur : Z) (pk : packet) : res send_ctl :=
  match po_sched pk, po_unacked pk, po_lost pk with
  | true, false, false => send_ctl_sched_remove c cur
  | false, true, false =>
    if is_loss_rec pk then
      q ← tailq_remove cur (unacked c pns);
      Ok (set_unacked (fake_leaves c pk) pns q)
    else send_ctl_unacked_remove c cur (packet_out_sent_sz pk)
  | false, false, true =>
    q ← tailq_remove cur (sc_lost_packets (sc_q c));
    Ok (set_n (set_lost c q) (add_lost (sc_n c) (-1) 0))
  | false, false, false => Ok c
  | _, _, _ => Fault Bug
  end.

(** One round of the loop: off the queue, [next] advanced past it, freed.
    [next], read after the removal in the code, is where the removed element's
    link still points. *)
Definition destroy_link (c : send_ctl) (pns : nat) (cur : Z) (next : option Z) : res (send_ctl * option Z) :=
  pk ← get c cur;
  let next' := if bool_decide (next = Some cur) then tailq_next cur (unacked c pns) else next in
  c ← leave_queue c pns cur pk;
  c ← send_ctl_destroy_packet c cur;
  Ok (c, next').

Fixpoint destroy_loop (fuel : nat) (c : send_ctl) (pns : nat) (p cur : Z) (next : option Z)
    : res (send_ctl * option Z) :=
  match fuel with
  | O => Fault Bug
  | S fuel =>
    if cur =? p then Ok (c, next) else
    pk ← get c cur;
    '(c, next) ← destroy_link c pns cur next;
    destroy_loop fuel c pns p (po_loss_chain pk) next
  end.

(** The chain has at most as many links as there are packets. *)
Definition send_ctl_destroy_chain (c : send_ctl) (p : Z) (next : option Z) : res (send_ctl * option Z) :=
  pk ← get c p;
  '(c, next) ← destroy_loop (S (size (sc_mem c))) c (po_pns pk) p (po_loss_chain pk) next;
  pk ← get c p;
  Ok (put c p (with_chain pk p), next).

(** The fields a loss record copies from the packet. *)
Definition loss_record_of (pk : packet) : packet :=
  let a := pk_art pk in
  PK (AP (po_packno a) (po_retrans_times a) (po_retrans_packet_number a) 0 0 0 0 (po_retrans_no a)
         (po_been_detect_loss a) (po_fake_loss_rec a) true)
     false true false false false false false true (po_pns pk) (po_sent pk) (packet_out_sent_sz pk)
     0 0 0 (po_frame_types pk) (po_loss_chain pk) 0 false.

Definition send_ctl_record_loss (c : send_ctl) (p : Z) : res (send_ctl * option Z) :=
  pk ← get c p;
  let '(ok, c) := malo_get c in
  if ok then
    let r := new_ptr (sc_mem c) in
    let c := put (put c r (loss_record_of pk)) p (with_chain pk r) in
    let c := set_unacked c (po_pns pk) (tailq_insert_before p r (unacked c (po_pns pk))) in
    let c := if fake pk =? 1
             then set_n c (add_in_flight (sc_n c) 1 (packet_out_sent_sz pk) 0 0) else c in
    Ok (c, Some r)
  else Ok (c, None).

(** The last duplicate of the turn was sent, or there is no turn. *)
Definition turn_over (a : art_packet) : bool :=
  (po_fake_loss_rec a =? 0) || (po_need_retrans_number a <=? po_retrans_packet_number a).

(** The first packet of the chain that is not a loss record. *)
Fixpoint chain_data_packet (fuel : nat) (c : send_ctl) (p cur : Z) : res Z :=
  match fuel with
  | O => Fault Bug
  | S fuel =>
    if cur =? p then Fault Bug else
    pk ← get c cur;
    if is_loss_rec pk then chain_data_packet fuel c p (po_loss_chain pk) else Ok cur
  end.

(** A loss record that is lost: its turn passes to the packet of its chain. *)
Definition lost_loss_record (c : send_ctl) (p : Z) (pk : packet) : res (send_ctl * option Z * Z) :=
  let c := set_n c (add_in_flight (sc_n c) (-1) (- po_sent_sz pk) 0 0) in
  let c := put c p (with_art pk (art_set_fake (pk_art pk) 0)) in
  d ← chain_data_packet (S (size (sc_mem c))) c p (po_loss_chain pk);
  dk ← get c d;
  '(c, r) ← (if po_lost dk then Ok (c, Some p) else send_ctl_record_loss c d);
  dk ← get c d;
  Ok (put c d (with_art dk (art_turn_fields (pk_art dk) (po_retrans_times (pk_art pk)) 0
                              (po_retrans_no (pk_art pk)) 1 0)), r, d).

(** Lines of [send_ctl_handle_regular_lost_packet] for STREAM packets. *)
Definition lost_stream (c : send_ctl) (p : Z) : res send_ctl :=
  pk ← get c p;
  if negb (po_frame_types pk =? FT_PADDING) && has_flag (po_frame_types pk) FT_STREAM then
    '(art, a) ← need Rounds (art_handle_lost (sc_art c) (pk_art pk) min_rtt (env p).1 (env p).2);
    Ok (set_art (put c p (with_art pk a)) art)
  else Ok c.

(** Onto the lost queue. *)
Definition lost_append (c : send_ctl) (p packet_sz : Z) : res send_ctl :=
  pk ← get c p;
  if po_lost pk then Ok c else
  c ← send_ctl_unacked_remove c p packet_sz;
  pk ← get c p;
  let c := set_lost c (sc_lost_packets (sc_q c) ++ [p]) in
  let c := set_n c (add_lost (sc_n c) 1 0) in
  Ok (put c p (with_where pk (po_sched pk) (po_unacked pk) true)).

(** Counting the loss, once per turn. *)
Definition lost_count (c : send_ctl) (pk : packet) : send_ctl :=
  if turn_over (pk_art pk) then
    let c := set_n c (add_lost (sc_n c) 0 1) in
    if has_flag (po_frame_types pk) FT_ACK
    then or_flag c (Z.shiftl SC_LOST_ACK_INIT (Z.of_nat (po_pns pk))) else c
  else c.

(** Returns the state, the loss record and [next]. *)
Definition send_ctl_handle_regular_lost_packet (c : send_ctl) (p : Z) (next : option Z)
    : res (send_ctl * option Z * option Z) :=
  pk ← get c p;
  _ ← check (negb (sc_n_in_flight_all (sc_n c) =? 0));
  let packet_sz := packet_out_sent_sz pk in
  let c := lost_count c pk in
  if is_retx pk then
    '(c, r, p) ← (if is_loss_rec pk then lost_loss_record c p pk
                  else '(c, r) ← send_ctl_record_loss c p; Ok (c, r, p));
    c ← lost_append c p packet_sz;
    c ← lost_stream c p;
    Ok (c, r, next)
  else
    c ← send_ctl_unacked_remove c p packet_sz;
    '(c, next) ← send_ctl_destroy_chain c p next;
    c ← send_ctl_destroy_packet c p;
    Ok (c, None, next).

Definition send_ctl_handle_lost_mtu_probe (c : send_ctl) (p : Z) : res send_ctl :=
  pk ← get c p;
  c ← send_ctl_unacked_remove c p (packet_out_sent_sz pk);
  pk ← get c p;
  _ ← check (po_loss_chain pk =? p);
  send_ctl_destroy_packet c p.

Definition send_ctl_handle_lost_packet (c : send_ctl) (p : Z) (next : option Z) : res (send_ctl * option Z) :=
  pk ← get c p;
  if po_mtu_probe pk then c ← send_ctl_handle_lost_mtu_probe c p; Ok (c, next)
  else '(c, _, next) ← send_ctl_handle_regular_lost_packet c p next; Ok (c, next).

(** ** Loss detection *)

Definition plain_retx (c : send_ctl) (p : Z) : bool :=
  match sc_mem c !! p with
  | Some pk => negb (is_loss_rec pk || po_poison pk) && is_retx pk
  | None => false
  end.

Definition send_ctl_last_unacked_retx_packet (c : send_ctl) (pns : nat) : option Z :=
  last (filter (fun p => plain_retx c p = true) (unacked c pns)).

Definition largest_retx_packet_number (c : send_ctl) (pns : nat) : Z :=
  match send_ctl_last_unacked_retx_packet c pns ≫= fun p => sc_mem c !! p with
  | Some pk => packno pk
  | None => 0
  end.

(** A duplicate that was detected as lost is reported once. *)
Definition report_lost_duplicate (c : send_ctl) (p : Z) (pk : packet) : res send_ctl :=
  if (fake pk =? 1) && (po_feedback_recorded pk =? 0) then
    c ← ctl_record_feedback c 1;
    Ok (put c p (with_report pk 1 (po_facked pk)))
  else Ok c.

(** The three criteria, in the order of the tests. *)
Inductive verdict := Kept | ByFack | ByEarly | ByTime.

Definition lost_verdict (a : acked) (largest_retx : Z) (pk : packet) : verdict :=
  if po_poison pk then Kept
  else if u64 (packno pk + sc_reord_thresh a) <? sc_largest_acked_packno a then ByFack
  else if negb (largest_retx =? 0) && is_retx pk && negb (po_mtu_probe pk)
          && (largest_retx <=? sc_largest_acked_packno a) then ByEarly
  else if u64 (po_sent pk + srtt) <? sc_largest_acked_sent_time a then ByTime
  else Kept.

Definition mark_detected (c : send_ctl) (p : Z) (pk : packet) : send_ctl :=
  put c p (with_art pk (art_set_detected (pk_art pk))).

Definition set_facked (c : send_ctl) (r : option Z) : res send_ctl :=
  match r with
  | Some r => rk ← get c r; Ok (put c r (with_report rk (po_feedback_recorded rk) true))
  | None => Ok c
  end.

(** One round of the loop; [lost] is [largest_lost_packno]. *)
Definition detect_step (largest_retx : Z) (c : send_ctl) (p : Z) (next : option Z) (lost : Z)
    : res (send_ctl * option Z * Z) :=
  pk ← get c p;
  let handled := negb (po_lost pk) && turn_over (pk_art pk) in
  match lost_verdict (sc_a c) largest_retx pk with
  | Kept => Ok (c, next, lost)
  | v =>
    if is_loss_rec pk then c ← report_lost_duplicate c p pk; Ok (c, next, lost) else
    match v with
    | ByFack =>
      if po_mtu_probe pk then c ← send_ctl_handle_lost_mtu_probe c p; Ok (c, next, lost)
      else if handled then
        '(c, r, next) ← send_ctl_handle_regular_lost_packet (mark_detected c p pk) p next;
        c ← set_facked c r;
        Ok (c, next, packno pk)
      else Ok (c, next, packno pk)
    | ByEarly =>
      let c := set_loss_to c (srtt / 4) in
      if handled then
        '(c, next) ← send_ctl_handle_lost_packet (mark_detected c p pk) p next;
        Ok (c, next, packno pk)
      else Ok (c, next, packno pk)
    | _ =>
      let lost := if is_retx pk && negb (po_mtu_probe pk) then packno pk else lost in
      if handled then
        '(c, next) ← send_ctl_handle_lost_packet (mark_detected c p pk) p next;
        Ok (c, next, lost)
      else Ok (c, next, lost)
    end
  end.

Fixpoint detect_loop (fuel : nat) (pns : nat) (largest_retx : Z) (c : send_ctl) (cur : option Z) (lost : Z)
    : res (send_ctl * Z) :=
  match cur with
  | None => Ok (c, lost)
  | Some p =>
    pk ← get c p;
    if sc_largest_acked_packno (sc_a c) <? packno pk then Ok (c, lost) else
    match fuel with
    | O => Fault Bug
    | S fuel =>
      '(c, next, lost) ← detect_step largest_retx c p (tailq_next p (unacked c pns)) lost;
      detect_loop fuel pns largest_retx c next lost
    end
  end.

(** What [send_ctl_loss_event] does to this state. *)
Definition send_ctl_loss_event (c : send_ctl) : send_ctl :=
  set_hist c (sh_last_sent (sc_a c)) (sh_last_sent (sc_a c)) (sc_gap (sc_a c)).

(** Every round moves one element further: as much fuel as elements. *)
Definition send_ctl_detect_losses (c : send_ctl) (pns : nat) : res (send_ctl * bool) :=
  let largest_retx := largest_retx_packet_number c pns in
  let c := set_loss_to c 0 in
  '(c, lost) ← detect_loop (length (unacked c pns)) pns largest_retx c (head (unacked c pns)) 0;
  let c := if sc_largest_sent_at_cutback (sc_a c) <? lost then send_ctl_loss_event c else c in
  Ok (c, sc_largest_sent_at_cutback (sc_a c) <? lost).

(** ** Acknowledgements *)

Definition send_ctl_maybe_increase_reord_thresh (c : send_ctl) (rk : packet) (prev_largest_acked : Z) : send_ctl :=
  if po_facked rk && (u64 (packno rk + sc_reord_thresh (sc_a c)) <? prev_largest_acked)
  then set_thresh c (u32 (prev_largest_acked - packno rk)) else c.

(** [range], moved to the first range that does not end below the packet; the
    ranges that are left are kept lowest first. *)
Fixpoint range_advance (rs : list (Z * Z)) (no : Z) : list (Z * Z) :=
  match rs with
  | r :: rs' => if r.2 <? no then range_advance rs' no else rs
  | [] => []
  end.

(** What happens to an acknowledged packet before its chain is destroyed; the
    flag is false when it is a poisoned packet. *)
Definition ack_packet (c : send_ctl) (pns : nat) (p : Z) (pk : packet) (prev_largest_acked : Z)
    : res (send_ctl * bool) :=
  let c := set_acked c (packno pk) (po_sent pk) in
  c ← (if fake pk =? 1 then ctl_record_feedback c 0 else Ok c);
  if is_loss_rec pk then
    let c := fake_leaves c pk in
    q ← tailq_remove p (unacked c pns);
    let c := set_unacked c pns q in
    Ok (send_ctl_maybe_increase_reord_thresh c pk prev_largest_acked, true)
  else if po_poison pk && negb (po_mtu_probe pk) then Ok (c, false)
  else c ← send_ctl_unacked_remove c p (packet_out_sent_sz pk); Ok (c, true).

(** The loop of [lsquic_send_ctl_got_ack]; the flag returned is false when a
    poisoned packet was acknowledged. *)
Fixpoint got_ack_loop (fuel : nat) (c : send_ctl) (pns : nat) (rs : list (Z * Z)) (skip_checks : bool)
    (largest prev_largest_acked : Z) (p : Z) : res (send_ctl * bool) :=
  match fuel with
  | O => Fault Bug
  | S fuel =>
    pk ← get c p;
    let next := tailq_next p (unacked c pns) in
    let continue c rs skip next :=
      match next with
      | Some p =>
        pk ← get c p;
        if packno pk <=? largest then got_ack_loop fuel c pns rs skip largest prev_largest_acked p
        else Ok (c, true)
      | None => Ok (c, true)
      end in
    let rs := if skip_checks then rs else range_advance rs (packno pk) in
    r ← need Bug (head rs);
    if skip_checks || (r.1 <=? packno pk) then
      '(c, ok) ← ack_packet c pns p pk prev_largest_acked;
      if negb ok then Ok (c, false) else
      '(c, next) ← send_ctl_destroy_chain c p next;
      c ← send_ctl_destroy_packet c p;
      continue c rs (Nat.eqb (length rs) 1) next
    else continue c rs false next
  end.

Definition is_poison (c : send_ctl) (p : Z) : bool :=
  match sc_mem c !! p with Some pk => po_poison pk | None => false end.

(** [send_ctl_reschedule_poison] with [lsquic_send_ctl_begin_optack_detection];
    [gap] is the number that the latter picks. *)
Definition send_ctl_reschedule_poison (c : send_ctl) (gap : Z) : res send_ctl :=
  match head (filter (fun p => is_poison c p = true) (unacked c PNS_APP)) with
  | Some p =>
    q ← tailq_remove p (unacked c PNS_APP);
    let c := set_unacked c PNS_APP q in
    c ← send_ctl_destroy_packet c p;
    let c := set_hist c (sc_largest_sent_at_cutback (sc_a c)) (sh_last_sent (sc_a c)) gap in
    Ok (clear_flag c SC_POISON)
  | None => Ok c
  end.

(** From the label [update_n_stop_waiting]. *)
Definition got_ack_finish (c : send_ctl) (smallest_acked gap : Z) : res (send_ctl * Z) :=
  if sc_gap (sc_a c) <? smallest_acked then c ← send_ctl_reschedule_poison c gap; Ok (c, 0) else Ok (c, 0).

(** [ranges] are those of the ACK frame, highest first; [ce] says that its ECN
    counts show new CE marks; [gap] is the number a new poisoned packet would
    get.  Returns the code's 0 or -1.  RTT samples, the ECN counters themselves
    and the STOP_WAITING counter are left out. *)
Definition lsquic_send_ctl_got_ack (c : send_ctl) (pns : nat) (ranges : list (Z * Z)) (ce : bool) (gap : Z)
    : res (send_ctl * Z) :=
  let c := or_flag c (Z.shiftl SC_ACK_RECV_INIT (Z.of_nat pns)) in
  hi ← need Bug (head ranges);
  lo ← need Bug (last ranges);
  if sh_last_sent (sc_a c) <? hi.2 then Ok (c, -1) else
  let c := clear_flag c SC_WAS_QUIET in
  match head (unacked c pns) with
  | None => got_ack_finish (or_flag c SC_WAS_QUIET) lo.1 gap
  | Some p =>
    pk ← get c p;
    '(c, ok) ← (if hi.2 <? packno pk then Ok (c, true)
                else got_ack_loop (length (unacked c pns)) c pns (rev ranges) false hi.2
                                  (sc_largest_acked_packno (sc_a c)) p);
    if negb ok then Ok (c, -1) else
    '(c, losses_detected) ← send_ctl_detect_losses c pns;
    let c := if sc_n_in_flight_retx (sc_n c) =? 0 then or_flag c SC_WAS_QUIET else c in
    let c := if ce && negb losses_detected then send_ctl_loss_event c else c in
    got_ack_finish c lo.1 gap
  end.

(** ** Expiry and duplicates *)

(** A walk over the unacked queue that hands the packets that [pick] selects to
    [handle]. *)
Fixpoint lost_walk (pick : Z -> packet -> bool) (handle : send_ctl -> Z -> option Z -> res (send_ctl * option Z))
    (fuel : nat) (c : send_ctl) (pns : nat) (cur : option Z) : res send_ctl :=
  match cur with
  | None => Ok c
  | Some p =>
    match fuel with
    | O => Fault Bug
    | S fuel =>
      pk ← get c p;
      let next := tailq_next p (unacked c pns) in
      '(c, next) ← (if pick p pk then handle c p next else Ok (c, next));
      lost_walk pick handle fuel c pns next
    end
  end.

Definition walk_unacked (pick : Z -> packet -> bool) (handle : send_ctl -> Z -> option Z -> res (send_ctl * option Z))
    (c : send_ctl) (pns : nat) : res send_ctl :=
  lost_walk pick handle (length (unacked c pns)) c pns (head (unacked c pns)).

Inductive expire_filter := EXFI_ALL | EXFI_HSK | EXFI_LAST.

Definition send_ctl_expire (c : send_ctl) (pns : nat) (f : expire_filter) : res send_ctl :=
  match f with
  | EXFI_ALL => walk_unacked (fun _ pk => negb (is_loss_rec pk || po_poison pk)) send_ctl_handle_lost_packet c pns
  | EXFI_HSK => walk_unacked (fun _ pk => po_hello pk) send_ctl_handle_lost_packet c pns
  | EXFI_LAST =>
    match send_ctl_last_unacked_retx_packet c pns with
    | Some p => '(c, _) ← send_ctl_handle_lost_packet c p None; Ok c
    | None => Ok c
    end
  end.

(** The packets [art_schedule] sends duplicates of. *)
Definition art_pick (p : Z) (pk : packet) : bool :=
  has_flag (po_frame_types pk) FT_STREAM && art_due (pk_art pk) (env p).1.

Definition art_handle (c : send_ctl) (p : Z) (next : option Z) : res (send_ctl * option Z) :=
  '(c, _, next) ← send_ctl_handle_regular_lost_packet c p next; Ok (c, next).

Fixpoint art_spaces (c : send_ctl) (spaces : list nat) : res send_ctl :=
  match spaces with
  | [] => Ok c
  | pns :: spaces => c ← walk_unacked art_pick art_handle c pns; art_spaces c spaces
  end.

Definition art_schedule (c : send_ctl) : res send_ctl :=
  let temp_inflight := sc_n_in_flight_all (sc_n c) in
  c ← art_spaces c (seq 0 3);
  _ ← check_flight (sc_n_in_flight_all (sc_n c) =? temp_inflight);
  Ok c.

(** ** Sending *)

Definition lsquic_senhist_add (c : send_ctl) (no : Z) : send_ctl :=
  if i64 (sh_last_sent (sc_a c)) <? i64 no
  then set_hist c (sc_largest_sent_at_cutback (sc_a c)) no (sc_gap (sc_a c)) else c.

(** The poisoned packet is otherwise all zero, its packet number space too. *)
Definition poison_packet (no self : Z) : packet :=
  PK (AP no 0 0 0 0 0 0 0 0 0 false) false true false true false false false false 0 0 0 0 0 0 0 self 0 false.

(** The flag is false when no memory is left. *)
Definition send_ctl_add_poison (c : send_ctl) : send_ctl * bool :=
  let '(ok, c) := malo_get c in
  if ok then
    let r := new_ptr (sc_mem c) in
    let c := put c r (poison_packet (sc_gap (sc_a c)) r) in
    (or_flag (set_unacked c PNS_APP (unacked c PNS_APP ++ [r])) SC_POISON, true)
  else (c, false).

Definition send_ctl_update_poison_hist (c : send_ctl) (no : Z) : res (send_ctl * bool) :=
  if no =? u64 (sc_gap (sc_a c) + 1) then
    _ ← check (negb (has_flag (sc_flags (sc_a c)) SC_POISON));
    Ok (send_ctl_add_poison (lsquic_senhist_add c (sc_gap (sc_a c))))
  else Ok (c, true).

Definition lsquic_send_ctl_sent_packet (c : send_ctl) (p : Z) : res (send_ctl * Z) :=
  pk ← get c p;
  '(c, ok) ← send_ctl_update_poison_hist c (packno pk);
  if negb ok then Ok (c, -1) else
  let c := lsquic_senhist_add c (packno pk) in
  c ← send_ctl_unacked_append c p;
  let c := if is_retx pk && (sc_n_in_flight_retx (sc_n c) =? 1) then or_flag c SC_WAS_QUIET else c in
  Ok (c, 0).

(** A new packet, with the frames [pk] that were written into it. *)
Definition lsquic_send_ctl_new_packet_out (c : send_ctl) (pk : packet) : send_ctl * option Z :=
  let '(ok, c) := malo_get c in
  if ok then let p := new_ptr (sc_mem c) in (put c p (with_chain pk p), Some p) else (c, None).

(** Off the lost queue, at the label [pop_lost_packet]. *)
Definition pop_lost_packet (c : send_ctl) (p : Z) : res send_ctl :=
  pk ← get c p;
  q ← tailq_remove p (sc_lost_packets (sc_q c));
  let c := set_n (set_lost c q) (add_lost (sc_n c) (-1) 0) in
  Ok (put c p (with_data (with_where pk (po_sched pk) (po_unacked pk) false) true (po_has_sent_sz pk)
                         (po_data_sz pk) (po_regen_sz pk) (po_frame_types pk))).

(** A lost packet of which elision leaves nothing, in [send_ctl_next_lost]:
    after it is freed, [po_fake_loss_rec] is read. *)
Definition drop_lost_packet (c : send_ctl) (p : Z) : res send_ctl :=
  pk ← get c p;
  q ← tailq_remove p (sc_lost_packets (sc_q c));
  let c := set_n (set_lost c q) (add_lost (sc_n c) (-1) 0) in
  let c := put c p (with_where pk (po_sched pk) (po_unacked pk) false) in
  let packet_sz := packet_out_sent_sz pk in
  '(c, _) ← send_ctl_destroy_chain c p None;
  c ← send_ctl_destroy_packet c p;
  pk ← get c p;
  Ok (if fake pk =? 1 then set_n c (add_in_flight (sc_n c) (-1) (- packet_sz) 0 0) else c).

(** [regen_sz] is what is left to chop; [no] is the new packet number. *)
Definition update_for_resending (c : send_ctl) (p no : Z) : res send_ctl :=
  pk ← get c p;
  let ft := Z.ldiff (po_frame_types pk) BQUIC_FRAME_REGEN_MASK in
  _ ← check (negb (ft =? 0));
  _ ← check (po_regen_sz pk <? po_data_sz pk);
  let c := if po_sched pk then set_n c (add_sched (sc_n c) 0 (- po_regen_sz pk)) else c in
  let a := pk_art pk in
  Ok (put c p (with_data (with_art pk (art_renumber a no (po_retrans_no a))) (po_retx pk) false
                         (po_data_sz pk - po_regen_sz pk) 0 ft)).

(** One round of [lsquic_send_ctl_reschedule_packets] for the lost packet [p]. *)
Definition reschedule_one (c : send_ctl) (p no : Z) : res send_ctl :=
  c ← pop_lost_packet c p;
  pk ← get c p;
  let old := if po_retrans_no (pk_art pk) =? 0 then packno pk else po_retrans_no (pk_art pk) in
  c ← update_for_resending c p no;
  pk ← get c p;
  let c := put c p (with_art pk (art_renumber (pk_art pk) no old)) in
  send_ctl_sched_append c p.

(** ** The consistency check *)

(** One queue of [lsquic_send_ctl_do_sanity_check]: [prev] is the packet number
    of the first packet, which the loop does not update. *)
Fixpoint sanity_queue (m : gmap Z packet) (l : list Z) (prev : option Z) (count bytes : Z) : option (Z * Z) :=
  match l with
  | [] => Some (count, bytes)
  | p :: l =>
    pk ← m !! p;
    if (if prev is Some n then negb (n <? packno pk) else false) then None else
    let prev := if prev is Some n then Some n else Some (packno pk) in
    if is_loss_rec pk || po_poison pk then sanity_queue m l prev count bytes
    else sanity_queue m l prev (u32 (count + 1)) (u32 (bytes + packet_out_sent_sz pk))
  end.

Fixpoint sanity_sched (m : gmap Z packet) (l : list Z) (count bytes : Z) : option (Z * Z) :=
  match l with
  | [] => Some (count, bytes)
  | p :: l =>
    pk ← m !! p;
    if po_sched pk then sanity_sched m l (u32 (count + 1)) (u32 (bytes + packet_out_total_sz pk)) else None
  end.

(** Whether all assertions hold. *)
Definition lsquic_send_ctl_do_sanity_check (c : send_ctl) : bool :=
  match ('(n, b) ← sanity_queue (sc_mem c) (unacked c 0) None 0 0;
         '(n, b) ← sanity_queue (sc_mem c) (unacked c 1) None n b;
         sanity_queue (sc_mem c) (unacked c 2) None n b),
        sanity_sched (sc_mem c) (sc_scheduled_packets (sc_q c)) 0 0 with
  | Some (n, b), Some (n', b') =>
    (n =? sc_n_in_flight_all (sc_n c)) && (b =? sc_bytes_unacked_all (sc_n c))
    && (n' =? sc_n_scheduled (sc_n c)) && (b' =? sc_bytes_scheduled (sc_n c))
  | _, _ => false
  end.

End ctl.
