(* ===== verification/SendCtlSpec.v ===== *)
(** The invariant of the send controller of SendCtl.v and its preservation by
    the primitive operations on queues and loss chains. *)
From stdpp Require Import gmap sorting.
From S2P Require Import Prelude Art SendCtl.
Local Open Scope Z_scope.

(** ** Sums over the packets in memory *)

Definition msum (f : packet -> Z) (m : gmap Z packet) : Z := map_fold (fun _ pk a => f pk + a) 0 m.

Lemma msum_insert f m p pk : m !! p = None -> msum f (<[p := pk]> m) = f pk + msum f m.
Proof. intros. unfold msum. rewrite map_fold_insert_L; [done| |done]. intros. lia. Qed.

Lemma msum_delete f m p pk : m !! p = Some pk -> msum f (delete p m) = msum f m - f pk.
Proof.
  intros H. rewrite <- (insert_delete_id m p pk H) at 2.
  rewrite msum_insert by apply lookup_delete_eq. lia.
Qed.

Lemma msum_update f m p pk pk' : m !! p = Some pk -> msum f (<[p := pk']> m) = msum f m - f pk + f pk'.
Proof.
  intros H. rewrite <- insert_delete_eq, msum_insert by apply lookup_delete_eq.
  rewrite (msum_delete _ _ _ _ H). lia.
Qed.

Lemma msum_nonneg f m : (forall p pk, m !! p = Some pk -> 0 <= f pk) -> 0 <= msum f m.
Proof.
  induction m as [|p pk m Hp IH] using map_ind; intros H; [done|].
  rewrite msum_insert by done. assert (0 <= f pk) by (apply (H p); apply lookup_insert_eq).
  assert (0 <= msum f m); [|lia]. apply IH. intros q qk Hq. apply (H q).
  rewrite lookup_insert_ne; [done|]. intros ->. congruence.
Qed.

Lemma msum_ge f m p pk :
  (forall p pk, m !! p = Some pk -> 0 <= f pk) -> m !! p = Some pk -> f pk <= msum f m.
Proof.
  intros H Hp. pose proof (msum_delete f m p pk Hp).
  assert (0 <= msum f (delete p m)); [|lia]. apply msum_nonneg. intros q qk [_ Hq]%lookup_delete_Some. eauto.
Qed.

(** ** What the counters count *)

(** A packet on the unacked queue is in flight; so is the record of a lost
    duplicate; other loss records and the poisoned packet are not. *)
Definition in_flight (pk : packet) : Z :=
  if po_unacked pk then
    if is_loss_rec pk then (if fake pk =? 1 then 1 else 0) else (if po_poison pk then 0 else 1)
  else 0.
Definition bytes_in_flight (pk : packet) : Z := in_flight pk * packet_out_sent_sz pk.
Definition scheduled (pk : packet) : Z := if po_sched pk then 1 else 0.
Definition bytes_scheduled (pk : packet) : Z := scheduled pk * packet_out_total_sz pk.
Definition lost (pk : packet) : Z := if po_lost pk then 1 else 0.

Definition counted (m : gmap Z packet) (n : counts) : Prop :=
  sc_n_in_flight_all n = u32 (msum in_flight m)
  /\ sc_bytes_unacked_all n = u32 (msum bytes_in_flight m)
  /\ sc_n_scheduled n = u32 (msum scheduled m)
  /\ sc_bytes_scheduled n = u32 (msum bytes_scheduled m)
  /\ sc_lost_packet_number n = u32 (msum lost m).

(** The counters do not wrap; the room in [small] is for the moment in which a
    lost packet and its record are both counted. *)
Definition below (b : Z) (m : gmap Z packet) : Prop :=
  msum in_flight m < b /\ msum bytes_in_flight m < b /\ msum scheduled m < b.
Definition fits : gmap Z packet -> Prop := below (2 ^ 32).
Definition small : gmap Z packet -> Prop := below (2 ^ 31).

Definition shrinks (m m' : gmap Z packet) : Prop :=
  msum in_flight m' <= msum in_flight m
  /\ msum bytes_in_flight m' <= msum bytes_in_flight m
  /\ msum scheduled m' <= msum scheduled m.

(** ** One packet *)

Definition pno_ok (no : Z) : Prop := 0 <= no < 2 ^ 62.

Definition packet_ok (pk : packet) : Prop :=
  ((po_sched pk && po_unacked pk) = false /\ (po_sched pk && po_lost pk) = false /\ (po_unacked pk && po_lost pk) = false)
  /\ (is_loss_rec pk = true ->
      po_unacked pk = true /\ po_has_sent_sz pk = true /\ po_poison pk = false /\ po_mtu_probe pk = false
      /\ po_hello pk = false)
  /\ (po_poison pk = true ->
      po_unacked pk = true /\ fake pk = 0 /\ po_mtu_probe pk = false /\ po_hello pk = false /\ po_frame_types pk = 0)
  /\ (po_mtu_probe pk = true -> has_flag (po_frame_types pk) FT_STREAM = false)
  /\ (fake pk = 0 \/ fake pk = 1)
  /\ 0 <= packet_out_sent_sz pk < 2 ^ 16 /\ 0 <= packet_out_total_sz pk < 2 ^ 16
  /\ (po_pns pk < 3)%nat /\ pno_ok (packno pk).

(** The space whose queue the packet waits on. *)
Definition home (pk : packet) : nat := if po_poison pk then PNS_APP else po_pns pk.

(** ** Queues match flags *)

Definition una (q : queues) (k : nat) : list Z := default [] (sc_unacked_packets q !! k).

Definition placed (q : queues) (p : Z) (pk : packet) : Prop :=
  (forall k, p ∈ una q k <-> (po_unacked pk = true /\ home pk = k))
  /\ (p ∈ sc_lost_packets q <-> po_lost pk = true)
  /\ (p ∈ sc_scheduled_packets q <-> po_sched pk = true).

Definition absent (q : queues) (p : Z) : Prop :=
  (forall k, p ∉ una q k) /\ (p ∉ sc_lost_packets q) /\ (p ∉ sc_scheduled_packets q).

Definition no_dups (q : queues) : Prop :=
  (forall k, NoDup (una q k)) /\ NoDup (sc_lost_packets q) /\ NoDup (sc_scheduled_packets q).

Record wfq (m : gmap Z packet) (q : queues) (n : counts) : Prop := {
  wf_len : length (sc_unacked_packets q) = 3%nat;
  wf_dups : no_dups q;
  wf_in : map_Forall (placed q) m;
  wf_out : forall p, m !! p = None -> absent q p;
  wf_pk : map_Forall (fun _ pk => packet_ok pk) m;
  wf_n : counted m n
}.

(** Taking a packet off every queue. *)
Definition qremove (p : Z) (q : queues) : queues :=
  QS (map (filter (.≠ p)) (sc_unacked_packets q)) (filter (.≠ p) (sc_lost_packets q))
     (filter (.≠ p) (sc_scheduled_packets q)).

Lemma filter_ne_absent (p : Z) (l : list Z) : p ∉ l -> filter (.≠ p) l = l.
Proof.
  intros H. induction l as [|x l IH]; [done|]. apply not_elem_of_cons in H as [Hx Hl].
  rewrite filter_cons_True, IH by done. done.
Qed.

Lemma una_qremove p q k : una (qremove p q) k = filter (.≠ p) (una q k).
Proof.
  unfold una, qremove. cbn. fold (fmap (M:=list) (filter (.≠ p)) (sc_unacked_packets q)).
  rewrite list_lookup_fmap. by destruct (sc_unacked_packets q !! k).
Qed.

Lemma una_ext q q' :
  length (sc_unacked_packets q) = length (sc_unacked_packets q') ->
  (forall k, una q k = una q' k) -> sc_unacked_packets q = sc_unacked_packets q'.
Proof.
  intros Hl H. apply list_eq. intros k. specialize (H k). unfold una in H.
  destruct (sc_unacked_packets q !! k) as [a|] eqn:E, (sc_unacked_packets q' !! k) as [b|] eqn:E';
    cbn in H; subst; try done.
  - apply lookup_lt_Some in E. apply lookup_ge_None in E'. lia.
  - apply lookup_lt_Some in E'. apply lookup_ge_None in E. lia.
Qed.

(** Detaching a packet: it leaves memory, queues and counters. *)
Definition minus (n : counts) (pk : packet) (n' : counts) : Prop :=
  sc_n_in_flight_all n' = u32 (sc_n_in_flight_all n - in_flight pk)
  /\ sc_bytes_unacked_all n' = u32 (sc_bytes_unacked_all n - bytes_in_flight pk)
  /\ sc_n_scheduled n' = u32 (sc_n_scheduled n - scheduled pk)
  /\ sc_bytes_scheduled n' = u32 (sc_bytes_scheduled n - bytes_scheduled pk)
  /\ sc_lost_packet_number n' = u32 (sc_lost_packet_number n - lost pk).

Lemma wfq_detach m q n p pk n' :
  wfq m q n -> m !! p = Some pk -> minus n pk n' -> wfq (delete p m) (qremove p q) n'.
Proof.
  intros [Hl [Hd1 [Hd2 Hd3]] Hi Ho Hk Hn] Hp Hm. split.
  - cbn. by rewrite length_map.
  - split_and!; [intros k; rewrite una_qremove|cbn..]; by apply NoDup_filter.
  - intros q' qk [Hne Hq]%lookup_delete_Some. destruct (Hi _ _ Hq) as (A & B & C). split_and!.
    + intros k. rewrite una_qremove, list_elem_of_filter, <- A. naive_solver.
    + cbn. rewrite list_elem_of_filter, <- B. naive_solver.
    + cbn. rewrite list_elem_of_filter, <- C. naive_solver.
  - intros q' Hq. split_and!; [intros k; rewrite una_qremove|cbn..]; rewrite list_elem_of_filter;
      (apply lookup_delete_None in Hq as [->|Hq]; [naive_solver|]);
      destruct (Ho _ Hq) as (A & B & C); naive_solver.
  - intros q' qk [_ Hq]%lookup_delete_Some. by apply (Hk q').
  - destruct Hn as (A & B & C & D & E), Hm as (A' & B' & C' & D' & E').
    unfold counted. rewrite !(msum_delete _ _ _ _ Hp), A', B', C', D', E', A, B, C, D, E, !wrapu_sub_l. done.
Qed.

Definition plus (n : counts) (pk : packet) (n' : counts) : Prop :=
  sc_n_in_flight_all n' = u32 (sc_n_in_flight_all n + in_flight pk)
  /\ sc_bytes_unacked_all n' = u32 (sc_bytes_unacked_all n + bytes_in_flight pk)
  /\ sc_n_scheduled n' = u32 (sc_n_scheduled n + scheduled pk)
  /\ sc_bytes_scheduled n' = u32 (sc_bytes_scheduled n + bytes_scheduled pk)
  /\ sc_lost_packet_number n' = u32 (sc_lost_packet_number n + lost pk).

(** Attaching a packet: the queues without it are the old ones. *)
Lemma wfq_attach m q n p pk q' n' :
  wfq m q n -> m !! p = None -> packet_ok pk -> plus n pk n' ->
  no_dups q' -> qremove p q' = q -> placed q' p pk ->
  wfq (<[p := pk]> m) q' n'.
Proof.
  intros [Hl Hd Hi Ho Hk Hn] Hp Hok Hm Hd' Hq Hpl.
  assert (HU : forall z k, z ≠ p -> z ∈ una q' k <-> z ∈ una q k).
  { intros z k Hz. rewrite <- Hq, una_qremove, list_elem_of_filter. naive_solver. }
  assert (HL : forall z, z ≠ p -> z ∈ sc_lost_packets q' <-> z ∈ sc_lost_packets q).
  { intros z Hz. rewrite <- Hq. cbn. rewrite list_elem_of_filter. naive_solver. }
  assert (HS : forall z, z ≠ p -> z ∈ sc_scheduled_packets q' <-> z ∈ sc_scheduled_packets q).
  { intros z Hz. rewrite <- Hq. cbn. rewrite list_elem_of_filter. naive_solver. }
  split.
  - rewrite <- Hl, <- Hq. cbn. by rewrite length_map.
  - done.
  - intros z zk [[<- <-]|[Hne Hz]]%lookup_insert_Some; [done|]. destruct (Hi _ _ Hz) as (A & B & C). split_and!.
    + intros k. by rewrite HU, A by done.
    + by rewrite HL by done.
    + by rewrite HS by done.
  - intros z [Hz Hne]%lookup_insert_None. destruct (Ho _ Hz) as (A & B & C). split_and!.
    + intros k. by rewrite HU by done.
    + by rewrite HL by done.
    + by rewrite HS by done.
  - by apply map_Forall_insert_2.
  - destruct Hn as (A & B & C & D & E), Hm as (A' & B' & C' & D' & E').
    unfold counted. rewrite !msum_insert, A', B', C', D', E', A, B, C, D, E, !wrapu_add_l by done.
    split_and!; f_equal; lia.
Qed.

(** A change of fields that matter neither for the queues nor the counters. *)
Lemma wfq_edit m q n p pk pk' :
  wfq m q n -> m !! p = Some pk -> packet_ok pk' ->
  (po_unacked pk', po_lost pk', po_sched pk', home pk') = (po_unacked pk, po_lost pk, po_sched pk, home pk) ->
  (in_flight pk', bytes_in_flight pk', bytes_scheduled pk') = (in_flight pk, bytes_in_flight pk, bytes_scheduled pk) ->
  wfq (<[p := pk']> m) q n.
Proof.
  intros [Hl Hd Hi Ho Hk Hn] Hp Hok Hs Hw. injection Hs as S1 S2 S3 S4. injection Hw as W1 W2 W3.
  split; [done|done| | | |].
  - intros z zk [[<- <-]|[Hne Hz]]%lookup_insert_Some; [|by apply Hi]. unfold placed.
    rewrite S1, S2, S3, S4. by apply (Hi _ _ Hp).
  - intros z [Hz _]%lookup_insert_None. by apply Ho.
  - by apply map_Forall_insert_2.
  - assert (scheduled pk' = scheduled pk /\ lost pk' = lost pk) as [E1 E2].
    { unfold scheduled, lost. by rewrite S2, S3. }
    destruct Hn as (A & B & C & D & E). unfold counted. rewrite !(msum_update _ _ _ _ _ Hp), E1, E2, W1, W2, W3, A, B, C, D, E.
    split_and!; f_equal; lia.
Qed.

(** ** Leaving a queue *)

Lemma tailq_remove_in p l : p ∈ l -> tailq_remove p l = Ok (filter (.≠ p) l).
Proof. intros H. unfold tailq_remove. by rewrite bool_decide_true. Qed.

Lemma una_insert q k l lost sched j :
  (k < length (sc_unacked_packets q))%nat ->
  una (QS (<[k := l]> (sc_unacked_packets q)) lost sched) j = if decide (j = k) then l else una q j.
Proof.
  intros H. unfold una. cbn. destruct (decide (j = k)) as [->|Hne].
  - by rewrite list_lookup_insert_eq.
  - by rewrite list_lookup_insert_ne.
Qed.

Lemma queues_eq q q' :
  length (sc_unacked_packets q) = length (sc_unacked_packets q') -> (forall k, una q k = una q' k) ->
  sc_lost_packets q = sc_lost_packets q' -> sc_scheduled_packets q = sc_scheduled_packets q' -> q = q'.
Proof. intros Hl Hu E1 E2. pose proof (una_ext _ _ Hl Hu). destruct q, q'. cbn in *. congruence. Qed.

Section qremove.
Context m q n p pk (W : wfq m q n) (Hp : m !! p = Some pk).

Lemma not_queued : 
  (po_unacked pk = false -> forall k, p ∉ una q k) /\ (po_lost pk = false -> p ∉ sc_lost_packets q)
  /\ (po_sched pk = false -> p ∉ sc_scheduled_packets q).
Proof using W Hp.
  destruct (wf_in _ _ _ W _ _ Hp) as (A & B & C). split_and!; intros H.
  - intros k [? ?]%A. congruence.
  - intros ?%B. congruence.
  - intros ?%C. congruence.
Qed.

Lemma home_lt : packet_ok pk -> (home pk < 3)%nat.
Proof using. intros H. unfold home, PNS_APP. destruct (po_poison pk); [lia|]. apply H. Qed.

Lemma qremove_unacked :
  po_unacked pk = true ->
  qremove p q = QS (<[home pk := filter (.≠ p) (una q (home pk))]> (sc_unacked_packets q))
                   (sc_lost_packets q) (sc_scheduled_packets q).
Proof using W Hp.
  intros Hu. pose proof (wf_pk _ _ _ W _ _ Hp) as Hok. pose proof not_queued as (A & B & C).
  pose proof (home_lt Hok). destruct (wf_in _ _ _ W _ _ Hp) as (HA & _ & _). pose proof (wf_len _ _ _ W) as Hlen.
  assert (po_lost pk = false /\ po_sched pk = false) as [E1 E2].
  { destruct Hok as ((X & Y & Z) & _). rewrite Hu in *. destruct (po_sched pk), (po_lost pk); done. }
  apply queues_eq.
  - cbn. by rewrite length_map, length_insert.
  - intros k. rewrite una_qremove, una_insert by lia. destruct (decide (k = home pk)) as [->|Hne]; [done|].
    apply filter_ne_absent. intros [_ ?]%HA. congruence.
  - cbn. by apply filter_ne_absent, B.
  - cbn. by apply filter_ne_absent, C.
Qed.

Lemma qremove_sched :
  po_sched pk = true ->
  qremove p q = QS (sc_unacked_packets q) (sc_lost_packets q) (filter (.≠ p) (sc_scheduled_packets q)).
Proof using W Hp.
  intros Hu. pose proof (wf_pk _ _ _ W _ _ Hp) as Hok. pose proof not_queued as (A & B & C).
  assert (po_lost pk = false /\ po_unacked pk = false) as [E1 E2].
  { destruct Hok as ((X & Y & Z) & _). rewrite Hu in *. destruct (po_unacked pk), (po_lost pk); done. }
  apply queues_eq; [cbn; by rewrite length_map| |cbn; by apply filter_ne_absent, B|done].
  intros k. rewrite una_qremove. by apply filter_ne_absent, A.
Qed.

Lemma qremove_lost :
  po_lost pk = true ->
  qremove p q = QS (sc_unacked_packets q) (filter (.≠ p) (sc_lost_packets q)) (sc_scheduled_packets q).
Proof using W Hp.
  intros Hu. pose proof (wf_pk _ _ _ W _ _ Hp) as Hok. pose proof not_queued as (A & B & C).
  assert (po_sched pk = false /\ po_unacked pk = false) as [E1 E2].
  { destruct Hok as ((X & Y & Z) & _). rewrite Hu in *. destruct (po_unacked pk), (po_sched pk); done. }
  apply queues_eq; [cbn; by rewrite length_map| |done|cbn; by apply filter_ne_absent, C].
  intros k. rewrite una_qremove. by apply filter_ne_absent, A.
Qed.

Lemma qremove_limbo :
  po_unacked pk = false -> po_lost pk = false -> po_sched pk = false -> qremove p q = q.
Proof using W Hp.
  intros E1 E2 E3. pose proof not_queued as (A & B & C).
  apply queues_eq; [cbn; by rewrite length_map| |cbn; by apply filter_ne_absent, B|cbn; by apply filter_ne_absent, C].
  intros k. rewrite una_qremove. by apply filter_ne_absent, A.
Qed.

End qremove.

Lemma weights_nonneg pk : packet_ok pk -> 0 <= in_flight pk /\ 0 <= bytes_in_flight pk /\ 0 <= scheduled pk.
Proof.
  intros (_ & _ & _ & _ & _ & Hs & _). unfold bytes_in_flight, in_flight, scheduled.
  destruct (po_unacked pk), (is_loss_rec pk), (fake pk =? 1), (po_poison pk), (po_sched pk); lia.
Qed.

Section weights.
Context m q n p pk (W : wfq m q n) (Hp : m !! p = Some pk) (Hs : fits m).

Lemma weights_le :
  in_flight pk <= msum in_flight m /\ bytes_in_flight pk <= msum bytes_in_flight m
  /\ scheduled pk <= msum scheduled m.
Proof using W Hp.
  split_and!; apply (msum_ge _ _ p); try done;
    intros z zk Hz; pose proof (weights_nonneg _ (wf_pk _ _ _ W _ _ Hz)); lia.
Qed.

(** Counters that do not wrap are exact. *)
Lemma counted_exact :
  sc_n_in_flight_all n = msum in_flight m /\ sc_bytes_unacked_all n = msum bytes_in_flight m
  /\ sc_n_scheduled n = msum scheduled m.
Proof using W Hs.
  assert (forall f, (forall z zk, m !! z = Some zk -> 0 <= f zk) -> msum f m < 2 ^ 32 -> u32 (msum f m) = msum f m) as U.
  { intros f Hf Hlt. unfold u32. apply Z.mod_small. pose proof (msum_nonneg f m Hf). lia. }
  destruct (wf_n _ _ _ W) as (A & B & C & _), Hs as (X & Y & Z).
  rewrite A, B, C, !U; try done; intros z zk Hz; pose proof (weights_nonneg _ (wf_pk _ _ _ W _ _ Hz)); lia.
Qed.

End weights.

Lemma shrinks_delete m p :
  map_Forall (fun _ pk => packet_ok pk) m -> shrinks m (delete p m).
Proof.
  intros Hok. destruct (m !! p) as [pk|] eqn:E.
  - pose proof (weights_nonneg _ (Hok _ _ E)). unfold shrinks. rewrite !(msum_delete _ _ _ _ E). lia.
  - rewrite delete_id by done. unfold shrinks. lia.
Qed.

Lemma below_shrinks b m m' : below b m -> shrinks m m' -> below b m'.
Proof. unfold below, shrinks. lia. Qed.

Lemma small_fits m : small m -> fits m.
Proof. unfold small, fits, below. lia. Qed.

Lemma shrinks_trans m m' m'' : shrinks m m' -> shrinks m' m'' -> shrinks m m''.
Proof. unfold shrinks. lia. Qed.

Lemma shrinks_refl m : shrinks m m.
Proof. unfold shrinks. lia. Qed.

Lemma counted_u32 m n : counted m n ->
  u32 (sc_n_in_flight_all n) = sc_n_in_flight_all n /\ u32 (sc_bytes_unacked_all n) = sc_bytes_unacked_all n
  /\ u32 (sc_n_scheduled n) = sc_n_scheduled n /\ u32 (sc_bytes_scheduled n) = sc_bytes_scheduled n
  /\ u32 (sc_lost_packet_number n) = sc_lost_packet_number n.
Proof.
  intros (A & B & C & D & E). rewrite A, B, C, D, E. unfold u32. rewrite !Zmod_mod. done.
Qed.

(** Goals [minus] and [plus] for concrete counters. *)
Ltac counts_tac :=
  split_and!; cbn; rewrite ?Z.sub_0_r, ?Z.add_0_r, ?Z.mul_0_l, ?Z.mul_1_l, ?Z.sub_0_r, ?Z.add_0_r;
  first [done | congruence | (f_equal; lia)].

Lemma get_ok c p pk : sc_mem c !! p = Some pk -> get c p = Ok pk.
Proof. intros H. unfold get. by rewrite H. Qed.

Definition same_rest (c c' : send_ctl) : Prop :=
  sc_a c' = sc_a c /\ sc_art c' = sc_art c /\ sc_malo c' = sc_malo c.

Section ops.
Context (sc_retx_frames : Z).

(** Removing a packet that is in flight, while [x] may be out of order. *)
Lemma unacked_remove_detach m c p pk :
  wfq m (sc_q c) (sc_n c) -> fits m -> m !! p = Some pk -> sc_mem c !! p = Some pk ->
  po_unacked pk = true -> is_loss_rec pk = false -> po_poison pk = false ->
  exists n', send_ctl_unacked_remove sc_retx_frames c p (packet_out_sent_sz pk)
    = Ok (CTL (<[p := with_where pk (po_sched pk) false (po_lost pk)]> (sc_mem c)) (qremove p (sc_q c)) n'
              (sc_a c) (sc_art c) (sc_malo c))
    /\ minus (sc_n c) pk n'.
Proof using.
  intros W Hs Hm Hp Hu Hl Hpo. unfold send_ctl_unacked_remove. rewrite (get_ok _ _ _ Hp). cbn [mbind res_bind].
  assert (Hh : home pk = po_pns pk) by (unfold home; by rewrite Hpo).
  assert (Hin : p ∈ unacked c (po_pns pk)).
  { apply (wf_in _ _ _ W _ _ Hm). by rewrite Hh. }
  rewrite tailq_remove_in by done. cbn [mbind res_bind].
  assert (Hb : in_flight pk = 1) by (unfold in_flight; by rewrite Hu, Hl, Hpo).
  assert (Hbb : bytes_in_flight pk = packet_out_sent_sz pk) by (unfold bytes_in_flight; lia).
  destruct (counted_exact _ _ _ W Hs) as (_ & HB & _). destruct (weights_le _ _ _ _ _ W Hm) as (_ & HW & _).
  cbn [sc_n set_unacked put set_mem set_q]. unfold check.
  rewrite (proj2 (Z.leb_le (packet_out_sent_sz pk) (sc_bytes_unacked_all (sc_n c)))) by lia. cbn [mbind res_bind].
  eexists. split.
  - unfold set_n, put, set_mem, set_unacked, set_q. cbn. do 3 f_equal.
    rewrite (qremove_unacked _ _ _ _ _ W Hm Hu), Hh. done.
  - assert (scheduled pk = 0 /\ lost pk = 0) as [E1 E2].
    { destruct (wf_pk _ _ _ W _ _ Hm) as ((X & Y & Z) & _). unfold scheduled, lost. rewrite Hu in *.
      destruct (po_sched pk), (po_lost pk); done. }
    pose proof (counted_u32 _ _ (wf_n _ _ _ W)) as (U1 & U2 & U3 & U4 & U5).
    unfold minus, bytes_scheduled. rewrite Hb, Hbb, E1, E2. counts_tac.
Qed.

Lemma sched_remove_detach m c p pk :
  wfq m (sc_q c) (sc_n c) -> fits m -> m !! p = Some pk -> sc_mem c !! p = Some pk -> po_sched pk = true ->
  exists n', send_ctl_sched_remove c p
    = Ok (CTL (<[p := with_where pk false (po_unacked pk) (po_lost pk)]> (sc_mem c)) (qremove p (sc_q c)) n'
              (sc_a c) (sc_art c) (sc_malo c))
    /\ minus (sc_n c) pk n'.
Proof using.
  intros W Hs Hm Hp E1. unfold send_ctl_sched_remove. rewrite (get_ok _ _ _ Hp). cbn [mbind res_bind].
  rewrite tailq_remove_in by (by apply (wf_in _ _ _ W _ _ Hm)). cbn [mbind res_bind].
  destruct (counted_exact _ _ _ W Hs) as (_ & _ & HN). destruct (weights_le _ _ _ _ _ W Hm) as (_ & _ & HW).
  assert (scheduled pk = 1) as Hsc by (unfold scheduled; by rewrite E1).
  cbn [sc_n set_sched put set_mem set_q]. unfold check. rewrite (proj2 (Z.eqb_neq _ 0)) by lia.
  cbn [negb mbind res_bind]. eexists. split.
  - unfold set_n, put, set_mem, set_sched, set_q. cbn. do 3 f_equal. by rewrite (qremove_sched _ _ _ _ _ W Hm E1).
  - assert (po_unacked pk = false /\ po_lost pk = false) as [E2 E3].
    { destruct (wf_pk _ _ _ W _ _ Hm) as ((X & Y & _) & _). rewrite E1 in *. destruct (po_unacked pk), (po_lost pk); done. }
    pose proof (counted_u32 _ _ (wf_n _ _ _ W)) as (U1 & U2 & U3 & U4 & U5).
    unfold minus, bytes_in_flight, in_flight, bytes_scheduled, lost. rewrite Hsc, E2, E3. counts_tac.
Qed.

Lemma leave_queue_detach m c cur pk :
  wfq m (sc_q c) (sc_n c) -> fits m -> m !! cur = Some pk -> sc_mem c !! cur = Some pk -> po_poison pk = false ->
  exists n' mm,
    leave_queue sc_retx_frames c (po_pns pk) cur pk
    = Ok (CTL mm (qremove cur (sc_q c)) n' (sc_a c) (sc_art c) (sc_malo c))
    /\ delete cur mm = delete cur (sc_mem c) /\ is_Some (mm !! cur) /\ minus (sc_n c) pk n'.
Proof using.
  intros W Hs Hm Hp Hpo. assert (Hh : home pk = po_pns pk) by (unfold home; by rewrite Hpo).
  destruct (wf_in _ _ _ W _ _ Hm) as (HA & HL & HS).
  destruct (wf_pk _ _ _ W _ _ Hm) as ((X & Y & Z) & HLR & _).
  pose proof (counted_u32 _ _ (wf_n _ _ _ W)) as (U1 & U2 & U3 & U4 & U5). unfold leave_queue.
  destruct (po_sched pk) eqn:E1, (po_unacked pk) eqn:E2, (po_lost pk) eqn:E3; try done.
  - destruct (sched_remove_detach _ c cur pk W Hs Hm Hp E1) as (n' & E & Hmin). exists n'. eexists.
    split_and!; [exact E|by rewrite delete_insert_eq|rewrite lookup_insert_eq; eauto|done].
  - destruct (is_loss_rec pk) eqn:E4.
    + destruct (HLR eq_refl) as (_ & Hsz & _). rewrite tailq_remove_in by (apply HA; by rewrite Hh). cbn [mbind res_bind].
      unfold fake_leaves. exists (if fake pk =? 1 then add_in_flight (sc_n c) (-1) (- po_sent_sz pk) 0 0 else sc_n c), (sc_mem c). split_and!.
      * rewrite (qremove_unacked _ _ _ _ _ W Hm E2), Hh. destruct (fake pk =? 1); done.
      * done.
      * rewrite Hp. eauto.
      * unfold minus, bytes_in_flight, in_flight, bytes_scheduled, scheduled, lost, packet_out_sent_sz.
        rewrite E1, E2, E3, E4, Hsz. destruct (fake pk =? 1); counts_tac.
    + destruct (unacked_remove_detach _ c cur pk W Hs Hm Hp E2 E4 Hpo) as (n' & E & Hmin). exists n'. eexists.
      split_and!; [exact E|by rewrite delete_insert_eq|rewrite lookup_insert_eq; eauto|done].
  - rewrite tailq_remove_in by (by apply HL). cbn [mbind res_bind]. eexists _, _. split_and!.
    + unfold set_n, set_lost, set_q. cbn. do 3 f_equal. by rewrite (qremove_lost _ _ _ _ _ W Hm E3).
    + done.
    + rewrite Hp. eauto.
    + unfold minus, bytes_in_flight, in_flight, bytes_scheduled, scheduled, lost. rewrite E1, E2, E3. counts_tac.
  - exists (sc_n c), (sc_mem c). split_and!; [|done|rewrite Hp; eauto|].
    + rewrite (qremove_limbo _ _ _ _ _ W Hm E2 E3 E1). by destruct c.
    + unfold minus, bytes_in_flight, in_flight, bytes_scheduled, scheduled, lost. rewrite E1, E2, E3. counts_tac.
Qed.

(** One link of a chain is detached, while [x] may be out of order. *)
Lemma destroy_link_detach c cur pk next x :
  wfq (delete x (sc_mem c)) (sc_q c) (sc_n c) -> fits (delete x (sc_mem c)) ->
  cur ≠ x -> sc_mem c !! cur = Some pk -> po_poison pk = false ->
  exists n',
    destroy_link sc_retx_frames c (po_pns pk) cur next
    = Ok (CTL (delete cur (sc_mem c)) (qremove cur (sc_q c)) n' (sc_a c) (sc_art c) (sc_malo c),
          if bool_decide (next = Some cur) then tailq_next cur (unacked c (po_pns pk)) else next)
    /\ wfq (delete x (delete cur (sc_mem c))) (qremove cur (sc_q c)) n'.
Proof using.
  intros W Hs Hne Hp Hpo. assert (Hm : delete x (sc_mem c) !! cur = Some pk) by (by rewrite lookup_delete_ne).
  destruct (leave_queue_detach _ c cur pk W Hs Hm Hp Hpo) as (n' & mm & E & Ed & [y Es] & Hmin).
  exists n'. split; [|rewrite delete_delete; by apply (wfq_detach _ _ _ _ _ _ W Hm)]. unfold destroy_link.
  rewrite (get_ok _ _ _ Hp). cbn [mbind res_bind]. rewrite E. cbn [mbind res_bind].
  unfold send_ctl_destroy_packet, get. cbn. rewrite Es. cbn. by rewrite Ed.
Qed.

End ops.

(** ** Loss chains *)

Definition chain (m : gmap Z packet) (p : Z) : option Z := po_loss_chain <$> m !! p.

(** Following the chain from [x] visits [l] and ends at [y]. *)
Fixpoint seg (m : gmap Z packet) (x : Z) (l : list Z) (y : Z) : Prop :=
  match l with
  | [] => x = y
  | z :: l => x = z /\ exists w, chain m z = Some w /\ seg m w l y
  end.

Definition on_ring (m : gmap Z packet) (p : Z) (rest : list Z) : Prop := seg m p (p :: rest) p /\ NoDup (p :: rest).

Record rings (m : gmap Z packet) : Prop := {
  rg_ring : forall p, is_Some (m !! p) -> exists rest, on_ring m p rest;
  rg_solo : forall p pk, m !! p = Some pk -> po_poison pk || po_mtu_probe pk = true -> po_loss_chain pk = p;
  rg_pns : forall p pk qk, m !! p = Some pk -> m !! po_loss_chain pk = Some qk -> po_pns qk = po_pns pk
}.

Lemma seg_app m l1 : forall x l2 y, seg m x (l1 ++ l2) y <-> exists w, seg m x l1 w /\ seg m w l2 y.
Proof.
  induction l1 as [|z l1 IH]; intros x l2 y; cbn; [naive_solver|]. setoid_rewrite IH. naive_solver.
Qed.

Lemma seg_mem m l : forall x y z, seg m x l y -> z ∈ l -> is_Some (m !! z).
Proof.
  induction l as [|w l IH]; intros x y z H Hz; [by apply elem_of_nil in Hz|].
  destruct H as [-> (v & E & H)]. apply elem_of_cons in Hz as [->|Hz]; [|by eapply IH].
  unfold chain in E. destruct (m !! w); [eauto|done].
Qed.

(** A segment only depends on the links of its elements. *)
Lemma seg_ext m m' l : forall x y, (forall z, z ∈ l -> chain m' z = chain m z) -> seg m x l y -> seg m' x l y.
Proof.
  induction l as [|w l IH]; intros x y H S; [done|]. destruct S as [-> (v & E & S)]. split; [done|].
  exists v. rewrite H by apply elem_of_cons, or_introl, eq_refl. split; [done|]. apply IH; [|done].
  intros z Hz. apply H. by apply list_elem_of_further.
Qed.

Lemma seg_det m l : forall l' x y, seg m x l y -> seg m x l' y -> y ∉ tail l -> y ∉ tail l' -> l ≠ [] -> l' ≠ [] -> l = l'.
Proof.
  induction l as [|z l IH]; intros l' x y S S' Hy Hy' N N'; [done|]. destruct l' as [|z' l']; [done|].
  destruct S as [<- (w & E & S)], S' as [<- (w' & E' & S')]. assert (w' = w) as -> by congruence.
  cbn in Hy, Hy'. f_equal. destruct l as [|a l], l' as [|b l'].
  - done.
  - destruct S' as [<- _]. cbn in S. subst. exfalso. apply Hy'. by left.
  - destruct S as [<- _]. cbn in S'. subst. exfalso. apply Hy. by left.
  - apply (IH _ w y); try done; cbn; intros ?; [apply Hy|apply Hy']; by right.
Qed.

Lemma on_ring_det m p l l' : on_ring m p l -> on_ring m p l' -> l = l'.
Proof.
  intros [S N] [S' N']. apply NoDup_cons in N as [N _], N' as [N' _].
  assert (p :: l = p :: l') as [= ->]; [|done]. by apply (seg_det m _ _ p p).
Qed.

Lemma on_ring_rotate m p rest z :
  on_ring m p rest -> z ∈ p :: rest -> exists l1 l2, p :: rest = l1 ++ z :: l2 /\ on_ring m z (l2 ++ l1).
Proof.
  intros [S N] Hz. apply list_elem_of_split in Hz as (l1 & l2 & E). exists l1, l2. split; [done|].
  rewrite E in S, N. apply seg_app in S as (w & S1 & S2). assert (w = z) as -> by (destruct S2; congruence).
  split.
  - change (z :: l2 ++ l1) with ((z :: l2) ++ l1). apply seg_app. eauto.
  - change (z :: l2 ++ l1) with ((z :: l2) ++ l1). by rewrite Permutation_app_comm.
Qed.

(** Rings that share an element have the same elements. *)
Lemma on_ring_same m p rest q rest' z :
  on_ring m p rest -> on_ring m q rest' -> z ∈ p :: rest -> z ∈ q :: rest' -> q ∈ p :: rest.
Proof.
  intros R R' Hz Hz'. destruct (on_ring_rotate _ _ _ _ R Hz) as (a & b & E & Ra).
  destruct (on_ring_rotate _ _ _ _ R' Hz') as (a' & b' & E' & Rb).
  pose proof (on_ring_det _ _ _ _ Ra Rb) as Eq.
  assert (q ∈ z :: b' ++ a') as Hq.
  { assert (q ∈ a' ++ z :: b') as H by (rewrite <- E'; by left). set_solver. }
  rewrite <- Eq in Hq. rewrite E. set_solver.
Qed.

(** ** Destroying a chain *)

Fixpoint dels (l : list Z) (m : gmap Z packet) : gmap Z packet :=
  match l with [] => m | z :: l => dels l (delete z m) end.
Fixpoint qremoves (l : list Z) (q : queues) : queues :=
  match l with [] => q | z :: l => qremoves l (qremove z q) end.

Lemma lookup_dels l : forall m z, dels l m !! z = if decide (z ∈ l) then None else m !! z.
Proof.
  induction l as [|x l IH]; intros m z; [by rewrite decide_False by apply not_elem_of_nil|]. cbn. rewrite IH.
  destruct (decide (z ∈ l)) as [Hz|Hz]; [by rewrite decide_True by (by right)|].
  destruct (decide (z = x)) as [->|Hne].
  - rewrite lookup_delete_eq, decide_True by (by left). done.
  - rewrite lookup_delete_ne by done. rewrite decide_False; [done|]. rewrite elem_of_cons. naive_solver.
Qed.

Lemma filter_twice (x : Z) (l q : list Z) : filter (.∉ l) (filter (.≠ x) q) = filter (.∉ x :: l) q.
Proof.
  induction q as [|y q IH]; [done|]. destruct (decide (y = x)) as [->|Hne].
  - rewrite filter_cons_False by naive_solver. rewrite (filter_cons_False (.∉ x :: l)); [done|].
    intros H. apply H. by left.
  - rewrite filter_cons_True by done. destruct (decide (y ∈ l)) as [Hl|Hl].
    + rewrite !filter_cons_False; [done| |]; intros H; apply H; [by right|done].
    + rewrite !filter_cons_True, IH; [done| |done]. rewrite elem_of_cons. naive_solver.
Qed.

Lemma filter_nil_id (q : list Z) : filter (.∉ []) q = q.
Proof. induction q as [|y q IH]; [done|]. rewrite filter_cons_True, IH by apply not_elem_of_nil. done. Qed.

Lemma una_qremoves l : forall q k, una (qremoves l q) k = filter (.∉ l) (una q k).
Proof.
  induction l as [|x l IH]; intros q k; cbn; [by rewrite filter_nil_id|].
  by rewrite IH, una_qremove, filter_twice.
Qed.

Lemma tailq_next_mid (pre : list Z) p suf : NoDup (pre ++ p :: suf) -> tailq_next p (pre ++ p :: suf) = head suf.
Proof.
  induction pre as [|x pre IH]; intros N; cbn; [by rewrite Z.eqb_refl|].
  apply NoDup_cons in N as [Hx N]. rewrite (proj2 (Z.eqb_neq x p)); [by apply IH|].
  intros ->. apply Hx. apply elem_of_app. right. by left.
Qed.

Lemma head_filter_ne (x : Z) (suf : list Z) next :
  NoDup suf -> next = head suf ->
  (if bool_decide (next = Some x) then head (tail suf) else next) = head (filter (.≠ x) suf).
Proof.
  intros N ->. destruct suf as [|y suf]; [done|]. apply NoDup_cons in N as [Hy N]. cbn [head tail].
  destruct (decide (y = x)) as [->|Hne].
  - rewrite bool_decide_true, filter_cons_False by naive_solver. by rewrite filter_ne_absent.
  - rewrite bool_decide_false, filter_cons_True by congruence. done.
Qed.

Section destroy.
Context (sc_retx_frames : Z).

Lemma destroy_loop_spec l : forall fuel c x pns cur next pre suf,
  (length l < fuel)%nat -> wfq (delete x (sc_mem c)) (sc_q c) (sc_n c) -> fits (delete x (sc_mem c)) ->
  seg (sc_mem c) cur l x -> NoDup l -> x ∉ l ->
  (forall z zk, z ∈ l -> sc_mem c !! z = Some zk -> po_poison zk = false /\ po_pns zk = pns) ->
  unacked c pns = pre ++ suf -> next = head suf ->
  exists n', destroy_loop sc_retx_frames fuel c pns x cur next
    = Ok (CTL (dels l (sc_mem c)) (qremoves l (sc_q c)) n' (sc_a c) (sc_art c) (sc_malo c), head (filter (.∉ l) suf))
    /\ wfq (delete x (dels l (sc_mem c))) (qremoves l (sc_q c)) n'.
Proof using.
  induction l as [|z l IH]; intros fuel c x pns cur next pre suf Hf W Hs S N Hx HP Hq Hn;
    (destruct fuel as [|fuel]; [cbn in Hf; lia|]).
  - cbn in S. subst cur. cbn [destroy_loop]. rewrite Z.eqb_refl. exists (sc_n c). cbn.
    rewrite filter_nil_id, Hn. split; [by destruct c|done].
  - destruct S as [-> (w & Ew & S)]. cbn [destroy_loop]. apply NoDup_cons in N as [Hz N].
    apply not_elem_of_cons in Hx as [Hxz Hx]. rewrite (proj2 (Z.eqb_neq z x)) by done.
    unfold chain in Ew. destruct (sc_mem c !! z) as [zk|] eqn:Ez; [|done]. cbn in Ew. injection Ew as Ew.
    rewrite (get_ok _ _ _ Ez). cbn [mbind res_bind].
    destruct (HP z zk) as [Hpo Hpn]; [by left|done|]. subst pns.
    destruct (destroy_link_detach sc_retx_frames c z zk next x W Hs) as (n' & E & W'); try done.
    rewrite E. cbn [mbind res_bind]. rewrite Ew.
    pose proof (wf_dups _ _ _ W) as (ND & _ & _). specialize (ND (po_pns zk)).
    change (NoDup (unacked c (po_pns zk))) in ND.
    assert (NDs : NoDup suf) by (rewrite Hq in ND; by apply NoDup_app in ND as (_ & _ & ND)).
    destruct (IH fuel (CTL (delete z (sc_mem c)) (qremove z (sc_q c)) n' (sc_a c) (sc_art c) (sc_malo c))
                x (po_pns zk) w
                (if bool_decide (next = Some z) then tailq_next z (unacked c (po_pns zk)) else next)
                (filter (.≠ z) pre) (filter (.≠ z) suf)) as (n'' & E' & W''); cbn.
    + cbn in Hf. lia.
    + done.
    + eapply below_shrinks; [exact Hs|]. rewrite delete_delete. apply shrinks_delete, (wf_pk _ _ _ W).
    + eapply seg_ext; [|exact S]. intros y Hy. unfold chain. rewrite lookup_delete_ne; [done|]. by intros ->.
    + done.
    + done.
    + intros y yk Hy [_ Hyk]%lookup_delete_Some. apply (HP y); [by right|done].
    + transitivity (una (qremove z (sc_q c)) (po_pns zk)); [done|]. rewrite una_qremove.
      change (una (sc_q c) (po_pns zk)) with (unacked c (po_pns zk)). by rewrite Hq, filter_app.
    + rewrite <- (head_filter_ne z suf next) by done.
      destruct (bool_decide (next = Some z)) eqn:Eb; [|done]. apply bool_decide_eq_true in Eb.
      rewrite Hn in Eb. destruct suf as [|y suf]; [done|]. injection Eb as ->.
      rewrite Hq in ND |- *. by apply tailq_next_mid.
    + exists n''. split; [|done]. rewrite E'. cbn. by rewrite filter_twice.
Qed.

End destroy.

(** What the chains depend on. *)
Definition link (pk : packet) : Z * nat * bool := (po_loss_chain pk, po_pns pk, po_poison pk || po_mtu_probe pk).

Lemma rings_ext m m' : (forall z, link <$> m' !! z = link <$> m !! z) -> rings m -> rings m'.
Proof.
  intros H [R1 R2 R3].
  assert (HS : forall z zk, m' !! z = Some zk -> exists zk0, m !! z = Some zk0 /\ link zk0 = link zk).
  { intros z zk Hz. specialize (H z). rewrite Hz in H. destruct (m !! z); [|done]. cbn in H. eexists. split; [done|congruence]. }
  assert (HC : forall z, chain m' z = chain m z).
  { intros z. specialize (H z). unfold chain. destruct (m' !! z), (m !! z); cbn in *; try done. unfold link in H. congruence. }
  split.
  - intros p [pk Hp]. destruct (HS _ _ Hp) as (pk0 & Hp0 & _). destruct (R1 p) as [rest [S N]]; [eauto|].
    exists rest. split; [|done]. by apply (seg_ext m).
  - intros p pk Hp Hk. destruct (HS _ _ Hp) as (pk0 & Hp0 & E). unfold link in E. injection E as E1 E2 E3.
    rewrite <- E1. apply (R2 _ _ Hp0). by rewrite E3.
  - intros p pk qk Hp Hq. destruct (HS _ _ Hp) as (pk0 & Hp0 & E), (HS _ _ Hq) as (qk0 & Hq0 & E').
    unfold link in E, E'. injection E as E1 E2 E3. injection E' as E1' E2' E3'. rewrite <- E1 in Hq0.
    rewrite <- E2, <- E2'. by apply (R3 _ _ _ Hp0).
Qed.

Lemma seg_pns m l : rings m -> forall x y xk, seg m x l y -> m !! x = Some xk ->
  forall z zk, z ∈ l -> m !! z = Some zk -> po_pns zk = po_pns xk.
Proof.
  intros R. induction l as [|a l IH]; intros x y xk S Hx z zk Hz Hzk; [by apply elem_of_nil in Hz|].
  destruct S as [<- (w & E & S)]. apply elem_of_cons in Hz as [->|Hz]; [congruence|].
  unfold chain in E. rewrite Hx in E. cbn in E. injection E as <-.
  destruct l as [|b l]; [by apply elem_of_nil in Hz|].
  assert (is_Some (m !! po_loss_chain xk)) as [wk Hw].
  { destruct S as [-> (v & E & _)]. unfold chain in E. destruct (m !! b); [eauto|done]. }
  rewrite <- (rg_pns _ R _ _ _ Hx Hw). by apply (IH _ _ _ S Hw z zk).
Qed.

(** The other members of a ring are neither poisoned packets nor MTU probes. *)
Lemma ring_members m p pk rest : rings m -> m !! p = Some pk -> on_ring m p rest ->
  forall z zk, z ∈ rest -> m !! z = Some zk ->
  po_poison zk = false /\ po_mtu_probe zk = false /\ po_pns zk = po_pns pk.
Proof.
  intros R Hp [S N] z zk Hz Hzk. assert (Hin : z ∈ p :: rest) by (by right).
  enough (po_poison zk || po_mtu_probe zk = false) as Hb.
  { destruct (po_poison zk), (po_mtu_probe zk); try done. split_and!; try done.
    by apply (seg_pns m (p :: rest) R p p pk S Hp z). }
  destruct (po_poison zk || po_mtu_probe zk) eqn:E; [|done]. exfalso.
  pose proof (rg_solo _ R _ _ Hzk E) as Ec.
  assert (on_ring m z []) as Rz.
  { split; [|apply NoDup_singleton]. split; [done|]. exists z. unfold chain. rewrite Hzk. cbn. by rewrite Ec. }
  assert (p ∈ [z]) as Hpz by (apply (on_ring_same m z [] p rest z); by (done || left)).
  apply list_elem_of_singleton in Hpz. subst. by apply NoDup_cons in N as [N _].
Qed.

Lemma rings_dels m p rest : rings m -> on_ring m p rest -> rings (dels (p :: rest) m).
Proof.
  intros R HR. assert (HL : forall z zk, dels (p :: rest) m !! z = Some zk -> (z ∉ p :: rest) /\ m !! z = Some zk).
  { intros z zk. rewrite lookup_dels. destruct (decide (z ∈ p :: rest)); [done|]. naive_solver. }
  split.
  - intros q [qk [Hq Hqk]%HL]. destruct (rg_ring _ R q) as [rest' R']; [eauto|]. exists rest'.
    destruct R' as [S N]. split; [|done]. eapply seg_ext; [|exact S]. intros z Hz. unfold chain.
    rewrite lookup_dels, decide_False; [done|]. intros Hz'. apply Hq.
    by apply (on_ring_same m p rest q rest' z).
  - intros q qk [Hq Hqk]%HL. by apply (rg_solo _ R).
  - intros q qk zk [Hq Hqk]%HL [Hz Hzk]%HL. by apply (rg_pns _ R q).
Qed.

Lemma nodup_le_size (m : gmap Z packet) l : NoDup l -> (forall z, z ∈ l -> is_Some (m !! z)) -> (length l <= size m)%nat.
Proof.
  intros N H. rewrite <- size_dom, <- (size_list_to_set (C := gset Z) l N). apply subseteq_size.
  intros z Hz%elem_of_list_to_set. by apply elem_of_dom, H.
Qed.

Lemma dels_delete l m p : p ∉ l -> delete p (dels l m) = dels (p :: l) m.
Proof.
  intros H. apply map_eq. intros z. rewrite lookup_dels. destruct (decide (z = p)) as [->|Hne].
  - rewrite lookup_delete_eq, decide_True by (by left). done.
  - rewrite lookup_delete_ne, lookup_dels by done. destruct (decide (z ∈ l)).
    + rewrite decide_True by (by right). done.
    + rewrite decide_False; [done|]. rewrite elem_of_cons. naive_solver.
Qed.

Section retire.
Context (sc_retx_frames : Z).

(** Destroying the chain of [p], which is on no queue any more, and [p]. *)
Lemma retire_spec c p pk rest next pre suf :
  wfq (delete p (sc_mem c)) (sc_q c) (sc_n c) -> fits (delete p (sc_mem c)) -> rings (sc_mem c) ->
  sc_mem c !! p = Some pk -> on_ring (sc_mem c) p rest ->
  unacked c (po_pns pk) = pre ++ suf -> next = head suf ->
  exists c1 n', send_ctl_destroy_chain sc_retx_frames c p next = Ok (c1, head (filter (.∉ rest) suf))
    /\ send_ctl_destroy_packet c1 p
       = Ok (CTL (dels (p :: rest) (sc_mem c)) (qremoves rest (sc_q c)) n' (sc_a c) (sc_art c) (sc_malo c))
    /\ wfq (dels (p :: rest) (sc_mem c)) (qremoves rest (sc_q c)) n'.
Proof using.
  intros W Hs R Hp HR Hq Hn. pose proof HR as [S N]. destruct S as [_ (w & Ew & S)].
  unfold chain in Ew. rewrite Hp in Ew. cbn in Ew. injection Ew as Ew. apply NoDup_cons in N as [Hr N].
  assert (HM : forall z, z ∈ rest -> is_Some (sc_mem c !! z)) by (intros z; by apply (seg_mem _ rest w p)).
  destruct (destroy_loop_spec sc_retx_frames rest (Datatypes.S (size (sc_mem c))) c p (po_pns pk) w next pre suf)
    as (n' & E & W'); try done.
  - pose proof (nodup_le_size _ _ N HM). lia.
  - intros z zk Hz Hzk. destruct (ring_members _ _ _ _ R Hp HR z zk Hz Hzk) as (? & _ & ?). done.
  - unfold send_ctl_destroy_chain. rewrite (get_ok _ _ _ Hp). cbn [mbind res_bind]. rewrite Ew, E. cbn [mbind res_bind].
    unfold get. cbn. rewrite lookup_dels, decide_False, Hp by done. cbn. eexists _, n'. split_and!; [done| |].
    + unfold send_ctl_destroy_packet, get. cbn. rewrite lookup_insert_eq. cbn.
      rewrite delete_insert_eq, dels_delete by done. done.
    + by rewrite dels_delete in W' by done.
Qed.

End retire.
