(* ===== verification/SendCtlLoss.v ===== *)
(** Handling a lost packet keeps the invariant of SendCtlSpec.v: the loss
    record takes the packet's place on the unacked queue and joins its chain,
    and the packet moves to the lost queue. *)
From stdpp Require Import gmap sorting.
From S2P Require Import Prelude Art SendCtl SendCtlSpec.
Local Open Scope Z_scope.

(** ** Loss records *)

Lemma new_ptr_fresh m : m !! new_ptr m = None.
Proof.
  destruct (m !! new_ptr m) as [pk|] eqn:E; [|done]. exfalso.
  apply (infinite_is_fresh ((map_to_list m).*1)). apply list_elem_of_fmap. exists (new_ptr m, pk).
  split; [done|]. by apply elem_of_map_to_list.
Qed.

Lemma insert_before_mid p r pre suf :
  p ∉ pre -> tailq_insert_before p r (pre ++ p :: suf) = pre ++ r :: p :: suf.
Proof.
  induction pre as [|x pre IH]; intros H; cbn; [by rewrite Z.eqb_refl|].
  apply not_elem_of_cons in H as [Hx H]. rewrite (proj2 (Z.eqb_neq x p)), IH by done. done.
Qed.

Lemma rings_record m p pk r rk :
  rings m -> m !! p = Some pk -> m !! r = None -> po_poison pk || po_mtu_probe pk = false ->
  po_loss_chain rk = po_loss_chain pk -> po_pns rk = po_pns pk -> po_poison rk || po_mtu_probe rk = false ->
  rings (<[p := with_chain pk r]> (<[r := rk]> m)).
Proof.
  intros R Hp Hr Hpk Ec Epn Erk. set (m' := <[p := with_chain pk r]> (<[r := rk]> m)).
  assert (Hpr : p ≠ r) by congruence.
  assert (Lp : m' !! p = Some (with_chain pk r)) by apply lookup_insert_eq.
  assert (Lr : m' !! r = Some rk) by (unfold m'; rewrite lookup_insert_ne by done; apply lookup_insert_eq).
  assert (Lo : forall z, z ≠ p -> z ≠ r -> m' !! z = m !! z) by (intros; unfold m'; rewrite !lookup_insert_ne; done).
  destruct (rg_ring _ R p) as [rest [S N]]; [eauto|]. pose proof S as [_ (w & Ew & Sw)].
  unfold chain in Ew. rewrite Hp in Ew. cbn in Ew. injection Ew as Ew. pose proof N as [Np Nr]%NoDup_cons.
  assert (Hrr : r ∉ p :: rest) by (intros H; destruct (seg_mem _ _ _ _ _ S H); congruence).
  assert (R' : on_ring m' p (r :: rest)).
  { split.
    - split; [done|]. exists r. unfold chain. rewrite Lp. split; [done|]. split; [done|].
      exists w. unfold chain. rewrite Lr. cbn. rewrite Ec, Ew. split; [done|]. eapply seg_ext; [|exact Sw].
      intros z Hz. unfold chain. rewrite Lo; [done| |]; intros ->; [done|]. apply Hrr. by right.
    - apply NoDup_cons. split; [|apply NoDup_cons; split; [|done]].
      + intros [->|H]%elem_of_cons; done.
      + intros H. apply Hrr. by right. }
  split.
  - intros z [zk Hz]. destruct (decide (z ∈ p :: r :: rest)) as [Hin|Hout].
    + destruct (on_ring_rotate _ _ _ _ R' Hin) as (l1 & l2 & _ & H). eauto.
    + assert (z ≠ p /\ z ≠ r /\ z ∉ p :: rest) as (Hzp & Hzr & Hzo) by set_solver.
      rewrite Lo in Hz by done. destruct (rg_ring _ R z) as [rest' [S' N']]; [eauto|]. exists rest'.
      split; [|done]. eapply seg_ext; [|exact S']. intros y Hy. unfold chain. rewrite Lo; [done| |].
      * intros ->. apply Hzo. apply (on_ring_same m p rest z rest' p); [done|done|by left|done].
      * intros ->. destruct (seg_mem _ _ _ _ _ S' Hy). congruence.
  - intros z zk Hz Hb. destruct (decide (z = p)) as [->|Hzp]; [|destruct (decide (z = r)) as [->|Hzr]].
    + rewrite Lp in Hz. injection Hz as <-. cbn in Hb. congruence.
    + rewrite Lr in Hz. injection Hz as <-. congruence.
    + rewrite Lo in Hz by done. by apply (rg_solo _ R).
  - assert (Hpn : forall z zk, m' !! z = Some zk -> z = p \/ z = r \/ m !! z = Some zk).
    { intros z zk Hz. destruct (decide (z = p)), (decide (z = r)); auto. rewrite Lo in Hz by done. auto. }
    assert (Hold : forall z zk qk, m !! z = Some zk -> m' !! po_loss_chain zk = Some qk -> po_pns qk = po_pns zk).
    { intros z zk qk Hz Hq. destruct (Hpn _ _ Hq) as [E|[E|Hq']].
      - rewrite E, Lp in Hq. injection Hq as <-. cbn. apply (rg_pns _ R z); [done|by rewrite E].
      - destruct (rg_ring _ R z) as [l' [[_ (v & Ev & Sv)] _]]; [eauto|]. unfold chain in Ev. rewrite Hz in Ev.
        cbn in Ev. injection Ev as <-. rewrite E in Sv. destruct l'; [cbn in Sv; subst; congruence|].
        destruct Sv as [-> (u & Eu & _)]. unfold chain in Eu. by rewrite Hr in Eu.
      - by apply (rg_pns _ R z). }
    intros z zk qk Hz Hq. destruct (Hpn _ _ Hz) as [->|[->|Hz']].
    + rewrite Lp in Hz. injection Hz as <-. cbn in *. rewrite Lr in Hq. injection Hq as <-. done.
    + rewrite Lr in Hz. injection Hz as <-. rewrite Epn. rewrite Ec in Hq. by apply (Hold p).
    + by apply (Hold z).
Qed.

(** ** Entering a queue *)

Lemma filter_ne_mid (p : Z) (pre suf : list Z) : p ∉ pre ++ suf -> filter (.≠ p) (pre ++ p :: suf) = pre ++ suf.
Proof.
  intros H. rewrite filter_app, filter_cons_False by naive_solver. apply not_elem_of_app in H as [H1 H2].
  by rewrite !filter_ne_absent.
Qed.

Lemma nodup_mid (p : Z) (pre suf : list Z) : p ∉ pre ++ suf -> NoDup (pre ++ suf) -> NoDup (pre ++ p :: suf).
Proof. intros. rewrite <- Permutation_middle. by apply NoDup_cons. Qed.

Lemma elem_mid (z p : Z) (pre suf : list Z) : z ∈ pre ++ p :: suf <-> z = p \/ z ∈ pre ++ suf.
Proof. rewrite !elem_of_app, elem_of_cons. naive_solver. Qed.

Section attach.
Context m q n p pk n' (W : wfq m q n) (Hp : m !! p = None) (Hok : packet_ok pk) (Hn : plus n pk n').

Lemma wfq_attach_unacked pre suf :
  po_unacked pk = true -> una q (home pk) = pre ++ suf ->
  wfq (<[p := pk]> m) (QS (<[home pk := pre ++ p :: suf]> (sc_unacked_packets q)) (sc_lost_packets q)
                          (sc_scheduled_packets q)) n'.
Proof using W Hp Hok Hn.
  intros Hu Hq. destruct (wf_out _ _ _ W _ Hp) as (A & B & C). destruct (wf_dups _ _ _ W) as (D1 & D2 & D3).
  pose proof (wf_len _ _ _ W) as Hl. pose proof (home_lt pk Hok) as Hh.
  assert (Ha : p ∉ pre ++ suf) by (rewrite <- Hq; apply A).
  assert (Hf : (po_lost pk = false /\ po_sched pk = false)).
  { destruct Hok as ((X & Y & Z) & _). rewrite Hu in *. destruct (po_sched pk), (po_lost pk); done. }
  destruct Hf as [E1 E2]. apply (wfq_attach m q n); try done.
  - split_and!; [|done..]. intros k. rewrite una_insert by lia. destruct (decide (k = home pk)) as [->|]; [|done].
    apply nodup_mid; [done|]. by rewrite <- Hq.
  - apply queues_eq; cbn; [by rewrite length_map, length_insert| |by apply filter_ne_absent..].
    intros k. rewrite una_qremove, una_insert by lia. destruct (decide (k = home pk)) as [->|].
    + by rewrite filter_ne_mid.
    + by apply filter_ne_absent.
  - split_and!; cbn; [|rewrite E1; split; [done|congruence]|rewrite E2; split; [done|congruence]].
    intros k. rewrite una_insert by lia. destruct (decide (k = home pk)) as [->|Hne].
    + rewrite elem_mid. naive_solver.
    + split; [intros H; by destruct (A k)|]. intros [_ E]. congruence.
Qed.

Lemma wfq_attach_lost pre suf :
  po_lost pk = true -> sc_lost_packets q = pre ++ suf ->
  wfq (<[p := pk]> m) (QS (sc_unacked_packets q) (pre ++ p :: suf) (sc_scheduled_packets q)) n'.
Proof using W Hp Hok Hn.
  intros Hu Hq. destruct (wf_out _ _ _ W _ Hp) as (A & B & C). destruct (wf_dups _ _ _ W) as (D1 & D2 & D3).
  assert (Ha : p ∉ pre ++ suf) by (by rewrite <- Hq).
  assert (Hf : (po_unacked pk = false /\ po_sched pk = false)).
  { destruct Hok as ((X & Y & Z) & _). rewrite Hu in *. destruct (po_sched pk), (po_unacked pk); done. }
  destruct Hf as [E1 E2]. apply (wfq_attach m q n); try done.
  - split_and!; [done| |done]. cbn. apply nodup_mid; [done|]. by rewrite <- Hq.
  - apply queues_eq; cbn; [by rewrite length_map| | |by apply filter_ne_absent].
    + intros k. rewrite una_qremove. by apply filter_ne_absent.
    + by rewrite filter_ne_mid.
  - split_and!; cbn; [|rewrite elem_mid; naive_solver|rewrite E2; split; [done|congruence]].
    intros k. rewrite E1. split; [intros H; by destruct (A k)|]. by intros [? _].
Qed.

Lemma wfq_attach_sched pre suf :
  po_sched pk = true -> sc_scheduled_packets q = pre ++ suf ->
  wfq (<[p := pk]> m) (QS (sc_unacked_packets q) (sc_lost_packets q) (pre ++ p :: suf)) n'.
Proof using W Hp Hok Hn.
  intros Hu Hq. destruct (wf_out _ _ _ W _ Hp) as (A & B & C). destruct (wf_dups _ _ _ W) as (D1 & D2 & D3).
  assert (Ha : p ∉ pre ++ suf) by (by rewrite <- Hq).
  assert (Hf : (po_unacked pk = false /\ po_lost pk = false)).
  { destruct Hok as ((X & Y & Z) & _). rewrite Hu in *. destruct (po_lost pk), (po_unacked pk); done. }
  destruct Hf as [E1 E2]. apply (wfq_attach m q n); try done.
  - split_and!; [done..|]. cbn. apply nodup_mid; [done|]. by rewrite <- Hq.
  - apply queues_eq; cbn; [by rewrite length_map| |by apply filter_ne_absent|].
    + intros k. rewrite una_qremove. by apply filter_ne_absent.
    + by rewrite filter_ne_mid.
  - split_and!; cbn; [|rewrite E2; split; [done|congruence]|rewrite elem_mid; naive_solver].
    intros k. rewrite E1. split; [intros H; by destruct (A k)|]. by intros [? _].
Qed.

End attach.

(** A sent packet that waits to be acknowledged. *)
Definition plain (pk : packet) : Prop := po_unacked pk = true /\ is_loss_rec pk = false /\ po_poison pk = false.

Lemma plain_home pk : plain pk -> home pk = po_pns pk.
Proof. intros (_ & _ & H). unfold home. by rewrite H. Qed.

Lemma plain_in_flight pk : plain pk -> in_flight pk = 1 /\ bytes_in_flight pk = packet_out_sent_sz pk.
Proof. intros (H1 & H2 & H3). unfold bytes_in_flight, in_flight. rewrite H1, H2, H3. lia. Qed.

Lemma loss_record_ok pk : packet_ok pk -> packet_ok (loss_record_of pk).
Proof.
  intros (_ & _ & _ & _ & Hf & Hs & _ & Hn & Hno). unfold packet_ok, loss_record_of, packet_out_sent_sz, packet_out_total_sz.
  cbn. fold (packet_out_sent_sz pk). split_and!; try done; try lia. all: try (intros _; done). all: naive_solver.
Qed.

Lemma with_chain_ok pk r : packet_ok pk -> packet_ok (with_chain pk r).
Proof. done. Qed.

Lemma record_loss_spec c p pk pre suf :
  wfq (sc_mem c) (sc_q c) (sc_n c) -> rings (sc_mem c) -> sc_mem c !! p = Some pk -> plain pk ->
  po_mtu_probe pk = false -> unacked c (po_pns pk) = pre ++ p :: suf -> hd true (sc_malo c) = true ->
  let r := new_ptr (sc_mem c) in
  let m' := <[p := with_chain pk r]> (<[r := loss_record_of pk]> (sc_mem c)) in
  exists n',
    send_ctl_record_loss c p
    = Ok (CTL m' (QS (<[po_pns pk := pre ++ r :: p :: suf]> (sc_unacked_packets (sc_q c)))
                     (sc_lost_packets (sc_q c)) (sc_scheduled_packets (sc_q c)))
              n' (sc_a c) (sc_art c) (tl (sc_malo c)), Some r)
    /\ wfq m' (QS (<[po_pns pk := pre ++ r :: p :: suf]> (sc_unacked_packets (sc_q c)))
                  (sc_lost_packets (sc_q c)) (sc_scheduled_packets (sc_q c))) n'
    /\ rings m' /\ r ≠ p /\ sc_mem c !! r = None.
Proof.
  intros W R Hp Hpl Hmtu Hq Hmal r m'. pose proof (new_ptr_fresh (sc_mem c)) as Hr. fold r in Hr.
  assert (Hne : r ≠ p) by congruence. pose proof (wf_pk _ _ _ W _ _ Hp) as Hok. cbn in Hok.
  destruct (wf_dups _ _ _ W) as (ND & _). specialize (ND (po_pns pk)). change (NoDup (unacked c (po_pns pk))) in ND.
  rewrite Hq in ND.
  assert (Hpre : p ∉ pre).
  { apply NoDup_app in ND as (_ & H & _). intros Hin. apply (H p Hin). by left. }
  assert (Hlen : (po_pns pk < length (sc_unacked_packets (sc_q c)))%nat).
  { rewrite (wf_len _ _ _ W). rewrite <- (plain_home pk Hpl). by apply home_lt. }
  set (n' := if fake pk =? 1 then add_in_flight (sc_n c) 1 (packet_out_sent_sz pk) 0 0 else sc_n c).
  exists n'. split_and!; try done.
  - unfold send_ctl_record_loss. rewrite (get_ok _ _ _ Hp). cbn [mbind res_bind malo_get]. rewrite Hmal.
    cbn [sc_mem set_malo]. fold r. unfold n'.
    assert (Hu : unacked (put (put (set_malo c (tl (sc_malo c))) r (loss_record_of pk)) p (with_chain pk r)) (po_pns pk)
                 = pre ++ p :: suf) by exact Hq.
    rewrite Hu, insert_before_mid by done. destruct (fake pk =? 1); reflexivity.
  - unfold m'. apply (wfq_edit _ _ _ _ pk); try done; [|by rewrite lookup_insert_ne].
    assert (Hh : home (loss_record_of pk) = po_pns pk) by done. rewrite <- Hh.
    apply (wfq_attach_unacked (sc_mem c) (sc_q c) (sc_n c)); try done.
    + by apply loss_record_ok.
    + pose proof (counted_u32 _ _ (wf_n _ _ _ W)) as (U1 & U2 & U3 & U4 & U5).
      unfold plus, n', bytes_in_flight, in_flight, bytes_scheduled, scheduled, lost, packet_out_sent_sz. cbn.
      destruct (fake pk =? 1); counts_tac.
  - apply rings_record; try done. destruct Hpl as (_ & _ & ->). by rewrite Hmtu.
Qed.

(** From the unacked to the lost queue. *)
Lemma lost_append_spec sc_retx_frames c p pk pre suf :
  wfq (sc_mem c) (sc_q c) (sc_n c) -> fits (sc_mem c) -> sc_mem c !! p = Some pk -> plain pk ->
  unacked c (po_pns pk) = pre ++ p :: suf ->
  exists n',
    lost_append sc_retx_frames c p (packet_out_sent_sz pk)
    = Ok (CTL (<[p := with_where pk false false true]> (sc_mem c))
              (QS (<[po_pns pk := pre ++ suf]> (sc_unacked_packets (sc_q c))) (sc_lost_packets (sc_q c) ++ [p])
                  (sc_scheduled_packets (sc_q c))) n' (sc_a c) (sc_art c) (sc_malo c))
    /\ wfq (<[p := with_where pk false false true]> (sc_mem c))
           (QS (<[po_pns pk := pre ++ suf]> (sc_unacked_packets (sc_q c))) (sc_lost_packets (sc_q c) ++ [p])
               (sc_scheduled_packets (sc_q c))) n'.
Proof.
  intros W Hf Hp Hpl Hq. pose proof (wf_pk _ _ _ W _ _ Hp) as Hok. cbn in Hok.
  destruct (unacked_remove_detach sc_retx_frames _ c p pk W Hf Hp Hp) as (n1 & E & Hm); try apply Hpl.
  assert (po_sched pk = false /\ po_lost pk = false) as [E1 E2].
  { destruct Hok as ((X & Y & Z) & _). destruct Hpl as (Hu & _). rewrite Hu in *. destruct (po_sched pk), (po_lost pk); done. }
  assert (HQ : qremove p (sc_q c) = QS (<[po_pns pk := pre ++ suf]> (sc_unacked_packets (sc_q c)))
                 (sc_lost_packets (sc_q c)) (sc_scheduled_packets (sc_q c))).
  { rewrite (qremove_unacked _ _ _ _ _ W Hp) by apply Hpl. rewrite plain_home by done.
    change (una (sc_q c) (po_pns pk)) with (unacked c (po_pns pk)). rewrite Hq, filter_ne_mid; [done|].
    destruct (wf_dups _ _ _ W) as (ND & _). specialize (ND (po_pns pk)).
    change (NoDup (unacked c (po_pns pk))) in ND. rewrite Hq, <- Permutation_middle in ND. by apply NoDup_cons in ND as [? _]. }
  pose proof (wfq_detach _ _ _ _ _ _ W Hp Hm) as W1. rewrite HQ in W1, E.
  exists (add_lost n1 1 0). split.
  - unfold lost_append. rewrite (get_ok _ _ _ Hp). cbn [mbind res_bind]. rewrite E2, E. cbn [mbind res_bind].
    unfold get. cbn. rewrite lookup_insert_eq. cbn. unfold put, set_n, set_lost, set_mem, set_q. cbn.
    rewrite insert_insert_eq, E1. done.
  - rewrite <- insert_delete_eq. apply (wfq_attach_lost (delete p (sc_mem c)) _ n1 p _ _ W1); cbn; try done.
    + apply lookup_delete_eq.
    + destruct Hok as (_ & A & B & C & D & F & G & H & I). unfold packet_ok. cbn. destruct Hpl as (_ & X & Y).
      rewrite X, Y. split_and!; try done; apply F || apply G.
    + pose proof (counted_u32 _ _ (wf_n _ _ _ W1)) as (U1 & U2 & U3 & U4 & U5).
      unfold plus, bytes_in_flight, in_flight, bytes_scheduled, scheduled, lost. cbn. counts_tac.
    + by rewrite app_nil_r.
Qed.

(** ** The ART fields *)

Definition art_ok (a : art_ctl) : Prop :=
  window_ok a /\ sc_largest_feedback_window a = 10 /\ length (sc_rounds_map a) = 20%nat.

Lemma art_duplicate_ok ctl t :
  art_ok ctl -> match art_duplicate_number ctl t with
                | Some (_, ctl') => art_ok ctl'
                | None => 0 <= t -> 20 <= t
                end.
Proof.
  intros (Hw & Hl & Hr). unfold art_duplicate_number.
  destruct (aget (sc_rounds_map ctl) t) as [x|] eqn:E; cbn.
  - apply aget_Some in E as [Ht E]. pose proof (lookup_lt_Some _ _ _ E).
    destruct (aset (sc_rounds_map ctl) t _) as [l|] eqn:E'; cbn.
    + apply aset_Some in E' as [_ ->]. unfold art_ok. cbn. by rewrite length_insert.
    + revert E'. unfold aset. ztest. done.
  - intros Ht. destruct (Z_lt_le_dec t 20) as [Hlt|]; [|done].
    destruct (aget_is_Some (sc_rounds_map ctl) t) as [y Hy]; [lia|congruence].
Qed.

Lemma schedule_keeps a init now rnd :
  let a' := (lsquic_packet_out_schedule_time a init now rnd).2 in
  po_packno a' = po_packno a /\ po_loss_rec a' = po_loss_rec a /\ po_fake_loss_rec a' = po_fake_loss_rec a.
Proof.
  unfold lsquic_packet_out_schedule_time. destruct (_ && _); [|done]. destruct (_ <=? 0); done.
Qed.

Lemma art_handle_lost_ok ctl a mr now rnd :
  art_ok ctl ->
  match art_handle_lost ctl a mr now rnd with
  | Some (ctl', a') => art_ok ctl' /\ po_packno a' = po_packno a /\ po_loss_rec a' = po_loss_rec a
                       /\ (po_fake_loss_rec a' = po_fake_loss_rec a \/ po_fake_loss_rec a' = 1)
  | None => 20 <= u16 (po_retrans_times a + 1)
  end.
Proof.
  intros Hok. unfold art_handle_lost. destruct (_ && _ && _); cbn -[lsquic_packet_out_schedule_time].
  - match goal with |- context [lsquic_packet_out_schedule_time ?x ?y ?z ?w] =>
      pose proof (schedule_keeps x y z w) as (H1 & H2 & H3) end.
    rewrite H1, H2, H3. cbn. auto.
  - destruct (sc_art_flag ctl =? 0); cbn -[lsquic_packet_out_schedule_time art_duplicate_number]; [auto|].
    pose proof (art_duplicate_ok ctl (u16 (po_retrans_times a + 1)) Hok) as Hd.
    destruct (art_duplicate_number ctl _) as [[d ctl']|]; cbn -[lsquic_packet_out_schedule_time].
    + match goal with |- context [lsquic_packet_out_schedule_time ?x ?y ?z ?w] =>
        pose proof (schedule_keeps x y z w) as (H1 & H2 & H3) end.
      rewrite H1, H2, H3. cbn. auto.
    + apply Hd. unfold u16. apply Z.mod_pos_bound. lia.
Qed.

(** ** The invariant *)

Definition pno (m : gmap Z packet) (p : Z) : Z := match m !! p with Some pk => packno pk | None => 0 end.
Definition pnos (c : send_ctl) (k : nat) : list Z := map (pno (sc_mem c)) (unacked c k).

Record wf (c : send_ctl) : Prop := {
  wf_q : wfq (sc_mem c) (sc_q c) (sc_n c);
  wf_r : rings (sc_mem c);
  wf_small : small (sc_mem c);
  wf_sorted : forall k, StronglySorted Z.lt (pnos c k);
  wf_art : art_ok (sc_art c)
}.

(** A packet whose next turn has no entry in [sc_rounds_map]. *)
Definition overdue (c : send_ctl) : Prop :=
  exists p pk, sc_mem c !! p = Some pk /\ plain pk /\ 20 <= u16 (po_retrans_times (pk_art pk) + 1).

(** What a packet keeps while it waits. *)
Definition trait (pk : packet) : Z * Z * nat := (po_retrans_times (pk_art pk), po_frame_types pk, po_pns pk).

Lemma trait_times pk pk' : trait pk = trait pk' -> po_retrans_times (pk_art pk) = po_retrans_times (pk_art pk').
Proof. unfold trait. congruence. Qed.

(** Packets that still wait are unchanged, allocations were used up, and the
    queues hold no new numbers. *)
Definition evolves (c c' : send_ctl) : Prop :=
  (exists l, sc_malo c = l ++ sc_malo c')
  /\ (forall z zk, sc_mem c' !! z = Some zk -> plain zk -> exists zk0,
        sc_mem c !! z = Some zk0 /\ plain zk0 /\ trait zk0 = trait zk)
  /\ (forall k, sublist (pnos c' k) (pnos c k)).

(** [Q] holds of the result; a fault is only possible for lack of memory or
    when a packet was declared lost more often than the table allows for. *)
Definition wp {A} (c : send_ctl) (r : res A) (Q : A -> Prop) : Prop :=
  match r with
  | Ok a => Q a
  | Fault Bug => False
  | Fault NoMemory => false ∈ sc_malo c
  | Fault Rounds => overdue c
  end.

Lemma wp_bind {A B} c (r : res A) (k : A -> res B) Q : wp c r (fun a => wp c (k a) Q) -> wp c (r ≫= k) Q.
Proof. by destruct r. Qed.

Lemma wp_mono {A} c (r : res A) (Q Q' : A -> Prop) : wp c r Q -> (forall a, Q a -> Q' a) -> wp c r Q'.
Proof. destruct r as [a|[]]; cbn; auto. Qed.

Lemma wp_evolves {A} c c' (r : res A) Q : evolves c c' -> wp c' r Q -> wp c r Q.
Proof.
  intros [[l E] [H _]] Hw. destruct r as [a|[]]; cbn in *; try done.
  - rewrite E. apply elem_of_app. by right.
  - destruct Hw as (p & pk & Hp & Hpl & Ht). destruct (H _ _ Hp Hpl) as (pk0 & Hp0 & Hpl0 & E0).
    exists p, pk0. by rewrite (trait_times _ _ E0).
Qed.

Lemma evolves_refl c : evolves c c.
Proof. split_and!; [by exists []|eauto|done]. Qed.

Lemma evolves_trans c c' c'' : evolves c c' -> evolves c' c'' -> evolves c c''.
Proof.
  intros [[l E] [H P]] [[l' E'] [H' P']]. split_and!; [exists (l ++ l'); by rewrite E, E', app_assoc| |intros k; by etrans; [apply P'|]].
  intros z zk Hz Hpl. destruct (H' _ _ Hz Hpl) as (zk1 & Hz1 & Hpl1 & E1).
  destruct (H _ _ Hz1 Hpl1) as (zk0 & Hz0 & Hpl0 & E0). exists zk0. split_and!; try done. congruence.
Qed.

Lemma malo_suffix (l : list bool) : exists l', l = l' ++ tl l.
Proof. destruct l as [|b l]; [by exists []|by exists [b]]. Qed.

(** The numbers by which losses are judged. *)
Definition crit (a : acked) : Z * Z * Z * Z * Z :=
  (sc_largest_acked_packno a, sc_largest_acked_sent_time a, sc_reord_thresh a, sh_last_sent a, sc_gap a).

Lemma lost_count_keeps c pk :
  wfq (sc_mem c) (sc_q c) (sc_n c) ->
  exists n' a', lost_count c pk = CTL (sc_mem c) (sc_q c) n' a' (sc_art c) (sc_malo c)
    /\ wfq (sc_mem c) (sc_q c) n' /\ crit a' = crit (sc_a c) /\ sc_n_in_flight_all n' = sc_n_in_flight_all (sc_n c)
    /\ (sc_loss_to a', sc_largest_sent_at_cutback a') = (sc_loss_to (sc_a c), sc_largest_sent_at_cutback (sc_a c)).
Proof.
  intros [A B C D E F]. unfold lost_count.
  assert (W' : wfq (sc_mem c) (sc_q c) (add_lost (sc_n c) 0 1)).
  { split; try done. pose proof (counted_u32 _ _ F) as (_ & _ & _ & _ & U5).
    destruct F as (F1 & F2 & F3 & F4 & F5). split_and!; cbn; try done. by rewrite Z.add_0_r, U5. }
  destruct (turn_over _).
  - destruct (has_flag (po_frame_types pk) FT_ACK); eexists _, _; split_and!; done.
  - exists (sc_n c), (sc_a c). split_and!; [by destruct c|done..].
Qed.

Lemma with_art_ok pk a :
  packet_ok pk -> po_packno a = packno pk -> po_loss_rec a = is_loss_rec pk ->
  (po_fake_loss_rec a = 0 \/ po_fake_loss_rec a = 1) -> po_poison pk = false -> packet_ok (with_art pk a).
Proof.
  intros (A & B & C & D & E & F & G & H & I) E1 E2 E3 E4. unfold packet_ok. cbn. rewrite E1, E2.
  split_and!; try done; try (apply A || apply F || apply G). intros X. congruence.
Qed.

Section lost.
Context (sc_retx_frames srtt min_rtt : Z) (env : Z -> Z * Z).
Local Abbreviation is_retx := (is_retx sc_retx_frames).

Lemma lost_stream_spec c p pk :
  wfq (sc_mem c) (sc_q c) (sc_n c) -> art_ok (sc_art c) -> sc_mem c !! p = Some pk ->
  po_unacked pk = false -> po_sched pk = false -> po_poison pk = false -> is_loss_rec pk = false ->
  match lost_stream min_rtt env c p with
  | Ok c' => exists a' art', c' = CTL (<[p := with_art pk a']> (sc_mem c)) (sc_q c) (sc_n c) (sc_a c) art' (sc_malo c)
      /\ po_packno a' = packno pk /\ wfq (sc_mem c') (sc_q c') (sc_n c') /\ art_ok art'
  | Fault f => f = Rounds /\ 20 <= u16 (po_retrans_times (pk_art pk) + 1)
  end.
Proof using.
  intros W Ha Hp E1 E2 E3 E4. unfold lost_stream. rewrite (get_ok _ _ _ Hp). cbn [mbind res_bind].
  pose proof (wf_pk _ _ _ W _ _ Hp) as Hok. cbn in Hok.
  destruct (negb _ && _); cbn [mbind res_bind].
  - pose proof (art_handle_lost_ok (sc_art c) (pk_art pk) min_rtt (env p).1 (env p).2 Ha) as H.
    destruct (art_handle_lost _ _ _ _ _) as [[art' a']|]; cbn; [|done].
    destruct H as (H1 & H2 & H3 & H4). exists a', art'.
    assert (W' : wfq (<[p := with_art pk a']> (sc_mem c)) (sc_q c) (sc_n c)).
    { apply (wfq_edit _ _ _ _ pk); try done.
      - apply with_art_ok; try done. destruct Hok as (_ & _ & _ & _ & F & _). destruct H4 as [->|]; auto.
      - unfold bytes_in_flight, in_flight, bytes_scheduled, scheduled. cbn. by rewrite E1, E2. }
    split_and!; done.
  - exists (pk_art pk), (sc_art c). replace (with_art pk (pk_art pk)) with pk by (by destruct pk).
    rewrite insert_id by done. split_and!; try done. by destruct c.
Qed.

(** Sums after the packet has moved to the lost queue. *)
Definition one_less (pk : packet) (m m' : gmap Z packet) : Prop :=
  msum in_flight m' = msum in_flight m - 1
  /\ msum bytes_in_flight m' = msum bytes_in_flight m - packet_out_sent_sz pk
  /\ msum scheduled m' = msum scheduled m.

Lemma sums_to_lost m p pk pk' :
  m !! p = Some pk -> plain pk -> packet_ok pk -> po_unacked pk' = false -> po_sched pk' = false ->
  one_less pk m (<[p := pk']> m).
Proof using.
  intros Hp Hpl Hok E1 E2. destruct (plain_in_flight _ Hpl) as [H1 H2].
  unfold one_less. rewrite !(msum_update _ _ _ _ _ Hp).
  assert (in_flight pk' = 0) as Z1 by (unfold in_flight; by rewrite E1).
  assert (bytes_in_flight pk' = 0) as Z2 by (unfold bytes_in_flight; lia).
  assert (scheduled pk' = 0) as Z3 by (unfold scheduled; by rewrite E2).
  assert (scheduled pk = 0) as Z4.
  { destruct Hok as ((X & _ & _) & _), Hpl as (Y & _). unfold scheduled. rewrite Y in X. by destruct (po_sched pk). }
  lia.
Qed.

(** The whole move, from the state in which the loss record is in place. *)
Lemma lost_move c p pk pre suf :
  wfq (sc_mem c) (sc_q c) (sc_n c) -> fits (sc_mem c) -> art_ok (sc_art c) -> sc_mem c !! p = Some pk -> plain pk ->
  unacked c (po_pns pk) = pre ++ p :: suf ->
  match (c ← lost_append sc_retx_frames c p (packet_out_sent_sz pk); lost_stream min_rtt env c p) with
  | Ok c' => exists pk' art' n',
      c' = CTL (<[p := pk']> (sc_mem c))
               (QS (<[po_pns pk := pre ++ suf]> (sc_unacked_packets (sc_q c))) (sc_lost_packets (sc_q c) ++ [p])
                   (sc_scheduled_packets (sc_q c))) n' (sc_a c) art' (sc_malo c)
      /\ link pk' = link pk /\ po_unacked pk' = false /\ po_lost pk' = true /\ packno pk' = packno pk
      /\ wfq (sc_mem c') (sc_q c') (sc_n c') /\ art_ok art' /\ one_less pk (sc_mem c) (sc_mem c')
  | Fault f => f = Rounds /\ 20 <= u16 (po_retrans_times (pk_art pk) + 1)
  end.
Proof using.
  intros W Hf Ha Hp Hpl Hq. destruct (lost_append_spec sc_retx_frames _ _ _ _ _ W Hf Hp Hpl Hq) as (n1 & E & W1).
  rewrite E. cbn [mbind res_bind].
  match goal with |- context [lost_stream _ _ ?c1 _] =>
    pose proof (lost_stream_spec c1 p (with_where pk false false true) W1 Ha (lookup_insert_eq _ _ _)
                  eq_refl eq_refl) as H end.
  destruct (lost_stream _ _ _ _) as [c'|f]; [|apply H; apply Hpl].
  destruct H as (a' & art' & -> & H1 & H2 & H3); [apply Hpl..|]. cbn [sc_mem sc_n sc_q sc_a sc_malo] in *.
  rewrite insert_insert_eq in *.
  exists (with_art (with_where pk false false true) a'), art', n1. split_and!; try done.
  apply sums_to_lost; try done. apply (wf_pk _ _ _ W _ _ Hp).
Qed.

(** *** A lost packet with frames to retransmit *)

Record lost_retx_post (c : send_ctl) (p : Z) (pk : packet) (pre suf : list Z) (c' : send_ctl) (r : option Z) : Prop := {
  lr_wf : wf c';
  lr_ev : evolves c c';
  lr_shrinks : shrinks (sc_mem c) (sc_mem c');
  lr_crit : crit (sc_a c') = crit (sc_a c)
            /\ (sc_loss_to (sc_a c'), sc_largest_sent_at_cutback (sc_a c'))
               = (sc_loss_to (sc_a c), sc_largest_sent_at_cutback (sc_a c));
  lr_lost : sc_lost_packets (sc_q c') = sc_lost_packets (sc_q c) ++ [p];
  lr_here : unacked c' (po_pns pk) = pre ++ option_list r ++ suf;
  lr_else : forall k, k ≠ po_pns pk -> unacked c' k = unacked c k;
  lr_frame : forall z, z ≠ p -> is_Some (sc_mem c !! z) -> sc_mem c' !! z = sc_mem c !! z;
  lr_rec : match r with
           | Some r => sc_mem c !! r = None /\ exists rk, sc_mem c' !! r = Some rk /\ is_loss_rec rk = true
                       /\ po_pns rk = po_pns pk
           | None => hd true (sc_malo c) = false
           end;
  lr_flight : msum in_flight (sc_mem c') = msum in_flight (sc_mem c) - 1
              + (if r is Some _ then (if fake pk =? 1 then 1 else 0) else 0)
}.

Lemma sublist_sorted (l' l : list Z) : sublist l' l -> StronglySorted Z.lt l -> StronglySorted Z.lt l'.
Proof using.
  induction 1 as [|x l1 l2 H IH|x l1 l2 H IH]; intros S; [constructor| |].
  - apply StronglySorted_inv in S as [S F]. constructor; [by apply IH|].
    rewrite Forall_forall in F |- *. intros y Hy. apply F. by eapply elem_of_submseteq, sublist_submseteq.
  - apply StronglySorted_inv in S as [S F]. by apply IH.
Qed.

(** Numbers in a queue whose packets keep theirs. *)
Lemma pno_map_ext m m' l : (forall z, z ∈ l -> pno m' z = pno m z) -> map (pno m') l = map (pno m) l.
Proof using. intros H. apply list_fmap_ext. intros i z Hz. apply H. by apply list_elem_of_lookup_2 in Hz. Qed.

Lemma pno_eq m m' z : m' !! z = m !! z -> pno m' z = pno m z.
Proof using. unfold pno. by intros ->. Qed.

(** Only [p] and its record changed, and both have the number of [p]. *)
Lemma pnos_lost c c' p pk pre suf r :
  wf c -> sc_mem c !! p = Some pk -> unacked c (po_pns pk) = pre ++ p :: suf ->
  unacked c' (po_pns pk) = pre ++ option_list r ++ suf ->
  (forall k, k ≠ po_pns pk -> unacked c' k = unacked c k) ->
  (forall z, z ≠ p -> is_Some (sc_mem c !! z) -> sc_mem c' !! z = sc_mem c !! z) ->
  (forall x, r = Some x -> pno (sc_mem c') x = packno pk) ->
  plain pk -> forall k, sublist (pnos c' k) (pnos c k).
Proof using.
  intros W Hp Hq Hq' He Hfr Hr Hpl k. pose proof (wf_q _ W) as WQ.
  assert (HM : forall k z, z ∈ unacked c k -> is_Some (sc_mem c !! z)).
  { intros j z Hz. destruct (sc_mem c !! z) eqn:E; [eauto|]. destruct (wf_out _ _ _ WQ _ E) as (A & _). by destruct (A j). }
  assert (HN : NoDup (unacked c (po_pns pk))) by apply WQ.
  assert (Hsame : forall j z, z ≠ p -> z ∈ unacked c j -> pno (sc_mem c') z = pno (sc_mem c) z).
  { intros j z Hz Hin. apply pno_eq, Hfr; [done|]. by apply (HM j). }
  destruct (decide (k = po_pns pk)) as [->|Hk].
  - unfold pnos in *. rewrite Hq'. rewrite Hq in HN |- *.
    assert (Hpre : forall z, z ∈ pre ++ suf -> pno (sc_mem c') z = pno (sc_mem c) z).
    { intros z Hz. apply (Hsame (po_pns pk)); [|rewrite Hq; apply elem_mid; auto].
      intros ->. rewrite <- Permutation_middle in HN. by apply NoDup_cons in HN as [? _]. }
    rewrite !map_app. rewrite (pno_map_ext (sc_mem c) (sc_mem c') pre), (pno_map_ext (sc_mem c) (sc_mem c') suf)
      by (intros; apply Hpre, elem_of_app; auto).
    apply sublist_app; [done|]. cbn [map].
    destruct r as [x|]; cbn; [|by apply sublist_cons].
    rewrite (Hr x eq_refl). unfold pno at 2. by rewrite Hp.
  - unfold pnos in *. rewrite He by done. rewrite (pno_map_ext (sc_mem c) (sc_mem c')); [done|].
    intros z Hz. apply (Hsame k); [|done]. intros ->.
    destruct (wf_in _ _ _ WQ _ _ Hp) as (A & _). apply A in Hz as [_ Hz]. rewrite plain_home in Hz by done. congruence.
Qed.

Lemma small_record m p pk r rk :
  small m -> m !! p = Some pk -> m !! r = None -> packet_ok rk ->
  scheduled rk = 0 -> fits (<[p := with_chain pk r]> (<[r := rk]> m)).
Proof using.
  intros (A & B & C) Hp Hr Hok Hs. assert (Hpr : p ≠ r) by congruence.
  assert (Hp' : <[r := rk]> m !! p = Some pk) by (by rewrite lookup_insert_ne).
  unfold fits, below. rewrite !(msum_update _ _ _ _ _ Hp'), !msum_insert by done.
  assert (in_flight (with_chain pk r) = in_flight pk /\ bytes_in_flight (with_chain pk r) = bytes_in_flight pk
          /\ scheduled (with_chain pk r) = scheduled pk) as (-> & -> & ->) by done.
  destruct Hok as (_ & _ & _ & _ & _ & Hz & _). rewrite Hs.
  assert (0 <= in_flight rk <= 1).
  { unfold in_flight. destruct (po_unacked rk), (is_loss_rec rk), (fake rk =? 1), (po_poison rk); lia. }
  assert (bytes_in_flight rk < 2 ^ 16) by (unfold bytes_in_flight; nia). lia.
Qed.

(** The state in which the loss record, if memory allowed for one, is in place. *)
Record recorded (c : send_ctl) (p : Z) (pk : packet) (pre suf : list Z) (c' : send_ctl) (r : option Z) : Prop := {
  rd_q : wfq (sc_mem c') (sc_q c') (sc_n c');
  rd_r : rings (sc_mem c');
  rd_fits : fits (sc_mem c');
  rd_art : sc_art c' = sc_art c;
  rd_p : exists ch, sc_mem c' !! p = Some (with_chain pk ch);
  rd_here : unacked c' (po_pns pk) = (pre ++ option_list r) ++ p :: suf;
  rd_else : forall k, k ≠ po_pns pk -> unacked c' k = unacked c k;
  rd_lost : sc_lost_packets (sc_q c') = sc_lost_packets (sc_q c);
  rd_frame : forall z, z ≠ p -> is_Some (sc_mem c !! z) -> sc_mem c' !! z = sc_mem c !! z;
  rd_malo : sc_malo c' = tl (sc_malo c);
  rd_rec : match r with
           | Some r => sc_mem c !! r = None /\ sc_mem c' !! r = Some (loss_record_of pk)
           | None => hd true (sc_malo c) = false
           end;
  rd_new : forall z, sc_mem c !! z = None -> is_Some (sc_mem c' !! z) -> r = Some z;
  rd_sums : let f := if r is Some _ then (if fake pk =? 1 then 1 else 0) else 0 in
            msum in_flight (sc_mem c') = msum in_flight (sc_mem c) + f
            /\ msum bytes_in_flight (sc_mem c') = msum bytes_in_flight (sc_mem c) + f * packet_out_sent_sz pk
            /\ msum scheduled (sc_mem c') = msum scheduled (sc_mem c)
}.

Lemma record_loss_recorded c p pk pre suf :
  wf c -> sc_mem c !! p = Some pk -> plain pk -> po_mtu_probe pk = false -> unacked c (po_pns pk) = pre ++ p :: suf ->
  exists c' r, send_ctl_record_loss c p = Ok (c', r) /\ recorded c p pk pre suf c' r /\ sc_a c' = sc_a c.
Proof using.
  intros W Hp Hpl Hmtu Hq. pose proof (wf_q _ W) as WQ. pose proof (wf_pk _ _ _ WQ _ _ Hp) as Hok. cbn in Hok.
  destruct (hd true (sc_malo c)) eqn:Em.
  - destruct (record_loss_spec c p pk pre suf) as (n2 & E & W2 & R2 & Hrp & Hr); try done; [by apply W|].
    set (r := new_ptr (sc_mem c)) in *. eexists _, (Some r). split; [exact E|]. split; [|done].
    assert (Hlen : (po_pns pk < length (sc_unacked_packets (sc_q c)))%nat).
    { rewrite (wf_len _ _ _ WQ), <- (plain_home pk Hpl). by apply home_lt. }
    assert (Hp' : <[r := loss_record_of pk]> (sc_mem c) !! p = Some pk) by (by rewrite lookup_insert_ne).
    split; cbn [sc_mem sc_q sc_n sc_art sc_a sc_malo sc_lost_packets]; try done.
    + apply small_record; try done; [by apply W|by apply loss_record_ok].
    + exists r. by rewrite lookup_insert_eq.
    + unfold unacked. cbn. rewrite list_lookup_insert_eq by done. cbn. by rewrite <- app_assoc.
    + intros k Hk. unfold unacked. cbn. by rewrite list_lookup_insert_ne.
    + intros z Hz [zk Hzk]. rewrite !lookup_insert_ne; [done|congruence|done].
    + split; [done|]. rewrite lookup_insert_ne by done. by rewrite lookup_insert_eq.
    + intros z Hz [zk Hzk]. destruct (decide (z = r)) as [->|Hzr]; [done|].
      rewrite lookup_insert_ne, lookup_insert_ne in Hzk by congruence. congruence.
    + rewrite !(msum_update _ _ _ _ _ Hp'), !msum_insert by done.
      assert (in_flight (with_chain pk r) = in_flight pk /\ bytes_in_flight (with_chain pk r) = bytes_in_flight pk
              /\ scheduled (with_chain pk r) = scheduled pk) as (-> & -> & ->) by done.
      assert (in_flight (loss_record_of pk) = if fake pk =? 1 then 1 else 0) as Ei by done.
      unfold bytes_in_flight at 1. rewrite Ei.
      assert (packet_out_sent_sz (loss_record_of pk) = packet_out_sent_sz pk) as -> by done.
      assert (scheduled (loss_record_of pk) = 0) as -> by done. lia.
  - exists (set_malo c (tl (sc_malo c))), None. split_and!; [|split; cbn; try done|done].
    + unfold send_ctl_record_loss. rewrite (get_ok _ _ _ Hp). cbn. by rewrite Em.
    + apply W.
    + apply small_fits, W.
    + exists (po_loss_chain pk). rewrite Hp. by destruct pk.
    + by rewrite app_nil_r.
    + intros z Hz [zk Hzk]. congruence.
    + lia.
Qed.

Lemma handle_retx_tail c c2 p pk pre suf r :
  wf c -> sc_mem c !! p = Some pk -> plain pk -> unacked c (po_pns pk) = pre ++ p :: suf ->
  recorded c p pk pre suf c2 r ->
  crit (sc_a c2) = crit (sc_a c) ->
  (sc_loss_to (sc_a c2), sc_largest_sent_at_cutback (sc_a c2))
  = (sc_loss_to (sc_a c), sc_largest_sent_at_cutback (sc_a c)) ->
  match (c ← lost_append sc_retx_frames c2 p (packet_out_sent_sz pk); lost_stream min_rtt env c p) with
  | Ok c' => lost_retx_post c p pk pre suf c' r
  | Fault f => f = Rounds /\ overdue c
  end.
Proof using.
  intros W Hp Hpl Hq [D1 D2 D3 D4 [ch D5] D6 D7 D8 D9 D10 D11 D12 D13] Ecr Eto.
  pose proof (wf_pk _ _ _ (wf_q _ W) _ _ Hp) as Hok. cbn in Hok.
  pose proof (lost_move c2 p (with_chain pk ch) (pre ++ option_list r) suf D1 D3) as HM.
  rewrite D4 in HM. specialize (HM (wf_art _ W) D5 Hpl D6).
  change (packet_out_sent_sz (with_chain pk ch)) with (packet_out_sent_sz pk) in HM.
  destruct (c ← lost_append _ _ _ _; lost_stream _ _ _ _) as [c'|f].
  2: { destruct HM as [-> Ht]. split; [done|]. by exists p, pk. }
  destruct HM as (pk' & art' & n' & -> & Hlk & Hu & Hlo & Hno & W' & Ha & S1 & S2 & S3).
  cbn [sc_mem sc_q sc_n] in *. change (po_pns (with_chain pk ch)) with (po_pns pk) in *.
  assert (Hlen : (po_pns pk < length (sc_unacked_packets (sc_q c2)))%nat).
  { rewrite (wf_len _ _ _ D1), <- (plain_home pk Hpl). by apply home_lt. }
  match goal with |- lost_retx_post _ _ _ _ _ ?c _ => set (c3 := c) end.
  assert (Hhere : unacked c3 (po_pns pk) = pre ++ option_list r ++ suf).
  { unfold unacked. cbn. rewrite list_lookup_insert_eq by done. cbn. by rewrite <- app_assoc. }
  assert (Helse : forall k, k ≠ po_pns pk -> unacked c3 k = unacked c k).
  { intros k Hk. rewrite <- D7 by done. unfold unacked. cbn. by rewrite list_lookup_insert_ne. }
  assert (Hfr : forall z, z ≠ p -> is_Some (sc_mem c !! z) -> sc_mem c3 !! z = sc_mem c !! z).
  { intros z Hz Hs. unfold c3. cbn. rewrite lookup_insert_ne by done. by apply D9. }
  assert (Hrec : forall x, r = Some x -> sc_mem c3 !! x = Some (loss_record_of pk)).
  { intros x ->. destruct D11 as [Hx E]. unfold c3. cbn. rewrite lookup_insert_ne; congruence. }
  destruct (plain_in_flight _ Hpl) as [P1 P2].
  assert (0 <= packet_out_sent_sz pk) by (destruct Hok as (_ & _ & _ & _ & _ & [? _] & _); done).
  destruct D13 as (F1 & F2 & F3).
  change (packet_out_sent_sz (with_chain pk ch)) with (packet_out_sent_sz pk) in S2.
  assert (Hsh : shrinks (sc_mem c) (sc_mem c3)).
  { unfold shrinks, c3. cbn [sc_mem]. rewrite S1, S2, S3, F1, F2, F3.
    destruct r; [destruct (fake pk =? 1)|]; lia. }
  assert (Hpn : forall k, sublist (pnos c3 k) (pnos c k)).
  { eapply (pnos_lost c c3 p pk pre suf r); try done. intros x Hx. unfold pno. by rewrite (Hrec x Hx). }
  split; try done.
  - split; try done.
    + eapply rings_ext; [|exact D2]. intros z. cbn. destruct (decide (z = p)) as [->|Hz].
      * rewrite lookup_insert_eq, D5. cbn. by rewrite Hlk.
      * by rewrite lookup_insert_ne.
    + eapply below_shrinks; [apply W|exact Hsh].
    + intros k. eapply sublist_sorted; [apply Hpn|apply W].
  - split_and!; [| |apply Hpn].
    + unfold c3. cbn. rewrite D10. apply malo_suffix.
    + intros z zk Hz Hzpl. cbn in Hz. destruct (decide (z = p)) as [->|Hzp].
      * rewrite lookup_insert_eq in Hz. injection Hz as <-. destruct Hzpl as (? & _). congruence.
      * destruct (sc_mem c !! z) as [zk0|] eqn:E0.
        -- rewrite lookup_insert_ne, D9, E0 in Hz by eauto. injection Hz as <-. eauto.
        -- rewrite lookup_insert_ne in Hz by done. rewrite (D12 z E0) in D11 by eauto. destruct D11 as [_ D11].
           rewrite D11 in Hz. injection Hz as <-. by destruct Hzpl as (_ & ? & _).
  - unfold c3. cbn. by rewrite D8.
  - destruct r as [x|]; [|done]. destruct D11 as [Hx _]. split; [done|]. eexists. by rewrite (Hrec x eq_refl).
  - unfold c3. cbn [sc_mem]. lia.
Qed.

Lemma handle_retx c p pk pre suf next :
  wf c -> sc_mem c !! p = Some pk -> plain pk -> po_mtu_probe pk = false -> is_retx pk = true ->
  unacked c (po_pns pk) = pre ++ p :: suf ->
  match send_ctl_handle_regular_lost_packet sc_retx_frames min_rtt env c p next with
  | Ok (c', r, next') => next' = next /\ lost_retx_post c p pk pre suf c' r
  | Fault f => f = Rounds /\ overdue c
  end.
Proof using.
  intros W Hp Hpl Hmtu Hrx Hq. pose proof (wf_q _ W) as WQ.
  unfold send_ctl_handle_regular_lost_packet. rewrite (get_ok _ _ _ Hp). cbn [mbind res_bind].
  destruct (counted_exact _ _ _ WQ (small_fits _ (wf_small _ W))) as (HN & _).
  destruct (weights_le _ _ _ _ _ WQ Hp) as (HW & _). destruct (plain_in_flight _ Hpl) as [H1 H2].
  unfold check. rewrite (proj2 (Z.eqb_neq _ 0)) by lia. cbn [negb mbind res_bind]. rewrite Hrx.
  assert (is_loss_rec pk = false) as -> by apply Hpl.
  destruct (lost_count_keeps c pk WQ) as (n1 & a1 & -> & W1 & Ecr & En & Eto).
  set (c1 := CTL (sc_mem c) (sc_q c) n1 a1 (sc_art c) (sc_malo c)).
  assert (Wf1 : wf c1) by (by destruct W; split).
  destruct (record_loss_recorded c1 p pk pre suf) as (c2 & r & -> & D & Ea); try done. cbn [mbind res_bind].
  pose proof (handle_retx_tail c1 c2 p pk pre suf r Wf1 Hp Hpl Hq D) as HT. rewrite Ea in HT.
  specialize (HT eq_refl eq_refl).
  destruct (lost_append sc_retx_frames c2 p (packet_out_sent_sz pk)) as [c3|f3]; cbn [mbind res_bind] in HT |- *; [|done].
  destruct (lost_stream min_rtt env c3 p) as [c4|f4]; cbn [mbind res_bind]; [|done].
  split; [done|]. destruct HT as [A1 A2 A3 [A4 A4'] A5 A6 A7 A8 A9 A10]. split; try done.
  cbn in A4, A4'. by rewrite A4, A4'.
Qed.

End lost.

(** *** Packets that leave with their chain *)

Record gone (c : send_ctl) (l : list Z) (c' : send_ctl) : Prop := {
  gn_wf : wf c';
  gn_ev : evolves c c';
  gn_shrinks : shrinks (sc_mem c) (sc_mem c');
  gn_mem : sc_mem c' = dels l (sc_mem c);
  gn_una : forall k, unacked c' k = filter (.∉ l) (unacked c k);
  gn_lost : sc_lost_packets (sc_q c') = filter (.∉ l) (sc_lost_packets (sc_q c))
}.

Lemma lost_qremoves l : forall q, sc_lost_packets (qremoves l q) = filter (.∉ l) (sc_lost_packets q).
Proof. induction l as [|x l IH]; intros q; cbn; [by rewrite filter_nil_id|]. by rewrite IH, <- filter_twice. Qed.

Lemma shrinks_dels l : forall m, map_Forall (fun _ pk => packet_ok pk) m -> shrinks m (dels l m).
Proof.
  induction l as [|x l IH]; intros m H; [apply shrinks_refl|]. cbn.
  eapply shrinks_trans; [by apply (shrinks_delete m x)|]. apply IH. by apply map_Forall_delete.
Qed.

Lemma dels_insert l : forall m p pk, p ∈ l -> dels l (<[p := pk]> m) = dels l m.
Proof.
  intros m p pk H. apply map_eq. intros z. rewrite !lookup_dels. destruct (decide (z ∈ l)); [done|].
  rewrite lookup_insert_ne; [done|]. congruence.
Qed.

Lemma sublist_map (f : Z -> Z) l l' : sublist l l' -> sublist (map f l) (map f l').
Proof. induction 1; cbn; by constructor. Qed.

Lemma gone_intro c c3 l :
  wf c -> sc_mem c3 = dels l (sc_mem c) -> sc_q c3 = qremoves l (sc_q c) ->
  wfq (sc_mem c3) (sc_q c3) (sc_n c3) -> rings (sc_mem c3) -> art_ok (sc_art c3) ->
  (exists l, sc_malo c = l ++ sc_malo c3) -> gone c l c3.
Proof.
  intros W Em Eq W3 R3 Ha Hm. pose proof (wf_q _ W) as WQ.
  assert (Hu : forall k, unacked c3 k = filter (.∉ l) (unacked c k)).
  { intros k. transitivity (una (sc_q c3) k); [done|]. rewrite Eq. apply una_qremoves. }
  assert (Hsh : shrinks (sc_mem c) (sc_mem c3)) by (rewrite Em; apply shrinks_dels, (wf_pk _ _ _ WQ)).
  assert (Hpn : forall k, sublist (pnos c3 k) (pnos c k)).
  { intros k. unfold pnos. rewrite Hu, (pno_map_ext (sc_mem c)).
    - apply sublist_map, sublist_filter.
    - intros z [Hz _]%list_elem_of_filter. apply pno_eq. by rewrite Em, lookup_dels, decide_False. }
  split; [split| | | | |]; try done.
  - eapply below_shrinks; [apply W|exact Hsh].
  - intros k. eapply sublist_sorted; [apply Hpn|apply W].
  - split_and!; [done| |done]. intros z zk Hz Hpl. rewrite Em, lookup_dels in Hz. destruct (decide _); [done|]. eauto.
  - rewrite Eq. apply lost_qremoves.
Qed.

Lemma retire_wf sc_retx_frames c c1 p pk pk1 rest pre suf next :
  wf c -> sc_mem c !! p = Some pk -> on_ring (sc_mem c) p rest ->
  unacked c (po_pns pk) = pre ++ p :: suf -> next = head suf ->
  sc_mem c1 = <[p := pk1]> (sc_mem c) -> link pk1 = link pk -> sc_q c1 = qremove p (sc_q c) ->
  wfq (delete p (sc_mem c)) (qremove p (sc_q c)) (sc_n c1) -> art_ok (sc_art c1) ->
  (exists l, sc_malo c = l ++ sc_malo c1) ->
  exists c2 c3, send_ctl_destroy_chain sc_retx_frames c1 p next = Ok (c2, head (filter (.∉ p :: rest) suf))
    /\ send_ctl_destroy_packet c2 p = Ok c3 /\ gone c (p :: rest) c3 /\ sc_a c3 = sc_a c1.
Proof.
  intros W Hp HR Hq Hn Em El Eq W1 Ha Hm. pose proof (wf_q _ W) as WQ.
  assert (Elk : forall z, link <$> sc_mem c1 !! z = link <$> sc_mem c !! z).
  { intros z. rewrite Em. destruct (decide (z = p)) as [->|Hz].
    - rewrite lookup_insert_eq, Hp. cbn. by rewrite El.
    - by rewrite lookup_insert_ne. }
  assert (Hdel : delete p (sc_mem c1) = delete p (sc_mem c)) by (by rewrite Em, delete_insert_eq).
  assert (Hnd : NoDup (unacked c (po_pns pk))) by apply WQ.
  rewrite Hq, <- Permutation_middle in Hnd. apply NoDup_cons in Hnd as [Hnp _].
  destruct (retire_spec sc_retx_frames c1 p pk1 rest next pre suf) as (c2 & n' & E1 & E2 & W2).
  - by rewrite Hdel, Eq.
  - rewrite Hdel. eapply below_shrinks; [apply small_fits, W|]. apply shrinks_delete, (wf_pk _ _ _ WQ).
  - eapply rings_ext; [|apply (wf_r _ W)]. done.
  - rewrite Em. apply lookup_insert_eq.
  - destruct HR as [S N]. split; [|done]. eapply seg_ext; [|exact S]. intros z _. unfold chain.
    specialize (Elk z). destruct (sc_mem c1 !! z), (sc_mem c !! z); cbn in *; try done. unfold link in Elk. congruence.
  - assert (po_pns pk1 = po_pns pk) as -> by (unfold link in El; congruence).
    transitivity (una (sc_q c1) (po_pns pk)); [done|]. rewrite Eq, una_qremove.
    change (una (sc_q c) (po_pns pk)) with (unacked c (po_pns pk)). by rewrite Hq, filter_ne_mid.
  - done.
  - assert (Hd : dels (p :: rest) (sc_mem c1) = dels (p :: rest) (sc_mem c)) by (rewrite Em; by apply dels_insert; left).
    rewrite Hd, Eq in E2, W2. eexists c2, _. split_and!; [|exact E2| |done].
    + rewrite E1. do 3 f_equal. rewrite <- (filter_ne_absent p suf) at 1; [by rewrite filter_twice|].
      intros H. apply Hnp, elem_of_app. auto.
    + change (qremoves rest (qremove p (sc_q c))) with (qremoves (p :: rest) (sc_q c)) in *.
      apply gone_intro; try done. apply rings_dels; [apply W|done].
Qed.

Section gone.
Context (sc_retx_frames srtt min_rtt : Z) (env : Z -> Z * Z).
Local Abbreviation is_retx := (is_retx sc_retx_frames).

(** A lost packet without frames to retransmit. *)
Lemma handle_other c p pk rest pre suf next :
  wf c -> sc_mem c !! p = Some pk -> plain pk -> is_retx pk = false -> on_ring (sc_mem c) p rest ->
  unacked c (po_pns pk) = pre ++ p :: suf -> next = head suf ->
  exists c', send_ctl_handle_regular_lost_packet sc_retx_frames min_rtt env c p next
             = Ok (c', None, head (filter (.∉ p :: rest) suf))
    /\ gone c (p :: rest) c' /\ crit (sc_a c') = crit (sc_a c)
    /\ (sc_loss_to (sc_a c'), sc_largest_sent_at_cutback (sc_a c'))
       = (sc_loss_to (sc_a c), sc_largest_sent_at_cutback (sc_a c)).
Proof using.
  intros W Hp Hpl Hrx HR Hq Hn. pose proof (wf_q _ W) as WQ.
  unfold send_ctl_handle_regular_lost_packet. rewrite (get_ok _ _ _ Hp). cbn [mbind res_bind].
  destruct (counted_exact _ _ _ WQ (small_fits _ (wf_small _ W))) as (HN & _).
  destruct (weights_le _ _ _ _ _ WQ Hp) as (HW & _). destruct (plain_in_flight _ Hpl) as [H1 H2].
  unfold check. rewrite (proj2 (Z.eqb_neq _ 0)) by lia. cbn [negb mbind res_bind]. rewrite Hrx.
  destruct (lost_count_keeps c pk WQ) as (n1 & a1 & -> & W1 & Ecr & En & Eto).
  set (c1 := CTL (sc_mem c) (sc_q c) n1 a1 (sc_art c) (sc_malo c)).
  destruct (unacked_remove_detach sc_retx_frames (sc_mem c) c1 p pk) as (n2 & -> & Hm); try done; try apply Hpl.
  { apply small_fits, W. }
  cbn [mbind res_bind].
  match goal with |- context [send_ctl_destroy_chain _ ?x _ _] => set (c2 := x) end.
  destruct (retire_wf sc_retx_frames c c2 p pk (with_where pk (po_sched pk) false (po_lost pk)) rest pre suf next)
    as (c3 & c4 & -> & E2 & HG & Ea); try done.
  - by apply (wfq_detach _ _ n1 p pk).
  - apply W.
  - by exists [].
  - cbn [mbind res_bind]. rewrite E2. cbn [mbind res_bind]. exists c4. split_and!; try done; by rewrite Ea.
Qed.

Lemma handle_mtu c p pk pre suf :
  wf c -> sc_mem c !! p = Some pk -> plain pk -> po_mtu_probe pk = true ->
  unacked c (po_pns pk) = pre ++ p :: suf ->
  exists c', send_ctl_handle_lost_mtu_probe sc_retx_frames c p = Ok c'
    /\ gone c [p] c' /\ sc_a c' = sc_a c /\ on_ring (sc_mem c) p [] /\ filter (.∉ [p]) suf = suf.
Proof using.
  intros W Hp Hpl Hmtu Hq. pose proof (wf_q _ W) as WQ.
  assert (Hch : po_loss_chain pk = p) by (apply (rg_solo _ (wf_r _ W) _ _ Hp); rewrite Hmtu; by destruct (po_poison pk)).
  assert (HR : on_ring (sc_mem c) p []).
  { split; [|apply NoDup_singleton]. split; [done|]. exists p. unfold chain. rewrite Hp. cbn. by rewrite Hch. }
  unfold send_ctl_handle_lost_mtu_probe. rewrite (get_ok _ _ _ Hp). cbn [mbind res_bind].
  destruct (unacked_remove_detach sc_retx_frames (sc_mem c) c p pk) as (n2 & -> & Hm); try done; try apply Hpl.
  { apply small_fits, W. }
  cbn [mbind res_bind]. unfold get. cbn. rewrite lookup_insert_eq. cbn. rewrite Hch, Z.eqb_refl. cbn.
  unfold send_ctl_destroy_packet, get. cbn. rewrite lookup_insert_eq. cbn. eexists. split; [done|].
  split_and!; try done.
  - apply gone_intro; cbn; try done.
    + by rewrite delete_insert_eq.
    + rewrite delete_insert_eq. by apply (wfq_detach _ _ (sc_n c) p pk).
    + rewrite delete_insert_eq. change (rings (dels [p] (sc_mem c))). apply rings_dels; [apply W|done].
    + apply W.
    + by exists [].
  - assert (Hnd : NoDup (unacked c (po_pns pk))) by apply WQ.
    rewrite Hq, <- Permutation_middle in Hnd. apply NoDup_cons in Hnd as [Hnp _].
    rewrite <- filter_twice, filter_nil_id. apply filter_ne_absent. intros H. apply Hnp, elem_of_app. auto.
Qed.

End gone.
