(* ===== verification/SendCtlAck.v ===== *)
(** The walks over the unacked queue: acknowledgements, loss detection, expiry
    and duplicates keep the invariant of the send controller and never misuse a
    pointer or fail an assertion. *)
From stdpp Require Import gmap sorting.
From S2P Require Import Prelude Ranges Art SendCtl SendCtlSpec SendCtlLoss.
Local Open Scope Z_scope.

(** Where a walk stands: [suf] is still to be visited. *)
Record stepped (c : send_ctl) (pns : nat) (suf : list Z) (c' : send_ctl) (suf' : list Z) : Prop := {
  st_wf : wf c';
  st_ev : evolves c c';
  st_shrinks : shrinks (sc_mem c) (sc_mem c');
  st_crit : crit (sc_a c') = crit (sc_a c);
  st_rest : exists pre', unacked c' pns = pre' ++ suf';
  st_sub : sublist suf' suf
}.

Lemma stepped_trans c pns suf c1 suf1 c2 suf2 :
  stepped c pns suf c1 suf1 -> stepped c1 pns suf1 c2 suf2 -> stepped c pns suf c2 suf2.
Proof.
  intros [A B C D E F] [A' B' C' D' E' F']. split; try done.
  - by eapply evolves_trans.
  - by eapply shrinks_trans.
  - congruence.
  - by etrans.
Qed.

(** A packet on the queue of a space. *)
Lemma queued c pns p : wf c -> p ∈ unacked c pns ->
  exists pk, sc_mem c !! p = Some pk /\ packet_ok pk /\ po_unacked pk = true /\ home pk = pns.
Proof.
  intros W Hin. pose proof (wf_q _ W) as WQ. destruct (sc_mem c !! p) as [pk|] eqn:E.
  - exists pk. destruct (wf_in _ _ _ WQ _ _ E) as (A & _). apply A in Hin as [? ?].
    split_and!; try done. apply (wf_pk _ _ _ WQ _ _ E).
  - destruct (wf_out _ _ _ WQ _ E) as (A & _). by destruct (A pns).
Qed.

Lemma gone_step c l c' pns pre suf :
  gone c l c' -> crit (sc_a c') = crit (sc_a c) -> unacked c pns = pre ++ suf ->
  stepped c pns suf c' (filter (.∉ l) suf).
Proof.
  intros [A B C D E F] Hc Hq. split; try done.
  - exists (filter (.∉ l) pre). by rewrite E, Hq, filter_app.
  - apply sublist_filter.
Qed.

Section walks.
Context (sc_retx_frames srtt min_rtt : Z) (env : Z -> Z * Z).

Lemma handle_regular_step c p pk pre suf :
  wf c -> sc_mem c !! p = Some pk -> plain pk -> po_mtu_probe pk = false -> unacked c (po_pns pk) = pre ++ p :: suf ->
  wp c (send_ctl_handle_regular_lost_packet sc_retx_frames min_rtt env c p (head suf))
     (fun '(c', r, next) => exists suf', stepped c (po_pns pk) suf c' suf' /\ next = head suf'
        /\ (forall x, r = Some x -> exists rk, sc_mem c' !! x = Some rk /\ is_loss_rec rk = true)).
Proof using.
  intros W Hp Hpl Hm Hq. destruct (is_retx sc_retx_frames pk) eqn:Hrx.
  - pose proof (handle_retx sc_retx_frames min_rtt env c p pk pre suf (head suf) W Hp Hpl Hm Hrx Hq) as H.
    destruct (send_ctl_handle_regular_lost_packet _ _ _ _ _ _) as [[[c' r] nx]|f]; cbn; [|by destruct H as [-> ?]].
    destruct H as [-> [A B C [D _] E F G H I J]]. exists suf. split_and!; try done.
    + split; try done. exists (pre ++ option_list r). by rewrite F, app_assoc.
    + intros x ->. destruct I as (_ & rk & ? & ? & _). eauto.
  - destruct (rg_ring _ (wf_r _ W) p) as [rest HR]; [eauto|].
    destruct (handle_other sc_retx_frames min_rtt env c p pk rest pre suf (head suf) W Hp Hpl Hrx HR Hq eq_refl)
      as (c' & -> & HG & Hc & _). cbn. exists (filter (.∉ p :: rest) suf). split_and!; try done.
    apply (gone_step c _ c' _ (pre ++ [p])); try done. by rewrite <- app_assoc.
Qed.

Lemma handle_lost_step c p pk pre suf :
  wf c -> sc_mem c !! p = Some pk -> plain pk -> unacked c (po_pns pk) = pre ++ p :: suf ->
  wp c (send_ctl_handle_lost_packet sc_retx_frames min_rtt env c p (head suf))
     (fun '(c', next) => exists suf', stepped c (po_pns pk) suf c' suf' /\ next = head suf').
Proof using.
  intros W Hp Hpl Hq. unfold send_ctl_handle_lost_packet. rewrite (get_ok _ _ _ Hp). cbn [mbind res_bind].
  destruct (po_mtu_probe pk) eqn:Hm.
  - destruct (handle_mtu sc_retx_frames c p pk pre suf W Hp Hpl Hm Hq) as (c' & -> & HG & Ea & _ & Hf). cbn.
    exists suf. split; [|done]. rewrite <- Hf at 2.
    apply (gone_step c _ c' _ (pre ++ [p])); [done|by rewrite Ea|by rewrite <- app_assoc].
  - pose proof (handle_regular_step c p pk pre suf W Hp Hpl Hm Hq) as H.
    destruct (send_ctl_handle_regular_lost_packet _ _ _ _ _ _) as [[[c' r] nx]|f]; [|done].
    destruct H as (suf' & ? & ? & _). cbn. eauto.
Qed.

(** Walks that hand packets to a handler. *)
Section walk.
Context (pick : Z -> packet -> bool) (handle : send_ctl -> Z -> option Z -> res (send_ctl * option Z)) (pns : nat).
Context (picked : packet -> Prop) (Inv : send_ctl -> Prop).
Hypothesis (Hpick : forall p pk, packet_ok pk -> po_unacked pk = true -> pick p pk = true -> plain pk /\ picked pk).
Hypothesis (Hhandle : forall c p pk pre suf,
  wf c -> Inv c -> sc_mem c !! p = Some pk -> plain pk -> picked pk -> po_pns pk = pns ->
  unacked c pns = pre ++ p :: suf ->
  wp c (handle c p (head suf))
     (fun '(c', next) => exists suf', stepped c pns suf c' suf' /\ next = head suf' /\ Inv c')).

Lemma lost_walk_step suf : forall fuel c pre,
  wf c -> Inv c -> unacked c pns = pre ++ suf -> (length suf <= fuel)%nat ->
  wp c (lost_walk pick handle fuel c pns (head suf)) (fun c' => Inv c' /\ exists suf', stepped c pns suf c' suf').
Proof using Hpick Hhandle.
  induction suf as [suf IH] using (induction_ltof1 _ (@length Z)). unfold ltof in IH.
  intros fuel c pre W HI Hq Hf. destruct suf as [|p suf].
  - destruct fuel; cbn; (split; [done|]); exists []; split; try done; first [apply evolves_refl|apply shrinks_refl|eauto].
  - destruct fuel as [|fuel]; [cbn in Hf; lia|]. cbn [lost_walk head]. cbn in Hf.
    destruct (queued c pns p W) as (pk & Hp & Hok & Hu & Hh).
    { rewrite Hq. apply elem_of_app. right. by left. }
    rewrite (get_ok _ _ _ Hp). cbn [mbind res_bind].
    assert (Hnd : NoDup (unacked c pns)) by apply (wf_q _ W). rewrite Hq in Hnd |- *. rewrite tailq_next_mid by done.
    apply wp_bind. destruct (pick p pk) eqn:Ep.
    + destruct (Hpick _ _ Hok Hu Ep) as [Hpl Hpd]. pose proof Hh as Hh'. rewrite plain_home in Hh' by done.
      eapply wp_mono; [by apply (Hhandle c p pk pre suf)|]. intros [c1 nx] (suf1 & S1 & -> & HI1).
      pose proof S1 as [A B C D [pre1 E] F]. pose proof (sublist_length _ _ F).
      eapply wp_evolves; [exact B|]. eapply wp_mono; [apply (IH suf1) with (pre := pre1); try done; cbn; lia|].
      intros c2 (HI2 & suf2 & S2). split; [done|]. exists suf2.
      assert (stepped c pns (p :: suf) c1 suf1) by (split; try done; [eauto|by apply sublist_cons]).
      by eapply stepped_trans.
    + cbn [wp mbind res_bind]. eapply wp_mono.
      * apply (IH suf) with (pre := pre ++ [p]); try done; [cbn; lia|by rewrite <- app_assoc|lia].
      * intros c2 (HI2 & suf2 & [A B C D E F]). split; [done|]. exists suf2. split; try done. by apply sublist_cons.
Qed.

Lemma walk_unacked_step c :
  wf c -> Inv c ->
  wp c (walk_unacked pick handle c pns) (fun c' => Inv c' /\ exists suf', stepped c pns (unacked c pns) c' suf').
Proof using Hpick Hhandle.
  intros W HI. unfold walk_unacked. by apply (lost_walk_step (unacked c pns) _ c []).
Qed.

End walk.

(** *** Expiry *)

Lemma last_filter_split (f : Z -> bool) (l : list Z) p :
  last (filter (fun x => f x = true) l) = Some p -> exists pre suf, l = pre ++ p :: suf /\ f p = true.
Proof using.
  intros H. apply last_Some in H as [l' E]. assert (Hin : p ∈ filter (fun x => f x = true) l).
  { rewrite E. apply elem_of_app. right. by left. }
  apply list_elem_of_filter in Hin as [Hf Hin]. apply list_elem_of_split in Hin as (pre & suf & ->). eauto.
Qed.

Lemma expire_step c pns f :
  wf c -> wp c (send_ctl_expire sc_retx_frames min_rtt env c pns f)
               (fun c' => wf c' /\ evolves c c' /\ shrinks (sc_mem c) (sc_mem c') /\ crit (sc_a c') = crit (sc_a c)).
Proof using.
  intros W.
  assert (Hh : forall c p pk pre suf,
    wf c -> True -> sc_mem c !! p = Some pk -> plain pk -> True -> po_pns pk = pns -> unacked c pns = pre ++ p :: suf ->
    wp c (send_ctl_handle_lost_packet sc_retx_frames min_rtt env c p (head suf))
       (fun '(c', next) => exists suf', stepped c pns suf c' suf' /\ next = head suf' /\ True)).
  { intros c1 p pk pre suf W1 _ Hp Hpl _ <- Hq. eapply wp_mono; [by eapply handle_lost_step|].
    intros [c' nx] (suf' & ? & ?). eauto. }
  destruct f; cbn.
  - eapply wp_mono.
    + apply (walk_unacked_step (fun _ pk => negb (is_loss_rec pk || po_poison pk)) _ pns (fun _ => True) (fun _ => True));
        try done. intros p pk _ Hu E. apply negb_true_iff, orb_false_iff in E as [? ?]. done.
    + intros c' (_ & suf' & [A B C D E F]). done.
  - eapply wp_mono.
    + apply (walk_unacked_step (fun _ pk => po_hello pk) _ pns (fun _ => True) (fun _ => True)); try done.
      intros p pk (_ & A & B & _) Hu E. split; [|done]. split_and!; [done| |].
      * destruct (is_loss_rec pk); [|done]. destruct (A eq_refl) as (_ & _ & _ & _ & ?). congruence.
      * destruct (po_poison pk); [|done]. destruct (B eq_refl) as (_ & _ & _ & ? & _). congruence.
    + intros c' (_ & suf' & [A B C D E F]). done.
  - destruct (send_ctl_last_unacked_retx_packet sc_retx_frames c pns) as [p|] eqn:E.
    2: { cbn. split_and!; first [done|apply evolves_refl|apply shrinks_refl]. }
    apply last_filter_split in E as (pre & suf & Hq & Hf). unfold plain_retx in Hf.
    destruct (queued c pns p W) as (pk & Hp & Hok & Hu & Hho).
    { rewrite Hq. apply elem_of_app. right. by left. }
    rewrite Hp in Hf. apply andb_true_iff in Hf as [Hf Hrx]. apply negb_true_iff, orb_false_iff in Hf as [Hl Hpo].
    assert (Hpl : plain pk) by done. rewrite plain_home in Hho by done. subst pns.
    unfold send_ctl_handle_lost_packet. rewrite (get_ok _ _ _ Hp). cbn [mbind res_bind].
    destruct (po_mtu_probe pk) eqn:Hm.
    + destruct (handle_mtu sc_retx_frames c p pk pre suf W Hp Hpl Hm Hq) as (c' & -> & [A B C D E F] & Ea & _). cbn.
      split_and!; try done. by rewrite Ea.
    + pose proof (handle_retx sc_retx_frames min_rtt env c p pk pre suf None W Hp Hpl Hm Hrx Hq) as H.
      destruct (send_ctl_handle_regular_lost_packet _ _ _ _ _ _) as [[[c' r] nx]|f]; cbn; [|by destruct H as [-> ?]].
      destruct H as [_ [A B C [D _] _ _ _ _ _ _]]. done.
Qed.

(** *** Duplicates *)

Context (retx_stream : Z.testbit sc_retx_frames 1 = true).

Lemma stream_retx pk : has_flag (po_frame_types pk) FT_STREAM = true -> is_retx sc_retx_frames pk = true.
Proof using retx_stream.
  unfold is_retx, has_flag. rewrite !negb_true_iff, !Z.eqb_neq. intros H E. apply H. apply Z.bits_inj'. intros n Hn.
  rewrite Z.land_spec, Z.bits_0. unfold FT_STREAM. change (Z.shiftl 1 1) with (2 ^ 1).
  destruct (Z.eq_dec n 1) as [->|Hne]; [|rewrite Z.pow2_bits_false by lia; apply andb_false_r].
  rewrite Z.pow2_bits_true by lia. rewrite andb_true_r.
  assert (Z.testbit (Z.land (po_frame_types pk) sc_retx_frames) 1 = false) as X by (by rewrite E, Z.bits_0).
  rewrite Z.land_spec, retx_stream, andb_true_r in X. done.
Qed.

(** The flight is unchanged unless one of the allocations [M] failed. *)
Definition flight_or_oom (M : list bool) (N : Z) (c : send_ctl) : Prop :=
  (exists l, M = l ++ sc_malo c) /\ (msum in_flight (sc_mem c) = N \/ false ∈ M).

Lemma art_walk_step c pns M N :
  wf c -> flight_or_oom M N c ->
  wp c (walk_unacked (art_pick env) (art_handle sc_retx_frames min_rtt env) c pns)
     (fun c' => wf c' /\ evolves c c' /\ shrinks (sc_mem c) (sc_mem c') /\ crit (sc_a c') = crit (sc_a c)
        /\ flight_or_oom M N c').
Proof using retx_stream.
  intros W HN. eapply wp_mono.
  - apply (walk_unacked_step _ _ pns
             (fun pk => po_mtu_probe pk = false /\ is_retx sc_retx_frames pk = true /\ fake pk = 1)
             (flight_or_oom M N)); [| |done|done].
    + intros p pk Hok Hu E. unfold art_pick, art_due in E. rewrite !andb_true_iff, !negb_true_iff in E.
      destruct E as [Hs [[[Hf Hl] _] _]]. apply Z.eqb_neq in Hf.
      destruct Hok as (_ & _ & Hpo & Hmt & Hfk & _). split_and!.
      * split_and!; try done. destruct (po_poison pk); [|done]. destruct (Hpo eq_refl) as (_ & ? & _). congruence.
      * destruct (po_mtu_probe pk); [|done]. rewrite (Hmt eq_refl) in Hs. done.
      * by apply stream_retx.
      * destruct Hfk; congruence.
    + clear c W HN. intros c p pk pre suf W [[l0 HM] HN] Hp Hpl (Hmt & Hrx & Hfk) <- Hq.
      pose proof (handle_retx sc_retx_frames min_rtt env c p pk pre suf (head suf) W Hp Hpl Hmt Hrx Hq) as H.
      unfold art_handle.
      destruct (send_ctl_handle_regular_lost_packet _ _ _ _ _ _) as [[[c' r] nx]|f]; cbn; [|by destruct H as [-> ?]].
      destruct H as [-> [A B C [D _] E F G H I J]]. exists suf. split_and!; try done.
      * split; try done. exists (pre ++ option_list r). by rewrite F, app_assoc.
      * destruct B as [[l El] _]. split; [exists (l0 ++ l); by rewrite HM, El, app_assoc|].
        destruct HN as [HN|HN]; [|by right]. destruct r; [left; rewrite J, Hfk; cbn; lia|]. right.
        destruct (sc_malo c) as [|b ms]; cbn in I; [done|]. rewrite HM. apply elem_of_app. right. subst b. by left.
  - intros c' (HN' & suf' & [A B C D E F]). done.
Qed.

End walks.

(** ** Loss detection *)

(** Fields of a packet that neither queues, counters nor chains depend on. *)
Lemma wf_edit c p pk pk' :
  wf c -> sc_mem c !! p = Some pk -> packet_ok pk' -> link pk' = link pk -> packno pk' = packno pk ->
  trait pk' = trait pk -> is_loss_rec pk' = is_loss_rec pk ->
  (po_unacked pk', po_lost pk', po_sched pk', po_poison pk') = (po_unacked pk, po_lost pk, po_sched pk, po_poison pk) ->
  (fake pk', packet_out_sent_sz pk', packet_out_total_sz pk') = (fake pk, packet_out_sent_sz pk, packet_out_total_sz pk) ->
  wf (put c p pk') /\ evolves c (put c p pk') /\ shrinks (sc_mem c) (sc_mem (put c p pk')).
Proof.
  intros W Hp Hok Hl Hno Ht Hlr Hw Hs. injection Hw as W1 W2 W3 W4. injection Hs as S1 S2 S3.
  assert (Ef : in_flight pk' = in_flight pk) by (unfold in_flight; by rewrite W1, Hlr, S1, W4).
  assert (Eb : bytes_in_flight pk' = bytes_in_flight pk) by (unfold bytes_in_flight; by rewrite Ef, S2).
  assert (Es : scheduled pk' = scheduled pk) by (unfold scheduled; by rewrite W3).
  assert (Hsh : shrinks (sc_mem c) (sc_mem (put c p pk'))).
  { unfold shrinks. cbn. rewrite !(msum_update _ _ _ _ _ Hp). lia. }
  assert (Hpn : forall k, pnos (put c p pk') k = pnos c k).
  { intros k. unfold pnos. change (unacked (put c p pk') k) with (unacked c k). apply pno_map_ext.
    intros z _. unfold pno. cbn. destruct (decide (z = p)) as [->|Hz].
    - by rewrite lookup_insert_eq, Hp.
    - by rewrite lookup_insert_ne. }
  split_and!; [split| |done].
  - apply (wfq_edit _ _ _ _ pk); try done; [apply W| |unfold bytes_scheduled; by rewrite Ef, Eb, Es, S3].
    unfold home. unfold link in Hl. by rewrite W1, W2, W3, W4, (ltac:(congruence) : po_pns pk' = po_pns pk).
  - eapply rings_ext; [|apply (wf_r _ W)]. intros z. cbn. destruct (decide (z = p)) as [->|Hz].
    + rewrite lookup_insert_eq, Hp. cbn. by rewrite Hl.
    + by rewrite lookup_insert_ne.
  - eapply below_shrinks; [apply W|exact Hsh].
  - intros k. rewrite Hpn. apply W.
  - apply W.
  - split_and!; [by exists []| |by intros k; rewrite Hpn]. intros z zk Hz Hpl. cbn in Hz. destruct (decide (z = p)) as [->|Hzp].
    + rewrite lookup_insert_eq in Hz. injection Hz as <-. exists pk. split_and!; try done.
      destruct Hpl as (? & ? & ?). split_and!; congruence.
    + rewrite lookup_insert_ne in Hz by done. eauto.
Qed.

Lemma wf_set_a c a : wf c -> wf (set_a c a).
Proof. intros []. by split. Qed.

(** A feedback value, in a window that is well kept. *)
Lemma record_feedback_step c v :
  wf c -> wp c (ctl_record_feedback c v)
    (fun c' => wf c' /\ evolves c c' /\ sc_mem c' = sc_mem c /\ sc_q c' = sc_q c /\ sc_n c' = sc_n c /\ sc_a c' = sc_a c).
Proof.
  intros W. destruct (wf_art _ W) as ((Hw1 & Hw2) & Hl & Hr). unfold ctl_record_feedback, record_feedback. rewrite Hl.
  destruct (Z.leb_spec 10 (sc_feedback_window_size (sc_art c))) as [H|H].
  - destruct (sc_feedback_window (sc_art c)) as [|x w] eqn:E; [cbn in Hw1; lia|]. cbn.
    assert (art_ok (ART (w ++ [v]) (sc_feedback_window_size (sc_art c)) (sc_largest_feedback_window (sc_art c))
                        (sc_rounds_map (sc_art c)) (sc_art_flag (sc_art c)))).
    { unfold art_ok, window_ok. cbn in Hw1, Hw2 |- *. rewrite length_app. cbn. split_and!; try done; lia. }
    rewrite Hl in *. split_and!; try done; [by destruct W; split|]. split_and!; [by exists []|eauto|done].
  - cbn. assert (Hle : (10 <=? sc_feedback_window_size (sc_art c)) = false) by lia. rewrite Hl, Hle.
    destruct (hd true (sc_malo c)) eqn:E; cbn.
    + assert (art_ok (ART (sc_feedback_window (sc_art c) ++ [v]) (u32 (sc_feedback_window_size (sc_art c) + 1)) 10
                        (sc_rounds_map (sc_art c)) (sc_art_flag (sc_art c)))).
      { unfold art_ok, window_ok. cbn. rewrite length_app. cbn. unfold u32.
        rewrite Z.mod_small by lia. split_and!; try done; lia. }
      split_and!; try done; [by destruct W; split|]. split_and!; [apply malo_suffix|eauto|done].
    + destruct (sc_malo c) as [|[] l]; cbn in E; try done. by left.
Qed.

Section detect.
Context (sc_retx_frames srtt min_rtt : Z) (env : Z -> Z * Z) (pns : nat) (largest_retx : Z).

(** The packets that loss detection declares lost and has retransmitted. *)
Definition declared (c : send_ctl) (p : Z) : bool :=
  match sc_mem c !! p with
  | Some pk =>
    (packno pk <=? sc_largest_acked_packno (sc_a c)) && negb (is_loss_rec pk) && negb (po_mtu_probe pk)
    && turn_over (pk_art pk) && is_retx sc_retx_frames pk
    && match lost_verdict sc_retx_frames srtt (sc_a c) largest_retx pk with Kept => false | _ => true end
  | None => false
  end.

(** The packets that loss detection takes off the unacked queue. *)
Definition found (c : send_ctl) (p : Z) : bool :=
  match sc_mem c !! p with
  | Some pk =>
    (packno pk <=? sc_largest_acked_packno (sc_a c)) && negb (is_loss_rec pk)
    && (po_mtu_probe pk || turn_over (pk_art pk))
    && match lost_verdict sc_retx_frames srtt (sc_a c) largest_retx pk with Kept => false | _ => true end
  | None => false
  end.

(** A packet that is not retransmitted has no chain. *)
Definition solo (c : send_ctl) (p : Z) : Prop :=
  forall pk, sc_mem c !! p = Some pk -> is_retx sc_retx_frames pk = false -> po_loss_chain pk = p.

Record detected (c : send_ctl) (p : Z) (suf : list Z) (c' : send_ctl) (suf' : list Z) : Prop := {
  dt_step : stepped c pns suf c' suf';
  dt_solo : solo c p -> suf' = suf /\ (forall z, z ∈ suf -> sc_mem c' !! z = sc_mem c !! z)
            /\ sc_lost_packets (sc_q c') = sc_lost_packets (sc_q c) ++ (if declared c p then [p] else []);
  dt_kept : forall z, z ∈ unacked c pns -> (z = p -> found c p = false) -> solo c p -> z ∈ unacked c' pns
}.

(** Where the walk stands. *)
Definition at_packet (c : send_ctl) (p : Z) (pk : packet) (pre suf : list Z) : Prop :=
  wf c /\ sc_mem c !! p = Some pk /\ unacked c pns = pre ++ p :: suf /\ packet_ok pk /\ po_unacked pk = true
  /\ home pk = pns /\ packno pk <= sc_largest_acked_packno (sc_a c).

Lemma at_nodup c p pk pre suf : at_packet c p pk pre suf -> p ∉ pre ++ suf.
Proof using.
  intros (W & Hp & Hq & _). assert (Hnd : NoDup (unacked c pns)) by apply (wf_q _ W).
  rewrite Hq, <- Permutation_middle in Hnd. by apply NoDup_cons in Hnd as [? _].
Qed.

(** The state is unchanged, or only [p] and fields of no concern are. *)
Lemma detected_edit c p pk pre suf c' :
  at_packet c p pk pre suf -> wf c' -> evolves c c' -> shrinks (sc_mem c) (sc_mem c') -> crit (sc_a c') = crit (sc_a c) ->
  sc_q c' = sc_q c -> (forall z, z ≠ p -> sc_mem c' !! z = sc_mem c !! z) -> declared c p = false ->
  detected c p suf c' suf.
Proof using.
  intros HA W Hev Hsh Hc Hq Hm Hd. pose proof (at_nodup _ _ _ _ _ HA) as Hnp. destruct HA as (_ & _ & HQ & _).
  assert (Hu : unacked c' pns = unacked c pns) by (unfold unacked; by rewrite Hq). split.
  - split; try done. exists (pre ++ [p]). by rewrite Hu, HQ, <- app_assoc.
  - intros _. split_and!; [done| |by rewrite Hd, Hq, app_nil_r].
    intros z Hz. apply Hm. intros ->. apply Hnp, elem_of_app. auto.
  - intros z Hz _ _. by rewrite Hu.
Qed.

Lemma lost_absent c p pk : wf c -> sc_mem c !! p = Some pk -> packet_ok pk -> po_unacked pk = true ->
  p ∉ sc_lost_packets (sc_q c).
Proof using.
  intros W Hp Hok Hu Hin. destruct (wf_in _ _ _ (wf_q _ W) _ _ Hp) as (_ & A & _). apply A in Hin.
  destruct Hok as ((_ & _ & X) & _). rewrite Hu, Hin in X. done.
Qed.

Lemma solo_ring c p rest : wf c -> on_ring (sc_mem c) p rest -> chain (sc_mem c) p = Some p -> rest = [].
Proof using.
  intros W HR Hch. apply (on_ring_det (sc_mem c) p); [done|].
  split; [|apply NoDup_singleton]. split; [done|]. exists p. done.
Qed.

Lemma filter_out_p (p : Z) (l : list Z) : p ∉ l -> filter (.∉ [p]) l = l.
Proof using. intros H. rewrite <- filter_twice, filter_nil_id. by apply filter_ne_absent. Qed.

Lemma detected_gone c p pk pre suf rest c' :
  at_packet c p pk pre suf -> gone c (p :: rest) c' -> crit (sc_a c') = crit (sc_a c) -> declared c p = false ->
  found c p = true ->
  (solo c p -> rest = []) -> detected c p suf c' (filter (.∉ p :: rest) suf).
Proof using.
  intros HA HG Hc Hd Hfd Hs. pose proof (at_nodup _ _ _ _ _ HA) as Hnp. destruct HA as (W & Hp & HQ & Hok & Hu & _).
  pose proof HG as [A B C D E F]. split.
  - apply (gone_step c _ c' _ (pre ++ [p])); try done. by rewrite <- app_assoc.
  - intros HS. rewrite (Hs HS) in *. split_and!.
    + apply filter_out_p. intros H. apply Hnp, elem_of_app. auto.
    + intros z Hz. rewrite D, lookup_dels, decide_False; [done|]. intros ->%list_elem_of_singleton.
      apply Hnp, elem_of_app. auto.
    + rewrite F, Hd, app_nil_r. apply filter_out_p. by apply (lost_absent c p pk).
  - intros z Hz Hzp HS. rewrite (Hs HS) in *. rewrite E. apply list_elem_of_filter. split; [|done].
    intros ->%list_elem_of_singleton. specialize (Hzp eq_refl). congruence.
Qed.

Lemma detected_retx c p pk pre suf c' r :
  at_packet c p pk pre suf -> plain pk -> lost_retx_post c p pk pre suf c' r -> declared c p = true ->
  found c p = true -> detected c p suf c' suf.
Proof using.
  clear env min_rtt. intros HA Hpl [A B C [D _] E F G H I J] Hd Hfd. pose proof (at_nodup _ _ _ _ _ HA) as Hnp.
  destruct HA as (W & Hp & HQ & Hok & Hu & Hh & _). rewrite plain_home in Hh by done. rewrite Hh in F, G. split.
  - split; try done. exists (pre ++ option_list r). by rewrite F, app_assoc.
  - intros _. split_and!; [done| |by rewrite E, Hd]. intros z Hz. apply H.
    + intros ->. apply Hnp, elem_of_app. auto.
    + destruct (queued c pns z W) as (zk & -> & _); [|eauto]. rewrite HQ. apply elem_mid. right. apply elem_of_app. auto.
  - intros z Hz Hzp _. rewrite F. rewrite HQ, elem_mid in Hz. destruct Hz as [E'|Hz]; [specialize (Hzp E'); congruence|].
    rewrite !elem_of_app in *. naive_solver.
Qed.

(** Marking the packet as detected, after [sc_loss_to] may have been set. *)
Lemma mark_at c p pk pre suf a :
  at_packet c p pk pre suf -> plain pk -> crit a = crit (sc_a c) ->
  let c1 := mark_detected (set_a c a) p pk in
  let pk1 := with_art pk (art_set_detected (pk_art pk)) in
  at_packet c1 p pk1 pre suf /\ plain pk1 /\ evolves c c1
  /\ declared c1 p = declared c p
  /\ (forall c' suf', detected c1 p suf c' suf' -> detected c p suf c' suf').
Proof using.
  clear env min_rtt. intros HA Hpl Ha c1 pk1. pose proof HA as (W & Hp & HQ & Hok & Hu & Hh & Hle).
  assert (Hok1 : packet_ok pk1) by (apply with_art_ok; try done; [apply Hok|apply Hpl]).
  destruct (wf_edit (set_a c a) p pk pk1) as (W1 & Hev & Hsh); try done; [by apply wf_set_a|].
  change (put (set_a c a) p pk1) with c1 in *.
  assert (Hp1 : sc_mem c1 !! p = Some pk1) by apply lookup_insert_eq.
  assert (Hm1 : forall z, z ≠ p -> sc_mem c1 !! z = sc_mem c !! z) by (intros; unfold c1; cbn; by rewrite lookup_insert_ne).
  assert (Hla : sc_largest_acked_packno a = sc_largest_acked_packno (sc_a c)
                /\ sc_largest_acked_sent_time a = sc_largest_acked_sent_time (sc_a c)
                /\ sc_reord_thresh a = sc_reord_thresh (sc_a c)) by (unfold crit in Ha; by simplify_eq).
  destruct Hla as (L1 & L2 & L3).
  assert (Hd : declared c1 p = declared c p).
  { unfold declared. rewrite Hp1, Hp. unfold lost_verdict. cbn. by rewrite L1, L2, L3. }
  assert (Hf : found c1 p = found c p).
  { unfold found. rewrite Hp1, Hp. unfold lost_verdict. cbn. by rewrite L1, L2, L3. }
  pose proof (at_nodup _ _ _ _ _ HA) as Hnp. split_and!; try done.
  - unfold at_packet. split_and!; try done. cbn. rewrite L1. done.
  - intros c' suf' [[S1 S2 S3 S4 S5 S6] T1 T2].
    assert (HS : solo c p -> solo c1 p).
    { intros H pk2 E Hr. rewrite Hp1 in E. injection E as <-. by apply (H pk). }
    split.
    + split; try done; [by eapply evolves_trans|by eapply shrinks_trans|by rewrite S4].
    + intros H. destruct (T1 (HS H)) as (E1 & E2 & E3). split_and!; [done| |by rewrite E3, Hd].
      intros z Hz. rewrite E2 by done. apply Hm1. intros ->. apply Hnp, elem_of_app. auto.
    + intros z Hz Hzp H. apply (T2 z); [done| |by apply HS]. intros E. rewrite Hf. by apply Hzp.
Qed.

Lemma set_facked_step c r :
  wf c -> (forall x, r = Some x -> exists rk, sc_mem c !! x = Some rk /\ is_loss_rec rk = true) ->
  exists c', set_facked c r = Ok c' /\ wf c' /\ evolves c c' /\ shrinks (sc_mem c) (sc_mem c') /\ sc_a c' = sc_a c
    /\ sc_q c' = sc_q c /\ (forall z, r ≠ Some z -> sc_mem c' !! z = sc_mem c !! z).
Proof using.
  intros W Hr. destruct r as [x|]; cbn.
  - destruct (Hr x eq_refl) as (rk & Hx & Hl). rewrite (get_ok _ _ _ Hx). cbn. eexists. split; [done|].
    destruct (wf_edit c x rk (with_report rk (po_feedback_recorded rk) true)) as (W1 & Hev & Hsh); try done.
    { apply (wf_pk _ _ _ (wf_q _ W) _ _ Hx). }
    split_and!; try done. intros z Hz. cbn. rewrite lookup_insert_ne; [done|]. congruence.
  - exists c. split_and!; first [done|apply evolves_refl|apply shrinks_refl].
Qed.

Lemma report_step c p pk pre suf :
  at_packet c p pk pre suf -> is_loss_rec pk = true ->
  wp c (report_lost_duplicate c p pk) (fun c' => detected c p suf c' suf).
Proof using.
  clear env min_rtt. intros HA Hl. pose proof HA as (W & Hp & HQ & Hok & Hu & Hh & Hle).
  assert (Hd : declared c p = false) by (unfold declared; by rewrite Hp, Hl, andb_false_r).
  unfold report_lost_duplicate. destruct (_ && _).
  - apply wp_bind. eapply wp_mono; [by apply record_feedback_step|].
    intros c1 (W1 & Hev1 & Em & Eq & En & Ea). cbn.
    destruct (wf_edit c1 p pk (with_report pk 1 (po_facked pk))) as (W2 & Hev2 & Hsh2); try done; [by rewrite Em|].
    apply (detected_edit c p pk pre); try done; [by eapply evolves_trans|by rewrite <- Em|by cbn; rewrite Ea|].
    intros z Hz. cbn. by rewrite lookup_insert_ne, Em.
  - cbn. apply (detected_edit c p pk pre); first [done|apply evolves_refl|apply shrinks_refl].
Qed.

(** The packet at hand meets a criterion and its turn is over. *)
Definition found_lost (c : send_ctl) (pk : packet) : Prop :=
  plain pk /\ turn_over (pk_art pk) = true
  /\ lost_verdict sc_retx_frames srtt (sc_a c) largest_retx pk ≠ Kept.

Lemma declared_found c p pk pre suf :
  at_packet c p pk pre suf -> found_lost c pk ->
  declared c p = negb (po_mtu_probe pk) && is_retx sc_retx_frames pk.
Proof using.
  intros (W & Hp & _ & _ & _ & _ & Hle) ((_ & Hl & _) & Ht & Hv). unfold declared. rewrite Hp, Hl, Ht.
  rewrite (proj2 (Z.leb_le _ _)) by done. destruct (lost_verdict _ _ _ _ _); [done|..];
    by destruct (po_mtu_probe pk), (is_retx sc_retx_frames pk).
Qed.

Lemma found_true c p pk pre suf : at_packet c p pk pre suf -> found_lost c pk -> found c p = true.
Proof using.
  intros (W & Hp & _ & _ & _ & _ & Hle) ((_ & Hl & _) & Ht & Hv). unfold found. rewrite Hp, Hl, Ht, orb_true_r.
  rewrite (proj2 (Z.leb_le _ _)) by done. by destruct (lost_verdict _ _ _ _ _).
Qed.

Lemma regular_detected c p pk pre suf :
  at_packet c p pk pre suf -> found_lost c pk -> po_mtu_probe pk = false ->
  wp c (send_ctl_handle_regular_lost_packet sc_retx_frames min_rtt env c p (head suf))
     (fun '(c', r, nx) => exists suf', detected c p suf c' suf' /\ nx = head suf'
        /\ (forall x, r = Some x -> sc_mem c !! x = None /\ exists rk, sc_mem c' !! x = Some rk /\ is_loss_rec rk = true)).
Proof using.
  intros HA HF Hm. pose proof (found_true _ _ _ _ _ HA HF) as Hfd. pose proof (declared_found _ _ _ _ _ HA HF) as Hd. pose proof HA as (W & Hp & HQ & Hok & Hu & Hh & Hle).
  destruct HF as (Hpl & Ht & Hv). assert (HQ' : unacked c (po_pns pk) = pre ++ p :: suf) by (rewrite <- plain_home by done; by rewrite Hh).
  rewrite Hm in Hd. cbn in Hd. destruct (is_retx sc_retx_frames pk) eqn:Hrx.
  - pose proof (handle_retx sc_retx_frames min_rtt env c p pk pre suf (head suf) W Hp Hpl Hm Hrx HQ') as H.
    destruct (send_ctl_handle_regular_lost_packet _ _ _ _ _ _) as [[[c' r] nx]|f]; cbn; [|by destruct H as [-> ?]].
    destruct H as [-> HP]. exists suf. split_and!; [by apply (detected_retx c p pk pre suf c' r)|done|].
    intros x ->. pose proof (lr_rec _ _ _ _ _ _ _ HP) as (? & rk & ? & ? & _). eauto.
  - destruct (rg_ring _ (wf_r _ W) p) as [rest HR]; [eauto|].
    destruct (handle_other sc_retx_frames min_rtt env c p pk rest pre suf (head suf) W Hp Hpl Hrx HR HQ' eq_refl)
      as (c' & -> & HG & Hc & _). cbn. exists (filter (.∉ p :: rest) suf). split_and!; [|done|done].
    apply (detected_gone c p pk pre); try done. intros HS. apply (solo_ring c p); try done.
    unfold chain. rewrite Hp. cbn. by rewrite (HS pk).
Qed.

Lemma lost_detected c p pk pre suf :
  at_packet c p pk pre suf -> found_lost c pk ->
  wp c (send_ctl_handle_lost_packet sc_retx_frames min_rtt env c p (head suf))
     (fun '(c', nx) => exists suf', detected c p suf c' suf' /\ nx = head suf').
Proof using.
  intros HA HF. pose proof (found_true _ _ _ _ _ HA HF) as Hfd. pose proof (declared_found _ _ _ _ _ HA HF) as Hd. pose proof HA as (W & Hp & HQ & Hok & Hu & Hh & Hle).
  unfold send_ctl_handle_lost_packet. rewrite (get_ok _ _ _ Hp). cbn [mbind res_bind].
  destruct (po_mtu_probe pk) eqn:Hm.
  - destruct HF as (Hpl & _ & _). assert (HQ' : unacked c (po_pns pk) = pre ++ p :: suf) by (rewrite <- plain_home by done; by rewrite Hh).
    destruct (handle_mtu sc_retx_frames c p pk pre suf W Hp Hpl Hm HQ') as (c' & -> & HG & Ea & _ & Hf). cbn.
    exists (filter (.∉ [p]) suf). split; [|by rewrite Hf]. apply (detected_gone c p pk pre); try done. by rewrite Ea.
  - eapply wp_bind, wp_mono; [by apply (regular_detected c p pk pre suf)|].
    intros [[c' r] nx] (suf' & ? & ? & _). cbn. eauto.
Qed.

Lemma detected_facked c p pk pre suf c1 suf1 c2 r :
  at_packet c p pk pre suf -> detected c p suf c1 suf1 ->
  (forall x, r = Some x -> sc_mem c !! x = None) ->
  wf c2 -> evolves c1 c2 -> shrinks (sc_mem c1) (sc_mem c2) -> sc_a c2 = sc_a c1 -> sc_q c2 = sc_q c1 ->
  (forall z, r ≠ Some z -> sc_mem c2 !! z = sc_mem c1 !! z) -> detected c p suf c2 suf1.
Proof using.
  intros HA [[S1 S2 S3 S4 S5 S6] T1 T2] Hr W2 Hev Hsh Ea Eq Em.
  assert (Hu : unacked c2 pns = unacked c1 pns) by (unfold unacked; by rewrite Eq). split.
  - split; try done; [by eapply evolves_trans|by eapply shrinks_trans|by rewrite Ea|by rewrite Hu].
  - intros H. destruct (T1 H) as (E1 & E2 & E3). split_and!; [done| |by rewrite Eq].
    intros z Hz. rewrite Em; [by apply E2|]. intros E. destruct HA as (W & _ & HQ & _).
    destruct (queued c pns z W) as (zk & Hzk & _); [|by rewrite (Hr z E) in Hzk].
    rewrite HQ. apply elem_mid. right. apply elem_of_app. auto.
  - intros z H1 H2 H3. rewrite Hu. by apply (T2 z).
Qed.

Lemma detect_step_ok c p pk pre suf lost :
  at_packet c p pk pre suf ->
  wp c (detect_step sc_retx_frames srtt min_rtt env largest_retx c p (head suf) lost)
     (fun '(c', nx, _) => exists suf', detected c p suf c' suf' /\ nx = head suf').
Proof using.
  intros HA. pose proof HA as (W & Hp & HQ & Hok & Hu & Hh & Hle).
  unfold detect_step. rewrite (get_ok _ _ _ Hp). cbn [mbind res_bind].
  assert (Hsame : forall a, crit a = crit (sc_a c) -> declared c p = false ->
    exists suf', detected c p suf (set_a c a) suf' /\ head suf = head suf').
  { intros a Ha Hd. exists suf. split; [|done]. apply (detected_edit c p pk pre); try done.
    - by apply wf_set_a.
    - split_and!; [by exists []|eauto|done]. }
  assert (Hkeep : declared c p = false -> exists suf', detected c p suf c suf' /\ head suf = head suf').
  { intros Hd. exists suf. split; [|done]. apply (detected_edit c p pk pre); try done; apply evolves_refl || apply shrinks_refl. }
  assert (Hlo : po_lost pk = false).
  { destruct Hok as ((_ & _ & X) & _). rewrite Hu in X. by destruct (po_lost pk). }
  destruct (lost_verdict sc_retx_frames srtt (sc_a c) largest_retx pk) eqn:Ev.
  { apply Hkeep. unfold declared. by rewrite Hp, Ev, andb_false_r. }
  all: destruct (is_loss_rec pk) eqn:Hl;
    [apply wp_bind; eapply wp_mono; [by apply (report_step c p pk pre suf)|]; intros c' Hc'; exists suf; split; [exact Hc'|reflexivity]|].
  all: assert (Hpo : po_poison pk = false) by (unfold lost_verdict in Ev; by destruct (po_poison pk)).
  all: assert (Hpl : plain pk) by (split; [exact Hu|split; [exact Hl|exact Hpo]]); rewrite Hlo; cbn [negb andb].
  all: assert (Hno : turn_over (pk_art pk) = false -> declared c p = false)
         by (intros E; unfold declared; rewrite Hp, E, andb_false_r; done).
  - destruct (po_mtu_probe pk) eqn:Hm.
    + assert (HQ' : unacked c (po_pns pk) = pre ++ p :: suf) by (rewrite <- plain_home by done; by rewrite Hh).
      destruct (handle_mtu sc_retx_frames c p pk pre suf W Hp Hpl Hm HQ') as (c' & -> & HG & Ea & _ & Hf). cbn.
      exists (filter (.∉ [p]) suf). split; [|by rewrite Hf]. apply (detected_gone c p pk pre); try done; [by rewrite Ea| |].
      * unfold declared. rewrite Hp, Hm. cbn. by rewrite andb_false_r.
      * unfold found. rewrite Hp, Hl, Hm, Ev, (proj2 (Z.leb_le _ _)) by done. done.
    + destruct (turn_over (pk_art pk)) eqn:Ht; [|cbn; by apply Hkeep, Hno].
      destruct (mark_at c p pk pre suf (sc_a c) HA Hpl eq_refl) as (HA1 & Hpl1 & Hev1 & _ & Hdt).
      replace (set_a c (sc_a c)) with c in * by (by destruct c).
      apply wp_bind. eapply wp_evolves; [exact Hev1|]. eapply wp_mono.
      * apply (regular_detected _ _ _ _ _ HA1); [|done]. split_and!; try apply Hpl1; try done.
        change (lost_verdict sc_retx_frames srtt (sc_a c) largest_retx pk ≠ Kept). by rewrite Ev.
      * intros [[c1 r] nx] (suf' & Hd1 & -> & Hr). apply Hdt in Hd1 as Hd.
        assert (W1 : wf c1) by apply Hd1.
        destruct (set_facked_step c1 r) as (c2 & -> & W2 & Hev2 & Hsh2 & Ea & Eq & Em).
        { done. }
        { intros x E. by apply Hr. }
        cbn. exists suf'. split; [|done]. eapply (detected_facked c p pk pre suf c1); try done.
        intros x E. destruct (Hr x E) as [Hx _]. cbn in Hx. rewrite lookup_insert_None in Hx. apply Hx.
  - destruct (turn_over (pk_art pk)) eqn:Ht; [|cbn; by apply Hsame, Hno].
    destruct (mark_at c p pk pre suf (sc_a (set_loss_to c (srtt / 4))) HA Hpl eq_refl) as (HA1 & Hpl1 & Hev1 & _ & Hdt).
    change (set_a c (sc_a (set_loss_to c (srtt / 4)))) with (set_loss_to c (srtt / 4)) in *.
    apply wp_bind. eapply wp_evolves; [exact Hev1|]. eapply wp_mono.
    + apply (lost_detected _ _ _ _ _ HA1). split_and!; try apply Hpl1; try done. change (lost_verdict sc_retx_frames srtt (sc_a c) largest_retx pk ≠ Kept). by rewrite Ev.
    + intros [c1 nx] (suf' & Hd1 & ->). cbn. exists suf'. split; [by apply Hdt|done].
  - destruct (turn_over (pk_art pk)) eqn:Ht; [|cbn; by apply Hkeep, Hno].
    destruct (mark_at c p pk pre suf (sc_a c) HA Hpl eq_refl) as (HA1 & Hpl1 & Hev1 & _ & Hdt).
    replace (set_a c (sc_a c)) with c in * by (by destruct c).
    apply wp_bind. eapply wp_evolves; [exact Hev1|]. eapply wp_mono.
    + apply (lost_detected _ _ _ _ _ HA1). split_and!; try apply Hpl1; try done. change (lost_verdict sc_retx_frames srtt (sc_a c) largest_retx pk ≠ Kept). by rewrite Ev.
    + intros [c1 nx] (suf' & Hd1 & ->). cbn. exists suf'. split; [by apply Hdt|done].
Qed.

(** What a stretch of the loop does to the lost and the unacked queue. *)
Definition exact (c : send_ctl) (suf : list Z) (c' : send_ctl) : Prop :=
  (forall z, z ∈ suf -> solo c z) ->
  sc_lost_packets (sc_q c') = sc_lost_packets (sc_q c) ++ filter (fun z => declared c z = true) suf
  /\ (forall z, z ∈ unacked c pns -> (z ∈ suf -> found c z = false) -> z ∈ unacked c' pns).

Lemma judged_ext c c1 z :
  crit (sc_a c1) = crit (sc_a c) -> sc_mem c1 !! z = sc_mem c !! z ->
  declared c1 z = declared c z /\ found c1 z = found c z /\ (solo c z -> solo c1 z).
Proof using.
  intros Hc Hm. assert (Hla : sc_largest_acked_packno (sc_a c1) = sc_largest_acked_packno (sc_a c)
    /\ sc_largest_acked_sent_time (sc_a c1) = sc_largest_acked_sent_time (sc_a c)
    /\ sc_reord_thresh (sc_a c1) = sc_reord_thresh (sc_a c)) by (unfold crit in Hc; by simplify_eq).
  destruct Hla as (L1 & L2 & L3). unfold declared, found, solo, lost_verdict. by rewrite Hm, L1, L2, L3.
Qed.

(** Behind the first packet that is not acknowledged nothing is judged. *)
Lemma nothing_beyond c p pk suf :
  StronglySorted Z.lt (map (pno (sc_mem c)) (p :: suf)) -> sc_mem c !! p = Some pk ->
  sc_largest_acked_packno (sc_a c) < packno pk ->
  (forall z, z ∈ p :: suf -> declared c z = false) /\ (forall z, z ∈ p :: suf -> found c z = false).
Proof using.
  intros S Hp Hlt. cbn in S. apply StronglySorted_inv in S as [_ F]. unfold pno at 1 in F. rewrite Hp in F.
  assert (H : forall z zk, z ∈ p :: suf -> sc_mem c !! z = Some zk -> (packno zk <=? sc_largest_acked_packno (sc_a c)) = false).
  { intros z zk [->|Hz]%elem_of_cons Hzk; [assert (zk = pk) as -> by congruence; lia|].
    rewrite Forall_forall in F. specialize (F (packno zk)). enough (packno pk < packno zk) by lia. apply F.
    apply list_elem_of_fmap. exists z. split; [|done]. unfold pno. by rewrite Hzk. }
  split; intros z Hz; unfold declared, found; (destruct (sc_mem c !! z) as [zk|] eqn:E; [|done]);
    by rewrite (H z zk Hz E).
Qed.

Lemma filter_none (l : list Z) (f : Z -> bool) : (forall z, z ∈ l -> f z = false) -> filter (fun z => f z = true) l = [].
Proof using.
  induction l as [|x l IH]; intros H; [done|]. rewrite filter_cons_False.
  - apply IH. intros z Hz. apply H. by right.
  - rewrite (H x); [done|by left].
Qed.

Lemma filter_eq_in (l : list Z) (f g : Z -> bool) : (forall z, z ∈ l -> f z = g z) ->
  filter (fun z => f z = true) l = filter (fun z => g z = true) l.
Proof using.
  induction l as [|x l IH]; intros H; [done|]. rewrite !filter_cons, (H x) by (by left).
  rewrite IH; [done|]. intros z Hz. apply H. by right.
Qed.

Lemma detect_loop_ok suf : forall fuel c pre lost,
  wf c -> unacked c pns = pre ++ suf -> (length suf <= fuel)%nat ->
  wp c (detect_loop sc_retx_frames srtt min_rtt env fuel pns largest_retx c (head suf) lost)
     (fun '(c', _) => (exists suf', stepped c pns suf c' suf') /\ exact c suf c').
Proof using.
  induction suf as [suf IH] using (induction_ltof1 _ (@length Z)). unfold ltof in IH.
  intros fuel c pre lost W Hq Hf.
  assert (Hrefl : stepped c pns suf c suf) by (split; first [done|apply evolves_refl|apply shrinks_refl|eauto]).
  destruct suf as [|p suf].
  - destruct fuel; cbn; (split; [eauto|]); intros _; rewrite app_nil_r; split; try done; eauto.
  - destruct (queued c pns p W) as (pk & Hp & Hok & Hu & Hh).
    { rewrite Hq. apply elem_of_app. right. by left. }
    assert (Hgoal : forall r, wp c (if sc_largest_acked_packno (sc_a c) <? packno pk then Ok (c, lost) else r)
       (fun '(c', _) => (exists suf', stepped c pns (p :: suf) c' suf') /\ exact c (p :: suf) c')
       <-> (packno pk <= sc_largest_acked_packno (sc_a c) -> wp c r
       (fun '(c', _) => (exists suf', stepped c pns (p :: suf) c' suf') /\ exact c (p :: suf) c'))).
    { intros r. destruct (Z.ltb_spec (sc_largest_acked_packno (sc_a c)) (packno pk)) as [Hlt|Hle]; [|naive_solver].
      split; [intros; lia|]. intros _. cbn. split; [eauto|]. intros _.
      destruct (nothing_beyond c p pk suf) as [N1 N2]; try done.
      - pose proof (wf_sorted _ W pns) as S. unfold pnos in S. rewrite Hq, map_app in S.
        eapply sublist_sorted; [|exact S]. by apply sublist_inserts_l.
      - rewrite (filter_none _ _ N1), app_nil_r. split; [done|]. auto. }
    destruct fuel as [|fuel]; [cbn in Hf; lia|]. cbn [detect_loop head]. cbn in Hf.
    rewrite (get_ok _ _ _ Hp). cbn [mbind res_bind]. apply Hgoal. intros Hle. clear Hgoal.
    assert (Hnd : NoDup (unacked c pns)) by apply (wf_q _ W). rewrite Hq in Hnd. rewrite Hq, tailq_next_mid by done.
    assert (HA : at_packet c p pk pre suf) by done. pose proof (at_nodup _ _ _ _ _ HA) as Hnp.
    apply wp_bind. eapply wp_mono; [by apply (detect_step_ok c p pk pre suf lost)|].
    intros [[c1 nx] lost1] (suf1 & [S1 T1 T2] & ->). pose proof S1 as [A B C D [pre1 E] F].
    pose proof (sublist_length _ _ F). eapply wp_evolves; [exact B|].
    eapply wp_mono; [apply (IH suf1) with (pre := pre1); try done; cbn; lia|].
    intros [c2 l2] [(suf2 & S2) HX]. split.
    + exists suf2. assert (stepped c pns (p :: suf) c1 suf1) by (split; try done; [eauto|by apply sublist_cons]).
      by eapply stepped_trans.
    + intros Hsolo. destruct (T1 (Hsolo p ltac:(by left))) as (-> & Em & El).
      assert (HJ : forall z, z ∈ suf -> declared c1 z = declared c z /\ found c1 z = found c z /\ (solo c z -> solo c1 z)).
      { intros z Hz. apply judged_ext; [done|by apply Em]. }
      destruct HX as [H1 H2].
      { intros z Hz. apply (HJ z Hz). apply Hsolo. by right. }
      split.
      * rewrite H1, El, <- app_assoc. f_equal. rewrite (filter_eq_in suf (declared c1) (declared c)) by (intros z Hz; apply (HJ z Hz)).
        rewrite filter_cons. destruct (declared c p) eqn:Edp.
        -- by rewrite decide_True by done.
        -- by rewrite decide_False by congruence.
      * intros z Hz Hfz. apply H2.
        -- apply (T2 z); [done| |apply Hsolo; by left]. intros ->. apply Hfz. by left.
        -- intros Hzs. destruct (HJ z Hzs) as (_ & -> & _). apply Hfz. by right.
Qed.

(** [largest_lost_packno] is the number of a packet that was looked at. *)
Lemma detect_step_number c p pk next lost :
  sc_mem c !! p = Some pk ->
  forall c' nx l, detect_step sc_retx_frames srtt min_rtt env largest_retx c p next lost = Ok (c', nx, l) ->
  l = lost \/ l = packno pk.
Proof using.
  intros Hp c' nx l. unfold detect_step. rewrite (get_ok _ _ _ Hp). cbn [mbind res_bind].
  repeat match goal with
  | |- Ok _ = Ok _ -> _ => intros [= <- <- <-]
  | |- Fault _ = Ok _ -> _ => done
  | |- context [lost_verdict ?a ?b ?d ?e ?f] => destruct (lost_verdict a b d e f)
  | |- context [is_loss_rec ?x] => destruct (is_loss_rec x)
  | |- context [if ?b then _ else _] => destruct b
  | |- (?x ≫= _) = _ -> _ => destruct x as [?|?] eqn:?; cbn [mbind res_bind]
  | |- (let '(_, _) := ?x in _) = _ -> _ => destruct x
  end; auto.
Qed.

Lemma detect_loop_number suf : forall fuel c pre lost,
  wf c -> unacked c pns = pre ++ suf -> (length suf <= fuel)%nat ->
  forall c' l, detect_loop sc_retx_frames srtt min_rtt env fuel pns largest_retx c (head suf) lost = Ok (c', l) ->
  l <= Z.max lost (sc_largest_acked_packno (sc_a c)).
Proof using.
  induction suf as [suf IH] using (induction_ltof1 _ (@length Z)). unfold ltof in IH.
  intros fuel c pre lost W Hq Hf c' l. destruct suf as [|p suf].
  - destruct fuel; cbn; intros [= _ <-]; lia.
  - destruct (queued c pns p W) as (pk & Hp & Hok & Hu & Hh).
    { rewrite Hq. apply elem_of_app. right. by left. }
    destruct fuel as [|fuel]; [cbn in Hf; lia|]. cbn [detect_loop head]. cbn in Hf.
    rewrite (get_ok _ _ _ Hp). cbn [mbind res_bind].
    destruct (Z.ltb_spec (sc_largest_acked_packno (sc_a c)) (packno pk)) as [Hlt|Hle]; [intros [= _ <-]; lia|].
    assert (Hnd : NoDup (unacked c pns)) by apply (wf_q _ W). rewrite Hq in Hnd. rewrite Hq, tailq_next_mid by done.
    assert (HA : at_packet c p pk pre suf) by done.
    pose proof (detect_step_ok c p pk pre suf lost HA) as H.
    destruct (detect_step _ _ _ _ _ _ _ _ _) as [[[c1 nx] lost1]|f] eqn:E1; [|done]. cbn [mbind res_bind].
    destruct H as (suf1 & [[A B C D [pre1 E] F] T1 T2] & ->). pose proof (sublist_length _ _ F).
    intros Hl. pose proof (detect_step_number _ _ _ _ _ Hp _ _ _ E1) as Hn.
    pose proof (IH suf1 ltac:(cbn; lia) fuel c1 pre1 lost1 A E ltac:(lia) c' l Hl) as Hle'.
    assert (sc_largest_acked_packno (sc_a c1) = sc_largest_acked_packno (sc_a c)) as Ec by (unfold crit in D; by simplify_eq).
    lia.
Qed.

End detect.

(** *** The whole of loss detection *)

Section detect_all.
Context (sc_retx_frames srtt min_rtt : Z) (env : Z -> Z * Z) (pns : nat).

Local Abbreviation lr c := (largest_retx_packet_number sc_retx_frames c pns).

Lemma detect_losses_ok c :
  wf c ->
  wp c (send_ctl_detect_losses sc_retx_frames srtt min_rtt env c pns)
     (fun '(c', ret) => wf c' /\ evolves c c' /\ shrinks (sc_mem c) (sc_mem c') /\ crit (sc_a c') = crit (sc_a c)
        /\ exact sc_retx_frames srtt pns (lr c) c (unacked c pns) c'
        /\ (sc_largest_acked_packno (sc_a c) <= sh_last_sent (sc_a c) -> 0 <= sc_largest_sent_at_cutback (sc_a c) ->
            0 <= sh_last_sent (sc_a c) -> ret = false)).
Proof using.
  intros W. unfold send_ctl_detect_losses.
  set (c0 := set_loss_to c 0). assert (W0 : wf c0) by by apply wf_set_a.
  pose proof (detect_loop_ok sc_retx_frames srtt min_rtt env pns (lr c) (unacked c pns)
                (length (unacked c pns)) c0 [] 0 W0 eq_refl (Nat.le_refl _)) as H.
  pose proof (detect_loop_number sc_retx_frames srtt min_rtt env pns (lr c) (unacked c pns)
                (length (unacked c pns)) c0 [] 0 W0 eq_refl (Nat.le_refl _)) as HN.
  change (unacked c0 pns) with (unacked c pns).
  destruct (detect_loop _ _ _ _ _ _ _ _ _ _) as [[c1 lost]|f]; [|exact H].
  destruct H as [(suf' & [A B C D E F]) HX]. specialize (HN _ _ eq_refl). cbn [mbind res_bind wp].
  set (c2 := if sc_largest_sent_at_cutback (sc_a c1) <? lost then send_ctl_loss_event c1 else c1).
  assert (exists a, c2 = set_a c1 a /\ crit a = crit (sc_a c1)
          /\ sc_largest_sent_at_cutback a = if sc_largest_sent_at_cutback (sc_a c1) <? lost then sh_last_sent (sc_a c1)
                                            else sc_largest_sent_at_cutback (sc_a c1)) as (a & Ea & Ec & Ek).
  { unfold c2. destruct (_ <? _); [by eexists|]. exists (sc_a c1). split; [by destruct c1|done]. }
  rewrite Ea. split_and!.
  - by apply wf_set_a.
  - exact B.
  - exact C.
  - cbn. by rewrite Ec.
  - intros Hs. assert (HJ : forall z, declared sc_retx_frames srtt (lr c) c0 z = declared sc_retx_frames srtt (lr c) c z
      /\ found sc_retx_frames srtt (lr c) c0 z = found sc_retx_frames srtt (lr c) c z
      /\ (solo sc_retx_frames c z -> solo sc_retx_frames c0 z)) by (intros; by apply judged_ext).
    destruct HX as [H1 H2].
    { intros z Hz. by apply HJ, Hs. }
    split.
    + exact H1.
    + intros z Hz Hf. change (unacked (set_a c1 a) pns) with (unacked c1 pns). apply H2; [done|].
      intros Hz'. destruct (HJ z) as (_ & -> & _). by apply Hf.
  - intros Hla Hc0 Hs. cbn. assert (sh_last_sent (sc_a c1) = sh_last_sent (sc_a c)) as El by (unfold crit in D; by simplify_eq).
    cbn in HN. rewrite Ek, El. destruct (Z.ltb_spec (sc_largest_sent_at_cutback (sc_a c1)) lost); lia.
Qed.

End detect_all.
