(* ===== verification/SendCtlThms.v ===== *)
(** The send controller's theorems: acknowledgements retire exactly the chains
    they name, loss detection declares exactly the packets it should, and the
    invariant holds in every reachable state. *)
From stdpp Require Import gmap sorting.
From S2P Require Import Prelude Ranges Art SendCtl SendCtlSpec SendCtlLoss SendCtlAck.
Local Open Scope Z_scope.

(** ** Chains as reachability *)

(** [z] is reached from [x] by following [po_loss_chain]. *)
Definition linked (m : gmap Z packet) : Z -> Z -> Prop := rtc (fun a b => chain m a = Some b).

Lemma seg_linked m l : forall x y z, seg m x l y -> z ∈ l -> linked m x z.
Proof.
  induction l as [|w l IH]; intros x y z S Hz; [by apply elem_of_nil in Hz|].
  destruct S as [-> (v & E & S)]. apply elem_of_cons in Hz as [->|Hz]; [apply rtc_refl|].
  eapply rtc_l; [exact E|]. by apply (IH v y).
Qed.

Lemma ring_closed m p rest a b : on_ring m p rest -> a ∈ p :: rest -> chain m a = Some b -> b ∈ p :: rest.
Proof.
  intros HR Ha Hc. destruct (on_ring_rotate _ _ _ _ HR Ha) as (l1 & l2 & E & [S _]).
  destruct S as [_ (w & Ew & S)]. assert (w = b) as -> by congruence. rewrite E.
  destruct (l2 ++ l1) as [|y l] eqn:El.
  - cbn in S. subst. apply elem_of_app. right. by left.
  - destruct S as [-> _]. assert (y ∈ l2 ++ l1) as Hy by (rewrite El; by left). rewrite elem_of_app in *.
    destruct Hy; [right; by right|by left].
Qed.

Lemma ring_linked m p rest z : on_ring m p rest -> linked m p z <-> z ∈ p :: rest.
Proof.
  intros HR. split.
  - assert (H : forall a, a ∈ p :: rest -> linked m a z -> z ∈ p :: rest); [|apply H; by left].
    intros a Ha Hl. induction Hl as [a|a b z Hab _ IH]; [done|]. apply IH. by eapply ring_closed.
  - intros Hz. destruct HR as [S _]. by apply (seg_linked m (p :: rest) p p).
Qed.

(** ** Ranges, lowest first *)

Definition asc (rs : list (Z * Z)) : Prop :=
  StronglySorted (fun r r' => r.2 < r'.1) rs /\ Forall (fun r => r.1 <= r.2) rs.

Lemma sorted_snoc {A} (R : A -> A -> Prop) l x :
  StronglySorted R l -> Forall (fun y => R y x) l -> StronglySorted R (l ++ [x]).
Proof.
  induction 1 as [|y l S IH F]; intros H; cbn; [repeat constructor|]. apply Forall_cons in H as [H1 H2].
  constructor; [by apply IH|]. apply Forall_app. split; [done|]. by apply Forall_singleton.
Qed.

Lemma ranges_ok_Forall b rs : ranges_ok b rs -> Forall (fun r => 0 <= r.1 <= r.2 /\ r.2 + 1 < b) rs.
Proof.
  revert b. induction rs as [|[l h] rs IH]; intros b H; [constructor|]. destruct H as (H1 & H2 & H3).
  constructor; [cbn; lia|]. eapply Forall_impl; [by apply IH|]. cbn. lia.
Qed.

Lemma asc_rev b rs : ranges_ok b rs -> asc (rev rs).
Proof.
  revert b. induction rs as [|[l h] rs IH]; intros b H; [split; constructor|]. destruct H as (H1 & H2 & H3).
  destruct (IH _ H3) as [S F]. cbn. split.
  - apply sorted_snoc; [done|]. apply List.Forall_rev. eapply Forall_impl; [by apply (ranges_ok_Forall l)|]. cbn. lia.
  - apply Forall_app. split; [done|]. apply Forall_singleton. cbn. lia.
Qed.

Lemma advance_in rs n m : n <= m -> asc rs -> in_ranges m (range_advance rs n) <-> in_ranges m rs.
Proof.
  intros Hm [S F]. induction rs as [|r rs IH]; [done|]. cbn. apply StronglySorted_inv in S as [S _].
  apply Forall_cons in F as [_ F]. destruct (Z.ltb_spec r.2 n); [|done].
  rewrite IH, in_ranges_cons by done. unfold in_range. split; [auto|]. intros [?|?]; [lia|done].
Qed.

Lemma advance_asc rs n : asc rs -> asc (range_advance rs n).
Proof.
  intros [S F]. induction rs as [|r rs IH]; [done|]. cbn. destruct (Z.ltb_spec r.2 n); [|done].
  apply StronglySorted_inv in S as [S _]. apply Forall_cons in F as [_ F]. by apply IH.
Qed.

Lemma advance_head rs n r : head (range_advance rs n) = Some r -> n <= r.2.
Proof.
  induction rs as [|x rs IH]; cbn; [done|]. destruct (Z.ltb_spec x.2 n); [done|]. by intros [= <-].
Qed.

Lemma advance_last rs n hi : last rs = Some hi -> n <= hi.2 -> last (range_advance rs n) = Some hi.
Proof.
  induction rs as [|x rs IH]; intros Hl Hn; [done|]. cbn [range_advance].
  destruct (Z.ltb_spec x.2 n); [|done]. destruct rs; [cbn in Hl; injection Hl as ->; lia|]. by apply IH.
Qed.

Lemma head_of_last {A} (l : list A) x : last l = Some x -> exists y, head l = Some y.
Proof. destruct l; [done|]. cbn. eauto. Qed.

(** Only the first range can hold a number it does not end below. *)
Lemma first_range rs r n : asc rs -> head rs = Some r -> n <= r.2 -> in_ranges n rs <-> r.1 <= n.
Proof.
  intros [S F] Hh Hn. destruct rs as [|x rs]; [done|]. injection Hh as ->. apply StronglySorted_inv in S as [_ S].
  rewrite in_ranges_cons. unfold in_range. split.
  - intros [?|H]; [lia|]. unfold in_ranges in H. rewrite Exists_exists in H. destruct H as (y & Hy & Hr).
    rewrite Forall_forall in S. specialize (S _ Hy). apply Forall_cons in F as [F _]. unfold in_range in Hr. lia.
  - auto.
Qed.

(** ** Acknowledged packets *)

Section ack.
Context (sc_retx_frames : Z) (pns : nat).

(** What [got_ack] leaves alone. *)
Definition steady (a : acked) : Z * Z * Z := (sh_last_sent a, sc_gap a, sc_largest_sent_at_cutback a).

Record left_queue (c : send_ctl) (p : Z) (pk : packet) (c1 : send_ctl) : Prop := {
  lq_mem : exists pk1, sc_mem c1 = <[p := pk1]> (sc_mem c) /\ link pk1 = link pk;
  lq_q : sc_q c1 = qremove p (sc_q c);
  lq_n : wfq (delete p (sc_mem c)) (qremove p (sc_q c)) (sc_n c1);
  lq_art : art_ok (sc_art c1);
  lq_malo : exists l, sc_malo c = l ++ sc_malo c1;
  lq_a : steady (sc_a c1) = steady (sc_a c) /\ sc_largest_acked_packno (sc_a c1) = packno pk
}.

Lemma ack_packet_ok c p pk pre suf prev :
  wf c -> sc_mem c !! p = Some pk -> packet_ok pk -> po_unacked pk = true -> home pk = pns ->
  unacked c pns = pre ++ p :: suf ->
  wp c (ack_packet sc_retx_frames c pns p pk prev)
     (fun '(c1, ok) => if (ok : bool) then po_poison pk = false /\ left_queue c p pk c1
        else po_poison pk = true /\ wf c1 /\ evolves c c1 /\ shrinks (sc_mem c) (sc_mem c1)
             /\ steady (sc_a c1) = steady (sc_a c) /\ sc_largest_acked_packno (sc_a c1) = packno pk).
Proof using.
  intros W Hp Hok Hu Hh Hq. unfold ack_packet. set (c0 := set_acked c (packno pk) (po_sent pk)).
  assert (W0 : wf c0) by by apply wf_set_a.
  apply wp_bind. eapply (wp_mono _ _ (fun c1 => wf c1 /\ evolves c c1 /\ sc_mem c1 = sc_mem c /\ sc_q c1 = sc_q c
    /\ sc_n c1 = sc_n c /\ sc_a c1 = sc_a c0)).
  { destruct (fake pk =? 1).
    - apply (wp_evolves c c0); [split_and!; [by exists []|eauto|done]|]. eapply wp_mono; [by apply record_feedback_step|].
      intros c1 (A & B & C & D & E & F). split_and!; first [exact B|done].
    - cbn. split_and!; try done. split_and!; [by exists []|eauto|done]. }
  intros c1 (W1 & Hev & Em & Eq & En & Ea). pose proof (wf_q _ W) as WQ.
  assert (Hin : p ∈ unacked c1 pns).
  { unfold unacked. rewrite Eq. fold (unacked c pns). rewrite Hq. apply elem_of_app. right. by left. }
  assert (Hw : steady (sc_a c1) = steady (sc_a c) /\ sc_largest_acked_packno (sc_a c1) = packno pk) by (by rewrite Ea).
  destruct (is_loss_rec pk) eqn:Hl.
  - rewrite (tailq_remove_in p); [|unfold fake_leaves; destruct (fake pk =? 1); exact Hin]. cbn [mbind res_bind wp].
    destruct Hok as (Hfl & HLR & _). destruct (HLR Hl) as (_ & Hsz & Hpo & _). split; [done|].
    set (n1 := if fake pk =? 1 then add_in_flight (sc_n c1) (-1) (- po_sent_sz pk) 0 0 else sc_n c1).
    set (c2 := set_unacked (fake_leaves c1 pk) pns (filter (.≠ p) (unacked (fake_leaves c1 pk) pns))).
    assert (E2 : c2 = CTL (sc_mem c) (qremove p (sc_q c)) n1 (sc_a c1) (sc_art c1) (sc_malo c1)).
    { unfold c2, set_unacked, fake_leaves, n1, set_q. rewrite <- Hh.
      rewrite (qremove_unacked _ _ _ _ _ WQ Hp Hu). rewrite <- Eq, <- Em. destruct (fake pk =? 1); done. }
    assert (HX : exists a, send_ctl_maybe_increase_reord_thresh c2 pk prev = set_a c2 a
              /\ steady a = steady (sc_a c2) /\ sc_largest_acked_packno a = sc_largest_acked_packno (sc_a c2)).
    { unfold send_ctl_maybe_increase_reord_thresh. destruct (po_facked pk && _); [eexists; split; [reflexivity|done]|].
      exists (sc_a c2). split_and!; try done. }
    destruct HX as (a & -> & Ha1 & Ha2). rewrite E2 in *. cbn in Ha1, Ha2. split; cbn.
    + exists pk. by rewrite insert_id.
    + done.
    + eapply (wfq_detach _ _ _ p pk); [exact WQ|exact Hp|]. unfold minus, n1. rewrite En.
      pose proof (counted_u32 _ _ (wf_n _ _ _ WQ)) as (U1 & U2 & U3 & U4 & U5).
      assert (po_sched pk = false /\ po_lost pk = false) as [E3 E4].
      { destruct Hfl as (X & _ & Z). rewrite Hu in *. destruct (po_sched pk), (po_lost pk); done. }
      unfold bytes_in_flight, in_flight, bytes_scheduled, scheduled, lost, packet_out_sent_sz.
      rewrite Hu, E3, E4, Hl, Hsz. destruct (fake pk =? 1); counts_tac.
    + apply W1.
    + apply Hev.
    + destruct Hw as [Hw1 Hw2]. by rewrite Ha1, Ha2.
  - destruct (po_poison pk) eqn:Hpo.
    + destruct Hok as (_ & _ & HPO & _). destruct (HPO Hpo) as (_ & _ & Hmt & _). rewrite Hmt. cbn.
      split_and!; try done; [by rewrite Em; apply shrinks_refl|apply Hw..].
    + cbn [andb]. destruct (unacked_remove_detach sc_retx_frames (sc_mem c1) c1 p pk) as (n1 & -> & Hm); try done.
      * apply W1.
      * apply small_fits, W1.
      * by rewrite Em.
      * by rewrite Em.
      * cbn. split; [done|]. split; cbn; rewrite ?Eq, ?Em; try done.
        -- eexists. split; [done|]. done.
        -- eapply (wfq_detach _ _ _ p pk); [exact WQ|exact Hp|]. by rewrite <- En.
        -- apply W1.
        -- apply Hev.
Qed.

(** The chains that an acknowledgement of [ranges] retires, as far as the
    packets [suf] of the queue are concerned. *)
Definition dead (c : send_ctl) (suf : list Z) (ranges : list (Z * Z)) (z : Z) : Prop :=
  exists x, x ∈ suf /\ in_ranges (pno (sc_mem c) x) ranges /\ linked (sc_mem c) x z.

Record retired (c : send_ctl) (suf : list Z) (ranges : list (Z * Z)) (c' : send_ctl) : Prop := {
  rt_dead : forall z, dead c suf ranges z -> sc_mem c' !! z = None;
  rt_live : forall z, ~ dead c suf ranges z -> sc_mem c' !! z = sc_mem c !! z;
  rt_mono : forall z, sc_mem c !! z = None -> sc_mem c' !! z = None
}.

Lemma linked_dels m l x z : linked (dels l m) x z -> linked m x z.
Proof using.
  apply rtc_subrel. intros a b. unfold chain. rewrite lookup_dels. by destruct (decide (a ∈ l)).
Qed.

Lemma linked_survives m p rest x z :
  rings m -> on_ring m p rest -> x ∉ p :: rest -> is_Some (m !! x) -> linked m x z -> linked (dels (p :: rest) m) x z.
Proof using.
  intros R HR Hx Hs Hl. destruct (rg_ring _ R x Hs) as [rest' HR']. apply (ring_linked _ _ _ _ HR') in Hl.
  apply (ring_linked _ _ rest'); [|done]. destruct HR' as [S N]. split; [|done].
  eapply seg_ext; [|exact S]. intros y Hy. unfold chain. rewrite lookup_dels, decide_False; [done|].
  intros Hy'. apply Hx. by apply (on_ring_same m p rest x rest' y).
Qed.

Lemma retired_gone c p rest suf ranges c1 c' :
  wf c -> (forall x, x ∈ suf -> is_Some (sc_mem c !! x)) ->
  on_ring (sc_mem c) p rest -> sc_mem c1 = dels (p :: rest) (sc_mem c) ->
  in_ranges (pno (sc_mem c) p) ranges -> retired c1 (filter (.∉ p :: rest) suf) ranges c' ->
  retired c (p :: suf) ranges c'.
Proof using.
  intros W HM HR Em Hp [T1 T2 T3].
  assert (HD : forall z, z ∈ p :: rest -> sc_mem c' !! z = None).
  { intros z Hz. apply T3. by rewrite Em, lookup_dels, decide_True. }
  assert (HL : forall z, z ∉ p :: rest -> sc_mem c1 !! z = sc_mem c !! z).
  { intros z Hz. by rewrite Em, lookup_dels, decide_False. }
  split.
  - intros z (x & Hx & Hr & Hl). apply elem_of_cons in Hx as [->|Hx].
    + apply HD. by apply (ring_linked _ _ _ _ HR).
    + destruct (decide (x ∈ p :: rest)) as [Hin|Hout].
      * apply HD. destruct (on_ring_rotate _ _ _ _ HR Hin) as (l1 & l2 & E & Rx).
        apply (ring_linked _ _ _ _ Rx) in Hl. rewrite E. set_solver.
      * apply T1. exists x. split_and!.
        -- by apply list_elem_of_filter.
        -- by rewrite (pno_eq (sc_mem c)) by (by apply HL).
        -- rewrite Em. apply linked_survives; try done; [apply W|by apply HM].
  - intros z Hz. assert (Hzr : z ∉ p :: rest).
    { intros Hin. apply Hz. exists p. split_and!; [by left|done|]. by apply (ring_linked _ _ _ _ HR). }
    rewrite T2; [by apply HL|]. intros (x & Hx & Hr & Hl). apply list_elem_of_filter in Hx as [Hout Hx].
    apply Hz. exists x. split_and!; [by right| |].
    + by rewrite <- (pno_eq (sc_mem c) (sc_mem c1)) by (by apply HL).
    + rewrite Em in Hl. by eapply linked_dels.
  - intros z Hz. apply T3. rewrite Em, lookup_dels. by destruct (decide _).
Qed.

Lemma retired_skip c p suf ranges c' :
  ~ in_ranges (pno (sc_mem c) p) ranges -> retired c suf ranges c' -> retired c (p :: suf) ranges c'.
Proof using.
  intros Hp [T1 T2 T3].
  assert (HD : forall z, dead c (p :: suf) ranges z <-> dead c suf ranges z).
  { intros z. split; intros (x & Hx & Hr & Hl).
    - apply elem_of_cons in Hx as [->|Hx]; [done|]. by exists x.
    - exists x. split_and!; try done. by right. }
  split; [|intros z Hz|done].
  - intros z Hz. by apply T1, HD.
  - apply T2. by rewrite <- HD.
Qed.

Lemma retired_none c suf ranges :
  (forall x, x ∈ suf -> ~ in_ranges (pno (sc_mem c) x) ranges) -> retired c suf ranges c.
Proof using. intros H. split; [|done|done]. intros z (x & Hx & Hr & _). by destruct (H x Hx). Qed.

Section loop.
Context (ranges : list (Z * Z)) (hi : Z * Z) (prev : Z).
Hypothesis (Hhi : forall n, in_ranges n ranges -> n <= hi.2).

(** The ranges that are left serve for the numbers above [b]. *)
Definition serves (rs : list (Z * Z)) (skip : bool) (b : Z) : Prop :=
  asc rs /\ last rs = Some hi /\ (forall n, b < n <= hi.2 -> in_ranges n rs <-> in_ranges n ranges)
  /\ (skip = true -> exists r, rs = [r] /\ r.1 <= b + 1).

(** The outcome for the packets [suf] of the queue. *)
Definition acked_post (c : send_ctl) (suf : list Z) (r : send_ctl * bool) : Prop :=
  wf r.1 /\ evolves c r.1 /\ shrinks (sc_mem c) (sc_mem r.1) /\ steady (sc_a r.1) = steady (sc_a c)
  /\ (sc_largest_acked_packno (sc_a r.1) = sc_largest_acked_packno (sc_a c)
      \/ sc_largest_acked_packno (sc_a r.1) <= hi.2)
  /\ if r.2 then retired c suf ranges r.1
     else exists x xk, x ∈ suf /\ sc_mem c !! x = Some xk /\ po_poison xk = true /\ in_ranges (packno xk) ranges.

(** The step to the next packet. *)
Definition go_on (fuel : nat) (c : send_ctl) (rs : list (Z * Z)) (skip : bool) (next : option Z) : res (send_ctl * bool) :=
  match next with
  | Some p =>
    pk ← get c p;
    if packno pk <=? hi.2 then got_ack_loop sc_retx_frames fuel c pns rs skip hi.2 prev p else Ok (c, true)
  | None => Ok (c, true)
  end.

Definition loop_spec (suf : list Z) : Prop := forall fuel c pre p rs skip,
  wf c -> unacked c pns = pre ++ p :: suf -> (length suf < fuel)%nat -> pno (sc_mem c) p <= hi.2 ->
  serves rs skip (pno (sc_mem c) p - 1) ->
  wp c (got_ack_loop sc_retx_frames fuel c pns rs skip hi.2 prev p) (acked_post c (p :: suf)).

Lemma go_on_ok suf fuel c pre rs skip b :
  (forall suf', (length suf' < length suf)%nat -> loop_spec suf') ->
  wf c -> unacked c pns = pre ++ suf -> (length suf <= fuel)%nat -> serves rs skip b ->
  (forall x, x ∈ suf -> b < pno (sc_mem c) x) ->
  wp c (go_on fuel c rs skip (head suf)) (acked_post c suf).
Proof using Hhi.
  intros IH W Hq Hf (S1 & S2 & S3 & S4) Hb.
  assert (Hdone : (forall x, x ∈ suf -> ~ in_ranges (pno (sc_mem c) x) ranges) -> acked_post c suf (c, true)).
  { intros H. split_and!; cbn; first [done|apply evolves_refl|apply shrinks_refl|by left|by apply retired_none]. }
  destruct suf as [|p suf]; cbn [go_on head].
  - apply Hdone. intros x Hx. by apply elem_of_nil in Hx.
  - destruct (queued c pns p W) as (pk & Hp & Hok & Hu & Hh).
    { rewrite Hq. apply elem_of_app. right. by left. }
    assert (Hpn : pno (sc_mem c) p = packno pk) by (unfold pno; by rewrite Hp).
    rewrite (get_ok _ _ _ Hp). cbn [mbind res_bind]. destruct (Z.leb_spec (packno pk) hi.2) as [Hle|Hlt].
    + specialize (Hb p ltac:(by left)). apply (IH suf ltac:(cbn; lia) fuel c pre p rs skip W Hq); [cbn in Hf; lia|lia|].
      split_and!; try done.
      * intros n Hn. apply S3. lia.
      * intros E. destruct (S4 E) as (r & -> & Hr). exists r. split; [done|lia].
    + apply Hdone. intros x Hx Hr. apply Hhi in Hr.
      pose proof (wf_sorted _ W pns) as S. unfold pnos in S. rewrite Hq, map_app in S.
      apply (sublist_sorted (map (pno (sc_mem c)) (p :: suf))) in S; [|by apply sublist_inserts_l].
      cbn in S. apply StronglySorted_inv in S as [_ F]. apply elem_of_cons in Hx as [->|Hx]; [lia|].
      rewrite Forall_forall in F. specialize (F (pno (sc_mem c) x)).
      assert (pno (sc_mem c) p < pno (sc_mem c) x) by (apply F, list_elem_of_fmap; eauto). lia.
Qed.

Lemma loop_tail suf c pre p pk :
  wf c -> unacked c pns = pre ++ p :: suf -> sc_mem c !! p = Some pk ->
  forall x, x ∈ suf -> packno pk < pno (sc_mem c) x /\ is_Some (sc_mem c !! x).
Proof using.
  intros W Hq Hp x Hx. split.
  - pose proof (wf_sorted _ W pns) as S. unfold pnos in S. rewrite Hq, map_app in S.
    apply (sublist_sorted (map (pno (sc_mem c)) (p :: suf))) in S; [|by apply sublist_inserts_l].
    cbn in S. apply StronglySorted_inv in S as [_ F]. unfold pno at 1 in F. rewrite Hp in F.
    rewrite Forall_forall in F. apply F, list_elem_of_fmap. eauto.
  - destruct (queued c pns x W) as (xk & -> & _); [|eauto]. rewrite Hq. apply elem_of_app. right. by right.
Qed.

Lemma loop_ok suf : loop_spec suf.
Proof using Hhi.
  induction suf as [suf IH] using (induction_ltof1 _ (@length Z)). unfold ltof in IH.
  intros fuel c pre p rs skip W Hq Hf Hle (S1 & S2 & S3 & S4).
  destruct fuel as [|fuel]; [lia|]. destruct (queued c pns p W) as (pk & Hp & Hok & Hu & Hh).
  { rewrite Hq. apply elem_of_app. right. by left. }
  assert (Hpn : pno (sc_mem c) p = packno pk) by (unfold pno; by rewrite Hp). rewrite Hpn in *.
  assert (Hnd : NoDup (unacked c pns)) by apply (wf_q _ W). rewrite Hq in Hnd.
  pose proof (loop_tail suf c pre p pk W Hq Hp) as Htail.
  cbn [got_ack_loop]. rewrite (get_ok _ _ _ Hp). cbn [mbind res_bind]. rewrite Hq, tailq_next_mid by done.
  set (rs1 := if skip then rs else range_advance rs (packno pk)).
  assert (HS1 : asc rs1 /\ last rs1 = Some hi /\ forall n, packno pk <= n <= hi.2 -> in_ranges n rs1 <-> in_ranges n ranges).
  { unfold rs1. destruct skip; split_and!; try done.
    - intros n Hn. apply S3. lia.
    - by apply advance_asc.
    - by apply advance_last.
    - intros n Hn. rewrite advance_in by (done || lia). apply S3. lia. }
  destruct HS1 as (A1 & A2 & A3). destruct (head_of_last _ _ A2) as [r Hr].
  rewrite Hr. cbn [need mbind res_bind].
  assert (Hn2 : packno pk <= r.2).
  { destruct skip eqn:Es.
    - destruct (S4 eq_refl) as (r' & -> & _). cbn in S2, Hr. congruence.
    - by apply (advance_head rs). }
  assert (Hhit : skip || (r.1 <=? packno pk) = true <-> in_ranges (packno pk) ranges).
  { rewrite <- A3, (first_range rs1 r) by (done || lia). destruct skip eqn:Es; [|cbn; lia].
    destruct (S4 eq_refl) as (r' & E & Hr'). unfold rs1 in Hr. rewrite E in Hr. injection Hr as <-. cbn. lia. }
  destruct (skip || (r.1 <=? packno pk)) eqn:Eh.
  - pose proof (proj1 Hhit eq_refl) as Hin. apply wp_bind.
    eapply wp_mono; [by apply (ack_packet_ok c p pk pre suf prev)|]. intros [c1 []]; cbn [negb].
    + intros (Hpo & [[pk1 [L1 L1']] L2 L3 L4 L5 [L6 L7]]).
      assert (Hpp : po_pns pk = pns) by (unfold home in Hh; by rewrite Hpo in Hh).
      destruct (rg_ring _ (wf_r _ W) p) as [rest HR]; [eauto|].
      destruct (retire_wf sc_retx_frames c c1 p pk pk1 rest pre suf (head suf)) as (c2 & c3 & -> & E3 & HG & Ea); try done.
      { by rewrite Hpp. }
      cbn [mbind res_bind]. rewrite E3. cbn [mbind res_bind].
      set (suf1 := filter (.∉ p :: rest) suf). pose proof HG as [G1 G2 G3 G4 G5 G6].
      change (wp c (go_on fuel c3 rs1 (Nat.eqb (length rs1) 1) (head suf1)) (acked_post c (p :: suf))).
      assert (Hsuf1 : (length suf1 <= length suf)%nat) by apply length_filter.
      eapply wp_evolves; [exact G2|]. eapply wp_mono.
      * apply (go_on_ok suf1 fuel c3 (filter (.∉ p :: rest) (pre ++ [p])) rs1 _ (packno pk)).
        -- intros suf' Hs. apply IH. lia.
        -- done.
        -- rewrite G5, Hq. change (p :: suf) with ([p] ++ suf). by rewrite app_assoc, filter_app.
        -- lia.
        -- split_and!; try done.
           ++ intros n Hn. apply A3. lia.
           ++ intros El. apply Nat.eqb_eq in El. destruct rs1 as [|r1 [|]]; try done. exists r1. split; [done|].
              injection Hr as ->. destruct skip eqn:Es; [|cbn in Eh; lia].
              destruct (S4 eq_refl) as (r' & -> & Hr'). injection A2 as <-. cbn in S2. injection S2 as ->. lia.
        -- intros x [Hx1 Hx2]%list_elem_of_filter. rewrite (pno_eq (sc_mem c)); [by apply Htail|].
           by rewrite G4, lookup_dels, decide_False.
      * intros [c' ok'] (P1 & P2 & P3 & P4 & P5 & P6). cbn in P1, P2, P3, P4, P5, P6. split_and!; cbn; try done.
        -- by eapply evolves_trans.
        -- by eapply shrinks_trans.
        -- rewrite P4, Ea. done.
        -- right. destruct P5 as [->|]; [rewrite Ea, L7; lia|done].
        -- destruct ok'.
           ++ apply (retired_gone c p rest suf ranges c3 c' W); [intros; by apply Htail|done|done|by rewrite Hpn|exact P6].
           ++ destruct P6 as (x & xk & Hx & Hxk & Hxp & Hxr). apply list_elem_of_filter in Hx as [Hx1 Hx2].
              exists x, xk. split_and!; try done; [by right|]. rewrite G4, lookup_dels in Hxk. by destruct (decide _).
    + intros (Hpo & B1 & B2 & B3 & B4 & B5). cbn. split_and!; cbn; try done; [right; lia|].
      exists p, pk. split_and!; try done. by left.
  - change (wp c (go_on fuel c rs1 false (head suf)) (acked_post c (p :: suf))). eapply wp_mono.
    + apply (go_on_ok suf fuel c (pre ++ [p]) rs1 false (packno pk)); try done.
      * by rewrite <- app_assoc.
      * lia.
      * split_and!; try done. intros n Hn. apply A3. lia.
      * intros x Hx. by apply Htail.
    + intros [c' ok'] (P1 & P2 & P3 & P4 & P5 & P6). split_and!; try done. cbn in *. destruct ok'.
      * apply retired_skip; [|done]. rewrite Hpn. intros H. apply Hhit in H. done.
      * destruct P6 as (x & xk & Hx & ?). exists x, xk. split; [by right|done].
Qed.

End loop.
End ack.

(** ** An ACK frame *)

Lemma last_rev {A} (l : list A) : last (rev l) = head l.
Proof. destruct l as [|x l]; [done|]. cbn. by rewrite last_snoc. Qed.

Lemma in_ranges_rev n rs : in_ranges n (rev rs) <-> in_ranges n rs.
Proof.
  unfold in_ranges. rewrite !Exists_exists. split; intros (r & Hr & H); exists r; split; try done.
  - apply list_elem_of_In, in_rev, list_elem_of_In. done.
  - apply list_elem_of_In. rewrite <- in_rev. by apply list_elem_of_In.
Qed.

Lemma below_highest b ranges hi n : ranges_ok b ranges -> head ranges = Some hi -> in_ranges n ranges -> n <= hi.2.
Proof.
  destruct ranges as [|[l h] rs]; [done|]. intros (H1 & H2 & H3) [= <-] [H|H]%in_ranges_cons.
  - unfold in_range in H. cbn in *. lia.
  - pose proof (ranges_ok_below _ _ _ H3 H). cbn. lia.
Qed.

Section frame.
Context (sc_retx_frames srtt min_rtt : Z) (env : Z -> Z * Z) (pns : nat).

Lemma got_ack_loop_ok c ranges hi prev p suf :
  wf c -> ranges_ok PN_BOUND ranges -> head ranges = Some hi -> unacked c pns = p :: suf -> pno (sc_mem c) p <= hi.2 ->
  wp c (got_ack_loop sc_retx_frames (length (unacked c pns)) c pns (rev ranges) false hi.2 prev p)
     (acked_post ranges hi c (unacked c pns)).
Proof using.
  intros W Hr Hh Hq Hle. rewrite Hq.
  apply (loop_ok sc_retx_frames pns ranges hi prev (fun n => below_highest _ _ _ n Hr Hh) suf _ c [] p (rev ranges) false W Hq).
  - cbn. lia.
  - done.
  - split_and!; [by eapply asc_rev|by rewrite last_rev|intros n _; apply in_ranges_rev|done].
Qed.

(** The poisoned packet goes, alone. *)
Lemma poison_ok c gap :
  wf c -> exists c', send_ctl_reschedule_poison c gap = Ok c'
    /\ wf c' /\ evolves c c' /\ shrinks (sc_mem c) (sc_mem c') /\ sh_last_sent (sc_a c') = sh_last_sent (sc_a c).
Proof using.
  intros W. pose proof (wf_q _ W) as WQ. unfold send_ctl_reschedule_poison.
  destruct (head (filter (fun p => is_poison c p = true) (unacked c PNS_APP))) as [p|] eqn:E.
  2: { exists c. split_and!; first [done|apply evolves_refl|apply shrinks_refl]. }
  assert (Hin : p ∈ filter (fun p => is_poison c p = true) (unacked c PNS_APP)).
  { destruct (filter _ _); [done|]. injection E as ->. by left. }
  apply list_elem_of_filter in Hin as [Hpo Hin]. unfold is_poison in Hpo.
  destruct (queued c PNS_APP p W Hin) as (pk & Hp & Hok & Hu & Hh). rewrite Hp in Hpo.
  rewrite tailq_remove_in by done. cbn [mbind res_bind].
  unfold send_ctl_destroy_packet, get. cbn. rewrite Hp. cbn. eexists. split; [done|].
  match goal with |- wf ?x /\ _ => set (c' := x) end.
  assert (HR : on_ring (sc_mem c) p []).
  { split; [|apply NoDup_singleton]. split; [done|]. exists p. unfold chain. rewrite Hp. cbn.
    by rewrite (rg_solo _ (wf_r _ W) _ _ Hp) by (by rewrite Hpo). }
  assert (HG : gone c [p] c').
  { apply gone_intro; cbn; try done.
    - change (set_unacked c PNS_APP (filter (.≠ p) (unacked c PNS_APP))) with (set_unacked c PNS_APP (filter (.≠ p) (una (sc_q c) PNS_APP))).
      rewrite <- Hh. by rewrite (qremove_unacked _ _ _ _ _ WQ Hp Hu).
    - replace (QS _ _ _) with (qremove p (sc_q c)) by (by rewrite (qremove_unacked _ _ _ _ _ WQ Hp Hu), Hh).
      apply (wfq_detach _ _ (sc_n c) p pk); try done.
      pose proof (counted_u32 _ _ (wf_n _ _ _ WQ)) as (U1 & U2 & U3 & U4 & U5).
      destruct Hok as ((X & _ & Z) & HLR & _). assert (is_loss_rec pk = false) as Hl.
      { destruct (is_loss_rec pk); [|done]. destruct (HLR eq_refl) as (_ & _ & ? & _). congruence. }
      assert (po_sched pk = false /\ po_lost pk = false) as [E1 E2].
      { rewrite Hu in *. destruct (po_sched pk), (po_lost pk); done. }
      unfold minus, bytes_in_flight, in_flight, bytes_scheduled, scheduled, lost. rewrite Hu, Hl, Hpo, E1, E2. counts_tac.
    - change (rings (dels [p] (sc_mem c))). apply rings_dels; [apply W|done].
    - apply W.
    - by exists []. }
  destruct HG. split_and!; done.
Qed.

(** What every walk guarantees. *)
Definition kept (c c' : send_ctl) : Prop :=
  wf c' /\ evolves c c' /\ shrinks (sc_mem c) (sc_mem c') /\ sh_last_sent (sc_a c') = sh_last_sent (sc_a c).

Lemma kept_refl c : wf c -> kept c c.
Proof using. intros W. split_and!; first [done|apply evolves_refl|apply shrinks_refl]. Qed.

Lemma kept_trans c c1 c2 : kept c c1 -> kept c1 c2 -> kept c c2.
Proof using.
  intros (A & B & C & D) (A' & B' & C' & D').
  split_and!; [done|by eapply evolves_trans|by eapply shrinks_trans|congruence].
Qed.

Lemma kept_flags c c1 f : kept c c1 -> kept c (set_flags c1 f).
Proof using. intros (A & B & C & D). split_and!; [by apply wf_set_a|exact B|exact C|exact D]. Qed.

Lemma wp_kept {A} c c1 (r : res A) Q : kept c c1 -> wp c1 r Q -> wp c r Q.
Proof using. intros (_ & B & _). by apply wp_evolves. Qed.

Lemma finish_ok c c1 lo gap : kept c c1 -> wp c (got_ack_finish c1 lo gap) (fun r => kept c r.1).
Proof using.
  intros H. unfold got_ack_finish. destruct (_ <? _); [|done]. pose proof H as (W & _).
  destruct (poison_ok c1 gap W) as (c2 & -> & A2 & B2 & C2 & D2). cbn. by apply (kept_trans c c1).
Qed.

Lemma kept_loss_event c c' : kept c c' -> kept c (send_ctl_loss_event c').
Proof using. intros (A & B & C & D). split_and!; try done. by apply wf_set_a. Qed.

Lemma got_ack_ok c ranges ce gap :
  wf c -> ranges_ok PN_BOUND ranges -> ranges ≠ [] ->
  wp c (lsquic_send_ctl_got_ack sc_retx_frames srtt min_rtt env c pns ranges ce gap) (fun r => kept c r.1).
Proof using.
  intros W Hr Hne. unfold lsquic_send_ctl_got_ack.
  destruct (head ranges) as [hi|] eqn:Hh; [|by destruct ranges]. cbn [need mbind res_bind].
  destruct (last ranges) as [lo|] eqn:Hl; [|by apply last_None in Hl]. cbn [need mbind res_bind].
  destruct (_ <? hi.2).
  { cbn. by apply kept_flags, kept_refl. }
  match goal with |- context [clear_flag ?x _] => set (c1 := clear_flag x SC_WAS_QUIET) end.
  assert (K1 : kept c c1) by (by apply kept_flags, kept_flags, kept_refl).
  assert (Hdet : forall c2, kept c c2 -> wp c
     ('(c, ld) ← send_ctl_detect_losses sc_retx_frames srtt min_rtt env c2 pns;
      let c := if sc_n_in_flight_retx (sc_n c) =? 0 then or_flag c SC_WAS_QUIET else c in
      let c := if ce && negb ld then send_ctl_loss_event c else c in
      got_ack_finish c lo.1 gap) (fun r => kept c r.1)).
  { intros c2 K2. apply wp_bind, (wp_kept _ c2); [done|]. eapply wp_mono; [apply detect_losses_ok, K2|].
    intros [c3 ret] (A & B & C & D & _). cbn zeta. assert (K3 : kept c c3).
    { apply (kept_trans c c2); [done|]. split_and!; try done. unfold crit in D. by simplify_eq. }
    apply (finish_ok c). destruct (ce && negb ret); [apply kept_loss_event|];
      (destruct (_ =? 0); [by apply kept_flags|done]). }
  destruct (head (unacked c1 pns)) as [p|] eqn:Hu; [|by apply finish_ok, kept_flags].
  destruct (unacked c1 pns) as [|p' suf] eqn:Hq; [done|]. injection Hu as ->.
  destruct (queued c1 pns p) as (pk & Hp & _); [apply K1|rewrite Hq; by left|].
  rewrite (get_ok _ _ _ Hp). cbn [mbind res_bind]. apply wp_bind. destruct (Z.ltb_spec hi.2 (packno pk)) as [Hlt|Hle].
  - cbn [wp negb]. by apply Hdet.
  - apply (wp_kept _ c1); [done|]. rewrite <- Hq. eapply wp_mono.
    + apply (got_ack_loop_ok c1 ranges hi _ p suf); try done; [apply K1|]. unfold pno. by rewrite Hp.
    + intros [c2 ok] (A & B & C & D & _ & _). cbn in A, B, C, D.
      assert (K2 : kept c c2).
      { apply (kept_trans c c1); [done|]. split_and!; try done. unfold steady in D. by simplify_eq. }
      destruct ok; cbn [negb]; [|done]. by apply Hdet.
Qed.

End frame.
