(* ===== verification/SendCtlRun.v ===== *)
(** Runs of the send controller: every operation the connection can call, from
    every reachable state, keeps the invariant and misuses neither a pointer
    nor a counter. *)
From stdpp Require Import gmap sorting.
From S2P Require Import Prelude Ranges Art SendCtl SendCtlSpec SendCtlLoss SendCtlAck SendCtlThms.
Local Open Scope Z_scope.

(** Nothing that waits has a number above the largest one sent. *)
Definition hist (c : send_ctl) : Prop :=
  forall k, Forall (fun n => n <= i64 (sh_last_sent (sc_a c))) (pnos c k).

Definition ok (c : send_ctl) : Prop := wf c /\ hist c.

Lemma kept_ok c c' : ok c -> kept c c' -> ok c'.
Proof.
  intros [W H] (A & (_ & _ & B) & _ & D). split; [done|]. intros k. rewrite D. specialize (H k).
  rewrite Forall_forall in H |- *. intros n Hn. apply H. eapply elem_of_submseteq; [exact Hn|]. by apply sublist_submseteq.
Qed.

(** On no queue. *)
Definition limbo (pk : packet) : Prop :=
  po_sched pk = false /\ po_unacked pk = false /\ po_lost pk = false /\ is_loss_rec pk = false /\ po_poison pk = false.

Lemma limbo_weights pk : limbo pk ->
  in_flight pk = 0 /\ bytes_in_flight pk = 0 /\ scheduled pk = 0 /\ bytes_scheduled pk = 0 /\ lost pk = 0.
Proof.
  intros (H1 & H2 & H3 & H4 & H5). unfold bytes_scheduled, bytes_in_flight, in_flight, scheduled, lost.
  rewrite H1, H2, H3. done.
Qed.

(** Packets of other queues keep their numbers. *)
Lemma pnos_same c c' p k :
  unacked c' k = unacked c k -> p ∉ unacked c k -> (forall z, z ≠ p -> sc_mem c' !! z = sc_mem c !! z) ->
  pnos c' k = pnos c k.
Proof.
  intros Hu Hp Hm. unfold pnos. rewrite Hu. apply pno_map_ext. intros z Hz. apply pno_eq, Hm. by intros ->.
Qed.

Lemma not_unacked c p pk k : wf c -> sc_mem c !! p = Some pk -> po_unacked pk = false -> p ∉ unacked c k.
Proof. intros W Hp Hu. by apply (not_queued _ _ _ _ _ (wf_q _ W) Hp). Qed.

(** [p] changes place, but not to or from the unacked queues. *)
Lemma relocate_ok c c' p pk pk' :
  ok c -> sc_mem c !! p = Some pk -> po_unacked pk = false -> sc_mem c' = <[p := pk']> (sc_mem c) -> link pk' = link pk ->
  (forall k, unacked c' k = unacked c k) -> wfq (sc_mem c') (sc_q c') (sc_n c') -> small (sc_mem c') ->
  sc_art c' = sc_art c -> sc_a c' = sc_a c -> ok c'.
Proof.
  intros [W H] Hp Hu Em El Hq W' Hs Ea Eh.
  assert (Hpn : forall k, pnos c' k = pnos c k).
  { intros k. apply (pnos_same c c' p); [done|by apply (not_unacked c p pk)|].
    intros z Hz. by rewrite Em, lookup_insert_ne. }
  split; [split|]; try done.
  - eapply rings_ext; [|apply (wf_r _ W)]. intros z. rewrite Em. destruct (decide (z = p)) as [->|Hz].
    + rewrite lookup_insert_eq, Hp. cbn. by rewrite El.
    + by rewrite lookup_insert_ne.
  - intros k. rewrite Hpn. apply W.
  - rewrite Ea. apply W.
  - intros k. rewrite Hpn, Eh. apply H.
Qed.

(** ** New packets *)

Lemma rings_new m p pk : rings m -> m !! p = None -> rings (<[p := with_chain pk p]> m).
Proof.
  intros R Hp. assert (Hin : forall z zk, <[p := with_chain pk p]> m !! z = Some zk -> z ≠ p -> m !! z = Some zk).
  { intros z zk Hz Hne. by rewrite lookup_insert_ne in Hz. }
  split.
  - intros z [zk Hz]. destruct (decide (z = p)) as [->|Hne].
    + exists []. split; [|apply NoDup_singleton]. split; [done|]. exists p. unfold chain. by rewrite lookup_insert_eq.
    + destruct (rg_ring _ R z) as [rest [S N]]; [eauto|]. exists rest. split; [|done].
      eapply seg_ext; [|exact S]. intros y Hy. unfold chain. rewrite lookup_insert_ne; [done|].
      intros ->. destruct (seg_mem _ _ _ _ _ S Hy). congruence.
  - intros z zk Hz Hb. destruct (decide (z = p)) as [->|Hne].
    + rewrite lookup_insert_eq in Hz. by injection Hz as <-.
    + apply (rg_solo _ R z zk); eauto.
  - intros z zk qk Hz Hq. destruct (decide (z = p)) as [->|Hne].
    + rewrite lookup_insert_eq in Hz. injection Hz as <-. cbn in Hq. rewrite lookup_insert_eq in Hq. by injection Hq as <-.
    + apply Hin in Hz; [|done]. destruct (decide (po_loss_chain zk = p)) as [E|Hne'].
      * destruct (rg_ring _ R z) as [rest HR]; [eauto|].
        assert (p ∈ z :: rest) as Hpr.
        { eapply ring_closed; [exact HR|by left|]. unfold chain. rewrite Hz. cbn. by rewrite E. }
        destruct HR as [S _]. destruct (seg_mem _ _ _ _ _ S Hpr). congruence.
      * apply (rg_pns _ R z); eauto.
Qed.

Lemma plus_zero m n pk : counted m n -> limbo pk -> plus n pk n.
Proof.
  intros Hm Hl. pose proof (counted_u32 _ _ Hm) as (U1 & U2 & U3 & U4 & U5). unfold plus.
  destruct (limbo_weights _ Hl) as (-> & -> & -> & -> & ->). by rewrite !Z.add_0_r.
Qed.

Lemma limbo_attach m q n p pk : wfq m q n -> m !! p = None -> packet_ok pk -> limbo pk -> wfq (<[p := pk]> m) q n.
Proof.
  intros W Hp Hok Hl. destruct (wf_out _ _ _ W _ Hp) as (A & B & C). apply (wfq_attach m q n); try done.
  - apply (plus_zero m); [apply W|done].
  - apply W.
  - apply queues_eq; cbn; [by rewrite length_map| |by apply filter_ne_absent..].
    intros k. rewrite una_qremove. by apply filter_ne_absent.
  - destruct Hl as (X1 & X2 & X3 & _). split_and!; cbn; [intros k|..]; rewrite ?X1, ?X2, ?X3; split; try done.
    + intros X. by destruct (A k).
    + by intros [? _].
Qed.

Lemma limbo_detach m q n p pk : wfq m q n -> m !! p = Some pk -> limbo pk -> wfq (delete p m) q n.
Proof.
  intros W Hp Hl. pose proof Hl as (X1 & X2 & X3 & _). rewrite <- (qremove_limbo _ _ _ _ _ W Hp X2 X3 X1).
  apply (wfq_detach m q n p pk); try done.
  pose proof (counted_u32 _ _ (wf_n _ _ _ W)) as (U1 & U2 & U3 & U4 & U5). unfold minus.
  destruct (limbo_weights _ Hl) as (-> & -> & -> & -> & ->). by rewrite !Z.sub_0_r.
Qed.

Lemma new_ok c pk :
  ok c -> limbo pk -> packet_ok pk -> ok (lsquic_send_ctl_new_packet_out c pk).1.
Proof.
  intros [W H] Hl Hok. pose proof (wf_q _ W) as WQ. unfold lsquic_send_ctl_new_packet_out, malo_get.
  destruct (hd true (sc_malo c)); cbn; [|split; [by destruct W; split|exact H]].
  set (p := new_ptr (sc_mem c)). pose proof (new_ptr_fresh (sc_mem c)) as Hp. fold p in Hp.
  destruct (wf_out _ _ _ WQ _ Hp) as (A & B & C).
  assert (Hl' : limbo (with_chain pk p)) by done. destruct (limbo_weights _ Hl') as (E1 & E2 & E3 & E4 & E5).
  match goal with |- ok ?x => set (c' := x) end.
  assert (Hpn : forall k, pnos c' k = pnos c k).
  { intros k. apply (pnos_same c c' p); [done|by apply A|]. intros z Hz. cbn. by rewrite lookup_insert_ne. }
  split; [split|].
  - by apply limbo_attach.
  - apply rings_new; [apply W|done].
  - pose proof (wf_small _ W) as (S1 & S2 & S3). unfold small, below. cbn. rewrite !msum_insert by done.
    rewrite E1, E2, E3. split_and!; done.
  - intros k. rewrite Hpn. apply W.
  - apply W.
  - intros k. rewrite Hpn. apply H.
Qed.

(** ** The scheduled queue *)

Lemma xpend_ok c p pk pre suf :
  ok c -> sc_mem c !! p = Some pk -> limbo pk -> sc_scheduled_packets (sc_q c) = pre ++ suf ->
  msum scheduled (sc_mem c) + 1 < 2 ^ 31 ->
  exists c', send_ctl_sched_Xpend_common (set_sched c (pre ++ p :: suf)) p = Ok c' /\ ok c'.
Proof.
  intros HO Hp Hl Hq Hs. pose proof HO as [W _]. pose proof (wf_q _ W) as WQ.
  unfold send_ctl_sched_Xpend_common, get. cbn [sc_mem set_sched set_q]. rewrite Hp. cbn [need mbind res_bind].
  eexists. split; [done|]. pose proof Hl as (X1 & X2 & X3 & X4 & X5). destruct (limbo_weights _ Hl) as (Z1 & Z2 & Z3 & Z4 & Z5).
  pose proof (wf_pk _ _ _ WQ _ _ Hp) as Hok. cbn in Hok.
  set (pk' := with_where pk true (po_unacked pk) (po_lost pk)).
  eapply (relocate_ok c _ p pk pk'); try done; cbn.
  - rewrite <- insert_delete_eq. apply (wfq_attach_sched _ _ (sc_n c) p pk'); try done; cbn.
    + by apply (limbo_detach _ _ _ p pk).
    + apply lookup_delete_eq.
    + destruct Hok as (_ & A & B & C & D & F & G & H & I). unfold packet_ok, pk'. cbn. rewrite X2, X3, X4, X5.
      split_and!; try done; apply F || apply G.
    + pose proof (counted_u32 _ _ (wf_n _ _ _ WQ)) as (U1 & U2 & U3 & U4 & U5).
      unfold plus, bytes_scheduled, bytes_in_flight, in_flight, scheduled, lost, pk'. cbn. rewrite X2, X3. counts_tac.
  - pose proof (wf_small _ W) as (S1 & S2 & S3). unfold small, below. rewrite !(msum_update _ _ _ _ _ Hp).
    assert (in_flight pk' = 0) as Y1 by (unfold in_flight, pk'; cbn; by rewrite X2).
    assert (bytes_in_flight pk' = 0) as Y2 by (unfold bytes_in_flight; by rewrite Y1).
    assert (scheduled pk' = 1) as Y3 by done. rewrite Z1, Z2, Z3, Y1, Y2, Y3. lia.
Qed.

Lemma unschedule_ok c p pk :
  ok c -> sc_mem c !! p = Some pk -> po_sched pk = true ->
  exists c', send_ctl_sched_remove c p = Ok c' /\ ok c'.
Proof.
  intros HO Hp Hsch. pose proof HO as [W _]. pose proof (wf_q _ W) as WQ.
  destruct (sched_remove_detach _ c p pk WQ (small_fits _ (wf_small _ W)) Hp Hp Hsch) as (n' & E & Hm).
  rewrite E. eexists. split; [done|]. pose proof (wf_pk _ _ _ WQ _ _ Hp) as Hok. cbn in Hok.
  destruct Hok as ((A1 & A2 & A3) & HLR & HPO & C & D & F & G & H & I).
  assert (po_unacked pk = false /\ po_lost pk = false) as [E2 E3].
  { rewrite Hsch in *. destruct (po_unacked pk), (po_lost pk); done. }
  assert (is_loss_rec pk = false /\ po_poison pk = false) as [E4 E5].
  { split.
    - destruct (is_loss_rec pk); [|done]. destruct (HLR eq_refl). congruence.
    - destruct (po_poison pk); [|done]. destruct (HPO eq_refl). congruence. }
  set (pk' := with_where pk false (po_unacked pk) (po_lost pk)).
  assert (Hl : limbo pk') by done. destruct (limbo_weights _ Hl) as (Z1 & Z2 & Z3 & Z4 & Z5).
  eapply (relocate_ok c _ p pk pk'); try done; cbn.
  - intros k. transitivity (una (qremove p (sc_q c)) k); [done|]. rewrite una_qremove. apply filter_ne_absent.
    by apply (not_unacked c p pk).
  - rewrite <- insert_delete_eq. apply limbo_attach; [by apply (wfq_detach _ _ (sc_n c) p pk)|apply lookup_delete_eq| |done].
    unfold packet_ok, pk'. cbn. rewrite E2, E3, E4, E5. split_and!; try done; apply F || apply G.
  - eapply below_shrinks; [apply W|]. unfold shrinks. rewrite !(msum_update _ _ _ _ _ Hp), Z1, Z2, Z3.
    pose proof (weights_nonneg pk (wf_pk _ _ _ WQ _ _ Hp)) as HN. clear -HN. lia.
Qed.

(** ** Lost packets are sent again *)

Lemma limbo_edit_ok c p pk pk' :
  ok c -> sc_mem c !! p = Some pk -> limbo pk -> limbo pk' -> packet_ok pk' -> link pk' = link pk ->
  ok (put c p pk') /\ msum scheduled (sc_mem (put c p pk')) = msum scheduled (sc_mem c).
Proof.
  intros HO Hp Hl Hl' Hok Hlk. pose proof HO as [W _]. pose proof (wf_q _ W) as WQ.
  destruct (limbo_weights _ Hl) as (Z1 & Z2 & Z3 & Z4 & Z5), (limbo_weights _ Hl') as (Y1 & Y2 & Y3 & Y4 & Y5).
  split; [|cbn; rewrite (msum_update _ _ _ _ _ Hp); lia].
  eapply (relocate_ok c _ p pk pk'); try done; [apply Hl| |]; cbn.
  - rewrite <- insert_delete_eq. apply limbo_attach; try done; [by apply (limbo_detach _ _ _ p pk)|apply lookup_delete_eq].
  - eapply below_shrinks; [apply W|]. unfold shrinks. rewrite !(msum_update _ _ _ _ _ Hp). lia.
Qed.

Lemma pop_lost_ok c p pk :
  ok c -> sc_mem c !! p = Some pk -> po_lost pk = true ->
  let pk1 := with_data (with_where pk (po_sched pk) (po_unacked pk) false) true (po_has_sent_sz pk)
                       (po_data_sz pk) (po_regen_sz pk) (po_frame_types pk) in
  exists c', pop_lost_packet c p = Ok c' /\ ok c' /\ sc_mem c' = <[p := pk1]> (sc_mem c) /\ limbo pk1
    /\ msum scheduled (sc_mem c') = msum scheduled (sc_mem c).
Proof.
  intros HO Hp Hlo pk1. pose proof HO as [W _]. pose proof (wf_q _ W) as WQ.
  pose proof (wf_pk _ _ _ WQ _ _ Hp) as Hok. cbn in Hok.
  destruct Hok as ((A1 & A2 & A3) & HLR & HPO & C & D & F & G & H & I).
  assert (po_sched pk = false /\ po_unacked pk = false) as [E1 E2].
  { rewrite Hlo in *. destruct (po_sched pk), (po_unacked pk); done. }
  assert (is_loss_rec pk = false /\ po_poison pk = false) as [E4 E5].
  { split.
    - destruct (is_loss_rec pk); [|done]. destruct (HLR eq_refl). congruence.
    - destruct (po_poison pk); [|done]. destruct (HPO eq_refl). congruence. }
  assert (Hl : limbo pk1) by done. destruct (limbo_weights _ Hl) as (Z1 & Z2 & Z3 & Z4 & Z5).
  assert (scheduled pk = 0) as Zs by (unfold scheduled; by rewrite E1).
  unfold pop_lost_packet. rewrite (get_ok _ _ _ Hp). cbn [mbind res_bind].
  rewrite tailq_remove_in by (by apply (wf_in _ _ _ WQ _ _ Hp)). cbn [mbind res_bind]. eexists. split; [done|].
  assert (Hq : qremove p (sc_q c) = QS (sc_unacked_packets (sc_q c)) (filter (.≠ p) (sc_lost_packets (sc_q c)))
                                       (sc_scheduled_packets (sc_q c))) by (by apply (qremove_lost _ _ _ _ _ WQ Hp)).
  split_and!; try done; [|change (msum scheduled (<[p := pk1]> (sc_mem c)) = msum scheduled (sc_mem c));
    rewrite (msum_update _ _ _ _ _ Hp); clear -Zs Z3; lia].
  eapply (relocate_ok c _ p pk pk1); try done; cbn.
  - rewrite <- insert_delete_eq. apply limbo_attach; try done; [|apply lookup_delete_eq|].
    + rewrite <- Hq. apply (wfq_detach _ _ (sc_n c) p pk); try done.
      pose proof (counted_u32 _ _ (wf_n _ _ _ WQ)) as (U1 & U2 & U3 & U4 & U5).
      unfold minus, bytes_scheduled, bytes_in_flight, in_flight, lost. rewrite Zs, E2, Hlo. counts_tac.
    + unfold packet_ok, pk1. cbn. rewrite E1, E2, E4, E5. split_and!; try done; apply F || apply G.
  - change (small (<[p := pk1]> (sc_mem c))). eapply below_shrinks; [apply W|]. unfold shrinks. rewrite !(msum_update _ _ _ _ _ Hp), Z1, Z2, Z3.
    pose proof (weights_nonneg pk (wf_pk _ _ _ WQ _ _ Hp)) as HN. clear -HN. lia.
Qed.

Lemma no_stream_ldiff f m s : has_flag f s = false -> has_flag (Z.ldiff f m) s = false.
Proof.
  unfold has_flag. rewrite !negb_false_iff, !Z.eqb_eq. intros H. apply Z.bits_inj'. intros n Hn.
  assert (Z.testbit (Z.land f s) n = false) as X by (by rewrite H, Z.bits_0).
  rewrite Z.land_spec in X. rewrite Z.land_spec, Z.ldiff_spec, Z.bits_0. by destruct (Z.testbit f n), (Z.testbit s n), (Z.testbit m n).
Qed.

(** A lost packet that has something left to send and a new number for it. *)
Definition resendable (pk : packet) (no : Z) : Prop :=
  po_lost pk = true /\ Z.ldiff (po_frame_types pk) BQUIC_FRAME_REGEN_MASK ≠ 0
  /\ 0 <= po_regen_sz pk < po_data_sz pk /\ 0 <= po_hdr_sz pk /\ pno_ok no.

Lemma reschedule_ok c p pk no :
  ok c -> sc_mem c !! p = Some pk -> resendable pk no -> msum scheduled (sc_mem c) + 1 < 2 ^ 31 ->
  exists c', reschedule_one c p no = Ok c' /\ ok c'.
Proof.
  intros HO Hp (Hlo & Hft & Hrg & Hhd & Hno) Hs. pose proof HO as [W _].
  pose proof (wf_pk _ _ _ (wf_q _ W) _ _ Hp) as Hok. cbn in Hok. unfold reschedule_one.
  destruct (pop_lost_ok c p pk HO Hp Hlo) as (c1 & -> & O1 & M1 & Hl & S1). cbn [mbind res_bind].
  set (pk1 := with_data _ _ _ _ _ _) in *.
  assert (Hp1 : sc_mem c1 !! p = Some pk1) by (rewrite M1; apply lookup_insert_eq).
  rewrite (get_ok _ _ _ Hp1). cbn [mbind res_bind]. set (old := if _ =? 0 then _ else _).
  unfold update_for_resending. rewrite (get_ok _ _ _ Hp1). cbn [mbind res_bind].
  unfold check. change (po_frame_types pk1) with (po_frame_types pk). rewrite (proj2 (Z.eqb_neq _ 0)) by done.
  change (po_regen_sz pk1) with (po_regen_sz pk). change (po_data_sz pk1) with (po_data_sz pk).
  rewrite (proj2 (Z.ltb_lt _ _)) by lia. cbn [negb mbind res_bind].
  assert (po_sched pk1 = false) as -> by apply Hl.
  set (pk2 := with_data (with_art pk1 _) _ _ _ _ _).
  assert (Hl2 : limbo pk2) by apply Hl.
  assert (Hgen : forall a, po_packno a = no -> po_fake_loss_rec a = fake pk -> po_loss_rec a = false ->
            packet_ok (with_art pk2 a)).
  { intros a E1 E2 E3. destruct Hok as (_ & _ & _ & C & D & F & G & H & I). destruct Hl as (X1 & X2 & X3 & X4 & X5).
    cbn in X1, X2, X4, X5. unfold packet_ok, pk2, pk1, packet_out_sent_sz, packet_out_total_sz in *. cbn.
    rewrite X1, X2, X5, E1, E2, E3. split_and!; try done; try (clear -G Hrg Hhd; lia). intros Hm. by apply no_stream_ldiff, C. }
  destruct Hl as (X1 & X2 & X3 & X4 & X5) eqn:HH. clear HH.
  assert (Hok2 : packet_ok pk2) by (apply (Hgen (pk_art pk2)); done).
  destruct (limbo_edit_ok c1 p pk1 pk2 O1 Hp1) as [O2 S2]; try done. cbn [mbind res_bind].
  unfold get. cbn [sc_mem put set_mem]. rewrite lookup_insert_eq. cbn [need mbind res_bind].
  set (pk3 := with_art pk2 _). assert (Hok3 : packet_ok pk3) by (by apply Hgen).
  destruct (limbo_edit_ok (put c1 p pk2) p pk2 pk3 O2) as [O3 S3]; try done; [apply lookup_insert_eq|].
  unfold send_ctl_sched_append. apply (xpend_ok _ p pk3 _ []); try done.
  - apply lookup_insert_eq.
  - by rewrite app_nil_r.
  - lia.
Qed.

(** ** Sending *)

Lemma append_ok c c' r rk :
  ok c -> wfq (delete r (sc_mem c)) (sc_q c) (sc_n c) ->
  packet_ok rk -> po_unacked rk = true -> i64 (sh_last_sent (sc_a c)) < packno rk ->
  packno rk <= i64 (sh_last_sent (sc_a c')) ->
  sc_mem c' = <[r := rk]> (sc_mem c) ->
  sc_q c' = QS (<[home rk := unacked c (home rk) ++ [r]]> (sc_unacked_packets (sc_q c))) (sc_lost_packets (sc_q c))
               (sc_scheduled_packets (sc_q c)) ->
  plus (sc_n c) rk (sc_n c') -> rings (sc_mem c') -> small (sc_mem c') -> art_ok (sc_art c') -> ok c'.
Proof.
  intros [W H] WD Hok Hu Hlt Hle Em Eq Hn R Hs Ha.
  destruct (wf_out _ _ _ WD r (lookup_delete_eq _ _)) as (A & _ & _). pose proof (home_lt rk Hok) as Hh.
  assert (W' : wfq (sc_mem c') (sc_q c') (sc_n c')).
  { rewrite Em, Eq, <- insert_delete_eq.
    apply (wfq_attach_unacked (delete r (sc_mem c)) (sc_q c) (sc_n c)) with (suf := []); try done.
    - apply lookup_delete_eq.
    - by rewrite app_nil_r. }
  assert (Hun : forall k, unacked c' k = if decide (k = home rk) then unacked c k ++ [r] else unacked c k).
  { intros k. transitivity (una (sc_q c') k); [done|]. rewrite Eq, una_insert by (rewrite (wf_len _ _ _ WD); lia).
    destruct (decide (k = home rk)) as [->|]; done. }
  assert (Hold : forall k, map (pno (sc_mem c')) (unacked c k) = pnos c k).
  { intros k. apply pno_map_ext. intros z Hz. apply pno_eq. rewrite Em, lookup_insert_ne; [done|]. intros ->. by destruct (A k). }
  assert (Hr : pno (sc_mem c') r = packno rk) by (unfold pno; by rewrite Em, lookup_insert_eq).
  assert (Hpn : forall k, pnos c' k = pnos c k \/ pnos c' k = pnos c k ++ [packno rk]).
  { intros k. unfold pnos at 1 3. rewrite Hun. destruct (decide (k = home rk)); [right|left; apply Hold].
    rewrite map_app, Hold. cbn. by rewrite Hr. }
  split; [split|]; try done.
  - intros k. destruct (Hpn k) as [->| ->]; [apply W|]. apply sorted_snoc; [apply W|].
    eapply Forall_impl; [apply (H k)|]. cbn. lia.
  - intros k. assert (HF : Forall (fun n => n <= i64 (sh_last_sent (sc_a c'))) (pnos c k)).
    { eapply Forall_impl; [apply (H k)|]. cbn. lia. }
    destruct (Hpn k) as [->| ->]; [done|]. apply Forall_app. split; [done|]. by apply Forall_singleton.
Qed.

(** What the connection guarantees of a packet it reports as sent: numbers
    grow, the poisoned number is skipped, and the flight is bounded. *)
Record sendable (c : send_ctl) (p : Z) (pk : packet) : Prop := {
  sb_mem : sc_mem c !! p = Some pk;
  sb_limbo : limbo pk;
  sb_no : i64 (sh_last_sent (sc_a c)) < packno pk;
  sb_gap : packno pk = u64 (sc_gap (sc_a c) + 1) ->
           has_flag (sc_flags (sc_a c)) SC_POISON = false /\ pno_ok (sc_gap (sc_a c))
           /\ i64 (sh_last_sent (sc_a c)) < sc_gap (sc_a c);
  sb_n : msum in_flight (sc_mem c) + 1 < 2 ^ 31;
  sb_bytes : msum bytes_in_flight (sc_mem c) + packet_out_sent_sz pk < 2 ^ 31
}.

Lemma i64_pno no : pno_ok no -> i64 no = no.
Proof. intros H. unfold pno_ok in H. apply wraps_small; lia. Qed.

Lemma senhist_add_eq c no :
  pno_ok no -> i64 (sh_last_sent (sc_a c)) < no ->
  lsquic_senhist_add c no = set_hist c (sc_largest_sent_at_cutback (sc_a c)) no (sc_gap (sc_a c)).
Proof. intros Hn H. unfold lsquic_senhist_add. rewrite (i64_pno no) by done. by rewrite (proj2 (Z.ltb_lt _ _)). Qed.

Lemma senhist_ok c no :
  ok c -> pno_ok no -> i64 (sh_last_sent (sc_a c)) < no -> ok (lsquic_senhist_add c no).
Proof.
  intros [W H] Hn Hlt. rewrite senhist_add_eq by done. split; [by apply wf_set_a|]. intros k. cbn.
  rewrite (i64_pno no) by done. eapply Forall_impl; [apply (H k)|]. cbn. lia.
Qed.

(** Adding the poisoned packet; without memory nothing is added. *)
Lemma add_poison_ok c :
  ok c -> pno_ok (sc_gap (sc_a c)) -> i64 (sh_last_sent (sc_a c)) < sc_gap (sc_a c) ->
  let c0 := lsquic_senhist_add c (sc_gap (sc_a c)) in
  let r := send_ctl_add_poison c0 in
  ok r.1 /\ sh_last_sent (sc_a r.1) = sc_gap (sc_a c)
  /\ (forall p pk, sc_mem c !! p = Some pk -> sc_mem r.1 !! p = Some pk)
  /\ msum in_flight (sc_mem r.1) = msum in_flight (sc_mem c)
  /\ msum bytes_in_flight (sc_mem r.1) = msum bytes_in_flight (sc_mem c).
Proof.
  intros HO Hg Hlt c0 r. pose proof HO as [W H]. pose proof (wf_q _ W) as WQ.
  pose proof (senhist_ok c _ HO Hg Hlt) as HO0. fold c0 in HO0.
  unfold r, send_ctl_add_poison, malo_get. subst c0. rewrite (senhist_add_eq c _ Hg Hlt) in *.
  cbn [sc_malo set_hist set_a]. destruct (hd true (sc_malo c)); cbn [fst].
  2: { split_and!; try done. destruct HO0 as [[A1 A2 A3 A4 A5] B]. split; [by split|exact B]. }
  cbn [sc_mem set_malo set_hist set_a sc_a sc_gap]. set (p := new_ptr (sc_mem c)). set (pk := poison_packet (sc_gap (sc_a c)) p).
  pose proof (new_ptr_fresh (sc_mem c)) as Hp. fold p in Hp.
  assert (in_flight pk = 0 /\ bytes_in_flight pk = 0 /\ scheduled pk = 0) as (Z1 & Z2 & Z3) by done.
  split_and!; [|done| | |].
  - apply (append_ok c _ p pk); cbn; try done.
    + by rewrite delete_id.
    + unfold packet_ok, packet_out_sent_sz, packet_out_total_sz. cbn. split_and!; try done; lia.
    + rewrite (i64_pno _ Hg). lia.
    + unfold plus, bytes_scheduled. rewrite Z1, Z2, Z3.
      pose proof (counted_u32 _ _ (wf_n _ _ _ WQ)) as (U1 & U2 & U3 & U4 & U5). counts_tac.
    + change pk with (with_chain pk p). apply rings_new; [apply W|done].
    + pose proof (wf_small _ W) as (S1 & S2 & S3). unfold small, below. rewrite !msum_insert, Z1, Z2, Z3 by done.
      split_and!; done.
    + apply W.
  - intros q qk Hq. cbn. rewrite lookup_insert_ne; [done|]. congruence.
  - cbn. rewrite msum_insert by done. lia.
  - cbn. rewrite msum_insert by done. lia.
Qed.

Lemma ok_flags c f : ok c -> ok (set_flags c f).
Proof. intros [W H]. split; [by apply wf_set_a|exact H]. Qed.

Lemma sent_ok retx c p pk :
  ok c -> sendable c p pk -> exists r, lsquic_send_ctl_sent_packet retx c p = Ok r /\ ok r.1.
Proof.
  intros HO [Hp Hl Hno Hgap Hn Hb]. pose proof HO as [W _].
  pose proof (wf_pk _ _ _ (wf_q _ W) _ _ Hp) as Hok. cbn in Hok.
  assert (Hpno : pno_ok (packno pk)) by apply Hok.
  unfold lsquic_send_ctl_sent_packet. rewrite (get_ok _ _ _ Hp). cbn [mbind res_bind].
  assert (exists c1 b, send_ctl_update_poison_hist c (packno pk) = Ok (c1, b) /\ ok c1
    /\ i64 (sh_last_sent (sc_a c1)) < packno pk /\ sc_mem c1 !! p = Some pk
    /\ msum in_flight (sc_mem c1) = msum in_flight (sc_mem c)
    /\ msum bytes_in_flight (sc_mem c1) = msum bytes_in_flight (sc_mem c)) as (c1 & b & -> & O1 & N1 & P1 & F1 & B1).
  { unfold send_ctl_update_poison_hist. destruct (Z.eqb_spec (packno pk) (u64 (sc_gap (sc_a c) + 1))) as [E|E].
    - destruct (Hgap E) as (Hf & Hg & Hlt). rewrite Hf. cbn [negb check mbind res_bind].
      destruct (add_poison_ok c HO Hg Hlt) as (O1 & L1 & M1 & F1 & B1).
      destruct (send_ctl_add_poison _) as [c1 b]. exists c1, b. split_and!; try done; [|by apply M1].
      cbn in L1. rewrite L1, (i64_pno _ Hg). rewrite E. unfold pno_ok in Hg. rewrite wrapu_id by (unfold is_u; lia). lia.
    - exists c, true. done. }
  cbn [mbind res_bind]. destruct b; cbn [negb]; [|by eexists].
  pose proof (wf_q _ (proj1 O1)) as WQ1.
  unfold send_ctl_unacked_append. rewrite (senhist_add_eq c1 _ Hpno N1). unfold get.
  cbn [sc_mem set_hist set_a]. rewrite P1. cbn [need mbind res_bind].
  pose proof Hl as (X1 & X2 & X3 & X4 & X5). rewrite X4, X5. cbn [orb negb check mbind res_bind].
  eexists. split; [done|]. cbn [fst].
  set (pk' := with_where pk (po_sched pk) true (po_lost pk)). destruct (limbo_weights _ Hl) as (Z1 & Z2 & Z3 & Z4 & Z5).
  assert (Hh : home pk' = po_pns pk) by (unfold home, pk'; cbn; by rewrite X5).
  assert (in_flight pk' = 1 /\ bytes_in_flight pk' = packet_out_sent_sz pk /\ scheduled pk' = 0) as (Y1 & Y2 & Y3).
  { unfold bytes_in_flight, in_flight, scheduled, pk', packet_out_sent_sz, packet_out_total_sz. cbn. rewrite X1, X4, X5.
    split_and!; try done. lia. }
  match goal with |- ok (if _ then or_flag ?x _ else _) => set (c2 := x) end.
  enough (O2 : ok c2) by (destruct (is_retx retx pk && _); [by apply ok_flags|done]).
  apply (append_ok c1 c2 p pk'); try done.
  - by apply (limbo_detach _ _ _ p pk).
  - destruct Hok as (_ & A & B & C & D & F & G & H & I). unfold packet_ok, pk'. cbn. rewrite X1, X3, X4, X5.
    split_and!; try done; apply F || apply G.
  - cbn. by rewrite (i64_pno _ Hpno).
  - by rewrite Hh.
  - unfold plus, bytes_scheduled. rewrite Y1, Y2, Y3. unfold lost, pk'. cbn. rewrite X3.
    pose proof (counted_u32 _ _ (wf_n _ _ _ WQ1)) as (U1 & U2 & U3 & U4 & U5). counts_tac.
  - eapply rings_ext; [|apply (wf_r _ (proj1 O1))]. intros z. cbn. destruct (decide (z = p)) as [->|Hz].
    + by rewrite lookup_insert_eq, P1.
    + by rewrite lookup_insert_ne.
  - pose proof (wf_small _ (proj1 O1)) as (S1 & S2 & S3). unfold small, below. cbn.
    change (with_where pk (po_sched pk) true (po_lost pk)) with pk'. rewrite !(msum_update _ _ _ _ _ P1).
    rewrite Y1, Y2, Y3, Z1, Z2, Z3, F1, B1. clear -Hn Hb S3. lia.
  - apply O1.
Qed.

(** ** Duplicates *)

Section art.
Context (sc_retx_frames min_rtt : Z) (env : Z -> Z * Z) (retx_stream : Z.testbit sc_retx_frames 1 = true).

Lemma art_spaces_ok M N spaces : forall c,
  wf c -> flight_or_oom M N c ->
  wp c (art_spaces sc_retx_frames min_rtt env c spaces) (fun c' => kept c c' /\ flight_or_oom M N c').
Proof using retx_stream.
  induction spaces as [|k spaces IH]; intros c W HN; cbn [art_spaces].
  - split; [by apply kept_refl|done].
  - apply wp_bind. eapply wp_mono; [by apply (art_walk_step sc_retx_frames min_rtt env retx_stream c k M N W HN)|].
    intros c1 (A & B & C & D & F). assert (K1 : kept c c1) by (split_and!; try done; unfold crit in D; by simplify_eq).
    apply (wp_kept c c1); [done|]. eapply wp_mono; [by apply IH|]. intros c2 [K2 S2]. split; [by apply (kept_trans c c1)|done].
Qed.

Lemma art_schedule_ok c :
  wf c ->
  wp c (art_schedule sc_retx_frames min_rtt env c)
     (fun c' => kept c c' /\ sc_n_in_flight_all (sc_n c') = sc_n_in_flight_all (sc_n c)).
Proof using retx_stream.
  intros W. unfold art_schedule. apply wp_bind.
  eapply wp_mono; [apply (art_spaces_ok (sc_malo c) (msum in_flight (sc_mem c)) _ c W); split; [by exists []|by left]|].
  intros c1 [K1 [_ S1]]. destruct (counted_exact _ _ _ (wf_q _ W) (small_fits _ (wf_small _ W))) as (N0 & _).
  pose proof K1 as (W1 & _). destruct (counted_exact _ _ _ (wf_q _ W1) (small_fits _ (wf_small _ W1))) as (N1 & _).
  unfold check_flight. destruct (Z.eqb_spec (sc_n_in_flight_all (sc_n c1)) (sc_n_in_flight_all (sc_n c))); [done|].
  destruct S1; [congruence|done].
Qed.

End art.

(** ** Runs *)

(** What the operations read from outside: the RTT estimates, and the clock and
    [rand()] for each packet. *)
Record world := World { w_srtt : Z; w_min_rtt : Z; w_env : Z -> Z * Z }.

Inductive op :=
| New (pk : packet)                                   (* lsquic_send_ctl_new_packet_out *)
| Schedule (p : Z)                                    (* lsquic_send_ctl_scheduled_one *)
| Delayed (p : Z)                                     (* lsquic_send_ctl_delayed_one *)
| Unschedule (p : Z)                                  (* lsquic_send_ctl_next_packet_to_send *)
| Sent (p : Z)                                        (* lsquic_send_ctl_sent_packet *)
| GotAck (pns : nat) (ranges : list (Z * Z)) (ce : bool) (gap : Z) (* lsquic_send_ctl_got_ack *)
| Expire (pns : nat) (f : expire_filter)              (* send_ctl_expire *)
| ArtSchedule                                         (* art_schedule *)
| Reschedule (p no : Z)                               (* lsquic_send_ctl_reschedule_packets *)
| DropLost (p : Z).                                   (* send_ctl_next_lost, nothing left to send *)

Section runs.
Context (sc_retx_frames : Z) (retx_stream : Z.testbit sc_retx_frames 1 = true).

Definition exec (w : world) (o : op) (c : send_ctl) : res send_ctl :=
  match o with
  | New pk => Ok (lsquic_send_ctl_new_packet_out c pk).1
  | Schedule p => send_ctl_sched_append c p
  | Delayed p => send_ctl_sched_prepend c p
  | Unschedule p => send_ctl_sched_remove c p
  | Sent p => r ← lsquic_send_ctl_sent_packet sc_retx_frames c p; Ok r.1
  | GotAck pns ranges ce gap =>
    r ← lsquic_send_ctl_got_ack sc_retx_frames (w_srtt w) (w_min_rtt w) (w_env w) c pns ranges ce gap; Ok r.1
  | Expire pns f => send_ctl_expire sc_retx_frames (w_min_rtt w) (w_env w) c pns f
  | ArtSchedule => art_schedule sc_retx_frames (w_min_rtt w) (w_env w) c
  | Reschedule p no => reschedule_one c p no
  | DropLost p => drop_lost_packet sc_retx_frames c p
  end.

(** When the connection calls an operation. *)
Definition enabled (o : op) (c : send_ctl) : Prop :=
  match o with
  | New pk => limbo pk /\ packet_ok pk
  | Schedule p | Delayed p =>
    exists pk, sc_mem c !! p = Some pk /\ limbo pk /\ msum scheduled (sc_mem c) + 1 < 2 ^ 31
  | Unschedule p => exists pk, sc_mem c !! p = Some pk /\ po_sched pk = true
  | Sent p => exists pk, sendable c p pk
  | GotAck _ ranges _ _ => ranges_ok PN_BOUND ranges /\ ranges ≠ []
  | Expire _ _ => True
  | ArtSchedule => True
  | Reschedule p no =>
    exists pk, sc_mem c !! p = Some pk /\ resendable pk no /\ msum scheduled (sc_mem c) + 1 < 2 ^ 31
  | DropLost p => exists pk, sc_mem c !! p = Some pk /\ po_lost pk = true
  end.

Inductive reachable (flags last : Z) (malo : list bool) : send_ctl -> Prop :=
| reach_init : reachable flags last malo (lsquic_send_ctl_init flags last malo)
| reach_step w o c c' :
    reachable flags last malo c -> enabled o c -> exec w o c = Ok c' -> reachable flags last malo c'.

Lemma init_ok flags last malo : ok (lsquic_send_ctl_init flags last malo).
Proof using.
  split; [split|].
  - split; cbn; try done.
    + split_and!; [|constructor..]. intros k. unfold una. cbn. destruct k as [|[|[|k]]]; constructor.
    + intros p _. split_and!; [|apply not_elem_of_nil..]. intros k. unfold una. cbn. destruct k as [|[|[|k]]]; apply not_elem_of_nil.
  - split; cbn; intros p; [intros [? H]|intros pk H|intros pk qk H]; by rewrite lookup_empty in H.
  - done.
  - intros k. unfold pnos, unacked. cbn. destruct k as [|[|[|k]]]; constructor.
  - done.
  - intros k. unfold pnos, unacked. cbn. destruct k as [|[|[|k]]]; constructor.
Qed.

Lemma ok_wp c (r : res send_ctl) : (exists c', r = Ok c' /\ ok c') -> wp c r ok.
Proof using. by intros (c' & -> & H). Qed.

(** Dropping a lost packet reads it after it was freed. *)
Lemma drop_lost_bug c p pk : ok c -> sc_mem c !! p = Some pk -> po_lost pk = true ->
  drop_lost_packet sc_retx_frames c p = Fault Bug.
Proof using.
  intros HO Hp Hl. pose proof HO as [W _]. destruct (pop_lost_ok c p pk HO Hp Hl) as (c1 & E & [W1 _] & Em & Hlim & _).
  unfold pop_lost_packet in E. unfold drop_lost_packet. rewrite (get_ok _ _ _ Hp) in *. cbn [mbind res_bind] in *.
  destruct (tailq_remove p _) as [q|]; [|done]. cbn [mbind res_bind] in *. injection E as <-.
  set (pk1 := with_where pk (po_sched pk) (po_unacked pk) false).
  match goal with |- context [send_ctl_destroy_chain _ ?x _ _] => set (c1 := x) end.
  match type of W1 with wf ?x => set (c2 := x) in * end.
  assert (Hd : delete p (sc_mem c1) = delete p (sc_mem c2)) by (cbn; by rewrite !delete_insert_eq).
  destruct (rg_ring _ (wf_r _ W) p) as [rest HR]; [eauto|].
  destruct (retire_spec sc_retx_frames c1 p pk1 rest None (unacked c1 (po_pns pk1)) []) as (c3 & n' & -> & E2 & _).
  - rewrite Hd. apply (limbo_detach _ (sc_q c2) (sc_n c2) p _ (wf_q _ W1)) in Hlim; [exact Hlim|]. rewrite Em. apply lookup_insert_eq.
  - rewrite Hd. eapply below_shrinks; [apply small_fits, W1|]. apply shrinks_delete, (wf_q _ W1).
  - eapply rings_ext; [|apply (wf_r _ W)]. intros z. cbn. destruct (decide (z = p)) as [->|Hz].
    + by rewrite lookup_insert_eq, Hp.
    + by rewrite lookup_insert_ne.
  - apply lookup_insert_eq.
  - destruct HR as [S N]. split; [|done]. eapply seg_ext; [|exact S]. intros z _. unfold chain. cbn.
    destruct (decide (z = p)) as [->|Hz]; [by rewrite lookup_insert_eq, Hp|by rewrite lookup_insert_ne].
  - by rewrite app_nil_r.
  - done.
  - cbn [mbind res_bind]. rewrite E2. cbn [mbind res_bind]. unfold get. cbn [sc_mem]. by rewrite lookup_dels, decide_True by (by left).
Qed.

Lemma exec_ok w o c : ok c -> enabled o c -> wp c (exec w o c) ok \/ (exists p, o = DropLost p) /\ exec w o c = Fault Bug.
Proof using retx_stream.
  intros HO He. pose proof HO as [W _].
  assert ((exists p, o = DropLost p) \/ forall p, o <> DropLost p) as [[p ->]|Hdr] by (destruct o; eauto).
  { right. split; [eauto|]. destruct He as (pk & Hp & Hl). by apply (drop_lost_bug c p pk HO). }
  left. destruct o; cbn [exec enabled] in *.
  - destruct He. by apply new_ok.
  - destruct He as (pk & Hp & Hl & Hs). apply ok_wp, (xpend_ok c p pk _ []); try done. by rewrite app_nil_r.
  - destruct He as (pk & Hp & Hl & Hs). by apply ok_wp, (xpend_ok c p pk []).
  - destruct He as (pk & Hp & Hs). by apply ok_wp, (unschedule_ok c p pk).
  - destruct He as (pk & Hs). destruct (sent_ok sc_retx_frames c p pk HO Hs) as (r & -> & Hr). done.
  - destruct He as [Hr Hn0]. apply wp_bind. eapply wp_mono; [by apply got_ack_ok|]. intros r K. by apply (kept_ok c).
  - eapply wp_mono; [by apply expire_step|]. intros c' (A & B & C & D). apply (kept_ok c); [done|].
    split_and!; try done. unfold crit in D. by simplify_eq.
  - eapply wp_mono; [by apply art_schedule_ok|]. intros c' [K _]. by apply (kept_ok c).
  - destruct He as (pk & Hp & Hr & Hs). by apply ok_wp, (reschedule_ok c p pk no).
  - by destruct (Hdr p).
Qed.

Lemma reachable_ok flags last malo c : reachable flags last malo c -> ok c.
Proof using retx_stream.
  induction 1 as [|w o c c' _ IH He E]; [apply init_ok|]. destruct (exec_ok w o c IH He) as [H|[_ H]]; [by rewrite E in H|congruence].
Qed.

End runs.

(** ** What the queues hold *)

Fixpoint qsum (f : packet -> Z) (m : gmap Z packet) (l : list Z) : Z :=
  match l with
  | [] => 0
  | p :: l => match m !! p with Some pk => f pk | None => 0 end + qsum f m l
  end.

Lemma qsum_ext f m m' l : (forall p, p ∈ l -> m' !! p = m !! p) -> qsum f m' l = qsum f m l.
Proof.
  induction l as [|x l IH]; intros H; [done|]. cbn. rewrite (H x) by (by left). rewrite IH; [done|].
  intros p Hp. apply H. by right.
Qed.

Lemma qsum_app f m l l' : qsum f m (l ++ l') = qsum f m l + qsum f m l'.
Proof. induction l as [|x l IH]; cbn; lia. Qed.

Lemma msum_zero f m : (forall p pk, m !! p = Some pk -> f pk = 0) -> msum f m = 0.
Proof.
  induction m as [|p pk m Hp IH] using map_ind; intros H; [done|]. rewrite msum_insert by done.
  rewrite (H p pk) by apply lookup_insert_eq. rewrite IH; [done|]. intros q qk Hq. apply (H q).
  rewrite lookup_insert_ne; [done|]. congruence.
Qed.

(** A sum over the packets in memory is one over the list of those that count. *)
Lemma msum_qsum f l : forall m, NoDup l -> (forall p, p ∈ l -> is_Some (m !! p)) ->
  (forall p pk, m !! p = Some pk -> p ∉ l -> f pk = 0) -> msum f m = qsum f m l.
Proof.
  induction l as [|x l IH]; intros m N H1 H2; cbn.
  - apply msum_zero. intros p pk Hp. apply (H2 p); [done|apply not_elem_of_nil].
  - apply NoDup_cons in N as [Hx N]. destruct (H1 x) as [xk Hxk]; [by left|]. rewrite Hxk.
    rewrite <- (qsum_ext f m (delete x m) l).
    + rewrite <- IH; [rewrite (msum_delete _ _ _ _ Hxk); lia|done| |].
      * intros p Hp. rewrite lookup_delete_ne by (by intros ->). apply H1. by right.
      * intros p pk [Hne Hp]%lookup_delete_Some Hl. apply (H2 p); [done|]. apply not_elem_of_cons. done.
    + intros p Hp. rewrite lookup_delete_ne; [done|]. by intros ->.
Qed.

Definition all_unacked (c : send_ctl) : list Z := unacked c 0 ++ unacked c 1 ++ unacked c 2.

Lemma all_unacked_nodup c : wf c -> NoDup (all_unacked c).
Proof.
  intros W. assert (HD : forall k k' p, p ∈ unacked c k -> p ∈ unacked c k' -> k = k').
  { intros k k' p H1 H2. destruct (queued c k p W H1) as (pk & Hp & _ & _ & E), (queued c k' p W H2) as (pk' & Hp' & _ & _ & E').
    congruence. }
  pose proof (wf_q _ W) as [_ (ND & _ & _) _ _ _ _].
  unfold all_unacked. apply NoDup_app. split_and!; [apply ND| |apply NoDup_app; split_and!; [apply ND| |apply ND]].
  - intros p H0 [H|H]%elem_of_app; [by specialize (HD 0%nat 1%nat p H0 H)|by specialize (HD 0%nat 2%nat p H0 H)].
  - intros p H1 H2. by specialize (HD 1%nat 2%nat p H1 H2).
Qed.

Lemma all_unacked_elem c p : p ∈ all_unacked c -> exists k, p ∈ unacked c k.
Proof. unfold all_unacked. rewrite !elem_of_app. naive_solver. Qed.

Lemma elem_all_unacked c p pk : wf c -> sc_mem c !! p = Some pk -> po_unacked pk = true -> p ∈ all_unacked c.
Proof.
  intros W Hp Hu. pose proof (wf_q _ W) as WQ. pose proof (home_lt pk (wf_pk _ _ _ WQ _ _ Hp)) as Hh.
  destruct (wf_in _ _ _ WQ _ _ Hp) as (A & _). assert (Hin : p ∈ unacked c (home pk)) by (by apply A).
  unfold all_unacked. rewrite !elem_of_app. destruct (home pk) as [|[|[|k]]]; auto. lia.
Qed.

Lemma msum_unacked c f : wf c -> (forall pk, po_unacked pk = false -> f pk = 0) ->
  msum f (sc_mem c) = qsum f (sc_mem c) (all_unacked c).
Proof.
  intros W Hf. pose proof (wf_q _ W) as WQ. apply msum_qsum.
  - by apply all_unacked_nodup.
  - intros p [k Hk]%all_unacked_elem. destruct (queued c k p W Hk) as (pk & -> & _). eauto.
  - intros p pk Hp Hn. apply Hf. destruct (po_unacked pk) eqn:Hu; [|done]. exfalso. apply Hn. by apply (elem_all_unacked c p pk).
Qed.

Lemma msum_sched c f : wf c -> (forall pk, po_sched pk = false -> f pk = 0) ->
  msum f (sc_mem c) = qsum f (sc_mem c) (sc_scheduled_packets (sc_q c)).
Proof.
  intros W Hf. pose proof (wf_q _ W) as WQ. apply msum_qsum.
  - apply WQ.
  - intros p Hp. destruct (sc_mem c !! p) eqn:E; [eauto|]. destruct (wf_out _ _ _ WQ _ E) as (_ & _ & C). done.
  - intros p pk Hp Hn. apply Hf. destruct (wf_in _ _ _ WQ _ _ Hp) as (_ & _ & C). destruct (po_sched pk); [|done].
    exfalso. by apply Hn, C.
Qed.

Lemma qsum_const f m l (v : Z) : (forall p, p ∈ l -> exists pk, m !! p = Some pk /\ f pk = v) ->
  qsum f m l = v * Z.of_nat (length l).
Proof.
  induction l as [|x l IH]; intros H; cbn [qsum length]; [lia|]. destruct (H x) as (xk & -> & ->); [by left|].
  rewrite IH; [lia|]. intros p Hp. apply H. by right.
Qed.

(** ** Playing a script *)

#[export] Instance limbo_dec pk : Decision (limbo pk) := ltac:(unfold limbo; apply _).
#[export] Instance packet_ok_dec pk : Decision (packet_ok pk) := ltac:(unfold packet_ok, pno_ok; apply _).
#[export] Instance resendable_dec pk no : Decision (resendable pk no) := ltac:(unfold resendable, pno_ok; apply _).

Definition sendable_now (c : send_ctl) (pk : packet) : Prop :=
  limbo pk /\ i64 (sh_last_sent (sc_a c)) < packno pk
  /\ (packno pk = u64 (sc_gap (sc_a c) + 1) ->
      has_flag (sc_flags (sc_a c)) SC_POISON = false /\ pno_ok (sc_gap (sc_a c))
      /\ i64 (sh_last_sent (sc_a c)) < sc_gap (sc_a c))
  /\ msum in_flight (sc_mem c) + 1 < 2 ^ 31 /\ msum bytes_in_flight (sc_mem c) + packet_out_sent_sz pk < 2 ^ 31.

#[export] Instance sendable_now_dec c pk : Decision (sendable_now c pk) := ltac:(unfold sendable_now, pno_ok; apply _).

Definition enabledb (o : op) (c : send_ctl) : bool :=
  match o with
  | New pk => bool_decide (limbo pk /\ packet_ok pk)
  | Schedule p | Delayed p =>
    if sc_mem c !! p is Some pk then bool_decide (limbo pk /\ msum scheduled (sc_mem c) + 1 < 2 ^ 31) else false
  | Unschedule p => if sc_mem c !! p is Some pk then po_sched pk else false
  | Sent p => if sc_mem c !! p is Some pk then bool_decide (sendable_now c pk) else false
  | GotAck _ ranges _ _ => bool_decide (ranges_ok PN_BOUND ranges /\ ranges ≠ [])
  | Expire _ _ => true
  | ArtSchedule => true
  | Reschedule p no =>
    if sc_mem c !! p is Some pk then bool_decide (resendable pk no /\ msum scheduled (sc_mem c) + 1 < 2 ^ 31) else false
  | DropLost p => if sc_mem c !! p is Some pk then po_lost pk else false
  end.

Lemma enabledb_sound o c : enabledb o c = true -> enabled o c.
Proof.
  destruct o as [pk|p|p|p|p|pns rs ce gap|pns f| |p no|p]; cbn; try (destruct (sc_mem c !! p) as [pk|] eqn:Hp; [|done]);
    rewrite ?bool_decide_eq_true; try done; try (intros H; exists pk; split_and!; by try apply H).
  - intros (H1 & H2 & H3 & H4 & H5). by exists pk.
Qed.

(** Runs the operations one after the other, as long as they are enabled. *)
Fixpoint play (sc_retx_frames : Z) (script : list (world * op)) (c : send_ctl) : option send_ctl :=
  match script with
  | [] => Some c
  | (w, o) :: script =>
    if enabledb o c then
      match exec sc_retx_frames w o c with Ok c => play sc_retx_frames script c | Fault _ => None end
    else None
  end.

Lemma play_reachable retx flags last malo script : forall c c',
  reachable retx flags last malo c -> play retx script c = Some c' -> reachable retx flags last malo c'.
Proof.
  induction script as [|[w o] script IH]; intros c c' R; cbn [play]; [by intros [= <-]|].
  destruct (enabledb o c) eqn:He; [|done]. destruct (exec retx w o c) as [c1|] eqn:E; [|done].
  apply IH. eapply reach_step; [done|by apply enabledb_sound|done].
Qed.
