(* ===== verification/SendCtlClaims.v ===== *)
(** What the send controller guarantees: safety of every run, exact counters,
    acknowledgements that retire exactly the chains they name, exact loss
    detection, duplicates that keep the flight, and the consistency check. *)
From stdpp Require Import gmap sorting.
From S2P Require Import Prelude Ranges Art SendCtl SendCtlSpec SendCtlLoss SendCtlAck SendCtlThms SendCtlRun.
Local Open Scope Z_scope.

(** ** The consistency check *)

Definition sent_packet (pk : packet) : Z := if is_loss_rec pk || po_poison pk then 0 else 1.
Definition sent_bytes (pk : packet) : Z := sent_packet pk * packet_out_sent_sz pk.
Definition fake_record (pk : packet) : Z := if is_loss_rec pk && (fake pk =? 1) then 1 else 0.

Lemma sanity_queue_ok m l : forall prev count bytes,
  (forall p, p ∈ l -> exists pk, m !! p = Some pk /\ forall n, prev = Some n -> n < packno pk) ->
  StronglySorted Z.lt (map (pno m) l) -> u32 count = count -> u32 bytes = bytes ->
  sanity_queue m l prev count bytes = Some (u32 (count + qsum sent_packet m l), u32 (bytes + qsum sent_bytes m l)).
Proof.
  induction l as [|p l IH]; intros prev count bytes H S Hc Hb; cbn [sanity_queue qsum].
  - by rewrite !Z.add_0_r, Hc, Hb.
  - destruct (H p) as (pk & Hp & Hn); [by left|]. rewrite Hp. cbn [mbind option_bind].
    cbn in S. apply StronglySorted_inv in S as [S F]. assert (Hpn : pno m p = packno pk) by (unfold pno; by rewrite Hp).
    assert ((if prev is Some n then negb (n <? packno pk) else false) = false) as ->.
    { destruct prev as [n|]; [|done]. specialize (Hn n eq_refl). lia. }
    set (prev' := if prev is Some n then Some n else Some (packno pk)).
    assert (H' : forall q, q ∈ l -> exists qk, m !! q = Some qk /\ forall n, prev' = Some n -> n < packno qk).
    { intros q Hq. destruct (H q) as (qk & Hqk & Hqn); [by right|]. exists qk. split; [done|]. intros n E.
      rewrite Forall_forall in F. assert (pno m p < pno m q) as Hlt by (apply F, list_elem_of_fmap; eauto).
      unfold pno at 2 in Hlt. rewrite Hqk, Hpn in Hlt. unfold prev' in E. destruct prev; [by apply Hqn|].
      injection E as <-. done. }
    unfold sent_bytes at 1, sent_packet at 1 3. destruct (is_loss_rec pk || po_poison pk).
    + rewrite IH by done. do 2 f_equal; f_equal; lia.
    + rewrite IH by (done || apply wrapu_idemp). do 2 f_equal; rewrite wrapu_add_l; f_equal; lia.
Qed.

Lemma sanity_sched_ok m l : forall count bytes,
  (forall p, p ∈ l -> exists pk, m !! p = Some pk /\ po_sched pk = true) -> u32 count = count -> u32 bytes = bytes ->
  sanity_sched m l count bytes = Some (u32 (count + qsum scheduled m l), u32 (bytes + qsum bytes_scheduled m l)).
Proof.
  induction l as [|p l IH]; intros count bytes H Hc Hb; cbn [sanity_sched qsum].
  - by rewrite !Z.add_0_r, Hc, Hb.
  - destruct (H p) as (pk & Hp & Hs); [by left|]. rewrite Hp. cbn [mbind option_bind]. rewrite Hs.
    rewrite IH; [|intros q Hq; apply H; by right|apply wrapu_idemp..].
    unfold bytes_scheduled at 2, scheduled at 2 4. rewrite Hs. do 2 f_equal; rewrite wrapu_add_l; f_equal; lia.
Qed.

Lemma qsum_add f g h m l : (forall p pk, p ∈ l -> m !! p = Some pk -> f pk = g pk + h pk) ->
  qsum f m l = qsum g m l + qsum h m l.
Proof.
  induction l as [|x l IH]; intros H; cbn; [done|]. rewrite IH by (intros p pk Hp; apply H; by right).
  destruct (m !! x) as [xk|] eqn:E; [|lia]. rewrite (H x xk); [lia|by left|done].
Qed.

Lemma qsum_same f g m l : (forall p pk, p ∈ l -> m !! p = Some pk -> f pk = g pk) -> qsum f m l = qsum g m l.
Proof.
  intros H. rewrite (qsum_add f g (fun _ => 0)); [|intros p pk Hp Hm; rewrite (H p pk) by done; lia].
  enough (qsum (fun _ => 0) m l = 0) by lia. clear H. induction l as [|x l IH]; cbn; [done|].
  rewrite IH. by destruct (m !! x).
Qed.

Lemma msum_lost c : wf c -> msum lost (sc_mem c) = qsum lost (sc_mem c) (sc_lost_packets (sc_q c)).
Proof.
  intros W. pose proof (wf_q _ W) as WQ. apply msum_qsum.
  - apply WQ.
  - intros p Hp. destruct (sc_mem c !! p) eqn:E; [eauto|]. destruct (wf_out _ _ _ WQ _ E) as (_ & B & _). done.
  - intros p pk Hp Hn. unfold lost. destruct (wf_in _ _ _ WQ _ _ Hp) as (_ & B & _). destruct (po_lost pk); [|done].
    exfalso. by apply Hn, B.
Qed.

Lemma qsum_nonneg f m l : (forall p pk, p ∈ l -> m !! p = Some pk -> 0 <= f pk) -> 0 <= qsum f m l.
Proof.
  induction l as [|x l IH]; intros H; cbn; [done|].
  assert (0 <= qsum f m l) by (apply IH; intros p pk Hp; apply H; by right).
  destruct (m !! x) as [xk|] eqn:E; [|lia]. assert (0 <= f xk) by (apply (H x); [by left|done]). lia.
Qed.

Lemma qsum_pos f m l p pk : (forall p pk, p ∈ l -> m !! p = Some pk -> 0 <= f pk) -> p ∈ l -> m !! p = Some pk ->
  f pk <= qsum f m l.
Proof.
  induction l as [|x l IH]; intros H Hin Hp; [by apply elem_of_nil in Hin|]. cbn.
  assert (Hl : forall p pk, p ∈ l -> m !! p = Some pk -> 0 <= f pk) by (intros; apply (H p0); [by right|done]).
  pose proof (qsum_nonneg f m l Hl). apply elem_of_cons in Hin as [->|Hin].
  - rewrite Hp. lia.
  - specialize (IH Hl Hin Hp). destruct (m !! x) as [xk|] eqn:E; [|lia].
    assert (0 <= f xk) by (apply (H x); [by left|done]). lia.
Qed.

Section sanity.
Context (c : send_ctl) (W : wf c).

Lemma unacked_flags p pk : p ∈ all_unacked c -> sc_mem c !! p = Some pk -> packet_ok pk /\ po_unacked pk = true.
Proof using W.
  intros [k Hk]%all_unacked_elem Hp. destruct (queued c k p W Hk) as (pk' & Hp' & ? & ? & _). assert (pk' = pk) as -> by congruence. done.
Qed.

(** The flight is the packets sent and the fake loss records. *)
Lemma flight_split :
  qsum in_flight (sc_mem c) (all_unacked c)
  = qsum sent_packet (sc_mem c) (all_unacked c) + qsum fake_record (sc_mem c) (all_unacked c)
  /\ qsum bytes_in_flight (sc_mem c) (all_unacked c)
     = qsum sent_bytes (sc_mem c) (all_unacked c)
       + qsum (fun pk => fake_record pk * packet_out_sent_sz pk) (sc_mem c) (all_unacked c).
Proof using W.
  assert (H : forall p pk, p ∈ all_unacked c -> sc_mem c !! p = Some pk -> in_flight pk = sent_packet pk + fake_record pk).
  { intros p pk Hin Hp. destruct (unacked_flags p pk Hin Hp) as [(_ & HLR & _) Hu].
    unfold in_flight, sent_packet, fake_record. rewrite Hu. destruct (is_loss_rec pk); cbn [orb andb]; [lia|].
    destruct (po_poison pk); done. }
  split; apply qsum_add; [done|]. intros p pk Hin Hp. unfold bytes_in_flight, sent_bytes. rewrite (H p pk) by done. lia.
Qed.

Lemma sanity_counts :
  exists n b, ('(n, b) ← sanity_queue (sc_mem c) (unacked c 0) None 0 0;
               '(n, b) ← sanity_queue (sc_mem c) (unacked c 1) None n b;
               sanity_queue (sc_mem c) (unacked c 2) None n b) = Some (n, b)
    /\ n = u32 (qsum sent_packet (sc_mem c) (all_unacked c)) /\ b = u32 (qsum sent_bytes (sc_mem c) (all_unacked c)).
Proof using W.
  assert (HQ : forall k n b, u32 n = n -> u32 b = b -> sanity_queue (sc_mem c) (unacked c k) None n b
     = Some (u32 (n + qsum sent_packet (sc_mem c) (unacked c k)), u32 (b + qsum sent_bytes (sc_mem c) (unacked c k)))).
  { intros k n b Hn Hb. apply sanity_queue_ok; try done; [|apply (wf_sorted _ W k)].
    intros p Hp. destruct (queued c k p W Hp) as (pk & Hpk & _). exists pk. split; [done|]. done. }
  rewrite HQ by done. cbn [mbind option_bind]. rewrite HQ by apply wrapu_idemp. cbn [mbind option_bind].
  rewrite HQ by apply wrapu_idemp. eexists _, _. split; [done|]. unfold all_unacked. rewrite !qsum_app.
  split; rewrite wrapu_add_l, <- Z.add_assoc, wrapu_add_l; f_equal; lia.
Qed.

End sanity.

Lemma sanity_check_ok c :
  wf c ->
  lsquic_send_ctl_do_sanity_check c = true
  <-> (forall p pk, sc_mem c !! p = Some pk -> is_loss_rec pk = true -> fake pk ≠ 1).
Proof.
  intros W. pose proof (wf_q _ W) as WQ. unfold lsquic_send_ctl_do_sanity_check.
  destruct (sanity_counts c W) as (n & b & -> & -> & ->).
  rewrite sanity_sched_ok; [|..|done|done].
  2: { intros p Hp. destruct (sc_mem c !! p) as [pk|] eqn:E.
       - exists pk. split; [done|]. by apply (wf_in _ _ _ WQ _ _ E).
       - by destruct (wf_out _ _ _ WQ _ E) as (_ & _ & C). }
  rewrite !Z.add_0_l. destruct (wf_n _ _ _ WQ) as (N1 & N2 & N3 & N4 & _). rewrite N1, N2, N3, N4.
  assert (forall pk, po_sched pk = false -> scheduled pk = 0 /\ bytes_scheduled pk = 0) as HS.
  { intros pk E. unfold bytes_scheduled, scheduled. by rewrite E. }
  assert (forall pk, po_unacked pk = false -> in_flight pk = 0 /\ bytes_in_flight pk = 0) as HU.
  { intros pk E. unfold bytes_in_flight, in_flight. by rewrite E. }
  rewrite (msum_sched c scheduled W), (msum_sched c bytes_scheduled W) by (intros; by apply HS).
  rewrite !Z.eqb_refl, !andb_true_r, andb_true_iff, !Z.eqb_eq.
  pose proof (wf_small _ W) as (S1 & S2 & _).
  rewrite (msum_unacked c in_flight W), (msum_unacked c bytes_in_flight W) in * by (intros; by apply HU).
  destruct (flight_split c W) as [F1 F2]. rewrite F1, F2 in *.
  assert (P1 : 0 <= qsum sent_packet (sc_mem c) (all_unacked c)).
  { apply qsum_nonneg. intros p pk _ _. unfold sent_packet. destruct (_ || _); lia. }
  assert (P2 : forall p pk, p ∈ all_unacked c -> sc_mem c !! p = Some pk -> 0 <= fake_record pk).
  { intros p pk _ _. unfold fake_record. destruct (_ && _); lia. }
  pose proof (qsum_nonneg _ _ _ P2) as P3. split.
  - intros [E _] p pk Hp Hl Hf.
    assert (qsum fake_record (sc_mem c) (all_unacked c) = 0).
    { rewrite !wrapu_id in E by (unfold is_u; lia). lia. }
    assert (p ∈ all_unacked c) as Hin.
    { apply (elem_all_unacked c p pk); try done. destruct (wf_pk _ _ _ WQ _ _ Hp) as (_ & HLR & _). by apply HLR. }
    pose proof (qsum_pos fake_record _ _ p pk P2 Hin Hp) as Hle. unfold fake_record at 1 in Hle.
    rewrite Hl, Hf in Hle. cbn in Hle. lia.
  - intros H. assert (HZ : forall p, p ∈ all_unacked c -> forall pk, sc_mem c !! p = Some pk -> fake_record pk = 0).
    { intros p _ pk Hp. unfold fake_record. destruct (is_loss_rec pk) eqn:Hl; [|done]. cbn.
      rewrite (proj2 (Z.eqb_neq _ 1)); [done|]. by apply (H p pk). }
    assert (HM : forall p, p ∈ all_unacked c -> is_Some (sc_mem c !! p)).
    { intros p [k Hk]%all_unacked_elem. destruct (queued c k p W Hk) as (pk & -> & _). eauto. }
    rewrite (qsum_const fake_record _ _ 0), (qsum_const (fun pk => fake_record pk * packet_out_sent_sz pk) _ _ 0).
    + rewrite !Z.mul_0_l, !Z.add_0_r. done.
    + intros p Hp. destruct (HM p Hp) as [pk Hpk]. exists pk. split; [done|]. by rewrite (HZ p Hp pk Hpk).
    + intros p Hp. destruct (HM p Hp) as [pk Hpk]. exists pk. split; [done|]. by rewrite (HZ p Hp pk Hpk).
Qed.

(** ** Which packets are lost *)

(** The three criteria: three or more later numbers acknowledged, everything
    sent is acknowledged or lost, or sent more than an RTT before the largest
    acknowledged. *)
Definition overtaken (retx srtt : Z) (a : acked) (largest_retx : Z) (pk : packet) : Prop :=
  po_poison pk = false
  /\ (u64 (packno pk + sc_reord_thresh a) < sc_largest_acked_packno a
      \/ (largest_retx ≠ 0 /\ is_retx retx pk = true /\ po_mtu_probe pk = false
          /\ largest_retx <= sc_largest_acked_packno a)
      \/ u64 (po_sent pk + srtt) < sc_largest_acked_sent_time a).

Lemma overtaken_verdict retx srtt a lr pk : overtaken retx srtt a lr pk <-> lost_verdict retx srtt a lr pk ≠ Kept.
Proof.
  unfold overtaken, lost_verdict. destruct (po_poison pk); [by split; [intros [? _]|]|].
  destruct (Z.ltb_spec (u64 (packno pk + sc_reord_thresh a)) (sc_largest_acked_packno a)); [by split; auto|].
  destruct (Z.eqb_spec lr 0), (is_retx retx pk), (po_mtu_probe pk), (Z.leb_spec lr (sc_largest_acked_packno a));
    cbn [negb andb];
    destruct (Z.ltb_spec (u64 (po_sent pk + srtt)) (sc_largest_acked_sent_time a)); split; try done;
      intuition (try lia; congruence).
Qed.

(** No duplicate of the packet is outstanding. *)
Definition no_duplicates (pk : packet) : Prop :=
  fake pk = 0 \/ po_need_retrans_number (pk_art pk) <= po_retrans_packet_number (pk_art pk).

(** [p] is lost and has to be sent again. *)
Definition resend (retx srtt largest_retx : Z) (c : send_ctl) (p : Z) : Prop :=
  exists pk, sc_mem c !! p = Some pk /\ packno pk <= sc_largest_acked_packno (sc_a c) /\ is_loss_rec pk = false
    /\ po_mtu_probe pk = false /\ is_retx retx pk = true /\ no_duplicates pk /\ overtaken retx srtt (sc_a c) largest_retx pk.

(** [p] is lost. *)
Definition is_lost (retx srtt largest_retx : Z) (c : send_ctl) (p : Z) : Prop :=
  exists pk, sc_mem c !! p = Some pk /\ packno pk <= sc_largest_acked_packno (sc_a c) /\ is_loss_rec pk = false
    /\ (po_mtu_probe pk = true \/ no_duplicates pk) /\ overtaken retx srtt (sc_a c) largest_retx pk.

Lemma turn_over_spec pk : turn_over (pk_art pk) = true <-> no_duplicates pk.
Proof. unfold turn_over, no_duplicates. rewrite orb_true_iff, Z.eqb_eq, Z.leb_le. done. Qed.

Lemma verdict_lost v : match v with Kept => false | _ => true end = true <-> v ≠ Kept.
Proof. by destruct v. Qed.

Lemma declared_spec retx srtt lr c p : declared retx srtt lr c p = true <-> resend retx srtt lr c p.
Proof.
  unfold declared, resend. destruct (sc_mem c !! p) as [pk|]; [|by split; [|intros (? & ? & _)]].
  rewrite !andb_true_iff, !negb_true_iff, Z.leb_le, turn_over_spec, verdict_lost, <- overtaken_verdict.
  split; [intros H; exists pk; tauto|intros (pk' & [= <-] & H); tauto].
Qed.

Lemma found_spec retx srtt lr c p : found retx srtt lr c p = true <-> is_lost retx srtt lr c p.
Proof.
  unfold found, is_lost. destruct (sc_mem c !! p) as [pk|]; [|by split; [|intros (? & ? & _)]].
  rewrite !andb_true_iff, orb_true_iff, negb_true_iff, Z.leb_le, turn_over_spec, verdict_lost, <- overtaken_verdict.
  split; [intros H; exists pk; tauto|intros (pk' & [= <-] & H); tauto].
Qed.

#[export] Instance resend_dec retx srtt lr c p : Decision (resend retx srtt lr c p).
Proof. destruct (declared retx srtt lr c p) eqn:E; [left; by apply declared_spec|right; intros H%declared_spec; congruence]. Defined.

(** ** Theorems *)

Section claims.
Context (sc_retx_frames : Z) (retx_stream : Z.testbit sc_retx_frames 1 = true) (flags last : Z) (malo : list bool).
Context (c : send_ctl) (R : reachable sc_retx_frames flags last malo c).

Lemma reachable_wf : wf c.
Proof using R retx_stream. by apply (reachable_ok _ retx_stream _ _ _ _ R). Qed.

(** C4: Every run of the send controller is safe.  In every state reached from
    initialisation by creating, scheduling, sending and resending packets,
    processing ACK frames, expiring packets and sending ART duplicates, with
    allocations failing anywhere, the next such operation ends (no loop runs
    on, no pointer dangles, no assertion fails) in a state that satisfies the
    invariant: queues match packet flags, chains are rings, counters match the
    queues, queues are sorted.  The exceptions are the four faults of the
    source: dropping a lost packet that has nothing left to send reads it after
    it was freed; where an allocation fails, a feedback entry is written
    through NULL or the assertion at the end of [art_schedule] fails; and a
    packet that was declared lost too often indexes the table of rounds out of
    bounds.  [enabled] says what the callers keep to: an operation gets a packet
    from the place it takes it from (a new packet from no queue, a lost one
    from the lost queue), packets are sent in the order of their numbers, the
    number after a gap only while no poisoned packet is out, an ACK frame has
    well-formed ranges and at least one, and fewer than 2^31 packets and bytes
    are scheduled or in flight. *)
Theorem send_ctl_safe w o :
  enabled o c ->
  match exec sc_retx_frames w o c with
  | Ok c' => ok c'
  | Fault Bug => exists p, o = DropLost p
  | Fault NoMemory => false ∈ sc_malo c
  | Fault Rounds => overdue c
  end.
Proof using R retx_stream.
  intros He. destruct (exec_ok _ retx_stream w o c (reachable_ok _ retx_stream _ _ _ _ R) He) as [H|[Hd ->]]; [|done].
  by destruct (exec _ w o c) as [c'|[]].
Qed.

(** C7: The counters and the consistency check.  In every reachable state the
    number and the bytes of packets in flight are what
    [lsquic_send_ctl_do_sanity_check] sums over the unacked queues (the packets
    sent, neither loss records nor the poisoned packet) plus the loss records
    of duplicates that are under way; the number and bytes scheduled are those
    of the scheduled queue, the number of lost packets that of the lost queue,
    and packet numbers on each unacked queue increase strictly.  Hence the
    assertions of the consistency check all hold if and only if no duplicate is
    under way. *)
Theorem send_ctl_counters :
  sc_n_in_flight_all (sc_n c)
  = qsum sent_packet (sc_mem c) (all_unacked c) + qsum fake_record (sc_mem c) (all_unacked c)
  /\ sc_bytes_unacked_all (sc_n c)
     = qsum sent_bytes (sc_mem c) (all_unacked c)
       + qsum (fun pk => fake_record pk * packet_out_sent_sz pk) (sc_mem c) (all_unacked c)
  /\ sc_n_scheduled (sc_n c) = Z.of_nat (length (sc_scheduled_packets (sc_q c)))
  /\ sc_bytes_scheduled (sc_n c) = u32 (qsum packet_out_total_sz (sc_mem c) (sc_scheduled_packets (sc_q c)))
  /\ sc_lost_packet_number (sc_n c) = u32 (Z.of_nat (length (sc_lost_packets (sc_q c))))
  /\ (forall k, StronglySorted Z.lt (pnos c k))
  /\ (lsquic_send_ctl_do_sanity_check c = true
      <-> forall p pk, sc_mem c !! p = Some pk -> is_loss_rec pk = true -> fake pk ≠ 1).
Proof using R retx_stream.
  pose proof reachable_wf as W. pose proof (wf_q _ W) as WQ.
  destruct (counted_exact _ _ _ WQ (small_fits _ (wf_small _ W))) as (N1 & N2 & N3).
  destruct (wf_n _ _ _ WQ) as (_ & _ & _ & N4 & N5). rewrite N1, N2, N3, N4, N5.
  destruct (flight_split c W) as [F1 F2]. rewrite <- F1, <- F2.
  assert (HS : forall p, p ∈ sc_scheduled_packets (sc_q c) -> exists pk, sc_mem c !! p = Some pk /\ po_sched pk = true).
  { intros p Hp. destruct (sc_mem c !! p) as [pk|] eqn:E; [|by destruct (wf_out _ _ _ WQ _ E) as (_ & _ & C)].
    exists pk. split; [done|]. by apply (wf_in _ _ _ WQ _ _ E). }
  split_and!.
  - apply msum_unacked; [done|]. intros pk E. unfold in_flight. by rewrite E.
  - apply msum_unacked; [done|]. intros pk E. unfold bytes_in_flight, in_flight. by rewrite E.
  - rewrite (msum_sched c scheduled W) by (intros pk E; unfold scheduled; by rewrite E).
    rewrite (qsum_const scheduled _ _ 1); [lia|]. intros p Hp. destruct (HS p Hp) as (pk & ? & E).
    exists pk. unfold scheduled. by rewrite E.
  - f_equal. rewrite (msum_sched c bytes_scheduled W) by (intros pk E; unfold bytes_scheduled, scheduled; by rewrite E).
    apply qsum_same. intros p pk Hp Hpk. destruct (HS p Hp) as (pk' & Hpk' & E). assert (pk' = pk) as -> by congruence.
    unfold bytes_scheduled, scheduled. rewrite E. lia.
  - f_equal. rewrite (msum_lost c W). rewrite (qsum_const lost _ _ 1); [lia|]. intros p Hp.
    destruct (sc_mem c !! p) as [pk|] eqn:E; [|by destruct (wf_out _ _ _ WQ _ E) as (_ & B & _)].
    exists pk. split; [done|]. unfold lost. assert (po_lost pk = true) as -> by (by apply (wf_in _ _ _ WQ _ _ E)). done.
  - apply W.
  - by apply sanity_check_ok.
Qed.

(** C5: An ACK frame retires exactly the chains it names.  Whatever the
    well-formed ranges of the frame are, the loop over the unacked queue ends
    and frees every packet of every chain that has a member on the queue with
    an acknowledged number (the packet itself, its loss records, its copies on
    the lost or scheduled queue), changes no other packet, and keeps the
    invariant; unless the poisoned packet was acknowledged, which is reported,
    or no memory is left for a feedback entry. *)
Theorem ack_retires_chains pns ranges hi prev p suf :
  ranges_ok PN_BOUND ranges -> head ranges = Some hi -> unacked c pns = p :: suf -> pno (sc_mem c) p <= hi.2 ->
  let retired z := exists x, x ∈ unacked c pns /\ in_ranges (pno (sc_mem c) x) ranges /\ linked (sc_mem c) x z in
  match got_ack_loop sc_retx_frames (length (unacked c pns)) c pns (rev ranges) false hi.2 prev p with
  | Ok (c', true) => wf c' /\ (forall z, retired z -> sc_mem c' !! z = None)
                     /\ (forall z, ~ retired z -> sc_mem c' !! z = sc_mem c !! z)
  | Ok (c', false) => wf c' /\ exists x xk, x ∈ unacked c pns /\ sc_mem c !! x = Some xk /\ po_poison xk = true
                        /\ in_ranges (packno xk) ranges
  | Fault f => (f = NoMemory /\ false ∈ sc_malo c) \/ (f = Rounds /\ overdue c)
  end.
Proof using R retx_stream.
  intros Hr Hh Hq Hle retired. pose proof (got_ack_loop_ok sc_retx_frames pns c ranges hi prev p suf reachable_wf Hr Hh Hq Hle) as H.
  destruct (got_ack_loop _ _ _ _ _ _ _ _ _) as [[c' []]|[]]; cbn in H; [| |done|by left|by right].
  - destruct H as (A & _ & _ & _ & _ & [T1 T2 _]). done.
  - destruct H as (A & _ & _ & _ & _ & H). done.
Qed.

(** C6: Loss detection is exact.  After an ACK frame, the packets put on the
    lost queue are precisely the packets with retransmittable frames, other
    than MTU probes, that are numbered no later than the largest acknowledged,
    have no duplicates outstanding and meet one of the three criteria
    (FACK distance, early retransmit, sent too long before the largest
    acknowledged), in the order of their numbers; every packet that is not
    detected stays on the unacked queue; the largest acknowledged number, its
    time and the reordering threshold are unchanged.  A packet without
    retransmittable frames is assumed to be alone in its chain. *)
Theorem loss_detection_exact srtt min_rtt env pns :
  (forall z, z ∈ unacked c pns -> solo sc_retx_frames c z) ->
  let largest_retx := largest_retx_packet_number sc_retx_frames c pns in
  match send_ctl_detect_losses sc_retx_frames srtt min_rtt env c pns with
  | Ok (c', _) =>
    wf c' /\ crit (sc_a c') = crit (sc_a c)
    /\ sc_lost_packets (sc_q c')
       = sc_lost_packets (sc_q c)
         ++ filter (resend sc_retx_frames srtt largest_retx c) (unacked c pns)
    /\ (forall z, z ∈ unacked c pns -> ~ is_lost sc_retx_frames srtt largest_retx c z -> z ∈ unacked c' pns)
  | Fault f => (f = NoMemory /\ false ∈ sc_malo c) \/ (f = Rounds /\ overdue c)
  end.
Proof using R retx_stream.
  intros Hs lr. pose proof (detect_losses_ok sc_retx_frames srtt min_rtt env pns c reachable_wf) as H.
  destruct (send_ctl_detect_losses _ _ _ _ _ _) as [[c' ret]|[]]; cbn in H; [|done|by left|by right].
  destruct H as (A & _ & _ & D & E & _). destruct (E Hs) as [E1 E2]. split_and!; try done.
  - rewrite E1. f_equal. apply list_filter_iff. intros z. apply declared_spec.
  - intros z Hz Hf. apply E2; [done|]. intros _. apply not_true_is_false. by rewrite found_spec.
Qed.

(** C8: Sending duplicates keeps the flight.  In every reachable state the timer
    of ART hands every duplicate that is due to the lost queue and counts its
    loss record in its place, so that the number of packets in flight is the
    same afterwards, as the assertion at its end demands.  The assertion fails
    only when the allocation of a loss record failed (the other faults are a
    feedback entry for which there is no memory, and a packet that was declared
    lost too often). *)
Theorem art_schedule_flight min_rtt env :
  match art_schedule sc_retx_frames min_rtt env c with
  | Ok c' => wf c' /\ sc_n_in_flight_all (sc_n c') = sc_n_in_flight_all (sc_n c)
  | Fault f => (f = NoMemory /\ false ∈ sc_malo c) \/ (f = Rounds /\ overdue c)
  end.
Proof using R retx_stream.
  pose proof (art_schedule_ok sc_retx_frames min_rtt env retx_stream c reachable_wf) as H.
  destruct (art_schedule _ _ _ _) as [c'|[]]; cbn in H; [|done|by left|by right].
  destruct H as [(A & _) B]. done.
Qed.

(** C9: Destroying a chain ends.  For a packet on no queue, the loop of
    [send_ctl_destroy_chain] comes back to the packet, after it has taken every
    other member of the chain off its queue and freed it; no packet outside the
    chain is touched. *)
Theorem chain_destruction p pk :
  sc_mem c !! p = Some pk -> limbo pk ->
  exists c', send_ctl_destroy_chain sc_retx_frames c p None = Ok (c', None)
    /\ (forall z, z ≠ p -> linked (sc_mem c) p z -> sc_mem c' !! z = None)
    /\ (forall z, z ≠ p -> ~ linked (sc_mem c) p z -> sc_mem c' !! z = sc_mem c !! z).
Proof using R retx_stream.
  intros Hp Hl. pose proof reachable_wf as W. destruct (rg_ring _ (wf_r _ W) p) as [rest HR]; [eauto|].
  pose proof (limbo_detach _ _ _ _ _ (wf_q _ W) Hp Hl) as WD.
  destruct (retire_spec sc_retx_frames c p pk rest None (unacked c (po_pns pk)) [] WD) as (c1 & n' & E1 & E2 & _); try done.
  - eapply below_shrinks; [apply small_fits, W|]. apply shrinks_delete, (wf_q _ W).
  - apply W.
  - by rewrite app_nil_r.
  - exists c1. split; [done|].
    assert (Hd : forall z, z ≠ p -> sc_mem c1 !! z = dels (p :: rest) (sc_mem c) !! z).
    { intros z Hz. unfold send_ctl_destroy_packet, get in E2. destruct (sc_mem c1 !! p); [|done]. cbn in E2.
      injection E2 as E2 _. rewrite <- (lookup_delete_ne (sc_mem c1) p z) by done. by rewrite E2. }
    split; intros z Hz H; rewrite Hd, lookup_dels by done; rewrite (ring_linked _ _ _ _ HR) in H.
    + by rewrite decide_True.
    + by rewrite decide_False.
Qed.

End claims.

(** ** Faults of the source *)

(** A finding. Dropping a lost packet that has nothing left to send always
    reads the packet after it was freed. *)
Lemma drop_lost_packet_use_after_free retx c p : exists f, drop_lost_packet retx c p = Fault f.
Proof.
  unfold drop_lost_packet. destruct (get c p) as [pk|f]; [|by eexists]. cbn [mbind res_bind].
  destruct (tailq_remove p _) as [q|f]; [|by eexists]. cbn [mbind res_bind].
  destruct (send_ctl_destroy_chain _ _ _ _) as [[c1 n]|f]; [|by eexists]. cbn [mbind res_bind].
  unfold send_ctl_destroy_packet. destruct (get c1 p) as [pk1|f]; [|by eexists]. cbn [mbind res_bind].
  unfold get. cbn [sc_mem set_mem]. rewrite lookup_delete_eq. by eexists.
Qed.

(** A finding. [send_ctl_detect_losses] is to return whether there was a loss
    event; it compares with the limit that [send_ctl_loss_event] has just
    raised and so returns false, also after a loss event. *)
Lemma detect_losses_reports_none retx srtt min_rtt env pns c c' ret :
  wf c -> sc_largest_acked_packno (sc_a c) <= sh_last_sent (sc_a c) -> 0 <= sc_largest_sent_at_cutback (sc_a c) ->
  0 <= sh_last_sent (sc_a c) -> send_ctl_detect_losses retx srtt min_rtt env c pns = Ok (c', ret) -> ret = false.
Proof.
  intros W H1 H2 H3 E. pose proof (detect_losses_ok retx srtt min_rtt env pns c W) as H. rewrite E in H.
  destruct H as (_ & _ & _ & _ & _ & H). by apply H.
Qed.

(** ** A run *)

Module Run.

Definition stream_packet (no : Z) : packet :=
  PK (AP no 0 0 0 0 0 0 0 0 0 false) false false false false false false false false PNS_APP (1000 * no) 0 30 1000 0 FT_STREAM
     0 0 false.

(** The clock stands at 1 ms, and at 5 s when the timer of ART fires. *)
Definition early : world := World 50000 20000 (fun _ => (1000, 7)).
Definition late : world := World 50000 20000 (fun _ => (5000000, 7)).

Definition start : send_ctl := lsquic_send_ctl_init 0 (2 ^ 64 - 1) [].

(** Six packets are sent; the sixth is acknowledged, so that the others are
    lost; the first is resent as number 7, and then its duplicate is due. *)
Definition sends : list (world * op) :=
  flat_map (fun '(p, no) => [(early, New (stream_packet no)); (early, Sent p)])
           [(0, 1); (1, 2); (2, 3); (3, 4); (4, 5); (5, 6)].
Definition loses : list (world * op) := sends ++ [(early, GotAck PNS_APP [(6, 6)] false 100)].
Definition acks : list (world * op) := sends ++ [(early, GotAck PNS_APP [(3, 3)] false 100)].
Definition picks : list (world * op) := loses ++ [(early, Reschedule 0 7); (early, Unschedule 0)].
Definition resends : list (world * op) := picks ++ [(early, Sent 0)].
Definition duplicates : list (world * op) := resends ++ [(late, ArtSchedule)].

Definition after (script : list (world * op)) : send_ctl := default start (play 2 script start).

Lemma after_reachable script : is_Some (play 2 script start) -> reachable 2 0 (2 ^ 64 - 1) [] (after script).
Proof.
  intros [c E]. unfold after. rewrite E. eapply play_reachable; [apply reach_init|done].
Qed.

End Run.

(** Only packets with retransmittable frames wait. *)
Lemma solo_all retx c pns :
  forallb (fun z => if sc_mem c !! z is Some pk then is_retx retx pk else true) (unacked c pns) = true ->
  forall z, z ∈ unacked c pns -> solo retx c z.
Proof.
  intros X z Hz%list_elem_of_In pk Hp Hr. rewrite forallb_forall in X. specialize (X z Hz). rewrite Hp in X. congruence.
Qed.

Local Ltac played := apply Run.after_reachable; eexists; vm_compute; reflexivity.

(** The acknowledgement of packet 6 from the run. *)
Lemma send_ctl_safe_witness :
  exists c', exec 2 Run.early (GotAck PNS_APP [(6, 6)] false 100) (Run.after Run.sends) = Ok c' /\ ok c'
    /\ sc_lost_packets (sc_q c') = [0; 1; 2; 3; 4].
Proof.
  assert (R : reachable 2 0 (2 ^ 64 - 1) [] (Run.after Run.sends)) by played.
  pose proof (send_ctl_safe 2 eq_refl 0 (2 ^ 64 - 1) [] _ R Run.early (GotAck PNS_APP [(6, 6)] false 100)) as H.
  destruct (exec 2 Run.early _ (Run.after Run.sends)) as [c'|f] eqn:E; [|vm_compute in E; discriminate].
  exists c'. split; [reflexivity|]. split.
  - apply H, enabledb_sound. vm_compute. reflexivity.
  - enough (X : (c ← exec 2 Run.early (GotAck PNS_APP [(6, 6)] false 100) (Run.after Run.sends);
                 Ok (sc_lost_packets (sc_q c))) = Ok [0; 1; 2; 3; 4]).
    + rewrite E in X. cbn in X. injection X as X. exact X.
    + vm_compute. reflexivity.
Defined.

(** A duplicate is under way: its loss record counts as a packet in flight, and
    the consistency check fails. *)
Lemma send_ctl_counters_witness :
  sc_n_in_flight_all (sc_n (Run.after Run.duplicates)) = 1
  /\ sc_lost_packet_number (sc_n (Run.after Run.duplicates)) = 5
  /\ lsquic_send_ctl_do_sanity_check (Run.after Run.duplicates) = false
  /\ ~ (forall p pk, sc_mem (Run.after Run.duplicates) !! p = Some pk -> is_loss_rec pk = true -> fake pk ≠ 1).
Proof.
  assert (R : reachable 2 0 (2 ^ 64 - 1) [] (Run.after Run.duplicates)) by played.
  destruct (send_ctl_counters 2 eq_refl 0 (2 ^ 64 - 1) [] _ R) as (_ & _ & _ & _ & _ & _ & H).
  assert (E : lsquic_send_ctl_do_sanity_check (Run.after Run.duplicates) = false) by (vm_compute; reflexivity).
  split; [vm_compute; reflexivity|]. split; [vm_compute; reflexivity|]. split; [exact E|].
  intros X. apply H in X. congruence.
Defined.

(** Number 1 is acknowledged late, and number 7 with it. *)
Lemma ack_retires_chains_witness :
  exists c', got_ack_loop 2 6 (Run.after Run.resends) PNS_APP [(1, 1)] false 1 6 5 = Ok (c', true)
    /\ wf c' /\ sc_mem c' !! 5 = None /\ sc_mem c' !! 0 = None.
Proof.
  assert (R : reachable 2 0 (2 ^ 64 - 1) [] (Run.after Run.resends)) by played.
  pose proof (ack_retires_chains 2 eq_refl 0 (2 ^ 64 - 1) [] _ R PNS_APP [(1, 1)] (1, 1) 6 5 [6; 7; 8; 9; 0]) as H.
  assert (E0 : unacked (Run.after Run.resends) PNS_APP = [5; 6; 7; 8; 9; 0]) by (vm_compute; reflexivity).
  rewrite E0 in H. cbn [length rev app snd] in H.
  assert (E : exists c', got_ack_loop 2 6 (Run.after Run.resends) PNS_APP [(1, 1)] false 1 6 5 = Ok (c', true)
              /\ sc_mem c' !! 5 = None /\ sc_mem c' !! 0 = None).
  { eexists. split; [vm_compute; reflexivity|]. split; vm_compute; reflexivity. }
  destruct E as (c' & E & E5 & E6). rewrite E in H. exists c'. split; [exact E|]. split; [|exact (conj E5 E6)].
  apply H.
  - by apply ranges_okb_spec.
  - done.
  - done.
  - vm_compute. discriminate.
Defined.

(** Number 3 was acknowledged when the RTT was 50 ms; now that it is 1.5 ms,
    number 1 is lost and number 2 is not. *)
Lemma loss_detection_exact_witness :
  exists c', send_ctl_detect_losses 2 1500 1000 (w_env Run.early) (Run.after Run.acks) PNS_APP = Ok (c', false)
    /\ wf c' /\ sc_lost_packets (sc_q (Run.after Run.acks)) = [] /\ sc_lost_packets (sc_q c') = [0].
Proof.
  assert (R : reachable 2 0 (2 ^ 64 - 1) [] (Run.after Run.acks)) by played.
  pose proof (loss_detection_exact 2 eq_refl 0 (2 ^ 64 - 1) [] _ R 1500 1000 (w_env Run.early) PNS_APP) as H.
  assert (E : exists c', send_ctl_detect_losses 2 1500 1000 (w_env Run.early) (Run.after Run.acks) PNS_APP
              = Ok (c', false) /\ sc_lost_packets (sc_q (Run.after Run.acks)) = [] /\ sc_lost_packets (sc_q c') = [0]).
  { eexists. split; [vm_compute; reflexivity|]. split; vm_compute; reflexivity. }
  destruct E as (c' & E & E1). rewrite E in H. exists c'. split; [exact E|]. split; [|exact E1]. apply H.
  apply solo_all. vm_compute. reflexivity.
Defined.

Lemma art_schedule_flight_witness :
  exists c', art_schedule 2 20000 (w_env Run.late) (Run.after Run.resends) = Ok c' /\ wf c'
    /\ sc_n_in_flight_all (sc_n c') = 1 /\ sc_lost_packets (sc_q c') = [1; 2; 3; 4; 0].
Proof.
  assert (R : reachable 2 0 (2 ^ 64 - 1) [] (Run.after Run.resends)) by played.
  pose proof (art_schedule_flight 2 eq_refl 0 (2 ^ 64 - 1) [] _ R 20000 (w_env Run.late)) as H.
  assert (E : exists c', art_schedule 2 20000 (w_env Run.late) (Run.after Run.resends) = Ok c'
              /\ sc_n_in_flight_all (sc_n c') = 1 /\ sc_lost_packets (sc_q c') = [1; 2; 3; 4; 0]).
  { eexists. split; [vm_compute; reflexivity|]. split; vm_compute; reflexivity. }
  destruct E as (c' & E & E1 & E2). rewrite E in H. exists c'. split; [exact E|]. split; [|exact (conj E1 E2)]. apply H.
Defined.

(** The packet that is about to be resent has one loss record. *)
Lemma chain_destruction_witness :
  exists c', send_ctl_destroy_chain 2 (Run.after Run.picks) 0 None = Ok (c', None) /\ sc_mem c' !! 5 = None.
Proof.
  assert (R : reachable 2 0 (2 ^ 64 - 1) [] (Run.after Run.picks)) by played.
  assert (E : exists pk, sc_mem (Run.after Run.picks) !! 0 = Some pk /\ limbo pk /\ po_loss_chain pk = 5).
  { eexists. split; [vm_compute; reflexivity|]. by split_and!. }
  destruct E as (pk & Hp & Hl & Hc).
  destruct (chain_destruction 2 eq_refl 0 (2 ^ 64 - 1) [] _ R 0 pk Hp Hl) as (c' & E & H & _).
  exists c'. split; [exact E|]. apply H; [done|]. apply rtc_once. unfold chain. rewrite Hp. cbn. by rewrite Hc.
Defined.

(** A finding. When the allocation of a loss record fails, the assertion that
    ends [art_schedule] fails: the duplicate has left the flight and nothing
    took its place. *)
Lemma art_schedule_out_of_memory :
  art_schedule 2 20000 (w_env Run.late) (set_malo (Run.after Run.resends) [false]) = Fault NoMemory.
Proof. vm_compute. reflexivity. Qed.
