(* ===== verification/TransParams.v ===== *)
(** Transport parameters, lsquic_trans_params.c: what the endpoints tell each
    other in the handshake, in the current encoding and in that of draft 27
    ([v27]).  LSQUIC_TEST_QUANTUM_READINESS is off.  The functions that print
    parameters are left out. *)
From S2P Require Import Prelude Varint Frames FramesThms.
Local Open Scope Z_scope.

Inductive transport_param_id :=
  | TPI_MAX_IDLE_TIMEOUT | TPI_MAX_UDP_PAYLOAD_SIZE | TPI_INIT_MAX_DATA
  | TPI_INIT_MAX_STREAM_DATA_BIDI_LOCAL | TPI_INIT_MAX_STREAM_DATA_BIDI_REMOTE
  | TPI_INIT_MAX_STREAM_DATA_UNI | TPI_INIT_MAX_STREAMS_BIDI | TPI_INIT_MAX_STREAMS_UNI
  | TPI_ACK_DELAY_EXPONENT | TPI_MAX_ACK_DELAY | TPI_ACTIVE_CONNECTION_ID_LIMIT
  | TPI_MIN_ACK_DELAY | TPI_MIN_ACK_DELAY_02 | TPI_TIMESTAMPS | TPI_MAX_DATAGRAM_FRAME_SIZE
  | TPI_LOSS_BITS
  | TPI_GREASE_QUIC_BIT | TPI_DISABLE_ACTIVE_MIGRATION
  | TPI_PREFERRED_ADDRESS | TPI_ORIGINAL_DEST_CID | TPI_INITIAL_SOURCE_CID
  | TPI_RETRY_SOURCE_CID | TPI_STATELESS_RESET_TOKEN.

#[export] Instance tpi_eq : EqDecision transport_param_id.
Proof. solve_decision. Defined.

(** The groups of the enumeration, in its order. *)
Definition num_with_def_tpis : list transport_param_id :=
  [ TPI_MAX_IDLE_TIMEOUT; TPI_MAX_UDP_PAYLOAD_SIZE; TPI_INIT_MAX_DATA;
    TPI_INIT_MAX_STREAM_DATA_BIDI_LOCAL; TPI_INIT_MAX_STREAM_DATA_BIDI_REMOTE;
    TPI_INIT_MAX_STREAM_DATA_UNI; TPI_INIT_MAX_STREAMS_BIDI; TPI_INIT_MAX_STREAMS_UNI;
    TPI_ACK_DELAY_EXPONENT; TPI_MAX_ACK_DELAY; TPI_ACTIVE_CONNECTION_ID_LIMIT ].
Definition numeric_tpis : list transport_param_id :=
  num_with_def_tpis ++
  [ TPI_MIN_ACK_DELAY; TPI_MIN_ACK_DELAY_02; TPI_TIMESTAMPS; TPI_MAX_DATAGRAM_FRAME_SIZE;
    TPI_LOSS_BITS ].
Definition empty_tpis : list transport_param_id := [ TPI_GREASE_QUIC_BIT; TPI_DISABLE_ACTIVE_MIGRATION ].
Definition all_tpis : list transport_param_id :=
  numeric_tpis ++ empty_tpis ++
  [ TPI_PREFERRED_ADDRESS; TPI_ORIGINAL_DEST_CID; TPI_INITIAL_SOURCE_CID;
    TPI_RETRY_SOURCE_CID; TPI_STATELESS_RESET_TOKEN ].

(** The number of the enumerator. *)
Definition tpi_idx (t : transport_param_id) : nat :=
  match t with
  | TPI_MAX_IDLE_TIMEOUT => 0 | TPI_MAX_UDP_PAYLOAD_SIZE => 1 | TPI_INIT_MAX_DATA => 2
  | TPI_INIT_MAX_STREAM_DATA_BIDI_LOCAL => 3 | TPI_INIT_MAX_STREAM_DATA_BIDI_REMOTE => 4
  | TPI_INIT_MAX_STREAM_DATA_UNI => 5 | TPI_INIT_MAX_STREAMS_BIDI => 6 | TPI_INIT_MAX_STREAMS_UNI => 7
  | TPI_ACK_DELAY_EXPONENT => 8 | TPI_MAX_ACK_DELAY => 9 | TPI_ACTIVE_CONNECTION_ID_LIMIT => 10
  | TPI_MIN_ACK_DELAY => 11 | TPI_MIN_ACK_DELAY_02 => 12 | TPI_TIMESTAMPS => 13
  | TPI_MAX_DATAGRAM_FRAME_SIZE => 14 | TPI_LOSS_BITS => 15 | TPI_GREASE_QUIC_BIT => 16
  | TPI_DISABLE_ACTIVE_MIGRATION => 17 | TPI_PREFERRED_ADDRESS => 18 | TPI_ORIGINAL_DEST_CID => 19
  | TPI_INITIAL_SOURCE_CID => 20 | TPI_RETRY_SOURCE_CID => 21 | TPI_STATELESS_RESET_TOKEN => 22
  end.

(** [1 << tpi] *)
Definition tpi_bit (t : transport_param_id) : Z := Z.shiftl 1 (Z.of_nat (tpi_idx t)).

(** [default: return INT_MAX] is [None]. *)
Definition tpi_val_2_enum (tpi_val : Z) : option transport_param_id :=
  match tpi_val with
  | 0 => Some TPI_ORIGINAL_DEST_CID
  | 1 => Some TPI_MAX_IDLE_TIMEOUT
  | 2 => Some TPI_STATELESS_RESET_TOKEN
  | 3 => Some TPI_MAX_UDP_PAYLOAD_SIZE
  | 4 => Some TPI_INIT_MAX_DATA
  | 5 => Some TPI_INIT_MAX_STREAM_DATA_BIDI_LOCAL
  | 6 => Some TPI_INIT_MAX_STREAM_DATA_BIDI_REMOTE
  | 7 => Some TPI_INIT_MAX_STREAM_DATA_UNI
  | 8 => Some TPI_INIT_MAX_STREAMS_BIDI
  | 9 => Some TPI_INIT_MAX_STREAMS_UNI
  | 10 => Some TPI_ACK_DELAY_EXPONENT
  | 11 => Some TPI_MAX_ACK_DELAY
  | 12 => Some TPI_DISABLE_ACTIVE_MIGRATION
  | 13 => Some TPI_PREFERRED_ADDRESS
  | 14 => Some TPI_ACTIVE_CONNECTION_ID_LIMIT
  | 15 => Some TPI_INITIAL_SOURCE_CID
  | 16 => Some TPI_RETRY_SOURCE_CID
  | 0x20 => Some TPI_MAX_DATAGRAM_FRAME_SIZE
  | 0x1057 => Some TPI_LOSS_BITS
  | 0x2AB2 => Some TPI_GREASE_QUIC_BIT
  | 0xDE1A => Some TPI_MIN_ACK_DELAY
  | 0xFF02DE1A => Some TPI_MIN_ACK_DELAY_02
  | 0x7158 => Some TPI_TIMESTAMPS
  | _ => None
  end.

Definition enum_2_tpi_val (t : transport_param_id) : Z :=
  match t with
  | TPI_ORIGINAL_DEST_CID => 0x0
  | TPI_MAX_IDLE_TIMEOUT => 0x1
  | TPI_STATELESS_RESET_TOKEN => 0x2
  | TPI_MAX_UDP_PAYLOAD_SIZE => 0x3
  | TPI_INIT_MAX_DATA => 0x4
  | TPI_INIT_MAX_STREAM_DATA_BIDI_LOCAL => 0x5
  | TPI_INIT_MAX_STREAM_DATA_BIDI_REMOTE => 0x6
  | TPI_INIT_MAX_STREAM_DATA_UNI => 0x7
  | TPI_INIT_MAX_STREAMS_BIDI => 0x8
  | TPI_INIT_MAX_STREAMS_UNI => 0x9
  | TPI_ACK_DELAY_EXPONENT => 0xA
  | TPI_MAX_ACK_DELAY => 0xB
  | TPI_DISABLE_ACTIVE_MIGRATION => 0xC
  | TPI_PREFERRED_ADDRESS => 0xD
  | TPI_ACTIVE_CONNECTION_ID_LIMIT => 0xE
  | TPI_INITIAL_SOURCE_CID => 0xF
  | TPI_RETRY_SOURCE_CID => 0x10
  | TPI_MAX_DATAGRAM_FRAME_SIZE => 0x20
  | TPI_LOSS_BITS => 0x1057
  | TPI_MIN_ACK_DELAY => 0xDE1A
  | TPI_MIN_ACK_DELAY_02 => 0xFF02DE1A
  | TPI_TIMESTAMPS => 0x7158
  | TPI_GREASE_QUIC_BIT => 0x2AB2
  end.

Definition def_vals (t : transport_param_id) : Z :=
  match t with
  | TPI_MAX_UDP_PAYLOAD_SIZE => 65527
  | TPI_ACK_DELAY_EXPONENT => 3
  | TPI_MAX_ACK_DELAY => 25
  | TPI_ACTIVE_CONNECTION_ID_LIMIT => 2
  | _ => 0
  end.

Definition TS_WANT_THEM : Z := 1.
Definition TS_GENERATE_THEM : Z := 2.

Definition max_vals (t : transport_param_id) : Z :=
  match t with
  | TPI_MAX_UDP_PAYLOAD_SIZE | TPI_INIT_MAX_DATA | TPI_INIT_MAX_STREAM_DATA_BIDI_LOCAL
  | TPI_INIT_MAX_STREAM_DATA_BIDI_REMOTE | TPI_INIT_MAX_STREAM_DATA_UNI | TPI_MAX_IDLE_TIMEOUT
  | TPI_ACTIVE_CONNECTION_ID_LIMIT | TPI_MAX_DATAGRAM_FRAME_SIZE => VINT_MAX_VALUE
  | TPI_ACK_DELAY_EXPONENT => 20
  | TPI_INIT_MAX_STREAMS_UNI | TPI_INIT_MAX_STREAMS_BIDI => Z.shiftl 1 60
  | TPI_MAX_ACK_DELAY => Z.shiftl 1 14 - 1
  | TPI_LOSS_BITS => 1
  | TPI_MIN_ACK_DELAY | TPI_MIN_ACK_DELAY_02 => Z.shiftl 1 24 - 1
  | TPI_TIMESTAMPS => Z.lor TS_WANT_THEM TS_GENERATE_THEM
  | _ => 0
  end.

Definition min_vals (t : transport_param_id) : Z :=
  match t with
  | TPI_MAX_UDP_PAYLOAD_SIZE => 1200
  | TPI_MIN_ACK_DELAY | TPI_MIN_ACK_DELAY_02 => 1
  | TPI_ACTIVE_CONNECTION_ID_LIMIT => 2
  | TPI_TIMESTAMPS => TS_WANT_THEM
  | _ => 0
  end.

Record preferred_address := PREF {
  ipv4_addr : list Z; ipv4_port : Z;
  ipv6_addr : list Z; ipv6_port : Z;
  pref_cid : list Z; srst : list Z
}.

Record transport_params := TP {
  tp_set : Z;
  tp_decoded : Z;
  tp_numerics : list Z;
  tp_stateless_reset_token : list Z;
  tp_preferred_address : preferred_address;
  tp_cids : list (list Z)
}.

Definition tp_num (p : transport_params) (t : transport_param_id) : Z := default 0 (tp_numerics p !! tpi_idx t).

Definition TP_CID_IDX (t : transport_param_id) : nat := tpi_idx t - tpi_idx TPI_ORIGINAL_DEST_CID.

Definition tp_cid (p : transport_params) (t : transport_param_id) : list Z := default [] (tp_cids p !! TP_CID_IDX t).

Definition has (set : Z) (t : transport_param_id) : bool := has_flag set (tpi_bit t).

(** Fields the initialiser does not name are zero. *)
Definition TP_INITIALIZER : transport_params :=
  TP (Z.shiftl 1 (Z.of_nat (tpi_idx TPI_ACTIVE_CONNECTION_ID_LIMIT) + 1) - 1) 0 (def_vals <$> numeric_tpis)
     (replicate 16 0) (PREF (replicate 4 0) 0 (replicate 16 0) 0 [] (replicate 16 0)) [[]; []; []].

(** ** Encoding *)

Definition preferred_address_size (p : transport_params) : Z :=
  4 + 2 + 16 + 2 + 1 + blen (pref_cid (tp_preferred_address p)) + IQUIC_SRESET_TOKEN_SZ.

(** What [update_cid_bits] returns. *)
Definition cid_need (t : transport_param_id) (cid : list Z) : Z :=
  Z.shiftl 1 (vint_val2bits (enum_2_tpi_val t)) + Z.shiftl 1 (vint_val2bits (blen cid)) + blen cid.

Definition sized_need (t : transport_param_id) (size : Z) : Z :=
  Z.shiftl 1 (vint_val2bits (enum_2_tpi_val t)) + Z.shiftl 1 (vint_val2bits size) + size.

(** The [if] statements before the loops. *)
Definition custom_need (v27 is_server : bool) (p : transport_params) (set : Z) : Z :=
  (if negb v27 && has set TPI_INITIAL_SOURCE_CID then cid_need TPI_INITIAL_SOURCE_CID (tp_cid p TPI_INITIAL_SOURCE_CID) else 0)
  + (if is_server then
       (if has set TPI_ORIGINAL_DEST_CID then cid_need TPI_ORIGINAL_DEST_CID (tp_cid p TPI_ORIGINAL_DEST_CID) else 0)
       + (if negb v27 && has set TPI_RETRY_SOURCE_CID then cid_need TPI_RETRY_SOURCE_CID (tp_cid p TPI_RETRY_SOURCE_CID) else 0)
       + (if has set TPI_STATELESS_RESET_TOKEN then sized_need TPI_STATELESS_RESET_TOKEN IQUIC_SRESET_TOKEN_SZ else 0)
       + (if has set TPI_PREFERRED_ADDRESS then sized_need TPI_PREFERRED_ADDRESS (preferred_address_size p) else 0)
     else 0).

(** The loop over the numeric parameters; [None] is [return -1]. *)
Fixpoint numeric_need (ts : list transport_param_id) (p : transport_params) (set need : Z) : option (Z * Z) :=
  match ts with
  | [] => Some (set, need)
  | t :: ts =>
    if has set t then
      if bool_decide (t ∉ num_with_def_tpis) || negb (tp_num p t =? def_vals t) then
        if (min_vals t <=? tp_num p t) && (tp_num p t <=? max_vals t) then
          let bits2 := vint_val2bits (tp_num p t) in
          numeric_need ts p set
            (need + Z.shiftl 1 (vint_val2bits (enum_2_tpi_val t)) + Z.shiftl 1 (vint_val2bits bits2) + Z.shiftl 1 bits2)
        else None
      else numeric_need ts p (Z.ldiff set (tpi_bit t)) need
    else numeric_need ts p set need
  end.

Fixpoint empty_need (ts : list transport_param_id) (set need : Z) : Z :=
  match ts with
  | [] => need
  | t :: ts =>
    empty_need ts set (if has set t then need + Z.shiftl 1 (vint_val2bits (enum_2_tpi_val t)) + 1 else need)
  end.

Definition write_cid (t : transport_param_id) (p : transport_params) : list Z :=
  vint (enum_2_tpi_val t) ++ vint (blen (tp_cid p t)) ++ tp_cid p t.

(** What is written for one parameter; [None] when the element of [bits] that
    is read was never set, or for the failed assertion of the old encoding. *)
Definition write_param (v27 is_server : bool) (p : transport_params) (t : transport_param_id) : option (list Z) :=
  match t with
  | TPI_GREASE_QUIC_BIT | TPI_DISABLE_ACTIVE_MIGRATION => Some (vint (enum_2_tpi_val t) ++ [0])
  | TPI_INITIAL_SOURCE_CID => if v27 then None else Some (write_cid t p)
  | TPI_RETRY_SOURCE_CID => if v27 || negb is_server then None else Some (write_cid t p)
  | TPI_ORIGINAL_DEST_CID => if is_server then Some (write_cid t p) else None
  | TPI_STATELESS_RESET_TOKEN =>
    if is_server
    then Some (vint (enum_2_tpi_val t) ++ vint IQUIC_SRESET_TOKEN_SZ ++ tp_stateless_reset_token p)
    else None
  | TPI_PREFERRED_ADDRESS =>
    if is_server then
      let a := tp_preferred_address p in
      Some (vint (enum_2_tpi_val t) ++ vint (preferred_address_size p)
            ++ ipv4_addr a ++ be_bytes 2 (ipv4_port a) ++ ipv6_addr a ++ be_bytes 2 (ipv6_port a)
            ++ [blen (pref_cid a)] ++ pref_cid a ++ srst a)
    else None
  | _ =>
    let bits2 := vint_val2bits (tp_num p t) in
    Some (vint (enum_2_tpi_val t)
          ++ vint_write (Z.shiftl 1 bits2) (vint_val2bits bits2) (Z.shiftl 1 (vint_val2bits bits2))
          ++ vint_write (tp_num p t) bits2 (Z.shiftl 1 bits2))
  end.

(** The writing loop. *)
Fixpoint write_params (v27 is_server : bool) (p : transport_params) (set : Z) (ts : list transport_param_id)
    : option (list Z) :=
  match ts with
  | [] => Some []
  | t :: ts =>
    if has set t then
      bs ← write_param v27 is_server p t;
      app bs <$> write_params v27 is_server p set ts
    else write_params v27 is_server p set ts
  end.

(** [Some None] is the return value -1, [None] undefined behaviour or a failed
    assertion. *)
Definition tp_encode (v27 is_server : bool) (p : transport_params) (bufsz : Z) : option (option (list Z)) :=
  match numeric_need numeric_tpis p (tp_set p) (custom_need v27 is_server p (tp_set p)) with
  | None => Some None
  | Some (set, need) =>
    let need := empty_need empty_tpis set need in
    if (bufsz <? need) || (UINT16_MAX <? need) then Some None else
    bs ← write_params v27 is_server p set all_tpis;
    if blen bs =? need then Some (Some bs) else None
  end.

Definition lsquic_tp_encode : bool -> transport_params -> Z -> option (option (list Z)) := tp_encode false.
Definition lsquic_tp_encode_27 : bool -> transport_params -> Z -> option (option (list Z)) := tp_encode true.

(** ** Decoding *)

Definition set_num (p : transport_params) (t : transport_param_id) (v : Z) : transport_params :=
  TP (tp_set p) (tp_decoded p) (<[tpi_idx t := v]> (tp_numerics p)) (tp_stateless_reset_token p)
     (tp_preferred_address p) (tp_cids p).
Definition set_token (p : transport_params) (v : list Z) : transport_params :=
  TP (tp_set p) (tp_decoded p) (tp_numerics p) v (tp_preferred_address p) (tp_cids p).
Definition set_pref (p : transport_params) (v : preferred_address) : transport_params :=
  TP (tp_set p) (tp_decoded p) (tp_numerics p) (tp_stateless_reset_token p) v (tp_cids p).
Definition set_cid (p : transport_params) (t : transport_param_id) (v : list Z) : transport_params :=
  TP (tp_set p) (tp_decoded p) (tp_numerics p) (tp_stateless_reset_token p) (tp_preferred_address p)
     (<[TP_CID_IDX t := v]> (tp_cids p)).
Definition set_present (p : transport_params) (t : transport_param_id) : transport_params :=
  TP (Z.lor (tp_set p) (tpi_bit t)) (Z.lor (tp_decoded p) (tpi_bit t)) (tp_numerics p)
     (tp_stateless_reset_token p) (tp_preferred_address p) (tp_cids p).

(** [EXPECT_AT_LEAST(n)], the bytes at [q] and [q += n]. *)
Definition expect (n : Z) (q : list Z) : option (list Z * list Z) :=
  if blen q <? n then None else Some (take (Z.to_nat n) q, drop (Z.to_nat n) q).

(** In the functions below [None] is [return -1]; [val] are the bytes of the
    value, from [p] to [p + len]. *)
Definition decode_numeric (t : transport_param_id) (val : list Z) (p : transport_params) : option transport_params :=
  if bool_decide (blen val ∈ [1; 2; 4; 8]) then
    match lsquic_varint_read val with
    | Some (s, v) =>
      if s =? blen val then
        if max_vals t <? v then None else if v <? min_vals t then None else Some (set_num p t v)
      else None
    | None => None
    end
  else None.

Definition decode_pref (val : list Z) (p : transport_params) : option transport_params :=
  '(ip4, q) ← expect 4 val;
  '(port4, q) ← expect 2 q;
  '(ip6, q) ← expect 16 q;
  '(port6, q) ← expect 2 q;
  '(l, q) ← expect 1 q;
  let tlen := be_val l in
  if MAX_CID_LEN <? tlen then None else
  '(cid, q) ← expect tlen q;
  '(tok, q) ← expect IQUIC_SRESET_TOKEN_SZ q;
  if blen q =? 0 then Some (set_pref p (PREF ip4 (be_val port4) ip6 (be_val port6) cid tok)) else None.

Definition decode_cid (t : transport_param_id) (val : list Z) (p : transport_params) : option transport_params :=
  if MAX_CID_LEN <? blen val then None else Some (set_cid p t val).

Definition decode_value (v27 is_server : bool) (t : transport_param_id) (val : list Z) (p : transport_params)
    : option transport_params :=
  match t with
  | TPI_DISABLE_ACTIVE_MIGRATION => if blen val =? 0 then Some p else None
  | TPI_GREASE_QUIC_BIT => if v27 || (blen val =? 0) then Some p else None
  | TPI_STATELESS_RESET_TOKEN =>
    if negb is_server then None
    else if blen val =? IQUIC_SRESET_TOKEN_SZ then Some (set_token p val) else None
  | TPI_ORIGINAL_DEST_CID => if negb is_server then None else decode_cid t val p
  | TPI_RETRY_SOURCE_CID => if v27 then Some p else if negb is_server then None else decode_cid t val p
  | TPI_INITIAL_SOURCE_CID => if v27 then Some p else decode_cid t val p
  | TPI_PREFERRED_ADDRESS => if negb is_server then None else decode_pref val p
  | _ => decode_numeric t val p
  end.

(** One turn of the loop: the bytes that are left, the set of parameters seen
    and the parameters. *)
Definition decode_step (v27 is_server : bool) (buf : list Z) (ids : Z) (p : transport_params)
    : option (list Z * Z * transport_params) :=
  '(s, param_id) ← lsquic_varint_read buf;
  let buf := drop (Z.to_nat s) buf in
  '(s, len) ← lsquic_varint_read buf;
  let buf := drop (Z.to_nat s) buf in
  if blen buf <? len then None else
  let val := take (Z.to_nat len) buf in
  let buf := drop (Z.to_nat len) buf in
  match tpi_val_2_enum param_id with
  | Some t =>
    if has ids t then None else
    p ← decode_value v27 is_server t val p;
    Some (buf, Z.lor ids (tpi_bit t), set_present p t)
  | None => Some (buf, ids, p)
  end.

(** [None] when the fuel runs out, [Some None] for [return -1]. *)
Fixpoint decode_loop (fuel : nat) (v27 is_server : bool) (buf : list Z) (ids : Z) (p : transport_params)
    : option (option transport_params) :=
  match buf with
  | [] => Some (Some p)
  | _ =>
    match fuel with
    | O => None
    | S fuel =>
      match decode_step v27 is_server buf ids p with
      | None => Some None
      | Some (buf, ids, p) => decode_loop fuel v27 is_server buf ids p
      end
    end
  end.

Definition min_delay_bad (p : transport_params) (t : transport_param_id) : bool :=
  has (tp_set p) t && (u64 (tp_num p TPI_MAX_ACK_DELAY * 1000) <? tp_num p t).

(** A turn uses up two bytes at least, so [length buf] turns are enough. *)
Definition tp_decode (v27 is_server : bool) (buf : list Z) : option (option transport_params) :=
  match decode_loop (length buf) v27 is_server buf 0 TP_INITIALIZER with
  | Some (Some p) =>
    if min_delay_bad p TPI_MIN_ACK_DELAY then Some None
    else if min_delay_bad p TPI_MIN_ACK_DELAY_02 then Some None
    else Some (Some p)
  | r => r
  end.

Definition lsquic_tp_decode : bool -> list Z -> option (option transport_params) := tp_decode false.
Definition lsquic_tp_decode_27 : bool -> list Z -> option (option transport_params) := tp_decode true.

(** ** The preferred address *)

Definition lsquic_tp_has_pref_ipv4 (p : transport_params) : bool :=
  has (tp_set p) TPI_PREFERRED_ADDRESS && negb (ipv4_port (tp_preferred_address p) =? 0)
  && negb (forallb (Z.eqb 0) (ipv4_addr (tp_preferred_address p))).

Definition lsquic_tp_has_pref_ipv6 (p : transport_params) : bool :=
  has (tp_set p) TPI_PREFERRED_ADDRESS && negb (ipv6_port (tp_preferred_address p) =? 0)
  && negb (forallb (Z.eqb 0) (ipv6_addr (tp_preferred_address p))).

(** * Properties *)

Definition custom_tpis : list transport_param_id :=
  [ TPI_PREFERRED_ADDRESS; TPI_ORIGINAL_DEST_CID; TPI_INITIAL_SOURCE_CID;
    TPI_RETRY_SOURCE_CID; TPI_STATELESS_RESET_TOKEN ].

Definition server_only (v27 : bool) (t : transport_param_id) : bool :=
  match t with
  | TPI_PREFERRED_ADDRESS | TPI_ORIGINAL_DEST_CID | TPI_STATELESS_RESET_TOKEN => true
  | TPI_RETRY_SOURCE_CID => negb v27
  | _ => false
  end.

Definition bytes (n : Z) (l : list Z) : Prop := blen l = n /\ Forall byte_ok l.
Definition cid_ok (l : list Z) : Prop := blen l <= MAX_CID_LEN /\ Forall byte_ok l.

Record pref_ok (a : preferred_address) : Prop := {
  po_ip4 : bytes 4 (ipv4_addr a); po_port4 : is_u 16 (ipv4_port a);
  po_ip6 : bytes 16 (ipv6_addr a); po_port6 : is_u 16 (ipv6_port a);
  po_cid : cid_ok (pref_cid a); po_srst : bytes 16 (srst a)
}.

(** The value the peer takes for a numeric parameter. *)
Definition effective (p : transport_params) (t : transport_param_id) : Z :=
  if has (tp_set p) t then tp_num p t else def_vals t.

Record tp_ok (v27 is_server : bool) (p : transport_params) : Prop := {
  to_set : is_u 23 (tp_set p);
  to_num : forall t, t ∈ numeric_tpis -> has (tp_set p) t = true -> min_vals t <= tp_num p t <= max_vals t;
  to_token : bytes 16 (tp_stateless_reset_token p);
  to_pref : pref_ok (tp_preferred_address p);
  to_cid : forall t, cid_ok (tp_cid p t);
  to_server : is_server = false -> forall t, server_only v27 t = true -> has (tp_set p) t = false;
  to_delay : forall t, t = TPI_MIN_ACK_DELAY \/ t = TPI_MIN_ACK_DELAY_02 -> has (tp_set p) t = true ->
    tp_num p t <= effective p TPI_MAX_ACK_DELAY * 1000
}.

(** [q] has the values of [p] for what [p] sets, and defaults otherwise. *)
Record tp_agrees (p q : transport_params) : Prop := {
  ta_num : forall t, t ∈ numeric_tpis -> tp_num q t = effective p t;
  ta_token : tp_stateless_reset_token q = if has (tp_set p) TPI_STATELESS_RESET_TOKEN
             then tp_stateless_reset_token p else tp_stateless_reset_token TP_INITIALIZER;
  ta_pref : tp_preferred_address q = if has (tp_set p) TPI_PREFERRED_ADDRESS
            then tp_preferred_address p else tp_preferred_address TP_INITIALIZER;
  ta_cid : forall t, t ∈ [TPI_ORIGINAL_DEST_CID; TPI_INITIAL_SOURCE_CID; TPI_RETRY_SOURCE_CID] ->
           tp_cid q t = if has (tp_set p) t then tp_cid p t else [];
  ta_set : forall t, has (tp_set q) t = has (tp_set p) t || bool_decide (t ∈ num_with_def_tpis)
}.

(** ** The set of parameters *)

Lemma tpi_idx_inj t t' : tpi_idx t = tpi_idx t' -> t = t'.
Proof. intros E. assert (all_tpis !! tpi_idx t = all_tpis !! tpi_idx t') as H by (by rewrite E). by destruct t, t'. Qed.

Lemma has_spec set t : has set t = Z.testbit set (Z.of_nat (tpi_idx t)).
Proof. unfold has, tpi_bit. rewrite Z.shiftl_1_l. apply has_bit. lia. Qed.

Lemma bit_eq t t' : (Z.of_nat (tpi_idx t) =? Z.of_nat (tpi_idx t')) = bool_decide (t = t').
Proof.
  destruct (bool_decide_reflect (t = t')) as [->|Hne]; [apply Z.eqb_refl|]. apply Z.eqb_neq. intros E. apply Hne, tpi_idx_inj. lia.
Qed.

Lemma has_lor set t t' : has (Z.lor set (tpi_bit t)) t' = has set t' || bool_decide (t = t').
Proof. rewrite !has_spec, Z.lor_spec. unfold tpi_bit. by rewrite Z.shiftl_1_l, Z.pow2_bits_eqb, bit_eq by lia. Qed.

Lemma has_ldiff set t t' : has (Z.ldiff set (tpi_bit t)) t' = has set t' && negb (bool_decide (t = t')).
Proof. rewrite !has_spec, Z.ldiff_spec. unfold tpi_bit. by rewrite Z.shiftl_1_l, Z.pow2_bits_eqb, bit_eq by lia. Qed.

Lemma has_zero t : has 0 t = false.
Proof. by destruct t. Qed.

Lemma tpi_val_enum t : tpi_val_2_enum (enum_2_tpi_val t) = Some t.
Proof. by destruct t. Qed.

Lemma tpi_val_ok t : vint_ok (enum_2_tpi_val t).
Proof. unfold vint_ok. by destruct t. Qed.

Lemma def_in_range t : t ∈ num_with_def_tpis -> min_vals t <= def_vals t <= max_vals t.
Proof. intros H. assert (bool_decide (t ∈ num_with_def_tpis) = true) as B by (by apply bool_decide_eq_true_2). clear H. destruct t; vm_compute in B |- *; try discriminate. all: split; congruence. Qed.

(** ** Sizes *)

Definition defaulted (p : transport_params) (t : transport_param_id) : bool :=
  bool_decide (t ∈ num_with_def_tpis) && (tp_num p t =? def_vals t).

Definition is_numeric (t : transport_param_id) : bool := bool_decide (t ∈ numeric_tpis).

Definition num_need (p : transport_params) (t : transport_param_id) : Z :=
  Z.shiftl 1 (vint_val2bits (enum_2_tpi_val t)) + Z.shiftl 1 (vint_val2bits (vint_val2bits (tp_num p t)))
  + Z.shiftl 1 (vint_val2bits (tp_num p t)).

Definition psum (f : transport_param_id -> Z) (set : Z) (ts : list transport_param_id) : Z :=
  foldr (fun t n => (if has set t then f t else 0) + n) 0 ts.

Lemma psum_ext f g set set' ts :
  (forall t, t ∈ ts -> has set t = has set' t /\ (has set t = true -> f t = g t)) -> psum f set ts = psum g set' ts.
Proof.
  induction ts as [|t ts IH]; intros H; [done|]. cbn [psum foldr]. fold (psum f set ts) (psum g set' ts).
  rewrite IH by (intros t' Ht'; apply H; by right). destruct (H t ltac:(left)) as [<- Hf].
  destruct (has set t); [by rewrite Hf|done].
Qed.

Lemma psum_app f set a b : psum f set (a ++ b) = psum f set a + psum f set b.
Proof. unfold psum. induction a as [|t a IH]; cbn [app foldr]; [lia|]. rewrite IH. lia. Qed.

(** The parameters that are written: not those with a default value. *)
Definition written (p : transport_params) (ts : list transport_param_id) (set set' : Z) : Prop :=
  forall t, has set' t = has set t && negb (bool_decide (t ∈ ts) && defaulted p t).

Definition num_in_range (p : transport_params) (t : transport_param_id) : Prop :=
  defaulted p t = true \/ min_vals t <= tp_num p t <= max_vals t.

Lemma numeric_need_ok p ts : forall set need,
  NoDup ts ->
  match numeric_need ts p set need with
  | Some (set', need') => written p ts set set' /\ need' = need + psum (num_need p) set' ts
      /\ (forall t, t ∈ ts -> has set t = true -> num_in_range p t)
  | None => exists t, t ∈ ts /\ has set t = true /\ ~ num_in_range p t
  end.
Proof.
  induction ts as [|t ts IH]; intros set need Hnd; cbn [numeric_need].
  { split_and!; [|cbn; lia|by intros t ?%not_elem_of_nil]. intros t. rewrite bool_decide_eq_false_2 by apply not_elem_of_nil.
    by rewrite andb_true_r. }
  apply NoDup_cons in Hnd as [Hni Hnd].
  assert (Hcons : forall t', bool_decide (t' ∈ t :: ts) = bool_decide (t = t') || bool_decide (t' ∈ ts)).
  { intros t'. rewrite <- bool_decide_or. apply bool_decide_ext. rewrite elem_of_cons. by split; intros [->|]; auto. }
  replace (bool_decide (t ∉ num_with_def_tpis) || negb (tp_num p t =? def_vals t)) with (negb (defaulted p t))
    by (unfold defaulted; by rewrite negb_andb, bool_decide_not).
  destruct (has set t) eqn:Eh; [destruct (defaulted p t) eqn:Ed; cbn [negb]|].
  - specialize (IH (Z.ldiff set (tpi_bit t)) need Hnd). destruct (numeric_need ts p _ need) as [[set' need']|].
    + destruct IH as (Hw & -> & Hr).
      assert (Hw' : written p (t :: ts) set set').
      { intros t'. rewrite Hw, has_ldiff, Hcons. destruct (bool_decide_reflect (t = t')) as [<-|]; cbn; [by rewrite Ed, Eh|].
        by rewrite andb_true_r. }
      split_and!; [done| |].
      * cbn [psum foldr]. fold (psum (num_need p) set' ts). rewrite Hw', Hcons, Ed, bool_decide_eq_true_2, andb_false_r by done. lia.
      * intros t' [->|Hin]%elem_of_cons Hset; [by left|]. apply Hr; [done|]. rewrite has_ldiff, Hset, bool_decide_eq_false_2; [done|].
        by intros ->.
    + destruct IH as (t' & Hin & Hset & Hr). exists t'. rewrite has_ldiff in Hset. apply andb_true_iff in Hset as [Hset _].
      split_and!; [by right|done|done].
  - destruct ((min_vals t <=? tp_num p t) && (tp_num p t <=? max_vals t)) eqn:Er.
    2: { exists t. split_and!; [by left|done|]. intros [?|?]; [congruence|lia]. }
    specialize (IH set (need + num_need p t) Hnd). unfold num_need in IH at 1 2.
    rewrite !Z.add_assoc in IH. destruct (numeric_need ts p set _) as [[set' need']|].
    + destruct IH as (Hw & -> & Hr). split_and!.
      * intros t'. rewrite Hw, Hcons. destruct (bool_decide_reflect (t = t')) as [<-|]; cbn; [|done].
        by rewrite Ed, bool_decide_eq_false_2 by done.
      * cbn [psum foldr]. fold (psum (num_need p) set' ts). rewrite Hw, Eh, bool_decide_eq_false_2 by done. cbn [andb negb].
        set (n := psum _ _ _). unfold num_need. lia.
      * intros t' [->|Hin]%elem_of_cons Hset; [right; lia|by apply Hr].
    + destruct IH as (t' & Hin & Hset & Hr). exists t'. split_and!; [by right|done|done].
  - specialize (IH set need Hnd). destruct (numeric_need ts p set need) as [[set' need']|].
    + destruct IH as (Hw & -> & Hr). split_and!.
      * intros t'. rewrite Hw, Hcons. destruct (bool_decide_reflect (t = t')) as [<-|]; cbn; [by rewrite Eh|done].
      * cbn [psum foldr]. fold (psum (num_need p) set' ts). rewrite Hw, Eh. cbn. lia.
      * intros t' [->|Hin]%elem_of_cons Hset; [congruence|by apply Hr].
    + destruct IH as (t' & Hin & Hset & Hr). exists t'. split_and!; [by right|done|done].
Qed.

Definition param_need (p : transport_params) (t : transport_param_id) : Z :=
  match t with
  | TPI_GREASE_QUIC_BIT | TPI_DISABLE_ACTIVE_MIGRATION => Z.shiftl 1 (vint_val2bits (enum_2_tpi_val t)) + 1
  | TPI_ORIGINAL_DEST_CID | TPI_INITIAL_SOURCE_CID | TPI_RETRY_SOURCE_CID => cid_need t (tp_cid p t)
  | TPI_STATELESS_RESET_TOKEN => sized_need t IQUIC_SRESET_TOKEN_SZ
  | TPI_PREFERRED_ADDRESS => sized_need t (preferred_address_size p)
  | _ => num_need p t
  end.

(** The parameter may be written: the others belong to the server, or are not
    part of the old encoding. *)
Definition may_write (v27 is_server : bool) (t : transport_param_id) : bool :=
  negb (negb is_server && server_only false t)
  && negb (v27 && (bool_decide (t = TPI_INITIAL_SOURCE_CID) || bool_decide (t = TPI_RETRY_SOURCE_CID))).

Definition may_write_all (v27 is_server : bool) (set : Z) : Prop :=
  forall t, has set t = true -> may_write v27 is_server t = true.

Lemma blen_write v b : 0 <= b <= 3 -> blen (vint_write v b (Z.shiftl 1 b)) = Z.shiftl 1 b.
Proof.
  intros. rewrite Z.shiftl_1_l. assert (2 ^ b <= 2 ^ 3) by (apply Z.pow_le_mono_r; lia).
  unfold blen. rewrite length_vint_write; lia.
Qed.

Lemma blen_be n x : blen (be_bytes n x) = Z.of_nat n.
Proof. unfold blen. by rewrite length_be_bytes. Qed.

Lemma custom_need_ok v27 srv p set : may_write_all v27 srv set -> custom_need v27 srv p set = psum (param_need p) set custom_tpis.
Proof.
  intros H. unfold custom_need, psum. cbn [foldr custom_tpis param_need].
  assert (Hc : forall t, may_write v27 srv t = false -> has set t = false).
  { intros t Ht. destruct (has set t) eqn:E; [|done]. apply H in E. congruence. }
  destruct srv, v27; cbn [negb andb].
  all: try (rewrite (Hc TPI_INITIAL_SOURCE_CID) by done); try (rewrite (Hc TPI_RETRY_SOURCE_CID) by done).
  3, 4: rewrite (Hc TPI_PREFERRED_ADDRESS), (Hc TPI_ORIGINAL_DEST_CID), (Hc TPI_STATELESS_RESET_TOKEN) by done.
  all: repeat destruct (has set _); lia.
Qed.

Lemma write_param_ok v27 srv p t :
  tp_ok v27 srv p -> may_write v27 srv t = true ->
  exists bs, write_param v27 srv p t = Some bs /\ blen bs = param_need p t /\ Forall byte_ok bs.
Proof.
  intros [_ _ [Tl Tb] [[A1 A2] _ [B1 B2] _ [C1 C2] [D1 D2]] Hcid _ _] Hm. pose proof (Hcid t) as [Hc1 Hc2].
  assert (Hid : blen (vint (enum_2_tpi_val t)) = Z.shiftl 1 (vint_val2bits (enum_2_tpi_val t))) by apply blen_vint.
  unfold may_write in Hm. apply andb_true_iff in Hm as [Hm1 Hm2].
  destruct t; cbn [write_param param_need]; try (destruct srv; [|done]); try (destruct v27; [done|]); cbn [negb orb];
    (eexists; split; [reflexivity|]); unfold write_cid, cid_need, sized_need, num_need, preferred_address_size;
    rewrite !blen_app, Hid, ?blen_vint, ?blen_write, ?blen_be by apply vint_val2bits_range; unfold vint_size.
  all: (split; [|rewrite ?Forall_app; split_and!; eauto using vint_bytes, vint_write_ok, be_bytes_ok]).
  all: try (unfold IQUIC_SRESET_TOKEN_SZ in *; change (blen [0]) with 1; rewrite ?blen_cons; change (blen []) with 0; lia).
  all: repeat constructor; unfold MAX_CID_LEN, byte_ok, blen in *; lia.
Qed.

Lemma write_params_ok v27 srv p set ts :
  tp_ok v27 srv p -> may_write_all v27 srv set ->
  exists bs, write_params v27 srv p set ts = Some bs /\ blen bs = psum (param_need p) set ts /\ Forall byte_ok bs.
Proof.
  intros Hok Hm. induction ts as [|t ts IH]; cbn [write_params]; [by exists []|].
  destruct IH as (bs & -> & Hl & Hb). cbn [psum foldr]. fold (psum (param_need p) set ts).
  destruct (has set t) eqn:E; [|by exists bs].
  destruct (write_param_ok v27 srv p t Hok (Hm t E)) as (b & -> & Hlb & Hbb).
  exists (b ++ bs). split; [done|]. rewrite blen_app, Forall_app. split; [lia|done].
Qed.

Lemma empty_need_ok p set need : empty_need empty_tpis set need = need + psum (param_need p) set empty_tpis.
Proof. unfold psum. cbn [empty_need empty_tpis foldr param_need]. repeat destruct (has set _); lia. Qed.

Lemma all_tpis_nodup : NoDup all_tpis.
Proof. apply (bool_decide_unpack _). by vm_compute. Qed.

Lemma numeric_tpis_nodup : NoDup numeric_tpis.
Proof. apply (bool_decide_unpack _). by vm_compute. Qed.

(** What the encoder writes, and how long it is. *)
Definition tp_size (p : transport_params) (set : Z) : Z := psum (param_need p) set all_tpis.

Lemma encode_ok v27 srv p bufsz :
  tp_ok v27 srv p -> may_write_all v27 srv (tp_set p) ->
  exists set bs, written p numeric_tpis (tp_set p) set
    /\ write_params v27 srv p set all_tpis = Some bs /\ blen bs = tp_size p set /\ Forall byte_ok bs
    /\ tp_encode v27 srv p bufsz
       = Some (if (bufsz <? tp_size p set) || (UINT16_MAX <? tp_size p set) then None else Some bs).
Proof.
  intros Hok Hm. unfold tp_encode.
  pose proof (numeric_need_ok p numeric_tpis (tp_set p) (custom_need v27 srv p (tp_set p)) numeric_tpis_nodup) as H.
  destruct (numeric_need _ _ _ _) as [[set need]|].
  2: { destruct H as (t & Hin & Hset & Hr). destruct Hr. right. by apply (to_num _ _ _ Hok). }
  destruct H as (Hw & -> & _).
  assert (Hm' : may_write_all v27 srv set).
  { intros t Ht. rewrite Hw in Ht. apply Hm. by destruct (has (tp_set p) t). }
  destruct (write_params_ok v27 srv p set all_tpis Hok Hm') as (bs & Hbs & Hl & Hb). exists set, bs.
  assert (Hneed : empty_need empty_tpis set (custom_need v27 srv p (tp_set p) + psum (num_need p) set numeric_tpis) = tp_size p set).
  { rewrite (empty_need_ok p), (custom_need_ok _ _ _ _ Hm). unfold tp_size.
    change all_tpis with (numeric_tpis ++ empty_tpis ++ custom_tpis). rewrite !psum_app.
    rewrite (psum_ext (param_need p) (param_need p) (tp_set p) set custom_tpis).
    - rewrite (psum_ext (num_need p) (param_need p) set set numeric_tpis); [lia|]. intros t Ht. split; [done|]. intros _.
      assert (bool_decide (t ∈ numeric_tpis) = true) as B by (by apply bool_decide_eq_true_2). by destruct t.
    - intros t Ht. split; [|done]. rewrite Hw. rewrite bool_decide_eq_false_2; [by rewrite andb_true_r|]. intros Hn.
      assert (bool_decide (t ∈ numeric_tpis) = true) as B by (by apply bool_decide_eq_true_2).
      assert (bool_decide (t ∈ custom_tpis) = true) as B' by (by apply bool_decide_eq_true_2). by destruct t. }
  split_and!; try done. rewrite Hneed. destruct ((bufsz <? _) || _); [done|]. rewrite Hbs. cbn [mbind option_bind].
  by rewrite Hl, Z.eqb_refl.
Qed.

(** ** Reading back *)

Definition pref_bytes (a : preferred_address) : list Z :=
  ipv4_addr a ++ be_bytes 2 (ipv4_port a) ++ ipv6_addr a ++ be_bytes 2 (ipv6_port a)
  ++ [blen (pref_cid a)] ++ pref_cid a ++ srst a.

(** The bytes of the value of a parameter. *)
Definition param_val (p : transport_params) (t : transport_param_id) : list Z :=
  match t with
  | TPI_GREASE_QUIC_BIT | TPI_DISABLE_ACTIVE_MIGRATION => []
  | TPI_ORIGINAL_DEST_CID | TPI_INITIAL_SOURCE_CID | TPI_RETRY_SOURCE_CID => tp_cid p t
  | TPI_STATELESS_RESET_TOKEN => tp_stateless_reset_token p
  | TPI_PREFERRED_ADDRESS => pref_bytes (tp_preferred_address p)
  | _ => vint (tp_num p t)
  end.

(** The value of [p] for [t], stored in [q]. *)
Definition put_value (p : transport_params) (t : transport_param_id) (q : transport_params) : transport_params :=
  match t with
  | TPI_GREASE_QUIC_BIT | TPI_DISABLE_ACTIVE_MIGRATION => q
  | TPI_ORIGINAL_DEST_CID | TPI_INITIAL_SOURCE_CID | TPI_RETRY_SOURCE_CID => set_cid q t (tp_cid p t)
  | TPI_STATELESS_RESET_TOKEN => set_token q (tp_stateless_reset_token p)
  | TPI_PREFERRED_ADDRESS => set_pref q (tp_preferred_address p)
  | _ => set_num q t (tp_num p t)
  end.

Lemma pref_bytes_len a : pref_ok a -> blen (pref_bytes a) = 41 + blen (pref_cid a).
Proof.
  intros [[A1 A2] _ [B1 B2] _ [C1 C2] [D1 D2]]. unfold pref_bytes. rewrite !blen_app, !blen_be, blen_cons.
  change (blen []) with 0. lia.
Qed.

Lemma small_vint n : 0 <= n < 64 -> vint_val2bits n = 0.
Proof. intros. unfold vint_val2bits. change (Z.shiftl 1 6) with 64. change (Z.shiftl 1 14) with 16384. change (Z.shiftl 1 30) with 1073741824. unfold b2z. zcase; lia. Qed.

Lemma write_param_val v27 srv p t bs :
  tp_ok v27 srv p -> write_param v27 srv p t = Some bs ->
  bs = vint (enum_2_tpi_val t) ++ vint (blen (param_val p t)) ++ param_val p t.
Proof.
  intros [_ _ [Tl Tb] Hp Hcid _ _] E. pose proof (pref_bytes_len _ Hp) as Lp.
  assert (Hn : vint_write (Z.shiftl 1 (vint_val2bits (tp_num p t))) (vint_val2bits (vint_val2bits (tp_num p t)))
                 (Z.shiftl 1 (vint_val2bits (vint_val2bits (tp_num p t)))) = vint (blen (vint (tp_num p t)))).
  { rewrite blen_vint. unfold vint, vint_size. pose proof (vint_val2bits_range (tp_num p t)).
    pose proof (vint_size_pos (tp_num p t)) as Hs. unfold vint_size in Hs.
    rewrite (small_vint (vint_val2bits (tp_num p t))) by lia.
    by rewrite (small_vint (Z.shiftl 1 (vint_val2bits (tp_num p t)))) by lia. }
  destruct t; cbn [write_param param_val] in *; try (destruct v27; [done|]); try (destruct srv; [|done]); cbn [negb orb] in E;
    injection E as <-; rewrite ?Hn; try done.
  - unfold preferred_address_size. rewrite Lp. unfold IQUIC_SRESET_TOKEN_SZ, pref_bytes. do 2 f_equal. f_equal. lia.
  - by rewrite Tl.
Qed.

Lemma read_written_vint v rest : vint_ok v -> Forall byte_ok rest ->
  exists s, lsquic_varint_read (vint v ++ rest) = Some (s, v) /\ drop (Z.to_nat s) (vint v ++ rest) = rest /\ s = blen (vint v).
Proof.
  intros Hv Hr. exists (vint_size v). rewrite blen_vint. split_and!; [|rewrite drop_app_length'; [done|]|done].
  - unfold vint, vint_size. apply varint_read_write; [apply vint_val2bits_range| |done]. pose proof (vint_val2bits_fits v Hv).
    unfold vint_ok in Hv. lia.
  - pose proof (blen_vint v) as H. unfold blen in H. lia.
Qed.

Lemma expect_app n a rest : blen a = n -> expect n (a ++ rest) = Some (a, rest).
Proof.
  intros <-. unfold expect. rewrite blen_app. pose proof (blen_nonneg rest). destruct (Z.ltb_spec (blen a + blen rest) (blen a)); [lia|].
  unfold blen. by rewrite Nat2Z.id, take_app_length, drop_app_length.
Qed.

Lemma be_port x : is_u 16 x -> be_val (be_bytes 2 x) = x.
Proof. intros. rewrite be_val_be_bytes. apply Z.mod_small. apply H. Qed.

Lemma decode_pref_ok p q : pref_ok (tp_preferred_address p) ->
  decode_pref (pref_bytes (tp_preferred_address p)) q = Some (set_pref q (tp_preferred_address p)).
Proof.
  intros [[A1 A2] A3 [B1 B2] B3 [C1 C2] [D1 D2]]. unfold decode_pref, pref_bytes. destruct (tp_preferred_address p) as [i4 p4 i6 p6 c s].
  cbn [ipv4_addr ipv4_port ipv6_addr ipv6_port pref_cid srst] in *.
  rewrite expect_app by done. cbn [mbind option_bind]. rewrite expect_app by apply blen_be. cbn [mbind option_bind].
  rewrite expect_app by done. cbn [mbind option_bind]. rewrite expect_app by apply blen_be. cbn [mbind option_bind].
  rewrite expect_app by done. cbn [mbind option_bind]. change (be_val [blen c]) with (0 * 256 + blen c). rewrite Z.add_0_l.
  destruct (Z.ltb_spec MAX_CID_LEN (blen c)); [lia|]. rewrite expect_app by done. cbn [mbind option_bind].
  assert (expect IQUIC_SRESET_TOKEN_SZ s = Some (s, [])) as -> by (rewrite <- (app_nil_r s) at 1; by apply expect_app).
  cbn [mbind option_bind]. by rewrite !be_port by done.
Qed.

Lemma vint_val_len v : blen (vint v) ∈ [1; 2; 4; 8].
Proof.
  rewrite blen_vint. unfold vint_size. pose proof (vint_val2bits_range v).
  assert (vint_val2bits v = 0 \/ vint_val2bits v = 1 \/ vint_val2bits v = 2 \/ vint_val2bits v = 3) as Hb by lia.
  rewrite !elem_of_cons. destruct Hb as [-> | [-> | [-> | ->]]]; cbn; tauto.
Qed.

Lemma max_vint t : 0 <= max_vals t <= VINT_MAX_VALUE /\ 0 <= min_vals t.
Proof. destruct t; vm_compute; split; congruence || (split; congruence). Qed.

Lemma decode_numeric_ok p t q : min_vals t <= tp_num p t <= max_vals t ->
  decode_numeric t (vint (tp_num p t)) q = Some (set_num q t (tp_num p t)).
Proof.
  intros Hr. pose proof (max_vint t). unfold decode_numeric. rewrite bool_decide_eq_true_2 by apply vint_val_len.
  destruct (read_written_vint (tp_num p t) []) as (s & E & _ & Es); [unfold vint_ok; lia|constructor|]. rewrite app_nil_r in E. rewrite E, Es, Z.eqb_refl.
  destruct (Z.ltb_spec (max_vals t) (tp_num p t)); [lia|]. destruct (Z.ltb_spec (tp_num p t) (min_vals t)); [lia|done].
Qed.

Lemma decode_value_ok v27 srv p t q :
  tp_ok v27 srv p -> may_write v27 srv t = true -> has (tp_set p) t = true ->
  decode_value v27 srv t (param_val p t) q = Some (put_value p t q).
Proof.
  intros Hok Hm Hset. pose proof Hok as [_ Hnum [Tl Tb] Hp Hcid _ _]. pose proof (Hcid t) as [Hc _].
  assert (Hdc : decode_cid t (tp_cid p t) q = Some (set_cid q t (tp_cid p t))).
  { unfold decode_cid. by destruct (Z.ltb_spec MAX_CID_LEN (blen (tp_cid p t))); [lia|]. }
  destruct t; cbn [decode_value param_val put_value];
    try (apply decode_numeric_ok, Hnum; [apply (bool_decide_unpack _); by vm_compute|done]);
    destruct v27, srv; try done; cbn [negb orb]; try (by apply decode_pref_ok).
  all: by rewrite Tl.
Qed.

Lemma param_val_ok v27 srv p t : tp_ok v27 srv p -> may_write v27 srv t = true ->
  exists bs, write_param v27 srv p t = Some bs
  /\ bs = vint (enum_2_tpi_val t) ++ vint (blen (param_val p t)) ++ param_val p t
  /\ vint_ok (blen (param_val p t)) /\ Forall byte_ok bs /\ Forall byte_ok (param_val p t).
Proof.
  intros Hok Hm. destruct (write_param_ok v27 srv p t Hok Hm) as (bs & E & Hl & Hb). exists bs.
  pose proof (write_param_val _ _ _ _ _ Hok E) as ->. pose proof Hb as Hv. rewrite !Forall_app in Hv. split_and!; try done; [|apply Hv].
  destruct Hok as [_ _ [Tl _] Hp Hcid _ _]. pose proof (Hcid t) as [Hc _]. unfold vint_ok. pose proof (blen_nonneg (param_val p t)).
  change VINT_MAX_VALUE with (2 ^ 62 - 1). enough (blen (param_val p t) <= 61) by lia. unfold MAX_CID_LEN in Hc.
  pose proof (pref_bytes_len _ Hp). pose proof (po_cid _ Hp) as [Hpc _]. unfold MAX_CID_LEN in Hpc.
  destruct t; cbn [param_val]; try lia;
    try (rewrite blen_vint; match goal with |- vint_size ?v <= _ => pose proof (vint_size_pos v) end; lia).
  all: unfold blen; cbn; lia.
Qed.

Lemma decode_step_ok v27 srv p t q ids rest bs :
  tp_ok v27 srv p -> may_write v27 srv t = true -> has (tp_set p) t = true -> has ids t = false ->
  write_param v27 srv p t = Some bs -> Forall byte_ok rest ->
  decode_step v27 srv (bs ++ rest) ids q = Some (rest, Z.lor ids (tpi_bit t), set_present (put_value p t q) t).
Proof.
  intros Hok Hm Hset Hid E Hr. destruct (param_val_ok v27 srv p t Hok Hm) as (bs' & E' & -> & Hl & Hb & Hbv).
  rewrite E in E'. injection E' as ->. unfold decode_step. rewrite <- !app_assoc.
  destruct (read_written_vint (enum_2_tpi_val t) (vint (blen (param_val p t)) ++ param_val p t ++ rest)) as (s & -> & Ed & _);
    [apply tpi_val_ok|rewrite !Forall_app; auto using vint_bytes|]. cbn [mbind option_bind]. rewrite Ed. clear Ed.
  destruct (read_written_vint (blen (param_val p t)) (param_val p t ++ rest)) as (s2 & -> & Ed & _);
    [done|by rewrite Forall_app|]. cbn [mbind option_bind]. rewrite Ed. clear Ed.
  rewrite blen_app. pose proof (blen_nonneg rest).
  destruct (Z.ltb_spec (blen (param_val p t) + blen rest) (blen (param_val p t))); [lia|].
  unfold blen at 1 2. rewrite Nat2Z.id, take_app_length, drop_app_length, tpi_val_enum, Hid.
  rewrite (decode_value_ok v27 srv) by done. done.
Qed.

(** Everything that was written, stored in [q]. *)
Definition put_all (p : transport_params) (set : Z) (ts : list transport_param_id) (q : transport_params) : transport_params :=
  foldl (fun q t => if has set t then set_present (put_value p t q) t else q) q ts.

Lemma put_all_cons p set t ts q :
  put_all p set (t :: ts) q = put_all p set ts (if has set t then set_present (put_value p t q) t else q).
Proof. reflexivity. Qed.

Lemma decode_loop_ok v27 srv p set : tp_ok v27 srv p -> may_write_all v27 srv set ->
  (forall t, has set t = true -> has (tp_set p) t = true) ->
  forall ts fuel q ids bs, NoDup ts -> (forall t, t ∈ ts -> has ids t = false) ->
  write_params v27 srv p set ts = Some bs -> Forall byte_ok bs -> (length bs <= fuel)%nat ->
  decode_loop fuel v27 srv bs ids q = Some (Some (put_all p set ts q)).
Proof.
  intros Hok Hm Hsub. induction ts as [|t ts IH]; intros fuel q ids bs Hnd Hids E Hb Hf; cbn [write_params] in E.
  { injection E as <-. by destruct fuel. }
  apply NoDup_cons in Hnd as [Hni Hnd]. rewrite put_all_cons.
  destruct (has set t) eqn:Es.
  2: { apply IH with (ids := ids); try done. intros t' Ht'. apply Hids. by right. }
  destruct (write_param v27 srv p t) as [b|] eqn:Eb; [|done]. cbn [mbind option_bind] in E.
  destruct (write_params v27 srv p set ts) as [bs'|] eqn:Ew; [|done]. injection E as <-.
  apply Forall_app in Hb as [Hb1 Hb2]. rewrite length_app in Hf.
  destruct (param_val_ok v27 srv p t Hok (Hm t Es)) as (b' & Eb' & Hbs & _). rewrite Eb in Eb'. injection Eb' as <-.
  assert (Hpos : (0 < length b)%nat).
  { pose proof (blen_vint (enum_2_tpi_val t)) as Hv. pose proof (vint_size_pos (enum_2_tpi_val t)).
    rewrite Hbs, length_app. unfold blen in Hv. lia. }
  destruct fuel as [|fuel]; [lia|]. destruct (b ++ bs') as [|z zs] eqn:Ez; [apply app_nil in Ez as [-> _]; cbn in Hpos; lia|]. cbn [decode_loop]. rewrite <- Ez.
  rewrite (decode_step_ok v27 srv p t) by (try done; try (by apply Hm); try (by apply Hsub); apply Hids; left). apply IH; try done; [|lia].
  intros t' Ht'. rewrite has_lor, Hids by (by right). apply bool_decide_eq_false_2. by intros ->.
Qed.

Definition shape (q : transport_params) : Prop := length (tp_numerics q) = 16%nat /\ length (tp_cids q) = 3%nat.

Lemma put_shape p t q : shape q -> shape (put_value p t q).
Proof. unfold shape. destruct t; cbn; rewrite ?length_insert; done. Qed.

(** A field that belongs to the parameter [t0] is changed by it only. *)
Lemma put_all_field {A} (f : transport_params -> A) (t0 : transport_param_id) p set :
  (forall t q, shape q -> f (put_value p t q) = if bool_decide (t = t0) then f p else f q) ->
  (forall t q, f (set_present q t) = f q) ->
  forall ts q, shape q ->
  f (put_all p set ts q) = (if has set t0 && bool_decide (t0 ∈ ts) then f p else f q) /\ shape (put_all p set ts q).
Proof.
  intros Hput Hpres. induction ts as [|t ts IH]; intros q Hq.
  { rewrite bool_decide_eq_false_2, andb_false_r by apply not_elem_of_nil. done. }
  rewrite put_all_cons. destruct (IH (if has set t then set_present (put_value p t q) t else q)) as [-> ?].
  { destruct (has set t); [by apply (put_shape p t q)|done]. }
  split; [|done].
  assert (bool_decide (t0 ∈ t :: ts) = bool_decide (t = t0) || bool_decide (t0 ∈ ts)) as ->.
  { rewrite <- bool_decide_or. apply bool_decide_ext. rewrite elem_of_cons. by split; intros [->|]; auto. }
  destruct (bool_decide_reflect (t0 ∈ ts)), (has set t0) eqn:E0; rewrite ?orb_true_r, ?orb_false_r; try done; cbn [andb].
  - destruct (has set t) eqn:Et; [|done]. rewrite Hpres, Hput, bool_decide_eq_false_2 by (done || congruence). done.
  - destruct (has set t) eqn:Et.
    + by rewrite Hpres, Hput.
    + rewrite bool_decide_eq_false_2; [done|congruence].
  - destruct (has set t) eqn:Et; [|done]. rewrite Hpres, Hput, bool_decide_eq_false_2 by (done || congruence). done.
Qed.

Lemma put_all_set p set ts q t : has (tp_set (put_all p set ts q)) t = has (tp_set q) t || (has set t && bool_decide (t ∈ ts)).
Proof.
  revert q. induction ts as [|t' ts IH]; intros q.
  { rewrite bool_decide_eq_false_2, andb_false_r, orb_false_r by apply not_elem_of_nil. done. }
  rewrite put_all_cons, IH.
  assert (bool_decide (t ∈ t' :: ts) = bool_decide (t' = t) || bool_decide (t ∈ ts)) as ->.
  { rewrite <- bool_decide_or. apply bool_decide_ext. rewrite elem_of_cons. by split; intros [->|]; auto. }
  assert (Hs : forall q, tp_set (put_value p t' q) = tp_set q) by (intros; by destruct t').
  destruct (bool_decide_reflect (t' = t)) as [->|Hne].
  - destruct (has set t); cbn [andb orb]; [|by rewrite !orb_false_r]. cbn [set_present tp_set].
    by rewrite has_lor, Hs, bool_decide_eq_true_2, !orb_true_r by done.
  - destruct (has set t'); [|done]. cbn [set_present tp_set]. rewrite has_lor, Hs, bool_decide_eq_false_2 by done. by rewrite orb_false_r.
Qed.

Lemma in_all t : t ∈ all_tpis.
Proof. assert (bool_decide (t ∈ all_tpis) = true) as H%bool_decide_eq_true_1 by (by destruct t). done. Qed.

Lemma num_field p t0 : t0 ∈ numeric_tpis -> forall t q, shape q ->
  tp_num (put_value p t q) t0 = if bool_decide (t = t0) then tp_num p t0 else tp_num q t0.
Proof.
  intros Hn t q [Hl _]. assert (bool_decide (t0 ∈ numeric_tpis) = true) as B by (by apply bool_decide_eq_true_2).
  assert (Hi : (tpi_idx t0 < 16)%nat) by (clear -B; destruct t0; cbn; first [lia|by vm_compute in B]).
  assert (Hset : tp_num (set_num q t (tp_num p t)) t0 = if bool_decide (t = t0) then tp_num p t0 else tp_num q t0).
  { unfold tp_num, set_num. cbn [tp_numerics]. destruct (bool_decide_reflect (t = t0)) as [->|Hne].
    - by rewrite list_lookup_insert_eq by lia.
    - rewrite list_lookup_insert_ne; [done|]. intros E%tpi_idx_inj. done. }
  destruct t; cbn [put_value]; try exact Hset.
  all: rewrite bool_decide_eq_false_2; [done|by intros <-].
Qed.

Lemma cid_field p t0 : t0 ∈ [TPI_ORIGINAL_DEST_CID; TPI_INITIAL_SOURCE_CID; TPI_RETRY_SOURCE_CID] -> forall t q, shape q ->
  tp_cid (put_value p t q) t0 = if bool_decide (t = t0) then tp_cid p t0 else tp_cid q t0.
Proof.
  intros Hn t q [_ Hl]. rewrite !elem_of_cons, elem_of_nil in Hn. destruct (tp_cids q) as [|c0 [|c1 [|c2 [|]]]] eqn:Eq; try done.
  destruct Hn as [-> | [-> | [-> | []]]]; destruct t; unfold tp_cid; cbn; rewrite ?Eq; done.
Qed.

Lemma put_all_agrees p set : written p numeric_tpis (tp_set p) set -> tp_agrees p (put_all p set all_tpis TP_INITIALIZER).
Proof.
  intros Hw. assert (Hsh : shape TP_INITIALIZER) by done.
  assert (Hset : forall t, is_numeric t = false -> has set t && bool_decide (t ∈ all_tpis) = has (tp_set p) t).
  { intros t Ht. rewrite (bool_decide_eq_true_2 (t ∈ all_tpis)) by apply in_all. unfold is_numeric in Ht.
    by rewrite Hw, Ht, !andb_true_r. }
  split.
  - intros t Ht. rewrite (proj1 (put_all_field (fun q => tp_num q t) t p set (num_field p t Ht) ltac:(done) all_tpis _ Hsh)).
    rewrite (bool_decide_eq_true_2 (t ∈ all_tpis)), andb_true_r, Hw, bool_decide_eq_true_2 by (done || apply in_all).
    assert (Hdef : tp_num TP_INITIALIZER t = def_vals t) by (by destruct t). unfold effective. rewrite Hdef.
    destruct (has (tp_set p) t); [|done]. unfold defaulted. destruct (bool_decide _); [|done]. cbn [andb].
    destruct (Z.eqb_spec (tp_num p t) (def_vals t)); done.
  - rewrite <- (Hset TPI_STATELESS_RESET_TOKEN) by done.
    apply (put_all_field tp_stateless_reset_token); try done. intros t q _. by destruct t.
  - rewrite <- (Hset TPI_PREFERRED_ADDRESS) by done.
    apply (put_all_field tp_preferred_address); try done. intros t q _. by destruct t.
  - intros t Ht. assert (E0 : tp_cid TP_INITIALIZER t = []).
    { rewrite !elem_of_cons, elem_of_nil in Ht. by destruct Ht as [-> | [-> | [-> | []]]]. }
    rewrite (proj1 (put_all_field (fun q => tp_cid q t) t p set (cid_field p t Ht) ltac:(done) all_tpis _ Hsh)), E0.
    rewrite Hset; [done|]. rewrite !elem_of_cons, elem_of_nil in Ht. by destruct Ht as [-> | [-> | [-> | []]]].
  - intros t. rewrite put_all_set, Hw, (bool_decide_eq_true_2 (t ∈ all_tpis)), andb_true_r by apply in_all.
    assert (has (tp_set TP_INITIALIZER) t = bool_decide (t ∈ num_with_def_tpis)) as -> by (by destruct t).
    unfold defaulted. destruct (bool_decide_reflect (t ∈ num_with_def_tpis)) as [Hd|]; [by rewrite orb_true_r|].
    cbn [andb]. by rewrite andb_false_r, andb_true_r, orb_false_r.
Qed.

Lemma agrees_delay v27 srv p q t : tp_ok v27 srv p -> tp_agrees p q ->
  t = TPI_MIN_ACK_DELAY \/ t = TPI_MIN_ACK_DELAY_02 -> min_delay_bad q t = false.
Proof.
  intros Hok Ha Ht. assert (Hnt : t ∈ numeric_tpis /\ t ∉ num_with_def_tpis).
  { destruct Ht as [-> | ->]; split; apply (bool_decide_unpack _); by vm_compute. }
  unfold min_delay_bad. rewrite (ta_set _ _ Ha), (bool_decide_eq_false_2 (t ∈ num_with_def_tpis)), orb_false_r by apply Hnt.
  destruct (has (tp_set p) t) eqn:E; [|done]. cbn [andb]. apply Z.ltb_ge.
  assert (Hm : TPI_MAX_ACK_DELAY ∈ numeric_tpis) by (apply (bool_decide_unpack _); by vm_compute).
  rewrite !(ta_num _ _ Ha) by (done || apply Hnt). pose proof (to_delay _ _ _ Hok t Ht E) as Hd.
  assert (0 <= effective p TPI_MAX_ACK_DELAY <= 16383).
  { unfold effective. destruct (has (tp_set p) TPI_MAX_ACK_DELAY) eqn:Em; [|cbn; lia]. pose proof (to_num _ _ _ Hok _ Hm Em) as Hb.
    cbn in Hb. change (Z.shiftl 1 14 - 1) with 16383 in Hb. lia. }
  rewrite wrapu_id by (unfold is_u; lia). assert (effective p t = tp_num p t) as -> by (unfold effective; by rewrite E). done.
Qed.

Lemma param_need_bound v27 srv p t : tp_ok v27 srv p -> 0 <= param_need p t <= 77.
Proof.
  intros [_ _ _ Hp Hcid _ _]. pose proof (Hcid t) as [Hc _]. pose proof (po_cid _ Hp) as [Hpc _]. unfold MAX_CID_LEN in *.
  pose proof (blen_nonneg (tp_cid p t)). pose proof (blen_nonneg (pref_cid (tp_preferred_address p))).
  assert (Hv : forall v, 1 <= Z.shiftl 1 (vint_val2bits v) <= 8) by apply vint_size_pos.
  pose proof (Hv (enum_2_tpi_val t)). pose proof (Hv (tp_num p t)). pose proof (Hv (vint_val2bits (tp_num p t))).
  pose proof (Hv (blen (tp_cid p t))). pose proof (Hv IQUIC_SRESET_TOKEN_SZ). pose proof (Hv (preferred_address_size p)).
  unfold param_need, cid_need, sized_need, num_need.
  destruct t; unfold preferred_address_size, IQUIC_SRESET_TOKEN_SZ in *; lia.
Qed.

Lemma psum_bound f set ts : (forall t, 0 <= f t <= 77) -> 0 <= psum f set ts <= 77 * Z.of_nat (length ts).
Proof.
  intros Hf. induction ts as [|t ts IH]; cbn [length]; [cbn; lia|]. unfold psum in *. cbn [foldr]. pose proof (Hf t).
  destruct (has set t); lia.
Qed.

Lemma roundtrip_ok v27 srv p bufsz :
  tp_ok v27 srv p -> may_write_all v27 srv (tp_set p) ->
  exists bs q, tp_encode v27 srv p bufsz = Some (if blen bs <=? bufsz then Some bs else None)
    /\ tp_decode v27 srv bs = Some (Some q) /\ tp_agrees p q.
Proof.
  intros Hok Hm. destruct (encode_ok v27 srv p bufsz Hok Hm) as (set & bs & Hw & Hbs & Hl & Hb & E).
  exists bs, (put_all p set all_tpis TP_INITIALIZER). pose proof (put_all_agrees p set Hw) as Ha. split_and!; [|..|done].
  - rewrite E, <- Hl. pose proof (psum_bound (param_need p) set all_tpis (fun t => param_need_bound v27 srv p t Hok)) as Hbd.
    fold (tp_size p set) in Hbd. rewrite <- Hl in Hbd. change (length all_tpis) with 23%nat in Hbd. unfold UINT16_MAX.
    destruct (Z.ltb_spec 65535 (blen bs)); [lia|]. rewrite orb_false_r. do 2 f_equal.
    destruct (Z.ltb_spec bufsz (blen bs)), (Z.leb_spec (blen bs) bufsz); done || lia.
  - assert (Hsub : forall t, has set t = true -> has (tp_set p) t = true).
    { intros t. rewrite Hw. by destruct (has (tp_set p) t). }
    unfold tp_decode. rewrite (decode_loop_ok v27 srv p set Hok (fun t H => Hm t (Hsub t H)) Hsub all_tpis);
      auto using all_tpis_nodup, has_zero.
    rewrite !(agrees_delay v27 srv p) by auto. done.
Qed.

(** ** Decoding arbitrary bytes *)

Lemma expect_inv n q a q' : 0 <= n -> Forall byte_ok q -> expect n q = Some (a, q') -> bytes n a /\ Forall byte_ok q'.
Proof.
  intros Hn Hq. unfold expect. destruct (Z.ltb_spec (blen q) n); [done|]. intros [= <- <-]. unfold bytes, blen in *.
  rewrite length_take. split_and!; [lia|by apply Forall_take|by apply Forall_drop].
Qed.

Lemma be_val_u16 l : bytes 2 l -> is_u 16 (be_val l).
Proof. intros [Hl Hb]. pose proof (be_val_bound l Hb) as H. unfold blen in Hl. rewrite Hl in H. done. Qed.

Ltac read_next H :=
  match type of H with
  | (expect ?n ?q ≫= _) = _ =>
    let a := fresh "a" in let q' := fresh "q" in let E := fresh "E" in
    destruct (expect n q) as [[a q']|] eqn:E; [|done]; cbn [mbind option_bind] in H;
    apply expect_inv in E as [? ?]; [|(done || lia)|done]
  end.

Lemma decode_pref_inv val p p' : Forall byte_ok val -> decode_pref val p = Some p' ->
  exists a, p' = set_pref p a /\ pref_ok a.
Proof.
  intros Hb H. unfold decode_pref in H. do 5 read_next H.
  assert (0 <= be_val a3).
  { destruct (be_val_bound a3); [|done]. by match goal with H : bytes 1 a3 |- _ => destruct H end. }
  destruct (Z.ltb_spec MAX_CID_LEN (be_val a3)); [done|]. do 2 read_next H. destruct (blen _ =? 0); [|done].
  injection H as <-. eexists. split; [reflexivity|]. split; cbn; try done; try by apply be_val_u16.
  match goal with H : bytes (be_val a3) ?c |- _ => destruct H end. split; [lia|done].
Qed.

(** What decoding the value of [t] does. *)
Record val_spec (v27 is_server : bool) (t : transport_param_id) (p p' : transport_params) : Prop := {
  vs_shape : shape p';
  vs_set : tp_set p' = tp_set p;
  vs_num : forall t', t' ∈ numeric_tpis ->
    tp_num p' t' = tp_num p t' /\ t' ≠ t \/ t' = t /\ min_vals t <= tp_num p' t <= max_vals t;
  vs_token : tp_stateless_reset_token p' = tp_stateless_reset_token p
    \/ t = TPI_STATELESS_RESET_TOKEN /\ bytes 16 (tp_stateless_reset_token p');
  vs_pref : tp_preferred_address p' = tp_preferred_address p
    \/ t = TPI_PREFERRED_ADDRESS /\ pref_ok (tp_preferred_address p');
  vs_cids : tp_cids p' = tp_cids p
    \/ exists c, cid_ok c /\ tp_cids p' = <[TP_CID_IDX t := c]> (tp_cids p)
       /\ t ∈ [TPI_ORIGINAL_DEST_CID; TPI_INITIAL_SOURCE_CID; TPI_RETRY_SOURCE_CID];
  vs_server : server_only v27 t = true -> is_server = true
}.

Lemma decode_numeric_inv t val p p' : t ∈ numeric_tpis -> Forall byte_ok val -> shape p ->
  decode_numeric t val p = Some p' -> exists v, p' = set_num p t v /\ min_vals t <= v <= max_vals t /\ tp_num p' t = v.
Proof.
  intros Ht Hb [Hsh _] H. unfold decode_numeric in H. destruct (bool_decide _); [|done].
  destruct (lsquic_varint_read val) as [[s v]|]; [|done]. destruct (s =? blen val); [|done].
  destruct (Z.ltb_spec (max_vals t) v); [done|]. destruct (Z.ltb_spec v (min_vals t)); [done|]. injection H as <-.
  exists v. split_and!; try done. unfold tp_num, set_num. cbn [tp_numerics]. rewrite list_lookup_insert_eq; [done|].
  assert (bool_decide (t ∈ numeric_tpis) = true) as B by (by apply bool_decide_eq_true_2). rewrite Hsh.
  clear -B. destruct t; cbn; first [lia|by vm_compute in B].
Qed.

Lemma decode_value_inv v27 srv t val p p' : Forall byte_ok val -> shape p ->
  decode_value v27 srv t val p = Some p' -> val_spec v27 srv t p p'.
Proof.
  intros Hb Hsh H.
  assert (Hnum : t ∈ numeric_tpis -> decode_numeric t val p = Some p' -> val_spec v27 srv t p p').
  { intros Ht E. destruct (decode_numeric_inv t val p p' Ht Hb Hsh E) as (v & -> & Hr & Hv).
    split; cbn; try (by left); try done.
    - unfold shape in *. cbn. by rewrite length_insert.
    - intros t' Ht'. destruct (decide (t' = t)) as [->|Hne]; [right; by rewrite Hv|left]. split; [|done].
      unfold tp_num. cbn [set_num tp_numerics]. rewrite list_lookup_insert_ne; [done|]. by intros E'%tpi_idx_inj.
    - intros Hs. assert (bool_decide (t ∈ numeric_tpis) = true) as B by (by apply bool_decide_eq_true_2). by destruct t. }
  assert (Hother : forall p', is_numeric t = false -> tp_numerics p' = tp_numerics p ->
    (forall t', t' ∈ numeric_tpis -> tp_num p' t' = tp_num p t' /\ t' ≠ t \/ t' = t /\ min_vals t <= tp_num p' t <= max_vals t)).
  { intros p1 Ht E t' Ht'. left. unfold tp_num. rewrite E. split; [done|]. intros ->. unfold is_numeric in Ht.
    by rewrite bool_decide_eq_true_2 in Ht. }
  assert (Hcid : t ∈ [TPI_ORIGINAL_DEST_CID; TPI_INITIAL_SOURCE_CID; TPI_RETRY_SOURCE_CID] -> (server_only v27 t = true -> srv = true) ->
    decode_cid t val p = Some p' -> val_spec v27 srv t p p').
  { intros Ht Hsv E. unfold decode_cid in E. destruct (Z.ltb_spec MAX_CID_LEN (blen val)); [done|]. injection E as <-.
    assert (is_numeric t = false) by (rewrite !elem_of_cons, elem_of_nil in Ht; by destruct Ht as [-> | [-> | [-> | []]]]).
    split; cbn; try (by left); try done.
    - unfold shape in *. cbn. by rewrite length_insert.
    - by apply (Hother (set_cid p t val)).
    - right. exists val. done. }
  assert (Hsame : is_numeric t = false -> p' = p -> (server_only v27 t = true -> srv = true) -> val_spec v27 srv t p p').
  { intros Hn -> Hsv. split; try (by left); try done. by apply Hother. }
  destruct t; cbn [decode_value] in H; try (apply Hnum; [apply (bool_decide_unpack _); by vm_compute|done]).
  - destruct (v27 || _); [|done]. injection H as <-. by apply Hsame.
  - destruct (_ =? _); [|done]. injection H as <-. by apply Hsame.
  - destruct srv; [|done]. destruct (decode_pref_inv val p p' Hb H) as (a & -> & Ha).
    split; cbn; try (by left); try done; [by apply (Hother (set_pref p a))|by right].
  - destruct srv; [|done]. apply Hcid; [apply (bool_decide_unpack _); by vm_compute|done|done].
  - destruct v27; [injection H as <-; by apply Hsame|]. apply Hcid; [apply (bool_decide_unpack _); by vm_compute|done|done].
  - destruct v27; [injection H as <-; by apply Hsame|]. destruct srv; [|done].
    apply Hcid; [apply (bool_decide_unpack _); by vm_compute|done|done].
  - destruct srv; [|done]. cbn [negb] in H. destruct (Z.eqb_spec (blen val) IQUIC_SRESET_TOKEN_SZ); [|done]. injection H as <-.
    split; cbn; try (by left); try done; [by apply (Hother (set_token p val))|by right].
Qed.

(** What holds of the parameters while they are decoded: those that are set
    have valid values, the others their initial ones. *)
Record dec_inv (v27 is_server : bool) (p : transport_params) : Prop := {
  dv_shape : shape p;
  dv_set : is_u 23 (tp_set p);
  dv_num : forall t, t ∈ numeric_tpis ->
    if has (tp_set p) t then min_vals t <= tp_num p t <= max_vals t else tp_num p t = def_vals t;
  dv_def : forall t, t ∈ num_with_def_tpis -> has (tp_set p) t = true;
  dv_token : bytes 16 (tp_stateless_reset_token p);
  dv_untok : has (tp_set p) TPI_STATELESS_RESET_TOKEN = false ->
    tp_stateless_reset_token p = tp_stateless_reset_token TP_INITIALIZER;
  dv_pref : pref_ok (tp_preferred_address p);
  dv_unpref : has (tp_set p) TPI_PREFERRED_ADDRESS = false -> tp_preferred_address p = tp_preferred_address TP_INITIALIZER;
  dv_cids : Forall cid_ok (tp_cids p);
  dv_unset : forall t, t ∈ [TPI_ORIGINAL_DEST_CID; TPI_INITIAL_SOURCE_CID; TPI_RETRY_SOURCE_CID] ->
    has (tp_set p) t = false -> tp_cid p t = [];
  dv_server : is_server = false -> forall t, server_only v27 t = true -> has (tp_set p) t = false
}.

Lemma init_inv v27 srv : dec_inv v27 srv TP_INITIALIZER.
Proof.
  assert (Hz : forall n, Forall byte_ok (replicate n 0)) by (intros n; apply Forall_replicate; unfold byte_ok; lia).
  split; try done.
  - intros t Ht. assert (bool_decide (t ∈ numeric_tpis) = true) as B by (by apply bool_decide_eq_true_2).
    clear Ht. destruct t; vm_compute in B |- *; done.
  - intros t Ht. assert (bool_decide (t ∈ num_with_def_tpis) = true) as B by (by apply bool_decide_eq_true_2). by destruct t.
  - split; [done|]. apply (Hz 16%nat).
  - split; cbn; try done; split; try done; [apply (Hz 4%nat)|apply (Hz 16%nat)|apply (Hz 16%nat)].
  - by repeat constructor.
  - intros t Ht _. rewrite !elem_of_cons, elem_of_nil in Ht. by destruct Ht as [-> | [-> | [-> | []]]].
  - intros _ t Ht. by destruct t.
Qed.

Lemma tpi_bit_u t : is_u 23 (tpi_bit t).
Proof. by destruct t. Qed.

Lemma decode_value_step v27 srv t p p' : dec_inv v27 srv p -> val_spec v27 srv t p p' -> dec_inv v27 srv (set_present p' t).
Proof.
  intros [] [Hsh Hset Hnum Htok Hpref Hcids Hsrv]. cbn in Hset.
  assert (Hhas : forall t', has (tp_set (set_present p' t)) t' = has (tp_set p) t' || bool_decide (t = t')).
  { intros t'. cbn. by rewrite has_lor, Hset. }
  split; cbn [set_present tp_stateless_reset_token tp_preferred_address tp_cids]; try done.
  - cbn. apply is_u_lor; [lia|by rewrite Hset|apply tpi_bit_u].
  - intros t' Ht'. rewrite Hhas. specialize (dv_num0 t' Ht'). change (tp_num (set_present p' t) t') with (tp_num p' t').
    destruct (Hnum t' Ht') as [[-> Hne]|[-> Hr]].
    + rewrite (bool_decide_eq_false_2 (t = t')), orb_false_r by done. done.
    + by rewrite bool_decide_eq_true_2, orb_true_r by done.
  - intros t' Ht'. rewrite Hhas, dv_def0; done.
  - destruct Htok as [-> | [_ ?]]; done.
  - rewrite Hhas. intros [Hf Hn]%orb_false_iff. apply bool_decide_eq_false_1 in Hn. destruct Htok as [-> | [? _]]; [auto|done].
  - destruct Hpref as [-> | [_ ?]]; done.
  - rewrite Hhas. intros [Hf Hn]%orb_false_iff. apply bool_decide_eq_false_1 in Hn. destruct Hpref as [-> | [? _]]; [auto|done].
  - destruct Hcids as [-> | (c & Hc & -> & _)]; [done|]. by apply Forall_insert.
  - intros t' Ht'. rewrite Hhas. intros [Hf Hn]%orb_false_iff. apply bool_decide_eq_false_1 in Hn.
    specialize (dv_unset0 t' Ht' Hf). unfold tp_cid in *. cbn [set_present tp_cids].
    destruct Hcids as [-> | (c & Hc & -> & Ht)]; [done|]. rewrite list_lookup_insert_ne; [done|]. unfold TP_CID_IDX.
    rewrite !elem_of_cons, elem_of_nil in Ht, Ht'. intros E.
    destruct Ht as [-> | [-> | [-> | []]]], Ht' as [-> | [-> | [-> | []]]]; done.
  - intros Hs t' Ht'. rewrite Hhas, dv_server0 by done. cbn. apply bool_decide_eq_false_2. intros ->. specialize (Hsrv Ht'). congruence.
Qed.

Lemma decode_step_inv v27 srv buf ids p buf' ids' p' : Forall byte_ok buf -> dec_inv v27 srv p ->
  decode_step v27 srv buf ids p = Some (buf', ids', p') ->
  (length buf' < length buf)%nat /\ Forall byte_ok buf' /\ dec_inv v27 srv p'.
Proof.
  intros Hb Hi H. unfold decode_step in H. destruct (lsquic_varint_read buf) as [[s id]|] eqn:E1; [|done]. cbn [mbind option_bind] in H.
  destruct (varint_read_inv _ _ _ Hb E1) as (b1 & Hb1 & Hs1 & _ & Hl1).
  assert (1 <= s) by (rewrite Hs1, Z.shiftl_1_l; apply (Z.pow_le_mono_r 2 0); lia).
  set (buf1 := drop (Z.to_nat s) buf) in *. assert (Hb2 : Forall byte_ok buf1) by (by apply Forall_drop).
  assert (Hlen : (length buf1 < length buf)%nat) by (unfold buf1; rewrite length_drop; lia).
  destruct (lsquic_varint_read buf1) as [[s2 len]|]; [|done]. cbn [mbind option_bind] in H.
  set (buf2 := drop (Z.to_nat s2) buf1) in *. assert (Hb3 : Forall byte_ok buf2) by (by apply Forall_drop).
  assert (Hlen2 : (length buf2 <= length buf1)%nat) by (unfold buf2; rewrite length_drop; lia).
  destruct (blen buf2 <? len); [done|].
  assert (Hd : (length (drop (Z.to_nat len) buf2) < length buf)%nat /\ Forall byte_ok (drop (Z.to_nat len) buf2)).
  { rewrite length_drop. split; [lia|by apply Forall_drop]. }
  destruct (tpi_val_2_enum id) as [t|].
  - destruct (has ids t); [done|]. destruct (decode_value v27 srv t _ p) as [p1|] eqn:Ev; [|done]. injection H as <- <- <-.
    split_and!; try apply Hd. eapply decode_value_step; [done|]. eapply decode_value_inv; [..|done]; [by apply Forall_take|apply Hi].
  - injection H as <- <- <-. split_and!; try apply Hd. done.
Qed.

Lemma decode_loop_inv v27 srv : forall fuel buf ids p, Forall byte_ok buf -> dec_inv v27 srv p -> (length buf <= fuel)%nat ->
  exists r, decode_loop fuel v27 srv buf ids p = Some r /\ match r with Some q => dec_inv v27 srv q | None => True end.
Proof.
  induction fuel as [|fuel IH]; intros buf ids p Hb Hi Hf.
  { destruct buf; [|cbn in Hf; lia]. by exists (Some p). }
  destruct buf as [|z zs]; [by exists (Some p)|]. cbn [decode_loop].
  destruct (decode_step v27 srv (z :: zs) ids p) as [[[buf' ids'] p']|] eqn:E; [|by exists None].
  destruct (decode_step_inv _ _ _ _ _ _ _ _ Hb Hi E) as (Hl & Hb' & Hi'). apply IH; [done..|lia].
Qed.

Lemma min_delay_ok v27 srv p t : dec_inv v27 srv p -> t = TPI_MIN_ACK_DELAY \/ t = TPI_MIN_ACK_DELAY_02 ->
  min_delay_bad p t = false -> has (tp_set p) t = true -> tp_num p t <= effective p TPI_MAX_ACK_DELAY * 1000.
Proof.
  intros Hi Ht H Hs. unfold min_delay_bad in H. rewrite Hs in H. cbn [andb] in H. apply Z.ltb_ge in H.
  assert (Hm : TPI_MAX_ACK_DELAY ∈ numeric_tpis) by (apply (bool_decide_unpack _); by vm_compute).
  assert (Hd : has (tp_set p) TPI_MAX_ACK_DELAY = true) by (apply (dv_def _ _ _ Hi), (bool_decide_unpack _); by vm_compute).
  pose proof (dv_num _ _ _ Hi _ Hm) as Hr. rewrite Hd in Hr. cbn in Hr. change (Z.shiftl 1 14 - 1) with 16383 in Hr.
  unfold effective. rewrite Hd. rewrite wrapu_id in H by (unfold is_u; lia). done.
Qed.

Lemma dec_ok v27 srv p : dec_inv v27 srv p -> min_delay_bad p TPI_MIN_ACK_DELAY = false ->
  min_delay_bad p TPI_MIN_ACK_DELAY_02 = false -> tp_ok v27 srv p.
Proof.
  intros Hi H1 H2. pose proof Hi as []. split; try done.
  - intros t Ht Hs. specialize (dv_num0 t Ht). by rewrite Hs in dv_num0.
  - intros t. unfold tp_cid. destruct (tp_cids p !! TP_CID_IDX t) eqn:E; cbn; [by eapply Forall_lookup_1 in E|done].
  - intros t [-> | ->] Hs; by apply (min_delay_ok v27 srv); auto.
Qed.

(** The same parameters, whatever was on the wire. *)
Record tp_same (p q : transport_params) : Prop := {
  tm_num : forall t, t ∈ numeric_tpis -> tp_num q t = tp_num p t;
  tm_token : tp_stateless_reset_token q = tp_stateless_reset_token p;
  tm_pref : tp_preferred_address q = tp_preferred_address p;
  tm_cid : forall t, t ∈ [TPI_ORIGINAL_DEST_CID; TPI_INITIAL_SOURCE_CID; TPI_RETRY_SOURCE_CID] -> tp_cid q t = tp_cid p t;
  tm_set : forall t, has (tp_set q) t = has (tp_set p) t
}.

Lemma dec_agrees v27 srv p q : dec_inv v27 srv p -> tp_agrees p q -> tp_same p q.
Proof.
  intros [] []. split.
  - intros t Ht. rewrite ta_num0 by done. unfold effective. specialize (dv_num0 t Ht). by destruct (has (tp_set p) t).
  - rewrite ta_token0. destruct (has (tp_set p) TPI_STATELESS_RESET_TOKEN); [done|]. by rewrite dv_untok0.
  - rewrite ta_pref0. destruct (has (tp_set p) TPI_PREFERRED_ADDRESS); [done|]. by rewrite dv_unpref0.
  - intros t Ht. rewrite ta_cid0 by done. destruct (has (tp_set p) t) eqn:E; [done|]. by rewrite dv_unset0.
  - intros t. rewrite ta_set0. destruct (bool_decide_reflect (t ∈ num_with_def_tpis)) as [Hd|]; [|apply orb_false_r].
    by rewrite (dv_def0 t Hd).
Qed.

Lemma dec_may_write srv p : dec_inv false srv p -> may_write_all false srv (tp_set p).
Proof.
  intros Hi t Ht. unfold may_write. cbn [andb]. rewrite andb_true_r. destruct srv; [done|]. cbn [negb andb].
  destruct (server_only false t) eqn:E; [|done]. by rewrite (dv_server _ _ _ Hi eq_refl t E) in Ht.
Qed.

(** * Theorems *)

(** C27: Transport parameters round trip, in both encodings: whatever valid
    parameters an endpoint sets, the encoder writes them exactly when the
    buffer has room for them, and the peer decodes them to the same values,
    with the defaults for what was not set. *)
Theorem tp_roundtrip v27 srv p bufsz :
  tp_ok v27 srv p -> may_write_all v27 srv (tp_set p) ->
  exists bs q, tp_encode v27 srv p bufsz = Some (if blen bs <=? bufsz then Some bs else None)
    /\ tp_decode v27 srv bs = Some (Some q) /\ tp_agrees p q.
Proof. apply roundtrip_ok. Qed.

(** A client that sets its connection flow control limit and its source
    connection ID. *)
Definition demo_params : transport_params :=
  set_present (set_cid (set_present (set_num TP_INITIALIZER TPI_INIT_MAX_DATA 100000) TPI_INIT_MAX_DATA)
    TPI_INITIAL_SOURCE_CID [1; 2; 3]) TPI_INITIAL_SOURCE_CID.

Lemma demo_params_inv : dec_inv false false demo_params.
Proof.
  assert (Hv : forall l, forallb (fun b => (0 <=? b) && (b <? 256)) l = true -> Forall byte_ok l).
  { intros l H. apply Forall_forall. intros b Hb%list_elem_of_In. rewrite forallb_forall in H. specialize (H b Hb). unfold byte_ok. lia. }
  assert (H1 : dec_inv false false (set_present (set_num TP_INITIALIZER TPI_INIT_MAX_DATA 100000) TPI_INIT_MAX_DATA)).
  { apply (decode_value_step _ _ _ TP_INITIALIZER); [apply init_inv|].
    apply (decode_value_inv _ _ _ (vint 100000)); [by apply Hv|done|reflexivity]. }
  apply (decode_value_step _ _ _ _ _ H1). apply (decode_value_inv _ _ _ [1; 2; 3]); [by apply Hv|done|reflexivity].
Qed.

Lemma tp_roundtrip_witness :
  exists bs q, tp_encode false false demo_params 11 = Some (Some bs) /\ tp_decode false false bs = Some (Some q)
    /\ tp_num q TPI_INIT_MAX_DATA = 100000 /\ tp_cid q TPI_INITIAL_SOURCE_CID = [1; 2; 3].
Proof.
  destruct (tp_roundtrip false false demo_params 11) as (bs & q & E & D & A).
  - apply dec_ok; [exact demo_params_inv|reflexivity|reflexivity].
  - apply dec_may_write, demo_params_inv.
  - exists bs, q. split; [|split; [exact D|split]].
    + rewrite E. destruct (Z.leb_spec (blen bs) 11) as [|H]; [reflexivity|exfalso].
      vm_compute in E. destruct (blen bs <=? 11) eqn:L; [lia|discriminate].
    + rewrite (ta_num _ _ A) by (apply (bool_decide_unpack _); reflexivity). reflexivity.
    + rewrite (ta_cid _ _ A) by (apply (bool_decide_unpack _); reflexivity). reflexivity.
Defined.

(** C28: Decoded transport parameters are well formed.  On arbitrary bytes the
    decoder returns, with an error or with parameters whose values are within
    their limits, whose tokens, addresses and connection IDs have their sizes,
    and of which a client sent none that is the server's to send.  Encoding
    them again and decoding the result gives the same parameters. *)
Theorem tp_decode_wf v27 srv buf bufsz :
  Forall byte_ok buf ->
  exists r, tp_decode v27 srv buf = Some r /\
  match r with
  | None => True
  | Some p => tp_ok v27 srv p /\
      (v27 = false -> exists bs q, tp_encode false srv p bufsz = Some (if blen bs <=? bufsz then Some bs else None)
         /\ tp_decode false srv bs = Some (Some q) /\ tp_same p q)
  end.
Proof.
  intros Hb. destruct (decode_loop_inv v27 srv (length buf) buf 0 TP_INITIALIZER Hb (init_inv _ _) ltac:(lia)) as (r & E & Hr).
  unfold tp_decode. rewrite E. destruct r as [p|]; [|by exists None].
  destruct (min_delay_bad p TPI_MIN_ACK_DELAY) eqn:E1; [by exists None|].
  destruct (min_delay_bad p TPI_MIN_ACK_DELAY_02) eqn:E2; [by exists None|].
  exists (Some p). split; [done|]. pose proof (dec_ok _ _ _ Hr E1 E2) as Hok. split; [done|]. intros ->.
  destruct (roundtrip_ok false srv p bufsz Hok (dec_may_write _ _ Hr)) as (bs & q & Ee & Ed & Ha). exists bs, q.
  split_and!; try done. by apply (dec_agrees false srv).
Qed.

(** max_udp_payload_size 1400 and an unknown parameter 0x21 of two bytes. *)
Lemma tp_decode_wf_witness :
  exists p, tp_decode false true [3; 2; 0x45; 0x78; 0x21; 2; 9; 9] = Some (Some p) /\ tp_ok false true p
    /\ tp_num p TPI_MAX_UDP_PAYLOAD_SIZE = 1400.
Proof.
  destruct (tp_decode_wf false true [3; 2; 0x45; 0x78; 0x21; 2; 9; 9] 100) as (r & E & H).
  - repeat constructor; discriminate.
  - assert (r = Some (set_present (set_num TP_INITIALIZER TPI_MAX_UDP_PAYLOAD_SIZE 1400) TPI_MAX_UDP_PAYLOAD_SIZE)) as ->.
    { vm_compute in E. injection E as <-. reflexivity. }
    eexists. split; [exact E|]. split; [apply H|reflexivity].
Defined.
