(* ===== verification/Timing.v ===== *)
(** Time measurement and pacing: RTT statistics (lsquic_rtt.c), the windowed
    extremum (lsquic_minmax.c, lsquic_minmax.h) and the pacer (lsquic_pacer.c).
    Times are microseconds in 64-bit integers. *)
From S2P Require Import Prelude.
Local Open Scope Z_scope.

(** * RTT statistics *)

Record lsquic_rtt_stats := RTT { srtt : Z; rttvar : Z; min_rtt : Z }.

Definition ALPHA_SHIFT : Z := 3.
Definition BETA_SHIFT : Z := 2.

Definition lsquic_rtt_stats_update (stats : lsquic_rtt_stats) (send_delta lack_delta : Z) : lsquic_rtt_stats :=
  let send_delta := if lack_delta <? send_delta then send_delta - lack_delta else send_delta in
  if negb (srtt stats =? 0) then
    let rttvar' := u64 (rttvar stats - Z.shiftr (rttvar stats) BETA_SHIFT) in
    let rttvar' := u64 (rttvar' + Z.shiftr (Z.abs (i64 (send_delta - srtt stats))) BETA_SHIFT) in
    let srtt' := u64 (srtt stats - Z.shiftr (srtt stats) ALPHA_SHIFT) in
    let srtt' := u64 (srtt' + Z.shiftr send_delta ALPHA_SHIFT) in
    RTT srtt' rttvar' (if send_delta <? min_rtt stats then send_delta else min_rtt stats)
  else RTT send_delta (Z.shiftr send_delta 1) send_delta.

(** "This struct is initialized by setting it to zero." *)
Definition rtt_init : lsquic_rtt_stats := RTT 0 0 0.

(** * The windowed extremum *)

Record minmax_sample := MS { ms_time : Z; ms_value : Z }.

Record minmax := MM { mm_window : Z; mm_0 : minmax_sample; mm_1 : minmax_sample; mm_2 : minmax_sample }.

Definition minmax_get (m : minmax) : Z := ms_value (mm_0 m).

Definition minmax_reset (m : minmax) (s : minmax_sample) : minmax := MM (mm_window m) s s s.

Definition minmax_init (window : Z) : minmax := MM window (MS 0 0) (MS 0 0) (MS 0 0).

(** [sample.time - x.time > minmax->window] *)
Definition outdated (m : minmax) (s x : minmax_sample) : bool := mm_window m <? u64 (ms_time s - ms_time x).

Definition minmax_subwin_update (m : minmax) (s : minmax_sample) : minmax :=
  let dt := u64 (ms_time s - ms_time (mm_0 m)) in
  if mm_window m <? dt then
    let m := MM (mm_window m) (mm_1 m) (mm_2 m) s in
    if outdated m s (mm_0 m) then MM (mm_window m) (mm_1 m) (mm_2 m) s else m
  else if (ms_time (mm_1 m) =? ms_time (mm_0 m)) && (mm_window m / 4 <? dt) then MM (mm_window m) (mm_0 m) s s
  else if (ms_time (mm_2 m) =? ms_time (mm_1 m)) && (mm_window m / 2 <? dt) then MM (mm_window m) (mm_0 m) (mm_1 m) s
  else m.

(** The body of both functions; [better] is [>=] or [<=]. *)
Definition minmax_update (better : Z -> Z -> bool) (m : minmax) (now meas : Z) : minmax :=
  let s := MS now meas in
  if (ms_value (mm_0 m) =? 0) || better meas (ms_value (mm_0 m)) || outdated m s (mm_2 m) then minmax_reset m s else
  let m := if better meas (ms_value (mm_1 m)) then MM (mm_window m) (mm_0 m) s s
           else if better meas (ms_value (mm_2 m)) then MM (mm_window m) (mm_0 m) (mm_1 m) s else m in
  minmax_subwin_update m s.

Definition lsquic_minmax_update_max : minmax -> Z -> Z -> minmax := minmax_update Z.geb.
Definition lsquic_minmax_update_min : minmax -> Z -> Z -> minmax := minmax_update Z.leb.

(** * The pacer *)

(** The flags are PA_LAST_SCHED_DELAYED and PA_DELAYED_ON_TICK_IN; the counter
    of a debug build is left out. *)
Record pacer := PA {
  pa_next_sched : Z;
  pa_last_delayed : Z;
  pa_now : Z;
  pa_clock_granularity : Z;
  pa_burst_tokens : Z;
  pa_n_scheduled : Z;
  pa_last_sched_delayed : bool;
  pa_delayed_on_tick_in : bool
}.





Definition lsquic_pacer_can_schedule_probe (p : pacer) (n_in_flight tx_time : Z) : bool :=
  (1 <? pa_burst_tokens p) || (n_in_flight =? 0) || (u64 (pa_now p + tx_time / 2) <? pa_next_sched p).



(** ** RTT: bounds, the minimum, convergence *)

(** The sample the statistics see: the peer's ACK delay is taken off when it is
    the smaller number. *)
Definition adjusted (x : Z * Z) : Z := if x.2 <? x.1 then x.1 - x.2 else x.1.

Definition rtt_run (st : lsquic_rtt_stats) (l : list (Z * Z)) : lsquic_rtt_stats :=
  fold_left (fun st x => lsquic_rtt_stats_update st x.1 x.2) l st.

(** The measurements [seen] so far, in any order, lie between [lo] and [hi]. *)
Definition rtt_inv (lo hi : Z) (seen : list Z) (st : lsquic_rtt_stats) : Prop :=
  lo <= srtt st <= hi /\ 0 <= rttvar st <= Z.max (hi / 2) (hi - lo) /\
  min_rtt st ∈ seen /\ Forall (fun d => min_rtt st <= d) seen.

(** Linear arithmetic with division by constants. *)
Ltac ediv := Z.to_euclidean_division_equations; lia.

(** A difference of two 63-bit numbers keeps its sign through the casts. *)
Lemma i64_diff a b : 0 <= a < 2 ^ 63 -> 0 <= b < 2 ^ 63 -> wraps 64 (a - b) = a - b.
Proof.
  intros Ha Hb. unfold wraps. change (2 ^ (64 - 1)) with (2 ^ 63) in *.
  destruct (Z.le_gt_cases b a) as [H|H].
  - rewrite Z.mod_small by lia. ztest. reflexivity.
  - replace ((a - b) mod 2 ^ 64) with (a - b + 2 ^ 64)
      by (apply Z.mod_unique with (-1); lia).
    ztest. lia.
Qed.

(** Within 62 bits nothing wraps. *)
Lemma rtt_update_exact st s l lo hi (d := adjusted (s, l)) :
  0 < lo -> hi < 2 ^ 62 -> lo <= d <= hi -> lo <= srtt st <= hi -> 0 <= rttvar st <= hi ->
  lsquic_rtt_stats_update st s l =
  RTT (srtt st - srtt st / 8 + d / 8) (rttvar st - rttvar st / 4 + Z.abs (d - srtt st) / 4) (Z.min (min_rtt st) d).
Proof.
  intros Hlo Hhi Hd Hs Hv. unfold lsquic_rtt_stats_update.
  change (if l <? s then s - l else s) with d. clearbody d.
  replace (srtt st =? 0) with false by lia. cbn [negb].
  unfold ALPHA_SHIFT, BETA_SHIFT. rewrite !Z.shiftr_div_pow2, i64_diff by lia.
  change (2 ^ 3) with 8. change (2 ^ 2) with 4. autorewrite with cint.
  rewrite !wrapu_id by (unfold is_u; ediv). f_equal. destruct (Z.ltb_spec d (min_rtt st)); lia.
Qed.

Lemma rtt_inv_update lo hi seen st x :
  0 < lo -> hi < 2 ^ 62 -> lo <= adjusted x <= hi -> rtt_inv lo hi seen st ->
  rtt_inv lo hi (adjusted x :: seen) (lsquic_rtt_stats_update st x.1 x.2).
Proof.
  destruct x as [s l]. intros Hlo Hhi Hd (Hs & Hv & Hin & Hmin). cbn [fst snd].
  rewrite (rtt_update_exact st s l lo hi) by ediv. set (d := adjusted (s, l)) in *. clearbody d.
  unfold rtt_inv; cbn [srtt rttvar min_rtt]. split_and!; [ediv..| |].
  - destruct (Z.min_spec (min_rtt st) d) as [[_ ->]|[_ ->]]; set_solver.
  - constructor; [lia|]. eapply Forall_impl; [exact Hmin|]. cbn beta. lia.
Qed.

Lemma rtt_inv_first lo hi st x :
  0 < lo -> lo <= adjusted x <= hi -> srtt st = 0 ->
  rtt_inv lo hi [adjusted x] (lsquic_rtt_stats_update st x.1 x.2).
Proof.
  destruct x as [s l]. intros Hlo Hd H0. cbn [fst snd]. unfold lsquic_rtt_stats_update. rewrite H0.
  change (if l <? s then s - l else s) with (adjusted (s, l)). set (d := adjusted (s, l)) in *. clearbody d.
  cbn [Z.eqb negb]. unfold rtt_inv; cbn [srtt rttvar min_rtt]. rewrite Z.shiftr_div_pow2 by lia. change (2 ^ 1) with 2.
  split_and!; [ediv..|set_solver|by constructor].
Qed.

Lemma rtt_inv_run lo hi l : forall seen st,
  0 < lo -> hi < 2 ^ 62 -> Forall (fun x => lo <= adjusted x <= hi) l -> rtt_inv lo hi seen st ->
  exists seen', seen' ≡ₚ map adjusted l ++ seen /\ rtt_inv lo hi seen' (rtt_run st l).
Proof.
  induction l as [|x l IH]; intros seen st Hlo Hhi Hl Hst; [by exists seen|].
  inversion_clear Hl as [|? ? Hx Hl']. cbn [rtt_run fold_left].
  destruct (IH _ _ Hlo Hhi Hl' (rtt_inv_update _ _ _ _ _ Hlo Hhi Hx Hst)) as (seen' & Hp & Hi).
  exists seen'. split; [|exact Hi]. rewrite Hp. cbn [map app]. by rewrite Permutation_middle.
Qed.

(** Over any sequence of round-trip samples that, after the peer's ACK delay
    is taken off, lie between [lo] and [hi], the smoothed RTT stays between [lo]
    and [hi], the variation stays below the larger of [hi / 2] and [hi - lo], and
    min_rtt is the least adjusted sample: no step wraps or drifts. *)
Theorem rtt_stats_bounds lo hi x l :
  0 < lo -> hi < 2 ^ 62 -> Forall (fun x => lo <= adjusted x <= hi) (x :: l) ->
  let st := rtt_run rtt_init (x :: l) in
  lo <= srtt st <= hi /\ 0 <= rttvar st <= Z.max (hi / 2) (hi - lo) /\
  min_rtt st ∈ map adjusted (x :: l) /\ Forall (fun y => min_rtt st <= adjusted y) (x :: l).
Proof.
  intros Hlo Hhi Hl st. inversion_clear Hl as [|? ? Hx Hl'].
  destruct (rtt_inv_run lo hi l [adjusted x] (lsquic_rtt_stats_update rtt_init x.1 x.2)) as (seen & Hp & Hs & Hv & Hin & Hm);
    [assumption..|by apply rtt_inv_first|].
  change (rtt_run (lsquic_rtt_stats_update rtt_init x.1 x.2) l) with st in *.
  assert (Hp' : seen ≡ₚ map adjusted (x :: l)) by (rewrite Hp; cbn [map]; rewrite <- Permutation_cons_append; done).
  split; [exact Hs|split; [exact Hv|split]].
  - by rewrite <- Hp'.
  - rewrite Hp' in Hm. apply (proj1 (List.Forall_map _ _ _)). exact Hm.
Qed.

Lemma rtt_stats_bounds_witness :
  let st := rtt_run rtt_init [(120000, 20000); (90000, 0); (300000, 100000)] in
  90000 <= srtt st <= 200000 /\ 0 <= rttvar st <= Z.max (200000 / 2) (200000 - 90000) /\
  min_rtt st ∈ map adjusted [(120000, 20000); (90000, 0); (300000, 100000)] /\
  Forall (fun y => min_rtt st <= adjusted y) [(120000, 20000); (90000, 0); (300000, 100000)].
Proof.
  apply (rtt_stats_bounds 90000 200000 (120000, 20000) [(90000, 0); (300000, 100000)]); [lia|lia|].
  repeat constructor; vm_compute; discriminate.
Defined.

(** One step takes an eighth off the distance to the sample, up to rounding. *)
Lemma rtt_step_close st s l hi (d := adjusted (s, l)) :
  hi < 2 ^ 62 -> 0 < d <= hi -> 0 < srtt st <= hi -> 0 <= rttvar st <= hi ->
  let st' := lsquic_rtt_stats_update st s l in
  8 * (Z.abs (srtt st' - d) - 7) <= 7 * (Z.abs (srtt st - d) - 7) /\ 0 < srtt st' <= hi /\ 0 <= rttvar st' <= hi.
Proof.
  intros Hhi Hd Hs Hv st'. unfold st'. rewrite (rtt_update_exact st s l 1 hi) by lia. fold d. clearbody d.
  cbn [srtt rttvar]. ediv.
Qed.

(** When the adjusted samples are constant, the smoothed RTT converges to
    them geometrically: after [n] samples the distance, less the rounding error
    of 7 us, has shrunk by the factor [(7/8)^n]. *)
Theorem rtt_converges hi d l : forall st,
  hi < 2 ^ 62 -> 0 < d <= hi -> 0 < srtt st <= hi -> 0 <= rttvar st <= hi -> Forall (fun x => adjusted x = d) l ->
  8 ^ Z.of_nat (length l) * (Z.abs (srtt (rtt_run st l) - d) - 7) <= 7 ^ Z.of_nat (length l) * (Z.abs (srtt st - d) - 7).
Proof.
  induction l as [|[s a] l IH]; intros st Hhi Hd Hs Hv Hl; [cbn [length rtt_run fold_left]; lia|].
  inversion_clear Hl as [|? ? Hx Hl']. cbn [rtt_run fold_left fst snd length].
  destruct (rtt_step_close st s a hi) as (Hc & Hs' & Hv'); [lia..|]. rewrite Hx in Hc.
  specialize (IH _ Hhi Hd Hs' Hv' Hl'). unfold rtt_run in IH.
  rewrite Nat2Z.inj_succ, !Z.pow_succ_r by lia.
  assert (0 < 7 ^ Z.of_nat (length l)) by lia. nia.
Qed.

Lemma rtt_converges_witness :
  8 ^ 3 * (Z.abs (srtt (rtt_run (RTT 400000 1000 90000) [(100000, 0); (120000, 20000); (100000, 0)]) - 100000) - 7)
  <= 7 ^ 3 * (Z.abs (400000 - 100000) - 7).
Proof.
  apply (rtt_converges 400000 100000 [(100000, 0); (120000, 20000); (100000, 0)] (RTT 400000 1000 90000));
    [lia|lia|cbn; lia|cbn; lia|].
  repeat constructor.
Defined.

(** ** The estimate of the windowed extremum *)

(** The filter after the measurements [h], the newest first. *)
Fixpoint minmax_run (upd : minmax -> Z -> Z -> minmax) (window : Z) (h : list minmax_sample) : minmax :=
  match h with
  | [] => minmax_init window
  | s :: h => upd (minmax_run upd window h) (ms_time s) (ms_value s)
  end.

(** Measurements are taken at nondecreasing 64-bit times. *)
Fixpoint chronological (h : list minmax_sample) : Prop :=
  match h with
  | [] => True
  | s :: h => ms_time s < 2 ^ 64 /\ Forall (fun x => 0 <= ms_time x <= ms_time s) (s :: h) /\ chronological h
  end.

(** A delays preorder on measurements. *)
Class Preference (better : Z -> Z -> bool) := {
  better_total a b : better a b = false -> better b a = true;
  better_trans a b c : better a b = true -> better b c = true -> better a c = true
}.

#[export] Instance geb_preference : Preference Z.geb.
Proof. split; intros *; rewrite !Z.geb_leb; lia. Qed.

#[export] Instance leb_preference : Preference Z.leb.
Proof. split; intros *; lia. Qed.

Section minmax_spec.
Context (better : Z -> Z -> bool) `{!Preference better}.

Lemma better_refl a : better a a = true.
Proof using All. destruct (better a a) eqn:H; [done|]. pose proof (better_total a a H). congruence. Qed.

(** [s] is the [i]-th newest measurement and none since beats it. *)
Definition best_since (h : list minmax_sample) (i : nat) (s : minmax_sample) : Prop :=
  h !! i = Some s /\ forall j x, (j <= i)%nat -> h !! j = Some x -> better (ms_value s) (ms_value x) = true.

(** The three choices are suffix maxima, in order of time. *)
Definition choices (h : list minmax_sample) (m : minmax) : Prop :=
  exists i0 i1 i2, (i2 <= i1 <= i0)%nat /\
    best_since h i0 (mm_0 m) /\ best_since h i1 (mm_1 m) /\ best_since h i2 (mm_2 m).

Lemma best_since_new h s : best_since (s :: h) 0 s.
Proof using All.
  split; [done|]. intros [|j] x Hj; [|lia]. intros [= <-]. apply better_refl.
Qed.

Lemma best_since_old h i x s :
  best_since h i x -> better (ms_value x) (ms_value s) = true -> best_since (s :: h) (S i) x.
Proof using All.
  intros [Hx Hb] Hs. split; [done|]. intros [|j] y Hj; cbn; [by intros [= <-]|]. apply Hb. lia.
Qed.

Lemma best_since_mono h i j x y : best_since h i x -> best_since h j y -> (j <= i)%nat -> better (ms_value x) (ms_value y) = true.
Proof using All. intros [_ Hb] [Hy _] Hle. by apply (Hb j). Qed.

Lemma best_since_time s h i x :
  chronological (s :: h) -> best_since (s :: h) i x -> u64 (ms_time s - ms_time x) = ms_time s - ms_time x /\ ms_time x <= ms_time s.
Proof using All.
  intros (Hs & Hall & _) [Hx _]. pose proof (Forall_lookup_1 _ _ _ _ Hall Hx) as Hr. cbn beta in Hr.
  split; [|lia]. apply wrapu_id. unfold is_u. lia.
Qed.

(** The choices before the window is checked: the new measurement replaces the
    choices it beats. *)
Lemma choices_replace h m s :
  choices h m -> better (ms_value s) (ms_value (mm_0 m)) = false ->
  let m' := if better (ms_value s) (ms_value (mm_1 m)) then MM (mm_window m) (mm_0 m) s s
            else if better (ms_value s) (ms_value (mm_2 m)) then MM (mm_window m) (mm_0 m) (mm_1 m) s else m in
  choices (s :: h) m'.
Proof using All.
  intros (i0 & i1 & i2 & Hi & H0 & H1 & H2) Hb m'. apply better_total in Hb. unfold m'.
  destruct (better (ms_value s) (ms_value (mm_1 m))) eqn:E1;
    [|apply better_total in E1; destruct (better (ms_value s) (ms_value (mm_2 m))) eqn:E2; [|apply better_total in E2]].
  - exists (S i0), 0%nat, 0%nat. split_and!; [lia|lia|by apply best_since_old|apply best_since_new|apply best_since_new].
  - exists (S i0), (S i1), 0%nat. split_and!; [lia|lia|by apply best_since_old|by apply best_since_old|apply best_since_new].
  - exists (S i0), (S i1), (S i2). split_and!; [lia|lia|by apply best_since_old|by apply best_since_old|by apply best_since_old].
Qed.

(** The subwindow update keeps the choices and brings the first one back into the window. *)
Lemma choices_subwin h s m :
  chronological (s :: h) -> choices (s :: h) m -> ms_time s - ms_time (mm_2 m) <= mm_window m ->
  let m' := minmax_subwin_update m s in
  choices (s :: h) m' /\ ms_time s - ms_time (mm_0 m') <= mm_window m'.
Proof using All.
  intros Hc (i0 & i1 & i2 & Hi & H0 & H1 & H2) Hw m'. pose proof (best_since_new h s) as Hn.
  destruct (best_since_time _ _ _ _ Hc H0) as [E0 L0], (best_since_time _ _ _ _ Hc H1) as [E1 L1].
  unfold m', minmax_subwin_update, outdated. rewrite E0.
  destruct (Z.ltb_spec (mm_window m) (ms_time s - ms_time (mm_0 m))) as [Hd|Hd]; cbn [mm_0 mm_1 mm_2 mm_window].
  - rewrite E1. destruct (Z.ltb_spec (mm_window m) (ms_time s - ms_time (mm_1 m))) as [Hd1|Hd1]; cbn [mm_0 mm_window].
    + split; [|done]. exists i2, 0%nat, 0%nat. split_and!; [lia|lia|done|done|done].
    + split; [|done]. exists i1, i2, 0%nat. split_and!; [lia|lia|done|done|done].
  - repeat case_match; cbn [mm_0 mm_window]; (split; [|done]).
    + exists i0, 0%nat, 0%nat. split_and!; [lia|lia|done|done|done].
    + exists i0, i1, 0%nat. split_and!; [lia|lia|done|done|done].
    + by exists i0, i1, i2.
Qed.

Lemma choices_update h s m :
  chronological (s :: h) -> 0 <= mm_window m -> h = [] /\ ms_value (mm_0 m) = 0 \/ choices h m ->
  let m' := minmax_update better m (ms_time s) (ms_value s) in
  choices (s :: h) m' /\ ms_time s - ms_time (mm_0 m') <= mm_window m' /\ mm_window m' = mm_window m.
Proof using All.
  intros Hc Hw Hm m'. unfold m', minmax_update.
  replace (MS (ms_time s) (ms_value s)) with s by (by destruct s).
  destruct ((ms_value (mm_0 m) =? 0) || better (ms_value s) (ms_value (mm_0 m)) || outdated m s (mm_2 m)) eqn:Hr.
  - cbn. split; [|lia]. exists 0%nat, 0%nat, 0%nat. pose proof (best_since_new h s). split_and!; [lia|lia|done|done|done].
  - apply orb_false_elim in Hr as [Hr Ho]. apply orb_false_elim in Hr as [Hz Hb].
    destruct Hm as [[_ Hm]|Hm]; [lia|]. pose proof (choices_replace h m s Hm Hb) as Hc'. cbn zeta in Hc'.
    set (m1 := if better _ (ms_value (mm_1 m)) then _ else _) in *.
    assert (Hwin : mm_window m1 = mm_window m) by (unfold m1; by repeat case_match).
    assert (H2 : ms_time s - ms_time (mm_2 m1) <= mm_window m1).
    { destruct Hc' as (k0 & k1 & k2 & _ & _ & _ & K2). destruct (best_since_time _ _ _ _ Hc K2) as [E _].
      rewrite Hwin. unfold m1 in *. unfold outdated in Ho. repeat case_match; cbn [mm_2] in *; lia. }
    destruct (choices_subwin h s m1 Hc Hc' H2) as [Hs Ht]. split_and!; [exact Hs|exact Ht|].
    unfold minmax_subwin_update. by repeat case_match.
Qed.

Lemma choices_run window h :
  chronological h -> 0 <= window ->
  let m := minmax_run (minmax_update better) window h in
  mm_window m = window /\
  match h with
  | [] => m = minmax_init window
  | s :: _ => choices h m /\ ms_time s - ms_time (mm_0 m) <= window
  end.
Proof using All.
  intros Hc Hw m. unfold m; clear m. induction h as [|s h IH]; [done|]. cbn [minmax_run].
  assert (Hc' : chronological h) by apply Hc. destruct (IH Hc') as [Hwin Hm].
  destruct (choices_update h s (minmax_run (minmax_update better) window h)) as (H & Ht & E); [done|lia| |].
  { destruct h as [|x h]; [left; by rewrite Hm|right; apply Hm]. }
  split; [by rewrite E|]. split; [exact H|]. by rewrite E, Hwin in Ht.
Qed.

(** What the three choices mean to a reader of the filter. *)
Definition windowed (window now : Z) (h : list minmax_sample) (m : minmax) : Prop :=
  (exists i x, h !! i = Some x /\ minmax_get m = ms_value x /\ now - ms_time x <= window /\
    forall j y, (j <= i)%nat -> h !! j = Some y -> better (ms_value x) (ms_value y) = true) /\
  better (ms_value (mm_0 m)) (ms_value (mm_1 m)) = true /\ better (ms_value (mm_1 m)) (ms_value (mm_2 m)) = true.

Lemma windowed_run window s h :
  chronological (s :: h) -> 0 <= window ->
  windowed window (ms_time s) (s :: h) (minmax_run (minmax_update better) window (s :: h)).
Proof using All.
  intros Hc Hw. destruct (choices_run window (s :: h) Hc Hw) as (_ & (i0 & i1 & i2 & Hi & H0 & H1 & H2) & Ht).
  split; [|split; [apply (best_since_mono _ _ _ _ _ H0 H1)|apply (best_since_mono _ _ _ _ _ H1 H2)]; lia].
  exists i0, (mm_0 (minmax_run (minmax_update better) window (s :: h))). destruct H0 as [L0 B0]. by split_and!.
Qed.
End minmax_spec.

(** C32: the windowed maximum and minimum. After any sequence of measurements at
    nondecreasing times the estimate is a real measurement, not older than the
    window, and no measurement taken since beats it; the second and third choices
    are ranked after it. (Nothing is assumed of the values: a zero resets the
    filter, which keeps the property.) *)
Theorem minmax_estimate window s h :
  chronological (s :: h) -> 0 <= window ->
  windowed Z.geb window (ms_time s) (s :: h) (minmax_run lsquic_minmax_update_max window (s :: h)) /\
  windowed Z.leb window (ms_time s) (s :: h) (minmax_run lsquic_minmax_update_min window (s :: h)).
Proof.
  intros Hc Hw.
  split; [exact (windowed_run Z.geb window s h Hc Hw)|exact (windowed_run Z.leb window s h Hc Hw)].
Qed.

Lemma minmax_estimate_witness :
  let h := [MS 130 5; MS 110 9; MS 90 7; MS 20 8; MS 0 10] in
  windowed Z.geb 100 130 h (minmax_run lsquic_minmax_update_max 100 h) /\
  windowed Z.leb 100 130 h (minmax_run lsquic_minmax_update_min 100 h) /\
  minmax_get (minmax_run lsquic_minmax_update_max 100 h) = 9.
Proof.
  split; [|split; [|reflexivity]];
    apply (minmax_estimate 100 (MS 130 5) [MS 110 9; MS 90 7; MS 20 8; MS 0 10]);
    try lia; cbn; repeat first [lia|progress cbn|split|apply Forall_cons_2|apply Forall_nil_2].
Defined.

(** ** The pace of a sender *)

























(** A finding. The test for an MTU probe, which comments call for two tokens' worth of
    credit, has its comparison the other way round from the test for an ordinary
    packet: while packets are in flight and no token is left, the probe is allowed
    exactly when more than half its transmission time is still owed, and refused once
    the schedule has caught up. *)
Lemma pacer_probe_reversed p n tx :
  pa_burst_tokens p = 0 -> 0 < n -> 0 <= tx -> pa_now p + tx / 2 < 2 ^ 64 -> 0 <= pa_now p ->
  lsquic_pacer_can_schedule_probe p n tx = (pa_now p + tx / 2 <? pa_next_sched p).
Proof.
  intros Ht Hn Htx Hb Hnow. unfold lsquic_pacer_can_schedule_probe. rewrite Ht.
  replace (n =? 0) with false by lia. cbn [orb Z.ltb Z.compare]. rewrite wrapu_id; [done|]. unfold is_u. ediv.
Qed.
