(* ===== verification/DiHash.v ===== *)
(** Reassembly of a stream from frames that may overlap: the hash implementation
    of the data-in interface (lsquic_di_hash.c).

    Incoming bytes are copied into 4 KB blocks, each with the bytes of one aligned
    range of 3616 stream offsets and a bit per valid byte; the blocks hang in the
    buckets of a hash table that doubles when it is half full.  A bucket is the list
    of its blocks; a pointer to a block is the block's offset, which is unique in
    the table.  A write through such a pointer is [hash_store].  Allocation draws
    its result from a list ([true] when the list is empty), so that every failure
    pattern can be given.  The bytes of a fresh block are indeterminate in C; they
    are zero here, and no bit allows reading them. *)
From S2P Require Import Prelude DataIn.
Local Open Scope Z_scope.

Definition N_DB_SETS : Z := 57.

(** [0x1000 - sizeof(TAILQ_ENTRY) - sizeof(uint64_t) - N_DB_SETS * sizeof(uint64_t)] *)
Definition DB_DATA_SIZE : Z := 4096 - 16 - 8 - N_DB_SETS * 8.

Record data_block := DB { db_off : Z; db_set : list Z; db_data : list Z }.

(** The flags are HDI_FIN and DI_SWITCH_IMPL. *)
Record hash_data_in := HD {
  hdi_fin_off : Z;
  hdi_buckets : list (list data_block);
  hdi_last_block : option Z;
  hdi_data_frame : data_frame;
  hdi_count : Z;
  hdi_nbits : Z;
  hdi_fin : bool;
  hdi_switch : bool
}.

Definition N_BUCKETS (n_bits : Z) : Z := Z.shiftl 1 n_bits.
Definition BUCKNO (n_bits off : Z) : Z := Z.land (off / DB_DATA_SIZE) (N_BUCKETS n_bits - 1).

(** [__builtin_clz] is undefined on zero. *)
Definition my_log2 (sz : Z) : option Z := if sz =? 0 then None else Some (Z.log2 sz + 1).

Definition no_frame : data_frame := DF [] 0 0 0 false.

(** The outer [None] is a shift past the width of the type or [clz] of zero; the
    inner one is a failed allocation. *)
Definition lsquic_data_in_hash_new (byteage : Z) (ms : list bool) : option (option hash_data_in * list bool) :=
  let '(ok, ms) := malloc ms in
  if negb ok then Some (None, ms) else
  nbits ← (if DB_DATA_SIZE <=? byteage then l ← my_log2 (u32 (byteage / DB_DATA_SIZE)); Some (l + 2) else Some 3);
  if 32 <=? nbits then None else
  let '(ok, ms) := malloc ms in
  if negb ok then Some (None, ms) else
  Some (Some (HD 0 (replicate (Z.to_nat (N_BUCKETS nbits)) []) None no_frame 0 nbits false false), ms).

(** ** The hash table *)

Definition with_table (h : hash_data_in) (buckets : list (list data_block)) (count nbits : Z) : hash_data_in :=
  HD (hdi_fin_off h) buckets (hdi_last_block h) (hdi_data_frame h) count nbits (hdi_fin h) (hdi_switch h).

Definition hash_grow (h : hash_data_in) (ms : list bool) : option (bool * hash_data_in * list bool) :=
  let old_nbits := hdi_nbits h in
  if 32 <=? old_nbits + 1 then None else
  let '(ok, ms) := malloc ms in
  if negb ok then Some (false, h, ms) else
  let idx b := Z.land (Z.shiftr (BUCKNO (old_nbits + 1) (db_off b)) old_nbits) 1 in
  let part i := map (List.filter (fun b => idx b =? i)) (hdi_buckets h) in
  Some (true, with_table h (part 0 ++ part 1) (hdi_count h) (old_nbits + 1), ms).

Definition hash_insert (h : hash_data_in) (block : data_block) (ms : list bool) : option (bool * hash_data_in * list bool) :=
  '(ok, h, ms) ← (if N_BUCKETS (hdi_nbits h) / 2 <=? hdi_count h then hash_grow h ms else Some (true, h, ms));
  if (ok : bool) then
    let buckno := BUCKNO (hdi_nbits h) (db_off block) in
    l ← aget (hdi_buckets h) buckno;
    buckets ← aset (hdi_buckets h) buckno (l ++ [block]);
    Some (true, with_table h buckets (u32 (hdi_count h + 1)) (hdi_nbits h), ms)
  else Some (false, h, ms).

Definition is_at (off : Z) (b : data_block) : bool := off =? db_off b.

(** The bucket always exists ([buckno_range]). *)
Definition hash_find (h : hash_data_in) (off : Z) : option data_block :=
  l ← aget (hdi_buckets h) (BUCKNO (hdi_nbits h) off);
  List.find (is_at off) l.

Fixpoint bucket_remove (off : Z) (l : list data_block) : list data_block :=
  match l with [] => [] | b :: l => if is_at off b then l else b :: bucket_remove off l end.

Definition hash_remove (h : hash_data_in) (off : Z) : option hash_data_in :=
  let buckno := BUCKNO (hdi_nbits h) off in
  l ← aget (hdi_buckets h) buckno;
  buckets ← aset (hdi_buckets h) buckno (bucket_remove off l);
  Some (with_table h buckets (u32 (hdi_count h - 1)) (hdi_nbits h)).

(** The block is written in place. *)
Definition hash_store (h : hash_data_in) (block : data_block) : option hash_data_in :=
  let buckno := BUCKNO (hdi_nbits h) (db_off block) in
  l ← aget (hdi_buckets h) buckno;
  buckets ← aset (hdi_buckets h) buckno (map (fun b => if is_at (db_off block) b then block else b) l);
  Some (with_table h buckets (hdi_count h) (hdi_nbits h)).

Definition new_block (h : hash_data_in) (off : Z) (ms : list bool) : option (option data_block * hash_data_in * list bool) :=
  if negb (off mod DB_DATA_SIZE =? 0) then None else
  let '(ok, ms) := malloc ms in
  if negb ok then Some (None, h, ms) else
  let block := DB off (replicate (Z.to_nat N_DB_SETS) 0) (replicate (Z.to_nat DB_DATA_SIZE) 0) in
  '(ok, h, ms) ← hash_insert h block ms;
  Some (if (ok : bool) then Some block else None, h, ms).

(** ** Writing to a block *)

(** [memcpy(dst + off, src, n)]; reading or writing past the end is undefined. *)
Definition memcpy (dst : list Z) (off : Z) (src : list Z) (n : Z) : option (list Z) :=
  if (0 <=? off) && (off + n <=? Z.of_nat (length dst)) && (n <=? Z.of_nat (length src))
  then Some (take (Z.to_nat off) dst ++ take (Z.to_nat n) src ++ drop (Z.to_nat (off + n)) dst)
  else None.

(** The local variables of [block_write]: the block, [data], [block_off],
    [end - data] and [set]. *)
Record write_state := WS { w_block : data_block; w_data : list Z; w_off : Z; w_left : Z; w_set : Z }.

(** Setting bits of one word of the set and copying [n] bytes; [data] and
    [block_off] move on. *)
Definition write_word (s : write_state) (mask n : Z) : option write_state :=
  let b := w_block s in
  w ← aget (db_set b) (w_set s);
  sets ← aset (db_set b) (w_set s) (Z.lor w mask);
  bytes ← memcpy (db_data b) (w_off s) (w_data s) n;
  Some (WS (DB (db_off b) sets bytes) (drop (Z.to_nat n) (w_data s)) (w_off s + n) (w_left s - n) (w_set s + 1)).

Definition write_head (s : write_state) : option write_state :=
  let bit := Z.land (w_off s) 63 in
  if bit =? 0 then Some s else
  let n := 64 - bit in
  let n := if w_left s <? n then w_left s else n in
  let top := u64 (Z.shiftl 1 (bit + n - 1)) in
  let mask := Z.land (u64 (Z.lnot (u64 (Z.shiftl 1 bit) - 1))) (Z.lor top (top - 1)) in
  write_word s mask n.

(** [memset(&db_set[set], 0xFF, n * 8)] *)
Definition fill_sets (sets : list Z) (set n : Z) : option (list Z) :=
  if (0 <=? set) && (set + n <=? Z.of_nat (length sets))
  then Some (take (Z.to_nat set) sets ++ replicate (Z.to_nat n) UINT64_MAX ++ drop (Z.to_nat (set + n)) sets)
  else None.

Definition write_full (s : write_state) : option write_state :=
  let n_full_sets := Z.shiftr (w_left s) 6 in
  if n_full_sets =? 0 then Some s else
  let b := w_block s in
  let n := n_full_sets * 64 in
  bytes ← memcpy (db_data b) (w_off s) (w_data s) n;
  sets ← fill_sets (db_set b) (w_set s) n_full_sets;
  Some (WS (DB (db_off b) sets bytes) (drop (Z.to_nat n) (w_data s)) (w_off s + n) (w_left s - n) (w_set s + n_full_sets)).

Definition write_tail (s : write_state) : option write_state :=
  if 0 <? w_left s then
    if negb (w_left s <? 64) then None else
    write_word s (u64 (Z.shiftl 1 (w_left s)) - 1) (w_left s)
  else Some s.

Definition block_write (block : data_block) (block_off : Z) (data : list Z) (data_sz : Z) : option (Z * data_block) :=
  if negb (block_off <? DB_DATA_SIZE) then None else
  let data_sz := if DB_DATA_SIZE - block_off <? data_sz then DB_DATA_SIZE - block_off else data_sz in
  let s := WS block data block_off data_sz (Z.shiftr block_off 6) in
  s ← write_head s;
  s ← write_full s;
  s ← write_tail s;
  Some (data_sz - w_left s, w_block s).

(** ** Queries on a block *)

(** [bit] is below 64 and [set] below N_DB_SETS, or the access is out of bounds. *)
Definition has_bytes_after (block : data_block) (off : Z) : option bool :=
  let set := Z.shiftr off 6 in
  w ← aget (db_set block) set;
  Some (negb (Z.shiftr w (Z.land off 63) =? 0)
        || existsb (fun w => negb (w =? 0)) (drop (S (Z.to_nat set)) (db_set block))).

Fixpoint avail_loop (ws : list Z) (count : Z) : option Z :=
  match ws with
  | [] => Some count
  | w :: ws =>
    if w =? UINT64_MAX then avail_loop ws (count + 64)
    else
      let part := u64 (Z.lnot w) in
      if part =? 0 then Some (count + 64) else c ← ctz 64 part; Some (count + c)
  end.

Definition n_avail_bytes (block : data_block) (set bit : Z) : option Z :=
  w ← aget (db_set block) set;
  let part := u64 (Z.lnot (Z.shiftr w bit)) in
  let rest := drop (S (Z.to_nat set)) (db_set block) in
  if part =? 0 then avail_loop rest 64
  else
    count ← ctz 64 part;
    if count <? 64 - bit then Some count else avail_loop rest count.

(** ** Inserting a frame *)

(** The loop; the result has the last block, or [None] when there is no memory,
    and the key of the block after it. *)
Fixpoint insert_loop (fuel : nat) (h : hash_data_in) (key off : Z) (data : list Z) (size : Z) (ms : list bool)
    : option (option data_block * Z * hash_data_in * list bool) :=
  match fuel with
  | O => None
  | S fuel =>
    '(block, h, ms) ← (match hash_find h key with
                       | Some block => Some (Some block, h, ms)
                       | None => new_block h key ms
                       end);
    match (block : option data_block) with
    | None => Some (None, key, h, ms)
    | Some block =>
      '(nw, block) ← block_write block (off mod DB_DATA_SIZE) data size;
      h ← hash_store h block;
      let size := u32 (size - nw) in
      let off := u64 (off + nw) in
      let data := drop (Z.to_nat nw) data in
      let key := u64 (key + DB_DATA_SIZE) in
      if 0 <? size then insert_loop fuel h key off data size ms else Some (Some block, key, h, ms)
    end
  end.

Definition with_fin (h : hash_data_in) (fin_off : Z) : hash_data_in :=
  HD fin_off (hdi_buckets h) (hdi_last_block h) (hdi_data_frame h) (hdi_count h) (hdi_nbits h) true (hdi_switch h).

(** The frame contradicts the known end of the stream. *)
Definition fin_conflict (h : hash_data_in) (f : data_frame) : bool :=
  hdi_fin h && (df_fin f && negb (DF_END f =? hdi_fin_off h) || (hdi_fin_off h <? DF_END f)).

Definition lsquic_data_in_hash_insert_data_frame (h : hash_data_in) (f : data_frame) (read_offset : Z) (ms : list bool)
    : option (ins_frame * hash_data_in * list bool) :=
  if DF_END f <? read_offset then Some (if df_fin f then INS_FRAME_ERR else INS_FRAME_DUP, h, ms) else
  if fin_conflict h f then Some (INS_FRAME_ERR, h, ms) else
  let diff := if df_offset f <? read_offset then u64 (read_offset - df_offset f) else 0 in
  if negb (diff <=? df_size f) then None else
  let size := u32 (df_size f - diff) in
  let off := u64 (df_offset f + diff) in
  let key := u64 (off - off mod DB_DATA_SIZE) in
  '(block, key, h, ms) ← insert_loop (S (S (Z.to_nat (size / DB_DATA_SIZE)))) h key off (drop (Z.to_nat diff) (df_data f)) size ms;
  match (block : option data_block) with
  | None => Some (INS_FRAME_ERR, h, ms)
  | Some block =>
    if df_fin f then
      let fin_off := DF_END f in
      after ← has_bytes_after block (u32 (fin_off - db_off block));
      if (after : bool) || bool_decide (is_Some (hash_find h key)) then Some (INS_FRAME_ERR, h, ms)
      else Some (INS_FRAME_OK, with_fin h fin_off, ms)
    else Some (INS_FRAME_OK, h, ms)
  end.

(** ** Reading *)

Definition with_frame (h : hash_data_in) (last : option Z) (f : data_frame) : hash_data_in :=
  HD (hdi_fin_off h) (hdi_buckets h) last f (hdi_count h) (hdi_nbits h) (hdi_fin h) (hdi_switch h).

(** [None]: undefined behaviour; [Some (false, h)]: not readable. *)
Definition setup_data_frame (h : hash_data_in) (read_offset : Z) (block : data_block) : option (bool * hash_data_in) :=
  let offset := read_offset mod DB_DATA_SIZE in
  let set := Z.shiftr offset 6 in
  let bit := Z.land offset 63 in
  w ← aget (db_set block) set;
  if negb (Z.land w (Z.shiftl 1 bit) =? 0) then
    n ← n_avail_bytes block set bit;
    let size := u16 (offset + n) in
    let fin := hdi_fin h && (u16 offset + size =? hdi_fin_off h) in
    Some (true, with_frame h (Some (db_off block)) (DF (db_data block) (db_off block) (u16 offset) size fin))
  else if hdi_fin h && (read_offset =? hdi_fin_off h) then
    Some (true, with_frame h (Some (db_off block)) (DF [] (db_off block) (u16 offset) (u16 offset) true))
  else Some (false, h).

(** The frame that is returned is [hdi_data_frame] of the new state. *)
Definition hash_di_get_frame (h : hash_data_in) (read_offset : Z) : option (bool * hash_data_in) :=
  let key := read_offset - read_offset mod DB_DATA_SIZE in
  match hash_find h key with
  | None =>
    if hdi_fin h && (read_offset =? hdi_fin_off h) then Some (true, with_frame h None (DF [] key 0 0 true))
    else Some (false, h)
  | Some block => setup_data_frame h read_offset block
  end.

Definition set_switch (h : hash_data_in) : hash_data_in :=
  HD (hdi_fin_off h) (hdi_buckets h) (hdi_last_block h) (hdi_data_frame h) (hdi_count h) (hdi_nbits h) (hdi_fin h) true.

(** [None]: a failed assertion or a dangling [hdi_last_block]. *)
Definition hash_di_frame_done (h : hash_data_in) : option hash_data_in :=
  let f := hdi_data_frame h in
  match hdi_last_block h with
  | Some off =>
    block ← hash_find h off;
    finished ← (if df_read_off f =? DB_DATA_SIZE then Some true
                else after ← has_bytes_after block (df_read_off f); Some (negb after));
    if (finished : bool) then
      h ← hash_remove h off;
      Some (if (hdi_count h =? 0) && negb (hdi_fin h) then set_switch h else h)
    else Some h
  | None => if df_fin f && (df_size f =? 0) then Some h else None
  end.

Definition hash_di_empty (h : hash_data_in) : bool := hdi_count h =? 0.

Fixpoint hash_readable_loop (fuel : nat) (h : hash_data_in) (read_offset : Z) : option (Z * hash_data_in) :=
  match fuel with
  | O => None
  | S fuel =>
    '(found, h) ← hash_di_get_frame h read_offset;
    let n := df_size (hdi_data_frame h) - df_read_off (hdi_data_frame h) in
    if (found : bool) && negb (n =? 0) then hash_readable_loop fuel h (u64 (read_offset + n))
    else Some (read_offset, h)
  end.

(** Each round but the last finds another block. *)
Definition hash_di_readable_bytes (h : hash_data_in) (read_offset : Z) : option (Z * hash_data_in) :=
  '(off, h) ← hash_readable_loop (S (S (Z.to_nat (hdi_count h)))) h read_offset;
  Some (u64 (off - read_offset), h).

(** [sizeof(struct data_in)], [sizeof(struct data_block)] and
    [sizeof(struct dblock_head)] are 16, 4096 and 16. *)
Definition hash_di_mem_used (h : hash_data_in) : Z :=
  16 + 4096 * Z.of_nat (length (concat (hdi_buckets h))) + N_BUCKETS (hdi_nbits h) * 16.
