(* ===== verification/DiHashThms.v ===== *)
(** The hash implementation of the data-in interface refines a partial map from
    stream offsets to bytes: writing to a block ([block_write_ok]), scanning it
    ([n_avail_ok], [has_bytes_after_ok]), the hash table ([find_spec]), inserting a
    frame and reading. *)
From S2P Require Import Prelude DataIn DiHash.
Local Open Scope Z_scope.

(** * One block *)

Definition inside (lo n i : Z) : bool := (lo <=? i) && (i <? lo + n).

Lemma inside_empty lo i : inside lo (Z.of_nat 0) i = false.
Proof. unfold inside. zcase; cbn; lia || done. Qed.

(** Is the byte at position [i] of the block valid? *)
Definition valid (sets : list Z) (i : Z) : bool :=
  match sets !! Z.to_nat (i / 64) with Some w => Z.testbit w (i mod 64) | None => false end.

Definition byte_at (b : data_block) (i : Z) : option Z :=
  if valid (db_set b) i then db_data b !! Z.to_nat i else None.

Record block_ok (b : data_block) : Prop := {
  bo_sets : Z.of_nat (length (db_set b)) = N_DB_SETS;
  bo_words : Forall (is_u 64) (db_set b);
  bo_data : Z.of_nat (length (db_data b)) = DB_DATA_SIZE;
  bo_end : forall i, DB_DATA_SIZE <= i -> valid (db_set b) i = false;
  bo_key : 0 <= db_off b /\ db_off b mod DB_DATA_SIZE = 0
}.

(** [b'] is [b] with [l] written at position [lo]. *)
Definition wrote (b b' : data_block) (lo : Z) (l : list Z) : Prop :=
  block_ok b' /\ db_off b' = db_off b /\
  forall i, 0 <= i -> byte_at b' i = if inside lo (Z.of_nat (length l)) i then l !! Z.to_nat (i - lo) else byte_at b i.

Lemma split_64 i : i / 64 * 64 + i mod 64 = i /\ 0 <= i mod 64 < 64.
Proof. pose proof (Z.div_mod i 64). pose proof (Z.mod_pos_bound i 64). lia. Qed.

Lemma memcpy_ok dst off src n :
  0 <= off -> 0 <= n -> off + n <= Z.of_nat (length dst) -> n <= Z.of_nat (length src) ->
  exists d, memcpy dst off src n = Some d /\ length d = length dst /\
    forall i, 0 <= i -> d !! Z.to_nat i = if inside off n i then take (Z.to_nat n) src !! Z.to_nat (i - off) else dst !! Z.to_nat i.
Proof.
  intros Ho Hn Hd Hs. unfold memcpy. ztest. cbn [andb]. eexists. split; [reflexivity|]. split.
  - rewrite !length_app, !length_take, length_drop. lia.
  - intros i Hi. unfold inside. destruct (Z.leb_spec off i) as [H1|H1]; cbn [andb].
    + rewrite lookup_app_r by (rewrite length_take; lia). rewrite length_take.
      destruct (Z.ltb_spec i (off + n)) as [H2|H2].
      * rewrite lookup_app_l by (rewrite length_take; lia). f_equal. lia.
      * rewrite lookup_app_r by (rewrite length_take; lia). rewrite length_take, lookup_drop. f_equal. lia.
    + rewrite lookup_app_l by (rewrite length_take; lia). by rewrite lookup_take_lt by lia.
Qed.

Lemma valid_insert sets s w i :
  0 <= s < Z.of_nat (length sets) -> 0 <= i ->
  valid (<[Z.to_nat s := w]> sets) i = if i / 64 =? s then Z.testbit w (i mod 64) else valid sets i.
Proof.
  intros Hs Hi. unfold valid. assert (0 <= i / 64) by (apply Z.div_pos; lia). destruct (Z.eqb_spec (i / 64) s) as [->|Hne].
  - rewrite list_lookup_insert_eq by lia. done.
  - rewrite list_lookup_insert_ne by lia. done.
Qed.

(** A write that sets exactly the bits of what it copies. *)
Lemma wrote_intro b sets lo l d :
  block_ok b -> 0 <= lo -> lo + Z.of_nat (length l) <= DB_DATA_SIZE ->
  length sets = length (db_set b) -> Forall (is_u 64) sets ->
  (forall i, 0 <= i -> valid sets i = inside lo (Z.of_nat (length l)) i || valid (db_set b) i) ->
  length d = length (db_data b) ->
  (forall i, 0 <= i -> d !! Z.to_nat i = if inside lo (Z.of_nat (length l)) i then l !! Z.to_nat (i - lo) else db_data b !! Z.to_nat i) ->
  wrote b (DB (db_off b) sets d) lo l.
Proof.
  intros [H1 H2 H3 H4 H5] Hlo Hl Es Hw Hv Ed Hd. split; [|split; [done|]].
  - split; cbn; [lia|done|lia| |done]. intros i Hi. unfold DB_DATA_SIZE, N_DB_SETS in *. rewrite Hv, H4 by lia.
    unfold inside. ztest. by rewrite andb_false_r.
  - intros i Hi. unfold byte_at; cbn. rewrite Hv, Hd by lia. by destruct (inside lo _ i).
Qed.

Lemma wrote_nil b lo : block_ok b -> wrote b b lo [].
Proof.
  intros Hb. split; [done|]. split; [done|]. intros i Hi. cbn [length]. by rewrite inside_empty.
Qed.

Lemma wrote_trans b b1 b2 lo l1 l2 :
  wrote b b1 lo l1 -> wrote b1 b2 (lo + Z.of_nat (length l1)) l2 -> wrote b b2 lo (l1 ++ l2).
Proof.
  intros (_ & E1 & H1) (O2 & E2 & H2). split; [done|]. split; [congruence|]. intros i Hi. rewrite H2, H1 by lia.
  unfold inside. rewrite length_app. zcase; cbn [andb]; try lia; try done;
    first [by rewrite lookup_app_l by lia|rewrite lookup_app_r by lia; f_equal; lia].
Qed.

(** Setting the bits [bit .. bit + n - 1] of the word at [set]. *)
Lemma write_word_ok s mask n (bit := w_off s mod 64) :
  block_ok (w_block s) -> 0 <= w_off s -> w_set s = w_off s / 64 -> w_off s < DB_DATA_SIZE ->
  0 <= n <= w_left s -> bit + n <= 64 -> w_off s + w_left s <= DB_DATA_SIZE -> w_left s <= Z.of_nat (length (w_data s)) ->
  is_u 64 mask -> (forall k, 0 <= k < 64 -> Z.testbit mask k = inside bit n k) ->
  exists b', write_word s mask n =
      Some (WS b' (drop (Z.to_nat n) (w_data s)) (w_off s + n) (w_left s - n) (w_set s + 1)) /\
    wrote (w_block s) b' (w_off s) (take (Z.to_nat n) (w_data s)).
Proof.
  intros Hb Ho Hset Hlt Hn Hbit Hend Hlen Hmu Hm. pose proof Hb as [H1 H2 H3 _ _].
  pose proof (split_64 (w_off s)) as [Hdm Hmod]. unfold DB_DATA_SIZE, N_DB_SETS in *.
  unfold write_word. destruct (lookup_lt_is_Some_2 (db_set (w_block s)) (Z.to_nat (w_set s))) as [w Ew]; [lia|].
  assert (Eg : aget (db_set (w_block s)) (w_set s) = Some w).
  { replace (w_set s) with (Z.of_nat (Z.to_nat (w_set s))) by lia. by rewrite aget_nat. }
  rewrite Eg. cbn [mbind option_bind].
  rewrite aset_ok by lia. cbn [mbind option_bind].
  destruct (memcpy_ok (db_data (w_block s)) (w_off s) (w_data s) n) as (d & -> & Ed & Hd); [lia..|]. cbn [mbind option_bind].
  eexists. split; [reflexivity|].
  assert (El : Z.of_nat (length (take (Z.to_nat n) (w_data s))) = n) by (rewrite length_take; lia).
  apply wrote_intro; rewrite ?El; try done; unfold DB_DATA_SIZE, N_DB_SETS; try lia.
  - by rewrite length_insert.
  - apply Forall_insert; [done|]. apply is_u_lor; [lia| |done]. by eapply (Forall_lookup_1 (is_u 64)).
  - intros i Hi. rewrite valid_insert by lia. pose proof (split_64 i) as [Hdi Hmi].
    unfold valid. destruct (Z.eqb_spec (i / 64) (w_set s)) as [E|E].
    + rewrite Z.lor_spec, Hm, E, Ew by lia. rewrite orb_comm. f_equal. unfold inside, bit. zcase; try done; lia.
    + replace (inside (w_off s) n i) with false; [done|]. unfold inside, bit in *. zcase; cbn; try done. nia.
Qed.

(** What every phase of [block_write] does: it writes the next bytes and moves on. *)
Definition progress_ok (s s' : write_state) : Prop :=
  exists n, 0 <= n <= w_left s /\ w_data s' = drop (Z.to_nat n) (w_data s) /\ w_off s' = w_off s + n /\
    w_left s' = w_left s - n /\ wrote (w_block s) (w_block s') (w_off s) (take (Z.to_nat n) (w_data s)).

Record ws_ok (s : write_state) : Prop := {
  wo_block : block_ok (w_block s);
  wo_off : 0 <= w_off s;
  wo_left : 0 <= w_left s <= Z.of_nat (length (w_data s));
  wo_end : w_off s + w_left s <= DB_DATA_SIZE
}.

Lemma progress_refl s : ws_ok s -> progress_ok s s.
Proof. intros [Hb ? ? ?]. exists 0. cbn. split_and!; try lia; try done. by apply wrote_nil. Qed.

Lemma progress_trans s1 s2 s3 : ws_ok s1 -> progress_ok s1 s2 -> progress_ok s2 s3 -> progress_ok s1 s3.
Proof.
  intros [_ _ Hl _] (n & Hn & E1 & E2 & E3 & W1) (m & Hm & F1 & F2 & F3 & W2). exists (n + m).
  rewrite E1, E2, E3 in *. split_and!; try lia.
  - rewrite F1, drop_drop. f_equal. lia.
  - replace (take (Z.to_nat (n + m)) (w_data s1))
      with (take (Z.to_nat n) (w_data s1) ++ take (Z.to_nat m) (drop (Z.to_nat n) (w_data s1))).
    + eapply wrote_trans; [exact W1|]. rewrite length_take. by replace (Z.of_nat _) with n by lia.
    + rewrite take_take_drop. f_equal. lia.
Qed.

Lemma progress_ws s s' : ws_ok s -> progress_ok s s' -> ws_ok s'.
Proof.
  intros [? ? ? ?] (n & Hn & E1 & E2 & E3 & W & _). split; [done|lia| |lia]. rewrite E1, length_drop. lia.
Qed.

Lemma land_63 x : Z.land x 63 = x mod 64.
Proof. apply (Z.land_ones x 6). lia. Qed.

Lemma shiftl_1_u64 k : 0 <= k < 64 -> u64 (Z.shiftl 1 k) = 2 ^ k.
Proof.
  intros Hk. rewrite Z.shiftl_1_l. apply wrapu_id. split; [apply Z.pow_nonneg; lia|]. apply Z.pow_lt_mono_r; lia.
Qed.

Lemma ones_bits n k : 0 <= n -> 0 <= k -> Z.testbit (2 ^ n - 1) k = (k <? n).
Proof. intros. replace (2 ^ n - 1) with (Z.ones n) by (rewrite Z.ones_equiv; lia). by apply Z.testbit_ones_nonneg. Qed.

Lemma head_mask_bits bit n k : 0 < bit < 64 -> 0 <= n <= 64 - bit -> 0 <= k < 64 ->
  let top := u64 (Z.shiftl 1 (bit + n - 1)) in
  Z.testbit (Z.land (u64 (Z.lnot (u64 (Z.shiftl 1 bit) - 1))) (Z.lor top (top - 1))) k = inside bit n k.
Proof.
  intros Hb Hn Hk top. unfold top. rewrite !shiftl_1_u64, Z.land_spec, Z.lor_spec by lia.
  rewrite ones_bits, Z.pow2_bits_eqb by lia. unfold wrapu. rewrite Z.mod_pow2_bits_low, Z.lnot_spec, ones_bits by lia.
  unfold inside. zcase; cbn; try done; lia.
Qed.

Lemma head_mask_u bit n : 0 < bit < 64 -> 0 <= n <= 64 - bit ->
  let top := u64 (Z.shiftl 1 (bit + n - 1)) in
  is_u 64 (Z.land (u64 (Z.lnot (u64 (Z.shiftl 1 bit) - 1))) (Z.lor top (top - 1))).
Proof.
  intros Hb Hn top.
  assert (is_u 64 (u64 (Z.lnot (u64 (Z.shiftl 1 bit) - 1)))) as Hu by (apply wrapu_range; lia).
  set (x := u64 (Z.lnot _)) in *. set (y := Z.lor top (top - 1)).
  assert (Z.land x y = Z.land (Z.land x y) (Z.ones 64)) as ->.
  { rewrite <- Z.land_assoc, (Z.land_comm y), Z.land_assoc. f_equal. rewrite Z.land_ones by lia. symmetry. apply Z.mod_small. apply Hu. }
  rewrite Z.land_ones by lia. apply wrapu_range. lia.
Qed.

Lemma write_head_ok s :
  ws_ok s -> w_off s < DB_DATA_SIZE -> w_set s = w_off s / 64 ->
  exists s', write_head s = Some s' /\ progress_ok s s' /\
    (w_left s' = 0 \/ w_off s' mod 64 = 0 /\ w_set s' = w_off s' / 64).
Proof.
  intros Hs Hlt Hset. pose proof Hs as [Hb Ho Hl He]. unfold write_head. rewrite land_63.
  pose proof (split_64 (w_off s)) as [Hdm Hm].
  destruct (Z.eqb_spec (w_off s mod 64) 0) as [E|E].
  { exists s. split; [done|]. split; [by apply progress_refl|]. by right. }
  set (n := if w_left s <? 64 - w_off s mod 64 then w_left s else 64 - w_off s mod 64).
  assert (Hn : n = Z.min (w_left s) (64 - w_off s mod 64)) by (unfold n; zcase; lia). clearbody n.
  destruct (write_word_ok s (Z.land (u64 (Z.lnot (u64 (Z.shiftl 1 (w_off s mod 64)) - 1)))
     (Z.lor (u64 (Z.shiftl 1 (w_off s mod 64 + n - 1))) (u64 (Z.shiftl 1 (w_off s mod 64 + n - 1)) - 1))) n)
    as (b' & -> & W); try done; try lia.
  { apply head_mask_u; lia. }
  { intros k Hk. apply head_mask_bits; lia. }
  eexists. split; [reflexivity|]. split; [exists n; cbn; split_and!; try done; lia|]. cbn.
  destruct (Z.le_gt_cases (w_left s) n); [left; lia|right].
  replace (w_off s + n) with ((w_set s + 1) * 64) by lia. by rewrite Z.mod_mul, Z.div_mul by lia.
Qed.

Lemma fill_sets_ok sets set n :
  0 <= set -> 0 <= n -> set + n <= Z.of_nat (length sets) ->
  exists sets', fill_sets sets set n = Some sets' /\ length sets' = length sets /\
    (Forall (is_u 64) sets -> Forall (is_u 64) sets') /\
    forall i, 0 <= i -> valid sets' i = inside (set * 64) (n * 64) i || valid sets i.
Proof.
  intros Hs Hn Hle. unfold fill_sets. ztest. cbn [andb]. eexists. split; [reflexivity|]. split_and!.
  - rewrite !length_app, length_take, length_replicate, length_drop. lia.
  - intros Hw. apply Forall_app_2; [by apply Forall_take|]. apply Forall_app_2; [|by apply Forall_drop].
    apply Forall_replicate. unfold is_u, UINT64_MAX. lia.
  - intros i Hi. pose proof (split_64 i) as [Hd Hm]. unfold valid, inside.
    destruct (Z.leb_spec (set * 64) i) as [H1|H1]; cbn [andb orb].
    + rewrite lookup_app_r by (rewrite length_take; lia). rewrite length_take.
      destruct (Z.ltb_spec i (set * 64 + n * 64)) as [H2|H2].
      * rewrite lookup_app_l by (rewrite length_replicate; lia). rewrite lookup_replicate_2 by lia.
        change UINT64_MAX with (2 ^ 64 - 1). rewrite ones_bits by lia. ztest. done.
      * rewrite lookup_app_r by (rewrite length_replicate; lia). rewrite length_replicate, lookup_drop. cbn [orb].
        by replace (Z.to_nat (set + n) + _)%nat with (Z.to_nat (i / 64)) by lia.
    + rewrite lookup_app_l by (rewrite length_take; lia). by rewrite lookup_take_lt by lia.
Qed.

Lemma write_full_ok s :
  ws_ok s -> w_left s = 0 \/ w_off s mod 64 = 0 /\ w_set s = w_off s / 64 ->
  exists s', write_full s = Some s' /\ progress_ok s s' /\
    (w_left s' = 0 \/ w_off s' mod 64 = 0 /\ w_set s' = w_off s' / 64) /\ w_left s' < 64.
Proof.
  intros Hs Hal. pose proof Hs as [Hb Ho Hl He]. unfold write_full. rewrite Z.shiftr_div_pow2 by lia. change (2 ^ 6) with 64.
  pose proof (split_64 (w_left s)) as [Hdm Hm]. set (q := w_left s / 64) in *.
  destruct (Z.eqb_spec q 0) as [E|E].
  { exists s. split; [done|]. split; [by apply progress_refl|]. split; [done|lia]. }
  destruct Hal as [?|[Ha Hset]]; [lia|]. pose proof (split_64 (w_off s)) as [Hod _].
  pose proof Hb as [B1 B2 B3 _ _]. unfold DB_DATA_SIZE, N_DB_SETS in *.
  destruct (memcpy_ok (db_data (w_block s)) (w_off s) (w_data s) (q * 64)) as (d & -> & Ed & Hd); [lia..|].
  destruct (fill_sets_ok (db_set (w_block s)) (w_set s) q) as (sets & -> & El & Hw & Hv); [lia..|].
  cbn [mbind option_bind]. eexists. split; [reflexivity|]. cbn [w_left w_off w_set]. split; [exists (q * 64); cbn; split_and!; try done; try lia|].
  - assert (Z.of_nat (length (take (Z.to_nat (q * 64)) (w_data s))) = q * 64) as En by (rewrite length_take; lia).
    apply wrote_intro; rewrite ?En; try done; unfold DB_DATA_SIZE, N_DB_SETS; try lia; [by apply Hw|].
    intros i Hi. rewrite Hv by lia. by replace (w_set s * 64) with (w_off s) by lia.
  - split; [|lia]. right. replace (w_off s + q * 64) with ((w_set s + q) * 64) by lia. by rewrite Z.mod_mul, Z.div_mul by lia.
Qed.

Lemma write_tail_ok s :
  ws_ok s -> w_left s = 0 \/ w_off s mod 64 = 0 /\ w_set s = w_off s / 64 -> w_left s < 64 ->
  exists s', write_tail s = Some s' /\ progress_ok s s' /\ w_left s' = 0.
Proof.
  intros Hs Hal Hlt. pose proof Hs as [Hb Ho Hl He]. unfold write_tail. destruct (Z.ltb_spec 0 (w_left s)) as [H|H].
  - destruct Hal as [?|[Ha Hset]]; [lia|]. ztest. cbn [negb].
    destruct (write_word_ok s (u64 (Z.shiftl 1 (w_left s)) - 1) (w_left s)) as (b' & -> & W); try done; try lia.
    + rewrite shiftl_1_u64 by lia. assert (0 < 2 ^ w_left s < 2 ^ 64) by (split; [|apply Z.pow_lt_mono_r]; lia). unfold is_u. lia.
    + intros k Hk. rewrite shiftl_1_u64, ones_bits, Ha by lia. unfold inside. ztest. done.
    + eexists. split; [reflexivity|]. split; [|cbn; lia]. exists (w_left s). cbn. split_and!; try done; lia.
  - exists s. split; [done|]. split; [by apply progress_refl|]. lia.
Qed.

(** [block_write] writes as much as fits. *)
Lemma block_write_ok b off data sz (nw := Z.min sz (DB_DATA_SIZE - off)) :
  block_ok b -> 0 <= off < DB_DATA_SIZE -> 0 <= sz <= Z.of_nat (length data) ->
  exists b', block_write b off data sz = Some (nw, b') /\ wrote b b' off (take (Z.to_nat nw) data).
Proof.
  intros Hb Ho Hsz. unfold block_write. ztest. cbn [negb].
  replace (if DB_DATA_SIZE - off <? sz then DB_DATA_SIZE - off else sz) with nw by (unfold nw; zcase; lia).
  rewrite Z.shiftr_div_pow2 by lia. change (2 ^ 6) with 64. set (s0 := WS b data off nw (off / 64)).
  assert (H0 : ws_ok s0) by (split; cbn; [done|lia|unfold nw; lia|unfold nw; lia]).
  destruct (write_head_ok s0 H0 ltac:(cbn; lia) eq_refl) as (s1 & -> & P1 & A1). cbn [mbind option_bind].
  pose proof (progress_ws _ _ H0 P1) as H1. destruct (write_full_ok s1 H1 A1) as (s2 & -> & P2 & A2 & L2). cbn [mbind option_bind].
  pose proof (progress_ws _ _ H1 P2) as H2. destruct (write_tail_ok s2 H2 A2 L2) as (s3 & -> & P3 & L3). cbn [mbind option_bind].
  pose proof (progress_trans _ _ _ H0 (progress_trans _ _ _ H0 P1 P2) P3) as (n & Hn & _ & _ & E & W).
  cbn [w_left w_off w_block w_data s0] in *. exists (w_block s3). rewrite L3, Z.sub_0_r. split; [done|].
  by replace nw with n by lia.
Qed.

(** ** Scanning the bits *)

Lemma valid_word sets s w i : sets !! Z.to_nat s = Some w -> 0 <= s -> s * 64 <= i < s * 64 + 64 -> valid sets i = Z.testbit w (i - s * 64).
Proof.
  intros Hw Hs Hi. unfold valid. pose proof (split_64 i) as [Hd Hm]. assert (i / 64 = s) as -> by lia. rewrite Hw. f_equal. lia.
Qed.

Lemma word_zero w : is_u 64 w -> (forall k, 0 <= k < 64 -> Z.testbit w k = false) -> w = 0.
Proof.
  intros Hw Hk. apply Z.bits_inj_0. intros k. destruct (Z.neg_nonneg_cases k); [by apply Z.testbit_neg_r|].
  destruct (Z.lt_ge_cases k 64); [by apply Hk|]. rewrite <- (wrapu_id 64 w Hw). by apply Z.mod_pow2_bits_high.
Qed.

Lemma word_full w : is_u 64 w -> (forall k, 0 <= k < 64 -> Z.testbit w k = true) -> w = UINT64_MAX.
Proof.
  intros Hw Hk. apply Z.bits_inj'. intros k H. change UINT64_MAX with (2 ^ 64 - 1). rewrite ones_bits by lia.
  destruct (Z.ltb_spec k 64); [by apply Hk|]. rewrite <- (wrapu_id 64 w Hw). by apply Z.mod_pow2_bits_high.
Qed.

(** The scan for the lowest one succeeds on a word that is not zero. *)
Lemma ctz_nonzero w : is_u 64 w -> w <> 0 ->
  exists c, ctz 64 w = Some c /\ 0 <= c < 64 /\ Z.testbit w c = true /\ forall j, 0 <= j < c -> Z.testbit w j = false.
Proof.
  intros Hw Hnz. destruct (ctz 64 w) as [c|] eqn:Ec.
  - pose proof (ctz_from_spec _ _ _ _ Ec) as (Hc & Hb & Hl). exists c. split_and!; [done|lia|lia|done|]. intros j Hj. apply Hl. lia.
  - exfalso. apply Hnz, word_zero; [done|]. intros k Hk. destruct (Z.testbit w k) eqn:F; [|done].
    destruct (ctz_from_total 64 0 w k ltac:(lia) F) as [j Hj]. unfold ctz in Ec. congruence.
Qed.

(** A bit behind the width of the word is not set. *)
Lemma bit_in_word w k : is_u 64 w -> Z.testbit w k = true -> k < 64.
Proof.
  intros Hw Hb. destruct (Z.lt_ge_cases k 64); [done|]. rewrite <- (wrapu_id 64 w Hw) in Hb. unfold wrapu in Hb.
  by rewrite Z.mod_pow2_bits_high in Hb by lia.
Qed.

Lemma not_full w : is_u 64 w -> w <> UINT64_MAX -> exists k, 0 <= k < 64 /\ Z.testbit w k = false.
Proof.
  intros Hw Hne. destruct (ctz_nonzero (u64 (Z.lnot w))) as (k & _ & Hk & Hb & _); [apply wrapu_range; lia| |].
  - intros E. apply Hne, word_full; [done|]. intros k Hk.
    assert (Z.testbit (u64 (Z.lnot w)) k = false) as G by (rewrite E; apply Z.bits_0).
    unfold wrapu in G. rewrite Z.mod_pow2_bits_low, Z.lnot_spec in G by lia. by apply negb_false_iff in G.
  - exists k. split; [lia|]. unfold wrapu in Hb. rewrite Z.mod_pow2_bits_low, Z.lnot_spec in Hb by lia. by apply negb_true_iff in Hb.
Qed.

(** The result of a scan from [off]: the length of the run of valid bytes. *)
Definition run_at (sets : list Z) (off n : Z) : Prop :=
  0 <= n /\ (forall i, off <= i < off + n -> valid sets i = true) /\ valid sets (off + n) = false.

Lemma avail_loop_ok off ws : forall pre count,
  Forall (is_u 64) (pre ++ ws) -> 0 <= off -> 0 <= count -> off + count = Z.of_nat (length pre) * 64 ->
  (forall i, off <= i < off + count -> valid (pre ++ ws) i = true) ->
  exists n, avail_loop ws count = Some n /\ run_at (pre ++ ws) off n.
Proof.
  induction ws as [|w ws IH]; intros pre count Hu Ho Hc Hpre Hv; cbn [avail_loop].
  - exists count. split; [done|]. split_and!; [done..|]. unfold valid. rewrite Hpre, Z.div_mul by lia.
    by rewrite lookup_ge_None_2 by (rewrite app_nil_r; lia).
  - assert (Hw : (pre ++ w :: ws) !! Z.to_nat (Z.of_nat (length pre)) = Some w) by (rewrite Nat2Z.id; by apply list_lookup_middle).
    pose proof (Forall_lookup_1 _ _ _ _ Hu Hw) as Huw. set (p := Z.of_nat (length pre)) in *.
    destruct (Z.eqb_spec w UINT64_MAX) as [E|E].
    + rewrite (cons_middle w pre ws), app_assoc. apply IH; rewrite <- ?app_assoc, <- ?cons_middle; cbn [app]; try done; try lia.
      * rewrite length_app. cbn. lia.
      * intros i Hi. destruct (Z.lt_ge_cases i (off + count)); [by apply Hv; lia|]. rewrite (valid_word _ p w) by (done || lia).
        rewrite E. change UINT64_MAX with (2 ^ 64 - 1). rewrite ones_bits by lia. lia.
    + destruct (not_full w Huw E) as (k & Hk & Hb). pose proof (ctz_lnot 64 w k Hk Hb) as Hz.
      change (Z.of_nat 64) with 64 in Hz. destruct Hz as (c & -> & Hc0 & Hc1 & Hc2 & Hlow). replace (u64 (Z.lnot w) =? 0) with false.
      2: { symmetry. apply Z.eqb_neq. intros F. assert (Z.testbit (u64 (Z.lnot w)) k = false) as G by (rewrite F; apply Z.bits_0).
           unfold wrapu in G. rewrite Z.mod_pow2_bits_low, Z.lnot_spec, Hb in G by lia. done. }
      cbn [mbind option_bind]. exists (count + c). split; [done|]. split_and!; [lia| |].
      * intros i Hi. destruct (Z.lt_ge_cases i (off + count)); [by apply Hv; lia|]. rewrite (valid_word _ p w) by (done || lia). apply Hlow. lia.
      * rewrite (valid_word _ p w) by (done || lia). by replace (off + (count + c) - p * 64) with c by lia.
Qed.

Lemma n_avail_ok b off :
  block_ok b -> 0 <= off < DB_DATA_SIZE ->
  exists n, n_avail_bytes b (Z.shiftr off 6) (Z.land off 63) = Some n /\ run_at (db_set b) off n /\ off + n <= DB_DATA_SIZE.
Proof.
  intros Hb Hoff. pose proof Hb as [B1 B2 B3 B4 _]. unfold n_avail_bytes. rewrite Z.shiftr_div_pow2, land_63 by lia.
  change (2 ^ 6) with 64. pose proof (split_64 off) as [Hd Hm]. set (s := off / 64) in *. set (bit := off mod 64) in *.
  unfold N_DB_SETS in *.
  assert (exists n, n_avail_bytes b s bit = Some n /\ run_at (db_set b) off n) as (n & E & Hr).
  2: { unfold n_avail_bytes in E. rewrite E. exists n. split_and!; [done..|].
       destruct (Z.le_gt_cases (off + n) DB_DATA_SIZE) as [|F]; [done|]. destruct Hr as (_ & Hr & _).
       specialize (Hr DB_DATA_SIZE ltac:(lia)). rewrite B4 in Hr by lia. done. }
  unfold n_avail_bytes. assert (Hs : (Z.to_nat s < length (db_set b))%nat) by (unfold DB_DATA_SIZE, N_DB_SETS in *; lia).
  destruct (lookup_lt_is_Some_2 _ _ Hs) as [w Ew]. replace (aget (db_set b) s) with (Some w).
  2: { replace s with (Z.of_nat (Z.to_nat s)) by lia. by rewrite aget_nat. }
  cbn [mbind option_bind]. pose proof (Forall_lookup_1 _ _ _ _ B2 Ew) as Hw.
  pose proof (take_drop_middle _ _ _ Ew) as Esplit. set (pre := take (Z.to_nat s) (db_set b)) in *.
  set (rest := drop (S (Z.to_nat s)) (db_set b)) in *.
  assert (Hpre : Z.of_nat (length (pre ++ [w])) = s + 1) by (unfold pre; rewrite length_app, length_take; cbn; lia).
  assert (Hgo : (forall k, bit <= k < 64 -> Z.testbit w k = true) ->
    exists n, avail_loop rest (64 - bit) = Some n /\ run_at (db_set b) off n).
  { intros Hall. destruct (avail_loop_ok off rest (pre ++ [w]) (64 - bit)) as (n & En & Hr).
    - rewrite <- app_assoc; cbn. by rewrite Esplit.
    - lia.
    - lia.
    - rewrite Hpre. lia.
    - intros i Hi. rewrite <- app_assoc; cbn. rewrite Esplit, (valid_word _ s w) by (done || lia). apply Hall. lia.
    - exists n. split; [done|]. rewrite <- app_assoc in Hr; cbn in Hr. by rewrite Esplit in Hr. }
  assert (Hpart : forall k, 0 <= k < 64 -> Z.testbit (u64 (Z.lnot (Z.shiftr w bit))) k = negb (Z.testbit w (k + bit))).
  { intros k Hk. unfold wrapu. by rewrite Z.mod_pow2_bits_low, Z.lnot_spec, Z.shiftr_spec by lia. }
  destruct (Z.eqb_spec (u64 (Z.lnot (Z.shiftr w bit))) 0) as [E|E].
  { assert (Hall : forall k, 0 <= k < 64 -> Z.testbit w (k + bit) = true).
    { intros k Hk. specialize (Hpart k Hk). rewrite E, Z.bits_0 in Hpart. by destruct (Z.testbit w (k + bit)). }
    assert (bit = 0) as Hbit0.
    { destruct (Z.eq_dec bit 0); [done|]. specialize (Hall (64 - bit) ltac:(lia)).
      rewrite Z.sub_add in Hall. apply (bit_in_word w) in Hall; [lia|done]. }
    replace 64 with (64 - bit) by lia. apply Hgo. intros k Hk. specialize (Hall (k - bit) ltac:(lia)). by rewrite Z.sub_add in Hall. }
  destruct (ctz_nonzero (u64 (Z.lnot (Z.shiftr w bit)))) as (c & -> & Hc & Hcb & Hlow); [apply wrapu_range; lia|done|].
  cbn [mbind option_bind].
  assert (Hones : forall k, bit <= k < bit + c -> Z.testbit w k = true).
  { intros k Hk. specialize (Hlow (k - bit) ltac:(lia)). rewrite Hpart, Z.sub_add in Hlow by lia. by destruct (Z.testbit w k). }
  destruct (Z.ltb_spec c (64 - bit)) as [Hlt|Hge].
  - exists c. split; [done|]. split_and!; [lia| |].
    + intros i Hi. rewrite (valid_word _ s w) by (done || lia). apply Hones. lia.
    + rewrite (valid_word _ s w) by (done || lia). rewrite Hpart in Hcb by lia.
      replace (off + c - s * 64) with (c + bit) by lia. by destruct (Z.testbit w (c + bit)).
  - assert (c = 64 - bit) as ->.
    { destruct (Z.eq_dec c (64 - bit)); [done|]. specialize (Hlow (64 - bit) ltac:(lia)). rewrite Hpart, Z.sub_add in Hlow by lia.
      apply negb_false_iff, (bit_in_word w) in Hlow; [lia|done]. }
    apply Hgo. intros k Hk. apply Hones. lia.
Qed.

Lemma has_bytes_after_ok b off :
  block_ok b -> 0 <= off <= DB_DATA_SIZE ->
  exists r, has_bytes_after b off = Some r /\ (r = true <-> exists i, off <= i /\ valid (db_set b) i = true).
Proof.
  intros [B1 B2 _ _ _] Hoff. unfold has_bytes_after. rewrite Z.shiftr_div_pow2, land_63 by lia.
  change (2 ^ 6) with 64. pose proof (split_64 off) as [Hd Hm]. set (s := off / 64) in *. set (bit := off mod 64) in *.
  unfold DB_DATA_SIZE, N_DB_SETS in *.
  destruct (lookup_lt_is_Some_2 (db_set b) (Z.to_nat s)) as [w Ew]; [lia|]. replace (aget (db_set b) s) with (Some w).
  2: { replace s with (Z.of_nat (Z.to_nat s)) by lia. by rewrite aget_nat. }
  cbn [mbind option_bind]. eexists. split; [reflexivity|]. rewrite orb_true_iff, existsb_exists, negb_true_iff, Z.eqb_neq.
  pose proof (Forall_lookup_1 _ _ _ _ B2 Ew) as Hw. split.
  - intros [H|(v & Hv & Hnz)].
    + destruct (ctz_nonzero (Z.shiftr w bit)) as (k & _ & Hk & Hb & _); [|done|].
      { unfold is_u in *. rewrite Z.shiftr_div_pow2 by lia. split; [apply Z.div_pos; lia|].
        apply Z.le_lt_trans with w; [|lia]. apply Z.div_le_upper_bound; [lia|]. nia. }
      rewrite Z.shiftr_spec in Hb by lia. pose proof (bit_in_word w _ Hw Hb).
      exists (off + k). split; [lia|]. rewrite (valid_word _ s w) by (done || lia). by replace (off + k - s * 64) with (k + bit) by lia.
    + apply list_elem_of_In, list_elem_of_lookup_1 in Hv as [j Hj]. rewrite lookup_drop in Hj.
      pose proof (Forall_lookup_1 _ _ _ _ B2 Hj) as Hvu. apply negb_true_iff, Z.eqb_neq in Hnz.
      destruct (ctz_nonzero v Hvu Hnz) as (k & _ & Hk & Hb & _). set (t := Z.of_nat (S (Z.to_nat s) + j)).
      exists (t * 64 + k). split; [lia|]. rewrite (valid_word _ t v) by (unfold t; rewrite ?Nat2Z.id; done || lia).
      by replace (t * 64 + k - t * 64) with k by lia.
  - intros (i & Hi & Hv). unfold valid in Hv. pose proof (split_64 i) as [Hdi Hmi].
    destruct (db_set b !! Z.to_nat (i / 64)) as [v|] eqn:Ev; [|done]. destruct (Z.eq_dec (i / 64) s) as [Es|Es].
    + left. intros F. rewrite Es, Ew in Ev. injection Ev as <-.
      assert (Z.testbit (Z.shiftr w bit) (i mod 64 - bit) = true) as G by (rewrite Z.shiftr_spec by lia; by rewrite Z.sub_add).
      rewrite F, Z.bits_0 in G. done.
    + right. exists v. split.
      * apply list_elem_of_In, (list_elem_of_lookup_2 _ (Z.to_nat (i / 64) - S (Z.to_nat s))). rewrite lookup_drop, <- Ev. f_equal. lia.
      * apply negb_true_iff, Z.eqb_neq. intros ->. by rewrite Z.bits_0 in Hv.
Qed.

(** * The hash table *)

Definition blocks (h : hash_data_in) : list data_block := concat (hdi_buckets h).

Record hash_ok (h : hash_data_in) : Prop := {
  ho_bits : 1 <= hdi_nbits h < 32;
  ho_len : Z.of_nat (length (hdi_buckets h)) = 2 ^ hdi_nbits h;
  ho_place : forall i l b, hdi_buckets h !! i = Some l -> b ∈ l -> BUCKNO (hdi_nbits h) (db_off b) = Z.of_nat i;
  ho_blocks : Forall block_ok (blocks h);
  ho_nodup : NoDup (db_off <$> blocks h);
  ho_count : hdi_count h = Z.of_nat (length (blocks h));
  ho_load : hdi_count h <= 2 ^ (hdi_nbits h - 1)
}.

Lemma buckno_mod n off : 0 <= n -> BUCKNO n off = (off / DB_DATA_SIZE) mod 2 ^ n.
Proof.
  intros Hn. unfold BUCKNO, N_BUCKETS. rewrite Z.shiftl_1_l. replace (2 ^ n - 1) with (Z.ones n) by (rewrite Z.ones_equiv; lia).
  by apply Z.land_ones.
Qed.

Lemma buckno_range h off : hash_ok h -> exists i l, BUCKNO (hdi_nbits h) off = Z.of_nat i /\ hdi_buckets h !! i = Some l.
Proof.
  intros [Hb Hl _ _ _ _ _]. rewrite buckno_mod by lia. pose proof (Z.mod_pos_bound (off / DB_DATA_SIZE) (2 ^ hdi_nbits h)) as Hm.
  assert (0 < 2 ^ hdi_nbits h) by (apply Z.pow_pos_nonneg; lia).
  destruct (lookup_lt_is_Some_2 (hdi_buckets h) (Z.to_nat ((off / DB_DATA_SIZE) mod 2 ^ hdi_nbits h))) as [l El]; [lia|].
  exists (Z.to_nat ((off / DB_DATA_SIZE) mod 2 ^ hdi_nbits h)), l. split; [lia|done].
Qed.

Lemma nodup_key {A} (f : A -> Z) l x y : NoDup (f <$> l) -> x ∈ l -> y ∈ l -> f x = f y -> x = y.
Proof.
  intros Hnd Hx Hy E. apply list_elem_of_lookup_1 in Hx as [i Hi], Hy as [j Hj].
  assert (i = j) as <- by (eapply NoDup_lookup; [exact Hnd|by rewrite list_lookup_fmap, Hi|by rewrite list_lookup_fmap, Hj, E]).
  congruence.
Qed.

Lemma elem_concat {A} (ll : list (list A)) x : x ∈ concat ll <-> exists i l, ll !! i = Some l /\ x ∈ l.
Proof.
  rewrite list_elem_of_In, in_concat. split.
  - intros (l & Hl & Hx). apply list_elem_of_In, list_elem_of_lookup_1 in Hl as [i Hi]. exists i, l. by rewrite list_elem_of_In.
  - intros (i & l & Hi & Hx). exists l. rewrite <- !list_elem_of_In. split; [|done]. by eapply list_elem_of_lookup_2.
Qed.

(** Looking up is membership by offset. *)
Lemma find_spec h k b : hash_ok h -> hash_find h k = Some b <-> b ∈ blocks h /\ db_off b = k.
Proof.
  intros Hh. pose proof Hh as [_ _ Hp _ Hnd _ _]. unfold hash_find. destruct (buckno_range h k Hh) as (i & l & Ei & El).
  rewrite Ei, aget_nat, El. cbn [mbind option_bind]. split.
  - intros [Hin Hat]%List.find_some. apply list_elem_of_In in Hin. unfold is_at in Hat. split; [|lia]. apply elem_concat. eauto.
  - intros [Hb Hk]. pose proof Hb as (j & l' & Ej & Hl')%elem_concat. pose proof (Hp _ _ _ Ej Hl') as Hj.
    destruct (List.find (is_at k) l) as [c|] eqn:Ef.
    + pose proof Ef as [Hin Hat]%List.find_some. f_equal. apply (nodup_key db_off (blocks h)); [done| |done|].
      * apply elem_concat. apply list_elem_of_In in Hin. eauto.
      * unfold is_at in Hat. lia.
    + exfalso. rewrite Hk, Ei in Hj. assert (i = j) as <- by lia. assert (l = l') as <- by congruence.
      apply list_elem_of_In in Hl'. pose proof (List.find_none _ _ Ef b Hl') as Hat. unfold is_at in Hat. lia.
Qed.

Lemma find_none_spec h k : hash_ok h -> hash_find h k = None <-> forall b, b ∈ blocks h -> db_off b <> k.
Proof.
  intros Hh. split.
  - intros Hn b Hb E. assert (hash_find h k = Some b) by (by apply find_spec). congruence.
  - intros Ha. destruct (hash_find h k) as [b|] eqn:E; [|done]. apply find_spec in E as [Hb Hk]; [|done]. by destruct (Ha b Hb).
Qed.

(** Replacing one bucket. *)
Lemma concat_insert {A} (ll : list (list A)) i l : ll !! i = Some l ->
  exists others, concat ll ≡ₚ l ++ others /\ forall l', concat (<[i := l']> ll) ≡ₚ l' ++ others.
Proof.
  intros Hi. exists (concat (take i ll) ++ concat (drop (S i) ll)). split.
  - rewrite <- (take_drop_middle ll i l Hi) at 1. rewrite concat_app. cbn. by rewrite Permutation_app_swap_app.
  - intros l'. rewrite insert_take_drop by (by eapply lookup_lt_Some). rewrite concat_app. cbn. by rewrite Permutation_app_swap_app.
Qed.

Lemma table_update h i l others l' c :
  hash_ok h -> hdi_buckets h !! i = Some l -> concat (<[i := l']> (hdi_buckets h)) ≡ₚ l' ++ others ->
  (forall b, b ∈ l' -> BUCKNO (hdi_nbits h) (db_off b) = Z.of_nat i) ->
  Forall block_ok (l' ++ others) -> NoDup (db_off <$> l' ++ others) -> c = Z.of_nat (length (l' ++ others)) ->
  c <= 2 ^ (hdi_nbits h - 1) -> hash_ok (with_table h (<[i := l']> (hdi_buckets h)) c (hdi_nbits h)).
Proof.
  intros [H1 H2 H3 H4 H5 H6 H7] Hi Hp Hpl Hok Hnd Hc Hload. split; cbn; unfold blocks; cbn; rewrite ?Hp; try done.
  - by rewrite length_insert.
  - intros j l0 b Hj Hb. apply list_lookup_insert_Some in Hj as [(<- & <- & _)|(Hne & Hj)]; [by apply Hpl|by eapply H3].
Qed.

(** ** Growing *)

Lemma filter_split {A} (p q : A -> bool) (l : list A) : (forall x, x ∈ l -> q x = negb (p x)) ->
  List.filter p l ++ List.filter q l ≡ₚ l.
Proof.
  induction l as [|x l IH]; intros H; [done|]. cbn. rewrite (H x) by apply list_elem_of_here.
  assert (IH' : List.filter p l ++ List.filter q l ≡ₚ l) by (apply IH; intros y Hy; apply H; by right).
  destruct (p x); cbn; [by constructor|]. rewrite <- Permutation_middle. by constructor.
Qed.

Lemma concat_split {A} (p q : A -> bool) (ll : list (list A)) : (forall x, q x = negb (p x)) ->
  concat (map (List.filter p) ll ++ map (List.filter q) ll) ≡ₚ concat ll.
Proof.
  intros H. rewrite concat_app. induction ll as [|l ll IH]; [done|]. cbn.
  rewrite <- (filter_split p q l) at 3 by (intros; apply H). rewrite <- !app_assoc. apply Permutation_app_head.
  rewrite Permutation_app_swap_app. by apply Permutation_app_head.
Qed.

(** The extra bit of the bucket number says which half a block moves to. *)
Lemma buckno_grow n off : 0 <= n ->
  let idx := Z.land (Z.shiftr (BUCKNO (n + 1) off) n) 1 in
  (idx = 0 \/ idx = 1) /\ BUCKNO (n + 1) off = BUCKNO n off + idx * 2 ^ n.
Proof.
  intros Hn idx. unfold idx. rewrite !buckno_mod by lia. set (q := off / DB_DATA_SIZE).
  rewrite Z.shiftr_div_pow2 by lia. rewrite (Z.land_ones _ 1) by lia. change (2 ^ 1) with 2.
  rewrite Z.pow_add_r by lia. change (2 ^ 1) with 2. assert (0 < 2 ^ n) by (apply Z.pow_pos_nonneg; lia).
  rewrite Z.rem_mul_r by lia. pose proof (Z.mod_pos_bound q (2 ^ n)). pose proof (Z.mod_pos_bound (q / 2 ^ n) 2).
  rewrite (Z.mul_comm (2 ^ n)), Z.div_add, (Z.div_small (q mod 2 ^ n)), Z.add_0_l, Z.mod_mod by lia. lia.
Qed.

Lemma grow_ok h ms :
  hash_ok h -> hdi_nbits h < 31 ->
  exists ok h' ms', hash_grow h ms = Some (ok, h', ms') /\ (ms = [] -> ok = true /\ ms' = []) /\
    if ok : bool then hash_ok h' /\ blocks h' ≡ₚ blocks h /\ (exists bk, h' = with_table h bk (hdi_count h) (hdi_nbits h + 1))
    else h' = h.
Proof.
  intros Hh Hn. pose proof Hh as [H1 H2 H3 H4 H5 H6 H7]. unfold hash_grow. ztest. destruct (malloc ms) as [ok ms'] eqn:Em.
  assert (Hms : ms = [] -> ok = true /\ ms' = []) by (intros ->; by injection Em).
  destruct ok; cbn [negb]; [|by exists false, h, ms']. eexists true, _, ms'. split; [reflexivity|]. split; [done|]. cbn beta iota.
  set (idx := fun b => Z.land (Z.shiftr (BUCKNO (hdi_nbits h + 1) (db_off b)) (hdi_nbits h)) 1).
  assert (Hidx : forall b, (idx b = 0 \/ idx b = 1) /\ BUCKNO (hdi_nbits h + 1) (db_off b) = BUCKNO (hdi_nbits h) (db_off b) + idx b * 2 ^ hdi_nbits h)
    by (intros b; apply buckno_grow; lia).
  assert (Hp : concat (map (List.filter (fun b => idx b =? 0)) (hdi_buckets h) ++ map (List.filter (fun b => idx b =? 1)) (hdi_buckets h))
    ≡ₚ blocks h) by (apply concat_split; intros b; destruct (Hidx b) as [[->| ->] _]; done).
  split; [|split; [exact Hp|by eexists]].
  match goal with |- context [with_table h ?x _ _] => set (bk := x); change (concat bk ≡ₚ blocks h) in Hp end.
  split; cbn; unfold blocks in *; cbn; rewrite ?Hp; try done; try lia; unfold bk.
  - rewrite length_app, !length_map, Z.pow_add_r by lia. lia.
  - intros i l b Hi Hb. destruct (Hidx b) as [_ ->].
    destruct (lt_dec i (length (hdi_buckets h))) as [Hlt|Hge].
    + rewrite lookup_app_l in Hi by (rewrite length_map; lia). rewrite list_lookup_fmap in Hi.
      destruct (hdi_buckets h !! i) as [l0|] eqn:E; [|done]. injection Hi as <-.
      apply list_elem_of_In, List.filter_In in Hb as [Hb Hi%Z.eqb_eq]. change (idx b = 0) in Hi. rewrite (H3 i l0 b E), Hi by (by apply list_elem_of_In). lia.
    + rewrite lookup_app_r in Hi by (rewrite length_map; lia). rewrite length_map, list_lookup_fmap in Hi.
      destruct (hdi_buckets h !! (i - length (hdi_buckets h))%nat) as [l0|] eqn:E; [|done]. injection Hi as <-.
      apply list_elem_of_In, List.filter_In in Hb as [Hb Hi%Z.eqb_eq]. change (idx b = 1) in Hi. rewrite (H3 _ l0 b E), Hi by (by apply list_elem_of_In). lia.
  - etransitivity; [exact H7|]. apply Z.pow_le_mono_r; lia.
Qed.

(** ** Insertion, removal, writing in place *)

(** [h'] differs from [h] in the table only. *)
Definition only_table (h h' : hash_data_in) : Prop := exists bk c n, h' = with_table h bk c n.

Lemma only_table_refl h : only_table h h.
Proof. exists (hdi_buckets h), (hdi_count h), (hdi_nbits h). by destruct h. Qed.

Lemma only_table_trans h1 h2 h3 : only_table h1 h2 -> only_table h2 h3 -> only_table h1 h3.
Proof. intros (b & c & n & ->) (b' & c' & n' & ->). by exists b', c', n'. Qed.

#[local] Instance only_table_preorder : PreOrder only_table.
Proof. split; [exact only_table_refl|exact only_table_trans]. Qed.

Lemma table_perm h h' k : hash_ok h -> hash_ok h' -> blocks h' ≡ₚ blocks h -> hash_find h' k = hash_find h k.
Proof.
  intros Hh Hh' Hp. apply option_eq. intros b. rewrite !find_spec by done. by rewrite Hp.
Qed.

Lemma add_ok h b :
  hash_ok h -> block_ok b -> hash_find h (db_off b) = None -> hdi_count h + 1 <= 2 ^ (hdi_nbits h - 1) ->
  exists i l, BUCKNO (hdi_nbits h) (db_off b) = Z.of_nat i /\ hdi_buckets h !! i = Some l /\
    let h' := with_table h (<[i := l ++ [b]]> (hdi_buckets h)) (hdi_count h + 1) (hdi_nbits h) in
    hash_ok h' /\ blocks h' ≡ₚ b :: blocks h.
Proof.
  intros Hh Hb Hf Hload. destruct (buckno_range h (db_off b) Hh) as (i & l & Ei & El). exists i, l. split; [done|]. split; [done|].
  destruct (concat_insert _ _ _ El) as (others & Hp & Hp'). specialize (Hp' (l ++ [b])). pose proof Hh as [_ _ H3 H4 H5 H6 _].
  assert (Hperm : (l ++ [b]) ++ others ≡ₚ b :: blocks h) by (unfold blocks; rewrite Hp, <- app_assoc; cbn; by rewrite <- Permutation_middle).
  split; [|unfold blocks at 1; cbn; by rewrite Hp'].
  apply (table_update h i l others); try done.
  - intros c [Hc|Hc%list_elem_of_singleton]%elem_of_app; [by eapply H3|by subst].
  - rewrite Hperm. by constructor.
  - rewrite Hperm. cbn. constructor; [|done]. intros Hin. apply list_elem_of_fmap_1 in Hin as (c & E & Hc).
    by apply (proj1 (find_none_spec h (db_off b) Hh) Hf c).
  - rewrite Hperm. cbn. unfold blocks in *. lia.
Qed.

Lemma table_insert_ok h b ms :
  hash_ok h -> block_ok b -> hash_find h (db_off b) = None -> hdi_count h < 2 ^ 30 ->
  exists ok h' ms', hash_insert h b ms = Some (ok, h', ms') /\ (ms = [] -> ok = true /\ ms' = []) /\ hash_ok h' /\ only_table h h' /\
    if ok : bool then blocks h' ≡ₚ b :: blocks h /\ hdi_count h' = hdi_count h + 1 else h' = h.
Proof.
  intros Hh Hb Hf Hc. pose proof Hh as [H1 _ _ _ _ H6 H7]. unfold hash_insert, N_BUCKETS. rewrite Z.shiftl_1_l.
  assert (Hhalf : 2 ^ hdi_nbits h = 2 * 2 ^ (hdi_nbits h - 1)) by (rewrite <- Z.pow_succ_r by lia; f_equal; lia).
  replace (2 ^ hdi_nbits h / 2) with (2 ^ (hdi_nbits h - 1)) by (rewrite Hhalf, Z.mul_comm, Z.div_mul; lia).
  assert (Hput : forall g (ms : list bool), hash_ok g -> only_table h g -> blocks g ≡ₚ blocks h -> hdi_count g = hdi_count h ->
    hdi_count g + 1 <= 2 ^ (hdi_nbits g - 1) ->
    exists ok h' ms', (let buckno := BUCKNO (hdi_nbits g) (db_off b) in
      l ← aget (hdi_buckets g) buckno; buckets ← aset (hdi_buckets g) buckno (l ++ [b]);
      Some (true, with_table g buckets (u32 (hdi_count g + 1)) (hdi_nbits g), ms)) = Some (ok, h', ms') /\
      (ms = [] -> ok = true /\ ms' = []) /\ hash_ok h' /\ only_table h h' /\ if ok : bool then blocks h' ≡ₚ b :: blocks h /\ hdi_count h' = hdi_count h + 1 else h' = h).
  { intros g ms0 Hg Hm Hp Ec Hl. destruct (add_ok g b Hg Hb) as (i & l & Ei & El & Hg' & Hp').
    { by rewrite (table_perm h g) by done. } { done. }
    cbn zeta. rewrite Ei, aget_nat, El. cbn [mbind option_bind]. rewrite aset_ok by (apply lookup_lt_Some in El; lia).
    cbn [mbind option_bind]. rewrite Nat2Z.id, wrapu_id by (unfold is_u; lia). eexists true, _, ms0. split; [reflexivity|].
    split; [done|]. split; [exact Hg'|]. split; [etransitivity; [exact Hm|by do 3 eexists]|]. split; [by rewrite <- Hp|cbn; lia]. }
  destruct (Z.leb_spec (2 ^ (hdi_nbits h - 1)) (hdi_count h)) as [Hg|Hg].
  - assert (hdi_nbits h - 1 < 30) by (apply (Z.pow_lt_mono_r_iff 2); lia).
    destruct (grow_ok h ms Hh ltac:(lia)) as (ok & g & ms' & -> & Hms & Hgr). cbn [mbind option_bind]. destruct ok.
    + destruct Hgr as (Hg' & Hp & bk & ->). destruct (Hput (with_table h bk (hdi_count h) (hdi_nbits h + 1)) ms') as (ok & h' & ms2 & E & Hms2 & HR);
        cbn; try done; [by do 3 eexists| |exists ok, h', ms2; split; [done|]; split; [|done]; intros Hnil; apply Hms2; by apply Hms].
      rewrite Z.add_simpl_r, Hhalf. assert (0 < 2 ^ (hdi_nbits h - 1)) by (apply Z.pow_pos_nonneg; lia). lia.
    + subst g. exists false, h, ms'. split_and!; done.
  - cbn [mbind option_bind]. apply Hput; try done. lia.
Qed.

Lemma bucket_remove_perm off l b : List.find (is_at off) l = Some b -> b :: bucket_remove off l ≡ₚ l.
Proof.
  induction l as [|c l IH]; [done|]. cbn. destruct (is_at off c); [by intros [= ->]|]. intros H.
  rewrite Permutation_swap. constructor. by apply IH.
Qed.

Lemma table_remove_ok h off b :
  hash_ok h -> hash_find h off = Some b ->
  exists h', hash_remove h off = Some h' /\ hash_ok h' /\ only_table h h' /\ b :: blocks h' ≡ₚ blocks h /\
    hdi_count h' = hdi_count h - 1.
Proof.
  intros Hh Hf. pose proof Hh as [H1 _ H3 H4 H5 H6 H7]. unfold hash_remove. unfold hash_find in Hf.
  destruct (buckno_range h off Hh) as (i & l & Ei & El). rewrite Ei, aget_nat, El in *. cbn [mbind option_bind] in *.
  rewrite aset_ok by (apply lookup_lt_Some in El; lia). cbn [mbind option_bind]. rewrite Nat2Z.id.
  pose proof (bucket_remove_perm _ _ _ Hf) as Hq. destruct (concat_insert _ _ _ El) as (others & Hp & Hp').
  specialize (Hp' (bucket_remove off l)).
  assert (Hperm : b :: (bucket_remove off l ++ others) ≡ₚ blocks h) by (unfold blocks; rewrite Hp; by rewrite app_comm_cons, Hq).
  assert (Hcnt : hdi_count h = Z.of_nat (S (length (bucket_remove off l ++ others)))) by (rewrite H6, <- Hperm; done).
  assert (2 ^ (hdi_nbits h - 1) <= 2 ^ 31) by (apply Z.pow_le_mono_r; lia).
  rewrite wrapu_id by (unfold is_u; lia). eexists. split; [reflexivity|]. split; [|split; [by do 3 eexists|split; [|done]]].
  - apply (table_update h i l others); try done.
    + intros c Hc. apply (H3 i l c El). rewrite <- Hq. by right.
    + apply (Forall_cons_1 block_ok b). by rewrite Hperm.
    + rewrite <- Hperm in H5. by apply NoDup_cons in H5 as [_ H5].
    + lia.
    + lia.
  - unfold blocks at 1. cbn. by rewrite Hp'.
Qed.

Lemma map_at_perm b b' l : NoDup (db_off <$> l) -> List.find (is_at (db_off b')) l = Some b ->
  exists r, l ≡ₚ b :: r /\ map (fun c => if is_at (db_off b') c then b' else c) l ≡ₚ b' :: r.
Proof.
  induction l as [|c l IH]; [done|]. cbn. intros [Hn Hnd]%NoDup_cons. destruct (is_at (db_off b') c) eqn:E.
  - intros [= ->]. exists l. split; [done|]. constructor. apply Permutation_refl'. rewrite <- (map_id l) at 2. apply map_ext_in.
    intros d Hd. destruct (is_at (db_off b') d) eqn:F; [|done]. exfalso. apply Hn. unfold is_at in *.
    apply list_elem_of_fmap. exists d. split; [lia|by apply list_elem_of_In].
  - intros Hf. destruct (IH Hnd Hf) as (r & H1 & H2). exists (c :: r). split; [rewrite H1 at 1|rewrite H2]; apply perm_swap.
Qed.

Lemma table_store_ok h b b' :
  hash_ok h -> hash_find h (db_off b') = Some b -> block_ok b' ->
  exists h' r, hash_store h b' = Some h' /\ hash_ok h' /\ only_table h h' /\ hdi_count h' = hdi_count h /\
    blocks h ≡ₚ b :: r /\ blocks h' ≡ₚ b' :: r.
Proof.
  intros Hh Hf Hb'. pose proof Hh as [H1 _ H3 H4 H5 H6 H7]. pose proof Hf as Hf0. apply find_spec in Hf0 as [Hbin Hbk]; [|done].
  unfold hash_store. unfold hash_find in Hf.
  destruct (buckno_range h (db_off b') Hh) as (i & l & Ei & El). rewrite Ei, aget_nat, El in *. cbn [mbind option_bind] in *.
  rewrite aset_ok by (apply lookup_lt_Some in El; lia). cbn [mbind option_bind]. rewrite Nat2Z.id.
  destruct (concat_insert _ _ _ El) as (others & Hp & Hp').
  assert (Hndl : NoDup (db_off <$> l)) by (unfold blocks in H5; rewrite Hp, fmap_app in H5; by apply NoDup_app in H5 as [? _]).
  destruct (map_at_perm b b' l Hndl Hf) as (r & Hr & Hr').
  set (l' := map (fun c => if is_at (db_off b') c then b' else c) l) in *. specialize (Hp' l').
  assert (E1 : blocks h ≡ₚ b :: (r ++ others)) by (unfold blocks; by rewrite Hp, Hr).
  assert (E2 : l' ++ others ≡ₚ b' :: (r ++ others)) by (by rewrite Hr').
  eexists _, (r ++ others). split; [reflexivity|]. split; [|split; [by do 3 eexists|split; [done|split; [done|]]]].
  - apply (table_update h i l others); try done.
    + intros c Hc. rewrite Hr' in Hc. apply elem_of_cons in Hc as [->|Hc]; [done|]. apply (H3 i l c El). rewrite Hr. by right.
    + rewrite E2. constructor; [done|]. rewrite E1 in H4. by apply Forall_cons_1 in H4 as [_ ?].
    + rewrite E2. rewrite E1 in H5. cbn in *. by rewrite <- Hbk.
    + rewrite E2, H6, E1. done.
  - unfold blocks at 1. cbn. by rewrite Hp'.
Qed.

(** * The bytes of the stream that are held *)

Definition key_of (o : Z) : Z := o - o mod DB_DATA_SIZE.

(** The abstract state: the byte held for stream offset [o]. *)
Definition held (h : hash_data_in) (o : Z) : option Z := b ← hash_find h (key_of o); byte_at b (o mod DB_DATA_SIZE).

Lemma key_range o : key_of o mod DB_DATA_SIZE = 0 /\ key_of o <= o < key_of o + DB_DATA_SIZE /\ o mod DB_DATA_SIZE = o - key_of o.
Proof.
  unfold key_of. pose proof (Z.mod_pos_bound o DB_DATA_SIZE ltac:(done)). pose proof (Z.div_mod o DB_DATA_SIZE ltac:(done)).
  split; [|lia]. replace (o - o mod DB_DATA_SIZE) with (o / DB_DATA_SIZE * DB_DATA_SIZE) by lia. apply Z.mod_mul. done.
Qed.

Lemma key_unique k o : k mod DB_DATA_SIZE = 0 -> k <= o < k + DB_DATA_SIZE -> key_of o = k.
Proof.
  intros Hk Ho. unfold key_of. apply Z.mod_divide in Hk as [q ->]; [|done].
  replace (o mod DB_DATA_SIZE) with (o - q * DB_DATA_SIZE); [lia|]. apply Z.mod_unique with q; lia.
Qed.

(** Tables that differ in some blocks agree elsewhere. *)
Lemma find_frame h h' l l' r k :
  hash_ok h -> hash_ok h' -> blocks h ≡ₚ l ++ r -> blocks h' ≡ₚ l' ++ r ->
  k ∉ db_off <$> l -> k ∉ db_off <$> l' -> hash_find h' k = hash_find h k.
Proof.
  intros Hh Hh' Hp Hp' Hk Hk'. apply option_eq. intros b. rewrite !find_spec by done. rewrite Hp, Hp', !elem_of_app.
  rewrite list_elem_of_fmap in Hk, Hk'. naive_solver.
Qed.

Lemma held_other h h' l l' r :
  hash_ok h -> hash_ok h' -> blocks h ≡ₚ l ++ r -> blocks h' ≡ₚ l' ++ r ->
  forall o, key_of o ∉ db_off <$> l -> key_of o ∉ db_off <$> l' -> held h' o = held h o.
Proof. intros Hh Hh' Hp Hp' o Hk Hk'. unfold held. by rewrite (find_frame h h' l l' r). Qed.

Lemma held_store h b b' h' r lo l :
  hash_ok h -> hash_ok h' -> blocks h ≡ₚ b :: r -> blocks h' ≡ₚ b' :: r -> wrote b b' lo l ->
  0 <= lo -> lo + Z.of_nat (length l) <= DB_DATA_SIZE ->
  forall o, 0 <= o -> held h' o = if inside (db_off b' + lo) (Z.of_nat (length l)) o then l !! Z.to_nat (o - (db_off b' + lo)) else held h o.
Proof.
  intros Hh Hh' Hp Hp' (Hb' & Eo & W) Hlo Hl o Ho. pose proof Hb' as [_ _ _ _ [Hk0 Hk]].
  pose proof (key_range o) as (_ & Hr & Hm). destruct (Z.eq_dec (key_of o) (db_off b')) as [E|E].
  - unfold held. rewrite E. assert (hash_find h' (db_off b') = Some b') as -> by (apply find_spec; [done|]; rewrite Hp'; split; [left|done]).
    assert (hash_find h (db_off b') = Some b) as -> by (apply find_spec; [done|]; rewrite Hp; split; [left|done]).
    cbn [mbind option_bind]. rewrite Hm, E, W by lia. unfold inside.
    replace (lo <=? o - db_off b') with (db_off b' + lo <=? o) by (zcase; lia).
    replace (o - db_off b' <? lo + _) with (o <? db_off b' + lo + Z.of_nat (length l)) by (zcase; lia).
    case_match; [f_equal; lia|done].
  - rewrite (held_other h h' [b] [b'] r) by (done || (cbn; rewrite list_elem_of_singleton; congruence)).
    replace (inside _ _ o) with false; [done|]. unfold inside. symmetry. apply andb_false_iff.
    destruct (Z.leb_spec (db_off b' + lo) o) as [H1|H1]; [right|by left]. apply Z.ltb_ge.
    destruct (Z.le_gt_cases (db_off b' + lo + Z.of_nat (length l)) o) as [|H2]; [done|]. exfalso. apply E, key_unique; [done|lia].
Qed.

Definition fresh_block (off : Z) : data_block := DB off (replicate (Z.to_nat N_DB_SETS) 0) (replicate (Z.to_nat DB_DATA_SIZE) 0).

Lemma fresh_invalid i : valid (replicate (Z.to_nat N_DB_SETS) 0) i = false.
Proof.
  unfold valid. destruct (replicate _ 0 !! Z.to_nat (i / 64)) as [w|] eqn:E; [|done].
  apply lookup_replicate_1 in E as [-> _]. apply Z.bits_0.
Qed.

Lemma fresh_ok off : 0 <= off -> off mod DB_DATA_SIZE = 0 -> block_ok (fresh_block off).
Proof.
  intros Ho Hm. split; cbn [db_set db_data db_off fresh_block].
  - by rewrite length_replicate.
  - apply Forall_replicate. unfold is_u. lia.
  - by rewrite length_replicate.
  - intros i _. apply fresh_invalid.
  - done.
Qed.

(** A new block changes nothing of what is held. *)
Lemma new_block_ok h k ms :
  hash_ok h -> 0 <= k -> k mod DB_DATA_SIZE = 0 -> hash_find h k = None -> hdi_count h < 2 ^ 30 ->
  exists res h' ms', new_block h k ms = Some (res, h', ms') /\ (ms = [] -> res <> None /\ ms' = []) /\ hash_ok h' /\ only_table h h' /\
    hdi_count h' <= hdi_count h + 1 /\ (forall o, held h' o = held h o) /\
    forall b, res = Some b -> hash_find h' k = Some b /\ db_off b = k.
Proof.
  intros Hh Hk0 Hk Hf Hc. unfold new_block. replace (k mod DB_DATA_SIZE =? 0) with true by lia. cbn [negb].
  destruct (malloc ms) as [ok ms1] eqn:Em. assert (Hms : ms = [] -> ok = true /\ ms1 = []) by (intros ->; by injection Em).
  destruct ok; cbn [negb].
  2: { exists None, h, ms1. split_and!; try done; [by intros [? _]%Hms|lia]. }
  fold (fresh_block k).
  destruct (table_insert_ok h (fresh_block k) ms1 Hh (fresh_ok k Hk0 Hk) Hf Hc) as (ok & h' & ms' & -> & Hms' & Hh' & Hm & Hr).
  cbn [mbind option_bind]. destruct ok.
  - destruct Hr as [Hp Ec]. eexists (Some (fresh_block k)), h', ms'. split; [done|].
    split; [intros Hnil; split; [done|]; by apply Hms', Hms|]. split_and!; [done|done|lia| |].
    + intros o. destruct (Z.eq_dec (key_of o) k) as [E|E].
      * unfold held. rewrite E, Hf. cbn. assert (hash_find h' k = Some (fresh_block k)) as ->
          by (apply find_spec; [done|]; rewrite Hp; split; [left|done]). cbn. unfold byte_at. cbn. by rewrite fresh_invalid.
      * apply (held_other h h' [] [fresh_block k] (blocks h)); try done; cbn; [by apply not_elem_of_nil|].
        by rewrite list_elem_of_singleton.
    + intros b [= <-]. split; [|done]. apply find_spec; [done|]. rewrite Hp. split; [left|done].
  - subst h'. exists None, h, ms'. split; [done|]. split; [intros Hnil; by destruct (Hms' (proj2 (Hms Hnil)))|]. split_and!; try done. lia.
Qed.

(** ** Inserting a frame *)

(** [h'] is [h] with [l] written at stream offset [off]. *)
Definition puts_bytes (h h' : hash_data_in) (off : Z) (l : list Z) : Prop :=
  forall o, 0 <= o -> held h' o = if inside off (Z.of_nat (length l)) o then l !! Z.to_nat (o - off) else held h o.

Lemma put_trans h h1 h2 off l1 l2 :
  puts_bytes h h1 off l1 -> puts_bytes h1 h2 (off + Z.of_nat (length l1)) l2 -> puts_bytes h h2 off (l1 ++ l2).
Proof.
  intros H1 H2 o Ho. rewrite H2, H1 by lia. unfold inside. rewrite length_app. zcase; cbn [andb]; try lia; try done;
    first [by rewrite lookup_app_l by lia|rewrite lookup_app_r by lia; f_equal; lia].
Qed.

(** One round of the loop: get the block, write what fits, store it. *)
Lemma insert_round_ok h off data size ms (key := key_of off) (nw := Z.min size (DB_DATA_SIZE - off mod DB_DATA_SIZE)) :
  hash_ok h -> 0 <= off -> 0 <= size <= Z.of_nat (length data) -> hdi_count h < 2 ^ 30 ->
  exists res h1 ms1,
    match hash_find h key with Some block => Some (Some block, h, ms) | None => new_block h key ms end = Some (res, h1, ms1) /\
    (ms = [] -> res <> None /\ ms1 = []) /\ hash_ok h1 /\ only_table h h1 /\ hdi_count h1 <= hdi_count h + 1 /\ (forall o, held h1 o = held h o) /\
    forall b, res = Some b ->
      exists b' h2, block_write b (off mod DB_DATA_SIZE) data size = Some (nw, b') /\ hash_store h1 b' = Some h2 /\
        hash_ok h2 /\ only_table h h2 /\ hdi_count h2 = hdi_count h1 /\ puts_bytes h h2 off (take (Z.to_nat nw) data) /\
        hash_find h2 key = Some b' /\ db_off b' = key.
Proof.
  intros Hh Ho Hs Hc. pose proof (key_range off) as (Hk & Hkr & Hkm). fold key in Hk, Hkr, Hkm. pose proof (Z.mod_pos_bound off DB_DATA_SIZE ltac:(done)) as Hmod.
  assert (Hk0 : 0 <= key).
  { pose proof (Z.div_pos off DB_DATA_SIZE Ho ltac:(done)). pose proof (Z.div_mod off DB_DATA_SIZE ltac:(done)).
    assert (0 < DB_DATA_SIZE) by done. nia. }
  assert (exists res h1 ms1,
    match hash_find h key with Some block => Some (Some block, h, ms) | None => new_block h key ms end = Some (res, h1, ms1) /\
    (ms = [] -> res <> None /\ ms1 = []) /\ hash_ok h1 /\ only_table h h1 /\ hdi_count h1 <= hdi_count h + 1 /\ (forall o, held h1 o = held h o) /\
    forall b, res = Some b -> hash_find h1 key = Some b /\ db_off b = key) as (res & h1 & ms1 & E & Hms & Hh1 & Hm1 & Hc1 & Hheld & Hb).
  { destruct (hash_find h key) as [b|] eqn:Ef.
    - exists (Some b), h, ms. split_and!; try done; [lia|]. intros b0 [= <-]. split; [done|]. apply find_spec in Ef as [_ ?]; done.
    - by apply new_block_ok. }
  exists res, h1, ms1. split_and!; try done. intros b Eb. destruct (Hb b Eb) as [Hf Hbk].
  assert (Hbok : block_ok b).
  { apply find_spec in Hf as [Hin _]; [|done]. pose proof (ho_blocks _ Hh1) as Hall. rewrite Forall_forall in Hall. by apply Hall. }
  destruct (block_write_ok b (off mod DB_DATA_SIZE) data size Hbok Hmod Hs) as (b' & Ew & W). fold nw in Ew, W.
  pose proof W as (Hb' & Eb' & _). rewrite <- Hbk, <- Eb' in Hf.
  destruct (table_store_ok h1 b b' Hh1 Hf Hb') as (h2 & r & Es & Hh2 & Hm2 & Ec & Hp & Hp').
  exists b', h2. split_and!; try done.
  - by transitivity h1.
  - intros o Hoo. rewrite (held_store h1 b b' h2 r _ _ Hh1 Hh2 Hp Hp' W) by (rewrite ?length_take; lia).
    replace (db_off b' + off mod DB_DATA_SIZE) with off by lia. by rewrite Hheld.
  - apply find_spec; [done|]. rewrite Hp'. split; [left|congruence].
  - congruence.
Qed.

Lemma insert_loop_ok fuel : forall h off data size ms,
  hash_ok h -> 0 <= off -> off + size <= 2 ^ 62 -> 0 <= size < 2 ^ 16 -> size <= Z.of_nat (length data) ->
  (0 < fuel)%nat -> off mod DB_DATA_SIZE + size <= DB_DATA_SIZE * Z.of_nat fuel -> hdi_count h + Z.of_nat fuel <= 2 ^ 30 ->
  exists res key' h' ms', insert_loop fuel h (key_of off) off data size ms = Some (res, key', h', ms') /\
    (ms = [] -> res <> None /\ ms' = []) /\ hash_ok h' /\ only_table h h' /\ hdi_count h' <= hdi_count h + Z.of_nat fuel /\
    exists n, 0 <= n <= size /\ puts_bytes h h' off (take (Z.to_nat n) data) /\
      forall b, res = Some b -> n = size /\ hash_find h' (db_off b) = Some b /\ block_ok b /\ key' = db_off b + DB_DATA_SIZE /\
        db_off b <= off + size <= db_off b + DB_DATA_SIZE.
Proof.
  induction fuel as [|fuel IH]; intros h off data size ms Hh Ho Hend Hsz Hlen Hf Hfuel Hc; [lia|]. cbn [insert_loop].
  destruct (insert_round_ok h off data size ms Hh Ho ltac:(lia) ltac:(lia)) as (res & h1 & ms1 & -> & Hms & Hh1 & Hm1 & Hc1 & Hheld & Hw).
  cbn [mbind option_bind]. pose proof (key_range off) as (Hk & Hkr & Hkm). pose proof (Z.mod_pos_bound off DB_DATA_SIZE ltac:(done)) as Hmod.
  destruct res as [b|].
  2: { eexists None, _, h1, ms1. split; [reflexivity|]. split; [done|]. split_and!; [done|done|lia|]. exists 0. split; [lia|]. split; [|done].
       intros o Hoo. cbn [Z.to_nat take length]. by rewrite inside_empty, Hheld. }
  destruct (Hw b eq_refl) as (b' & h2 & -> & Est & Hh2 & Hm2 & Hc2 & Hput & Hf2 & Eb').
  cbn [mbind option_bind]. rewrite Est. cbn [mbind option_bind].
  set (nw := Z.min size (DB_DATA_SIZE - off mod DB_DATA_SIZE)) in *. unfold DB_DATA_SIZE, N_DB_SETS in *.
  rewrite (wrapu_id 32), !(wrapu_id 64) by (unfold is_u; lia).
  assert (Hb' : block_ok b').
  { rewrite <- Eb' in Hf2. apply find_spec in Hf2 as [Hin _]; [|done]. pose proof (ho_blocks _ Hh2) as Hall. rewrite Forall_forall in Hall. by apply Hall. }
  destruct (Z.ltb_spec 0 (size - nw)) as [Hmore|Hdone].
  - assert (Ekey : key_of off + (4096 - 16 - 8 - 57 * 8) = key_of (off + nw)).
    { symmetry. apply key_unique; unfold DB_DATA_SIZE, N_DB_SETS; [|lia]. 
      rewrite <- Z.add_mod_idemp_l, Hk by lia. done. }
    rewrite Ekey. destruct (IH h2 (off + nw) (drop (Z.to_nat nw) data) (size - nw) ms1) as (res & k' & h' & ms' & -> & Hms' & Hh' & Hm' & Hc' & n & Hn & Hput' & Hres);
      [done|lia|lia|lia|rewrite length_drop; lia|lia| |lia|].
    { pose proof (key_range (off + nw)) as (_ & _ & Em). unfold DB_DATA_SIZE, N_DB_SETS in Em. rewrite Em. lia. }
    exists res, k', h', ms'. split; [done|]. split; [intros Hnil; by apply Hms', Hms|]. split_and!; [done|by transitivity h2|lia|]. exists (nw + n). split; [lia|]. split.
    + replace (take (Z.to_nat (nw + n)) data) with (take (Z.to_nat nw) data ++ take (Z.to_nat n) (drop (Z.to_nat nw) data)).
      2: { rewrite take_take_drop. f_equal. lia. }
      eapply put_trans; [exact Hput|]. rewrite length_take. by replace (Z.of_nat _) with nw by lia.
    + intros b0 Eb0. destruct (Hres b0 Eb0) as (? & ? & ? & ? & ?). split_and!; try done; lia.
  - eexists (Some b'), _, h2, ms1. split; [reflexivity|]. split; [intros Hnil; split; [done|by apply Hms]|]. split_and!; [done|done|lia|]. exists nw. split; [lia|]. split; [done|].
    intros b0 [= <-]. rewrite Eb'. split_and!; try done; lia.
Qed.

(** A frame as the parser delivers it. *)
Record frame_shape (f : data_frame) : Prop := {
  fs_off : 0 <= df_offset f;
  fs_end : df_offset f + df_size f <= 2 ^ 62;
  fs_size : 0 <= df_size f < 2 ^ 16;
  fs_len : df_size f = Z.of_nat (length (df_data f))
}.

Lemma frame_end_eq f : frame_shape f -> DF_END f = df_offset f + df_size f.
Proof. intros []. apply wrapu_id. unfold is_u. lia. Qed.

(** What of the frame lies at or behind the read offset. *)
Definition new_off (f : data_frame) (r : Z) : Z := Z.max (df_offset f) r.
Definition new_data (f : data_frame) (r : Z) : list Z := drop (Z.to_nat (r - df_offset f)) (df_data f).

(** Something is behind the end of the frame: a valid byte, or a block. *)
Definition behind (h : hash_data_in) (f : data_frame) : Prop :=
  exists b, b ∈ blocks h /\ (DF_END f <= db_off b \/ exists i, 0 <= i /\ DF_END f <= db_off b + i /\ valid (db_set b) i = true).

Definition insert_result (h : hash_data_in) (f : data_frame) (r : Z) (ms : list bool) (res : ins_frame) (h' : hash_data_in) : Prop :=
  match res with
  | INS_FRAME_OK => puts_bytes h h' (new_off f r) (new_data f r) /\ r <= DF_END f /\ fin_conflict h f = false /\
      hdi_fin h' = hdi_fin h || df_fin f /\ hdi_fin_off h' = (if df_fin f then DF_END f else hdi_fin_off h)
  | INS_FRAME_DUP => h' = h /\ DF_END f < r /\ df_fin f = false
  | INS_FRAME_ERR => (exists n, puts_bytes h h' (new_off f r) (take n (new_data f r))) /\ hdi_fin h' = hdi_fin h /\ hdi_fin_off h' = hdi_fin_off h /\
      (df_fin f = true /\ DF_END f < r \/ fin_conflict h f = true \/ ms <> [] \/ df_fin f = true /\ behind h' f)
  | INS_FRAME_OVERLAP => False
  end.

Lemma put_nothing h off : puts_bytes h h off [].
Proof. intros o Ho. cbn. by rewrite inside_empty. Qed.

Lemma block_behind_ok h f b :
  hash_ok h -> frame_shape f -> hash_find h (db_off b) = Some b -> block_ok b -> db_off b <= DF_END f <= db_off b + DB_DATA_SIZE ->
  exists after, has_bytes_after b (u32 (DF_END f - db_off b)) = Some after /\ (after = true -> behind h f).
Proof.
  intros Hh Hf Hfind Hb Hr. unfold DB_DATA_SIZE, N_DB_SETS in *. rewrite wrapu_id by (unfold is_u; lia).
  destruct (has_bytes_after_ok b (DF_END f - db_off b) Hb) as (after & -> & Ha); [unfold DB_DATA_SIZE, N_DB_SETS; lia|].
  exists after. split; [done|]. intros E. apply Ha in E as (i & Hi & Hv). exists b.
  apply find_spec in Hfind as [Hin _]; [|done]. split; [done|]. right. exists i. split_and!; [lia|lia|done].
Qed.

(** [lsquic_data_in_hash_insert_data_frame] writes the new part of the frame over what
    is held. *)
Lemma hash_insert_frame_ok h f r ms :
  hash_ok h -> frame_shape f -> 0 <= r <= 2 ^ 62 -> hdi_count h + 20 <= 2 ^ 30 ->
  exists res h' ms', lsquic_data_in_hash_insert_data_frame h f r ms = Some (res, h', ms') /\ (ms = [] -> ms' = []) /\
    hash_ok h' /\ hdi_count h' <= hdi_count h + 20 /\ hdi_switch h' = hdi_switch h /\ insert_result h f r ms res h'.
Proof.
  intros Hh Hf Hr Hc. pose proof Hf as [F1 F2 F3 F4]. unfold lsquic_data_in_hash_insert_data_frame.
  pose proof (frame_end_eq f Hf) as Eend. destruct (Z.ltb_spec (DF_END f) r) as [Hlt|Hge].
  { exists (if df_fin f then INS_FRAME_ERR else INS_FRAME_DUP), h, ms. split; [done|]. split; [done|]. split_and!; try done; [lia|].
    destruct (df_fin f) eqn:E; [|done]. cbn. split_and!; try done; [exists 0%nat; apply put_nothing|by left]. }
  destruct (fin_conflict h f) eqn:Hfc.
  { exists INS_FRAME_ERR, h, ms. split; [done|]. split; [done|]. split_and!; try done; [lia|]. cbn. split_and!; try done; [exists 0%nat; apply put_nothing|].
    right. by left. }
  set (diff := if df_offset f <? r then u64 (r - df_offset f) else 0).
  assert (Hdiff : diff = Z.max 0 (r - df_offset f)) by (unfold diff; zcase; rewrite ?wrapu_id by (unfold is_u; lia); lia). clearbody diff.
  replace (diff <=? df_size f) with true by lia. cbn [negb].
  rewrite (wrapu_id 32), (wrapu_id 64 (df_offset f + diff)) by (unfold is_u; lia).
  replace (df_offset f + diff) with (new_off f r) by (unfold new_off; lia).
  pose proof (key_range (new_off f r)) as (_ & Hk & Hkm). pose proof (Z.mod_pos_bound (new_off f r) DB_DATA_SIZE ltac:(done)) as Hmod.
  assert (Hno : 0 <= new_off f r /\ new_off f r = df_offset f + diff) by (unfold new_off; lia).
  rewrite wrapu_id by (unfold is_u; fold (key_of (new_off f r)); pose proof (Z.mod_le (new_off f r) DB_DATA_SIZE); unfold key_of; lia).
  fold (key_of (new_off f r)). replace (drop (Z.to_nat diff) (df_data f)) with (new_data f r) by (unfold new_data; f_equal; lia).
  set (size := df_size f - diff) in *. set (fuel := S (S (Z.to_nat (size / DB_DATA_SIZE)))).
  assert (Hfuel : new_off f r mod DB_DATA_SIZE + size <= DB_DATA_SIZE * Z.of_nat fuel /\ Z.of_nat fuel <= 20).
  { unfold fuel. pose proof (Z.div_mod size DB_DATA_SIZE ltac:(done)). pose proof (Z.mod_pos_bound size DB_DATA_SIZE ltac:(done)).
    pose proof (Z.div_pos size DB_DATA_SIZE ltac:(lia) ltac:(done)). unfold DB_DATA_SIZE, N_DB_SETS in *. lia. }
  destruct (insert_loop_ok fuel h (new_off f r) (new_data f r) size ms) as (res & k' & h' & ms' & -> & Hms & Hh' & Hm & Hc' & n & Hn & Hput & Hres);
    [done|lia|lia|lia|unfold new_data; rewrite length_drop; lia|unfold fuel; lia|lia|lia|].
  destruct Hm as (bk & cnt & nb & Eh'). cbn [mbind option_bind]. destruct res as [b|].
  2: { exists INS_FRAME_ERR, h', ms'. split; [done|]. split; [intros Hnil; by apply Hms|]. split_and!; [done|lia|by rewrite Eh'|].
       cbn. split_and!; [by eexists|by rewrite Eh'|by rewrite Eh'|]. right. right. left. intros Hnil. by destruct (Hms Hnil). }
  destruct (Hres b eq_refl) as (-> & Hfb & Hbok & Ek' & Hbr).
  assert (Hfull : puts_bytes h h' (new_off f r) (new_data f r)).
  { rewrite take_ge in Hput by (unfold new_data; rewrite length_drop; lia). done. }
  destruct (df_fin f) eqn:Efin.
  - destruct (block_behind_ok h' f b Hh' Hf Hfb Hbok ltac:(lia)) as (after & -> & Hbh). cbn [mbind option_bind].
    destruct (after || bool_decide (is_Some (hash_find h' k'))) eqn:Eb.
    + exists INS_FRAME_ERR, h', ms'. split; [done|]. split; [intros Hnil; by apply Hms|]. split_and!; [done|lia|by rewrite Eh'|].
      cbn. split_and!; [by eexists|by rewrite Eh'|by rewrite Eh'|]. right. right. right. split; [done|].
      apply orb_prop in Eb as [->|Eb]; [by apply Hbh|]. apply bool_decide_eq_true in Eb as [c Ec].
      apply find_spec in Ec as [Hin Ec]; [|done]. exists c. split; [done|]. left. lia.
    + exists INS_FRAME_OK, (with_fin h' (DF_END f)), ms'. split; [done|]. split; [intros Hnil; by apply Hms|].
      assert (hash_ok (with_fin h' (DF_END f))) by (destruct Hh' as [? ? ? ? ? ? ?]; split; done).
      split_and!; try done; [cbn; lia|by rewrite Eh'|]. unfold insert_result. rewrite Efin. cbn.
      split_and!; try done. by rewrite orb_true_r.
  - exists INS_FRAME_OK, h', ms'. split; [done|]. split; [intros Hnil; by apply Hms|]. split_and!; [done|lia|by rewrite Eh'|].
    unfold insert_result. rewrite Efin. cbn. split_and!; try done; [by rewrite orb_false_r, Eh'|by rewrite Eh'].
Qed.

(** ** Reading *)

Lemma find_block_ok h k b : hash_ok h -> hash_find h k = Some b -> block_ok b /\ db_off b = k.
Proof.
  intros Hh Hf. apply find_spec in Hf as [Hin Hk]; [|done]. split; [|done].
  pose proof (ho_blocks _ Hh) as Hall. rewrite Forall_forall in Hall. by apply Hall.
Qed.

Lemma byte_at_Some b i : block_ok b -> 0 <= i -> is_Some (byte_at b i) <-> valid (db_set b) i = true.
Proof.
  intros [_ _ H3 H4 _] Hi. unfold byte_at. destruct (valid (db_set b) i) eqn:E; [|split; [by intros []|done]].
  split; [done|intros _]. apply lookup_lt_is_Some_2. destruct (Z.lt_ge_cases i DB_DATA_SIZE) as [|F]; [lia|]. rewrite H4 in E by lia. done.
Qed.

Lemma held_in_block h b o :
  hash_ok h -> hash_find h (key_of o) = Some b -> held h o = byte_at b (o - key_of o).
Proof. intros Hh Hf. unfold held. rewrite Hf. cbn. f_equal. apply key_range. Qed.

Lemma word_bit b off w : 0 <= off -> db_set b !! Z.to_nat (off / 64) = Some w ->
  negb (Z.land w (Z.shiftl 1 (off mod 64)) =? 0) = valid (db_set b) off.
Proof.
  intros Ho Hw. unfold valid. rewrite Hw, Z.shiftl_1_l. apply has_bit. apply Z.mod_pos_bound. lia.
Qed.

(** The part of a data frame that can be read, at read offset [r]. *)
Record readable_frame (h : hash_data_in) (r : Z) (f : data_frame) (n : Z) : Prop := {
  rf_key : df_offset f = key_of r;
  rf_off : df_offset f + df_read_off f = r;
  rf_roff : 0 <= df_read_off f;
  rf_size : df_size f = df_read_off f + n;
  rf_max : df_size f <= DB_DATA_SIZE;
  rf_len : 0 < n -> Z.of_nat (length (df_data f)) = DB_DATA_SIZE;
  rf_data : forall o, r <= o < r + n -> held h o = df_data f !! Z.to_nat (o - df_offset f)
}.

Lemma setup_ok h r b :
  hash_ok h -> 0 <= r -> hash_find h (key_of r) = Some b ->
  exists ok h', setup_data_frame h r b = Some (ok, h') /\
    match held h r with
    | Some _ => ok = true /\ exists n f, h' = with_frame h (Some (key_of r)) f /\ 0 < n /\ readable_frame h r f n /\
        (df_size f = DB_DATA_SIZE \/ held h (r + n) = None) /\ df_fin f = hdi_fin h && (df_read_off f + df_size f =? hdi_fin_off h)
    | None => if hdi_fin h && (r =? hdi_fin_off h)
        then ok = true /\ exists f, h' = with_frame h (Some (key_of r)) f /\ readable_frame h r f 0 /\ df_fin f = true
        else ok = false /\ h' = h
    end.
Proof.
  intros Hh Hr Hf. destruct (find_block_ok h _ b Hh Hf) as [Hb Hbk]. pose proof Hb as [B1 B2 B3 B4 _].
  pose proof (key_range r) as (Hk & Hkr & Hkm). pose proof (Z.mod_pos_bound r DB_DATA_SIZE ltac:(done)) as Hmod.
  unfold setup_data_frame. set (off := r mod DB_DATA_SIZE) in *. rewrite !(Z.shiftr_div_pow2 off 6), !(land_63 off) by lia. change (2 ^ 6) with 64.
  pose proof (split_64 off) as [Hd Hm]. assert (Z.to_nat (off / 64) < length (db_set b))%nat as Hlt by (unfold DB_DATA_SIZE, N_DB_SETS in *; lia).
  destruct (lookup_lt_is_Some_2 _ _ Hlt) as [w Ew].
  replace (aget (db_set b) (off / 64)) with (Some w).
  2: { replace (off / 64) with (Z.of_nat (Z.to_nat (off / 64))) by lia. by rewrite aget_nat. }
  cbn [mbind option_bind]. rewrite (word_bit b off w) by (done || lia).
  rewrite (held_in_block h b r Hh Hf). replace (r - key_of r) with off by lia.
  pose proof (byte_at_Some b off Hb ltac:(lia)) as Hv. unfold DB_DATA_SIZE, N_DB_SETS in *.
  rewrite !(wrapu_id 16 off) by (unfold is_u; lia).
  destruct (byte_at b off) as [x|] eqn:Ebyte.
  - rewrite (proj1 Hv) by eauto. destruct (n_avail_ok b off Hb) as (n & En & (Hn0 & Hrun & Hstop) & Hle); [unfold DB_DATA_SIZE, N_DB_SETS; lia|].
    rewrite Z.shiftr_div_pow2, land_63 in En by lia. change (2 ^ 6) with 64 in En. rewrite En. cbn [mbind option_bind].
    unfold DB_DATA_SIZE, N_DB_SETS in *. rewrite (wrapu_id 16) by (unfold is_u; lia).
    assert (0 < n).
    { destruct (Z.eq_dec n 0) as [->|]; [|lia]. rewrite Z.add_0_r, (proj1 Hv) in Hstop by eauto. done. }
    eexists true, _. split; [reflexivity|]. split; [done|]. exists n, (DF (db_data b) (db_off b) off (off + n) (hdi_fin h && (off + (off + n) =? hdi_fin_off h))).
    split; [by rewrite Hbk|]. split; [done|]. split_and!; try done.
    + split; cbn; try lia; try done. intros o Hoo.
      assert (key_of o = key_of r) as Eo by (apply key_unique; unfold DB_DATA_SIZE, N_DB_SETS in *; [done|lia]).
      rewrite (held_in_block h b o Hh) by (by rewrite Eo). rewrite Eo, Hbk. unfold byte_at. rewrite Hrun by lia. done.
    + cbn. unfold DB_DATA_SIZE, N_DB_SETS in *. destruct (Z.eq_dec (off + n) (4096 - 16 - 8 - 57 * 8)) as [|Hne]; [by left|right].
      assert (key_of (r + n) = key_of r) as Eo by (apply key_unique; unfold DB_DATA_SIZE, N_DB_SETS in *; [done|lia]).
      rewrite (held_in_block h b (r + n) Hh) by (by rewrite Eo). rewrite Eo. unfold byte_at.
      replace (r + n - key_of r) with (off + n) by lia. by rewrite Hstop.
  - replace (valid (db_set b) off) with false by (destruct (valid (db_set b) off); [by destruct (proj2 Hv eq_refl)|done]).
    destruct (hdi_fin h && (r =? hdi_fin_off h)).
    + eexists true, _. split; [reflexivity|]. split; [done|]. eexists. split; [by rewrite Hbk|]. split; [|done].
      split; cbn; unfold DB_DATA_SIZE, N_DB_SETS; lia.
    + by exists false, h.
Qed.

(** [hash_di_get_frame]: a run of bytes if the byte at the read offset is held, an
    empty frame with the FIN at the end of the stream, nothing otherwise. *)
Lemma get_frame_ok h r :
  hash_ok h -> 0 <= r ->
  exists ok h', hash_di_get_frame h r = Some (ok, h') /\
    match held h r with
    | Some _ => ok = true /\ exists n f, h' = with_frame h (Some (key_of r)) f /\ 0 < n /\ readable_frame h r f n /\
        (df_size f = DB_DATA_SIZE \/ held h (r + n) = None) /\ df_fin f = hdi_fin h && (df_read_off f + df_size f =? hdi_fin_off h)
    | None => if hdi_fin h && (r =? hdi_fin_off h)
        then ok = true /\ exists last f, h' = with_frame h last f /\ (last = Some (key_of r) /\ is_Some (hash_find h (key_of r)) \/ last = None) /\
             df_size f = df_read_off f /\ df_fin f = true /\ (last = None -> df_size f = 0) /\
             (last <> None -> readable_frame h r f 0)
        else ok = false /\ h' = h
    end.
Proof.
  intros Hh Hr. unfold hash_di_get_frame. fold (key_of r). destruct (hash_find h (key_of r)) as [b|] eqn:Hf.
  - destruct (setup_ok h r b Hh Hr Hf) as (ok & h' & -> & H). exists ok, h'. split; [done|].
    destruct (held h r); [done|]. destruct (hdi_fin h && (r =? hdi_fin_off h)); [|done].
    destruct H as (-> & f & -> & Hrf & Hfin). split; [done|]. exists (Some (key_of r)), f. split; [done|].
    pose proof Hrf as [_ R1 R2 R3 R4 _ _]. split; [left; split; [done|by eexists]|]. split_and!; try done; lia.
  - assert (held h r = None) as -> by (unfold held; by rewrite Hf).
    destruct (hdi_fin h && (r =? hdi_fin_off h)); [|by exists false, h].
    eexists true, _. split; [reflexivity|]. split; [done|]. eexists None, _. split; [reflexivity|]. split; [by right|].
    cbn. split_and!; done.
Qed.

Lemma hash_ok_same h h' :
  hdi_buckets h' = hdi_buckets h -> hdi_count h' = hdi_count h -> hdi_nbits h' = hdi_nbits h -> hash_ok h -> hash_ok h'.
Proof. intros E1 E2 E3 [? ? ? ? ? ? ?]. split; unfold blocks in *; rewrite ?E1, ?E2, ?E3; done. Qed.

Lemma held_same h h' o : hdi_buckets h' = hdi_buckets h -> hdi_nbits h' = hdi_nbits h -> held h' o = held h o.
Proof. intros E1 E2. unfold held, hash_find. by rewrite E1, E2. Qed.

Lemma remove_held h k b h' o :
  hash_ok h -> hash_ok h' -> b :: blocks h' ≡ₚ blocks h -> db_off b = k -> key_of o <> k -> held h' o = held h o.
Proof.
  intros Hh Hh' Hp Hk Hne. apply (held_other h h' [b] [] (blocks h')); try done; cbn.
  - by rewrite list_elem_of_singleton, Hk.
  - apply not_elem_of_nil.
Qed.

(** [hash_di_frame_done] drops nothing that is still to be read. *)
Lemma hash_frame_done_ok h k b :
  hash_ok h -> hdi_last_block h = Some k -> hash_find h k = Some b ->
  0 <= df_read_off (hdi_data_frame h) <= DB_DATA_SIZE ->
  exists h', hash_di_frame_done h = Some h' /\ hash_ok h' /\ hdi_count h' <= hdi_count h /\
    hdi_fin h' = hdi_fin h /\ hdi_fin_off h' = hdi_fin_off h /\
    (forall o, o < k \/ k + df_read_off (hdi_data_frame h) <= o -> held h' o = held h o) /\
    (forall o, held h' o = held h o \/ held h' o = None).
Proof.
  intros Hh Hl Hf Hro. unfold hash_di_frame_done. rewrite Hl, Hf. cbn [mbind option_bind].
  destruct (find_block_ok h k b Hh Hf) as [Hb Hbk]. set (ro := df_read_off (hdi_data_frame h)) in *.
  assert (exists fin, (if ro =? DB_DATA_SIZE then Some true else after ← has_bytes_after b ro; Some (negb after)) = Some fin /\
    (fin = true -> forall i, ro <= i -> byte_at b i = None)) as (fin & -> & Hfin).
  { destruct (Z.eqb_spec ro DB_DATA_SIZE) as [E|E].
    - exists true. split; [done|]. intros _ i Hi. unfold byte_at. by rewrite (bo_end _ Hb) by lia.
    - destruct (has_bytes_after_ok b ro Hb ltac:(lia)) as (a & -> & Ha). exists (negb a). split; [done|]. intros Ea i Hi.
      unfold byte_at. destruct (valid (db_set b) i) eqn:Ev; [|done]. rewrite (proj2 Ha) in Ea by eauto. done. }
  cbn [mbind option_bind]. destruct fin.
  - destruct (table_remove_ok h k b Hh Hf) as (h1 & -> & Hh1 & (bk & c & nb & ->) & Hp & Ec). cbn [mbind option_bind].
    assert (Hgone : hash_find (with_table h bk c nb) k = None).
    { apply find_none_spec; [done|]. intros b0 Hb0 E0. pose proof (ho_nodup _ Hh) as Hnd. rewrite <- Hp in Hnd. cbn in Hnd.
      apply NoDup_cons in Hnd as [Hni _]. apply Hni. rewrite Hbk, <- E0. by apply list_elem_of_fmap_2. }
    assert (Hnone : forall o, key_of o = k -> held (with_table h bk c nb) o = None) by (intros o E; unfold held; by rewrite E, Hgone).
    assert (Hheld : forall o, o < k \/ k + ro <= o -> held (with_table h bk c nb) o = held h o).
    { intros o Ho. destruct (Z.eq_dec (key_of o) k) as [E|E]; [|by eapply remove_held].
      pose proof (key_range o) as (_ & Hkr & _). rewrite (held_in_block h b o Hh) by (by rewrite E). rewrite Hfin by (done || lia). by apply Hnone. }
    assert (Hor : forall o, held (with_table h bk c nb) o = held h o \/ held (with_table h bk c nb) o = None).
    { intros o. destruct (Z.eq_dec (key_of o) k) as [E|E]; [right; by apply Hnone|left; by eapply remove_held]. }
    case_match; eexists; (split; [reflexivity|]); cbn in *; split_and!; try done; try lia. by eapply hash_ok_same, Hh1.
  - exists h. split_and!; done || lia || (intros o; by left).
Qed.

(** ** Counting what can be read *)

(** All that is held lies below [2 ^ 62]. *)
Definition bounded (h : hash_data_in) : Prop := forall o, is_Some (held h o) -> o < 2 ^ 62.

(** The blocks from the read offset on. *)
Definition ahead (h : hash_data_in) (r : Z) : nat := length (List.filter (fun b => key_of r <=? db_off b) (blocks h)).

Lemma filter_length_lt {A} (p q : A -> bool) l x :
  (forall y, q y = true -> p y = true) -> x ∈ l -> p x = true -> q x = false ->
  (length (List.filter q l) < length (List.filter p l))%nat.
Proof.
  intros Hpq Hx Hp Hq.
  assert (Hle : forall l, (length (List.filter q l) <= length (List.filter p l))%nat).
  { intros k. clear -Hpq. induction k as [|y k IH]; cbn; [lia|]. destruct (q y) eqn:E; [rewrite (Hpq y E)|destruct (p y)]; cbn; lia. }
  induction l as [|y l IH]; [by apply elem_of_nil in Hx|]. cbn. apply elem_of_cons in Hx as [<-|Hx].
  - rewrite Hp, Hq. cbn. specialize (Hle l). lia.
  - specialize (IH Hx). destruct (q y) eqn:E; [rewrite (Hpq y E)|destruct (p y)]; cbn; lia.
Qed.

Lemma held_block h r : is_Some (held h r) -> exists b, hash_find h (key_of r) = Some b.
Proof. unfold held. destruct (hash_find h (key_of r)) as [b|]; [by exists b|by intros []]. Qed.

Lemma ahead_pos h r : hash_ok h -> is_Some (held h r) -> (0 < ahead h r)%nat.
Proof.
  intros Hh [b Hb]%held_block. apply find_spec in Hb as [Hin Hk]; [|done]. unfold ahead.
  assert (b ∈ List.filter (fun b => key_of r <=? db_off b) (blocks h)) as Hf.
  { apply list_elem_of_In, List.filter_In. split; [by apply list_elem_of_In|lia]. }
  destruct (List.filter _ _); [by apply elem_of_nil in Hf|cbn; lia].
Qed.

(** Reading to the end of a block leaves one block less ahead. *)
Lemma ahead_next h h' r n :
  hash_ok h -> is_Some (held h r) -> r + n = key_of r + DB_DATA_SIZE -> blocks h' = blocks h -> (ahead h' (r + n) < ahead h r)%nat.
Proof.
  intros Hh [b Hb]%held_block Hrn E. apply find_spec in Hb as [Hin Hk]; [|done]. unfold ahead. rewrite E.
  pose proof (key_range r) as (Hk0 & Hkr & _). assert (0 < DB_DATA_SIZE) by done.
  assert (key_of (r + n) = key_of r + DB_DATA_SIZE) as ->.
  { apply key_unique; [|lia]. rewrite <- Z.add_mod_idemp_l, Hk0 by done. by rewrite Z.add_0_l, Z.mod_same. }
  apply (filter_length_lt _ _ _ b); [intros y; rewrite !Z.leb_le; lia|done|lia|apply Z.leb_gt; lia].
Qed.

Lemma readable_loop_ok fuel : forall h r,
  hash_ok h -> 0 <= r <= 2 ^ 62 -> bounded h -> (ahead h r < fuel)%nat \/ held h r = None /\ (0 < fuel)%nat ->
  exists last f n, hash_readable_loop fuel h r = Some (r + n, with_frame h last f) /\ 0 <= n /\ r + n <= 2 ^ 62 /\
    (forall o, r <= o < r + n -> is_Some (held h o)) /\ held h (r + n) = None.
Proof.
  induction fuel as [|fuel IH]; intros h r Hh Hr Hbd Hfuel; [lia|]. cbn [hash_readable_loop].
  destruct (get_frame_ok h r Hh ltac:(lia)) as (ok & h1 & -> & H). cbn [mbind option_bind].
  destruct (held h r) as [x|] eqn:Ex.
  - destruct H as (-> & n & f & -> & Hn & [R0 R1 R2 R3 R4 R5 R6] & Hend & _). cbn [hdi_data_frame with_frame].
    replace (df_size f - df_read_off f) with n by lia. replace (n =? 0) with false by lia. cbn [andb negb].
    assert (Hall : forall o, r <= o < r + n -> is_Some (held h o)).
    { intros o Ho. rewrite R6 by lia. apply lookup_lt_is_Some_2. specialize (R5 Hn). lia. }
    assert (Hb2 : r + n <= 2 ^ 62) by (pose proof (Hbd (r + n - 1) (Hall (r + n - 1) ltac:(lia))); lia).
    rewrite wrapu_id by (unfold is_u; lia). set (h1 := with_frame h (Some (key_of r)) f).
    assert (Hh1 : hash_ok h1) by (by apply (hash_ok_same h)).
    assert (Hsame : forall o, held h1 o = held h o) by (intros o; by apply held_same).
    destruct (IH h1 (r + n)) as (last & g & m & E & Hm & Hm2 & Ho & Hs); [done|lia|intros o; rewrite Hsame; apply Hbd| |].
    + destruct Hfuel as [Hfuel|[? _]]; [|congruence]. pose proof (ahead_pos h r Hh ltac:(rewrite Ex; by eexists)) as Hpos.
      destruct Hend as [Hend|Hend]; [left|right; rewrite Hsame; split; [done|lia]].
      enough (ahead h1 (r + n) < ahead h r)%nat by lia. apply ahead_next; [done|rewrite Ex; by eexists|lia|done].
    + exists last, g, (n + m). rewrite E. split; [f_equal; f_equal; lia|]. split_and!; [lia|lia| |].
      * intros o Hoo. destruct (Z.lt_ge_cases o (r + n)); [apply Hall; lia|]. rewrite <- Hsame. apply Ho. lia.
      * rewrite <- Hsame, <- Hs. f_equal. lia.
  - assert (exists last f, h1 = with_frame h last f /\ ok && negb (df_size (hdi_data_frame h1) - df_read_off (hdi_data_frame h1) =? 0) = false)
      as (last & f & -> & ->).
    { destruct (hdi_fin h && (r =? hdi_fin_off h)).
      - destruct H as (-> & last & f & -> & _ & E & _). exists last, f. split; [done|]. cbn. replace (_ =? 0) with true by lia. done.
      - destruct H as [-> ->]. exists (hdi_last_block h), (hdi_data_frame h). split; [by destruct h|done]. }
    exists last, f, 0. rewrite Z.add_0_r. split_and!; try done; lia.
Qed.

(** [hash_di_readable_bytes] is the length of the run of held bytes at the read offset. *)
Lemma readable_bytes_ok h r :
  hash_ok h -> 0 <= r <= 2 ^ 62 -> bounded h ->
  exists n h', hash_di_readable_bytes h r = Some (n, h') /\ 0 <= n /\ (forall o, r <= o < r + n -> is_Some (held h o)) /\
    held h (r + n) = None /\ hash_ok h' /\ forall o, held h' o = held h o.
Proof.
  intros Hh Hr Hb. unfold hash_di_readable_bytes.
  destruct (readable_loop_ok (S (S (Z.to_nat (hdi_count h)))) h r Hh Hr Hb) as (last & f & n & -> & Hn & Hn2 & Ho & Hs).
  { left. rewrite (ho_count _ Hh). unfold ahead. pose proof (List.filter_length_le (fun b => key_of r <=? db_off b) (blocks h)). lia. }
  cbn [mbind option_bind]. exists n, (with_frame h last f). rewrite wrapu_id by (unfold is_u; lia). split; [f_equal; f_equal; lia|].
  split_and!; try done. by apply (hash_ok_same h).
Qed.
