(* ===== verification/DataInIf.v ===== *)
(** The data-in interface (lsquic_data_in_if.h) and the stream on top of it: the
    three implementations, switching between them (lsquic_di_nocopy.c,
    lsquic_di_hash.c, lsquic_di_error.c) and the code of lsquic_stream.c that
    feeds frames in and reads bytes out.

    [DataInOps] has the operations the read loop uses; [DataInLaws] is what an
    implementation promises.  The read loop is verified against the laws, the two
    implementations and their combination with switching discharge them. *)
From S2P Require Import Prelude DataIn DiHash DiHashThms.
Local Open Scope Z_scope.

(** * The interface *)

(** [di_advance] is [data_frame->df_read_off += nread] on the frame last handed
    out.  [di_done] is [di_frame_done] with the switch that may follow it, at the
    new read offset; its inner [None] is a failed switch.  The outer [None]s are
    undefined behaviour. *)
Class DataInOps (S : Type) := {
  di_get_frame : S -> Z -> option (option data_frame * S);
  di_advance : S -> Z -> S;
  di_done : S -> Z -> option (option S)
}.

Record read_outcome (S : Type) := RO {
  ro_state : option S;    (** [None]: the switch failed, the stream returns -1 *)
  ro_offset : Z;
  ro_bytes : list Z;
  ro_fin : bool
}.
Arguments RO {S} _ _ _ _.
Arguments ro_state {S} _.
Arguments ro_offset {S} _.
Arguments ro_bytes {S} _.
Arguments ro_fin {S} _.

Section read_loop.
Context {S : Type} `{!DataInOps S}.

(** [read_data_frames] of lsquic_stream.c, without filtering, for a [readf] that
    copies up to [want] bytes in all. *)
Fixpoint read_frames (fuel : nat) (s : S) (read_offset want : Z) (acc : list Z) : option (read_outcome S) :=
  match fuel with
  | O => None
  | Datatypes.S fuel =>
    '(frame, s) ← di_get_frame s read_offset;
    match (frame : option data_frame) with
    | None => Some (RO (Some s) read_offset acc false)
    | Some f =>
      let toread := df_size f - df_read_off f in
      let nread := if negb (toread =? 0) || df_fin f then Z.min toread want else 0 in
      let short_read := (negb (toread =? 0) || df_fin f) && (nread <? toread) in
      let bytes := take (Z.to_nat nread) (drop (Z.to_nat (df_read_off f)) (df_data f)) in
      let s := di_advance s nread in
      let read_offset := u64 (read_offset + nread) in
      let acc := acc ++ bytes in
      if u16 (df_read_off f + nread) =? df_size f then
        s ← di_done s read_offset;
        match (s : option S) with
        | None => Some (RO None read_offset acc false)
        | Some s => if df_fin f then Some (RO (Some s) read_offset acc true) else read_frames fuel s read_offset (want - nread) acc
        end
      else if short_read then Some (RO (Some s) read_offset acc false)
      else None
    end
  end.
End read_loop.

(** ** The laws *)

(** What a reported end of the stream means: the FIN is where the reading ends, or
    the comparison of [setup_data_frame] holds, which takes the offset of the frame
    in its block for the offset of the block in the stream. *)
Definition fin_report (fin_off start reached : Z) : Prop :=
  fin_off = reached \/ fin_off = start mod DB_DATA_SIZE + (start mod DB_DATA_SIZE + (reached - start)).

Section laws.
Context {S : Type} `{!DataInOps S} (rep : (Z -> Z) -> Z -> S -> Prop) (has : S -> Z -> Prop) (empties : S -> nat) (cost : S -> Z)
  (fin_seen : S -> option Z -> Prop).

(** [s'] is [s] after reading to [r]: a good state in which the same bytes wait. *)
Definition reads (str : Z -> Z) (r : Z) (s s' : S) : Prop :=
  rep str r s' /\ (forall o, r <= o -> has s' o <-> has s o) /\ cost s' <= cost s /\ (forall x, fin_seen s' x -> fin_seen s x).

(** What a read relies on: a frame that is handed out has the bytes of the stream at
    the read offset, and can be consumed in part or in full; when no frame is handed
    out, no byte waits there.  Only after a FIN can the switch after a frame fail. *)
Definition get_promise (str : Z -> Z) (r : Z) (s : S) : Prop :=
  exists frame s', di_get_frame s r = Some (frame, s') /\
  match frame with
  | None => ~ has s r /\ reads str r s s'
  | Some f => let n := df_size f - df_read_off f in
    0 <= df_read_off f <= df_size f /\ df_size f < 2 ^ 16 /\ r + n <= 2 ^ 62 /\
    (df_fin f = true -> exists o, fin_seen s (Some o) /\ fin_report o r (r + n)) /\
    (forall m, 0 <= m <= n -> take (Z.to_nat m) (drop (Z.to_nat (df_read_off f)) (df_data f)) = span str r (r + m)) /\
    (forall m, 0 <= m < n -> reads str (r + m) s (di_advance s' m)) /\
    exists res, di_done (di_advance s' n) (r + n) = Some res /\
      match res with
      | Some s'' => reads str (r + n) s s'' /\ (n = 0 -> df_fin f = false -> (empties s'' < empties s)%nat)
      | None => fin_seen s None
      end
  end.
End laws.

(** [di_rep str r s]: [s] is a good state of a stream [str] read up to [r].
    [di_has s o]: the byte at offset [o] is waiting.  [di_empties] counts empty
    frames without a FIN, which a read passes over; [di_cost] bounds the blocks
    of memory the state needs; [di_fin_seen s None]: a frame with a FIN has come
    in; [di_fin_seen s (Some o)]: the state knows of a FIN at the offset [o]. *)
Class DataInLaws (S : Type) `{!DataInOps S} := {
  di_rep : (Z -> Z) -> Z -> S -> Prop;
  di_has : S -> Z -> Prop;
  di_empties : S -> nat;
  di_cost : S -> Z;
  di_fin_seen : S -> option Z -> Prop;
  law_range str r s : di_rep str r s -> 0 <= r <= 2 ^ 62;
  law_get str r s : di_rep str r s -> get_promise di_rep di_has di_empties di_cost di_fin_seen str r s
}.

Definition reads_to {S} `{DataInLaws S} : (Z -> Z) -> Z -> S -> S -> Prop := reads di_rep di_has di_cost di_fin_seen.

Section read_spec.
Context {S : Type} `{DataInLaws S}.

(** What a read promises: it delivers the stream from the read offset on, at most
    [want] bytes, keeps what is behind, and stops only for want of room, at a FIN or
    because the next byte is not there.  It fails only after a FIN, and reports the end
    of the stream only for a FIN that has come in. *)
Definition read_promise (str : Z -> Z) (r want : Z) (s : S) (acc : list Z) (ro : read_outcome S) : Prop :=
  r <= ro_offset ro <= r + want /\ ro_bytes ro = acc ++ span str r (ro_offset ro) /\
  (ro_fin ro = true -> exists o start, di_fin_seen s (Some o) /\ r <= start <= ro_offset ro /\ fin_report o start (ro_offset ro)) /\
  match ro_state ro with
  | Some s' => reads_to str (ro_offset ro) s s' /\ (ro_fin ro = true \/ ro_offset ro = r + want \/ ~ di_has s' (ro_offset ro))
  | None => di_fin_seen s None
  end.

Lemma reads_to_trans str r1 r2 s1 s2 s3 : r1 <= r2 -> reads_to str r1 s1 s2 -> reads_to str r2 s2 s3 -> reads_to str r2 s1 s3.
Proof.
  intros Hle (_ & H2 & H3 & H4) (K1 & K2 & K3 & K4). split_and!; [done| |lia|auto]. intros o Ho. rewrite K2, H2 by lia. done.
Qed.

(** One round of the loop, and what is left to read. *)
Lemma read_round_ok str s r want acc :
  di_rep str r s -> 0 <= want ->
  (exists fuel ro, read_frames fuel s r want acc = Some ro /\ read_promise str r want s acc ro) \/
  exists m s'', 0 <= m <= want /\ reads_to str (r + m) s s'' /\ (0 < m \/ (di_empties s'' < di_empties s)%nat) /\
    forall fuel, read_frames (Datatypes.S fuel) s r want acc = read_frames fuel s'' (r + m) (want - m) (acc ++ span str r (r + m)).
Proof.
  intros Hs Hw. pose proof (law_range _ _ _ Hs) as Hr. destruct (law_get str r s Hs) as (frame & s' & Eg & Hf).
  destruct frame as [f|].
  2: { left. exists 1%nat. eexists. cbn [read_frames]. rewrite Eg. cbn [mbind option_bind]. split; [reflexivity|].
       destruct Hf as (Hno & Hf). unfold read_promise. cbn [ro_state ro_offset ro_bytes ro_fin].
       rewrite span_nil, app_nil_r. split; [lia|]. split; [done|]. split; [done|]. split; [done|]. right. right. by rewrite (proj1 (proj2 Hf)) by lia. }
  cbn zeta in Hf. destruct Hf as (Ho & Hsz & Hend & Hfin & Hbytes & Hshort & res & Hdone & Hres).
  set (toread := df_size f - df_read_off f) in *.
  assert (Hn : (if negb (toread =? 0) || df_fin f then Z.min toread want else 0) = Z.min toread want)
    by (destruct (Z.eqb_spec toread 0); cbn; [destruct (df_fin f)|]; lia).
  destruct (Z.le_gt_cases toread want) as [Hle|Hgt].
  - assert (Em : Z.min toread want = toread) by lia. destruct res as [s''|].
    2: { left. exists 1%nat. eexists. cbn [read_frames]. rewrite Eg. cbn [mbind option_bind]. fold toread. rewrite Hn, Em.
         rewrite (wrapu_id 64 (r + toread)), (wrapu_id 16) by (unfold is_u; lia). replace (_ =? df_size f) with true by lia.
         rewrite Hdone. cbn [mbind option_bind]. split; [reflexivity|]. unfold read_promise. cbn. rewrite Hbytes by lia. split_and!; done || lia. }
    destruct Hres as [Hto Hemp]. destruct (df_fin f) eqn:Efin.
    + left. exists 1%nat. eexists. cbn [read_frames]. rewrite Eg. cbn [mbind option_bind]. fold toread. rewrite Efin, orb_true_r, Em.
      rewrite (wrapu_id 64 (r + toread)), (wrapu_id 16) by (unfold is_u; lia). replace (_ =? df_size f) with true by lia.
      rewrite Hdone. cbn [mbind option_bind]. split; [reflexivity|]. unfold read_promise. cbn. rewrite Hbytes by lia. split_and!; try (done || lia || by left).
      intros _. destruct (Hfin eq_refl) as (o & Ho1 & Ho2). exists o, r. split_and!; done || lia.
    + right. exists toread, s''. split; [lia|]. split; [done|]. split; [destruct (Z.eq_dec toread 0); [right; by apply Hemp|left; lia]|].
      intros fuel. cbn [read_frames]. rewrite Eg. cbn [mbind option_bind]. fold toread. rewrite Efin in *. rewrite Hn, Em.
      rewrite (wrapu_id 64 (r + toread)), (wrapu_id 16) by (unfold is_u; lia). replace (_ =? df_size f) with true by lia.
      rewrite Hdone. cbn [mbind option_bind]. by rewrite Hbytes by lia.
  - left. exists 1%nat. eexists. cbn [read_frames]. rewrite Eg. cbn [mbind option_bind]. fold toread.
    replace (toread =? 0) with false by lia. cbn [negb orb andb]. replace (Z.min toread want) with want by lia.
    rewrite (wrapu_id 64 (r + want)), (wrapu_id 16) by (unfold is_u; lia). replace (_ =? df_size f) with false by lia.
    replace (want <? toread) with true by lia. split; [reflexivity|]. pose proof (Hshort want ltac:(lia)) as Hto'.
    unfold read_promise. cbn. rewrite Hbytes by lia. split_and!; done || lia || by (right; left).
Qed.

(** The loop ends: a round reads bytes, of which the stream has less than [2 ^ 62],
    or passes over an empty frame. *)
Lemma read_frames_ok str n : forall k s r want acc,
  di_rep str r s -> 0 <= want -> 2 ^ 62 - r = Z.of_nat n -> di_empties s = k ->
  exists fuel ro, read_frames fuel s r want acc = Some ro /\ read_promise str r want s acc ro.
Proof.
  induction n as [n IHn] using lt_wf_ind. intros k. induction k as [k IHk] using lt_wf_ind. intros s r want acc Hs Hw En Ek.
  destruct (read_round_ok str s r want acc Hs Hw) as [Hd|(m & s'' & Hm & Hto & Hprog & Estep)]; [done|].
  pose proof Hto as (Hs'' & _ & _ & Hfs). pose proof (law_range _ _ _ Hs'').
  assert (exists fuel ro, read_frames fuel s'' (r + m) (want - m) (acc ++ span str r (r + m)) = Some ro /\
    read_promise str (r + m) (want - m) s'' (acc ++ span str r (r + m)) ro) as (fuel & ro & E & Hr3 & Hb3 & Hf3 & Hst3).
  { destruct (Z.eq_dec m 0) as [->|Hne].
    - apply (IHk (di_empties s'')); try done; try lia.
    - apply (IHn (Z.to_nat (2 ^ 62 - (r + m))) ltac:(lia) (di_empties s'')); try done; lia. }
  exists (Datatypes.S fuel), ro. rewrite Estep. split; [done|]. split; [lia|]. split; [|split].
  - rewrite Hb3, <- app_assoc. f_equal. symmetry. apply span_app. lia.
  - intros Hx. destruct (Hf3 Hx) as (o & st & ? & ? & ?). exists o, st. split_and!; auto; lia.
  - destruct (ro_state ro) as [s3|]; [|auto]. destruct Hst3 as [Hto3 Hstop]. split.
    + by apply (reads_to_trans str (r + m) _ s s'' s3); [lia|..].
    + destruct Hstop as [?|[?|?]]; [by left|right; left; lia|by right; right].
Qed.

(** More fuel does not change the result. *)
Lemma read_frames_mono fuel : forall fuel' s r want acc ro,
  (fuel <= fuel')%nat -> read_frames fuel s r want acc = Some ro -> read_frames fuel' s r want acc = Some ro.
Proof using.
  clear. induction fuel as [|fuel IH]; intros [|fuel'] s r want acc ro Hle; [done|done|lia|]. cbn [read_frames].
  destruct (di_get_frame s r) as [[[f|] s']|]; [|done|done]. cbn [mbind option_bind].
  destruct (wrapu 16 _ =? df_size f); [|done]. destruct (di_done _ _) as [[s''|]|]; [|done|done]. cbn [mbind option_bind].
  destruct (df_fin f); [done|]. apply IH. lia.
Qed.
End read_spec.

(** * The no-copy implementation *)

#[export] Instance nocopy_ops : DataInOps nocopy_data_in := {
  di_get_frame s r := Some (nocopy_di_get_frame s r, s);
  di_advance := advance_first;
  di_done s r := s ← nocopy_di_frame_done s; Some (Some s)
}.

Definition empty_frames (fs : list data_frame) : nat := length (List.filter (fun f => df_size f - df_read_off f =? 0) fs).

(** The FIN of a frame, if it has one. *)
Definition fin_of (f : data_frame) (x : option Z) : Prop :=
  df_fin f = true /\ match x with None => True | Some o => o = df_offset f + df_size f end.

Definition nocopy_fin_seen (s : nocopy_data_in) (x : option Z) : Prop :=
  (x = None /\ ncdi_fin_set s = true) \/ exists f, f ∈ ncdi_frames_in s /\ fin_of f x.

(** 20 blocks hold any frame. *)
Definition frames_cost (fs : list data_frame) : Z := 20 * Z.of_nat (length fs).

Lemma advance_fin_set s n : ncdi_fin_set (advance_first s n) = ncdi_fin_set s.
Proof. unfold advance_first. by destruct (ncdi_frames_in s). Qed.

Lemma done_fin_set s s' : nocopy_di_frame_done s = Some s' -> ncdi_fin_set s' = ncdi_fin_set s.
Proof. unfold nocopy_di_frame_done. destruct (ncdi_frames_in s); [done|]. case_match; [|done]. by intros [= <-]. Qed.

Lemma nocopy_law str r s : di_inv str r s ->
  get_promise di_inv (fun s => waiting (ncdi_frames_in s)) (fun s => empty_frames (ncdi_frames_in s))
    (fun s => frames_cost (ncdi_frames_in s)) nocopy_fin_seen str r s.
Proof.
  intros Hi. unfold get_promise, reads. cbn [di_get_frame nocopy_ops]. eexists _, s. split; [reflexivity|].
  destruct (nocopy_di_get_frame s r) as [f|] eqn:Eg; [|split; [by apply (no_frame_no_data str)|done]].
  unfold nocopy_di_get_frame in Eg. destruct (ncdi_frames_in s) as [|f' fs] eqn:Efs; [done|].
  destruct (Z.eqb_spec (DF_ROFF f') r) as [Er|]; [|done]. injection Eg as ->.
  pose proof (all_ok str r s Hi f ltac:(rewrite Efs; apply list_elem_of_here)) as Hf. pose proof Hf as [? ? ? ? ? _]. pose proof (di_r _ _ _ Hi).
  pose proof Er as Er'. rewrite (df_roff_eq Hf) in Er'. cbn zeta. set (n := df_size f - df_read_off f).
  assert (Hadv : forall m, 0 <= m <= n -> di_inv str (r + m) (advance_first s m) /\
    ncdi_frames_in (advance_first s m) = DF (df_data f) (df_offset f) (df_read_off f + m) (df_size f) (df_fin f) :: fs).
  { intros m Hm. destruct (advance_inv str r s f fs m Hi Efs Er ltac:(lia) ltac:(lia)) as [E I]. done. }
  split_and!; try lia.
  - intros Hfin. exists (r + n). split; [|by left]. right. exists f. rewrite Efs. split; [left|]. split; [done|lia].
  - intros m Hm. rewrite (frame_span str f (df_read_off f) m Hf) by lia. by rewrite Er'.
  - intros m Hm. destruct (Hadv m ltac:(lia)) as [I E]. cbn [di_advance nocopy_ops]. rewrite E. split_and!; [done| |unfold frames_cost; cbn [length]; lia|].
    + intros o Ho. rewrite !waiting_cons. cbn. intuition lia.
    + unfold nocopy_fin_seen. rewrite advance_fin_set, E, Efs. intros x [?|(g & [->|Hg]%elem_of_cons & Hfin)]; [by left|right; exists f|right; exists g].
      * split; [left|done].
      * split; [by right|done].
  - destruct (Hadv n ltac:(lia)) as [I E]. cbn [di_advance di_done nocopy_ops].
    destruct (frame_done_ok _ _ _ _ _ I E ltac:(cbn; lia)) as (s2 & Ed & E2 & I2). rewrite Ed. cbn [mbind option_bind df_offset df_size] in *.
    exists (Some s2). rewrite E2. replace (df_offset f + df_size f) with (r + n) in I2 by lia. split_and!; try done.
    + intros o Ho. rewrite waiting_cons. intuition lia.
    + unfold frames_cost. cbn [length]. lia.
    + unfold nocopy_fin_seen. rewrite (done_fin_set _ _ Ed), advance_fin_set, E2, Efs. intros x [?|(g & Hg & Hfin)]; [by left|right; exists g].
      split; [by right|done].
    + intros Hn0 _. unfold empty_frames. cbn. fold n. replace (n =? 0) with true by lia. cbn. lia.
Qed.

#[export] Instance nocopy_laws : DataInLaws nocopy_data_in := {
  di_rep := di_inv;
  di_has s := waiting (ncdi_frames_in s);
  di_empties s := empty_frames (ncdi_frames_in s);
  di_cost s := frames_cost (ncdi_frames_in s);
  di_fin_seen := nocopy_fin_seen;
  law_range := di_r;
  law_get := nocopy_law
}.

(** The loop at this instance is the one of DataIn. *)
Lemma read_frames_nocopy fuel : forall s r want acc,
  read_frames fuel s r want acc =
  option_map (fun rr => RO (Some (rr_state rr)) (rr_offset rr) (rr_bytes rr) (rr_fin rr)) (read_data_frames fuel s r want acc).
Proof.
  induction fuel as [|fuel IH]; intros s r want acc; [done|]. cbn -[wrapu Z.min]. destruct (nocopy_di_get_frame s r) as [f|]; [|done].
  cbn -[wrapu Z.min]. destruct (wrapu 16 _ =? df_size f); [|by destruct (_ && _)].
  destruct (nocopy_di_frame_done _) as [s'|]; [|done]. cbn -[wrapu Z.min]. destruct (df_fin f); [done|]. apply IH.
Qed.

(** * The hash implementation *)

Definition advance_frame (f : data_frame) (nread : Z) : data_frame :=
  DF (df_data f) (df_offset f) (u16 (df_read_off f + nread)) (df_size f) (df_fin f).

#[export] Instance hash_ops : DataInOps hash_data_in := {
  di_get_frame h r := '(ok, h) ← hash_di_get_frame h r; Some (if (ok : bool) then Some (hdi_data_frame h) else None, h);
  di_advance h n := with_frame h (hdi_last_block h) (advance_frame (hdi_data_frame h) n);
  di_done h r := h ← hash_di_frame_done h; Some (Some h)
}.

Definition hash_fin_seen (h : hash_data_in) (x : option Z) : Prop :=
  hdi_fin h = true /\ match x with None => True | Some o => o = hdi_fin_off h end.

Definition hash_has (h : hash_data_in) (o : Z) : Prop := is_Some (held h o).

(** Every byte that is held is the stream's. *)
Record hash_rep (str : Z -> Z) (r : Z) (h : hash_data_in) : Prop := {
  hr_ok : hash_ok h;
  hr_r : 0 <= r <= 2 ^ 62;
  hr_bytes : forall o x, 0 <= o -> held h o = Some x -> x = str o /\ o < 2 ^ 62
}.

Lemma held_nonneg h o : hash_ok h -> is_Some (held h o) -> 0 <= o.
Proof.
  intros Hh [b Hb]%held_block. destruct (find_block_ok h _ b Hh Hb) as [[_ _ _ _ [Hk _]] Ek].
  pose proof (key_range o) as (_ & Hr & _). lia.
Qed.

Lemma hash_rep_weaken str r r' h h' :
  hash_rep str r h -> hash_ok h' -> 0 <= r' <= 2 ^ 62 -> (forall o, held h' o = held h o \/ held h' o = None) -> hash_rep str r' h'.
Proof.
  intros [_ _ H3] Hh' Hr' Hheld. split; [done|done|]. intros o x Ho Hx. destruct (Hheld o) as [E|E]; [|congruence].
  apply H3; [done|congruence].
Qed.

(** Consuming a frame that was handed out. *)
Lemma hash_frame_law str r h last f n :
  hash_rep str r h -> r + n <= 2 ^ 62 -> 0 <= n -> (last = Some (key_of r) /\ is_Some (hash_find h (key_of r)) \/ last = None) ->
  df_size f = df_read_off f + n -> (last <> None -> readable_frame h r f n) -> (last = None -> n = 0 /\ df_size f = 0 /\ df_fin f = true) ->
  (forall m, 0 <= m < n -> reads hash_rep hash_has hdi_count hash_fin_seen str (r + m) h (di_advance (with_frame h last f) m)) /\
  exists h'', di_done (di_advance (with_frame h last f) n) (r + n) = Some (Some h'') /\ reads hash_rep hash_has hdi_count hash_fin_seen str (r + n) h h''.
Proof.
  intros Hrep Hend Hn Hlast Hsz Hrf Hnone. pose proof Hrep as [Hh Hr Hb]. split.
  - intros m Hm. split_and!; [|done|done|done]. apply (hash_rep_weaken str r _ h); [done|by apply (hash_ok_same h)|lia|by left].
  - cbn [di_done di_advance hash_ops]. destruct Hlast as [[-> [b Eb]]| ->].
    + pose proof (Hrf ltac:(done)) as [R0 R1 R2 R3 R4 _ _]. unfold DB_DATA_SIZE, N_DB_SETS in R4.
      set (g := with_frame h (Some (key_of r)) (advance_frame f n)).
      assert (Er : df_read_off (hdi_data_frame g) = df_size f) by (cbn; rewrite wrapu_id by (unfold is_u; lia); lia).
      destruct (hash_frame_done_ok g (key_of r) b) as (h'' & E & Hh'' & Hc & Hfin & Hfo & Hheld & Hor);
        [by apply (hash_ok_same h)|done|done|rewrite Er; unfold DB_DATA_SIZE, N_DB_SETS; lia|].
      change (with_frame (with_frame h (Some (key_of r)) f) _ _) with g. rewrite E. exists h''. split; [done|]. split_and!; [|intros o Ho|done|unfold hash_fin_seen; by rewrite Hfin, Hfo].
      * apply (hash_rep_weaken str r _ h); [done|done|lia|]. intros o. apply (Hor o).
      * unfold hash_has. rewrite Hheld; [done|]. right. rewrite Er. lia.
    + destruct (Hnone eq_refl) as (-> & Ez & Ef). unfold hash_di_frame_done.
      cbn [with_frame hdi_last_block hdi_data_frame advance_frame df_fin df_size]. rewrite Ef, Ez. cbn [andb Z.eqb].
      eexists. split; [reflexivity|]. rewrite Z.add_0_r. split_and!; [|done|done|done].
      apply (hash_rep_weaken str r _ h); [done|by apply (hash_ok_same h)|lia|by left].
Qed.

Lemma hash_law str r h : hash_rep str r h -> get_promise hash_rep hash_has (fun _ => 0%nat) hdi_count hash_fin_seen str r h.
Proof.
  intros Hrep. pose proof Hrep as [Hh Hr Hb]. unfold get_promise. cbn [di_get_frame hash_ops].
  destruct (get_frame_ok h r Hh ltac:(lia)) as (ok & h1 & -> & H). cbn [mbind option_bind].
  destruct (held h r) as [x|] eqn:Ex.
  - destruct H as (-> & n & f & -> & Hn & Hrf & _ & Hfin). pose proof Hrf as [R0 R1 R2 R3 R4 R5 R6]. cbn [hdi_data_frame with_frame].
    assert (n = df_size f - df_read_off f) as -> by lia. clear R3. set (n := df_size f - df_read_off f) in *.
    assert (Hall : forall i, 0 <= i < n -> df_data f !! Z.to_nat (df_read_off f + i) = Some (str (r + i))).
    { intros i Hi. pose proof (R6 (r + i) ltac:(lia)) as E. replace (r + i - df_offset f) with (df_read_off f + i) in E by lia.
      assert (is_Some (df_data f !! Z.to_nat (df_read_off f + i))) as [y Ey].
      { apply lookup_lt_is_Some_2. specialize (R5 Hn). lia. }
      rewrite Ey in E. destruct (Hb (r + i) y ltac:(lia) E) as [-> _]. done. }
    assert (Hend : r + n <= 2 ^ 62).
    { destruct (Hb (r + (n - 1)) (str (r + (n - 1))) ltac:(lia)) as [_ ?]; [|lia]. rewrite R6 by lia.
      rewrite <- (Hall (n - 1)) by lia. f_equal. lia. }
    destruct (held_block h r ltac:(rewrite Ex; by eexists)) as [b Eb].
    destruct (hash_frame_law str r h (Some (key_of r)) f n Hrep Hend ltac:(lia)) as [Hshort (h'' & Ed & Hto)];
      [left; split; [done|by eexists]|lia|done|done|].
    eexists _, _. split; [reflexivity|]. cbn zeta. fold n. unfold DB_DATA_SIZE, N_DB_SETS in *.
    split_and!; try lia; [| | |].
    + intros Hx. rewrite Hfin in Hx. apply andb_prop in Hx as [Hx1 Hx2%Z.eqb_eq]. exists (hdi_fin_off h). split; [done|].
      right. unfold key_of, DB_DATA_SIZE, N_DB_SETS in R0 |- *. lia.
    + intros m Hm. apply list_eq. intros i. unfold span. rewrite list_lookup_fmap.
      destruct (decide (i < Z.to_nat m)%nat).
      * rewrite lookup_take_lt, lookup_drop, lookup_seq_lt by lia. cbn. rewrite <- (Hall (Z.of_nat i)) by lia. f_equal. lia.
      * rewrite lookup_take_ge, lookup_seq_ge by lia. done.
    + exact Hshort.
    + exists (Some h''). split_and!; try done. lia.
  - destruct (hdi_fin h && (r =? hdi_fin_off h)) eqn:Ehf.
    + destruct H as (-> & last & f & -> & Hlast & Esz & Efin & Hz & Hrf). cbn [hdi_data_frame with_frame].
      destruct (hash_frame_law str r h last f 0 Hrep ltac:(lia) ltac:(lia) Hlast ltac:(lia) Hrf) as [_ (h'' & Ed & Hto)]; [intros E; by rewrite Hz|].
      assert (Hro : 0 <= df_read_off f /\ df_size f < 2 ^ 16).
      { destruct last as [k|]; [|rewrite <- Esz, Hz by done; lia]. destruct (Hrf ltac:(done)) as [_ _ ? _ ? _ _]. unfold DB_DATA_SIZE, N_DB_SETS in *. lia. }
      eexists _, _. split; [reflexivity|]. cbn zeta. assert (df_size f - df_read_off f = 0) as En by lia.
      apply andb_prop in Ehf as [Ehf1 Ehf2%Z.eqb_eq]. split_and!; try lia.
      * intros _. exists r. split; [done|]. left. lia.
      * intros m Hm. replace m with 0 by lia. by rewrite Z.add_0_r, span_nil.
      * rewrite En. exists (Some h''). split_and!; try done. congruence.
    + destruct H as [-> ->]. exists None, h. split; [done|]. split; [unfold hash_has; rewrite Ex; by intros []|]. by split_and!.
Qed.

#[export] Instance hash_laws : DataInLaws hash_data_in := {
  di_rep := hash_rep;
  di_has := hash_has;
  di_empties _ := 0%nat;
  di_cost := hdi_count;
  di_fin_seen := hash_fin_seen;
  law_range str r h := hr_r str r h;
  law_get := hash_law
}.
