(* ===== verification/StreamIn.v ===== *)
(** The receiving side of a stream (lsquic_stream.c): the implementations of the
    data-in interface behind one stream, switching between them, frames coming in
    and bytes read out.

    [si_ms] gives the results of the allocations to come ([DiHash.malloc]).  Flow
    control is in Flow.v: [fc_ok] is what lsquic_stream_update_sfcw returned;
    [head_in_fin] stands for the flags SMBF_USE_HEADERS and STREAM_HEAD_IN_FIN, which
    the code for headers sets.  STREAM_FIN_REACHED is an argument and a result of
    [lsquic_stream_readf].  Not part of the state: the history log, the lists of streams
    with work to do, and the packet a frame belongs to. *)
From S2P Require Import Prelude DataIn DiHash DiHashThms DataInIf.
Local Open Scope Z_scope.

Inductive data_in := Nocopy (s : nocopy_data_in) | Hash (h : hash_data_in) | Error.

Record stream_in := SI {
  si_data_in : data_in;
  si_autoswitch : bool;        (** SMBF_AUTOSWITCH *)
  si_ietf : bool;              (** SMBF_IETF *)
  si_fin_recvd : bool;         (** STREAM_FIN_RECVD *)
  sm_fin_off : Z;
  si_ms : list bool
}.

Definition with_data_in (s : stream_in) (d : data_in) (ms : list bool) : stream_in :=
  SI d (si_autoswitch s) (si_ietf s) (si_fin_recvd s) (sm_fin_off s) ms.

(** The part of [stream_new_common] that makes the data-in object; [calloc] of the
    stream itself comes first. *)
Definition stream_new (use_di_hash autoswitch ietf : bool) (ms : list bool) : option (option stream_in) :=
  let '(ok, ms) := malloc ms in
  if negb ok then Some None else
  '(d, ms) ← (if use_di_hash then '(h, ms) ← lsquic_data_in_hash_new 0 ms; Some (option_map Hash h, ms)
              else let '(ok, ms) := malloc ms in Some (if ok then Some (Nocopy lsquic_data_in_nocopy_new) else None, ms));
  Some (option_map (fun d => SI d autoswitch ietf false 0 ms) d).

(** ** Switching *)

(** The loop of [nocopy_di_switch_impl]. *)
Fixpoint move_loop (fs : list data_frame) (h : hash_data_in) (read_offset : Z) (ms : list bool)
    : option (option hash_data_in * list bool) :=
  match fs with
  | [] => Some (Some h, ms)
  | f :: fs =>
    '(ins, h, ms) ← lsquic_data_in_hash_insert_data_frame h f read_offset ms;
    match ins with INS_FRAME_ERR => Some (None, ms) | _ => move_loop fs h read_offset ms end
  end.

Definition nocopy_di_switch_impl (s : nocopy_data_in) (read_offset : Z) (ms : list bool)
    : option (option hash_data_in * list bool) :=
  '(h, ms) ← lsquic_data_in_hash_new (ncdi_byteage s) ms;
  match (h : option hash_data_in) with
  | None => Some (None, ms)
  | Some h => move_loop (ncdi_frames_in s) h read_offset ms
  end.

Definition hash_di_switch_impl (h : hash_data_in) (ms : list bool) : option (option nocopy_data_in * list bool) :=
  if negb (hdi_count h =? 0) then None else
  let '(ok, ms) := malloc ms in
  Some (if ok then Some lsquic_data_in_nocopy_new else None, ms).

(** [di_if->di_switch_impl]; for the error implementation it is [assert(0)]. *)
Definition di_switch_impl (d : data_in) (read_offset : Z) (ms : list bool) : option (option data_in * list bool) :=
  match d with
  | Nocopy s => '(h, ms) ← nocopy_di_switch_impl s read_offset ms; Some (option_map Hash h, ms)
  | Hash h => '(s, ms) ← hash_di_switch_impl h ms; Some (option_map Nocopy s, ms)
  | Error => None
  end.

(** [di_flags & DI_SWITCH_IMPL] *)
Definition di_switch_flag (d : data_in) : bool :=
  match d with Nocopy s => di_switch s | Hash h => hdi_switch h | Error => false end.

(** The call of [di_switch_impl] and what follows when it fails. *)
Definition switch_data_in (s : stream_in) (read_offset : Z) : option (bool * stream_in) :=
  '(d, ms) ← di_switch_impl (si_data_in s) read_offset (si_ms s);
  Some (match d with
        | Some d => (true, with_data_in s d ms)
        | None => (false, with_data_in s Error ms)
        end).

Definition maybe_switch_data_in (s : stream_in) (read_offset : Z) : option (bool * stream_in) :=
  if si_autoswitch s && di_switch_flag (si_data_in s) then switch_data_in s read_offset else Some (true, s).

(** ** Frames in *)

(** The result, the new state and how often the frame was put back to its pool. *)
Definition di_insert_frame (d : data_in) (f : data_frame) (read_offset : Z) (ms : list bool)
    : option (ins_frame * data_in * list bool * Z) :=
  match d with
  | Nocopy s => '(ins, s) ← nocopy_di_insert_frame s f read_offset; Some (ins, Nocopy s, ms, 0)
  | Hash h =>
    '(ins, h, ms) ← lsquic_data_in_hash_insert_data_frame h f read_offset ms;
    Some (ins, Hash h, ms, if decide (ins = INS_FRAME_OK) then 1 else 0)
  | Error => Some (INS_FRAME_ERR, Error, ms, 0)
  end.

Definition di_own_on_ok (d : data_in) : bool := match d with Nocopy _ => true | _ => false end.

Definition with_fin_recvd (s : stream_in) (f : data_frame) : stream_in :=
  if df_fin f then SI (si_data_in s) (si_autoswitch s) (si_ietf s) true (DF_END f) (si_ms s) else s.

(** The code from the label [insert_frame] on; the fuel counts the jumps back to it. *)
Fixpoint insert_frame_at (fuel : nat) (s : stream_in) (f : data_frame) (read_offset : Z) (fc_ok : bool)
    : option (Z * stream_in * Z) :=
  match fuel with
  | O => None
  | S fuel =>
    '(ins, d, ms, puts) ← di_insert_frame (si_data_in s) f read_offset (si_ms s);
    let s := with_data_in s d ms in
    match ins with
    | INS_FRAME_OK =>
      let puts := if di_own_on_ok d then puts else puts + 1 in
      if fc_ok then
        '(ok, s) ← maybe_switch_data_in (with_fin_recvd s f) read_offset;
        Some (if (ok : bool) then 0 else -1, s, puts)
      else Some (-1, s, puts)
    | INS_FRAME_DUP => Some (0, s, puts + 1)
    | INS_FRAME_OVERLAP =>
      '(ok, s) ← switch_data_in s read_offset;
      if (ok : bool) then insert_frame_at fuel s f read_offset fc_ok else Some (-1, s, puts + 1)
    | INS_FRAME_ERR => Some (-1, s, puts + 1)
    end
  end.

Definition lsquic_stream_frame_in (s : stream_in) (f : data_frame) (read_offset : Z) (head_in_fin fc_ok : bool)
    : option (Z * stream_in * Z) :=
  if head_in_fin then Some (-1, s, 1) else
  if df_fin f && si_ietf s && si_fin_recvd s && negb (sm_fin_off s =? DF_END f) then Some (-1, s, 1) else
  insert_frame_at 2 s f read_offset fc_ok.

(** ** Bytes out *)

#[export] Instance stream_ops : DataInOps stream_in := {
  di_get_frame s r :=
    match si_data_in s with
    | Nocopy n => '(f, n) ← di_get_frame n r; Some (f, with_data_in s (Nocopy n) (si_ms s))
    | Hash h => '(f, h) ← di_get_frame h r; Some (f, with_data_in s (Hash h) (si_ms s))
    | Error => Some (None, s)
    end;
  di_advance s n :=
    match si_data_in s with
    | Nocopy m => with_data_in s (Nocopy (di_advance m n)) (si_ms s)
    | Hash h => with_data_in s (Hash (di_advance h n)) (si_ms s)
    | Error => s
    end;
  di_done s r :=
    s ← (match si_data_in s with
         | Nocopy n => n ← nocopy_di_frame_done n; Some (with_data_in s (Nocopy n) (si_ms s))
         | Hash h => h ← hash_di_frame_done h; Some (with_data_in s (Hash h) (si_ms s))
         | Error => Some s
         end);
    '(ok, s) ← maybe_switch_data_in s r;
    Some (if (ok : bool) then Some s else None)
}.

(** [lsquic_stream_readf] and [stream_readf] for a stream without headers that was
    neither reset nor shut down for reading: the value returned (0 at the end of the
    stream, -1 when there is nothing to read or a switch failed), STREAM_FIN_REACHED
    and what [read_data_frames] did. *)
Definition lsquic_stream_readf (fuel : nat) (s : stream_in) (fin_reached : bool) (read_offset want : Z) (acc : list Z)
    : option (Z * bool * read_outcome stream_in) :=
  if fin_reached then Some (0, true, RO (Some s) read_offset acc false) else
  ro ← read_frames fuel s read_offset want acc;
  let total_nread := ro_offset ro - read_offset in
  Some (match ro_state ro with
        | None => -1
        | Some _ => if negb (total_nread =? 0) then total_nread else if ro_fin ro then 0 else -1
        end, ro_fin ro, ro).

(** * A good state

    While allocations succeed; the blocks of memory in use are bounded so that the
    bucket array's index fits its type.  With SMBF_AUTOSWITCH, the hash is switched
    as soon as it asks for it. *)

Definition stream_cost (s : stream_in) : Z :=
  match si_data_in s with Nocopy n => di_cost n | Hash h => di_cost h | Error => 0 end.

Definition stream_rep (str : Z -> Z) (r : Z) (s : stream_in) : Prop :=
  si_ms s = [] /\ stream_cost s <= 2 ^ 29 /\
  match si_data_in s with
  | Nocopy n => di_rep str r n
  | Hash h => di_rep str r h /\ (si_autoswitch s = true -> hdi_switch h = false)
  | Error => False
  end.

Definition stream_has (s : stream_in) (o : Z) : Prop :=
  match si_data_in s with Nocopy n => di_has n o | Hash h => di_has h o | Error => False end.

Definition stream_fin_seen (s : stream_in) (x : option Z) : Prop :=
  match si_data_in s with Nocopy n => di_fin_seen n x | Hash h => di_fin_seen h x | Error => False end.

Definition stream_empties (s : stream_in) : nat :=
  match si_data_in s with Nocopy n => di_empties n | Hash h => di_empties h | Error => 0%nat end.

(** ** Switching keeps every byte *)

Lemma hash_new_ok byteage :
  0 <= byteage < 2 ^ 29 * DB_DATA_SIZE ->
  exists h, lsquic_data_in_hash_new byteage [] = Some (Some h, []) /\ hash_ok h /\ hdi_count h = 0 /\ hdi_fin h = false /\
    hdi_switch h = false /\ forall o, held h o = None.
Proof.
  intros Hb. unfold lsquic_data_in_hash_new. cbn [malloc negb].
  assert (exists n, (if DB_DATA_SIZE <=? byteage then l ← my_log2 (u32 (byteage / DB_DATA_SIZE)); Some (l + 2) else Some 3) = Some n /\ 1 <= n < 32)
    as (n & -> & Hn).
  { destruct (Z.leb_spec DB_DATA_SIZE byteage) as [H|H]; [|by exists 3].
    assert (1 <= byteage / DB_DATA_SIZE < 2 ^ 29) as Hq.
    { split; [apply Z.div_le_lower_bound; [done|lia]|apply Z.div_lt_upper_bound; [done|lia]]. }
    rewrite wrapu_id by (unfold is_u; lia). unfold my_log2. replace (_ =? 0) with false by lia. cbn [mbind option_bind].
    eexists. split; [reflexivity|]. pose proof (Z.log2_nonneg (byteage / DB_DATA_SIZE)).
    assert (Z.log2 (byteage / DB_DATA_SIZE) < 29) by (apply Z.log2_lt_pow2; lia). lia. }
  cbn [mbind option_bind]. replace (32 <=? n) with false by lia. eexists. split; [reflexivity|].
  set (h := HD _ _ _ _ _ _ _ _). unfold N_BUCKETS in *.
  assert (Hbl : blocks h = []) by (unfold blocks; cbn; induction (Z.to_nat _); done).
  assert (Hh : hash_ok h).
  { assert (0 < 2 ^ n) by (apply Z.pow_pos_nonneg; lia).
    split; rewrite ?Hbl; cbn; try done; [rewrite length_replicate, Z.shiftl_1_l; lia| | |].
    - intros i l b Hi Hl. apply lookup_replicate_1 in Hi as [-> _]. by apply elem_of_nil in Hl.
    - constructor.
    - apply Z.pow_nonneg. lia. }
  split_and!; try done. intros o. unfold held. replace (hash_find h (key_of o)) with (@None data_block); [done|].
  symmetry. apply find_none_spec; [done|]. intros b. rewrite Hbl. by intros ?%elem_of_nil.
Qed.

Lemma frame_ok_shape str f : frame_ok str f -> frame_shape f.
Proof. intros [? ? ? ? ? _]. split; lia. Qed.

Lemma new_data_byte str f r o : frame_ok str f -> new_off f r <= o < df_offset f + df_size f ->
  new_data f r !! Z.to_nat (o - new_off f r) = Some (str o).
Proof.
  intros [? ? ? El ? Hd] Ho. unfold new_off, new_data in *. rewrite lookup_drop.
  replace (Z.to_nat (r - df_offset f) + Z.to_nat (o - _))%nat with (Z.to_nat (o - df_offset f)) by lia.
  rewrite Hd by lia. f_equal. f_equal. lia.
Qed.

Lemma new_data_length f r : frame_shape f -> r <= df_offset f + df_size f ->
  Z.of_nat (length (new_data f r)) = df_offset f + df_size f - new_off f r.
Proof. intros [? ? ? ?] Hr. unfold new_data, new_off. rewrite length_drop. lia. Qed.

(** Writing a part of a frame of the stream keeps the bytes right. *)
Lemma put_rep str r h h' f l :
  hash_rep str r h -> hash_ok h' -> frame_ok str f -> puts_bytes h h' (new_off f r) l ->
  (forall i y, l !! i = Some y -> new_data f r !! i = Some y) -> hash_rep str r h'.
Proof.
  intros [Hh Hr Hb] Hh' Hf Hp Hl. split; [done|done|]. intros o x Ho Hx. rewrite Hp in Hx by done.
  destruct (inside (new_off f r) (Z.of_nat (length l)) o) eqn:E; [|by apply Hb]. apply Hl in Hx.
  unfold inside in E. apply andb_prop in E as [E1 _]. apply Z.leb_le in E1. pose proof Hf as [F1 F2 F3 F4 F5 _].
  pose proof (lookup_lt_Some _ _ _ Hx) as Hlt. unfold new_data in Hlt. rewrite length_drop in Hlt.
  assert (new_off f r <= o < df_offset f + df_size f) by (unfold new_off in *; lia).
  rewrite (new_data_byte str f r o Hf) in Hx by done. split; [congruence|lia].
Qed.

(** Inserting a frame of the stream, when memory does not run out. *)
Lemma hash_rep_insert str r h f :
  hash_rep str r h -> frame_ok str f -> hdi_count h + 20 <= 2 ^ 30 ->
  exists res h', lsquic_data_in_hash_insert_data_frame h f r [] = Some (res, h', []) /\ hash_rep str r h' /\
    hdi_count h' <= hdi_count h + 20 /\ hdi_switch h' = hdi_switch h /\
    match res with
    | INS_FRAME_OK | INS_FRAME_DUP =>
        (forall o, r <= o -> hash_has h' o <-> hash_has h o \/ df_offset f <= o < df_offset f + df_size f) /\
        (forall x, hash_fin_seen h' x -> hash_fin_seen h x \/ fin_of f x)
    | INS_FRAME_ERR => hdi_fin h = true \/ df_fin f = true
    | INS_FRAME_OVERLAP => False
    end.
Proof.
  intros Hrep Hf Hc. pose proof Hrep as [Hh Hr Hb]. pose proof (frame_ok_shape str f Hf) as Hs.
  pose proof (frame_end_eq f Hs) as Eend. pose proof Hs as [? ? ? ?].
  destruct (hash_insert_frame_ok h f r [] Hh Hs Hr Hc) as (res & h' & ms' & E & Hms & Hh' & Hc' & Hsw & HR).
  rewrite (Hms eq_refl) in E. exists res, h'. split; [done|]. destruct res; cbn in HR.
  - destruct HR as (Hp & Hge & _ & Hfin & Hfo). rewrite Eend in Hge, Hfo. split_and!; try done.
    + by eapply put_rep.
    + intros o Ho. unfold hash_has. rewrite Hp by lia. unfold inside. rewrite new_data_length by (done || lia).
      replace (new_off f r + (df_offset f + df_size f - new_off f r)) with (df_offset f + df_size f) by lia.
      destruct (Z.leb_spec (new_off f r) o) as [H1|H1]; [destruct (Z.ltb_spec o (df_offset f + df_size f)) as [H2|H2]|]; cbn [andb].
      * rewrite (new_data_byte str) by (done || lia). unfold new_off in *. split; [intros _; right; lia|eauto].
      * unfold new_off in *. intuition lia.
      * unfold new_off in *. intuition lia.
    + intros x. unfold hash_fin_seen, fin_of. rewrite Hfin, Hfo.
      destruct (df_fin f); [intros [_ ?]; by right|]. rewrite orb_false_r. by left.
  - destruct HR as ((n & Hp) & Hfin & _ & Hwhy). split_and!; try done.
    + eapply put_rep; try done. intros i y Hi. by apply lookup_take_Some in Hi as [? _].
    + destruct Hwhy as [[? _]|[Hcf|[?|[? _]]]]; [by right| |done|by right]. unfold fin_conflict in Hcf. apply andb_prop in Hcf as [? _]. by left.
  - destruct HR as (-> & Hlt & _). split_and!; try done; [|by left]. intros o Ho. split; [by left|]. intros [?|?]; [done|lia].
  - done.
Qed.

Lemma move_loop_ok str r fs : forall h,
  hash_rep str r h -> Forall (frame_ok str) fs -> hdi_count h + frames_cost fs <= 2 ^ 29 ->
  exists res, move_loop fs h r [] = Some (res, []) /\
    match res with
    | Some h' => hash_rep str r h' /\ hdi_count h' <= hdi_count h + frames_cost fs /\ hdi_switch h' = hdi_switch h /\
        (forall o, r <= o -> hash_has h' o <-> hash_has h o \/ exists f, f ∈ fs /\ df_offset f <= o < df_offset f + df_size f) /\
        (forall x, hash_fin_seen h' x -> hash_fin_seen h x \/ exists f, f ∈ fs /\ fin_of f x)
    | None => hdi_fin h = true \/ exists f, f ∈ fs /\ df_fin f = true
    end.
Proof.
  induction fs as [|f fs IH]; intros h Hrep Hfs Hc; cbn [move_loop].
  { exists (Some h). split; [done|]. split_and!; try done; [unfold frames_cost; cbn; lia| |by left].
    intros o Ho. split; [by left|]. intros [?|(f & ?%elem_of_nil & _)]; done. }
  apply Forall_cons_1 in Hfs as [Hf Hfs]. unfold frames_cost in Hc. cbn [length] in Hc.
  destruct (hash_rep_insert str r h f Hrep Hf ltac:(lia)) as (ins & h1 & -> & Hrep1 & Hc1 & Hsw & Hins). cbn [mbind option_bind].
  assert (Hgo : (forall o, r <= o -> hash_has h1 o <-> hash_has h o \/ df_offset f <= o < df_offset f + df_size f) ->
    (forall x, hash_fin_seen h1 x -> hash_fin_seen h x \/ fin_of f x) -> exists res, move_loop fs h1 r [] = Some (res, []) /\
    match res with
    | Some h' => hash_rep str r h' /\ hdi_count h' <= hdi_count h + frames_cost (f :: fs) /\ hdi_switch h' = hdi_switch h /\
        (forall o, r <= o -> hash_has h' o <-> hash_has h o \/ exists g, g ∈ f :: fs /\ df_offset g <= o < df_offset g + df_size g) /\
        (forall x, hash_fin_seen h' x -> hash_fin_seen h x \/ exists g, g ∈ f :: fs /\ fin_of g x)
    | None => hdi_fin h = true \/ exists g, g ∈ f :: fs /\ df_fin g = true
    end).
  { intros Hhas Hfin. destruct (IH h1 Hrep1 Hfs ltac:(unfold frames_cost; lia)) as (res & -> & HR). exists res. split; [done|].
    destruct res as [h'|].
    - destruct HR as (A & B & S & C & D). split_and!; [done|unfold frames_cost in *; cbn [length]; lia|congruence| |].
      + intros o Ho. rewrite (C o Ho), (Hhas o Ho). setoid_rewrite elem_of_cons. naive_solver.
      + setoid_rewrite elem_of_cons. naive_solver.
    - assert (hdi_fin h1 = true -> hdi_fin h = true \/ df_fin f = true) as Hf1.
      { intros Hx. destruct (Hfin None) as [[? _]|[? _]]; auto. by split. }
      setoid_rewrite elem_of_cons. naive_solver. }
  destruct ins; [destruct Hins; by apply Hgo| |destruct Hins; by apply Hgo|done].
  exists None. split; [done|]. setoid_rewrite elem_of_cons. naive_solver.
Qed.

(** The frames that wait in the queue, seen from the read offset. *)
Lemma waiting_from str r s o : di_inv str r s -> r <= o ->
  waiting (ncdi_frames_in s) o <-> exists f, f ∈ ncdi_frames_in s /\ df_offset f <= o < df_offset f + df_size f.
Proof.
  intros Hi Ho. unfold waiting. rewrite Exists_exists. pose proof (di_order _ _ _ Hi) as Hq. pose proof (di_frames _ _ _ Hi) as Hall.
  rewrite Forall_forall in Hall.
  assert (Hun : forall f, f ∈ ncdi_frames_in s -> df_read_off f = 0 \/ df_offset f + df_read_off f = r).
  { intros f Hf. destruct (ncdi_frames_in s) as [|g fs]; [by apply elem_of_nil in Hf|]. destruct Hq as [Hg Hl].
    apply elem_of_cons in Hf as [->|Hf]; [intuition|]. left. by eapply laid_unread. }
  split; intros (f & Hf & Hr); exists f; (split; [done|]); pose proof (Hall f Hf) as [? ? ? ? ? _]; destruct (Hun f Hf); lia.
Qed.

Lemma bytes_in_bound str fs : Forall (frame_ok str) fs -> 0 <= bytes_in fs <= 65535 * Z.of_nat (length fs).
Proof. induction 1 as [|f fs [? ? ? ? ? _] _ IH]; cbn [bytes_in length]; lia. Qed.

Lemma nocopy_switch_ok str r s :
  di_inv str r s -> frames_cost (ncdi_frames_in s) <= 2 ^ 29 ->
  exists res, nocopy_di_switch_impl s r [] = Some (res, []) /\
    match res with
    | Some h => hash_rep str r h /\ hdi_count h <= frames_cost (ncdi_frames_in s) /\ hdi_switch h = false /\
        (forall o, r <= o -> hash_has h o <-> waiting (ncdi_frames_in s) o) /\ (forall x, hash_fin_seen h x -> nocopy_fin_seen s x)
    | None => nocopy_fin_seen s None
    end.
Proof.
  intros Hi Hc. unfold nocopy_di_switch_impl. pose proof (di_frames _ _ _ Hi) as Hall. pose proof (bytes_in_bound _ _ Hall) as Hbytes.
  unfold frames_cost in Hc. destruct (hash_new_ok (ncdi_byteage s)) as (h & -> & Hh & Ec & Ef & Esw & Hnone).
  { rewrite (di_bytes _ _ _ Hi), wrapu_id by (unfold is_u; lia). unfold DB_DATA_SIZE, N_DB_SETS. lia. }
  cbn [mbind option_bind].
  assert (Hrep : hash_rep str r h) by (split; [done|by apply (di_r _ _ _ Hi)|intros o x _; by rewrite Hnone]).
  destruct (move_loop_ok str r (ncdi_frames_in s) h Hrep Hall ltac:(unfold frames_cost; lia)) as (res & -> & HR). exists res. split; [done|].
  destruct res as [h'|]; [|rewrite Ef in HR; destruct HR as [?|(f & ? & ?)]; [done|right; by exists f]]. destruct HR as (A & B & S & C & D).
  split_and!; [done|lia|congruence| |intros x Hf; destruct (D x Hf) as [[? _]|?]; [congruence|by right]].
  intros o Ho. rewrite (C o Ho), (waiting_from str r s o Hi Ho). unfold hash_has. rewrite Hnone. split; [intros [[]|?]; done|by right].
Qed.

Lemma empty_hash_holds_nothing h o : hash_ok h -> hdi_count h = 0 -> held h o = None.
Proof.
  intros Hh Hc. rewrite (ho_count _ Hh) in Hc. unfold held. replace (hash_find h (key_of o)) with (@None data_block); [done|].
  symmetry. apply find_none_spec; [done|]. destruct (blocks h); [by intros b ?%elem_of_nil|cbn in Hc; lia].
Qed.

Lemma nocopy_new_inv str r : 0 <= r <= 2 ^ 62 -> di_inv str r lsquic_data_in_nocopy_new.
Proof. intros Hr. by split; cbn; [constructor|..]. Qed.

(** Before the switch the hash may ask for it, when it is empty. *)
Definition switchable (str : Z -> Z) (r : Z) (s : stream_in) : Prop :=
  si_ms s = [] /\ stream_cost s <= 2 ^ 29 /\
  match si_data_in s with
  | Nocopy n => di_rep str r n
  | Hash h => di_rep str r h /\ (si_autoswitch s = true -> hdi_switch h = true -> hdi_count h = 0)
  | Error => False
  end.

Definition stream_reads : (Z -> Z) -> Z -> stream_in -> stream_in -> Prop := reads stream_rep stream_has stream_cost stream_fin_seen.

Lemma stream_switch_ok str r s :
  switchable str r s -> match si_data_in s with Hash h => hdi_count h = 0 | _ => True end ->
  exists ok s', switch_data_in s r = Some (ok, s') /\
    if ok : bool then stream_reads str r s s' /\ (stream_empties s' <= stream_empties s)%nat else stream_fin_seen s None.
Proof.
  destruct s as [d au ie fr fo ms]. unfold switchable, switch_data_in, stream_reads, reads, stream_rep, stream_has, stream_fin_seen, stream_cost, stream_empties.
  cbn [si_data_in si_ms si_autoswitch with_data_in]. intros (-> & Hc & Hd) H0. destruct d as [n|h|]; [| |done].
  - change (frames_cost (ncdi_frames_in n) <= 2 ^ 29) in Hc. cbn [di_switch_impl]. destruct (nocopy_switch_ok str r n Hd Hc) as (res & -> & HR). cbn [mbind option_bind]. destruct res as [h|]; cbn.
    + destruct HR as (A & B & S & C & D). eexists true, _. split; [reflexivity|]. cbn. split_and!; done || lia || by intros _.
    + eexists false, _. by split; [reflexivity|].
  - destruct Hd as [Hd _]. cbn [di_switch_impl]. unfold hash_di_switch_impl. rewrite H0. cbn. eexists true, _. split; [reflexivity|]. cbn.
    pose proof Hd as [Hh Hr _]. split; [split; [|split; [|split]]|lia].
    + split; [done|]. split; [done|]. by apply nocopy_new_inv.
    + intros o Ho. unfold hash_has. rewrite empty_hash_holds_nothing by done. split; [by intros ?%Exists_nil|by intros []].
    + rewrite H0. done.
    + intros x [[_ ?]|(f & ?%elem_of_nil & _)]; done.
Qed.

Lemma maybe_switch_ok str r s :
  switchable str r s ->
  exists ok s', maybe_switch_data_in s r = Some (ok, s') /\
    if ok : bool then stream_reads str r s s' /\ (stream_empties s' <= stream_empties s)%nat else stream_fin_seen s None.
Proof.
  intros Hs. unfold maybe_switch_data_in. destruct (si_autoswitch s && di_switch_flag (si_data_in s)) eqn:E.
  - apply stream_switch_ok; [done|]. apply andb_prop in E as [Ea Ef]. destruct Hs as (_ & _ & Hd). destruct (si_data_in s); try done. by apply Hd.
  - exists true, s. split; [done|]. split; [|lia]. destruct Hs as (A & B & C). split; [|by split_and!]. split; [done|]. split; [done|].
    destruct (si_data_in s); try done. destruct C as [C _]. split; [done|]. intros Ha. by rewrite Ha in E.
Qed.

(** ** The stream discharges the laws *)

Lemma done_switch_flag h h' : hash_di_frame_done h = Some h' -> hdi_switch h' = true -> hdi_switch h = true \/ hdi_count h' = 0.
Proof.
  unfold hash_di_frame_done. destruct (hdi_last_block h) as [k|]; [|case_match; [|done]; intros [= <-]; by left].
  destruct (hash_find h k) as [b|]; [|done]. cbn [mbind option_bind].
  match goal with |- context [mbind _ ?x] => destruct x as [[]|]; [| |done] end; cbn [mbind option_bind]; [|intros [= <-]; by left].
  unfold hash_remove. destruct (aget _ _) as [l|]; [|done]. cbn [mbind option_bind]. destruct (aset _ _ _) as [bk|]; [|done]. cbn [mbind option_bind].
  intros [= <-]. cbn. destruct (Z.eqb_spec (u32 (hdi_count h - 1)) 0); destruct (hdi_fin h); cbn; auto.
Qed.

Lemma get_switch_flag h r frame h' : di_get_frame h r = Some (frame, h') -> hdi_switch h' = hdi_switch h.
Proof.
  cbn [di_get_frame hash_ops]. unfold hash_di_get_frame, setup_data_frame. destruct (hash_find h _) as [b|].
  - destruct (aget _ _) as [w|]; [|done]. cbn [mbind option_bind]. case_match.
    + destruct (n_avail_bytes _ _ _); [|done]. cbn. by intros [= _ <-].
    + case_match; cbn; by intros [= _ <-].
  - case_match; cbn; by intros [= _ <-].
Qed.

(** After [di_frame_done]: the switch, seen from the state before. *)
Lemma done_then_switch str r r' s t (f : data_frame) (n : Z) :
  switchable str r' t -> r <= r' ->
  (forall o, r' <= o -> stream_has t o <-> stream_has s o) -> stream_cost t <= stream_cost s -> (forall x, stream_fin_seen t x -> stream_fin_seen s x) ->
  (n = 0 -> df_fin f = false -> (stream_empties t < stream_empties s)%nat) ->
  exists res, ('(ok, s) ← maybe_switch_data_in t r'; Some (if (ok : bool) then Some s else None)) = Some res /\
    match res with
    | Some s'' => stream_reads str r' s s'' /\ (n = 0 -> df_fin f = false -> (stream_empties s'' < stream_empties s)%nat)
    | None => stream_fin_seen s None
    end.
Proof.
  intros Ht Hr Hhas Hcost Hfin Hemp. destruct (maybe_switch_ok str r' t Ht) as (ok & s'' & -> & H). cbn [mbind option_bind].
  destruct ok; eexists; (split; [reflexivity|]); cbn beta iota; [|auto]. destruct H as [(A & B & C & D) E]. split.
  - split; [done|]. split; [|split; [lia|auto]]. intros o Ho. by rewrite (B o Ho), (Hhas o Ho).
  - intros. eapply Nat.le_lt_trans; [exact E|auto].
Qed.

(** Reads of the implementation are reads of the stream. *)
Lemma lift_nocopy str r s n n' :
  si_data_in s = Nocopy n -> stream_cost s <= 2 ^ 29 -> reads_to str r n n' -> stream_reads str r s (with_data_in s (Nocopy n') []).
Proof.
  intros E Hc (R1 & R2 & R3 & R4). unfold stream_reads, reads, stream_rep, stream_has, stream_cost, stream_fin_seen in *.
  cbn [with_data_in si_data_in si_ms si_autoswitch]. rewrite E in *.
  split; [|done]. split; [done|]. split; [|done]. by transitivity (di_cost n).
Qed.

Lemma lift_hash str r s h h' :
  si_data_in s = Hash h -> stream_cost s <= 2 ^ 29 -> (si_autoswitch s = true -> hdi_switch h' = false) ->
  reads_to str r h h' -> stream_reads str r s (with_data_in s (Hash h') []).
Proof.
  intros E Hc Hsw (R1 & R2 & R3 & R4). unfold stream_reads, reads, stream_rep, stream_has, stream_cost, stream_fin_seen in *.
  cbn [with_data_in si_data_in si_ms si_autoswitch]. rewrite E in *.
  split; [|done]. split; [done|]. split; [|done]. by transitivity (di_cost h).
Qed.

Lemma stream_law_nocopy str r s n :
  si_data_in s = Nocopy n -> stream_rep str r s -> get_promise stream_rep stream_has stream_empties stream_cost stream_fin_seen str r s.
Proof.
  intros Es (Ems & Hc & Hd). rewrite Es in Hd. unfold get_promise. cbn [di_get_frame stream_ops]. rewrite Es.
  destruct (law_get str r n Hd) as (frame & n' & -> & Hf). cbn [mbind option_bind]. rewrite Ems. eexists _, _. split; [reflexivity|].
  destruct frame as [f|]; cbn zeta in *.
  - destruct Hf as (A & B & C & Df & D & E & res & Ed & Hres). do 3 (split; [done|]).
    split; [unfold stream_fin_seen; by rewrite Es|]. split; [done|]. split; [intros m Hm; by apply (lift_nocopy str (r + m) s n), E|].
    change (di_done (di_advance n' (df_size f - df_read_off f)) (r + (df_size f - df_read_off f)))
      with (n0 ← nocopy_di_frame_done (di_advance n' (df_size f - df_read_off f)); Some (Some n0)) in Ed.
    cbn [di_done di_advance stream_ops si_data_in with_data_in si_ms].
    destruct (nocopy_di_frame_done (di_advance n' (df_size f - df_read_off f))) as [n2|]; [|done]. injection Ed as <-. cbn [mbind option_bind].
    destruct Hres as [Hto Hemp]. destruct (lift_nocopy str _ s n n2 Es Hc Hto) as ((_ & S2 & S3) & T2 & T3 & T4).
    apply (done_then_switch str r _ s _ f (df_size f - df_read_off f)); try done; [lia|]. unfold stream_empties. by rewrite Es.
  - destruct Hf as [Hno Hto]. split; [unfold stream_has; by rewrite Es|]. by apply (lift_nocopy str r s n).
Qed.

Lemma stream_law_hash str r s h :
  si_data_in s = Hash h -> stream_rep str r s -> get_promise stream_rep stream_has stream_empties stream_cost stream_fin_seen str r s.
Proof.
  intros Es (Ems & Hc & Hd). rewrite Es in Hd. destruct Hd as [Hd Hsw]. unfold get_promise. cbn [di_get_frame stream_ops]. rewrite Es.
  destruct (law_get str r h Hd) as (frame & h' & Eg & Hf). rewrite Eg. cbn [mbind option_bind]. rewrite Ems. eexists _, _. split; [reflexivity|].
  assert (Hsw' : si_autoswitch s = true -> hdi_switch h' = false) by (intros Ha; rewrite (get_switch_flag _ _ _ _ Eg); by apply Hsw).
  destruct frame as [f|]; cbn zeta in *.
  - destruct Hf as (A & B & C & Df & D & E & res & Ed & Hres). do 3 (split; [done|]).
    split; [unfold stream_fin_seen; by rewrite Es|]. split; [done|]. split; [intros m Hm; by apply (lift_hash str (r + m) s h), E|].
    change (di_done (di_advance h' (df_size f - df_read_off f)) (r + (df_size f - df_read_off f)))
      with (h0 ← hash_di_frame_done (di_advance h' (df_size f - df_read_off f)); Some (Some h0)) in Ed.
    cbn [di_done di_advance stream_ops si_data_in with_data_in si_ms] in *.
    destruct (hash_di_frame_done _) as [h2|] eqn:Edone; [|done]. injection Ed as <-. cbn [mbind option_bind].
    destruct Hres as [(S1 & S2 & S3 & S4) Hemp]. apply (done_then_switch str r _ s _ f (df_size f - df_read_off f)); try done; [|lia| | | |].
    + split; [done|]. unfold stream_cost in *. rewrite Es in Hc. cbn [si_data_in with_data_in si_autoswitch]. split; [by transitivity (di_cost h)|].
      split; [done|]. intros Ha Hf2. destruct (done_switch_flag _ _ Edone Hf2) as [Hx|]; [|done]. cbn in Hx. rewrite Hsw' in Hx by done. done.
    + unfold stream_has. by rewrite Es.
    + unfold stream_cost. by rewrite Es.
    + unfold stream_fin_seen. by rewrite Es.
    + unfold stream_empties. by rewrite Es.
  - destruct Hf as [Hno Hto]. split; [unfold stream_has; by rewrite Es|]. by apply (lift_hash str r s h).
Qed.

Lemma stream_law str r s : stream_rep str r s -> get_promise stream_rep stream_has stream_empties stream_cost stream_fin_seen str r s.
Proof.
  intros Hs. destruct (si_data_in s) as [n|h|] eqn:E; [by eapply stream_law_nocopy|by eapply stream_law_hash|].
  destruct Hs as (_ & _ & Hd). by rewrite E in Hd.
Qed.

Lemma stream_range str r s : stream_rep str r s -> 0 <= r <= 2 ^ 62.
Proof. intros (_ & _ & Hd). destruct (si_data_in s) as [n|h|]; [exact (law_range str r n Hd)|exact (law_range str r h (proj1 Hd))|done]. Qed.

#[export] Instance stream_laws : DataInLaws stream_in := {
  di_rep := stream_rep;
  di_has := stream_has;
  di_empties := stream_empties;
  di_cost := stream_cost;
  di_fin_seen := stream_fin_seen;
  law_range := stream_range;
  law_get := stream_law
}.

(** * Frames in *)

Definition covers (f : data_frame) (o : Z) : Prop := df_offset f <= o < df_offset f + df_size f.

(** The frame has been taken in: exactly its bytes have been added. *)
Definition accepts (rep : stream_in -> Prop) (r : Z) (s : stream_in) (f : data_frame) (s' : stream_in) : Prop :=
  rep s' /\ stream_cost s' <= stream_cost s + 20 /\
  (forall o, r <= o -> stream_has s' o <-> stream_has s o \/ covers f o) /\
  (forall x, stream_fin_seen s' x -> stream_fin_seen s x \/ fin_of f x).

(** Why a frame is refused. *)
Definition refused (s : stream_in) (f : data_frame) (head_in_fin fc_ok : bool) : Prop :=
  head_in_fin = true \/ fc_ok = false \/ stream_fin_seen s None \/ df_fin f = true.

Lemma precheck_not_ok s f r : precheck s f r <> Some INS_FRAME_OK.
Proof. unfold precheck. repeat case_match; congruence. Qed.

Lemma refuse_not_ok s p n f r : refuse s p n f r <> Some INS_FRAME_OK.
Proof. unfold refuse, refuse_alone, refuse_left, refuse_right. repeat (case_match; simplify_eq/=); congruence. Qed.

Lemma efficiency_fin_set s c : ncdi_fin_set (check_efficiency s c).2 = ncdi_fin_set s.
Proof. unfold check_efficiency. by repeat case_match; simplify_eq/=. Qed.

Lemma insert_fin_set s f r s' : nocopy_di_insert_frame s f r = Some (INS_FRAME_OK, s') -> ncdi_fin_set s' = ncdi_fin_set s || df_fin f.
Proof.
  unfold nocopy_di_insert_frame, insert_frame. destruct (precheck s f r) as [i|] eqn:Ep.
  { destruct i; [by destruct (precheck_not_ok s f r)|cbn; intros [= ]..]. }
  destruct (find_position _ _) as [[[prev next] count]|]; [|done]. cbn [mbind option_bind].
  destruct (refuse _ _ _ _ _) as [i|] eqn:Er; [destruct i; [by apply refuse_not_ok in Er|cbn; intros [= ]..]|].
  cbn [mbind option_bind]. match goal with |- context [check_efficiency ?x ?c] => set (t := x); pose proof (efficiency_fin_set t c) as E; destruct (check_efficiency t c) as [al t'] end.
  cbn in E. destruct al; intros [= <-]; cbn; by rewrite E.
Qed.

(** After a frame was inserted: the FIN is noted and the implementation may be switched. *)
Lemma accept_then_switch str r s t f :
  accepts (switchable str r) r s f t ->
  exists ok s', maybe_switch_data_in (with_fin_recvd t f) r = Some (ok, s') /\
    if ok : bool then accepts (stream_rep str r) r s f s' else stream_fin_seen s None \/ df_fin f = true.
Proof.
  intros (A & B & C & D). set (t' := with_fin_recvd t f).
  assert (Et : si_data_in t' = si_data_in t /\ si_ms t' = si_ms t /\ si_autoswitch t' = si_autoswitch t) by (unfold t', with_fin_recvd; by destruct (df_fin f)).
  destruct Et as (E1 & E2 & E3).
  assert (Ht' : switchable str r t') by (unfold switchable, stream_cost in *; by rewrite E1, E2, E3).
  destruct (maybe_switch_ok str r t' Ht') as (ok & s' & -> & H). exists ok, s'. split; [done|].
  unfold stream_reads, reads, stream_cost, stream_has, stream_fin_seen in *. rewrite E1 in H. destruct ok; [|destruct (D None H) as [?|[? _]]; auto].
  destruct H as [(R1 & R2 & R3 & R4) _]. split; [done|]. split; [unfold stream_cost; lia|]. split; [|intros x Hx; apply D, R4, Hx].
  intros o Ho. unfold stream_has. by rewrite (R2 o Ho), (C o Ho).
Qed.

Lemma frame_in_hash str r s h f fc_ok fuel :
  si_data_in s = Hash h -> stream_rep str r s -> frame_ok str f -> stream_cost s + 20 <= 2 ^ 29 ->
  exists rv s' puts, insert_frame_at (S fuel) s f r fc_ok = Some (rv, s', puts) /\
    (rv = 0 /\ accepts (stream_rep str r) r s f s' \/ rv = -1 /\ (fc_ok = false \/ stream_fin_seen s None \/ df_fin f = true)).
Proof.
  intros Es (Ems & Hc0 & Hd) Hf Hc. rewrite Es in Hd. destruct Hd as [Hd Hsw]. cbn [insert_frame_at]. rewrite Es, Ems. cbn [di_insert_frame].
  assert (Ec : stream_cost s = hdi_count h) by (unfold stream_cost; by rewrite Es).
  destruct (hash_rep_insert str r h f Hd Hf ltac:(lia)) as (ins & h' & -> & Hd' & Hc' & Hsw' & Hins). cbn [mbind option_bind].
  assert (Hacc : (forall o, r <= o -> hash_has h' o <-> hash_has h o \/ df_offset f <= o < df_offset f + df_size f) ->
    (forall x, hash_fin_seen h' x -> hash_fin_seen h x \/ fin_of f x) -> accepts (stream_rep str r) r s f (with_data_in s (Hash h') [])).
  { intros A B. unfold accepts, stream_rep, stream_cost, stream_has, stream_fin_seen. cbn [with_data_in si_data_in si_ms si_autoswitch]. rewrite Es.
    split; [split; [done|]; split; [cbn; lia|]; split; [done|]; intros Ha; rewrite Hsw'; by apply Hsw|]. split; [cbn; lia|]. by split. }
  destruct ins; cbn [di_own_on_ok].
  - destruct Hins as [A B]. destruct fc_ok; [|by do 3 eexists; split; [reflexivity|]; right; split; [done|]; left].
    destruct (accept_then_switch str r s (with_data_in s (Hash h') []) f) as (ok & s' & -> & H).
    { destruct (Hacc A B) as ((R1 & R2 & R3 & R4) & Hrest). split; [|done]. split; [done|]. split; [done|]. split; [done|]. intros Ha Hx.
      cbn in Hx, Ha. rewrite Hsw', Hsw in Hx by done. done. }
    cbn [mbind option_bind]. destruct ok; do 3 eexists; (split; [reflexivity|]); [left|right]; (split; [done|]); [done|by right].
  - do 3 eexists. split; [reflexivity|]. right. split; [done|]. right. unfold stream_fin_seen. rewrite Es.
    destruct Hins; [left; by split|by right].
  - do 3 eexists. split; [reflexivity|]. left. split; [done|]. destruct Hins. by apply Hacc.
  - done.
Qed.

Lemma frame_in_nocopy str r s n f fc_ok :
  si_data_in s = Nocopy n -> stream_rep str r s -> frame_ok str f -> df_read_off f = 0 -> stream_cost s + 20 <= 2 ^ 29 ->
  exists rv s' puts, insert_frame_at 2 s f r fc_ok = Some (rv, s', puts) /\
    (rv = 0 /\ accepts (stream_rep str r) r s f s' \/ rv = -1 /\ (fc_ok = false \/ stream_fin_seen s None \/ df_fin f = true)).
Proof.
  intros Es Hs Hf Hf0 Hc. pose proof Hs as (Ems & Hc0 & Hd). rewrite Es in Hd. cbn [insert_frame_at]. rewrite Es, Ems. cbn [di_insert_frame].
  assert (Ec : stream_cost s = frames_cost (ncdi_frames_in n)) by (unfold stream_cost; by rewrite Es).
  destruct (di_insert_ok str r n f Hd Hf Hf0) as (ins & n' & Eins & Hins). rewrite Eins. cbn [mbind option_bind].
  assert (Esame : with_data_in s (Nocopy n) [] = s) by (destruct s; cbn in *; by subst).
  destruct ins; cbn [di_own_on_ok].
  - destruct Hins as (Hd' & Hp & _ & _ & _). destruct fc_ok; [|by do 3 eexists; split; [reflexivity|]; right; split; [done|]; left].
    destruct (accept_then_switch str r s (with_data_in s (Nocopy n') []) f) as (ok & s' & -> & H).
    { assert (frames_cost (ncdi_frames_in n') = frames_cost (ncdi_frames_in n) + 20) as Ec'
        by (unfold frames_cost; rewrite (Permutation_length Hp); cbn [length]; lia).
      unfold accepts, switchable, stream_cost, stream_has, stream_fin_seen. cbn [with_data_in si_data_in si_ms si_autoswitch]. rewrite Es.
      change (di_cost n') with (frames_cost (ncdi_frames_in n')). change (di_cost n) with (frames_cost (ncdi_frames_in n)). rewrite Ec'.
      split; [split; [done|]; split; [lia|done]|]. split; [lia|]. split.
      - intros o Ho. change (waiting (ncdi_frames_in n') o <-> waiting (ncdi_frames_in n) o \/ covers f o).
        assert (waiting (ncdi_frames_in n') o <-> waiting (f :: ncdi_frames_in n) o) as -> by (split; apply waiting_perm; by rewrite Hp).
        rewrite waiting_cons, Hf0. unfold covers. rewrite Z.add_0_r. tauto.
      - intros x [[-> Hx]|(g & Hg & Hfin)].
        + rewrite (insert_fin_set _ _ _ _ Eins) in Hx. apply orb_prop in Hx as [?|?]; [left; by left|right; by split].
        + rewrite Hp in Hg. apply elem_of_cons in Hg as [->|Hg]; [by right|left; right; by exists g]. }
    cbn [mbind option_bind]. destruct ok; do 3 eexists; (split; [reflexivity|]); [left|right]; (split; [done|]); [done|by right].
  - destruct Hins as [-> Hwhy]. do 3 eexists. split; [reflexivity|]. right. split; [done|]. right. unfold stream_fin_seen. rewrite Es.
    destruct Hwhy as [[? _]|[? _]]; [by right|left; by left].
  - destruct Hins as [-> Hdup]. do 3 eexists. split; [reflexivity|]. left. split; [done|]. rewrite Esame.
    split; [done|]. split; [lia|]. split; [|by left]. intros o Ho. split; [by left|]. intros [?|Hcov]; [done|].
    unfold stream_has. rewrite Es. destruct (Hdup o Hcov); [lia|done].
  - subst n'. rewrite Esame. destruct (stream_switch_ok str r s) as (ok & s1 & E1 & H1).
    { split; [done|]. split; [done|]. by rewrite Es. } { by rewrite Es. }
    rewrite E1. cbn [mbind option_bind]. destruct ok.
    2: { do 3 eexists. split; [reflexivity|]. right. split; [done|]. right. by left. }
    destruct H1 as [(Hs1 & Hhas & Hcost & Hfin) _].
    assert (exists h, si_data_in s1 = Hash h) as [h Eh].
    { unfold switch_data_in in E1. rewrite Es in E1. cbn [di_switch_impl] in E1. destruct (nocopy_di_switch_impl _ _ _) as [[[h|] ms]|]; cbn in E1;
        [|by injection E1|done]. injection E1 as <-. by exists h. }
    destruct (frame_in_hash str r s1 h f fc_ok 0 Eh Hs1 Hf ltac:(lia)) as (rv & s' & puts & E2 & H).
    exists rv, s', puts. split; [exact E2|].
    destruct H as [[-> (A & B & C & D)]|[-> Hwhy]]; [left|right]; (split; [done|]).
    + split; [done|]. split; [lia|]. split; [|intros x Hx; destruct (D x Hx); auto]. intros o Ho. by rewrite (C o Ho), (Hhas o Ho).
    + destruct Hwhy as [?|[?|?]]; auto.
Qed.

(** A frame of the stream is taken in with all its bytes, or refused for a reason. *)
Lemma frame_in_ok str r s f head_in_fin fc_ok :
  stream_rep str r s -> frame_ok str f -> df_read_off f = 0 -> stream_cost s + 20 <= 2 ^ 29 ->
  exists rv s' puts, lsquic_stream_frame_in s f r head_in_fin fc_ok = Some (rv, s', puts) /\
    (rv = 0 /\ accepts (stream_rep str r) r s f s' \/ rv = -1 /\ refused s f head_in_fin fc_ok).
Proof.
  intros Hs Hf Hf0 Hc. unfold lsquic_stream_frame_in, refused. destruct head_in_fin.
  { do 3 eexists. split; [reflexivity|]. right. split; [done|]. by left. }
  destruct (df_fin f && si_ietf s && si_fin_recvd s && negb (sm_fin_off s =? DF_END f)) eqn:Efin.
  { do 3 eexists. split; [reflexivity|]. right. split; [done|]. do 3 right. by do 3 apply andb_prop in Efin as [Efin _]. }
  assert (exists rv s' puts, insert_frame_at 2 s f r fc_ok = Some (rv, s', puts) /\
    (rv = 0 /\ accepts (stream_rep str r) r s f s' \/ rv = -1 /\ (fc_ok = false \/ stream_fin_seen s None \/ df_fin f = true))) as (rv & s' & puts & -> & H).
  { destruct (si_data_in s) as [n|h|] eqn:Es; [by eapply frame_in_nocopy|by eapply frame_in_hash|]. destruct Hs as (_ & _ & Hd). by rewrite Es in Hd. }
  exists rv, s', puts. split; [done|]. destruct H as [?|[-> ?]]; [by left|right]. split; [done|]. by right.
Qed.

(** How often a frame is put back to its pool: not at all while it waits in the queue,
    once when it is not taken in, twice when the hash takes it in. *)
Lemma insert_frame_puts fuel : forall s f r fc rv s' puts,
  insert_frame_at fuel s f r fc = Some (rv, s', puts) -> 0 <= puts <= 2.
Proof.
  induction fuel as [|fuel IH]; intros s f r fc rv s' puts; cbn [insert_frame_at]; [done|].
  destruct (di_insert_frame _ _ _ _) as [[[[ins d] ms] p]|] eqn:E; [|done]. cbn [mbind option_bind].
  assert (0 <= p <= 1 /\ (ins <> INS_FRAME_OK -> p = 0)) as [Hp Hp0].
  { unfold di_insert_frame in E. destruct (si_data_in s) as [n|h|].
    - destruct (nocopy_di_insert_frame _ _ _) as [[? ?]|]; [|done]. injection E as <- <- <- <-. lia.
    - destruct (lsquic_data_in_hash_insert_data_frame _ _ _ _) as [[[? ?] ?]|]; [|done]. injection E as <- <- <- <-. case_decide; [by split|]. by split.
    - injection E as <- <- <- <-. lia. }
  destruct ins.
  - assert (0 <= (if di_own_on_ok d then p else p + 1) <= 2) by (destruct (di_own_on_ok d); lia).
    destruct fc; [|by intros [= <- <- <-]]. destruct (maybe_switch_data_in _ _) as [[ok s1]|]; [|done]. cbn. by intros [= <- <- <-].
  - rewrite Hp0 by done. intros [= <- <- <-]. lia.
  - rewrite Hp0 by done. intros [= <- <- <-]. lia.
  - rewrite Hp0 by done. destruct (switch_data_in _ _) as [[ok s1]|]; [|done]. cbn. destruct ok; [apply IH|]. intros [= <- <- <-]. lia.
Qed.

Lemma frame_in_puts s f r hd fc rv s' puts : lsquic_stream_frame_in s f r hd fc = Some (rv, s', puts) -> 0 <= puts <= 2.
Proof.
  unfold lsquic_stream_frame_in. destruct hd; [intros [= <- <- <-]; lia|]. destruct (_ && _ && _ && _); [intros [= <- <- <-]; lia|].
  apply insert_frame_puts.
Qed.
