(* ===== verification/StreamInThms.v ===== *)
(** Streams receive what was sent: runs of lsquic_stream_frame_in and of reads, with
    overlapping frames and switches between the implementations of the data-in
    interface; the properties of the hash; what does not hold. *)
From S2P Require Import Prelude DataIn DiHash DiHashThms DataInIf StreamIn.
Local Open Scope Z_scope.

(** * Runs *)

Inductive stream_op :=
  | FrameIn (f : data_frame) (head_in_fin fc_ok : bool)
  | ReadBytes (want : Z).

(** [rs_stream] is [None] once a call has returned an error that ends the connection.
    [rs_out] has the bytes read so far, [rs_fin] is STREAM_FIN_REACHED, [rs_got] has the
    frames that were taken in, [rs_puts] how often each frame was put back to its pool. *)
Record run_state := RS {
  rs_stream : option stream_in;
  rs_off : Z;
  rs_fin : bool;
  rs_out : list Z;
  rs_got : list data_frame;
  rs_puts : list Z
}.

Inductive stream_step : run_state -> stream_op -> run_state -> Prop :=
  | step_frame s r fin out got pl f hd fc rv s' puts :
      lsquic_stream_frame_in s f r hd fc = Some (rv, s', puts) ->
      stream_step (RS (Some s) r fin out got pl) (FrameIn f hd fc)
        (if rv =? 0 then RS (Some s') r fin out (f :: got) (puts :: pl) else RS None r fin out got (puts :: pl))
  | step_read s r fin out got pl want fuel rv fin' ro :
      lsquic_stream_readf fuel s fin r want out = Some (rv, fin', ro) ->
      stream_step (RS (Some s) r fin out got pl) (ReadBytes want) (RS (ro_state ro) (ro_offset ro) fin' (ro_bytes ro) got pl)
  | step_dead r fin out got pl op : stream_step (RS None r fin out got pl) op (RS None r fin out got pl).

Inductive stream_run : list stream_op -> run_state -> run_state -> Prop :=
  | run_nil st : stream_run [] st st
  | run_cons op ops st st1 st2 : stream_step st op st1 -> stream_run ops st1 st2 -> stream_run (op :: ops) st st2.

Definition stream_op_ok (str : Z -> Z) (op : stream_op) : Prop :=
  match op with FrameIn f _ _ => frame_ok str f /\ df_read_off f = 0 | ReadBytes want => 0 <= want end.

(** No FIN, and nothing that makes the stream refuse a frame. *)
Definition benign (op : stream_op) : Prop :=
  match op with FrameIn f hd fc => df_fin f = false /\ hd = false /\ fc = true | ReadBytes _ => True end.

(** Exactly the bytes of the frames taken in are behind the read offset or waiting, and
    the FINs the stream knows of are theirs. *)
Definition stream_accounts (got : list data_frame) (r : Z) (s : stream_in) : Prop :=
  (forall f o, f ∈ got -> covers f o -> o < r \/ stream_has s o) /\
  (forall o, r <= o -> stream_has s o -> exists f, f ∈ got /\ covers f o) /\
  (forall o, stream_fin_seen s (Some o) -> exists f, f ∈ got /\ fin_of f (Some o)).

(** What STREAM_FIN_REACHED means: a frame with a FIN was taken in, and the read offset is
    where it ends, or is an offset that [setup_data_frame] takes for it. *)
Definition fin_reported (got : list data_frame) (r : Z) : Prop :=
  exists f start, f ∈ got /\ df_fin f = true /\ 0 <= start <= r /\ fin_report (df_offset f + df_size f) start r.

Lemma fin_reported_cons f got r : fin_reported got r -> fin_reported (f :: got) r.
Proof. intros (g & st & Hg & ?). exists g, st. split; [by right|done]. Qed.

(** [budget] operations are to come; [clean]: no FIN has been seen. *)
Definition run_good (str : Z -> Z) (budget : Z) (clean : Prop) (st : run_state) : Prop :=
  0 <= rs_off st /\ rs_out st = span str 0 (rs_off st) /\ (rs_fin st = true -> fin_reported (rs_got st) (rs_off st)) /\
  Forall (fun p => 0 <= p <= 2) (rs_puts st) /\
  match rs_stream st with
  | Some s => stream_rep str (rs_off st) s /\ stream_cost s + 20 * budget <= 2 ^ 29 /\ stream_accounts (rs_got st) (rs_off st) s /\
      (clean -> ~ stream_fin_seen s None)
  | None => ~ clean
  end.

Lemma frame_step_good str b clean s r fin out got pl f hd fc rv s' puts :
  0 <= b -> run_good str (b + 1) clean (RS (Some s) r fin out got pl) -> frame_ok str f -> df_read_off f = 0 ->
  lsquic_stream_frame_in s f r hd fc = Some (rv, s', puts) ->
  run_good str b (clean /\ benign (FrameIn f hd fc))
    (if rv =? 0 then RS (Some s') r fin out (f :: got) (puts :: pl) else RS None r fin out got (puts :: pl)).
Proof.
  intros Hb (Hr & Hout & Hfi & Hpl & Hs & Hc & (Ha1 & Ha2 & Ha3) & Hcl) Hf Hf0 E. cbn [rs_stream rs_off rs_out rs_got rs_fin rs_puts] in *.
  pose proof (frame_in_puts _ _ _ _ _ _ _ _ E) as Hputs.
  destruct (frame_in_ok str r s f hd fc Hs Hf Hf0 ltac:(lia)) as (rv0 & s0 & p0 & E0 & H). rewrite E in E0. injection E0 as <- <- <-.
  destruct H as [[-> (A & B & C & D)]|[-> Hwhy]]; cbn; (split; [done|]); (split; [done|]); (split; [eauto using fin_reported_cons|]);
    (split; [by constructor|]); cbn.
  - split; [done|]. split; [lia|]. split; [split_and!|].
    + intros g o [->|Hg]%elem_of_cons Ho; destruct (Z.lt_ge_cases o r); auto; right; apply C; auto.
      destruct (Ha1 g o Hg Ho); [lia|by left].
    + intros o Ho Hh. apply C in Hh as [Hh|Hh]; [|exists f; split; [by left|done]|done].
      destruct (Ha2 o Ho Hh) as (g & Hg & ?). exists g. split; [by right|done].
    + intros o Ho. destruct (D _ Ho) as [Hx|Hx]; [|exists f; split; [by left|done]].
      destruct (Ha3 o Hx) as (g & Hg & ?). exists g. split; [by right|done].
    + intros [Hx (Hnf & _)] Hy. destruct (D _ Hy) as [?|[? _]]; [by apply Hcl|congruence].
  - intros [Hx (Hnf & -> & ->)]. destruct Hwhy as [?|[?|[?|?]]]; try congruence. by apply Hcl.
Qed.

(** The outcome of a read does not depend on the fuel. *)
Lemma read_outcome_ok str s r want acc fuel ro :
  stream_rep str r s -> 0 <= want -> read_frames fuel s r want acc = Some ro -> read_promise str r want s acc ro.
Proof.
  intros Hs Hw E. pose proof (stream_range str r s Hs). change (di_rep str r s) in Hs.
  destruct (read_frames_ok (S := stream_in) str (Z.to_nat (2 ^ 62 - r)) (di_empties s) s r want acc Hs Hw) as (fuel2 & ro2 & E2 & HP); [lia|done|].
  apply (read_frames_mono _ (fuel `max` fuel2)) in E, E2; [|lia..]. assert (ro2 = ro) as -> by congruence. done.
Qed.

Lemma read_total str s r want acc : stream_rep str r s -> 0 <= want -> exists fuel ro, read_frames fuel s r want acc = Some ro /\ read_promise str r want s acc ro.
Proof.
  intros Hs Hw. pose proof (stream_range str r s Hs). change (di_rep str r s) in Hs.
  apply (read_frames_ok (S := stream_in) str (Z.to_nat (2 ^ 62 - r)) (di_empties s)); try done. lia.
Qed.

Lemma read_step_good str b clean s r out got pl want fuel ro :
  0 <= b -> run_good str (b + 1) clean (RS (Some s) r false out got pl) -> 0 <= want -> read_frames fuel s r want out = Some ro ->
  run_good str b clean (RS (ro_state ro) (ro_offset ro) (ro_fin ro) (ro_bytes ro) got pl).
Proof.
  intros Hb (Hr & Hout & _ & Hpl & Hs & Hc & (Ha1 & Ha2 & Ha3) & Hcl) Hw E. cbn [rs_stream rs_off rs_out rs_got rs_puts] in *.
  destruct (read_outcome_ok str s r want out fuel ro Hs Hw E) as (Ho & Hbytes & Hfi & Hst). split; [cbn; lia|].
  cbn [rs_stream rs_off rs_out rs_got rs_fin rs_puts].
  split; [rewrite Hbytes, Hout; symmetry; apply span_app; lia|]. split; [|split; [done|]].
  { intros Hx. destruct (Hfi Hx) as (o & st & Hseen & Hst1 & Hrep). destruct (Ha3 o Hseen) as (f & Hf & Hfin & ->). exists f, st. split_and!; done || lia. }
  destruct (ro_state ro) as [s'|]; [|by intros Hcln; apply Hcl]. destruct Hst as [(A & B & C & D) _].
  change (stream_cost s' <= stream_cost s) in C. split; [done|]. split; [lia|]. split; [split_and!|].
  - intros f o Hf Hcov. destruct (Z.lt_ge_cases o (ro_offset ro)); [by left|right]. apply (B o ltac:(lia)). destruct (Ha1 f o Hf Hcov); [lia|done].
  - intros o Hoo Hh. apply Ha2; [lia|]. by apply (B o ltac:(lia)).
  - intros o Hx. apply Ha3, D, Hx.
  - intros Hcln Hx. by apply (Hcl Hcln), D.
Qed.

Lemma run_good_weaken str b b' (clean clean' : Prop) st : b' <= b -> (clean' -> clean) -> run_good str b clean st -> run_good str b' clean' st.
Proof.
  intros Hb Hc (A & B & C & E & F). do 4 (split; [done|]). destruct (rs_stream st); [|naive_solver].
  destruct F as (? & ? & ? & D). split_and!; try done; [lia|auto].
Qed.

Lemma readf_good str b clean s r fin out got pl want fuel rv fin' ro :
  0 <= b -> run_good str (b + 1) clean (RS (Some s) r fin out got pl) -> 0 <= want ->
  lsquic_stream_readf fuel s fin r want out = Some (rv, fin', ro) ->
  run_good str b clean (RS (ro_state ro) (ro_offset ro) fin' (ro_bytes ro) got pl).
Proof.
  intros Hb Hg Hw E. unfold lsquic_stream_readf in E. destruct fin.
  { injection E as <- <- <-. eapply run_good_weaken; [|done|exact Hg]. lia. }
  destruct (read_frames fuel s r want out) as [ro'|] eqn:Er; [|done]. cbn in E. injection E as _ <- <-. by eapply read_step_good.
Qed.

Lemma step_good str b clean st op st' :
  0 <= b -> run_good str (b + 1) clean st -> stream_op_ok str op -> stream_step st op st' -> run_good str b (clean /\ benign op) st'.
Proof.
  intros Hb Hg Hop Hstep.
  destruct Hstep as [s r fin out got pl f hd fc rv s' puts E|s r fin out got pl want fuel rv fin' ro E|r fin out got pl op].
  - destruct Hop. by eapply frame_step_good.
  - eapply run_good_weaken; [reflexivity| |by eapply readf_good]. by intros [? _].
  - eapply run_good_weaken; [| |exact Hg]; [lia|]. by intros [? _].
Qed.

Lemma step_total str b clean st op : 0 <= b -> run_good str (b + 1) clean st -> stream_op_ok str op -> exists st', stream_step st op st'.
Proof.
  intros Hb (_ & _ & _ & _ & C) Hop. destruct st as [[s|] r fin out got pl]; [|eexists; constructor]. cbn in *. destruct C as (Hs & Hc & _ & _).
  destruct op as [f hd fc|want].
  - destruct Hop as [Hf Hf0]. destruct (frame_in_ok str r s f hd fc Hs Hf Hf0 ltac:(lia)) as (rv & s' & puts & E & _). eexists. by eapply step_frame.
  - destruct (read_total str s r want out Hs Hop) as (fuel & ro & E & _).
    assert (exists x, lsquic_stream_readf fuel s fin r want out = Some x) as [[[rv fin'] ro'] Ex].
    { unfold lsquic_stream_readf. rewrite E. destruct fin; by eexists. }
    eexists. by eapply step_read.
Qed.

(** Along a run, and that there is one. *)
Lemma run_safe str ops : forall clean st st',
  run_good str (Z.of_nat (length ops)) clean st -> Forall (stream_op_ok str) ops -> stream_run ops st st' ->
  run_good str 0 (clean /\ Forall benign ops) st'.
Proof.
  induction ops as [|op ops IH]; intros clean st st' Hg Hok Hrun; inversion Hrun as [|? ? ? st1 ? Hstep Hrest]; subst.
  - eapply run_good_weaken; [reflexivity| |exact Hg]. by intros [? _].
  - apply Forall_cons_1 in Hok as [Hop Hok]. cbn [length] in Hg. rewrite Nat2Z.inj_succ, <- Z.add_1_r in Hg.
    pose proof (step_good str (Z.of_nat (length ops)) _ _ _ _ ltac:(lia) Hg Hop Hstep) as Hg1.
    eapply run_good_weaken; [reflexivity| |exact (IH _ _ _ Hg1 Hok Hrest)]. intros [? [? ?]%Forall_cons_1]. done.
Qed.

Lemma run_total str ops : forall clean st,
  run_good str (Z.of_nat (length ops)) clean st -> Forall (stream_op_ok str) ops -> exists st', stream_run ops st st'.
Proof.
  induction ops as [|op ops IH]; intros clean st Hg Hok; [by exists st; constructor|].
  apply Forall_cons_1 in Hok as [Hop Hok]. cbn [length] in Hg. rewrite Nat2Z.inj_succ, <- Z.add_1_r in Hg.
  destruct (step_total str (Z.of_nat (length ops)) _ _ _ ltac:(lia) Hg Hop) as [st1 Hstep].
  pose proof (step_good str (Z.of_nat (length ops)) _ _ _ _ ltac:(lia) Hg Hop Hstep) as Hg1. destruct (IH _ _ Hg1 Hok) as [st' Hrun]. exists st'. by econstructor.
Qed.

(** ** The properties *)

Definition new_run (s : stream_in) : run_state := RS (Some s) 0 false [] [] [].

Lemma new_stream_ok str use_di_hash auto ietf n :
  20 * n <= 2 ^ 29 ->
  exists s, stream_new use_di_hash auto ietf [] = Some (Some s) /\ run_good str n True (new_run s).
Proof.
  intros Hn. unfold stream_new. cbn [malloc negb]. destruct use_di_hash.
  - destruct (hash_new_ok 0) as (h & -> & Hh & Ec & Ef & Esw & Hnone); [done|]. cbn. eexists. split; [reflexivity|].
    split; [cbn; lia|]. do 3 (split; [done|]). cbn. split; [|split; [|split]].
    + split; [done|]. split; [unfold stream_cost; cbn; lia|]. cbn. split; [|done]. split; [done|lia|]. intros o x _. by rewrite Hnone.
    + unfold stream_cost. cbn. lia.
    + split_and!; [by intros f o ?%elem_of_nil| |].
      * intros o _ [x Hx]. by rewrite Hnone in Hx.
      * intros o [Hx _]. congruence.
    + intros _ [Hx _]. congruence.
  - cbn. eexists. split; [reflexivity|]. split; [cbn; lia|]. do 3 (split; [done|]). cbn. split; [|split; [|split]].
    + split; [done|]. split; [done|]. cbn. by apply nocopy_new_inv.
    + change (0 + 20 * n <= 2 ^ 29). lia.
    + split_and!; [by intros f o ?%elem_of_nil|by intros o _ ?%Exists_nil|]. intros o [[? _]|(f & ?%elem_of_nil & _)]; done.
    + intros _ [[_ ?]|(f & ?%elem_of_nil & _)]; done.
Qed.

(** C3: a stream delivers what was sent.  Take any stream [str], a new receiving
    stream with either implementation of the data-in interface, and any sequence of
    frames of [str] (in any order, repeated, overlapping in any way, FINs anywhere) and
    reads of any size.  Every call returns, the switches between the implementations
    included; the bytes read are the stream's from offset 0 on, each once and in order.
    While the connection lives, exactly the bytes of the frames taken in have been read
    or wait, and a read that is not at the reported end of the stream returns all that
    can be read: it stops at the size asked for, at a FIN or at the first missing byte.
    The end of the stream (STREAM_FIN_REACHED, a read that returns 0) is reported only
    after a frame with a FIN was taken in, at the offset where that frame ends or at one
    for which the hash's wrong comparison holds (the finding [hash_premature_fin]: only
    the first is the end of the stream, and after the second the rest is not delivered).
    A call fails only when a frame has a FIN, flow control refuses it or the headers have
    ended the stream.  No frame is put back to its pool more than twice (twice is the
    finding [hash_frame_put_twice]).  (Allocations succeed here, and 20 blocks for each
    operation stay below [2 ^ 29] blocks.) *)
Theorem stream_in_delivers str use_di_hash auto ietf ops :
  Forall (stream_op_ok str) ops -> 20 * Z.of_nat (length ops) <= 2 ^ 29 ->
  exists s0, stream_new use_di_hash auto ietf [] = Some (Some s0) /\
    (exists st, stream_run ops (new_run s0) st) /\
    forall st, stream_run ops (new_run s0) st ->
      rs_out st = span str 0 (rs_off st) /\
      (rs_fin st = true -> fin_reported (rs_got st) (rs_off st)) /\
      Forall (fun p => 0 <= p <= 2) (rs_puts st) /\
      match rs_stream st with
      | Some s => stream_accounts (rs_got st) (rs_off st) s /\
          forall want, 0 <= want -> exists fuel rv fin ro, lsquic_stream_readf fuel s (rs_fin st) (rs_off st) want [] = Some (rv, fin, ro) /\
            ro_bytes ro = span str (rs_off st) (ro_offset ro) /\
            (rv = 0 -> fin = true) /\ (fin = true -> fin_reported (rs_got st) (ro_offset ro)) /\
            match ro_state ro with
            | Some s' => fin = true \/ ro_offset ro = rs_off st + want \/ ~ stream_has s' (ro_offset ro)
            | None => stream_fin_seen s None
            end
      | None => ~ Forall benign ops
      end.
Proof.
  intros Hok Hlen. destruct (new_stream_ok str use_di_hash auto ietf _ Hlen) as (s0 & E & Hg). exists s0. split; [done|].
  split; [by eapply run_total|]. intros st Hrun. destruct (run_safe str ops True _ _ Hg Hok Hrun) as (Hr & Hout & Hfi & Hpl & Hst).
  do 3 (split; [done|]). destruct (rs_stream st) as [s|]; [|by intros Hb; apply Hst]. destruct Hst as (Hs & _ & Hacc & _). split; [done|].
  intros want Hw. unfold lsquic_stream_readf. destruct (rs_fin st) eqn:Efin.
  { exists 0%nat. do 3 eexists. split; [reflexivity|]. cbn. rewrite span_nil. split_and!; auto. }
  destruct (read_total str s (rs_off st) want [] Hs Hw) as (fuel & ro & Erd & Ho & Hb & Hfin & Hst).
  exists fuel. do 3 eexists. rewrite Erd. split; [reflexivity|]. split; [done|]. split; [|split].
  - destruct (ro_state ro); [|done]. destruct (Z.eqb_spec (ro_offset ro - rs_off st) 0); cbn [negb]; [|lia]. by destruct (ro_fin ro).
  - intros Hx. destruct (Hfin Hx) as (o & start & Hseen & Hst1 & Hrep). destruct Hacc as (_ & _ & Ha3).
    destruct (Ha3 o Hseen) as (f & Hf & Hff & ->). exists f, start. split_and!; done || lia.
  - destruct (ro_state ro); [apply Hst|done].
Qed.

(** ** Running the model *)

(** One step with a given fuel for reads. *)
Definition exec_step (fuel : nat) (st : run_state) (op : stream_op) : option run_state :=
  match rs_stream st, op with
  | None, _ => Some st
  | Some s, FrameIn f hd fc =>
    '(rv, s', puts) ← lsquic_stream_frame_in s f (rs_off st) hd fc;
    Some (if rv =? 0 then RS (Some s') (rs_off st) (rs_fin st) (rs_out st) (f :: rs_got st) (puts :: rs_puts st)
          else RS None (rs_off st) (rs_fin st) (rs_out st) (rs_got st) (puts :: rs_puts st))
  | Some s, ReadBytes want =>
    '(_, fin, ro) ← lsquic_stream_readf fuel s (rs_fin st) (rs_off st) want (rs_out st);
    Some (RS (ro_state ro) (ro_offset ro) fin (ro_bytes ro) (rs_got st) (rs_puts st))
  end.

Fixpoint stream_exec (fuel : nat) (ops : list stream_op) (st : run_state) : option run_state :=
  match ops with [] => Some st | op :: ops => st ← exec_step fuel st op; stream_exec fuel ops st end.

Lemma stream_exec_run fuel ops : forall st st', stream_exec fuel ops st = Some st' -> stream_run ops st st'.
Proof.
  induction ops as [|op ops IH]; intros st st'; cbn [stream_exec]; [intros [= <-]; constructor|].
  destruct (exec_step fuel st op) as [st1|] eqn:E; [|done]. cbn. intros H. econstructor; [|by apply IH].
  destruct st as [[s|] r fin out got pl]; cbn in E; [|injection E as <-; constructor]. destruct op as [f hd fc|want].
  - destruct (lsquic_stream_frame_in s f r hd fc) as [[[rv s'] puts]|] eqn:Ef; [|done]. injection E as <-. by eapply step_frame.
  - destruct (lsquic_stream_readf fuel s fin r want out) as [[[rv fin'] ro]|] eqn:Er; [|done]. injection E as <-. by eapply step_read.
Qed.

Definition demo_run (use_di_hash : bool) (ops : list stream_op) : option run_state :=
  s ← mjoin (stream_new use_di_hash true true []); stream_exec 20 ops (new_run s).

Definition demo_stream_ops : list stream_op :=
  [FrameIn (demo_frame 2 6) false true; FrameIn (demo_frame 0 4) false true; ReadBytes 3;
   FrameIn (demo_frame 5 9) false true; FrameIn (demo_frame 700 800) false true; ReadBytes 100].

Lemma demo_run_offset use_di_hash ops s0 off :
  stream_new use_di_hash true true [] = Some (Some s0) -> option_map rs_off (demo_run use_di_hash ops) = Some off ->
  exists st, stream_run ops (new_run s0) st /\ rs_off st = off.
Proof.
  intros E Hx. unfold demo_run in Hx. rewrite E in Hx. cbn in Hx.
  destruct (stream_exec 20 ops (new_run s0)) as [st|] eqn:Est; [|done]. injection Hx as <-.
  exists st. split; [|done]. by eapply stream_exec_run.
Qed.

(** The second frame overlaps the first, which makes the stream switch to the hash. *)
Lemma stream_in_delivers_witness :
  exists s0, stream_new false true true [] = Some (Some s0) /\
  exists st, stream_run demo_stream_ops (new_run s0) st /\ rs_off st = 9 /\ rs_out st = span demo_stream 0 9.
Proof.
  destruct (stream_in_delivers demo_stream false true true demo_stream_ops) as (s0 & E & _ & Hall).
  - repeat apply Forall_cons_2; try (split; [apply demo_frame_ok; lia|reflexivity]); try (cbn; lia). apply Forall_nil_2.
  - cbn. lia.
  - exists s0. split; [exact E|]. destruct (demo_run_offset false demo_stream_ops s0 9 E) as (st & Hrun & Hoff); [vm_compute; reflexivity|].
    exists st. split; [exact Hrun|]. split; [exact Hoff|]. destruct (Hall st Hrun) as (Hout & _). rewrite <- Hoff. exact Hout.
Defined.

(** * The hash on its own *)

(** inserting a frame in the hash implements writing to a map from offsets to
    bytes.  In a consistent table and for a frame of any content, the call returns;
    INS_FRAME_OK means that exactly the bytes of the frame at or behind the read
    offset were written over what was held; INS_FRAME_DUP, that the frame lies before
    the read offset; an overlap is never reported; an error has one of four reasons
    (the frame ends the stream before the read offset, it contradicts the known end,
    memory ran out, or it ends the stream and there are valid bytes or a block
    behind), and then nothing was written but bytes of the frame.  The table stays
    consistent whatever allocations fail. *)
Theorem hash_insert_refines h f r ms :
  hash_ok h -> frame_shape f -> 0 <= r <= 2 ^ 62 -> hdi_count h + 20 <= 2 ^ 30 ->
  exists res h' ms', lsquic_data_in_hash_insert_data_frame h f r ms = Some (res, h', ms') /\
    hash_ok h' /\ insert_result h f r ms res h'.
Proof.
  intros Hh Hf Hr Hc. destruct (hash_insert_frame_ok h f r ms Hh Hf Hr Hc) as (res & h' & ms' & E & _ & Hh' & _ & _ & HR).
  by exists res, h', ms'.
Qed.

(** The empty table of a new stream. *)
Definition demo_table : hash_data_in := HD 0 (replicate 8 []) None no_frame 0 3 false false.

Lemma demo_table_ok : hash_ok demo_table.
Proof. destruct (hash_new_ok 0) as (h & E & Hh & _); [done|]. vm_compute in E. by injection E as <-. Qed.

Lemma demo_shape a b : 0 <= a <= b -> b <= 1000 -> frame_shape (demo_frame a b).
Proof. intros. by eapply frame_ok_shape, demo_frame_ok. Qed.

Lemma hash_insert_refines_witness :
  exists res h' ms', lsquic_data_in_hash_insert_data_frame demo_table (demo_frame 2 6) 3 [true] = Some (res, h', ms') /\
    hash_ok h' /\ insert_result demo_table (demo_frame 2 6) 3 [true] res h'.
Proof.
  apply (hash_insert_refines demo_table (demo_frame 2 6) 3 [true]).
  - exact demo_table_ok.
  - apply demo_shape; lia.
  - lia.
  - cbn. lia.
Defined.

(** [hash_di_readable_bytes] is exact: it returns the length of the longest run of
    held bytes at the read offset, over any number of blocks, and does not change
    what is held. *)
Theorem hash_readable_exact h r :
  hash_ok h -> 0 <= r <= 2 ^ 62 -> bounded h ->
  exists n h', hash_di_readable_bytes h r = Some (n, h') /\ 0 <= n /\ (forall o, r <= o < r + n -> is_Some (held h o)) /\
    held h (r + n) = None /\ hash_ok h' /\ forall o, held h' o = held h o.
Proof. apply readable_bytes_ok. Qed.

(** Two blocks, the first full from 3000 on, the second with 384 bytes. *)
Definition demo_blocks : option hash_data_in :=
  '(_, h, _) ← lsquic_data_in_hash_insert_data_frame demo_table (DF (replicate 1000 7) 3000 0 1000 false) 0 []; Some h.

Lemma demo_blocks_ok : exists h, demo_blocks = Some h /\ hash_rep (fun _ => 7) 3000 h.
Proof.
  assert (Hrep : hash_rep (fun _ => 7) 0 demo_table).
  { split; [exact demo_table_ok|lia|]. intros o x _. by rewrite empty_hash_holds_nothing by (exact demo_table_ok || done). }
  destruct (hash_rep_insert (fun _ => 7) 0 demo_table (DF (replicate 1000 7) 3000 0 1000 false)) as (res & h & E & Hh & _); [done| |cbn; lia|].
  { split; cbn [df_size df_offset df_data df_read_off]; rewrite ?length_replicate; try lia. intros i Hi. by apply lookup_replicate_2. }
  unfold demo_blocks. rewrite E. exists h. split; [done|]. destruct Hh as [? ? ?]. split; [done|lia|done].
Qed.

Lemma hash_readable_exact_witness :
  exists h, demo_blocks = Some h /\ exists n h', hash_di_readable_bytes h 3500 = Some (n, h') /\ held h (3500 + n) = None.
Proof.
  destruct demo_blocks_ok as (h & E & Hrep). exists h. split; [exact E|].
  destruct (hash_readable_exact h 3500) as (n & h' & En & _ & _ & Hnone & _).
  - apply (hr_ok _ _ _ Hrep).
  - lia.
  - intros o [x Hx]. destruct (hr_bytes _ _ _ Hrep o x) as [_ Ho]; [|exact Hx|exact Ho].
    apply (held_nonneg h); [apply (hr_ok _ _ _ Hrep)|]. by exists x.
  - exists n, h'. split; [exact En|exact Hnone].
Defined.

(** * What does not hold *)

Definition fin_frame (a b : Z) : data_frame := DF (span demo_stream a b) a 0 (b - a) true.

(** The FIN flag, offset and bytes of a read at the end of a run. *)
Definition demo_read (ops : list stream_op) (want : Z) : option (bool * Z * list Z) :=
  st ← demo_run true ops;
  s ← rs_stream st;
  '(_, fin, ro) ← lsquic_stream_readf 20 s (rs_fin st) (rs_off st) want [];
  Some (fin, ro_offset ro, ro_bytes ro).

(** A finding.  [setup_data_frame] compares the end of the stream with [df_read_off +
    df_size] where it should use [df_offset + df_size].  A stream of 15 bytes, of which
    0 to 9 and the FIN have arrived: once 5 bytes are read, the next read reports the end
    of the stream at offset 10, though 5 bytes are missing. *)
Lemma hash_premature_fin :
  demo_read [FrameIn (demo_frame 0 10) false true; FrameIn (fin_frame 15 15) false true; ReadBytes 5] 100
  = Some (true, 10, span demo_stream 5 10).
Proof. vm_compute. reflexivity. Qed.

(** A finding.  The check for data behind the FIN takes any block for data.  A FIN
    alone at a multiple of the block size leaves an empty block there, and the same FIN
    repeated with the last bytes of the stream is then an error that ends the connection. *)
Lemma hash_fin_repeat_refused :
  option_map rs_stream (demo_run true [FrameIn (DF [] 3616 0 0 true) false true; FrameIn (DF [1; 2; 3] 3613 0 3 true) false true])
  = Some None.
Proof. vm_compute. reflexivity. Qed.

(** A finding.  The same check looks at the next block only: a FIN at offset 10 is taken
    although bytes from offset 8000 on are held. *)
Lemma hash_fin_before_data :
  option_map (fun st => (bool_decide (is_Some (rs_stream st)), length (rs_got st)))
    (demo_run true [FrameIn (DF [1; 2; 3] 8000 0 3 false) false true; FrameIn (fin_frame 0 10) false true])
  = Some (true, 2%nat).
Proof. vm_compute. reflexivity. Qed.

(** A finding.  [hash_di_insert_frame] puts an inserted frame back to its pool, and so does
    [lsquic_stream_frame_in], because the implementation has [di_own_on_ok] zero: a frame that
    is inserted in the hash is freed twice. *)
Lemma hash_frame_put_twice h f r hd fc rv s' puts auto ietf :
  (exists h' ms', lsquic_data_in_hash_insert_data_frame h f r [] = Some (INS_FRAME_OK, h', ms')) ->
  lsquic_stream_frame_in (SI (Hash h) auto ietf false 0 []) f r hd fc = Some (rv, s', puts) -> hd = false -> puts = 2.
Proof.
  intros (h' & ms' & E) Hin ->. unfold lsquic_stream_frame_in in Hin. cbn [si_ietf si_fin_recvd sm_fin_off] in Hin.
  rewrite andb_false_r in Hin. cbn [andb] in Hin. cbn [insert_frame_at si_data_in si_ms di_insert_frame] in Hin. rewrite E in Hin.
  cbn [mbind option_bind] in Hin. rewrite decide_True in Hin by done. cbn [di_own_on_ok] in Hin.
  destruct fc; [|by injection Hin as _ _ <-]. destruct (maybe_switch_data_in _ _) as [[ok s]|]; [|done]. cbn in Hin. by injection Hin as _ _ <-.
Qed.
