(* ===== verification/Frab.v ===== *)
(** The list of frame buffers (lsquic_frab_list.c): a queue of bytes in buffers
    of a fixed size, from which the control and QPACK streams are written. *)
From S2P Require Import Prelude.
Local Open Scope Z_scope.

(** [frab_buf] holds the [frab_size] bytes that were written; what follows them
    in memory is not initialised. *)
Record frame_buf := FB { frab_size : Z; frab_off : Z; frab_buf_size : Z; frab_buf : list Z }.

Record frab_list := FL { fl_frabs : list frame_buf; fl_size : Z; fl_buf_size : Z }.

(** [sizeof(struct frame_buf)]: two pointers, three [unsigned short]s, padding. *)
Definition sizeof_frame_buf : Z := 24.

Definition frab_left_to_read (f : frame_buf) : Z := frab_size f - frab_off f.
Definition frab_left_to_write (f : frame_buf) : Z := frab_buf_size f - u16 sizeof_frame_buf - frab_size f.

Definition lsquic_frab_list_init (buf_size : Z) : frab_list := FL [] 0 buf_size.

Definition fral_get_frab (fl : frab_list) (ms : list bool) : option frame_buf * list bool :=
  let '(ok, ms) := malloc ms in
  (if ok then Some (FB 0 0 (fl_buf_size fl) []) else None, ms).

(** Buffers before the one that is written to, and that buffer. *)
Definition frab_append (fl : frab_list) (ms : list bool) : option (list frame_buf * frame_buf) * list bool :=
  let '(f, ms) := fral_get_frab fl ms in
  (f ← f; Some (fl_frabs fl, f), ms).

(** The last buffer, if it has room, or a new one. *)
Definition frab_to_write (fl : frab_list) (ms : list bool) : option (list frame_buf * frame_buf) * list bool :=
  match list.last (fl_frabs fl) with
  | Some f => if 0 <? u32 (frab_left_to_write f)
              then (Some (take (length (fl_frabs fl) - 1) (fl_frabs fl), f), ms) else frab_append fl ms
  | None => frab_append fl ms
  end.

(** [None]: a write past the end of a buffer. *)
Fixpoint frab_write_loop (fuel : nat) (fl : frab_list) (p : list Z) (ms : list bool)
    : option (Z * frab_list * list bool) :=
  match fuel with
  | O => None
  | S fuel =>
    if (length p =? 0)%nat then Some (0, fl, ms) else
    let '(w, ms) := frab_to_write fl ms in
    match w with
    | None => Some (-1, fl, ms)
    | Some (before, f) =>
      let ntowrite := u32 (frab_left_to_write f) in
      let ntowrite := if Z.of_nat (length p) <? ntowrite then Z.of_nat (length p) else ntowrite in
      if frab_left_to_write f <? ntowrite then None else
      let n := Z.to_nat ntowrite in
      let f := FB (u16 (frab_size f + ntowrite)) (frab_off f) (frab_buf_size f) (frab_buf f ++ take n p) in
      frab_write_loop fuel (FL (before ++ [f]) (fl_size fl) (fl_buf_size fl)) (drop n p) ms
    end
  end.

(** Every round writes a byte at least. *)
Definition lsquic_frab_list_write (fl : frab_list) (buf : list Z) (ms : list bool)
    : option (Z * frab_list * list bool) :=
  '(r, fl, ms) ← frab_write_loop (S (length buf)) fl buf ms;
  Some (r, if r =? 0 then FL (fl_frabs fl) (u64 (fl_size fl + Z.of_nat (length buf))) (fl_buf_size fl) else fl, ms).

Definition lsquic_frab_list_size (fl : frab_list) : Z := fl_size fl.

Definition lsquic_frab_list_empty (fl : frab_list) : bool := match fl_frabs fl with [] => true | _ => false end.

Fixpoint frab_read_loop (fuel : nat) (fl : frab_list) (n : Z) (acc : list Z) : option (list Z * frab_list) :=
  match fuel with
  | O => None
  | S fuel =>
    match fl_frabs fl with
    | f :: fs =>
      if 0 <? n then
        let ntocopy := if frab_left_to_read f <? n then frab_left_to_read f else n in
        if ntocopy <? 0 then None else
        let bytes := take (Z.to_nat ntocopy) (drop (Z.to_nat (frab_off f)) (frab_buf f)) in
        let f := FB (frab_size f) (u16 (frab_off f + ntocopy)) (frab_buf_size f) (frab_buf f) in
        let fs := if frab_off f =? frab_size f then fs else f :: fs in
        frab_read_loop fuel (FL fs (u64 (fl_size fl - ntocopy)) (fl_buf_size fl)) (n - ntocopy) (acc ++ bytes)
      else Some (acc, fl)
    | [] => Some (acc, fl)
    end
  end.

(** Every round but the last drops a buffer. *)
Definition lsquic_frab_list_read (fl : frab_list) (bufsz : Z) : option (list Z * frab_list) :=
  frab_read_loop (2 + length (fl_frabs fl)) fl bufsz [].

(** [sizeof(struct frab_list)] is 56. *)
Definition lsquic_frab_list_mem_used (fl : frab_list) : Z :=
  56 + fl_buf_size fl * Z.of_nat (length (fl_frabs fl)).

(** * The queue of bytes *)

Definition frab_content (f : frame_buf) : list Z := drop (Z.to_nat (frab_off f)) (frab_buf f).

Definition content (fl : frab_list) : list Z := concat (map frab_content (fl_frabs fl)).

Definition frab_ok (size : Z) (f : frame_buf) : Prop :=
  frab_buf_size f = size /\ 0 <= frab_off f < frab_size f /\ frab_size f <= size - sizeof_frame_buf /\
  Z.of_nat (length (frab_buf f)) = frab_size f.

(** [fl_size] is left out: it is wrong after a failed write ([frab_write_partial]). *)
Definition frabs_ok (fl : frab_list) : Prop :=
  sizeof_frame_buf < fl_buf_size fl < 2 ^ 16 /\ Forall (frab_ok (fl_buf_size fl)) (fl_frabs fl).

Definition fral_ok (fl : frab_list) : Prop :=
  frabs_ok fl /\ fl_size fl = Z.of_nat (length (content fl)).

Lemma fral_init_ok size : sizeof_frame_buf < size < 2 ^ 16 -> fral_ok (lsquic_frab_list_init size).
Proof. intros Hs. split; [by split|done]. Qed.

Lemma content_app fs f size bsize : content (FL (fs ++ [f]) size bsize) = concat (map frab_content fs) ++ frab_content f.
Proof. unfold content. cbn [fl_frabs]. rewrite map_app, concat_app. cbn. by rewrite app_nil_r. Qed.

Lemma left_to_write_eq size f : frab_ok size f \/ f = FB 0 0 size [] -> sizeof_frame_buf < size < 2 ^ 16 ->
  u32 (frab_left_to_write f) = frab_left_to_write f /\ frab_left_to_write f = size - 24 - frab_size f.
Proof.
  intros Hf Hs. unfold frab_left_to_write, sizeof_frame_buf in *. change (u16 24) with 24.
  assert (frab_buf_size f = size /\ 0 <= frab_size f <= size - 24) as [-> ?].
  { destruct Hf as [(-> & ? & ? & _)| ->]; unfold sizeof_frame_buf in *; cbn; lia. }
  split; [|done]. apply wrapu_id. split; [lia|]. change (2 ^ 32) with 4294967296. lia.
Qed.

(** The buffer that is written to has room, and replacing it by a longer one
    appends to the content. *)
Definition can_write (fl : frab_list) (ms : list bool) (w : option (list frame_buf * frame_buf) * list bool) : Prop :=
  match w.1 with
  | None => ms <> []
  | Some (before, f) => Forall (frab_ok (fl_buf_size fl)) before /\
      (frab_ok (fl_buf_size fl) f \/ f = FB 0 0 (fl_buf_size fl) []) /\ 0 < frab_left_to_write f /\
      content fl = concat (map frab_content before) ++ frab_content f
  end /\ suffix w.2 ms.

Lemma frab_append_ok fl ms : frabs_ok fl -> can_write fl ms (frab_append fl ms).
Proof.
  intros [Hs Hall]. unfold frab_append, fral_get_frab, malloc.
  destruct (left_to_write_eq (fl_buf_size fl) (FB 0 0 (fl_buf_size fl) []) ltac:(by right) Hs) as [_ E].
  cbn [frab_size] in E. unfold sizeof_frame_buf in *. unfold can_write.
  destruct ms as [|[] ms]; cbn [mbind option_bind fst snd]; rewrite ?app_nil_r;
    (split; [first [done | split_and!; [done|by right|lia|done]]|first [done | by eexists [_]]]).
Qed.

Lemma frab_to_write_ok fl ms : frabs_ok fl -> can_write fl ms (frab_to_write fl ms).
Proof.
  intros Hok. pose proof (frab_append_ok fl ms Hok) as Hnew. destruct Hok as [Hs Hall]. unfold frab_to_write.
  destruct (list.last (fl_frabs fl)) as [f|] eqn:El; [|done].
  apply last_Some in El as (fs & E). rewrite E in Hall. apply Forall_app in Hall as [Hfs Hf%Forall_inv].
  destruct (left_to_write_eq _ f (or_introl Hf) Hs) as [Eu _]. rewrite Eu.
  destruct (Z.ltb_spec 0 (frab_left_to_write f)); [|done].
  rewrite E, length_app, Nat.add_sub, take_app_length. split; [|done]. split; [done|]. split; [by left|]. split; [done|].
  unfold content. rewrite E, map_app, concat_app. cbn. by rewrite app_nil_r.
Qed.

(** On failure a part of the bytes has been written. *)
Lemma frab_write_loop_ok fuel : forall fl p ms, (length p < fuel)%nat -> frabs_ok fl ->
  exists r fl' ms', frab_write_loop fuel fl p ms = Some (r, fl', ms') /\ frabs_ok fl' /\
    fl_buf_size fl' = fl_buf_size fl /\ fl_size fl' = fl_size fl /\
    ((r = 0 /\ content fl' = content fl ++ p) \/
     (r = -1 /\ ms <> [] /\ exists k, (k < length p)%nat /\ content fl' = content fl ++ take k p)).
Proof.
  induction fuel as [|fuel IH]; intros fl p ms Hlen Hok; [lia|]. cbn [frab_write_loop].
  destruct (Nat.eqb_spec (length p) 0) as [Hp|Hp].
  { apply length_zero_iff_nil in Hp as ->. eexists _, _, _. rewrite app_nil_r. naive_solver. }
  pose proof (frab_to_write_ok fl ms Hok) as [Hw Hsuf]. destruct (frab_to_write fl ms) as [[[before f]|] ms1]; cbn [fst snd] in *.
  2: { eexists _, _, _. split; [done|]. do 3 (split; [done|]). right. do 2 (split; [done|]). exists 0%nat. split; [lia|by rewrite app_nil_r]. }
  destruct Hw as (Hb & Hf & Hleft & Ec). destruct Hok as [Hs Hall]. destruct (left_to_write_eq _ f Hf Hs) as [-> El].
  set (n := if Z.of_nat (length p) <? frab_left_to_write f then Z.of_nat (length p) else frab_left_to_write f).
  assert (0 < n <= Z.of_nat (length p) /\ n <= frab_left_to_write f) as [Hn Hn'].
  { unfold n. destruct (Z.ltb_spec (Z.of_nat (length p)) (frab_left_to_write f)); lia. }
  ztest. assert (Hfs : frab_buf_size f = fl_buf_size fl /\ 0 <= frab_off f <= frab_size f /\ Z.of_nat (length (frab_buf f)) = frab_size f).
  { destruct Hf as [(-> & ? & ? & ?)| ->]; cbn; lia. }
  destruct Hfs as (Ebs & Ho & Elen). unfold sizeof_frame_buf in *.
  set (f' := FB _ _ _ _).
  edestruct (IH (FL (before ++ [f']) (fl_size fl) (fl_buf_size fl)) (drop (Z.to_nat n) p) ms1) as (r & fl' & ms' & E & Hok' & Eb & Es & Hr).
  { rewrite length_drop. lia. }
  { split; [done|]. apply Forall_app. split; [done|]. apply Forall_singleton. unfold f', frab_ok, sizeof_frame_buf. cbn.
    rewrite wrapu_id by (split; [lia|change (2 ^ 16) with 65536 in *; lia]). rewrite length_app, length_take. split_and!; [done|lia..]. }
  exists r, fl', ms'. do 4 (split; [done|]).
  assert (Ec' : content (FL (before ++ [f']) (fl_size fl) (fl_buf_size fl)) = content fl ++ take (Z.to_nat n) p).
  { rewrite content_app, Ec, <- app_assoc. f_equal. unfold frab_content, f'. cbn. rewrite drop_app_le by lia. done. }
  rewrite Ec' in Hr. destruct Hr as [[-> Hr]|(-> & Hm & k & Hk & Hr)]; [left|right]; (split; [done|]); rewrite Hr, <- app_assoc.
  - by rewrite take_drop.
  - split; [by intros ->; apply suffix_nil_inv in Hsuf|]. rewrite length_drop in Hk.
    exists (Z.to_nat n + k)%nat. split; [lia|]. by rewrite take_take_drop.
Qed.

(** ** What the operations do to the queue *)

Lemma frab_write_ok fl p ms : fral_ok fl -> Z.of_nat (length (content fl) + length p) < 2 ^ 64 ->
  exists r fl' ms', lsquic_frab_list_write fl p ms = Some (r, fl', ms') /\ frabs_ok fl' /\
    ((r = 0 /\ fral_ok fl' /\ content fl' = content fl ++ p) \/
     (r = -1 /\ ms <> [] /\ fl_size fl' = fl_size fl /\ exists k, (k < length p)%nat /\ content fl' = content fl ++ take k p)).
Proof.
  intros [Hok Esz] Hlen. unfold lsquic_frab_list_write.
  destruct (frab_write_loop_ok (S (length p)) fl p ms ltac:(lia) Hok) as (r & fl' & ms' & -> & [Hs Hall] & Eb & Es & Hr).
  cbn [mbind option_bind]. eexists _, _, _. split; [done|].
  destruct Hr as [[-> Ec]|(-> & Hm & Hk)]; cbn [Z.eqb]; (split; [by split|]); [left|right]; [|done].
  split; [done|]. assert (content (FL (fl_frabs fl') (u64 (fl_size fl' + Z.of_nat (length p))) (fl_buf_size fl')) = content fl ++ p) as Ec' by done.
  split; [|done]. split; [by split|]. rewrite Ec'. cbn [fl_size]. rewrite Es, Esz, length_app, Nat2Z.inj_add. apply wrapu_id. split; lia.
Qed.

Lemma frab_read_loop_ok fuel : forall fl n acc, ((1 + length (fl_frabs fl) < fuel)%nat \/ n <= 0 /\ (0 < fuel)%nat) ->
  0 <= n -> fral_ok fl -> Z.of_nat (length (content fl)) < 2 ^ 64 ->
  exists fl', frab_read_loop fuel fl n acc = Some (acc ++ take (Z.to_nat n) (content fl), fl') /\
    fral_ok fl' /\ content fl' = drop (Z.to_nat n) (content fl).
Proof.
  induction fuel as [|fuel IH]; intros fl n acc Hfuel Hn Hok Hlen; [lia|]. cbn [frab_read_loop].
  destruct Hok as [[Hs Hall] Esz]. unfold content in *. destruct (fl_frabs fl) as [|f fs] eqn:Ef; cbn [map concat] in *.
  { exists fl. rewrite take_nil, drop_nil, app_nil_r, Ef. split; [done|]. split; [|done]. split; [by split; rewrite ?Ef|]. unfold content. by rewrite Ef. }
  destruct (Z.ltb_spec 0 n) as [Hp|Hp].
  2: { replace n with 0 by lia. change (Z.to_nat 0) with 0%nat. rewrite take_0, drop_0, app_nil_r. exists fl. rewrite Ef. split; [done|].
       split; [|done]. split; [by split; rewrite ?Ef|]. unfold content. by rewrite Ef. }
  apply Forall_cons in Hall as [(Eb & Ho & Hsz & El) Hall]. unfold sizeof_frame_buf in *.
  set (k := if frab_left_to_read f <? n then frab_left_to_read f else n).
  assert (0 < k <= n /\ k <= frab_left_to_read f) as [Hk Hk'].
  { unfold k, frab_left_to_read. destruct (Z.ltb_spec (frab_size f - frab_off f) n); lia. }
  unfold frab_left_to_read in Hk'. ztest.
  assert (Hcl : Z.of_nat (length (frab_content f)) = frab_size f - frab_off f) by (unfold frab_content; rewrite length_drop; lia).
  rewrite (wrapu_id 16 (frab_off f + k)) by (split; [lia|change (2 ^ 16) with 65536 in *; lia]). cbn [frab_off frab_size].
  change (drop (Z.to_nat (frab_off f)) (frab_buf f)) with (frab_content f).
  set (f' := FB _ _ _ _). set (fs' := if frab_off f + k =? frab_size f then fs else f' :: fs).
  rewrite length_app in Esz, Hlen.
  assert (Ec : concat (map frab_content fs') = drop (Z.to_nat k) (frab_content f ++ concat (map frab_content fs))).
  { rewrite drop_app_le by lia. unfold fs', frab_content at 2. rewrite drop_drop.
    destruct (Z.eqb_spec (frab_off f + k) (frab_size f)) as [E|E].
    - rewrite drop_ge by lia. done.
    - cbn [map concat]. unfold frab_content at 1, f'. cbn. by replace (Z.to_nat (frab_off f + k)) with (Z.to_nat (frab_off f) + Z.to_nat k)%nat by lia. }
  edestruct (IH (FL fs' (u64 (fl_size fl - k)) (fl_buf_size fl)) (n - k) (acc ++ take (Z.to_nat k) (frab_content f))) as (fl' & E & Hok' & Ec').
  - cbn [fl_frabs]. destruct (decide (n - k <= 0)); [right; lia|left]. unfold fs'.
    assert (k = frab_size f - frab_off f) by (unfold k, frab_left_to_read in *; destruct (Z.ltb_spec (frab_size f - frab_off f) n); lia).
    ztest. cbn [length] in *. lia.
  - lia.
  - split; [split; [done|]|].
    + cbn [fl_frabs fl_buf_size]. unfold fs'. destruct (Z.eqb_spec (frab_off f + k) (frab_size f)); [done|].
      constructor; [|done]. unfold f', frab_ok, sizeof_frame_buf. cbn. split_and!; [done|lia..].
    + unfold content. cbn [fl_frabs fl_size]. rewrite Ec, length_drop, length_app. rewrite wrapu_id; [lia|]. split; lia.
  - unfold content. cbn [fl_frabs]. rewrite Ec, length_drop, length_app. lia.
  - unfold content in E, Ec'. cbn [fl_frabs] in E, Ec'. rewrite Ec in E, Ec'. exists fl'. split; [|split; [done|]].
    + rewrite E, <- app_assoc. do 3 f_equal. rewrite <- (take_app_le _ (concat (map frab_content fs))) by lia.
      rewrite take_take_drop. f_equal. lia.
    + rewrite Ec', drop_drop. f_equal. lia.
Qed.

(** Reading takes bytes off the front of the queue. *)
Lemma frab_read_ok fl n : 0 <= n -> fral_ok fl -> Z.of_nat (length (content fl)) < 2 ^ 64 ->
  exists fl', lsquic_frab_list_read fl n = Some (take (Z.to_nat n) (content fl), fl') /\
    fral_ok fl' /\ content fl' = drop (Z.to_nat n) (content fl).
Proof.
  intros Hn Hok Hlen. unfold lsquic_frab_list_read.
  apply (frab_read_loop_ok _ fl n []); [left; lia|done..].
Qed.

Lemma frab_empty_ok fl : frabs_ok fl -> lsquic_frab_list_empty fl = true <-> content fl = [].
Proof.
  intros [Hs Hall]. unfold lsquic_frab_list_empty, content. destruct (fl_frabs fl) as [|f fs]; [done|]. split; [done|].
  apply Forall_cons in Hall as [(_ & Ho & _ & El) _]. cbn [map concat]. intros [E _]%app_nil. unfold frab_content in E.
  apply (f_equal length) in E. rewrite length_drop in E. cbn in E. lia.
Qed.

(** A finding: a write that fails for lack of memory leaves the bytes written so
    far in the list without counting them, and reading them makes [fl_size] wrap
    around. *)
Lemma frab_write_partial :
  exists fl ms fl2, lsquic_frab_list_write (lsquic_frab_list_init 32) (replicate 9 7) [true; false] = Some (-1, fl, ms) /\
    content fl = replicate 8 7 /\ fl_size fl = 0 /\
    lsquic_frab_list_read fl 8 = Some (replicate 8 7, fl2) /\ lsquic_frab_list_size fl2 = 2 ^ 64 - 8.
Proof. by eexists _, _, _. Qed.
