(* ===== verification/Hcsi.v ===== *)
(** The reader of the HTTP/3 control stream (lsquic_hcsi_reader.c).

    The input of a call is the list of its bytes; what the reader tells the
    connection through its callbacks is a list of events.  The members of the
    union [hr_u] are fields of their own: none is read after another was written,
    apart from the identifier that [prio_state] keeps in [vint_state]. *)
From S2P Require Import Prelude Varint VarintChunks.
Local Open Scope Z_scope.

(** * lsquic_hq.h *)

Definition HQFT_DATA : Z := 0.
Definition HQFT_HEADERS : Z := 1.
Definition HQFT_CANCEL_PUSH : Z := 3.
Definition HQFT_SETTINGS : Z := 4.
Definition HQFT_PUSH_PROMISE : Z := 5.
Definition HQFT_GOAWAY : Z := 7.
Definition HQFT_MAX_PUSH_ID : Z := 13.
Definition HQFT_PRIORITY_UPDATE_STREAM : Z := 984832.
Definition HQFT_PRIORITY_UPDATE_PUSH : Z := 984833.

Definition HEC_FRAME_UNEXPECTED : Z := 261.
Definition HEC_FRAME_ERROR : Z := 262.
Definition HEC_MISSING_SETTINGS : Z := 266.

(** The callbacks, and [ci_abort_error] of the connection. *)
Inductive hcsi_event :=
| OnCancelPush (push_id : Z)
| OnMaxPushId (push_id : Z)
| OnSettingsFrame
| OnSetting (setting_id value : Z)
| OnGoaway (stream_id : Z)
| OnFrameError (code frame_type : Z)
| OnPriorityUpdate (frame_type id : Z) (pfv : list Z)
| AbortError (code : Z).

(** * The reader *)

Inductive hr_st :=
| HR_READ_FRAME_BEGIN | HR_READ_FRAME_CONTINUE | HR_SKIPPING | HR_READ_SETTING_BEGIN | HR_READ_SETTING_CONTINUE
| HR_READ_PRIORITY_UPDATE | HR_READ_VARINT | HR_READ_VARINT_CONTINUE | HR_ERROR.

Record hcsi_reader := HR {
  hr_state : hr_st;
  hr_rcvd_setting : bool; (** HR_FLAG_RCVD_SETTING *)
  hr_nread : Z;
  hr_frame_type : Z;
  hr_frame_length : Z;
  hr_vint : varint_read_state;
  hr_vint2 : varint_read2_state;
  hr_buf : list Z (** the first [hr_nread] bytes of [prio_state.buf] *)
}.

(** [sizeof(struct varint_read2_state) - sizeof(struct varint_read_state)] *)
Definition sizeof_prio_buf : Z := 16.

Definition lsquic_hcsi_reader_init : hcsi_reader :=
  HR HR_READ_FRAME_BEGIN false 0 0 0 (VRS 0 0) (VR2S 0 (VRS 0 0) VR2S_READ_ONE_BEGIN) [].

Definition to_state (r : hcsi_reader) (s : hr_st) : hcsi_reader :=
  HR s (hr_rcvd_setting r) (hr_nread r) (hr_frame_type r) (hr_frame_length r) (hr_vint r) (hr_vint2 r) (hr_buf r).
Definition to_nread (r : hcsi_reader) (n : Z) : hcsi_reader :=
  HR (hr_state r) (hr_rcvd_setting r) n (hr_frame_type r) (hr_frame_length r) (hr_vint r) (hr_vint2 r) (hr_buf r).
Definition to_frame (r : hcsi_reader) (type len : Z) : hcsi_reader :=
  HR (hr_state r) (hr_rcvd_setting r) (hr_nread r) type len (hr_vint r) (hr_vint2 r) (hr_buf r).
Definition to_rcvd (r : hcsi_reader) : hcsi_reader :=
  HR (hr_state r) true (hr_nread r) (hr_frame_type r) (hr_frame_length r) (hr_vint r) (hr_vint2 r) (hr_buf r).
Definition to_vint (r : hcsi_reader) (v : varint_read_state) : hcsi_reader :=
  HR (hr_state r) (hr_rcvd_setting r) (hr_nread r) (hr_frame_type r) (hr_frame_length r) v (hr_vint2 r) (hr_buf r).
Definition to_vint2 (r : hcsi_reader) (v : varint_read2_state) : hcsi_reader :=
  HR (hr_state r) (hr_rcvd_setting r) (hr_nread r) (hr_frame_type r) (hr_frame_length r) (hr_vint r) v (hr_buf r).
Definition to_buf (r : hcsi_reader) (b : list Z) : hcsi_reader :=
  HR (hr_state r) (hr_rcvd_setting r) (hr_nread r) (hr_frame_type r) (hr_frame_length r) (hr_vint r) (hr_vint2 r) b.

(** [vr2s_state = 0] *)
Definition vint2_begin (r : hcsi_reader) : hcsi_reader :=
  to_vint2 r (VR2S (vr2s_one (hr_vint2 r)) (vr2s_varint_state (hr_vint2 r)) VR2S_READ_ONE_BEGIN).

(** What a turn of the loop ends with: the return value or, when the loop goes on,
    [None]; the reader; the input that is left; the events. *)
Definition turn : Type := option Z * hcsi_reader * list Z * list hcsi_event.

Definition is_number_frame (type : Z) : bool :=
  (type =? HQFT_GOAWAY) || (type =? HQFT_CANCEL_PUSH) || (type =? HQFT_MAX_PUSH_ID).
Definition is_priority_update (type : Z) : bool :=
  (type =? HQFT_PRIORITY_UPDATE_PUSH) || (type =? HQFT_PRIORITY_UPDATE_STREAM).

(** The switch on the type of the frame. *)
Definition frame_begins (r : hcsi_reader) (p : list Z) : turn :=
  let type := hr_frame_type r in
  if type =? HQFT_SETTINGS then
    let r := to_rcvd r in
    if negb (hr_frame_length r =? 0) then (None, to_nread (to_state r HR_READ_SETTING_BEGIN) 0, p, [])
    else (None, to_state r HR_READ_FRAME_BEGIN, p, [OnSettingsFrame])
  else if is_number_frame type || is_priority_update type then (None, to_state r HR_READ_VARINT, p, [])
  else if (type =? HQFT_DATA) || (type =? HQFT_HEADERS) || (type =? HQFT_PUSH_PROMISE)
  then (Some (-1), r, p, [OnFrameError HEC_FRAME_UNEXPECTED type])
  else (None, to_state r HR_SKIPPING, p, []).

(** [None]: a failed assertion. *)
Definition read_frame_continue (r : hcsi_reader) (p : list Z) : option turn :=
  '(s, p, v) ← lsquic_varint_read_two p (hr_vint2 r);
  let r := to_vint2 r v in
  if s <? 0 then Some (None, r, p, []) else
  let r := to_frame r (vr2s_one v) (vr2s_two v) in
  if negb (hr_rcvd_setting r) && negb (hr_frame_type r =? HQFT_SETTINGS)
  then Some (Some (-1), r, p, [OnFrameError HEC_MISSING_SETTINGS (hr_frame_type r)])
  else Some (frame_begins r p).

(** The identifier of a PRIORITY_UPDATE frame has been read.  [None]: [p] is moved
    out of the buffer. *)
Definition priority_update (r : hcsi_reader) (p : list Z) : option turn :=
  let len := u64 (hr_frame_length r - hr_nread r) in
  if len <=? Z.of_nat (length p) then
    let n := Z.to_nat len in
    Some (None, to_state r HR_READ_FRAME_BEGIN, drop n p,
          [OnPriorityUpdate (hr_frame_type r) (vr_val (hr_vint r)) (take n p)])
  else if len <=? sizeof_prio_buf then
    Some (None, to_state (to_nread (to_frame r (hr_frame_type r) len) 0) HR_READ_PRIORITY_UPDATE, p, [])
  else None.

Definition read_varint_continue (r : hcsi_reader) (p : list Z) : option turn :=
  '(s, p', v) ← lsquic_varint_read_nb p (hr_vint r);
  let r := to_nread (to_vint r v) (u32 (hr_nread r + Z.of_nat (length p - length p'))) in
  if s =? 0 then
    let type := hr_frame_type r in
    if is_number_frame type && negb (hr_nread r =? hr_frame_length r)
    then Some (Some (-1), to_state r HR_ERROR, p', [AbortError HEC_FRAME_ERROR]) else
    let number e := Some (None, to_state r HR_READ_FRAME_BEGIN, p', [e (vr_val v)]) in
    if type =? HQFT_GOAWAY then number OnGoaway
    else if type =? HQFT_CANCEL_PUSH then number OnCancelPush
    else if type =? HQFT_MAX_PUSH_ID then number OnMaxPushId
    else if is_priority_update type then priority_update r p'
    else None
  else if (length p' =? 0)%nat then Some (Some 0, r, p', []) else None.

Definition skipping (r : hcsi_reader) (p : list Z) : turn :=
  let len := if Z.of_nat (length p) <? hr_frame_length r then Z.of_nat (length p) else hr_frame_length r in
  let r := to_frame r (hr_frame_type r) (u64 (hr_frame_length r - len)) in
  (None, if hr_frame_length r =? 0 then to_state r HR_READ_FRAME_BEGIN else r, drop (Z.to_nat len) p, []).

Definition read_setting_continue (r : hcsi_reader) (p : list Z) : option turn :=
  '(s, p', v) ← lsquic_varint_read_two p (hr_vint2 r);
  let r := to_nread (to_vint2 r v) (u32 (hr_nread r + Z.of_nat (length p - length p'))) in
  if hr_frame_length r <? hr_nread r then Some (Some (-1), to_state r HR_ERROR, p', [AbortError HEC_FRAME_ERROR]) else
  if s <? 0 then Some (None, r, p', []) else
  let e := OnSetting (vr2s_one v) (vr2s_two v) in
  Some (if hr_frame_length r <=? hr_nread r then (None, to_state r HR_READ_FRAME_BEGIN, p', [e; OnSettingsFrame])
        else (None, to_state r HR_READ_SETTING_BEGIN, p', [e])).

(** [None]: a write past the end of [prio_state.buf]. *)
Definition read_priority_update (r : hcsi_reader) (p : list Z) : option turn :=
  let left := u64 (hr_frame_length r - hr_nread r) in
  let len := if Z.of_nat (length p) <? left then Z.of_nat (length p) else left in
  if sizeof_prio_buf <? hr_nread r + len then None else
  let n := Z.to_nat len in
  let r := to_nread (to_buf r (take (Z.to_nat (hr_nread r)) (hr_buf r) ++ take n p)) (u32 (hr_nread r + len)) in
  Some (if hr_frame_length r =? hr_nread r
        then (None, to_state r HR_READ_FRAME_BEGIN, drop n p,
              [OnPriorityUpdate (hr_frame_type r) (vr_val (hr_vint r)) (hr_buf r)])
        else (None, r, drop n p, [])).

(** The body of the loop. *)
Definition hcsi_turn (r : hcsi_reader) (p : list Z) : option turn :=
  match hr_state r with
  | HR_READ_FRAME_BEGIN => read_frame_continue (to_state (vint2_begin r) HR_READ_FRAME_CONTINUE) p
  | HR_READ_FRAME_CONTINUE => read_frame_continue r p
  | HR_READ_VARINT =>
      read_varint_continue (to_nread (to_state (to_vint r (VRS (vr_val (hr_vint r)) 0)) HR_READ_VARINT_CONTINUE) 0) p
  | HR_READ_VARINT_CONTINUE => read_varint_continue r p
  | HR_SKIPPING => Some (skipping r p)
  | HR_READ_SETTING_BEGIN => read_setting_continue (to_state (vint2_begin r) HR_READ_SETTING_CONTINUE) p
  | HR_READ_SETTING_CONTINUE => read_setting_continue r p
  | HR_READ_PRIORITY_UPDATE => read_priority_update r p
  | HR_ERROR => Some (Some (-1), r, p, [])
  end.

Fixpoint feed_loop (fuel : nat) (r : hcsi_reader) (p : list Z) : option (Z * hcsi_reader * list hcsi_event) :=
  match fuel with
  | O => None
  | S fuel =>
    if (length p =? 0)%nat then Some (0, r, []) else
    '(ret, r, p, evs) ← hcsi_turn r p;
    match (ret : option Z) with
    | Some ret => Some (ret, r, evs)
    | None => '(ret, r, evs') ← feed_loop fuel r p; Some (ret, r, evs ++ evs')
    end
  end.

(** Only the turn that finds nothing left to skip reads no byte, and the next one
    does. *)
Definition lsquic_hcsi_reader_feed (r : hcsi_reader) (buf : list Z) : option (Z * hcsi_reader * list hcsi_event) :=
  feed_loop (2 + 2 * length buf) r buf.

(** Several calls, up to the first that fails. *)
Fixpoint hcsi_feed_all (r : hcsi_reader) (chunks : list (list Z)) : option (Z * hcsi_reader * list hcsi_event) :=
  match chunks with
  | [] => Some (0, r, [])
  | c :: cs =>
    '(ret, r, evs) ← lsquic_hcsi_reader_feed r c;
    if negb (ret =? 0) then Some (ret, r, evs) else
    '(ret, r, evs') ← hcsi_feed_all r cs;
    Some (ret, r, evs ++ evs')
  end.
