(* ===== verification/HcsiSpec.v ===== *)
(** What the reader of the control stream promises: an automaton that takes one
    byte at a time, which does not know how the input was cut, and the proof that
    lsquic_hcsi_reader.c implements it. *)
From S2P Require Import Prelude Varint VarintChunks Hcsi.
Local Open Scope Z_scope.

(** * The automaton *)

(** Where the stream is: in the type and length of a frame ([acc] are the bytes so
    far), in a frame that is skipped, in a setting, in the integer of a frame, in
    the priority field of a PRIORITY_UPDATE frame, or past an error. *)
Inductive ctl :=
| CHead (acc : list Z)
| CSkip (left : Z)
| CSettings (left : Z) (acc : list Z)
| CValue (type len : Z) (acc : list Z)
| CPrio (type id left : Z) (got : list Z)
| CError.

(** The state also tells whether SETTINGS were seen. *)
Definition ctl_out : Type := option ((bool * ctl) * list hcsi_event).

Definition ctl_frame (rcvd : bool) (type len : Z) : (bool * ctl) * list hcsi_event :=
  if negb rcvd && negb (type =? HQFT_SETTINGS) then ((rcvd, CError), [OnFrameError HEC_MISSING_SETTINGS type])
  else if type =? HQFT_SETTINGS then
    if len =? 0 then ((true, CHead []), [OnSettingsFrame]) else ((true, CSettings len []), [])
  else if is_number_frame type || is_priority_update type then ((rcvd, CValue type len []), [])
  else if (type =? HQFT_DATA) || (type =? HQFT_HEADERS) || (type =? HQFT_PUSH_PROMISE)
  then ((rcvd, CError), [OnFrameError HEC_FRAME_UNEXPECTED type])
  else ((rcvd, if len =? 0 then CHead [] else CSkip len), []).

Definition number_event (type : Z) : Z -> hcsi_event :=
  if type =? HQFT_GOAWAY then OnGoaway else if type =? HQFT_CANCEL_PUSH then OnCancelPush else OnMaxPushId.

(** The strict automaton refuses priority fields of more than 16 bytes. *)
Section automaton.
Context (strict : bool).

(** The integer of a frame, [n] bytes long.  [None]: a PRIORITY_UPDATE frame whose
    length does not cover the integer, or whose field is refused. *)
Definition ctl_value (rcvd : bool) (type len n v : Z) : ctl_out :=
  if is_number_frame type then
    Some (if n =? len then ((rcvd, CHead []), [number_event type v])
          else ((rcvd, CError), [AbortError HEC_FRAME_ERROR]))
  else if (len <? n) || (strict && (sizeof_prio_buf <? len - n)) then None
  else Some (if len =? n then ((rcvd, CHead []), [OnPriorityUpdate type v []])
             else ((rcvd, CPrio type v (len - n) []), [])).

Definition ctl_setting (rcvd : bool) (left id v : Z) : (bool * ctl) * list hcsi_event :=
  if left =? 0 then ((rcvd, CHead []), [OnSetting id v; OnSettingsFrame])
  else ((rcvd, CSettings left []), [OnSetting id v]).

Definition ctl_step (s : bool * ctl) (b : Z) : ctl_out :=
  let '(rcvd, c) := s in
  match c with
  | CHead acc =>
    Some match varint_two (acc ++ [b]) with
         | None => ((rcvd, CHead (acc ++ [b])), [])
         | Some (_, (type, len)) => ctl_frame rcvd type len
         end
  | CSkip k => Some ((rcvd, if k =? 1 then CHead [] else CSkip (k - 1)), [])
  | CSettings k acc =>
    if k =? 0 then Some ((rcvd, CError), [AbortError HEC_FRAME_ERROR]) else
    Some match varint_two (acc ++ [b]) with
         | None => ((rcvd, CSettings (k - 1) (acc ++ [b])), [])
         | Some (_, (id, v)) => ctl_setting rcvd (k - 1) id v
         end
  | CValue type len acc =>
    match lsquic_varint_read (acc ++ [b]) with
    | None => Some ((rcvd, CValue type len (acc ++ [b])), [])
    | Some (n, v) => ctl_value rcvd type len n v
    end
  | CPrio type id k got =>
    Some (if k =? 1 then ((rcvd, CHead []), [OnPriorityUpdate type id (got ++ [b])])
          else ((rcvd, CPrio type id (k - 1) (got ++ [b])), []))
  | CError => Some ((rcvd, CError), [])
  end.

Fixpoint ctl_run (s : bool * ctl) (p : list Z) : ctl_out :=
  match p with
  | [] => Some (s, [])
  | b :: p => '(s, e) ← ctl_step s b; '(s, e') ← ctl_run s p; Some (s, e ++ e')
  end.

Definition then_run (o : ctl_out) (p : list Z) : ctl_out :=
  '(s, e) ← o; '(s, e') ← ctl_run s p; Some (s, e ++ e').

Lemma ctl_run_app p : forall s q, ctl_run s (p ++ q) = then_run (ctl_run s p) q.
Proof.
  induction p as [|b p IH]; intros s q; cbn [app ctl_run].
  - cbn. by destruct (ctl_run s q) as [[]|].
  - destruct (ctl_step s b) as [[s1 e1]|]; [|done]. cbn [mbind option_bind]. rewrite IH. unfold then_run.
    destruct (ctl_run s1 p) as [[s2 e2]|]; [|done]. cbn [mbind option_bind].
    destruct (ctl_run s2 q) as [[s3 e3]|]; [|done]. cbn [mbind option_bind]. by rewrite app_assoc.
Qed.

Lemma ctl_run_cut n s p : ctl_run s p = then_run (ctl_run s (take n p)) (drop n p).
Proof. by rewrite <- ctl_run_app, take_drop. Qed.

Lemma ctl_run_error rcvd p : ctl_run (rcvd, CError) p = Some ((rcvd, CError), []).
Proof. induction p as [|b p IH]; [done|]. cbn [ctl_run ctl_step mbind option_bind]. by rewrite IH. Qed.

(** ** States that collect bytes until a code is complete *)

Section collect.
Context {V : Type} (dec : list Z -> option (Z * V)).
Hypothesis dec_app : forall p q n v, Forall byte_ok (p ++ q) -> dec p = Some (n, v) -> dec (p ++ q) = Some (n, v).
Hypothesis dec_longer : forall p q n v, Forall byte_ok (p ++ q) ->
  dec p = None -> dec (p ++ q) = Some (n, v) -> Z.of_nat (length p) < n.
Hypothesis dec_fits : forall p n v, Forall byte_ok p -> dec p = Some (n, v) -> n <= Z.of_nat (length p).
Context (mk : list Z -> bool * ctl) (fin : Z -> V -> ctl_out) (lim : nat).
Hypothesis mk_step : forall acc b, (length acc < lim)%nat -> Forall byte_ok (acc ++ [b]) -> dec acc = None -> ctl_step (mk acc) b =
  match dec (acc ++ [b]) with None => Some (mk (acc ++ [b]), []) | Some (n, v) => fin n v end.

Lemma run_collect c : forall acc, Forall byte_ok (acc ++ c) -> dec acc = None ->
  match dec (acc ++ c) with
  | Some (n, v) => n <= Z.of_nat lim -> ctl_run (mk acc) c = then_run (fin n v) (drop (Z.to_nat n - length acc) c)
  | None => (length (acc ++ c) <= lim)%nat -> ctl_run (mk acc) c = Some (mk (acc ++ c), [])
  end.
Proof using dec_app dec_longer dec_fits mk_step.
  induction c as [|b c IH]; intros acc Hok Hacc.
  { rewrite app_nil_r, Hacc. done. }
  assert (Forall byte_ok (acc ++ [b])) as Hokb.
  { apply Forall_app in Hok as [? ?]. apply Forall_app. split; [done|]. apply Forall_singleton. by eapply Forall_inv. }
  assert (Es : acc ++ b :: c = (acc ++ [b]) ++ c) by (by rewrite <- app_assoc). rewrite Es in Hok |- *.
  destruct (dec (acc ++ [b])) as [[n v]|] eqn:Eb.
  - rewrite (dec_app _ _ _ _ Hok Eb). intros Hn.
    pose proof (dec_longer _ _ _ _ Hokb Hacc Eb). pose proof (dec_fits _ _ _ Hokb Eb) as Hf. rewrite length_app in Hf. cbn in Hf.
    cbn [ctl_run]. rewrite mk_step, Eb by (done || lia). replace (Z.to_nat n - length acc)%nat with 1%nat by lia. done.
  - specialize (IH (acc ++ [b]) Hok Eb). destruct (dec ((acc ++ [b]) ++ c)) as [[n v]|] eqn:Ec; intros Hl.
    + pose proof (dec_longer _ _ _ _ Hok Eb Ec) as Hlong. rewrite length_app in Hlong. cbn in Hlong.
      cbn [ctl_run]. rewrite mk_step, Eb by (done || lia). cbn [mbind option_bind]. rewrite IH by done. rewrite length_app. cbn [length].
      replace (Z.to_nat n - length acc)%nat with (S (Z.to_nat n - (length acc + 1)))%nat by lia. cbn [drop].
      unfold then_run. destruct (fin n v) as [[s e]|]; [|done]. cbn [mbind option_bind]. by destruct (ctl_run s _) as [[]|].
    + cbn [ctl_run]. rewrite mk_step, Eb by (done || rewrite !length_app in Hl; cbn in Hl; lia). cbn [mbind option_bind]. by rewrite IH.
Qed.

End collect.

(** The states of the automaton of which that holds. *)
Lemma run_head rcvd acc c : Forall byte_ok (acc ++ c) -> varint_two acc = None ->
  ctl_run (rcvd, CHead acc) c =
  match varint_two (acc ++ c) with
  | Some (n, (type, len)) => then_run (Some (ctl_frame rcvd type len)) (drop (Z.to_nat n - length acc) c)
  | None => Some ((rcvd, CHead (acc ++ c)), [])
  end.
Proof.
  intros Hok Hacc.
  pose proof (run_collect varint_two varint_two_app varint_two_longer (fun p n v H E => proj2 (proj1 (varint_two_inv p n v H E)))
    (fun acc => (rcvd, CHead acc)) (fun n v => Some (ctl_frame rcvd v.1 v.2)) (length (acc ++ c))) as H.
  specialize (H ltac:(intros a b _ _ _; cbn; by destruct (varint_two (a ++ [b])) as [[n [t l]]|]) c acc Hok Hacc). cbv beta in H.
  destruct (varint_two (acc ++ c)) as [[n [t l]]|] eqn:E; [|by apply H]. apply H.
  apply (varint_two_inv _ _ _ Hok E).
Qed.

Lemma run_value rcvd type len acc c : Forall byte_ok (acc ++ c) -> lsquic_varint_read acc = None ->
  ctl_run (rcvd, CValue type len acc) c =
  match lsquic_varint_read (acc ++ c) with
  | Some (n, v) => then_run (ctl_value rcvd type len n v) (drop (Z.to_nat n - length acc) c)
  | None => Some ((rcvd, CValue type len (acc ++ c)), [])
  end.
Proof.
  intros Hok Hacc.
  pose proof (run_collect lsquic_varint_read varint_read_app varint_read_longer
    (fun p n v H E => proj2 (proj1 (varint_read_pos p n v H E)))
    (fun acc => (rcvd, CValue type len acc)) (ctl_value rcvd type len) (length (acc ++ c))) as H.
  specialize (H ltac:(intros a b _ _ _; cbn; by destruct (lsquic_varint_read (a ++ [b])) as [[n v]|]) c acc Hok Hacc). cbv beta in H.
  destruct (lsquic_varint_read (acc ++ c)) as [[n v]|] eqn:E; [|by apply H]. apply H.
  apply (varint_read_pos _ _ _ Hok E).
Qed.

Lemma run_settings rcvd left acc c : Forall byte_ok (acc ++ c) -> varint_two acc = None -> 0 <= left ->
  match varint_two (acc ++ c) with
  | Some (n, (id, v)) => n - Z.of_nat (length acc) <= left ->
      ctl_run (rcvd, CSettings left acc) c =
      then_run (Some (ctl_setting rcvd (left - (n - Z.of_nat (length acc))) id v)) (drop (Z.to_nat n - length acc) c)
  | None => Z.of_nat (length c) <= left ->
      ctl_run (rcvd, CSettings left acc) c = Some ((rcvd, CSettings (left - Z.of_nat (length c)) (acc ++ c)), [])
  end.
Proof.
  intros Hok Hacc Hl. set (l0 := left + Z.of_nat (length acc)).
  pose proof (run_collect varint_two varint_two_app varint_two_longer (fun p n v H E => proj2 (proj1 (varint_two_inv p n v H E)))
    (fun acc => (rcvd, CSettings (l0 - Z.of_nat (length acc)) acc))
    (fun n v => Some (ctl_setting rcvd (l0 - n) v.1 v.2)) (Z.to_nat l0)) as H.
  specialize (fun Hs => H Hs c acc Hok Hacc). cbv beta in H.
  replace (l0 - Z.of_nat (length acc)) with left in H by lia.
  assert (Hstep : forall a b, (length a < Z.to_nat l0)%nat -> Forall byte_ok (a ++ [b]) -> varint_two a = None ->
    ctl_step (rcvd, CSettings (l0 - Z.of_nat (length a)) a) b =
    match varint_two (a ++ [b]) with
    | Some (n, v) => Some (ctl_setting rcvd (l0 - n) v.1 v.2)
    | None => Some ((rcvd, CSettings (l0 - Z.of_nat (length (a ++ [b]))) (a ++ [b])), []) end).
  { intros a b Ha Hab Ea. cbn [ctl_step]. ztest. destruct (varint_two (a ++ [b])) as [[n [i v]]|] eqn:E; cbn [fst snd].
    - pose proof (varint_two_longer _ _ _ _ Hab Ea E). destruct (varint_two_inv _ _ _ Hab E) as [Hn _].
      rewrite length_app in Hn. cbn [length] in Hn. do 2 f_equal. lia.
    - rewrite length_app. cbn [length]. do 4 f_equal. lia. }
  specialize (H Hstep). destruct (varint_two (acc ++ c)) as [[n [i v]]|] eqn:E; intros Hle.
  - rewrite H by lia. cbn [fst snd]. do 3 f_equal. lia.
  - rewrite H by (rewrite length_app; lia). do 4 f_equal. rewrite length_app. lia.
Qed.

(** More bytes than the SETTINGS frame has. *)
Lemma run_settings_long rcvd left acc c : Forall byte_ok (acc ++ c) -> varint_two acc = None -> 0 <= left < Z.of_nat (length c) ->
  (forall n v, varint_two (acc ++ c) = Some (n, v) -> left < n - Z.of_nat (length acc)) ->
  ctl_run (rcvd, CSettings left acc) c = Some ((rcvd, CError), [AbortError HEC_FRAME_ERROR]).
Proof.
  intros Hok Hacc Hl Hn. set (k := Z.to_nat left).
  assert (Hok' : Forall byte_ok (acc ++ take k c)).
  { apply Forall_app in Hok as [? ?]. auto using Forall_app_2, Forall_take. }
  rewrite (ctl_run_cut k). pose proof (run_settings rcvd left acc (take k c) Hok' Hacc ltac:(lia)) as H.
  destruct (varint_two (acc ++ take k c)) as [[n v]|] eqn:E.
  - exfalso. destruct (varint_two_inv _ _ _ Hok' E) as [Hf _]. rewrite length_app, length_take in Hf.
    rewrite <- (take_drop k c), app_assoc in Hn, Hok. specialize (Hn n v (varint_two_app _ _ _ _ Hok E)). lia.
  - rewrite length_take in H. rewrite H by lia. cbn [then_run mbind option_bind]. replace (left - _) with 0 by lia.
    destruct (drop k c) as [|b d] eqn:Ed; [apply (f_equal length) in Ed; rewrite length_drop in Ed; cbn in Ed; lia|].
    unfold then_run. cbn [ctl_run ctl_step mbind option_bind Z.eqb]. by rewrite ctl_run_error.
Qed.

Lemma run_skip rcvd k c : 0 < k -> Z.of_nat (length c) <= k ->
  ctl_run (rcvd, CSkip k) c = Some ((rcvd, if k - Z.of_nat (length c) =? 0 then CHead [] else CSkip (k - Z.of_nat (length c))), []).
Proof.
  revert k. induction c as [|b c IH]; intros k Hk Hc; cbn [length ctl_run] in *.
  { rewrite Z.sub_0_r. ztest. done. }
  cbn [ctl_step mbind option_bind]. destruct (Z.eqb_spec k 1) as [->|].
  - destruct c; [done|cbn in Hc; lia].
  - rewrite IH by lia. cbn [mbind option_bind app]. replace (k - 1 - Z.of_nat (length c)) with (k - Z.of_nat (S (length c))) by lia. done.
Qed.

Lemma run_prio rcvd type id c : forall k got, 0 < k -> Z.of_nat (length c) <= k ->
  ctl_run (rcvd, CPrio type id k got) c =
  Some (if k - Z.of_nat (length c) =? 0 then ((rcvd, CHead []), [OnPriorityUpdate type id (got ++ c)])
        else ((rcvd, CPrio type id (k - Z.of_nat (length c)) (got ++ c)), [])).
Proof.
  induction c as [|b c IH]; intros k got Hk Hc; cbn [length ctl_run] in *.
  { rewrite Z.sub_0_r, app_nil_r. ztest. done. }
  cbn [ctl_step mbind option_bind]. destruct (Z.eqb_spec k 1) as [->|].
  - destruct c; [done|cbn in Hc; lia].
  - rewrite IH by lia. cbn [mbind option_bind]. replace (k - 1 - Z.of_nat (length c)) with (k - Z.of_nat (S (length c))) by lia.
    rewrite <- app_assoc. cbn [app]. by destruct (_ =? 0).
Qed.

End automaton.

(** * The reader implements the automaton *)

(** The state of the reader for a state of the automaton. *)
Definition rep (r : hcsi_reader) (c : ctl) : Prop :=
  match c with
  | CHead acc => Forall byte_ok acc /\ varint_two acc = None /\
      ((acc = [] /\ (hr_state r = HR_READ_FRAME_BEGIN \/ hr_state r = HR_SKIPPING /\ hr_frame_length r = 0)) \/
       (hr_state r = HR_READ_FRAME_CONTINUE /\ two_at acc (hr_vint2 r)))
  | CSkip k => hr_state r = HR_SKIPPING /\ hr_frame_length r = k /\ 0 < k < 2 ^ 62
  | CSettings k acc => Forall byte_ok acc /\ varint_two acc = None /\
      hr_frame_length r - hr_nread r = k /\ 0 <= k /\ hr_frame_length r < 2 ^ 62 /\
      ((acc = [] /\ hr_state r = HR_READ_SETTING_BEGIN /\ 0 < k) \/
       (hr_state r = HR_READ_SETTING_CONTINUE /\ two_at acc (hr_vint2 r)))
  | CValue type len acc => Forall byte_ok acc /\ lsquic_varint_read acc = None /\
      hr_frame_type r = type /\ hr_frame_length r = len /\ 0 <= len < 2 ^ 62 /\
      is_number_frame type || is_priority_update type = true /\
      ((acc = [] /\ hr_state r = HR_READ_VARINT) \/
       (hr_state r = HR_READ_VARINT_CONTINUE /\ nb_at acc (hr_vint r) /\ hr_nread r = Z.of_nat (length acc)))
  | CPrio type id k got => hr_state r = HR_READ_PRIORITY_UPDATE /\ hr_frame_type r = type /\ vr_val (hr_vint r) = id /\
      hr_nread r = Z.of_nat (length got) /\ take (length got) (hr_buf r) = got /\
      hr_frame_length r = Z.of_nat (length got) + k /\ 0 < k /\ hr_frame_length r <= sizeof_prio_buf
  | CError => False
  end.

Definition cost (r : hcsi_reader) (p : list Z) : nat :=
  2 * length p + match hr_state r with HR_SKIPPING => 1 | _ => 0 end.

(** The bytes counted in [hr_nread] are among those read. *)
Definition counted (r : hcsi_reader) (p : list Z) (r' : hcsi_reader) (p' : list Z) : Prop :=
  0 <= hr_nread r' /\ hr_nread r' + Z.of_nat (length p') <= hr_nread r + Z.of_nat (length p).

(** A priority field of more than 16 bytes of which a part is missing. *)
Definition cut_long (c : ctl) : bool :=
  match c with CPrio _ _ k got => sizeof_prio_buf <? k + Z.of_nat (length got) | _ => false end.

(** The input of a call on which the reader leaves its buffer. *)
Definition undefined (out : ctl_out) : Prop := match out with None => True | Some (s, _) => cut_long s.2 = true end.

(** A turn does to the input what the automaton does. *)
Definition turn_ok (r : hcsi_reader) (c : ctl) (p : list Z) (t : option turn) : Prop :=
  let out := ctl_run false (hr_rcvd_setting r, c) p in
  match t with
  | None => undefined out
  | Some (None, r', p', evs) => exists c',
      then_run false (Some ((hr_rcvd_setting r', c'), evs)) p' = out /\ rep r' c' /\ Forall byte_ok p' /\
      counted r p r' p' /\ (cost r' p' < cost r p)%nat
  | Some (Some ret, r', _, evs) =>
      (ret = 0 /\ exists c', out = Some ((hr_rcvd_setting r', c'), evs) /\ rep r' c' /\ counted r p r' []) \/
      (ret = -1 /\ exists b, out = Some ((b, CError), evs))
  end.

(** The input left after the code of which [acc] had been read. *)
Lemma drop_fewer (n : Z) acc (c : list Z) : Z.of_nat (length acc) < n -> n <= Z.of_nat (length (acc ++ c)) ->
  (length (drop (Z.to_nat n - length acc) c) < length c)%nat /\
  Z.of_nat (length c - length (drop (Z.to_nat n - length acc) c)) = n - Z.of_nat (length acc).
Proof. rewrite length_app, length_drop. lia. Qed.

Lemma frame_turn r acc p : hr_state r = HR_READ_FRAME_CONTINUE -> two_at acc (hr_vint2 r) -> varint_two acc = None ->
  Forall byte_ok (acc ++ p) -> p <> [] -> 0 <= hr_nread r -> turn_ok r (CHead acc) p (read_frame_continue r p).
Proof.
  intros Est Hat Hacc Hok Hp Hn. unfold turn_ok. rewrite run_head by done. unfold read_frame_continue.
  pose proof (read_two_at acc (hr_vint2 r) p Hok Hat Hp) as Hr. unfold two_result in Hr.
  apply Forall_app in Hok as Hok2. destruct Hok2 as [Hoka Hokp].
  destruct (varint_two (acc ++ p)) as [[n [type len]]|] eqn:Etwo.
  2: { destruct Hr as (st & -> & Hst). cbn [mbind option_bind Z.ltb]. change (-1 <? 0) with true. cbn iota.
       exists (CHead (acc ++ p)). cbn [to_vint2 hr_rcvd_setting]. split; [done|]. unfold rep, counted, cost. cbn. rewrite Est.
       split_and!; try done; [by right|lia|]. destruct p; [done|]. cbn. lia. }
  destruct Hr as (st & -> & <- & <-). cbn [mbind option_bind]. change (0 <? 0) with false. cbn iota.
  destruct (varint_two_inv _ _ _ Hok Etwo) as (Hlen & Ht & Hl). cbn [fst snd] in Ht, Hl.
  pose proof (varint_two_longer _ _ _ _ Hok Hacc Etwo) as Hlong.
  destruct (drop_fewer n acc p Hlong ltac:(lia)) as [Hd _]. set (p' := drop (Z.to_nat n - length acc) p) in *.
  assert (Hp' : Forall byte_ok p') by (by apply Forall_drop).
  set (r1 := to_frame (to_vint2 r st) (vr2s_one st) (vr2s_two st)). unfold ctl_frame.
  change (hr_rcvd_setting r1) with (hr_rcvd_setting r). change (hr_frame_type r1) with (vr2s_one st).
  destruct (negb (hr_rcvd_setting r) && negb (vr2s_one st =? HQFT_SETTINGS)) eqn:Emiss.
  { cbn [then_run mbind option_bind]. rewrite ctl_run_error. cbn. right. split; [done|]. by eexists. }
  unfold frame_begins. change (hr_frame_type r1) with (vr2s_one st).
  destruct (vr2s_one st =? HQFT_SETTINGS) eqn:Eset.
  { cbn [to_rcvd hr_frame_length r1 to_frame]. destruct (Z.eqb_spec (vr2s_two st) 0) as [El|El]; cbn [negb].
    all: eexists; split; [reflexivity|]; unfold rep, counted, cost; cbn; rewrite Est; split_and!; try done; try lia; left; split_and!; try done; try lia; by left. }
  destruct (is_number_frame (vr2s_one st) || is_priority_update (vr2s_one st)) eqn:Enum.
  { eexists. split; [reflexivity|]. unfold rep, counted, cost. cbn. rewrite Est. split_and!; try done; try lia. by left. }
  destruct ((vr2s_one st =? HQFT_DATA) || (vr2s_one st =? HQFT_HEADERS) || (vr2s_one st =? HQFT_PUSH_PROMISE)) eqn:Ebad.
  { cbn [then_run mbind option_bind]. rewrite ctl_run_error. cbn. right. split; [done|]. by eexists. }
  eexists. split; [reflexivity|]. unfold counted, cost. cbn. rewrite Est. split_and!; try done; try lia.
  destruct (Z.eqb_spec (vr2s_two st) 0); cbn; [|split_and!; first [done|lia]]. split_and!; try done. left. split; [done|]. by right.
Qed.

(** The bytes a call has read, as the reader counts them. *)
Lemma nread_eq r k : 0 <= hr_nread r -> 0 <= k -> hr_nread r + k < 2 ^ 32 -> u32 (hr_nread r + k) = hr_nread r + k.
Proof. intros. apply wrapu_id. split; lia. Qed.

Lemma setting_turn r k acc p : hr_state r = HR_READ_SETTING_CONTINUE -> two_at acc (hr_vint2 r) -> varint_two acc = None ->
  Forall byte_ok (acc ++ p) -> p <> [] -> 0 <= hr_nread r -> hr_nread r + Z.of_nat (length p) < 2 ^ 32 ->
  hr_frame_length r - hr_nread r = k -> 0 <= k -> hr_frame_length r < 2 ^ 62 ->
  turn_ok r (CSettings k acc) p (read_setting_continue r p).
Proof.
  intros Est Hat Hacc Hok Hp Hn Hlim Hk Hk0 Hlen. unfold turn_ok, read_setting_continue.
  pose proof (read_two_at acc (hr_vint2 r) p Hok Hat Hp) as Hr. unfold two_result in Hr.
  apply Forall_app in Hok as Hok2. destruct Hok2 as [Hoka Hokp].
  pose proof (run_settings false (hr_rcvd_setting r) k acc p Hok Hacc Hk0) as Hrun.
  pose proof (run_settings_long false (hr_rcvd_setting r) k acc p Hok Hacc) as Hlongrun.
  destruct (varint_two (acc ++ p)) as [[n [id v]]|] eqn:Etwo.
  - destruct Hr as (st & -> & <- & <-). cbn [mbind option_bind].
    destruct (varint_two_inv _ _ _ Hok Etwo) as (Hlen2 & Ht & Hl).
    pose proof (varint_two_longer _ _ _ _ Hok Hacc Etwo) as Hlong.
    destruct (drop_fewer n acc p Hlong ltac:(lia)) as [Hd Hd2]. set (p' := drop (Z.to_nat n - length acc) p) in *.
    assert (Hp' : Forall byte_ok p') by (by apply Forall_drop). rewrite Hd2.
    cbn [to_nread to_vint2 hr_frame_length hr_nread]. rewrite nread_eq by lia.
    destruct (Z.ltb_spec (hr_frame_length r) (hr_nread r + (n - Z.of_nat (length acc)))) as [Hgt|Hle].
    { rewrite Hlongrun; [|lia|intros n' v' [= <- <-]; lia]. right. split; [done|]. by eexists. }
    rewrite Hrun by lia. change (0 <? 0) with false. cbn iota.
    unfold ctl_setting.
    destruct (Z.leb_spec (hr_frame_length r) (hr_nread r + (n - Z.of_nat (length acc)))) as [Hge|Hlt];
      destruct (Z.eqb_spec (k - (n - Z.of_nat (length acc))) 0); try lia; eexists; (split; [reflexivity|]);
      unfold rep, counted, cost; cbn; rewrite Est; split_and!; try done; try lia; left; split_and!; try done; try lia. by left.
  - destruct Hr as (st & -> & Hst). cbn [mbind option_bind]. cbn [to_nread to_vint2 hr_frame_length hr_nread length].
    rewrite Nat.sub_0_r, nread_eq by lia. change (-1 <? 0) with true. cbn iota.
    destruct (Z.ltb_spec (hr_frame_length r) (hr_nread r + Z.of_nat (length p))) as [Hgt|Hle].
    { rewrite Hlongrun; [|lia|done]. right. split; [done|]. by eexists. }
    rewrite Hrun by lia. eexists. split; [done|]. unfold rep, counted, cost. cbn. rewrite Est.
    split_and!; try done; try lia; [by right|]. destruct p; [done|]. cbn. lia.
Qed.

Lemma value_turn r type len acc p : hr_state r = HR_READ_VARINT_CONTINUE -> nb_at acc (hr_vint r) ->
  Forall byte_ok (acc ++ p) -> p <> [] -> hr_nread r = Z.of_nat (length acc) -> hr_nread r + Z.of_nat (length p) < 2 ^ 32 ->
  hr_frame_type r = type -> hr_frame_length r = len -> 0 <= len < 2 ^ 62 -> is_number_frame type || is_priority_update type = true ->
  turn_ok r (CValue type len acc) p (read_varint_continue r p).
Proof.
  intros Est Hat Hok Hp Hn Hlim Et El Hlen Htype. unfold turn_ok, read_varint_continue.
  apply Forall_app in Hok as Hok2. destruct Hok2 as [Hoka Hokp].
  pose proof (nb_at_incomplete _ _ Hoka Hat) as Hacc. rewrite run_value by done.
  pose proof (read_nb_at acc (hr_vint r) p Hok Hat Hp) as Hr.
  destruct (lsquic_varint_read (acc ++ p)) as [[n v]|] eqn:Eread.
  2: { destruct Hr as (st & -> & Hst). cbn [mbind option_bind]. change (-1 =? 0) with false. cbn [length Nat.eqb]. cbn iota.
       left. split; [done|]. exists (CValue type len (acc ++ p)). split; [done|]. unfold rep, counted. cbn.
       rewrite Nat.sub_0_r, nread_eq, length_app by lia. split_and!; try done; try lia.
       right. split_and!; [done..|lia]. }
  destruct Hr as (st & -> & <-). cbn [mbind option_bind]. change (0 =? 0) with true. cbn iota.
  pose proof (varint_read_longer _ _ _ _ Hok Hacc Eread) as Hlong. destruct (varint_read_pos _ _ _ Hok Eread) as (Hn2 & Hn8 & Hv).
  destruct (drop_fewer n acc p Hlong ltac:(lia)) as [Hd Hd2]. set (p' := drop (Z.to_nat n - length acc) p) in *.
  assert (Hp' : Forall byte_ok p') by (by apply Forall_drop). rewrite Hd2.
  cbn [to_nread to_vint hr_frame_type hr_frame_length hr_nread]. rewrite nread_eq by lia.
  replace (hr_nread r + (n - Z.of_nat (length acc))) with n by lia. rewrite Et, El. unfold ctl_value.
  destruct (is_number_frame type) eqn:Enum.
  - destruct (Z.eqb_spec n len) as [->|Hne]; cbn [negb andb].
    2: { cbn [then_run mbind option_bind]. rewrite ctl_run_error. cbn. right. split; [done|]. by eexists. }
    unfold number_event. unfold is_number_frame in Enum.
    destruct (type =? HQFT_GOAWAY); [|destruct (type =? HQFT_CANCEL_PUSH); [|destruct (type =? HQFT_MAX_PUSH_ID); [|done]]];
      (exists (CHead []); split; [reflexivity|]; unfold rep, counted, cost; cbn; rewrite Est; split_and!; try done; try lia; left; split; [done|by left]).
  - cbn [negb andb orb] in *. rewrite orb_false_r. unfold is_number_frame in Enum.
    destruct (type =? HQFT_GOAWAY); [done|]. destruct (type =? HQFT_CANCEL_PUSH); [done|]. destruct (type =? HQFT_MAX_PUSH_ID); [done|].
    rewrite Htype. unfold priority_update. cbn [to_nread to_vint hr_frame_type hr_frame_length hr_nread hr_vint]. rewrite El.
    destruct (Z.ltb_spec len n) as [Hlt|Hge].
    { assert (u64 (len - n) = len - n + 2 ^ 64) as -> by (symmetry; apply Z.mod_unique with (-1); change (2 ^ 64) with 18446744073709551616; lia).
      cbn [then_run mbind option_bind]. change (2 ^ 32) with 4294967296 in *. change (2 ^ 64) with 18446744073709551616. unfold sizeof_prio_buf. ztest. done. }
    rewrite (wrapu_id 64 (len - n)) by (split; [lia|]; change (2 ^ 64) with 18446744073709551616; change (2 ^ 62) with 4611686018427387904 in *; lia).
    destruct (Z.eqb_spec len n) as [->|Hne].
    + rewrite Z.sub_diag. ztest. change (Z.to_nat 0) with 0%nat. rewrite drop_0, take_0. exists (CHead []). split; [by rewrite Et|]. unfold rep, counted, cost. cbn. rewrite Est.
      split_and!; try done; try lia; left; split; [done|by left].
    + destruct (Z.leb_spec (len - n) (Z.of_nat (length p'))) as [Hle|Hgt].
      * exists (CHead []). set (k := Z.to_nat (len - n)) in *. split; [|split; [|split; [by apply Forall_drop|]]].
        -- assert (E : ctl_run false (hr_rcvd_setting r, CPrio type (vr_val st) (len - n) []) p' =
             then_run false (Some ((hr_rcvd_setting r, CHead []), [OnPriorityUpdate type (vr_val st) (take k p')])) (drop k p')).
           { rewrite (ctl_run_cut false k), run_prio by (rewrite ?length_take; lia). rewrite length_take. by ztest. }
           rewrite Et. unfold then_run at 2. cbn [mbind option_bind]. rewrite E. cbn [then_run to_state to_nread to_vint hr_rcvd_setting mbind option_bind].
           by destruct (ctl_run false _ (drop k p')) as [[]|].
        -- unfold rep. cbn. split_and!; try done. left. split; [done|by left].
        -- unfold counted, cost. cbn. rewrite length_drop, Est. split; lia.
      * destruct (Z.leb_spec (len - n) sizeof_prio_buf) as [Hsz|Hsz].
        -- exists (CPrio type (vr_val st) (len - n) []). split; [reflexivity|]. unfold rep, counted, cost, sizeof_prio_buf in *. cbn.
           rewrite Est. rewrite take_0. split_and!; try done; lia.
        -- unfold then_run. cbn [mbind option_bind]. rewrite run_prio by lia. ztest. cbn. lia.
Qed.

Lemma skip_turn r k p : hr_state r = HR_SKIPPING -> hr_frame_length r = k -> 0 < k < 2 ^ 62 ->
  Forall byte_ok p -> p <> [] -> 0 <= hr_nread r -> turn_ok r (CSkip k) p (Some (skipping r p)).
Proof.
  intros Est El Hk Hok Hp Hn. unfold turn_ok, skipping. rewrite El.
  set (len := if Z.of_nat (length p) <? k then Z.of_nat (length p) else k).
  assert (0 < len <= Z.of_nat (length p) /\ len <= k) as [Hlen Hlk].
  { unfold len. destruct p; [done|]. cbn [length]. destruct (Z.ltb_spec (Z.of_nat (S (length p))) k); lia. }
  rewrite (ctl_run_cut false (Z.to_nat len)), run_skip by (rewrite ?length_take; lia).
  rewrite length_take. replace (Z.of_nat (Z.to_nat len `min` length p)) with len by lia.
  cbn [to_frame hr_frame_length].
  rewrite wrapu_id by (split; [lia|]; change (2 ^ 64) with 18446744073709551616; change (2 ^ 62) with 4611686018427387904 in *; lia).
  destruct (Z.eqb_spec (k - len) 0) as [E|E]; eexists; (split; [reflexivity|]); unfold rep, counted, cost; cbn; rewrite Est, length_drop;
    split_and!; try done; try lia; try (by apply Forall_drop). left. split; [done|by left].
Qed.

Lemma prio_turn r type id k got p : rep r (CPrio type id k got) -> Forall byte_ok p -> p <> [] ->
  turn_ok r (CPrio type id k got) p (read_priority_update r p).
Proof.
  intros (Est & Et & Eid & En & Ebuf & El & Hk & Hsz) Hok Hp. unfold turn_ok, read_priority_update, sizeof_prio_buf in *.
  rewrite El, En. replace (Z.of_nat (length got) + k - Z.of_nat (length got)) with k by lia.
  rewrite (wrapu_id 64 k) by (split; [lia|]; change (2 ^ 64) with 18446744073709551616; lia).
  set (len := if Z.of_nat (length p) <? k then Z.of_nat (length p) else k).
  assert (0 < len <= Z.of_nat (length p) /\ len <= k) as [Hlen Hlk].
  { unfold len. destruct p; [done|]. cbn [length]. destruct (Z.ltb_spec (Z.of_nat (S (length p))) k); lia. }
  ztest. rewrite Nat2Z.id, Ebuf.
  rewrite (ctl_run_cut false (Z.to_nat len)), run_prio by (rewrite ?length_take; lia).
  rewrite length_take. replace (Z.of_nat (Z.to_nat len `min` length p)) with len by lia.
  cbn [to_nread to_buf hr_frame_length hr_nread].
  rewrite wrapu_id by (split; [lia|]; change (2 ^ 32) with 4294967296; lia). rewrite El.
  destruct (Z.eqb_spec (Z.of_nat (length got) + k) (Z.of_nat (length got) + len)) as [E|E].
  - replace (k - len =? 0) with true by lia. exists (CHead []). cbn [to_nread to_buf to_state hr_frame_type hr_vint hr_buf hr_rcvd_setting].
    rewrite Et, Eid. split; [reflexivity|]. unfold rep, counted, cost. cbn. rewrite Est, length_drop.
    split_and!; try done; try lia; try (by apply Forall_drop). left. split; [done|by left].
  - replace (k - len =? 0) with false by lia. eexists. split; [reflexivity|]. unfold rep, counted, cost, sizeof_prio_buf. cbn.
    rewrite Est, length_drop, length_app, length_take.
    split_and!; try done; try lia; try (by apply Forall_drop). apply take_ge. rewrite length_app, length_take. lia.
Qed.

(** ** Turns and calls *)

Lemma turn_refines r c p : rep r c -> Forall byte_ok p -> p <> [] -> 0 <= hr_nread r -> hr_nread r + Z.of_nat (length p) < 2 ^ 32 ->
  turn_ok r c p (hcsi_turn r p).
Proof.
  intros Hrep Hok Hp Hn Hlim. unfold hcsi_turn. destruct c as [acc|k|k acc|type len acc|type id k got|]; cbn [rep] in Hrep.
  - destruct Hrep as (Hacc & Htwo & [[-> [Est|[Est El]]]|[Est Hat]]); rewrite Est.
    + pose proof (frame_turn (to_state (vint2_begin r) HR_READ_FRAME_CONTINUE) [] p eq_refl) as H.
      unfold turn_ok, counted, cost in *. cbn [to_state vint2_begin to_vint2 hr_state hr_rcvd_setting hr_nread] in H. rewrite Est. by apply H; [apply two_at_begin|..].
    + unfold turn_ok, skipping. rewrite El. ztest. cbn [to_frame hr_frame_length]. change (u64 (0 - 0)) with 0. cbn [Z.eqb].
      replace (Z.of_nat (length p) <? 0) with false by lia. change (Z.to_nat 0) with 0%nat. rewrite drop_0.
      exists (CHead []). cbn [then_run mbind option_bind].
      change (hr_rcvd_setting (to_state _ _)) with (hr_rcvd_setting r). split; [by destruct (ctl_run false _ p) as [[]|]|].
      unfold rep, counted, cost. cbn. rewrite Est. split_and!; try done; try lia. left. split; [done|by left].
    + apply frame_turn; auto using Forall_app_2.
  - destruct Hrep as (Est & El & Hk). rewrite Est. by apply skip_turn.
  - destruct Hrep as (Hacc & Htwo & Ek & Hk & Hlen & [(-> & Est & Hk0)|[Est Hat]]); rewrite Est.
    + pose proof (setting_turn (to_state (vint2_begin r) HR_READ_SETTING_CONTINUE) k [] p eq_refl) as H.
      unfold turn_ok, counted, cost in *. cbn [to_state vint2_begin to_vint2 hr_state hr_rcvd_setting hr_nread hr_frame_length] in H. rewrite Est. by apply H; [apply two_at_begin|..].
    + apply setting_turn; auto using Forall_app_2.
  - destruct Hrep as (Hacc & Hread & Et & El & Hlen & Htype & [(-> & Est)|(Est & Hat & En)]); rewrite Est.
    + pose proof (value_turn (to_nread (to_state (to_vint r (VRS (vr_val (hr_vint r)) 0)) HR_READ_VARINT_CONTINUE) 0) type len [] p eq_refl) as H.
      unfold turn_ok, counted, cost in *.
      cbn [to_state to_vint to_nread hr_state hr_rcvd_setting hr_nread hr_frame_length hr_frame_type hr_vint] in H. rewrite Est.
      specialize (H eq_refl Hok Hp eq_refl ltac:(lia) Et El Hlen Htype).
      destruct (read_varint_continue _ p) as [[[[[ret|] r'] p'] evs]|]; [| |done].
      * destruct H as [(-> & c' & ? & ? & ?)|H]; [left|by right]. split; [done|]. exists c'. split_and!; [done..|lia|lia].
      * destruct H as (c' & ? & ? & ? & ? & ?). exists c'. split_and!; [done..|lia|lia|lia].
    + apply value_turn; auto using Forall_app_2.
  - rewrite (proj1 Hrep). by apply prio_turn.
  - done.
Qed.

Lemma feed_loop_refines fuel : forall r c p, (cost r p < fuel)%nat -> rep r c -> Forall byte_ok p ->
  0 <= hr_nread r -> hr_nread r + Z.of_nat (length p) < 2 ^ 32 ->
  let out := ctl_run false (hr_rcvd_setting r, c) p in
  match feed_loop fuel r p with
  | None => undefined out
  | Some (ret, r', evs) =>
      (ret = 0 /\ exists c', out = Some ((hr_rcvd_setting r', c'), evs) /\ rep r' c' /\ counted r p r' []) \/
      (ret = -1 /\ exists b, out = Some ((b, CError), evs))
  end.
Proof.
  induction fuel as [|fuel IH]; intros r c p Hfuel Hrep Hok Hn Hlim; [lia|]. cbn [feed_loop].
  destruct (Nat.eqb_spec (length p) 0) as [Hp|Hp].
  { apply length_zero_iff_nil in Hp as ->. cbn [ctl_run]. left. split; [done|]. exists c.
    split_and!; [done..|]. unfold counted. lia. }
  assert (p <> []) as Hp' by (by intros ->). pose proof (turn_refines r c p Hrep Hok Hp' Hn Hlim) as Ht. unfold turn_ok in Ht. cbn zeta in *.
  destruct (hcsi_turn r p) as [[[[[ret|] r'] p'] evs']|]; cbn [mbind option_bind]; [done| |done].
  destruct Ht as (c' & <- & Hrep' & Hok' & [Hc1 Hc2] & Hcost).
  specialize (IH r' c' p' ltac:(lia) Hrep' Hok' Hc1 ltac:(lia)). cbn [then_run mbind option_bind].
  destruct (feed_loop fuel r' p') as [[[ret r2] e2]|]; cbn [mbind option_bind].
  - destruct IH as [(-> & c2 & -> & ? & [? ?])|(-> & b & ->)]; cbn [mbind option_bind]; [left|right; split; [done|by eexists]].
    split; [done|]. eexists. split; [done|]. split; [done|]. split; [done|lia].
  - by destruct (ctl_run false _ p') as [[]|].
Qed.

(** The calls in a row: what the automaton makes of each piece, undefined if it ends
    within a priority field of more than 16 bytes. *)
Fixpoint ctl_chunks (s : bool * ctl) (chunks : list (list Z)) : ctl_out :=
  match chunks with
  | [] => Some (s, [])
  | p :: cs => '(s, e) ← ctl_run false s p; if cut_long s.2 then None else '(s, e') ← ctl_chunks s cs; Some (s, e ++ e')
  end.

Lemma ctl_chunks_error b chunks : ctl_chunks (b, CError) chunks = Some ((b, CError), []).
Proof. induction chunks as [|p cs IH]; [done|]. cbn [ctl_chunks]. rewrite ctl_run_error. cbn [mbind option_bind snd cut_long]. by rewrite IH. Qed.

Lemma rep_cut r c : rep r c -> cut_long c = false.
Proof. destruct c; cbn; try done. intros (_ & _ & _ & _ & _ & El & _ & Hs). lia. Qed.

(** Calls in a row do what the automaton does. *)
Lemma feed_all_refines chunks : forall r c, rep r c -> Forall byte_ok (concat chunks) ->
  0 <= hr_nread r -> hr_nread r + Z.of_nat (length (concat chunks)) < 2 ^ 32 ->
  match ctl_chunks (hr_rcvd_setting r, c) chunks with
  | None => hcsi_feed_all r chunks = None
  | Some (s, evs) => exists ret r', hcsi_feed_all r chunks = Some (ret, r', evs) /\
      ((ret = 0 /\ s.2 <> CError) \/ (ret = -1 /\ s.2 = CError))
  end.
Proof.
  induction chunks as [|p chunks IH]; intros r c Hrep Hok Hn Hlim; cbn [concat hcsi_feed_all ctl_chunks].
  { eexists _, _. split; [done|]. left. split; [done|]. cbn. by intros ->. }
  cbn [concat] in *. apply Forall_app in Hok as [Hp Hcs]. rewrite length_app in Hlim.
  pose proof (feed_loop_refines (2 + 2 * length p) r c p) as H. unfold lsquic_hcsi_reader_feed.
  specialize (H ltac:(unfold cost; destruct (hr_state r); lia) Hrep Hp Hn ltac:(lia)). cbn zeta in H.
  destruct (feed_loop _ r p) as [[[ret r'] evs]|]; cbn [mbind option_bind].
  - destruct H as [(-> & c' & -> & Hrep' & [Hc1 Hc2])|(-> & b & ->)]; cbn [mbind option_bind snd].
    + rewrite (rep_cut r' c' Hrep'). change (negb (0 =? 0)) with false. cbn iota. cbn [length] in Hc2.
      specialize (IH r' c' Hrep' Hcs Hc1 ltac:(lia)). destruct (ctl_chunks (hr_rcvd_setting r', c') chunks) as [[s2 e2]|]; cbn [mbind option_bind].
      * destruct IH as (ret & r2 & -> & Hret). cbn [mbind option_bind]. eexists _, _. done.
      * by rewrite IH.
    + change (negb (-1 =? 0)) with true. cbn iota. cbn [cut_long]. rewrite ctl_chunks_error. cbn [mbind option_bind]. eexists _, _. rewrite app_nil_r. split; [done|]. by right.
  - unfold undefined in H. destruct (ctl_run false _ p) as [[s e]|]; [|done]. cbn [mbind option_bind]. by rewrite H.
Qed.

(** ** The cut does not matter *)

Lemma strict_step s b o : cut_long s.2 = false -> ctl_step true s b = Some o -> ctl_step false s b = Some o /\ cut_long o.1.2 = false.
Proof.
  destruct s as [rcvd c]. cbn [snd]. intros Hc. destruct c as [acc|k|k acc|type len acc|type id k got|]; cbn [ctl_step].
  - intros [= <-]. split; [done|]. destruct (varint_two _) as [[n [t l]]|]; [|done]. unfold ctl_frame. repeat match goal with |- context [if ?b then _ else _] => destruct b end; done.
  - intros [= <-]. split; [done|]. by destruct (_ =? _).
  - destruct (_ =? 0); intros [= <-]; (split; [done|]); [done|]. destruct (varint_two _) as [[n [i v]]|]; [|done]. unfold ctl_setting. by destruct (_ =? 0).
  - destruct (lsquic_varint_read _) as [[n v]|]; [|intros [= <-]; done]. unfold ctl_value. destruct (is_number_frame type).
    + intros [= <-]. split; [done|]. by destruct (_ =? _).
    + cbn [andb]. rewrite orb_false_r. destruct (len <? n); [done|]. cbn [orb]. destruct (Z.ltb_spec sizeof_prio_buf (len - n)); [done|]. intros [= <-]. split; [done|].
      destruct (_ =? _); [done|]. cbn. lia.
  - intros [= <-]. split; [done|]. destruct (_ =? _); [done|]. cbn [fst snd cut_long] in *. rewrite length_app. cbn [length]. lia.
  - intros [= <-]. done.
Qed.

Lemma strict_run p : forall s o, cut_long s.2 = false -> ctl_run true s p = Some o -> ctl_run false s p = Some o /\ cut_long o.1.2 = false.
Proof.
  induction p as [|b p IH]; intros s o Hc; cbn [ctl_run]; [by intros [= <-]|].
  destruct (ctl_step true s b) as [[s1 e1]|] eqn:Es; [|done]. cbn [mbind option_bind]. destruct (strict_step s b _ Hc Es) as [-> Hc1]. cbn [mbind option_bind].
  destruct (ctl_run true s1 p) as [[s2 e2]|] eqn:Er; [|done]. cbn [mbind option_bind]. intros [= <-]. destruct (IH s1 _ Hc1 Er) as [-> Hc2]. by split.
Qed.

(** Without long fields the pieces do not matter. *)
Lemma strict_chunks chunks : forall s o, cut_long s.2 = false -> ctl_run true s (concat chunks) = Some o -> ctl_chunks s chunks = Some o.
Proof.
  induction chunks as [|p cs IH]; intros s o Hc; cbn [concat ctl_chunks]; [done|]. rewrite ctl_run_app. unfold then_run.
  destruct (ctl_run true s p) as [[s1 e1]|] eqn:E1; [|done]. cbn [mbind option_bind]. destruct (strict_run p s _ Hc E1) as [-> Hc1]. cbn [mbind option_bind fst] in *. rewrite Hc1.
  destruct (ctl_run true s1 (concat cs)) as [[s2 e2]|] eqn:E2; [|done]. cbn [mbind option_bind]. intros [= <-]. by rewrite (IH s1 _ Hc1 E2).
Qed.

Lemma init_rep : rep lsquic_hcsi_reader_init (CHead []).
Proof. split_and!; [done|done|]. left. split; [done|by left]. Qed.

(** C30: the reader of the control stream, fed any bytes, valid or not, in any pieces
    (fewer than 2^32 bytes in all): its callbacks and its result are those of the
    automaton [ctl_chunks], which takes one byte at a time.  This includes the two
    inputs on which the source moves its pointer out of the buffer ([None]), and says
    that there is no third: a PRIORITY_UPDATE frame whose length does not cover its
    identifier, and a piece that ends between the identifier and the end of a priority
    field of more than 16 bytes.  If there is no field of more than 16 bytes and no such
    short frame ([ctl_run true] is defined) then the cut into pieces does not matter. *)
Theorem hcsi_reader_refines chunks :
  Forall byte_ok (concat chunks) -> Z.of_nat (length (concat chunks)) < 2 ^ 32 ->
  match ctl_chunks (false, CHead []) chunks with
  | None => hcsi_feed_all lsquic_hcsi_reader_init chunks = None
  | Some (s, evs) => exists ret r, hcsi_feed_all lsquic_hcsi_reader_init chunks = Some (ret, r, evs) /\
      ((ret = 0 /\ s.2 <> CError) \/ (ret = -1 /\ s.2 = CError))
  end /\
  forall s evs, ctl_run true (false, CHead []) (concat chunks) = Some (s, evs) -> ctl_chunks (false, CHead []) chunks = Some (s, evs).
Proof.
  intros Hok Hlen. split; [|intros s evs; by apply strict_chunks].
  by apply (feed_all_refines chunks lsquic_hcsi_reader_init (CHead []) init_rep Hok); cbn.
Qed.

(** SETTINGS with a value in two pieces, a frame to skip, a priority field of 17 bytes in
    one piece, then a frame that is not allowed. *)
Lemma hcsi_reader_refines_witness :
  exists ret r, hcsi_feed_all lsquic_hcsi_reader_init [[4; 3; 6; 64]; [100; 33]; [2; 9; 9]; [128; 15; 7; 0; 18]; 8 :: replicate 17 32; [0; 0; 4; 0]]
    = Some (ret, r, [OnSetting 6 100; OnSettingsFrame; OnPriorityUpdate HQFT_PRIORITY_UPDATE_STREAM 8 (replicate 17 32); OnFrameError HEC_FRAME_UNEXPECTED 0]) /\
    ((ret = 0 /\ (true, CError).2 <> CError) \/ (ret = -1 /\ (true, CError).2 = CError)).
Proof.
  destruct (hcsi_reader_refines [[4; 3; 6; 64]; [100; 33]; [2; 9; 9]; [128; 15; 7; 0; 18]; 8 :: replicate 17 32; [0; 0; 4; 0]]) as [H _].
  - cbn. repeat (apply Forall_cons_2; [unfold byte_ok; lia|]). apply Forall_nil_2.
  - by vm_compute.
  - exact H.
Defined.

(** ** Findings *)

(** SETTINGS and the type of a PRIORITY_UPDATE frame. *)
Definition prio_head : list Z := [4; 0; 128; 15; 7; 0].

(** A finding: a priority field of more than 16 bytes is delivered when it arrives in
    one piece with the end of its identifier, and otherwise moves the pointer past the
    end of the buffer; the rest of the field is then taken for frames. *)
Lemma hcsi_long_priority_field :
  (exists r, hcsi_feed_all lsquic_hcsi_reader_init [prio_head ++ [18; 0] ++ replicate 17 32]
    = Some (0, r, [OnSettingsFrame; OnPriorityUpdate HQFT_PRIORITY_UPDATE_STREAM 0 (replicate 17 32)])) /\
  hcsi_feed_all lsquic_hcsi_reader_init [prio_head ++ [18; 0] ++ replicate 16 32; [32]] = None.
Proof. split; [eexists|]; vm_compute; reflexivity. Qed.

(** A finding: a PRIORITY_UPDATE frame whose length does not cover its identifier
    makes the length of the field wrap around, and the pointer moves backwards. *)
Lemma hcsi_short_priority_update :
  hcsi_feed_all lsquic_hcsi_reader_init [prio_head ++ [0; 0; 7; 1; 0]] = None.
Proof. vm_compute. reflexivity. Qed.
