(* ===== verification/Hcso.v ===== *)
(** The writer of the HTTP/3 control stream (lsquic_hcso_writer.c), the classifier
    of incoming unidirectional streams (lsquic_full_conn_ietf.c), and the control
    stream from one end to the other. *)
From S2P Require Import Prelude Varint VarintChunks Frab Hcsi HcsiSpec.
Local Open Scope Z_scope.

Definition HQUST_CONTROL : Z := 0.
Definition HQUST_PUSH : Z := 1.
Definition HQUST_QPACK_ENC : Z := 2.
Definition HQUST_QPACK_DEC : Z := 3.

Definition HQSID_QPACK_MAX_TABLE_CAPACITY : Z := 1.
Definition HQSID_MAX_HEADER_LIST_SIZE : Z := 6.
Definition HQSID_QPACK_BLOCKED_STREAMS : Z := 7.

Definition HQ_DF_QPACK_MAX_TABLE_CAPACITY : Z := 0.
Definition HQ_DF_MAX_HEADER_LIST_SIZE : Z := 0.
Definition HQ_DF_QPACK_BLOCKED_STREAMS : Z := 0.

Definition LSQUIC_DEF_HTTP_URGENCY : Z := 3.
Definition LSQUIC_DEF_HTTP_INCREMENTAL : Z := 0.

Record lsquic_ext_http_prio := EHP { urgency : Z; incremental : Z }.

(** * The writer *)

(** [how_wantwrite]: whether the stream was told that there is data to write. *)
Record hcso_writer := HW { how_fral : frab_list; how_wantwrite : bool }.

(** [rnd]: the value of [rand()] when lengths are randomised, which a build with
    assertions can be told to do. *)
Definition stream_type_bytes (rnd : option Z) : list Z :=
  match Z.land (default 0 rnd) 3 with
  | 0 => [HQUST_CONTROL]
  | 1 => [64; HQUST_CONTROL]
  | 2 => [128; 0; 0; HQUST_CONTROL]
  | _ => [192; 0; 0; 0; 0; 0; 0; HQUST_CONTROL]
  end.

Definition hcso_write_type (w : hcso_writer) (rnd : option Z) (ms : list bool) : option (Z * hcso_writer * list bool) :=
  '(r, fl, ms) ← lsquic_frab_list_write (how_fral w) (stream_type_bytes rnd) ms;
  Some (r, HW fl (how_wantwrite w), ms).

(** The stream wants to write in any case; a failure is reported to the connection. *)
Definition hcso_on_new (rnd : option Z) (ms : list bool) : option (Z * hcso_writer * list bool) :=
  '(r, w, ms) ← hcso_write_type (HW (lsquic_frab_list_init 256) false) rnd ms;
  Some (r, HW (how_fral w) true, ms).

(** A frame goes to the list of buffers, and the stream is told if that was empty. *)
Definition hcso_send (w : hcso_writer) (buf : list Z) (ms : list bool) : option (Z * hcso_writer * list bool) :=
  let was_empty := lsquic_frab_list_empty (how_fral w) in
  '(r, fl, ms) ← lsquic_frab_list_write (how_fral w) buf ms;
  if negb (r =? 0) then Some (-1, HW fl (how_wantwrite w), ms)
  else Some (0, HW fl (how_wantwrite w || was_empty), ms).

Definition hcso_setting_type2bits (setting : Z) (rnd : option Z) : Z :=
  let bits := vint_val2bits setting in
  match rnd with
  | Some r => let max_bits := Z.land r 3 in if bits <? max_bits then max_bits else bits
  | None => bits
  end.

Definition write_setting (rnd : option Z) (id value df : Z) : list Z :=
  if value =? df then [] else
  let bits := hcso_setting_type2bits id rnd in
  vint_write id bits (Z.shiftl 1 bits) ++ vint_write value (vint_val2bits value) (Z.shiftl 1 (vint_val2bits value)).

(** What the writer knows of its build: [NDEBUG], and the random lengths of the
    settings. *)
Record hcso_build := HB { ndebug : bool; rnds : Z -> option Z }.

Definition settings_body (b : hcso_build) (max_header_list_size dyn_table_size max_risked_streams : Z) : list Z :=
  write_setting (rnds b HQSID_MAX_HEADER_LIST_SIZE) HQSID_MAX_HEADER_LIST_SIZE max_header_list_size HQ_DF_MAX_HEADER_LIST_SIZE
  ++ write_setting (rnds b HQSID_QPACK_MAX_TABLE_CAPACITY) HQSID_QPACK_MAX_TABLE_CAPACITY dyn_table_size
       HQ_DF_QPACK_MAX_TABLE_CAPACITY
  ++ write_setting (rnds b HQSID_QPACK_BLOCKED_STREAMS) HQSID_QPACK_BLOCKED_STREAMS max_risked_streams
       HQ_DF_QPACK_BLOCKED_STREAMS.

Definition settings_frame (b : hcso_build) (body : list Z) : list Z :=
  let len := Z.of_nat (length body) in
  u8 HQFT_SETTINGS :: (if ndebug b then [u8 len] else vint_write len 1 2) ++ body.

(** The size of the array [buf]. *)
Definition settings_bufsz (b : hcso_build) : Z := if ndebug b then 1 + 1 + 3 * (1 + 8) else 1 + 2 + 3 * (8 + 8).

(** [None]: a write past the end of [buf]. *)
Definition lsquic_hcso_write_settings (b : hcso_build) (w : hcso_writer)
    (max_header_list_size dyn_table_size max_risked_streams : Z) (ms : list bool) : option (Z * hcso_writer * list bool) :=
  let buf := settings_frame b (settings_body b max_header_list_size dyn_table_size max_risked_streams) in
  if settings_bufsz b <? Z.of_nat (length buf) then None else hcso_send w buf ms.

Definition number_frame (type value : Z) : list Z :=
  let bits := vint_val2bits value in
  u8 type :: u8 (Z.shiftl 1 bits) :: vint_write value bits (Z.shiftl 1 bits).

Definition hcso_write_number_frame (w : hcso_writer) (type value : Z) (ms : list bool) : option (Z * hcso_writer * list bool) :=
  hcso_send w (number_frame type value) ms.

Definition lsquic_hcso_write_goaway (w : hcso_writer) (stream_id : Z) := hcso_write_number_frame w HQFT_GOAWAY stream_id.
Definition lsquic_hcso_write_max_push_id (w : hcso_writer) (id : Z) := hcso_write_number_frame w HQFT_MAX_PUSH_ID id.
Definition lsquic_hcso_write_cancel_push (w : hcso_writer) (id : Z) := hcso_write_number_frame w HQFT_CANCEL_PUSH id.

(** The priority field value: [u=.], [u=.,i] or nothing. *)
Definition write_pfv (ehp : lsquic_ext_http_prio) : list Z :=
  if (urgency ehp =? LSQUIC_DEF_HTTP_URGENCY) && (incremental ehp =? LSQUIC_DEF_HTTP_INCREMENTAL) then []
  else [117; 61; u8 (48 + urgency ehp)] ++ (if negb (incremental ehp =? 0) then [44; 105] else []).

Definition priority_frame (type id : Z) (ehp : lsquic_ext_http_prio) : list Z :=
  let tbits := vint_val2bits type in
  let bits := vint_val2bits id in
  let payload := vint_write id bits (Z.shiftl 1 bits) ++ write_pfv ehp in
  vint_write type tbits (Z.shiftl 1 tbits) ++ [u8 (Z.of_nat (length payload))] ++ payload.

Definition lsquic_hcso_write_priority_update (w : hcso_writer) (type id : Z) (ehp : lsquic_ext_http_prio) (ms : list bool)
    : option (Z * hcso_writer * list bool) :=
  hcso_send w (priority_frame type id ehp) ms.

(** The calls that [lsquic_stream_writef] makes of [lsqr_read], by the sizes it asks
    for. *)
Fixpoint writef_reads (fl : frab_list) (sizes : list Z) : option (list Z * frab_list) :=
  match sizes with
  | [] => Some ([], fl)
  | n :: sizes =>
    '(out, fl) ← lsquic_frab_list_read fl n;
    '(out', fl) ← writef_reads fl sizes;
    Some (out ++ out', fl)
  end.

(** [writef] is [None] when [lsquic_stream_writef] fails. *)
Definition hcso_on_write (w : hcso_writer) (writef : option (list Z)) : option (list Z * hcso_writer) :=
  match writef with
  | Some sizes =>
    '(out, fl) ← writef_reads (how_fral w) sizes;
    Some (out, HW fl (if lsquic_frab_list_empty fl then false else how_wantwrite w))
  | None => Some ([], HW (how_fral w) false)
  end.

(** * Incoming unidirectional streams *)

Inductive uni_class := UniControl | UniQpackEnc | UniQpackDec | UniRefused | UniAbort.

(** The flags say which streams exist already. *)
Definition apply_uni_stream_class (have_hcsi has_enc has_dec is_server : bool) (stream_type : Z) : uni_class :=
  if stream_type =? HQUST_CONTROL then if negb have_hcsi then UniControl else UniAbort
  else if stream_type =? HQUST_QPACK_ENC then if negb has_enc then UniQpackEnc else UniAbort
  else if stream_type =? HQUST_QPACK_DEC then if negb has_dec then UniQpackDec else UniAbort
  else if stream_type =? HQUST_PUSH then if is_server then UniAbort else UniRefused
  else UniRefused.

Inductive uni_stream :=
| UniType (sm_uni_type_state : varint_read_state)
| UniHcsi (reader : hcsi_reader)
| UniOther (class : uni_class).

Definition unicla_on_new : uni_stream := UniType (VRS 0 0).

(** [unicla_readf] without FIN: the status, the bytes left and the state. *)
Definition unicla_readf (st : varint_read_state) (buf : list Z) : option (bool * list Z * varint_read_state) :=
  '(s, rest, st) ← lsquic_varint_read_nb buf st;
  Some (s =? 0, rest, st).

(** [on_read] of the first stream of its kind, which is called when there are bytes
    [buf] to read: those behind the type are read by the reader of the control
    stream.  The end of the stream is left out. *)
Definition uni_on_read (s : uni_stream) (buf : list Z) : option (Z * uni_stream * list hcsi_event) :=
  match s with
  | UniType st =>
    '(finished, rest, st) ← unicla_readf st buf;
    if (finished : bool) then
      match apply_uni_stream_class false false false false (vr_val st) with
      | UniControl =>
        '(ret, r, evs) ← lsquic_hcsi_reader_feed lsquic_hcsi_reader_init rest;
        Some (ret, UniHcsi r, evs)
      | class => Some (0, UniOther class, [])
      end
    else Some (0, UniType st, [])
  | UniHcsi r => '(ret, r, evs) ← lsquic_hcsi_reader_feed r buf; Some (ret, UniHcsi r, evs)
  | UniOther class => Some (0, UniOther class, [])
  end.

Fixpoint uni_read_all (s : uni_stream) (chunks : list (list Z)) : option (Z * uni_stream * list hcsi_event) :=
  match chunks with
  | [] => Some (0, s, [])
  | c :: cs =>
    '(ret, s, evs) ← uni_on_read s c;
    if negb (ret =? 0) then Some (ret, s, evs) else
    '(ret, s, evs') ← uni_read_all s cs;
    Some (ret, s, evs ++ evs')
  end.

(** * What is written *)

Inductive hcso_op :=
| WSettings (max_header_list_size dyn_table_size max_risked_streams : Z)
| WGoaway (stream_id : Z)
| WMaxPushId (push_id : Z)
| WCancelPush (push_id : Z)
| WPriorityUpdate (type id : Z) (ehp : lsquic_ext_http_prio)
| OnWrite (sizes : list Z).

Definition hcso_step (b : hcso_build) (w : hcso_writer) (op : hcso_op) : option (list Z * hcso_writer) :=
  let sent r := '(ret, w, _) ← r; if ret =? 0 then Some ([], w) else None in
  match op with
  | WSettings h t s => sent (lsquic_hcso_write_settings b w h t s [])
  | WGoaway id => sent (lsquic_hcso_write_goaway w id [])
  | WMaxPushId id => sent (lsquic_hcso_write_max_push_id w id [])
  | WCancelPush id => sent (lsquic_hcso_write_cancel_push w id [])
  | WPriorityUpdate type id ehp => sent (lsquic_hcso_write_priority_update w type id ehp [])
  | OnWrite sizes => hcso_on_write w (Some sizes)
  end.

(** The bytes that went to the stream, and the writer. *)
Fixpoint hcso_run (b : hcso_build) (w : hcso_writer) (ops : list hcso_op) : option (list Z * hcso_writer) :=
  match ops with
  | [] => Some ([], w)
  | op :: ops =>
    '(out, w) ← hcso_step b w op;
    '(out', w) ← hcso_run b w ops;
    Some (out ++ out', w)
  end.

Definition op_bytes (b : hcso_build) (op : hcso_op) : list Z :=
  match op with
  | WSettings h t s => settings_frame b (settings_body b h t s)
  | WGoaway id => number_frame HQFT_GOAWAY id
  | WMaxPushId id => number_frame HQFT_MAX_PUSH_ID id
  | WCancelPush id => number_frame HQFT_CANCEL_PUSH id
  | WPriorityUpdate type id ehp => priority_frame type id ehp
  | OnWrite _ => []
  end.

Definition setting_event (id value df : Z) : list hcsi_event := if value =? df then [] else [OnSetting id value].

(** What the peer is to be told. *)
Definition op_events (op : hcso_op) : list hcsi_event :=
  match op with
  | WSettings h t s => setting_event HQSID_MAX_HEADER_LIST_SIZE h 0 ++ setting_event HQSID_QPACK_MAX_TABLE_CAPACITY t 0
                       ++ setting_event HQSID_QPACK_BLOCKED_STREAMS s 0 ++ [OnSettingsFrame]
  | WGoaway id => [OnGoaway id]
  | WMaxPushId id => [OnMaxPushId id]
  | WCancelPush id => [OnCancelPush id]
  | WPriorityUpdate type id ehp => [OnPriorityUpdate type id (write_pfv ehp)]
  | OnWrite _ => []
  end.

Definition build_ok (b : hcso_build) : Prop := ndebug b = true -> forall id, rnds b id = None.

Definition op_ok (op : hcso_op) : Prop :=
  match op with
  | WSettings h t s => is_u 32 h /\ is_u 32 t /\ is_u 32 s
  | WGoaway id | WMaxPushId id | WCancelPush id => 0 <= id <= VINT_MAX_VALUE
  | WPriorityUpdate type id ehp => is_priority_update type = true /\ 0 <= id <= VINT_MAX_VALUE /\ 0 <= urgency ehp <= 7
  | OnWrite sizes => Forall (fun n => 0 <= n) sizes
  end.

(** ** What the automaton makes of it *)

Lemma varint_read_byte x rest : 0 <= x < 64 -> lsquic_varint_read (x :: rest) = Some (1, x).
Proof. intros Hx. unfold lsquic_varint_read. by replace (Z.shiftr x 6) with 0 by (rewrite Z.shiftr_div_pow2 by lia; change (2 ^ 6) with 64; by rewrite Z.div_small by lia). Qed.

Lemma byte_ok_small x : 0 <= x < 64 -> byte_ok x.
Proof. unfold byte_ok. lia. Qed.

Lemma u8_small x : 0 <= x < 64 -> u8 x = x.
Proof. intros. apply wrapu_id. split; [lia|]. change (2 ^ 8) with 256. lia. Qed.

(** A type or length in any of its encodings. *)
Definition encodes (bs : list Z) (v : Z) : Prop :=
  Forall byte_ok bs /\ bs <> [] /\
  forall rest, Forall byte_ok rest -> lsquic_varint_read (bs ++ rest) = Some (Z.of_nat (length bs), v).

Lemma encodes_byte x : 0 <= x < 64 -> encodes [u8 x] x.
Proof.
  intros Hx. rewrite u8_small by done. split; [|split; [done|]].
  - apply Forall_singleton. by apply byte_ok_small.
  - intros rest _. by apply varint_read_byte.
Qed.

Lemma encodes_vint v bits : 0 <= bits <= 3 -> 0 <= v <= VINT_MAX_B bits -> encodes (vint_write v bits (Z.shiftl 1 bits)) v.
Proof.
  intros Hb Hv. assert (1 <= Z.shiftl 1 bits <= 8) as Hsz.
  { rewrite Z.shiftl_1_l. assert (bits = 0 \/ bits = 1 \/ bits = 2 \/ bits = 3) as E by lia. destruct E as [->|[->|[->| ->]]]; cbn; lia. }
  assert (El : length (vint_write v bits (Z.shiftl 1 bits)) = Z.to_nat (Z.shiftl 1 bits)) by (rewrite length_vint_write; lia).
  split; [apply vint_write_ok|]. split; [by intros E; rewrite E in El; cbn in El; lia|].
  intros rest Hr. rewrite varint_read_write by done. rewrite El. do 2 f_equal. lia.
Qed.

Lemma encodes_value v : 0 <= v <= VINT_MAX_VALUE -> encodes (vint_write v (vint_val2bits v) (Z.shiftl 1 (vint_val2bits v))) v.
Proof. intros Hv. apply encodes_vint; [apply vint_val2bits_range|]. split; [lia|]. by apply vint_val2bits_fits. Qed.

Lemma varint_two_encodes a b x y rest : encodes a x -> encodes b y -> Forall byte_ok rest ->
  varint_two (a ++ b ++ rest) = Some (Z.of_nat (length (a ++ b)), (x, y)).
Proof.
  intros (Ha & _ & Ea) (Hb & _ & Eb) Hr. unfold varint_two. rewrite Ea by auto using Forall_app_2. cbn [mbind option_bind].
  rewrite drop_app_length' by lia. rewrite Eb by done. cbn [mbind option_bind]. rewrite length_app. do 2 f_equal. lia.
Qed.

Lemma run_frame_head rcvd a b type len rest : encodes a type -> encodes b len -> Forall byte_ok rest ->
  ctl_run true (rcvd, CHead []) (a ++ b ++ rest) = then_run true (Some (ctl_frame rcvd type len)) rest.
Proof.
  intros Ha Hb Hr. pose proof (proj1 Ha). pose proof (proj1 Hb). rewrite run_head; [|cbn; auto using Forall_app_2|done]. cbn [app].
  rewrite (varint_two_encodes a b type len) by done. rewrite Nat2Z.id. cbn [length]. rewrite Nat.sub_0_r, app_assoc, drop_app_length. done.
Qed.

Lemma run_frame_value rcvd type len a v rest : encodes a v -> Forall byte_ok rest ->
  ctl_run true (rcvd, CValue type len []) (a ++ rest) = then_run true (ctl_value true rcvd type len (Z.of_nat (length a)) v) rest.
Proof.
  intros Ha Hr. pose proof (proj1 Ha). rewrite run_value; [|cbn; auto using Forall_app_2|done]. cbn [app].
  rewrite (proj2 (proj2 Ha)) by done. rewrite Nat2Z.id. cbn [length]. by rewrite Nat.sub_0_r, drop_app_length.
Qed.

(** A frame has been read to its end. *)
Definition delivers (rcvd : bool) (bytes : list Z) (evs : list hcsi_event) : Prop :=
  Forall byte_ok bytes /\ forall rest, Forall byte_ok rest ->
  ctl_run true (rcvd, CHead []) (bytes ++ rest) = then_run true (Some ((true, CHead []), evs)) rest.

Lemma then_run_none s e p : then_run true (Some (s, e)) p = ('(s', e') ← ctl_run true s p; Some (s', e ++ e')).
Proof. done. Qed.

Lemma length_vint v : length (vint_write v (vint_val2bits v) (Z.shiftl 1 (vint_val2bits v))) = Z.to_nat (Z.shiftl 1 (vint_val2bits v))
  /\ 1 <= Z.shiftl 1 (vint_val2bits v) <= 8.
Proof.
  assert (1 <= Z.shiftl 1 (vint_val2bits v) <= 8) as Hsz.
  { rewrite Z.shiftl_1_l. pose proof (vint_val2bits_range v).
    assert (vint_val2bits v = 0 \/ vint_val2bits v = 1 \/ vint_val2bits v = 2 \/ vint_val2bits v = 3) as E by lia.
    destruct E as [->|[->|[->| ->]]]; cbn; lia. }
  split; [|done]. rewrite length_vint_write by lia. done.
Qed.

Lemma delivers_number type id : is_number_frame type = true -> 0 <= id <= VINT_MAX_VALUE ->
  delivers true (number_frame type id) [number_event type id].
Proof.
  intros Ht Hid. destruct (length_vint id) as [El Hsz]. pose proof (encodes_value id Hid) as Hv.
  assert (0 <= type < 64 /\ type <> HQFT_SETTINGS) as [Hty Hns].
  { unfold is_number_frame, HQFT_GOAWAY, HQFT_CANCEL_PUSH, HQFT_MAX_PUSH_ID, HQFT_SETTINGS in *. lia. }
  pose proof (encodes_byte type Hty) as Ha. pose proof (encodes_byte (Z.shiftl 1 (vint_val2bits id)) ltac:(lia)) as Hb.
  unfold number_frame. split; [apply (Forall_app_2 _ [_] (_ :: _)); [apply Ha|apply (Forall_app_2 _ [_] _); [apply Hb|apply Hv]]|].
  intros rest Hr. cbn [app]. pose proof (run_frame_head true _ _ _ _ _ Ha Hb (Forall_app_2 _ _ _ (proj1 Hv) Hr)) as E. cbn [app] in E. rewrite E. clear E.
  unfold ctl_frame. replace (type =? HQFT_SETTINGS) with false by lia. rewrite Ht. cbn [negb andb orb]. rewrite then_run_none.
  rewrite run_frame_value with (v := id) by done. unfold ctl_value. rewrite Ht, El, Z2Nat.id, Z.eqb_refl by lia. by destruct (then_run true _ rest) as [[]|].
Qed.

Lemma length_write_pfv ehp : (length (write_pfv ehp) <= 5)%nat.
Proof. unfold write_pfv. destruct (_ && _); [cbn; lia|]. destruct (negb _); cbn; lia. Qed.

Lemma write_pfv_bytes ehp : 0 <= urgency ehp <= 7 -> Forall byte_ok (write_pfv ehp).
Proof.
  intros Hu. unfold write_pfv. destruct (_ && _); [done|].
  assert (byte_ok (u8 (48 + urgency ehp))) by (apply wrapu_range; lia).
  destruct (negb _); cbn; repeat (apply Forall_cons_2; [first [done|unfold byte_ok; lia]|]); apply Forall_nil_2.
Qed.

Lemma delivers_priority type id ehp : is_priority_update type = true -> 0 <= id <= VINT_MAX_VALUE -> 0 <= urgency ehp <= 7 ->
  delivers true (priority_frame type id ehp) [OnPriorityUpdate type id (write_pfv ehp)].
Proof.
  intros Ht Hid Hu. destruct (length_vint id) as [El Hsz]. pose proof (encodes_value id Hid) as Hv.
  assert (0 <= type <= VINT_MAX_VALUE /\ type <> HQFT_SETTINGS /\ is_number_frame type = false) as (Hty & Hns & Hnn).
  { unfold is_priority_update, is_number_frame, HQFT_GOAWAY, HQFT_CANCEL_PUSH, HQFT_MAX_PUSH_ID, HQFT_SETTINGS, HQFT_PRIORITY_UPDATE_PUSH, HQFT_PRIORITY_UPDATE_STREAM in *.
    change VINT_MAX_VALUE with 4611686018427387903. lia. }
  pose proof (length_write_pfv ehp) as Hl. pose proof (write_pfv_bytes ehp Hu) as Hpfv. unfold priority_frame.
  set (val := vint_write id _ _) in *. set (pfv := write_pfv ehp) in *.
  pose proof (encodes_value type Hty) as Ha. pose proof (encodes_byte (Z.of_nat (length (val ++ pfv))) ltac:(rewrite length_app, El; lia)) as Hb.
  split; [apply Forall_app_2; [apply Ha|]; apply Forall_app_2; [apply Hb|]; apply Forall_app_2; [apply Hv|done]|].
  intros rest Hr. rewrite <- !app_assoc. rewrite (run_frame_head true _ _ _ _ _ Ha Hb) by (apply Forall_app_2; [apply Hv|]; by apply Forall_app_2).
  unfold ctl_frame. replace (type =? HQFT_SETTINGS) with false by lia. rewrite Ht, orb_true_r. cbn [negb andb]. rewrite then_run_none.
  rewrite run_frame_value with (v := id) by (first [done|by apply Forall_app_2]). unfold ctl_value. rewrite Hnn. rewrite length_app, Nat2Z.inj_add.
  unfold sizeof_prio_buf. ztest. cbn [orb andb]. replace (Z.of_nat (length val) + Z.of_nat (length pfv) - Z.of_nat (length val)) with (Z.of_nat (length pfv)) by lia.
  destruct (Z.eqb_spec (Z.of_nat (length val) + Z.of_nat (length pfv)) (Z.of_nat (length val))) as [E|E].
  - destruct pfv as [|? pfv']; [|cbn in E; lia]. cbn [app]. by destruct (then_run true _ rest) as [[]|].
  - rewrite then_run_none, ctl_run_app, run_prio by lia. rewrite Z.sub_diag. cbn [Z.eqb app]. by destruct (then_run true _ rest) as [[]|].
Qed.

(** ** Settings *)

(** The bytes of the identifier and of the value, the identifier, the value. *)
Record setting_item := SItem { si_id_bytes : list Z; si_value_bytes : list Z; si_id : Z; si_value : Z }.

Definition item_bytes (i : setting_item) : list Z := si_id_bytes i ++ si_value_bytes i.
Definition item_ok (i : setting_item) : Prop := encodes (si_id_bytes i) (si_id i) /\ encodes (si_value_bytes i) (si_value i).
Definition items_bytes (l : list setting_item) : list Z := concat (map item_bytes l).

Lemma items_bytes_ok l : Forall item_ok l -> Forall byte_ok (items_bytes l).
Proof. induction 1 as [|i l [(? & _) (? & _)] _ IH]; [done|]. unfold items_bytes, item_bytes in *. cbn. auto using Forall_app_2. Qed.

Lemma item_length i : item_ok i -> (0 < length (item_bytes i))%nat.
Proof. intros [(_ & H & _) _]. unfold item_bytes. rewrite length_app. destruct (si_id_bytes i); [done|cbn; lia]. Qed.

Lemma run_items rcvd l rest : Forall item_ok l -> l <> [] -> Forall byte_ok rest ->
  ctl_run true (rcvd, CSettings (Z.of_nat (length (items_bytes l))) []) (items_bytes l ++ rest) =
  then_run true (Some ((rcvd, CHead []), map (fun i => OnSetting (si_id i) (si_value i)) l ++ [OnSettingsFrame])) rest.
Proof.
  intros Hall Hl Hr. induction Hall as [|i l [Hid Hv] Hall IH]; [done|].
  assert (Hok : Forall byte_ok (si_id_bytes i ++ si_value_bytes i ++ items_bytes l ++ rest)).
  { pose proof (items_bytes_ok l Hall). pose proof (proj1 Hid). pose proof (proj1 Hv). auto using Forall_app_2. }
  change (items_bytes (i :: l)) with ((si_id_bytes i ++ si_value_bytes i) ++ items_bytes l). rewrite <- !app_assoc.
  pose proof (run_settings true rcvd (Z.of_nat (length (si_id_bytes i ++ si_value_bytes i ++ items_bytes l))) [] _ Hok eq_refl ltac:(lia)) as H.
  cbn [app] in H. rewrite (varint_two_encodes _ _ (si_id i) (si_value i)) in H; [|done..|by apply Forall_app_2; [apply items_bytes_ok|]].
  cbn [length] in H. rewrite H by (rewrite !length_app; lia). clear H. rewrite Z.sub_0_r, Nat.sub_0_r, Nat2Z.id.
  rewrite (app_assoc (si_id_bytes i) (si_value_bytes i) (_ ++ rest)), drop_app_length.
  replace (Z.of_nat (length (si_id_bytes i ++ si_value_bytes i ++ items_bytes l)) - Z.of_nat (length (si_id_bytes i ++ si_value_bytes i)))
    with (Z.of_nat (length (items_bytes l))) by (rewrite !length_app; lia).
  unfold ctl_setting. destruct l as [|j l].
  - reflexivity.
  - assert (0 < length (items_bytes (j :: l)))%nat as Hpos.
    { unfold items_bytes. cbn. rewrite length_app. pose proof (item_length j ltac:(by apply Forall_inv in Hall)). lia. }
    ztest. rewrite then_run_none, IH by done. unfold then_run. cbn [mbind option_bind]. by destruct (ctl_run true _ rest) as [[]|].
Qed.

Definition setting_items (rnd : option Z) (id value df : Z) : list setting_item :=
  if value =? df then [] else
  let bits := hcso_setting_type2bits id rnd in
  [SItem (vint_write id bits (Z.shiftl 1 bits)) (vint_write value (vint_val2bits value) (Z.shiftl 1 (vint_val2bits value))) id value].

Lemma setting_items_ok rnd id value df : 0 <= id < 64 -> is_u 32 value ->
  Forall item_ok (setting_items rnd id value df) /\ write_setting rnd id value df = items_bytes (setting_items rnd id value df) /\
  setting_event id value df = map (fun i => OnSetting (si_id i) (si_value i)) (setting_items rnd id value df) /\
  (length (items_bytes (setting_items rnd id value df)) <= match rnd with Some _ => 16 | None => 9 end)%nat.
Proof.
  intros Hid [Hv1 Hv2]. unfold setting_items, write_setting, setting_event. destruct (value =? df); [split_and!; [done..|cbn; lia]|].
  assert (Hbits : 0 <= hcso_setting_type2bits id rnd <= 3 /\ (rnd = None -> hcso_setting_type2bits id rnd = 0)).
  { assert (vint_val2bits id = 0) as E by (unfold vint_val2bits; change (Z.shiftl 1 6) with 64; change (Z.shiftl 1 14) with 16384; change (Z.shiftl 1 30) with 1073741824; unfold b2z; ztest; done).
    unfold hcso_setting_type2bits. rewrite E. destruct rnd as [r|]; [|lia]. split; [|done].
    pose proof (Z.land_ones r 2 ltac:(lia)) as El. change (Z.ones 2) with 3 in El. rewrite El. pose proof (Z.mod_pos_bound r (2 ^ 2) ltac:(lia)). zcase; cbn in *; lia. }
  destruct Hbits as [Hbits Hnone]. set (bits := hcso_setting_type2bits id rnd) in *.
  assert (He : encodes (vint_write id bits (Z.shiftl 1 bits)) id).
  { apply encodes_vint; [done|]. pose proof (vint_max_b_mono 0 bits ltac:(lia) ltac:(lia)) as Hm. change (VINT_MAX_B 0) with 63 in Hm. lia. }
  split; [|split; [|split; [done|]]].
  - apply Forall_singleton. split; [done|]. apply encodes_value. change VINT_MAX_VALUE with 4611686018427387903.
    change (2 ^ 32) with 4294967296 in Hv2. cbn [si_value]. lia.
  - unfold items_bytes, item_bytes. cbn [map concat si_id_bytes si_value_bytes]. by rewrite app_nil_r.
  - unfold items_bytes, item_bytes. cbn [map concat si_id_bytes si_value_bytes]. rewrite app_nil_r, length_app.
    destruct (length_vint value) as [-> Hsz].
    assert (1 <= Z.shiftl 1 bits <= 8) as Hsz2.
    { rewrite Z.shiftl_1_l. assert (bits = 0 \/ bits = 1 \/ bits = 2 \/ bits = 3) as E by lia. destruct E as [->|[->|[->| ->]]]; cbn; lia. }
    rewrite length_vint_write by lia. destruct rnd; [lia|]. rewrite (Hnone eq_refl). change (Z.shiftl 1 0) with 1. lia.
Qed.

Lemma delivers_settings b rcvd h t s : build_ok b -> op_ok (WSettings h t s) ->
  delivers rcvd (settings_frame b (settings_body b h t s)) (op_events (WSettings h t s)) /\
  Z.of_nat (length (settings_frame b (settings_body b h t s))) <= settings_bufsz b.
Proof.
  intros Hb (Hh & Ht & Hs). unfold settings_body, op_events.
  change (setting_event HQSID_MAX_HEADER_LIST_SIZE h 0) with (setting_event HQSID_MAX_HEADER_LIST_SIZE h HQ_DF_MAX_HEADER_LIST_SIZE).
  destruct (setting_items_ok (rnds b HQSID_MAX_HEADER_LIST_SIZE) HQSID_MAX_HEADER_LIST_SIZE h HQ_DF_MAX_HEADER_LIST_SIZE ltac:(done) Hh) as (O1 & -> & -> & L1).
  change (setting_event HQSID_QPACK_MAX_TABLE_CAPACITY t 0) with (setting_event HQSID_QPACK_MAX_TABLE_CAPACITY t HQ_DF_QPACK_MAX_TABLE_CAPACITY).
  destruct (setting_items_ok (rnds b HQSID_QPACK_MAX_TABLE_CAPACITY) HQSID_QPACK_MAX_TABLE_CAPACITY t HQ_DF_QPACK_MAX_TABLE_CAPACITY ltac:(done) Ht) as (O2 & -> & -> & L2).
  change (setting_event HQSID_QPACK_BLOCKED_STREAMS s 0) with (setting_event HQSID_QPACK_BLOCKED_STREAMS s HQ_DF_QPACK_BLOCKED_STREAMS).
  destruct (setting_items_ok (rnds b HQSID_QPACK_BLOCKED_STREAMS) HQSID_QPACK_BLOCKED_STREAMS s HQ_DF_QPACK_BLOCKED_STREAMS ltac:(done) Hs) as (O3 & -> & -> & L3).
  match goal with |- context [settings_frame b (items_bytes ?i1 ++ items_bytes ?i2 ++ items_bytes ?i3)] => set (is1 := i1) in *; set (is2 := i2) in *; set (is3 := i3) in * end.
  set (items := is1 ++ is2 ++ is3).
  assert (Ei : items_bytes is1 ++ items_bytes is2 ++ items_bytes is3 = items_bytes items) by (unfold items_bytes, items; by rewrite !map_app, !concat_app).
  assert (Hlen : (length (items_bytes items) <= if ndebug b then 27 else 48)%nat).
  { rewrite <- Ei, !length_app. destruct (ndebug b) eqn:En.
    - rewrite !(Hb En) in *. lia.
    - clear -L1 L2 L3. repeat match goal with H : context [match ?o with Some _ => 16%nat | None => 9%nat end] |- _ => destruct o end; lia. }
  rewrite Ei, !app_assoc, <- !map_app, <- app_assoc. fold items. assert (Hall : Forall item_ok items) by (unfold items; auto using Forall_app_2). clearbody items. clear - Hall Hlen.
  pose proof (items_bytes_ok items Hall) as Hbs. pose proof (encodes_byte HQFT_SETTINGS ltac:(done)) as Ha.
  unfold settings_frame, settings_bufsz. set (len := Z.of_nat (length (items_bytes items))).
  set (lb := if ndebug b then [u8 len] else vint_write len 1 2).
  assert (Hlb : encodes lb len /\ (length lb <= if ndebug b then 1 else 2)%nat).
  { unfold lb. destruct (ndebug b).
    - split; [apply encodes_byte; lia|done].
    - split; [apply (encodes_vint len 1); [lia|change (VINT_MAX_B 1) with 16383; lia]|]. by rewrite length_vint_write. }
  destruct Hlb as [Hlb Hll]. split.
  2: { cbn [length]. rewrite length_app. destruct (ndebug b); lia. }
  split; [apply (Forall_app_2 _ [_] (_ ++ _)); [apply Ha|apply Forall_app_2; [apply Hlb|done]]|]. intros rest Hr. cbn [app].
  pose proof (run_frame_head rcvd _ _ _ _ _ Ha Hlb (Forall_app_2 _ _ _ Hbs Hr)) as E. cbn [app] in E. rewrite app_assoc in E.
  rewrite <- app_assoc in E |- *. rewrite E. clear E.
  unfold ctl_frame. rewrite Z.eqb_refl, andb_false_r. destruct (Z.eqb_spec len 0) as [E|E].
  - destruct items as [|i items]; [done|]. exfalso. apply Forall_inv, item_length in Hall. unfold len, items_bytes in E. cbn in E. rewrite length_app in E. lia.
  - unfold len. rewrite then_run_none, run_items; [|done| |done]; [|by intros ->].
    unfold then_run. cbn [mbind option_bind]. by destruct (ctl_run true _ rest) as [[]|].
Qed.

Lemma delivers_op b op : build_ok b -> op_ok op -> delivers true (op_bytes b op) (op_events op).
Proof.
  intros Hb Hop. destruct op; cbn [op_bytes op_events].
  - by apply delivers_settings.
  - by apply (delivers_number HQFT_GOAWAY).
  - by apply (delivers_number HQFT_MAX_PUSH_ID).
  - by apply (delivers_number HQFT_CANCEL_PUSH).
  - destruct Hop as (? & ? & ?). by apply delivers_priority.
  - split; [done|]. intros rest _. cbn [app then_run mbind option_bind]. by destruct (ctl_run true _ rest) as [[]|].
Qed.

Definition ops_bytes (b : hcso_build) (ops : list hcso_op) : list Z := concat (map (op_bytes b) ops).
Definition ops_events (ops : list hcso_op) : list hcsi_event := concat (map op_events ops).

Lemma ops_bytes_ok b ops : build_ok b -> Forall op_ok ops -> Forall byte_ok (ops_bytes b ops).
Proof.
  intros Hb. induction 1 as [|op ops Hop _ IH]; [done|]. unfold ops_bytes. cbn. apply Forall_app_2; [by apply (delivers_op b op)|done].
Qed.

Lemma run_ops b ops : build_ok b -> Forall op_ok ops -> ctl_run true (true, CHead []) (ops_bytes b ops) = Some ((true, CHead []), ops_events ops).
Proof.
  intros Hb. induction 1 as [|op ops Hop Hops IH]; [done|]. unfold ops_bytes, ops_events in *. cbn [map concat].
  rewrite (proj2 (delivers_op b op Hb Hop)) by (by apply ops_bytes_ok). unfold then_run. cbn [mbind option_bind]. by rewrite IH.
Qed.

(** A stream that starts with SETTINGS, with calls of [on_write] before them. *)
Definition control_ops (pre : list (list Z)) (h t s : Z) (ops : list hcso_op) : list hcso_op := map OnWrite pre ++ WSettings h t s :: ops.

Lemma run_control_ops b pre h t s ops : build_ok b -> Forall op_ok (control_ops pre h t s ops) ->
  ctl_run true (false, CHead []) (ops_bytes b (control_ops pre h t s ops)) = Some ((true, CHead []), ops_events (control_ops pre h t s ops)).
Proof.
  intros Hb [_ [Hs Hops]%Forall_cons]%Forall_app. unfold control_ops, ops_bytes, ops_events. rewrite !map_app, !concat_app.
  assert (E1 : concat (map (op_bytes b) (map OnWrite pre)) = []) by (induction pre; done).
  assert (E2 : concat (map op_events (map OnWrite pre)) = []) by (clear; induction pre as [|x pre IH]; [done|cbn; exact IH]).
  rewrite E1, E2. cbn [app map concat].
  rewrite (proj2 (proj1 (delivers_settings b false h t s Hb Hs))) by (by apply ops_bytes_ok).
  unfold then_run. cbn [mbind option_bind]. pose proof (run_ops b ops Hb Hops) as E. unfold ops_bytes in E. by rewrite E.
Qed.

(** ** The writer *)

(** Data that wait have been announced to the stream. *)
Definition writer_ok (w : hcso_writer) : Prop :=
  fral_ok (how_fral w) /\ (content (how_fral w) <> [] -> how_wantwrite w = true).

Definition pending (w : hcso_writer) : list Z := content (how_fral w).

Lemma writef_reads_ok sizes : forall fl, Forall (fun n => 0 <= n) sizes -> fral_ok fl -> Z.of_nat (length (content fl)) < 2 ^ 64 ->
  exists out fl', writef_reads fl sizes = Some (out, fl') /\ fral_ok fl' /\ content fl = out ++ content fl'.
Proof.
  induction sizes as [|n sizes IH]; intros fl Hs Hok Hlen; cbn [writef_reads]; [by eexists _, _|].
  apply Forall_cons in Hs as [Hn Hs]. destruct (frab_read_ok fl n Hn Hok Hlen) as (fl1 & -> & Hok1 & Ec). cbn [mbind option_bind].
  destruct (IH fl1 Hs Hok1) as (out & fl2 & -> & Hok2 & Ec2); [rewrite Ec, length_drop; lia|]. cbn [mbind option_bind].
  eexists _, _. split; [done|]. split; [done|]. by rewrite <- app_assoc, <- Ec2, Ec, take_drop.
Qed.

Lemma hcso_send_ok w buf : writer_ok w -> Z.of_nat (length (pending w) + length buf) < 2 ^ 64 ->
  exists w' ms, hcso_send w buf [] = Some (0, w', ms) /\ writer_ok w' /\ pending w' = pending w ++ buf.
Proof.
  intros [Hok Hw] Hlen. unfold hcso_send, pending in *.
  destruct (frab_write_ok (how_fral w) buf [] Hok Hlen) as (r & fl & ms & -> & Hfl & [(-> & Hok' & Ec)|(_ & H & _)]); [|done].
  cbn [mbind option_bind Z.eqb negb]. eexists _, _. split; [done|]. split; [|done]. split; [done|]. cbn [how_fral how_wantwrite]. intros _.
  destruct (content (how_fral w)) as [|x l] eqn:E; [|by rewrite Hw].
  apply orb_true_iff. right. apply (frab_empty_ok (how_fral w)); [apply Hok|done].
Qed.

Lemma op_bytes_length b op : build_ok b -> op_ok op -> (length (op_bytes b op) <= 51)%nat.
Proof.
  intros Hb Hop. assert (Hnum : forall type id, (length (number_frame type id) <= 51)%nat).
  { intros type id. unfold number_frame. cbn [length]. destruct (length_vint id) as [-> ?]. lia. }
  destruct op as [h t s|id|id|id|type id ehp|sizes]; cbn [op_bytes]; [|apply Hnum..| |cbn; lia].
  - destruct (delivers_settings b true h t s Hb Hop) as [_ Hl]. unfold settings_bufsz in Hl. destruct (ndebug b); lia.
  - unfold priority_frame. rewrite !length_app. cbn [length]. destruct (length_vint type) as [-> ?], (length_vint id) as [-> ?].
    pose proof (length_write_pfv ehp). lia.
Qed.

Lemma hcso_step_ok b w op : build_ok b -> op_ok op -> writer_ok w -> Z.of_nat (length (pending w)) < 2 ^ 63 ->
  exists out w', hcso_step b w op = Some (out, w') /\ writer_ok w' /\ pending w ++ op_bytes b op = out ++ pending w'.
Proof.
  intros Hb Hop Hw Hlen. pose proof (op_bytes_length b op Hb Hop) as Hl.
  destruct (hcso_send_ok w (op_bytes b op) Hw ltac:(change (2 ^ 64) with (2 * 2 ^ 63); lia)) as (w1 & ms & E & Hw1 & Ep).
  destruct op as [h t s|id|id|id|type id ehp|sizes]; cbn [op_bytes] in *.
  - unfold hcso_step, lsquic_hcso_write_settings. destruct (delivers_settings b true h t s Hb Hop) as [_ Hsz]. ztest.
    rewrite E. cbn. by eexists _, _.
  - unfold hcso_step, lsquic_hcso_write_goaway, hcso_write_number_frame. rewrite E. cbn. by eexists _, _.
  - unfold hcso_step, lsquic_hcso_write_max_push_id, hcso_write_number_frame. rewrite E. cbn. by eexists _, _.
  - unfold hcso_step, lsquic_hcso_write_cancel_push, hcso_write_number_frame. rewrite E. cbn. by eexists _, _.
  - unfold hcso_step, lsquic_hcso_write_priority_update. rewrite E. cbn. by eexists _, _.
  - destruct Hw as [Hok Hw]. unfold hcso_step, hcso_on_write, pending in *.
    destruct (writef_reads_ok sizes (how_fral w) Hop Hok ltac:(change (2 ^ 64) with (2 * 2 ^ 63); lia)) as (out & fl & -> & Hok' & Ec).
    cbn [mbind option_bind]. eexists _, _. split; [done|]. cbn [how_fral]. rewrite app_nil_r. split; [|done]. split; [done|]. cbn.
    destruct (lsquic_frab_list_empty fl) eqn:Ee.
    + apply (frab_empty_ok fl) in Ee; [done|apply Hok'].
    + intros Hne. apply Hw. rewrite Ec. by intros [_ ?]%app_nil.
Qed.

Lemma hcso_run_ok b ops : forall w, build_ok b -> Forall op_ok ops -> writer_ok w ->
  Z.of_nat (length (pending w) + 51 * length ops) < 2 ^ 63 ->
  exists out w', hcso_run b w ops = Some (out, w') /\ writer_ok w' /\ pending w ++ ops_bytes b ops = out ++ pending w'.
Proof.
  induction ops as [|op ops IH]; intros w Hb Hops Hw Hlen; cbn [hcso_run].
  { eexists _, _. split; [done|]. split; [done|]. apply app_nil_r. }
  apply Forall_cons in Hops as [Hop Hops]. cbn [length] in Hlen.
  destruct (hcso_step_ok b w op Hb Hop Hw ltac:(lia)) as (out & w1 & -> & Hw1 & E1). cbn [mbind option_bind].
  pose proof (op_bytes_length b op Hb Hop) as Hl. pose proof (f_equal length E1) as El. rewrite !length_app in El.
  destruct (IH w1 Hb Hops Hw1 ltac:(lia)) as (out2 & w2 & -> & Hw2 & E2). cbn [mbind option_bind]. eexists _, _. split; [done|]. split; [done|].
  unfold ops_bytes in *. cbn [map concat]. by rewrite app_assoc, E1, <- !app_assoc, E2.
Qed.

(** ** The receiving end *)

Lemma uni_read_hcsi chunks : forall r, uni_read_all (UniHcsi r) chunks = ('(ret, r, evs) ← hcsi_feed_all r chunks; Some (ret, UniHcsi r, evs)).
Proof.
  induction chunks as [|c cs IH]; intros r; [done|]. cbn [uni_read_all hcsi_feed_all uni_on_read].
  destruct (lsquic_hcsi_reader_feed r c) as [[[ret r1] evs]|]; [|done]. cbn [mbind option_bind].
  destruct (negb (ret =? 0)); [done|]. rewrite IH. by destruct (hcsi_feed_all r1 cs) as [[[]]|].
Qed.

(** The stream type, of which [acc] has been read, comes first. *)
Lemma uni_read_type chunks : forall acc st, Forall byte_ok (acc ++ concat chunks) -> nb_at acc st ->
  match lsquic_varint_read (acc ++ concat chunks) with
  | None => exists st', uni_read_all (UniType st) chunks = Some (0, UniType st', [])
  | Some (n, v) => v = HQUST_CONTROL -> exists rest, concat rest = drop (Z.to_nat n - length acc) (concat chunks) /\
      uni_read_all (UniType st) chunks = ('(ret, r, evs) ← hcsi_feed_all lsquic_hcsi_reader_init rest; Some (ret, UniHcsi r, evs))
  end.
Proof.
  induction chunks as [|c cs IH]; intros acc st Hok Hat; cbn [concat uni_read_all] in *.
  { rewrite app_nil_r in *. rewrite (nb_at_incomplete acc st Hok Hat). by eexists. }
  destruct (decide (c = [])) as [->|Hc].
  { specialize (IH acc st Hok Hat). cbn [uni_on_read unicla_readf lsquic_varint_read_nb mbind option_bind]. cbn.
    destruct (lsquic_varint_read (acc ++ concat cs)) as [[n v]|].
    - intros Hv. destruct (IH Hv) as (rest & ? & E). exists rest. split; [done|]. unfold mbind in *. cbn. rewrite E. by destruct (hcsi_feed_all _ rest) as [[[]]|].
    - destruct IH as [st' E]. exists st'. unfold mbind in *. cbn. by rewrite E. }
  rewrite app_assoc in Hok |- *. apply Forall_app in Hok as Hok2. destruct Hok2 as [Hac Hcs].
  pose proof (read_nb_at acc st c Hac Hat Hc) as Hr. cbn [uni_on_read]. unfold unicla_readf.
  destruct (lsquic_varint_read (acc ++ c)) as [[n v]|] eqn:Er.
  - rewrite (varint_read_app _ _ _ _ Hok Er). intros ->. destruct Hr as (st' & -> & Ev). cbn [mbind option_bind]. change (0 =? 0) with true. cbn iota.
    rewrite Ev. change (apply_uni_stream_class false false false false HQUST_CONTROL) with UniControl. cbn iota.
    exists (drop (Z.to_nat n - length acc) c :: cs). split.
    + cbn [concat]. apply Forall_app in Hac as Hac2. pose proof (varint_read_longer acc c n _ Hac (nb_at_incomplete _ _ (proj1 Hac2) Hat) Er).
      destruct (varint_read_pos _ _ _ Hac Er) as [Hn _]. rewrite length_app in Hn. by rewrite drop_app_le by lia.
    + cbn [hcsi_feed_all]. destruct (lsquic_hcsi_reader_feed _ _) as [[[ret r1] evs]|]; [|done]. cbn [mbind option_bind].
      destruct (negb (ret =? 0)) eqn:Eret; [done|]. rewrite uni_read_hcsi. by destruct (hcsi_feed_all r1 cs) as [[[]]|].
  - destruct Hr as (st' & -> & Hat'). cbn [mbind option_bind]. change (-1 =? 0) with false. cbn [mbind option_bind]. change (negb (0 =? 0)) with false. cbn iota.
    specialize (IH (acc ++ c) st' Hok Hat'). destruct (lsquic_varint_read ((acc ++ c) ++ concat cs)) as [[n v]|] eqn:Er2.
    + intros Hv. destruct (IH Hv) as (rest & E1 & E2). exists rest. split; [|rewrite E2; by destruct (hcsi_feed_all _ rest) as [[[]]|]].
      rewrite E1. pose proof (varint_read_longer _ _ _ _ Hok Er Er2) as Hl. rewrite !length_app in *.
      rewrite drop_app_ge by lia. f_equal. lia.
    + destruct IH as [st2 E]. exists st2. by rewrite E.
Qed.

Lemma stream_type_encodes rnd : encodes (stream_type_bytes rnd) HQUST_CONTROL.
Proof.
  unfold stream_type_bytes, HQUST_CONTROL. set (x := Z.land (default 0 rnd) 3).
  assert (Hb : forall l, Forall (fun b => b = 0 \/ b = 64 \/ b = 128 \/ b = 192) l -> Forall byte_ok l).
  { intros l Hl. eapply Forall_impl; [exact Hl|]. unfold byte_ok. cbn. lia. }
  assert (0 <= x <= 3) as Hx.
  { unfold x. pose proof (Z.land_ones (default 0 rnd) 2 ltac:(lia)) as El. change (Z.ones 2) with 3 in El. rewrite El. change (2 ^ 2) with 4. pose proof (Z.mod_pos_bound (default 0 rnd) 4 ltac:(lia)). lia. }
  clearbody x. unfold encodes. assert (x = 0 \/ x = 1 \/ x = 2 \/ x = 3) as E by lia. destruct E as [->|[->|[->| ->]]];
    (split; [apply Hb; repeat (apply Forall_cons_2; [lia|]); apply Forall_nil_2|]); (split; [done|]); intros rest Hr; done.
Qed.

(** Bytes of a stream without errors are read without errors, and the events are a
    part of those of the stream. *)
Lemma read_prefix chunks q s evs : ctl_run true (false, CHead []) (concat chunks ++ q) = Some (s, evs) -> s.2 <> CError ->
  Forall byte_ok (concat chunks) -> Z.of_nat (length (concat chunks)) < 2 ^ 32 ->
  exists r evs1 evs2, hcsi_feed_all lsquic_hcsi_reader_init chunks = Some (0, r, evs1) /\ evs = evs1 ++ evs2 /\ (q = [] -> evs2 = []).
Proof.
  intros Hrun Hs Hok Hlen. rewrite ctl_run_app in Hrun.
  pose proof (feed_all_refines chunks lsquic_hcsi_reader_init (CHead [])) as H. cbn [lsquic_hcsi_reader_init hr_rcvd_setting hr_nread] in H.
  specialize (H init_rep Hok ltac:(lia) ltac:(lia)).
  destruct (ctl_run true (false, CHead []) (concat chunks)) as [[[b c] evs1]|] eqn:E1; [|done]. rewrite (strict_chunks chunks (false, CHead []) _ eq_refl E1) in H. cbn [then_run mbind option_bind] in Hrun.
  destruct H as (ret & r & E & [(-> & _)|(-> & Hc)]).
  - destruct (ctl_run true (b, c) q) as [[s2 evs2]|] eqn:Eq; [|done]. cbn in Hrun. injection Hrun as <- <-. exists r, evs1, evs2. split; [done|].
    split; [done|]. intros ->. cbn in Eq. by injection Eq.
  - cbn in Hc. subst c. rewrite ctl_run_error in Hrun. cbn in Hrun. injection Hrun as <- <-. done.
Qed.

Lemma hcso_on_new_ok rnd : exists w0 ms, hcso_on_new rnd [] = Some (0, w0, ms) /\ writer_ok w0 /\
  pending w0 = stream_type_bytes rnd /\ (length (pending w0) <= 8)%nat.
Proof.
  assert (length (stream_type_bytes rnd) <= 8)%nat as Htl.
  { unfold stream_type_bytes. destruct (Z.land _ 3) as [|[[]|[]|]|]; cbn; lia. }
  unfold hcso_on_new, hcso_write_type. cbn [how_fral].
  destruct (frab_write_ok (lsquic_frab_list_init 256) (stream_type_bytes rnd) []) as (r & fl & ms & -> & _ & [(-> & Hfl & Ec)|(_ & ? & _)]);
    [by apply fral_init_ok|cbn; change (2 ^ 64) with 18446744073709551616; lia| |done].
  cbn [mbind option_bind]. eexists _, _. split; [done|]. split; [by split|]. unfold pending. cbn [how_fral]. by rewrite Ec.
Qed.

Lemma ops_bytes_length b ops : build_ok b -> Forall op_ok ops -> (length (ops_bytes b ops) <= 51 * length ops)%nat.
Proof.
  intros Hb. induction 1 as [|op l Hop _ IH]; [done|]. unfold ops_bytes in *. cbn. rewrite length_app.
  pose proof (op_bytes_length b op Hb Hop). lia.
Qed.

Lemma writer_quiet w : writer_ok w -> how_wantwrite w = false -> pending w = [].
Proof. intros [_ Hw] Hf. unfold pending. destruct (content (how_fral w)); [done|]. by rewrite Hw in Hf. Qed.

(** C29: whatever frames the application sends on the control stream, after
    SETTINGS, and in whatever pieces the stream takes the bytes and the peer gets
    them, the peer sees no error and is told exactly what was sent, in order, as far
    as the bytes have come; data that wait are announced to the stream, so that when
    nothing is announced the peer has been told everything. *)
Theorem h3_control_end_to_end b rnd pre h t s ops :
  build_ok b -> Forall op_ok (control_ops pre h t s ops) -> Z.of_nat (length (control_ops pre h t s ops)) <= 2 ^ 25 ->
  exists w0 ms out w, hcso_on_new rnd [] = Some (0, w0, ms) /\ hcso_run b w0 (control_ops pre h t s ops) = Some (out, w) /\
    forall chunks, concat chunks = out ->
    exists u evs more, uni_read_all unicla_on_new chunks = Some (0, u, evs) /\
      ops_events (control_ops pre h t s ops) = evs ++ more /\ (how_wantwrite w = false -> more = []).
Proof.
  intros Hb Hops Hlen. set (all := control_ops pre h t s ops) in *.
  destruct (stream_type_encodes rnd) as (Ht & _ & He). destruct (hcso_on_new_ok rnd) as (w0 & ms & E0 & Hw0 & Ep0 & Htl).
  change (2 ^ 25) with 33554432 in Hlen. pose proof (ops_bytes_length b all Hb Hops) as Hsz.
  destruct (hcso_run_ok b all w0 Hb Hops Hw0 ltac:(change (2 ^ 63) with 9223372036854775808; lia)) as (out & w & E & Hw & Econ).
  exists w0, ms, out, w. split; [done|]. split; [done|]. intros chunks Hch. rewrite Ep0, <- Hch in Econ.
  pose proof (ops_bytes_ok b all Hb Hops) as Hbs. pose proof (writer_quiet w Hw) as Hquiet.
  assert (Forall byte_ok (concat chunks ++ pending w)) as [Hok Hokq]%Forall_app by (rewrite <- Econ; auto using Forall_app_2).
  pose proof (uni_read_type chunks [] (VRS 0 0) Hok eq_refl) as Hu. cbn [app length] in Hu.
  pose proof (He (ops_bytes b all) Hbs) as Hread. rewrite Econ in Hread.
  destruct (lsquic_varint_read (concat chunks)) as [[n v]|] eqn:Er.
  - rewrite (varint_read_app (concat chunks) (pending w) n v (Forall_app_2 _ _ _ Hok Hokq) Er) in Hread. injection Hread as -> ->.
    destruct (Hu eq_refl) as (rest & Erest & Erun). rewrite Nat2Z.id, Nat.sub_0_r in Erest. destruct (varint_read_pos _ _ _ Hok Er) as [Hn _].
    assert (Erest2 : ops_bytes b all = concat rest ++ pending w).
    { rewrite Erest. rewrite <- (drop_app_le (concat chunks) (pending w)) by lia. by rewrite <- Econ, drop_app_length. }
    pose proof (run_control_ops b pre h t s ops Hb Hops) as Hctl. fold all in Hctl. rewrite Erest2 in Hctl, Hsz. rewrite length_app in Hsz.
    destruct (read_prefix rest (pending w) _ _ Hctl) as (r & evs1 & evs2 & Ef & Eev & Hq);
      [done|rewrite Erest; by apply Forall_drop|change (2 ^ 32) with 4294967296; lia|].
    exists (UniHcsi r), evs1, evs2. unfold unicla_on_new. rewrite Erun, Ef. split; [done|]. split; [done|]. auto.
  - destruct Hu as [st Eu]. exists (UniType st), [], (ops_events all). split; [done|]. split; [done|]. intros Hf. exfalso.
    rewrite (Hquiet Hf), app_nil_r in Hread. by rewrite Er in Hread.
Qed.

(** Settings, a priority and GOAWAY, taken by the stream in three pieces. *)
Lemma h3_control_end_to_end_witness :
  let all := control_ops [[1]] 65536 4096 100
    [WPriorityUpdate HQFT_PRIORITY_UPDATE_STREAM 8 (EHP 1 1); OnWrite [10; 7]; WGoaway 400; OnWrite [100]] in
  exists w0 ms out w, hcso_on_new None [] = Some (0, w0, ms) /\ hcso_run (HB false (fun _ => Some 3)) w0 all = Some (out, w) /\
    forall chunks, concat chunks = out ->
    exists u evs more, uni_read_all unicla_on_new chunks = Some (0, u, evs) /\
      ops_events all = evs ++ more /\ (how_wantwrite w = false -> more = []).
Proof.
  apply (h3_control_end_to_end (HB false (fun _ => Some 3)) None [[1]] 65536 4096 100).
  - done.
  - repeat (apply Forall_cons_2; [by (unfold op_ok, is_u; cbn; split_and?; first [done | lia | repeat constructor])|]). apply Forall_nil_2.
  - by vm_compute.
Defined.
