(* ===== verification/Spi.v ===== *)
(** The stream priority iterator (lsquic_spi.c): streams in 256 queues by priority,
    with a bit mask of the queues in use.

    A stream is its pointer with what the iterator reads of it, its priority when it
    was added and whether it is critical. *)
From S2P Require Import Prelude.
Local Open Scope Z_scope.

Record spi_stream := ST { st_ptr : Z; sm_priority : Z; st_critical : bool }.

#[export] Instance spi_stream_eq : EqDecision spi_stream.
Proof. solve_decision. Defined.

Record stream_prio_iter := SPI {
  spi_set : list Z; (** four words *)
  spi_n_added : Z;
  spi_cur_prio : Z;
  spi_next_stream : option spi_stream;
  spi_streams : list (list spi_stream) (** 256 queues; those without a bit are not initialised *)
}.

Definition with_cur (it : stream_prio_iter) (prio : Z) : stream_prio_iter :=
  SPI (spi_set it) (spi_n_added it) prio (spi_next_stream it) (spi_streams it).
Definition with_next (it : stream_prio_iter) (next : option spi_stream) : stream_prio_iter :=
  SPI (spi_set it) (spi_n_added it) (spi_cur_prio it) next (spi_streams it).

(** [iter->spi_set[prio >> 6] & (1ULL << (prio & 0x3F))] *)
Definition spi_has (it : stream_prio_iter) (prio : Z) : option bool :=
  w ← aget (spi_set it) (Z.shiftr prio 6);
  Some (has_flag w (Z.shiftl 1 (Z.land prio 63))).

Definition spi_init_empty : stream_prio_iter := SPI [0; 0; 0; 0] 0 0 None (replicate 256 []).

(** [None]: an index out of bounds. *)
Definition add_stream_to_spi (it : stream_prio_iter) (s : spi_stream) : option stream_prio_iter :=
  let set := Z.shiftr (sm_priority s) 6 in
  let bit := Z.land (sm_priority s) 63 in
  w ← aget (spi_set it) set;
  q ← aget (spi_streams it) (sm_priority s);
  let present := has_flag w (Z.shiftl 1 bit) in
  sets ← (if present then Some (spi_set it) else aset (spi_set it) set (Z.lor w (Z.shiftl 1 bit)));
  streams ← aset (spi_streams it) (sm_priority s) ((if present then q else []) ++ [s]);
  Some (SPI sets (u32 (spi_n_added it + 1)) (spi_cur_prio it) (spi_next_stream it) streams).

Fixpoint add_streams (it : stream_prio_iter) (l : list spi_stream) : option stream_prio_iter :=
  match l with [] => Some it | s :: l => it ← add_stream_to_spi it s; add_streams it l end.

(** The streams from [first] to [last], and the filter if there is one. *)
Definition lsquic_spi_init (l : list spi_stream) (filter : option (spi_stream -> bool)) : option stream_prio_iter :=
  add_streams spi_init_empty (match filter with Some f => List.filter f l | None => l end).

(** The six halvings. *)
Fixpoint calc_priority (ws : list Z) (prio mask : Z) : Z :=
  match ws with
  | [] => prio
  | w :: ws => if Z.land mask (Z.shiftl 1 w - 1) =? 0 then calc_priority ws (prio + w) (Z.shiftr mask w)
               else calc_priority ws prio mask
  end.

(** The first word from [set] on that is not zero, with [prio]. *)
Fixpoint find_set (ws : list Z) (prio : Z) : option (Z * Z) :=
  match ws with
  | [] => None
  | w :: ws => if negb (w =? 0) then Some (w, prio) else find_set ws (prio + 64)
  end.

(** The assertion, and [spi_cur_prio]. *)
Definition set_priority (it : stream_prio_iter) (mask prio : Z) : option (bool * stream_prio_iter) :=
  let prio := calc_priority [32; 16; 8; 4; 2; 1] prio mask in
  present ← spi_has it prio;
  if (present : bool) then Some (true, with_cur it (u8 prio)) else None.

(** [Some (false, _)]: the functions return -1. *)
Definition find_and_set_lowest_priority (it : stream_prio_iter) : option (bool * stream_prio_iter) :=
  match find_set (spi_set it) 0 with
  | None => Some (false, it)
  | Some (mask, prio) => set_priority it mask prio
  end.

Definition find_and_set_next_priority (it : stream_prio_iter) : option (bool * stream_prio_iter) :=
  let set := Z.shiftr (spi_cur_prio it) 6 in
  let bit := Z.land (spi_cur_prio it) 63 in
  let prio := 64 * set in
  w ← aget (spi_set it) set;
  let mask := Z.land w (u64 (Z.lnot (u64 (Z.shiftl 1 (bit + 1)) - 1))) in
  if (bit <? 63) && negb (mask =? 0) then set_priority it mask prio else
  match find_set (drop (Z.to_nat (set + 1)) (spi_set it)) (prio + 64) with
  | None => Some (false, it)
  | Some (mask, prio) => set_priority it mask prio
  end.

(** [TAILQ_NEXT] of a queue. *)
Fixpoint tailq_next (l : list spi_stream) (s : spi_stream) : option spi_stream :=
  match l with [] => None | x :: l => if decide (x = s) then head l else tailq_next l s end.

(** The first stream of the queue; [None] when the queue is empty, which the code
    does not expect. *)
Definition first_of_queue (it : stream_prio_iter) : option (option spi_stream * stream_prio_iter) :=
  q ← aget (spi_streams it) (spi_cur_prio it);
  s ← head q;
  Some (Some s, with_next it (tailq_next q s)).

Definition lsquic_spi_first (it : stream_prio_iter) : option (option spi_stream * stream_prio_iter) :=
  let it := with_cur it 0 in
  present ← spi_has it 0;
  if (present : bool) then first_of_queue it else
  '(found, it) ← find_and_set_lowest_priority it;
  if (found : bool) then first_of_queue it else Some (None, it).

Definition lsquic_spi_next (it : stream_prio_iter) : option (option spi_stream * stream_prio_iter) :=
  match spi_next_stream it with
  | Some s => q ← aget (spi_streams it) (spi_cur_prio it); Some (Some s, with_next it (tailq_next q s))
  | None =>
    '(found, it) ← find_and_set_next_priority it;
    if (found : bool) then first_of_queue it else Some (None, it)
  end.

Definition have_non_critical_streams (it : stream_prio_iter) : option bool :=
  q ← aget (spi_streams it) (spi_cur_prio it);
  Some (existsb (fun s => negb (st_critical s)) q).

Fixpoint popcount_from (n : nat) (i v : Z) : Z :=
  match n with O => 0 | S n => b2z (Z.testbit v i) + popcount_from n (i + 1) v end.
Definition spi_popcount (v : Z) : Z := popcount_from 64 0 v.

Fixpoint more_than_one (ws : list Z) (count : Z) : bool :=
  match ws with
  | [] => false
  | w :: ws => let count := count + spi_popcount w in if 1 <? count then true else more_than_one ws count
  end.

Definition spi_has_more_than_one_queue (it : stream_prio_iter) : bool :=
  if spi_n_added it <? 2 then false else more_than_one (spi_set it) 0.

(** [new_set[prio >> 6] |= 1ULL << (prio & 0x3F)] *)
Definition set_bit (ws : list Z) (prio : Z) : option (list Z) :=
  w ← aget ws (Z.shiftr prio 6);
  aset ws (Z.shiftr prio 6) (Z.lor w (Z.shiftl 1 (Z.land prio 63))).

Definition spi_drop_high_or_non_high (it : stream_prio_iter) (drop_high : bool) : option stream_prio_iter :=
  if negb (spi_has_more_than_one_queue it) then Some it else
  '(_, it) ← find_and_set_lowest_priority it;
  new_set ← set_bit [0; 0; 0; 0] (spi_cur_prio it);
  have ← have_non_critical_streams it;
  '(new_set, it) ← (if (have : bool) then Some (new_set, it) else
    '(_, it) ← find_and_set_lowest_priority (with_cur it (u8 (spi_cur_prio it + 1)));
    new_set ← set_bit new_set (spi_cur_prio it);
    Some (new_set, it));
  Some (SPI (if drop_high then zip_with Z.ldiff (spi_set it) new_set else new_set)
          (spi_n_added it) (spi_cur_prio it) (spi_next_stream it) (spi_streams it)).

Definition lsquic_spi_drop_high (it : stream_prio_iter) : option stream_prio_iter := spi_drop_high_or_non_high it true.
Definition lsquic_spi_drop_non_high (it : stream_prio_iter) : option stream_prio_iter := spi_drop_high_or_non_high it false.

(** [for (s = first(); s; s = next())] *)
Fixpoint spi_rest (fuel : nat) (it : stream_prio_iter) : option (list spi_stream) :=
  match fuel with
  | O => None
  | S fuel =>
    '(s, it) ← lsquic_spi_next it;
    match (s : option spi_stream) with
    | None => Some []
    | Some s => l ← spi_rest fuel it; Some (s :: l)
    end
  end.

Definition spi_all (fuel : nat) (it : stream_prio_iter) : option (list spi_stream) :=
  '(s, it) ← lsquic_spi_first it;
  match (s : option spi_stream) with
  | None => Some []
  | Some s => l ← spi_rest fuel it; Some (s :: l)
  end.

(** * The order of streams *)

(** By priority, and in each priority in the order of addition. *)
Definition by_priority (l : list spi_stream) : list spi_stream :=
  concat (map (fun p => List.filter (fun s => sm_priority s =? p) l) (map Z.of_nat (seq 0 256))).

Definition demo_streams : list spi_stream := [ST 1 200 false; ST 2 3 false; ST 3 200 false; ST 4 0 true; ST 5 66 false; ST 6 3 true].

Example spi_demo : (it ← lsquic_spi_init demo_streams None; spi_all 10 it) = Some (by_priority demo_streams).
Proof. vm_compute. reflexivity. Qed.

(** * The bit mask *)

Definition in_use (it : stream_prio_iter) (p : Z) : bool :=
  match aget (spi_set it) (Z.shiftr p 6) with Some w => Z.testbit w (Z.land p 63) | None => false end.

Lemma prio_split p : Z.shiftr p 6 = p / 64 /\ Z.land p 63 = p mod 64.
Proof. split; [by rewrite Z.shiftr_div_pow2|]. change 63 with (Z.ones 6). by rewrite Z.land_ones. Qed.

Lemma prio_join i k : 0 <= k < 64 -> Z.shiftr (64 * i + k) 6 = i /\ Z.land (64 * i + k) 63 = k.
Proof.
  intros Hk. destruct (prio_split (64 * i + k)) as [-> ->]. split; [symmetry; by apply (Z.div_unique _ _ _ k); lia|].
  symmetry. apply (Z.mod_unique _ _ i); lia.
Qed.

Lemma prio_parts p : 0 <= p < 256 -> exists i k, p = 64 * i + k /\ 0 <= i < 4 /\ 0 <= k < 64.
Proof. intros Hp. exists (p / 64), (p mod 64). pose proof (Z.div_mod p 64). pose proof (Z.mod_pos_bound p 64). split; [lia|].
  split; [|lia]. split; [apply Z.div_pos; lia|apply Z.div_lt_upper_bound; lia].
Qed.

Lemma in_use_parts it i k : 0 <= k < 64 -> in_use it (64 * i + k) = match aget (spi_set it) i with Some w => Z.testbit w k | None => false end.
Proof. intros Hk. unfold in_use. by destruct (prio_join i k Hk) as [-> ->]. Qed.

(** The lowest bit that is set. *)
Definition is_low (m k : Z) : Prop := 0 <= k /\ Z.testbit m k = true /\ forall j, 0 <= j < k -> Z.testbit m j = false.

Lemma is_low_exists m n : Z.testbit m n = true -> exists k, is_low m k /\ k <= n.
Proof.
  intros Hn. assert (0 <= n) as H0 by (destruct (Z.lt_ge_cases n 0); [by rewrite Z.testbit_neg_r in Hn|done]).
  destruct (ctz_from_total (S (Z.to_nat n)) 0 m n ltac:(lia) Hn) as [k Hk].
  apply ctz_from_spec in Hk as (H1 & H2 & H3). exists k. split; [|lia]. split; [lia|]. split; [done|]. intros j Hj. apply H3. lia.
Qed.

Lemma land_low m w : 0 <= w -> Z.land m (Z.shiftl 1 w - 1) = m mod 2 ^ w.
Proof. intros Hw. rewrite Z.shiftl_1_l, <- Z.land_ones by done. by rewrite Z.ones_equiv, Z.sub_1_r. Qed.

(** One halving: either the bit is in the low half or the low half is empty. *)
Lemma halve m k w : 0 <= w -> is_low m k ->
  if Z.land m (Z.shiftl 1 w - 1) =? 0 then w <= k /\ is_low (Z.shiftr m w) (k - w) else k < w.
Proof.
  intros Hw (Hk & Hb & Hlow). rewrite land_low by done. destruct (Z.eqb_spec (m mod 2 ^ w) 0) as [E|E].
  - assert (w <= k) as Hle.
    { destruct (Z.le_gt_cases w k); [done|]. rewrite <- (Z.mod_pow2_bits_low m w k) in Hb by lia. by rewrite E, Z.bits_0 in Hb. }
    split; [done|]. split; [lia|]. split; [rewrite Z.shiftr_spec by lia; by replace (k - w + w) with k by lia|].
    intros j Hj. rewrite Z.shiftr_spec by lia. apply Hlow. lia.
  - destruct (Z.lt_ge_cases k w) as [|Hge]; [done|]. exfalso. apply E. apply Z.bits_inj'. intros n Hn. rewrite Z.bits_0.
    destruct (Z.lt_ge_cases n w); [rewrite Z.mod_pow2_bits_low by lia; apply Hlow; lia|apply Z.mod_pow2_bits_high; lia].
Qed.

Lemma calc_priority_low prio m k : is_low m k -> k < 64 -> calc_priority [32; 16; 8; 4; 2; 1] prio m = prio + k.
Proof.
  assert (Hgen : forall ws lim prio m k, (forall w, w ∈ ws -> 0 <= w) ->
    (match ws with w :: _ => lim = 2 * w | [] => lim = 1 end) ->
    (forall i w w', ws !! i = Some w -> ws !! S i = Some w' -> w = 2 * w') -> (list.last ws = Some 1 \/ ws = []) ->
    is_low m k -> k < lim -> calc_priority ws prio m = prio + k).
  { induction ws as [|w ws IH]; intros lim p x j Hpos Hlim Hh Hlast Hlow Hj; cbn [calc_priority].
    { destruct Hlow. subst lim. replace j with 0 by lia. lia. }
    pose proof (halve x j w ltac:(apply Hpos; by left) Hlow) as Hhalf.
    assert (Hnext : match ws with w' :: _ => w = 2 * w' | [] => w = 1 end).
    { destruct ws as [|w' ws]; [destruct Hlast as [[= ->]|?]; done|]. by apply (Hh 0%nat). }
    assert (Hlast' : list.last ws = Some 1 \/ ws = []) by (destruct ws; [by right|left; by destruct Hlast]).
    assert (Hh' : forall i a b, ws !! i = Some a -> ws !! S i = Some b -> a = 2 * b) by (intros i a b H1 H2; by apply (Hh (S i))).
    destruct (_ =? 0).
    - destruct Hhalf as [Hle Hlow']. rewrite (IH w _ _ (j - w)); [lia|set_solver|by destruct ws|done..|lia].
    - rewrite (IH w _ _ j); [done|set_solver|by destruct ws|done..]. }
  intros Hlow Hk. apply (Hgen [32; 16; 8; 4; 2; 1] 64); [|done| |by left|done..].
  - intros w Hw. set_unfold in Hw. lia.
  - intros i w w' H1 H2. do 6 (destruct i as [|i]; [cbn in *; by simplify_eq|]). done.
Qed.

Definition sets_ok (it : stream_prio_iter) : Prop := length (spi_set it) = 4%nat /\ Forall (is_u 64) (spi_set it).

Lemma spi_has_eq it p : sets_ok it -> 0 <= p < 256 -> spi_has it p = Some (in_use it p).
Proof.
  intros [Hl _] Hp. destruct (prio_parts p Hp) as (i & k & -> & Hi & Hk). unfold spi_has, in_use. destruct (prio_join i k Hk) as [-> ->].
  destruct (aget_is_Some (spi_set it) i ltac:(lia)) as [w ->]. cbn [mbind option_bind]. by rewrite Z.shiftl_1_l, has_bit by lia.
Qed.

(** A mask of the bits of word [i] from some place on. *)
Lemma set_priority_ok it i w mask k : sets_ok it -> 0 <= i < 4 -> aget (spi_set it) i = Some w ->
  is_low mask k -> k < 64 -> Z.testbit w k = true -> set_priority it mask (64 * i) = Some (true, with_cur it (64 * i + k)).
Proof.
  intros Hok Hi Hw Hlow Hk Hb. unfold set_priority. rewrite (calc_priority_low _ _ k) by done. destruct Hlow as [Hk0 _].
  rewrite spi_has_eq by (done || lia). rewrite in_use_parts, Hw, Hb by lia. cbn [mbind option_bind]. rewrite wrapu_id; [done|].
  split; [lia|change (2 ^ 8) with 256; lia].
Qed.

Lemma find_set_ok ws prio : match find_set ws prio with
  | None => forall i w, ws !! i = Some w -> w = 0
  | Some (w, p) => exists i, ws !! i = Some w /\ w <> 0 /\ p = prio + 64 * Z.of_nat i /\ forall j v, (j < i)%nat -> ws !! j = Some v -> v = 0
  end.
Proof.
  revert prio. induction ws as [|w ws IH]; intros prio; cbn [find_set]; [by intros [|i]|].
  destruct (Z.eqb_spec w 0) as [->|Hw]; cbn [negb].
  - specialize (IH (prio + 64)). destruct (find_set ws (prio + 64)) as [[v p]|].
    + destruct IH as (i & Hi & Hv & -> & Hz). exists (S i). split; [done|]. split; [done|]. split; [lia|].
      intros [|j] x Hj Hx; [by injection Hx|]. apply (Hz j); [lia|done].
    + intros [|i] x Hx; [by injection Hx|by apply (IH i)].
  - exists 0%nat. split; [done|]. split; [done|]. split; [lia|]. lia.
Qed.

Lemma nonzero_low w : is_u 64 w -> w <> 0 -> exists k, is_low w k /\ k < 64.
Proof.
  intros [H1 H2] Hw. destruct (is_low_exists w (Z.log2 w)) as (k & Hk & Hle); [apply Z.bit_log2; lia|].
  exists k. split; [done|]. assert (Z.log2 w < 64) by (apply Z.log2_lt_pow2; lia). lia.
Qed.

(** ** The searches *)

(** The least priority in use above [c]. *)
Definition least_used (it : stream_prio_iter) (c : Z) (r : option Z) : Prop :=
  match r with
  | Some q => c < q < 256 /\ in_use it q = true /\ forall j, c < j < q -> in_use it j = false
  | None => forall j, c < j < 256 -> in_use it j = false
  end.

Definition found (it : stream_prio_iter) (r : option Z) : bool * stream_prio_iter :=
  match r with Some q => (true, with_cur it q) | None => (false, it) end.

Lemma aget_set it i w : aget (spi_set it) (Z.of_nat i) = Some w <-> spi_set it !! i = Some w.
Proof. by rewrite aget_nat. Qed.

(** The words from [n] on, when those bits of the word before that are above [c] are
    clear. *)
Lemma find_words_ok it n c : sets_ok it -> (n <= 4)%nat -> -1 <= c < 64 * Z.of_nat n ->
  (forall j, c < j < 64 * Z.of_nat n -> in_use it j = false) ->
  exists r, least_used it c r /\
    match find_set (drop n (spi_set it)) (64 * Z.of_nat n) with
    | None => Some (false, it)
    | Some (mask, prio) => set_priority it mask prio
    end = Some (found it r).
Proof.
  intros Hok Hn Hc Hlow. pose proof (find_set_ok (drop n (spi_set it)) (64 * Z.of_nat n)) as H. destruct Hok as [Hl Hu].
  assert (Hzero : forall m, (forall i w, (i < m)%nat -> drop n (spi_set it) !! i = Some w -> w = 0) ->
    forall j, c < j < 64 * Z.of_nat (n + m) -> j < 256 -> in_use it j = false).
  { intros m Hm j Hj Hj2. destruct (Z.lt_ge_cases j (64 * Z.of_nat n)) as [|Hge]; [apply Hlow; lia|].
    destruct (prio_parts j ltac:(lia)) as (i & k & -> & Hi & Hk). rewrite in_use_parts by done.
    destruct (aget (spi_set it) i) as [w|] eqn:E; [|done]. replace i with (Z.of_nat (Z.to_nat i)) in E by lia. rewrite aget_set in E.
    replace w with 0; [by rewrite Z.bits_0|]. symmetry. apply (Hm (Z.to_nat i - n)%nat); [lia|]. rewrite lookup_drop. rewrite <- E. f_equal. lia. }
  destruct (find_set (drop n (spi_set it)) (64 * Z.of_nat n)) as [[w p]|].
  - destruct H as (i & Hi & Hw & -> & Hz). rewrite lookup_drop in Hi.
    assert (n + i < 4)%nat by (rewrite <- Hl; by eapply lookup_lt_Some).
    destruct (nonzero_low w (Forall_lookup_1 _ _ _ _ Hu Hi) Hw) as (k & Hk & Hk64). destruct (id Hk) as (Hk0 & Hkb & Hkl).
    exists (Some (64 * Z.of_nat (n + i) + k)). apply aget_set in Hi. split.
    + split; [lia|]. split; [by rewrite in_use_parts, Hi by lia|]. intros j Hj.
      destruct (Z.lt_ge_cases j (64 * Z.of_nat (n + i))) as [Hlt|Hge]; [apply (Hzero i); [naive_solver|lia..]|].
      replace j with (64 * Z.of_nat (n + i) + (j - 64 * Z.of_nat (n + i))) by lia. rewrite in_use_parts, Hi by lia. apply Hkl. lia.
    + replace (64 * Z.of_nat n + 64 * Z.of_nat i) with (64 * Z.of_nat (n + i)) by lia.
      apply (set_priority_ok _ _ w); [by split|lia|done..].
  - exists None. split; [|done]. intros j Hj. apply (Hzero (4 - n)%nat); [intros i w _ Hi; by apply (H i)|lia..].
Qed.

Lemma find_lowest_ok it : sets_ok it -> exists r, least_used it (-1) r /\ find_and_set_lowest_priority it = Some (found it r).
Proof. intros Hok. apply (find_words_ok it 0 (-1) Hok); lia. Qed.

Lemma find_next_ok it : sets_ok it -> 0 <= spi_cur_prio it < 256 ->
  exists r, least_used it (spi_cur_prio it) r /\ find_and_set_next_priority it = Some (found it r).
Proof.
  intros Hok Hc. destruct (prio_parts _ Hc) as (i & k & E & Hi & Hk). unfold find_and_set_next_priority. rewrite E.
  destruct (prio_join i k Hk) as [-> ->]. destruct Hok as [Hl Hu]. destruct (aget_is_Some (spi_set it) i ltac:(lia)) as [w Hw].
  rewrite Hw. cbn [mbind option_bind]. set (mask := Z.land w _).
  assert (Hmask : k < 63 -> forall j, 0 <= j < 64 -> Z.testbit mask j = Z.testbit w j && (k <? j)).
  { intros Hk63 j Hj. unfold mask. rewrite Z.land_spec. f_equal. unfold wrapu. rewrite Z.mod_pow2_bits_low by lia.
    rewrite Z.lnot_spec by lia. rewrite Z.shiftl_1_l, Z.mod_small by (split; [lia|apply Z.pow_lt_mono_r; lia]).
    rewrite Z.sub_1_r, <- Z.ones_equiv. destruct (Z.ltb_spec k j); [rewrite Z.ones_spec_high by lia|rewrite Z.ones_spec_low by lia]; done. }
  assert (is_u 64 w) as Hwu by (destruct (proj1 (aget_Some _ _ _) Hw) as [_ Hw']; by apply (Forall_lookup_1 _ _ _ _ Hu Hw')).
  assert (Hhigh : forall j, 64 <= j -> Z.testbit mask j = false).
  { intros j Hj. unfold mask. rewrite Z.land_spec. unfold wrapu at 1. rewrite (Z.mod_pow2_bits_high _ 64) by lia. apply andb_false_r. }
  destruct ((k <? 63) && negb (mask =? 0)) eqn:Em.
  - apply andb_true_iff in Em as [Hk63 Hm]. apply Z.ltb_lt in Hk63. apply negb_true_iff, Z.eqb_neq in Hm.
    assert (0 <= mask) as Hm0 by (unfold mask; apply Z.land_nonneg; left; apply Hwu).
    destruct (is_low_exists mask (Z.log2 mask)) as (j & Hj & Hle); [apply Z.bit_log2; lia|]. destruct (id Hj) as (Hj0 & Hjb & Hjl).
    assert (j < 64) as Hj64 by (destruct (Z.lt_ge_cases j 64); [done|by rewrite Hhigh in Hjb]).
    pose proof Hjb as Hjb2. rewrite Hmask in Hjb2 by lia. apply andb_true_iff in Hjb2 as [Hwj Hkj]. apply Z.ltb_lt in Hkj.
    exists (Some (64 * i + j)). split; [|by apply (set_priority_ok _ _ w)]. split; [lia|]. split; [by rewrite in_use_parts, Hw by lia|].
    intros x Hx. replace x with (64 * i + (x - 64 * i)) by lia. rewrite in_use_parts, Hw by lia.
    specialize (Hjl (x - 64 * i) ltac:(lia)). rewrite Hmask in Hjl by lia. apply andb_false_iff in Hjl as [|Hkx]; [done|lia].
  - replace (Z.to_nat (i + 1)) with (S (Z.to_nat i)) by lia. replace (64 * i + 64) with (64 * Z.of_nat (S (Z.to_nat i))) by lia.
    apply find_words_ok; [done|lia|lia|]. intros x Hx. replace x with (64 * i + (x - 64 * i)) by lia. rewrite in_use_parts, Hw by lia.
    apply andb_false_iff in Em as [Hk63|Hm0]; [lia|]. apply negb_false_iff, Z.eqb_eq in Hm0.
    destruct (Z.lt_ge_cases k 63); [|lia]. pose proof (Hmask ltac:(lia) (x - 64 * i) ltac:(lia)) as Hb. rewrite Hm0, Z.bits_0 in Hb.
    symmetry in Hb. apply andb_false_iff in Hb as [|Hb]; [done|lia].
Qed.

(** * Iteration *)

Definition queue (it : stream_prio_iter) (p : Z) : list spi_stream := default [] (spi_streams it !! Z.to_nat p).

Definition spi_ok (it : stream_prio_iter) : Prop :=
  sets_ok it /\ length (spi_streams it) = 256%nat /\
  forall p, 0 <= p < 256 -> in_use it p = true -> queue it p <> [] /\ NoDup (queue it p).

(** The streams of the priorities after [c]. *)
Definition after (it : stream_prio_iter) (c : Z) : list spi_stream :=
  concat (map (queue it) (List.filter (in_use it) (seqZ (c + 1) (255 - c)))).

Lemma spi_filter_none {A} (f : A -> bool) l : (forall x, x ∈ l -> f x = false) -> List.filter f l = [].
Proof.
  intros H. induction l as [|x l IH]; [done|]. cbn. rewrite (H x) by (by left). apply IH. intros y Hy. apply H. by right.
Qed.

Lemma after_least it c r : least_used it c r -> -1 <= c < 256 ->
  after it c = match r with Some q => queue it q ++ after it q | None => [] end.
Proof.
  intros Hr Hc. unfold after. destruct r as [q|]; cbn in Hr.
  - destruct Hr as (Hq & Hu & Hl). replace (255 - c) with ((q - c - 1) + (1 + (255 - q))) by lia.
    rewrite seqZ_app, List.filter_app by lia. rewrite (spi_filter_none _ (seqZ (c + 1) (q - c - 1))) by (intros x Hx%elem_of_seqZ; apply Hl; lia).
    replace (c + 1 + (q - c - 1)) with q by lia. rewrite seqZ_app by lia. change (seqZ q 1) with [0 + q]. rewrite Z.add_0_l.
    cbn [app List.filter]. by rewrite Hu.
  - rewrite spi_filter_none; [done|]. intros x Hx%elem_of_seqZ. apply Hr. lia.
Qed.

Lemma tailq_next_ok pre s rem : NoDup (pre ++ s :: rem) -> tailq_next (pre ++ s :: rem) s = head rem.
Proof.
  induction pre as [|x pre IH]; cbn [app tailq_next]; intros Hnd.
  - by rewrite decide_True.
  - apply NoDup_cons in Hnd as [Hx Hnd]. rewrite decide_False; [by apply IH|]. set_solver.
Qed.

Lemma aget_queue it p : spi_ok it -> 0 <= p < 256 -> aget (spi_streams it) p = Some (queue it p).
Proof.
  intros (_ & Hl & _) Hp. destruct (aget_is_Some (spi_streams it) p ltac:(lia)) as [q Hq]. rewrite Hq.
  apply aget_Some in Hq as [_ Hq]. unfold queue. by rewrite Hq.
Qed.

Lemma first_of_queue_ok it : spi_ok it -> 0 <= spi_cur_prio it < 256 -> in_use it (spi_cur_prio it) = true ->
  exists s rem, queue it (spi_cur_prio it) = s :: rem /\ first_of_queue it = Some (Some s, with_next it (head rem)).
Proof.
  intros Hok Hc Hu. unfold first_of_queue. rewrite aget_queue by done. destruct Hok as (_ & _ & Hq).
  destruct (Hq _ Hc Hu) as [Hne Hnd]. destruct (queue it (spi_cur_prio it)) as [|s rem]; [done|]. exists s, rem. split; [done|].
  cbn [mbind option_bind head]. pose proof (tailq_next_ok [] s rem Hnd) as E. cbn [app] in E. by rewrite E.
Qed.

Lemma spi_rest_ok fuel : forall it pre s rem, spi_ok it -> 0 <= spi_cur_prio it < 256 -> in_use it (spi_cur_prio it) = true ->
  queue it (spi_cur_prio it) = pre ++ s :: rem -> spi_next_stream it = head rem ->
  (length (rem ++ after it (spi_cur_prio it)) < fuel)%nat -> spi_rest fuel it = Some (rem ++ after it (spi_cur_prio it)).
Proof.
  induction fuel as [|fuel IH]; intros it pre s rem Hok Hc Hu Eq En Hf; [lia|]. cbn [spi_rest]. unfold lsquic_spi_next. rewrite En.
  destruct rem as [|s' rem]; cbn [head].
  - destruct (find_next_ok it (proj1 Hok) Hc) as (r & Hr & ->). cbn [mbind option_bind]. rewrite (after_least it _ r) in Hf |- * by (done || lia).
    destruct r as [q|]; cbn [found]; [|done]. cbn in Hr. destruct Hr as (Hq & Hqu & _).
    destruct (first_of_queue_ok (with_cur it q)) as (x & rem & Eqq & ->); [done|cbn; lia|done|]. cbn [mbind option_bind].
    change (queue (with_cur it q) _) with (queue it q) in Eqq. rewrite Eqq in Hf |- *. cbn [app length] in *.
    rewrite (IH (with_next (with_cur it q) (head rem)) [] x rem); [done|done|cbn; lia|done|done|done|].
    change (after (with_next (with_cur it q) (head rem)) _) with (after it q). lia.
  - rewrite aget_queue by done. rewrite Eq. cbn [mbind option_bind].
    destruct (proj2 (proj2 Hok) _ Hc Hu) as [_ Hnd]. rewrite Eq in Hnd.
    replace (pre ++ s :: s' :: rem) with ((pre ++ [s]) ++ s' :: rem) in * by (by rewrite <- app_assoc).
    rewrite tailq_next_ok by done. cbn [app length] in *.
    rewrite (IH (with_next it (head rem)) (pre ++ [s]) s' rem); [done|done|done|done|by rewrite <- app_assoc in Eq |- *|done|].
    change (after (with_next it (head rem)) _) with (after it (spi_cur_prio it)). lia.
Qed.

Lemma spi_all_ok it fuel : spi_ok it -> (length (after it (-1)) <= fuel)%nat -> spi_all fuel it = Some (after it (-1)).
Proof.
  intros Hok Hf. unfold spi_all, lsquic_spi_first.
  assert (Hfirst : exists r, least_used it (-1) r /\
    ('(s, it) ← (present ← spi_has (with_cur it 0) 0;
       if (present : bool) then first_of_queue (with_cur it 0) else
       '(found, it) ← find_and_set_lowest_priority (with_cur it 0);
       if (found : bool) then first_of_queue it else Some (None, it));
     match (s : option spi_stream) with None => Some [] | Some s => l ← spi_rest fuel it; Some (s :: l) end) =
    match r with
    | None => Some []
    | Some q => '(s, it) ← first_of_queue (with_cur it q); match (s : option spi_stream) with None => Some [] | Some s => l ← spi_rest fuel it; Some (s :: l) end
    end).
  { rewrite (spi_has_eq (with_cur it 0)) by (apply Hok || lia). cbn [mbind option_bind].
    destruct (in_use (with_cur it 0) 0) eqn:E0.
    - exists (Some 0). split; [|done]. split; [lia|]. split; [done|]. lia.
    - destruct (find_lowest_ok (with_cur it 0) (proj1 Hok)) as (r & Hr & ->). exists r. split; [done|]. cbn [mbind option_bind].
      by destruct r as [q|]. }
  destruct Hfirst as (r & Hr & ->). rewrite (after_least it (-1) r) in Hf |- * by (done || lia). destruct r as [q|]; [|done].
  destruct Hr as (Hq & Hu & _). destruct (first_of_queue_ok (with_cur it q)) as (x & rem & Eq & ->); [done|cbn; lia|done|].
  cbn [mbind option_bind]. change (queue (with_cur it q) _) with (queue it q) in Eq. rewrite Eq in Hf |- *. cbn [app length] in *.
  rewrite (spi_rest_ok fuel (with_next (with_cur it q) (head rem)) [] x rem); [done|done|cbn; lia|done|done|done|].
  change (after (with_next (with_cur it q) (head rem)) _) with (after it q). lia.
Qed.

(** * Adding streams *)

(** What the iterator holds for a priority. *)
Definition held_at (it : stream_prio_iter) (p : Z) : list spi_stream := if in_use it p then queue it p else [].

Definition of_priority (l : list spi_stream) (p : Z) : list spi_stream := List.filter (fun s => sm_priority s =? p) l.

(** The iterator holds the streams [l]. *)
Definition spi_holds (it : stream_prio_iter) (l : list spi_stream) : Prop :=
  sets_ok it /\ length (spi_streams it) = 256%nat /\
  forall p, 0 <= p < 256 -> held_at it p = of_priority l p /\ (in_use it p = true -> held_at it p <> []).

Lemma in_use_or it ws i k b p : sets_ok it -> 0 <= i < 4 -> 0 <= k < 64 -> 0 <= p < 256 ->
  aget (spi_set it) i = Some b -> ws = <[Z.to_nat i := Z.lor b (Z.shiftl 1 k)]> (spi_set it) ->
  forall n c x q, in_use (SPI ws n c x q) p = in_use it p || (p =? 64 * i + k).
Proof.
  intros [Hl _] Hi Hk Hp Hb -> n c x q. destruct (prio_parts p Hp) as (j & m & -> & Hj & Hm). rewrite !in_use_parts by done. cbn [spi_set].
  destruct (decide (j = i)) as [->|Hne].
  - rewrite aget_insert_eq, Hb by lia. rewrite Z.lor_spec, Z.shiftl_1_l, Z.pow2_bits_eqb by lia. f_equal. lia.
  - rewrite aget_insert_ne by (lia || done). replace (64 * j + m =? 64 * i + k) with false by lia. by rewrite orb_false_r.
Qed.

Lemma lor_u64 b k : is_u 64 b -> 0 <= k < 64 -> is_u 64 (Z.lor b (Z.shiftl 1 k)).
Proof.
  intros [H1 H2] Hk. rewrite Z.shiftl_1_l. split; [apply Z.lor_nonneg; lia|].
  destruct (Z.eq_dec (Z.lor b (2 ^ k)) 0) as [->|Hne]; [lia|].
  apply Z.log2_lt_pow2; [assert (0 <= Z.lor b (2 ^ k)) by (apply Z.lor_nonneg; lia); lia|]. rewrite Z.log2_lor by lia.
  rewrite Z.log2_pow2 by lia. assert (Z.log2 b < 64) by (destruct (Z.eq_dec b 0) as [->|]; [done|apply Z.log2_lt_pow2; lia]). lia.
Qed.

Lemma add_stream_ok it l s : spi_holds it l -> 0 <= sm_priority s < 256 ->
  exists it', add_stream_to_spi it s = Some it' /\ spi_holds it' (l ++ [s]) /\ spi_n_added it' = u32 (spi_n_added it + 1).
Proof.
  intros (Hok & Hl & Hh) Hp. destruct (prio_parts _ Hp) as (i & k & E & Hi & Hk). unfold add_stream_to_spi. rewrite E.
  destruct (prio_join i k Hk) as [-> ->]. rewrite <- E. destruct (id Hok) as [Hl4 Hu].
  destruct (aget_is_Some (spi_set it) i ltac:(lia)) as [b Hb]. destruct (aget_is_Some (spi_streams it) (sm_priority s) ltac:(lia)) as [q Hq].
  rewrite Hb, Hq. cbn [mbind option_bind]. rewrite Z.shiftl_1_l, has_bit by lia.
  assert (Hin : in_use it (sm_priority s) = Z.testbit b k) by (by rewrite E, in_use_parts, Hb by lia).
  assert (Eq : queue it (sm_priority s) = q) by (unfold queue; apply aget_Some in Hq as [_ ->]; done).
  set (ws := if Z.testbit b k then spi_set it else <[Z.to_nat i := Z.lor b (Z.shiftl 1 k)]> (spi_set it)).
  assert (Ews : (if Z.testbit b k then Some (spi_set it) else aset (spi_set it) i (Z.lor b (2 ^ k))) = Some ws).
  { unfold ws. destruct (Z.testbit b k); [done|]. rewrite <- Z.shiftl_1_l. apply aset_ok. lia. }
  rewrite Ews. cbn [mbind option_bind]. rewrite aset_ok by lia. cbn [mbind option_bind]. eexists. split; [done|]. split; [|done].
  set (qs := <[_ := _]> (spi_streams it)).
  assert (Huse : forall p, 0 <= p < 256 -> forall n c x q, in_use (SPI ws n c x q) p = in_use it p || (p =? sm_priority s)).
  { intros p Hp' n c x y. unfold ws. destruct (Z.testbit b k) eqn:Eb.
    - destruct (Z.eqb_spec p (sm_priority s)) as [->|]; [rewrite orb_true_r; exact Hin|by rewrite orb_false_r].
    - rewrite (in_use_or it _ i k b p) by done. by rewrite E. }
  split; [|split].
  - unfold sets_ok, ws. cbn [spi_set]. destruct (Z.testbit b k); [done|]. split; [by rewrite length_insert|].
    apply Forall_insert; [done|]. apply lor_u64; [|done]. apply aget_Some in Hb as [_ Hb]. by apply (Forall_lookup_1 _ _ _ _ Hu Hb).
  - unfold qs. cbn. by rewrite length_insert.
  - intros p Hp'. unfold held_at. rewrite Huse by done. destruct (Hh p Hp') as [Hold Hne]. unfold of_priority in *. rewrite List.filter_app. cbn.
    unfold queue, qs. cbn [spi_streams]. destruct (Z.eqb_spec p (sm_priority s)) as [->|Hnp].
    + rewrite orb_true_r, Z.eqb_refl, list_lookup_insert_eq by lia. cbn. rewrite <- Hold. unfold held_at. rewrite Hin, Eq.
      split; [by destruct (Z.testbit b k)|]. intros _. by destruct (Z.testbit b k), q.
    + rewrite orb_false_r, list_lookup_insert_ne by lia. replace (sm_priority s =? p) with false by lia. by rewrite app_nil_r.
Qed.

Lemma add_streams_ok more : forall it l, spi_holds it l -> spi_n_added it = Z.of_nat (length l) ->
  Forall (fun s => 0 <= sm_priority s < 256) more -> Z.of_nat (length (l ++ more)) < 2 ^ 32 ->
  exists it', add_streams it more = Some it' /\ spi_holds it' (l ++ more) /\ spi_n_added it' = Z.of_nat (length (l ++ more)).
Proof.
  induction more as [|s more IH]; intros it l Hit En Hall Hlen; cbn [add_streams]; [exists it; by rewrite app_nil_r|].
  apply Forall_cons in Hall as [Hs Hall]. destruct (add_stream_ok it l s Hit Hs) as (it1 & -> & H1 & En1). cbn [mbind option_bind].
  assert (E2 : l ++ s :: more = (l ++ [s]) ++ more) by (by rewrite <- app_assoc). rewrite E2 in *.
  apply (IH it1 (l ++ [s]) H1); [|done..]. rewrite En1, En, length_app. cbn [length]. rewrite wrapu_id; [lia|].
  rewrite length_app, length_app in Hlen. cbn [length] in Hlen. split; lia.
Qed.

Lemma in_use_empty p n c x q : 0 <= p < 256 -> in_use (SPI [0; 0; 0; 0] n c x q) p = false.
Proof.
  intros Hp. destruct (prio_parts p Hp) as (i & k & -> & Hi & Hk). rewrite in_use_parts by done.
  assert (i = 0 \/ i = 1 \/ i = 2 \/ i = 3) as E by lia. destruct E as [->|[->|[->| ->]]]; cbn; apply Z.bits_0.
Qed.

Lemma zeros_ok : length [0; 0; 0; 0] = 4%nat /\ Forall (is_u 64) [0; 0; 0; 0].
Proof. split; [done|]. by repeat (apply Forall_cons_2; [by split|]). Qed.

Lemma empty_holds : spi_holds spi_init_empty [].
Proof.
  split; [exact zeros_ok|]. split; [done|]. intros p Hp. unfold held_at, spi_init_empty. by rewrite in_use_empty.
Qed.

(** The iterator goes through the streams by priority. *)
Lemma concat_held it ps : concat (map (queue it) (List.filter (in_use it) ps)) = concat (map (held_at it) ps).
Proof.
  induction ps as [|p ps IH]; [done|]. cbn [map concat List.filter]. unfold held_at at 1.
  destruct (in_use it p); cbn [map concat]; by rewrite IH.
Qed.

Lemma holds_ok it l : spi_holds it l -> NoDup l -> spi_ok it /\ after it (-1) = by_priority l.
Proof.
  intros (Hs & Hl & Hh) Hnd. split.
  - split; [done|]. split; [done|]. intros p Hp Hu. destruct (Hh p Hp) as [Hold Hne]. specialize (Hne Hu). unfold held_at in *. rewrite Hu in *.
    split; [done|]. rewrite Hold. unfold of_priority. apply NoDup_ListNoDup, List.NoDup_filter. by apply NoDup_ListNoDup.
  - unfold after. rewrite concat_held. unfold by_priority. change (255 - -1) with 256. change (-1 + 1) with 0.
    replace (seqZ 0 256) with (map Z.of_nat (seq 0 256)) by reflexivity. f_equal. apply map_ext_in. intros p Hp.
    apply in_map_iff in Hp as (n & <- & Hn%in_seq). apply Hh. lia.
Qed.

Lemma spi_concat_insert s (F : Z -> list spi_stream) ps : NoDup ps ->
  concat (map (fun p => if sm_priority s =? p then s :: F p else F p) ps) ≡ₚ (if bool_decide (sm_priority s ∈ ps) then [s] else []) ++ concat (map F ps).
Proof.
  induction ps as [|p ps IH]; intros Hnd; [done|]. apply NoDup_cons in Hnd as [Hp Hnd]. cbn [map concat]. rewrite IH by done.
  destruct (Z.eqb_spec (sm_priority s) p) as [<-|Hne].
  - rewrite bool_decide_eq_false_2 by done. rewrite bool_decide_eq_true_2 by (by left). done.
  - rewrite (bool_decide_ext _ (sm_priority s ∈ p :: ps)) by set_solver. rewrite !app_assoc. f_equiv. apply Permutation_app_comm.
Qed.

Definition prios_ok (l : list spi_stream) : Prop := Forall (fun s => 0 <= sm_priority s < 256) l.

Lemma by_priority_perm l : prios_ok l -> by_priority l ≡ₚ l.
Proof.
  induction 1 as [|s l Hs _ IH]; [by vm_compute|]. transitivity (s :: by_priority l); [|by constructor]. unfold by_priority.
  pose proof (spi_concat_insert s (of_priority l) (map Z.of_nat (seq 0 256)) (NoDup_fmap_2 Z.of_nat _ (NoDup_seq 0 256))) as H.
  rewrite bool_decide_eq_true_2 in H; [exact H|]. apply list_elem_of_In, in_map_iff. exists (Z.to_nat (sm_priority s)).
  split; [lia|]. apply in_seq. lia.
Qed.

Lemma spi_all_by_priority it l fuel : spi_holds it l -> NoDup l -> prios_ok l -> (length l <= fuel)%nat ->
  spi_all fuel it = Some (by_priority l).
Proof.
  intros Hit Hnd Hp Hf. destruct (holds_ok it l Hit Hnd) as [Hok E]. rewrite <- E. apply spi_all_ok; [done|].
  rewrite E. by rewrite by_priority_perm.
Qed.

(** * Dropping queues *)

Lemma popcount_from_eq n : forall i v, popcount_from n i v = Z.of_nat (length (List.filter (Z.testbit v) (seqZ i (Z.of_nat n)))).
Proof.
  induction n as [|n IH]; intros i v; [done|]. cbn [popcount_from]. rewrite (seqZ_cons i) by lia.
  replace (Z.pred (Z.of_nat (S n))) with (Z.of_nat n) by lia. replace (Z.succ i) with (i + 1) by lia. cbn [List.filter].
  rewrite IH. destruct (Z.testbit v i); cbn [length b2z]; lia.
Qed.

Definition used (it : stream_prio_iter) : list Z := List.filter (in_use it) (seqZ 0 256).

Lemma filter_map_length {A B} (f : B -> bool) (g : A -> B) l :
  length (List.filter f (map g l)) = length (List.filter (fun x => f (g x)) l).
Proof. induction l as [|x l IH]; [done|]. cbn. destruct (f (g x)); cbn; by rewrite IH. Qed.

Lemma seqZ_shift m n : seqZ m n = map (fun k => m + k) (seqZ 0 n).
Proof. unfold seqZ. rewrite map_map. apply map_ext. intros a. lia. Qed.

Lemma used_word it i w : 0 <= i -> aget (spi_set it) i = Some w -> spi_popcount w = Z.of_nat (length (List.filter (in_use it) (seqZ (64 * i) 64))).
Proof.
  intros Hi Hw. unfold spi_popcount. rewrite popcount_from_eq. f_equal. rewrite (seqZ_shift (64 * i)), filter_map_length. f_equal.
  apply List.filter_ext_in. intros k Hk%list_elem_of_In%elem_of_seqZ. rewrite in_use_parts, Hw by lia. done.
Qed.

Lemma more_than_one_eq ws c : Forall (fun w => 0 <= spi_popcount w) ws -> c <= 1 ->
  more_than_one ws c = (1 <? c + foldr Z.add 0 (map spi_popcount ws)).
Proof.
  intros Hall. revert c. induction Hall as [|w ws Hw Hall IH]; intros c Hc; cbn [more_than_one map fold_right]; [lia|].
  assert (0 <= foldr Z.add 0 (map spi_popcount ws)) by (clear -Hall; induction Hall; cbn [map fold_right]; lia).
  destruct (Z.ltb_spec 1 (c + spi_popcount w)); [lia|]. rewrite IH by lia. f_equal. lia.
Qed.

Lemma used_count it : sets_ok it -> more_than_one (spi_set it) 0 = (1 <? Z.of_nat (length (used it))).
Proof.
  intros [Hl _]. assert (Hpos : forall w, 0 <= spi_popcount w) by (intros w; unfold spi_popcount; rewrite popcount_from_eq; lia).
  rewrite more_than_one_eq by (try lia; apply Forall_forall; auto). f_equal.
  destruct (spi_set it) as [|a [|b [|c [|d [|]]]]] eqn:E; try done. cbn [map fold_right].
  rewrite (used_word it 0 a), (used_word it 1 b), (used_word it 2 c), (used_word it 3 d) by (by rewrite ?E).
  unfold used. change 256 with (64 + (64 + (64 + 64))). rewrite !seqZ_app, !List.filter_app, !length_app by lia.
  change (0 + 64) with (64 * 1). change (64 * 1 + 64) with (64 * 2). change (64 * 2 + 64) with (64 * 3). change (64 * 0) with 0. lia.
Qed.

Lemma holds_in_use it l p : spi_holds it l -> 0 <= p < 256 -> in_use it p = true <-> exists s, In s l /\ sm_priority s = p.
Proof.
  intros (_ & _ & Hh) Hp. destruct (Hh p Hp) as [E Hne]. split.
  - intros Hu. specialize (Hne Hu). rewrite E in Hne. unfold of_priority in Hne. destruct (List.filter _ l) as [|s q] eqn:Ef; [done|].
    assert (In s (s :: q)) as Hin by (by left). rewrite <- Ef in Hin. apply filter_In in Hin as [? ?%Z.eqb_eq]. by exists s.
  - intros (s & Hs & Ep). unfold held_at in E. destruct (in_use it p); [done|]. exfalso.
    assert (In s (of_priority l p)) as Hin by (apply filter_In; split; [done|by apply Z.eqb_eq]). by rewrite <- E in Hin.
Qed.

Lemma in_used it p : In p (used it) <-> 0 <= p < 256 /\ in_use it p = true.
Proof. unfold used. rewrite filter_In, <- list_elem_of_In, elem_of_seqZ. naive_solver lia. Qed.

Lemma nodup_used it : List.NoDup (used it).
Proof. apply List.NoDup_filter, NoDup_ListNoDup, NoDup_seqZ. Qed.

(** Does the iterator hold streams of several priorities? *)
Lemma several_queues it l m : spi_holds it l -> spi_n_added it = Z.of_nat (length l) -> prios_ok l ->
  (exists s, In s l /\ sm_priority s = m) ->
  spi_has_more_than_one_queue it = negb (forallb (fun s => sm_priority s =? m) l).
Proof.
  intros Hit En Hp (s0 & Hs0 & E0). unfold spi_has_more_than_one_queue. rewrite En.
  assert (Hone : (length (used it) <= 1)%nat -> forallb (fun s => sm_priority s =? m) l = true).
  { intros Hlen. apply forallb_forall. intros s Hs. apply Z.eqb_eq.
    assert (Hin : forall s, In s l -> In (sm_priority s) (used it)).
    { intros x Hx. unfold prios_ok in Hp. rewrite Forall_forall in Hp. apply list_elem_of_In in Hx as Hx'. apply in_used. split; [by apply Hp|].
      apply (holds_in_use it l _ Hit (Hp _ Hx')). by exists x. }
    pose proof (Hin s Hs) as H1. pose proof (Hin s0 Hs0) as H2. rewrite E0 in H2. destruct (used it) as [|a [|]]; [done| |cbn in Hlen; lia].
    destruct H1 as [<-|[]], H2 as [<-|[]]. done. }
  destruct (Z.ltb_spec (Z.of_nat (length l)) 2) as [Hl|Hl].
  - destruct l as [|s [|]]; [done| |cbn in Hl; lia]. destruct Hs0 as [->|[]]. cbn. by rewrite E0, Z.eqb_refl.
  - rewrite used_count by (apply Hit). destruct (Z.ltb_spec 1 (Z.of_nat (length (used it)))) as [H1|H1]; [|by rewrite Hone by lia].
    symmetry. apply negb_true_iff. destruct (forallb _ l) eqn:Ef; [|done]. exfalso. rewrite forallb_forall in Ef.
    pose proof (nodup_used it) as Hnd. pose proof (in_used it) as Hu. destruct (used it) as [|a [|b u]]; [cbn in H1; lia..|].
    assert (Hm : forall x, In x (a :: b :: u) -> x = m).
    { intros x Hx. apply Hu in Hx as [Hx1 Hx2]. apply (holds_in_use it l x Hit Hx1) in Hx2 as (s & Hs & <-). by apply Z.eqb_eq, Ef. }
    inversion Hnd as [|? ? Ha _]. apply Ha. left. rewrite (Hm a), (Hm b); [done|right; by left|by left].
Qed.

(** A set with the single priority [m]. *)
Definition marks (ws : list Z) (m : Z) : Prop := (length ws = 4%nat /\ Forall (is_u 64) ws) /\
  forall p n c x q, 0 <= p < 256 -> in_use (SPI ws n c x q) p = (p =? m).

Lemma set_bit_ok ws m : 0 <= m < 256 -> length ws = 4%nat /\ Forall (is_u 64) ws ->
  exists ws', set_bit ws m = Some ws' /\ (length ws' = 4%nat /\ Forall (is_u 64) ws') /\
    forall p n c x q, 0 <= p < 256 -> in_use (SPI ws' n c x q) p = in_use (SPI ws n c x q) p || (p =? m).
Proof.
  intros Hm [Hl Hu]. destruct (prio_parts m Hm) as (i & k & -> & Hi & Hk). unfold set_bit. destruct (prio_join i k Hk) as [-> ->].
  destruct (aget_is_Some ws i ltac:(lia)) as [b Hb]. rewrite Hb. cbn [mbind option_bind]. rewrite aset_ok by lia. eexists. split; [done|].
  split; [split; [by rewrite length_insert|apply Forall_insert; [done|apply lor_u64; [|done]]]|].
  - apply aget_Some in Hb as [_ Hb]. by apply (Forall_lookup_1 _ _ _ _ Hu Hb).
  - intros p n c x q Hp. by rewrite (in_use_or (SPI ws n c x q) _ i k b p).
Qed.

Lemma least_unique it c a b : least_used it c (Some a) -> least_used it c b -> b = Some a.
Proof.
  intros (Ha & Ha1 & Ha2) Hb. destruct b as [b|]; cbn in Hb.
  - destruct Hb as (Hb & Hb1 & Hb2). destruct (Z.lt_trichotomy a b) as [H|[->|H]]; [|done|].
    + by rewrite Hb2 in Ha1 by lia.
    + by rewrite Ha2 in Hb1 by lia.
  - by rewrite Hb in Ha1 by lia.
Qed.

(** The part of [spi_drop_high_or_non_high] that makes the new set. *)
Lemma new_set_ok it m : spi_ok it -> least_used it (-1) (Some m) -> exists ns it',
  ('(_, it) ← find_and_set_lowest_priority it;
   new_set ← set_bit [0; 0; 0; 0] (spi_cur_prio it);
   have ← have_non_critical_streams it;
   (if (have : bool) then Some (new_set, it) else
    '(_, it) ← find_and_set_lowest_priority (with_cur it (u8 (spi_cur_prio it + 1)));
    new_set ← set_bit new_set (spi_cur_prio it);
    Some (new_set, it))) = Some (ns, it') /\ marks ns m /\ exists c, it' = with_cur it c.
Proof.
  intros Hok Hm. destruct (find_lowest_ok it (proj1 Hok)) as (r & Hr & ->). rewrite (least_unique _ _ _ _ Hm Hr). cbn [found mbind option_bind].
  destruct (id Hm) as (Hm1 & _ & _). destruct (set_bit_ok [0; 0; 0; 0] m ltac:(lia) zeros_ok) as (ns & E & Hns & Hin).
  cbn [with_cur spi_cur_prio]. rewrite E. cbn [mbind option_bind]. unfold have_non_critical_streams.
  rewrite (aget_queue (with_cur it m)) by (done || cbn; lia). cbn [mbind option_bind].
  assert (Hmarks : marks ns m) by (split; [done|]; intros p n c x q Hp; by rewrite Hin, in_use_empty by done).
  destruct (existsb _ _); [eexists _, _; split; [done|]; split; [done|by eexists]|].
  set (it2 := with_cur (with_cur it m) (u8 (m + 1))). destruct (find_lowest_ok it2 (proj1 Hok)) as (r2 & Hr2 & ->).
  rewrite (least_unique it2 (-1) m r2 Hm Hr2). cbn [found mbind option_bind with_cur spi_cur_prio].
  destruct (set_bit_ok ns m ltac:(lia) Hns) as (ns2 & E2 & Hns2 & Hin2). rewrite E2. cbn [mbind option_bind].
  eexists _, _. split; [done|]. split; [|by eexists]. split; [done|]. intros p n c x q Hp. rewrite Hin2 by done.
  rewrite (proj2 Hmarks) by done. apply orb_diag.
Qed.

Lemma ldiff_sets it ns m : sets_ok it -> marks ns m ->
  (length (zip_with Z.ldiff (spi_set it) ns) = 4%nat /\ Forall (is_u 64) (zip_with Z.ldiff (spi_set it) ns)) /\
  forall p n c x q, 0 <= p < 256 -> in_use (SPI (zip_with Z.ldiff (spi_set it) ns) n c x q) p = in_use it p && negb (p =? m).
Proof.
  intros [Hl Hu] [[Hln Hun] Hin]. split; [split; [rewrite length_zip_with; lia|]|].
  - apply Forall_lookup. intros i x Hx. apply lookup_zip_with_Some in Hx as (a & b & -> & Ha & _).
    pose proof (Forall_lookup_1 _ _ _ _ Hu Ha) as H1.
    enough (E : Z.ldiff a b = Z.ldiff a b mod 2 ^ 64) by (rewrite E; apply Z.mod_pos_bound; lia).
    apply Z.bits_inj'. intros k Hk. destruct (Z.lt_ge_cases k 64); [by rewrite Z.mod_pow2_bits_low|].
    rewrite Z.mod_pow2_bits_high by lia. rewrite <- (wrapu_id 64 a H1). unfold wrapu. by rewrite Z.ldiff_spec, Z.mod_pow2_bits_high by lia.
  - intros p n c x q Hp. destruct (prio_parts p Hp) as (i & k & E & Hi & Hk).
    rewrite <- (Hin p n c x q Hp). rewrite E, !in_use_parts by done. cbn [spi_set].
    destruct (aget_is_Some (spi_set it) i ltac:(lia)) as [a Ha]. destruct (aget_is_Some ns i ltac:(lia)) as [b Hb].
    assert (aget (zip_with Z.ldiff (spi_set it) ns) i = Some (Z.ldiff a b)) as ->.
    { apply aget_Some in Ha as [_ Ha], Hb as [_ Hb]. apply aget_Some. split; [lia|]. apply lookup_zip_with_Some. by exists a, b. }
    rewrite Ha, Hb. by rewrite Z.ldiff_spec.
Qed.

(** Fewer queues hold fewer streams. *)
Lemma holds_restrict it l ws (keep : Z -> bool) c : spi_holds it l -> (length ws = 4%nat /\ Forall (is_u 64) ws) ->
  (forall p n c x q, 0 <= p < 256 -> in_use (SPI ws n c x q) p = in_use it p && keep p) ->
  spi_holds (SPI ws (spi_n_added it) c (spi_next_stream it) (spi_streams it)) (List.filter (fun s => keep (sm_priority s)) l).
Proof.
  intros (Hs & Hl & Hh) Hws Hin. split; [done|]. split; [done|]. intros p Hp. destruct (Hh p Hp) as [E Hne]. unfold held_at in *.
  rewrite Hin by done. change (queue (SPI _ _ _ _ _) p) with (queue it p).
  assert (Ef : of_priority (List.filter (fun s => keep (sm_priority s)) l) p = if keep p then of_priority l p else []).
  { unfold of_priority. clear. induction l as [|s l IH]; [by destruct (keep p)|]. cbn [List.filter].
    destruct (Z.eqb_spec (sm_priority s) p) as [<-|Hsp].
    - destruct (keep (sm_priority s)); cbn [List.filter]; [rewrite Z.eqb_refl|]; by rewrite IH.
    - destruct (keep (sm_priority s)); cbn [List.filter]; [replace (sm_priority s =? p) with false by lia|]; by rewrite IH. }
  rewrite Ef. destruct (keep p); [by rewrite andb_true_r|]. by rewrite andb_false_r.
Qed.

Lemma spi_drop_ok it l m drop : spi_holds it l -> NoDup l -> spi_n_added it = Z.of_nat (length l) -> prios_ok l ->
  (exists s, In s l /\ sm_priority s = m) -> (forall s, In s l -> m <= sm_priority s) ->
  exists it', spi_drop_high_or_non_high it drop = Some it' /\
    spi_holds it' (if forallb (fun s => sm_priority s =? m) l then l
                   else List.filter (fun s => if drop then negb (sm_priority s =? m) else sm_priority s =? m) l).
Proof.
  intros Hit Hnd En Hp Hex Hmin. unfold spi_drop_high_or_non_high. rewrite (several_queues it l m) by done.
  destruct (forallb _ l) eqn:Ef; cbn [negb]; [by exists it|]. destruct (holds_ok it l Hit Hnd) as [Hok _].
  assert (Hm : 0 <= m < 256) by (destruct Hex as (s & Hs%list_elem_of_In & <-); unfold prios_ok in Hp; rewrite Forall_forall in Hp; by apply Hp).
  assert (Hleast : least_used it (-1) (Some m)).
  { split; [lia|]. split; [by apply (holds_in_use it l)|]. intros j Hj. destruct (in_use it j) eqn:Eu; [|done]. exfalso.
    apply (holds_in_use it l j Hit ltac:(lia)) in Eu as (s & Hs & <-). specialize (Hmin s Hs). lia. }
  destruct (new_set_ok it m Hok Hleast) as (ns & it' & E & Hmarks & c & ->).
  destruct (find_and_set_lowest_priority it) as [[? it1]|]; [|done]. cbn [mbind option_bind] in E |- *.
  destruct (set_bit [0; 0; 0; 0] (spi_cur_prio it1)) as [new|]; [|done]. cbn [mbind option_bind] in E |- *.
  destruct (have_non_critical_streams it1) as [have|]; [|done]. cbn [mbind option_bind] in E |- *. rewrite E. cbn [mbind option_bind].
  eexists. split; [done|]. cbn [with_cur spi_set spi_n_added spi_cur_prio spi_next_stream spi_streams]. destruct drop.
  - destruct (ldiff_sets it ns m (proj1 Hok) Hmarks) as [Hz Hin]. by apply (holds_restrict it l _ (fun p => negb (p =? m))).
  - apply (holds_restrict it l _ (fun p => p =? m)); [done|apply Hmarks|]. intros p n x y q Hp'. rewrite (proj2 Hmarks) by done.
    destruct (Z.eqb_spec p m) as [->|]; [|by rewrite andb_false_r]. rewrite andb_true_r. symmetry. apply Hleast.
Qed.

(** * Theorems *)

Lemma spi_init_ok l filter : Forall (fun s => 0 <= sm_priority s < 256) l -> Z.of_nat (length l) < 2 ^ 32 ->
  let l' := match filter with Some f => List.filter f l | None => l end in
  exists it, lsquic_spi_init l filter = Some it /\ spi_holds it l' /\ spi_n_added it = Z.of_nat (length l') /\
    prios_ok l' /\ (length l' <= length l)%nat.
Proof.
  intros Hp Hlen l'. assert (Hl' : prios_ok l' /\ (length l' <= length l)%nat).
  { unfold l'. destruct filter as [f|]; [|done]. split; [|apply filter_length_le].
    apply Forall_forall. intros s Hs%list_elem_of_In. apply filter_In in Hs as [Hs%list_elem_of_In _]. rewrite Forall_forall in Hp. by apply Hp. }
  destruct (add_streams_ok l' spi_init_empty [] empty_holds eq_refl (proj1 Hl')) as (it & E & Hit & En); [cbn; lia|].
  exists it. done.
Qed.

(** an iterator made of any streams, with or without a filter, returns each of
    the streams exactly once, ordered by priority and, within a priority, in the
    order in which they were added; dropping the streams that do not have the
    highest priority leaves those of the least number, and dropping those leaves the
    others, unless there is one priority only. *)
Theorem spi_iterates l filter m :
  NoDup l -> Forall (fun s => 0 <= sm_priority s < 256) l -> Z.of_nat (length l) < 2 ^ 32 ->
  let l' := match filter with Some f => List.filter f l | None => l end in
  (exists s, In s l' /\ sm_priority s = m) -> (forall s, In s l' -> m <= sm_priority s) ->
  exists it high low, lsquic_spi_init l filter = Some it /\
    spi_all (length l) it = Some (by_priority l') /\ by_priority l' ≡ₚ l' /\
    lsquic_spi_drop_non_high it = Some high /\
    spi_all (length l) high = Some (by_priority (List.filter (fun s => sm_priority s =? m) l')) /\
    lsquic_spi_drop_high it = Some low /\
    spi_all (length l) low = Some (by_priority (if forallb (fun s => sm_priority s =? m) l' then l'
                                                else List.filter (fun s => negb (sm_priority s =? m)) l')).
Proof.
  intros Hnd Hp Hlen l' Hex Hmin. destruct (spi_init_ok l filter Hp Hlen) as (it & E & Hit & En & Hp' & Hl'). fold l' in Hit, En, Hp', Hl'.
  assert (Hnd' : NoDup l') by (unfold l'; destruct filter; [apply NoDup_ListNoDup, List.NoDup_filter; by apply NoDup_ListNoDup|done]).
  assert (Hsub : forall f it', spi_holds it' (List.filter f l') -> spi_all (length l) it' = Some (by_priority (List.filter f l'))).
  { intros f it' H. apply spi_all_by_priority; [done|apply NoDup_ListNoDup, List.NoDup_filter; by apply NoDup_ListNoDup| |].
    - apply Forall_forall. intros s Hs%list_elem_of_In. apply filter_In in Hs as [Hs%list_elem_of_In _].
      unfold prios_ok in Hp'. rewrite Forall_forall in Hp'. by apply Hp'.
    - pose proof (filter_length_le f l'). lia. }
  destruct (spi_drop_ok it l' m false Hit Hnd' En Hp' Hex Hmin) as (high & Eh & Hh).
  destruct (spi_drop_ok it l' m true Hit Hnd' En Hp' Hex Hmin) as (low & El & Hlow).
  exists it, high, low. split; [done|]. split; [by apply spi_all_by_priority|]. split; [by apply by_priority_perm|].
  split; [done|]. split; [|split; [done|]].
  - destruct (forallb _ l') eqn:Ef; [|by apply Hsub].
    assert (Eall : List.filter (fun s => sm_priority s =? m) l' = l').
    { clear -Ef. induction l' as [|s l' IH]; [done|]. cbn in *. apply andb_true_iff in Ef as [-> Ef]. by rewrite IH. }
    rewrite Eall. by apply spi_all_by_priority.
  - destruct (forallb _ l'); [by apply spi_all_by_priority|by apply Hsub].
Qed.

Lemma spi_iterates_witness :
  let l' := List.filter (fun s => negb (st_critical s)) demo_streams in
  exists it high low, lsquic_spi_init demo_streams (Some (fun s => negb (st_critical s))) = Some it /\
    spi_all (length demo_streams) it = Some (by_priority l') /\ by_priority l' ≡ₚ l' /\
    lsquic_spi_drop_non_high it = Some high /\
    spi_all (length demo_streams) high = Some (by_priority (List.filter (fun s => sm_priority s =? 3) l')) /\
    lsquic_spi_drop_high it = Some low /\
    spi_all (length demo_streams) low = Some (by_priority (if forallb (fun s => sm_priority s =? 3) l' then l'
                                                else List.filter (fun s => negb (sm_priority s =? 3)) l')).
Proof.
  apply (spi_iterates demo_streams (Some (fun s => negb (st_critical s))) 3).
  - apply (bool_decide_unpack _). by vm_compute.
  - apply (bool_decide_unpack _). by vm_compute.
  - by vm_compute.
  - exists (ST 2 3 false). split; [cbn; tauto|done].
  - intros s Hs. cbn in Hs. destruct Hs as [<-|[<-|[<-|[<-|[]]]]]; cbn; lia.
Defined.

(** A finding: when the queue of the highest priority has critical streams only, the
    next queue is to be kept, too; the search starts again at the lowest number and
    finds the same queue. *)
Lemma spi_critical_only :
  (it ← lsquic_spi_init [ST 1 0 true; ST 2 10 false; ST 3 20 false] None;
   high ← lsquic_spi_drop_non_high it; spi_all 5 high) = Some [ST 1 0 true].
Proof. vm_compute. reflexivity. Qed.
