(* ===== verification/Hpi.v ===== *)
(** The iterator over HTTP priorities (lsquic_hpi.c): streams by urgency, those that
    are not incremental in the order of their identifiers, which a min heap
    ([Heap]) finds, then the incremental ones. *)
From Stdlib Require Import Sorted.
From S2P Require Import Prelude Heap.
Local Open Scope Z_scope.

Definition LSQUIC_MAX_HTTP_URGENCY : Z := 7.
Definition N_HPI_PRIORITIES : Z := 2 + LSQUIC_MAX_HTTP_URGENCY.

(** What the iterator reads of a stream; [hs_ptr] is the pointer. *)
Record hpi_stream := HS { hs_ptr : Z; hs_id : Z; hs_critical : bool; hs_priority : Z; hs_incremental : bool }.

(** Where the elements of the heap are. *)
Inductive heap_mem := MemNone | MemStack | Mem4K | MemMalloc.

Record http_prio_iter := HPI {
  hpi_set0 : Z; (** hpi_set[0]: buckets of streams that are not incremental *)
  hpi_set1 : Z; (** hpi_set[1]: buckets of incremental streams *)
  hpi_counts : list Z;
  hpi_heaped : Z;
  hpi_streams0 : list (list hpi_stream);
  hpi_streams1 : list (list hpi_stream);
  hpi_min_heap : min_heap;
  hpi_mem : heap_mem
}.

Definition hpi_init_empty : http_prio_iter :=
  HPI 0 0 (replicate 9 0) 0 (replicate 9 []) (replicate 9 []) (MH [] 0) MemNone.

Definition hpi_prio (s : hpi_stream) : Z :=
  if hs_critical s then 0 else 1 + (if hs_priority s <? LSQUIC_MAX_HTTP_URGENCY then hs_priority s else LSQUIC_MAX_HTTP_URGENCY).
Definition hpi_incr (s : hpi_stream) : bool := hs_critical s || hs_incremental s.

(** [1u << prio] *)
Definition pbit (prio : Z) : Z := Z.shiftl 1 prio.

(** [None]: an index out of bounds. *)
Definition add_stream_to_hpi (it : http_prio_iter) (s : hpi_stream) : option http_prio_iter :=
  let prio := hpi_prio s in
  if hpi_incr s then
    q ← aget (hpi_streams1 it) prio;
    streams ← aset (hpi_streams1 it) prio ((if has_flag (hpi_set1 it) (pbit prio) then q else []) ++ [s]);
    Some (HPI (hpi_set0 it) (Z.lor (hpi_set1 it) (pbit prio)) (hpi_counts it) (hpi_heaped it) (hpi_streams0 it) streams
            (hpi_min_heap it) (hpi_mem it))
  else
    q ← aget (hpi_streams0 it) prio;
    n ← aget (hpi_counts it) prio;
    let present := has_flag (hpi_set0 it) (pbit prio) in
    counts ← aset (hpi_counts it) prio (u32 ((if present then n else 0) + 1));
    streams ← aset (hpi_streams0 it) prio ((if present then q else []) ++ [s]);
    Some (HPI (Z.lor (hpi_set0 it) (pbit prio)) (hpi_set1 it) counts (hpi_heaped it) streams (hpi_streams1 it)
            (hpi_min_heap it) (hpi_mem it)).

Fixpoint hpi_add_streams (it : http_prio_iter) (l : list hpi_stream) : option http_prio_iter :=
  match l with [] => Some it | s :: l => it ← add_stream_to_hpi it s; hpi_add_streams it l end.

Definition lsquic_hpi_init (l : list hpi_stream) (filter : option (hpi_stream -> bool)) : option http_prio_iter :=
  hpi_add_streams hpi_init_empty (match filter with Some f => List.filter f l | None => l end).

(** Number of trailing zeroes. *)
Definition ntz : list Z :=
  [9; 0; 1; 0; 2; 0; 1; 0; 3; 0; 1; 0; 2; 0; 1; 0; 4; 0; 1; 0; 2; 0; 1; 0; 3; 0; 1; 0; 2; 0; 1; 0;
   5; 0; 1; 0; 2; 0; 1; 0; 3; 0; 1; 0; 2; 0; 1; 0; 4; 0; 1; 0; 2; 0; 1; 0; 3; 0; 1; 0; 2; 0; 1; 0;
   6; 0; 1; 0; 2; 0; 1; 0; 3; 0; 1; 0; 2; 0; 1; 0; 4; 0; 1; 0; 2; 0; 1; 0; 3; 0; 1; 0; 2; 0; 1; 0;
   5; 0; 1; 0; 2; 0; 1; 0; 3; 0; 1; 0; 2; 0; 1; 0; 4; 0; 1; 0; 2; 0; 1; 0; 3; 0; 1; 0; 2; 0; 1; 0;
   7; 0; 1; 0; 2; 0; 1; 0; 3; 0; 1; 0; 2; 0; 1; 0; 4; 0; 1; 0; 2; 0; 1; 0; 3; 0; 1; 0; 2; 0; 1; 0;
   5; 0; 1; 0; 2; 0; 1; 0; 3; 0; 1; 0; 2; 0; 1; 0; 4; 0; 1; 0; 2; 0; 1; 0; 3; 0; 1; 0; 2; 0; 1; 0;
   6; 0; 1; 0; 2; 0; 1; 0; 3; 0; 1; 0; 2; 0; 1; 0; 4; 0; 1; 0; 2; 0; 1; 0; 3; 0; 1; 0; 2; 0; 1; 0;
   5; 0; 1; 0; 2; 0; 1; 0; 3; 0; 1; 0; 2; 0; 1; 0; 4; 0; 1; 0; 2; 0; 1; 0; 3; 0; 1; 0; 2; 0; 1; 0;
   8; 0; 1; 0; 2; 0; 1; 0; 3; 0; 1; 0; 2; 0; 1; 0; 4; 0; 1; 0; 2; 0; 1; 0; 3; 0; 1; 0; 2; 0; 1; 0;
   5; 0; 1; 0; 2; 0; 1; 0; 3; 0; 1; 0; 2; 0; 1; 0; 4; 0; 1; 0; 2; 0; 1; 0; 3; 0; 1; 0; 2; 0; 1; 0;
   6; 0; 1; 0; 2; 0; 1; 0; 3; 0; 1; 0; 2; 0; 1; 0; 4; 0; 1; 0; 2; 0; 1; 0; 3; 0; 1; 0; 2; 0; 1; 0;
   5; 0; 1; 0; 2; 0; 1; 0; 3; 0; 1; 0; 2; 0; 1; 0; 4; 0; 1; 0; 2; 0; 1; 0; 3; 0; 1; 0; 2; 0; 1; 0;
   7; 0; 1; 0; 2; 0; 1; 0; 3; 0; 1; 0; 2; 0; 1; 0; 4; 0; 1; 0; 2; 0; 1; 0; 3; 0; 1; 0; 2; 0; 1; 0;
   5; 0; 1; 0; 2; 0; 1; 0; 3; 0; 1; 0; 2; 0; 1; 0; 4; 0; 1; 0; 2; 0; 1; 0; 3; 0; 1; 0; 2; 0; 1; 0;
   6; 0; 1; 0; 2; 0; 1; 0; 3; 0; 1; 0; 2; 0; 1; 0; 4; 0; 1; 0; 2; 0; 1; 0; 3; 0; 1; 0; 2; 0; 1; 0;
   5; 0; 1; 0; 2; 0; 1; 0; 3; 0; 1; 0; 2; 0; 1; 0; 4; 0; 1; 0; 2; 0; 1; 0; 3; 0; 1; 0; 2; 0; 1; 0].

(** The priority and whether the bucket is that of incremental streams; [None]: the
    index is not in the table. *)
Definition calc_next_prio_and_incr (it : http_prio_iter) : option (Z * bool) :=
  p0 ← aget ntz (hpi_set0 it);
  p1 ← aget ntz (hpi_set1 it);
  Some (if p0 <=? p1 then (p0, false) else (p1, true)).

Definition next_incr (it : http_prio_iter) (prio : Z) : option (Z * http_prio_iter) :=
  q ← aget (hpi_streams1 it) prio;
  match q with
  | [] => None
  | s :: q =>
    streams ← aset (hpi_streams1 it) prio q;
    Some (hs_ptr s, HPI (hpi_set0 it) (match q with [] => Z.ldiff (hpi_set1 it) (pbit prio) | _ => hpi_set1 it end) (hpi_counts it)
                      (hpi_heaped it) (hpi_streams0 it) streams (hpi_min_heap it) (hpi_mem it))
  end.

Definition with_heap (it : http_prio_iter) (h : min_heap) (m : heap_mem) (heaped set0 : Z) : http_prio_iter :=
  HPI set0 (hpi_set1 it) (hpi_counts it) heaped (hpi_streams0 it) (hpi_streams1 it) h m.

Fixpoint heap_insert_all (h : min_heap) (q : list hpi_stream) : option min_heap :=
  match q with [] => Some h | s :: q => h ← lsquic_mh_insert h (hs_ptr s) (hs_id s); heap_insert_all h q end.

(** [sizeof(struct min_heap_elem)] is 16.  The result is false when there is no
    memory.  [lsquic_hpi_heap_test], which tests can set, has its initial value. *)
Definition heap_nonincr_bucket (it : http_prio_iter) (prio : Z) (ms : list bool) : option (bool * http_prio_iter * list bool) :=
  n ← aget (hpi_counts it) prio;
  q ← aget (hpi_streams0 it) prio;
  let '(ok, mem, ms) :=
    if n <=? 236 then (true, MemStack, ms)
    else let '(ok, ms) := malloc ms in (ok, if n * 16 <=? 4096 then Mem4K else MemMalloc, ms) in
  if negb ok then Some (false, it, ms) else
  h ← heap_insert_all (MH (mh_elems (hpi_min_heap it)) (Z.to_nat n)) q;
  Some (true, with_heap it h mem (Z.lor (hpi_heaped it) (pbit prio)) (hpi_set0 it), ms).

(** The label [pop_stream]; the heap is not empty. *)
Definition pop_stream (it : http_prio_iter) (prio : Z) : option (Z * http_prio_iter) :=
  '(s, h) ← lsquic_mh_pop (hpi_min_heap it);
  s ← s;
  Some (s, if (mh_nelem h =? 0)%nat then with_heap it h MemNone (hpi_heaped it) (Z.ldiff (hpi_set0 it) (pbit prio))
           else with_heap it h (hpi_mem it) (hpi_heaped it) (hpi_set0 it)).

(** The label [first_stream]. *)
Definition first_stream (it : http_prio_iter) (prio : Z) : option (Z * http_prio_iter) :=
  q ← aget (hpi_streams0 it) prio;
  match q with
  | [] => None
  | s :: q =>
    streams ← aset (hpi_streams0 it) prio q;
    Some (hs_ptr s, HPI (match q with [] => Z.ldiff (hpi_set0 it) (pbit prio) | _ => hpi_set0 it end) (hpi_set1 it) (hpi_counts it)
                      (hpi_heaped it) streams (hpi_streams1 it) (hpi_min_heap it) (hpi_mem it))
  end.

Definition next_nonincr (it : http_prio_iter) (prio : Z) (ms : list bool) : option (Z * http_prio_iter * list bool) :=
  if has_flag (hpi_heaped it) (pbit prio) then '(s, it) ← pop_stream it prio; Some (s, it, ms) else
  n ← aget (hpi_counts it) prio;
  if 1 <? n then
    '(ok, it, ms) ← heap_nonincr_bucket it prio ms;
    if (ok : bool) then '(s, it) ← pop_stream it prio; Some (s, it, ms) else
    counts ← aset (hpi_counts it) prio 1;
    '(s, it) ← first_stream (HPI (hpi_set0 it) (hpi_set1 it) counts (hpi_heaped it) (hpi_streams0 it) (hpi_streams1 it)
                              (hpi_min_heap it) (hpi_mem it)) prio;
    Some (s, it, ms)
  else '(s, it) ← first_stream it prio; Some (s, it, ms).

(** The inner [None] is NULL. *)
Definition lsquic_hpi_next (it : http_prio_iter) (ms : list bool) : option (option (Z * http_prio_iter * list bool)) :=
  '(prio, incr) ← calc_next_prio_and_incr it;
  if N_HPI_PRIORITIES <=? prio then Some None else
  if (incr : bool) then '(s, it) ← next_incr it prio; Some (Some (s, it, ms))
  else '(s, it, ms) ← next_nonincr it prio ms; Some (Some (s, it, ms)).

(** The assertions. *)
Definition lsquic_hpi_first (it : http_prio_iter) (ms : list bool) : option (option (Z * http_prio_iter * list bool)) :=
  if (Z.ldiff (hpi_set0 it) 511 =? 0) && (Z.ldiff (hpi_set1 it) 511 =? 0) then lsquic_hpi_next it ms else None.

Fixpoint hpi_bits (n : nat) (i v : Z) : Z :=
  match n with O => 0 | S n => b2z (Z.testbit v i) + hpi_bits n (i + 1) v end.

Definition hpi_drop_high_or_non_high (it : http_prio_iter) (drop_high : bool) : option http_prio_iter :=
  let set s0 s1 := HPI s0 s1 (hpi_counts it) (hpi_heaped it) (hpi_streams0 it) (hpi_streams1 it) (hpi_min_heap it) (hpi_mem it) in
  if hpi_bits 32 0 (hpi_set0 it) + hpi_bits 32 0 (hpi_set1 it) <? 2 then Some it else
  '(prio, incr) ← calc_next_prio_and_incr it;
  Some (if drop_high then
          if (incr : bool) then set (hpi_set0 it) (Z.ldiff (hpi_set1 it) (pbit prio)) else set (Z.ldiff (hpi_set0 it) (pbit prio)) (hpi_set1 it)
        else if (incr : bool) then set 0 (pbit prio) else set (pbit prio) 0).

Definition lsquic_hpi_drop_high (it : http_prio_iter) : option http_prio_iter := hpi_drop_high_or_non_high it true.
Definition lsquic_hpi_drop_non_high (it : http_prio_iter) : option http_prio_iter := hpi_drop_high_or_non_high it false.

(** [for (s = first(); s; s = next())] *)
Fixpoint hpi_rest (fuel : nat) (it : http_prio_iter) (ms : list bool) : option (list Z) :=
  match fuel with
  | O => None
  | S fuel =>
    r ← lsquic_hpi_next it ms;
    match (r : option (Z * http_prio_iter * list bool)) with
    | None => Some []
    | Some (s, it, ms) => l ← hpi_rest fuel it ms; Some (s :: l)
    end
  end.

Definition hpi_all (fuel : nat) (it : http_prio_iter) (ms : list bool) : option (list Z) :=
  r ← lsquic_hpi_first it ms;
  match (r : option (Z * http_prio_iter * list bool)) with
  | None => Some []
  | Some (s, it, ms) => l ← hpi_rest fuel it ms; Some (s :: l)
  end.

Definition demo_hpi : list hpi_stream :=
  [HS 1 40 false 3 false; HS 2 8 false 3 true; HS 3 4 false 9 false; HS 4 0 true 0 false; HS 5 12 false 3 false; HS 6 16 false 3 false].

Example hpi_demo : (it ← lsquic_hpi_init demo_hpi None; hpi_all 10 it []) = Some [4; 5; 6; 1; 2; 3].
Proof. vm_compute. reflexivity. Qed.

(** * Bit masks of nine buckets *)

Definition is_set9 (s : Z) : Prop := 0 <= s < 512.

Lemma pbit_eq p : pbit p = 2 ^ p.
Proof. apply Z.shiftl_1_l. Qed.

Lemma has_pbit s p : 0 <= p -> has_flag s (pbit p) = Z.testbit s p.
Proof. intros Hp. rewrite pbit_eq. by apply has_bit. Qed.

Lemma set9_bits s : 0 <= s -> is_set9 s <-> forall j, 9 <= j -> Z.testbit s j = false.
Proof.
  intros Hs. unfold is_set9. change 512 with (2 ^ 9). split.
  - intros [_ H] j Hj. rewrite <- (Z.mod_small s (2 ^ 9)) by lia. by apply Z.mod_pow2_bits_high.
  - intros H. split; [done|]. replace s with (s mod 2 ^ 9); [apply Z.mod_pos_bound; lia|]. apply Z.bits_inj'. intros j Hj.
    destruct (Z.lt_ge_cases j 9); [by rewrite Z.mod_pow2_bits_low|]. by rewrite Z.mod_pow2_bits_high, H by lia.
Qed.

Lemma ldiff_pbit s p j : 0 <= p -> 0 <= j -> Z.testbit (Z.ldiff s (pbit p)) j = Z.testbit s j && negb (j =? p).
Proof. intros Hp Hj. rewrite Z.ldiff_spec, pbit_eq, Z.pow2_bits_eqb by done. by rewrite (Z.eqb_sym p j). Qed.

Lemma lor_pbit s p j : 0 <= p -> 0 <= j -> Z.testbit (Z.lor s (pbit p)) j = Z.testbit s j || (j =? p).
Proof. intros Hp Hj. rewrite Z.lor_spec, pbit_eq, Z.pow2_bits_eqb by done. by rewrite (Z.eqb_sym p j). Qed.

Lemma ldiff_set9 s p : is_set9 s -> 0 <= p -> is_set9 (Z.ldiff s (pbit p)).
Proof.
  intros Hs Hp. assert (0 <= Z.ldiff s (pbit p)) as H0 by (apply Z.ldiff_nonneg; left; apply Hs). apply set9_bits; [done|].
  intros j Hj. rewrite ldiff_pbit by lia. by rewrite (proj1 (set9_bits s (proj1 Hs)) Hs j Hj).
Qed.

Lemma lor_set9 s p : is_set9 s -> 0 <= p < 9 -> is_set9 (Z.lor s (pbit p)).
Proof.
  intros Hs Hp. assert (0 <= Z.lor s (pbit p)) as H0 by (apply Z.lor_nonneg; rewrite pbit_eq; split; [apply Hs|lia]). apply set9_bits; [done|].
  intros j Hj. rewrite lor_pbit by lia. rewrite (proj1 (set9_bits s (proj1 Hs)) Hs j Hj). cbn. lia.
Qed.

Lemma set9_zero s : is_set9 s -> (forall j, 0 <= j < 9 -> Z.testbit s j = false) -> s = 0.
Proof.
  intros Hs H. apply Z.bits_inj'. intros j Hj. rewrite Z.bits_0. destruct (Z.lt_ge_cases j 9); [apply H; lia|].
  by apply (proj1 (set9_bits s (proj1 Hs)) Hs).
Qed.

(** The table is right. *)
Definition ntz_entry_ok (x : Z) : bool :=
  match aget ntz x with
  | Some k => if x =? 0 then k =? 9 else (0 <=? k) && (k <? 9) && Z.testbit x k && forallb (fun j => negb (Z.testbit x j)) (seqZ 0 k)
  | None => false
  end.

Lemma ntz_ok s : is_set9 s -> exists k, aget ntz s = Some k /\ 0 <= k <= 9 /\
  (k < 9 -> Z.testbit s k = true) /\ forall j, 0 <= j < k -> Z.testbit s j = false.
Proof.
  intros Hs. assert (forallb ntz_entry_ok (seqZ 0 512) = true) as H by (vm_compute; reflexivity).
  rewrite forallb_forall in H. specialize (H s ltac:(apply list_elem_of_In, elem_of_seqZ; unfold is_set9 in Hs; lia)). unfold ntz_entry_ok in H.
  destruct (aget ntz s) as [k|]; [|done]. exists k. split; [done|]. destruct (Z.eqb_spec s 0) as [->|].
  - apply Z.eqb_eq in H as ->. split; [lia|]. split; [lia|]. intros j _. apply Z.bits_0.
  - rewrite !andb_true_iff in H. destruct H as [[[H1 H2] H3] H4]. split; [lia|]. split; [done|]. intros j Hj. rewrite forallb_forall in H4.
    apply negb_true_iff, H4, list_elem_of_In, elem_of_seqZ. lia.
Qed.

(** * What is left to iterate over *)

Definition elem_of (s : hpi_stream) : min_heap_elem := MHE (hs_ptr s) (hs_id s).

Definition bucket0 (it : http_prio_iter) (p : Z) : list hpi_stream := default [] (hpi_streams0 it !! Z.to_nat p).
Definition bucket1 (it : http_prio_iter) (p : Z) : list hpi_stream := default [] (hpi_streams1 it !! Z.to_nat p).

(** The streams of a priority that are not incremental, in the heap or in the
    bucket, and those that are. *)
Definition nonincr (it : http_prio_iter) (p : Z) : list min_heap_elem :=
  if Z.testbit (hpi_set0 it) p then
    if Z.testbit (hpi_heaped it) p then mh_elems (hpi_min_heap it) else map elem_of (bucket0 it p)
  else [].
Definition incr (it : http_prio_iter) (p : Z) : list hpi_stream := if Z.testbit (hpi_set1 it) p then bucket1 it p else [].

(** The heap is that of the bucket whose turn it is. *)
Record hpi_ok (it : http_prio_iter) : Prop := {
  ho_set0 : is_set9 (hpi_set0 it);
  ho_set1 : is_set9 (hpi_set1 it);
  ho_lengths : length (hpi_counts it) = 9%nat /\ length (hpi_streams0 it) = 9%nat /\ length (hpi_streams1 it) = 9%nat;
  ho_incr : forall p, 0 <= p < 9 -> Z.testbit (hpi_set1 it) p = true -> bucket1 it p <> [];
  ho_nonincr : forall p, 0 <= p < 9 -> Z.testbit (hpi_set0 it) p = true -> nonincr it p <> [];
  ho_heap : heap mhe_val (mh_elems (hpi_min_heap it));
  ho_current : forall p, 0 <= p < 9 -> Z.testbit (hpi_set0 it) p = true -> Z.testbit (hpi_heaped it) p = true ->
    forall j, 0 <= j < p -> Z.testbit (hpi_set0 it) j = false /\ Z.testbit (hpi_set1 it) j = false;
  ho_owner : mh_elems (hpi_min_heap it) <> [] -> exists p, 0 <= p < 9 /\ Z.testbit (hpi_set0 it) p = true /\ Z.testbit (hpi_heaped it) p = true;
  ho_counts : forall p n, 0 <= p < 9 -> Z.testbit (hpi_set0 it) p = true -> Z.testbit (hpi_heaped it) p = false ->
    aget (hpi_counts it) p = Some n -> n = Z.of_nat (length (bucket0 it p)) \/ n = 1
}.

Definition le_val (a b : min_heap_elem) : Prop := mhe_val a <= mhe_val b.

(** The order [N] in which the streams of bucket [p] come: by identifier from a heap, in
    the order of the bucket when its count is 1, which an allocation that fails makes
    it. *)
Definition ordered (it : http_prio_iter) (ms : list bool) (p : Z) (N : list min_heap_elem) : Prop :=
  Z.testbit (hpi_set0 it) p = true ->
  (Z.testbit (hpi_heaped it) p = true -> StronglySorted le_val N) /\
  (Z.testbit (hpi_heaped it) p = false -> forall n, aget (hpi_counts it) p = Some n ->
    if n =? 1 then N = nonincr it p else StronglySorted le_val N \/ (false ∈ ms /\ 236 < n /\ N = nonincr it p)).

(** One stream is taken from bucket [p], the first with streams in it. *)
Definition takes0 (it : http_prio_iter) (ms : list bool) (p : Z) (e : min_heap_elem) (it' : http_prio_iter) (ms' : list bool) : Prop :=
  hpi_ok it' /\ nonincr it p ≡ₚ e :: nonincr it' p /\
  (forall j, 0 <= j < 9 -> j <> p -> nonincr it' j = nonincr it j) /\ (forall j, 0 <= j < 9 -> incr it' j = incr it j) /\
  (forall N, N ≡ₚ nonincr it' p -> ordered it' ms' p N -> ordered it ms p (e :: N)) /\
  (forall j N, 0 <= j < 9 -> j <> p -> ordered it' ms' j N -> ordered it ms j N).

Lemma aget_bucket0 it p : hpi_ok it -> 0 <= p < 9 -> aget (hpi_streams0 it) p = Some (bucket0 it p).
Proof.
  intros Hok Hp. destruct (ho_lengths _ Hok) as (_ & Hl & _). destruct (aget_is_Some (hpi_streams0 it) p ltac:(lia)) as [q Hq].
  rewrite Hq. apply aget_Some in Hq as [_ Hq]. unfold bucket0. by rewrite Hq.
Qed.

Lemma aget_bucket1 it p : hpi_ok it -> 0 <= p < 9 -> aget (hpi_streams1 it) p = Some (bucket1 it p).
Proof.
  intros Hok Hp. destruct (ho_lengths _ Hok) as (_ & _ & Hl). destruct (aget_is_Some (hpi_streams1 it) p ltac:(lia)) as [q Hq].
  rewrite Hq. apply aget_Some in Hq as [_ Hq]. unfold bucket1. by rewrite Hq.
Qed.

(** ** The heap *)

Lemma pop_stream_ok it ms p : hpi_ok it -> 0 <= p < 9 -> Z.testbit (hpi_set0 it) p = true -> Z.testbit (hpi_heaped it) p = true ->
  exists e it', pop_stream it p = Some (mhe_item e, it') /\ takes0 it ms p e it' ms.
Proof.
  intros Hok Hp Hs Hh. assert (En : nonincr it p = mh_elems (hpi_min_heap it)) by (unfold nonincr; by rewrite Hs, Hh).
  pose proof (ho_nonincr _ Hok p Hp Hs) as Hne. rewrite En in Hne.
  destruct (mh_elems (hpi_min_heap it)) as [|top l] eqn:El; [done|].
  destruct (mh_pop_ok (hpi_min_heap it) top l (ho_heap _ Hok) El) as (h & E & Hheap & Hperm & _). unfold pop_stream. rewrite E. cbn [mbind option_bind].
  assert (Huniq : forall j, 0 <= j < 9 -> j <> p -> Z.testbit (hpi_set0 it) j = true -> Z.testbit (hpi_heaped it) j = false).
  { intros j Hj Hjp Hj0. destruct (Z.testbit (hpi_heaped it) j) eqn:Ej; [|done]. exfalso. destruct (Z.lt_trichotomy j p) as [Hlt|[?|Hlt]]; [|done|].
    - destruct (ho_current _ Hok p Hp Hs Hh j ltac:(lia)) as [H _]. congruence.
    - destruct (ho_current _ Hok j Hj Hj0 Ej p ltac:(lia)) as [H _]. congruence. }
  set (set0 := if (mh_nelem h =? 0)%nat then Z.ldiff (hpi_set0 it) (pbit p) else hpi_set0 it).
  set (mem := if (mh_nelem h =? 0)%nat then MemNone else hpi_mem it).
  set (it' := with_heap it h mem (hpi_heaped it) set0).
  assert (Hit : (if (mh_nelem h =? 0)%nat then with_heap it h MemNone (hpi_heaped it) (Z.ldiff (hpi_set0 it) (pbit p))
                 else with_heap it h (hpi_mem it) (hpi_heaped it) (hpi_set0 it)) = it') by (unfold it', set0, mem; by destruct (mh_nelem h =? 0)%nat).
  rewrite Hit. exists top, it'. split; [done|].
  assert (Hset : forall j, 0 <= j < 9 -> Z.testbit set0 j = Z.testbit (hpi_set0 it) j && negb ((j =? p) && (mh_nelem h =? 0)%nat)).
  { intros j Hj. unfold set0. destruct (mh_nelem h =? 0)%nat; [rewrite ldiff_pbit by lia; by rewrite andb_true_r|by rewrite andb_false_r, andb_true_r]. }
  assert (Hnp : nonincr it' p = mh_elems h).
  { unfold nonincr, it'. cbn. rewrite Hset, Hs, Hh, Z.eqb_refl by lia. unfold mh_nelem. destruct (mh_elems h); done. }
  assert (Hnj : forall j, 0 <= j < 9 -> j <> p -> nonincr it' j = nonincr it j).
  { intros j Hj Hjp. unfold nonincr, it'. cbn. rewrite Hset by done. replace (j =? p) with false by lia. cbn. rewrite andb_true_r.
    destruct (Z.testbit (hpi_set0 it) j) eqn:Ej; [|done]. by rewrite (Huniq j Hj Hjp Ej). }
  assert (Hsub : forall j, 0 <= j < 9 -> Z.testbit set0 j = true -> Z.testbit (hpi_set0 it) j = true).
  { intros j Hj H. rewrite Hset in H by done. by apply andb_true_iff in H as [? _]. }
  split; [|split; [|split; [done|split; [done|]]]].
  - split; try done; cbn.
    + unfold set0. destruct (_ =? _)%nat; [apply ldiff_set9; [apply Hok|lia]|apply Hok].
    + apply Hok.
    + apply Hok.
    + apply Hok.
    + intros j Hj Hj0. destruct (Z.eq_dec j p) as [->|Hjp].
      * rewrite Hnp. rewrite Hset in Hj0 by done. rewrite Z.eqb_refl in Hj0. unfold mh_nelem in Hj0. destruct (mh_elems h); [|done].
        by rewrite andb_false_r in Hj0.
      * rewrite Hnj by done. apply Hok; [done|]. by apply Hsub.
    + intros j Hj Hj0 Hjh i Hi. destruct (ho_current _ Hok j Hj (Hsub j Hj Hj0) Hjh i Hi) as [H1 H2]. split; [|done].
      rewrite Hset by lia. by rewrite H1.
    + intros Hnemp. exists p. split; [done|]. split; [|done]. rewrite Hset, Hs, Z.eqb_refl by done. unfold mh_nelem. by destruct (mh_elems h).
    + intros j n Hj Hj0 Hjh. apply (ho_counts _ Hok); [done|by apply Hsub|done].
  - rewrite En, Hnp, <- El. exact Hperm.
  - split.
    + intros N HN Ho _. split; [intros _|congruence]. rewrite Hnp in HN. constructor.
      * unfold ordered in Ho. cbn in Ho. rewrite Hset, Hs, Hh, Z.eqb_refl in Ho by done. unfold mh_nelem in Ho. destruct (mh_elems h) as [|x k]; [|by apply Ho].
        apply Permutation_nil_r in HN as ->. constructor.
      * apply Forall_forall. intros x Hx. apply (heap_min mhe_val (top :: l)); [rewrite <- El; apply Hok|done|]. rewrite <- El, Hperm. right. by rewrite <- HN.
    + intros j N Hj Hjp Ho. unfold ordered in *. cbn in Ho. rewrite Hset in Ho by done. replace (j =? p) with false in Ho by lia. cbn in Ho. rewrite andb_true_r in Ho.
      rewrite <- (Hnj j Hj Hjp). exact Ho.
Qed.

Lemma heap_insert_all_ok q : forall h, heap mhe_val (mh_elems h) -> (mh_nelem h + length q <= mh_nalloc h)%nat ->
  exists h', heap_insert_all h q = Some h' /\ heap mhe_val (mh_elems h') /\ mh_elems h' ≡ₚ map elem_of q ++ mh_elems h.
Proof.
  induction q as [|s q IH]; intros h Hh Hn; cbn [heap_insert_all]; [by exists h|]. cbn [length] in Hn.
  destruct (mh_insert_ok h (hs_ptr s) (hs_id s) Hh ltac:(lia)) as (h1 & -> & Hh1 & Hp & En). cbn [mbind option_bind].
  destruct (IH h1 Hh1) as (h2 & -> & Hh2 & Hp2).
  { unfold mh_nelem in *. rewrite Hp, En. cbn [length]. lia. }
  exists h2. split; [done|]. split; [done|]. rewrite Hp2, Hp. cbn [map app]. by rewrite Permutation_middle.
Qed.

(** Bucket [p] is the first with streams in it. *)
Definition is_first (it : http_prio_iter) (p : Z) : Prop :=
  forall j, 0 <= j < p -> Z.testbit (hpi_set0 it) j = false /\ Z.testbit (hpi_set1 it) j = false.

Lemma heap_bucket_ok it ms p n : hpi_ok it -> 0 <= p < 9 -> is_first it p ->
  Z.testbit (hpi_set0 it) p = true -> Z.testbit (hpi_heaped it) p = false -> aget (hpi_counts it) p = Some n -> 1 < n ->
  exists ok it' ms', heap_nonincr_bucket it p ms = Some (ok, it', ms') /\
    if ok then hpi_ok it' /\ Z.testbit (hpi_set0 it') p = true /\ Z.testbit (hpi_heaped it') p = true /\
      nonincr it' p ≡ₚ nonincr it p /\ (forall j, 0 <= j < 9 -> j <> p -> nonincr it' j = nonincr it j) /\
      (forall j, incr it' j = incr it j) /\ (forall j N, 0 <= j < 9 -> ordered it' ms' j N -> ordered it ms j N)
    else it' = it /\ (false ∈ ms' -> false ∈ ms) /\ false ∈ ms /\ 236 < n.
Proof.
  intros Hok Hp Hfirst Hs Hh Hn H1. unfold heap_nonincr_bucket. rewrite Hn, (aget_bucket0 it p Hok Hp). cbn [mbind option_bind].
  assert (En : n = Z.of_nat (length (bucket0 it p))) by (destruct (ho_counts _ Hok p n Hp Hs Hh Hn); lia).
  assert (Hempty : mh_elems (hpi_min_heap it) = []).
  { destruct (mh_elems (hpi_min_heap it)) as [|x l] eqn:El; [done|]. exfalso.
    destruct (ho_owner _ Hok) as (j & Hj & Hj0 & Hjh); [by rewrite El|]. destruct (Z.lt_trichotomy j p) as [Hlt|[->|Hlt]]; [|congruence|].
    - destruct (Hfirst j ltac:(lia)). congruence.
    - destruct (ho_current _ Hok j Hj Hj0 Hjh p ltac:(lia)). congruence. }
  set (r := if n <=? 236 then _ else _).
  assert (Hr : exists ok mem ms', r = (ok, mem, ms') /\ (ok = false -> false ∈ ms /\ 236 < n) /\ (false ∈ ms' -> false ∈ ms)).
  { unfold r, malloc. destruct (Z.leb_spec n 236); [by eexists _, _, _|]. destruct ms as [|b ms]; eexists _, _, _; (split; [done|]); [done|].
    split; [intros ->; split; [left|done]|by right]. }
  destruct Hr as (ok & mem & ms' & -> & Hfail & Hms). destruct ok; cbn [negb]; [|eexists _, _, _; split; [done|]; split; [done|]; split; [done|by apply Hfail]].
  destruct (heap_insert_all_ok (bucket0 it p) (MH (mh_elems (hpi_min_heap it)) (Z.to_nat n))) as (h & -> & Hheap & Hperm).
  { apply Hok. } { unfold mh_nelem. cbn. rewrite Hempty. cbn. lia. }
  cbn [mh_elems] in Hperm. rewrite Hempty, app_nil_r in Hperm. cbn [mbind option_bind].
  set (it' := with_heap it h mem (Z.lor (hpi_heaped it) (pbit p)) (hpi_set0 it)). exists true, it', ms'. split; [done|].
  assert (Hhp : forall j, 0 <= j -> Z.testbit (hpi_heaped it') j = Z.testbit (hpi_heaped it) j || (j =? p)) by (intros j Hj; cbn; apply lor_pbit; lia).
  assert (Hnp : nonincr it' p = mh_elems h) by (unfold nonincr; rewrite Hhp, Z.eqb_refl, orb_true_r by lia; cbn; by rewrite Hs).
  assert (Hother : forall j, 0 <= j < 9 -> Z.testbit (hpi_set0 it) j = true -> Z.testbit (hpi_heaped it) j = false).
  { intros j Hj Hj0. destruct (Z.testbit (hpi_heaped it) j) eqn:E; [|done]. exfalso.
    pose proof (ho_nonincr _ Hok j Hj Hj0) as H. unfold nonincr in H. rewrite Hj0, E, Hempty in H. done. }
  assert (Hnj : forall j, 0 <= j < 9 -> j <> p -> nonincr it' j = nonincr it j).
  { intros j Hj Hjp. unfold nonincr. rewrite Hhp by lia. replace (j =? p) with false by lia. rewrite orb_false_r. cbn.
    destruct (Z.testbit (hpi_set0 it) j) eqn:E; [|done]. by rewrite (Hother j Hj E). }
  assert (Hbp : bucket0 it p <> []) by (intros E; rewrite E in En; cbn in En; lia).
  split; [|split; [done|split; [by rewrite Hhp, Z.eqb_refl, orb_true_r by lia|split; [|split; [done|split; [done|]]]]]].
  - split; try apply Hok; try done; cbn.
    + intros j Hj Hj0. destruct (Z.eq_dec j p) as [->|Hjp]; [|rewrite Hnj by done; by apply Hok]. rewrite Hnp. intros E. rewrite E in Hperm.
      apply Permutation_nil_l in Hperm. by destruct (bucket0 it p).
    + intros j Hj Hj0 Hjh. fold (hpi_heaped it') in Hjh. change (Z.lor (hpi_heaped it) (pbit p)) with (hpi_heaped it') in Hjh.
      rewrite Hhp in Hjh by lia. rewrite (Hother j Hj Hj0) in Hjh. cbn in Hjh. apply Z.eqb_eq in Hjh as ->. exact Hfirst.
    + intros _. exists p. split; [done|]. split; [done|]. change (Z.lor (hpi_heaped it) (pbit p)) with (hpi_heaped it').
      by rewrite Hhp, Z.eqb_refl, orb_true_r by lia.
    + intros j m Hj Hj0 Hjh. apply (ho_counts _ Hok); [done|done|by apply Hother].
  - rewrite Hnp, Hperm. unfold nonincr. by rewrite Hs, Hh.
  - intros j N Hj Ho Hj0. destruct (Ho Hj0) as [Ho1 Ho2]. rewrite Hhp in Ho1, Ho2 by lia. rewrite (Hother j Hj Hj0). split; [done|]. intros _ m Hm.
    destruct (Z.eqb_spec j p) as [->|Hjp].
    + rewrite Hn in Hm. injection Hm as <-. replace (n =? 1) with false by lia. left. apply Ho1. by rewrite orb_true_r.
    + rewrite orb_false_r in Ho2. specialize (Ho2 (Hother j Hj Hj0) m Hm). rewrite Hnj in Ho2 by done. destruct (m =? 1); [done|]. naive_solver.
Qed.

(** ** Buckets *)

(** Taking the first stream of a bucket, whatever its count. *)
Lemma first_stream_ok it p counts : hpi_ok it -> 0 <= p < 9 -> Z.testbit (hpi_set0 it) p = true -> Z.testbit (hpi_heaped it) p = false ->
  length counts = 9%nat -> (forall j, j <> p -> aget counts j = aget (hpi_counts it) j) -> aget counts p = Some 1 ->
  exists s q it', bucket0 it p = s :: q /\
    first_stream (HPI (hpi_set0 it) (hpi_set1 it) counts (hpi_heaped it) (hpi_streams0 it) (hpi_streams1 it) (hpi_min_heap it) (hpi_mem it)) p
      = Some (hs_ptr s, it') /\ hpi_ok it' /\ nonincr it p = elem_of s :: nonincr it' p /\
    (forall j, 0 <= j < 9 -> j <> p -> nonincr it' j = nonincr it j) /\ (forall j, 0 <= j < 9 -> incr it' j = incr it j) /\
    hpi_heaped it' = hpi_heaped it /\ hpi_counts it' = counts /\
    (forall j, 0 <= j -> Z.testbit (hpi_set0 it') j = Z.testbit (hpi_set0 it) j && negb ((j =? p) && match q with [] => true | _ => false end)).
Proof.
  intros Hok Hp Hs Hh Hlc Hcj Hcp. unfold first_stream. cbn [hpi_streams0]. rewrite (aget_bucket0 it p Hok Hp). cbn [mbind option_bind].
  pose proof (ho_nonincr _ Hok p Hp Hs) as Hne. unfold nonincr in Hne. rewrite Hs, Hh in Hne.
  destruct (bucket0 it p) as [|s q] eqn:Eb; [done|]. destruct (ho_lengths _ Hok) as (Hl1 & Hl2 & Hl3). rewrite aset_ok by lia. cbn [mbind option_bind].
  set (set0 := match q with [] => _ | _ => _ end). set (streams := <[_ := q]> _). exists s, q. eexists. split; [done|]. split; [done|]. set (it' := HPI _ _ _ _ _ _ _ _).
  assert (Hset : forall j, 0 <= j -> Z.testbit set0 j = Z.testbit (hpi_set0 it) j && negb ((j =? p) && match q with [] => true | _ => false end)).
  { intros j Hj. unfold set0. destruct q; cbn [hpi_set0]; [rewrite ldiff_pbit by lia; by rewrite andb_true_r|by rewrite andb_false_r, andb_true_r]. }
  assert (Hb : forall j, 0 <= j < 9 -> bucket0 it' j = if j =? p then q else bucket0 it j).
  { intros j Hj. unfold bucket0, it', streams. cbn. destruct (Z.eqb_spec j p) as [->|].
    - by rewrite list_lookup_insert_eq by lia.
    - by rewrite list_lookup_insert_ne by lia. }
  assert (Hsub : forall j, 0 <= j < 9 -> Z.testbit set0 j = true -> Z.testbit (hpi_set0 it) j = true).
  { intros j Hj H. rewrite Hset in H by lia. by apply andb_true_iff in H as [? _]. }
  assert (Hnp : nonincr it' p = map elem_of q).
  { unfold nonincr. rewrite Hb, Z.eqb_refl by done. cbn. rewrite Hset, Hs, Hh, Z.eqb_refl by lia. by destruct q. }
  assert (Hnj : forall j, 0 <= j < 9 -> j <> p -> nonincr it' j = nonincr it j).
  { intros j Hj Hjp. unfold nonincr. rewrite Hb by done. cbn. rewrite Hset by lia. replace (j =? p) with false by lia. cbn. by rewrite andb_true_r. }
  split; [|split; [|split; [done|split; [done|split; [done|split; [done|exact Hset]]]]]].
  - split; try apply Hok; cbn.
    + unfold set0. destruct q; cbn [hpi_set0]; [apply ldiff_set9; [apply Hok|lia]|apply Hok].
    + unfold streams. by rewrite length_insert.
    + intros j Hj Hj0. destruct (Z.eq_dec j p) as [->|Hjp]; [|rewrite Hnj by done; apply Hok; [done|by apply Hsub]].
      rewrite Hnp. rewrite Hset, Z.eqb_refl in Hj0 by lia. destruct q; [by rewrite andb_false_r in Hj0|done].
    + intros j Hj Hj0 Hjh i Hi. destruct (ho_current _ Hok j Hj (Hsub j Hj Hj0) Hjh i Hi) as [H1 H2]. split; [|done]. rewrite Hset by lia. by rewrite H1.
    + intros Hnemp. destruct (ho_owner _ Hok Hnemp) as (j & Hj & Hj0 & Hjh). exists j. split; [done|]. split; [|done]. rewrite Hset, Hj0 by lia.
      destruct (Z.eqb_spec j p) as [->|]; [congruence|done].
    + intros j n Hj Hj0 Hjh Hn. destruct (Z.eq_dec j p) as [->|Hjp].
      * rewrite Hcp in Hn. injection Hn as <-. by right.
      * rewrite Hb by done. replace (j =? p) with false by lia. rewrite Hcj in Hn by done. apply (ho_counts _ Hok); [done|by apply Hsub|done..].
  - rewrite Hnp. unfold nonincr. by rewrite Hs, Hh, Eb.
Qed.

(** The way of a bucket with one stream, or when there is no memory for a heap. *)
Lemma takes_first it ms ms' p n counts : hpi_ok it -> 0 <= p < 9 -> Z.testbit (hpi_set0 it) p = true -> Z.testbit (hpi_heaped it) p = false ->
  length counts = 9%nat -> (forall j, j <> p -> aget counts j = aget (hpi_counts it) j) -> aget counts p = Some 1 ->
  (false ∈ ms' -> false ∈ ms) -> aget (hpi_counts it) p = Some n -> n = 1 \/ (false ∈ ms /\ 236 < n) ->
  exists e it', first_stream (HPI (hpi_set0 it) (hpi_set1 it) counts (hpi_heaped it) (hpi_streams0 it) (hpi_streams1 it) (hpi_min_heap it) (hpi_mem it)) p
      = Some (mhe_item e, it') /\ takes0 it ms p e it' ms'.
Proof.
  intros Hok Hp Hs Hh Hlc Hcj Hcp Hms Hn Hc. destruct (first_stream_ok it p counts Hok Hp Hs Hh Hlc Hcj Hcp) as (s & q & it' & Eb & E & Hok' & En & Hnj & Hinc & Eh & Ec & Hset).
  exists (elem_of s), it'. split; [done|]. split; [done|]. split; [by rewrite En|]. split; [done|]. split; [done|]. split.
  - intros N HN Ho _. split; [congruence|]. intros _ m Hm. rewrite Hn in Hm. injection Hm as <-.
    assert (N = nonincr it' p) as ->.
    { destruct (Z.testbit (hpi_set0 it') p) eqn:Es.
      - destruct (Ho Es) as [_ Ho2]. rewrite Eh, Ec in Ho2. specialize (Ho2 Hh 1 Hcp). exact Ho2.
      - assert (nonincr it' p = []) as E0 by (unfold nonincr; by rewrite Es). rewrite E0 in *. by apply Permutation_nil_r. }
    rewrite En. destruct (Z.eqb_spec n 1); [done|]. right. destruct Hc as [|[]]; [done|]. done.
  - intros j N Hj Hjp Ho Hj0. unfold ordered in Ho. rewrite Hset, Hj0, Eh, Ec, Hcj, Hnj in Ho by (done || lia). replace (j =? p) with false in Ho by lia.
    destruct (Ho eq_refl) as [Ho1 Ho2]. split; [done|]. intros Hjh m Hm. specialize (Ho2 Hjh m Hm). destruct (m =? 1); [done|]. naive_solver.
Qed.

Lemma next_nonincr_ok it ms p : hpi_ok it -> 0 <= p < 9 -> is_first it p -> Z.testbit (hpi_set0 it) p = true ->
  exists e it' ms', next_nonincr it p ms = Some (mhe_item e, it', ms') /\ takes0 it ms p e it' ms'.
Proof.
  intros Hok Hp Hfirst Hs. unfold next_nonincr. rewrite has_pbit by lia. destruct (Z.testbit (hpi_heaped it) p) eqn:Hh.
  { destruct (pop_stream_ok it ms p Hok Hp Hs Hh) as (e & it' & -> & Ht). cbn [mbind option_bind]. by eexists _, _, _. }
  destruct (ho_lengths _ Hok) as (Hl1 & Hl2 & Hl3). destruct (aget_is_Some (hpi_counts it) p ltac:(lia)) as [n Hn]. rewrite Hn. cbn [mbind option_bind].
  destruct (Z.ltb_spec 1 n) as [H1|H1].
  - destruct (heap_bucket_ok it ms p n Hok Hp Hfirst Hs Hh Hn H1) as (ok & it1 & ms1 & -> & Hb). cbn [mbind option_bind]. destruct ok.
    + destruct Hb as (Hok1 & Hs1 & Hh1 & Hperm & Hnj & Hinc & Hord).
      destruct (pop_stream_ok it1 ms1 p Hok1 Hp Hs1 Hh1) as (e & it2 & -> & Hok2 & Hp2 & Hnj2 & Hinc2 & Hord2 & Hord3). cbn [mbind option_bind].
      exists e, it2, ms1. split; [done|]. split; [done|]. split; [by rewrite <- Hperm|].
      split; [intros j Hj Hjp; by rewrite Hnj2, Hnj|]. split; [intros j Hj; by rewrite Hinc2, Hinc|].
      split; [intros N HN Ho; apply Hord, Hord2; done|]. intros j N Hj Hjp Ho. by apply Hord, Hord3.
    + destruct Hb as (-> & Hms & Hf & Hbig). rewrite aset_ok by lia. cbn [mbind option_bind].
      destruct (takes_first it ms ms1 p n (<[Z.to_nat p := 1]> (hpi_counts it))) as (e & it' & -> & Ht); try done.
      * by rewrite length_insert.
      * intros j Hj. apply aget_insert_ne; lia.
      * by apply aget_insert_eq; lia.
      * by right.
      * cbn [mbind option_bind]. by eexists _, _, _.
  - assert (n = 1) as ->.
    { destruct (ho_counts _ Hok p n Hp Hs Hh Hn) as [->|]; [|done]. pose proof (ho_nonincr _ Hok p Hp Hs) as Hne. unfold nonincr in Hne.
      rewrite Hs, Hh in Hne. destruct (bucket0 it p); [done|]. cbn in H1 |- *. lia. }
    destruct (takes_first it ms ms p 1 (hpi_counts it)) as (e & it' & E & Ht); try done; [by left|]. destruct it. cbn in E |- *. rewrite E. cbn.
    by eexists _, _, _.
Qed.

Lemma next_incr_ok it p : hpi_ok it -> 0 <= p < 9 -> Z.testbit (hpi_set1 it) p = true ->
  exists s it', next_incr it p = Some (hs_ptr s, it') /\ hpi_ok it' /\ incr it p = s :: incr it' p /\
    (forall j, 0 <= j < 9 -> j <> p -> incr it' j = incr it j) /\ (forall j, 0 <= j < 9 -> nonincr it' j = nonincr it j) /\
    (forall ms j N, ordered it' ms j N -> ordered it ms j N).
Proof.
  intros Hok Hp Hs. unfold next_incr. rewrite (aget_bucket1 it p Hok Hp). cbn [mbind option_bind].
  pose proof (ho_incr _ Hok p Hp Hs) as Hne. destruct (bucket1 it p) as [|s q] eqn:Eb; [done|]. destruct (ho_lengths _ Hok) as (Hl1 & Hl2 & Hl3).
  rewrite aset_ok by lia. cbn [mbind option_bind]. set (set1 := match q with [] => _ | _ => _ end). set (streams := <[_ := q]> _).
  exists s. eexists. split; [done|]. set (it' := HPI _ _ _ _ _ _ _ _).
  assert (Hset : forall j, 0 <= j -> Z.testbit set1 j = Z.testbit (hpi_set1 it) j && negb ((j =? p) && match q with [] => true | _ => false end)).
  { intros j Hj. unfold set1. destruct q; [rewrite ldiff_pbit by lia; by rewrite andb_true_r|by rewrite andb_false_r, andb_true_r]. }
  assert (Hb : forall j, 0 <= j < 9 -> bucket1 it' j = if j =? p then q else bucket1 it j).
  { intros j Hj. unfold bucket1, it', streams. cbn. destruct (Z.eqb_spec j p) as [->|].
    - by rewrite list_lookup_insert_eq by lia.
    - by rewrite list_lookup_insert_ne by lia. }
  assert (Hsub : forall j, 0 <= j -> Z.testbit set1 j = true -> Z.testbit (hpi_set1 it) j = true).
  { intros j Hj H. rewrite Hset in H by lia. by apply andb_true_iff in H as [? _]. }
  split; [|split; [|split; [|split; [done|done]]]].
  - split; try apply Hok; cbn.
    + unfold set1. destruct q; [apply ldiff_set9; [apply Hok|lia]|apply Hok].
    + unfold streams. by rewrite length_insert.
    + intros j Hj Hj1. rewrite Hb by done. rewrite Hset in Hj1 by lia. destruct (Z.eqb_spec j p) as [->|Hjp].
      * destruct q; [by rewrite andb_false_r in Hj1|done].
      * apply Hok; [done|]. by rewrite andb_true_r in Hj1.
    + intros j Hj Hj0 Hjh i Hi. destruct (ho_current _ Hok j Hj Hj0 Hjh i Hi) as [H1 H2]. split; [done|]. rewrite Hset by lia. by rewrite H2.
  - unfold incr. rewrite Hs, Eb, Hb, Z.eqb_refl by done. cbn. rewrite Hset, Hs, Z.eqb_refl by lia. by destruct q.
  - intros j Hj Hjp. unfold incr. rewrite Hb by done. replace (j =? p) with false by lia. cbn. rewrite Hset by lia.
    replace (j =? p) with false by lia. by rewrite andb_true_r.
Qed.

(** * Iteration *)

Lemma next_ok it ms : hpi_ok it ->
  (lsquic_hpi_next it ms = Some None /\ forall p, 0 <= p < 9 -> nonincr it p = [] /\ incr it p = []) \/
  exists p, 0 <= p < 9 /\ (forall j, 0 <= j < p -> nonincr it j = [] /\ incr it j = []) /\
    ((exists e it' ms', lsquic_hpi_next it ms = Some (Some (mhe_item e, it', ms')) /\ takes0 it ms p e it' ms') \/
     (nonincr it p = [] /\ exists s it', lsquic_hpi_next it ms = Some (Some (hs_ptr s, it', ms)) /\ hpi_ok it' /\ incr it p = s :: incr it' p /\
        (forall j, 0 <= j < 9 -> j <> p -> incr it' j = incr it j) /\ (forall j, 0 <= j < 9 -> nonincr it' j = nonincr it j) /\
        (forall ms j N, ordered it' ms j N -> ordered it ms j N))).
Proof.
  intros Hok. unfold lsquic_hpi_next, calc_next_prio_and_incr.
  destruct (ntz_ok _ (ho_set0 _ Hok)) as (p0 & -> & Hp0 & Hb0 & Hl0). destruct (ntz_ok _ (ho_set1 _ Hok)) as (p1 & -> & Hp1 & Hb1 & Hl1).
  cbn [mbind option_bind]. change N_HPI_PRIORITIES with 9.
  assert (Hnone : forall j, 0 <= j < p0 -> j < p1 -> nonincr it j = [] /\ incr it j = []).
  { intros j Hj Hj1. unfold nonincr, incr. by rewrite Hl0, Hl1 by lia. }
  destruct (Z.leb_spec p0 p1) as [Hle|Hgt].
  - destruct (Z.leb_spec 9 p0) as [H9|H9].
    + left. split; [done|]. intros p Hp. apply Hnone; lia.
    + right. exists p0. split; [lia|]. split; [intros j Hj; apply Hnone; lia|]. left.
      destruct (next_nonincr_ok it ms p0 Hok ltac:(lia)) as (e & it' & ms' & -> & Ht); [intros j Hj; split; [apply Hl0|apply Hl1]; lia|by apply Hb0|].
      cbn [mbind option_bind]. by eexists _, _, _.
  - ztest. right. exists p1. split; [lia|]. split; [intros j Hj; apply Hnone; lia|]. right.
    split; [unfold nonincr; by rewrite Hl0 by lia|].
    destruct (next_incr_ok it p1 Hok ltac:(lia) ltac:(apply Hb1; lia)) as (s & it' & -> & H). cbn [mbind option_bind]. by eexists _, _.
Qed.

(** The streams of nine priorities in a row. *)
Definition in_order (N : Z -> list min_heap_elem) (I : Z -> list hpi_stream) : list Z :=
  concat (map (fun p => map mhe_item (N p) ++ map hs_ptr (I p)) (seqZ 0 9)).

Lemma concat_nils (G : Z -> list Z) l : (forall j, j ∈ l -> G j = []) -> concat (map G l) = [].
Proof.
  induction l as [|j l IH]; intros Hl; [done|]. cbn. rewrite Hl by (by left). apply IH. intros i Hi. apply Hl. by right.
Qed.

Lemma concat_take (F F' : Z -> list Z) p x : 0 <= p < 9 -> F p = x :: F' p ->
  (forall j, 0 <= j < 9 -> j <> p -> F j = F' j) -> (forall j, 0 <= j < p -> F j = []) ->
  concat (map F (seqZ 0 9)) = x :: concat (map F' (seqZ 0 9)).
Proof.
  intros Hp Hx Heq Hnil. replace (seqZ 0 9) with (seqZ 0 p ++ p :: seqZ (p + 1) (8 - p)).
  2: { replace 9 with (p + (1 + (8 - p))) by lia. rewrite !seqZ_app by lia. rewrite Z.add_0_l. change (seqZ p 1) with [0 + p]. by rewrite Z.add_0_l. }
  rewrite !map_app, !concat_app. cbn [map concat]. rewrite Hx.
  assert (E1 : forall G : Z -> list Z, (forall j, 0 <= j < p -> G j = []) -> concat (map G (seqZ 0 p)) = []).
  { intros G HG. apply concat_nils. intros j Hj%elem_of_seqZ. apply HG. lia. }
  rewrite (E1 F) by done. rewrite (E1 F') by (intros j Hj; rewrite <- Heq by lia; by apply Hnil).
  cbn. do 2 f_equal. f_equal. apply map_ext_in. intros j Hj%list_elem_of_In%elem_of_seqZ. apply Heq; lia.
Qed.

Definition sum9 (f : Z -> nat) : nat := (f 0%Z + f 1%Z + f 2%Z + f 3%Z + f 4%Z + f 5%Z + f 6%Z + f 7%Z + f 8%Z)%nat.

Lemma sum9_take f f' p : 0 <= p < 9 -> f p = S (f' p) -> (forall j, 0 <= j < 9 -> j <> p -> f j = f' j) -> sum9 f = S (sum9 f').
Proof.
  intros Hp Hx Heq. unfold sum9.
  assert (p = 0 \/ p = 1 \/ p = 2 \/ p = 3 \/ p = 4 \/ p = 5 \/ p = 6 \/ p = 7 \/ p = 8) as E by lia.
  repeat (destruct E as [->|E]; [rewrite Hx, !Heq by lia; lia|]). subst p. rewrite Hx, !Heq by lia. lia.
Qed.

Definition remaining (it : http_prio_iter) : nat := sum9 (fun p => (length (nonincr it p) + length (incr it p))%nat).

(** The order in which the streams come. *)
Definition iterates (it : http_prio_iter) (ms : list bool) (l : list Z) : Prop := exists N, l = in_order N (incr it) /\
  (forall p, 0 <= p < 9 -> N p ≡ₚ nonincr it p) /\
  (forall p, 0 <= p < 9 -> ordered it ms p (N p)).

Lemma iterates_nil it ms : hpi_ok it -> (forall p, 0 <= p < 9 -> nonincr it p = [] /\ incr it p = []) -> iterates it ms [].
Proof.
  intros Hok Hnil. exists (fun _ => []). split.
  - symmetry. apply concat_nils. intros p Hp%elem_of_seqZ. by rewrite (proj2 (Hnil p ltac:(lia))).
  - split; [intros p Hp; by rewrite (proj1 (Hnil p Hp))|]. intros p Hp Hs. destruct (ho_nonincr _ Hok p Hp Hs). by apply Hnil.
Qed.

Lemma iterates_cons0 it ms p e it' ms' l : 0 <= p < 9 -> (forall j, 0 <= j < p -> nonincr it j = [] /\ incr it j = []) ->
  takes0 it ms p e it' ms' -> iterates it' ms' l -> iterates it ms (mhe_item e :: l).
Proof.
  intros Hp Hfirst (Hok & Hperm & Hnj & Hinc & Hex & Hexj) (N & -> & HN & Hsort).
  exists (fun j => if j =? p then e :: N p else N j). split; [|split].
  - symmetry. unfold in_order. apply (concat_take _ _ p); [done| | |].
    + cbn. by rewrite Z.eqb_refl, Hinc.
    + intros j Hj Hjp. replace (j =? p) with false by lia. by rewrite Hinc.
    + intros j Hj. replace (j =? p) with false by lia. destruct (Hfirst j Hj) as [H1 H2]. rewrite H2.
      pose proof (HN j ltac:(lia)) as H. rewrite Hnj, H1 in H by lia. apply Permutation_nil_r in H as ->. done.
  - intros j Hj. destruct (Z.eqb_spec j p) as [->|Hjp]; [by rewrite HN, Hperm|]. by rewrite HN, Hnj.
  - intros j Hj. destruct (Z.eqb_spec j p) as [->|Hjp]; [apply Hex; auto|]. apply Hexj; auto.
Qed.

Lemma iterates_cons1 it ms p s it' l : 0 <= p < 9 -> (forall j, 0 <= j < p -> nonincr it j = [] /\ incr it j = []) ->
  nonincr it p = [] -> incr it p = s :: incr it' p -> (forall j, 0 <= j < 9 -> j <> p -> incr it' j = incr it j) ->
  (forall j, 0 <= j < 9 -> nonincr it' j = nonincr it j) -> (forall ms j N, ordered it' ms j N -> ordered it ms j N) ->
  iterates it' ms l -> iterates it ms (hs_ptr s :: l).
Proof.
  intros Hp Hfirst Hnil Hs Hinc Hnon Hex (N & -> & HN & Hsort).
  assert (HN' : forall j, 0 <= j < 9 -> N j ≡ₚ nonincr it j) by (intros j Hj; rewrite <- Hnon by done; by apply HN).
  exists N. split; [|split; [done|]].
  - symmetry. unfold in_order. apply (concat_take _ _ p); [done| | |].
    + pose proof (HN' p Hp) as H. rewrite Hnil in H. apply Permutation_nil_r in H as ->. cbn. by rewrite Hs.
    + intros j Hj Hjp. by rewrite Hinc.
    + intros j Hj. destruct (Hfirst j Hj) as [H1 H2]. rewrite H2. pose proof (HN' j ltac:(lia)) as H. rewrite H1 in H.
      apply Permutation_nil_r in H as ->. done.
  - intros j Hj. by apply Hex, Hsort.
Qed.

Lemma hpi_rest_ok fuel : forall it ms, hpi_ok it -> (remaining it < fuel)%nat -> exists l, hpi_rest fuel it ms = Some l /\ iterates it ms l.
Proof.
  induction fuel as [|fuel IH]; intros it ms Hok Hf; [lia|]. cbn [hpi_rest].
  destruct (next_ok it ms Hok) as [[-> Hnil]|(p & Hp & Hfirst & [(e & it' & ms' & -> & Ht)|(Hnil & s & it' & -> & Hok' & Hs & Hinc & Hnon & Hex)])]; cbn [mbind option_bind].
  - exists []. split; [done|]. by apply iterates_nil.
  - destruct (id Ht) as (Hok' & Hperm & Hnj & Hinc & _). destruct (IH it' ms' Hok') as (l & -> & Hl).
    { enough (remaining it = S (remaining it')) by lia. apply (sum9_take _ _ p); [done|by rewrite Hperm, Hinc|]. intros j Hj Hjp. by rewrite Hnj, Hinc. }
    cbn [mbind option_bind]. eexists. split; [done|]. by eapply iterates_cons0.
  - destruct (IH it' ms Hok') as (l & -> & Hl).
    { enough (remaining it = S (remaining it')) by lia. apply (sum9_take _ _ p); [done| |].
      - rewrite Hs, Hnon by done. cbn. lia.
      - intros j Hj Hjp. by rewrite Hinc, Hnon. }
    cbn [mbind option_bind]. eexists. split; [done|]. by eapply iterates_cons1.
Qed.

Lemma set9_assert s : is_set9 s -> Z.ldiff s 511 = 0.
Proof.
  intros Hs. apply Z.bits_inj'. intros j Hj. rewrite Z.ldiff_spec, Z.bits_0. change 511 with (Z.ones 9).
  destruct (Z.lt_ge_cases j 9); [rewrite Z.ones_spec_low by lia; apply andb_false_r|].
  by rewrite (proj1 (set9_bits s (proj1 Hs)) Hs j).
Qed.

(** [hpi_all] is the loop, as the assertions of [lsquic_hpi_first] hold. *)
Lemma hpi_all_ok fuel it ms : hpi_ok it -> (remaining it <= fuel)%nat -> exists l, hpi_all fuel it ms = Some l /\ iterates it ms l.
Proof.
  intros Hok Hf. destruct (hpi_rest_ok (S fuel) it ms Hok ltac:(lia)) as (l & E & Hl). exists l. split; [|done].
  unfold hpi_all, lsquic_hpi_first. rewrite !set9_assert by apply Hok. cbn [andb Z.eqb]. exact E.
Qed.


(** * Filling the buckets *)

(** The streams of a list that belong to a bucket. *)
Definition of_bucket (incremental : bool) (p : Z) (l : list hpi_stream) : list hpi_stream :=
  List.filter (fun s => Bool.eqb (hpi_incr s) incremental && (hpi_prio s =? p)) l.

Definition nonempty {A} (l : list A) : bool := match l with [] => false | _ => true end.

Record hpi_filled (it : http_prio_iter) (l : list hpi_stream) : Prop := {
  hf_sets : is_set9 (hpi_set0 it) /\ is_set9 (hpi_set1 it);
  hf_lengths : length (hpi_counts it) = 9%nat /\ length (hpi_streams0 it) = 9%nat /\ length (hpi_streams1 it) = 9%nat;
  hf_heap : hpi_heaped it = 0 /\ mh_elems (hpi_min_heap it) = [];
  hf_bits : forall p, 0 <= p < 9 -> Z.testbit (hpi_set0 it) p = nonempty (of_bucket false p l) /\
    Z.testbit (hpi_set1 it) p = nonempty (of_bucket true p l);
  hf_buckets0 : forall p, 0 <= p < 9 -> Z.testbit (hpi_set0 it) p = true ->
    bucket0 it p = of_bucket false p l /\ aget (hpi_counts it) p = Some (Z.of_nat (length (of_bucket false p l)));
  hf_buckets1 : forall p, 0 <= p < 9 -> Z.testbit (hpi_set1 it) p = true -> bucket1 it p = of_bucket true p l
}.

Lemma of_bucket_snoc b p l s : of_bucket b p (l ++ [s]) = of_bucket b p l ++ (if Bool.eqb (hpi_incr s) b && (hpi_prio s =? p) then [s] else []).
Proof. unfold of_bucket. by rewrite List.filter_app. Qed.

Lemma nonempty_snoc {A} (l : list A) x : nonempty (l ++ [x]) = true.
Proof. by destruct l. Qed.

Lemma hpi_prio_range s : 0 <= hs_priority s -> 0 <= hpi_prio s < 9.
Proof. intros H. unfold hpi_prio, LSQUIC_MAX_HTTP_URGENCY. destruct (hs_critical s); [lia|]. destruct (Z.ltb_spec (hs_priority s) 7); lia. Qed.

(** What a bucket is before a stream is added to it. *)
Lemma filled_before0 it l p : hpi_filled it l -> 0 <= p < 9 -> exists q n,
  aget (hpi_streams0 it) p = Some q /\ aget (hpi_counts it) p = Some n /\
  (if Z.testbit (hpi_set0 it) p then q else []) = of_bucket false p l /\
  (if Z.testbit (hpi_set0 it) p then n else 0) = Z.of_nat (length (of_bucket false p l)).
Proof.
  intros Hf Hp. destruct (hf_lengths _ _ Hf) as (H1 & H2 & H3). destruct (aget_is_Some (hpi_streams0 it) p ltac:(lia)) as [q Hq].
  destruct (aget_is_Some (hpi_counts it) p ltac:(lia)) as [n Hn]. exists q, n. split; [done|]. split; [done|].
  destruct (hf_bits _ _ Hf p Hp) as [Hb _]. destruct (Z.testbit (hpi_set0 it) p) eqn:E.
  - destruct (hf_buckets0 _ _ Hf p Hp E) as [Eb Ec]. apply aget_Some in Hq as [_ Hq]. unfold bucket0 in Eb. rewrite Hq in Eb. cbn in Eb. naive_solver congruence.
  - by destruct (of_bucket false p l).
Qed.

Lemma filled_before1 it l p : hpi_filled it l -> 0 <= p < 9 -> exists q,
  aget (hpi_streams1 it) p = Some q /\ (if Z.testbit (hpi_set1 it) p then q else []) = of_bucket true p l.
Proof.
  intros Hf Hp. destruct (hf_lengths _ _ Hf) as (H1 & H2 & H3). destruct (aget_is_Some (hpi_streams1 it) p ltac:(lia)) as [q Hq].
  exists q. split; [done|]. destruct (hf_bits _ _ Hf p Hp) as [_ Hb]. destruct (Z.testbit (hpi_set1 it) p) eqn:E.
  - pose proof (hf_buckets1 _ _ Hf p Hp E) as Eb. apply aget_Some in Hq as [_ Hq]. unfold bucket1 in Eb. by rewrite Hq in Eb.
  - by destruct (of_bucket true p l).
Qed.

Lemma bucket_insert (L : list (list hpi_stream)) k q j : length L = 9%nat -> 0 <= k < 9 -> 0 <= j < 9 ->
  default [] (<[Z.to_nat k := q]> L !! Z.to_nat j) = if k =? j then q else default [] (L !! Z.to_nat j).
Proof.
  intros HL Hk Hj. destruct (Z.eqb_spec k j) as [->|]; [by rewrite list_lookup_insert_eq by lia|by rewrite list_lookup_insert_ne by lia].
Qed.

Lemma add_stream_filled it l s : hpi_filled it l -> 0 <= hs_priority s -> Z.of_nat (length l) < 2 ^ 32 - 1 ->
  exists it', add_stream_to_hpi it s = Some it' /\ hpi_filled it' (l ++ [s]).
Proof.
  intros Hf Hs Hlen. pose proof (hpi_prio_range s Hs) as Hp. unfold add_stream_to_hpi. rewrite !has_pbit by lia.
  destruct (hf_lengths _ _ Hf) as (Hl1 & Hl2 & Hl3). destruct (hf_sets _ _ Hf) as [Hs0 Hs1].
  destruct (hpi_incr s) eqn:Ei.
  - destruct (filled_before1 it l (hpi_prio s) Hf Hp) as (q & -> & Eq). cbn [mbind option_bind]. rewrite Eq, aset_ok by lia. cbn [mbind option_bind].
    eexists. split; [done|]. split; cbn.
    + split; [done|by apply lor_set9].
    + by rewrite length_insert.
    + apply Hf.
    + intros j Hj. destruct (hf_bits _ _ Hf j Hj) as [Hb0 Hb1]. rewrite lor_pbit, !of_bucket_snoc, Ei, Hb0, Hb1, (Z.eqb_sym j) by lia. cbn.
      split; [by rewrite app_nil_r|]. destruct (hpi_prio s =? j); [by rewrite nonempty_snoc, orb_true_r|by rewrite app_nil_r, orb_false_r].
    + intros j Hj Hj0. rewrite of_bucket_snoc, Ei. cbn. rewrite app_nil_r. by apply Hf.
    + intros j Hj Hj1. rewrite lor_pbit, (Z.eqb_sym j) in Hj1 by lia. rewrite of_bucket_snoc, Ei. unfold bucket1. cbn. rewrite bucket_insert by lia.
      destruct (Z.eqb_spec (hpi_prio s) j) as [<-|]; [done|]. rewrite app_nil_r. apply Hf; [done|]. by rewrite orb_false_r in Hj1.
  - destruct (filled_before0 it l (hpi_prio s) Hf Hp) as (q & n & -> & -> & Eq & En). cbn [mbind option_bind]. rewrite Eq, En, !aset_ok by lia. cbn [mbind option_bind].
    assert (Hu : u32 (Z.of_nat (length (of_bucket false (hpi_prio s) l)) + 1) = Z.of_nat (length (of_bucket false (hpi_prio s) (l ++ [s])))).
    { rewrite of_bucket_snoc, Ei, Z.eqb_refl. cbn. rewrite length_app. cbn [length]. unfold of_bucket.
      pose proof (filter_length_le (fun s0 => Bool.eqb (hpi_incr s0) false && (hpi_prio s0 =? hpi_prio s)) l). rewrite wrapu_id; [lia|unfold is_u; lia]. }
    rewrite Hu. eexists. split; [done|]. split; cbn.
    + split; [by apply lor_set9|done].
    + by rewrite !length_insert.
    + apply Hf.
    + intros j Hj. destruct (hf_bits _ _ Hf j Hj) as [Hb0 Hb1]. rewrite lor_pbit, !of_bucket_snoc, Ei, Hb0, Hb1, (Z.eqb_sym j) by lia. cbn.
      split; [|by rewrite app_nil_r]. destruct (hpi_prio s =? j); [by rewrite nonempty_snoc, orb_true_r|by rewrite app_nil_r, orb_false_r].
    + intros j Hj Hj0. rewrite lor_pbit, (Z.eqb_sym j) in Hj0 by lia. unfold bucket0. cbn. rewrite bucket_insert by lia.
      destruct (Z.eqb_spec (hpi_prio s) j) as [<-|Hne].
      * rewrite aget_insert_eq by lia. by rewrite of_bucket_snoc, Ei, Z.eqb_refl.
      * rewrite aget_insert_ne by lia. rewrite of_bucket_snoc, Ei. replace (hpi_prio s =? j) with false by lia. cbn. rewrite app_nil_r.
        apply Hf; [done|]. by rewrite orb_false_r in Hj0.
    + intros j Hj Hj1. rewrite (of_bucket_snoc true), Ei. cbn [Bool.eqb andb]. rewrite app_nil_r. by apply (hf_buckets1 _ _ Hf).
Qed.

Lemma empty_filled : hpi_filled hpi_init_empty [].
Proof. split; try done; cbn; intros p Hp; by rewrite Z.bits_0. Qed.

Lemma add_streams_filled l : forall it l0, hpi_filled it l0 -> Forall (fun s => 0 <= hs_priority s) l ->
  Z.of_nat (length l0 + length l) < 2 ^ 32 -> exists it', hpi_add_streams it l = Some it' /\ hpi_filled it' (l0 ++ l).
Proof.
  induction l as [|s l IH]; intros it l0 Hf Hp Hlen; cbn [hpi_add_streams]; [exists it; by rewrite app_nil_r|]. apply Forall_cons in Hp as [Hs Hp].
  cbn [length] in Hlen. destruct (add_stream_filled it l0 s Hf Hs ltac:(lia)) as (it1 & -> & Hf1). cbn [mbind option_bind].
  destruct (IH it1 (l0 ++ [s]) Hf1 Hp) as (it' & -> & Hf'); [rewrite length_app; cbn [length]; lia|]. exists it'. split; [done|].
  by rewrite <- app_assoc in Hf'.
Qed.

Lemma filled_nonincr it l p : hpi_filled it l -> 0 <= p < 9 -> nonincr it p = map elem_of (of_bucket false p l).
Proof.
  intros Hf Hp. unfold nonincr. destruct (hf_heap _ _ Hf) as [-> _]. rewrite Z.bits_0. destruct (Z.testbit (hpi_set0 it) p) eqn:E.
  - by rewrite (proj1 (hf_buckets0 _ _ Hf p Hp E)).
  - rewrite (proj1 (hf_bits _ _ Hf p Hp)) in E. by destruct (of_bucket false p l).
Qed.

Lemma filled_incr it l p : hpi_filled it l -> 0 <= p < 9 -> incr it p = of_bucket true p l.
Proof.
  intros Hf Hp. unfold incr. destruct (Z.testbit (hpi_set1 it) p) eqn:E; [by apply Hf|].
  rewrite (proj2 (hf_bits _ _ Hf p Hp)) in E. by destruct (of_bucket true p l).
Qed.

Lemma filled_ok it l : hpi_filled it l -> hpi_ok it.
Proof.
  intros Hf. destruct (hf_heap _ _ Hf) as [Hh He].
  split; try apply Hf.
  - intros p Hp Hs. rewrite (hf_buckets1 _ _ Hf p Hp Hs). rewrite (proj2 (hf_bits _ _ Hf p Hp)) in Hs. by destruct (of_bucket true p l).
  - intros p Hp Hs. rewrite (filled_nonincr it l p Hf Hp). rewrite (proj1 (hf_bits _ _ Hf p Hp)) in Hs. by destruct (of_bucket false p l).
  - rewrite He. intros j Hj. cbn in Hj. lia.
  - intros p Hp _ H. by rewrite Hh, Z.bits_0 in H.
  - by rewrite He.
  - intros p n Hp Hs Hhp Hn. left. destruct (hf_buckets0 _ _ Hf p Hp Hs) as [-> E]. congruence.
Qed.

Lemma hpi_init_filled l filter : Forall (fun s => 0 <= hs_priority s) l -> Z.of_nat (length l) < 2 ^ 32 ->
  let l' := match filter with Some f => List.filter f l | None => l end in
  exists it, lsquic_hpi_init l filter = Some it /\ hpi_filled it l' /\ (length l' <= length l)%nat.
Proof.
  intros Hp Hlen l'. assert (Hl' : Forall (fun s => 0 <= hs_priority s) l' /\ (length l' <= length l)%nat).
  { unfold l'. destruct filter as [f|]; [|done]. split; [|apply filter_length_le].
    apply Forall_forall. intros s Hs%list_elem_of_In. apply filter_In in Hs as [Hs%list_elem_of_In _]. rewrite Forall_forall in Hp. by apply Hp. }
  destruct (add_streams_filled l' hpi_init_empty [] empty_filled (proj1 Hl')) as (it & E & Hf); [cbn [length]; lia|].
  exists it. split; [exact E|]. split; [exact Hf|apply Hl'].
Qed.

(** Every stream is in one bucket. *)
Lemma sum9_buckets l : Forall (fun s => 0 <= hs_priority s) l ->
  sum9 (fun p => (length (of_bucket false p l) + length (of_bucket true p l))%nat) = length l.
Proof.
  induction l as [|s l IH]; intros Hl; [done|]. apply Forall_cons in Hl as [Hs Hl]. cbn [length]. rewrite <- (IH Hl).
  pose proof (hpi_prio_range s Hs) as Hp. apply (sum9_take _ _ (hpi_prio s)); [done| |].
  - unfold of_bucket. cbn [List.filter]. rewrite Z.eqb_refl. destruct (hpi_incr s); cbn [Bool.eqb andb length]; lia.
  - intros j Hj Hne. unfold of_bucket. cbn [List.filter]. replace (hpi_prio s =? j) with false by lia. by rewrite !andb_false_r.
Qed.

Lemma filled_remaining it l : hpi_filled it l -> Forall (fun s => 0 <= hs_priority s) l -> remaining it = length l.
Proof.
  intros Hf Hl. rewrite <- (sum9_buckets l Hl). unfold remaining, sum9.
  rewrite !(filled_nonincr it l _ Hf), !(filled_incr it l _ Hf) by lia. by rewrite !length_map.
Qed.

(** * The order of the streams *)

(** The pointers of the streams of the first buckets, in turn: those of a bucket that
    are not incremental as in [N], then the incremental ones in the order of [l]. *)
Definition by_urgency (N : Z -> list hpi_stream) (l : list hpi_stream) : list hpi_stream :=
  concat (map (fun p => N p ++ of_bucket true p l) (seqZ 0 9)).

Lemma perm_map_inv {A B} (f : A -> B) (k : list B) (l : list A) : k ≡ₚ map f l -> exists l', k = map f l' /\ l' ≡ₚ l.
Proof.
  intros H. apply Permutation_map_inv in H as (l' & E & Hp). exists l'. split; [exact E|by symmetry].
Qed.

Definition le_id (a b : hpi_stream) : Prop := hs_id a <= hs_id b.

Lemma sorted_map_elem l : StronglySorted le_val (map elem_of l) -> StronglySorted le_id l.
Proof.
  induction l as [|s l IH]; intros H; [constructor|]. cbn in H. apply StronglySorted_inv in H as [H1 H2]. constructor; [by apply IH|].
  rewrite Forall_map in H2. exact H2.
Qed.

(** The choice of the lists of streams out of those of the heap elements. *)
Lemma choose9 (P : Z -> list hpi_stream -> Prop) : (forall p, 0 <= p < 9 -> exists l, P p l) -> exists N, forall p, 0 <= p < 9 -> P p (N p).
Proof.
  intros H. assert (Hn : forall n : nat, (n <= 9)%nat -> exists N, forall p, 0 <= p < Z.of_nat n -> P p (N p)).
  { induction n as [|n IH]; intros Hn; [exists (fun _ => []); intros p Hp; lia|].
    destruct (IH ltac:(lia)) as [N HN]. destruct (H (Z.of_nat n) ltac:(lia)) as [l Hl]. exists (fun p => if p =? Z.of_nat n then l else N p).
    intros p Hp. destruct (Z.eqb_spec p (Z.of_nat n)) as [->|]; [done|]. apply HN. lia. }
  by apply (Hn 9%nat).
Qed.

(** A list of streams in the order of the iterator: every stream once, by urgency; those
    of an urgency that are not incremental by identifier or, if there are more than 236
    of them and an allocation fails, in their order in the list. *)
Definition served (l : list hpi_stream) (ms : list bool) (r : list Z) : Prop := exists N,
  r = map hs_ptr (by_urgency N l) /\ by_urgency N l ≡ₚ l /\
  forall p, 0 <= p < 9 -> N p ≡ₚ of_bucket false p l /\
    (StronglySorted le_id (N p) \/ (false ∈ ms /\ 236 < Z.of_nat (length (of_bucket false p l)) /\ N p = of_bucket false p l)).

Lemma concat_take_perm (F F' : Z -> list hpi_stream) p x : 0 <= p < 9 -> F p ≡ₚ x :: F' p ->
  (forall j, 0 <= j < 9 -> j <> p -> F j = F' j) -> concat (map F (seqZ 0 9)) ≡ₚ x :: concat (map F' (seqZ 0 9)).
Proof.
  intros Hp Hx Heq. replace (seqZ 0 9) with (seqZ 0 p ++ p :: seqZ (p + 1) (8 - p)).
  2: { replace 9 with (p + (1 + (8 - p))) by lia. rewrite !seqZ_app by lia. rewrite Z.add_0_l. change (seqZ p 1) with [0 + p]. by rewrite Z.add_0_l. }
  rewrite !map_app, !concat_app. cbn [map concat]. rewrite Hx.
  rewrite (map_ext_in F F' (seqZ 0 p)) by (intros j Hj%list_elem_of_In%elem_of_seqZ; apply Heq; lia).
  rewrite (map_ext_in F F' (seqZ (p + 1) (8 - p))) by (intros j Hj%list_elem_of_In%elem_of_seqZ; apply Heq; lia).
  cbn [app]. symmetry. apply Permutation_middle.
Qed.

Lemma buckets_perm l : Forall (fun s => 0 <= hs_priority s) l -> by_urgency (fun p => of_bucket false p l) l ≡ₚ l.
Proof.
  induction l as [|s l IH]; intros Hl; [done|]. apply Forall_cons in Hl as [Hs Hl].
  transitivity (s :: by_urgency (fun p => of_bucket false p l) l); [|by rewrite (IH Hl)].
  pose proof (hpi_prio_range s Hs) as Hp. apply (concat_take_perm _ _ (hpi_prio s)); [done| |].
  - unfold of_bucket. cbn [List.filter]. rewrite Z.eqb_refl. destruct (hpi_incr s); cbn [Bool.eqb andb app]; [symmetry; apply Permutation_middle|done].
  - intros j Hj Hne. unfold of_bucket. cbn [List.filter]. replace (hpi_prio s =? j) with false by lia. by rewrite !andb_false_r.
Qed.

Lemma by_urgency_perm N l : Forall (fun s => 0 <= hs_priority s) l -> (forall p, 0 <= p < 9 -> N p ≡ₚ of_bucket false p l) -> by_urgency N l ≡ₚ l.
Proof.
  intros Hl HN. transitivity (by_urgency (fun p => of_bucket false p l) l); [|by apply buckets_perm]. unfold by_urgency.
  assert (H : forall k, (forall p, p ∈ k -> 0 <= p < 9) -> concat (map (fun p => N p ++ of_bucket true p l) k) ≡ₚ
    concat (map (fun p => of_bucket false p l ++ of_bucket true p l) k)).
  { induction k as [|p k IH]; intros Hk; [done|]. cbn. rewrite IH by (intros q Hq; apply Hk; by right). by rewrite HN by (apply Hk; by left). }
  apply H. intros p Hp%elem_of_seqZ. lia.
Qed.

(** What the order of a bucket is at the start. *)
Lemma filled_ordered it l ms p N : hpi_filled it l -> 0 <= p < 9 -> ordered it ms p N -> N ≡ₚ map elem_of (of_bucket false p l) ->
  StronglySorted le_val N \/ (false ∈ ms /\ 236 < Z.of_nat (length (of_bucket false p l)) /\ N = map elem_of (of_bucket false p l)).
Proof.
  intros Hf Hp Ho HN. destruct (hf_heap _ _ Hf) as [Hh _]. rewrite <- (filled_nonincr it l p Hf Hp) in *. destruct (Z.testbit (hpi_set0 it) p) eqn:Es.
  - destruct (Ho Es) as [_ Ho2]. rewrite Hh, Z.bits_0 in Ho2. destruct (hf_buckets0 _ _ Hf p Hp Es) as [_ Hc]. specialize (Ho2 eq_refl _ Hc).
    destruct (Z.eqb_spec (Z.of_nat (length (of_bucket false p l))) 1) as [E1|]; [|exact Ho2]. left. rewrite Ho2, (filled_nonincr it l p Hf Hp).
    destruct (of_bucket false p l) as [|x [|]]; [constructor|repeat constructor|cbn in E1; lia].
  - left. unfold nonincr in HN. rewrite Es in HN. apply Permutation_nil_r in HN as ->. constructor.
Qed.

Lemma hpi_all_served it l ms fuel : hpi_filled it l -> Forall (fun s => 0 <= hs_priority s) l -> (length l <= fuel)%nat ->
  exists r, hpi_all fuel it ms = Some r /\ served l ms r.
Proof.
  intros Hf Hl Hlen. pose proof (filled_ok it l Hf) as Hok.
  destruct (hpi_all_ok fuel it ms Hok) as (r & E & N & -> & HN & Hsort); [rewrite (filled_remaining it l Hf Hl); lia|]. eexists. split; [exact E|].
  destruct (choose9 (fun p k => N p = map elem_of k /\ k ≡ₚ of_bucket false p l /\
    (StronglySorted le_id k \/ (false ∈ ms /\ 236 < Z.of_nat (length (of_bucket false p l)) /\ k = of_bucket false p l)))) as [K HK].
  { intros p Hp. pose proof (HN p Hp) as HNp. rewrite (filled_nonincr it l p Hf Hp) in HNp.
    destruct (filled_ordered it l ms p (N p) Hf Hp (Hsort p Hp) HNp) as [Hs|(Hms & Hbig & Eq)].
    - apply perm_map_inv in HNp as (k & Ek & Hk). exists k. split; [done|]. split; [done|]. left. apply sorted_map_elem. by rewrite <- Ek.
    - exists (of_bucket false p l). split; [done|]. split; [done|]. by right. }
  exists K. split; [|split].
  - unfold in_order, by_urgency. rewrite concat_map, map_map. f_equal. apply map_ext_in. intros p Hp%list_elem_of_In%elem_of_seqZ.
    rewrite map_app, (filled_incr it l p Hf) by lia. rewrite (proj1 (HK p ltac:(lia))), map_map. done.
  - apply by_urgency_perm; [done|]. intros p Hp. by apply HK.
  - intros p Hp. by apply HK.
Qed.

(** * Dropping buckets *)

Definition in_bucket (b : bool) (p : Z) (s : hpi_stream) : bool := Bool.eqb (hpi_incr s) b && (hpi_prio s =? p).

(** The bucket whose turn is first. *)
Definition high_bucket (b : bool) (p : Z) (l : list hpi_stream) : Prop :=
  0 <= p < 9 /\ of_bucket b p l <> [] /\ (forall j c, 0 <= j < p -> of_bucket c j l = []) /\ (b = true -> of_bucket false p l = []).

Lemma hpi_bits_range n : forall i v, 0 <= hpi_bits n i v.
Proof. induction n as [|n IH]; intros i v; cbn [hpi_bits]; [lia|]. specialize (IH (i + 1) v). destruct (Z.testbit v i); cbn; lia. Qed.

Lemma hpi_bits_drop n : forall i v p, 0 <= i -> 0 <= p ->
  hpi_bits n i v = hpi_bits n i (Z.ldiff v (pbit p)) + b2z ((i <=? p) && (p <? i + Z.of_nat n) && Z.testbit v p).
Proof.
  induction n as [|n IH]; intros i v p Hi Hp; cbn [hpi_bits].
  - replace (p <? i + Z.of_nat 0) with (negb (i <=? p)) by lia. by destruct (i <=? p).
  - rewrite (IH (i + 1) v p) by lia. rewrite ldiff_pbit by lia. destruct (Z.eqb_spec i p) as [->|Hne].
    + replace (p + 1 <=? p) with false by lia. replace (p <=? p) with true by lia. replace (p <? p + Z.of_nat (S n)) with true by lia.
      rewrite andb_false_r. cbn. destruct (Z.testbit v p); cbn; lia.
    + rewrite andb_true_r. replace (i <=? p) with (i + 1 <=? p) by lia. replace (i + Z.of_nat (S n)) with (i + 1 + Z.of_nat n) by lia. lia.
Qed.

Lemma hpi_bits_bit v p : 0 <= p < 32 -> Z.testbit v p = true -> hpi_bits 32 0 v = hpi_bits 32 0 (Z.ldiff v (pbit p)) + 1.
Proof. intros Hp Hv. rewrite (hpi_bits_drop 32 0 v p), Hv by lia. by ztest. Qed.

Lemma hpi_bits_0 n i : hpi_bits n i 0 = 0.
Proof. revert i. induction n as [|n IH]; intros i; cbn [hpi_bits]; [done|]. by rewrite Z.bits_0, IH. Qed.

Lemma of_bucket_nil b p l : of_bucket b p l = [] <-> forall s, In s l -> in_bucket b p s = false.
Proof.
  unfold of_bucket. fold (in_bucket b p). split.
  - intros H s Hs. destruct (in_bucket b p s) eqn:E; [|done]. exfalso. assert (In s []) as []. rewrite <- H. by apply filter_In.
  - induction l as [|s l IH]; intros H; [done|]. cbn. rewrite H by (by left). apply IH. intros x Hx. apply H. by right.
Qed.

Lemma of_bucket_filter (keep : bool -> Z -> bool) c j l :
  of_bucket c j (List.filter (fun s => keep (hpi_incr s) (hpi_prio s)) l) = if keep c j then of_bucket c j l else [].
Proof.
  induction l as [|s l IH]; [by destruct (keep c j)|]. unfold of_bucket in *. cbn [List.filter].
  destruct (Bool.eqb (hpi_incr s) c && (hpi_prio s =? j)) eqn:E.
  - assert (hpi_incr s = c /\ hpi_prio s = j) as [-> ->] by (apply andb_true_iff in E as [?%Bool.eqb_prop ?%Z.eqb_eq]; done).
    destruct (keep c j) eqn:Ek; [|exact IH]. cbn [List.filter]. by rewrite E, IH.
  - destruct (keep (hpi_incr s) (hpi_prio s)); [|done]. cbn [List.filter]. by rewrite E.
Qed.

Lemma filled_restrict it l (keep : bool -> Z -> bool) s0 s1 : hpi_filled it l -> is_set9 s0 -> is_set9 s1 ->
  (forall j, 0 <= j < 9 -> Z.testbit s0 j = Z.testbit (hpi_set0 it) j && keep false j /\ Z.testbit s1 j = Z.testbit (hpi_set1 it) j && keep true j) ->
  hpi_filled (HPI s0 s1 (hpi_counts it) (hpi_heaped it) (hpi_streams0 it) (hpi_streams1 it) (hpi_min_heap it) (hpi_mem it))
    (List.filter (fun s => keep (hpi_incr s) (hpi_prio s)) l).
Proof.
  intros Hf H0 H1 Hk. split; try done; try apply Hf; cbn.
  - intros j Hj. destruct (Hk j Hj) as [-> ->]. destruct (hf_bits _ _ Hf j Hj) as [-> ->]. rewrite !of_bucket_filter.
    split; [destruct (keep false j)|destruct (keep true j)]; by rewrite ?andb_true_r, ?andb_false_r.
  - intros j Hj Hb. rewrite (proj1 (Hk j Hj)) in Hb. apply andb_true_iff in Hb as [Hb Ek]. rewrite of_bucket_filter, Ek. by apply (hf_buckets0 _ _ Hf).
  - intros j Hj Hb. rewrite (proj2 (Hk j Hj)) in Hb. apply andb_true_iff in Hb as [Hb Ek]. rewrite of_bucket_filter, Ek. by apply (hf_buckets1 _ _ Hf).
Qed.

Lemma calc_high it l b p : hpi_filled it l -> high_bucket b p l -> calc_next_prio_and_incr it = Some (p, b).
Proof.
  intros Hf (Hp & Hne & Hlow & Hb). unfold calc_next_prio_and_incr. destruct (hf_sets _ _ Hf) as [Hs0 Hs1].
  destruct (ntz_ok _ Hs0) as (p0 & -> & Hp0 & Hb0 & Hl0). destruct (ntz_ok _ Hs1) as (p1 & -> & Hp1 & Hb1 & Hl1). cbn [mbind option_bind].
  assert (Hge : p <= p0 /\ p <= p1).
  { split; [destruct (Z.le_gt_cases p p0) as [|Hlt]; [done|]|destruct (Z.le_gt_cases p p1) as [|Hlt]; [done|]]; exfalso.
    - pose proof (Hb0 ltac:(lia)) as H. rewrite (proj1 (hf_bits _ _ Hf p0 ltac:(lia))), (Hlow p0 false) in H by lia. done.
    - pose proof (Hb1 ltac:(lia)) as H. rewrite (proj2 (hf_bits _ _ Hf p1 ltac:(lia))), (Hlow p1 true) in H by lia. done. }
  destruct (hf_bits _ _ Hf p Hp) as [B0 B1]. destruct b.
  - rewrite (Hb eq_refl) in B0. assert (p1 = p) as ->.
    { destruct (Z.eq_dec p1 p); [done|]. exfalso. rewrite Hl1 in B1 by lia. by destruct (of_bucket true p l). }
    assert (p0 <> p) by (intros ->; rewrite Hb0 in B0 by lia; done). by ztest.
  - assert (p0 = p) as ->.
    { destruct (Z.eq_dec p0 p); [done|]. exfalso. rewrite Hl0 in B0 by lia. by destruct (of_bucket false p l). }
    by ztest.
Qed.

(** The masks have one bit iff all the streams are in one bucket. *)
Lemma one_bucket it l b p : hpi_filled it l -> high_bucket b p l ->
  (hpi_bits 32 0 (hpi_set0 it) + hpi_bits 32 0 (hpi_set1 it) <? 2) = true -> forall c j, 0 <= j < 9 -> (c, j) <> (b, p) -> of_bucket c j l = [].
Proof.
  intros Hf (Hp & Hne & _) Hlt c j Hj Hcj. apply Z.ltb_lt in Hlt. destruct (of_bucket c j l) eqn:E; [done|]. exfalso.
  pose proof (hpi_bits_range 32 0) as Hr.
  assert (Hbit : forall d q, 0 <= q < 9 -> of_bucket d q l <> [] -> Z.testbit (if (d : bool) then hpi_set1 it else hpi_set0 it) q = true).
  { intros d q Hq Hd. destruct (hf_bits _ _ Hf q Hq) as [B0 B1]. destruct d; [rewrite B1|rewrite B0]; by destruct (of_bucket _ q l). }
  pose proof (Hbit c j Hj ltac:(by rewrite E)) as Hbj. pose proof (Hbit b p Hp Hne) as Hbp.
  assert (Hone : forall d q, 0 <= q < 9 -> Z.testbit (if (d : bool) then hpi_set1 it else hpi_set0 it) q = true ->
    1 <= hpi_bits 32 0 (if d then hpi_set1 it else hpi_set0 it)).
  { intros d q Hq Hd. rewrite (hpi_bits_bit _ q) by (done || lia). specialize (Hr (Z.ldiff (if d then hpi_set1 it else hpi_set0 it) (pbit q))). lia. }
  destruct (Bool.bool_dec b c) as [->|Hbc].
  - assert (j <> p) by (intros ->; by apply Hcj). set (v := if c then hpi_set1 it else hpi_set0 it) in *.
    assert (2 <= hpi_bits 32 0 v).
    { rewrite (hpi_bits_bit v p), (hpi_bits_bit (Z.ldiff v (pbit p)) j); [|lia| |lia|done].
      - specialize (Hr (Z.ldiff (Z.ldiff v (pbit p)) (pbit j))). lia.
      - rewrite ldiff_pbit, Hbj by lia. by ztest. }
    pose proof (Hr (hpi_set0 it)). pose proof (Hr (hpi_set1 it)). unfold v in *. destruct c; lia.
  - pose proof (Hone c j Hj Hbj). pose proof (Hone b p Hp Hbp). destruct b, c; try done; lia.
Qed.

Lemma more_buckets it l b p : hpi_filled it l -> high_bucket b p l ->
  (forall c j, 0 <= j < 9 -> (c, j) <> (b, p) -> of_bucket c j l = []) -> (hpi_bits 32 0 (hpi_set0 it) + hpi_bits 32 0 (hpi_set1 it) <? 2) = true.
Proof.
  intros Hf (Hp & Hne & _) Hothers. destruct (hf_sets _ _ Hf) as [Hs0 Hs1].
  assert (Hoff : forall c j, 0 <= j < 9 -> (c, j) <> (b, p) -> Z.testbit (if (c : bool) then hpi_set1 it else hpi_set0 it) j = false).
  { intros c j Hj Hcj. destruct (hf_bits _ _ Hf j Hj) as [B0 B1]. specialize (Hothers c j Hj Hcj). destruct c; [by rewrite B1, Hothers|by rewrite B0, Hothers]. }
  assert (Hon : Z.testbit (if b then hpi_set1 it else hpi_set0 it) p = true).
  { destruct (hf_bits _ _ Hf p Hp) as [B0 B1]. destruct b; [rewrite B1|rewrite B0]; by destruct (of_bucket _ p l). }
  assert (H1 : hpi_bits 32 0 (if b then hpi_set1 it else hpi_set0 it) = 1).
  { rewrite (hpi_bits_bit _ p) by (done || lia). rewrite (set9_zero (Z.ldiff _ _)); [done|apply ldiff_set9; [by destruct b|lia]|].
    intros j Hj. rewrite ldiff_pbit by lia. destruct (Z.eqb_spec j p) as [->|Hjp]; [by rewrite andb_false_r|]. rewrite andb_true_r.
    apply Hoff; [done|]. intros [= E]. lia. }
  assert (H0 : hpi_bits 32 0 (if b then hpi_set0 it else hpi_set1 it) = 0).
  { rewrite (set9_zero (if b then hpi_set0 it else hpi_set1 it)); [apply hpi_bits_0|by destruct b|]. intros j Hj. pose proof (Hoff (negb b) j Hj) as H.
    destruct b; cbn in H; apply H; done. }
  destruct b; lia.
Qed.

Lemma filter_all {A} (f : A -> bool) l : forallb f l = true -> List.filter f l = l.
Proof. induction l as [|x l IH]; intros H; [done|]. cbn in *. apply andb_true_iff in H as [-> H]. by rewrite IH. Qed.

Lemma others_empty b p l : Forall (fun s => 0 <= hs_priority s) l ->
  forallb (in_bucket b p) l = true <-> forall c j, 0 <= j < 9 -> (c, j) <> (b, p) -> of_bucket c j l = [].
Proof.
  intros Hl. rewrite forallb_forall. split.
  - intros H c j Hj Hcj. apply of_bucket_nil. intros s Hs. specialize (H s Hs). unfold in_bucket in *. apply andb_true_iff in H as [<-%Bool.eqb_prop <-%Z.eqb_eq].
    apply not_true_iff_false. intros [<-%Bool.eqb_prop <-%Z.eqb_eq]%andb_true_iff. done.
  - intros H s Hs. apply not_false_iff_true. intros E. rewrite Forall_forall in Hl. pose proof (hpi_prio_range s (Hl s ltac:(by apply list_elem_of_In))) as Hr.
    assert (Hb : in_bucket (hpi_incr s) (hpi_prio s) s = true) by (unfold in_bucket; by rewrite Bool.eqb_reflx, Z.eqb_refl).
    specialize (H (hpi_incr s) (hpi_prio s) Hr). rewrite of_bucket_nil in H. rewrite (H ltac:(congruence) s Hs) in Hb. done.
Qed.

Lemma pbit_set9 p : 0 <= p < 9 -> is_set9 (pbit p).
Proof. intros Hp. replace (pbit p) with (Z.lor 0 (pbit p)) by apply Z.lor_0_l. by apply lor_set9. Qed.

Lemma pbit_bits p j : 0 <= p -> 0 <= j -> Z.testbit (pbit p) j = (j =? p).
Proof. intros Hp Hj. rewrite <- (Z.lor_0_l (pbit p)), lor_pbit by done. by rewrite Z.bits_0. Qed.

Lemma drop_filled it l b p drop_high : hpi_filled it l -> Forall (fun s => 0 <= hs_priority s) l -> high_bucket b p l ->
  exists it', hpi_drop_high_or_non_high it drop_high = Some it' /\
    hpi_filled it' (if forallb (in_bucket b p) l then l else List.filter (fun s => xorb drop_high (in_bucket b p s)) l).
Proof.
  intros Hf Hl Hh. unfold hpi_drop_high_or_non_high. destruct (_ <? 2) eqn:Ebits.
  { pose proof (one_bucket it l b p Hf Hh Ebits) as H. apply (others_empty b p l Hl) in H. rewrite H. by exists it. }
  replace (forallb (in_bucket b p) l) with false.
  2: { symmetry. apply not_true_iff_false. intros H. rewrite (others_empty b p l Hl) in H. rewrite (more_buckets it l b p Hf Hh H) in Ebits. done. }
  rewrite (calc_high it l b p Hf Hh). cbn [mbind option_bind]. eexists. split; [done|]. destruct (hf_sets _ _ Hf) as [Hs0 Hs1].
  assert (Hp : 0 <= p < 9) by apply Hh.
  pose proof (proj2 (hf_bits _ _ Hf p Hp)) as B1. pose proof (proj1 (hf_bits _ _ Hf p Hp)) as B0.
  assert (Hne : of_bucket b p l <> []) by apply Hh.
  destruct drop_high; [destruct b|destruct b].
  - apply (filled_restrict it l (fun c j => negb (Bool.eqb c true && (j =? p)))); [done|done|by apply ldiff_set9; [|lia]|]. intros j Hj. cbn.
    by rewrite andb_true_r, ldiff_pbit by lia.
  - apply (filled_restrict it l (fun c j => negb (Bool.eqb c false && (j =? p)))); [done|by apply ldiff_set9; [|lia]|done|]. intros j Hj. cbn.
    by rewrite andb_true_r, ldiff_pbit by lia.
  - apply (filled_restrict it l (fun c j => Bool.eqb c true && (j =? p))); [done|done|by apply pbit_set9|]. intros j Hj. cbn.
    rewrite andb_false_r, Z.bits_0, pbit_bits by lia. split; [done|]. destruct (Z.eqb_spec j p) as [->|]; [|by rewrite andb_false_r].
    rewrite B1. by destruct (of_bucket true p l).
  - apply (filled_restrict it l (fun c j => Bool.eqb c false && (j =? p))); [done|by apply pbit_set9|done|]. intros j Hj. cbn.
    rewrite andb_false_r, Z.bits_0, pbit_bits by lia. split; [|done]. destruct (Z.eqb_spec j p) as [->|]; [|by rewrite andb_false_r].
    rewrite B0. by destruct (of_bucket false p l).
Qed.

(** * Theorems *)

(** C31: an HTTP priority iterator made of any streams (fewer than 2^32), with or without
    a filter and whatever allocations fail, returns each of the streams exactly once:
    critical streams first, then by urgency, the streams of an urgency that are not
    incremental before the incremental ones, which keep their order.  Those of an
    urgency that are not incremental come in the order of their identifiers; only if
    there are more than 236 of them, so that the heap must be allocated, and the
    allocation fails, the ordering is abandoned and they come in their order in the list.
    Dropping the bucket that is first, or the buckets that are not, leaves the other
    streams, respectively those of the bucket, unless there is one bucket only. *)
Theorem hpi_iterates l filter ms :
  Forall (fun s => 0 <= hs_priority s) l -> Z.of_nat (length l) < 2 ^ 32 ->
  let l' := match filter with Some f => List.filter f l | None => l end in
  exists it r, lsquic_hpi_init l filter = Some it /\ hpi_all (length l) it ms = Some r /\ served l' ms r /\
    forall b p, high_bucket b p l' -> exists high low rh rl,
      lsquic_hpi_drop_non_high it = Some high /\ hpi_all (length l) high ms = Some rh /\ served (List.filter (in_bucket b p) l') ms rh /\
      lsquic_hpi_drop_high it = Some low /\ hpi_all (length l) low ms = Some rl /\
      served (if forallb (in_bucket b p) l' then l' else List.filter (fun s => negb (in_bucket b p s)) l') ms rl.
Proof.
  intros Hp Hlen l'. destruct (hpi_init_filled l filter Hp Hlen) as (it & E & Hf & Hl). fold l' in Hf, Hl.
  assert (Hsub : forall f k, Forall (fun s => 0 <= hs_priority s) k -> Forall (fun s => 0 <= hs_priority s) (List.filter f k)).
  { intros f k Hk. apply Forall_forall. intros s Hs%list_elem_of_In. apply filter_In in Hs as [Hs%list_elem_of_In _]. rewrite Forall_forall in Hk. by apply Hk. }
  assert (Hl' : Forall (fun s => 0 <= hs_priority s) l') by (unfold l'; destruct filter; [by apply Hsub|done]).
  destruct (hpi_all_served it l' ms (length l) Hf Hl' Hl) as (r & Er & Hr). exists it, r. split; [done|]. split; [done|]. split; [done|].
  intros b p Hh. destruct (drop_filled it l' b p false Hf Hl' Hh) as (high & Eh & Hfh). destruct (drop_filled it l' b p true Hf Hl' Hh) as (low & El & Hfl).
  replace (if forallb (in_bucket b p) l' then l' else List.filter (fun s => xorb false (in_bucket b p s)) l') with (List.filter (in_bucket b p) l') in Hfh.
  2: { destruct (forallb _ l') eqn:Ea; [by apply filter_all|]. apply List.filter_ext. intros s. by destruct (in_bucket b p s). }
  set (k := if forallb (in_bucket b p) l' then l' else List.filter (fun s => negb (in_bucket b p s)) l').
  assert (Hk : hpi_filled low k) by exact Hfl.
  destruct (hpi_all_served high _ ms (length l) Hfh (Hsub _ _ Hl')) as (rh & Erh & Hrh).
  { pose proof (filter_length_le (in_bucket b p) l'). lia. }
  destruct (hpi_all_served low k ms (length l) Hk) as (rl & Erl & Hrl).
  { unfold k. destruct (forallb _ l'); [done|by apply Hsub]. }
  { unfold k. destruct (forallb _ l'); [done|]. pose proof (filter_length_le (fun s => negb (in_bucket b p s)) l'). lia. }
  by exists high, low, rh, rl.
Qed.

Lemma hpi_iterates_witness : exists it r, lsquic_hpi_init demo_hpi (Some (fun s => negb (hs_ptr s =? 6))) = Some it /\
  hpi_all 6 it [false] = Some r /\ served (List.filter (fun s => negb (hs_ptr s =? 6)) demo_hpi) [false] r /\ In 5 r.
Proof.
  destruct (hpi_iterates demo_hpi (Some (fun s => negb (hs_ptr s =? 6))) [false]) as (it & r & E & Er & Hr & _).
  - apply (bool_decide_unpack _). by vm_compute.
  - by vm_compute.
  - exists it, r. split; [exact E|]. split; [exact Er|]. split; [exact Hr|]. destruct Hr as (N & -> & Hperm & _).
    apply in_map_iff. exists (HS 5 12 false 3 false). split; [done|]. apply list_elem_of_In. rewrite Hperm. apply list_elem_of_In. cbn. tauto.
Defined.
