(* ===== verification/Alarms.v ===== *)
(** Alarms of a connection (lsquic_alarmset.c, lsquic_alarmset.h): a bit mask of
    alarms that are armed and the times at which they expire. *)
From Stdlib Require Import Sorted.
From S2P Require Import Prelude.
Local Open Scope Z_scope.

(** [enum alarm_id]; those of the packet number spaces are [AL_RETX_INIT + pns]. *)
Definition AL_HANDSHAKE : Z := 0.
Definition AL_RETX_INIT : Z := 1.
Definition AL_PACK_TOL : Z := 16.
Definition AL_ART_SCHE : Z := 17.
Definition MAX_LSQUIC_ALARMS : Z := 19.

(** [as_alarms] says of each alarm whether it has a callback. *)
Record alarmset := ALS { as_armed_set : Z; as_expiry : list Z; as_alarms : list bool }.

(** [1 << al_id] *)
Definition albit (al_id : Z) : Z := Z.shiftl 1 al_id.

(** The connection that holds the set is zeroed memory. *)
Definition lsquic_alarmset_init : alarmset := ALS 0 (replicate 19 0) (replicate 19 false).

(** [None]: an index out of bounds, here and below. *)
Definition lsquic_alarmset_init_alarm (al : alarmset) (al_id : Z) : option alarmset :=
  alarms ← aset (as_alarms al) al_id true;
  Some (ALS (as_armed_set al) (as_expiry al) alarms).

Definition lsquic_alarmset_set (al : alarmset) (al_id exp : Z) : option alarmset :=
  expiry ← aset (as_expiry al) al_id exp;
  Some (ALS (Z.lor (as_armed_set al) (albit al_id)) expiry (as_alarms al)).

Definition lsquic_alarmset_unset (al : alarmset) (al_id : Z) : alarmset :=
  ALS (Z.ldiff (as_armed_set al) (albit al_id)) (as_expiry al) (as_alarms al).

Definition lsquic_alarmset_is_set (al : alarmset) (al_id : Z) : bool := has_flag (as_armed_set al) (albit al_id).
Definition lsquic_alarmset_are_set (al : alarmset) (flags : Z) : bool := has_flag (as_armed_set al) flags.
Definition lsquic_alarmset_is_inited (al : alarmset) (al_id : Z) : option bool := aget (as_alarms al) al_id.

(** The loop of [lsquic_alarmset_mintime]. *)
Fixpoint mintime_loop (n : nat) (al : alarmset) (al_id expiry ret_id : Z) : option (Z * Z) :=
  match n with
  | O => Some (expiry, ret_id)
  | S n =>
    e ← aget (as_expiry al) al_id;
    if lsquic_alarmset_is_set al al_id && (e <? expiry) then mintime_loop n al (al_id + 1) e al_id
    else mintime_loop n al (al_id + 1) expiry ret_id
  end.

(** The time, and the alarm unless no alarm is armed. *)
Definition lsquic_alarmset_mintime (al : alarmset) : option (Z * option Z) :=
  if negb (as_armed_set al =? 0) then
    '(expiry, id) ← mintime_loop (Z.to_nat MAX_LSQUIC_ALARMS) al 0 (2 ^ 64 - 1) 0;
    Some (expiry, Some id)
  else Some (0, None).

Section ring.
Context {S : Type}.
(** The callbacks by alarm, with the time of expiry and the current time; they see
    the alarms and the state of their owner.  [None] is a fault. *)
Context (callback : Z -> Z -> Z -> alarmset * S -> option (alarmset * S)).

(** One alarm of the loop; the list says whether it rang. *)
Definition ring_one (al_id armed now : Z) (st : alarmset * S) : option (list Z * (alarmset * S)) :=
  if has_flag armed (albit al_id) then
    e ← aget (as_expiry st.1) al_id;
    if e <? now then
      let al := lsquic_alarmset_unset st.1 al_id in
      inited ← aget (as_alarms al) al_id;
      if negb inited then None else
      e ← aget (as_expiry al) al_id;
      st ← callback al_id e now (al, st.2);
      Some ([al_id], st)
    else Some ([], st)
  else Some ([], st).

Fixpoint ring_loop (n : nat) (al_id armed now : Z) (st : alarmset * S) : option (list Z * (alarmset * S)) :=
  match n with
  | O => Some ([], st)
  | Datatypes.S n =>
    if armed =? 0 then Some ([], st) else
    '(rang, st) ← ring_one al_id armed now st;
    '(rest, st) ← ring_loop n (al_id + 1) (Z.ldiff armed (albit al_id)) now st;
    Some (rang ++ rest, st)
  end.

(** The alarms that rang, in order, and the state. *)
Definition lsquic_alarmset_ring_expired (now : Z) (st : alarmset * S) : option (list Z * (alarmset * S)) :=
  ring_loop (Z.to_nat MAX_LSQUIC_ALARMS) 0 (as_armed_set st.1) now st.

End ring.

(** * Alarms as a map *)

Record alarms_ok (al : alarmset) : Prop := {
  al_set : 0 <= as_armed_set al;
  al_high : forall i, 19 <= i -> Z.testbit (as_armed_set al) i = false;
  al_lengths : length (as_expiry al) = 19%nat /\ length (as_alarms al) = 19%nat
}.

(** The time at which an alarm rings, if it is armed. *)
Definition alarm (al : alarmset) (i : Z) : option Z := if Z.testbit (as_armed_set al) i then aget (as_expiry al) i else None.

Definition inited (al : alarmset) (i : Z) : Prop := aget (as_alarms al) i = Some true.

Lemma albit_eq i : albit i = 2 ^ i.
Proof. apply Z.shiftl_1_l. Qed.

Lemma has_albit s i : 0 <= i -> has_flag s (albit i) = Z.testbit s i.
Proof. intros Hi. rewrite albit_eq. by apply has_bit. Qed.

Lemma ldiff_albit s i j : 0 <= i -> 0 <= j -> Z.testbit (Z.ldiff s (albit i)) j = Z.testbit s j && negb (j =? i).
Proof. intros Hi Hj. rewrite Z.ldiff_spec, albit_eq, Z.pow2_bits_eqb by done. by rewrite (Z.eqb_sym i j). Qed.

Lemma lor_albit s i j : 0 <= i -> 0 <= j -> Z.testbit (Z.lor s (albit i)) j = Z.testbit s j || (j =? i).
Proof. intros Hi Hj. rewrite Z.lor_spec, albit_eq, Z.pow2_bits_eqb by done. by rewrite (Z.eqb_sym i j). Qed.

Lemma alarm_expiry al i e : alarm al i = Some e -> Z.testbit (as_armed_set al) i = true /\ aget (as_expiry al) i = Some e.
Proof. unfold alarm. by destruct (Z.testbit _ i). Qed.

Lemma alarm_range al i e : alarms_ok al -> alarm al i = Some e -> 0 <= i < 19.
Proof. intros Hok [_ H%aget_lt]%alarm_expiry. destruct (al_lengths _ Hok). lia. Qed.

Lemma is_set_alarm al i : alarms_ok al -> 0 <= i < 19 -> lsquic_alarmset_is_set al i = match alarm al i with Some _ => true | None => false end.
Proof.
  intros Hok Hi. unfold lsquic_alarmset_is_set, alarm. rewrite has_albit by lia. destruct (Z.testbit _ i); [|done].
  destruct (al_lengths _ Hok). by destruct (aget_is_Some (as_expiry al) i ltac:(lia)) as [e ->].
Qed.

Lemma unset_ok al i : alarms_ok al -> 0 <= i -> alarms_ok (lsquic_alarmset_unset al i).
Proof.
  intros [H0 Hh Hl] Hi. split; cbn; [apply Z.ldiff_nonneg; by left| |done]. intros j Hj. rewrite ldiff_albit by lia. by rewrite Hh.
Qed.

Lemma unset_alarm al i j : 0 <= i -> 0 <= j -> alarm (lsquic_alarmset_unset al i) j = if j =? i then None else alarm al j.
Proof. intros Hi Hj. unfold alarm. cbn. rewrite ldiff_albit by lia. by destruct (j =? i), (Z.testbit (as_armed_set al) j). Qed.

Lemma set_ok al i e : alarms_ok al -> 0 <= i < 19 -> exists al', lsquic_alarmset_set al i e = Some al' /\ alarms_ok al' /\
  as_alarms al' = as_alarms al /\ forall j, 0 <= j -> alarm al' j = if j =? i then Some e else alarm al j.
Proof.
  intros [H0 Hh [Hl1 Hl2]] Hi. unfold lsquic_alarmset_set. rewrite aset_ok by lia. cbn [mbind option_bind]. eexists. split; [done|].
  split; [split; cbn|split; [done|]].
  - apply Z.lor_nonneg. rewrite albit_eq. lia.
  - intros j Hj. rewrite lor_albit, Hh by lia. lia.
  - by rewrite length_insert.
  - intros j Hj. unfold alarm. cbn. rewrite lor_albit by lia. destruct (Z.eqb_spec j i) as [->|].
    + rewrite orb_true_r. by rewrite aget_insert_eq by lia.
    + rewrite orb_false_r. by rewrite aget_insert_ne by lia.
Qed.

Lemma init_alarms_ok : alarms_ok lsquic_alarmset_init.
Proof. split; cbn; [lia| |done]. intros i _. apply Z.bits_0. Qed.

Lemma init_alarm i : alarm lsquic_alarmset_init i = None.
Proof. unfold alarm. cbn. by rewrite Z.bits_0. Qed.

(** * The earliest alarm *)

Definition no_earlier (al : alarmset) (n t : Z) : Prop := forall j e, 0 <= j < n -> alarm al j = Some e -> t <= e.

Lemma mintime_loop_ok al : alarms_ok al -> forall n al_id expiry ret_id, 0 <= al_id -> al_id + Z.of_nat n = 19 ->
  no_earlier al al_id expiry ->
  exists t i, mintime_loop n al al_id expiry ret_id = Some (t, i) /\ no_earlier al 19 t /\
    ((t, i) = (expiry, ret_id) \/ alarm al i = Some t /\ t < expiry).
Proof.
  intros Hok. induction n as [|n IH]; intros al_id expiry ret_id H0 Hn Hmin; cbn [mintime_loop].
  { exists expiry, ret_id. split; [done|]. split; [|by left]. by replace 19 with al_id by lia. }
  destruct (al_lengths _ Hok) as [Hl _]. destruct (aget_is_Some (as_expiry al) al_id ltac:(lia)) as [e He]. rewrite He. cbn [mbind option_bind].
  unfold lsquic_alarmset_is_set. rewrite has_albit by lia.
  assert (Ha : alarm al al_id = if Z.testbit (as_armed_set al) al_id then Some e else None) by (unfold alarm; by rewrite He).
  destruct (Z.testbit (as_armed_set al) al_id && (e <? expiry)) eqn:E.
  - apply andb_true_iff in E as [Et El%Z.ltb_lt]. rewrite Et in Ha.
    destruct (IH (al_id + 1) e al_id ltac:(lia) ltac:(lia)) as (t & i & -> & Hall & Hi).
    { intros j x Hj Hx. destruct (Z.eq_dec j al_id) as [->|]; [rewrite Ha in Hx; by injection Hx as ->|]. specialize (Hmin j x ltac:(lia) Hx). lia. }
    exists t, i. split; [done|]. split; [done|]. right. destruct Hi as [[= -> ->]|[Hi Hlt]]; [done|]. split; [done|lia].
  - destruct (IH (al_id + 1) expiry ret_id ltac:(lia) ltac:(lia)) as (t & i & -> & Hall & Hi); [|by exists t, i].
    intros j x Hj Hx. destruct (Z.eq_dec j al_id) as [->|]; [|apply (Hmin j x); [lia|done]].
    rewrite Ha in Hx. destruct (Z.testbit _ al_id); [|done]. injection Hx as <-. cbn in E. lia.
Qed.

Lemma armed_some al : alarms_ok al -> as_armed_set al <> 0 -> exists i e, 0 <= i < 19 /\ alarm al i = Some e.
Proof.
  intros Hok Hne. destruct (al_lengths _ Hok) as [Hl _].
  destruct (existsb (Z.testbit (as_armed_set al)) (seqZ 0 19)) eqn:E.
  - apply existsb_exists in E as (i & Hi%list_elem_of_In%elem_of_seqZ & Hb). destruct (aget_is_Some (as_expiry al) i ltac:(lia)) as [e He].
    exists i, e. split; [lia|]. unfold alarm. by rewrite Hb.
  - exfalso. apply Hne, Z.bits_inj'. intros j Hj. rewrite Z.bits_0. destruct (Z.lt_ge_cases j 19); [|by apply Hok].
    destruct (Z.testbit (as_armed_set al) j) eqn:Ej; [|done]. assert (existsb (Z.testbit (as_armed_set al)) (seqZ 0 19) = true); [|congruence].
    apply existsb_exists. exists j. split; [apply list_elem_of_In, elem_of_seqZ; lia|done].
Qed.

Lemma mintime_ok al : alarms_ok al -> (forall i e, alarm al i = Some e -> e < 2 ^ 64 - 1) ->
  match lsquic_alarmset_mintime al with
  | Some (t, Some i) => alarm al i = Some t /\ forall j e, alarm al j = Some e -> t <= e
  | Some (t, None) => t = 0 /\ forall j, alarm al j = None
  | None => False
  end.
Proof.
  intros Hok Hlt. unfold lsquic_alarmset_mintime. destruct (Z.eqb_spec (as_armed_set al) 0) as [E0|Hne]; cbn [negb].
  { split; [done|]. intros j. unfold alarm. by rewrite E0, Z.bits_0. }
  destruct (mintime_loop_ok al Hok (Z.to_nat MAX_LSQUIC_ALARMS) 0 (2 ^ 64 - 1) 0) as (t & i & -> & Hall & Hi); [lia|done|intros j e; lia|].
  cbn [mbind option_bind]. assert (Hmin : forall j e, alarm al j = Some e -> t <= e).
  { intros j e Hj. apply (Hall j e); [by apply (alarm_range al j e)|done]. }
  split; [|done]. destruct Hi as [[= -> ->]|[Hi _]]; [|done].
  destruct (armed_some al Hok Hne) as (j & e & Hj & He). specialize (Hmin j e He). specialize (Hlt j e He). lia.
Qed.

(** * Ringing *)

(** What the callbacks promise, with the invariant [I] of their owner: they keep the
    set well formed, and arm alarms for the future only. *)
Class RingLaws {S} (callback : Z -> Z -> Z -> alarmset * S -> option (alarmset * S)) (now : Z) (I : alarmset -> S -> Prop) : Prop := {
  ring_law : forall id e al s, alarms_ok al -> I al s -> inited al id -> aget (as_expiry al) id = Some e ->
    exists al' s', callback id e now (lsquic_alarmset_unset al id, s) = Some (al', s') /\ alarms_ok al' /\ I al' s' /\
      as_alarms al' = as_alarms al /\
      forall j x, 0 <= j -> alarm al' j = Some x -> alarm (lsquic_alarmset_unset al id) j = Some x \/ now <= x
}.

(** A callback that leaves the alarms after its own alone. *)
Definition leaves_later {S} (callback : Z -> Z -> Z -> alarmset * S -> option (alarmset * S)) (now : Z) : Prop :=
  forall id e al s al' s' j x, callback id e now (al, s) = Some (al', s') -> id < j -> alarm al j = Some x -> alarm al' j = Some x.

Definition overdue_at (al : alarmset) (now i : Z) : bool := match alarm al i with Some e => e <? now | None => false end.

Section ringing.
Context {S : Type} (callback : Z -> Z -> Z -> alarmset * S -> option (alarmset * S)) (now : Z) (I : alarmset -> S -> Prop).
Context {HL : RingLaws callback now I}.

(** Alarms that are overdue are still to come. *)
Definition to_come (k armed : Z) (al : alarmset) : Prop :=
  forall j x, 0 <= j -> alarm al j = Some x -> now <= x \/ k <= j /\ Z.testbit armed j = true.

Lemma ring_one_ok k armed al s : alarms_ok al -> I al s -> (forall j, Z.testbit armed j = true -> 0 <= j -> inited al j) ->
  0 <= k < 19 -> to_come k armed al ->
  exists rang al' s', ring_one callback k armed now (al, s) = Some (rang, (al', s')) /\ alarms_ok al' /\ I al' s' /\
    as_alarms al' = as_alarms al /\ to_come (k + 1) (Z.ldiff armed (albit k)) al' /\
    (rang = [] \/ rang = [k] /\ Z.testbit armed k = true) /\
    (leaves_later callback now -> forall al0, (forall j x, k <= j -> alarm al0 j = Some x -> Z.testbit armed j = true /\ alarm al j = Some x) ->
      (Z.testbit armed k = true -> is_Some (alarm al0 k)) ->
      rang = (if overdue_at al0 now k then [k] else []) /\ forall j x, k < j -> alarm al0 j = Some x -> alarm al' j = Some x).
Proof.
  intros Hok HI Hin Hk Hcome. unfold ring_one. rewrite has_albit by lia. cbn [fst snd].
  assert (Hnext : forall al', (forall j x, 0 <= j -> alarm al' j = Some x -> now <= x \/ j <> k /\ alarm al j = Some x) ->
    to_come (k + 1) (Z.ldiff armed (albit k)) al').
  { intros al' H j x Hj Hx. destruct (H j x Hj Hx) as [|[Hne Hx']]; [by left|]. destruct (Hcome j x Hj Hx') as [|[Hkj Hb]]; [by left|].
    right. split; [lia|]. rewrite ldiff_albit, Hb by lia. by replace (j =? k) with false by lia. }
  destruct (al_lengths _ Hok) as [Hl1 _]. destruct (aget_is_Some (as_expiry al) k ltac:(lia)) as [e He].
  destruct (Z.testbit armed k) eqn:Eb.
  - rewrite He. cbn [mbind option_bind]. destruct (Z.ltb_spec e now) as [Hlt|Hge].
    + change (as_alarms (lsquic_alarmset_unset al k)) with (as_alarms al). rewrite (Hin k Eb ltac:(lia)). cbn [mbind option_bind negb].
      change (as_expiry (lsquic_alarmset_unset al k)) with (as_expiry al). rewrite He. cbn [mbind option_bind].
      destruct (ring_law k e al s Hok HI (Hin k Eb ltac:(lia)) He) as (al' & s' & E & Hok' & HI' & Ein & Hnew). rewrite E. cbn [mbind option_bind].
      exists [k], al', s'. split; [done|]. split; [done|]. split; [done|]. split; [done|].
      split; [|split; [by right|]].
      * apply Hnext. intros j x Hj Hx. destruct (Hnew j x Hj Hx) as [Hx'|]; [|by left]. right. rewrite unset_alarm in Hx' by lia.
        destruct (Z.eqb_spec j k); [done|]. done.
      * intros Hlater al0 H0 Hs. destruct (Hs eq_refl) as [x Hx]. destruct (H0 k x ltac:(lia) Hx) as [_ Hx']. apply alarm_expiry in Hx' as [_ Hx'].
        split; [unfold overdue_at; rewrite Hx; replace x with e by congruence; by ztest|]. intros j y Hj Hy.
        apply (Hlater _ _ _ _ _ _ j y E Hj). rewrite unset_alarm by lia. replace (j =? k) with false by lia. by apply (H0 j y ltac:(lia)).
    + exists [], al, s. split; [done|]. split; [done|]. split; [done|]. split; [done|]. split; [|split; [by left|]].
      * apply Hnext. intros j x Hj Hx. destruct (Z.eq_dec j k) as [->|]; [|by right]. left. apply alarm_expiry in Hx as [_ Hx]. replace x with e by congruence. lia.
      * intros Hlater al0 H0 Hs. destruct (Hs eq_refl) as [x Hx]. destruct (H0 k x ltac:(lia) Hx) as [_ Hx']. apply alarm_expiry in Hx' as [_ Hx'].
        split; [unfold overdue_at; rewrite Hx; replace x with e by congruence; by ztest|]. intros j y Hj Hy. by apply (H0 j y ltac:(lia)).
  - exists [], al, s. split; [done|]. split; [done|]. split; [done|]. split; [done|]. split; [|split; [by left|]].
    + apply Hnext. intros j x Hj Hx. destruct (Z.eq_dec j k) as [->|]; [|by right]. left. destruct (Hcome k x Hj Hx) as [|[_ ?]]; [done|congruence].
    + intros Hlater al0 H0 _. split; [|intros j y Hj Hy; by apply (H0 j y ltac:(lia))]. unfold overdue_at.
      destruct (alarm al0 k) as [x|] eqn:Hx; [|done]. destruct (H0 k x ltac:(lia) Hx). congruence.
Qed.

Lemma filter_seqZ_none f : forall n k, (forall j, k <= j < k + Z.of_nat n -> f j = false) -> List.filter f (seqZ k (Z.of_nat n)) = [].
Proof using.
  induction n as [|n IH]; intros k H; [done|]. rewrite seqZ_cons by lia. cbn [List.filter]. rewrite H by lia.
  replace (Z.pred (Z.of_nat (Datatypes.S n))) with (Z.of_nat n) by lia. apply IH. intros j Hj. apply H. lia.
Qed.

Lemma ring_loop_ok : forall n k armed al s, 0 <= k -> k + Z.of_nat n = 19 -> 0 <= armed -> (forall j, 19 <= j -> Z.testbit armed j = false) ->
  alarms_ok al -> I al s -> (forall j, Z.testbit armed j = true -> 0 <= j -> inited al j) -> to_come k armed al ->
  exists rang al' s', ring_loop callback n k armed now (al, s) = Some (rang, (al', s')) /\ alarms_ok al' /\ I al' s' /\
    as_alarms al' = as_alarms al /\ (forall j x, 0 <= j -> alarm al' j = Some x -> now <= x) /\
    StronglySorted Z.lt rang /\ Forall (fun i => k <= i /\ Z.testbit armed i = true) rang /\
    (leaves_later callback now -> forall al0, (forall j x, k <= j -> alarm al0 j = Some x -> Z.testbit armed j = true /\ alarm al j = Some x) ->
      (forall j, k <= j -> Z.testbit armed j = true -> is_Some (alarm al0 j)) -> rang = List.filter (overdue_at al0 now) (seqZ k (Z.of_nat n))).
Proof using HL.
  induction n as [|n IH]; intros k armed al s Hk Hn Ha Hhigh Hok HI Hin Hcome; cbn [ring_loop].
  - exists [], al, s. split; [done|]. split; [done|]. split; [done|]. split; [done|]. split; [|split; [constructor|split; [constructor|done]]].
    intros j x Hj Hx. destruct (Hcome j x Hj Hx) as [|[H1 H2]]; [done|]. rewrite Hhigh in H2 by lia. done.
  - destruct (Z.eqb_spec armed 0) as [->|Hne].
    { exists [], al, s. split; [done|]. split; [done|]. split; [done|]. split; [done|]. split; [|split; [constructor|split; [constructor|]]].
      - intros j x Hj Hx. destruct (Hcome j x Hj Hx) as [|[H1 H2]]; [done|]. by rewrite Z.bits_0 in H2.
      - intros _ al0 H0 _. symmetry. apply filter_seqZ_none. intros j Hj. unfold overdue_at. destruct (alarm al0 j) as [x|] eqn:Hx; [|done].
        destruct (H0 j x ltac:(lia) Hx) as [H _]. by rewrite Z.bits_0 in H. }
    destruct (ring_one_ok k armed al s Hok HI Hin ltac:(lia) Hcome) as (r1 & al1 & s1 & -> & Hok1 & HI1 & Ein1 & Hcome1 & Hr1 & Hex1). cbn [mbind option_bind].
    destruct (IH (k + 1) (Z.ldiff armed (albit k)) al1 s1) as (r2 & al2 & s2 & -> & Hok2 & HI2 & Ein2 & Hlate & Hsort & Hall & Hex2); try done; try lia.
    { apply Z.ldiff_nonneg. by left. }
    { intros j Hj. rewrite ldiff_albit, Hhigh by lia. done. }
    { intros j Hj Hj0. rewrite ldiff_albit in Hj by lia. apply andb_true_iff in Hj as [Hj _]. unfold inited. rewrite Ein1. by apply Hin. }
    cbn [mbind option_bind]. exists (r1 ++ r2), al2, s2. split; [done|]. split; [done|]. split; [done|]. split; [congruence|]. split; [done|].
    assert (Hall' : Forall (fun i => k + 1 <= i /\ Z.testbit armed i = true) r2).
    { apply (Forall_impl _ _ _ Hall). intros i [Hi Hb]. rewrite ldiff_albit in Hb by lia. apply andb_true_iff in Hb as [Hb _]. done. }
    split; [|split].
    + destruct Hr1 as [->|[-> _]]; [done|]. constructor; [done|]. apply (Forall_impl _ _ _ Hall'). intros i [Hi _]. lia.
    + apply Forall_app. split.
      * destruct Hr1 as [->|[-> Hb]]; [constructor|]. constructor; [split; [lia|done]|constructor].
      * apply (Forall_impl _ _ _ Hall'). intros i [Hi Hb]. split; [lia|done].
    + intros Hlater al0 H0 Hs. destruct (Hex1 Hlater al0 H0 (Hs k ltac:(lia))) as [Er1 Hk1].
      rewrite seqZ_cons by lia. cbn [List.filter]. replace (Z.pred (Z.of_nat (Datatypes.S n))) with (Z.of_nat n) by lia. rewrite Er1.
      rewrite (Hex2 Hlater al0); [by destruct (overdue_at al0 now k)| |].
      * intros j x Hj Hx. split; [|apply (Hk1 j x); [lia|done]]. rewrite ldiff_albit by lia. rewrite (proj1 (H0 j x ltac:(lia) Hx)).
        by replace (j =? k) with false by lia.
      * intros j Hj Hb. rewrite ldiff_albit in Hb by lia. apply andb_true_iff in Hb as [Hb _]. by apply Hs; [lia|].
Qed.

(** Ringing the alarms of a connection, whatever the callbacks do as long as they
    arm alarms for the future only: each alarm rings at most once and only if it was
    armed, in the order of their numbers; afterwards no alarm is overdue, and the
    invariant of the callbacks' owner holds.  If callbacks leave the alarms behind
    their own alone, the alarms that ring are exactly those that were overdue.  The
    time computed for the next tick is then that of the earliest alarm. *)
Theorem ring_expired_ok al s : alarms_ok al -> I al s -> (forall i e, alarm al i = Some e -> inited al i) ->
  exists rang al' s', lsquic_alarmset_ring_expired callback now (al, s) = Some (rang, (al', s')) /\
    alarms_ok al' /\ I al' s' /\ StronglySorted Z.lt rang /\ Forall (fun i => is_Some (alarm al i)) rang /\
    (forall i e, alarm al' i = Some e -> now <= e) /\
    (leaves_later callback now -> rang = List.filter (overdue_at al now) (seqZ 0 19)) /\
    ((forall i e, alarm al' i = Some e -> e < 2 ^ 64 - 1) ->
     exists t next, lsquic_alarmset_mintime al' = Some (t, next) /\
       match next with Some i => alarm al' i = Some t /\ now <= t /\ forall j e, alarm al' j = Some e -> t <= e | None => forall j, alarm al' j = None end).
Proof using HL.
  intros Hok HI Hin. destruct (al_lengths _ Hok) as [Hl _].
  assert (Harm : forall j, 0 <= j -> Z.testbit (as_armed_set al) j = true -> exists e, alarm al j = Some e).
  { intros j Hj Hb. unfold alarm. rewrite Hb. destruct (Z.lt_ge_cases j 19); [apply aget_is_Some; lia|]. by rewrite (al_high _ Hok) in Hb. }
  destruct (ring_loop_ok (Z.to_nat MAX_LSQUIC_ALARMS) 0 (as_armed_set al) al s) as (rang & al' & s' & E & Hok' & HI' & Ein & Hlate & Hsort & Hall & Hex);
    try done; try apply Hok.
  { intros j Hb Hj. destruct (Harm j Hj Hb) as [e He]. by apply (Hin j e). }
  { intros j x Hj [Hb _]%alarm_expiry. by right. }
  assert (Hlate' : forall i e, alarm al' i = Some e -> now <= e).
  { intros i e He. apply (Hlate i e); [by apply (alarm_range al' i e)|done]. }
  exists rang, al', s'. split; [exact E|]. split; [done|]. split; [done|]. split; [done|]. split; [|split; [done|split]].
  - apply (Forall_impl _ _ _ Hall). intros i [Hi Hb]. destruct (Harm i Hi Hb) as [e ->]. done.
  - intros Hlater. apply Hex; [done| |]; [intros j x Hj Hx; split; [by apply alarm_expiry in Hx as [? _]|done]|].
    intros j Hj Hb. destruct (Harm j Hj Hb) as [e ->]. done.
  - intros Hmax. pose proof (mintime_ok al' Hok' Hmax) as H. destruct (lsquic_alarmset_mintime al') as [[t [i|]]|]; [| |done].
    + exists t, (Some i). destruct H as [H1 H2]. split; [done|]. split; [done|]. split; [by apply (Hlate' i)|done].
    + exists t, None. by destruct H.
Qed.

End ringing.
