(* ===== verification/Retx.v ===== *)
(** Retransmission timers (lsquic_send_ctl.c): what is armed when packets are sent and
    acknowledged, for how long, and what happens when the alarm rings.  The queues
    are those of SendCtl, the alarms those of Alarms; the functions here add the
    alarms and the counters of timeouts to functions of SendCtl. *)
From stdpp Require Import gmap.
From S2P Require Import Prelude Art SendCtl Alarms.
Local Open Scope Z_scope.

Definition MAX_RTO_BACKOFFS : Z := 10.
Definition DEFAULT_RETX_DELAY : Z := 500000.
Definition MAX_RTO_DELAY : Z := 60000000.
Definition MIN_RTO_DELAY : Z := 200000.
Definition SC_IETF : Z := Z.shiftl 1 7.
Definition AL_DEBUG_STATUS : Z := 18.

Inductive retx_mode := RETX_MODE_HANDSHAKE | RETX_MODE_LOSS | RETX_MODE_TLP | RETX_MODE_RTO.

(** The fields of [struct lsquic_send_ctl] that count timeouts. *)
Record timers := TM {
  sc_n_consec_rtos : Z;
  sc_n_hsk : Z;
  sc_n_tlp : Z;
  sc_next_limit : Z;
  sc_last_rto_time : Z;
  sc_last_sent_time : Z
}.

(** What is read from outside: [cn_flags & LSCONN_HANDSHAKE_DONE], the RTT estimates,
    the delay of the peer's acknowledgements, whether BBR is in use; [re_env] as in
    SendCtl; [re_time] is what [lsquic_time_now()] returns. *)
Record retx_env := RE {
  re_hsk_done : bool;
  re_srtt : Z;
  re_rttvar : Z;
  re_min_rtt : Z;
  re_max_peer_ack_usec : Z;
  re_bbr : bool;
  re_env : Z -> Z * Z;
  re_time : Z
}.

(** [lsquic_send_ctl_init] on zeroed memory, with the alarms. *)
Definition timers_init : timers := TM 0 0 0 0 0 0.
Definition init_alarms (al : alarmset) (time : Z) : option alarmset :=
  al ← lsquic_alarmset_init_alarm al AL_RETX_INIT;
  al ← lsquic_alarmset_init_alarm al (AL_RETX_INIT + 1);
  al ← lsquic_alarmset_init_alarm al (AL_RETX_INIT + 2);
  al ← lsquic_alarmset_init_alarm al AL_ART_SCHE;
  al ← lsquic_alarmset_init_alarm al AL_DEBUG_STATUS;
  lsquic_alarmset_set al AL_DEBUG_STATUS (u64 (time + 100000)).

Section retx.
Context (sc_retx_frames : Z) (e : retx_env).

Definition send_ctl_first_unacked_retx_packet (c : send_ctl) (pns : nat) : option Z :=
  head (filter (fun p => plain_retx sc_retx_frames c p = true) (unacked c pns)).

Definition is_hello (c : send_ctl) (p : Z) : bool := match sc_mem c !! p with Some pk => po_hello pk | None => false end.

Definition have_unacked_handshake_packets (c : send_ctl) : bool :=
  existsb (fun pns => existsb (is_hello c) (unacked c pns))
    (if has_flag (sc_flags (sc_a c)) SC_IETF then [0; 1; 2]%nat else [2]%nat).

Definition get_retx_mode (c : send_ctl) (tm : timers) : retx_mode :=
  if negb (re_hsk_done e) && have_unacked_handshake_packets c then RETX_MODE_HANDSHAKE
  else if negb (sc_loss_to (sc_a c) =? 0) then RETX_MODE_LOSS
  else if sc_n_tlp tm <? 2 then RETX_MODE_TLP
  else RETX_MODE_RTO.

Definition get_retx_delay : Z :=
  if negb (re_srtt e =? 0) then
    let delay := u64 (re_srtt e + u64 (4 * re_rttvar e)) in
    if delay <? MIN_RTO_DELAY then MIN_RTO_DELAY else delay
  else DEFAULT_RETX_DELAY.

Definition calculate_packet_rto (tm : timers) : Z :=
  let exp := if MAX_RTO_BACKOFFS <? sc_n_consec_rtos tm then MAX_RTO_BACKOFFS else sc_n_consec_rtos tm in
  u64 (get_retx_delay * Z.shiftl 1 exp).

Definition calculate_tlp_delay (c : send_ctl) : Z :=
  let srtt := re_srtt e in
  if 1 <? sc_n_in_flight_all (sc_n c) then
    if 10000 <? u64 (2 * srtt) then u64 (2 * srtt) else 10000
  else
    let delay := u64 (srtt + srtt / 2 + re_max_peer_ack_usec e) in
    if delay <? u64 (2 * srtt) then u64 (2 * srtt) else delay.

(** The delay of RETX_MODE_HANDSHAKE; a shift by 64 or more is undefined. *)
Definition handshake_delay (tm : timers) : res Z :=
  let delay :=
    if negb (re_srtt e =? 0) then
      let delay := u64 (re_srtt e + re_srtt e / 2) in
      if delay <? 10000 then 10000 else delay
    else 150000 in
  if 64 <=? sc_n_hsk tm then Fault Bug else Ok (u64 (Z.shiftl delay (sc_n_hsk tm))).

Definition retx_delay (c : send_ctl) (tm : timers) : res (Z * timers) :=
  match get_retx_mode c tm with
  | RETX_MODE_HANDSHAKE =>
    delay ← handshake_delay tm;
    Ok (delay, TM (sc_n_consec_rtos tm) (u32 (sc_n_hsk tm + 1)) (sc_n_tlp tm) (sc_next_limit tm) (sc_last_rto_time tm) (sc_last_sent_time tm))
  | RETX_MODE_LOSS => Ok (u64 (sc_loss_to (sc_a c)), tm)
  | RETX_MODE_TLP => Ok (calculate_tlp_delay c, tm)
  | RETX_MODE_RTO => Ok (calculate_packet_rto tm, tm)
  end.

Definition set_retx_alarm (c : send_ctl) (al : alarmset) (tm : timers) (pns : nat) (now : Z) : res (alarmset * timers) :=
  _ ← check (match unacked c pns with [] => false | _ => true end);
  '(delay, tm) ← retx_delay c tm;
  let delay := if MAX_RTO_DELAY <? delay then MAX_RTO_DELAY else delay in
  al ← need Bug (lsquic_alarmset_set al (AL_RETX_INIT + Z.of_nat pns) (u64 (now + delay)));
  inited ← need Bug (lsquic_alarmset_is_inited al AL_PACK_TOL);
  if (pns =? PNS_APP)%nat && re_bbr e && inited && negb (lsquic_alarmset_is_set al AL_PACK_TOL) then
    al ← need Bug (lsquic_alarmset_set al AL_PACK_TOL (u64 (now + delay)));
    Ok (al, tm)
  else Ok (al, tm).

(** [lsquic_send_ctl_sent_packet]: the alarm is armed unless it is already. *)
Definition sent_packet_timed (c : send_ctl) (al : alarmset) (tm : timers) (p : Z) : res (send_ctl * alarmset * timers * Z) :=
  pk ← get c p;
  let tm := TM (sc_n_consec_rtos tm) (sc_n_hsk tm) (sc_n_tlp tm) (sc_next_limit tm) (sc_last_rto_time tm) (po_sent pk) in
  '(c, ok) ← send_ctl_update_poison_hist c (packno pk);
  if negb ok then Ok (c, al, tm, -1) else
  let c := lsquic_senhist_add c (packno pk) in
  c ← send_ctl_unacked_append sc_retx_frames c p;
  if is_retx sc_retx_frames pk then
    '(al, tm) ← (if negb (lsquic_alarmset_is_set al (AL_RETX_INIT + Z.of_nat (po_pns pk)))
                 then set_retx_alarm c al tm (po_pns pk) (po_sent pk) else Ok (al, tm));
    let c := if sc_n_in_flight_retx (sc_n c) =? 1 then or_flag c SC_WAS_QUIET else c in
    Ok (c, al, tm, 0)
  else Ok (c, al, tm, 0).

(** From the label [detect_losses] to the update of the alarm. *)
Definition rearm (c : send_ctl) (al : alarmset) (tm : timers) (pns : nat) (now : Z) : res (alarmset * timers) :=
  match send_ctl_first_unacked_retx_packet c pns with
  | Some _ => set_retx_alarm c al tm pns now
  | None => Ok (lsquic_alarmset_unset al (AL_RETX_INIT + Z.of_nat pns), tm)
  end.

(** An RTT sample was taken. *)
Definition reset_timeouts (tm : timers) : timers := TM 0 0 0 (sc_next_limit tm) (sc_last_rto_time tm) (sc_last_sent_time tm).

(** [lsquic_send_ctl_got_ack]; [do_rtt] says whether the packet of the largest number
    that is acknowledged was still waiting. *)
Definition got_ack_timed (c : send_ctl) (al : alarmset) (tm : timers) (pns : nat) (ranges : list (Z * Z)) (ce : bool) (gap : Z)
    (do_rtt : bool) (now : Z) : res (send_ctl * alarmset * timers * Z) :=
  let c := or_flag c (Z.shiftl SC_ACK_RECV_INIT (Z.of_nat pns)) in
  hi ← need Bug (head ranges);
  lo ← need Bug (last ranges);
  if sh_last_sent (sc_a c) <? hi.2 then Ok (c, al, tm, -1) else
  let c := clear_flag c SC_WAS_QUIET in
  match head (unacked c pns) with
  | None => '(c, ret) ← got_ack_finish (or_flag c SC_WAS_QUIET) lo.1 gap; Ok (c, al, tm, ret)
  | Some p =>
    pk ← get c p;
    '(c, ok, tm) ← (if hi.2 <? packno pk then Ok (c, true, tm)
                    else '(c, ok) ← got_ack_loop sc_retx_frames (length (unacked c pns)) c pns (rev ranges) false hi.2
                                      (sc_largest_acked_packno (sc_a c)) p;
                         Ok (c, ok, if ok && do_rtt then reset_timeouts tm else tm));
    if negb ok then Ok (c, al, tm, -1) else
    '(c, losses_detected) ← send_ctl_detect_losses sc_retx_frames (re_srtt e) (re_min_rtt e) (re_env e) c pns;
    '(al, tm) ← rearm c al tm pns now;
    let c := if sc_n_in_flight_retx (sc_n c) =? 0 then or_flag c SC_WAS_QUIET else c in
    let c := if ce && negb losses_detected then send_ctl_loss_event c else c in
    '(c, ret) ← got_ack_finish c lo.1 gap;
    Ok (c, al, tm, ret)
  end.

(** The switch on the mode; the congestion controller and the connection are told of
    an RTO. *)
Definition retx_timeout (c : send_ctl) (tm : timers) (pns : nat) (now : Z) : res (send_ctl * timers) :=
  let expire := send_ctl_expire sc_retx_frames (re_min_rtt e) (re_env e) in
  match get_retx_mode c tm with
  | RETX_MODE_HANDSHAKE => c ← expire c pns EXFI_HSK; Ok (c, tm)
  | RETX_MODE_LOSS =>
    '(c, _) ← send_ctl_detect_losses sc_retx_frames (re_srtt e) (re_min_rtt e) (re_env e) c pns;
    Ok (c, tm)
  | RETX_MODE_TLP =>
    let tm := TM (sc_n_consec_rtos tm) (sc_n_hsk tm) (u32 (sc_n_tlp tm + 1)) (sc_next_limit tm) (sc_last_rto_time tm) (sc_last_sent_time tm) in
    c ← expire c pns EXFI_LAST; Ok (c, tm)
  | RETX_MODE_RTO =>
    let tm := TM (u32 (sc_n_consec_rtos tm + 1)) (sc_n_hsk tm) (sc_n_tlp tm) 2 now (sc_last_sent_time tm) in
    c ← expire c pns EXFI_ALL; Ok (c, tm)
  end.

Definition retx_alarm_rings (al_id : Z) (c : send_ctl) (al : alarmset) (tm : timers) (now : Z) : res (send_ctl * alarmset * timers) :=
  let pns := Z.to_nat (al_id - AL_RETX_INIT) in
  _ ← check (negb (lsquic_alarmset_is_set al (AL_RETX_INIT + Z.of_nat pns)));
  '(c, tm) ← retx_timeout c tm pns now;
  match send_ctl_first_unacked_retx_packet c pns with
  | Some _ => '(al, tm) ← set_retx_alarm c al tm pns now; Ok (c, al, tm)
  | None => Ok (c, al, tm)
  end.

(** Spaces from the first that is in use. *)
Fixpoint expire_spaces (c : send_ctl) (al : alarmset) (spaces : list nat) : res (send_ctl * alarmset) :=
  match spaces with
  | [] => Ok (c, al)
  | pns :: spaces =>
    let al := lsquic_alarmset_unset al (AL_RETX_INIT + Z.of_nat pns) in
    c ← send_ctl_expire sc_retx_frames (re_min_rtt e) (re_env e) c pns EXFI_ALL;
    expire_spaces c al spaces
  end.

Definition lsquic_send_ctl_expire_all (c : send_ctl) (al : alarmset) : res (send_ctl * alarmset) :=
  expire_spaces c al (if has_flag (sc_flags (sc_a c)) SC_IETF then [0; 1; 2]%nat else [2]%nat).

(** Arming an alarm that is not armed. *)
Definition arm (al : alarmset) (al_id time : Z) : res alarmset :=
  if negb (lsquic_alarmset_is_set al al_id) then need Bug (lsquic_alarmset_set al al_id (u64 time)) else Ok al.

(** [art_schedule] as a callback. *)
Definition art_alarm_rings (c : send_ctl) (al : alarmset) : res (send_ctl * alarmset) :=
  c ← art_schedule sc_retx_frames (re_min_rtt e) (re_env e) c;
  al ← arm al AL_ART_SCHE (re_time e + 30);
  Ok (c, al).

(** A round of [lsquic_send_ctl_reschedule_packets]. *)
Definition reschedule_timed (c : send_ctl) (al : alarmset) (p no : Z) : res (send_ctl * alarmset) :=
  c ← reschedule_one c p no;
  pk ← get c p;
  if negb (sc_art_flag (sc_art c) =? 0) && negb (po_frame_types pk =? FT_PADDING) && has_flag (po_frame_types pk) FT_STREAM
  then al ← arm al AL_ART_SCHE (re_time e + 1); Ok (c, al)
  else Ok (c, al).

(** The alarms of the send controller; [debug_network] only logs. *)
Definition ctl_callback (al_id expiry now : Z) (st : alarmset * (send_ctl * timers)) : res (alarmset * (send_ctl * timers)) :=
  let '(al, (c, tm)) := st in
  if (AL_RETX_INIT <=? al_id) && (al_id <=? AL_RETX_INIT + 2) then
    '(c, al, tm) ← retx_alarm_rings al_id c al tm now; Ok (al, (c, tm))
  else if al_id =? AL_ART_SCHE then '(c, al) ← art_alarm_rings c al; Ok (al, (c, tm))
  else if al_id =? AL_DEBUG_STATUS then al ← arm al AL_DEBUG_STATUS (re_time e + 5000); Ok (al, (c, tm))
  else Fault Bug.

(** The counter of timeouts is reset after a while without one. *)
Definition send_ctl_get_n_consec_rtos (tm : timers) : Z * timers :=
  if negb (sc_n_consec_rtos tm =? 0) && (u64 (sc_last_rto_time tm + calculate_packet_rto tm) <? sc_last_sent_time tm)
  then (0, TM 0 (sc_n_hsk tm) (sc_n_tlp tm) (sc_next_limit tm) (sc_last_rto_time tm) (sc_last_sent_time tm))
  else (sc_n_consec_rtos tm, tm).

End retx.
