(* ===== verification/RetxThms.v ===== *)
(** Theorems on retransmission timers: while a packet waits for its acknowledgement
    the alarm of its space is armed, for a bounded time, and the alarm that rings
    declares packets lost. *)
From Stdlib Require Import Sorted.
From stdpp Require Import gmap.
From S2P Require Import Prelude Ranges Art SendCtl SendCtlSpec SendCtlLoss SendCtlAck SendCtlThms SendCtlRun Alarms Retx.
Local Open Scope Z_scope.

Section timers.
Context (sc_retx_frames : Z).

(** ** Packets that wait *)

(** A packet of the space waits to be acknowledged and would be sent again. *)
Definition waits (c : send_ctl) (k : nat) : Prop := exists p, p ∈ unacked c k /\ plain_retx sc_retx_frames c p = true.

Lemma first_unacked_waits c k :
  match send_ctl_first_unacked_retx_packet sc_retx_frames c k with Some _ => waits c k | None => ~ waits c k end.
Proof using.
  unfold send_ctl_first_unacked_retx_packet. destruct (filter _ (unacked c k)) as [|p l] eqn:E; cbn.
  - intros (p & Hp & Hr). assert (p ∈ filter (fun p => plain_retx sc_retx_frames c p = true) (unacked c k)) as H by (by apply list_elem_of_filter).
    rewrite E in H. by apply not_elem_of_nil in H.
  - assert (p ∈ filter (fun p => plain_retx sc_retx_frames c p = true) (unacked c k)) as H by (rewrite E; by left).
    apply list_elem_of_filter in H as [Hr Hp]. by exists p.
Qed.

Lemma waits_nonempty c k : waits c k -> unacked c k <> [].
Proof using. intros (p & Hp & _) E. rewrite E in Hp. by apply not_elem_of_nil in Hp. Qed.

Lemma plain_retx_spec c p : plain_retx sc_retx_frames c p = true <->
  exists pk, sc_mem c !! p = Some pk /\ is_loss_rec pk = false /\ po_poison pk = false /\ is_retx sc_retx_frames pk = true.
Proof using.
  unfold plain_retx. destruct (sc_mem c !! p) as [pk|]; [|naive_solver].
  rewrite andb_true_iff, negb_true_iff, orb_false_iff. split; [intros [[? ?] ?]; by exists pk|intros (pk' & [= <-] & ?); tauto].
Qed.

(** Walks make no packet wait. *)
Lemma kept_waits c c' k : wf c -> kept c c' -> waits c' k -> waits c k.
Proof using.
  intros W (W' & (_ & Hev & _) & _) (p & Hp & Hr). apply plain_retx_spec in Hr as (pk & Hpk & Hl & Hpo & Hrx).
  destruct (queued c' k p W' Hp) as (pk1 & Hpk1 & _ & Hu & Hh). replace pk1 with pk in * by congruence.
  destruct (Hev p pk Hpk) as (pk0 & Hpk0 & Hpl & Ht); [done|]. exists p. unfold trait in Ht. injection Ht as _ Ef Ep. split.
  - apply (proj1 (wf_in _ _ _ (wf_q _ W) p pk0 Hpk0)). split; [apply Hpl|]. rewrite plain_home in * by done. congruence.
  - apply plain_retx_spec. exists pk0. split; [done|]. split; [apply Hpl|]. split; [apply Hpl|]. unfold is_retx in *. by rewrite Ef.
Qed.

(** Neither do changes of packets that are not on the queues of packets that wait. *)
Lemma same_waits c c' p k : unacked c' k = unacked c k -> p ∉ unacked c k -> (forall z, z <> p -> sc_mem c' !! z = sc_mem c !! z) ->
  waits c' k -> waits c k.
Proof using.
  intros Eu Hp Em (z & Hz & Hr). rewrite Eu in Hz. exists z. split; [done|]. unfold plain_retx in *.
  rewrite Em in Hr; [done|]. by intros ->.
Qed.

Lemma flags_waits c f k : waits (set_flags c f) k -> waits c k.
Proof using. done. Qed.

Lemma bind_ok {A B} (r : res A) (f : A -> res B) b : (r ≫= f) = Ok b -> exists a, r = Ok a /\ f a = Ok b.
Proof using. destruct r as [a|]; [|done]. intros H. by exists a. Qed.

(** As [wp], where a failure is only possible if [P]. *)
Definition hwp (P : Prop) {A} (c : send_ctl) (r : res A) (Q : A -> Prop) : Prop :=
  match r with
  | Ok a => Q a
  | Fault Bug => P
  | Fault NoMemory => false ∈ sc_malo c
  | Fault Rounds => overdue c
  end.

Lemma wp_hwp P {A} c (r : res A) Q : wp c r Q -> hwp P c r Q.
Proof using. by destruct r as [a|[]]. Qed.

Lemma hwp_wp (P : Prop) {A} c (r : res A) Q : ~ P -> hwp P c r Q -> wp c r Q.
Proof using. by destruct r as [a|[]]. Qed.

Lemma hwp_bind P {A B} c (r : res A) (k : A -> res B) Q : hwp P c r (fun a => hwp P c (k a) Q) -> hwp P c (r ≫= k) Q.
Proof using. by destruct r. Qed.

Lemma hwp_mono P {A} c (r : res A) (Q Q' : A -> Prop) : hwp P c r Q -> (forall a, Q a -> Q' a) -> hwp P c r Q'.
Proof using. destruct r as [a|[]]; cbn; auto. Qed.

Lemma hwp_kept P {A} c c' (r : res A) Q : kept c c' -> hwp P c' r Q -> hwp P c r Q.
Proof using.
  intros K. destruct r as [a|[]]; cbn; try done.
  - by apply (wp_kept c c' (Fault NoMemory : res A) Q).
  - by apply (wp_kept c c' (Fault Rounds : res A) Q).
Qed.

(** ** The alarm *)

(** The alarm of every space in which a packet waits is armed. *)
Definition covered (al : alarmset) (c : send_ctl) : Prop :=
  forall k, (k < 3)%nat -> waits c k -> is_Some (alarm al (AL_RETX_INIT + Z.of_nat k)).

Context (e : retx_env).

(** The shift of the handshake delay is defined. *)
Definition hsk_room (c : send_ctl) (tm : timers) : Prop := get_retx_mode e c tm = RETX_MODE_HANDSHAKE -> sc_n_hsk tm < 64.

Lemma retx_delay_ok c tm : hsk_room c tm -> exists delay tm', retx_delay e c tm = Ok (delay, tm').
Proof using.
  intros Hr. unfold retx_delay. destruct (get_retx_mode e c tm) eqn:E; try by eexists _, _.
  unfold handshake_delay. specialize (Hr E). ztest. by eexists _, _.
Qed.

#[export] Instance retx_mode_dec : EqDecision retx_mode.
Proof using. solve_decision. Defined.

Lemma hsk_room_dec c tm : hsk_room c tm \/ (get_retx_mode e c tm = RETX_MODE_HANDSHAKE /\ 64 <= sc_n_hsk tm).
Proof using.
  unfold hsk_room. destruct (decide (get_retx_mode e c tm = RETX_MODE_HANDSHAKE)) as [E|E]; [|by left].
  destruct (Z.lt_ge_cases (sc_n_hsk tm) 64); [by left|by right].
Qed.

(** The shift of the handshake delay is undefined. *)
Lemma set_retx_alarm_fault c al tm pns now :
  unacked c pns <> [] -> get_retx_mode e c tm = RETX_MODE_HANDSHAKE -> 64 <= sc_n_hsk tm ->
  set_retx_alarm e c al tm pns now = Fault Bug.
Proof using.
  intros Hne Hm Hn. unfold set_retx_alarm. destruct (unacked c pns); [done|]. cbn [check mbind res_bind].
  unfold retx_delay, handshake_delay. rewrite Hm. by replace (64 <=? sc_n_hsk tm) with true by lia.
Qed.

(** The alarm is armed for at most a minute from now; no other retransmission alarm
    changes. *)
Lemma set_retx_alarm_ok c al tm pns now :
  alarms_ok al -> (pns < 3)%nat -> unacked c pns <> [] -> hsk_room c tm ->
  exists al' tm' t, set_retx_alarm e c al tm pns now = Ok (al', tm') /\ alarms_ok al' /\ as_alarms al' = as_alarms al /\
    alarm al' (AL_RETX_INIT + Z.of_nat pns) = Some t /\
    (exists delay tm1, retx_delay e c tm = Ok (delay, tm1) /\ t = u64 (now + Z.min delay MAX_RTO_DELAY)) /\
    (forall j, 0 <= j -> j <> AL_RETX_INIT + Z.of_nat pns -> alarm al' j = alarm al j \/ j = AL_PACK_TOL /\ alarm al' j = Some t /\ inited al j).
Proof using.
  intros Hok Hp Hne Hr. unfold set_retx_alarm. destruct (unacked c pns) as [|x l]; [done|]. cbn [check mbind res_bind].
  destruct (retx_delay_ok c tm Hr) as (delay & tm1 & E). rewrite E. cbn [mbind res_bind].
  replace (if MAX_RTO_DELAY <? delay then MAX_RTO_DELAY else delay) with (Z.min delay MAX_RTO_DELAY)
    by (destruct (Z.ltb_spec MAX_RTO_DELAY delay); lia).
  set (t := u64 (now + Z.min delay MAX_RTO_DELAY)). unfold AL_RETX_INIT in *.
  destruct (set_ok al (1 + Z.of_nat pns) t Hok ltac:(lia)) as (al1 & -> & Hok1 & Ein1 & Ha1). cbn [need mbind res_bind].
  destruct (al_lengths _ Hok1) as [_ Hl]. unfold lsquic_alarmset_is_inited.
  destruct (aget_is_Some (as_alarms al1) AL_PACK_TOL ltac:(unfold AL_PACK_TOL; lia)) as [b Hb]. rewrite Hb. cbn [need mbind res_bind].
  assert (Hself : alarm al1 (1 + Z.of_nat pns) = Some t) by (rewrite Ha1 by lia; by rewrite Z.eqb_refl).
  assert (Hother : forall j, 0 <= j -> j <> 1 + Z.of_nat pns -> alarm al1 j = alarm al j).
  { intros j Hj Hne'. rewrite Ha1 by lia. by replace (j =? 1 + Z.of_nat pns) with false by lia. }
  destruct ((pns =? PNS_APP)%nat && re_bbr e && b && _) eqn:Ec.
  - destruct (set_ok al1 AL_PACK_TOL t Hok1 ltac:(unfold AL_PACK_TOL; lia)) as (al2 & -> & Hok2 & Ein2 & Ha2). cbn [need mbind res_bind].
    exists al2, tm1, t. split; [done|]. split; [done|]. split; [congruence|]. split; [|split; [by exists delay, tm1|]].
    + rewrite Ha2 by lia. replace (1 + Z.of_nat pns =? AL_PACK_TOL) with false by (unfold AL_PACK_TOL; lia). done.
    + intros j Hj Hne'. rewrite Ha2 by lia. destruct (Z.eqb_spec j AL_PACK_TOL) as [->|]; [|left; by apply Hother].
      right. split; [done|]. split; [done|]. rewrite !andb_true_iff in Ec. unfold inited. rewrite <- Ein1, Hb. f_equal. tauto.
  - exists al1, tm1, t. split; [done|]. split; [done|]. split; [done|]. split; [done|]. split; [by exists delay, tm1|]. intros j Hj Hne'. left. by apply Hother.
Qed.

(** Delays are times. *)
Lemma retx_delay_nonneg c tm delay tm' : retx_delay e c tm = Ok (delay, tm') -> 0 <= delay.
Proof using.
  unfold retx_delay. destruct (get_retx_mode e c tm); intros H.
  - apply bind_ok in H as (d & Hd & H). injection H as <- _. unfold handshake_delay in Hd. destruct (64 <=? _); [done|]. injection Hd as <-. by apply wrapu_range.
  - injection H as <- _. by apply wrapu_range.
  - injection H as <- _. unfold calculate_tlp_delay. pose proof (wrapu_range 64 (2 * re_srtt e) ltac:(lia)) as [? _].
    pose proof (wrapu_range 64 (re_srtt e + re_srtt e / 2 + re_max_peer_ack_usec e) ltac:(lia)) as [? _].
    destruct (1 <? _); destruct (_ <? _); done.
  - injection H as <- _. by apply wrapu_range.
Qed.

(** Alarms are only armed anew, for a time up to a minute away. *)
Definition later (now : Z) (al al' : alarmset) : Prop :=
  as_alarms al' = as_alarms al /\
  forall j x, 0 <= j -> alarm al' j = Some x -> alarm al j = Some x \/ exists d, 0 <= d <= MAX_RTO_DELAY /\ x = u64 (now + d).

Lemma later_refl now al : later now al al.
Proof using. split; [done|]. intros j x _ H. by left. Qed.

Lemma set_retx_alarm_later c al tm pns now al' tm' : alarms_ok al -> (pns < 3)%nat -> unacked c pns <> [] -> hsk_room c tm ->
  set_retx_alarm e c al tm pns now = Ok (al', tm') -> later now al al'.
Proof using.
  intros Hok Hp Hne Hr E. destruct (set_retx_alarm_ok c al tm pns now Hok Hp Hne Hr) as (al1 & tm1 & t & E1 & _ & Ein & Hs & (d & tm2 & Hd & Et) & Ho).
  rewrite E1 in E. injection E as <- _. split; [done|]. pose proof (retx_delay_nonneg c tm d tm2 Hd) as Hd0.
  assert (Ht : exists d, 0 <= d <= MAX_RTO_DELAY /\ t = u64 (now + d)) by (exists (Z.min d MAX_RTO_DELAY); split; [unfold MAX_RTO_DELAY; lia|done]).
  intros j x Hj Hx. destruct (decide (j = AL_RETX_INIT + Z.of_nat pns)) as [->|Hne']; [right; replace x with t by congruence; done|].
  destruct (Ho j Hj Hne') as [Ej|(_ & Ej & _)]; [left; congruence|right; replace x with t by congruence; done].
Qed.

(** Arming the alarm of a space keeps the spaces covered. *)
Lemma covered_set c al al' pns t : (forall k, (k < 3)%nat -> k <> pns -> waits c k -> is_Some (alarm al (AL_RETX_INIT + Z.of_nat k))) ->
  alarm al' (AL_RETX_INIT + Z.of_nat pns) = Some t ->
  (forall j, 0 <= j -> j <> AL_RETX_INIT + Z.of_nat pns -> alarm al' j = alarm al j \/ j = AL_PACK_TOL /\ alarm al' j = Some t /\ inited al j) ->
  covered al' c.
Proof using.
  intros Hc Hs Ho k Hk Hw. unfold AL_RETX_INIT, AL_PACK_TOL in *. destruct (decide (k = pns)) as [->|Hne]; [by rewrite Hs|].
  destruct (Ho (1 + Z.of_nat k) ltac:(lia) ltac:(lia)) as [->|[? _]]; [by apply Hc|lia].
Qed.

(** The handshake is over, or there were few timeouts during it. *)
Definition hsk_ok (tm : timers) : Prop := re_hsk_done e = true \/ sc_n_hsk tm < 64.

Lemma hsk_ok_room c tm : hsk_ok tm -> hsk_room c tm.
Proof using. intros [H|H] E; [|done]. unfold get_retx_mode in E. rewrite H in E. cbn [negb andb] in E. destruct (negb _) in E; [done|]. by destruct (_ <? 2) in E. Qed.

Lemma hsk_full c tm : get_retx_mode e c tm = RETX_MODE_HANDSHAKE -> 64 <= sc_n_hsk tm -> ~ hsk_ok tm.
Proof using. intros Hm Hn H. pose proof (hsk_ok_room c tm H Hm). lia. Qed.

(** [rearm] covers its space, whatever was armed. *)
Lemma rearm_ok c al tm pns now : alarms_ok al -> (pns < 3)%nat ->
  (forall k, (k < 3)%nat -> k <> pns -> waits c k -> is_Some (alarm al (AL_RETX_INIT + Z.of_nat k))) ->
  (exists al' tm', rearm sc_retx_frames e c al tm pns now = Ok (al', tm') /\ alarms_ok al' /\ covered al' c) \/
  ~ hsk_ok tm /\ rearm sc_retx_frames e c al tm pns now = Fault Bug.
Proof using.
  intros Hok Hp Hc. unfold rearm. pose proof (first_unacked_waits c pns) as Hf.
  destruct (send_ctl_first_unacked_retx_packet _ c pns) as [p|].
  - destruct (hsk_room_dec c tm) as [Hr|[Hm Hn]].
    2: { right. split; [by apply (hsk_full c)|]. apply set_retx_alarm_fault; [by apply waits_nonempty|done|done]. }
    destruct (set_retx_alarm_ok c al tm pns now Hok Hp (waits_nonempty _ _ Hf) Hr) as (al' & tm' & t & -> & Hok' & _ & Hs & _ & Ho).
    left. exists al', tm'. split; [done|]. split; [done|]. by apply (covered_set c al al' pns t).
  - left. eexists _, _. split; [done|]. split; [apply unset_ok; [done|unfold AL_RETX_INIT; lia]|]. intros k Hk Hw.
    destruct (decide (k = pns)) as [->|Hne]; [done|]. unfold AL_RETX_INIT in *. rewrite unset_alarm by lia.
    replace (1 + Z.of_nat k =? 1 + Z.of_nat pns) with false by lia. by apply Hc.
Qed.

Lemma covered_kept al c c' : wf c -> covered al c -> kept c c' -> covered al c'.
Proof using. intros W Hc K k Hk Hw. apply Hc; [done|]. by apply (kept_waits c c'). Qed.

(** ** Sending *)

Lemma poison_waits c no c1 b k : send_ctl_update_poison_hist c no = Ok (c1, b) -> waits c1 k -> waits c k.
Proof using.
  unfold send_ctl_update_poison_hist. destruct (_ =? _); [|by intros [= -> _]]. intros H. apply bind_ok in H as ([] & _ & H). revert H.
  unfold send_ctl_add_poison, malo_get. set (c0 := lsquic_senhist_add c (sc_gap (sc_a c))).
  assert (E0 : sc_mem c0 = sc_mem c /\ sc_q c0 = sc_q c) by (unfold c0, lsquic_senhist_add; by destruct (_ <? _)). destruct E0 as [Em Eq].
  destruct (hd true (sc_malo c0)); intros [= <- <-] (z & Hz & Hr); exists z.
  - cbn [sc_mem sc_q] in *. unfold plain_retx in *. cbn [or_flag set_flags set_a set_unacked set_q put set_mem set_malo sc_mem] in Hr. rewrite Em in Hr.
    destruct (decide (z = new_ptr (sc_mem c))) as [->|Hne]; [by rewrite lookup_insert_eq in Hr|]. rewrite lookup_insert_ne in Hr by done. split; [|done].
    revert Hz. unfold unacked at 1. cbn. rewrite Eq. unfold unacked. destruct (decide (k = PNS_APP)) as [->|Hk].
    + destruct (sc_unacked_packets (sc_q c) !! PNS_APP) as [l|] eqn:El.
      * rewrite list_lookup_insert_eq by (by apply lookup_lt_Some in El). cbn. rewrite Eq, El. cbn. rewrite Em.
        intros [Hz|Hz%list_elem_of_singleton]%elem_of_app; [done|done].
      * rewrite list_insert_ge by (by apply lookup_ge_None). by rewrite El.
    + by rewrite list_lookup_insert_ne by done.
  - unfold plain_retx, unacked in *. cbn in Hz, Hr. by rewrite Eq in Hz; rewrite Em in Hr.
Qed.

Lemma poison_mem c no c1 b p pk : send_ctl_update_poison_hist c no = Ok (c1, b) -> sc_mem c !! p = Some pk -> sc_mem c1 !! p = Some pk.
Proof using.
  unfold send_ctl_update_poison_hist. destruct (_ =? _); [|by intros [= -> _]]. intros H Hp. apply bind_ok in H as ([] & _ & H). revert H.
  unfold send_ctl_add_poison, malo_get. set (c0 := lsquic_senhist_add c (sc_gap (sc_a c))).
  assert (Em : sc_mem c0 = sc_mem c) by (unfold c0, lsquic_senhist_add; by destruct (_ <? _)).
  destruct (hd true (sc_malo c0)); intros H; injection H as <- _; cbn; rewrite Em; [|done].
  rewrite lookup_insert_ne; [done|]. intros <-. by rewrite new_ptr_fresh in Hp.
Qed.

Lemma append_waits c p pk c1 k : sc_mem c !! p = Some pk -> send_ctl_unacked_append sc_retx_frames c p = Ok c1 ->
  (po_pns pk < length (sc_unacked_packets (sc_q c)))%nat ->
  unacked c1 (po_pns pk) <> [] /\ (waits c1 k -> waits c k \/ k = po_pns pk /\ is_retx sc_retx_frames pk = true).
Proof using.
  intros Hp E Hlen. unfold send_ctl_unacked_append in E. rewrite (get_ok _ _ _ Hp) in E. cbn [mbind res_bind] in E.
  apply bind_ok in E as ([] & Hck & E). injection E as <-.
  assert (Hu : forall j l, unacked (set_n (put (set_unacked c (po_pns pk) l) p (with_where pk (po_sched pk) true (po_lost pk)))
     (add_in_flight (sc_n c) 1 (packet_out_sent_sz pk) (if is_retx sc_retx_frames pk then 1 else 0) (if is_retx sc_retx_frames pk then packet_out_total_sz pk else 0))) j
     = if decide (j = po_pns pk) then l else unacked c j).
  { intros j l. unfold unacked. cbn. destruct (decide (j = po_pns pk)) as [->|]; [by rewrite list_lookup_insert_eq|by rewrite list_lookup_insert_ne]. }
  set (c1 := set_n _ _). assert (Hpr : forall z, plain_retx sc_retx_frames c1 z = plain_retx sc_retx_frames c z).
  { intros z. unfold plain_retx, c1. cbn. destruct (decide (z = p)) as [->|Hne]; [by rewrite lookup_insert_eq, Hp|by rewrite lookup_insert_ne]. }
  split; [unfold c1; rewrite Hu; destruct (decide _); [|done]; by destruct (unacked c (po_pns pk))|].
  intros (z & Hz & Hr). rewrite Hpr in Hr. unfold c1 in Hz. rewrite Hu in Hz. destruct (decide (k = po_pns pk)) as [->|]; [|left; by exists z].
  apply elem_of_app in Hz as [Hz|Hz%list_elem_of_singleton]; [left; by exists z|]. subst z. right. split; [done|].
  apply plain_retx_spec in Hr as (pk' & Hp' & _ & _ & ?). congruence.
Qed.

Lemma sent_timed_ok c al tm p pk : ok c -> sendable c p pk -> alarms_ok al -> covered al c ->
  hwp (~ hsk_ok tm) c (sent_packet_timed sc_retx_frames e c al tm p) (fun '(c', al', tm', r) =>
    lsquic_send_ctl_sent_packet sc_retx_frames c p = Ok (c', r) /\ ok c' /\ alarms_ok al' /\ covered al' c').
Proof using.
  intros HO Hs Hal Hc. destruct (sent_ok sc_retx_frames c p pk HO Hs) as ([c' r] & E & HO'). cbn [fst] in HO'. pose proof (sb_mem _ _ _ Hs) as Hp.
  unfold sent_packet_timed. unfold lsquic_send_ctl_sent_packet in E |- *. rewrite (get_ok _ _ _ Hp) in E |- *. cbn [mbind res_bind] in E |- *.
  apply bind_ok in E as ([c1 b] & E1 & E). rewrite E1. cbn [mbind res_bind].
  pose proof (fun k => poison_waits c (packno pk) c1 b k E1) as Hw1.
  assert (Hc1 : covered al c1) by (intros k Hk Hw; apply Hc; [done|]; by apply Hw1).
  destruct b; cbn [negb] in E |- *.
  2: { injection E as <- <-. done. }
  apply bind_ok in E as (c2 & E2 & E). rewrite E2. cbn [mbind res_bind]. injection E as Ec <-.
  set (c1' := lsquic_senhist_add c1 (packno pk)) in *.
  assert (Hm : sc_mem c1' !! p = Some pk).
  { unfold send_ctl_unacked_append in E2. apply bind_ok in E2 as (pk' & Hg & _). unfold get in Hg. destruct (sc_mem c1' !! p) as [pk1|] eqn:Hp1; [|done].
    f_equal. assert (sc_mem c1' = sc_mem c1) as Em1 by (unfold c1', lsquic_senhist_add; by destruct (_ <? _)). rewrite Em1 in Hp1.
    rewrite (poison_mem _ _ _ _ _ _ E1 Hp) in Hp1. congruence. }
  assert (Hq : forall k, waits c1' k -> waits c1 k) by (intros k; unfold c1', lsquic_senhist_add; by destruct (_ <? _)).
  assert (Hpn : (po_pns pk < 3)%nat) by (apply (wf_pk _ _ _ (wf_q _ (proj1 HO)) _ _ Hp)).
  assert (Hl : (po_pns pk < length (sc_unacked_packets (sc_q c1')))%nat).
  { destruct (decide (po_pns pk < length (sc_unacked_packets (sc_q c1')))%nat) as [|Hn]; [done|]. exfalso.
    assert (length (sc_unacked_packets (sc_q c1')) = length (sc_unacked_packets (sc_q c'))) as El.
    { unfold send_ctl_unacked_append in E2. rewrite (get_ok _ _ _ Hm) in E2. cbn [mbind res_bind] in E2. apply bind_ok in E2 as ([] & _ & E2).
      injection E2 as <-. destruct (is_retx sc_retx_frames pk && _); subst c'; cbn; by rewrite length_insert. }
    pose proof (wf_len _ _ _ (wf_q _ (proj1 HO'))). lia. }
  assert (Hc1' : covered al c1') by (intros k Hk Hw; apply Hc1; [done|]; by apply Hq).
  pose proof (fun k => append_waits c1' p pk c2 k Hm E2 Hl) as Ha.
  destruct (is_retx sc_retx_frames pk) eqn:Hrx; cbn [andb] in Ec |- *.
  - assert (Hothers : forall k, (k < 3)%nat -> k <> po_pns pk -> waits c2 k -> is_Some (alarm al (AL_RETX_INIT + Z.of_nat k))).
    { intros k Hk Hne Hw. destruct (proj2 (Ha k) Hw) as [Hw'|[? _]]; [by apply Hc1'|done]. }
    rewrite (is_set_alarm al) by (done || unfold AL_RETX_INIT; lia).
    destruct (alarm al (AL_RETX_INIT + Z.of_nat (po_pns pk))) as [t|] eqn:Et; cbn [negb mbind res_bind].
    + rewrite Ec. cbn [hwp]. split; [done|]. split; [done|]. split; [done|].
      intros k Hk Hw. destruct (decide (k = po_pns pk)) as [->|Hne]; [by rewrite Et|]. apply Hothers; [done|done|]. subst c'. by destruct (_ =? 1).
    + set (tm0 := TM (sc_n_consec_rtos tm) (sc_n_hsk tm) (sc_n_tlp tm) (sc_next_limit tm) (sc_last_rto_time tm) (po_sent pk)).
      destruct (hsk_room_dec c2 tm0) as [Hr|[Hmo Hn]].
      2: { rewrite set_retx_alarm_fault; [|apply (Ha 0%nat)|done|done]. cbn. exact (hsk_full c2 tm0 Hmo Hn). }
      destruct (set_retx_alarm_ok c2 al tm0 (po_pns pk) (po_sent pk) Hal Hpn (proj1 (Ha 0%nat)) Hr) as (al' & tm' & t & -> & Hok' & _ & Hset & _ & Hoth).
      cbn [mbind res_bind]. rewrite Ec. cbn [hwp]. split; [done|]. split; [done|]. split; [done|].
      apply (covered_set c' al al' (po_pns pk) t); [|done|done]. intros k Hk Hne Hw. apply Hothers; [done|done|]. subst c'. by destruct (_ =? 1).
  - subst c2. cbn [hwp]. split; [done|]. split; [done|]. split; [done|]. intros k Hk Hw.
    destruct (proj2 (Ha k) Hw) as [Hw'|[_ ?]]; [by apply Hc1'|done].
Qed.

(** ** Acknowledgements *)

(** The timers are only read by [got_ack_timed]: without them it is the function of
    SendCtl. *)
Lemma got_ack_forget c al tm pns ranges ce gap do_rtt now c' al' tm' r :
  got_ack_timed sc_retx_frames e c al tm pns ranges ce gap do_rtt now = Ok (c', al', tm', r) ->
  lsquic_send_ctl_got_ack sc_retx_frames (re_srtt e) (re_min_rtt e) (re_env e) c pns ranges ce gap = Ok (c', r).
Proof using.
  unfold got_ack_timed, lsquic_send_ctl_got_ack. intros H.
  apply bind_ok in H as (hi & -> & H). cbn [mbind res_bind]. apply bind_ok in H as (lo & -> & H). cbn [mbind res_bind].
  destruct (_ <? hi.2); [by injection H as <- _ _ <-|].
  destruct (head _) as [p|].
  2: { apply bind_ok in H as ([c1 r1] & -> & H). by injection H as <- _ _ <-. }
  apply bind_ok in H as (pk & -> & H). cbn [mbind res_bind]. apply bind_ok in H as ([[c1 ok1] tm1] & E & H).
  assert (E' : (if hi.2 <? packno pk then Ok (clear_flag (or_flag c (Z.shiftl SC_ACK_RECV_INIT (Z.of_nat pns))) SC_WAS_QUIET, true)
    else got_ack_loop sc_retx_frames (length (unacked (clear_flag (or_flag c (Z.shiftl SC_ACK_RECV_INIT (Z.of_nat pns))) SC_WAS_QUIET) pns))
           (clear_flag (or_flag c (Z.shiftl SC_ACK_RECV_INIT (Z.of_nat pns))) SC_WAS_QUIET) pns (rev ranges) false hi.2
           (sc_largest_acked_packno (sc_a (clear_flag (or_flag c (Z.shiftl SC_ACK_RECV_INIT (Z.of_nat pns))) SC_WAS_QUIET))) p) = Ok (c1, ok1)).
  { destruct (_ <? packno pk); [by injection E as <- <- _|]. apply bind_ok in E as ([c2 ok2] & -> & E). by injection E as <- <- _. }
  rewrite E'. cbn [mbind res_bind]. destruct ok1; cbn [negb] in H |- *; [|by injection H as <- _ _ <-].
  apply bind_ok in H as ([c2 ld] & -> & H). cbn [mbind res_bind]. apply bind_ok in H as ([al2 tm2] & _ & H).
  apply bind_ok in H as ([c3 r3] & -> & H). by injection H as <- _ _ <-.
Qed.

Lemma got_ack_timed_ok c al tm pns ranges ce gap do_rtt now :
  wf c -> ranges_ok PN_BOUND ranges -> ranges ≠ [] -> (pns < 3)%nat -> alarms_ok al -> covered al c ->
  hwp (~ hsk_ok tm) c (got_ack_timed sc_retx_frames e c al tm pns ranges ce gap do_rtt now)
     (fun '(c', al', _, _) => kept c c' /\ alarms_ok al' /\ covered al' c').
Proof using.
  intros W Hr Hne Hpn Hal Hc. unfold got_ack_timed.
  destruct (head ranges) as [hi|] eqn:Hhd; [|by destruct ranges]. cbn [need mbind res_bind].
  destruct (last ranges) as [lo|] eqn:Hl; [|by apply last_None in Hl]. cbn [need mbind res_bind].
  assert (Hcov : forall c', kept c c' -> covered al c') by (intros c'; by apply covered_kept).
  destruct (_ <? hi.2).
  { cbn. split; [|done]. by apply kept_flags, kept_refl. }
  match goal with |- context [clear_flag ?x _] => set (c1 := clear_flag x SC_WAS_QUIET) end.
  assert (K1 : kept c c1) by (by apply kept_flags, kept_flags, kept_refl).
  assert (Hdet : forall c2 tm2, kept c c2 -> (hsk_ok tm -> hsk_ok tm2) -> hwp (~ hsk_ok tm) c
     ('(c, ld) ← send_ctl_detect_losses sc_retx_frames (re_srtt e) (re_min_rtt e) (re_env e) c2 pns;
      '(al, tm) ← rearm sc_retx_frames e c al tm2 pns now;
      let c := if sc_n_in_flight_retx (sc_n c) =? 0 then or_flag c SC_WAS_QUIET else c in
      let c := if ce && negb ld then send_ctl_loss_event c else c in
      '(c, ret) ← got_ack_finish c lo.1 gap; Ok (c, al, tm, ret)) (fun '(c', al', _, _) => kept c c' /\ alarms_ok al' /\ covered al' c')).
  { intros c2 tm2 K2 Hh2. apply hwp_bind, (hwp_kept _ _ c2); [done|]. eapply hwp_mono; [apply wp_hwp, detect_losses_ok, K2|].
    intros [c3 ret] (A & B & C & D & _). cbn zeta. assert (K3 : kept c c3).
    { apply (kept_trans c c2); [done|]. split_and!; try done. unfold crit in D. by simplify_eq. }
    destruct (rearm_ok c3 al tm2 pns now Hal Hpn) as [(al4 & tm4 & -> & Hal4 & Hc4)|[Hf ->]].
    { intros k Hk _ Hw. by apply (Hcov c3 K3). }
    2: { cbn. by intros ?%Hh2. }
    cbn [mbind res_bind]. match goal with |- context [got_ack_finish ?x] => set (c4 := x) end.
    assert (kept c c4 /\ covered al4 c4) as [K4 Hc5].
    { unfold c4. destruct (ce && negb ret); destruct (_ =? 0); (split; [|exact Hc4]);
        repeat first [apply kept_loss_event | apply kept_flags]; done. }
    apply hwp_bind. unfold got_ack_finish. destruct (_ <? _); [|by cbn]. pose proof K4 as (W4 & _).
    destruct (poison_ok c4 gap W4) as (c5 & -> & A5 & B5 & C5 & D5). cbn. assert (K5 : kept c4 c5) by (by split_and!).
    split; [by apply (kept_trans c c4)|]. split; [done|]. by apply (covered_kept al4 c4). }
  destruct (head (unacked c1 pns)) as [p|] eqn:Hu.
  2: { apply hwp_bind. eapply hwp_mono; [by apply wp_hwp, finish_ok, kept_flags|]. intros [c2 r] K2. split; [done|]. by split; [|apply Hcov]. }
  destruct (unacked c1 pns) as [|p' suf] eqn:Hq; [done|]. injection Hu as ->.
  destruct (queued c1 pns p) as (pk & Hp & _); [apply K1|rewrite Hq; by left|].
  rewrite (get_ok _ _ _ Hp). cbn [mbind res_bind]. apply hwp_bind. destruct (Z.ltb_spec hi.2 (packno pk)) as [Hlt|Hle].
  - cbn [hwp negb]. by apply Hdet.
  - apply hwp_bind, (hwp_kept _ _ c1); [done|]. rewrite <- Hq. eapply hwp_mono.
    + apply wp_hwp. apply (got_ack_loop_ok sc_retx_frames pns c1 ranges hi _ p suf); try done; [apply K1|]. unfold pno. by rewrite Hp.
    + intros [c2 ok] (A & B & C & D & _ & _). cbn in A, B, C, D.
      assert (K2 : kept c c2).
      { apply (kept_trans c c1); [done|]. split_and!; try done. unfold steady in D. by simplify_eq. }
      cbn [hwp]. destruct ok; cbn [negb]; [|split; [done|]; by split; [|apply Hcov]].
      apply Hdet; [done|]. destruct (true && do_rtt); [|done]. intros _. right. cbn. lia.
Qed.

(** ** Expiry *)

(** The packet waits, as a packet that could be sent again. *)
Definition live (c : send_ctl) (p : Z) : Prop := exists pk, sc_mem c !! p = Some pk /\ plain pk.

Lemma evolves_live c c' p : evolves c c' -> live c' p -> live c p.
Proof using. intros (_ & H & _) (pk & Hp & Hpl). destruct (H p pk Hp Hpl) as (pk0 & H0 & Hpl0 & _). by exists pk0. Qed.

Lemma gone_dead c l c' p : gone c l c' -> p ∈ l -> ~ live c' p.
Proof using. intros HG Hp (pk & Hpk & _). rewrite (gn_mem _ _ _ HG), lookup_dels in Hpk. by rewrite decide_True in Hpk. Qed.

(** A packet that was handled waits no more; the walk goes on behind it. *)
Definition handled (c : send_ctl) (pns : nat) (pre suf : list Z) (p : Z) (c' : send_ctl) (next : option Z) : Prop :=
  exists pre' suf', unacked c' pns = pre' ++ suf' /\ next = head suf' /\ (length suf' <= length suf)%nat /\
    (forall x, x ∈ pre' -> live c' x -> x ∈ pre) /\ ~ live c' p /\ wf c' /\ evolves c c'.

Lemma gone_handled c l c' pns pre suf p : gone c l c' -> p ∈ l -> unacked c pns = pre ++ p :: suf ->
  handled c pns pre suf p c' (head (filter (.∉ l) suf)).
Proof using.
  intros HG Hp Hq. exists (filter (.∉ l) pre), (filter (.∉ l) suf). split_and!.
  - rewrite (gn_una _ _ _ HG), Hq, filter_app, filter_cons_False; [done|tauto].
  - done.
  - apply length_filter.
  - intros x [_ Hx]%list_elem_of_filter _. done.
  - by apply (gone_dead c l).
  - apply HG.
  - apply HG.
Qed.

Lemma handle_lost_handled c p pk pre suf c' next : wf c -> sc_mem c !! p = Some pk -> plain pk -> unacked c (po_pns pk) = pre ++ p :: suf ->
  send_ctl_handle_lost_packet sc_retx_frames (re_min_rtt e) (re_env e) c p (head suf) = Ok (c', next) -> handled c (po_pns pk) pre suf p c' next.
Proof using.
  intros W Hp Hpl Hq. unfold send_ctl_handle_lost_packet. rewrite (get_ok _ _ _ Hp). cbn [mbind res_bind]. destruct (po_mtu_probe pk) eqn:Hm.
  - destruct (handle_mtu sc_retx_frames c p pk pre suf W Hp Hpl Hm Hq) as (c1 & -> & HG & _ & _ & Ef). intros [= <- <-].
    rewrite <- Ef at 2. apply gone_handled; [done|by left|done].
  - destruct (is_retx sc_retx_frames pk) eqn:Hrx.
    + pose proof (handle_retx sc_retx_frames (re_min_rtt e) (re_env e) c p pk pre suf (head suf) W Hp Hpl Hm Hrx Hq) as H.
      destruct (send_ctl_handle_regular_lost_packet _ _ _ _ _ _) as [[[c1 r] nx]|f]; [|done]. intros [= <- <-]. destruct H as [-> H].
      exists (pre ++ option_list r), suf. split_and!; try done; [by rewrite (lr_here _ _ _ _ _ _ _ H), app_assoc| | |apply H|apply H].
      * intros x [Hx|Hx]%elem_of_app (xk & Hxk & _ & Hl & _); [done|]. pose proof (lr_rec _ _ _ _ _ _ _ H) as Hr. destruct r as [r|]; [|by apply not_elem_of_nil in Hx].
        apply list_elem_of_singleton in Hx as ->. destruct Hr as (_ & rk & Hrk & Hlr & _). congruence.
      * intros (pk' & Hp' & Hu & _). pose proof (wf_q _ (lr_wf _ _ _ _ _ _ _ H)) as WQ. pose proof (wf_in _ _ _ WQ _ _ Hp') as (_ & B & _).
        assert (po_lost pk' = true) as Hlo by (apply B; rewrite (lr_lost _ _ _ _ _ _ _ H); apply elem_of_app; right; by left).
        pose proof (wf_pk _ _ _ WQ _ _ Hp') as ((A1 & A2 & A3) & _). rewrite Hu, Hlo in *. by destruct (po_sched pk').
    + destruct (rg_ring _ (wf_r _ W) p) as [rest HR]; [eauto|].
      destruct (handle_other sc_retx_frames (re_min_rtt e) (re_env e) c p pk rest pre suf (head suf) W Hp Hpl Hrx HR Hq eq_refl) as (c1 & -> & HG & _).
      intros [= <- <-]. apply gone_handled; [done|by left|done].
Qed.

Lemma expire_walk_dead pns suf : forall fuel c pre c', wf c -> unacked c pns = pre ++ suf -> (forall x, x ∈ pre -> ~ live c x) ->
  lost_walk (fun _ pk => negb (is_loss_rec pk || po_poison pk)) (send_ctl_handle_lost_packet sc_retx_frames (re_min_rtt e) (re_env e)) fuel c pns (head suf) = Ok c' ->
  evolves c c' /\ forall x, x ∈ unacked c' pns -> ~ live c' x.
Proof using.
  induction suf as [suf IH] using (induction_ltof1 _ (@length Z)). unfold ltof in IH. intros fuel c pre c' W Hq Hpre E.
  destruct suf as [|p suf].
  - destruct fuel; cbn in E; injection E as <-; (split; [apply evolves_refl|]); by rewrite Hq, app_nil_r.
  - destruct fuel as [|fuel]; [done|]. cbn [lost_walk head] in E.
    destruct (queued c pns p W) as (pk & Hp & Hok & Hu & Hh).
    { rewrite Hq. apply elem_of_app. right. by left. }
    rewrite (get_ok _ _ _ Hp) in E. cbn [mbind res_bind] in E.
    assert (Hnd : NoDup (unacked c pns)) by apply (wf_q _ W). rewrite Hq in Hnd, E. rewrite tailq_next_mid in E by done.
    destruct (negb _) eqn:Ep.
    + apply negb_true_iff, orb_false_iff in Ep as [Hl Hpo]. assert (Hpl : plain pk) by done. rewrite plain_home in Hh by done. subst pns.
      apply bind_ok in E as ([c1 nx] & E1 & E).
      destruct (handle_lost_handled c p pk pre suf c1 nx W Hp Hpl Hq E1) as (pre1 & suf1 & Hq1 & -> & Hlen & Hold & Hd & W1 & Hev1).
      destruct (IH suf1 ltac:(cbn; lia) fuel c1 pre1 c' W1 Hq1) as [Hev Hdead]; [|done|].
      * intros x Hx Hlv. apply (Hpre x (Hold x Hx Hlv)). by apply (evolves_live c c1).
      * split; [by eapply evolves_trans|done].
    + cbn [mbind res_bind] in E. apply (IH suf ltac:(cbn; lia) fuel c (pre ++ [p]) c' W); [by rewrite <- app_assoc| |done].
      intros x [Hx|Hx%list_elem_of_singleton]%elem_of_app; [by apply Hpre|]. subst x. intros (pk' & Hp' & _ & Hl & Hpo).
      replace pk' with pk in * by congruence. by rewrite Hl, Hpo in Ep.
Qed.

(** Once the packets of a space expired none of them waits. *)
Lemma expire_all_ok c pns : wf c ->
  wp c (send_ctl_expire sc_retx_frames (re_min_rtt e) (re_env e) c pns EXFI_ALL) (fun c' => kept c c' /\ ~ waits c' pns).
Proof using.
  intros W. pose proof (expire_step sc_retx_frames (re_min_rtt e) (re_env e) c pns EXFI_ALL W) as H.
  destruct (send_ctl_expire _ _ _ _ _ _) as [c'|f] eqn:E; [|exact H]. destruct H as (A & B & C & D). split.
  - split_and!; try done. unfold crit in D. by simplify_eq.
  - intros (p & Hp & Hr). destruct (expire_walk_dead pns (unacked c pns) _ c [] c' W eq_refl ltac:(by intros x ?%not_elem_of_nil) E) as [_ Hd].
    apply (Hd p Hp). apply plain_retx_spec in Hr as (pk & Hpk & Hl & Hpo & _). destruct (queued c' pns p A Hp) as (pk' & Hpk' & _ & Hu & _).
    exists pk. split; [done|]. replace pk' with pk in * by congruence. done.
Qed.

Lemma expire_ok c pns f : wf c -> wp c (send_ctl_expire sc_retx_frames (re_min_rtt e) (re_env e) c pns f) (kept c).
Proof using.
  intros W. eapply wp_mono; [by apply expire_step|]. intros c' (A & B & C & D). split_and!; try done. unfold crit in D. by simplify_eq.
Qed.

(** ** Alarms that ring *)

Lemma retx_timeout_ok c tm pns now : wf c ->
  wp c (retx_timeout sc_retx_frames e c tm pns now) (fun '(c', tm') => kept c c' /\ sc_n_hsk tm' = sc_n_hsk tm /\
    (get_retx_mode e c tm = RETX_MODE_RTO -> ~ waits c' pns)).
Proof using.
  intros W. unfold retx_timeout. destruct (get_retx_mode e c tm).
  - apply wp_bind. eapply wp_mono; [by apply expire_ok|]. done.
  - apply wp_bind. eapply wp_mono; [by apply detect_losses_ok|]. intros [c' r] (A & B & C & D & _). cbn.
    split; [|done]. split_and!; try done. unfold crit in D. by simplify_eq.
  - apply wp_bind. eapply wp_mono; [by apply expire_ok|]. done.
  - apply wp_bind. eapply wp_mono; [by apply expire_all_ok|]. intros c' [K Hw]. done.
Qed.

(** The alarm of a space rings: packets are declared lost, and the alarm is armed
    again just if packets still wait. *)
Lemma retx_alarm_rings_ok c al tm pns now :
  wf c -> (pns < 3)%nat -> alarms_ok al -> alarm al (AL_RETX_INIT + Z.of_nat pns) = None ->
  (forall k, (k < 3)%nat -> k <> pns -> waits c k -> is_Some (alarm al (AL_RETX_INIT + Z.of_nat k))) ->
  hwp (~ hsk_ok tm) c (retx_alarm_rings sc_retx_frames e (AL_RETX_INIT + Z.of_nat pns) c al tm now)
     (fun '(c', al', _) => kept c c' /\ alarms_ok al' /\ covered al' c' /\ later now al al' /\
        (is_Some (alarm al' (AL_RETX_INIT + Z.of_nat pns)) <-> waits c' pns) /\ (get_retx_mode e c tm = RETX_MODE_RTO -> ~ waits c' pns)).
Proof using.
  intros W Hpn Hal Hoff Hc. unfold retx_alarm_rings. replace (Z.to_nat (AL_RETX_INIT + Z.of_nat pns - AL_RETX_INIT)) with pns by lia.
  rewrite is_set_alarm by (done || unfold AL_RETX_INIT; lia). rewrite Hoff. cbn [check negb mbind res_bind].
  apply hwp_bind. eapply hwp_mono; [by apply wp_hwp, retx_timeout_ok|]. intros [c1 tm1] (K & Eh & Hrto).
  assert (Hc1 : forall k, (k < 3)%nat -> k <> pns -> waits c1 k -> is_Some (alarm al (AL_RETX_INIT + Z.of_nat k))).
  { intros k Hk Hne Hw. apply Hc; [done|done|]. by apply (kept_waits c c1). }
  pose proof (first_unacked_waits c1 pns) as Hf. destruct (send_ctl_first_unacked_retx_packet _ c1 pns) as [p|].
  - destruct (hsk_room_dec c1 tm1) as [Hr|[Hmo Hn]].
    2: { rewrite set_retx_alarm_fault by (done || by apply waits_nonempty). cbn. pose proof (hsk_full c1 tm1 Hmo Hn) as Hfu. unfold hsk_ok in *. by rewrite <- Eh. }
    destruct (set_retx_alarm_ok c1 al tm1 pns now Hal Hpn (waits_nonempty _ _ Hf) Hr) as (al' & tm' & t & E1 & Hok' & _ & Hs & _ & Ho).
    rewrite E1. cbn. split; [done|]. split; [done|]. split; [by apply (covered_set c1 al al' pns t)|].
    split; [by apply (set_retx_alarm_later c1 al tm1 pns now al' tm' Hal Hpn (waits_nonempty _ _ Hf) Hr)|]. rewrite Hs. by split.
  - cbn. split; [done|]. split; [done|]. rewrite Hoff. split; [|split; [apply later_refl|split; [split; [by intros [? ?]|done]|done]]].
    intros k Hk Hw. destruct (decide (k = pns)) as [->|Hne]; [done|]. by apply Hc1.
Qed.

Lemma expire_spaces_ok spaces : forall c al, wf c -> alarms_ok al -> Forall (fun k => (k < 3)%nat) spaces ->
  (forall k, (k < 3)%nat -> waits c k -> is_Some (alarm al (AL_RETX_INIT + Z.of_nat k))) ->
  wp c (expire_spaces sc_retx_frames e c al spaces) (fun '(c', al') => kept c c' /\ alarms_ok al' /\ covered al' c' /\
    forall k, k ∈ spaces -> ~ waits c' k).
Proof using.
  induction spaces as [|pns spaces IH]; intros c al W Hal Hs Hc; cbn [expire_spaces].
  - split; [by apply kept_refl|]. split; [done|]. split; [done|]. by intros k ?%not_elem_of_nil.
  - apply Forall_cons in Hs as [Hpn Hs]. apply wp_bind. eapply wp_mono; [by apply expire_all_ok|]. intros c1 [K1 Hw1].
    apply (wp_kept c c1); [done|]. eapply wp_mono.
    + apply IH; [apply K1|apply unset_ok; [done|unfold AL_RETX_INIT; lia]|done|]. intros k Hk Hw.
      destruct (decide (k = pns)) as [->|Hne]; [done|]. unfold AL_RETX_INIT in *. rewrite unset_alarm by lia.
      replace (1 + Z.of_nat k =? 1 + Z.of_nat pns) with false by lia. apply Hc; [done|]. by apply (kept_waits c c1).
    + intros [c2 al2] (K2 & Hal2 & Hc2 & Hw2). split; [by apply (kept_trans c c1)|]. split; [done|]. split; [done|].
      intros k [->|Hk]%elem_of_cons; [|by apply Hw2]. intros Hw. apply Hw1. apply (kept_waits c1 c2); [apply K1|done|done].
Qed.

(** After [lsquic_send_ctl_expire_all] no packet of the spaces in use waits. *)
Lemma expire_everything_ok c al : wf c -> alarms_ok al -> covered al c ->
  wp c (lsquic_send_ctl_expire_all sc_retx_frames e c al) (fun '(c', al') => kept c c' /\ alarms_ok al' /\ covered al' c' /\ ~ waits c' PNS_APP).
Proof using.
  intros W Hal Hc. unfold lsquic_send_ctl_expire_all. eapply wp_mono.
  - apply expire_spaces_ok; try done. destruct (has_flag _ SC_IETF); repeat constructor; lia.
  - intros [c' al'] (K & A & B & D). split; [done|]. split; [done|]. split; [done|]. apply D. destruct (has_flag _ SC_IETF); set_solver.
Qed.

(** Alarms of other kinds do not matter. *)
Lemma arm_ok al id t : alarms_ok al -> 0 <= id < 19 ->
  exists al', arm al id t = Ok al' /\ alarms_ok al' /\ as_alarms al' = as_alarms al /\ (forall j, 0 <= j -> j <> id -> alarm al' j = alarm al j) /\
    alarm al' id = Some (default (u64 t) (alarm al id)).
Proof using.
  intros Hal Hid. unfold arm. rewrite is_set_alarm by done. destruct (alarm al id) as [x|] eqn:Ex; cbn [negb]; [by exists al|].
  destruct (set_ok al id (u64 t) Hal Hid) as (al' & -> & Hok & Ein & Ha).
  exists al'. split; [done|]. split; [done|]. split; [done|]. split; [|rewrite Ha by lia; by rewrite Z.eqb_refl].
  intros j Hj Hne. rewrite Ha by lia. by replace (j =? id) with false by lia.
Qed.

Lemma covered_other al al' c id : ~ (AL_RETX_INIT <= id < AL_RETX_INIT + 3) -> (forall j, 0 <= j -> j <> id -> alarm al' j = alarm al j) -> covered al c -> covered al' c.
Proof using. intros Hid H Hc k Hk Hw. unfold AL_RETX_INIT in *. rewrite H by lia. by apply Hc. Qed.

End timers.
