(* ===== verification/RetxRun.v ===== *)
(** Runs of the send controller with its alarms: in every state that can be reached the
    retransmission alarm is armed for every space in which a packet waits, so that no
    packet is forgotten. *)
From Stdlib Require Import Sorted.
From stdpp Require Import gmap.
From S2P Require Import Prelude Ranges Art SendCtl SendCtlSpec SendCtlLoss SendCtlAck SendCtlThms SendCtlRun Alarms Retx RetxThms.
Local Open Scope Z_scope.

(** What the connection can do: operations that arm no alarm, those that do, an alarm
    that rings, and alarms of other owners, which are given a callback, armed and
    disarmed. *)
Inductive top :=
| Queue (o : op)
| TSent (p : Z)
| TGotAck (pns : nat) (ranges : list (Z * Z)) (ce : bool) (gap : Z) (do_rtt : bool) (now : Z)
| TRing (al_id now : Z)
| TExpireAll
| TReschedule (p no : Z)
| TInit (al_id : Z)
| TArm (al_id time : Z)
| TDisarm (al_id : Z).

Definition tstate : Type := send_ctl * alarmset * timers.

Definition queue_op (o : op) : bool := match o with New _ | Schedule _ | Delayed _ | Unschedule _ => true | _ => false end.
Definition ctl_alarm (id : Z) : bool := (AL_RETX_INIT <=? id) && (id <=? AL_RETX_INIT + 2).

(** The invariant. *)
Record timed_ok (retx : Z) (st : tstate) : Prop := {
  to_ctl : ok st.1.1;
  to_alarms : alarms_ok st.1.2;
  to_covered : covered retx st.1.2 st.1.1
}.

(** ** Operations that leave the packets that wait alone *)

Definition aside (c c' : send_ctl) (p : Z) : Prop :=
  (forall k, unacked c' k = unacked c k) /\ forall z, z <> p -> sc_mem c' !! z = sc_mem c !! z.

Lemma aside_put c c' p pk : aside c c' p -> aside c (put c' p pk) p.
Proof. intros [Hu Hm]. split; [exact Hu|]. intros z Hz. cbn. rewrite lookup_insert_ne by done. by apply Hm. Qed.

Lemma aside_refl c p : aside c c p.
Proof. done. Qed.

Lemma covered_aside retx al c c' p : aside c c' p -> (forall k, p ∉ unacked c k) -> covered retx al c -> covered retx al c'.
Proof. intros [Hu Hm] Hp Hc k Hk Hw. apply Hc; [done|]. by apply (same_waits retx c c' p). Qed.

Lemma new_aside c pk : aside c (lsquic_send_ctl_new_packet_out c pk).1 (new_ptr (sc_mem c)).
Proof.
  unfold lsquic_send_ctl_new_packet_out, malo_get. destruct (hd true (sc_malo c)); [|done]. by apply (aside_put c (set_malo c _)).
Qed.

Lemma xpend_aside c q p c' : send_ctl_sched_Xpend_common (set_sched c q) p = Ok c' -> aside c c' p.
Proof. unfold send_ctl_sched_Xpend_common. intros H. apply bind_ok in H as (pk & _ & H). injection H as <-. by apply (aside_put c (set_sched c q)). Qed.

Lemma unschedule_aside c p c' : send_ctl_sched_remove c p = Ok c' -> aside c c' p.
Proof.
  unfold send_ctl_sched_remove. intros H. apply bind_ok in H as (pk & _ & H). apply bind_ok in H as (q & _ & H). apply bind_ok in H as ([] & _ & H).
  injection H as <-. by apply (aside_put c (set_sched c q)).
Qed.

Lemma aside_trans c c1 c2 p : aside c c1 p -> aside c1 c2 p -> aside c c2 p.
Proof. intros [H1 H2] [H3 H4]. split; intros; [by rewrite H3|by rewrite H4, H2]. Qed.

Lemma reschedule_aside c p no c' : reschedule_one c p no = Ok c' -> aside c c' p.
Proof.
  unfold reschedule_one, pop_lost_packet, update_for_resending. intros H. apply bind_ok in H as (c1 & H1 & H).
  apply bind_ok in H1 as (pk & _ & H1). apply bind_ok in H1 as (q & _ & H1). injection H1 as <-. set (c1 := put _ p _) in H.
  assert (A1 : aside c c1 p) by (by apply (aside_put c (set_n (set_lost c q) (add_lost (sc_n c) (-1) 0)))).
  apply bind_ok in H as (pk1 & _ & H). apply bind_ok in H as (c2 & H2 & H).
  apply bind_ok in H2 as (pk2 & _ & H2). apply bind_ok in H2 as ([] & _ & H2). apply bind_ok in H2 as ([] & _ & H2). injection H2 as <-.
  apply bind_ok in H as (pk3 & _ & H). apply xpend_aside in H. apply (aside_trans c c1); [exact A1|]. revert H. destruct (po_sched pk2); intros H.
  - eapply aside_trans; [|exact H]. by do 2 apply aside_put.
  - eapply aside_trans; [|exact H]. by do 2 apply aside_put.
Qed.

(** ** The alarms at the start *)

Lemma init_one_ok al i : alarms_ok al -> 0 <= i < 19 -> exists al', lsquic_alarmset_init_alarm al i = Some al' /\ alarms_ok al'.
Proof.
  intros [H0 Hh [Hl1 Hl2]] Hi. unfold lsquic_alarmset_init_alarm. rewrite aset_ok by lia. cbn [mbind option_bind]. eexists. split; [done|].
  split; cbn; [done|done|]. by rewrite length_insert.
Qed.

Lemma init_ctl_alarms_ok time al : init_alarms lsquic_alarmset_init time = Some al -> alarms_ok al.
Proof.
  unfold init_alarms. pose proof init_alarms_ok as H. unfold AL_RETX_INIT, AL_ART_SCHE, AL_DEBUG_STATUS.
  assert (Hstep : forall al0 i (f : alarmset -> option alarmset), alarms_ok al0 -> 0 <= i < 19 ->
    (lsquic_alarmset_init_alarm al0 i ≫= f) = Some al -> exists al1, alarms_ok al1 /\ f al1 = Some al).
  { intros al0 i f H0 Hi E. destruct (init_one_ok al0 i H0 Hi) as (al1 & E1 & H1). rewrite E1 in E. by exists al1. }
  intros E. do 5 (apply Hstep in E as (? & ? & E); [|done|lia]).
  destruct (set_ok x3 18 (u64 (time + 100000)) ltac:(done) ltac:(lia)) as (al' & E' & Hok & _). congruence.
Qed.

Section runs.
Context (sc_retx_frames : Z).

Definition texec (e : retx_env) (o : top) (st : tstate) : res tstate :=
  let '(c, al, tm) := st in
  match o with
  | Queue o => c ← exec sc_retx_frames (World (re_srtt e) (re_min_rtt e) (re_env e)) o c; Ok (c, al, tm)
  | TSent p => '(c, al, tm, _) ← sent_packet_timed sc_retx_frames e c al tm p; Ok (c, al, tm)
  | TGotAck pns ranges ce gap do_rtt now =>
    '(c, al, tm, _) ← got_ack_timed sc_retx_frames e c al tm pns ranges ce gap do_rtt now; Ok (c, al, tm)
  | TRing al_id now =>
    '(al, (c, tm)) ← ctl_callback sc_retx_frames e al_id 0 now (lsquic_alarmset_unset al al_id, (c, tm)); Ok (c, al, tm)
  | TExpireAll => '(c, al) ← lsquic_send_ctl_expire_all sc_retx_frames e c al; Ok (c, al, tm)
  | TReschedule p no => '(c, al) ← reschedule_timed e c al p no; Ok (c, al, tm)
  | TInit al_id => al ← need Bug (lsquic_alarmset_init_alarm al al_id); Ok (c, al, tm)
  | TArm al_id time => al ← need Bug (lsquic_alarmset_set al al_id time); Ok (c, al, tm)
  | TDisarm al_id => Ok (c, lsquic_alarmset_unset al al_id, tm)
  end.

(** The alarms whose callbacks are in lsquic_send_ctl.c. *)
Definition ctl_owned (id : Z) : bool := ctl_alarm id || (id =? AL_DEBUG_STATUS) || (id =? AL_ART_SCHE).

(** When the connection does it. *)
Definition tenabled (e : retx_env) (o : top) (st : tstate) : Prop :=
  let '(c, al, tm) := st in
  match o with
  | Queue o => queue_op o = true /\ enabled o c
  | TSent p => enabled (Sent p) c
  | TGotAck pns ranges ce gap _ _ => enabled (GotAck pns ranges ce gap) c /\ (pns < 3)%nat
  | TRing al_id _ => ctl_owned al_id = true
  | TExpireAll => True
  | TReschedule p no => enabled (Reschedule p no) c
  | TInit al_id | TArm al_id _ | TDisarm al_id => 0 <= al_id < 19 /\ ctl_alarm al_id = false
  end.

Inductive treachable (flags last : Z) (malo : list bool) (time : Z) : tstate -> Prop :=
| treach_init al : init_alarms lsquic_alarmset_init time = Some al ->
    treachable flags last malo time (lsquic_send_ctl_init flags last malo, al, timers_init)
| treach_step e o st st' :
    treachable flags last malo time st -> tenabled e o st -> texec e o st = Ok st' -> treachable flags last malo time st'.

Lemma limbo_unacked c p pk k : wf c -> sc_mem c !! p = Some pk -> limbo pk -> p ∉ unacked c k.
Proof using. intros W Hp (_ & Hu & _). by apply (not_unacked c p pk). Qed.

Lemma queue_step w o c : ok c -> queue_op o = true -> enabled o c ->
  exists c', exec sc_retx_frames w o c = Ok c' /\ ok c' /\ forall al, covered sc_retx_frames al c -> covered sc_retx_frames al c'.
Proof using.
  intros HO Hq He. pose proof HO as [W _]. destruct o; try done; cbn [exec enabled] in *.
  - destruct He as [Hl Hok]. eexists. split; [done|]. split; [by apply new_ok|]. intros al. apply (covered_aside _ _ _ _ _ (new_aside c pk)).
    intros k Hk. destruct (queued c k _ W Hk) as (pk' & Hp & _). by rewrite new_ptr_fresh in Hp.
  - destruct He as (pk & Hp & Hl & Hs). destruct (xpend_ok c p pk (sc_scheduled_packets (sc_q c)) []) as (c' & E & O); try done; [by rewrite app_nil_r|].
    exists c'. split; [exact E|]. split; [done|]. intros al. apply (covered_aside _ _ _ _ p); [by apply (xpend_aside _ _ _ _ E)|].
    intros k. by apply (limbo_unacked c p pk).
  - destruct He as (pk & Hp & Hl & Hs). destruct (xpend_ok c p pk [] (sc_scheduled_packets (sc_q c))) as (c' & E & O); try done.
    exists c'. split; [exact E|]. split; [done|]. intros al. apply (covered_aside _ _ _ _ p); [by apply (xpend_aside _ _ _ _ E)|].
    intros k. by apply (limbo_unacked c p pk).
  - destruct He as (pk & Hp & Hs). destruct (unschedule_ok c p pk HO Hp Hs) as (c' & E & O). exists c'. split; [exact E|]. split; [done|].
    intros al. apply (covered_aside _ _ _ _ p); [by apply unschedule_aside|]. intros k. apply (not_unacked c p pk); [done|done|].
    pose proof (wf_pk _ _ _ (wf_q _ W) _ _ Hp) as ((A1 & A2 & A3) & _). rewrite Hs in *. by destruct (po_unacked pk), (po_lost pk).
Qed.

Lemma reschedule_step e c al p no : ok c -> alarms_ok al -> covered sc_retx_frames al c -> enabled (Reschedule p no) c ->
  exists c' al', reschedule_timed e c al p no = Ok (c', al') /\ ok c' /\ alarms_ok al' /\ covered sc_retx_frames al' c'.
Proof using.
  intros HO Hal Hc (pk & Hp & Hr & Hs). destruct (reschedule_ok c p pk no HO Hp Hr Hs) as (c' & E & O').
  assert (Hc' : covered sc_retx_frames al c').
  { apply (covered_aside _ _ c _ p); [by apply reschedule_aside in E| |done]. intros k. apply (not_unacked c p pk); [apply HO|done|].
    pose proof (wf_pk _ _ _ (wf_q _ (proj1 HO)) _ _ Hp) as ((A1 & A2 & A3) & _). destruct Hr as [Hlo _]. rewrite Hlo in *. by destruct (po_unacked pk), (po_sched pk). }
  unfold reschedule_timed. rewrite E. cbn [mbind res_bind].
  assert (exists pk', get c' p = Ok pk') as [pk' ->].
  { unfold reschedule_one, send_ctl_sched_append, send_ctl_sched_Xpend_common in E. do 4 apply bind_ok in E as (? & _ & E). apply bind_ok in E as (z & _ & E). injection E as <-.
    unfold get. cbn. rewrite lookup_insert_eq. by eexists. }
  cbn [mbind res_bind]. destruct (_ && _); [|by exists c', al].
  destruct (arm_ok al AL_ART_SCHE (re_time e + 1) Hal ltac:(unfold AL_ART_SCHE; lia)) as (al' & -> & Hal' & _ & Hoth & _). cbn [mbind res_bind].
  exists c', al'. split; [done|]. split; [done|]. split; [done|]. apply (covered_other _ al al' c' AL_ART_SCHE); [unfold AL_ART_SCHE, AL_RETX_INIT; lia|done|done].
Qed.

Lemma ctl_alarm_space id : ctl_alarm id = true -> exists pns, (pns < 3)%nat /\ id = AL_RETX_INIT + Z.of_nat pns.
Proof using.
  unfold ctl_alarm, AL_RETX_INIT. rewrite andb_true_iff, !Z.leb_le. intros [H1 H2]. exists (Z.to_nat (id - 1)). lia.
Qed.

Lemma covered_unset al c id : 0 <= id -> (forall k, (k < 3)%nat -> id <> AL_RETX_INIT + Z.of_nat k -> waits sc_retx_frames c k -> is_Some (alarm al (AL_RETX_INIT + Z.of_nat k))) ->
  forall k, (k < 3)%nat -> id <> AL_RETX_INIT + Z.of_nat k -> waits sc_retx_frames c k -> is_Some (alarm (lsquic_alarmset_unset al id) (AL_RETX_INIT + Z.of_nat k)).
Proof using.
  intros Hid H k Hk Hne Hw. unfold AL_RETX_INIT in *. rewrite unset_alarm by lia. replace (1 + Z.of_nat k =? id) with false by lia. by apply H.
Qed.

(** The alarm of a space rings. *)
Lemma ring_space_ok e c al tm pns now : ok c -> alarms_ok al -> covered sc_retx_frames al c -> (pns < 3)%nat ->
  hwp (~ hsk_ok e tm) c (texec e (TRing (AL_RETX_INIT + Z.of_nat pns) now) (c, al, tm)) (fun st' => timed_ok sc_retx_frames st' /\
    kept c st'.1.1 /\ later now (lsquic_alarmset_unset al (AL_RETX_INIT + Z.of_nat pns)) st'.1.2 /\
    (is_Some (alarm st'.1.2 (AL_RETX_INIT + Z.of_nat pns)) <-> waits sc_retx_frames st'.1.1 pns) /\
    (get_retx_mode e c tm = RETX_MODE_RTO -> ~ waits sc_retx_frames st'.1.1 pns)).
Proof using.
  intros HO Hal Hc Hpn. cbn [texec]. unfold ctl_callback.
  replace ((AL_RETX_INIT <=? _) && _) with true by (unfold AL_RETX_INIT; lia). apply hwp_bind, hwp_bind.
  eapply hwp_mono.
  - apply (retx_alarm_rings_ok sc_retx_frames e c (lsquic_alarmset_unset al (AL_RETX_INIT + Z.of_nat pns)) tm pns now); try done; try apply HO.
    + apply unset_ok; [done|unfold AL_RETX_INIT; lia].
    + rewrite unset_alarm by (unfold AL_RETX_INIT; lia). by rewrite Z.eqb_refl.
    + intros k Hk Hne Hw. apply (covered_unset al c); [unfold AL_RETX_INIT; lia|by intros; apply Hc|done|lia|done].
  - intros [[c' al'] tm'] (K & A & B & L & D & F). cbn [hwp fst snd]. split; [|done]. split; [by apply (kept_ok c)|done|done].
Qed.

(** ** All alarms of the send controller ring *)

Definition ctl_ring (e : retx_env) (al_id expiry now : Z) (st : alarmset * (send_ctl * timers)) : option (alarmset * (send_ctl * timers)) :=
  match ctl_callback sc_retx_frames e al_id expiry now st with Ok st => Some st | Fault _ => None end.

(** No allocation fails, and no packet was duplicated too often. *)
Record ringing (al : alarmset) (s : send_ctl * timers) : Prop := {
  ri_timed : timed_ok sc_retx_frames (s.1, al, s.2);
  ri_malo : Forall (fun b => b = true) (sc_malo s.1);
  ri_due : ~ overdue s.1
}.

Lemma kept_ringing c c' : kept c c' -> Forall (fun b => b = true) (sc_malo c) -> ~ overdue c ->
  Forall (fun b => b = true) (sc_malo c') /\ ~ overdue c'.
Proof using.
  intros (_ & ([l E] & Hev & _) & _) Hm Hd. split; [rewrite E in Hm; by apply Forall_app in Hm as [_ ?]|].
  intros (p & pk & Hp & Hpl & Ht). apply Hd. destruct (Hev p pk Hp Hpl) as (pk0 & Hp0 & Hpl0 & Et). exists p, pk0. split; [done|]. split; [done|].
  by rewrite (trait_times _ _ Et).
Qed.

Lemma wp_total {A} c (r : res A) Q : wp c r Q -> Forall (fun b => b = true) (sc_malo c) -> ~ overdue c -> exists a, r = Ok a /\ Q a.
Proof using.
  intros H Hm Hd. destruct r as [a|[]]; cbn in H; [by exists a|done| |done]. rewrite Forall_forall in Hm. by specialize (Hm false H).
Qed.

Lemma later_future now t al al' j x : now <= t -> 0 <= t < 2 ^ 63 -> later t al al' -> 0 <= j -> alarm al' j = Some x -> alarm al j = Some x \/ now <= x.
Proof using.
  intros Hn Ht [_ H] Hj Hx. destruct (H j x Hj Hx) as [|(d & Hd & ->)]; [by left|right]. unfold MAX_RTO_DELAY in Hd. rewrite wrapu_id by (unfold is_u; lia). lia.
Qed.

(** Callbacks of the send controller arm no alarm that is armed. *)
Lemma set_leaves al i t al' j : lsquic_alarmset_set al i t = Some al' -> 0 <= i -> 0 <= j -> j <> i -> alarm al' j = alarm al j.
Proof using.
  unfold lsquic_alarmset_set. destruct (aset (as_expiry al) i t) as [ex|] eqn:E; [|done]. intros [= <-] Hi Hj Hne. apply aset_Some in E as [_ ->].
  unfold alarm. cbn [as_armed_set as_expiry]. rewrite lor_albit, aget_insert_ne by done. replace (j =? i) with false by lia. by rewrite orb_false_r.
Qed.

Lemma need_ok {A} f (o : option A) a : need f o = Ok a -> o = Some a.
Proof using. destruct o; [by intros [= ->]|done]. Qed.

Lemma set_retx_leaves e c al tm pns now al' tm' j x : set_retx_alarm e c al tm pns now = Ok (al', tm') -> AL_RETX_INIT + Z.of_nat pns < j ->
  alarm al j = Some x -> alarm al' j = Some x.
Proof using.
  unfold set_retx_alarm. intros E Hj Hx. apply bind_ok in E as ([] & _ & E). apply bind_ok in E as ([d tm1] & _ & E).
  apply bind_ok in E as (al1 & E1%need_ok & E). unfold AL_RETX_INIT in *.
  assert (H1 : alarm al1 j = Some x) by (by rewrite (set_leaves _ _ _ _ _ E1) by lia).
  apply bind_ok in E as (b & _ & E). destruct (_ && _) eqn:Ec; [|by injection E as <- _].
  apply bind_ok in E as (al2 & E2%need_ok & E). injection E as <- _. rewrite (set_leaves _ _ _ _ _ E2); [done|unfold AL_PACK_TOL; lia|lia|].
  intros ->. apply andb_true_iff in Ec as [_ Ec]. unfold lsquic_alarmset_is_set in Ec. rewrite has_albit in Ec by (unfold AL_PACK_TOL; lia).
  unfold alarm in H1. by destruct (Z.testbit _ _).
Qed.

Lemma arm_leaves al id t al' j : arm al id t = Ok al' -> 0 <= id < j -> alarm al' j = alarm al j.
Proof using. unfold arm. destruct (negb _); [|by intros [= ->]]. intros E%need_ok Hj. apply (set_leaves _ _ _ _ _ E); lia. Qed.

Lemma ctl_leaves_later e now : leaves_later (ctl_ring e) now.
Proof using.
  intros id x al [c tm] al' s' j y. unfold ctl_ring. destruct (ctl_callback _ _ _ _ _ _) as [[al1 s1]|f] eqn:E; [|done]. intros [= <- <-] Hj Hy.
  unfold ctl_callback in E. destruct (_ && _) eqn:Ea.
  - apply bind_ok in E as ([[c1 al2] tm1] & E & E'). injection E' as <- _. unfold retx_alarm_rings in E. apply bind_ok in E as ([] & _ & E).
    apply bind_ok in E as ([c2 tm2] & _ & E). destruct (send_ctl_first_unacked_retx_packet _ _ _) as [p|]; [|by injection E as _ <- _].
    apply bind_ok in E as ([al3 tm3] & E & E'). injection E' as _ <- _. apply (set_retx_leaves _ _ _ _ _ _ _ _ j y E); [|done]. unfold AL_RETX_INIT in *. lia.
  - destruct (Z.eqb_spec id AL_ART_SCHE) as [->|_].
    + apply bind_ok in E as ([c1 al2] & E & E'). injection E' as <- _. unfold art_alarm_rings in E. apply bind_ok in E as (c2 & _ & E). apply bind_ok in E as (al3 & E & E').
      injection E' as _ <-. rewrite (arm_leaves _ _ _ _ j E); [done|unfold AL_ART_SCHE in *; lia].
    + destruct (Z.eqb_spec id AL_DEBUG_STATUS) as [->|_]; [|done]. apply bind_ok in E as (al2 & E & E'). injection E' as <- _.
      rewrite (arm_leaves _ _ _ _ j E); [done|unfold AL_DEBUG_STATUS in *; lia].
Qed.

(** The callbacks of other owners (lsquic_full_conn.c, lsquic_full_conn_ietf.c,
    lsquic_enc_sess_ietf.c) are a parameter.  What they promise: they return, take
    packets of the send controller away at most, keep the retransmission alarms of the
    spaces in which packets wait, disarm no alarm that comes after their own, and arm
    alarms for the future only. *)
Class OtherRings (other : Z -> Z -> Z -> alarmset * (send_ctl * timers) -> option (alarmset * (send_ctl * timers))) (now : Z) : Prop := {
  other_law : forall id x al c tm, ctl_owned id = false -> ok c -> alarms_ok al -> covered sc_retx_frames al c ->
    exists al' c' tm', other id x now (al, (c, tm)) = Some (al', (c', tm')) /\ kept c c' /\ alarms_ok al' /\
      as_alarms al' = as_alarms al /\ covered sc_retx_frames al' c' /\
      forall j y, 0 <= j -> alarm al' j = Some y -> alarm al j = Some y \/ now <= y;
  other_leaves : forall id x al s al' s' j y, other id x now (al, s) = Some (al', s') -> id < j -> alarm al j = Some y -> alarm al' j = Some y
}.

Section all_alarms.
Context (other : Z -> Z -> Z -> alarmset * (send_ctl * timers) -> option (alarmset * (send_ctl * timers))).

(** The callback of each alarm. *)
Definition conn_ring (e : retx_env) (al_id expiry now : Z) (st : alarmset * (send_ctl * timers)) : option (alarmset * (send_ctl * timers)) :=
  if ctl_owned al_id then ctl_ring e al_id expiry now st else other al_id expiry now st.

Lemma conn_leaves_later e now : OtherRings other now -> leaves_later (conn_ring e) now.
Proof using.
  intros HO id x al s al' s' j y. unfold conn_ring. destruct (ctl_owned id); [apply ctl_leaves_later|apply other_leaves].
Qed.
End all_alarms.

Context (retx_stream : Z.testbit sc_retx_frames 1 = true).

Lemma ring_other_ok e c al tm id now : ok c -> alarms_ok al -> covered sc_retx_frames al c -> id = AL_DEBUG_STATUS \/ id = AL_ART_SCHE ->
  wp c (texec e (TRing id now) (c, al, tm)) (fun st' => timed_ok sc_retx_frames st' /\ kept c st'.1.1 /\
    later (re_time e) (lsquic_alarmset_unset al id) st'.1.2 /\ is_Some (alarm st'.1.2 id)).
Proof using retx_stream.
  intros HO Hal Hc Hid. cbn [texec]. unfold ctl_callback.
  assert (0 <= id < 19 /\ ~ (AL_RETX_INIT <= id < AL_RETX_INIT + 3)) as [Hr Hn] by (unfold AL_DEBUG_STATUS, AL_ART_SCHE, AL_RETX_INIT in *; lia).
  replace ((AL_RETX_INIT <=? id) && _) with false by (unfold AL_RETX_INIT in *; lia).
  pose proof (unset_ok al id Hal ltac:(lia)) as Hu.
  assert (Hcu : forall c', covered sc_retx_frames al c' -> covered sc_retx_frames (lsquic_alarmset_unset al id) c').
  { intros c'. apply covered_other with (id := id); [done|]. intros j Hj Hne. rewrite unset_alarm by lia. by replace (j =? id) with false by lia. }
  assert (Harm : forall c' d, kept c c' -> 0 <= d <= MAX_RTO_DELAY -> exists al', arm (lsquic_alarmset_unset al id) id (re_time e + d) = Ok al' /\
    timed_ok sc_retx_frames (c', al', tm) /\ later (re_time e) (lsquic_alarmset_unset al id) al' /\ is_Some (alarm al' id)).
  { intros c' d K Hd. destruct (arm_ok (lsquic_alarmset_unset al id) id (re_time e + d) Hu Hr) as (al' & E & Hal' & Ein & Hoth & Hid').
    exists al'. split; [done|]. split; [split; cbn [fst snd]|split; [split|]]; try done.
    - by apply (kept_ok c).
    - apply (covered_other sc_retx_frames (lsquic_alarmset_unset al id) al' c' id); [done|done|]. apply Hcu. by apply (covered_kept _ al c); [apply HO|..].
    - intros j x Hj Hx. destruct (decide (j = id)) as [->|Hne]; [|left; by rewrite <- Hoth]. right. exists d. split; [done|].
      rewrite unset_alarm, Z.eqb_refl in Hid' by lia. cbn in Hid'. congruence. }
  apply wp_bind. destruct (Z.eqb_spec id AL_ART_SCHE) as [->|Hne].
  - unfold art_alarm_rings. apply wp_bind, wp_bind. eapply wp_mono.
    + apply art_schedule_ok; [done|apply HO].
    + intros c' [K _]. destruct (Harm c' 30 K ltac:(unfold MAX_RTO_DELAY; lia)) as (al' & -> & Ht & Hl). done.
  - destruct Hid as [->|?]; [|done]. rewrite Z.eqb_refl. destruct (Harm c 5000 (kept_refl c (proj1 HO)) ltac:(unfold MAX_RTO_DELAY; lia)) as (al' & -> & Ht & Hl).
    cbn [mbind res_bind wp fst snd]. split; [done|]. by split; [apply kept_refl, HO|].
Qed.

Lemma owned_cases id : ctl_owned id = true -> ctl_alarm id = true \/ id = AL_DEBUG_STATUS \/ id = AL_ART_SCHE.
Proof using. unfold ctl_owned. rewrite !orb_true_iff, !Z.eqb_eq. tauto. Qed.

(** The operation ends well; a failure is only possible for the shift of the handshake
    delay. *)
Lemma texec_ok e o st : timed_ok sc_retx_frames st -> tenabled e o st -> hwp (~ hsk_ok e st.2) st.1.1 (texec e o st) (timed_ok sc_retx_frames).
Proof using retx_stream.
  destruct st as [[c al] tm]. intros [HO Hal Hc] He. cbn [fst snd] in *. destruct o; cbn [tenabled] in He.
  - destruct He as [Hq He]. cbn [texec]. destruct (queue_step (World (re_srtt e) (re_min_rtt e) (re_env e)) o c HO Hq He) as (c' & -> & O' & Hc'). cbn. split; [done|done|by apply Hc'].
  - destruct He as [pk Hs]. cbn [texec]. apply hwp_bind. eapply hwp_mono; [by apply (sent_timed_ok sc_retx_frames e c al tm p pk)|].
    intros [[[c' al'] tm'] r] (_ & O' & Hal' & Hc'). done.
  - destruct He as [[Hr Hne] Hpn]. cbn [texec]. apply hwp_bind. eapply hwp_mono; [apply got_ack_timed_ok; try done; apply HO|].
    intros [[[c' al'] tm'] r] (K & A & B). split; [by apply (kept_ok c)|done|done].
  - destruct (ctl_alarm al_id) eqn:Ea.
    + destruct (ctl_alarm_space _ Ea) as (pns & Hpn & ->). eapply hwp_mono; [by apply ring_space_ok|]. by intros st' [? _].
    + apply wp_hwp. eapply wp_mono; [apply ring_other_ok; try done; destruct (owned_cases _ He) as [?|?]; [congruence|done]|by intros st' [? _]].
  - cbn [texec]. apply hwp_bind. eapply hwp_mono; [apply wp_hwp, expire_everything_ok; try done; apply HO|].
    intros [c' al'] (K & A & B & _). split; [by apply (kept_ok c)|done|done].
  - cbn [texec]. destruct (reschedule_step e c al p no HO Hal Hc He) as (c' & al' & -> & O' & Hal' & Hc'). done.
  - destruct He as [Hr Ha]. cbn [texec]. destruct (init_one_ok al al_id Hal Hr) as (al' & E & Hal'). rewrite E. cbn. split; [done|done|].
    unfold lsquic_alarmset_init_alarm in E. destruct (aset _ _ _); [|done]. by injection E as <-.
  - destruct He as [Hr Ha]. cbn [texec]. destruct (set_ok al al_id time Hal Hr) as (al' & -> & Hal' & _ & Hoth). cbn. split; [done|done|].
    apply (covered_other sc_retx_frames al al' c al_id); [unfold ctl_alarm, AL_RETX_INIT in *; lia| |done]. intros j Hj Hne. rewrite Hoth by done. by replace (j =? al_id) with false by lia.
  - destruct He as [Hr Ha]. cbn [texec hwp]. split; cbn [fst snd]; [done|apply unset_ok; [done|lia]|].
    apply (covered_other sc_retx_frames al _ c al_id); [unfold ctl_alarm, AL_RETX_INIT in *; lia| |done]. intros j Hj Hne. rewrite unset_alarm by lia. by replace (j =? al_id) with false by lia.
Qed.

Lemma treachable_ok flags last malo time st : treachable flags last malo time st -> timed_ok sc_retx_frames st.
Proof using retx_stream.
  induction 1 as [al E|e o st st' _ IH He E].
  - split; cbn [fst snd]; [apply init_ok| |].
    + by apply (init_ctl_alarms_ok time).
    + intros k Hk (p & Hp & _). exfalso. revert Hp. unfold unacked. cbn. destruct k as [|[|[|k]]]; cbn; apply not_elem_of_nil.
  - pose proof (texec_ok e o st IH He) as H. by rewrite E in H.
Qed.

(** A retransmission alarm, that of ART or the one that logs rings. *)
Lemma owned_ring e c al tm id now : re_hsk_done e = true -> 0 <= now <= re_time e -> re_time e < 2 ^ 63 ->
  ringing al (c, tm) -> ctl_owned id = true ->
  exists st', texec e (TRing id now) (c, al, tm) = Ok st' /\ timed_ok sc_retx_frames st' /\ kept c st'.1.1 /\
    exists t, now <= t /\ 0 <= t < 2 ^ 63 /\ later t (lsquic_alarmset_unset al id) st'.1.2.
Proof using retx_stream.
  intros Hdone Hnow Hmax [[HO Hal Hc] Hm Hd] Hid. cbn [fst snd] in *. destruct (ctl_alarm id) eqn:Ea.
  - destruct (ctl_alarm_space id Ea) as (pns & Hpn & ->).
    assert (Hw : ~ ~ hsk_ok e tm) by (intros H; apply H; by left).
    destruct (wp_total c _ _ (hwp_wp _ _ _ _ Hw (ring_space_ok e c al tm pns now HO Hal Hc Hpn)) Hm Hd) as (st' & E & Ht & K & L & _).
    exists st'. split; [done|]. split; [done|]. split; [done|]. exists now. split; [lia|]. split; [lia|done].
  - destruct (wp_total c _ _ (ring_other_ok e c al tm id now HO Hal Hc ltac:(destruct (owned_cases id Hid) as [?|?]; [congruence|done])) Hm Hd)
      as (st' & E & Ht & K & L & _).
    exists st'. split; [done|]. split; [done|]. split; [done|]. exists (re_time e). split; [lia|]. split; [lia|done].
Qed.

#[export] Instance conn_ring_laws other e now : re_hsk_done e = true -> 0 <= now <= re_time e -> re_time e < 2 ^ 63 -> OtherRings other now ->
  RingLaws (conn_ring other e) now ringing.
Proof using retx_stream.
  intros Hdone Hnow Hmax HOth. split. intros id x al [c tm] Hal HR Hin Hex. pose proof HR as [[HO Hal' Hc] Hm Hd]. cbn [fst snd] in *. unfold conn_ring.
  pose proof (aget_lt _ _ _ Hin) as Hrange. destruct (ctl_owned id) eqn:Eo.
  - destruct (owned_ring e c al tm id now Hdone Hnow Hmax HR Eo) as ([[c' al'] tm'] & E & Ht & K & t & Hnt & Htm & L).
    cbn [texec fst snd] in *. apply bind_ok in E as ([al1 [c1 tm1]] & E & E'). injection E' as -> -> ->.
    unfold ctl_ring, ctl_callback in *. rewrite E. exists al', (c', tm'). split; [done|]. split; [apply Ht|].
    assert (Ein : as_alarms al' = as_alarms al) by apply L. destruct (kept_ringing c c' K Hm Hd) as [Hm' Hd'].
    split; [by split|split; [done|]]. intros j y Hj Hy. by apply (later_future now t (lsquic_alarmset_unset al id) al').
  - assert (Hn : ~ (AL_RETX_INIT <= id < AL_RETX_INIT + 3)) by (unfold ctl_owned, ctl_alarm, AL_RETX_INIT in *; lia).
    destruct (other_law id x (lsquic_alarmset_unset al id) c tm) as (al' & c' & tm' & -> & K & A & Ein & Hc' & Hf); try done.
    { apply unset_ok; [done|lia]. }
    { apply (covered_other sc_retx_frames al _ c id); [done| |done]. intros j Hj Hne. rewrite unset_alarm by lia. by replace (j =? id) with false by lia. }
    exists al', (c', tm'). destruct (kept_ringing c c' K Hm Hd) as [Hm' Hd'].
    split; [done|]. split; [done|]. split; [split; try done; split; cbn [fst snd]; [by apply (kept_ok c)|done|done]|]. by split.
Qed.

End runs.
