(* ===== verification/RetxClaims.v ===== *)
(** What the retransmission timers guarantee: no packet that waits is without an alarm,
    the alarms ring once and when they are due, and for how long they are armed.  The
    faults of the source are among the outcomes of the theorems. *)
From Stdlib Require Import Sorted.
From stdpp Require Import gmap.
From S2P Require Import Prelude Ranges Art SendCtl SendCtlSpec SendCtlLoss SendCtlAck SendCtlThms SendCtlRun Alarms Retx RetxThms RetxRun.
Local Open Scope Z_scope.

(** ** How long an alarm is armed *)






(** ** Runs *)

Section runs.
Context (sc_retx_frames : Z) (retx_stream : Z.testbit sc_retx_frames 1 = true).
Context (flags last : Z) (malo : list bool) (time : Z) (c : send_ctl) (al : alarmset) (tm : timers).
Context (R : treachable sc_retx_frames flags last malo time (c, al, tm)).

(** C10: No packet is forgotten.  In every state that the send controller reaches, by
    sending, acknowledgements, alarms, expiry and resending in any order, with
    allocations failing anywhere and with any other alarms of the connection: the
    retransmission alarm of each space in which a retransmittable packet waits is
    armed, and the connection ticks no later; the next operation misuses no pointer,
    counter or alarm, but for the faults of the source: memory ran out, a packet was
    declared lost too often, or the handshake is not over and its delay was doubled 64
    times, so that the shift is undefined; and when the alarm of a space rings it is
    armed again just if packets still wait there, of which there are none after a
    retransmission timeout.  (The callers keep to [SendCtlRun.enabled]; that the
    connection ticks in time is for alarms before the largest time of 64 bits; dropping
    a lost packet, which always faults, is not among these operations.) *)
Theorem retx_timer_armed :
  (forall k p, (k < 3)%nat -> p ∈ unacked c k -> plain_retx sc_retx_frames c p = true ->
     exists t, alarm al (AL_RETX_INIT + Z.of_nat k) = Some t /\
       ((forall i x, alarm al i = Some x -> x < 2 ^ 64 - 1) -> exists t0 i, lsquic_alarmset_mintime al = Some (t0, Some i) /\ t0 <= t)) /\
  (forall e o, tenabled e o (c, al, tm) ->
     match texec sc_retx_frames e o (c, al, tm) with
     | Ok st' => timed_ok sc_retx_frames st'
     | Fault Bug => re_hsk_done e = false /\ 64 <= sc_n_hsk tm
     | Fault NoMemory => false ∈ sc_malo c
     | Fault Rounds => overdue c
     end) /\
  (forall e k now c' al' tm', (k < 3)%nat ->
     texec sc_retx_frames e (TRing (AL_RETX_INIT + Z.of_nat k) now) (c, al, tm) = Ok (c', al', tm') ->
     (is_Some (alarm al' (AL_RETX_INIT + Z.of_nat k)) <-> waits sc_retx_frames c' k) /\
     (get_retx_mode e c tm = RETX_MODE_RTO -> ~ waits sc_retx_frames c' k)).
Proof using R retx_stream.
  pose proof (treachable_ok _ retx_stream _ _ _ _ _ R) as HT. pose proof HT as [HO Hal Hc]. cbn [fst snd] in *. split; [|split].
  - intros k p Hk Hp Hr. destruct (Hc k Hk) as [t Ht]; [by exists p|]. exists t. split; [done|]. intros Hmax.
    pose proof (mintime_ok al Hal Hmax) as H. destruct (lsquic_alarmset_mintime al) as [[t0 [i|]]|]; [| |done].
    + exists t0, i. split; [done|]. destruct H as [_ H]. by apply (H _ _ Ht).
    + destruct H as [_ H]. by rewrite H in Ht.
  - intros e o He. pose proof (texec_ok _ retx_stream e o (c, al, tm) HT He) as H.
    destruct (texec _ e o (c, al, tm)) as [st'|[]]; cbn in H; try done. unfold hsk_ok in H.
    destruct (re_hsk_done e); [by destruct H; left|]. split; [done|]. destruct (Z.lt_ge_cases (sc_n_hsk tm) 64); [by destruct H; right|done].
  - intros e k now c' al' tm' Hk E. pose proof (ring_space_ok _ e c al tm k now HO Hal Hc Hk) as H. rewrite E in H.
    destruct H as (_ & _ & _ & H1 & H2). done.
Qed.

(** C11: A tick of the connection.  Ringing the alarms of a reachable send controller
    (after the handshake, while allocations succeed and no packet ran out of rounds),
    among those of the rest of the connection, whose callbacks ([OtherRings]) take
    packets from the controller at most, keep the alarms of waiting packets, disarm no
    later alarm and arm alarms for the future only, runs the callbacks of exactly the alarms that
    are overdue, in the order of their numbers and once each, although the callbacks
    arm alarms while the loop is under way; afterwards no alarm is overdue, and the
    alarm of every space in which a packet waits is armed for the future.  (Every
    alarm that is armed has a callback.) *)
Theorem timeouts_ring other e now :
  OtherRings sc_retx_frames other now ->
  re_hsk_done e = true -> 0 <= now <= re_time e -> re_time e < 2 ^ 63 -> Forall (fun b => b = true) (sc_malo c) -> ~ overdue c ->
  (forall i x, alarm al i = Some x -> inited al i) ->
  exists al' c' tm', lsquic_alarmset_ring_expired (conn_ring sc_retx_frames other e) now (al, (c, tm))
      = Some (List.filter (overdue_at al now) (seqZ 0 19), (al', (c', tm'))) /\
    ok c' /\ (forall i x, alarm al' i = Some x -> now <= x) /\
    forall k p, (k < 3)%nat -> p ∈ unacked c' k -> plain_retx sc_retx_frames c' p = true ->
      exists t, alarm al' (AL_RETX_INIT + Z.of_nat k) = Some t /\ now <= t.
Proof using R retx_stream.
  intros HOth Hdone Hnow Hmax Hm Hd Hin. pose proof (treachable_ok _ retx_stream _ _ _ _ _ R) as HT.
  pose proof (conn_ring_laws _ retx_stream other e now Hdone Hnow Hmax HOth) as HL.
  destruct (ring_expired_ok (conn_ring sc_retx_frames other e) now (ringing sc_retx_frames) al (c, tm)) as (rang & al' & [c' tm'] & E & Hok & HI & _ & _ & Hlate & Hex & _);
    [apply HT|by split|done|].
  exists al', c', tm'. rewrite (Hex (conn_leaves_later _ other e now HOth)) in E. split; [exact E|]. destruct HI as [[HO' _ Hc'] _ _]. split; [done|]. split; [done|].
  intros k p Hk Hp Hr. destruct (Hc' k Hk) as [t Ht]; [by exists p|]. exists t. split; [done|]. by apply (Hlate _ _ Ht).
Qed.

End runs.

(** ** Playing a script *)

Definition tenabledb (e : retx_env) (o : top) (st : tstate) : bool :=
  let '(c, al, tm) := st in
  match o with
  | Queue o => queue_op o && enabledb o c
  | TSent p => enabledb (Sent p) c
  | TGotAck pns ranges ce gap _ _ => enabledb (GotAck pns ranges ce gap) c && (Nat.ltb pns 3)
  | TRing al_id _ => ctl_owned al_id
  | TExpireAll => true
  | TReschedule p no => enabledb (Reschedule p no) c
  | TInit al_id | TArm al_id _ | TDisarm al_id => (0 <=? al_id) && (al_id <? 19) && negb (ctl_alarm al_id)
  end.

Lemma tenabledb_sound e o st : tenabledb e o st = true -> tenabled e o st.
Proof.
  destruct st as [[c al] tm]. destruct o; cbn [tenabledb tenabled]; rewrite ?andb_true_iff; try done.
  - intros [? ?%enabledb_sound]. done.
  - apply enabledb_sound.
  - intros [?%enabledb_sound ?%Nat.ltb_lt]. done.
  - apply enabledb_sound.
  - rewrite negb_true_iff. lia.
  - rewrite negb_true_iff. lia.
  - rewrite negb_true_iff. lia.
Qed.

Fixpoint tplay (sc_retx_frames : Z) (script : list (retx_env * top)) (st : tstate) : option tstate :=
  match script with
  | [] => Some st
  | (e, o) :: script =>
    if tenabledb e o st then
      match texec sc_retx_frames e o st with Ok st => tplay sc_retx_frames script st | Fault _ => None end
    else None
  end.

Lemma tplay_reachable retx flags last malo time script : forall st st',
  treachable retx flags last malo time st -> tplay retx script st = Some st' -> treachable retx flags last malo time st'.
Proof.
  induction script as [|[e o] script IH]; intros st st' R; cbn [tplay]; [by intros [= <-]|].
  destruct (tenabledb e o st) eqn:He; [|done]. destruct (texec retx e o st) as [st1|] eqn:E; [|done].
  apply IH. eapply treach_step; [done|by apply tenabledb_sound|done].
Qed.

(** ** Concrete runs *)

(** Checks of the hypotheses of [timeouts_ring] by computation. *)
Lemma not_overdue c :
  forallb (fun '(_, pk) => u16 (po_retrans_times (pk_art pk) + 1) <? 20) (map_to_list (sc_mem c)) = true -> ~ overdue c.
Proof.
  rewrite forallb_forall. intros H (p & pk & Hp & _ & Ht). apply elem_of_map_to_list in Hp. apply list_elem_of_In in Hp. specialize (H _ Hp). cbn in H. lia.
Qed.

Lemma alarm_table al : alarms_ok al ->
  forallb (fun i => match alarm al i, aget (as_alarms al) i with Some _, Some b => b | _, _ => true end) (seqZ 0 19) = true ->
  forall i x, alarm al i = Some x -> inited al i.
Proof.
  intros Hok. rewrite forallb_forall. intros H. destruct (al_lengths _ Hok) as [_ Hl].
  assert (H' : forall i, 0 <= i < 19 -> _) by (intros i Hi; apply (H i); apply list_elem_of_In, elem_of_seqZ; lia).
  cbn beta in H'. intros i x Hx. pose proof (alarm_range al i x Hok Hx) as Hr. specialize (H' i Hr). rewrite Hx in H'. unfold inited.
  destruct (aget_is_Some (as_alarms al) i ltac:(lia)) as [b Hb]. rewrite Hb in *. by destruct b.
Qed.

Module Timed.

Definition data_packet (no : Z) : packet :=
  PK (AP no 0 0 0 0 0 0 0 0 0 false) false false false false false false false false PNS_APP (1000 * no) 0 30 1000 0 FT_STREAM 0 0 false.
(** A handshake packet. *)
Definition hello_packet (no : Z) : packet :=
  PK (AP no 0 0 0 0 0 0 0 0 0 false) false false false false false true false false PNS_APP (1000 * no) 0 30 1000 0 FT_STREAM 0 0 false.

Definition clock (hsk_done : bool) (time : Z) : retx_env := RE hsk_done 50000 10000 20000 25000 false (fun _ => (time, 7)) time.
Definition start : tstate := (lsquic_send_ctl_init 0 (2 ^ 64 - 1) [], default lsquic_alarmset_init (init_alarms lsquic_alarmset_init 0), timers_init).

(** Two packets are sent; the alarm rings twice as a probe, then as a timeout. *)
Definition sends : list (retx_env * top) :=
  [(clock true 1000, Queue (New (data_packet 1))); (clock true 1000, TSent 0);
   (clock true 2000, Queue (New (data_packet 2))); (clock true 2000, TSent 1)].
(** The idle and the ping alarm of the connection, AL_IDLE and AL_PING, are armed too. *)
Definition sends_with_others : list (retx_env * top) :=
  [(clock true 0, TInit 4); (clock true 0, TInit 6); (clock true 0, TArm 4 150000); (clock true 0, TArm 6 30000000)] ++ sends.
Definition resend (time no : Z) : list (retx_env * top) :=
  [(clock true time, TRing 3 time); (clock true time, TReschedule 1 no); (clock true time, Queue (Unschedule 1)); (clock true time, TSent 1)].
Definition probes : list (retx_env * top) := sends ++ resend 200000 3 ++ resend 400000 4.

Definition after (script : list (retx_env * top)) : tstate := default start (tplay 2 script start).

Lemma timed_reachable script : is_Some (tplay 2 script start) -> treachable 2 0 (2 ^ 64 - 1) [] 0 (after script).
Proof.
  intros [c E]. unfold after. rewrite E. eapply tplay_reachable; [|done]. unfold start. apply treach_init. reflexivity.
Qed.

End Timed.

Local Ltac played := apply Timed.timed_reachable; eexists; vm_compute; reflexivity.

(** The state after a script. *)
Lemma after_split script : exists c al tm, Timed.after script = (c, al, tm).
Proof. by destruct (Timed.after script) as [[c al] tm]; exists c, al, tm. Qed.

(** After two probes packets 1 and 4 wait, until 600 ms; when the alarm rings again
    neither does. *)
Lemma retx_timer_armed_witness :
  exists t, alarm (Timed.after Timed.probes).1.2 3 = Some t /\ t = 600000 /\
  exists c' al' tm', texec 2 (Timed.clock true 700000) (TRing 3 700000) (Timed.after Timed.probes) = Ok (c', al', tm') /\
    ~ waits 2 c' PNS_APP /\ sc_lost_packets (sc_q c') = [0; 1].
Proof.
  assert (R : treachable 2 0 (2 ^ 64 - 1) [] 0 (Timed.after Timed.probes)) by played.
  assert (Hu : head (unacked (Timed.after Timed.probes).1.1 2) = Some 0) by (vm_compute; reflexivity).
  assert (Hr : plain_retx 2 (Timed.after Timed.probes).1.1 0 = true) by (vm_compute; reflexivity).
  assert (Ha : alarm (Timed.after Timed.probes).1.2 3 = Some 600000) by (vm_compute; reflexivity).
  assert (Hm : get_retx_mode (Timed.clock true 700000) (Timed.after Timed.probes).1.1 (Timed.after Timed.probes).2 = RETX_MODE_RTO) by (vm_compute; reflexivity).
  assert (X : (st ← texec 2 (Timed.clock true 700000) (TRing 3 700000) (Timed.after Timed.probes); Ok (sc_lost_packets (sc_q st.1.1))) = Ok [0; 1])
    by (vm_compute; reflexivity).
  destruct (Timed.after Timed.probes) as [[c al] tm]. cbn [fst snd] in *.
  destruct (retx_timer_armed 2 eq_refl 0 (2 ^ 64 - 1) [] 0 c al tm R) as (H1 & _ & H3).
  destruct (H1 2%nat 0 ltac:(lia)) as (t & Ht & _); [by apply head_Some_elem_of|done|]. exists t. split; [exact Ht|].
  split; [change (AL_RETX_INIT + Z.of_nat 2) with 3 in Ht; congruence|].
  apply bind_ok in X as ([[c' al'] tm'] & E & X). exists c', al', tm'. split; [exact E|].
  destruct (H3 (Timed.clock true 700000) 2%nat 700000 c' al' tm' ltac:(lia) E) as [_ H]. split; [by apply H|by injection X].
Defined.

(** A callback that only sets a flag of the connection, as [ping_alarm_expired] does. *)
Definition flag_only (al_id expiry now : Z) (st : alarmset * (send_ctl * timers)) : option (alarmset * (send_ctl * timers)) := Some st.

Lemma flag_only_rings retx now : OtherRings retx flag_only now.
Proof.
  split.
  - intros id x al c tm _ [HO Hs] Hal Hc. exists al, c, tm. split; [done|]. split; [by apply kept_refl|]. split; [done|]. split; [done|]. split; [done|]. by left.
  - intros id x al s al' s' j y [= <- _]. done.
Qed.

(** A tick 200 ms after the start: the probe, the ping alarm and the one that logs are due. *)
Lemma timeouts_ring_witness :
  let st := Timed.after Timed.sends_with_others in
  exists al' c' tm', lsquic_alarmset_ring_expired (conn_ring 2 flag_only (Timed.clock true 200000)) 200000 (st.1.2, (st.1.1, st.2))
      = Some ([3; 4; 18], (al', (c', tm'))) /\
    ok c' /\ (forall i x, alarm al' i = Some x -> 200000 <= x).
Proof.
  intros st. assert (R : treachable 2 0 (2 ^ 64 - 1) [] 0 st) by played.
  assert (Hm : forallb id (sc_malo st.1.1) = true) by (vm_compute; reflexivity).
  assert (Hd : ~ overdue st.1.1) by (apply not_overdue; vm_compute; reflexivity).
  pose proof (to_alarms _ _ (treachable_ok 2 eq_refl _ _ _ _ _ R)) as Hok.
  assert (Hin : forall i x, alarm st.1.2 i = Some x -> inited st.1.2 i) by (apply alarm_table; [exact Hok|vm_compute; reflexivity]).
  assert (Hf : List.filter (overdue_at st.1.2 200000) (seqZ 0 19) = [3; 4; 18]) by (vm_compute; reflexivity).
  clearbody st. destruct st as [[c al] tm]. cbn [fst snd] in *.
  destruct (timeouts_ring 2 eq_refl 0 (2 ^ 64 - 1) [] 0 c al tm R flag_only (Timed.clock true 200000) 200000) as (al' & c' & tm' & E & HO & Hl & _); try done.
  - apply flag_only_rings.
  - apply Forall_forall. intros b Hb. rewrite forallb_forall in Hm. specialize (Hm b). by apply Hm, list_elem_of_In.
  - rewrite Hf in E. by exists al', c', tm'.
Defined.


(** ** Findings *)

(** A finding.  [delay <<= sc_n_hsk] has no bound: every ACK frame that yields no RTT
    sample, here acknowledgements of packet 1 that are received again while packet 2
    of the handshake waits, doubles the delay.  The shift of the 61st leaves
    nothing, so that the alarm is due at once, and that of the 64th is by the width
    of the type, which C leaves undefined. *)
Definition hello_acks (n : nat) : list (retx_env * top) :=
  [(Timed.clock false 1000, Queue (New (Timed.hello_packet 1))); (Timed.clock false 1000, TSent 0);
   (Timed.clock false 2000, Queue (New (Timed.hello_packet 2))); (Timed.clock false 2000, TSent 1)]
  ++ (Timed.clock false 3000, TGotAck PNS_APP [(1, 1)] false 100 true 3000) :: replicate n (Timed.clock false 3000, TGotAck PNS_APP [(1, 1)] false 100 false 3000).

Lemma handshake_delay_wraps :
  alarm (Timed.after (hello_acks 60)).1.2 3 = Some 60003000 /\ alarm (Timed.after (hello_acks 61)).1.2 3 = Some 3000.
Proof. split; vm_compute; reflexivity. Qed.

Lemma handshake_delay_undefined : texec 2 (Timed.clock false 3000) (TGotAck PNS_APP [(1, 1)] false 100 false 3000) (Timed.after (hello_acks 63)) = Fault Bug.
Proof. vm_compute. reflexivity. Qed.

(** A finding.  Once armed, the alarm of ART never stops: its callback arms it again
    whether or not duplicates are left to send. *)
Lemma art_alarm_rearms sc_retx_frames e c al c' al' :
  alarms_ok al -> alarm al AL_ART_SCHE = None -> art_alarm_rings sc_retx_frames e c al = Ok (c', al') -> alarm al' AL_ART_SCHE = Some (u64 (re_time e + 30)).
Proof.
  intros Hal Hoff E. unfold art_alarm_rings in E. apply bind_ok in E as (c1 & _ & E). apply bind_ok in E as (al1 & E & E').
  injection E' as _ <-. destruct (arm_ok al AL_ART_SCHE (re_time e + 30) Hal ltac:(unfold AL_ART_SCHE; lia)) as (al2 & E2 & _ & _ & _ & H).
  rewrite Hoff in H. cbn in H. congruence.
Qed.
