(* ===== verification/Binary.v ===== *)
(** C floats and doubles: IEEE 754 values, by the functions of the Standard Library's
    SpecFloat (24 or 53 bits of precision, emax 128 or 1024, rounding to nearest even),
    conversions between them and 64-bit integers, and bounds on the magnitude of
    products. *)
From Stdlib Require Import SpecFloat.
From S2P Require Import Prelude.
Local Open Scope Z_scope.

Definition float := spec_float.
(** Conversion of an integer. *)
Definition flt (z : Z) : float := binary_normalize 24 128 z 0 false.
Definition fmul (a b : float) : float := SFmul 24 128 a b.
Definition fdiv (a b : float) : float := SFdiv 24 128 a b.
Definition dmul (a b : spec_float) : spec_float := SFmul 53 1024 a b.
(** A constant that is a quotient of small integers. *)
Definition fconst (n d : Z) : float := fdiv (flt n) (flt d).

(** The integer part of [m * 2^e]. *)
Definition ipart (m e : Z) : Z := if 0 <=? e then m * 2 ^ e else m / 2 ^ (- e).

(** Conversion to [uint64_t]: the integer part; [None] is undefined behaviour. *)
Definition u64_of_float (f : float) : option Z :=
  match f with
  | S754_zero _ => Some 0
  | S754_finite s m e =>
    let v := ipart (Zpos m) e in
    if if s then v =? 0 else v <? 2 ^ 64 then Some v else None
  | _ => None
  end.

(** ** Magnitude *)

(** [f] is not negative, a multiple of [2^l] and at most [2^k]. *)
Definition at_most (f : float) (l k : Z) : Prop :=
  (exists s, f = S754_zero s) \/
  exists m e, f = S754_finite false m e /\ l <= e <= k /\ Zpos m <= 2 ^ (k - e).

Lemma at_most_low f l l' k : l' <= l -> at_most f l k -> at_most f l' k.
Proof. intros H [?|(m & e & E & He & Hm)]; [by left|]. right. exists m, e. split; [done|]. split; [lia|done]. Qed.

Lemma shr_1_half r : 0 <= shr_m r -> shr_m (shr_1 r) = shr_m r / 2.
Proof.
  intros H. destruct r as [m ro st]. cbn in *. destruct m as [|[p|p|]|p]; try done; cbn.
  - rewrite Pos2Z.inj_xI. rewrite Z.mul_comm, Z.div_add_l by lia. done || (cbn; lia).
  - rewrite Pos2Z.inj_xO, Z.mul_comm, Z.div_mul by lia. done.
Qed.

Lemma shr_iter p : forall r, 0 <= shr_m r -> shr_m (SpecFloat.iter_pos shr_1 p r) = shr_m r / 2 ^ Zpos p.
Proof.
  assert (Hs : forall r, 0 <= shr_m r -> 0 <= shr_m (shr_1 r)).
  { intros r Hr. rewrite shr_1_half by done. apply Z.div_pos; lia. }
  induction p as [p IH|p IH|]; intros r Hr; cbn [SpecFloat.iter_pos].
  - assert (H1 : 0 <= shr_m (shr_1 r)) by (by apply Hs). assert (H2 : 0 <= shr_m (SpecFloat.iter_pos shr_1 p (shr_1 r))) by (rewrite IH by done; apply Z.div_pos; lia).
    rewrite IH, IH, shr_1_half, !Z.div_div by lia. f_equal. rewrite Pos2Z.inj_xI. rewrite <- !Z.pow_add_r by lia.
    rewrite <- (Z.pow_1_r 2) at 1. rewrite <- !Z.pow_add_r by lia. f_equal. lia.
  - assert (H2 : 0 <= shr_m (SpecFloat.iter_pos shr_1 p r)) by (rewrite IH by done; apply Z.div_pos; lia).
    rewrite IH, IH, Z.div_div by lia. f_equal. rewrite Pos2Z.inj_xO, <- Z.pow_add_r by lia. f_equal. lia.
  - rewrite shr_1_half by done. done.
Qed.

Lemma digits_pos p : Zpos p < 2 ^ Zpos (digits2_pos p) <= 2 * Zpos p.
Proof.
  induction p as [p IH|p IH|]; cbn [digits2_pos]; [| |done].
  - rewrite Pos2Z.inj_succ, Z.pow_succ_r by lia. lia.
  - rewrite Pos2Z.inj_succ, Z.pow_succ_r by lia. lia.
Qed.

Lemma pow2_lt_cancel a b : 0 <= b -> 2 ^ a < 2 ^ b -> a < b.
Proof. intros Hb H. destruct (Z.lt_ge_cases a b); [done|]. pose proof (Z.pow_le_mono_r 2 b a). lia. Qed.

Section rounding.
Context (prec emax : Z) (Hprec : 24 <= prec <= 53) (Hemax : 128 <= emax /\ 100 <= emax - prec).

(** One step of rounding: the value is cut, not increased. *)
Lemma shr_fexp_mag m e k : 0 <= m -> -140 <= e <= k -> m <= 2 ^ (k - e) -> k <= 127 ->
  let '(r, e') := shr_fexp prec emax m e loc_Exact in
  0 <= shr_m r /\ e <= e' /\ e' <= Z.max e (k - prec + 1) /\ (shr_m r <> 0 -> e' <= k) /\ (e' <= k -> shr_m r <= 2 ^ (k - e')) /\ (m < 2 ^ (k - e) -> e' <= k -> shr_m r < 2 ^ (k - e')).
Proof using Hprec Hemax.
  intros Hm He Hk Hk'. unfold shr_fexp, fexp, emin. set (D := Zdigits2 m + e).
  assert (HD : D <= k + 1 /\ (m < 2 ^ (k - e) -> D <= k)).
  { unfold D, Zdigits2. destruct m as [|p|p]; [lia| |lia]. pose proof (digits_pos p) as Hd. split; [|intros Hlt].
    - enough (Zpos (digits2_pos p) < k - e + 2) by lia. apply pow2_lt_cancel; [lia|]. replace (k - e + 2) with (Z.succ (Z.succ (k - e))) by lia. rewrite !Z.pow_succ_r by lia. lia.
    - enough (Zpos (digits2_pos p) < k - e + 1) by lia. apply pow2_lt_cancel; [lia|]. replace (k - e + 1) with (Z.succ (k - e)) by lia. rewrite Z.pow_succ_r by lia. lia. }
  set (n := Z.max (D - prec) (3 - emax - prec) - e). unfold shr_record_of_loc, shr.
  destruct n as [|p|p] eqn:En; cbn [shr_m]; try (split_and!; try done; lia).
  rewrite shr_iter by done. cbn [shr_m]. assert (Hn : Zpos p <= Z.max 0 (k - prec + 1 - e)) by lia.
  assert (H2 : e + Zpos p <= k -> m = m / 2 ^ Zpos p * 2 ^ Zpos p + m mod 2 ^ Zpos p) by (intros _; rewrite Z.mul_comm; apply Z.div_mod; lia).
  split; [apply Z.div_pos; lia|]. split; [lia|]. split; [lia|]. split; [lia|].
  assert (Hsplit : e + Zpos p <= k -> 2 ^ (k - e) = 2 ^ (k - (e + Zpos p)) * 2 ^ Zpos p) by (intros Hle; rewrite <- Z.pow_add_r by lia; f_equal; lia).
  split.
  - intros Hle. apply Z.div_le_upper_bound; [lia|]. rewrite Z.mul_comm, <- Hsplit by done. done.
  - intros Hlt Hle. apply Z.div_lt_upper_bound; [lia|]. rewrite Z.mul_comm, <- Hsplit by done. done.
Qed.

Lemma round_even_cases m l : SpecFloat.round_nearest_even m l = m \/ SpecFloat.round_nearest_even m l = m + 1.
Proof using. destruct l as [|[]]; cbn; auto. destruct (Z.even m); auto. Qed.

(** Rounding to nearest does not pass a power of two. *)
Lemma round_aux_mag p e k : -140 <= e <= k -> e <= 100 -> Zpos p < 2 ^ (k - e) -> k <= 126 -> at_most (binary_round_aux prec emax false (Zpos p) e loc_Exact) e k.
Proof using Hprec Hemax.
  intros He He' Hp Hk. unfold binary_round_aux. pose proof (shr_fexp_mag (Zpos p) e k ltac:(lia) He ltac:(lia) ltac:(lia)) as H1.
  destruct (shr_fexp prec emax (Zpos p) e loc_Exact) as [r1 e1]. destruct H1 as (A1 & B1 & C1 & D1 & E1 & F1).
  set (m1 := SpecFloat.round_nearest_even (shr_m r1) (loc_of_shr_record r1)).
  assert (He1 : e1 <= k) by lia. pose proof (F1 Hp He1) as Hlt.
  assert (Hm1 : 0 <= m1 <= 2 ^ (k - e1)) by (unfold m1; destruct (round_even_cases (shr_m r1) (loc_of_shr_record r1)) as [->| ->]; lia).
  pose proof (shr_fexp_mag m1 e1 k (proj1 Hm1) ltac:(lia) (proj2 Hm1) ltac:(lia)) as H2.
  destruct (shr_fexp prec emax m1 e1 loc_Exact) as [r2 e2]. destruct H2 as (A2 & B2 & C2 & D2 & E2 & _).
  destruct (shr_m r2) as [|q|q] eqn:Eq; [by left; eexists| |lia].
  assert (He2 : e2 <= k) by (by apply D2). replace (e2 <=? emax - prec) with true by lia.
  right. exists q, e2. split; [done|]. split; [lia|]. by apply E2.
Qed.

Lemma double_iter p d : Zpos (Pos.iter xO p d) = Zpos p * 2 ^ Zpos d.
Proof using.
  induction d as [|d IH] using Pos.peano_ind; [cbn; lia|]. rewrite Pos.iter_succ, Pos2Z.inj_xO, IH, Pos2Z.inj_succ, Z.pow_succ_r by lia. lia.
Qed.

Lemma normalize_mag z k : 0 <= z < 2 ^ k -> 0 <= k <= 100 -> at_most (binary_normalize prec emax z 0 false) (- prec) k.
Proof using Hprec Hemax.
  intros Hz Hk. unfold binary_normalize. destruct z as [|p|p]; [by left; eexists| |lia]. unfold binary_round, shl_align, fexp, emin.
  pose proof (digits_pos p) as Hd. set (D := Zpos (digits2_pos p)) in *.
  assert (HD : D < k + 1) by (apply pow2_lt_cancel; [lia|]; replace (k + 1) with (Z.succ k) by lia; rewrite Z.pow_succ_r by lia; lia).
  assert (HD0 : 0 < D) by (unfold D; lia).
  destruct (Z.max (D + 0 - prec) (3 - emax - prec) - 0) as [|d|d] eqn:Ed; try (apply (at_most_low _ 0); [lia|apply round_aux_mag; [lia|lia|rewrite Z.sub_0_r; lia|lia]]).
  eapply at_most_low; [|apply round_aux_mag]; [lia|lia|lia| |lia].  rewrite double_iter.
  replace (k - _) with (k + Zpos d) by lia. rewrite Z.pow_add_r by lia. apply Z.mul_lt_mono_pos_r; lia.
Qed.

Lemma mul_mag a b l i l' j : at_most a l i -> at_most b l' j -> -140 <= l + l' -> i + j <= 100 -> at_most (SFmul prec emax a b) (l + l') (i + j + 1).
Proof using Hprec Hemax.
  intros Ha Hb Hl Hk. destruct Ha as [[s ->]|(m & e & -> & He & Hm)].
  { destruct Hb as [[s' ->]|(m & e & -> & _)]; cbn; left; by eexists. }
  destruct Hb as [[s' ->]|(m' & e' & -> & He' & Hm')]; [cbn; left; by eexists|].
  change (at_most (binary_round_aux prec emax false (Zpos m * Zpos m') (e + e') loc_Exact) (l + l') (i + j + 1)). rewrite <- Pos2Z.inj_mul.
  apply (at_most_low _ (e + e')); [lia|]. apply round_aux_mag; [lia|lia| |lia].
  replace (i + j + 1 - (e + e')) with (Z.succ ((i - e) + (j - e'))) by lia. rewrite Z.pow_succ_r, Z.pow_add_r by lia. rewrite Pos2Z.inj_mul.
  pose proof (Z.mul_le_mono_nonneg (Zpos m) (2 ^ (i - e)) (Zpos m') (2 ^ (j - e'))). pose proof (Z.pow_pos_nonneg 2 (i - e)). pose proof (Z.pow_pos_nonneg 2 (j - e')). nia.
Qed.

End rounding.

Lemma at_most_u64 f l k : at_most f l k -> k <= 63 -> exists v, u64_of_float f = Some v /\ 0 <= v < 2 ^ 64.
Proof.
  intros [[s ->]|(m & e & -> & He & Hm)] Hk; [by exists 0|]. cbn. assert (Hv : 0 <= ipart (Zpos m) e < 2 ^ 64).
  { unfold ipart. destruct (Z.leb_spec 0 e).
    - split; [lia|]. apply (Z.le_lt_trans _ (2 ^ (k - e) * 2 ^ e)); [apply Z.mul_le_mono_nonneg_r; lia|]. rewrite <- Z.pow_add_r by lia. apply Z.pow_lt_mono_r; lia.
    - split; [apply Z.div_pos; lia|]. apply Z.div_lt_upper_bound; [lia|]. apply (Z.le_lt_trans _ (2 ^ (k - e))); [done|]. rewrite <- Z.pow_add_r by lia. apply Z.pow_lt_mono_r; lia. }
  exists (ipart (Zpos m) e). replace (_ <? _) with true by lia. done.
Qed.

Lemma flt_mag z k : 0 <= z < 2 ^ k -> 0 <= k <= 100 -> at_most (flt z) (-24) k.
Proof. intros Hz Hk. apply (normalize_mag 24 128); lia. Qed.

Lemma fmul_mag a b l i l' j : at_most a l i -> at_most b l' j -> -140 <= l + l' -> i + j <= 100 -> at_most (fmul a b) (l + l') (i + j + 1).
Proof. intros Ha Hb Hl Hk. apply (mul_mag 24 128); lia || done. Qed.
