(* ===== verification/BwSampler.v ===== *)
(** The bandwidth sampler of BBR (lsquic_bw_sampler.c): counts bytes that are sent,
    acknowledged and lost, and makes a sample of the bandwidth from the counts at the
    time a packet was sent and those at the time it is acknowledged. *)
From S2P Require Import Prelude.
From coqutil Require Import Datatypes.RecordSettersUsingExistingGetters.
Local Open Scope Z_scope.

(** [struct bandwidth]: bits per second. *)
Definition BW_INFINITE : Z := UINT64_MAX.
Definition BW_FROM_BYTES_AND_DELTA (bytes usecs : Z) : Z := u64 (u64 (bytes * 8) * 1000000) / usecs.
Definition BW_TO_BYTES_PER_SEC (bw : Z) : Z := bw / 8.

Definition BWS_CONN_ABORTED : Z := Z.shiftl 1 0.
Definition BWS_WARNED : Z := Z.shiftl 1 1.
Definition BWS_APP_LIMITED : Z := Z.shiftl 1 2.

Record bw_sampler := BWS {
  bws_total_sent : Z;
  bws_total_acked : Z;
  bws_total_lost : Z;
  bws_last_acked_total_sent : Z;
  bws_last_acked_sent_time : Z;
  bws_last_acked_packet_time : Z;
  bws_last_sent_packno : Z;
  bws_end_of_app_limited_phase : Z;
  bws_retx_frames : Z;
  bws_flags : Z
}.

Record bw_sample := SAMPLE { sa_bandwidth : Z; sa_rtt : Z; sa_is_app_limited : bool }.

Record bwps_send_state := SS {
  total_bytes_sent : Z;
  total_bytes_acked : Z;
  total_bytes_lost : Z;
  is_app_limited : bool
}.

Record bwp_state := BWP {
  bwps_send : bwps_send_state;
  bwps_sent_at_last_ack : Z;
  bwps_last_ack_sent_time : Z;
  bwps_last_ack_ack_time : Z;
  bwps_packet_size : Z
}.

(** What the sampler uses of a packet; the size is that of
    [lsquic_packet_out_sent_sz], an [unsigned short] here. *)
Record bw_packet := BP {
  bp_packno : Z;
  bp_sent : Z;
  bp_frame_types : Z;
  bp_sent_sz : Z;
  bp_mini : bool;
  po_bwp_state : option bwp_state
}.

Definition bws_zero : bw_sampler := BWS 0 0 0 0 0 0 0 0 0 0.

(** [malo_ok]: the result of [lsquic_malo_create]. *)
Definition lsquic_bw_sampler_init (malo_ok : bool) (retx_frames : Z) : Z * bw_sampler :=
  if malo_ok then (0, bws_zero <| bws_retx_frames := retx_frames |> <| bws_flags := BWS_APP_LIMITED |>)
  else (-1, bws_zero).

Definition lsquic_bw_sampler_app_limited (s : bw_sampler) : bw_sampler :=
  s <| bws_flags := Z.lor (bws_flags s) BWS_APP_LIMITED |>
    <| bws_end_of_app_limited_phase := bws_last_sent_packno s |>.

(** The connection is told once. *)
Definition bw_sampler_abort_conn (s : bw_sampler) : bw_sampler := s <| bws_flags := Z.lor (bws_flags s) BWS_CONN_ABORTED |>.
Definition BW_WARN_ONCE (s : bw_sampler) : bw_sampler := s <| bws_flags := Z.lor (bws_flags s) BWS_WARNED |>.

(** The state that is attached to a packet. *)
Definition snapshot (s : bw_sampler) (sent_sz : Z) : bwp_state :=
  BWP (SS (bws_total_sent s) (bws_total_acked s) (bws_total_lost s) (has_flag (bws_flags s) BWS_APP_LIMITED))
      (bws_last_acked_total_sent s) (bws_last_acked_sent_time s) (bws_last_acked_packet_time s) sent_sz.

Definition lsquic_bw_sampler_packet_sent (malo_ok : bool) (s : bw_sampler) (p : bw_packet) (in_flight : Z) : bw_sampler * bw_packet :=
  match po_bwp_state p with
  | Some _ => (BW_WARN_ONCE s, p)
  | None =>
    let s := s <| bws_last_sent_packno := bp_packno p |> in
    if negb (has_flag (bp_frame_types p) (bws_retx_frames s)) then (s, p) else
    let sent_sz := u16 (bp_sent_sz p) in
    let s := s <| bws_total_sent := u64 (bws_total_sent s + sent_sz) |> in
    let s := if in_flight =? 0
             then s <| bws_last_acked_packet_time := bp_sent p |> <| bws_last_acked_total_sent := bws_total_sent s |>
                    <| bws_last_acked_sent_time := bp_sent p |>
             else s in
    if malo_ok then (s, p <| po_bwp_state := Some (snapshot s sent_sz) |>)
    else (bw_sampler_abort_conn s, p)
  end.

Definition lsquic_bw_sampler_packet_lost (s : bw_sampler) (p : bw_packet) : bw_sampler * bw_packet :=
  match po_bwp_state p with
  | None => (s, p)
  | Some st => (s <| bws_total_lost := u64 (bws_total_lost s + bwps_packet_size st) |>, p <| po_bwp_state := None |>)
  end.

(** The assignments at the start of [lsquic_bw_sampler_packet_acked]. *)
Definition ack_counts (s : bw_sampler) (p : bw_packet) (st : bwp_state) (ack_time : Z) : bw_sampler :=
  let s := s <| bws_total_acked := u64 (bws_total_acked s + u16 (bp_sent_sz p)) |>
             <| bws_last_acked_total_sent := total_bytes_sent (bwps_send st) |>
             <| bws_last_acked_sent_time := bp_sent p |>
             <| bws_last_acked_packet_time := ack_time |> in
  if has_flag (bws_flags s) BWS_APP_LIMITED && (bws_end_of_app_limited_phase s <? bp_packno p)
  then s <| bws_flags := Z.ldiff (bws_flags s) BWS_APP_LIMITED |> else s.

Definition lsquic_bw_sampler_packet_acked (s : bw_sampler) (p : bw_packet) (ack_time : Z) : bw_sampler * bw_packet * option bw_sample :=
  match po_bwp_state p with
  | None => (s, p, None)
  | Some st =>
    let s := ack_counts s p st ack_time in
    let p' := p <| po_bwp_state := None |> in
    if bwps_last_ack_sent_time st =? 0 then (s, p', None) else
    let send_rate := if bwps_last_ack_sent_time st <? bp_sent p
                     then BW_FROM_BYTES_AND_DELTA (u64 (total_bytes_sent (bwps_send st) - bwps_sent_at_last_ack st))
                                                  (u64 (bp_sent p - bwps_last_ack_sent_time st))
                     else BW_INFINITE in
    if ack_time <=? bwps_last_ack_ack_time st then (BW_WARN_ONCE s, p', None) else
    let ack_rate := BW_FROM_BYTES_AND_DELTA (u64 (bws_total_acked s - total_bytes_acked (bwps_send st)))
                                            (u64 (ack_time - bwps_last_ack_ack_time st)) in
    (s, p', Some (SAMPLE (if send_rate <? ack_rate then send_rate else ack_rate) (u64 (ack_time - bp_sent p)) (is_app_limited (bwps_send st))))
  end.

(** * Runs *)

(** The sampler, the packets that were sent, each with the sampler right after it was
    sent, and the time. *)
Definition srun : Type := bw_sampler * list (bw_packet * bw_sampler) * Z.

Inductive sop :=
| SSent (p : bw_packet) (in_flight : Z)
| SAcked (i : nat) (now : Z)
| SLost (i : nat)
| SAppLimited.

Definition sexec (o : sop) (r : srun) : srun :=
  let '(s, ps, clock) := r in
  match o with
  | SSent p in_flight => let '(s', p') := lsquic_bw_sampler_packet_sent true s p in_flight in (s', ps ++ [(p', s')], bp_sent p)
  | SAcked i now =>
    match ps !! i with
    | Some (p, g) => let '(s', p', _) := lsquic_bw_sampler_packet_acked s p now in (s', <[i := (p', g)]> ps, now)
    | None => r
    end
  | SLost i =>
    match ps !! i with
    | Some (p, g) => let '(s', p') := lsquic_bw_sampler_packet_lost s p in (s', <[i := (p', g)]> ps, clock)
    | None => r
    end
  | SAppLimited => (lsquic_bw_sampler_app_limited s, ps, clock)
  end.

(** Time does not go back, and fewer than 2^37 bytes are sent. *)
Definition MAX_BYTES : Z := 2 ^ 37.
Definition senabled (o : sop) (r : srun) : Prop :=
  let '(s, ps, clock) := r in
  match o with
  | SSent p _ => po_bwp_state p = None /\ clock <= bp_sent p < 2 ^ 63 /\ bws_total_sent s + u16 (bp_sent_sz p) < MAX_BYTES
  | SAcked _ now => clock <= now < 2 ^ 63
  | SLost _ | SAppLimited => True
  end.

Inductive sreachable (retx_frames : Z) : srun -> Prop :=
| sreach_init : sreachable retx_frames ((lsquic_bw_sampler_init true retx_frames).2, [], 0)
| sreach_step o r : sreachable retx_frames r -> senabled o r -> sreachable retx_frames (sexec o r).

(** Bytes of the packets that are neither acknowledged nor lost. *)
Fixpoint outstanding (ps : list (bw_packet * bw_sampler)) : Z :=
  match ps with
  | [] => 0
  | (p, _) :: ps => match po_bwp_state p with Some st => bwps_packet_size st | None => 0 end + outstanding ps
  end.

(** What holds of the sampler at a time. *)
Record scounts (s : bw_sampler) (clock : Z) : Prop := {
  sc_nonneg : 0 <= bws_total_acked s /\ 0 <= bws_total_lost s;
  sc_sent : 0 <= bws_total_sent s < MAX_BYTES;
  sc_last : 0 <= bws_last_acked_total_sent s <= bws_total_sent s;
  sc_times : 0 <= bws_last_acked_sent_time s <= clock /\ 0 <= bws_last_acked_packet_time s <= clock
}.

Record sinv (r : srun) : Prop := {
  si_clock : 0 <= r.2 < 2 ^ 63;
  si_counts : scounts r.1.1 r.2;
  si_ledger : bws_total_sent r.1.1 = bws_total_acked r.1.1 + bws_total_lost r.1.1 + outstanding r.1.2;
  si_packets : forall i p g st, r.1.2 !! i = Some (p, g) -> po_bwp_state p = Some st ->
    st = snapshot g (u16 (bp_sent_sz p)) /\ scounts g (bp_sent p) /\ bp_sent p <= r.2 /\
    bws_total_sent g <= bws_total_sent r.1.1 /\ bws_total_acked g <= bws_total_acked r.1.1
}.

Lemma outstanding_app ps qs : outstanding (ps ++ qs) = outstanding ps + outstanding qs.
Proof. induction ps as [|[p g] ps IH]; cbn [app outstanding]; lia. Qed.

Lemma outstanding_insert ps : forall i p g p', ps !! i = Some (p, g) ->
  outstanding (<[i := (p', g)]> ps) = outstanding ps
    - match po_bwp_state p with Some st => bwps_packet_size st | None => 0 end
    + match po_bwp_state p' with Some st => bwps_packet_size st | None => 0 end.
Proof.
  induction ps as [|[q h] ps IH]; intros i p g p' Hi; [done|]. destruct i as [|i].
  - injection Hi as -> ->. cbn. lia.
  - change (<[S i := (p', g)]> ((q, h) :: ps)) with ((q, h) :: <[i := (p', g)]> ps). cbn [outstanding]. rewrite (IH i p g p' Hi). lia.
Qed.

Definition sized (pg : bw_packet * bw_sampler) : Prop := forall st, po_bwp_state pg.1 = Some st -> 0 <= bwps_packet_size st.

Lemma outstanding_nonneg ps : Forall sized ps -> 0 <= outstanding ps.
Proof.
  induction 1 as [|[p g] ps H _ IH]; [done|]. cbn [outstanding]. specialize (H : forall st, po_bwp_state p = Some st -> _).
  destruct (po_bwp_state p) as [st|]; [specialize (H st eq_refl)|]; lia.
Qed.

Lemma sinv_sized r : sinv r -> Forall sized r.1.2.
Proof.
  intros H. apply Forall_lookup. intros i [p g] Hi st Hst. destruct (si_packets _ H i p g st Hi Hst) as [-> _]. by apply wrapu_range.
Qed.

(** A packet that is outstanding counts. *)
Lemma outstanding_at r i p g st : sinv r -> r.1.2 !! i = Some (p, g) -> po_bwp_state p = Some st -> 0 <= bwps_packet_size st <= outstanding r.1.2.
Proof.
  intros H Hi Est. pose proof (sinv_sized r H) as Hs. pose proof (outstanding_insert _ i p g (p <| po_bwp_state := None |>) Hi) as E. rewrite Est in E. cbn in E.
  split; [apply (proj1 (Forall_lookup _ _) Hs i _ Hi st Est)|].
  enough (0 <= outstanding (<[i := (p <| po_bwp_state := None |>, g)]> r.1.2)) by (cbn in *; lia).
  by apply outstanding_nonneg, Forall_insert.
Qed.

(** ** Every operation keeps the invariant *)

Lemma flags_counts s clock f : scounts s clock -> scounts (s <| bws_flags := f |>) clock.
Proof. intros [A B C D]. by split. Qed.

Lemma scounts_later s c c' : c <= c' -> scounts s c -> scounts s c'.
Proof. intros Hc [A B C D]. split; try done. lia. Qed.

Lemma sent_inv s ps clock p n : sinv (s, ps, clock) -> senabled (SSent p n) (s, ps, clock) -> sinv (sexec (SSent p n) (s, ps, clock)).
Proof.
  intros H (Hn & Hc & Hb). pose proof H as [Hck [Hn0 Hs Hl Ht] Hled Hps]. cbn [fst snd] in *.
  cbn [sexec]. unfold lsquic_bw_sampler_packet_sent. rewrite Hn. destruct (has_flag (bp_frame_types p) _); cbn [negb].
  2: { split; cbn [fst snd]; [lia|split; cbn; done || lia| |].
    - cbn. rewrite outstanding_app. cbn. rewrite Hn. lia.
    - intros i q g st Hi Hst. apply lookup_app_Some in Hi as [Hi|[_ Hi]].
      + destruct (Hps i q g st Hi Hst) as (A & B & C & D & E). cbn. split_and!; try done. lia.
      + apply list_lookup_singleton_Some in Hi as [_ [= <- _]]. congruence. }
  pose proof (wrapu_range 16 (bp_sent_sz p) ltac:(lia)) as [Hz _]. unfold MAX_BYTES in *.
  set (sz := u16 (bp_sent_sz p)) in *. set (s1 := _ <| bws_total_sent := _ |>). set (s2 := if n =? 0 then _ else _).
  assert (Es : bws_total_sent s2 = bws_total_sent s + sz /\ bws_total_acked s2 = bws_total_acked s /\ bws_total_lost s2 = bws_total_lost s).
  { assert (bws_total_sent s1 = bws_total_sent s + sz) by (cbn; unfold const; rewrite wrapu_id by (unfold is_u; lia); done).
    unfold s2. destruct (n =? 0); done. }
  destruct Es as (E1 & E2 & E3). assert (Hs2 : scounts s2 (bp_sent p)).
  { split; rewrite ?E1, ?E2, ?E3; unfold MAX_BYTES; [done|lia| |]; unfold s2; destruct (n =? 0); cbn; unfold const;
      rewrite ?wrapu_id by (unfold is_u; lia); lia. }
  split; cbn [fst snd]; [lia|done| |].
  - rewrite outstanding_app, E1, E2, E3. cbn. fold sz. lia.
  - intros i q g st Hi Hst. apply lookup_app_Some in Hi as [Hi|[_ Hi]].
    + destruct (Hps i q g st Hi Hst) as (A & B & C & D & E). rewrite E1, E2. split_and!; try done; lia.
    + apply list_lookup_singleton_Some in Hi as [_ [= <- <-]]. cbn in Hst. injection Hst as <-. split; [done|]. split; [done|]. cbn. lia.
Qed.

(** A packet that is acknowledged or lost leaves the outstanding ones. *)
Lemma retire_packets s s' ps clock now i p g : sinv (s, ps, clock) -> clock <= now -> ps !! i = Some (p, g) ->
  bws_total_sent s' = bws_total_sent s -> bws_total_acked s <= bws_total_acked s' ->
  forall j q h st, <[i := (p <| po_bwp_state := None |>, g)]> ps !! j = Some (q, h) -> po_bwp_state q = Some st ->
    st = snapshot h (u16 (bp_sent_sz q)) /\ scounts h (bp_sent q) /\ bp_sent q <= now /\
    bws_total_sent h <= bws_total_sent s' /\ bws_total_acked h <= bws_total_acked s'.
Proof.
  intros H Hn Hi E1 E2 j q h st Hj Hst. destruct (decide (j = i)) as [->|Hne].
  - rewrite list_lookup_insert_eq in Hj by (by apply lookup_lt_Some in Hi). injection Hj as <- <-. done.
  - rewrite list_lookup_insert_ne in Hj by done. destruct (si_packets _ H j q h st Hj Hst) as (A & B & C & D & E). cbn [fst snd] in *. split_and!; try done; lia.
Qed.

Lemma ack_counts_eq s p st now : let s' := ack_counts s p st now in
  bws_total_sent s' = bws_total_sent s /\ bws_total_acked s' = u64 (bws_total_acked s + u16 (bp_sent_sz p)) /\ bws_total_lost s' = bws_total_lost s /\
  bws_last_acked_total_sent s' = total_bytes_sent (bwps_send st) /\ bws_last_acked_sent_time s' = bp_sent p /\ bws_last_acked_packet_time s' = now.
Proof. cbv zeta. unfold ack_counts. cbv zeta. by destruct (_ && _). Qed.

(** The counts after an acknowledgement, whether or not there is a sample. *)
Lemma ack_inv s ps clock i p g st now f : sinv (s, ps, clock) -> clock <= now < 2 ^ 63 -> ps !! i = Some (p, g) -> po_bwp_state p = Some st ->
  bws_total_acked (ack_counts s p st now) = bws_total_acked s + u16 (bp_sent_sz p) /\
  sinv ((ack_counts s p st now) <| bws_flags := f |>, <[i := (p <| po_bwp_state := None |>, g)]> ps, now).
Proof.
  intros H Hn Hi Hst. pose proof H as [Hck [Hn0 Hs Hl Ht] Hled Hps]. cbn [fst snd] in *.
  destruct (ack_counts_eq s p st now) as (E1 & E2 & E3 & E4 & E5 & E6). destruct (Hps i p g st Hi Hst) as (-> & Hg & Hsent & Hgs & Hga).
  destruct (outstanding_at _ i p g _ H Hi Hst) as [Ho1 Ho2]. cbn [fst snd bwps_packet_size snapshot] in Ho1, Ho2.
  assert (E2' : bws_total_acked (ack_counts s p (snapshot g (u16 (bp_sent_sz p))) now) = bws_total_acked s + u16 (bp_sent_sz p)).
  { rewrite E2. apply wrapu_id. unfold is_u, MAX_BYTES in *. lia. }
  split; [done|]. split; cbn [fst snd]; [lia| | |].
  - apply flags_counts. pose proof Hg as [Gn Gs Gl Gt]. split; rewrite ?E1, ?E2', ?E3, ?E4, ?E5, ?E6; cbn [bwps_send snapshot total_bytes_sent]; lia.
  - rewrite (outstanding_insert _ _ _ _ _ Hi), Hst. cbn. unfold const. rewrite E1, E2', E3. lia.
  - apply (retire_packets s _ ps clock); try done; [lia|]. cbn. rewrite E2'. lia.
Qed.

Lemma sexec_inv o r : sinv r -> senabled o r -> sinv (sexec o r).
Proof.
  destruct r as [[s ps] clock]. intros H He. pose proof H as [Hck Hc Hled Hps]. cbn [fst snd] in *. destruct o as [p n|i now|i|].
  - by apply sent_inv.
  - cbn [sexec senabled] in *. destruct (ps !! i) as [[p g]|] eqn:Hi; [|done]. unfold lsquic_bw_sampler_packet_acked.
    destruct (po_bwp_state p) as [st|] eqn:Hst.
    + destruct (ack_inv s ps clock i p g st now (bws_flags (ack_counts s p st now)) H He Hi Hst) as [_ HI].
      replace ((ack_counts s p st now) <| bws_flags := bws_flags (ack_counts s p st now) |>) with (ack_counts s p st now) in HI by (by destruct (ack_counts s p st now)).
      destruct (_ =? 0); [done|]. destruct (now <=? _); [|done]. by destruct (ack_inv s ps clock i p g st now (Z.lor (bws_flags (ack_counts s p st now)) BWS_WARNED) H He Hi Hst).
    + rewrite list_insert_id by done. split; cbn [fst snd]; [lia|by apply (scounts_later _ clock); [lia|]|done|].
      intros j q h st' Hj Hst'. destruct (Hps j q h st' Hj Hst') as (A & B & C & D & E). split_and!; try done. lia.
  - cbn [sexec]. destruct (ps !! i) as [[p g]|] eqn:Hi; [|done]. unfold lsquic_bw_sampler_packet_lost. destruct (po_bwp_state p) as [st|] eqn:Hst.
    + destruct (outstanding_at _ i p g st H Hi Hst) as [Ho1 Ho2]. cbn [fst snd] in Ho2. destruct Hc as [Hn0 Hs Hl Ht]. unfold MAX_BYTES in *.
      assert (E : u64 (bws_total_lost s + bwps_packet_size st) = bws_total_lost s + bwps_packet_size st) by (apply wrapu_id; unfold is_u; lia).
      split; cbn [fst snd]; [done| | |].
      * split; cbn; unfold const, MAX_BYTES; rewrite ?E; lia.
      * rewrite (outstanding_insert _ _ _ _ _ Hi), Hst. cbn. unfold const. rewrite E. lia.
      * by apply (retire_packets s _ ps clock).
    + rewrite list_insert_id by done. done.
  - cbn [sexec]. split; cbn [fst snd]; try done. by destruct Hc as [A B C D].
Qed.

Lemma sreachable_inv retx r : sreachable retx r -> sinv r.
Proof.
  induction 1 as [|o r _ IH He]; [|by apply sexec_inv]. split; cbn [fst snd]; [lia|split; cbn; unfold MAX_BYTES; lia|done|]. intros i p g st Hi. by rewrite lookup_nil in Hi.
Qed.

(** ** Samples *)

(** The sample of a packet that was sent when the sampler was [g]: the smaller of the
    rate at which bytes were sent, from the packet last acknowledged then to this one,
    and the rate at which bytes were acknowledged since. *)
Definition ideal_sample (g s' : bw_sampler) (p : bw_packet) (now : Z) : option bw_sample :=
  let sent := bws_total_sent g - bws_last_acked_total_sent g in
  let sending := bp_sent p - bws_last_acked_sent_time g in
  let acked := bws_total_acked s' - bws_total_acked g in
  let acking := now - bws_last_acked_packet_time g in
  if (bws_last_acked_sent_time g =? 0) || (acking <=? 0) then None
  else Some (SAMPLE (if 0 <? sending then Z.min (8000000 * sent / sending) (8000000 * acked / acking) else 8000000 * acked / acking)
                    (now - bp_sent p) (has_flag (bws_flags g) BWS_APP_LIMITED)).

Lemma rate_exact bytes usecs : 0 <= bytes < MAX_BYTES -> 0 < usecs -> BW_FROM_BYTES_AND_DELTA bytes usecs = 8000000 * bytes / usecs /\
  0 <= 8000000 * bytes / usecs < 2 ^ 60.
Proof.
  intros Hb Hu. unfold BW_FROM_BYTES_AND_DELTA, MAX_BYTES in *. rewrite (wrapu_id 64 (bytes * 8)) by (unfold is_u; lia). rewrite wrapu_id by (unfold is_u; lia).
  replace (bytes * 8 * 1000000) with (8000000 * bytes) by lia. split; [done|]. split; [apply Z.div_pos; lia|]. apply Z.div_lt_upper_bound; nia.
Qed.

Lemma acked_sample s ps clock i p g st now : sinv (s, ps, clock) -> clock <= now < 2 ^ 63 -> ps !! i = Some (p, g) -> po_bwp_state p = Some st ->
  exists s', lsquic_bw_sampler_packet_acked s p now = (s', p <| po_bwp_state := None |>, ideal_sample g s' p now) /\
    bws_total_acked s' = bws_total_acked s + u16 (bp_sent_sz p) /\
    sexec (SAcked i now) (s, ps, clock) = (s', <[i := (p <| po_bwp_state := None |>, g)]> ps, now) /\
    match ideal_sample g s' p now with Some sa => 0 <= sa_bandwidth sa < 2 ^ 60 /\ 0 <= sa_rtt sa < 2 ^ 63 | None => True end.
Proof.
  intros H Hn Hi Hst. destruct (ack_inv s ps clock i p g st now 0 H Hn Hi Hst) as [Ea Hinv]. cbn [sexec]. rewrite Hi.
  pose proof H as [Hck [Hn0 Hs Hl Ht] Hled Hps]. cbn [fst snd] in *. destruct (Hps i p g st Hi Hst) as (-> & [Gn Gs Gl Gt] & Hsent & Hgs & Hga).
  unfold lsquic_bw_sampler_packet_acked. rewrite Hst. set (s1 := ack_counts s p _ now) in *. cbn [bwps_send bwps_sent_at_last_ack bwps_last_ack_sent_time
    bwps_last_ack_ack_time snapshot total_bytes_sent total_bytes_acked is_app_limited].
  pose proof (outstanding_nonneg _ (sinv_sized _ Hinv)) as Ho. pose proof (si_ledger _ Hinv) as Hl1. pose proof (sc_nonneg _ _ (si_counts _ Hinv)) as Hnn.
  assert (Es1 : bws_total_sent s1 = bws_total_sent s) by apply ack_counts_eq. cbn [fst snd] in Ho, Hl1, Hnn.
  assert (Hacked : 0 <= bws_total_acked s1 - bws_total_acked g < MAX_BYTES).
  { pose proof (wrapu_range 16 (bp_sent_sz p) ltac:(lia)) as [? _]. cbn in Hl1, Hnn. lia. }
  unfold ideal_sample. destruct (bws_last_acked_sent_time g =? 0); cbn [orb]; [by exists s1|].
  rewrite (wrapu_id 64 (bws_total_sent g - _)) by (unfold is_u, MAX_BYTES in *; lia).
  rewrite (wrapu_id 64 (bws_total_acked s1 - _)) by (unfold is_u, MAX_BYTES in *; lia).
  destruct (Z.leb_spec now (bws_last_acked_packet_time g)) as [Hle|Hlt].
  - exists (BW_WARN_ONCE s1). replace (now - bws_last_acked_packet_time g <=? 0) with true by lia. done.
  - replace (now - bws_last_acked_packet_time g <=? 0) with false by lia. rewrite (wrapu_id 64 (now - bws_last_acked_packet_time g)) by (unfold is_u; lia).
    rewrite (wrapu_id 64 (now - bp_sent p)) by (unfold is_u; lia).
    destruct (rate_exact (bws_total_acked s1 - bws_total_acked g) (now - bws_last_acked_packet_time g) Hacked ltac:(lia)) as [-> Hr].
    destruct (Z.ltb_spec (bws_last_acked_sent_time g) (bp_sent p)) as [Hlt'|Hge].
    + rewrite (wrapu_id 64 (bp_sent p - _)) by (unfold is_u; lia). replace (0 <? bp_sent p - _) with true by lia.
      destruct (rate_exact (bws_total_sent g - bws_last_acked_total_sent g) (bp_sent p - bws_last_acked_sent_time g) ltac:(lia) ltac:(lia)) as [-> Hr'].
      exists s1. match goal with |- context [if ?a <? ?b then ?a else ?b] => replace (if a <? b then a else b) with (Z.min a b) by (destruct (Z.ltb_spec a b); lia) end.
      cbn [sa_bandwidth sa_rtt]. split; [done|]. split; [done|]. split; [done|]. lia.
    + replace (0 <? bp_sent p - _) with false by lia. unfold BW_INFINITE, UINT64_MAX. exists s1. replace (_ <? _) with false by lia.
      cbn [sa_bandwidth sa_rtt]. split; [done|]. split; [done|]. split; [done|]. lia.
Qed.

(** C16: Bandwidth samples are sound.  In every run of the sampler (time does not go
    back, allocations succeed, fewer than 2^37 bytes are sent), the bytes that were
    sent are those acknowledged, lost and outstanding, and the acknowledgement of an
    outstanding packet yields exactly the sample that exact arithmetic gives: the
    smaller of the rates at which bytes were sent before the packet and acknowledged
    after it was sent, the RTT of the packet, and whether the application limited the
    sender when it was sent.  No sample is made where an interval is empty; nothing
    is divided by zero and nothing overflows. *)
Theorem bw_samples_sound retx_frames s ps clock :
  sreachable retx_frames (s, ps, clock) ->
  bws_total_sent s = bws_total_acked s + bws_total_lost s + outstanding ps /\
  forall i p g st now, ps !! i = Some (p, g) -> po_bwp_state p = Some st -> clock <= now < 2 ^ 63 ->
    exists s', lsquic_bw_sampler_packet_acked s p now = (s', p <| po_bwp_state := None |>, ideal_sample g s' p now) /\
      bws_total_acked s' = bws_total_acked s + u16 (bp_sent_sz p) /\
      sreachable retx_frames (s', <[i := (p <| po_bwp_state := None |>, g)]> ps, now) /\
      match ideal_sample g s' p now with Some sa => 0 <= sa_bandwidth sa < 2 ^ 60 /\ 0 <= sa_rtt sa < 2 ^ 63 | None => True end.
Proof.
  intros R. pose proof (sreachable_inv _ _ R) as H. split; [apply H|]. intros i p g st now Hi Hst Hn.
  destruct (acked_sample s ps clock i p g st now H Hn Hi Hst) as (s' & E & Ea & Ex & Hb). exists s'. split; [done|]. split; [done|]. split; [|done].
  rewrite <- Ex. by apply sreach_step.
Qed.

(** Two packets of 1250 bytes are sent 1 ms apart and acknowledged after 50 ms, at 10
    Mbit/s; a third is sent then. *)
Module Sampled.

Definition data_packet (no time : Z) : bw_packet := BP no time 2 1250 false None.
Definition ops : list sop :=
  [SSent (data_packet 1 1000) 0; SSent (data_packet 2 2000) 1250; SAcked 0 51000; SSent (data_packet 3 51000) 1250; SAcked 1 52000].
Definition run : srun := fold_left (fun r o => sexec o r) ops ((lsquic_bw_sampler_init true 2).2, [], 0).

Lemma run_reachable : sreachable 2 run.
Proof.
  unfold run, ops. cbn [fold_left]. repeat (apply sreach_step; [|unfold senabled, MAX_BYTES; vm_compute; repeat split; discriminate || reflexivity]).
  apply sreach_init.
Qed.

End Sampled.

Lemma bw_samples_sound_witness : exists p g s', Sampled.run.1.2 !! 2%nat = Some (p, g) /\
  lsquic_bw_sampler_packet_acked Sampled.run.1.1 p 101000 = (s', p <| po_bwp_state := None |>, Some (SAMPLE 400000 50000 false)).
Proof.
  pose proof Sampled.run_reachable as R. destruct Sampled.run as [[s ps] clock] eqn:E. cbn [fst snd].
  destruct (bw_samples_sound 2 s ps clock R) as [_ H]. vm_compute in E. injection E as <- <- <-.
  destruct (H 2%nat _ _ _ 101000 eq_refl eq_refl ltac:(lia)) as (s' & Es & Ea & _). eexists _, _, s'. split; [reflexivity|].
  rewrite Es. f_equal. unfold ideal_sample. rewrite Ea. vm_compute. reflexivity.
Defined.
