(* ===== verification/Bbr.v ===== *)
(** BBR congestion control (lsquic_bbr.c): a state machine on top of the bandwidth
    sampler and windowed maxima.  Fields that only [init_bbr] writes are constants
    here.  Gains are binary32 numbers, and the conversion of a product to an integer
    is undefined, [None], when it does not fit; so is a failed assertion. *)
From S2P Require Import Prelude Art Timing Binary BwSampler.
From Stdlib Require Import SpecFloat.
From coqutil Require Import Datatypes.RecordSettersUsingExistingGetters.
Local Open Scope Z_scope.

Inductive bbr_mode_t := BBR_MODE_STARTUP | BBR_MODE_DRAIN | BBR_MODE_PROBE_BW | BBR_MODE_PROBE_RTT.
Inductive bbr_recovery_t := BBR_RS_NOT_IN_RECOVERY | BBR_RS_CONSERVATION | BBR_RS_GROWTH.

#[export] Instance bbr_mode_eq_dec : EqDecision bbr_mode_t := ltac:(solve_decision).
#[export] Instance bbr_recovery_eq_dec : EqDecision bbr_recovery_t := ltac:(solve_decision).

Definition BBR_FLAG_IN_ACK : Z := Z.shiftl 1 0.
Definition BBR_FLAG_LAST_SAMPLE_APP_LIMITED : Z := Z.shiftl 1 1.
Definition BBR_FLAG_HAS_NON_APP_LIMITED : Z := Z.shiftl 1 2.
Definition BBR_FLAG_APP_LIMITED_SINCE_LAST_PROBE_RTT : Z := Z.shiftl 1 3.
Definition BBR_FLAG_PROBE_RTT_DISABLED_IF_APP_LIMITED : Z := Z.shiftl 1 4.
Definition BBR_FLAG_PROBE_RTT_SKIPPED_IF_SIMILAR_RTT : Z := Z.shiftl 1 5.
Definition BBR_FLAG_EXIT_STARTUP_ON_LOSS : Z := Z.shiftl 1 6.
Definition BBR_FLAG_IS_AT_FULL_BANDWIDTH : Z := Z.shiftl 1 7.
Definition BBR_FLAG_EXITING_QUIESCENCE : Z := Z.shiftl 1 8.
Definition BBR_FLAG_PROBE_RTT_ROUND_PASSED : Z := Z.shiftl 1 9.
Definition BBR_FLAG_FLEXIBLE_APP_LIMITED : Z := Z.shiftl 1 10.
Definition BBR_FLAG_DRAIN_TO_TARGET : Z := Z.shiftl 1 11.
Definition BBR_FLAG_EXPIRE_ACK_AGG_IN_STARTUP : Z := Z.shiftl 1 12.
Definition BBR_FLAG_PROBE_RTT_BASED_ON_BDP : Z := Z.shiftl 1 13.
Definition BBR_FLAG_SLOWER_STARTUP : Z := Z.shiftl 1 14.
Definition BBR_FLAG_ENABLE_ACK_AGG_IN_STARTUP : Z := Z.shiftl 1 15.
Definition BBR_FLAG_RATE_BASED_STARTUP : Z := Z.shiftl 1 16.

Definition kDefaultTCPMSS : Z := 1460.
Definition kMaxSegmentSize : Z := kDefaultTCPMSS.
Definition kMinRttExpiry : Z := 10 * 1000 * 1000.
Definition kProbeRttTime : Z := 200 * 1000.
Definition kMaxOutgoingPacketSize : Z := 1452.
Definition kDefaultHighGain : float := fconst 2885 1000.
Definition kSimilarMinRttThreshold : float := fconst 1125 1000.
Definition kStartupAfterLossGain : float := fconst 15 10.
Definition kStartupGrowthTarget : double := ddiv (dbl 125) (dbl 100).
Definition kModerateProbeRttMultiplier : float := fconst 75 100.
Definition kCwndGain : float := flt 2.
Definition kPacingGain : list float := [fconst 125 100; fconst 75 100; flt 1; flt 1; flt 1; flt 1; flt 1; flt 1].
Definition kGainCycleLength : Z := 8.

(** What [init_bbr] sets once. *)
Definition bbr_init_cwnd : Z := 32 * kDefaultTCPMSS.
Definition bbr_max_cwnd : Z := 2000 * kDefaultTCPMSS.
Definition bbr_min_cwnd : Z := 4 * kDefaultTCPMSS.
Definition bbr_high_gain : float := kDefaultHighGain.
Definition bbr_high_cwnd_gain : float := kDefaultHighGain.
Definition bbr_drain_gain : float := fdiv (flt 1) kDefaultHighGain.
Definition bbr_num_startup_rtts : Z := 3.

(** [bbr_ack_state] *)
Record bbr_ack := BACK {
  ba_samples : list bw_sample;
  ba_ack_time : Z;
  ba_max_packno : Z;
  ba_acked_bytes : Z;
  ba_lost_bytes : Z;
  ba_total_bytes_acked_before : Z;
  ba_in_flight : Z;
  ba_has_losses : bool
}.

Record lsquic_bbr := BBR {
  bbr_mode : bbr_mode_t;
  bbr_recovery_state : bbr_recovery_t;
  bbr_flags : Z;
  bbr_cycle_current_offset : Z;
  bbr_bw_sampler : bw_sampler;
  bbr_max_bandwidth : minmax;
  bbr_max_ack_height : minmax;
  bbr_cwnd : Z;
  bbr_aggregation_epoch_start_time : Z;
  bbr_aggregation_epoch_bytes : Z;
  bbr_last_sent_packno : Z;
  bbr_current_round_trip_end : Z;
  bbr_end_recovery_at : Z;
  bbr_round_count : Z;
  bbr_pacing_rate : Z;
  bbr_pacing_gain : float;
  bbr_round_wo_bw_gain : Z;
  bbr_cwnd_gain : float;
  bbr_bw_at_last_round : Z;
  bbr_last_cycle_start : Z;
  bbr_exit_probe_rtt_at : Z;
  bbr_min_rtt_since_last_probe : Z;
  bbr_min_rtt : Z;
  bbr_min_rtt_timestamp : Z;
  bbr_recovery_window : Z;
  bbr_ack_state : bbr_ack
}.

Definition bbr_zero : lsquic_bbr :=
  BBR BBR_MODE_STARTUP BBR_RS_NOT_IN_RECOVERY 0 0 bws_zero (minmax_init 0) (minmax_init 0) 0 0 0 0 0 0 0 0 (flt 0) 0 (flt 0) 0 0 0 0 0 0 0 (BACK [] 0 0 0 0 0 0 false).

Definition flag (b : lsquic_bbr) (f : Z) : bool := has_flag (bbr_flags b) f.
Definition bbr_set_flag (b : lsquic_bbr) (f : Z) : lsquic_bbr := b <| bbr_flags := Z.lor (bbr_flags b) f |>.
Definition bbr_clear_flag (b : lsquic_bbr) (f : Z) : lsquic_bbr := b <| bbr_flags := Z.ldiff (bbr_flags b) f |>.

Definition set_mode (b : lsquic_bbr) (mode : bbr_mode_t) : lsquic_bbr := b <| bbr_mode := mode |>.
Definition set_startup_values (b : lsquic_bbr) : lsquic_bbr := b <| bbr_pacing_gain := bbr_high_gain |> <| bbr_cwnd_gain := bbr_high_cwnd_gain |>.

(** The flags that [init_bbr] clears. *)
Definition init_cleared : Z :=
  Z.lor BBR_FLAG_EXIT_STARTUP_ON_LOSS (Z.lor BBR_FLAG_IS_AT_FULL_BANDWIDTH (Z.lor BBR_FLAG_EXITING_QUIESCENCE (Z.lor BBR_FLAG_PROBE_RTT_ROUND_PASSED
    (Z.lor BBR_FLAG_LAST_SAMPLE_APP_LIMITED (Z.lor BBR_FLAG_HAS_NON_APP_LIMITED BBR_FLAG_FLEXIBLE_APP_LIMITED))))).

Definition init_bbr (b : lsquic_bbr) : lsquic_bbr :=
  let b := b <| bbr_mode := BBR_MODE_STARTUP |> <| bbr_round_count := 0 |> <| bbr_max_bandwidth := minmax_init 10 |> <| bbr_max_ack_height := minmax_init 10 |>
             <| bbr_aggregation_epoch_bytes := 0 |> <| bbr_aggregation_epoch_start_time := 0 |> <| bbr_min_rtt := 0 |> <| bbr_min_rtt_timestamp := 0 |>
             <| bbr_cwnd := bbr_init_cwnd |> <| bbr_pacing_rate := 0 |> <| bbr_pacing_gain := flt 1 |> <| bbr_cwnd_gain := flt 1 |>
             <| bbr_cycle_current_offset := 0 |> <| bbr_last_cycle_start := 0 |> <| bbr_round_wo_bw_gain := 0 |> <| bbr_bw_at_last_round := 0 |>
             <| bbr_exit_probe_rtt_at := 0 |> in
  set_startup_values (bbr_clear_flag b init_cleared).

(** On zeroed memory. *)
Definition lsquic_bbr_init (malo_ok : bool) (retx_frames : Z) : lsquic_bbr :=
  init_bbr (bbr_zero <| bbr_bw_sampler := (lsquic_bw_sampler_init malo_ok retx_frames).2 |>).

Definition lsquic_bbr_reinit (b : lsquic_bbr) : lsquic_bbr := init_bbr b.

Definition in_recovery (b : lsquic_bbr) : bool := negb (bool_decide (bbr_recovery_state b = BBR_RS_NOT_IN_RECOVERY)).
Definition in_mode (b : lsquic_bbr) (mode : bbr_mode_t) : bool := bool_decide (bbr_mode b = mode).

Definition IQUIC_MAX_PACKNO : Z := 2 ^ 62 - 1.
Definition is_valid_packno (no : Z) : bool := no <=? IQUIC_MAX_PACKNO.

(** [BW_TIMES] with a [float] and with a [double]. *)
Definition BW_TIMES (bw : Z) (factor : float) : option Z := u64_of_float (fmul (flt bw) factor).
Definition BW_TIMES_d (bw : Z) (factor : double) : option Z := u64_of_float (dmul (dbl bw) factor).

Section bbr.
(** [lsquic_rtt_stats_get_min_rtt(bbr->bbr_rtt_stats)] *)
Context (stats_min_rtt : Z).

Definition get_min_rtt (b : lsquic_bbr) : Z :=
  if negb (bbr_min_rtt b =? 0) then bbr_min_rtt b
  else if stats_min_rtt =? 0 then 25000 else stats_min_rtt.

Definition lsquic_bbr_pacing_rate (b : lsquic_bbr) : option Z :=
  bw ← (if negb (bbr_pacing_rate b =? 0) then Some (bbr_pacing_rate b)
        else BW_TIMES (BW_FROM_BYTES_AND_DELTA bbr_init_cwnd (get_min_rtt b)) bbr_high_cwnd_gain);
  Some (BW_TO_BYTES_PER_SEC bw).

Definition get_target_cwnd (b : lsquic_bbr) (gain : float) : option Z :=
  let bw := minmax_get (bbr_max_bandwidth b) in
  let bdp := u64 (get_min_rtt b * BW_TO_BYTES_PER_SEC bw) / 1000000 in
  cwnd ← u64_of_float (fmul gain (flt bdp));
  cwnd ← (if cwnd =? 0 then u64_of_float (fmul gain (flt bbr_init_cwnd)) else Some cwnd);
  Some (Z.max cwnd bbr_min_cwnd).

Definition is_pipe_sufficiently_full (b : lsquic_bbr) (bytes_in_flight : Z) : option bool :=
  target ← get_target_cwnd b (if in_mode b BBR_MODE_STARTUP then fconst 15 10
                              else if SFltb (flt 1) (bbr_pacing_gain b) then bbr_pacing_gain b else fconst 11 10);
  Some (target <=? bytes_in_flight).

Definition get_probe_rtt_cwnd (b : lsquic_bbr) : option Z :=
  if flag b BBR_FLAG_PROBE_RTT_BASED_ON_BDP then get_target_cwnd b kModerateProbeRttMultiplier else Some bbr_min_cwnd.

Definition lsquic_bbr_get_cwnd (b : lsquic_bbr) : option Z :=
  if in_mode b BBR_MODE_PROBE_RTT then get_probe_rtt_cwnd b
  else if in_recovery b && negb (flag b BBR_FLAG_RATE_BASED_STARTUP && in_mode b BBR_MODE_STARTUP)
  then Some (Z.min (bbr_cwnd b) (bbr_recovery_window b))
  else Some (bbr_cwnd b).

Definition bbr_app_limited (b : lsquic_bbr) (bytes_in_flight : Z) : option lsquic_bbr :=
  cwnd ← lsquic_bbr_get_cwnd b;
  if cwnd <=? bytes_in_flight then Some b else
  full ← (if flag b BBR_FLAG_FLEXIBLE_APP_LIMITED then is_pipe_sufficiently_full b bytes_in_flight else Some false);
  if full : bool then Some b else
  let b := bbr_set_flag b BBR_FLAG_APP_LIMITED_SINCE_LAST_PROBE_RTT in
  Some (b <| bbr_bw_sampler := lsquic_bw_sampler_app_limited (bbr_bw_sampler b) |>).

(** ** Packets *)

Definition lsquic_bbr_ack (b : lsquic_bbr) (p : bw_packet) (packet_sz : Z) : option (lsquic_bbr * bw_packet) :=
  if negb (flag b BBR_FLAG_IN_ACK) then None else
  let a := bbr_ack_state b in
  let '(s, p', sample) := lsquic_bw_sampler_packet_acked (bbr_bw_sampler b) p (ba_ack_time a) in
  let a := match sample with Some sa => a <| ba_samples := ba_samples a ++ [sa] |> | None => a end in
  let a := if negb (is_valid_packno (ba_max_packno a)) || (ba_max_packno a <? bp_packno p) then a <| ba_max_packno := bp_packno p |> else a in
  let a := a <| ba_acked_bytes := u64 (ba_acked_bytes a + packet_sz) |> in
  Some (b <| bbr_bw_sampler := s |> <| bbr_ack_state := a |>, p').

Definition lsquic_bbr_sent (malo_ok : bool) (b : lsquic_bbr) (p : bw_packet) (in_flight : Z) (app_limited : bool) : option (lsquic_bbr * bw_packet) :=
  let '(s, p') := if negb (bp_mini p) then lsquic_bw_sampler_packet_sent malo_ok (bbr_bw_sampler b) p in_flight else (bbr_bw_sampler b, p) in
  let b := b <| bbr_bw_sampler := s |> <| bbr_last_sent_packno := bp_packno p |> in
  b ← (if app_limited then bbr_app_limited b in_flight else Some b);
  Some (b, p').

Definition lsquic_bbr_lost (b : lsquic_bbr) (p : bw_packet) (packet_sz : Z) : lsquic_bbr * bw_packet :=
  let '(s, p') := lsquic_bw_sampler_packet_lost (bbr_bw_sampler b) p in
  let a := bbr_ack_state b in
  (b <| bbr_bw_sampler := s |> <| bbr_ack_state := a <| ba_has_losses := true |> <| ba_lost_bytes := u64 (ba_lost_bytes a + packet_sz) |> |>, p').

Definition lsquic_bbr_begin_ack (b : lsquic_bbr) (ack_time in_flight : Z) : option lsquic_bbr :=
  if flag b BBR_FLAG_IN_ACK then None else
  Some ((bbr_set_flag b BBR_FLAG_IN_ACK) <| bbr_ack_state := BACK [] ack_time UINT64_MAX 0 0 (bws_total_acked (bbr_bw_sampler b)) in_flight false |>).

(** ** The end of an ACK *)

Definition should_extend_min_rtt_expiry (b : lsquic_bbr) : bool :=
  let both f g := flag b f && flag b g in
  if both BBR_FLAG_APP_LIMITED_SINCE_LAST_PROBE_RTT BBR_FLAG_PROBE_RTT_DISABLED_IF_APP_LIMITED then true else
  let increased_since_last_probe := SFltb (fmul (flt (bbr_min_rtt b)) kSimilarMinRttThreshold) (flt (bbr_min_rtt_since_last_probe b)) in
  both BBR_FLAG_APP_LIMITED_SINCE_LAST_PROBE_RTT BBR_FLAG_PROBE_RTT_SKIPPED_IF_SIMILAR_RTT && negb increased_since_last_probe.

(** One sample; the minimal RTT is [UINT64_MAX] before the first. *)
Definition take_sample (b : lsquic_bbr) (min_rtt : Z) (sa : bw_sample) : lsquic_bbr * Z :=
  let b := if sa_is_app_limited sa then bbr_set_flag b BBR_FLAG_LAST_SAMPLE_APP_LIMITED
           else bbr_set_flag (bbr_clear_flag b BBR_FLAG_LAST_SAMPLE_APP_LIMITED) BBR_FLAG_HAS_NON_APP_LIMITED in
  let min_rtt := if (min_rtt =? UINT64_MAX) || (sa_rtt sa <? min_rtt) then sa_rtt sa else min_rtt in
  let b := if negb (sa_is_app_limited sa) || (minmax_get (bbr_max_bandwidth b) <? sa_bandwidth sa)
           then b <| bbr_max_bandwidth := lsquic_minmax_update_max (bbr_max_bandwidth b) (bbr_round_count b) (sa_bandwidth sa) |> else b in
  (b, min_rtt).

Fixpoint take_samples (b : lsquic_bbr) (min_rtt : Z) (samples : list bw_sample) : lsquic_bbr * Z :=
  match samples with
  | [] => (b, min_rtt)
  | sa :: samples => let '(b, min_rtt) := take_sample b min_rtt sa in take_samples b min_rtt samples
  end.

Definition update_bandwidth_and_min_rtt (b : lsquic_bbr) : lsquic_bbr * bool :=
  let '(b, sample_min_rtt) := take_samples b UINT64_MAX (ba_samples (bbr_ack_state b)) in
  let b := b <| bbr_ack_state := (bbr_ack_state b) <| ba_samples := [] |> |> in
  if sample_min_rtt =? UINT64_MAX then (b, false) else
  let b := b <| bbr_min_rtt_since_last_probe := Z.min (bbr_min_rtt_since_last_probe b) sample_min_rtt |> in
  let ack_time := ba_ack_time (bbr_ack_state b) in
  let expired := negb (bbr_min_rtt b =? 0) && (u64 (bbr_min_rtt_timestamp b + kMinRttExpiry) <? ack_time) in
  if expired || (sample_min_rtt <? bbr_min_rtt b) || (bbr_min_rtt b =? 0) then
    let '(b, expired) := if expired && should_extend_min_rtt_expiry b then (b, false) else (b <| bbr_min_rtt := sample_min_rtt |>, expired) in
    let b := b <| bbr_min_rtt_timestamp := ack_time |> <| bbr_min_rtt_since_last_probe := UINT64_MAX |> in
    (bbr_clear_flag b BBR_FLAG_APP_LIMITED_SINCE_LAST_PROBE_RTT, expired)
  else (b, expired).

Definition maybe_exit_recovery (b : lsquic_bbr) : lsquic_bbr :=
  if negb (ba_has_losses (bbr_ack_state b)) && (bbr_end_recovery_at b <? ba_max_packno (bbr_ack_state b))
  then b <| bbr_recovery_state := BBR_RS_NOT_IN_RECOVERY |> else b.

Definition update_recovery_state (b : lsquic_bbr) (is_round_start : bool) : lsquic_bbr :=
  let b := if ba_has_losses (bbr_ack_state b) then b <| bbr_end_recovery_at := bbr_last_sent_packno b |> else b in
  match bbr_recovery_state b with
  | BBR_RS_NOT_IN_RECOVERY =>
    if ba_has_losses (bbr_ack_state b)
    then b <| bbr_recovery_state := BBR_RS_CONSERVATION |> <| bbr_recovery_window := 0 |> <| bbr_current_round_trip_end := bbr_last_sent_packno b |>
    else b
  | BBR_RS_CONSERVATION => maybe_exit_recovery (if is_round_start then b <| bbr_recovery_state := BBR_RS_GROWTH |> else b)
  | BBR_RS_GROWTH => maybe_exit_recovery b
  end.

Definition update_ack_aggregation_bytes (b : lsquic_bbr) (newly_acked_bytes : Z) : lsquic_bbr * Z :=
  let ack_time := ba_ack_time (bbr_ack_state b) in
  let expected_bytes_acked := u64 (minmax_get (bbr_max_bandwidth b) * u64 (ack_time - bbr_aggregation_epoch_start_time b)) in
  if bbr_aggregation_epoch_bytes b <=? expected_bytes_acked
  then (b <| bbr_aggregation_epoch_bytes := newly_acked_bytes |> <| bbr_aggregation_epoch_start_time := ack_time |>, 0)
  else
    let b := b <| bbr_aggregation_epoch_bytes := u64 (bbr_aggregation_epoch_bytes b + newly_acked_bytes) |> in
    let diff := u64 (bbr_aggregation_epoch_bytes b - expected_bytes_acked) in
    (b <| bbr_max_ack_height := lsquic_minmax_update_max (bbr_max_ack_height b) (bbr_round_count b) diff |>, diff).

Definition update_gain_cycle_phase (b : lsquic_bbr) (bytes_in_flight : Z) : option lsquic_bbr :=
  let now := ba_ack_time (bbr_ack_state b) in
  let advance := get_min_rtt b <? u64 (now - bbr_last_cycle_start b) in
  advance ← (if SFltb (flt 1) (bbr_pacing_gain b) && negb (ba_has_losses (bbr_ack_state b))
             then target ← get_target_cwnd b (bbr_pacing_gain b); Some (if ba_in_flight (bbr_ack_state b) <? target then false else advance)
             else Some advance);
  advance ← (if SFltb (bbr_pacing_gain b) (flt 1)
             then target ← get_target_cwnd b (flt 1); Some (if bytes_in_flight <=? target then true else advance)
             else Some advance);
  if advance : bool then
    let b := b <| bbr_cycle_current_offset := (bbr_cycle_current_offset b + 1) mod kGainCycleLength |> <| bbr_last_cycle_start := now |> in
    gain ← aget kPacingGain (bbr_cycle_current_offset b);
    stay ← (if flag b BBR_FLAG_DRAIN_TO_TARGET && SFltb (bbr_pacing_gain b) (flt 1) && SFeqb gain (flt 1)
            then target ← get_target_cwnd b (flt 1); Some (target <? bytes_in_flight) else Some false);
    Some (if stay : bool then b else b <| bbr_pacing_gain := gain |>)
  else Some b.

Definition check_if_full_bw_reached (b : lsquic_bbr) : option lsquic_bbr :=
  if flag b BBR_FLAG_LAST_SAMPLE_APP_LIMITED then Some b else
  target ← BW_TIMES_d (bbr_bw_at_last_round b) kStartupGrowthTarget;
  let bw := minmax_get (bbr_max_bandwidth b) in
  if target <=? bw then
    let b := b <| bbr_bw_at_last_round := bw |> <| bbr_round_wo_bw_gain := 0 |> in
    Some (if flag b BBR_FLAG_EXPIRE_ACK_AGG_IN_STARTUP
          then b <| bbr_max_ack_height := minmax_reset (bbr_max_ack_height b) (MS (bbr_round_count b) 0) |> else b)
  else
    let b := b <| bbr_round_wo_bw_gain := u32 (bbr_round_wo_bw_gain b + 1) |> in
    if (bbr_num_startup_rtts <=? bbr_round_wo_bw_gain b) || (flag b BBR_FLAG_EXIT_STARTUP_ON_LOSS && in_recovery b) then
      if flag b BBR_FLAG_HAS_NON_APP_LIMITED then Some (bbr_set_flag b BBR_FLAG_IS_AT_FULL_BANDWIDTH) else None
    else Some b.

(** [rand] is a random byte. *)
Definition enter_probe_bw_mode (b : lsquic_bbr) (rand now : Z) : option lsquic_bbr :=
  let b := (set_mode b BBR_MODE_PROBE_BW) <| bbr_cwnd_gain := kCwndGain |> in
  let offset := rand mod (kGainCycleLength - 1) in
  let offset := if 1 <=? offset then offset + 1 else offset in
  let b := b <| bbr_cycle_current_offset := offset |> <| bbr_last_cycle_start := now |> in
  gain ← aget kPacingGain offset;
  Some (b <| bbr_pacing_gain := gain |>).

Definition enter_startup_mode (b : lsquic_bbr) : lsquic_bbr := set_startup_values (set_mode b BBR_MODE_STARTUP).

Definition maybe_exit_startup_or_drain (b : lsquic_bbr) (rand now bytes_in_flight : Z) : option lsquic_bbr :=
  let b := if in_mode b BBR_MODE_STARTUP && flag b BBR_FLAG_IS_AT_FULL_BANDWIDTH
           then (set_mode b BBR_MODE_DRAIN) <| bbr_pacing_gain := bbr_drain_gain |> <| bbr_cwnd_gain := bbr_high_cwnd_gain |> else b in
  if in_mode b BBR_MODE_DRAIN then
    target ← get_target_cwnd b (flt 1);
    if bytes_in_flight <=? target then enter_probe_bw_mode b rand now else Some b
  else Some b.

(** The part that is run in PROBE_RTT mode. *)
Definition in_probe_rtt (b : lsquic_bbr) (rand now : Z) (is_round_start : bool) (bytes_in_flight : Z) : option lsquic_bbr :=
  let b := b <| bbr_bw_sampler := lsquic_bw_sampler_app_limited (bbr_bw_sampler b) |> in
  if bbr_exit_probe_rtt_at b =? 0 then
    cwnd ← get_probe_rtt_cwnd b;
    Some (if bytes_in_flight <? u64 (cwnd + kMaxOutgoingPacketSize)
          then bbr_clear_flag (b <| bbr_exit_probe_rtt_at := u64 (now + kProbeRttTime) |>) BBR_FLAG_PROBE_RTT_ROUND_PASSED else b)
  else
    let b := if is_round_start then bbr_set_flag b BBR_FLAG_PROBE_RTT_ROUND_PASSED else b in
    if (bbr_exit_probe_rtt_at b <=? now) && flag b BBR_FLAG_PROBE_RTT_ROUND_PASSED then
      let b := b <| bbr_min_rtt_timestamp := now |> in
      if negb (flag b BBR_FLAG_IS_AT_FULL_BANDWIDTH) then Some (enter_startup_mode b) else enter_probe_bw_mode b rand now
    else Some b.

Definition maybe_enter_or_exit_probe_rtt (b : lsquic_bbr) (rand now : Z) (is_round_start min_rtt_expired : bool) (bytes_in_flight : Z) : option lsquic_bbr :=
  let b := if min_rtt_expired && negb (flag b BBR_FLAG_EXITING_QUIESCENCE) && negb (in_mode b BBR_MODE_PROBE_RTT)
           then (set_mode b BBR_MODE_PROBE_RTT) <| bbr_pacing_gain := flt 1 |> <| bbr_exit_probe_rtt_at := 0 |> else b in
  b ← (if in_mode b BBR_MODE_PROBE_RTT then in_probe_rtt b rand now is_round_start bytes_in_flight else Some b);
  Some (bbr_clear_flag b BBR_FLAG_EXITING_QUIESCENCE).

(** The branch for [startup_rate_reduction_multiplier_], which is zero, is dead. *)
Definition calculate_pacing_rate (b : lsquic_bbr) : option lsquic_bbr :=
  let bw := minmax_get (bbr_max_bandwidth b) in
  if bw =? 0 then Some b else
  target_rate ← BW_TIMES bw (bbr_pacing_gain b);
  if flag b BBR_FLAG_IS_AT_FULL_BANDWIDTH then Some (b <| bbr_pacing_rate := target_rate |>)
  else if (bbr_pacing_rate b =? 0) && negb (stats_min_rtt =? 0) then
    Some (b <| bbr_pacing_rate := BW_FROM_BYTES_AND_DELTA bbr_init_cwnd stats_min_rtt |>)
  else if negb (bbr_end_recovery_at b =? 0) && (flag b BBR_FLAG_SLOWER_STARTUP && flag b BBR_FLAG_HAS_NON_APP_LIMITED) then
    rate ← BW_TIMES bw kStartupAfterLossGain; Some (b <| bbr_pacing_rate := rate |>)
  else if bbr_pacing_rate b <? target_rate then Some (b <| bbr_pacing_rate := target_rate |>)
  else Some b.

Definition calculate_cwnd (b : lsquic_bbr) (bytes_acked excess_acked : Z) : option lsquic_bbr :=
  if in_mode b BBR_MODE_PROBE_RTT then Some b else
  target_window ← get_target_cwnd b (bbr_cwnd_gain b);
  let target_window :=
    if flag b BBR_FLAG_IS_AT_FULL_BANDWIDTH then u64 (target_window + minmax_get (bbr_max_ack_height b))
    else if flag b BBR_FLAG_ENABLE_ACK_AGG_IN_STARTUP then u64 (target_window + excess_acked) else target_window in
  let b :=
    if flag b BBR_FLAG_IS_AT_FULL_BANDWIDTH then b <| bbr_cwnd := Z.min target_window (u64 (bbr_cwnd b + bytes_acked)) |>
    else if (bbr_cwnd b <? target_window) || (bws_total_acked (bbr_bw_sampler b) <? bbr_init_cwnd)
    then b <| bbr_cwnd := u64 (bbr_cwnd b + bytes_acked) |> else b in
  Some (if bbr_cwnd b <? bbr_min_cwnd then b <| bbr_cwnd := bbr_min_cwnd |>
        else if bbr_max_cwnd <? bbr_cwnd b then b <| bbr_cwnd := bbr_max_cwnd |> else b).

Definition calculate_recovery_window (b : lsquic_bbr) (bytes_acked bytes_lost bytes_in_flight : Z) : lsquic_bbr :=
  if flag b BBR_FLAG_RATE_BASED_STARTUP && in_mode b BBR_MODE_STARTUP then b
  else if negb (in_recovery b) then b
  else if bbr_recovery_window b =? 0 then b <| bbr_recovery_window := Z.max bbr_min_cwnd (u64 (bytes_in_flight + bytes_acked)) |>
  else
    let w := if bytes_lost <=? bbr_recovery_window b then bbr_recovery_window b - bytes_lost else kMaxSegmentSize in
    let w := if bool_decide (bbr_recovery_state b = BBR_RS_GROWTH) then u64 (w + bytes_acked) else w in
    let w := Z.max w (u64 (bytes_in_flight + bytes_acked)) in
    b <| bbr_recovery_window := Z.max w bbr_min_cwnd |>.

(** The model of the path: the round, the samples, recovery and aggregation. *)
Definition update_model (b : lsquic_bbr) (bytes_acked : Z) : lsquic_bbr * bool * bool * Z :=
  if negb (ba_acked_bytes (bbr_ack_state b) =? 0) then
    let is_round_start := (bbr_current_round_trip_end b <? ba_max_packno (bbr_ack_state b)) || negb (is_valid_packno (bbr_current_round_trip_end b)) in
    let b := if is_round_start then b <| bbr_round_count := u64 (bbr_round_count b + 1) |> <| bbr_current_round_trip_end := bbr_last_sent_packno b |> else b in
    let '(b, min_rtt_expired) := update_bandwidth_and_min_rtt b in
    let b := update_recovery_state b is_round_start in
    let '(b, excess_acked) := update_ack_aggregation_bytes b bytes_acked in
    (b, is_round_start, min_rtt_expired, excess_acked)
  else (b, false, false, 0).

Definition lsquic_bbr_end_ack (b : lsquic_bbr) (rand in_flight : Z) : option lsquic_bbr :=
  if negb (flag b BBR_FLAG_IN_ACK) then None else
  let b := bbr_clear_flag b BBR_FLAG_IN_ACK in
  let bytes_acked := u64 (bws_total_acked (bbr_bw_sampler b) - ba_total_bytes_acked_before (bbr_ack_state b)) in
  let '(b, is_round_start, min_rtt_expired, excess_acked) := update_model b bytes_acked in
  b ← (if in_mode b BBR_MODE_PROBE_BW then update_gain_cycle_phase b in_flight else Some b);
  b ← (if is_round_start && negb (flag b BBR_FLAG_IS_AT_FULL_BANDWIDTH) then check_if_full_bw_reached b else Some b);
  let now := ba_ack_time (bbr_ack_state b) in
  b ← maybe_exit_startup_or_drain b rand now in_flight;
  b ← maybe_enter_or_exit_probe_rtt b rand now is_round_start min_rtt_expired in_flight;
  b ← calculate_pacing_rate b;
  b ← calculate_cwnd b bytes_acked excess_acked;
  Some (calculate_recovery_window b bytes_acked (ba_lost_bytes (bbr_ack_state b)) in_flight).

End bbr.
