(* ===== verification/BbrThms.v ===== *)
(** Theorems on BBR: every conversion and assertion is safe, the window stays within
    its limits, gains and flags match the mode. *)
From Stdlib Require Import SpecFloat.
From S2P Require Import Prelude Art Timing Binary BwSampler Bbr.
From coqutil Require Import Datatypes.RecordSettersUsingExistingGetters.
Local Open Scope Z_scope.

(** ** Gains *)

Definition gain_ok (g : float) : Prop := at_most g (-30) 2.

Local Ltac gain := unfold gain_ok, at_most; first [left; eexists; vm_compute; reflexivity|right; eexists _, _; split; [vm_compute; reflexivity|]; split; [lia|vm_compute; discriminate]].

Lemma high_gain_ok : gain_ok kDefaultHighGain.
Proof. gain. Qed.
Lemma drain_gain_ok : gain_ok bbr_drain_gain.
Proof. gain. Qed.
Lemma one_gain_ok : gain_ok (flt 1).
Proof. gain. Qed.
Lemma cwnd_gain_ok : gain_ok kCwndGain.
Proof. gain. Qed.
Lemma pipe_gain_ok : gain_ok (fconst 15 10) /\ gain_ok (fconst 11 10).
Proof. split; gain. Qed.
Lemma probe_gain_ok : gain_ok kModerateProbeRttMultiplier /\ gain_ok kStartupAfterLossGain.
Proof. split; gain. Qed.

Lemma cycle_gain_ok i g : aget kPacingGain i = Some g -> gain_ok g.
Proof.
  intros [_ H]%aget_Some. revert H. generalize (Z.to_nat i). intros n. do 8 (destruct n as [|n]; [intros [= <-]; gain|]). done.
Qed.

#[local] Hint Resolve high_gain_ok drain_gain_ok one_gain_ok cwnd_gain_ok cycle_gain_ok : core.

Lemma times_ok bw g : 0 <= bw < 2 ^ 60 -> gain_ok g -> exists v, BW_TIMES bw g = Some v /\ 0 <= v < 2 ^ 64.
Proof.
  intros Hb Hg. unfold BW_TIMES. apply (at_most_u64 _ (-24 + -30) (60 + 2 + 1)); [|lia]. apply fmul_mag; [apply flt_mag; lia|done|lia|lia].
Qed.

Lemma growth_ok bw : 0 <= bw < 2 ^ 60 -> exists v, BW_TIMES_d bw kStartupGrowthTarget = Some v /\ 0 <= v < 2 ^ 64 /\ (bw = 0 -> v = 0).
Proof.
  intros Hb. unfold BW_TIMES_d. destruct (at_most_u64 (dmul (dbl bw) kStartupGrowthTarget) (-53 + -53) (60 + 1 + 1)) as (v & E & Hv); [|lia|].
  - apply (mul_mag 53 1024); try lia.
    + apply (normalize_mag 53 1024); lia.
    + right. eexists _, _. split; [vm_compute; reflexivity|]. split; [lia|vm_compute; discriminate].
  - exists v. split; [done|]. split; [done|]. intros ->. vm_compute in E. congruence.
Qed.

Section bbr.
Context (stats_min_rtt : Z).

Lemma target_ok b g : gain_ok g -> exists t, get_target_cwnd stats_min_rtt b g = Some t /\ bbr_min_cwnd <= t < 2 ^ 64.
Proof using.
  intros Hg. unfold get_target_cwnd. set (bdp := u64 _ / 1000000).
  assert (Hbdp : 0 <= bdp < 2 ^ 45).
  { unfold bdp. match goal with |- context [u64 ?x] => pose proof (wrapu_range 64 x ltac:(lia)) as Hr end. unfold is_u in Hr.
    split; [apply Z.div_pos; lia|apply Z.div_lt_upper_bound; lia]. }
  assert (Hmul : forall z, 0 <= z < 2 ^ 45 -> exists v, u64_of_float (fmul g (flt z)) = Some v /\ 0 <= v < 2 ^ 64).
  { intros z Hz. apply (at_most_u64 _ (-30 + -24) (2 + 45 + 1)); [|lia]. apply fmul_mag; [done|apply flt_mag; lia|lia|lia]. }
  destruct (Hmul bdp Hbdp) as (v & -> & Hv). cbn [mbind option_bind].
  destruct (Hmul bbr_init_cwnd ltac:(unfold bbr_init_cwnd, kDefaultTCPMSS; lia)) as (w & Ew & Hw). rewrite Ew. unfold bbr_min_cwnd, kDefaultTCPMSS.
  destruct (v =? 0); cbn [mbind option_bind]; eexists; (split; [done|]); lia.
Qed.

(** ** The invariant *)

Definition fbit (b : lsquic_bbr) (i : Z) : bool := Z.testbit (bbr_flags b) i.

(** Flags that are options, of which none is set. *)
Definition options : list Z := [4; 5; 6; 8; 10; 11; 12; 13; 14; 15; 16].

Definition value_ok (v : Z) : Prop := 0 <= v < 2 ^ 60.
Definition mm_values (m : minmax) (P : Z -> Prop) : Prop := P (ms_value (mm_0 m)) /\ P (ms_value (mm_1 m)) /\ P (ms_value (mm_2 m)).

Definition sample_ok (sa : bw_sample) : Prop := value_ok (sa_bandwidth sa) /\ 0 <= sa_rtt sa.

(** A sample was taken. *)
Definition seen (b : lsquic_bbr) : Prop := fbit b 1 = true \/ fbit b 2 = true.

Record binv (b : lsquic_bbr) : Prop := {
  bi_options : Forall (fun i => fbit b i = false) options;
  bi_full : bbr_mode b = BBR_MODE_DRAIN \/ bbr_mode b = BBR_MODE_PROBE_BW -> fbit b 7 = true;
  bi_cwnd : bbr_min_cwnd <= bbr_cwnd b <= bbr_max_cwnd;
  bi_window : in_recovery b = true -> bbr_recovery_window b = 0 \/ bbr_min_cwnd <= bbr_recovery_window b;
  bi_gains : match bbr_mode b with
             | BBR_MODE_STARTUP => bbr_pacing_gain b = bbr_high_gain /\ bbr_cwnd_gain b = bbr_high_cwnd_gain
             | BBR_MODE_DRAIN => bbr_pacing_gain b = bbr_drain_gain /\ bbr_cwnd_gain b = bbr_high_cwnd_gain
             | BBR_MODE_PROBE_BW => aget kPacingGain (bbr_cycle_current_offset b) = Some (bbr_pacing_gain b) /\ bbr_cwnd_gain b = kCwndGain
             | BBR_MODE_PROBE_RTT => bbr_pacing_gain b = flt 1 /\ (bbr_cwnd_gain b = bbr_high_cwnd_gain \/ bbr_cwnd_gain b = kCwndGain)
             end;
  bi_bw : mm_values (bbr_max_bandwidth b) value_ok;
  bi_seen : seen b \/ mm_values (bbr_max_bandwidth b) (fun v => v = 0);
  bi_last : value_ok (bbr_bw_at_last_round b) /\ (bbr_bw_at_last_round b <> 0 -> fbit b 2 = true);
  bi_samples : Forall sample_ok (ba_samples (bbr_ack_state b));
  bi_rtt : 0 <= bbr_min_rtt b
}.

Lemma flag_bit b i : 0 <= i -> flag b (Z.shiftl 1 i) = fbit b i.
Proof using. intros Hi. unfold flag, fbit. rewrite Z.shiftl_1_l. by apply has_bit. Qed.

Lemma option_off b f i : binv b -> f = Z.shiftl 1 i -> i ∈ options -> 0 <= i -> flag b f = false.
Proof using. intros H -> Hi H0. rewrite flag_bit by done. pose proof (bi_options _ H) as Ho. rewrite Forall_forall in Ho. by apply Ho. Qed.

Ltac off H f i := rewrite (option_off _ f i H eq_refl ltac:(unfold options; set_solver) ltac:(lia)).

Lemma gains_ok b : binv b -> gain_ok (bbr_pacing_gain b) /\ gain_ok (bbr_cwnd_gain b).
Proof using.
  intros H. pose proof (bi_gains _ H) as Hg. destruct (bbr_mode b).
  - destruct Hg as [-> ->]. unfold bbr_high_gain, bbr_high_cwnd_gain. auto.
  - destruct Hg as [-> ->]. unfold bbr_high_cwnd_gain. auto.
  - destruct Hg as [Hg ->]. eauto.
  - destruct Hg as [-> [->| ->]]; unfold bbr_high_cwnd_gain; auto.
Qed.

Lemma bit_set b f i : fbit (bbr_set_flag b f) i = fbit b i || Z.testbit f i.
Proof using. apply Z.lor_spec. Qed.

Lemma bit_clear b f i : fbit (bbr_clear_flag b f) i = fbit b i && negb (Z.testbit f i).
Proof using. apply Z.ldiff_spec. Qed.

(** A flag that is no option is set; one that the invariant does not mention cleared. *)
Lemma set_inv b f : binv b -> Forall (fun i => Z.testbit f i = false) options -> binv (bbr_set_flag b f).
Proof using.
  intros [A B C D E F G H I J] Hf. split; try done.
  - rewrite Forall_forall in A, Hf |- *. intros i Hi. by rewrite bit_set, A, Hf.
  - intros Hm. rewrite bit_set. by rewrite B.
  - destruct G as [[G|G]|G]; [left; left|left; right|by right]; by rewrite bit_set, G.
  - split; [apply H|]. intros Hn. rewrite bit_set. by rewrite (proj2 H Hn).
Qed.

Lemma clear_inv b f : binv b -> Z.testbit f 1 = false -> Z.testbit f 2 = false -> Z.testbit f 7 = false -> binv (bbr_clear_flag b f).
Proof using.
  intros [A B C D E F G H I J] H1 H2 H7. split; try done.
  - rewrite Forall_forall in A |- *. intros i Hi. by rewrite bit_clear, A.
  - intros Hm. rewrite bit_clear, B, H7; done.
  - destruct G as [[G|G]|G]; [left; left|left; right|by right]; by rewrite bit_clear, G, ?H1, ?H2.
  - split; [apply H|]. intros Hn. rewrite bit_clear, (proj2 H Hn), H2. done.
Qed.

(** ** Functions that compute *)

Lemma rate_ok usecs : 0 <= usecs -> value_ok (BW_FROM_BYTES_AND_DELTA bbr_init_cwnd usecs).
Proof using.
  intros Hu. unfold BW_FROM_BYTES_AND_DELTA, value_ok. change (u64 (u64 (bbr_init_cwnd * 8) * 1000000)) with 373760000000.
  destruct (Z.eq_dec usecs 0) as [->|Hne]; [rewrite Z.div_0_r; lia|]. split; [apply Z.div_pos; lia|apply Z.div_lt_upper_bound; lia].
Qed.

Lemma pacing_rate_ok b : 0 <= stats_min_rtt -> binv b -> exists r, lsquic_bbr_pacing_rate stats_min_rtt b = Some r.
Proof using.
  intros Hs H. unfold lsquic_bbr_pacing_rate. destruct (negb _); cbn [mbind option_bind]; [by eexists|].
  destruct (times_ok (BW_FROM_BYTES_AND_DELTA bbr_init_cwnd (get_min_rtt stats_min_rtt b)) bbr_high_cwnd_gain) as (v & -> & _); [|apply high_gain_ok|by eexists].
  apply rate_ok. pose proof (bi_rtt _ H). unfold get_min_rtt. destruct (negb _); [done|]. destruct (_ =? 0); [lia|done].
Qed.

Lemma probe_cwnd_eq b : binv b -> get_probe_rtt_cwnd stats_min_rtt b = Some bbr_min_cwnd.
Proof using. intros H. unfold get_probe_rtt_cwnd. by off H BBR_FLAG_PROBE_RTT_BASED_ON_BDP 13. Qed.

(** The window is never below four packets and never above two thousand. *)
Lemma get_cwnd_ok b : binv b -> (in_recovery b = true -> bbr_min_cwnd <= bbr_recovery_window b) ->
  exists w, lsquic_bbr_get_cwnd stats_min_rtt b = Some w /\ bbr_min_cwnd <= w <= bbr_max_cwnd.
Proof using.
  intros H Hw. pose proof (bi_cwnd _ H) as Hc. unfold lsquic_bbr_get_cwnd. rewrite (probe_cwnd_eq b H). destruct (in_mode b _).
  - exists bbr_min_cwnd. split; [done|]. unfold bbr_min_cwnd, bbr_max_cwnd, kDefaultTCPMSS. lia.
  - destruct (in_recovery b) eqn:Er; cbn [andb]; [destruct (negb _)|]; eexists; (split; [done|]); [|lia|lia]. specialize (Hw eq_refl). lia.
Qed.

Lemma app_limited_ok b n : binv b -> exists b', bbr_app_limited stats_min_rtt b n = Some b' /\ binv b' /\ bbr_ack_state b' = bbr_ack_state b /\
  bbr_mode b' = bbr_mode b /\ bbr_recovery_state b' = bbr_recovery_state b /\ bbr_recovery_window b' = bbr_recovery_window b /\ (forall i, i <> 3 -> 0 <= i -> fbit b' i = fbit b i) /\
  (bbr_bw_sampler b' = bbr_bw_sampler b \/ bbr_bw_sampler b' = lsquic_bw_sampler_app_limited (bbr_bw_sampler b)).
Proof using.
  intros H. unfold bbr_app_limited.
  assert (exists w, lsquic_bbr_get_cwnd stats_min_rtt b = Some w) as [w ->].
  { unfold lsquic_bbr_get_cwnd. rewrite (probe_cwnd_eq b H). destruct (in_mode b _); [by eexists|]. by destruct (_ && _); eexists. }
  cbn [mbind option_bind]. destruct (w <=? n); [exists b; split_and!; auto|]. off H BBR_FLAG_FLEXIBLE_APP_LIMITED 10. cbn [mbind option_bind].
  eexists. split; [done|]. assert (H' : binv (bbr_set_flag b BBR_FLAG_APP_LIMITED_SINCE_LAST_PROBE_RTT)) by (apply set_inv; [done|repeat constructor]).
  split; [by destruct H'; split|]. split_and!; try done; [|by right]. intros i Hi H0. unfold fbit. cbn. unfold const. rewrite Z.lor_spec.
  unfold BBR_FLAG_APP_LIMITED_SINCE_LAST_PROBE_RTT. rewrite Z.shiftl_1_l, Z.pow2_bits_eqb by lia. replace (3 =? i) with false by lia. by rewrite orb_false_r.
Qed.

(** ** The model of the path *)

Lemma update_values P m now v : mm_values m P -> P v -> mm_values (lsquic_minmax_update_max m now v) P.
Proof using.
  intros (A & B & C) Hv. unfold lsquic_minmax_update_max, minmax_update, minmax_subwin_update, outdated, minmax_reset, mm_values.
  repeat match goal with |- context [if ?x then _ else _] => destruct x end; cbn; done.
Qed.

Lemma take_sample_ok b r sa : binv b -> sample_ok sa -> 0 <= r -> let '(b', r') := take_sample b r sa in
  binv b' /\ 0 <= r' /\ bbr_ack_state b' = bbr_ack_state b /\ bbr_mode b' = bbr_mode b /\ bbr_bw_sampler b' = bbr_bw_sampler b /\ fbit b' 7 = fbit b 7.
Proof using.
  intros H [Hv Hr] H0. unfold take_sample. set (b1 := if sa_is_app_limited sa then _ else _).
  assert (H1 : binv b1 /\ seen b1).
  { unfold b1. destruct (sa_is_app_limited sa).
    - split; [apply set_inv; [done|repeat constructor]|]. left. by rewrite bit_set, orb_true_r.
    - split; [|right; by rewrite bit_set, orb_true_r]. destruct H as [A B C D E F G K I J]. split; try done.
      + rewrite Forall_forall in A |- *. intros i Hi. rewrite bit_set, bit_clear, A by done. cbn [andb orb].
        unfold options in Hi. rewrite !elem_of_cons, elem_of_nil in Hi. destruct_or? Hi; subst; done.
      + intros Hm. rewrite bit_set, bit_clear, B by done. done.
      + left. right. by rewrite bit_set, orb_true_r.
      + split; [apply K|]. intros _. by rewrite bit_set, orb_true_r. }
  destruct H1 as [H1 Hseen]. assert (E1 : bbr_ack_state b1 = bbr_ack_state b /\ bbr_mode b1 = bbr_mode b /\ bbr_bw_sampler b1 = bbr_bw_sampler b /\ fbit b1 7 = fbit b 7).
  { unfold b1. destruct (sa_is_app_limited sa); split_and!; try done; rewrite ?bit_set, ?bit_clear; cbn; by rewrite ?andb_true_r, orb_false_r. }
  assert (Hr' : 0 <= (if (r =? UINT64_MAX) || (sa_rtt sa <? r) then sa_rtt sa else r)) by (by destruct (_ || _)).
  destruct (_ || (minmax_get _ <? _)); [|done]. split; [|done]. destruct H1 as [A B C D E F G K I J]. split; try done.
  - by apply update_values.
  - by left.
Qed.

Lemma take_samples_ok l : forall b r, binv b -> Forall sample_ok l -> 0 <= r -> let '(b', r') := take_samples b r l in
  binv b' /\ 0 <= r' /\ bbr_ack_state b' = bbr_ack_state b /\ bbr_mode b' = bbr_mode b /\ bbr_bw_sampler b' = bbr_bw_sampler b /\ fbit b' 7 = fbit b 7.
Proof using.
  induction l as [|sa l IH]; intros b r H Hl H0; cbn [take_samples]; [done|]. apply Forall_cons in Hl as [Hsa Hl].
  pose proof (take_sample_ok b r sa H Hsa H0) as Hs. destruct (take_sample b r sa) as [b1 r1]. destruct Hs as (A & B & C & D & E & F).
  specialize (IH b1 r1 A Hl B). destruct (take_samples b1 r1 l) as [b2 r2]. destruct IH as (A' & B' & C' & D' & E' & F'). split_and!; congruence || done.
Qed.

(** What the stages of [lsquic_bbr_end_ack] keep. *)
Definition stays (b b' : lsquic_bbr) : Prop :=
  binv b' /\ ba_ack_time (bbr_ack_state b') = ba_ack_time (bbr_ack_state b) /\ bbr_bw_sampler b' = bbr_bw_sampler b /\ (fbit b 7 = true -> fbit b' 7 = true).

Lemma stays_refl b : binv b -> stays b b.
Proof using. by intros H. Qed.

Lemma stays_trans b b1 b2 : stays b b1 -> stays b1 b2 -> stays b b2.
Proof using. intros (A & B & C & D) (A' & B' & C' & D'). split_and!; [done|congruence|congruence|auto]. Qed.

Lemma update_bandwidth_ok b : binv b -> let '(b', _) := update_bandwidth_and_min_rtt b in
  stays b b' /\ bbr_mode b' = bbr_mode b /\ fbit b' 7 = fbit b 7.
Proof using.
  intros H. unfold update_bandwidth_and_min_rtt.
  pose proof (take_samples_ok (ba_samples (bbr_ack_state b)) b UINT64_MAX H (bi_samples _ H) ltac:(unfold UINT64_MAX; lia)) as Ht.
  destruct (take_samples b UINT64_MAX _) as [b1 r]. destruct Ht as (H1 & Hr & Ea & Em & Es & E7).
  set (b2 := b1 <| bbr_ack_state := _ |>). assert (H2 : binv b2) by (destruct H1 as [A B C D E F G K I J]; split; try done; by constructor).
  assert (Et : ba_ack_time (bbr_ack_state b2) = ba_ack_time (bbr_ack_state b)) by (cbn; unfold const; by rewrite Ea).
  assert (S2 : stays b b2) by (split_and!; [done|done|exact Es|intros X; change (fbit b1 7 = true); by rewrite E7]).
  destruct (r =? UINT64_MAX); [split; [exact S2|split; [exact Em|exact E7]]|]. cbv zeta. set (b3 := b2 <| bbr_min_rtt_since_last_probe := _ |>). assert (H3 : binv b3) by (by destruct H2; split).
  destruct (_ || (bbr_min_rtt b3 =? 0)); [|split; [split; [exact H3|exact (proj2 S2)]|split; [exact Em|exact E7]]].
  assert (Hfin : forall b4, binv b4 -> bbr_ack_state b4 = bbr_ack_state b2 -> bbr_bw_sampler b4 = bbr_bw_sampler b2 -> bbr_mode b4 = bbr_mode b2 -> bbr_flags b4 = bbr_flags b2 ->
    let b' := bbr_clear_flag (b4 <| bbr_min_rtt_timestamp := ba_ack_time (bbr_ack_state b3) |> <| bbr_min_rtt_since_last_probe := UINT64_MAX |>) BBR_FLAG_APP_LIMITED_SINCE_LAST_PROBE_RTT in
    stays b b' /\ bbr_mode b' = bbr_mode b /\ fbit b' 7 = fbit b 7).
  { intros b4 H4 Ea4 Es4 Em4 Ef4. cbv zeta. set (b5 := b4 <| bbr_min_rtt_timestamp := _ |> <| bbr_min_rtt_since_last_probe := _ |>).
    assert (H5 : binv b5) by (by destruct H4; split). assert (E7' : fbit (bbr_clear_flag b5 BBR_FLAG_APP_LIMITED_SINCE_LAST_PROBE_RTT) 7 = fbit b 7).
    { rewrite bit_clear. change (fbit b5 7) with (fbit b4 7). unfold fbit at 1. rewrite Ef4. change (fbit b1 7 && true = fbit b 7). by rewrite andb_true_r. }
    split; [|split; [change (bbr_mode b4 = bbr_mode b); rewrite Em4; exact Em|done]].
    split_and!; [by apply clear_inv|change (ba_ack_time (bbr_ack_state b4) = ba_ack_time (bbr_ack_state b)); by rewrite Ea4
      |change (bbr_bw_sampler b4 = bbr_bw_sampler b); rewrite Es4; exact Es|by rewrite E7']. }
  destruct (_ && _); apply Hfin; try done. by destruct H3; split.
Qed.

Lemma recovery_ok b r : binv b -> stays b (update_recovery_state b r) /\ bbr_mode (update_recovery_state b r) = bbr_mode b /\ fbit (update_recovery_state b r) 7 = fbit b 7.
Proof using.
  intros H. unfold update_recovery_state. set (b1 := if ba_has_losses _ then _ else b).
  assert (H1 : stays b b1 /\ bbr_mode b1 = bbr_mode b /\ bbr_flags b1 = bbr_flags b /\ bbr_recovery_state b1 = bbr_recovery_state b).
  { unfold b1. destruct (ba_has_losses _); [|split; [by apply stays_refl|done]]. split; [|done]. split_and!; try done. by destruct H; split. }
  destruct H1 as (S1 & Em & Ef & Er). assert (E7 : fbit b1 7 = fbit b 7) by (unfold fbit; by rewrite Ef). clearbody b1.
  assert (Hexit : forall b2, stays b1 b2 -> bbr_mode b2 = bbr_mode b1 -> bbr_flags b2 = bbr_flags b1 -> stays b (maybe_exit_recovery b2) /\ bbr_mode (maybe_exit_recovery b2) = bbr_mode b /\ fbit (maybe_exit_recovery b2) 7 = fbit b 7).
  { intros b2 S2 Em2 Ef2. assert (fbit b2 7 = fbit b 7) as E72 by (unfold fbit in *; by rewrite Ef2). unfold maybe_exit_recovery. destruct (_ && _); [|split; [by apply (stays_trans b b1)|split; [congruence|done]]].
    split; [|split; [cbn; congruence|done]]. apply (stays_trans b b1); [done|]. destruct S2 as ([A B C D E F G K I J] & X). split; [split; try done|]. exact X. }
  destruct (bbr_recovery_state b1) eqn:Ers.
  - destruct (ba_has_losses _); [|split; [exact S1|split; [exact Em|exact E7]]]. split; [|split; [exact Em|exact E7]]. apply (stays_trans b b1); [done|]. destruct S1 as ([A B C D E F G K I J] & _).
    split_and!; try done. split; try done. intros _. by left.
  - apply Hexit; [|by destruct r|by destruct r]. destruct r; [|apply stays_refl, S1]. destruct S1 as ([A B C D E F G K I J] & _). split_and!; try done. split; try done.
    intros _. apply D. unfold in_recovery. rewrite Ers. done.
  - apply Hexit; [apply stays_refl, S1|done|done].
Qed.

Lemma aggregation_ok b n : binv b -> let '(b', _) := update_ack_aggregation_bytes b n in stays b b' /\ bbr_mode b' = bbr_mode b /\ bbr_flags b' = bbr_flags b.
Proof using.
  intros H. unfold update_ack_aggregation_bytes. destruct (_ <=? _); (split; [|done]); split_and!; try done; by destruct H; split.
Qed.

Lemma update_model_ok b n : binv b -> let '(b', _, _, _) := update_model b n in stays b b' /\ bbr_mode b' = bbr_mode b /\ fbit b' 7 = fbit b 7.
Proof using.
  intros H. unfold update_model. destruct (negb _); [|by split; [apply stays_refl|]]. set (r := _ || negb (is_valid_packno _)). set (b1 := if r then _ else b).
  assert (H1 : binv b1 /\ bbr_ack_state b1 = bbr_ack_state b /\ bbr_bw_sampler b1 = bbr_bw_sampler b /\ bbr_mode b1 = bbr_mode b /\ bbr_flags b1 = bbr_flags b).
  { unfold b1. destruct r; [|by split_and!]. split; [by destruct H; split|done]. }
  destruct H1 as (H1 & Ea & Es & Em & Ef). assert (S1 : stays b b1) by (unfold stays, fbit; rewrite Ea, Ef; by split_and!).
  pose proof (update_bandwidth_ok b1 H1) as Hb. destruct (update_bandwidth_and_min_rtt b1) as [b2 x]. destruct Hb as (S2 & Em2 & E72).
  destruct (recovery_ok b2 r (proj1 S2)) as (S3 & Em3 & E73). pose proof (aggregation_ok (update_recovery_state b2 r) n (proj1 S3)) as Hg.
  destruct (update_ack_aggregation_bytes _ n) as [b4 y]. destruct Hg as (S4 & Em4 & E4). split; [|split; [congruence|]].
  - apply (stays_trans b b1), (stays_trans b1 b2), (stays_trans b2 (update_recovery_state b2 r)); done.
  - unfold fbit in *. rewrite E4, E73, E72. by rewrite Ef.
Qed.

(** ** Modes *)

Lemma cycle_Some i : 0 <= i < 8 -> exists g, aget kPacingGain i = Some g.
Proof using. intros Hi. apply aget_is_Some. cbn. lia. Qed.

Lemma gain_cycle_ok b n : binv b -> bbr_mode b = BBR_MODE_PROBE_BW ->
  exists b', update_gain_cycle_phase stats_min_rtt b n = Some b' /\ stays b b' /\ bbr_mode b' = BBR_MODE_PROBE_BW.
Proof using.
  intros H Hm. unfold update_gain_cycle_phase. destruct (gains_ok b H) as [Hg _].
  assert (Hadv : forall (x : bool) (c : bool) g k, gain_ok g -> exists y : bool, (if c then target ← get_target_cwnd stats_min_rtt b g; Some (k target) else Some x) = Some y).
  { intros x c g k Hgk. destruct c; [|by exists x]. destruct (target_ok b g Hgk) as (t & -> & _). by eexists. }
  destruct (Hadv (get_min_rtt stats_min_rtt b <? u64 (ba_ack_time (bbr_ack_state b) - bbr_last_cycle_start b))
    (SFltb (flt 1) (bbr_pacing_gain b) && negb (ba_has_losses (bbr_ack_state b))) (bbr_pacing_gain b) (fun target => if ba_in_flight (bbr_ack_state b) <? target then false else
      get_min_rtt stats_min_rtt b <? u64 (ba_ack_time (bbr_ack_state b) - bbr_last_cycle_start b)) Hg) as (y & ->). cbn [mbind option_bind].
  destruct (Hadv y (SFltb (bbr_pacing_gain b) (flt 1)) (flt 1) (fun target => if n <=? target then true else y) one_gain_ok) as (z & ->). cbn [mbind option_bind].
  destruct z; [|exists b; split; [done|]; by split; [apply stays_refl|]].
  set (b1 := b <| bbr_cycle_current_offset := _ |> <| bbr_last_cycle_start := _ |>).
  destruct (cycle_Some (bbr_cycle_current_offset b1)) as (g & Eg); [cbn; apply Z.mod_pos_bound; unfold kGainCycleLength; lia|]. rewrite Eg. cbn [mbind option_bind].
  change (flag b1 BBR_FLAG_DRAIN_TO_TARGET) with (flag b BBR_FLAG_DRAIN_TO_TARGET). off H BBR_FLAG_DRAIN_TO_TARGET 11. cbn [andb mbind option_bind].
  eexists. split; [done|]. split; [|exact Hm]. destruct H as [A B C D E F G K I J]. split_and!; try done. split; try done. rewrite Hm in E.
  cbn. rewrite Hm. split; [exact Eg|apply E].
Qed.

Lemma check_full_ok b : binv b -> exists b', check_if_full_bw_reached b = Some b' /\ stays b b' /\ bbr_mode b' = bbr_mode b.
Proof using.
  intros H. unfold check_if_full_bw_reached. unfold BBR_FLAG_LAST_SAMPLE_APP_LIMITED. rewrite flag_bit by lia.
  destruct (fbit b 1) eqn:E1; [exists b; split; [done|]; by split; [apply stays_refl|]|].
  destruct (bi_last _ H) as [Hv Hnz]. destruct (growth_ok (bbr_bw_at_last_round b) Hv) as (t & -> & Ht & Hz). cbn [mbind option_bind].
  destruct (bi_bw _ H) as (Hb0 & _). destruct (Z.leb_spec t (minmax_get (bbr_max_bandwidth b))) as [Hle|Hgt].
  - set (b1 := b <| bbr_bw_at_last_round := _ |> <| bbr_round_wo_bw_gain := _ |>).
    change (flag b1 BBR_FLAG_EXPIRE_ACK_AGG_IN_STARTUP) with (flag b BBR_FLAG_EXPIRE_ACK_AGG_IN_STARTUP). off H BBR_FLAG_EXPIRE_ACK_AGG_IN_STARTUP 12.
    exists b1. split; [done|]. split; [|done]. destruct H as [A B C D E F G K I J]. split_and!; try done. split; try done. split; [exact Hb0|]. intros Hn.
    destruct G as [[G|G]|(G & _)]; [congruence|exact G|]. exfalso. by apply Hn.
  - set (b1 := b <| bbr_round_wo_bw_gain := _ |>). assert (H1 : binv b1) by (by destruct H; split).
    destruct (_ || _); [|exists b1; split; [done|]; split; [by split_and!|done]]. unfold BBR_FLAG_HAS_NON_APP_LIMITED. rewrite flag_bit by lia.
    assert (fbit b1 2 = true) as ->.
    { apply Hnz. intros E0. specialize (Hz E0). unfold minmax_get in Hgt. destruct Hb0. lia. }
    eexists. split; [done|]. split; [|done]. split_and!; [apply set_inv; [done|repeat constructor]|done|done|]. intros _. by rewrite bit_set, orb_true_r.
Qed.

Lemma enter_probe_bw_ok b rand now : binv b -> fbit b 7 = true -> 0 <= rand ->
  exists b', enter_probe_bw_mode b rand now = Some b' /\ stays b b' /\ bbr_mode b' = BBR_MODE_PROBE_BW.
Proof using.
  intros H H7 Hr. unfold enter_probe_bw_mode. pose proof (Z.mod_pos_bound rand (kGainCycleLength - 1) ltac:(unfold kGainCycleLength; lia)) as Hm. unfold kGainCycleLength in *.
  set (o := if 1 <=? _ then _ else _). destruct (cycle_Some o) as (g & Eg); [unfold o; destruct (1 <=? _); lia|]. rewrite Eg. cbn [mbind option_bind].
  eexists. split; [done|]. split; [|done]. destruct H as [A B C D E F G K I J]. by split_and!.
Qed.

Lemma exit_startup_ok b rand now n : binv b -> 0 <= rand -> exists b', maybe_exit_startup_or_drain stats_min_rtt b rand now n = Some b' /\ stays b b' /\
  (bbr_mode b' = BBR_MODE_STARTUP -> fbit b' 7 = false) /\
  (bbr_mode b' = bbr_mode b \/ (bbr_mode b = BBR_MODE_STARTUP /\ bbr_mode b' = BBR_MODE_DRAIN) \/ ((bbr_mode b = BBR_MODE_STARTUP \/ bbr_mode b = BBR_MODE_DRAIN) /\ bbr_mode b' = BBR_MODE_PROBE_BW)).
Proof using.
  intros H Hr. unfold maybe_exit_startup_or_drain. unfold BBR_FLAG_IS_AT_FULL_BANDWIDTH. rewrite flag_bit by lia.
  set (b1 := if _ && fbit b 7 then _ else b).
  assert (H1 : stays b b1 /\ fbit b1 7 = fbit b 7 /\ (bbr_mode b1 = bbr_mode b /\ (bbr_mode b = BBR_MODE_STARTUP -> fbit b 7 = false) \/ bbr_mode b = BBR_MODE_STARTUP /\ bbr_mode b1 = BBR_MODE_DRAIN)).
  { unfold b1, in_mode. destruct (bool_decide_reflect (bbr_mode b = BBR_MODE_STARTUP)) as [E|E]; cbn [andb].
    - destruct (fbit b 7) eqn:E7; [|split; [by apply stays_refl|]; split; [done|by left]]. split; [|split; [done|by right]].
      destruct H as [A B C D E' F G K I J]. by split_and!.
    - split; [by apply stays_refl|]. split; [done|by left]. }
  clearbody b1. destruct H1 as (S1 & E7 & Hmode). unfold in_mode. destruct (bool_decide_reflect (bbr_mode b1 = BBR_MODE_DRAIN)) as [Ed|Ed].
  - destruct (target_ok b1 (flt 1) one_gain_ok) as (t & -> & _). cbn [mbind option_bind]. assert (E7' : fbit b1 7 = true) by (apply (bi_full _ (proj1 S1)); by left).
    destruct (n <=? t).
    + destruct (enter_probe_bw_ok b1 rand now (proj1 S1) E7' Hr) as (b2 & -> & S2 & Em2). exists b2. split; [done|]. split; [by apply (stays_trans b b1)|].
      rewrite Em2. split; [done|]. right. right. split; [|done]. destruct Hmode as [[Hm _]|[Hm _]]; [right; congruence|by left].
    + exists b1. split; [done|]. split; [done|]. split; [congruence|]. destruct Hmode as [[Hm _]|[Hm Hm']]; [by left|right; by left].
  - exists b1. split; [done|]. split; [done|]. destruct Hmode as [[Hm Hs]|[Hm Hm']]; [|done]. rewrite Hm, E7. split; [done|by left].
Qed.

Lemma probe_rtt_ok b rand now r x n : binv b -> 0 <= rand ->
  exists b', maybe_enter_or_exit_probe_rtt stats_min_rtt b rand now r x n = Some b' /\ binv b' /\ ba_ack_time (bbr_ack_state b') = ba_ack_time (bbr_ack_state b) /\
    (bbr_bw_sampler b' = bbr_bw_sampler b \/ bbr_bw_sampler b' = lsquic_bw_sampler_app_limited (bbr_bw_sampler b)) /\ fbit b' 7 = fbit b 7 /\
    (bbr_mode b' = bbr_mode b \/ bbr_mode b' = BBR_MODE_PROBE_RTT \/ bbr_mode b = BBR_MODE_PROBE_RTT /\ (bbr_mode b' = BBR_MODE_STARTUP /\ fbit b' 7 = false \/ bbr_mode b' = BBR_MODE_PROBE_BW)).
Proof using.
  intros H Hr. unfold maybe_enter_or_exit_probe_rtt. set (b1 := if _ && _ then _ else b).
  assert (H1 : binv b1 /\ bbr_ack_state b1 = bbr_ack_state b /\ bbr_bw_sampler b1 = bbr_bw_sampler b /\ bbr_flags b1 = bbr_flags b /\ (b1 = b \/ bbr_mode b1 = BBR_MODE_PROBE_RTT /\ bbr_exit_probe_rtt_at b1 = 0)).
  { unfold b1. destruct (_ && _); [|split_and!; auto]. split; [|split_and!; auto]. destruct H as [A B C D E F G K I J]. split; try done; [intros [?|?]; done|].
    cbn. split; [done|]. destruct (bbr_mode b); [left; apply E|left; apply E|right; apply E|apply E]. }
  clearbody b1. destruct H1 as (H1 & Ea & Es & Ef & Hb1).
  assert (Hend : forall b2, binv b2 -> fbit (bbr_clear_flag b2 BBR_FLAG_EXITING_QUIESCENCE) 7 = fbit b2 7 /\ binv (bbr_clear_flag b2 BBR_FLAG_EXITING_QUIESCENCE)).
  { intros b2 H2. split; [rewrite bit_clear; apply andb_true_r|by apply clear_inv]. }
  assert (E7 : fbit b1 7 = fbit b 7) by (unfold fbit; by rewrite Ef).
  unfold in_mode. destruct (bool_decide_reflect (bbr_mode b1 = BBR_MODE_PROBE_RTT)) as [Em|Em]; cbn [mbind option_bind].
  2: { destruct Hb1 as [->|[? _]]; [|done]. destruct (Hend b H1) as [E H']. eexists. split; [done|]. split; [done|]. split; [done|]. split; [by left|]. split; [done|by left]. }
  assert (Hmode : bbr_mode b = BBR_MODE_PROBE_RTT \/ bbr_exit_probe_rtt_at b1 = 0) by (destruct Hb1 as [->|[_ ?]]; auto).
  unfold in_probe_rtt. set (b2 := b1 <| bbr_bw_sampler := _ |>). assert (H2 : binv b2) by (by destruct H1; split).
  assert (Hs2 : bbr_bw_sampler b2 = lsquic_bw_sampler_app_limited (bbr_bw_sampler b)) by (cbn; unfold const; by rewrite Es).
  assert (Hfin : forall b3, binv b3 -> ba_ack_time (bbr_ack_state b3) = ba_ack_time (bbr_ack_state b1) -> bbr_bw_sampler b3 = bbr_bw_sampler b2 -> fbit b3 7 = fbit b1 7 ->
    (bbr_mode b3 = BBR_MODE_PROBE_RTT \/ bbr_mode b = BBR_MODE_PROBE_RTT /\ (bbr_mode b3 = BBR_MODE_STARTUP /\ fbit b3 7 = false \/ bbr_mode b3 = BBR_MODE_PROBE_BW)) ->
    exists b', Some (bbr_clear_flag b3 BBR_FLAG_EXITING_QUIESCENCE) = Some b' /\ binv b' /\ ba_ack_time (bbr_ack_state b') = ba_ack_time (bbr_ack_state b) /\
    (bbr_bw_sampler b' = bbr_bw_sampler b \/ bbr_bw_sampler b' = lsquic_bw_sampler_app_limited (bbr_bw_sampler b)) /\ fbit b' 7 = fbit b 7 /\
    (bbr_mode b' = bbr_mode b \/ bbr_mode b' = BBR_MODE_PROBE_RTT \/ bbr_mode b = BBR_MODE_PROBE_RTT /\ (bbr_mode b' = BBR_MODE_STARTUP /\ fbit b' 7 = false \/ bbr_mode b' = BBR_MODE_PROBE_BW))).
  { intros b3 H3 Ea3 Es3 E73 Hm3. destruct (Hend b3 H3) as [E H']. eexists. split; [done|]. split; [done|]. split; [cbn; congruence|]. split; [right; cbn; congruence|]. rewrite E.
    split; [congruence|]. right. exact Hm3. }
  destruct (Z.eqb_spec (bbr_exit_probe_rtt_at b2) 0) as [Ee|Ee].
  - rewrite (probe_cwnd_eq b2 H2). cbn [mbind option_bind]. destruct (_ <? _); apply Hfin; try done; try (left; exact Em).
    + apply clear_inv; try done. by destruct H2; split.
    + rewrite bit_clear. apply andb_true_r.
  - destruct Hmode as [Hmode|Hmode]; [|done]. set (b3 := if r then _ else b2).
    assert (H3 : binv b3 /\ bbr_ack_state b3 = bbr_ack_state b2 /\ bbr_bw_sampler b3 = bbr_bw_sampler b2 /\ fbit b3 7 = fbit b2 7 /\ bbr_mode b3 = bbr_mode b2).
    { unfold b3. destruct r; [|by split_and!]. split; [apply set_inv; [done|repeat constructor]|]. split_and!; try done. rewrite bit_set. apply orb_false_r. }
    clearbody b3. destruct H3 as (H3 & Ea3 & Es3 & E73 & Em3). destruct (_ && _).
    2: { apply Hfin; try done; [by rewrite Ea3|left; rewrite Em3; exact Em]. }
    set (b4 := b3 <| bbr_min_rtt_timestamp := _ |>). assert (H4 : binv b4) by (by destruct H3; split).
    unfold BBR_FLAG_IS_AT_FULL_BANDWIDTH. rewrite flag_bit by lia. destruct (fbit b4 7) eqn:E74; cbn [negb].
    + destruct (enter_probe_bw_ok b4 rand now H4 E74 Hr) as (b5 & -> & (H5 & Ea5 & Es5 & E75) & Em5). cbn [mbind option_bind].
      apply Hfin; [done|rewrite Ea5; cbn; by rewrite Ea3|rewrite Es5; exact Es3| |right; split; [done|by right]].
      rewrite (E75 E74). change (fbit b1 7) with (fbit b2 7). rewrite <- E73. symmetry. exact E74.
    + apply Hfin; try done.
      * destruct H4 as [A B C D E F G K I J]. split; try done. intros [?|?]; done.
      * cbn. by rewrite Ea3.
      * right. split; [done|]. left. done.
Qed.

(** ** The window and the rate *)

Lemma pacing_ok b : 0 <= stats_min_rtt -> binv b -> exists b', calculate_pacing_rate stats_min_rtt b = Some b' /\ stays b b' /\ bbr_mode b' = bbr_mode b /\ fbit b' 7 = fbit b 7.
Proof using.
  intros Hs H. assert (Hset : forall v, stays b (b <| bbr_pacing_rate := v |>)) by (intros v; split_and!; try done; by destruct H; split).
  unfold calculate_pacing_rate. destruct (_ =? 0); [exists b; split; [done|]; split; [by apply stays_refl|done]|].
  destruct (gains_ok b H) as [Hg _]. destruct (bi_bw _ H) as (Hb0 & _). destruct (times_ok (minmax_get (bbr_max_bandwidth b)) _ Hb0 Hg) as (t & -> & _). cbn [mbind option_bind].
  destruct (flag b _); [eexists; split; [done|]; split; [apply Hset|done]|].
  destruct (_ && _); [eexists; split; [done|]; split; [apply Hset|done]|]. off H BBR_FLAG_SLOWER_STARTUP 14. cbn [andb]. rewrite andb_false_r.
  destruct (_ <? t); (eexists; split; [done|]); (split; [|done]); [apply Hset|by apply stays_refl].
Qed.

Lemma cwnd_ok b n x : binv b -> exists b', calculate_cwnd stats_min_rtt b n x = Some b' /\ stays b b' /\ bbr_mode b' = bbr_mode b /\ fbit b' 7 = fbit b 7.
Proof using.
  intros H. unfold calculate_cwnd. destruct (in_mode b _); [exists b; split; [done|]; split; [by apply stays_refl|done]|].
  destruct (gains_ok b H) as [_ Hg]. destruct (target_ok b _ Hg) as (t & -> & _). cbn [mbind option_bind]. eexists. split; [done|].
  match goal with |- stays b (if bbr_cwnd ?y <? _ then _ else _) /\ _ => set (b1 := y) end.
  assert (H1 : exists v, b1 = b <| bbr_cwnd := v |>).
  { unfold b1. destruct (flag b BBR_FLAG_IS_AT_FULL_BANDWIDTH); [by eexists|]. destruct (_ || _); [by eexists|]. exists (bbr_cwnd b). by destruct b. }
  destruct H1 as [v ->]. assert (Hset : forall w, bbr_min_cwnd <= w <= bbr_max_cwnd -> stays b (b <| bbr_cwnd := w |>)).
  { intros w Hw. split_and!; try done. by destruct H as [A B C D E F G K I J]; split. }
  change (bbr_cwnd (b <| bbr_cwnd := v |>)) with v. assert (bbr_min_cwnd <= bbr_max_cwnd) by (unfold bbr_min_cwnd, bbr_max_cwnd, kDefaultTCPMSS; lia).
  destruct (Z.ltb_spec v bbr_min_cwnd); [split; [by apply (Hset bbr_min_cwnd)|done]|].
  destruct (Z.ltb_spec bbr_max_cwnd v); [split; [by apply (Hset bbr_max_cwnd)|done]|]. split; [by apply Hset|done].
Qed.

(** In recovery the window is at least four packets from now on. *)
Definition windowed (b : lsquic_bbr) : Prop := in_recovery b = true -> bbr_min_cwnd <= bbr_recovery_window b.

Lemma window_ok b n l m : binv b -> let b' := calculate_recovery_window b n l m in stays b b' /\ bbr_mode b' = bbr_mode b /\ fbit b' 7 = fbit b 7 /\ windowed b'.
Proof using.
  intros H. unfold calculate_recovery_window. off H BBR_FLAG_RATE_BASED_STARTUP 16. cbn [andb]. cbv zeta.
  assert (Hset : forall w, bbr_min_cwnd <= w -> stays b (b <| bbr_recovery_window := w |>) /\ windowed (b <| bbr_recovery_window := w |>)).
  { intros w Hw. split; [|intros _; exact Hw]. split_and!; try done. destruct H as [A B C D E F G K I J]. split; try done. intros _. by right. }
  destruct (in_recovery b) eqn:Er; cbn [negb]; [|split; [by apply stays_refl|]; split_and!; try done; intros ?; congruence].
  destruct (_ =? 0); [destruct (Hset (Z.max bbr_min_cwnd (u64 (m + n)))); [lia|by split_and!]|].
  match goal with |- context [b <| bbr_recovery_window := ?w |>] => destruct (Hset w); [lia|by split_and!] end.
Qed.

(** ** The end of an ACK *)

(** The changes of mode that one ACK can bring. *)
Definition moves (m m' : bbr_mode_t) : Prop :=
  match m, m' with
  | _, BBR_MODE_PROBE_BW | _, BBR_MODE_PROBE_RTT | BBR_MODE_STARTUP, _ | BBR_MODE_DRAIN, BBR_MODE_DRAIN | BBR_MODE_PROBE_RTT, BBR_MODE_STARTUP => True
  | _, _ => False
  end.

Record settled (b : lsquic_bbr) : Prop := {
  st_inv : binv b;
  st_window : windowed b;
  st_startup : bbr_mode b = BBR_MODE_STARTUP -> fbit b 7 = false
}.

Lemma end_ack_ok b rand n : 0 <= stats_min_rtt -> binv b -> flag b BBR_FLAG_IN_ACK = true -> 0 <= rand ->
  exists b', lsquic_bbr_end_ack stats_min_rtt b rand n = Some b' /\ settled b' /\ ba_ack_time (bbr_ack_state b') = ba_ack_time (bbr_ack_state b) /\
    (bbr_bw_sampler b' = bbr_bw_sampler b \/ bbr_bw_sampler b' = lsquic_bw_sampler_app_limited (bbr_bw_sampler b)) /\
    (fbit b 7 = true -> fbit b' 7 = true) /\ moves (bbr_mode b) (bbr_mode b').
Proof using.
  intros Hs H Hf Hr. unfold lsquic_bbr_end_ack. rewrite Hf. cbn [negb]. set (b0 := bbr_clear_flag b BBR_FLAG_IN_ACK).
  assert (H0 : binv b0) by (by apply clear_inv). assert (E70 : fbit b0 7 = fbit b 7) by (unfold b0; rewrite bit_clear; apply andb_true_r).
  match goal with |- context [update_model b0 ?y] => set (acked := y); pose proof (update_model_ok b0 acked H0) as Hm end.
  destruct (update_model b0 acked) as [[[b1 r] x] e]. destruct Hm as (S1 & Em1 & E71).
  assert (exists b2, (if in_mode b1 BBR_MODE_PROBE_BW then update_gain_cycle_phase stats_min_rtt b1 n else Some b1) = Some b2 /\ stays b1 b2 /\ bbr_mode b2 = bbr_mode b1) as (b2 & -> & S2 & Em2).
  { unfold in_mode. destruct (bool_decide_reflect (bbr_mode b1 = BBR_MODE_PROBE_BW)) as [E|E]; [|exists b1; split; [done|]; split; [apply stays_refl, S1|done]].
    destruct (gain_cycle_ok b1 n (proj1 S1) E) as (b2 & -> & S2 & Em2). exists b2. split; [done|]. split; [done|congruence]. }
  cbn [mbind option_bind].
  assert (exists b3, (if r && negb (flag b2 BBR_FLAG_IS_AT_FULL_BANDWIDTH) then check_if_full_bw_reached b2 else Some b2) = Some b3 /\ stays b2 b3 /\ bbr_mode b3 = bbr_mode b2) as (b3 & -> & S3 & Em3).
  { destruct (_ && _); [by apply check_full_ok, S2|]. exists b2. split; [done|]. split; [apply stays_refl, S2|done]. }
  cbn [mbind option_bind]. destruct (exit_startup_ok b3 rand (ba_ack_time (bbr_ack_state b3)) n (proj1 S3) Hr) as (b4 & -> & S4 & Hst4 & Hm4). cbn [mbind option_bind].
  destruct (probe_rtt_ok b4 rand (ba_ack_time (bbr_ack_state b3)) r x n (proj1 S4) Hr) as (b5 & -> & H5 & Ea5 & Es5 & E75 & Hm5). cbn [mbind option_bind].
  destruct (pacing_ok b5 Hs H5) as (b6 & -> & S6 & Em6 & E76). cbn [mbind option_bind].
  destruct (cwnd_ok b6 acked e (proj1 S6)) as (b7 & -> & S7 & Em7 & E77). cbn [mbind option_bind].
  destruct (window_ok b7 acked (ba_lost_bytes (bbr_ack_state b7)) n (proj1 S7)) as (S8 & Em8 & E78 & W8).
  assert (S04 : stays b0 b4) by (apply (stays_trans b0 b1), (stays_trans b1 b2), (stays_trans b2 b3); done).
  pose proof (stays_trans _ _ _ S6 (stays_trans _ _ _ S7 S8)) as (_ & Ea8 & Es8 & _). destruct S04 as (_ & Ea4 & Es4 & M4).
  assert (Em03 : bbr_mode b3 = bbr_mode b) by (change (bbr_mode b) with (bbr_mode b0); congruence).
  eexists. split; [done|]. split; [split; [apply S8|done|]|split; [|split; [|split]]].
  - rewrite Em8, Em7, Em6, E78, E77, E76, E75. intros E. destruct Hm5 as [Hm5|[Hm5|[_ [[_ Hm5]|Hm5]]]]; [|congruence|congruence|congruence]. apply Hst4. congruence.
  - rewrite Ea8, Ea5, Ea4. done.
  - rewrite Es8. destruct Es5 as [->| ->]; rewrite Es4; [by left|by right].
  - rewrite E78, E77, E76, E75. intros E7. apply M4. by rewrite E70.
  - rewrite Em8, Em7, Em6. rewrite <- Em03. clear -Hm4 Hm5. unfold moves. destruct Hm5 as [->|[->|[E [[-> _]| ->]]]]; [|by destruct (bbr_mode b3)| |by destruct (bbr_mode b3)].
    + destruct Hm4 as [->|[[-> ->]|[[->| ->] ->]]]; try done. by destruct (bbr_mode b3).
    + rewrite E in Hm4. destruct Hm4 as [<-|[[_ ?]|[_ ?]]]; [done|congruence|congruence].
Qed.

End bbr.
