(* ===== verification/BbrClaims.v ===== *)
(** Runs of BBR with its bandwidth sampler, and what they guarantee. *)
From Stdlib Require Import SpecFloat.
From S2P Require Import Prelude Art Timing Binary BwSampler Bbr BbrThms.
From coqutil Require Import Datatypes.RecordSettersUsingExistingGetters.
Local Open Scope Z_scope.

(** BBR, the packets that were sent with the sampler at that time, and the time. *)
Definition brun : Type := lsquic_bbr * list (bw_packet * bw_sampler) * Z.

(** [stats_min_rtt] is what the RTT statistics hold at that time. *)
Inductive bop :=
| BSent (stats_min_rtt : Z) (p : bw_packet) (in_flight : Z) (app_limited : bool)
| BBegin (now in_flight : Z)
| BAck (i : nat) (packet_sz : Z)
| BLost (i : nat) (packet_sz : Z)
| BEnd (stats_min_rtt rand in_flight : Z)
| BReinit.

Definition bexec (o : bop) (r : brun) : option brun :=
  let '(b, ps, clock) := r in
  match o with
  | BSent stats_min_rtt p n app =>
    '(b', p') ← lsquic_bbr_sent stats_min_rtt true b p n app;
    Some (b', if bp_mini p then ps else ps ++ [(p', (lsquic_bw_sampler_packet_sent true (bbr_bw_sampler b) p n).1)], bp_sent p)
  | BBegin now n => b' ← lsquic_bbr_begin_ack b now n; Some (b', ps, clock)
  | BAck i sz =>
    match ps !! i with
    | Some (p, g) => '(b', p') ← lsquic_bbr_ack b p sz; Some (b', <[i := (p', g)]> ps, ba_ack_time (bbr_ack_state b))
    | None => Some r
    end
  | BLost i sz =>
    match ps !! i with
    | Some (p, g) => let '(b', p') := lsquic_bbr_lost b p sz in Some (b', <[i := (p', g)]> ps, clock)
    | None => Some r
    end
  | BEnd stats_min_rtt rand n => b' ← lsquic_bbr_end_ack stats_min_rtt b rand n; Some (b', ps, clock)
  | BReinit => Some (lsquic_bbr_reinit b, ps, clock)
  end.

(** ACKs are bracketed, time does not go back, fewer than 2^37 bytes are sent. *)
Definition benabled (o : bop) (r : brun) : Prop :=
  let '(b, ps, clock) := r in
  match o with
  | BSent _ p n _ => flag b BBR_FLAG_IN_ACK = false /\ senabled (SSent p n) (bbr_bw_sampler b, ps, clock)
  | BBegin now _ => flag b BBR_FLAG_IN_ACK = false /\ clock <= now < 2 ^ 63
  | BAck _ _ => flag b BBR_FLAG_IN_ACK = true
  | BLost _ _ | BReinit => True
  | BEnd stats_min_rtt rand _ => flag b BBR_FLAG_IN_ACK = true /\ 0 <= stats_min_rtt /\ 0 <= rand < 256
  end.

Inductive breachable (retx_frames : Z) : brun -> Prop :=
| breach_init : breachable retx_frames (lsquic_bbr_init true retx_frames, [], 0)
| breach_step o r r' : breachable retx_frames r -> benabled o r -> bexec o r = Some r' -> breachable retx_frames r'.

Record brun_ok (r : brun) : Prop := {
  br_settled : settled r.1.1;
  br_sampler : sinv (bbr_bw_sampler r.1.1, r.1.2, r.2);
  br_time : fbit r.1.1 0 = true -> r.2 <= ba_ack_time (bbr_ack_state r.1.1) < 2 ^ 63
}.

(** ** Steps *)

Lemma settled_same b b' : settled b -> bbr_mode b' = bbr_mode b -> bbr_recovery_state b' = bbr_recovery_state b -> bbr_recovery_window b' = bbr_recovery_window b ->
  fbit b' 7 = fbit b 7 -> binv b' -> settled b'.
Proof using.
  intros [A B C] E1 E2 E3 E4 H. split; [done| |by rewrite E1, E4]. unfold windowed, in_recovery in *. by rewrite E2, E3.
Qed.

Lemma app_limited_sinv s ps clock : sinv (s, ps, clock) -> sinv (lsquic_bw_sampler_app_limited s, ps, clock).
Proof using. intros H. exact (sexec_inv SAppLimited (s, ps, clock) H I). Qed.

Lemma sinv_later s ps clock clock' : sinv (s, ps, clock) -> clock <= clock' < 2 ^ 63 -> sinv (s, ps, clock').
Proof using.
  intros [A B C D] Hc. cbn [fst snd] in *. split; cbn [fst snd]; [lia|by apply (scounts_later s clock); [lia|]|done|].
  intros i p g st Hi Hst. destruct (D i p g st Hi Hst) as (D1 & D2 & D3 & D4). split_and!; try done; [lia|apply D4|apply D4].
Qed.

Lemma sent_step stats_min_rtt b ps clock p n app : brun_ok (b, ps, clock) -> benabled (BSent stats_min_rtt p n app) (b, ps, clock) ->
  exists r', bexec (BSent stats_min_rtt p n app) (b, ps, clock) = Some r' /\ brun_ok r'.
Proof using.
  intros [Hst Hs Ht] [Hf Hsent]. cbn [fst snd] in *. cbn [bexec]. unfold lsquic_bbr_sent. pose proof Hsent as (_ & Hc & _).
  set (q := if negb (bp_mini p) then _ else _).
  assert (Hq : sinv (q.1, (if bp_mini p then ps else ps ++ [(q.2, (lsquic_bw_sampler_packet_sent true (bbr_bw_sampler b) p n).1)]), bp_sent p)).
  { unfold q. destruct (bp_mini p); cbn [negb]; [by apply (sinv_later _ _ clock)|]. pose proof (sexec_inv (SSent p n) _ Hs Hsent) as H. cbn [sexec] in H.
    by destruct (lsquic_bw_sampler_packet_sent true (bbr_bw_sampler b) p n) as [s' p']. }
  clearbody q. destruct q as [s' p']. cbn [fst snd] in Hq. set (b1 := b <| bbr_bw_sampler := s' |> <| bbr_last_sent_packno := bp_packno p |>).
  assert (H1 : binv b1) by (by destruct (st_inv _ Hst); split). assert (S1 : settled b1) by (by apply (settled_same b)).
  unfold BBR_FLAG_IN_ACK in Hf. rewrite flag_bit in Hf by lia.
  destruct app; cbn [mbind option_bind].
  - destruct (app_limited_ok stats_min_rtt b1 n H1) as (b2 & -> & H2 & Ea & Em & Er & Ew & Ebit & Es). cbn [mbind option_bind]. eexists. split; [done|]. split; cbn [fst snd].
    + apply (settled_same b1); try done. by apply Ebit.
    + destruct Es as [->| ->]; [done|by apply app_limited_sinv].
    + rewrite Ebit by lia. change (fbit b1 0) with (fbit b 0). congruence.
  - eexists. split; [done|]. split; cbn [fst snd]; [done|done|]. change (fbit b1 0) with (fbit b 0). congruence.
Qed.

Lemma ack_step b ps clock i sz : brun_ok (b, ps, clock) -> benabled (BAck i sz) (b, ps, clock) ->
  exists r', bexec (BAck i sz) (b, ps, clock) = Some r' /\ brun_ok r'.
Proof using.
  intros [Hst Hs Ht] Hf. cbn [fst snd benabled] in *. cbn [bexec]. destruct (ps !! i) as [[p g]|] eqn:Hi; [|by eexists]. unfold lsquic_bbr_ack. rewrite Hf. cbn [negb].
  unfold BBR_FLAG_IN_ACK in Hf. rewrite flag_bit in Hf by lia. specialize (Ht Hf). set (now := ba_ack_time (bbr_ack_state b)) in *.
  assert (Hack : exists s' p' sa, lsquic_bw_sampler_packet_acked (bbr_bw_sampler b) p now = (s', p', sa) /\ sinv (s', <[i := (p', g)]> ps, now) /\
    match sa with Some sa => sample_ok sa | None => True end).
  { pose proof (sexec_inv (SAcked i now) _ Hs Ht) as H. cbn [sexec] in H. rewrite Hi in H. destruct (po_bwp_state p) as [st|] eqn:Est.
    - destruct (acked_sample _ _ _ i p g st now Hs Ht Hi Est) as (s' & E & _ & _ & Hb). rewrite E in H. eexists _, _, _. split; [exact E|]. split; [done|].
      destruct (ideal_sample g s' p now) as [sa|]; [|done]. split; [apply Hb|apply Hb].
    - unfold lsquic_bw_sampler_packet_acked in *. rewrite Est in *. by eexists _, _, None. }
  destruct Hack as (s' & p' & sa & -> & Hs' & Hsa). cbn [mbind option_bind]. eexists. split; [done|]. split; cbn [fst snd].
  - apply (settled_same b); try done. destruct (st_inv _ Hst) as [A B C D E F G K I J]. split; try done. cbn. unfold const.
    match goal with |- Forall _ (ba_samples (if ?c then _ else _)) => destruct c end; cbn; (destruct sa; [|done]); cbn; unfold const; (apply Forall_app; split; [done|by apply Forall_singleton]).
  - exact Hs'.
  - intros _. cbn. unfold const. match goal with |- _ <= ba_ack_time ?a < _ => enough (ba_ack_time a = now) as -> by lia end.
    destruct sa; match goal with |- ba_ack_time (if ?c then _ else _) = _ => destruct c end; done.
Qed.

(** [init_bbr] keeps the sampler, the ACK in progress and the recovery. *)
Lemma init_fields b : let b' := lsquic_bbr_reinit b in
  bbr_flags b' = Z.ldiff (bbr_flags b) init_cleared /\ bbr_mode b' = BBR_MODE_STARTUP /\ bbr_cwnd b' = bbr_init_cwnd /\
  (bbr_pacing_gain b' = bbr_high_gain /\ bbr_cwnd_gain b' = bbr_high_cwnd_gain) /\ bbr_max_bandwidth b' = minmax_init 10 /\
  (bbr_bw_at_last_round b' = 0 /\ bbr_min_rtt b' = 0) /\ bbr_bw_sampler b' = bbr_bw_sampler b /\ bbr_ack_state b' = bbr_ack_state b /\
  bbr_recovery_state b' = bbr_recovery_state b /\ bbr_recovery_window b' = bbr_recovery_window b.
Proof using. destruct b. split_and!; lazy; reflexivity. Qed.

Lemma init_bit b i : fbit (lsquic_bbr_reinit b) i = fbit b i && negb (Z.testbit init_cleared i).
Proof using. unfold fbit. pose proof (init_fields b) as [-> _]. apply Z.ldiff_spec. Qed.

Lemma init_settled b : settled b -> settled (lsquic_bbr_reinit b).
Proof using.
  intros [[A B C D E F G K I J] Hw Hs]. pose proof (init_fields b) as (_ & Em & Ec & [Eg Eh] & Ebw & [El Er] & _ & Ea & Ers & Erw).
  unfold windowed, in_recovery in D, Hw. split; [split| |intros _; rewrite init_bit; apply andb_false_r].
  - rewrite Forall_forall in A |- *. intros i Hi. by rewrite init_bit, A.
  - rewrite Em. by intros [?|?].
  - rewrite Ec. unfold bbr_min_cwnd, bbr_init_cwnd, bbr_max_cwnd, kDefaultTCPMSS. lia.
  - unfold in_recovery. by rewrite Ers, Erw.
  - by rewrite Em, Eg, Eh.
  - by rewrite Ebw.
  - right. by rewrite Ebw.
  - by rewrite El.
  - by rewrite Ea.
  - by rewrite Er.
  - unfold windowed, in_recovery. by rewrite Ers, Erw.
Qed.

Lemma bexec_ok o r : brun_ok r -> benabled o r -> exists r', bexec o r = Some r' /\ brun_ok r'.
Proof using.
  destruct r as [[b ps] clock]. intros H He. destruct o as [stats p n app|now n|i sz|i sz|stats rand n|].
  - by apply sent_step.
  - destruct H as [Hst Hs Ht], He as [Hf Hn]. cbn [fst snd] in *. cbn [bexec]. unfold lsquic_bbr_begin_ack. rewrite Hf. cbn [mbind option_bind].
    eexists. split; [done|]. split; cbn [fst snd]; [|done|done]. assert (H1 : binv (bbr_set_flag b BBR_FLAG_IN_ACK)) by (apply set_inv; [apply Hst|repeat constructor]).
    apply (settled_same b); try done; [|by destruct H1 as [A B C D E F G K I J]; split; try done; constructor].
    change (fbit (bbr_set_flag b BBR_FLAG_IN_ACK) 7 = fbit b 7). rewrite bit_set. apply orb_false_r.
  - by apply ack_step.
  - destruct H as [Hst Hs Ht]. cbn [fst snd] in *. cbn [bexec]. destruct (ps !! i) as [[p g]|] eqn:Hi; [|by eexists]. unfold lsquic_bbr_lost.
    pose proof (sexec_inv (SLost i) _ Hs I) as H'. cbn [sexec] in H'. rewrite Hi in H'. destruct (lsquic_bw_sampler_packet_lost (bbr_bw_sampler b) p) as [s' p'].
    eexists. split; [done|]. split; cbn [fst snd]; [|exact H'|exact Ht]. apply (settled_same b); try done. by destruct (st_inv _ Hst); split.
  - destruct H as [Hst Hs Ht], He as (Hf & Hstats & Hr). cbn [fst snd] in *. cbn [bexec].
    destruct (end_ack_ok stats b rand n Hstats (st_inv _ Hst) Hf ltac:(lia)) as (b' & -> & Hst' & Ea & Es & _). cbn [mbind option_bind].
    unfold BBR_FLAG_IN_ACK in Hf. rewrite flag_bit in Hf by lia. eexists. split; [done|]. split; cbn [fst snd]; [done| |rewrite Ea; intros _; by apply Ht].
    destruct Es as [->| ->]; [done|by apply app_limited_sinv].
  - destruct H as [Hst Hs Ht]. cbn [fst snd] in *. cbn [bexec]. eexists. split; [done|]. pose proof (init_fields b) as (_ & _ & _ & _ & _ & _ & Es & Ea & _).
    split; cbn [fst snd]; [by apply init_settled|by rewrite Es|]. rewrite Ea, init_bit. change (negb (Z.testbit init_cleared 0)) with true. by rewrite andb_true_r.
Qed.

Lemma init_brun_ok retx : brun_ok (lsquic_bbr_init true retx, [], 0).
Proof using.
  split; cbn [fst snd].
  - split; [split|by intros ?|done]; try done.
    + repeat constructor.
    + by intros [?|?].
    + by right.
  - exact (sreachable_inv _ _ (sreach_init retx)).
  - done.
Qed.

Lemma breachable_ok retx r : breachable retx r -> brun_ok r.
Proof using.
  induction 1 as [|o r r' _ IH He E]; [apply init_brun_ok|]. destruct (bexec_ok o r IH He) as (r2 & E2 & H). congruence.
Qed.

(** ** What a run guarantees *)

Definition full_bandwidth (b : lsquic_bbr) : bool := flag b BBR_FLAG_IS_AT_FULL_BANDWIDTH.

(** The gains of a mode, and whether full bandwidth was reached. *)
Definition mode_ok (b : lsquic_bbr) : Prop :=
  match bbr_mode b with
  | BBR_MODE_STARTUP => full_bandwidth b = false /\ bbr_pacing_gain b = bbr_high_gain /\ bbr_cwnd_gain b = bbr_high_cwnd_gain
  | BBR_MODE_DRAIN => full_bandwidth b = true /\ bbr_pacing_gain b = bbr_drain_gain /\ bbr_cwnd_gain b = bbr_high_cwnd_gain
  | BBR_MODE_PROBE_BW => full_bandwidth b = true /\ aget kPacingGain (bbr_cycle_current_offset b) = Some (bbr_pacing_gain b) /\ bbr_cwnd_gain b = kCwndGain
  | BBR_MODE_PROBE_RTT => bbr_pacing_gain b = flt 1
  end.

Lemma settled_mode b : settled b -> mode_ok b.
Proof.
  intros [H _ Hs]. pose proof (bi_full _ H) as Hf. pose proof (bi_gains _ H) as Hg. unfold mode_ok, full_bandwidth, BBR_FLAG_IS_AT_FULL_BANDWIDTH.
  rewrite flag_bit by lia. destruct (bbr_mode b); [|split; [by apply Hf; left|done]|split; [by apply Hf; right|done]|apply Hg]. by split; [apply Hs|].
Qed.

(** How an operation changes the mode. *)
Definition mode_step (o : bop) (b b' : lsquic_bbr) : Prop :=
  match o with
  | BEnd _ _ _ => moves (bbr_mode b) (bbr_mode b') /\ (full_bandwidth b = true -> full_bandwidth b' = true)
  | BReinit => bbr_mode b' = BBR_MODE_STARTUP /\ full_bandwidth b' = false
  | _ => bbr_mode b' = bbr_mode b
  end.

Lemma bexec_mode o b ps clock b' ps' clock' : brun_ok (b, ps, clock) -> benabled o (b, ps, clock) -> bexec o (b, ps, clock) = Some (b', ps', clock') -> mode_step o b b'.
Proof.
  intros [H _ _] He E. cbn [fst] in H. destruct o as [stats p n app|now n|i sz|i sz|stats rand n|]; cbn [bexec mode_step] in *.
  - unfold lsquic_bbr_sent in E. destruct (if negb (bp_mini p) then _ else _) as [s' p']. set (b1 := b <| bbr_bw_sampler := s' |> <| bbr_last_sent_packno := bp_packno p |>) in E.
    assert (H1 : binv b1) by (by destruct (st_inv _ H); split). destruct app; cbn [mbind option_bind] in E.
    + destruct (app_limited_ok stats b1 n H1) as (b2 & E2 & _ & _ & Em & _). rewrite E2 in E. cbn [mbind option_bind] in E. injection E as <- _ _. exact Em.
    + by injection E as <- _ _.
  - unfold lsquic_bbr_begin_ack in E. destruct (flag b _); [done|]. by injection E as <- _ _.
  - destruct (ps !! i) as [[p g]|]; [|by injection E as <- _ _]. unfold lsquic_bbr_ack in E. destruct (negb _); [done|].
    destruct (lsquic_bw_sampler_packet_acked _ _ _) as [[s' p'] sa]. by injection E as <- _ _.
  - destruct (ps !! i) as [[p g]|]; [|by injection E as <- _ _]. unfold lsquic_bbr_lost in E. destruct (lsquic_bw_sampler_packet_lost _ _) as [s' p']. by injection E as <- _ _.
  - destruct He as (Hf & Hs & Hr). destruct (end_ack_ok stats b rand n Hs (st_inv _ H) Hf ltac:(lia)) as (b1 & E1 & _ & _ & _ & E7 & Hm). rewrite E1 in E. injection E as <- _ _.
    split; [done|]. unfold full_bandwidth, BBR_FLAG_IS_AT_FULL_BANDWIDTH. by rewrite !flag_bit by lia.
  - injection E as <- _ _. split; [apply init_fields|]. unfold full_bandwidth, BBR_FLAG_IS_AT_FULL_BANDWIDTH. rewrite flag_bit, init_bit by lia. apply andb_false_r.
Qed.

(** C13: however BBR is driven -- packets sent, acknowledged and lost, ACKs opened and
    closed, the path reset, at any RTT statistics and random byte -- no assertion of
    it fails and no conversion from floating point overflows: every operation
    succeeds.  The congestion window always lies between 4 and 2000 segments and the
    pacing rate is defined.  The gains are those of the mode; STARTUP is only run
    before the bandwidth is full and DRAIN and PROBE_BW after it, only the end of an
    ACK changes the mode, along the arrows of the state machine, and full bandwidth
    is forgotten only by a reset. *)
Theorem bbr_safe retx_frames b ps clock :
  breachable retx_frames (b, ps, clock) ->
  mode_ok b /\
  (forall stats_min_rtt, 0 <= stats_min_rtt ->
    (exists w, lsquic_bbr_get_cwnd stats_min_rtt b = Some w /\ bbr_min_cwnd <= w <= bbr_max_cwnd) /\
    exists rate, lsquic_bbr_pacing_rate stats_min_rtt b = Some rate) /\
  forall o, benabled o (b, ps, clock) -> exists b' ps' clock', bexec o (b, ps, clock) = Some (b', ps', clock') /\ mode_step o b b'.
Proof.
  intros R. pose proof (breachable_ok _ _ R) as H. pose proof (br_settled _ H) as Hs. cbn [fst] in Hs. split; [by apply settled_mode|]. split.
  - intros stats H0. split; [apply get_cwnd_ok; apply Hs|by apply pacing_rate_ok; [|apply Hs]].
  - intros o He. destruct (bexec_ok o _ H He) as ([[b' ps'] clock'] & E & _). exists b', ps', clock'. split; [done|by apply (bexec_mode o b ps clock b' ps' clock')].
Qed.

(** A list of operations. *)
Fixpoint bexecs (ops : list bop) (r : brun) : option brun :=
  match ops with
  | [] => Some r
  | o :: ops => r' ← bexec o r; bexecs ops r'
  end.

Fixpoint benabled_all (ops : list bop) (r : brun) : Prop :=
  match ops with
  | [] => True
  | o :: ops => benabled o r /\ match bexec o r with Some r' => benabled_all ops r' | None => False end
  end.

Lemma bexecs_reachable retx ops : forall r r', breachable retx r -> benabled_all ops r -> bexecs ops r = Some r' -> breachable retx r'.
Proof.
  induction ops as [|o ops IH]; intros r r' R He E; cbn [bexecs benabled_all] in *; [by injection E as <-|].
  destruct He as [He Hl], (bexec o r) as [r1|] eqn:E1; [|done]. apply (IH r1 r'); [by apply (breach_step retx o r)|done|done].
Qed.

(** Five round trips with one packet each: the bandwidth stops growing, so that BBR
    leaves STARTUP and, as nothing is in flight, DRAIN at once. *)
Module FiveRounds.

Definition round (k : nat) : list bop :=
  let t := 100000 * Z.of_nat k in
  [BSent 50000 (BP (Z.of_nat k + 1) t 2 1250 false None) 0 false; BBegin (t + 50000) 1250; BAck k 1250; BEnd 50000 9 0].
Definition ops : list bop := concat (map round (seq 0 5)).
Definition run : brun := Eval vm_compute in default (lsquic_bbr_init true 2, [], 0) (bexecs ops (lsquic_bbr_init true 2, [], 0)).

Lemma five_rounds_reachable : breachable 2 run.
Proof.
  apply (bexecs_reachable 2 ops (lsquic_bbr_init true 2, [], 0)); [constructor| |vm_compute; reflexivity]. vm_compute. repeat split; discriminate || reflexivity.
Qed.

End FiveRounds.

Lemma bbr_safe_witness : let '(b, ps, clock) := FiveRounds.run in
  bbr_mode b = BBR_MODE_PROBE_BW /\ full_bandwidth b = true /\ lsquic_bbr_get_cwnd 50000 b = Some 5840 /\ lsquic_bbr_pacing_rate 50000 b = Some 25000 /\
  exists b' ps' clock', bexec (BBegin 500000 0) (b, ps, clock) = Some (b', ps', clock') /\ bbr_mode b' = BBR_MODE_PROBE_BW.
Proof.
  pose proof (bbr_safe 2 FiveRounds.run.1.1 FiveRounds.run.1.2 FiveRounds.run.2 FiveRounds.five_rounds_reachable) as (_ & _ & Ho).
  destruct (Ho (BBegin 500000 0)) as (b' & ps' & clock' & E' & Hm); [vm_compute; repeat split; discriminate || reflexivity|].
  unfold FiveRounds.run in *. split_and!; [vm_compute; reflexivity..|]. exists b', ps', clock'. split; [exact E'|exact Hm].
Defined.

(** A finding.  The bytes that an ACK is expected to cover, the bandwidth in bits per second times
    microseconds, are eight million times too many: at 10 Mbit/s, 8 ms after the start
    of an epoch, a megabyte beyond the 10 kB that the path carried is no excess. *)
Lemma aggregation_overestimates b : minmax_get (bbr_max_bandwidth b) = 10000000 -> bbr_aggregation_epoch_start_time b = 0 ->
  ba_ack_time (bbr_ack_state b) = 8000 -> bbr_aggregation_epoch_bytes b = 1000000 -> (update_ack_aggregation_bytes b 10000).2 = 0.
Proof. intros E1 E2 E3 E4. unfold update_ack_aggregation_bytes. by rewrite E1, E2, E3, E4. Qed.
