(* ===== verification/Rounding.v ===== *)
(** Rounding of binary64 arithmetic: results of operations on non-negative numbers lie
    within a relative error and never pass a representable number. *)
From Stdlib Require Import SpecFloat.
From S2P Require Import Prelude Art Binary.
Local Open Scope Z_scope.

(** The value of a non-negative number, in units of 2^-1000. *)
Definition scaled (f : double) : Z :=
  match f with
  | S754_finite false m e => Zpos m * 2 ^ (e + 1000)
  | _ => 0
  end.

(** Large powers of two, which are not to be computed. *)
Definition pw (k : Z) : Z := 2 ^ k.

Lemma pw_pos k : 0 <= k -> 0 < pw k.
Proof. intros Hk. unfold pw. by apply Z.pow_pos_nonneg. Qed.

Lemma pw_le i j : i <= j -> 0 <= j -> pw i <= pw j.
Proof. intros Hij Hj. unfold pw. apply Z.pow_le_mono_r; lia. Qed.

Lemma pw_add i j k : 0 <= i -> 0 <= j -> k = i + j -> pw k = pw i * pw j.
Proof. intros Hi Hj ->. unfold pw. by apply Z.pow_add_r. Qed.

Definition normal (f : double) : Prop := exists m e, f = S754_finite false m e /\ 2 ^ 52 <= Zpos m < 2 ^ 53 /\ -400 <= e <= 200.

(** Zero, or a number that is far from underflow and overflow. *)
Definition regular (f : double) : Prop := (exists s, f = S754_zero s) \/ normal f.

(** Values with 53 binary digits. *)
Definition representable (B : Z) : Prop := exists n j, B = n * 2 ^ j /\ 0 <= n < 2 ^ 53 /\ 0 <= j.

Lemma regular_representable f : regular f -> representable (scaled f).
Proof.
  intros [[s ->]|(m & e & -> & Hm & He)]; [exists 0, 0; cbn; lia|]. exists (Zpos m), (e + 1000). cbn [scaled]. lia.
Qed.

Lemma scaled_nonneg f : 0 <= scaled f.
Proof. destruct f as [?|?| |[] m e]; cbn [scaled]; try done. pose proof (Z.pow_nonneg 2 (e + 1000)). nia. Qed.

(** ** One rounding *)

(** [f] is the value [P], in units of 2^-s, rounded. *)
Record rounds (s P : Z) (f : double) : Prop := {
  ro_normal : normal f;
  ro_above : scaled f * 2 ^ (s - 1000) * 2 ^ 52 <= P * (2 ^ 52 + 1);
  ro_below : P * (2 ^ 52 - 1) <= scaled f * 2 ^ (s - 1000) * 2 ^ 52
}.

(** A representable bound is not passed. *)
Record keeps (s P : Z) (f : double) : Prop := {
  ke_above : forall B, representable B -> P <= B * 2 ^ (s - 1000) -> scaled f <= B;
  ke_below : forall B, representable B -> B * 2 ^ (s - 1000) <= P -> B <= scaled f
}.

Lemma shr_iter_exact p : forall m, 0 <= m -> m mod 2 ^ Zpos p = 0 -> SpecFloat.iter_pos shr_1 p (Build_shr_record m false false) = Build_shr_record (m / 2 ^ Zpos p) false false.
Proof.
  assert (H1 : forall m, 0 <= m -> m mod 2 = 0 -> shr_1 (Build_shr_record m false false) = Build_shr_record (m / 2) false false).
  { intros m Hm He. apply Z.mod_divide in He as [k ->]; [|done]. rewrite Z.div_mul by done. destruct k as [|k|k]; [done| |lia]. by rewrite Z.mul_comm, <- Pos2Z.inj_xO. }
  assert (Hd : forall m a b, 0 <= a -> 0 <= b -> 0 <= m -> m mod 2 ^ (a + b) = 0 -> m mod 2 ^ a = 0 /\ (m / 2 ^ a) mod 2 ^ b = 0 /\ 0 <= m / 2 ^ a).
  { intros m a b Ha Hb Hm He. apply Z.mod_divide in He as [k ->]; [|lia]. rewrite Z.pow_add_r by lia. replace (k * (2 ^ a * 2 ^ b)) with (k * 2 ^ b * 2 ^ a) in * by lia.
    rewrite Z.mod_mul, Z.div_mul by lia. split; [done|]. split; [apply Z.mod_mul; lia|]. rewrite Z.pow_add_r in Hm by lia. nia. }
  induction p as [p IH|p IH|]; intros m Hm He; cbn [SpecFloat.iter_pos].
  - replace (Zpos p~1) with (1 + (Zpos p + Zpos p)) in * by lia. destruct (Hd m 1 (Zpos p + Zpos p)) as (E1 & E2 & E3); [lia|lia|done|done|]. rewrite Z.pow_1_r in *.
    destruct (Hd (m / 2) (Zpos p) (Zpos p)) as (E4 & E5 & E6); [lia|lia|done|done|].
    rewrite H1, IH, IH by done. f_equal. rewrite !Z.div_div by lia. f_equal. rewrite !Z.pow_add_r by lia. lia.
  - replace (Zpos p~0) with (Zpos p + Zpos p) in * by lia. destruct (Hd m (Zpos p) (Zpos p)) as (E4 & E5 & E6); [lia|lia|done|done|].
    rewrite IH, IH by done. f_equal. rewrite Z.div_div by lia. f_equal. rewrite Z.pow_add_r by lia. lia.
  - by apply H1.
Qed.

Lemma digits_bounds p : 2 ^ (Zpos (digits2_pos p) - 1) <= Zpos p < 2 ^ Zpos (digits2_pos p).
Proof.
  pose proof (digits_pos p) as H. replace (Zpos (digits2_pos p)) with (Z.succ (Zpos (digits2_pos p) - 1)) in H by lia. rewrite Z.pow_succ_r in H by lia.
  replace (Zpos (digits2_pos p)) with (Z.succ (Zpos (digits2_pos p) - 1)) at 2 by lia. rewrite Z.pow_succ_r by lia. lia.
Qed.

Lemma digits_unique p d : 0 < d -> 2 ^ (d - 1) <= Zpos p < 2 ^ d -> Zpos (digits2_pos p) = d.
Proof.
  intros Hd H. pose proof (digits_bounds p) as Hp. assert (Zpos (digits2_pos p) - 1 < d) by (apply pow2_lt_cancel; lia).
  assert (d - 1 < Zpos (digits2_pos p)) by (apply pow2_lt_cancel; lia). lia.
Qed.

(** The first cut leaves 53 digits. *)
Lemma shr_fexp_53 p e l : let D := Zpos (digits2_pos p) in 53 <= D -> -400 <= D + e - 53 ->
  exists r, shr_fexp 53 1024 (Zpos p) e l = (r, D + e - 53) /\ shr_m r = Zpos p / 2 ^ (D - 53) /\
    (l = loc_Exact -> Zpos p mod 2 ^ (D - 53) = 0 -> r = Build_shr_record (Zpos p / 2 ^ (D - 53)) false false).
Proof.
  intros D HD He. unfold shr_fexp, fexp, emin. cbn [Zdigits2]. fold D. replace (Z.max (D + e - 53) (3 - 1024 - 53) - e) with (D - 53) by lia.
  assert (Hm : shr_m (shr_record_of_loc (Zpos p) l) = Zpos p) by (by destruct l as [|[]]).
  destruct (D - 53) as [|q|q] eqn:Eq; cbn [shr]; [| |lia].
  - exists (shr_record_of_loc (Zpos p) l). rewrite Z.pow_0_r, Z.div_1_r. split; [f_equal; lia|]. split; [done|]. by intros ->.
  - eexists. split; [f_equal; lia|]. split; [rewrite shr_iter; rewrite Hm; [done|lia]|].
    intros -> Ex. by apply shr_iter_exact.
Qed.

(** The mantissa and exponent that result. *)
Lemma round_53 p e l : let D := Zpos (digits2_pos p) in let q := Zpos p / 2 ^ (D - 53) in 53 <= D -> -400 <= D + e - 53 < 200 ->
  exists m' e', binary_round_aux 53 1024 false (Zpos p) e l = S754_finite false m' e' /\ 2 ^ 52 <= Zpos m' < 2 ^ 53 /\ D + e - 53 <= e' <= D + e - 52 /\ 2 ^ 52 <= q < 2 ^ 53 /\
    (Zpos m' * 2 ^ (e' - (D + e - 53)) = q \/ Zpos m' * 2 ^ (e' - (D + e - 53)) = q + 1) /\
    (l = loc_Exact -> Zpos p mod 2 ^ (D - 53) = 0 -> Zpos m' * 2 ^ (e' - (D + e - 53)) = q).
Proof.
  intros D q HD He. destruct (shr_fexp_53 p e l HD ltac:(lia)) as (r & E1 & Er & Ex). fold D q in E1, Er, Ex. unfold binary_round_aux. rewrite E1.
  assert (Hq : 2 ^ 52 <= q < 2 ^ 53).
  { pose proof (digits_bounds p) as Hp. fold D in Hp. unfold q. split; [apply Z.div_le_lower_bound; [lia|]|apply Z.div_lt_upper_bound; [lia|]]; rewrite <- Z.pow_add_r by lia.
    - replace (D - 53 + 52) with (D - 1) by lia. lia.
    - replace (D - 53 + 53) with D by lia. lia. }
  set (m1 := SpecFloat.round_nearest_even (shr_m r) (loc_of_shr_record r)).
  assert (Hm1 : (m1 = q \/ m1 = q + 1) /\ (l = loc_Exact -> Zpos p mod 2 ^ (D - 53) = 0 -> m1 = q)).
  { unfold m1. rewrite Er. split; [destruct (round_even_cases q (loc_of_shr_record r)); auto|]. intros Hl Hp. rewrite (Ex Hl Hp). done. }
  clearbody m1 q. destruct Hm1 as [Hm1 Hx]. destruct m1 as [|m|m]; [lia| |lia]. destruct (Z.eq_dec (Zpos m) (2 ^ 53)) as [E53|N53].
  - assert (ED : Zpos (digits2_pos m) = 54) by (apply digits_unique; lia). destruct (shr_fexp_53 m (D + e - 53) loc_Exact ltac:(lia) ltac:(lia)) as (r2 & E2 & Er2 & _).
    rewrite E2, Er2, ED, E53. cbn. replace (_ <=? 971) with true by lia. eexists _, _. split; [done|]. replace (54 + (D + e - 53) - 53 - (D + e - 53)) with 1 by lia.
    split; [lia|]. split; [lia|]. split; [done|]. split; [right; lia|]. intros Hl Hp. specialize (Hx Hl Hp). lia.
  - assert (ED : Zpos (digits2_pos m) = 53) by (apply digits_unique; lia). destruct (shr_fexp_53 m (D + e - 53) loc_Exact ltac:(lia) ltac:(lia)) as (r2 & E2 & Er2 & _).
    rewrite E2, Er2, ED. rewrite Z.pow_0_r, Z.div_1_r. replace (_ <=? 1024 - 53) with true by lia. eexists _, _. split; [done|].
    replace (53 + (D + e - 53) - 53 - (D + e - 53)) with 0 by lia. rewrite Z.pow_0_r, Z.mul_1_r. split; [lia|]. split; [lia|]. done.
Qed.

Lemma round_value s p e l : let D := Zpos (digits2_pos p) in let f := binary_round_aux 53 1024 false (Zpos p) e l in
  1000 <= s -> 0 <= e + s -> 53 <= D -> -400 <= D + e - 53 < 200 -> rounds s (Zpos p * 2 ^ (e + s)) f /\ (l = loc_Exact -> keeps s (Zpos p * 2 ^ (e + s)) f).
Proof.
  intros D f Hs Hes HD He. destruct (round_53 p e l HD He) as (m' & e' & Ef & Hm & He' & Hq & Hr & Hx). fold D f in Ef, He', Hq, Hr, Hx. rewrite Ef.
  set (q := Zpos p / 2 ^ (D - 53)) in *. set (E := D + e - 53 + s). assert (HE : 0 < 2 ^ E) by (apply Z.pow_pos_nonneg; lia).
  assert (Ev : scaled (S754_finite false m' e') * 2 ^ (s - 1000) = Zpos m' * 2 ^ (e' - (D + e - 53)) * 2 ^ E).
  { cbn [scaled]. rewrite <- !Z.mul_assoc, <- !Z.pow_add_r by lia. f_equal. f_equal. lia. }
  assert (EP : Zpos p = q * 2 ^ (D - 53) + Zpos p mod 2 ^ (D - 53)) by (unfold q; rewrite Z.mul_comm; apply Z.div_mod; lia).
  pose proof (Z.mod_pos_bound (Zpos p) (2 ^ (D - 53)) ltac:(lia)) as Hmod. set (r := Zpos p mod 2 ^ (D - 53)) in *.
  assert (Hes' : 0 < 2 ^ (e + s)) by lia. assert (EE : 2 ^ E = 2 ^ (D - 53) * 2 ^ (e + s)) by (rewrite <- Z.pow_add_r by lia; f_equal; lia).
  assert (HP : q * 2 ^ E <= Zpos p * 2 ^ (e + s) < (q + 1) * 2 ^ E /\ (r = 0 -> Zpos p * 2 ^ (e + s) = q * 2 ^ E) /\ (r <> 0 -> q * 2 ^ E < Zpos p * 2 ^ (e + s))).
  { rewrite EE. clearbody q r. assert (0 < 2 ^ (D - 53)) by lia. generalize dependent (2 ^ (D - 53)). intros a. intros. rewrite EP. nia. }
  clearbody q r. destruct HP as (HP & HP0 & HP1). set (P := Zpos p * 2 ^ (e + s)) in *. set (v := Zpos m' * 2 ^ (e' - (D + e - 53))) in *. clearbody P v.
  split; [split|intros Hl; split].
  - exists m', e'. split; [done|lia].
  - rewrite Ev. nia.
  - rewrite Ev. nia.
  - intros B (n & j & -> & Hn & Hj) HB. apply (Z.mul_le_mono_pos_r _ _ (2 ^ (s - 1000))); [lia|]. rewrite Ev.
    assert (EB : n * 2 ^ j * 2 ^ (s - 1000) = n * 2 ^ (j + s - 1000)) by (rewrite <- Z.mul_assoc, <- Z.pow_add_r by lia; do 2 f_equal; lia). rewrite EB in *.
    destruct (Z.eq_dec r 0) as [R0|R0]; [rewrite (Hx Hl R0); rewrite <- HP0; done|]. specialize (HP1 R0).
    assert (HJ : E <= j + s - 1000 \/ j + s - 1000 < E) by lia. destruct HJ as [HJ|HJ].
    + replace (j + s - 1000) with (j + s - 1000 - E + E) in * by lia. rewrite Z.pow_add_r, Z.mul_assoc in * by lia. set (b := n * 2 ^ (j + s - 1000 - E)) in *. clearbody b.
      assert (q < b) by nia. nia.
    + exfalso. assert (2 ^ 53 * 2 ^ (j + s - 1000) <= 2 ^ 52 * 2 ^ E) by (rewrite <- !Z.pow_add_r by lia; apply Z.pow_le_mono_r; lia).
      assert (0 < 2 ^ (j + s - 1000)) by lia. nia.
  - intros B (n & j & -> & Hn & Hj) HB. apply (Z.mul_le_mono_pos_r _ _ (2 ^ (s - 1000))); [lia|]. rewrite Ev.
    assert (EB : n * 2 ^ j * 2 ^ (s - 1000) = n * 2 ^ (j + s - 1000)) by (rewrite <- Z.mul_assoc, <- Z.pow_add_r by lia; do 2 f_equal; lia). rewrite EB in *.
    assert (HJ : E <= j + s - 1000 \/ j + s - 1000 < E) by lia. destruct HJ as [HJ|HJ].
    + replace (j + s - 1000) with (j + s - 1000 - E + E) in * by lia. rewrite Z.pow_add_r, Z.mul_assoc in * by lia. set (b := n * 2 ^ (j + s - 1000 - E)) in *. clearbody b.
      assert (b < q + 1) by nia. nia.
    + assert (2 ^ 53 * 2 ^ (j + s - 1000) <= 2 ^ 52 * 2 ^ E) by (rewrite <- !Z.pow_add_r by lia; apply Z.pow_le_mono_r; lia).
      assert (0 < 2 ^ (j + s - 1000)) by lia. nia.
Qed.

Lemma normalize_value z e : let D := Zdigits2 z in 0 < z -> -400 <= D + e - 53 < 200 -> -1000 <= e ->
  let f := binary_normalize 53 1024 z e false in rounds 1000 (z * 2 ^ (e + 1000)) f /\ keeps 1000 (z * 2 ^ (e + 1000)) f.
Proof.
  intros D Hz He Hlow. destruct z as [|p|p]; [lia| |lia]. cbn [Zdigits2] in D. cbv zeta. unfold binary_normalize, binary_round, shl_align, fexp, emin. fold D.
  replace (Z.max (D + e - 53) (3 - 1024 - 53) - e) with (D - 53) by lia. pose proof (digits_bounds p) as Hp. fold D in Hp.
  destruct (D - 53) as [|d|d] eqn:Ed.
  - destruct (round_value 1000 p e loc_Exact) as [A B]; try lia. by split; [|apply B].
  - destruct (round_value 1000 p e loc_Exact) as [A B]; try lia. by split; [|apply B].
  - replace (Z.max (D + e - 53) (3 - 1024 - 53)) with (D + e - 53) by lia. set (p' := Pos.iter xO p d). pose proof (double_iter p d) as Ep. fold p' in Ep.
    assert (ED : Zpos (digits2_pos p') = 53).
    { apply digits_unique; [lia|]. rewrite Ep. replace (53 - 1) with (D - 1 + Zpos d) by lia. replace 53 with (D + Zpos d) by lia. rewrite !Z.pow_add_r by lia. nia. }
    assert (E : Zpos p * 2 ^ (e + 1000) = Zpos p' * 2 ^ (D + e - 53 + 1000)).
    { rewrite Ep, <- Z.mul_assoc, <- Z.pow_add_r by lia. f_equal. f_equal. lia. }
    rewrite E. destruct (round_value 1000 p' (D + e - 53) loc_Exact) as [A B]; try lia. by split; [|apply B].
Qed.

Lemma zdigits_bounds z : 0 < z -> 2 ^ (Zdigits2 z - 1) <= z < 2 ^ Zdigits2 z.
Proof. intros Hz. destruct z as [|p|p]; [lia|apply digits_bounds|lia]. Qed.

Lemma zdigits_le z k : 0 < z < 2 ^ k -> 0 <= k -> 0 < Zdigits2 z <= k.
Proof.
  intros Hz Hk. pose proof (zdigits_bounds z ltac:(lia)) as H. destruct z as [|p|p]; [lia| |lia]. cbn [Zdigits2] in *. split; [lia|].
  enough (Zpos (digits2_pos p) - 1 < k) by lia. apply pow2_lt_cancel; lia.
Qed.

Lemma dbl_exact z : 0 <= z < 2 ^ 53 -> regular (dbl z) /\ scaled (dbl z) = z * pw 1000.
Proof.
  intros Hz. destruct (Z.eq_dec z 0) as [->|Hn]; [split; [left; by eexists|done]|]. pose proof (zdigits_le z 53 ltac:(lia) ltac:(lia)) as Hd.
  destruct (normalize_value z 0) as [A B]; [lia|lia|lia|]. fold (dbl z) in A, B. split; [right; apply A|]. change (0 + 1000) with 1000 in *.
  assert (R : representable (z * pw 1000)) by (exists z, 1000; unfold pw; split; [done|lia]). fold (pw 1000) in A, B. replace (1000 - 1000) with 0 in * by lia.
  apply Z.le_antisymm; [apply (ke_above _ _ _ B _ R); lia|apply (ke_below _ _ _ B _ R); lia].
Qed.

(** ** Arithmetic *)

Lemma mul_value a b : normal a -> normal b -> pw 1660 <= scaled a * scaled b < pw 2200 ->
  rounds 2000 (scaled a * scaled b) (dmul a b) /\ keeps 2000 (scaled a * scaled b) (dmul a b).
Proof.
  intros (m & e & -> & Hm & He) (m' & e' & -> & Hm' & He') Hab. cbn [scaled] in *.
  change (dmul _ _) with (binary_round_aux 53 1024 false (Zpos (m * m')) (e + e') loc_Exact).
  assert (EP : Zpos m * 2 ^ (e + 1000) * (Zpos m' * 2 ^ (e' + 1000)) = Zpos (m * m') * 2 ^ (e + e' + 2000)).
  { replace (e + e' + 2000) with (e + 1000 + (e' + 1000)) by lia. rewrite (Z.pow_add_r 2 (e + 1000)), Pos2Z.inj_mul by lia. lia. }
  rewrite EP in *. pose proof (digits_bounds (m * m')) as Hd. set (D := Zpos (digits2_pos (m * m'))) in *.
  assert (HD : 105 <= D <= 106).
  { rewrite Pos2Z.inj_mul in Hd. split; [enough (104 < D) by lia|enough (D - 1 < 106) by lia]; apply pow2_lt_cancel; try lia; nia. }
  assert (He1 : 1660 < D + (e + e' + 2000) /\ D - 1 + (e + e' + 2000) < 2200).
  { split; apply pow2_lt_cancel; try lia; rewrite Z.pow_add_r by lia; [eapply Z.le_lt_trans; [apply Hab|apply Z.mul_lt_mono_pos_r; lia]|].
    eapply Z.le_lt_trans; [|apply Hab]. apply Z.mul_le_mono_nonneg_r; lia. }
  destruct (round_value 2000 (m * m') (e + e') loc_Exact) as [A B]; try (fold D; lia). by split; [|apply B].
Qed.

Lemma self_value a : normal a -> rounds 1000 (scaled a) a /\ keeps 1000 (scaled a) a.
Proof.
  intros H. pose proof (scaled_nonneg a). split; [split; [done|replace (1000 - 1000) with 0 by lia; lia..]|split; intros B _; replace (1000 - 1000) with 0 by lia; lia].
Qed.

Lemma aligned m e ez : ez <= e -> Zpos (fst (shl_align m e ez)) = Zpos m * 2 ^ (e - ez).
Proof.
  intros H. unfold shl_align. destruct (ez - e) as [|d|d] eqn:E; cbn [fst]; [|lia|].
  - replace (e - ez) with 0 by lia. lia.
  - rewrite double_iter. f_equal. f_equal. lia.
Qed.

(** The exact sum or difference of two numbers at the smaller exponent. *)
Lemma normalize_sum z ez P : -340 <= ez <= 200 -> P = z * 2 ^ (ez + 1000) -> 0 < P < pw 1200 ->
  rounds 1000 P (binary_normalize 53 1024 z ez false) /\ keeps 1000 P (binary_normalize 53 1024 z ez false).
Proof.
  intros He -> HP. assert (Hz : 0 < z) by (apply (Z.mul_pos_cancel_r z (2 ^ (ez + 1000))); [apply Z.pow_pos_nonneg; lia|apply HP]).
  pose proof (zdigits_bounds z Hz) as Hd. set (D := Zdigits2 z) in *. assert (0 < D) by (unfold D; destruct z; [lia|done|lia]).
  assert (D - 1 + (ez + 1000) < 1200).
  { apply pow2_lt_cancel; [lia|]. rewrite Z.pow_add_r by lia. eapply Z.le_lt_trans; [|apply HP]. apply Z.mul_le_mono_nonneg_r; [apply Z.pow_nonneg; lia|apply Hd]. }
  apply normalize_value; fold D; lia.
Qed.

Lemma normal_low a : normal a -> pw 720 <= scaled a -> exists m e, a = S754_finite false m e /\ 2 ^ 52 <= Zpos m < 2 ^ 53 /\ -340 <= e <= 200.
Proof.
  intros (m & e & -> & Hm & He) H. cbn [scaled] in H. exists m, e. split; [done|]. split; [done|]. split; [|lia].
  enough (720 < 53 + (e + 1000)) by lia. apply pow2_lt_cancel; [lia|]. rewrite Z.pow_add_r by lia. eapply Z.le_lt_trans; [exact H|]. apply Z.mul_lt_mono_pos_r; lia.
Qed.

Lemma scaled_at m e ez : ez <= e -> 0 <= ez + 1000 -> Zpos m * 2 ^ (e + 1000) = Zpos m * 2 ^ (e - ez) * 2 ^ (ez + 1000).
Proof. intros H H0. rewrite <- Z.mul_assoc, <- Z.pow_add_r by lia. f_equal. f_equal. lia. Qed.

(** Zero or at least 2^-280, and below 2^100. *)
Definition moderate (a : double) : Prop := (exists s, a = S754_zero s) \/ (normal a /\ pw 720 <= scaled a < pw 1100).

Lemma pw_room : 2 * pw 1100 <= pw 1200.
Proof. rewrite (pw_add 1100 100 1200) by lia. pose proof (pw_pos 1100 ltac:(lia)). assert (2 <= pw 100) by (unfold pw; lia). nia. Qed.

Lemma sub_value a b : moderate a -> moderate b -> scaled b < scaled a ->
  rounds 1000 (scaled a - scaled b) (dsub a b) /\ keeps 1000 (scaled a - scaled b) (dsub a b).
Proof.
  intros [[s ->]|[Ha Ba]] Hb Hlt; [pose proof (scaled_nonneg b); cbn [scaled] in Hlt; lia|]. destruct Hb as [[s ->]|[Hb Bb]].
  { rewrite Z.sub_0_r. destruct (self_value a Ha). destruct Ha as (m & e & -> & _). done. }
  destruct (normal_low a Ha (proj1 Ba)) as (m & e & -> & Hm & He). destruct (normal_low b Hb (proj1 Bb)) as (m' & e' & -> & Hm' & He'). cbn [scaled] in *.
  pose proof pw_room. unfold dsub. cbn [SFsub]. cbn [cond_Zopp]. apply normalize_sum; [lia| |lia].
  rewrite !aligned by lia. rewrite (scaled_at m e (Z.min e e')), (scaled_at m' e' (Z.min e e')) by lia. lia.
Qed.

Lemma sub_equal a b : moderate a -> moderate b -> scaled b = scaled a -> exists s, dsub a b = S754_zero s.
Proof.
  intros Ha Hb E. pose proof (pw_pos 720 ltac:(lia)). destruct Ha as [[s ->]|[Ha Ba]], Hb as [[s' ->]|[Hb Bb]]; cbn [scaled] in *.
  - destruct s, s'; by eexists.
  - lia.
  - lia.
  - destruct (normal_low a Ha (proj1 Ba)) as (m & e & -> & Hm & He). destruct (normal_low b Hb (proj1 Bb)) as (m' & e' & -> & Hm' & He'). cbn [scaled] in *.
    unfold dsub. cbn [SFsub cond_Zopp]. rewrite !aligned by lia. rewrite (scaled_at m e (Z.min e e')), (scaled_at m' e' (Z.min e e')) in E by lia.
    apply Z.mul_reg_r in E; [|lia]. rewrite E, Z.sub_diag. by eexists.
Qed.

Lemma add_value a b : moderate a -> moderate b -> 0 < scaled a + scaled b ->
  rounds 1000 (scaled a + scaled b) (dadd a b) /\ keeps 1000 (scaled a + scaled b) (dadd a b).
Proof.
  intros [[s ->]|[Ha Ba]] [[s' ->]|[Hb Bb]] Hlt.
  - done.
  - cbn [scaled]. destruct (self_value b Hb). destruct Hb as (m & e & -> & _). done.
  - cbn [scaled]. rewrite Z.add_0_r. destruct (self_value a Ha). destruct Ha as (m & e & -> & _). done.
  - destruct (normal_low a Ha (proj1 Ba)) as (m & e & -> & Hm & He). destruct (normal_low b Hb (proj1 Bb)) as (m' & e' & -> & Hm' & He'). cbn [scaled] in *.
    pose proof pw_room. unfold dadd. cbn [SFadd]. cbn [cond_Zopp]. apply normalize_sum; [lia| |lia].
    rewrite !aligned by lia. rewrite (scaled_at m e (Z.min e e')), (scaled_at m' e' (Z.min e e')) by lia. lia.
Qed.

(** ** Comparison and conversion *)

Lemma lt_value a b : regular a -> regular b -> SFltb a b = (scaled a <? scaled b).
Proof.
  intros [[s ->]|(m & e & -> & Hm & He)] [[s' ->]|(m' & e' & -> & Hm' & He')]; cbn [scaled].
  - done.
  - symmetry. apply Z.ltb_lt. nia.
  - symmetry. apply Z.ltb_ge. nia.
  - unfold SFltb. cbn [SFcompare]. assert (Hexp : forall m e m' e', 2 ^ 52 <= Zpos m < 2 ^ 53 -> 2 ^ 52 <= Zpos m' < 2 ^ 53 -> -400 <= e -> -400 <= e' -> e < e' -> Zpos m * 2 ^ (e + 1000) < Zpos m' * 2 ^ (e' + 1000)).
    { clear. intros m e m' e' Hm Hm' He He' Hlt. replace (e' + 1000) with (e' - e - 1 + Z.succ (e + 1000)) by lia. rewrite (Z.pow_add_r 2 (e' - e - 1)), (Z.pow_succ_r 2 (e + 1000)) by lia.
      assert (0 < 2 ^ (e + 1000)) by lia. assert (0 < 2 ^ (e' - e - 1)) by lia. generalize dependent (2 ^ (e + 1000)). generalize dependent (2 ^ (e' - e - 1)). intros x Hx y Hy. assert (Zpos m < 2 * Zpos m') by lia. assert (y <= x * y) by nia. nia. }
    destruct (Z.compare_spec e e') as [->|Hlt|Hlt].
    + change (Pos.compare_cont Eq m m') with (m ?= m')%positive. destruct (Pos.compare_spec m m') as [->|H|H]; symmetry; [apply Z.ltb_ge; lia|apply Z.ltb_lt; nia|apply Z.ltb_ge; nia].
    + symmetry. apply Z.ltb_lt. by apply Hexp; try lia.
    + symmetry. apply Z.ltb_ge, Z.lt_le_incl. by apply Hexp; try lia.
Qed.

Lemma u64_value a : regular a -> scaled a < 2 ^ 64 * pw 1000 -> u64_of_float a = Some (scaled a / pw 1000).
Proof.
  intros [[s ->]|(m & e & -> & Hm & He)] H; cbn [scaled u64_of_float] in *; [done|].
  assert (E : ipart (Zpos m) e = Zpos m * 2 ^ (e + 1000) / pw 1000).
  { unfold ipart. destruct (Z.leb_spec 0 e).
    - rewrite Z.pow_add_r, Z.mul_assoc by lia. symmetry. apply Z.div_mul. by apply not_eq_sym, Z.lt_neq, (pw_pos 1000).
    - unfold pw. replace (2 ^ 1000) with (2 ^ (- e) * 2 ^ (e + 1000)) by (rewrite <- Z.pow_add_r by lia; f_equal; lia). rewrite Z.div_mul_cancel_r by lia. done. }
  rewrite E. replace (_ <? 2 ^ 64) with true; [done|]. symmetry. apply Z.ltb_lt. apply Z.div_lt_upper_bound; [by apply (pw_pos 1000)|]. by rewrite (Z.mul_comm (pw 1000)).
Qed.

(** ** Quotients *)

Lemma div_value a b : normal a -> normal b -> pw 900 <= scaled a < pw 1100 -> pw 900 <= scaled b < pw 1100 ->
  exists P, rounds 1000 P (ddiv a b) /\ P * scaled b <= scaled a * pw 1000 /\ scaled a * pw 1000 * 2 ^ 52 <= P * scaled b * (2 ^ 52 + 1).
Proof.
  intros (m & e & -> & Hm & He) (m' & e' & -> & Hm' & He') Ha Hb. cbn [scaled] in *. unfold ddiv, SFdiv, SFdiv_core_binary. cbn [Zdigits2 xorb].
  rewrite (digits_unique m 53), (digits_unique m' 53) by lia. unfold fexp, emin.
  assert (Hexp : forall m e, 2 ^ 52 <= Zpos m < 2 ^ 53 -> -400 <= e -> pw 900 <= Zpos m * 2 ^ (e + 1000) < pw 1100 -> -152 <= e <= 48).
  { clear. intros m e Hm He [Hl Hu]. split.
    - enough (900 < 53 + (e + 1000)) by lia. apply pow2_lt_cancel; [lia|]. rewrite Z.pow_add_r by lia. eapply Z.le_lt_trans; [exact Hl|]. apply Z.mul_lt_mono_pos_r; lia.
    - enough (52 + (e + 1000) < 1100) by lia. apply pow2_lt_cancel; [lia|]. rewrite Z.pow_add_r by lia. eapply Z.le_lt_trans; [|exact Hu]. apply Z.mul_le_mono_nonneg_r; lia. }
  pose proof (Hexp m e Hm ltac:(lia) Ha). pose proof (Hexp m' e' Hm' ltac:(lia) Hb). clear Hexp.
  replace (Z.min _ _) with (e - e' - 53) by lia. replace (e - e' - (e - e' - 53)) with 53 by lia. rewrite Z.shiftl_mul_pow2 by lia.
  pose proof (Z_div_mod (Zpos m * 2 ^ 53) (Zpos m') ltac:(lia)) as Hdm. destruct (Z.div_eucl (Zpos m * 2 ^ 53) (Zpos m')) as [q r]. destruct Hdm as [Eq Hr].
  assert (Hq : 2 ^ 52 <= q < 2 ^ 54) by nia. destruct q as [|q|q]; [lia| |lia].
  assert (HD : 53 <= Zpos (digits2_pos q) <= 54).
  { pose proof (digits_bounds q). split; [enough (52 < Zpos (digits2_pos q)) by lia|enough (Zpos (digits2_pos q) - 1 < 54) by lia]; apply pow2_lt_cancel; lia. }
  exists (Zpos q * 2 ^ (e - e' - 53 + 1000)). destruct (round_value 1000 q (e - e' - 53) (new_location (Zpos m') r)) as [A _]; try lia. split; [exact A|].
  assert (E1 : Zpos q * 2 ^ (e - e' - 53 + 1000) * (Zpos m' * 2 ^ (e' + 1000)) = Zpos q * Zpos m' * 2 ^ (e + 1947)).
  { replace (e + 1947) with (e - e' - 53 + 1000 + (e' + 1000)) by lia. rewrite (Z.pow_add_r 2 (e - e' - 53 + 1000)) by lia. lia. }
  assert (E2 : Zpos m * 2 ^ (e + 1000) * pw 1000 = Zpos m * 2 ^ 53 * 2 ^ (e + 1947)).
  { rewrite <- !Z.mul_assoc, <- !Z.pow_add_r by lia. do 2 f_equal. lia. }
  rewrite E1, E2, Eq. assert (0 < 2 ^ (e + 1947)) by lia. generalize dependent (2 ^ (e + 1947)). intros x _ _ Hx. nia.
Qed.
