(* ===== verification/Cubic.v ===== *)
(** Cubic congestion control (lsquic_cubic.c) in binary64 arithmetic.  [cbrt] of the
    mathematical library is a parameter.  [None] is undefined behaviour: a division by
    zero, or a conversion to an integer that does not fit.  The fields that only
    serve logging are left out. *)
From Stdlib Require Import SpecFloat.
From S2P Require Import Prelude Art Binary Rounding.
From coqutil Require Import Datatypes.RecordSettersUsingExistingGetters.
Local Open Scope Z_scope.

Definition TCP_MSS : Z := 1460.
Definition TWO_MINUS_BETA_OVER_TWO : Z := 922.
Definition ONE_MINUS_BETA : Z := 819.
Definition CU_TCP_FRIENDLY : Z := Z.shiftl 1 0.
Definition DEFAULT_CUBIC_FLAGS : Z := CU_TCP_FRIENDLY.

Record lsquic_cubic := CUBIC {
  cu_min_delay : Z;
  cu_epoch_start : Z;
  cu_K : double;
  cu_origin_point : Z;
  cu_last_max_cwnd : Z;
  cu_cwnd : Z;
  cu_tcp_cwnd : Z;
  cu_ssthresh : Z;
  cu_flags : Z
}.

(** What precedes [cu_conn] is cleared. *)
Definition cubic_reset (c : lsquic_cubic) : lsquic_cubic :=
  CUBIC 0 0 (S754_zero false) 0 (32 * TCP_MSS) (32 * TCP_MSS) (32 * TCP_MSS) 0 (cu_flags c).

Definition lsquic_cubic_set_flags (c : lsquic_cubic) (flags : Z) : lsquic_cubic := c <| cu_flags := flags |>.

Definition lsquic_cubic_init (c : lsquic_cubic) : lsquic_cubic :=
  (cubic_reset c) <| cu_ssthresh := 10000 * TCP_MSS |> <| cu_flags := DEFAULT_CUBIC_FLAGS |>.

Definition lsquic_cubic_reinit (c : lsquic_cubic) : lsquic_cubic := (cubic_reset c) <| cu_ssthresh := 10000 * TCP_MSS |>.

Definition lsquic_cubic_was_quiet (c : lsquic_cubic) : lsquic_cubic := c <| cu_epoch_start := 0 |>.

Section cubic.
Context (cbrt : double -> double).

(** The start of an epoch. *)
Definition cubic_epoch (c : lsquic_cubic) (now : Z) : lsquic_cubic :=
  if negb (cu_epoch_start c =? 0) then c else
  let c := c <| cu_epoch_start := now |> in
  if cu_cwnd c <? cu_last_max_cwnd c
  then c <| cu_K := cbrt (dbl (cu_last_max_cwnd c / TCP_MSS / 2)) |> <| cu_origin_point := cu_last_max_cwnd c |>
  else c <| cu_K := S754_zero false |> <| cu_origin_point := cu_cwnd c |>.

Definition cubic_delta (c : lsquic_cubic) (now : Z) : double :=
  ddiv (dbl (u64 (now + cu_min_delay c - cu_epoch_start c))) (dbl 1000000).

(** [t * t * t * 0.4 * TCP_MSS] *)
Definition cubic_term (t : double) : double := dmul (dmul (dmul (dmul t t) t) (ddiv (dbl 4) (dbl 10))) (dbl TCP_MSS).

Definition cubic_target (c : lsquic_cubic) (delta_t : double) : option Z :=
  if SFltb delta_t (cu_K c)
  then u64_of_float (dsub (dbl (cu_origin_point c)) (cubic_term (dsub (cu_K c) delta_t)))
  else u64_of_float (dadd (dbl (cu_origin_point c)) (cubic_term (dsub delta_t (cu_K c)))).

Definition cubic_update (c : lsquic_cubic) (now n_bytes : Z) : option lsquic_cubic :=
  let c := cubic_epoch c now in
  target ← cubic_target c (cubic_delta c now);
  '(c, target) ← (if has_flag (cu_flags c) CU_TCP_FRIENDLY then
                    if cu_tcp_cwnd c =? 0 then None else
                    let c := c <| cu_tcp_cwnd := u64 (cu_tcp_cwnd c + u32 (u32 (n_bytes * TCP_MSS) * ONE_MINUS_BETA) / 1024 / cu_tcp_cwnd c) |> in
                    Some (c, if target <? cu_tcp_cwnd c then cu_tcp_cwnd c else target)
                  else Some (c, target));
  let target := if target =? 0 then TCP_MSS else target in
  Some (c <| cu_cwnd := target |>).

(** [po_sent] of the packet is all that is used of it. *)
Definition lsquic_cubic_ack (c : lsquic_cubic) (po_sent n_bytes now_time : Z) (app_limited : bool) : option lsquic_cubic :=
  let rtt := u64 (now_time - po_sent) in
  let c := if (cu_min_delay c =? 0) || (rtt <? cu_min_delay c) then c <| cu_min_delay := rtt |> else c in
  if cu_cwnd c <=? cu_ssthresh c then Some (c <| cu_cwnd := u64 (cu_cwnd c + TCP_MSS) |>)
  else if negb app_limited then cubic_update c now_time n_bytes
  else Some c.

Definition lsquic_cubic_loss (c : lsquic_cubic) : lsquic_cubic :=
  let c := c <| cu_epoch_start := 0 |> in
  let c := c <| cu_last_max_cwnd := if cu_cwnd c <? cu_last_max_cwnd c then u64 (cu_cwnd c * TWO_MINUS_BETA_OVER_TWO) / 1024 else cu_cwnd c |> in
  let c := c <| cu_cwnd := u64 (cu_cwnd c * ONE_MINUS_BETA) / 1024 |> in
  c <| cu_tcp_cwnd := cu_cwnd c |> <| cu_ssthresh := cu_cwnd c |>.

Definition lsquic_cubic_timeout (c : lsquic_cubic) : lsquic_cubic :=
  let cwnd := cu_cwnd c in
  (cubic_reset c) <| cu_ssthresh := cwnd / 2 |> <| cu_tcp_cwnd := 2 * TCP_MSS |> <| cu_cwnd := 2 * TCP_MSS |>.

Definition lsquic_cubic_get_cwnd (c : lsquic_cubic) : Z := cu_cwnd c.
Definition in_slow_start (c : lsquic_cubic) : bool := cu_cwnd c <? cu_ssthresh c.

Definition lsquic_cubic_pacing_rate (srtt : Z) (c : lsquic_cubic) (in_recovery : bool) : Z :=
  let srtt := if srtt =? 0 then 50000 else srtt in
  let bandwidth := u64 (cu_cwnd c * 1000000) / srtt in
  if in_slow_start c then u64 (bandwidth * 2)
  else if in_recovery then bandwidth
  else u64 (bandwidth + bandwidth / 4).

End cubic.
