(* ===== verification/CubicThms.v ===== *)
(** Theorems on Cubic: the curve is computed to within rounding, the window stays
    positive and all conversions are defined. *)
From Stdlib Require Import SpecFloat.
From S2P Require Import Prelude Art Binary Rounding Cubic.
From coqutil Require Import Datatypes.RecordSettersUsingExistingGetters.
Local Open Scope Z_scope.

(** ** Relative errors *)

(** [A] is [B] within [k] relative errors of 2^-52. *)
Definition near (k A B : Z) : Prop := 0 <= A /\ 0 <= B /\ A * (2 ^ 52) ^ k <= B * (2 ^ 52 + 1) ^ k /\ B * (2 ^ 52 - 1) ^ k <= A * (2 ^ 52) ^ k.

Lemma le_chain A B C s s' u u' : A * s <= B * u -> B * s' <= C * u' -> 0 <= s' -> 0 <= u -> A * (s * s') <= C * (u * u').
Proof.
  intros H1 H2 Hs Hu. assert (A * s * s' <= B * u * s') by (by apply Z.mul_le_mono_nonneg_r). assert (B * s' * u <= C * u' * u) by (by apply Z.mul_le_mono_nonneg_r). lia.
Qed.

Lemma powers k : 0 <= (2 ^ 52 - 1) ^ k /\ 0 <= (2 ^ 52) ^ k /\ 0 <= (2 ^ 52 + 1) ^ k.
Proof. split_and!; apply Z.pow_nonneg; lia. Qed.

Lemma near_trans j k A B C : 0 <= j -> 0 <= k -> near j A B -> near k B C -> near (j + k) A C.
Proof.
  intros Hj Hk (A0 & B0 & U1 & L1) (_ & C0 & U2 & L2). split; [done|]. split; [done|]. rewrite !Z.pow_add_r by done. pose proof (powers j). pose proof (powers k). split.
  - by apply (le_chain _ B); try apply H; try apply H0.
  - rewrite (Z.mul_comm ((2 ^ 52 - 1) ^ j)), (Z.mul_comm ((2 ^ 52) ^ j)). apply (le_chain _ B); try done; [apply H|apply H0].
Qed.

Lemma near_mul j k A B C D : 0 <= j -> 0 <= k -> near j A B -> near k C D -> near (j + k) (A * C) (B * D).
Proof.
  intros Hj Hk (A0 & B0 & U1 & L1) (C0 & D0 & U2 & L2). pose proof (powers j) as (Pj & Qj & Rj). pose proof (powers k) as (Pk & Qk & Rk).
  split; [by apply Z.mul_nonneg_nonneg|]. split; [by apply Z.mul_nonneg_nonneg|]. rewrite !Z.pow_add_r by done.
  assert (Hm : forall a b c d, 0 <= a -> 0 <= c -> a <= b -> c <= d -> a * c <= b * d) by (intros; by apply Z.mul_le_mono_nonneg).
  pose proof (Hm _ _ _ _ (Z.mul_nonneg_nonneg _ _ A0 Qj) (Z.mul_nonneg_nonneg _ _ C0 Qk) U1 U2).
  pose proof (Hm _ _ _ _ (Z.mul_nonneg_nonneg _ _ B0 Pj) (Z.mul_nonneg_nonneg _ _ D0 Pk) L1 L2). lia.
Qed.

Lemma near_refl A : 0 <= A -> near 0 A A.
Proof. intros H. unfold near. rewrite !Z.pow_0_r. lia. Qed.

Lemma near_scale k A B c : 0 <= k -> 0 <= c -> near k A B -> near k (A * c) (B * c).
Proof. intros Hk Hc H. rewrite <- (Z.add_0_r k). apply near_mul; [done|done|done|by apply near_refl]. Qed.

Lemma near_unscale k A B c : 0 < c -> near k (A * c) (B * c) -> near k A B.
Proof.
  intros Hc (HA & HB & U & L). split; [nia|]. split; [nia|]. split; apply (Z.mul_le_mono_pos_r _ _ c); lia.
Qed.

Lemma rounds_near s P f : 1000 <= s -> 0 <= P -> rounds s P f -> near 1 (scaled f * 2 ^ (s - 1000)) P.
Proof.
  intros Hs HP [_ A B]. unfold near. rewrite !Z.pow_1_r. pose proof (scaled_nonneg f). split; [apply Z.mul_nonneg_nonneg; lia|]. split; [done|]. by split.
Qed.

Lemma near_self k A : 0 <= k -> 0 <= A -> near k A A.
Proof.
  intros Hk HA. pose proof (powers k). assert ((2 ^ 52 - 1) ^ k <= (2 ^ 52) ^ k <= (2 ^ 52 + 1) ^ k) by (split; apply Z.pow_le_mono_l; lia).
  split; [done|]. split; [done|]. split; apply Z.mul_le_mono_nonneg_l; lia.
Qed.

(** Nine errors of 2^-52 are less than one of 2^-48. *)
Lemma near_9 k A B : 0 <= k <= 9 -> near k A B -> A * 2 ^ 48 <= B * (2 ^ 48 + 1) /\ B * (2 ^ 48 - 1) <= A * 2 ^ 48.
Proof.
  intros Hk H. pose proof H as (HA & HB & _). assert (H9 : near 9 A B).
  { replace 9 with (k + (9 - k)) by lia. apply (near_trans k (9 - k) A B B); [lia|lia|done|apply near_self; lia]. }
  destruct H9 as (_ & _ & U & L). assert (Hc : (2 ^ 52 + 1) ^ 9 * 2 ^ 48 <= (2 ^ 48 + 1) * (2 ^ 52) ^ 9 /\ (2 ^ 48 - 1) * (2 ^ 52) ^ 9 <= (2 ^ 52 - 1) ^ 9 * 2 ^ 48) by (split; vm_compute; discriminate).
  set (S := (2 ^ 52) ^ 9) in *. assert (HS : 0 < S) by (unfold S; lia). set (u := (2 ^ 52 + 1) ^ 9) in *. set (l := (2 ^ 52 - 1) ^ 9) in *. clearbody S u l.
  split; apply (Z.mul_le_mono_pos_r _ _ S); try done; nia.
Qed.

Lemma near_factor k A B : 0 <= k <= 9 -> near k A B -> A <= 2 * B /\ B <= 2 * A.
Proof. intros Hk H. pose proof (near_9 k A B Hk H). destruct H as (HA & HB & _). lia. Qed.

(** ** The cubic term *)

Definition within (i j a : Z) : Prop := pw i <= a < pw j.

Lemma within_mul i j i' j' a b : 0 <= i -> 0 <= i' -> 0 <= j -> 0 <= j' -> within i j a -> within i' j' b -> within (i + i') (j + j') (a * b).
Proof.
  intros Hi Hi' Hj Hj' [A A'] [B B']. unfold within. rewrite (pw_add i i' (i + i')), (pw_add j j' (j + j')) by done. pose proof (pw_pos i Hi). pose proof (pw_pos i' Hi').
  split; [apply Z.mul_le_mono_nonneg; lia|apply Z.mul_lt_mono_nonneg; lia].
Qed.

Lemma mul_step i j i' j' a b : normal a -> normal b -> 0 <= i -> 0 <= i' -> 0 <= j -> 0 <= j' -> within i j (scaled a) -> within i' j' (scaled b) -> 1660 <= i + i' -> 1660 <= j + j' <= 2200 ->
  normal (dmul a b) /\ near 1 (scaled (dmul a b) * pw 1000) (scaled a * scaled b) /\ within (i + i' - 1001) (j + j' - 999) (scaled (dmul a b)).
Proof.
  intros Ha Hb Hi Hi' Hj Hj' Wa Wb Hl Hu. pose proof (within_mul i j i' j' _ _ Hi Hi' Hj Hj' Wa Wb) as [W1 W2].
  pose proof (pw_le 1660 (i + i') Hl ltac:(lia)). pose proof (pw_le (j + j') 2200 ltac:(lia) ltac:(lia)). pose proof (pw_pos 1660 ltac:(lia)).
  destruct (mul_value a b Ha Hb ltac:(lia)) as [R _]. split; [apply R|].
  assert (N : near 1 (scaled (dmul a b) * pw 1000) (scaled a * scaled b)) by (apply (rounds_near 2000); [lia|lia|done]).
  split; [done|]. pose proof (near_factor 1 _ _ ltac:(lia) N) as [F1 F2]. unfold within.
  pose proof (pw_add (i + i' - 1001) 1001 (i + i') ltac:(lia) ltac:(lia) ltac:(lia)). pose proof (pw_add (j + j' - 999) 999 (j + j') ltac:(lia) ltac:(lia) ltac:(lia)).
  pose proof (pw_add 1 999 1000 ltac:(lia) ltac:(lia) ltac:(lia)) as E1. pose proof (pw_add 2 999 1001 ltac:(lia) ltac:(lia) ltac:(lia)) as E2. change (pw 1) with 2 in E1. change (pw 2) with 4 in E2.
  rewrite E1 in *. rewrite E2 in *. pose proof (pw_pos 999 ltac:(lia)) as Hh. generalize dependent (pw 999). intros h **. split; [apply (Z.mul_le_mono_pos_r _ _ h)|apply (Z.mul_lt_mono_pos_r h)]; lia.
Qed.

Lemma four_tenths : normal (ddiv (dbl 4) (dbl 10)) /\ near 1 (scaled (ddiv (dbl 4) (dbl 10)) * 5) (pw 1000 * 2) /\ within 998 999 (scaled (ddiv (dbl 4) (dbl 10))).
Proof.
  split; [eexists _, _; split; [vm_compute; reflexivity|]; split; vm_compute; split; congruence|]. split; [unfold near|unfold within]; split_and!; vm_compute; congruence.
Qed.

Lemma mss_value : normal (dbl TCP_MSS) /\ scaled (dbl TCP_MSS) = TCP_MSS * pw 1000 /\ within 1010 1011 (scaled (dbl TCP_MSS)).
Proof.
  split; [eexists _, _; split; [vm_compute; reflexivity|]; split; vm_compute; split; congruence|]. split; [vm_compute; reflexivity|]. split; vm_compute; congruence.
Qed.

Lemma term_value t T : normal t -> 0 <= T -> near 1 (scaled t) T -> within 925 1020 (scaled t) ->
  normal (cubic_term t) /\ near 8 (scaled (cubic_term t) * pw 2000) (584 * T ^ 3) /\ within 720 1090 (scaled (cubic_term t)).
Proof.
  intros Ht HT N W. unfold cubic_term. destruct four_tenths as (H4 & N4 & W4). destruct mss_value as (Hm & Em & Wm).
  destruct (mul_step 925 1020 925 1020 t t) as (H1 & N1 & W1); [exact Ht|exact Ht|lia|lia|lia|lia|exact W|exact W|lia|lia|]. set (a1 := dmul t t) in *.
  destruct (mul_step (925 + 925 - 1001) (1020 + 1020 - 999) 925 1020 a1 t) as (H2 & N2 & W2); [exact H1|exact Ht|lia|lia|lia|lia|exact W1|exact W|lia|lia|]. set (a2 := dmul a1 t) in *.
  destruct (mul_step (925 + 925 - 1001 + 925 - 1001) (1020 + 1020 - 999 + 1020 - 999) 998 999 a2 (ddiv (dbl 4) (dbl 10))) as (H3 & N3 & W3); [exact H2|exact H4|lia|lia|lia|lia|exact W2|exact W4|lia|lia|]. set (a3 := dmul a2 _) in *.
  destruct (mul_step (925 + 925 - 1001 + 925 - 1001 + 998 - 1001) (1020 + 1020 - 999 + 1020 - 999 + 999 - 999) 1010 1011 a3 (dbl TCP_MSS)) as (H5 & N5 & W5); [exact H3|exact Hm|lia|lia|lia|lia|exact W3|exact Wm|lia|lia|]. set (a4 := dmul a3 _) in *.
  split; [done|]. split.
  - set (h := pw 1000) in *. assert (Hh : 0 < h) by (apply pw_pos; lia). replace (pw 2000) with (h * h) by (symmetry; apply pw_add; lia). set (c := scaled (ddiv (dbl 4) (dbl 10))) in *.
    rewrite Em in N5. unfold TCP_MSS in N5. clearbody h c a1 a2 a3 a4.
    assert (M2 : near 3 (scaled a1 * h) (T * T)) by (apply (near_trans 1 2 _ (scaled t * scaled t)); [lia|lia|done|by apply (near_mul 1 1)]).
    assert (M3 : near 5 (scaled a2 * h * h) (T * T * T)).
    { apply (near_trans 1 4 _ (scaled a1 * scaled t * h)); [lia|lia|apply near_scale; lia || done|]. replace (scaled a1 * scaled t * h) with (scaled a1 * h * scaled t) by lia. by apply (near_mul 3 1). }
    assert (M4 : near 7 (scaled a3 * h * (h * h * 5)) (T * T * T * (h * 2))).
    { apply (near_trans 1 6 _ (scaled a2 * c * (h * h * 5))); [lia|lia|apply near_scale; lia || done|]. replace (scaled a2 * c * (h * h * 5)) with (scaled a2 * h * h * (c * 5)) by lia. by apply (near_mul 5 1). }
    apply (near_unscale _ _ _ (h * h * 5)); [lia|]. replace (scaled a4 * (h * h) * (h * h * 5)) with (scaled a4 * h * (h * h * h * 5)) by lia.
    apply (near_trans 1 7 _ (scaled a3 * (1460 * h) * (h * h * h * 5))); [lia|lia|apply near_scale; lia || done|].
    replace (scaled a3 * (1460 * h) * (h * h * h * 5)) with (scaled a3 * h * (h * h * 5) * (1460 * h)) by lia. replace (584 * T ^ 3 * (h * h * 5)) with (T * T * T * (h * 2) * (1460 * h)) by lia.
    apply near_scale; lia || done.
  - clear -W5. destruct W5 as [A B]. split; [eapply Z.le_trans; [|exact A]|eapply Z.lt_le_trans; [exact B|]]; apply pw_le; lia.
Qed.

(** ** Elapsed time *)

Definition seconds (usecs : Z) : double := ddiv (dbl usecs) (dbl 1000000).

Lemma million_value : normal (dbl 1000000) /\ scaled (dbl 1000000) = 1000000 * pw 1000.
Proof. split; [eexists _, _; split; [vm_compute; reflexivity|]; split; vm_compute; split; congruence|vm_compute; reflexivity]. Qed.

Lemma seconds_value N : 0 < N < 2 ^ 34 -> normal (seconds N) /\ near 2 (scaled (seconds N) * 1000000) (N * pw 1000) /\ within 979 1016 (scaled (seconds N)).
Proof.
  intros HN. destruct (dbl_exact N ltac:(lia)) as [[[s E]|HnN] EN]; [rewrite E in EN; cbn [scaled] in EN; pose proof (pw_pos 1000 ltac:(lia)); nia|]. destruct million_value as [Hm Em].
  pose proof (pw_add 100 1000 1100 ltac:(lia) ltac:(lia) ltac:(lia)) as E11. change (pw 100) with (2 ^ 100) in E11. pose proof (pw_le 900 1000 ltac:(lia) ltac:(lia)). pose proof (pw_pos 1000 ltac:(lia)).
  destruct (div_value (dbl N) (dbl 1000000) HnN Hm) as (P & R & U & L); [rewrite EN; nia|rewrite Em; lia|]. fold (seconds N) in R. rewrite EN, Em in U, L.
  set (h := pw 1000) in *. assert (Hh : 0 < h) by (apply pw_pos; lia).
  assert (HP : 0 < P) by (clear -U L HN Hh; clearbody h; nia).
  assert (Np : near 1 (scaled (seconds N)) P) by (pose proof (rounds_near 1000 P _ ltac:(lia) ltac:(lia) R) as Np; replace (1000 - 1000) with 0 in Np by lia; rewrite Z.mul_1_r in Np; exact Np).
  assert (U' : P * 1000000 <= N * h) by (apply (Z.mul_le_mono_pos_r _ _ h); lia). assert (L' : N * h * 2 ^ 52 <= P * 1000000 * (2 ^ 52 + 1)) by (apply (Z.mul_le_mono_pos_r _ _ h); lia).
  assert (Nq : near 1 (P * 1000000) (N * h)) by (unfold near; rewrite !Z.pow_1_r; lia).
  assert (N2 : near 2 (scaled (seconds N) * 1000000) (N * h)) by (apply (near_trans 1 1 _ (P * 1000000)); [lia|lia|apply near_scale; lia || done|done]).
  split; [apply R|]. split; [done|]. pose proof (near_factor 2 _ _ ltac:(lia) N2) as [F1 F2].
  assert (pw 979 * 2 ^ 21 = h /\ pw 1016 = 2 ^ 16 * h) as [Ea Eb] by (split; [symmetry; apply (pw_add 979 21); lia|apply (pw_add 16 1000); lia]).
  unfold within. rewrite Eb. clear -F1 F2 Ea Hh HN. clearbody h. generalize dependent (pw 979). intros a Ea. assert (h <= N * h < 2 ^ 34 * h) by nia. lia.
Qed.

Lemma seconds_zero : exists s, seconds 0 = S754_zero s.
Proof. by eexists. Qed.

(** ** Differences of two numbers *)

Lemma scaled_multiple a j : normal a -> 53 <= j -> 2 ^ j <= scaled a -> exists k, scaled a = k * 2 ^ (j - 53).
Proof.
  intros (m & e & -> & Hm & He) Hj H. cbn [scaled] in *. assert (He' : j - 53 <= e + 1000).
  { enough (j < 53 + (e + 1000)) by lia. apply pow2_lt_cancel; [lia|]. rewrite Z.pow_add_r by lia. eapply Z.le_lt_trans; [exact H|]. apply Z.mul_lt_mono_pos_r; lia. }
  exists (Zpos m * 2 ^ (e + 1000 - (j - 53))). rewrite <- Z.mul_assoc, <- Z.pow_add_r by lia. do 2 f_equal. lia.
Qed.

Lemma gap a b j : normal a -> normal b -> 53 <= j -> 2 ^ j <= scaled a -> 2 ^ j <= scaled b -> scaled b < scaled a -> 2 ^ (j - 53) <= scaled a - scaled b.
Proof.
  intros Ha Hb Hj La Lb Hlt. destruct (scaled_multiple a j Ha Hj La) as [k Ek]. destruct (scaled_multiple b j Hb Hj Lb) as [k' Ek']. rewrite Ek, Ek' in *.
  assert (Hx : 0 < 2 ^ (j - 53)) by lia. clear -Hx Hlt. generalize dependent (2 ^ (j - 53)). intros x Hlt Hx. assert (k' < k) by (apply (Z.mul_lt_mono_pos_r x); done). nia.
Qed.

(** Zero, or a number of seconds between 2^-21 and 2^16. *)
Definition timely (a : double) : Prop := (exists s, a = S754_zero s) \/ (normal a /\ within 979 1016 (scaled a)).

Lemma timely_moderate a : timely a -> moderate a.
Proof.
  intros [?|[Ha [L U]]]; [by left|right; split; [done|]]. split; [eapply Z.le_trans; [|exact L]|eapply Z.lt_le_trans; [exact U|]]; apply pw_le; lia.
Qed.

(** The difference of two times, and the term of it. *)
Lemma difference_term a b : timely a -> timely b -> scaled b < scaled a ->
  let f := cubic_term (dsub a b) in normal f /\ near 8 (scaled f * pw 2000) (584 * (scaled a - scaled b) ^ 3) /\ within 720 1090 (scaled f).
Proof.
  intros Ha Hb Hlt. destruct (sub_value a b (timely_moderate a Ha) (timely_moderate b Hb) Hlt) as [R _]. pose proof (scaled_nonneg b) as H0.
  assert (N : near 1 (scaled (dsub a b)) (scaled a - scaled b)).
  { pose proof (rounds_near 1000 (scaled a - scaled b) (dsub a b) ltac:(lia) ltac:(lia) R) as Np. replace (1000 - 1000) with 0 in Np by lia. rewrite Z.mul_1_r in Np. exact Np. }
  apply term_value; [apply R|lia|done|]. pose proof (near_factor 1 _ _ ltac:(lia) N) as [F1 F2].
  destruct Ha as [[s ->]|[Ha [La Ua]]]; [cbn [scaled] in Hlt; lia|].
  assert (Hgap : pw 926 <= scaled a - scaled b).
  { destruct Hb as [[s ->]|[Hb [Lb Ub]]]; [cbn [scaled]; pose proof (pw_le 926 979 ltac:(lia) ltac:(lia)); lia|].
    exact (gap a b 979 Ha Hb ltac:(lia) La Lb Hlt). }
  pose proof (pw_add 1 925 926 ltac:(lia) ltac:(lia) ltac:(lia)) as E1. pose proof (pw_add 4 1016 1020 ltac:(lia) ltac:(lia) ltac:(lia)) as E2. change (pw 1) with 2 in E1. change (pw 4) with 16 in E2.
  pose proof (pw_pos 1016 ltac:(lia)). split; lia.
Qed.

Lemma difference_zero a b : timely a -> timely b -> scaled b = scaled a -> exists s, cubic_term (dsub a b) = S754_zero s.
Proof.
  intros Ha Hb E. destruct (sub_equal a b (timely_moderate a Ha) (timely_moderate b Hb) E) as [s ->]. unfold cubic_term. destruct s; eexists; vm_compute; reflexivity.
Qed.

(** ** The curve *)

Section cubic.
Context (cbrt : double -> double).

(** What the code relies on: the cube root is right to within 2^-30. *)
Record cbrt_accurate : Prop := {
  ca_zero : exists s, cbrt (dbl 0) = S754_zero s;
  ca_normal : forall x, 0 < x < 2 ^ 40 -> normal (cbrt (dbl x));
  ca_above : forall x, 0 < x < 2 ^ 40 -> (scaled (cbrt (dbl x)) * 2 ^ 30) ^ 3 <= x * ((2 ^ 30 + 1) * pw 1000) ^ 3;
  ca_below : forall x, 0 < x < 2 ^ 40 -> x * ((2 ^ 30 - 1) * pw 1000) ^ 3 <= (scaled (cbrt (dbl x)) * 2 ^ 30) ^ 3
}.
Context (Hcbrt : cbrt_accurate).

Lemma cbrt_timely x : 0 <= x < 2 ^ 40 -> timely (cbrt (dbl x)).
Proof using Hcbrt.
  intros Hx. destruct (Z.eq_dec x 0) as [->|Hn]; [left; apply Hcbrt|]. right. assert (Hx' : 0 < x < 2 ^ 40) by lia. split; [by apply Hcbrt|].
  pose proof (ca_above Hcbrt x Hx') as U. pose proof (ca_below Hcbrt x Hx') as L. set (k := scaled (cbrt (dbl x))) in *. pose proof (scaled_nonneg (cbrt (dbl x))) as Hk. fold k in Hk.
  pose proof (pw_pos 1000 ltac:(lia)) as Hh.
  assert (L1 : (2 ^ 30 - 1) * pw 1000 <= k * 2 ^ 30).
  { apply Z.nlt_ge. intros Hlt. assert (Hc : (k * 2 ^ 30) ^ 3 < ((2 ^ 30 - 1) * pw 1000) ^ 3) by (apply Z.pow_lt_mono_l; [lia|split; [lia|exact Hlt]]).
    assert (HA : 0 < ((2 ^ 30 - 1) * pw 1000) ^ 3) by (apply Z.pow_pos_nonneg; lia). clear -Hc HA L Hx'. generalize dependent (((2 ^ 30 - 1) * pw 1000) ^ 3). generalize dependent ((k * 2 ^ 30) ^ 3). intros B A **. nia. }
  assert (U1 : k * 2 ^ 30 < 2 ^ 14 * ((2 ^ 30 + 1) * pw 1000)).
  { apply Z.nle_gt. intros Hle. assert (Hc : (2 ^ 14 * ((2 ^ 30 + 1) * pw 1000)) ^ 3 <= (k * 2 ^ 30) ^ 3) by (apply Z.pow_le_mono_l; split; [lia|exact Hle]). rewrite Z.pow_mul_l in Hc.
    assert (HA : 0 < ((2 ^ 30 + 1) * pw 1000) ^ 3) by (apply Z.pow_pos_nonneg; lia). clear -Hc HA U Hx'. generalize dependent (((2 ^ 30 + 1) * pw 1000) ^ 3). generalize dependent ((k * 2 ^ 30) ^ 3). intros B A **. nia. }
  clear -L1 U1 Hh Hk. pose proof (pw_le 979 999 ltac:(lia) ltac:(lia)). pose proof (pw_add 1 999 1000 ltac:(lia) ltac:(lia) ltac:(lia)) as E2. pose proof (pw_add 16 1000 1016 ltac:(lia) ltac:(lia) ltac:(lia)) as E3.
  change (pw 1) with 2 in E2. change (pw 16) with (2 ^ 16) in E3. unfold within. rewrite E3. clearbody k. lia.
Qed.

Lemma pw_cube : pw 1000 ^ 3 = pw 3000.
Proof using. unfold pw. rewrite <- Z.pow_mul_r by lia. f_equal. Qed.

Lemma pw_3000 : pw 3000 = pw 1000 * pw 2000.
Proof using. apply pw_add; lia. Qed.

(** At the plateau's distance from the origin, a fifth of the origin is taken off. *)
Lemma cbrt_fifth x o : 0 < x < 2 ^ 40 -> 2920 * x <= o -> 584 * scaled (cbrt (dbl x)) ^ 3 * 1000 <= 201 * o * pw 3000.
Proof using Hcbrt.
  intros Hx Ho. pose proof (ca_above Hcbrt x Hx) as U. set (k := scaled (cbrt (dbl x))) in *. rewrite !Z.pow_mul_l in U.
  rewrite pw_cube in U. pose proof (pw_pos 3000 ltac:(lia)) as Hh. generalize dependent (pw 3000). intros h **.
  assert (C : 1000 * 584 * (2 ^ 30 + 1) ^ 3 <= 201 * 2920 * (2 ^ 30) ^ 3) by (vm_compute; discriminate). set (a := (2 ^ 30 + 1) ^ 3) in *. set (b := (2 ^ 30) ^ 3) in *. assert (0 < b) by (unfold b; lia). clearbody a b.
  apply (Z.mul_le_mono_pos_r _ _ b); [done|]. transitivity (584 * 1000 * (x * (a * h))); [nia|]. transitivity (201 * 2920 * b * (x * h)); [nia|]. assert (x * h * 2920 <= o * h) by nia. nia.
Qed.

(** [a] bytes are 584 times the cube of [T], in units of 2^-1000 seconds, to within
    2^-48 and two bytes. *)
Definition cubed (a T : Z) : Prop := Z.abs (a * pw 3000 - 584 * T ^ 3) * 2 ^ 48 <= 584 * T ^ 3 + 2 * 2 ^ 48 * pw 3000.

Record curve (c : lsquic_cubic) : Prop := {
  cv_origin : 1 <= cu_origin_point c <= 2 ^ 50;
  cv_K : (exists s, cu_K c = S754_zero s) \/ exists x, 0 < x < 2 ^ 40 /\ cu_K c = cbrt (dbl x) /\ 2920 * x <= cu_origin_point c
}.

Lemma curve_timely c : curve c -> timely (cu_K c).
Proof using Hcbrt. intros [_ [?|(x & Hx & -> & _)]]; [by left|apply cbrt_timely; lia]. Qed.

Lemma seconds_timely N : 0 <= N < 2 ^ 34 -> timely (seconds N).
Proof using. intros HN. destruct (Z.eq_dec N 0) as [->|Hn]; [left; apply seconds_zero|]. right. destruct (seconds_value N) as (A & _ & B); [lia|done]. Qed.

Lemma timely_regular a : timely a -> regular a.
Proof using. intros [?|[? _]]; [by left|by right]. Qed.

Lemma cubed_intro a x T d : near 8 (x * pw 2000) (584 * T ^ 3) -> a * pw 1000 = x + d -> Z.abs d <= 2 * pw 1000 -> cubed a T.
Proof using.
  intros N E Hd. destruct (near_9 8 _ _ ltac:(lia) N) as [U L]. unfold cubed.
  rewrite pw_3000. set (g := pw 2000) in *. assert (Hg : 0 < g) by (apply pw_pos; lia). set (h := pw 1000) in *.
  set (Y := 584 * T ^ 3) in *. clearbody g h Y. replace (a * (h * g)) with (x * g + d * g) by nia. assert (Z.abs (d * g) <= 2 * h * g) by (rewrite Z.abs_mul; nia). lia.
Qed.

Lemma origin_value o : 1 <= o <= 2 ^ 50 -> scaled (dbl o) = o * pw 1000 /\ moderate (dbl o).
Proof using.
  intros Ho. destruct (dbl_exact o ltac:(lia)) as [[[s E]|Hn] Eo]; [rewrite E in Eo; cbn [scaled] in Eo; pose proof (pw_pos 1000 ltac:(lia)); nia|]. split; [done|]. right. split; [done|]. rewrite Eo.
  pose proof (pw_add 100 1000 1100 ltac:(lia) ltac:(lia) ltac:(lia)) as E11. change (pw 100) with (2 ^ 100) in E11. pose proof (pw_le 720 1000 ltac:(lia) ltac:(lia)). pose proof (pw_pos 1000 ltac:(lia)). nia.
Qed.

Lemma term_moderate f : normal f -> within 720 1090 (scaled f) -> moderate f.
Proof using. intros Hn [L U]. right. split; [done|]. split; [done|]. eapply Z.lt_le_trans; [exact U|]. apply pw_le; lia. Qed.

Lemma rounds_1000 P f : rounds 1000 P f -> scaled f * 2 ^ 52 <= P * (2 ^ 52 + 1) /\ P * (2 ^ 52 - 1) <= scaled f * 2 ^ 52.
Proof using. intros [_ A B]. replace (1000 - 1000) with 0 in A, B by lia. lia. Qed.

Lemma keeps_1000 P f B : keeps 1000 P f -> representable B -> (P <= B -> scaled f <= B) /\ (B <= P -> B <= scaled f).
Proof using. intros [A A'] R. replace (1000 - 1000) with 0 in A, A' by lia. split; intros H; [apply A|apply A']; done || lia. Qed.

Lemma whole V : 0 <= V -> exists r, V = V / pw 1000 * pw 1000 + r /\ 0 <= r < pw 1000.
Proof using. intros HV. pose proof (pw_pos 1000 ltac:(lia)). exists (V mod pw 1000). split; [rewrite Z.mul_comm; apply Z.div_mod; lia|apply Z.mod_pos_bound; lia]. Qed.

(** Before the plateau. *)
Lemma target_below c N : curve c -> 0 <= N < 2 ^ 34 -> let o := cu_origin_point c in let d := seconds N in scaled d < scaled (cu_K c) ->
  exists t, u64_of_float (dsub (dbl o) (cubic_term (dsub (cu_K c) d))) = Some t /\ t <= o /\ 79 * o <= 100 * (t + 1) /\ cubed (o - t) (scaled (cu_K c) - scaled d).
Proof using Hcbrt.
  intros Hc HN o d Hlt. destruct (difference_term _ _ (curve_timely c Hc) (seconds_timely N HN) Hlt) as (Hf & Nf & Wf). fold d in Nf, Hf, Wf. set (f := cubic_term _) in *. set (T := scaled (cu_K c) - scaled d) in *.
  destruct (origin_value o (cv_origin c Hc)) as [Eo Mo]. pose proof (scaled_nonneg d) as Hd0. pose proof (scaled_nonneg f) as Hf0.
  assert (HT : 584 * T ^ 3 * 1000 <= 201 * o * pw 3000).
  { destruct (cv_K c Hc) as [[s EK]|(x & Hx & EK & Ho)]; [rewrite EK in Hlt; cbn [scaled] in Hlt; lia|]. pose proof (cbrt_fifth x o Hx Ho) as H5. rewrite <- EK in H5.
    assert (T ^ 3 <= scaled (cu_K c) ^ 3) by (apply Z.pow_le_mono_l; lia). lia. }
  destruct (near_9 8 _ _ ltac:(lia) Nf) as [Uf _]. assert (Hx : scaled f * 10000 <= 2011 * (o * pw 1000)).
  { rewrite pw_3000 in HT. pose proof (pw_pos 2000 ltac:(lia)) as Hg.
    pose proof Nf as (_ & HY & _). apply (Z.mul_le_mono_pos_r _ _ (pw 2000)); [done|]. clear -HT Uf HY. set (Y := 584 * T ^ 3) in *. generalize dependent (pw 2000). generalize dependent (pw 1000). intros h g **. clearbody Y. lia. }
  assert (Ho : 1 <= o <= 2 ^ 50) by apply Hc. pose proof (pw_pos 1000 ltac:(lia)) as Hh. assert (Hoh : pw 1000 <= o * pw 1000 <= 2 ^ 50 * pw 1000) by nia.
  destruct (sub_value (dbl o) f Mo (term_moderate f Hf Wf)) as [R Kp]; [rewrite Eo; lia|]. set (e := dsub (dbl o) f) in *. rewrite Eo in *.
  destruct (rounds_1000 _ _ R) as [R1 R2]. assert (Hrep : representable (o * pw 1000)) by (exists o, 1000; split; [done|lia]). destruct (keeps_1000 _ _ _ Kp Hrep) as [K1 _]. specialize (K1 ltac:(lia)).
  exists (scaled e / pw 1000). split; [apply u64_value; [right; apply R|lia]|]. destruct (whole (scaled e) (scaled_nonneg e)) as (r & Er & Hr). set (t := scaled e / pw 1000) in *.
  split; [|split].
  - apply (Z.mul_le_mono_pos_r _ _ (pw 1000)); lia.
  - apply (Z.mul_le_mono_pos_r _ _ (pw 1000)); lia.
  - apply (cubed_intro _ (scaled f) _ (o * pw 1000 - scaled f - scaled e + r)); [done|lia|lia].
Qed.

(** After it. *)
Lemma target_above c N : curve c -> 0 <= N < 2 ^ 34 -> let o := cu_origin_point c in let d := seconds N in scaled (cu_K c) <= scaled d ->
  exists t, u64_of_float (dadd (dbl o) (cubic_term (dsub d (cu_K c)))) = Some t /\ o <= t < 2 ^ 52 /\ cubed (t - o) (scaled d - scaled (cu_K c)).
Proof using Hcbrt.
  intros Hc HN o d Hle. destruct (origin_value o (cv_origin c Hc)) as [Eo Mo]. assert (Ho : 1 <= o <= 2 ^ 50) by apply Hc. pose proof (pw_pos 1000 ltac:(lia)) as Hh. pose proof (scaled_nonneg (cu_K c)) as HK0.
  set (f := cubic_term (dsub d (cu_K c))). set (T := scaled d - scaled (cu_K c)).
  assert (Hf : moderate f /\ 0 <= scaled f <= 3200000000000000 * pw 1000 /\ near 8 (scaled f * pw 2000) (584 * T ^ 3)).
  { destruct (Z.eq_dec (scaled (cu_K c)) (scaled d)) as [E|Hn].
    - destruct (difference_zero d (cu_K c) (seconds_timely N HN) (curve_timely c Hc) E) as [s Es]. unfold f, T. rewrite Es, E, Z.sub_diag. split; [left; by eexists|]. split; [cbn [scaled]; lia|]. apply near_self; lia.
    - destruct (difference_term d (cu_K c) (seconds_timely N HN) (curve_timely c Hc) ltac:(lia)) as (Hf & Nf & Wf). fold f in Hf, Nf, Wf. fold T in Nf. split; [by apply term_moderate|]. split; [|done].
      pose proof (scaled_nonneg f). split; [done|]. destruct (near_9 8 _ _ ltac:(lia) Nf) as [Uf _].
      assert (HT : T * 1000000 <= 17500000000 * pw 1000).
      { destruct (Z.eq_dec N 0) as [->|HN0]; [unfold d in *; destruct seconds_zero as [s Es]; rewrite Es in *; cbn [scaled] in *; lia|].
        destruct (seconds_value N ltac:(lia)) as (_ & N2 & _). fold d in N2. destruct (near_9 2 _ _ ltac:(lia) N2) as [U2 _]. assert (N * pw 1000 <= 2 ^ 34 * pw 1000) by (apply Z.mul_le_mono_nonneg_r; lia). unfold T. lia. }
      assert (HT3 : (T * 1000000) ^ 3 <= (17500000000 * pw 1000) ^ 3) by (apply Z.pow_le_mono_l; unfold T in *; lia). rewrite !Z.pow_mul_l in HT3.
      rewrite pw_cube, pw_3000 in HT3.
      apply (Z.mul_le_mono_pos_r _ _ (pw 2000)); [by apply pw_pos|]. pose proof Nf as (_ & HY & _). clear -HT3 Uf HY. generalize dependent (pw 2000). generalize dependent (pw 1000). generalize dependent (T ^ 3). intros Y HY h g **. lia. }
  destruct Hf as (Mf & Bf & Nf). assert (Hoh : pw 1000 <= o * pw 1000 <= 2 ^ 50 * pw 1000) by nia.
  destruct (add_value (dbl o) f Mo Mf) as [R Kp]; [rewrite Eo; lia|]. set (e := dadd (dbl o) f) in *. rewrite Eo in *.
  destruct (rounds_1000 _ _ R) as [R1 R2]. assert (Hrep : representable (o * pw 1000)) by (exists o, 1000; split; [done|lia]). destruct (keeps_1000 _ _ _ Kp Hrep) as [_ K1]. specialize (K1 ltac:(lia)).
  exists (scaled e / pw 1000). split; [apply u64_value; [right; apply R|lia]|]. destruct (whole (scaled e) (scaled_nonneg e)) as (r & Er & Hr). set (t := scaled e / pw 1000) in *.
  split; [split|].
  - apply Z.div_le_lower_bound; lia.
  - apply Z.div_lt_upper_bound; lia.
  - apply (cubed_intro _ (scaled f) _ (scaled e - o * pw 1000 - scaled f - r)); [done|lia|lia].
Qed.

End cubic.
