(* ===== verification/CubicClaims.v ===== *)
(** Runs of Cubic and what they guarantee. *)
From Stdlib Require Import SpecFloat.
From S2P Require Import Prelude Art Binary Rounding Cubic CubicThms.
From coqutil Require Import Datatypes.RecordSettersUsingExistingGetters.
Local Open Scope Z_scope.

Inductive cop :=
| CAck (po_sent n_bytes now : Z) (app_limited : bool)
| CLoss
| CTimeout
| CQuiet
| CReinit
| CFlags (flags : Z).

(** Cubic and the time. *)
Definition crun : Type := lsquic_cubic * Z.

Section runs.
Context (cbrt : double -> double).

Definition cexec (o : cop) (r : crun) : option crun :=
  let '(c, clock) := r in
  match o with
  | CAck sent n now app => c' ← lsquic_cubic_ack cbrt c sent n now app; Some (c', now)
  | CLoss => Some (lsquic_cubic_loss c, clock)
  | CTimeout => Some (lsquic_cubic_timeout c, clock)
  | CQuiet => Some (lsquic_cubic_was_quiet c, clock)
  | CReinit => Some (lsquic_cubic_reinit c, clock)
  | CFlags flags => Some (lsquic_cubic_set_flags c flags, clock)
  end.

(** Windows are below 2^50 bytes, round trips and epochs shorter than 2^33
    microseconds, which is more than two hours. *)
Definition cenabled (o : cop) (r : crun) : Prop :=
  let '(c, clock) := r in
  cu_cwnd c < 2 ^ 50 /\
  match o with
  | CAck sent _ now _ => clock <= now < 2 ^ 62 /\ now - 2 ^ 33 < sent <= now /\ (cu_epoch_start c <> 0 -> now - cu_epoch_start c < 2 ^ 33)
  | _ => True
  end.

Inductive creachable (memory : lsquic_cubic) : crun -> Prop :=
| creach_init : creachable memory (lsquic_cubic_init memory, 0)
| creach_step o r r' : creachable memory r -> cenabled o r -> cexec o r = Some r' -> creachable memory r'.

Record cinv (r : crun) : Prop := {
  ci_cwnd : 0 <= cu_cwnd r.1;
  ci_tcp : 0 <= cu_tcp_cwnd r.1 <= Z.max (cu_cwnd r.1) (2 ^ 50);
  ci_max : 0 <= cu_last_max_cwnd r.1 <= 2 ^ 50;
  ci_ssthresh : 0 <= cu_ssthresh r.1;
  ci_delay : 0 <= cu_min_delay r.1 < 2 ^ 33;
  ci_epoch : 0 <= cu_epoch_start r.1 <= r.2 /\ r.2 < 2 ^ 62;
  ci_curve : cu_epoch_start r.1 <> 0 -> curve cbrt r.1
}.

(** ** Congestion avoidance *)

(** The time that the curve is evaluated at. *)
Definition elapsed (c : lsquic_cubic) (now : Z) : Z := now + cu_min_delay c - cu_epoch_start c.

(** [target] is the value of the curve: the origin less, and later plus, 0.4 segments
    times the cube of the distance from the plateau. *)
Definition on_curve (c : lsquic_cubic) (now target : Z) : Prop :=
  let o := cu_origin_point c in
  let t := scaled (seconds (elapsed c now)) in
  let K := scaled (cu_K c) in
  if t <? K then target <= o /\ 79 * o <= 100 * (target + 1) /\ cubed (o - target) (K - t)
  else o <= target < 2 ^ 52 /\ cubed (target - o) (t - K).

Context (Hcbrt : cbrt_accurate cbrt).

Lemma curve_target_ok c now : curve cbrt c -> 0 <= elapsed c now < 2 ^ 34 -> exists t, cubic_target c (cubic_delta c now) = Some t /\ on_curve c now t /\ 0 <= t < 2 ^ 52.
Proof using Hcbrt.
  intros Hc Hn. unfold cubic_target, cubic_delta, on_curve. fold (elapsed c now). rewrite (wrapu_id 64 (elapsed c now)) by (unfold is_u; lia). fold (seconds (elapsed c now)).
  rewrite (lt_value _ _ (timely_regular _ (seconds_timely _ Hn)) (timely_regular _ (curve_timely cbrt Hcbrt c Hc))). pose proof (cv_origin _ _ Hc) as Ho.
  destruct (Z.ltb_spec (scaled (seconds (elapsed c now))) (scaled (cu_K c))) as [Hlt|Hle].
  - destruct (target_below cbrt Hcbrt c (elapsed c now) Hc Hn Hlt) as (t & E & H1 & H2 & H3). exists t. split; [done|]. split; [done|]. lia.
  - destruct (target_above cbrt Hcbrt c (elapsed c now) Hc Hn Hle) as (t & E & H1 & H2). exists t. split; [done|]. split; [done|]. lia.
Qed.

Lemma epoch_curve c now : (cu_epoch_start c <> 0 -> curve cbrt c) -> 1 <= cu_cwnd c <= 2 ^ 50 -> 0 <= cu_last_max_cwnd c <= 2 ^ 50 -> curve cbrt (cubic_epoch cbrt c now).
Proof using Hcbrt.
  intros Hc Hw Hm. unfold cubic_epoch. destruct (Z.eqb_spec (cu_epoch_start c) 0) as [E|E]; cbn [negb]; [|by apply Hc].
  change (cu_cwnd (c <| cu_epoch_start := now |>)) with (cu_cwnd c). change (cu_last_max_cwnd (c <| cu_epoch_start := now |>)) with (cu_last_max_cwnd c).
  destruct (Z.ltb_spec (cu_cwnd c) (cu_last_max_cwnd c)).
  - split; cbn; unfold const; [lia|]. set (x := cu_last_max_cwnd c / TCP_MSS / 2). unfold TCP_MSS in x.
    assert (Hx : 0 <= x < 2 ^ 40 /\ 2920 * x <= cu_last_max_cwnd c).
    { unfold x. rewrite Z.div_div by lia. change (1460 * 2) with 2920. pose proof (Z.div_pos (cu_last_max_cwnd c) 2920). pose proof (Z.mul_div_le (cu_last_max_cwnd c) 2920). lia. }
    destruct (Z.eq_dec x 0) as [->|Hn]; [left; apply Hcbrt|right]. exists x. split; [lia|]. split; [done|apply Hx].
  - split; cbn; unfold const; [lia|]. left. by eexists.
Qed.

Lemma epoch_fields c now : let c' := cubic_epoch cbrt c now in
  cu_min_delay c' = cu_min_delay c /\ cu_cwnd c' = cu_cwnd c /\ cu_tcp_cwnd c' = cu_tcp_cwnd c /\ cu_last_max_cwnd c' = cu_last_max_cwnd c /\ cu_ssthresh c' = cu_ssthresh c /\
  cu_epoch_start c' = if cu_epoch_start c =? 0 then now else cu_epoch_start c.
Proof using. unfold cubic_epoch. destruct (Z.eqb_spec (cu_epoch_start c) 0); cbn [negb]; [|done]. by destruct (_ <? _). Qed.

Lemma epoch_flags c now : cu_flags (cubic_epoch cbrt c now) = cu_flags c.
Proof using. unfold cubic_epoch. destruct (negb _); [done|]. by destruct (_ <? _). Qed.

(** What a sender of Reno would add for [n_bytes], in 32-bit arithmetic. *)
Definition reno_growth (n_bytes tcp_cwnd : Z) : Z := u32 (u32 (n_bytes * TCP_MSS) * ONE_MINUS_BETA) / 1024 / tcp_cwnd.

Definition friendly (c : lsquic_cubic) : bool := has_flag (cu_flags c) CU_TCP_FRIENDLY.

(** The window that congestion avoidance sets: the curve's value, at least that of
    Reno, never zero. *)
Definition avoided (c : lsquic_cubic) (now n_bytes target : Z) (c' : lsquic_cubic) : Prop :=
  let c1 := cubic_epoch cbrt c now in
  on_curve c1 now target /\
  if friendly c then c' = c1 <| cu_tcp_cwnd := cu_tcp_cwnd c + reno_growth n_bytes (cu_tcp_cwnd c) |> <| cu_cwnd := Z.max target (cu_tcp_cwnd c + reno_growth n_bytes (cu_tcp_cwnd c)) |>
  else c' = c1 <| cu_cwnd := if target =? 0 then TCP_MSS else target |>.

Lemma reno_bounds n t : 1 <= t -> 0 <= reno_growth n t <= 2 ^ 22.
Proof using.
  intros Ht. unfold reno_growth. pose proof (wrapu_range 32 (u32 (n * TCP_MSS) * ONE_MINUS_BETA) ltac:(lia)) as Hr. unfold is_u in Hr. set (v := u32 _) in *.
  assert (0 <= v / 1024 <= 2 ^ 22) by (split; [apply Z.div_pos; lia|apply Z.div_le_upper_bound; lia]). split; [apply Z.div_pos; lia|]. apply Z.div_le_upper_bound; nia.
Qed.

Lemma cubic_update_ok c now n : (cu_epoch_start c <> 0 -> curve cbrt c) -> 1 <= cu_cwnd c <= 2 ^ 50 -> 0 <= cu_last_max_cwnd c <= 2 ^ 50 -> 0 <= cu_tcp_cwnd c <= 2 ^ 50 ->
  (friendly c = true -> 1 <= cu_tcp_cwnd c) -> 0 <= elapsed (cubic_epoch cbrt c now) now < 2 ^ 34 -> exists target c', cubic_update cbrt c now n = Some c' /\ avoided c now n target c' /\ 0 <= target < 2 ^ 52.
Proof using Hcbrt.
  intros Hc Hw Hm Ht Hf He. pose proof (epoch_curve c now Hc Hw Hm) as Hc1. unfold cubic_update, avoided. pose proof (epoch_fields c now) as (_ & _ & Et & _). 
  assert (Ef : has_flag (cu_flags (cubic_epoch cbrt c now)) CU_TCP_FRIENDLY = friendly c) by (unfold friendly; by rewrite epoch_flags).
  set (c1 := cubic_epoch cbrt c now) in *. destruct (curve_target_ok c1 now Hc1 He) as (t & -> & Hon & Hb). cbn [mbind option_bind]. rewrite Ef. exists t.
  destruct (friendly c); cbn [mbind option_bind].
  - specialize (Hf eq_refl). rewrite Et. replace (cu_tcp_cwnd c =? 0) with false by lia. cbn [mbind option_bind]. fold (reno_growth n (cu_tcp_cwnd c)). pose proof (reno_bounds n (cu_tcp_cwnd c) ltac:(lia)) as Hr.
    rewrite (wrapu_id 64 (cu_tcp_cwnd c + reno_growth n (cu_tcp_cwnd c))) by (unfold is_u; lia). set (v := cu_tcp_cwnd c + reno_growth n (cu_tcp_cwnd c)) in *.
    change (cu_tcp_cwnd (c1 <| cu_tcp_cwnd := v |>)) with v. replace (if t <? v then v else t) with (Z.max t v) by (destruct (Z.ltb_spec t v); lia).
    replace (Z.max t v =? 0) with false by lia. eexists. split; [done|]. by split.
  - eexists. split; [done|]. split; [|done]. by split.
Qed.

(** ** Steps *)

Definition with_delay (c : lsquic_cubic) (rtt : Z) : lsquic_cubic :=
  if (cu_min_delay c =? 0) || (rtt <? cu_min_delay c) then c <| cu_min_delay := rtt |> else c.

(** How an operation changes the window. *)
Definition window_step (o : cop) (c c' : lsquic_cubic) : Prop :=
  match o with
  | CAck sent n now app =>
    let c1 := with_delay c (now - sent) in
    if cu_cwnd c <=? cu_ssthresh c then c' = c1 <| cu_cwnd := cu_cwnd c + TCP_MSS |>
    else if app then c' = c1 else exists target, avoided c1 now n target c'
  | CLoss => cu_cwnd c' = cu_cwnd c * 819 / 1024 /\ cu_ssthresh c' = cu_cwnd c' /\ cu_tcp_cwnd c' = cu_cwnd c' /\ cu_epoch_start c' = 0 /\
             cu_last_max_cwnd c' = if cu_cwnd c <? cu_last_max_cwnd c then cu_cwnd c * 922 / 1024 else cu_cwnd c
  | CTimeout => cu_cwnd c' = 2 * TCP_MSS /\ cu_ssthresh c' = cu_cwnd c / 2
  | CReinit => cu_cwnd c' = 32 * TCP_MSS /\ cu_ssthresh c' = 10000 * TCP_MSS
  | CQuiet => c' = c <| cu_epoch_start := 0 |>
  | CFlags flags => c' = c <| cu_flags := flags |>
  end.

(** The division by zero: an ACK in congestion avoidance that computes the growth of a
    window of Reno of zero bytes. *)
Definition divides_by_zero (o : cop) (c : lsquic_cubic) : bool :=
  match o with
  | CAck _ _ _ app => (cu_ssthresh c <? cu_cwnd c) && negb app && friendly c && (cu_tcp_cwnd c =? 0)
  | _ => false
  end.

(** The window is zero after a loss that found at most one byte, and until the next
    ACK, timeout or reinitialisation. *)
Definition closes (o : cop) (c : lsquic_cubic) : Prop :=
  match o with
  | CLoss => cu_cwnd c <= 1
  | CQuiet | CFlags _ => cu_cwnd c = 0
  | CAck _ _ _ _ | CTimeout | CReinit => False
  end.

(** The window of Reno is zero after such a loss, until a timeout or a reinitialisation. *)
Definition closes_reno (o : cop) (c : lsquic_cubic) : Prop :=
  match o with
  | CLoss => cu_cwnd c <= 1
  | CTimeout | CReinit => False
  | CAck _ _ _ _ | CQuiet | CFlags _ => cu_tcp_cwnd c = 0
  end.

Definition step_ok (o : cop) (c c' : lsquic_cubic) : Prop :=
  window_step o c c' /\ (cu_cwnd c' = 0 <-> closes o c) /\ (cu_tcp_cwnd c' = 0 <-> closes_reno o c).

Lemma divides_none c sent n now app : divides_by_zero (CAck sent n now app) c = true -> lsquic_cubic_ack cbrt c sent n now app = None.
Proof using.
  cbn [divides_by_zero]. intros H. apply andb_true_iff in H as [H Ht]. apply andb_true_iff in H as [H Hf]. apply andb_true_iff in H as [Hw Ha]. destruct app; [done|]. unfold lsquic_cubic_ack.
  fold (with_delay c (u64 (now - sent))). set (c1 := with_delay _ _). assert (E : cu_cwnd c1 = cu_cwnd c /\ cu_ssthresh c1 = cu_ssthresh c /\ cu_flags c1 = cu_flags c /\ cu_tcp_cwnd c1 = cu_tcp_cwnd c) by (unfold c1, with_delay; by destruct (_ || _)).
  destruct E as (E1 & E2 & E3 & E4). clearbody c1. rewrite E1, E2. replace (cu_cwnd c <=? cu_ssthresh c) with false by lia. cbn [negb]. unfold cubic_update.
  pose proof (epoch_fields c1 now) as (_ & _ & F & _). pose proof (epoch_flags c1 now) as Ff.
  destruct (cubic_target _ _); [|done]. cbn [mbind option_bind]. rewrite Ff, E3. unfold friendly in Hf. rewrite Hf, F, E4, Ht. done.
Qed.

Lemma ack_ok c clock sent n now app : cinv (c, clock) -> cenabled (CAck sent n now app) (c, clock) -> divides_by_zero (CAck sent n now app) c = false ->
  exists c', lsquic_cubic_ack cbrt c sent n now app = Some c' /\ step_ok (CAck sent n now app) c c' /\ cinv (c', now).
Proof using Hcbrt.
  intros [A B M D E F G] (Hw & Hn & Hs & He) Hz. cbn [fst snd] in *. unfold lsquic_cubic_ack, step_ok, window_step, closes, closes_reno. rewrite (wrapu_id 64 (now - sent)) by (unfold is_u; lia). fold (with_delay c (now - sent)).
  set (c1 := with_delay c (now - sent)). assert (E1 : cu_cwnd c1 = cu_cwnd c /\ cu_tcp_cwnd c1 = cu_tcp_cwnd c /\ cu_last_max_cwnd c1 = cu_last_max_cwnd c /\ cu_ssthresh c1 = cu_ssthresh c /\
    cu_epoch_start c1 = cu_epoch_start c /\ friendly c1 = friendly c /\ 0 <= cu_min_delay c1 < 2 ^ 33 /\ (cu_epoch_start c <> 0 -> curve cbrt c1)).
  { unfold c1, with_delay. destruct (_ || _); split_and!; try done; cbn; unfold const; try lia. intros H. destruct (G H) as [P Q]. by split. }
  destruct E1 as (Ew & Et & Em & Es & Ee & Ef & Hd & Hc). clearbody c1. rewrite Ew, Es. assert (0 < TCP_MSS) by done. destruct (Z.leb_spec (cu_cwnd c) (cu_ssthresh c)) as [Hle|Hgt].
  - rewrite wrapu_id by (unfold is_u, TCP_MSS; lia). eexists. split; [done|]. split; [split; [done|cbn; unfold const; rewrite Et; lia]|].
    split; cbn; unfold const; rewrite ?Et, ?Em, ?Es, ?Ee; try lia. intros H'. destruct (Hc H') as [P Q]. by split.
  - destruct app; cbn [negb].
    + eexists. split; [done|]. split; [split; [done|rewrite Ew, Et; lia]|]. split; cbn [fst snd]; rewrite ?Ew, ?Et, ?Em, ?Es, ?Ee; try lia. exact Hc.
    + assert (Hf : friendly c1 = true -> 1 <= cu_tcp_cwnd c) by (rewrite Ef; cbn [divides_by_zero negb] in Hz; intros Hf; rewrite Hf in Hz; lia). 
      pose proof (epoch_fields c1 now) as (F1 & F2 & F3 & F4 & F5 & F6). destruct (cubic_update_ok c1 now n) as (t & c' & E' & Ha & Hb); rewrite ?Ew, ?Et, ?Em, ?Ee; try lia; try done.
      { unfold elapsed. rewrite F1, F6, Ee. destruct (Z.eqb_spec (cu_epoch_start c) 0); lia. }
      exists c'. split; [done|]. assert (Hcv : curve cbrt (cubic_epoch cbrt c1 now)) by (apply epoch_curve; rewrite ?Ew, ?Em, ?Ee; done || lia).
      assert (Hs' : exists target, avoided c1 now n target c') by by exists t.
      destruct Ha as [_ Ha]. rewrite Et in Ha. set (c2 := cubic_epoch cbrt c1 now) in *. clearbody c2.
      assert (Hep : 0 <= cu_epoch_start c2 <= now) by (rewrite F6, Ee; destruct (Z.eqb_spec (cu_epoch_start c) 0); lia).
      destruct (friendly c1); [specialize (Hf eq_refl); pose proof (reno_bounds n (cu_tcp_cwnd c) Hf)|];
        (split; [split; [exact Hs'|]; subst c'; cbn; unfold const; rewrite ?F3, ?Et|subst c'; split; cbn; unfold const; rewrite ?F1, ?F3, ?F4, ?F5, ?Et, ?Em, ?Es; [| |lia|lia|lia|lia|intros _; destruct Hcv as [P Q]; by split]]); try lia;
        destruct (Z.eqb_spec t 0); lia.
Qed.

Lemma loss_ok c clock : cinv (c, clock) -> cenabled CLoss (c, clock) -> step_ok CLoss c (lsquic_cubic_loss c) /\ cinv (lsquic_cubic_loss c, clock).
Proof using.
  intros [A B M D E F G] [Hw _]. cbn [fst snd] in *. unfold lsquic_cubic_loss, step_ok, window_step, closes, closes_reno, TWO_MINUS_BETA_OVER_TWO, ONE_MINUS_BETA. cbn. unfold const. rewrite !wrapu_id by (unfold is_u; lia).
  pose proof (Z.div_pos (cu_cwnd c * 819) 1024). assert (cu_cwnd c * 819 / 1024 <= cu_cwnd c) by (apply Z.div_le_upper_bound; lia).
  assert (Hz : cu_cwnd c * 819 / 1024 = 0 <-> cu_cwnd c <= 1) by (rewrite Z.div_small_iff by lia; lia). split; [done|].
  assert (0 <= cu_cwnd c * 922 / 1024 <= cu_cwnd c) by (split; [apply Z.div_pos; lia|apply Z.div_le_upper_bound; lia]).
  split; cbn; unfold const; try lia; try done. destruct (_ <? _); lia.
Qed.

Lemma cexec_ok o c clock : cinv (c, clock) -> cenabled o (c, clock) -> divides_by_zero o c = false -> exists c' clock', cexec o (c, clock) = Some (c', clock') /\ step_ok o c c' /\ cinv (c', clock').
Proof using Hcbrt.
  intros H He Hz. destruct o as [sent n now app| | | | |flags]; cbn [cexec].
  - destruct (ack_ok c clock sent n now app H He Hz) as (c' & -> & Hs & Hi). cbn [mbind option_bind]. by exists c', now.
  - exists (lsquic_cubic_loss c), clock. split; [done|]. by apply loss_ok.
  - destruct H as [A B M D E F G], He as [Hw _]. cbn [fst snd] in *. exists (lsquic_cubic_timeout c), clock. split; [done|]. split; [by split_and!|].
    pose proof (Z.div_pos (cu_cwnd c) 2). split; cbn; unfold const; try lia; try done.
  - destruct H as [A B M D E F G]. cbn [fst snd] in *. exists (lsquic_cubic_was_quiet c), clock. split; [done|]. split; [by split_and!|]. split; cbn; unfold const; try lia; try done.
  - destruct H as [A B M D E F G]. cbn [fst snd] in *. exists (lsquic_cubic_reinit c), clock. split; [done|]. split; [by split_and!|]. split; cbn; unfold const; try lia; try done.
  - destruct H as [A B M D E F G]. cbn [fst snd] in *. exists (lsquic_cubic_set_flags c flags), clock. split; [done|]. split; [by split_and!|]. split; cbn; unfold const; try lia; try done.
    intros Hn. destruct (G Hn) as [P Q]. by split.
Qed.

Lemma creachable_inv memory r : creachable memory r -> cinv r.
Proof using Hcbrt.
  induction 1 as [|o [c clock] r' _ IH He E]; [by split; cbn; unfold const; try lia|]. destruct (divides_by_zero o c) eqn:Hz.
  - destruct o as [sent n now app| | | | |flags]; try discriminate. cbn [cexec] in E. by rewrite (divides_none c sent n now app Hz) in E.
  - destruct (cexec_ok o c clock IH He Hz) as (c' & clock' & E' & _ & H). congruence.
Qed.

End runs.

(** C14: from initialisation on, whatever ACKs, losses, timeouts, pauses and flags follow,
    an operation of Cubic is undefined exactly when it is an ACK in congestion
    avoidance, not limited by the application, with the flag of Reno's window set and
    that window at zero: the source then divides by zero.  Nothing else is undefined, no
    conversion overflows.  Every other operation gives a window of the right size: in
    slow start it grows by a segment for each packet, a loss cuts it to 819/1024, and in
    congestion avoidance it is the value of the cubic curve at the time since the epoch
    started, computed to within a relative error of 2^-48 of the cubic term and two
    bytes, or the window of Reno if that is larger.  Before the plateau the curve lies
    between 79% and all of the origin, from then on above it.  The theorem also says
    when the windows are zero: both after a loss that finds at most one byte, to which
    nothing in the source puts a floor; the window until the next ACK, timeout or
    reinitialisation, and the window of Reno until the next timeout or
    reinitialisation.  This assumes that the mathematical library's [cbrt] is right to
    within 2^-30, windows below 2^50 bytes, a clock that does not go back, and round
    trips and epochs shorter than 2^33 microseconds. *)
Theorem cubic_window cbrt memory c clock o :
  cbrt_accurate cbrt -> creachable cbrt memory (c, clock) -> cenabled o (c, clock) ->
  if divides_by_zero o c then cexec cbrt o (c, clock) = None
  else exists c' clock', cexec cbrt o (c, clock) = Some (c', clock') /\ window_step cbrt o c c' /\ 0 <= lsquic_cubic_get_cwnd c' /\
    (lsquic_cubic_get_cwnd c' = 0 <-> closes o c) /\ (cu_tcp_cwnd c' = 0 <-> closes_reno o c).
Proof.
  intros Hcbrt R He. pose proof (creachable_inv cbrt Hcbrt memory _ R) as Hi. destruct (divides_by_zero o c) eqn:Hz.
  - destruct o as [sent n now app| | | | |flags]; try discriminate. cbn [cexec]. by rewrite (divides_none cbrt c sent n now app Hz).
  - destruct (cexec_ok cbrt Hcbrt o c clock Hi He Hz) as (c' & clock' & E & (Hs & Hw & Ht) & Hi'). exists c', clock'. by split_and!; [| |apply Hi'| |].
Qed.

(** ** A cube root *)

Module CubeRoot.

(** The integer part of the cube root, by bisection. *)
Fixpoint bisect (y : Z) (n : nat) (r : Z) : Z :=
  match n with
  | O => r
  | S n => let r' := r + 2 ^ Z.of_nat n in if r' ^ 3 <=? y then bisect y n r' else bisect y n r
  end.

Lemma bisect_spec y n : forall r, 0 <= r -> r ^ 3 <= y < (r + 2 ^ Z.of_nat n) ^ 3 -> let s := bisect y n r in 0 <= s /\ s ^ 3 <= y < (s + 1) ^ 3.
Proof.
  induction n as [|n IH]; intros r Hr H; cbn [bisect]; [done|]. replace (2 ^ Z.of_nat (S n)) with (2 * 2 ^ Z.of_nat n) in H by (rewrite Nat2Z.inj_succ, Z.pow_succ_r by lia; lia).
  assert (0 < 2 ^ Z.of_nat n) by lia. destruct (Z.leb_spec ((r + 2 ^ Z.of_nat n) ^ 3) y); apply IH; try lia.
Qed.

Definition root (x : Z) : Z := bisect (x * 2 ^ 90) 60 0.

(** The cube root of an integer to thirty binary places. *)
Definition cbrt (f : double) : double :=
  match dbl (root (scaled f / pw 1000)) with
  | S754_finite s m e => S754_finite s m (e - 30)
  | g => g
  end.

Lemma root_spec x : 0 < x < 2 ^ 40 -> 2 ^ 30 <= root x < 2 ^ 44 /\ root x ^ 3 <= x * 2 ^ 90 < (root x + 1) ^ 3.
Proof.
  intros Hx. unfold root. pose proof (bisect_spec (x * 2 ^ 90) 60 0 ltac:(lia)) as H. set (s := bisect _ _ _) in *. clearbody s. destruct H as [H0 H1]; [lia|]. split; [|done]. split.
  - apply Z.nlt_ge. intros Hlt. assert ((s + 1) ^ 3 <= (2 ^ 30) ^ 3) by (apply Z.pow_le_mono_l; lia). lia.
  - apply Z.nle_gt. intros Hle. assert ((2 ^ 44) ^ 3 <= s ^ 3) by (apply Z.pow_le_mono_l; lia). lia.
Qed.

Lemma cbrt_value x : 0 < x < 2 ^ 40 -> normal (cbrt (dbl x)) /\ scaled (cbrt (dbl x)) * 2 ^ 30 = root x * pw 1000.
Proof.
  intros Hx. destruct (root_spec x Hx) as [Hr _]. pose proof (pw_pos 1000 ltac:(lia)) as Hh. unfold cbrt. destruct (dbl_exact x ltac:(lia)) as [_ ->]. rewrite Z.div_mul by lia.
  destruct (dbl_exact (root x) ltac:(lia)) as [[[s E]|(m & e & E & Hm & He)] Ev]; rewrite E in *; [cbn [scaled] in Ev; nia|]. cbn [scaled] in *.
  assert (-100 <= e <= 0).
  { split; [enough (1000 < 53 + (e + 1000)) by lia|enough (52 + (e + 1000) < 1053) by lia]; (apply pow2_lt_cancel; [lia|]); rewrite Z.pow_add_r by lia.
    - eapply Z.le_lt_trans with (Zpos m * 2 ^ (e + 1000)); [rewrite Ev; change (2 ^ 1000) with (pw 1000); nia|apply Z.mul_lt_mono_pos_r; lia].
    - eapply Z.le_lt_trans with (Zpos m * 2 ^ (e + 1000)); [apply Z.mul_le_mono_nonneg_r; lia|]. rewrite Ev. replace 1053 with (53 + 1000) by lia. rewrite Z.pow_add_r by lia. change (2 ^ 1000) with (pw 1000). apply Z.mul_lt_mono_pos_r; lia. }
  split; [exists m, (e - 30); split; [done|lia]|]. rewrite <- Ev, <- Z.mul_assoc, <- Z.pow_add_r by lia. do 2 f_equal. lia.
Qed.

Lemma accurate : cbrt_accurate cbrt.
Proof.
  split.
  - eexists. vm_compute. reflexivity.
  - intros x Hx. by apply cbrt_value.
  - intros x Hx. destruct (cbrt_value x Hx) as [_ ->]. destruct (root_spec x Hx) as [Hr [H1 H2]]. rewrite !Z.pow_mul_l. assert (0 < (pw 1000) ^ 3) by (apply Z.pow_pos_nonneg; [by apply pw_pos|lia]).
    generalize dependent ((pw 1000) ^ 3). intros h Hh. assert (C : 2 ^ 90 <= (2 ^ 30 + 1) ^ 3) by (vm_compute; discriminate). generalize dependent ((2 ^ 30 + 1) ^ 3). intros a Ha. generalize dependent (2 ^ 90). intros b **.
    transitivity (x * b * h); [apply Z.mul_le_mono_nonneg_r; lia|]. assert (x * b <= x * a) by nia. nia.
  - intros x Hx. destruct (cbrt_value x Hx) as [_ ->]. destruct (root_spec x Hx) as [Hr [H1 H2]]. rewrite !Z.pow_mul_l. assert (Hh : 0 < (pw 1000) ^ 3) by (apply Z.pow_pos_nonneg; [by apply pw_pos|lia]).
    assert (C : ((root x + 1) * (2 ^ 30 - 1)) ^ 3 <= (root x * 2 ^ 30) ^ 3) by (apply Z.pow_le_mono_l; lia). rewrite !Z.pow_mul_l in C.
    assert (H : x * (2 ^ 30 - 1) ^ 3 <= root x ^ 3).
    { apply (Z.mul_le_mono_pos_r _ _ (2 ^ 90)); [lia|]. replace ((2 ^ 30) ^ 3) with (2 ^ 90) in C by (vm_compute; reflexivity). assert (0 <= (2 ^ 30 - 1) ^ 3) by (apply Z.pow_nonneg; lia).
      generalize dependent ((2 ^ 30 - 1) ^ 3). intros a Ca Ha. nia. }
    generalize dependent ((pw 1000) ^ 3). intros h Hh. nia.
Qed.

End CubeRoot.

(** A loss, and an ACK in slow start: the next ACK starts an epoch. *)
Module AfterLoss.

Definition memory : lsquic_cubic := CUBIC 0 0 (S754_zero false) 0 0 0 0 0 0.
Definition run : crun := (CUBIC 50000 0 (S754_zero false) 0 46720 38826 37366 37366 1, 100000).

Lemma after_loss_reachable : creachable CubeRoot.cbrt memory run.
Proof.
  eapply (creach_step _ _ (CAck 50000 1200 100000 false)); [eapply (creach_step _ _ CLoss); [apply creach_init| |vm_compute; reflexivity]| |vm_compute; reflexivity].
  - vm_compute. repeat split; discriminate || reflexivity.
  - vm_compute. repeat split; discriminate || reflexivity || (intros H; by destruct H).
Qed.

End AfterLoss.

Lemma cubic_window_witness : exists c', cexec CubeRoot.cbrt (CAck 60000 1200 110000 false) AfterLoss.run = Some (c', 110000) /\ lsquic_cubic_get_cwnd c' = 37921 /\
  window_step CubeRoot.cbrt (CAck 60000 1200 110000 false) AfterLoss.run.1 c'.
Proof.
  destruct (cubic_window CubeRoot.cbrt AfterLoss.memory AfterLoss.run.1 AfterLoss.run.2 (CAck 60000 1200 110000 false) CubeRoot.accurate AfterLoss.after_loss_reachable) as (c' & clock' & E & Hs & _).
  - vm_compute. repeat split; discriminate || reflexivity || (intros H; by destruct H).
  - exists c'. assert (Ec : lsquic_cubic_get_cwnd c' = 37921 /\ clock' = 110000) by (vm_compute in E; injection E as <- <-; split; reflexivity). destruct Ec as [Ec ->]. split; [exact E|]. split; [exact Ec|exact Hs].
Defined.

(** A finding.  [lsquic_cubic_loss] has no lower bound: 43 loss events without an ACK
    between them leave a window, and a window of Reno, of zero bytes.  The first packet
    that is acknowledged then opens the window by a segment; the second divides by
    zero. *)
Lemma losses_divide_by_zero cbrt : let c := Nat.iter 43 lsquic_cubic_loss (lsquic_cubic_init AfterLoss.memory) in
  cu_tcp_cwnd c = 0 /\ exists c', lsquic_cubic_ack cbrt c 50000 1200 100000 false = Some c' /\ lsquic_cubic_ack cbrt c' 50000 1200 100000 false = None.
Proof. split; [vm_compute; reflexivity|]. exists (CUBIC 50000 0 (S754_zero false) 0 0 1460 0 0 1). split; [vm_compute; reflexivity|]. vm_compute. reflexivity. Qed.

(** A finding.  For packets of 3592 bytes or more the growth of the window of Reno is
    computed modulo 2^32. *)
Lemma reno_growth_wraps : reno_growth 3591 1460 = 2872 /\ reno_growth 3592 1460 = 0.
Proof. split; vm_compute; reflexivity. Qed.
