(* ===== verification/Adaptive.v ===== *)
(** The adaptive congestion controller (lsquic_adaptive_cc.c), which runs BBR and Cubic
    side by side until the send controller picks one of them, and that choice
    ([send_ctl_select_cc] of lsquic_send_ctl.c). *)
From Stdlib Require Import SpecFloat.
From S2P Require Import Prelude Art Timing Binary BwSampler Bbr BbrThms BbrClaims Rounding Cubic CubicThms CubicClaims.
From coqutil Require Import Datatypes.RecordSettersUsingExistingGetters.
Local Open Scope Z_scope.

Definition ACC_CUBIC : Z := 1.

Record adaptive_cc := ACC {
  acc_cubic : lsquic_cubic;
  acc_bbr : lsquic_bbr;
  acc_flags : Z
}.

(** On zeroed memory. *)
Definition adaptive_cc_init (malo_ok : bool) (retx_frames : Z) (memory : lsquic_cubic) : adaptive_cc :=
  ACC (lsquic_cubic_init memory) (lsquic_bbr_init malo_ok retx_frames) 0.

Definition adaptive_cc_reinit (acc : adaptive_cc) : adaptive_cc :=
  acc <| acc_bbr := lsquic_bbr_reinit (acc_bbr acc) |> <| acc_cubic := lsquic_cubic_reinit (acc_cubic acc) |>.

Definition adaptive_cc_ack (cbrt : double -> double) (acc : adaptive_cc) (p : bw_packet) (packet_sz now : Z) (app_limited : bool) : option (adaptive_cc * bw_packet) :=
  '(b, p') ← lsquic_bbr_ack (acc_bbr acc) p packet_sz;
  c ← lsquic_cubic_ack cbrt (acc_cubic acc) (bp_sent p) packet_sz now app_limited;
  Some (acc <| acc_bbr := b |> <| acc_cubic := c |>, p').

(** [lsquic_bbr_loss], [lsquic_bbr_timeout] and [lsquic_bbr_was_quiet] do nothing. *)
Definition adaptive_cc_loss (acc : adaptive_cc) : adaptive_cc := acc <| acc_cubic := lsquic_cubic_loss (acc_cubic acc) |>.
Definition adaptive_cc_timeout (acc : adaptive_cc) : adaptive_cc := acc <| acc_cubic := lsquic_cubic_timeout (acc_cubic acc) |>.
Definition adaptive_cc_was_quiet (acc : adaptive_cc) : adaptive_cc := acc <| acc_cubic := lsquic_cubic_was_quiet (acc_cubic acc) |>.

(** Cubic has no methods for the following. *)
Definition adaptive_cc_begin_ack (acc : adaptive_cc) (ack_time in_flight : Z) : option adaptive_cc :=
  b ← lsquic_bbr_begin_ack (acc_bbr acc) ack_time in_flight; Some (acc <| acc_bbr := b |>).

Definition adaptive_cc_end_ack (stats_min_rtt : Z) (acc : adaptive_cc) (rand in_flight : Z) : option adaptive_cc :=
  b ← lsquic_bbr_end_ack stats_min_rtt (acc_bbr acc) rand in_flight; Some (acc <| acc_bbr := b |>).

Definition adaptive_cc_sent (stats_min_rtt : Z) (malo_ok : bool) (acc : adaptive_cc) (p : bw_packet) (in_flight : Z) (app_limited : bool) : option (adaptive_cc * bw_packet) :=
  '(b, p') ← lsquic_bbr_sent stats_min_rtt malo_ok (acc_bbr acc) p in_flight app_limited; Some (acc <| acc_bbr := b |>, p').

Definition adaptive_cc_lost (acc : adaptive_cc) (p : bw_packet) (packet_sz : Z) : adaptive_cc * bw_packet :=
  let '(b, p') := lsquic_bbr_lost (acc_bbr acc) p packet_sz in (acc <| acc_bbr := b |>, p').

Definition adaptive_cc_get_cwnd (stats_min_rtt : Z) (acc : adaptive_cc) : option Z :=
  let rv0 := lsquic_cubic_get_cwnd (acc_cubic acc) in
  rv1 ← lsquic_bbr_get_cwnd stats_min_rtt (acc_bbr acc);
  Some (if has_flag (acc_flags acc) ACC_CUBIC then rv0 else rv1).

Definition adaptive_cc_pacing_rate (stats_min_rtt srtt : Z) (acc : adaptive_cc) (in_recovery : bool) : option Z :=
  let rv0 := lsquic_cubic_pacing_rate srtt (acc_cubic acc) in_recovery in
  rv1 ← lsquic_bbr_pacing_rate stats_min_rtt (acc_bbr acc);
  Some (if has_flag (acc_flags acc) ACC_CUBIC then rv0 else rv1).

(** The controller in use: the adaptive one or the one that was chosen. *)
Inductive cong_ctl := CC_CUBIC (c : lsquic_cubic) | CC_BBR (b : lsquic_bbr).

Definition send_ctl_select_cc (es_cc_rtt_thresh srtt : Z) (acc : adaptive_cc) : cong_ctl :=
  if srtt <=? es_cc_rtt_thresh then CC_CUBIC (acc_cubic acc) else CC_BBR (acc_bbr acc).

(** ** Runs *)

(** The controller, the packets with the sampler at the time they were sent, and the
    times that BBR and Cubic know. *)
Definition arun : Type := adaptive_cc * list (bw_packet * bw_sampler) * Z * Z.

Inductive aop :=
| ASent (stats_min_rtt : Z) (p : bw_packet) (in_flight : Z) (app_limited : bool)
| ABegin (ack_time in_flight : Z)
| AAck (i : nat) (packet_sz now : Z) (app_limited : bool)
| ALost (i : nat) (packet_sz : Z)
| AEnd (stats_min_rtt rand in_flight : Z)
| ALoss
| ATimeout
| AQuiet
| AReinit.

Section runs.
Context (cbrt : double -> double).

Definition aexec (o : aop) (r : arun) : option arun :=
  let '(acc, ps, bclock, cclock) := r in
  match o with
  | ASent stats p n app =>
    '(acc', p') ← adaptive_cc_sent stats true acc p n app;
    Some (acc', if bp_mini p then ps else ps ++ [(p', (lsquic_bw_sampler_packet_sent true (bbr_bw_sampler (acc_bbr acc)) p n).1)], bp_sent p, cclock)
  | ABegin now n => acc' ← adaptive_cc_begin_ack acc now n; Some (acc', ps, bclock, cclock)
  | AAck i sz now app =>
    match ps !! i with
    | Some (p, g) => '(acc', p') ← adaptive_cc_ack cbrt acc p sz now app; Some (acc', <[i := (p', g)]> ps, ba_ack_time (bbr_ack_state (acc_bbr acc)), now)
    | None => Some r
    end
  | ALost i sz =>
    match ps !! i with
    | Some (p, g) => let '(acc', p') := adaptive_cc_lost acc p sz in Some (acc', <[i := (p', g)]> ps, bclock, cclock)
    | None => Some r
    end
  | AEnd stats rand n => acc' ← adaptive_cc_end_ack stats acc rand n; Some (acc', ps, bclock, cclock)
  | ALoss => Some (adaptive_cc_loss acc, ps, bclock, cclock)
  | ATimeout => Some (adaptive_cc_timeout acc, ps, bclock, cclock)
  | AQuiet => Some (adaptive_cc_was_quiet acc, ps, bclock, cclock)
  | AReinit => Some (adaptive_cc_reinit acc, ps, bclock, cclock)
  end.

(** What BBR and Cubic see of an operation. *)
Definition seen_by_bbr (o : aop) : option bop :=
  match o with
  | ASent stats p n app => Some (BSent stats p n app)
  | ABegin now n => Some (BBegin now n)
  | AAck i sz _ _ => Some (BAck i sz)
  | ALost i sz => Some (BLost i sz)
  | AEnd stats rand n => Some (BEnd stats rand n)
  | AReinit => Some BReinit
  | ALoss | ATimeout | AQuiet => None
  end.

Definition seen_by_cubic (o : aop) (ps : list (bw_packet * bw_sampler)) : option cop :=
  match o with
  | AAck i sz now app => match ps !! i with Some (p, _) => Some (CAck (bp_sent p) sz now app) | None => None end
  | ALoss => Some CLoss
  | ATimeout => Some CTimeout
  | AQuiet => Some CQuiet
  | AReinit => Some CReinit
  | _ => None
  end.

Definition bbr_of (r : arun) : brun := let '(acc, ps, bclock, _) := r in (acc_bbr acc, ps, bclock).
Definition cubic_of (r : arun) : crun := let '(acc, _, _, cclock) := r in (acc_cubic acc, cclock).

(** The conditions of both, and that Cubic does not divide by zero. *)
Definition aenabled (o : aop) (r : arun) : Prop :=
  match seen_by_bbr o with Some o' => benabled o' (bbr_of r) | None => True end /\
  match seen_by_cubic o r.1.1.2 with Some o' => cenabled o' (cubic_of r) /\ divides_by_zero o' (cubic_of r).1 = false | None => True end.

Inductive areachable (retx_frames : Z) (memory : lsquic_cubic) : arun -> Prop :=
| areach_init : areachable retx_frames memory (adaptive_cc_init true retx_frames memory, [], 0, 0)
| areach_step o r r' : areachable retx_frames memory r -> aenabled o r -> aexec o r = Some r' -> areachable retx_frames memory r'.

(** An optional step. *)
Definition maybe {A O : Type} (exec : O -> A -> option A) (o : option O) (a : A) : option A := match o with Some o => exec o a | None => Some a end.

(** Each operation is one of BBR and one of Cubic that do not see each other. *)
Lemma aexec_projects o r b' c' : maybe bexec (seen_by_bbr o) (bbr_of r) = Some b' -> maybe (cexec cbrt) (seen_by_cubic o r.1.1.2) (cubic_of r) = Some c' ->
  exists r', aexec o r = Some r' /\ bbr_of r' = b' /\ cubic_of r' = c' /\ acc_flags r'.1.1.1 = acc_flags r.1.1.1.
Proof using.
  destruct r as [[[acc ps] bclock] cclock]. destruct o as [stats p n app|now n|i sz now app|i sz|stats rand n| | | |]; cbn [seen_by_bbr seen_by_cubic maybe bbr_of cubic_of fst snd bexec cexec aexec]; intros Hb Hc.
  - injection Hc as <-. unfold adaptive_cc_sent. destruct (lsquic_bbr_sent _ _ _ _ _ _) as [[b p']|]; [|done]. cbn [mbind option_bind] in *. injection Hb as <-. by eexists.
  - injection Hc as <-. unfold adaptive_cc_begin_ack. destruct (lsquic_bbr_begin_ack _ _ _) as [b|]; [|done]. cbn [mbind option_bind] in *. injection Hb as <-. by eexists.
  - destruct (ps !! i) as [[p g]|]; [|injection Hb as <-; injection Hc as <-; by eexists]. cbn [maybe cexec] in Hc. unfold adaptive_cc_ack. destruct (lsquic_bbr_ack _ _ _) as [[b p']|]; [|done]. cbn [mbind option_bind] in *.
    destruct (lsquic_cubic_ack _ _ _ _ _ _) as [c|]; [|done]. cbn [mbind option_bind] in *. injection Hb as <-. injection Hc as <-. by eexists.
  - injection Hc as <-. destruct (ps !! i) as [[p g]|]; [|injection Hb as <-; by eexists]. unfold adaptive_cc_lost. destruct (lsquic_bbr_lost _ _ _) as [b p']. injection Hb as <-. by eexists.
  - injection Hc as <-. unfold adaptive_cc_end_ack. destruct (lsquic_bbr_end_ack _ _ _ _) as [b|]; [|done]. cbn [mbind option_bind] in *. injection Hb as <-. by eexists.
  - injection Hb as <-. injection Hc as <-. by eexists.
  - injection Hb as <-. injection Hc as <-. by eexists.
  - injection Hb as <-. injection Hc as <-. by eexists.
  - injection Hb as <-. injection Hc as <-. by eexists.
Qed.

Context (Hcbrt : cbrt_accurate cbrt).

Lemma aexec_ok retx memory o r : breachable retx (bbr_of r) -> creachable cbrt memory (cubic_of r) -> aenabled o r ->
  exists r', aexec o r = Some r' /\ breachable retx (bbr_of r') /\ creachable cbrt memory (cubic_of r') /\ acc_flags r'.1.1.1 = acc_flags r.1.1.1 /\
    maybe bexec (seen_by_bbr o) (bbr_of r) = Some (bbr_of r') /\ maybe (cexec cbrt) (seen_by_cubic o r.1.1.2) (cubic_of r) = Some (cubic_of r').
Proof using Hcbrt.
  intros Rb Rc [Eb Ec].
  assert (Hb : exists b', maybe bexec (seen_by_bbr o) (bbr_of r) = Some b' /\ breachable retx b').
  { destruct (seen_by_bbr o) as [o'|]; cbn [maybe]; [|by eexists]. destruct (bexec_ok o' _ (breachable_ok _ _ Rb) Eb) as (b' & E & _). exists b'. split; [done|]. by apply (breach_step retx o' (bbr_of r)). }
  assert (Hc : exists c', maybe (cexec cbrt) (seen_by_cubic o r.1.1.2) (cubic_of r) = Some c' /\ creachable cbrt memory c').
  { destruct (seen_by_cubic o r.1.1.2) as [o'|]; cbn [maybe]; [|by eexists]. destruct (cubic_of r) as [c clock] eqn:Er. destruct Ec as [Ec Ez], (cexec_ok cbrt Hcbrt o' c clock (creachable_inv cbrt Hcbrt memory _ Rc) Ec Ez) as (c' & clock' & E & _).
    exists (c', clock'). split; [done|]. by apply (creach_step cbrt memory o' (c, clock)). }
  destruct Hb as (b' & Eb' & Rb'), Hc as (c' & Ec' & Rc'). destruct (aexec_projects o r b' c' Eb' Ec') as (r' & E & <- & <- & Ef). by exists r'.
Qed.

Lemma areachable_both retx memory r : areachable retx memory r -> breachable retx (bbr_of r) /\ creachable cbrt memory (cubic_of r) /\ acc_flags r.1.1.1 = 0.
Proof using Hcbrt.
  induction 1 as [|o r r' _ (Rb & Rc & Ef) He E]; [split; [apply breach_init|split; [apply creach_init|done]]|].
  destruct (aexec_ok retx memory o r Rb Rc He) as (r2 & E2 & Rb2 & Rc2 & Ef2 & _). rewrite E2 in E. injection E as <-. split; [done|]. split; [done|congruence].
Qed.

End runs.

(** C15: the adaptive controller is BBR and Cubic side by side: each operation is one of
    BBR and one of Cubic on their own states, and succeeds unless Cubic divides by
    zero, within the bounds on sizes and times of both.  Until one of them is
    chosen the window is that of BBR and keeps its limits.  The one that is chosen by
    the RTT, at any time, is in a state that it could have reached alone, so that
    everything that is proved of its runs holds from then on. *)
Theorem adaptive_tracks cbrt retx_frames memory acc ps bclock cclock :
  cbrt_accurate cbrt -> areachable cbrt retx_frames memory (acc, ps, bclock, cclock) ->
  (forall stats_min_rtt, 0 <= stats_min_rtt -> exists w, adaptive_cc_get_cwnd stats_min_rtt acc = Some w /\ lsquic_bbr_get_cwnd stats_min_rtt (acc_bbr acc) = Some w /\
    bbr_min_cwnd <= w <= bbr_max_cwnd) /\
  (forall thresh srtt, match send_ctl_select_cc thresh srtt acc with
    | CC_CUBIC c => srtt <= thresh /\ creachable cbrt memory (c, cclock)
    | CC_BBR b => thresh < srtt /\ breachable retx_frames (b, ps, bclock)
    end) /\
  forall o, aenabled o (acc, ps, bclock, cclock) -> exists r', aexec cbrt o (acc, ps, bclock, cclock) = Some r' /\
    maybe bexec (seen_by_bbr o) (acc_bbr acc, ps, bclock) = Some (bbr_of r') /\ maybe (cexec cbrt) (seen_by_cubic o ps) (acc_cubic acc, cclock) = Some (cubic_of r').
Proof.
  intros Hcbrt R. destruct (areachable_both cbrt Hcbrt _ _ _ R) as (Rb & Rc & Ef). cbn [bbr_of cubic_of fst] in *. split; [|split].
  - intros stats Hs. pose proof (br_settled _ (breachable_ok _ _ Rb)) as Hb. cbn [fst] in Hb. destruct (get_cwnd_ok stats (acc_bbr acc) (st_inv _ Hb) (st_window _ Hb)) as (w & E & Hw).
    exists w. unfold adaptive_cc_get_cwnd. rewrite E, Ef. cbn [mbind option_bind]. by split_and!; [|done|apply Hw|apply Hw].
  - intros thresh srtt. unfold send_ctl_select_cc. by destruct (Z.leb_spec srtt thresh).
  - intros o He. destruct (aexec_ok cbrt Hcbrt retx_frames memory o (acc, ps, bclock, cclock) Rb Rc He) as (r' & E & _ & _ & _ & Eb & Ec). by exists r'.
Qed.

(** A round trip with one packet. *)
Module OneRound.

Definition ops : list aop := [ASent 50000 (BP 1 100000 2 1250 false None) 0 false; ABegin 150000 1250; AAck 0 1250 150000 false; AEnd 50000 9 0].
Definition start : arun := (adaptive_cc_init true 2 AfterLoss.memory, [], 0, 0).
Definition run : arun := Eval vm_compute in default start (fold_left (fun r o => r ← r; aexec CubeRoot.cbrt o r) ops (Some start)).

Lemma one_round_reachable : areachable CubeRoot.cbrt 2 AfterLoss.memory run.
Proof.
  eapply (areach_step _ _ _ (AEnd 50000 9 0)); [eapply (areach_step _ _ _ (AAck 0 1250 150000 false)); [eapply (areach_step _ _ _ (ABegin 150000 1250));
    [eapply (areach_step _ _ _ (ASent 50000 (BP 1 100000 2 1250 false None) 0 false)); [apply areach_init| |vm_compute; reflexivity]| |vm_compute; reflexivity]| |vm_compute; reflexivity]| |vm_compute; reflexivity];
    vm_compute; repeat split; discriminate || reflexivity || (intros H; by destruct H).
Qed.

End OneRound.

Lemma adaptive_tracks_witness : exists acc ps bclock cclock, OneRound.run = (acc, ps, bclock, cclock) /\ adaptive_cc_get_cwnd 50000 acc = Some 47970 /\
  exists c, send_ctl_select_cc 1500 1000 acc = CC_CUBIC c /\ lsquic_cubic_get_cwnd c = 48180 /\ creachable CubeRoot.cbrt AfterLoss.memory (c, cclock).
Proof.
  destruct (adaptive_tracks CubeRoot.cbrt 2 AfterLoss.memory OneRound.run.1.1.1 OneRound.run.1.1.2 OneRound.run.1.2 OneRound.run.2 CubeRoot.accurate OneRound.one_round_reachable) as (_ & Hs & _).
  specialize (Hs 1500 1000). eexists _, _, _, _. split; [reflexivity|]. split; [vm_compute; reflexivity|]. eexists. split; [reflexivity|]. split; [vm_compute; reflexivity|apply Hs].
Defined.
